(* ===== verification/_CoqProject ===== *)
-Q . S2P
Prelude.v
ByteArray.v
ByteCodec.v
ByteArrayIO.v
SortedVec.v
HashBuckets.v
HashMap.v
Streams.v
HashMapIO.v
ValueHeap.v
Dict.v
DictIO.v
StringDict.v
HashMultimap.v
CacheStatus.v
LruCache.v
TimedLruCache.v
TimedCache.v
RoaringArrays.v
RoaringInplace.v
RoaringArrayContainer.v
RoaringArrayFacts.v
RoaringBitset.v
RoaringBitsetFacts.v
RoaringBitsetOps.v
RoaringBitsetContainer.v
RoaringRun.v
RoaringRunFacts.v
RoaringRunOps.v
RoaringRunRange.v
RoaringRunSets.v
RoaringRunContainer.v
RoaringConvert.v
RoaringConvertFacts.v
RoaringMixed.v
RoaringMixedAndnot.v
RoaringMixedInter.v
RoaringMixedUnion.v
RoaringMixedXor.v
RoaringMixedRel.v
RoaringMixedNeg.v
RoaringContainer.v
RoaringContainerFacts.v
RoaringContainerOps.v
RoaringContainerSets.v
RoaringShared.v
RoaringSharedFacts.v
RoaringBitmap.v
RoaringBitmapRead.v
RoaringBitmapFacts.v
RoaringBitmapPoint.v
RoaringBitmapMerge.v
RoaringBitmapSets.v
Timer.v
TimerFacts.v
TimerClaims.v
Scheduler.v
SchedulerFacts.v
SchedulerSafety.v
IOManager.v
IOManagerFacts.v
IOManagerClaims.v
Connection.v
ZlibStream.v
RockProtocol.v
RockClaims.v
TextCodecs.v
Addresses.v
FloatBounds.v
LoadBalance.v
LoadBalanceClaims.v
WebSocket.v
WebSocketFacts.v
WebSocketClaims.v
Bitmap.v
BitmapFacts.v
BitmapIterators.v
BitmapCompress.v
BitmapQueries.v
BitmapClaims.v
