(* ===== verification/Prelude.v ===== *)
(** * coServerFramework: a verification library

    The repository is a C++ server framework (fibers, an epoll scheduler, HTTP,
    RPC and database clients) with a library of data structures of its own
    under [src/include/datastruct] and [src/src/datastruct], among them a copy
    of the C implementation of Roaring bitmaps.  Modelled, from the source and
    one definition per function or method, are the data structures and the
    concurrent core of the framework: timers, fibers and their scheduler, the
    IO manager, the frames of its WebSocket sessions, compression streams, the
    messages of its RPC protocol and load balancing; the rest is mostly calls into the system and third-party
    libraries.

    ** Conventions

    Integers are elements of [Z]; the wrap-around of a [w]-bit unsigned type is
    [uwrap w], the conversion to a signed type [swrap w] ([u16], [u32], [i32],
    ...).  Code that may throw is a transformer of its state with outcomes [Ok],
    [Throw] and [UB] (this file); the C code of Roaring, which does not throw,
    returns [option], where [None] is undefined behaviour: a read or a store
    outside an array.  A theorem whose conclusion is [Some _] therefore shows
    that no such access happens.  Loops that are not structural have fuel; the
    wrapper gives an amount that is proved sufficient (the result is [Some]).
    Allocation succeeds.  Locks are not modelled: what runs under a lock is one
    atomic step.  The scheduler and the IO manager are modelled with the
    interleaving of such steps: a thread's place in its loop is part of the
    state, and an execution is any list of steps of any threads.

    ** Files and parts of the program

    - [Prelude]: machine integers, outcomes, memory as byte lists, the shared
      lemmas and tactics.
    - [ByteArray], [ByteCodec], [ByteArrayIO]: [bytearray.h/.cpp], the chunked
      buffer with its cursor, the typed fields (fixed width, zigzag varints,
      strings), iovecs, files, and [Stream::readFixSize]/[writeFixSize] over a
      [SocketStream]; [recv] and [send] are parameters given by their results.
    - [SortedVec], [HashBuckets]: the sorted vectors and the bucket array of
      [util.h] that [HashMap], [Dict] and [HashMultimap] share.
    - [HashMap], [Streams], [HashMapIO]: [hash_map.h] and its file format.
    - [ValueHeap], [Dict], [DictIO], [StringDict]: [dict.h], over an explicit
      heap of value arrays (ownership, double frees), and the interning of
      strings through the murmur hashes of [hash_util.cpp].
    - [HashMultimap]: [hash_multimap.h].
    - [CacheStatus], [LruCache], [TimedLruCache], [TimedCache]: the caches, with
      iterators as node identifiers that may dangle.
    - [Timer] (definitions), [TimerFacts] (a plain map of pending timers),
      [TimerClaims]: [timer.h/.cpp], over a store of timer objects; the clock is
      an argument of each operation.
    - [Scheduler] (definitions), [SchedulerFacts], [SchedulerSafety]:
      [fiber.h/.cpp] and [scheduler.h/.cpp], the loop [Scheduler::run] of any
      number of worker threads, a step per critical section or shared access;
      what the code of a fiber does is an action of the environment.
    - [IOManager] (definitions), [IOManagerFacts] (a map of waiters),
      [IOManagerClaims]: [iomanager.h/.cpp]; it calls the scheduler and the
      timers, and [epoll] through the class [Epoll] of its documented behaviour.
    - [Connection]: a connected socket behind a [Stream] and the loops
      [readFixSize] and [writeFixSize] over plain buffers; [WebSocket]
      (definitions), [WebSocketFacts], [WebSocketClaims]:
      the frames of [ws_session.h/.cpp].  The loop that receives has the number
      of bytes the peer will send as its fuel: each round takes two of them.
    - [ZlibStream]: [zlib_stream.h/.cpp]; the functions of zlib are
      the class [Zlib], what its manual says of them the classes [ZlibSpec] and
      [ZlibLossless]: initialisation with parameters in the documented ranges and
      with memory, calls up to the end of a stream (nothing is promised of a
      stream after [Z_STREAM_END]), and that inflating what was deflated gives it
      back.  The length of a block is cut to [avail_in]'s 32 bits, as in the code;
      the fuel of the loop is a bound on the bytes that are still to come out, a
      field of [Zlib].
    - [RockProtocol] (definitions), [RockClaims]: [protocol.h/.cpp]
      and [rock_protocol.h/.cpp], which compose the byte buffer, its codecs, the
      connection and the compression streams.
    - [TextCodecs]: base 64, hexadecimal strings, [split] and [replace] of
      [hash_util.cpp]; URLs and [trim] of [util.cpp].
    - [Addresses]: the addresses of [address.h/.cpp]; [getaddrinfo] is a
      parameter, the byte order of the machine another.
    - [FloatBounds], [LoadBalance] (definitions), [LoadBalanceClaims]:
      [load_balance.h/.cpp]; the streams that are connected, the clock, [rand()] and
      the order in which an [unordered_map] is walked are parameters.  The fair
      weight is computed in the IEEE 754 arithmetic of the Standard Library's
      [SpecFloat] ([float] has 24 bits of precision, [double] 53), with the
      conversion to [int] undefined outside its range; [FloatBounds] bounds the
      rounding.
    - [Bitmap] (definitions), [BitmapFacts] (plain bitmaps as sets of positions),
      [BitmapIterators] (the walks with a callback, iterators, counting),
      [BitmapCompress] (the run-length code as a list of items, operations with a
      compressed operand), [BitmapQueries],
      [BitmapClaims]: [bitmap.h/.cpp], with words of 16 bits that
      loops also read four at a time; the files go through [ByteArray].
    - [RoaringArrays], [RoaringInplace]: the kernels on sorted [uint16_t] arrays
      of [roaring.c]: merges, galloping and block searches, and the same kernels
      when the output overwrites the input.
    - [RoaringArrayContainer], [RoaringArrayFacts]: the array container.
    - [RoaringBitset], [RoaringBitsetFacts], [RoaringBitsetOps],
      [RoaringBitsetContainer]: bit ranges on 64-bit words, the decoding of bits,
      and the bitset container with its cached cardinality.
    - [RoaringRun], [RoaringRunFacts], [RoaringRunOps], [RoaringRunRange],
      [RoaringRunSets], [RoaringRunContainer]: the run container.
    - [RoaringConvert], [RoaringConvertFacts]: the conversions between the three
      representations ([convert.c]).
    - [RoaringMixed] (definitions), [RoaringMixedAndnot], [RoaringMixedInter],
      [RoaringMixedUnion], [RoaringMixedXor], [RoaringMixedRel],
      [RoaringMixedNeg] (facts): the operations between containers of different
      types ([mixed_*.c]), with the in-place forms over one buffer.
    - [RoaringContainer] (definitions), [RoaringContainerFacts] with the class
      [ContainerOp], [RoaringContainerOps], [RoaringContainerSets] (claims): the
      dispatch over the container types ([containers.h], [containers.c]).
    - [RoaringShared], [RoaringBitmap], [RoaringBitmapRead] (definitions): shared
      containers with their counters in an explicit heap, the key array
      ([roaring_array.c]) and the bitmaps ([roaring.c]): updates, ranges, set
      operations, queries, flips.  Two bitmap arguments are two objects; calls
      with one object as both arguments of an in-place function are left out.
      [RoaringSharedFacts]: counters and references; [RoaringBitmapFacts]: the
      key array as a map; [RoaringBitmapPoint], [RoaringBitmapMerge] with the
      class [MergeOp], [RoaringBitmapSets]: the claims.

    ** What the theorems show

    The claims are numbered in the order of importance within each part.

    - C1, C2 (byte buffer): a [ByteArray] behaves as a byte sequence with a
      cursor for every chunk size; typed fields written are read back, and what
      happens to the values for which they are not (the least signed number, a
      string that is longer than its prefix can say).
    - C3 to C6 (tables): [HashMap], [Dict], [HashMultimap] refine finite maps
      for every sequence of calls and keep their memory, as long as the values of
      a node are less than 2^31, its [int] counter; the file of a [Dict] is
      written and restored.
    - C7 to C9 (caches): recency order, pruning with its callback and deadlines,
      for all calls with the setters; [TimedCache::del], which has no [return]
      after it erased an item, is undefined for a key that is there.
    - C10 to C13 (bitmaps of [bitmap.h]): a set of positions for every sequence
      of calls, with plain and compressed operands; compression and files lose
      nothing; the compressed form gives what the plain one gives; the sizes and
      calls where this ends.
    - C14 to C16 (timers): the manager is a map of pending timers; no answer
      hands a callback out early, late or twice; the event loop does not sleep past a deadline
      without a notification.
    - C17 to C20 (scheduler): exact counters and [stopping]; every callback is
      started once, on its thread; fibers that are scheduled only when they
      belong to nobody run on one thread at a time and no assertion fails; what
      [switchTo] does to this.
    - C21 to C23 (IO manager): exactly a map of waiters that the counter and the
      kernel's interest list follow, refusing a call only when [epoll_ctl] fails;
      how long the loop sleeps; two races.
    - C24, C25 (WebSocket): messages in any number of parts are received as
      they were sent; receiving ends on every input.
    - C26, C27 (Rock protocol): what arrives of a message, by the byte the
      decoder takes for its type; compressed messages.
    - C28 (compression streams): what was compressed is expanded to the same.
    - C29 to C31 (load balancing): the choice of an item by its exact share of
      the weights, fixed or fair, when a weight leaves [int]; the counters by the
      second, the balancer of a service that changes.
    - C32, C33 (text): decoding inverts encoding on every string of bytes; the
      loops over strings end, with what they compute and where they go wrong.
    - C34 (addresses): networks and netmasks bit by bit, and the prefix lengths
      that are not handled.
    - C35 to C38 (containers of any type): the set operations, queries, updates
      and the lazy operations with their repair, for every pair of types.
    - C39, C40 (Roaring bitmaps): single values and the set operations, for bitmaps whose
      containers may be shared: no use after release, exact counters, exact
      values, other bitmaps unchanged.
    - Further theorems, not numbered, that stand for themselves: the three
      container types of Roaring, each by itself; addresses as ordered values, their
      text and the parts of host names; the file
      operations of the byte buffer (with a defect of [writeToFile]), truncated
      files, the load bound of the tables, size bounds of the caches,
      the kernels on sorted arrays, also in place, searches, merges of runs,
      canonical runs, the byte formats of containers; WebSocket frames that are
      not handled; transfers of a fixed size between a buffer and a socket; the file of
      a [HashMap]; the early eviction of [TimedCache]; strings are interned ([StringDict]); a range removal that breaks
      inclusion, and the conversion of a run that ends with 65535 (Roaring).

    ** Not modelled

    The SIMD variants of Roaring (the portable code under [#else] is the one
    modelled), its printing functions, the iterators, the serialized forms of bitmaps, the
    unions ordered by a heap and the C++ wrappers.
    Of the scheduler: the thread that calls [start] and [stop], the root fiber of
    the caller's thread, and the machine contexts.  Of the IO manager: the pipe
    of [tickle].  Of the WebSocket sessions: the handshake.
    Hooks, sockets, HTTP, RPC servers, database and ORM parts, which are
    not modelled yet or only drive the system and third-party libraries; the
    manifest lists each with its reason. *)

From stdpp Require Import base list list_numbers numbers option sorting gmap.
From Stdlib Require Import ZArith Lia.

(** ** Machine integers

    A C or C++ integer of width [w] is an element of [Z]; the wrap-around of
    unsigned arithmetic is [uwrap], the conversion to a signed type (modular
    since C++20 and on every compiler the project supports) is [swrap]. *)

Definition uwrap (w x : Z) : Z := x mod 2 ^ w.
Definition swrap (w x : Z) : Z := (x + 2 ^ (w - 1)) mod 2 ^ w - 2 ^ (w - 1).

Definition u8 : Z -> Z := uwrap 8.
Definition u16 : Z -> Z := uwrap 16.
Definition u32 : Z -> Z := uwrap 32.
Definition u64 : Z -> Z := uwrap 64.
Definition i32 : Z -> Z := swrap 32.
Definition i64 : Z -> Z := swrap 64.

Definition in_u (w x : Z) : Prop := (0 <= x < 2 ^ w)%Z.
Definition in_s (w x : Z) : Prop := (- 2 ^ (w - 1) <= x < 2 ^ (w - 1))%Z.

(** Subtraction of [size_t] values that the source computes without a guard:
    the result wraps below zero. *)
Definition usub64 (a b : nat) : Z := u64 (Z.of_nat a - Z.of_nat b).

(** ** Outcomes

    A method that may throw or run into undefined behaviour is a state
    transformer.  A C++ exception leaves behind the state built so far, so
    [Throw] carries it; undefined behaviour carries nothing. *)

Inductive exn :=
| OutOfRange
| LogicError
| BadArray.

Inductive ub :=
| NullDeref
| DivByZero
| SignedOverflow
| BadIndex
| BadShift
| BadConversion
| BadFree
| AssertFail
| NoReturn
| Diverges.

Inductive outcome (S A : Type) :=
| Ret (a : A) (s : S)
| Throw (e : exn) (s : S)
| Undef (u : ub).
Arguments Ret {S A} a s.
Arguments Throw {S A} e s.
Arguments Undef {S A} u.

Definition M (S A : Type) : Type := S -> outcome S A.

#[export] Instance M_ret S : MRet (M S) := fun A a s => Ret a s.
#[export] Instance M_bind S : MBind (M S) := fun A B k m s =>
  match m s with
  | Ret a s' => k a s'
  | Throw e s' => Throw e s'
  | Undef u => Undef u
  end.

#[export] Instance M_fmap S : FMap (M S) := fun A B f m s =>
  match m s with
  | Ret a s' => Ret (f a) s'
  | Throw e s' => Throw e s'
  | Undef u => Undef u
  end.

Definition get {S} : M S S := fun s => Ret s s.
Definition put {S} (s' : S) : M S unit := fun _ => Ret tt s'.
Definition modify {S} (f : S -> S) : M S unit := fun s => Ret tt (f s).
Definition throw {S A} (e : exn) : M S A := fun s => Throw e s.
Definition undef {S A} (u : ub) : M S A := fun _ => Undef u.

(** [catch(...)]: the handler runs in the state at the throw. *)
Definition try_catch {S A} (m h : M S A) : M S A := fun s =>
  match m s with
  | Throw _ s' => h s'
  | o => o
  end.

(** ** Memory blocks

    [splice l off b] is the block [l] after [memcpy(l + off, b, |b|)]. *)
Definition splice {A} (l : list A) (off : nat) (b : list A) : list A :=
  take off l ++ b ++ drop (off + length b) l.

(** Division rounding up, the [std::ceil(1.0 * a / b)] of the sources (exact
    while [a < 2^53]). *)
Definition ceil_div (a b : nat) : nat := (a + b - 1) / b.

(** ** Little-endian byte strings *)
Fixpoint le_split (n : nat) (x : Z) : list Z :=
  match n with
  | O => []
  | S n => (x mod 256)%Z :: le_split n (x / 256)%Z
  end.

Fixpoint le_combine (l : list Z) : Z :=
  match l with
  | [] => 0
  | b :: l => b + 256 * le_combine l
  end%Z.

(** ** Lemmas *)

Create HintDb azz.

(** Running a sequence whose first action returns, throws or is undefined. *)
Lemma bind_Ret {S A B} (m : M S A) (k : A -> M S B) s a s' :
  m s = Ret a s' -> (m ≫= k) s = k a s'.
Proof. unfold mbind, M_bind. by intros ->. Qed.

Lemma bind_Throw {S A B} (m : M S A) (k : A -> M S B) s e s' :
  m s = Throw e s' -> (m ≫= k) s = Throw e s'.
Proof. unfold mbind, M_bind. by intros ->. Qed.

Lemma bind_Undef {S A B} (m : M S A) (k : A -> M S B) s u :
  m s = Undef u -> (m ≫= k) s = Undef u.
Proof. unfold mbind, M_bind. by intros ->. Qed.

Lemma fmap_Ret {S A B} (f : A -> B) (m : M S A) s a s' :
  m s = Ret a s' -> (f <$> m) s = Ret (f a) s'.
Proof. unfold fmap, M_fmap. by intros ->. Qed.

(** [step lem]: run the first action of the goal's sequence with [lem]. *)
Ltac step lem := erewrite bind_Ret by (eapply lem; eauto).

Lemma uwrap_range w x : (0 <= w)%Z -> in_u w (uwrap w x).
Proof.
  intros Hw. unfold in_u, uwrap. apply Z.mod_pos_bound.
  apply Z.pow_pos_nonneg; lia.
Qed.

Lemma uwrap_id w x : in_u w x -> uwrap w x = x.
Proof. intros H. apply Z.mod_small, H. Qed.

Lemma swrap_id w x : in_s w x -> (0 < w)%Z -> swrap w x = x.
Proof.
  intros [H1 H2] Hw. unfold swrap.
  assert (2 ^ w = 2 * 2 ^ (w - 1))%Z as Hp.
  { rewrite <- Z.pow_succ_r by lia. f_equal. lia. }
  rewrite Z.mod_small; lia.
Qed.

Lemma swrap_mod w x : swrap w (x mod 2 ^ w) = swrap w x.
Proof. unfold swrap. by rewrite Zplus_mod_idemp_l. Qed.

Lemma usub64_ge a b : b <= a -> (Z.of_nat a < 2 ^ 64)%Z ->
  usub64 a b = Z.of_nat (a - b).
Proof.
  intros H Ha. unfold usub64, u64. rewrite uwrap_id; [lia |].
  unfold in_u. lia.
Qed.

Lemma length_splice {A} (l b : list A) off :
  off + length b <= length l -> length (splice l off b) = length l.
Proof.
  intros H. unfold splice.
  rewrite !length_app, length_take, length_drop. lia.
Qed.

Lemma splice_nil {A} (l : list A) off : splice l off [] = l.
Proof.
  unfold splice. simpl. rewrite Nat.add_0_r. apply take_drop.
Qed.

Lemma splice_splice {A} (l b1 b2 : list A) off :
  off <= length l ->
  splice (splice l off b1) (off + length b1) b2 = splice l off (b1 ++ b2).
Proof.
  intros H. unfold splice.
  assert (length (take off l) = off) as Ht by (rewrite length_take; lia).
  rewrite (app_assoc (take off l) b1).
  rewrite take_app_length' by (rewrite length_app; lia).
  rewrite drop_app_ge by (rewrite length_app; lia).
  rewrite drop_drop, <- !app_assoc, !length_app, Ht. do 4 f_equal. lia.
Qed.

Lemma splice_app_r {A} (l1 l2 b : list A) off :
  splice (l1 ++ l2) (length l1 + off) b = l1 ++ splice l2 off b.
Proof.
  unfold splice. rewrite take_app_add, <- app_assoc. do 2 f_equal.
  rewrite drop_app_ge by lia. do 2 f_equal. lia.
Qed.

Lemma splice_app_l {A} (l1 l2 b : list A) off :
  off + length b <= length l1 ->
  splice (l1 ++ l2) off b = splice l1 off b ++ l2.
Proof.
  intros H. unfold splice.
  rewrite take_app_le by lia. rewrite drop_app_le by lia.
  by rewrite <- !app_assoc.
Qed.

Lemma take_splice {A} (l b : list A) off :
  off <= length l -> take off (splice l off b) = take off l.
Proof.
  intros H. unfold splice. rewrite take_app_le by (rewrite length_take; lia).
  rewrite take_take. f_equal. lia.
Qed.

Lemma read_splice {A} (l b : list A) off :
  off <= length l ->
  take (length b) (drop off (splice l off b)) = b.
Proof.
  intros H. unfold splice.
  rewrite drop_app_length' by (rewrite length_take; lia).
  by rewrite take_app_length.
Qed.

(** Reading a range that a write does not touch. *)
Lemma read_splice_disjoint {A} (l b : list A) off o n :
  off + length b <= length l -> o + n <= off \/ off + length b <= o ->
  take n (drop o (splice l off b)) = take n (drop o l).
Proof.
  intros Hl Hd. apply list_eq. intros i.
  destruct (decide (i < n)) as [Hi | Hi].
  2: { rewrite !lookup_take_ge by lia. done. }
  rewrite !lookup_take_lt, !lookup_drop by lia. unfold splice. destruct Hd.
  - rewrite lookup_app_l by (rewrite length_take; lia). by rewrite lookup_take_lt by lia.
  - rewrite lookup_app_r by (rewrite length_take; lia).
    rewrite lookup_app_r by (rewrite length_take; lia).
    rewrite lookup_drop, length_take. f_equal. lia.
Qed.

Lemma ceil_div_spec a b : 0 < b -> a <= b * ceil_div a b.
Proof.
  intros Hb. unfold ceil_div.
  pose proof (Nat.div_mod_eq (a + b - 1) b).
  pose proof (Nat.mod_upper_bound (a + b - 1) b). lia.
Qed.

Lemma ceil_div_pos a b : 0 < b -> 0 < a -> 0 < ceil_div a b.
Proof. intros Hb Ha. pose proof (ceil_div_spec a b Hb). nia. Qed.

Lemma length_le_split n x : length (le_split n x) = n.
Proof. revert x. induction n; intros; simpl; auto. Qed.

Lemma le_split_bytes n x : Forall (in_u 8) (le_split n x).
Proof.
  revert x. induction n; intros; simpl; constructor; auto.
  unfold in_u. apply Z.mod_pos_bound. lia.
Qed.

Lemma pow256_succ n :
  (2 ^ (8 * Z.of_nat (S n)) = 256 * 2 ^ (8 * Z.of_nat n))%Z.
Proof.
  replace (8 * Z.of_nat (S n))%Z with (8 + 8 * Z.of_nat n)%Z by lia.
  by rewrite Z.pow_add_r by lia.
Qed.

Lemma le_combine_split n x :
  le_combine (le_split n x) = (x mod 2 ^ (8 * Z.of_nat n))%Z.
Proof.
  revert x. induction n as [|n IH]; intros x; cbn [le_split le_combine].
  - by rewrite Z.mod_1_r.
  - rewrite IH, pow256_succ.
    rewrite (Z.rem_mul_r x 256 (2 ^ (8 * Z.of_nat n))) by lia. lia.
Qed.

Lemma le_combine_bound l :
  Forall (in_u 8) l -> (0 <= le_combine l < 2 ^ (8 * Z.of_nat (length l)))%Z.
Proof.
  induction 1 as [|b l Hb Hl IH]; cbn [le_combine length]; [lia |].
  rewrite pow256_succ. unfold in_u in Hb. simpl in Hb. lia.
Qed.

Lemma le_split_combine l :
  Forall (in_u 8) l -> le_split (length l) (le_combine l) = l.
Proof.
  induction 1 as [|b l Hb Hl IH]; cbn [le_split le_combine length]; [done |].
  unfold in_u in Hb. simpl in Hb.
  f_equal.
  - rewrite Z.mul_comm, Z_mod_plus_full. apply Z.mod_small. lia.
  - rewrite Z.mul_comm, Z.div_add, Z.div_small by lia. done.
Qed.

(** Bit-wise operations stay within a width. *)
Lemma in_u_bits w x : (0 <= w)%Z -> (0 <= x)%Z ->
  (forall i, w <= i -> Z.testbit x i = false)%Z -> in_u w x.
Proof.
  intros Hw Hx Hb. split; [done |].
  destruct (decide (x = 0)%Z) as [-> | Hnz]; [by apply Z.pow_pos_nonneg |].
  apply Z.log2_lt_pow2; [lia |].
  destruct (decide (Z.log2 x < w)%Z) as [| Hl]; [done |].
  specialize (Hb (Z.log2 x) ltac:(lia)). rewrite Z.bit_log2 in Hb by lia. done.
Qed.

Lemma in_u_testbit w x i : in_u w x -> (0 <= w <= i)%Z -> Z.testbit x i = false.
Proof.
  intros [Hx Hlt] Hi. destruct (decide (x = 0)%Z) as [-> | Hnz].
  { apply Z.testbit_0_l. }
  apply Z.bits_above_log2; [done |].
  assert (Z.log2 x < w)%Z by (apply Z.log2_lt_pow2; lia). lia.
Qed.

Lemma in_u_lxor w a b : (0 <= w)%Z -> in_u w a -> in_u w b -> in_u w (Z.lxor a b).
Proof.
  intros Hw Ha Hb. apply in_u_bits; [done | |].
  - apply Z.lxor_nonneg. destruct Ha, Hb. lia.
  - intros i Hi. rewrite Z.lxor_spec.
    rewrite (in_u_testbit w a), (in_u_testbit w b) by (done || lia). done.
Qed.

Lemma in_u_lor w a b : (0 <= w)%Z -> in_u w a -> in_u w b -> in_u w (Z.lor a b).
Proof.
  intros Hw Ha Hb. apply in_u_bits; [done | |].
  - apply Z.lor_nonneg. destruct Ha, Hb. lia.
  - intros i Hi. rewrite Z.lor_spec.
    rewrite (in_u_testbit w a), (in_u_testbit w b) by (done || lia). done.
Qed.

Lemma in_u_shiftr w a n : (0 <= n)%Z -> in_u w a -> in_u w (Z.shiftr a n).
Proof.
  intros Hn [Ha Hlt]. rewrite Z.shiftr_div_pow2 by done.
  pose proof (Z.pow_pos_nonneg 2 n). split.
  - apply Z.div_pos; lia.
  - apply Z.le_lt_trans with a; [| done]. apply Z.div_le_upper_bound; nia.
Qed.

Lemma in_u_land w a b : (0 <= w)%Z -> in_u w a -> (0 <= b)%Z -> in_u w (Z.land a b).
Proof.
  intros Hw Ha Hb. apply in_u_bits; [done | |].
  - apply Z.land_nonneg. destruct Ha. lia.
  - intros i Hi. rewrite Z.land_spec, (in_u_testbit w a) by (done || lia). done.
Qed.

#[export] Hint Resolve in_u_lxor in_u_lor in_u_shiftr in_u_land : azz.
#[export] Hint Resolve le_split_bytes uwrap_range : azz.
Create Rewrite HintDb azz_rw.
#[export] Hint Rewrite @length_splice @splice_nil @length_le_split : azz_rw.

(** A shifted number and bits below it. *)
Lemma lor_add count x k : (0 <= k -> 0 <= count < 2 ^ k -> Z.lor (x * 2 ^ k) count = x * 2 ^ k + count)%Z.
Proof.
  intros Hk Hc. rewrite Z.add_nocarry_lxor, Z.lxor_lor; [done | | ]; apply Z.bits_inj'; intros i Hi; rewrite Z.land_spec, Z.testbit_0_l;
    (destruct (decide (i < k)%Z); [by rewrite Z.mul_pow2_bits_low | by rewrite (in_u_testbit k count), andb_false_r by (done || lia)]).
Qed.
