(* ===== verification/ByteArray.v ===== *)
(** * ByteArray: the chunked serialisation buffer

    Models [src/include/datastruct/bytearray.h] and
    [src/src/datastruct/bytearray.cpp], with the byte-order helpers of
    [src/include/utils/endian.h].

    The linked list of [Node]s is the list [ba_nodes] of their buffers in
    link order: [_root] is position 0, a [Node*] is [Some i] for the i-th
    node and [None] for [nullptr], [next] of the last node is [None].  The
    [size] member of a node always equals the length of its buffer and no
    code changes it, so it is that length.  Dereferencing [nullptr] is
    [Undef NullDeref] and a copy that leaves a node's buffer is
    [Undef BadIndex], so a theorem that an operation returns also says that
    it does neither. *)

From S2P Require Import Prelude.
From stdpp Require Import base list list_numbers numbers option.
From Stdlib Require Import ZArith Lia.

(** ** Data *)

Abbreviation Node := (list Z) (only parsing).

Inductive endian :=
| LITTLE_ENDIAN
| BIG_ENDIAN.

#[export] Instance endian_eq_dec : EqDecision endian.
Proof. solve_decision. Defined.

Record ByteArray := mkByteArray {
  ba_baseSize : nat;
  ba_position : nat;
  ba_capacity : nat;
  ba_size : nat;
  ba_endian : endian;
  ba_nodes : list Node;
  ba_cur : option nat
}.

Definition set_position (p : nat) (s : ByteArray) : ByteArray :=
  mkByteArray (ba_baseSize s) p (ba_capacity s) (ba_size s) (ba_endian s)
    (ba_nodes s) (ba_cur s).
Definition set_size (n : nat) (s : ByteArray) : ByteArray :=
  mkByteArray (ba_baseSize s) (ba_position s) (ba_capacity s) n (ba_endian s)
    (ba_nodes s) (ba_cur s).
Definition set_nodes (ns : list Node) (s : ByteArray) : ByteArray :=
  mkByteArray (ba_baseSize s) (ba_position s) (ba_capacity s) (ba_size s)
    (ba_endian s) ns (ba_cur s).
Definition set_cur (c : option nat) (s : ByteArray) : ByteArray :=
  mkByteArray (ba_baseSize s) (ba_position s) (ba_capacity s) (ba_size s)
    (ba_endian s) (ba_nodes s) c.

(** [new char[s]()] is zero-initialised. *)
Definition new_Node (s : nat) : Node := replicate s 0%Z.

Definition new_ByteArray (baseSize : nat) : ByteArray :=
  mkByteArray baseSize 0 baseSize 0 BIG_ENDIAN [new_Node baseSize] (Some 0).

Definition setIsLittleEndian (val : bool) (s : ByteArray) : ByteArray :=
  mkByteArray (ba_baseSize s) (ba_position s) (ba_capacity s) (ba_size s)
    (if val then LITTLE_ENDIAN else BIG_ENDIAN) (ba_nodes s) (ba_cur s).

Definition isLittleEndian (s : ByteArray) : bool :=
  bool_decide (ba_endian s = LITTLE_ENDIAN).

Definition getReadSize (s : ByteArray) : Z := usub64 (ba_size s) (ba_position s).
Definition getCapacity (s : ByteArray) : Z := usub64 (ba_capacity s) (ba_position s).

(** ** Node pointers *)

Definition node_next (nodes : list Node) (i : nat) : option nat :=
  if S i <? length nodes then Some (S i) else None.

Definition deref (nodes : list Node) (c : option nat) : option (nat * Node) :=
  i ← c; n ← nodes !! i; Some (i, n).

(** ** Raw I/O *)

(** [addCapacity]: append enough zeroed nodes for [size] more bytes after the
    cursor; a cursor that stood at the end moves to the first new node. *)
Definition addCapacity (size : nat) : M ByteArray unit := fun s =>
  if size =? 0 then Ret tt s else
  let oldCap := getCapacity s in
  if (Z.of_nat size <=? oldCap)%Z then Ret tt s else
  if ba_baseSize s =? 0 then Undef DivByZero else
  let size := size - Z.to_nat oldCap in
  let count := ceil_div size (ba_baseSize s) in
  let first := if 0 <? count then Some (length (ba_nodes s)) else None in
  Ret tt (mkByteArray (ba_baseSize s) (ba_position s)
    (ba_capacity s + count * ba_baseSize s) (ba_size s) (ba_endian s)
    (ba_nodes s ++ replicate count (new_Node (ba_baseSize s)))
    (if (oldCap =? 0)%Z then first else ba_cur s)).

(** [memcpy(_cur->ptr + off, b, |b|)]. *)
Definition cur_memcpy (off : nat) (b : list Z) : M ByteArray unit := fun s =>
  match deref (ba_nodes s) (ba_cur s) with
  | None => Undef NullDeref
  | Some (i, n) =>
      if off + length b <=? length n
      then Ret tt (set_nodes (<[i := splice n off b]> (ba_nodes s)) s)
      else Undef BadIndex
  end.

(** [_cur->size] *)
Definition cur_size : M ByteArray nat := fun s =>
  match deref (ba_nodes s) (ba_cur s) with
  | None => Undef NullDeref
  | Some (_, n) => Ret (length n) s
  end.

(** [_cur = _cur->next] *)
Definition cur_next : M ByteArray unit := fun s =>
  match deref (ba_nodes s) (ba_cur s) with
  | None => Undef NullDeref
  | Some (i, _) => Ret tt (set_cur (node_next (ba_nodes s) i) s)
  end.

Definition add_position (n : nat) : M ByteArray unit :=
  modify (fun s => set_position (ba_position s + n) s).

(** The copy loop of [write]; [buf] is what [buf + bufOffset] still holds. *)
Fixpoint write_loop (fuel nodeOffset nodeAvail : nat) (buf : list Z) : M ByteArray unit :=
  match buf with
  | [] => mret tt
  | _ =>
    match fuel with
    | O => undef Diverges
    | S fuel =>
      if length buf <=? nodeAvail then
        cur_memcpy nodeOffset buf ;;
        n ← cur_size;
        (if n =? nodeOffset + length buf then cur_next else mret tt) ;;
        add_position (length buf)
      else
        cur_memcpy nodeOffset (take nodeAvail buf) ;;
        add_position nodeAvail ;;
        cur_next ;;
        n ← cur_size;
        write_loop fuel 0 n (drop nodeAvail buf)
    end
  end.

Definition ByteArray_write (buf : list Z) : M ByteArray unit :=
  if length buf =? 0 then mret tt else
  addCapacity (length buf) ;;
  s ← get;
  if ba_baseSize s =? 0 then undef DivByZero else
  let nodeOffset := ba_position s mod ba_baseSize s in
  n ← cur_size;
  write_loop (S (length (ba_nodes s))) nodeOffset (n - nodeOffset) buf ;;
  modify (fun s => if ba_size s <? ba_position s then set_size (ba_position s) s else s).

(** The copy loop shared by both [read] methods: the local (or member)
    cursor [cur] and [position] travel with it. *)
Fixpoint read_loop (fuel : nat) (nodes : list Node) (cur : option nat)
    (position nodeOffset nodeAvail size : nat) : outcome (option nat * nat) (list Z) :=
  match size with
  | O => Ret [] (cur, position)
  | _ =>
    match fuel with
    | O => Undef Diverges
    | S fuel =>
      match deref nodes cur with
      | None => Undef NullDeref
      | Some (i, n) =>
        if size <=? nodeAvail then
          if nodeOffset + size <=? length n then
            Ret (take size (drop nodeOffset n))
              (if length n =? nodeOffset + size then node_next nodes i else cur,
               position + size)
          else Undef BadIndex
        else
          if nodeOffset + nodeAvail <=? length n then
            let cur' := node_next nodes i in
            match deref nodes cur' with
            | None => Undef NullDeref
            | Some (_, n') =>
              match read_loop fuel nodes cur' (position + nodeAvail) 0 (length n')
                      (size - nodeAvail) with
              | Ret bs st => Ret (take nodeAvail (drop nodeOffset n) ++ bs) st
              | Throw e st => Throw e st
              | Undef u => Undef u
              end
            end
          else Undef BadIndex
      end
    end
  end.

Definition ByteArray_read (size : nat) : M ByteArray (list Z) := fun s =>
  if (getReadSize s <? Z.of_nat size)%Z then Throw OutOfRange s else
  if ba_baseSize s =? 0 then Undef DivByZero else
  let nodeOffset := ba_position s mod ba_baseSize s in
  match deref (ba_nodes s) (ba_cur s) with
  | None => Undef NullDeref
  | Some (_, n) =>
    match read_loop (S (length (ba_nodes s))) (ba_nodes s) (ba_cur s) (ba_position s)
            nodeOffset (length n - nodeOffset) size with
    | Ret bs (c, p) => Ret bs (set_position p (set_cur c s))
    | Throw e (c, p) => Throw e (set_position p (set_cur c s))
    | Undef u => Undef u
    end
  end.

(** [cur = _root; while(count > 0) { cur = cur->next; --count; }] *)
Fixpoint node_walk (nodes : list Node) (cur : option nat) (count : nat) : option (option nat) :=
  match count with
  | O => Some cur
  | S count =>
    match deref nodes cur with
    | None => None
    | Some (i, _) => node_walk nodes (node_next nodes i) count
    end
  end.

(** [read(buf, size, position) const]: note the unguarded [_size - position]. *)
Definition ByteArray_read_at (size position : nat) : M ByteArray (list Z) := fun s =>
  if (usub64 (ba_size s) position <? Z.of_nat size)%Z then Throw OutOfRange s else
  if ba_baseSize s =? 0 then Undef DivByZero else
  let nodeOffset := position mod ba_baseSize s in
  let count := position / ba_baseSize s in
  match node_walk (ba_nodes s) (Some 0) count with
  | None => Undef NullDeref
  | Some cur =>
    match deref (ba_nodes s) cur with
    | None => Undef NullDeref
    | Some (_, n) =>
      match read_loop (S (length (ba_nodes s))) (ba_nodes s) cur position
              nodeOffset (length n - nodeOffset) size with
      | Ret bs _ => Ret bs s
      | Throw e _ => Throw e s
      | Undef u => Undef u
      end
    end
  end.

(** ** State management *)

Definition ByteArray_clear (s : ByteArray) : ByteArray :=
  mkByteArray (ba_baseSize s) 0 (ba_baseSize s) 0 (ba_endian s)
    (take 1 (ba_nodes s)) (Some 0).

Fixpoint setPosition_loop (fuel v : nat) : M ByteArray unit :=
  n ← cur_size;
  if v <=? n then (if v =? n then cur_next else mret tt) else
  match fuel with
  | O => undef Diverges
  | S fuel => cur_next ;; setPosition_loop fuel (v - n)
  end.

Definition setPosition (v : nat) : M ByteArray unit :=
  s ← get;
  if ba_capacity s <? v then throw OutOfRange else
  modify (set_position v) ;;
  modify (fun s => if ba_size s <? ba_position s then set_size (ba_position s) s else s) ;;
  modify (set_cur (Some 0)) ;;
  setPosition_loop (length (ba_nodes s)) v.

(** [toString]: the bytes from the cursor to the end. *)
Definition toString : M ByteArray (list Z) := fun s =>
  if (getReadSize s =? 0)%Z then Ret [] s
  else ByteArray_read_at (Z.to_nat (getReadSize s)) (ba_position s) s.

(** ** The abstract buffer

    [data] is the valid content and [cursor] the node pointer that belongs
    to a position: the node that holds the byte at that position, or
    [nullptr] when the position is the end of the allocated nodes. *)

Definition data (s : ByteArray) : list Z := take (ba_size s) (concat (ba_nodes s)).

Definition remaining (s : ByteArray) : list Z := drop (ba_position s) (data s).

Definition cursor (B : nat) (nodes : list Node) (p : nat) : option nat :=
  if p <? B * length nodes then Some (p / B) else None.

Definition uniform (B : nat) (nodes : list Node) : Prop :=
  Forall (fun n => length n = B) nodes.

(** The representation invariant; the last field says that the allocated
    memory fits the address space. *)
Record wf (s : ByteArray) : Prop := {
  wf_base : 0 < ba_baseSize s;
  wf_root : ba_nodes s <> [];
  wf_uniform : uniform (ba_baseSize s) (ba_nodes s);
  wf_capacity : ba_capacity s = ba_baseSize s * length (ba_nodes s);
  wf_cursor : ba_cur s = cursor (ba_baseSize s) (ba_nodes s) (ba_position s);
  wf_position : ba_position s <= ba_size s;
  wf_size : ba_size s <= ba_capacity s;
  wf_mem : (Z.of_nat (ba_capacity s) < 2 ^ 64)%Z
}.

(** The state after moving the cursor to [p]. *)
Definition seek (p : nat) (s : ByteArray) : ByteArray :=
  mkByteArray (ba_baseSize s) p (ba_capacity s) (ba_size s) (ba_endian s)
    (ba_nodes s) (cursor (ba_baseSize s) (ba_nodes s) p).

(** [written s buf s']: [s'] is [s] after [buf] was written at its cursor. *)
Record written (s : ByteArray) (buf : list Z) (s' : ByteArray) : Prop := {
  written_wf : wf s';
  written_base : ba_baseSize s' = ba_baseSize s;
  written_endian : ba_endian s' = ba_endian s;
  written_position : ba_position s' = ba_position s + length buf;
  written_size : ba_size s' = Nat.max (ba_size s) (ba_position s + length buf);
  written_capacity : ba_capacity s' <=
    Nat.max (ba_capacity s) (ba_position s + length buf + ba_baseSize s);
  written_data : data s' = splice (data s) (ba_position s) buf
}.

(** Room for [n] bytes after the cursor (and the rounding up to whole nodes)
    in the address space. *)
Definition fits (n : nat) (s : ByteArray) : Prop :=
  (Z.of_nat (Nat.max (ba_capacity s) (ba_position s + n + ba_baseSize s)) < 2 ^ 64)%Z.

(** ** Lemmas on uniform node lists *)

Lemma length_concat_uniform B nodes :
  uniform B nodes -> length (concat nodes) = B * length nodes.
Proof.
  induction 1 as [|n l Hn Hl IH]; simpl; [lia |].
  rewrite length_app, IH, Hn. lia.
Qed.

Lemma uniform_take B nodes i : uniform B nodes -> uniform B (take i nodes).
Proof. apply Forall_take. Qed.

Lemma uniform_drop B nodes i : uniform B nodes -> uniform B (drop i nodes).
Proof. apply Forall_drop. Qed.

Lemma uniform_lookup B nodes i n : uniform B nodes -> nodes !! i = Some n -> length n = B.
Proof. intros H Hi. exact (Forall_lookup_1 _ _ _ _ H Hi). Qed.

Lemma uniform_replicate B k : uniform B (replicate k (new_Node B)).
Proof. apply Forall_replicate. apply length_replicate. Qed.

#[export] Hint Resolve uniform_take uniform_drop uniform_lookup uniform_replicate : azz.

Lemma concat_split B nodes i n :
  uniform B nodes -> nodes !! i = Some n ->
  concat nodes = concat (take i nodes) ++ n ++ concat (drop (S i) nodes) /\
  length (concat (take i nodes)) = B * i.
Proof.
  intros H Hi. split.
  - rewrite <- (take_drop_middle _ _ _ Hi) at 1. by rewrite concat_app.
  - rewrite (length_concat_uniform B) by auto with azz.
    rewrite length_take_le; [done |].
    apply lookup_lt_Some in Hi. lia.
Qed.

Lemma concat_insert_splice B nodes i n off b :
  uniform B nodes -> nodes !! i = Some n -> off + length b <= B ->
  concat (<[i := splice n off b]> nodes) = splice (concat nodes) (B * i + off) b.
Proof.
  intros H Hi Hb. pose proof (lookup_lt_Some _ _ _ Hi) as Hlt.
  destruct (concat_split B nodes i n H Hi) as [Hc Hl].
  rewrite Hc, <- Hl, splice_app_r.
  rewrite splice_app_l by (by rewrite (uniform_lookup B nodes i n)).
  rewrite insert_take_drop by done. by rewrite concat_app.
Qed.

Lemma uniform_insert B nodes i n off b :
  uniform B nodes -> nodes !! i = Some n -> off + length b <= B ->
  uniform B (<[i := splice n off b]> nodes).
Proof.
  intros H Hi Hb. apply Forall_insert; [done |].
  rewrite length_splice; rewrite (uniform_lookup B nodes i n H Hi); done.
Qed.

Lemma drop_concat B nodes i n off :
  uniform B nodes -> nodes !! i = Some n -> off <= B ->
  drop (B * i + off) (concat nodes) = drop off n ++ concat (drop (S i) nodes).
Proof.
  intros H Hi Ho. destruct (concat_split B nodes i n H Hi) as [Hc Hl].
  rewrite Hc, drop_app_ge, Hl by lia.
  replace (B * i + off - B * i) with off by lia.
  rewrite drop_app_le; [done |]. by rewrite (uniform_lookup B nodes i n H Hi).
Qed.

(** Positions inside the nodes. *)
Lemma pos_split B p : 0 < B -> p = B * (p / B) + p mod B /\ p mod B < B.
Proof.
  intros HB. split; [apply Nat.div_mod_eq | apply Nat.mod_upper_bound; lia].
Qed.

Lemma pos_node B (nodes : list Node) p :
  0 < B -> p < B * length nodes -> exists n, nodes !! (p / B) = Some n.
Proof.
  intros HB Hp. apply lookup_lt_is_Some_2.
  apply Nat.Div0.div_lt_upper_bound. lia.
Qed.

Lemma pos_unique B i off : off < B -> (B * i + off) / B = i /\ (B * i + off) mod B = off.
Proof.
  intros H. split.
  - symmetry. apply (Nat.div_unique _ _ _ off); lia.
  - symmetry. apply (Nat.mod_unique _ _ i); lia.
Qed.

Lemma cursor_Some B nodes p : p < B * length nodes -> cursor B nodes p = Some (p / B).
Proof.
  intros H. unfold cursor. by rewrite (proj2 (Nat.ltb_lt _ _) H).
Qed.

Lemma cursor_0 B nodes : 0 < B -> nodes <> [] -> cursor B nodes 0 = Some 0.
Proof.
  intros HB Hn. rewrite cursor_Some.
  - by rewrite Nat.Div0.div_0_l.
  - destruct nodes; [done|]. simpl. lia.
Qed.

Lemma cursor_length B nodes nodes' p :
  length nodes = length nodes' -> cursor B nodes p = cursor B nodes' p.
Proof. intros H. unfold cursor. by rewrite H. Qed.

(** The node after the one that was filled to its end. *)
Lemma cursor_next B nodes i :
  0 < B -> i < length nodes -> node_next nodes i = cursor B nodes (B * S i).
Proof.
  intros HB Hi. unfold node_next, cursor.
  destruct (Nat.ltb_spec (S i) (length nodes)) as [H|H].
  - rewrite (proj2 (Nat.ltb_lt (B * S i) _)) by nia.
    by rewrite Nat.mul_comm, Nat.div_mul by lia.
  - rewrite (proj2 (Nat.ltb_ge (B * S i) _)) by nia. done.
Qed.

(** The cursor after [k] more bytes of node [i] at offset [off]. *)
Lemma cursor_step B nodes i off k :
  0 < B -> i < length nodes -> off + k <= B ->
  (if B =? off + k then node_next nodes i else Some i)
    = cursor B nodes (B * i + off + k) \/ k = 0.
Proof.
  intros HB Hi Hk. destruct (decide (k = 0)) as [->|Hk0]; [by right|left].
  destruct (Nat.eqb_spec B (off + k)) as [He|Hne].
  - rewrite (cursor_next B) by done. f_equal. lia.
  - assert (off + k < B) as Hlt by lia.
    rewrite cursor_Some by nia.
    by rewrite <- Nat.add_assoc, (proj1 (pos_unique B i (off + k) Hlt)).
Qed.

(** ** Steps of the cursor *)

Lemma deref_Some nodes i n : nodes !! i = Some n -> deref nodes (Some i) = Some (i, n).
Proof. intros H. unfold deref. simpl. by rewrite H. Qed.

Lemma cur_memcpy_eq s i n off b :
  ba_cur s = Some i -> ba_nodes s !! i = Some n -> off + length b <= length n ->
  cur_memcpy off b s = Ret tt (set_nodes (<[i := splice n off b]> (ba_nodes s)) s).
Proof.
  intros Hc Hn Hb. unfold cur_memcpy, deref. rewrite Hc. simpl. rewrite Hn. simpl.
  by rewrite (proj2 (Nat.leb_le _ _) Hb).
Qed.

Lemma cur_size_eq s i n :
  ba_cur s = Some i -> ba_nodes s !! i = Some n -> cur_size s = Ret (length n) s.
Proof. intros Hc Hn. unfold cur_size, deref. rewrite Hc. simpl. by rewrite Hn. Qed.

Lemma cur_next_eq s i n :
  ba_cur s = Some i -> ba_nodes s !! i = Some n ->
  cur_next s = Ret tt (set_cur (node_next (ba_nodes s) i) s).
Proof. intros Hc Hn. unfold cur_next, deref. rewrite Hc. simpl. by rewrite Hn. Qed.

(** ** The write loop fills the nodes from the cursor on *)

Lemma write_loop_S fuel off avail buf : buf <> [] ->
  write_loop (S fuel) off avail buf =
  if length buf <=? avail then
    cur_memcpy off buf ;;
    n ← cur_size;
    (if n =? off + length buf then cur_next else mret tt) ;;
    add_position (length buf)
  else
    cur_memcpy off (take avail buf) ;;
    add_position avail ;;
    cur_next ;;
    n ← cur_size;
    write_loop fuel 0 n (drop avail buf).
Proof. by destruct buf. Qed.

(** What is left fits the current node. *)
Lemma write_loop_last fuel s i n off buf :
  buf <> [] -> ba_cur s = Some i -> ba_nodes s !! i = Some n ->
  off + length buf <= length n ->
  write_loop (S fuel) off (length n - off) buf s
  = Ret tt (mkByteArray (ba_baseSize s) (ba_position s + length buf) (ba_capacity s)
      (ba_size s) (ba_endian s) (<[i := splice n off buf]> (ba_nodes s))
      (if length n =? off + length buf then node_next (ba_nodes s) i else Some i)).
Proof.
  intros Hne Hc Hn Hob. rewrite write_loop_S by done.
  pose proof (lookup_lt_Some _ _ _ Hn) as Hi.
  rewrite (proj2 (Nat.leb_le (length buf) _)) by lia.
  step cur_memcpy_eq.
  pose proof (list_lookup_insert_eq (ba_nodes s) i (splice n off buf) Hi) as Hn'.
  step cur_size_eq. rewrite length_splice by lia.
  destruct (length n =? off + length buf).
  - step cur_next_eq. cbn. unfold node_next. by rewrite length_insert.
  - rewrite <- Hc. done.
Qed.

(** The current node is filled and the loop goes on with the next one. *)
Lemma write_loop_step fuel s i n n2 off buf :
  ba_cur s = Some i -> ba_nodes s !! i = Some n -> ba_nodes s !! S i = Some n2 ->
  off <= length n -> length n - off < length buf ->
  write_loop (S fuel) off (length n - off) buf s
  = write_loop fuel 0 (length n2) (drop (length n - off) buf)
      (mkByteArray (ba_baseSize s) (ba_position s + (length n - off)) (ba_capacity s)
        (ba_size s) (ba_endian s)
        (<[i := splice n off (take (length n - off) buf)]> (ba_nodes s)) (Some (S i))).
Proof.
  intros Hc Hn Hn2 Ho Hb.
  rewrite write_loop_S by (intros ->; simpl in Hb; lia).
  pose proof (lookup_lt_Some _ _ _ Hn) as Hi.
  pose proof (lookup_lt_Some _ _ _ Hn2) as Hi2.
  rewrite (proj2 (Nat.leb_gt (length buf) _)) by lia.
  set (b1 := take (length n - off) buf).
  assert (off + length b1 <= length n) by (unfold b1; rewrite length_take; lia).
  pose proof (list_lookup_insert_eq (ba_nodes s) i (splice n off b1) Hi) as Hn'.
  pose proof Hn2 as Hn2'.
  rewrite <- (list_lookup_insert_ne _ i _ (splice n off b1)) in Hn2' by lia.
  step cur_memcpy_eq. erewrite bind_Ret by done. step cur_next_eq.
  cbn [ba_nodes set_nodes set_position]. unfold node_next.
  rewrite length_insert, (proj2 (Nat.ltb_lt _ _) Hi2).
  step cur_size_eq. done.
Qed.

Lemma write_loop_spec fuel : forall s buf,
  0 < ba_baseSize s -> uniform (ba_baseSize s) (ba_nodes s) ->
  ba_cur s = Some (ba_position s / ba_baseSize s) ->
  buf <> [] ->
  ba_position s + length buf <= ba_baseSize s * length (ba_nodes s) ->
  length (ba_nodes s) - ba_position s / ba_baseSize s <= fuel ->
  exists nodes',
    write_loop fuel (ba_position s mod ba_baseSize s)
      (ba_baseSize s - ba_position s mod ba_baseSize s) buf s
    = Ret tt (mkByteArray (ba_baseSize s) (ba_position s + length buf)
        (ba_capacity s) (ba_size s) (ba_endian s) nodes'
        (cursor (ba_baseSize s) nodes' (ba_position s + length buf))) /\
    uniform (ba_baseSize s) nodes' /\ length nodes' = length (ba_nodes s) /\
    concat nodes' = splice (concat (ba_nodes s)) (ba_position s) buf.
Proof.
  induction fuel as [|fuel IH]; intros s buf HB Hu Hc Hne Hroom Hf;
    (assert (0 < length buf) as Hlb by (destruct buf; [done | simpl; lia]));
    destruct (pos_split (ba_baseSize s) (ba_position s) HB) as [Hp Hm];
    (destruct (pos_node (ba_baseSize s) (ba_nodes s) (ba_position s) HB)
      as [n Hn]; [lia|]);
    pose proof (lookup_lt_Some _ _ _ Hn) as Hilt; [lia|].
  pose proof (uniform_lookup _ _ _ _ Hu Hn) as Hln.
  set (B := ba_baseSize s) in *. set (i := ba_position s / B) in *.
  set (off := ba_position s mod B) in *.
  replace (B - off) with (length n - off) by lia.
  destruct (Nat.le_gt_cases (length buf) (B - off)) as [Hfit|Hbig].
  - rewrite (write_loop_last _ _ i n) by (done || lia).
    exists (<[i := splice n off buf]> (ba_nodes s)).
    split; [|split; [apply uniform_insert; [done..|lia]
      | split; [apply length_insert|]]].
    2:{ rewrite (concat_insert_splice B _ i n) by (done || lia). f_equal. lia. }
    do 2 f_equal. rewrite Hln. fold B.
    rewrite (cursor_length _ _ (ba_nodes s)) by apply length_insert.
    destruct (cursor_step B (ba_nodes s) i off (length buf) HB) as [->|]; [lia..| |lia].
    f_equal. lia.
  - assert (S i < length (ba_nodes s)) as HS by nia.
    destruct (lookup_lt_is_Some_2 _ _ HS) as [n2 Hn2].
    rewrite (write_loop_step _ _ i n n2) by (done || lia).
    rewrite Hln, (uniform_lookup _ _ _ _ Hu Hn2).
    set (a := B - off) in *. fold B.
    assert (length (take a buf) = a) as Hta by (rewrite length_take; lia).
    match goal with |- exists _, write_loop _ _ _ _ ?s1 = _ /\ _ => set (s' := s1) end.
    assert ((ba_position s' / B) = S i /\ (ba_position s') mod B = 0) as [Hd Hr].
    { unfold s'; cbn [ba_position].
      replace (ba_position s + a) with (B * S i + 0) by lia. apply pos_unique. lia. }
    destruct (IH s' (drop a buf)) as (nodes' & Hw & Hu' & Hl' & Hcat);
      change (ba_baseSize s') with B in *.
    + done.
    + apply uniform_insert; [done..|lia].
    + by rewrite Hd.
    + intros Hd0. apply (f_equal length) in Hd0.
      rewrite length_drop in Hd0. simpl in Hd0. lia.
    + unfold s'; cbn [ba_position ba_nodes]. rewrite length_insert, length_drop. lia.
    + rewrite Hd. unfold s'; cbn [ba_nodes]. rewrite length_insert. lia.
    + exists nodes'. rewrite Hr, Nat.sub_0_r in Hw.
      rewrite Hw. unfold s' in *; cbn [ba_position ba_nodes ba_capacity ba_size ba_endian] in *.
      rewrite length_insert in Hl'. rewrite length_drop in *.
      replace (ba_position s + a + (length buf - a)) with (ba_position s + length buf) by lia.
      split; [done|]. split; [done|]. split; [done|].
      rewrite Hcat, (concat_insert_splice B _ i n) by (done || lia).
      replace (B * i + off) with (ba_position s) by lia. rewrite <- Hta at 2.
      rewrite splice_splice; [by rewrite take_drop|].
      rewrite (length_concat_uniform B) by done. lia.
Qed.

(** ** Growing the node list *)

Lemma data_app s nodes' extra :
  ba_size s <= length (concat (ba_nodes s)) -> nodes' = ba_nodes s ++ extra ->
  take (ba_size s) (concat nodes') = data s.
Proof. intros H ->. unfold data. rewrite concat_app, take_app_le by done. done. Qed.

Lemma wf_length s : wf s -> length (concat (ba_nodes s)) = ba_capacity s.
Proof.
  intros H. rewrite (length_concat_uniform (ba_baseSize s)) by apply H.
  symmetry. apply H.
Qed.

Lemma getCapacity_wf s : wf s -> getCapacity s = Z.of_nat (ba_capacity s - ba_position s).
Proof.
  intros H. apply usub64_ge; [|apply H].
  pose proof (wf_position _ H). pose proof (wf_size _ H). lia.
Qed.

Lemma getReadSize_wf s : wf s -> getReadSize s = Z.of_nat (ba_size s - ba_position s).
Proof.
  intros H. apply usub64_ge; [apply H|].
  pose proof (wf_size _ H). pose proof (wf_mem _ H). lia.
Qed.

Lemma length_data s : wf s -> length (data s) = ba_size s.
Proof.
  intros H. unfold data. rewrite length_take, wf_length by done.
  pose proof (wf_size _ H). lia.
Qed.

(** [addCapacity] keeps the content and the invariant, and makes room for
    [n] bytes after the cursor. *)
Lemma addCapacity_spec s n : wf s -> fits n s ->
  exists s', addCapacity n s = Ret tt s' /\ wf s' /\
    ba_baseSize s' = ba_baseSize s /\ ba_position s' = ba_position s /\
    ba_size s' = ba_size s /\ ba_endian s' = ba_endian s /\ data s' = data s /\
    ba_capacity s' <= Nat.max (ba_capacity s) (ba_position s + n + ba_baseSize s) /\
    ba_position s + n <= ba_capacity s'.
Proof.
  intros H Hf. pose proof H as [HB Hr Hu Hcap Hcur Hpos Hsz Hmem].
  unfold addCapacity.
  destruct (Nat.eqb_spec n 0) as [->|Hn]; [exists s; repeat split; auto; lia|].
  rewrite (getCapacity_wf _ H).
  destruct (Z.leb_spec (Z.of_nat n) (Z.of_nat (ba_capacity s - ba_position s))) as [Hle|Hgt];
    [exists s; repeat split; auto; lia|].
  rewrite (proj2 (Nat.eqb_neq (ba_baseSize s) 0)) by lia. rewrite Nat2Z.id.
  set (need := n - (ba_capacity s - ba_position s)).
  set (k := ceil_div need (ba_baseSize s)).
  assert (0 < k) as Hk by (apply ceil_div_pos; lia).
  assert (need <= ba_baseSize s * k) as Hneed by (apply ceil_div_spec; lia).
  assert (k * ba_baseSize s <= need + ba_baseSize s) as Hup.
  { unfold k, ceil_div. pose proof (Nat.Div0.mul_div_le (need + ba_baseSize s - 1) (ba_baseSize s)). lia. }
  rewrite (proj2 (Nat.ltb_lt 0 k) Hk).
  eexists. split; [reflexivity|]. unfold fits in Hf.
  split; [constructor|]; cbn [ba_baseSize ba_position ba_capacity ba_size ba_nodes ba_cur ba_endian].
  - done.
  - destruct (ba_nodes s); done.
  - apply Forall_app. split; [done|]. apply uniform_replicate.
  - rewrite length_app, length_replicate. lia.
  - destruct (Z.eqb_spec (Z.of_nat (ba_capacity s - ba_position s)) 0) as [Hz|Hz].
    + replace (ba_position s) with (ba_baseSize s * length (ba_nodes s) + 0) by lia.
      rewrite cursor_Some by (rewrite length_app, length_replicate; nia).
      by rewrite (proj1 (pos_unique _ _ _ HB)).
    + rewrite Hcur, !cursor_Some; rewrite ?length_app; [done|nia|lia].
  - done.
  - lia.
  - lia.
  - repeat split; try lia.
    unfold data at 1; cbn [ba_size ba_nodes]. eapply data_app; [|done].
    rewrite wf_length; done.
Qed.

Lemma splice_take {A} (l b : list A) n off :
  off <= n -> n <= length l ->
  take (Nat.max n (off + length b)) (splice l off b) = splice (take n l) off b.
Proof.
  intros H1 H2. unfold splice.
  rewrite take_take, (Nat.min_l off n) by lia.
  rewrite take_app, length_take, take_take.
  rewrite (Nat.min_r _ off), (Nat.min_l off (length l)) by lia. f_equal.
  rewrite take_app. rewrite (take_ge b) by lia. f_equal.
  rewrite skipn_firstn_comm. f_equal. lia.
Qed.

(** The state in which the nodes were overwritten from the cursor on. *)
Lemma written_nodes s nodes' buf :
  wf s -> uniform (ba_baseSize s) nodes' -> length nodes' = length (ba_nodes s) ->
  concat nodes' = splice (concat (ba_nodes s)) (ba_position s) buf ->
  ba_position s + length buf <= ba_capacity s ->
  written s buf (mkByteArray (ba_baseSize s) (ba_position s + length buf) (ba_capacity s)
    (Nat.max (ba_size s) (ba_position s + length buf)) (ba_endian s) nodes'
    (cursor (ba_baseSize s) nodes' (ba_position s + length buf))).
Proof.
  intros H Hu Hl Hcat Hroom. pose proof H as [HB Hr Hu0 Hcap Hcur Hpos Hsz Hmem].
  constructor; cbn [ba_baseSize ba_position ba_capacity ba_size ba_nodes ba_cur ba_endian];
    try done; try lia.
  - constructor; cbn [ba_baseSize ba_position ba_capacity ba_size ba_nodes ba_cur];
      rewrite ?Hl; try done; try lia.
    intros ->. simpl in Hl. by destruct (ba_nodes s).
  - unfold data; cbn [ba_size ba_nodes]. rewrite Hcat.
    apply splice_take; rewrite ?wf_length; done.
Qed.

(** [write]: the bytes land at the cursor, the rest of the content stays. *)
Lemma ByteArray_write_spec s buf : wf s -> fits (length buf) s ->
  exists s', ByteArray_write buf s = Ret tt s' /\ written s buf s'.
Proof.
  intros H Hf. unfold ByteArray_write.
  destruct (Nat.eqb_spec (length buf) 0) as [Hz|Hz].
  { apply nil_length_inv in Hz as ->. exists s. split; [done|].
    pose proof (wf_position _ H). constructor; simpl; try done; try lia.
    by rewrite splice_nil. }
  destruct (addCapacity_spec s (length buf) H Hf)
    as (s1 & He & H1 & Eb & Ep & Es & Ee & Ed & Hup & Hroom).
  step He. erewrite bind_Ret by done.
  pose proof H1 as [HB Hr Hu Hcap Hcur Hpos Hsz Hmem].
  rewrite (proj2 (Nat.eqb_neq (ba_baseSize s1) 0)) by lia.
  rewrite <- Ep in Hroom.
  destruct (pos_node (ba_baseSize s1) (ba_nodes s1) (ba_position s1) HB) as [n Hn]; [lia|].
  rewrite cursor_Some in Hcur by lia.
  step cur_size_eq. rewrite (uniform_lookup _ _ _ _ Hu Hn).
  destruct (write_loop_spec (S (length (ba_nodes s1))) s1 buf)
    as (nodes' & Hw & Hu' & Hl' & Hcat); try done; try lia.
  { by intros ->. }
  erewrite bind_Ret by exact Hw.
  exists (mkByteArray (ba_baseSize s1) (ba_position s1 + length buf) (ba_capacity s1)
    (Nat.max (ba_size s1) (ba_position s1 + length buf)) (ba_endian s1) nodes'
    (cursor (ba_baseSize s1) nodes' (ba_position s1 + length buf))).
  split.
  - unfold modify; cbn [ba_size ba_position].
    destruct (Nat.ltb_spec (ba_size s1) (ba_position s1 + length buf));
      unfold set_size; cbn; do 2 f_equal; lia.
  - apply (written_nodes s1) in Hcat as [? ? ? ? ? Hc ?]; try done.
    constructor; try congruence. rewrite <- Ep, <- Eb in *. lia.
Qed.

(** ** Reading *)

Lemma read_loop_spec fuel : forall nodes B p size,
  0 < B -> uniform B nodes -> 0 < size -> p + size <= B * length nodes ->
  length nodes - p / B <= fuel ->
  read_loop fuel nodes (Some (p / B)) p (p mod B) (B - p mod B) size
  = Ret (take size (drop p (concat nodes))) (cursor B nodes (p + size), p + size).
Proof.
  induction fuel as [|fuel IH]; intros nodes B p size HB Hu Hs Hroom Hf;
    destruct (pos_split B p HB) as [Hp Hm];
    (destruct (pos_node B nodes p HB) as [n Hn]; [lia|]);
    pose proof (lookup_lt_Some _ _ _ Hn) as Hilt; [lia|].
  pose proof (uniform_lookup _ _ _ _ Hu Hn) as Hln.
  set (i := p / B) in *. set (off := p mod B) in *.
  pose proof (drop_concat B nodes i n off Hu Hn ltac:(lia)) as Hdp.
  rewrite <- Hp in Hdp. rewrite Hdp.
  destruct size as [|size0]; [lia|]. cbn [read_loop]. remember (S size0) as size eqn:Esz.
  unfold deref. simpl. rewrite Hn. simpl. rewrite Hln.
  destruct (Nat.leb_spec size (B - off)) as [Hfit|Hbig].
  - rewrite (proj2 (Nat.leb_le _ _)) by lia.
    rewrite take_app_le by (rewrite length_drop; lia). do 2 f_equal.
    destruct (cursor_step B nodes i off size HB Hilt) as [->|]; [lia| |lia].
    f_equal. lia.
  - rewrite (proj2 (Nat.leb_le _ _)) by lia.
    assert (S i < length nodes) as HS by nia.
    destruct (lookup_lt_is_Some_2 _ _ HS) as [n2 Hn2].
    unfold node_next. rewrite (proj2 (Nat.ltb_lt _ _) HS). simpl. rewrite Hn2. simpl.
    assert ((p + (B - off)) / B = S i /\ (p + (B - off)) mod B = 0) as [Hd Hr].
    { replace (p + (B - off)) with (B * S i + 0) by lia. apply pos_unique. lia. }
    pose proof (IH nodes B (p + (B - off)) (size - (B - off)) HB Hu) as IH'.
    rewrite Hd, Hr, Nat.sub_0_r in IH'.
    rewrite (uniform_lookup _ _ _ _ Hu Hn2), IH' by lia.
    replace (p + (B - off)) with (B * S i + 0) by lia.
    rewrite (drop_concat B nodes (S i) n2) by (done || lia). rewrite drop_0.
    rewrite (drop_S nodes n2 (S i)) by done. cbn [concat].
    rewrite (take_app (drop off n)), length_drop, Hln.
    rewrite !(take_ge (drop off n)) by (rewrite length_drop; lia).
    do 2 f_equal; [f_equal|]; lia.
Qed.

Lemma wf_cur_node s : wf s -> ba_position s < ba_capacity s ->
  ba_cur s = Some (ba_position s / ba_baseSize s) /\
  exists n, ba_nodes s !! (ba_position s / ba_baseSize s) = Some n /\
            length n = ba_baseSize s.
Proof.
  intros H Hp. pose proof (wf_capacity _ H) as Hcap. split.
  - rewrite (wf_cursor _ H). apply cursor_Some. lia.
  - destruct (pos_node (ba_baseSize s) (ba_nodes s) (ba_position s)) as [n Hn];
      [apply H|lia|].
    exists n. split; [done|]. apply (uniform_lookup _ _ _ _ (wf_uniform _ H) Hn).
Qed.

(** The valid bytes from a position on do not depend on the spare room. *)
Lemma take_drop_data s p n : wf s -> p + n <= ba_size s ->
  take n (drop p (concat (ba_nodes s))) = take n (drop p (data s)).
Proof.
  intros H Hn. unfold data. rewrite skipn_firstn_comm, take_take.
  f_equal. lia.
Qed.

(** [read]: the next [n] valid bytes, and the cursor moves past them. *)
Lemma ByteArray_read_spec s n :
  wf s -> 0 < n -> n <= ba_size s - ba_position s ->
  ByteArray_read n s
  = Ret (take n (remaining s)) (seek (ba_position s + n) s).
Proof.
  intros H Hn Hle. pose proof H as [HB Hr Hu Hcap Hcur Hpos Hsz Hmem].
  destruct (wf_cur_node s H) as [Hc (nd & Hnd & Hl)]; [lia|].
  unfold ByteArray_read. rewrite (getReadSize_wf _ H).
  rewrite (proj2 (Z.ltb_ge _ _)) by lia.
  rewrite (proj2 (Nat.eqb_neq (ba_baseSize s) 0)) by lia.
  rewrite Hc, (deref_Some _ _ _ Hnd), Hl.
  rewrite read_loop_spec by (done || lia). unfold remaining.
  rewrite <- take_drop_data by (done || lia). done.
Qed.

(** [read] of more than what is left throws and changes nothing. *)
Lemma ByteArray_read_short s n :
  wf s -> ba_size s - ba_position s < n ->
  ByteArray_read n s = Throw OutOfRange s.
Proof.
  intros H Hlt. unfold ByteArray_read. rewrite (getReadSize_wf _ H).
  by rewrite (proj2 (Z.ltb_lt _ _)) by lia.
Qed.

Lemma node_walk_spec nodes k : forall i,
  i + k < length nodes -> node_walk nodes (Some i) k = Some (Some (i + k)).
Proof.
  induction k as [|k IH]; intros i Hk; simpl; [by rewrite Nat.add_0_r|].
  destruct (lookup_lt_is_Some_2 nodes i) as [n Hn]; [lia|]. rewrite Hn. simpl.
  unfold node_next. rewrite (proj2 (Nat.ltb_lt (S i) _)) by lia.
  rewrite IH by lia. do 2 f_equal. lia.
Qed.

(** [read] at an explicit position inside the content is const. *)
Lemma ByteArray_read_at_spec s n p :
  wf s -> 0 < n -> p + n <= ba_size s ->
  ByteArray_read_at n p s = Ret (take n (drop p (data s))) s.
Proof.
  intros H Hn Hle. pose proof H as [HB Hr Hu Hcap Hcur Hpos Hsz Hmem].
  unfold ByteArray_read_at. rewrite usub64_ge by lia.
  rewrite (proj2 (Z.ltb_ge _ _)) by lia.
  rewrite (proj2 (Nat.eqb_neq (ba_baseSize s) 0)) by lia.
  assert (p / ba_baseSize s < length (ba_nodes s))
    by (apply Nat.Div0.div_lt_upper_bound; lia).
  rewrite node_walk_spec by lia. rewrite Nat.add_0_l.
  destruct (pos_node (ba_baseSize s) (ba_nodes s) p) as [nd Hnd]; [done|lia|].
  rewrite (deref_Some _ _ _ Hnd), (uniform_lookup _ _ _ _ Hu Hnd).
  rewrite read_loop_spec by (done || lia). by rewrite take_drop_data by (done || lia).
Qed.

Lemma toString_spec s : wf s -> toString s = Ret (remaining s) s.
Proof.
  intros H. pose proof (wf_position _ H). unfold toString. rewrite getReadSize_wf by done.
  destruct (Z.eqb_spec (Z.of_nat (ba_size s - ba_position s)) 0) as [Hz|Hz].
  - unfold remaining. rewrite drop_ge; [done|]. rewrite length_data by done. lia.
  - rewrite Nat2Z.id, ByteArray_read_at_spec by (done || lia). f_equal. unfold remaining.
    apply take_ge. rewrite length_drop, length_data by done. lia.
Qed.

(** ** Moving the cursor *)

Lemma setPosition_loop_spec fuel : forall s i v,
  0 < ba_baseSize s -> uniform (ba_baseSize s) (ba_nodes s) ->
  ba_cur s = Some i -> i < length (ba_nodes s) ->
  ba_baseSize s * i + v <= ba_baseSize s * length (ba_nodes s) ->
  length (ba_nodes s) - i <= fuel ->
  (0 < v \/ i = 0) ->
  setPosition_loop fuel v s
  = Ret tt (set_cur (cursor (ba_baseSize s) (ba_nodes s) (ba_baseSize s * i + v)) s).
Proof.
  induction fuel as [|fuel IH]; intros s i v HB Hu Hc Hi Hv Hf H0; [lia|].
  destruct (lookup_lt_is_Some_2 _ _ Hi) as [n Hn].
  pose proof (uniform_lookup _ _ _ _ Hu Hn) as Hln.
  cbn [setPosition_loop]. step cur_size_eq. rewrite Hln.
  destruct (Nat.leb_spec v (ba_baseSize s)) as [Hle|Hgt].
  - destruct (Nat.eqb_spec v (ba_baseSize s)) as [->|Hne].
    + erewrite cur_next_eq by eauto. rewrite (cursor_next (ba_baseSize s)) by done.
      do 3 f_equal. lia.
    + rewrite cursor_Some by nia.
      rewrite (proj1 (pos_unique (ba_baseSize s) i v ltac:(lia))).
      unfold set_cur. rewrite <- Hc. by destruct s.
  - step cur_next_eq. assert (S i < length (ba_nodes s)) as HS by nia.
    unfold node_next. rewrite (proj2 (Nat.ltb_lt _ _) HS).
    rewrite (IH _ (S i)) by (cbn [set_cur ba_baseSize ba_nodes ba_cur]; (done || lia)).
    unfold set_cur; cbn. do 3 f_equal. lia.
Qed.

(** [setPosition] moves the cursor; past the content it grows the content
    over the allocated bytes. *)
Lemma setPosition_grow s p : wf s -> p <= ba_capacity s ->
  setPosition p s = Ret tt (seek p (set_size (Nat.max (ba_size s) p) s)) /\
  wf (seek p (set_size (Nat.max (ba_size s) p) s)).
Proof.
  intros H Hp. pose proof H as [HB Hr Hu Hcap Hcur Hpos Hsz Hmem]. split.
  - unfold setPosition. erewrite bind_Ret by done.
    rewrite (proj2 (Nat.ltb_ge _ _)) by lia.
    erewrite !bind_Ret by done.
    assert (0 < length (ba_nodes s)) by (destruct (ba_nodes s); [done|simpl; lia]).
    rewrite (setPosition_loop_spec _ _ 0) by
      (cbn [set_position ba_size ba_position]; destruct (ba_size s <? p);
       cbn [set_cur set_size set_position ba_baseSize ba_nodes ba_cur]; auto; lia).
    cbn [set_position ba_size ba_position].
    destruct (Nat.ltb_spec (ba_size s) p); unfold seek, set_cur, set_size; cbn;
      do 3 f_equal; lia.
  - constructor; cbn [seek set_size ba_baseSize ba_position ba_capacity ba_size ba_nodes ba_cur];
      try done; lia.
Qed.

(** [setPosition] inside the content moves the cursor and nothing else. *)
Lemma setPosition_spec s p : wf s -> p <= ba_size s ->
  setPosition p s = Ret tt (seek p s) /\ wf (seek p s).
Proof.
  intros H Hp. destruct (setPosition_grow s p H) as [E Hw].
  - pose proof (wf_size _ H). lia.
  - rewrite Nat.max_l in E, Hw by done. by destruct s.
Qed.

(** [setPosition] past the allocated nodes throws and changes nothing. *)
Lemma setPosition_short s p : ba_capacity s < p -> setPosition p s = Throw OutOfRange s.
Proof.
  intros H. unfold setPosition. erewrite bind_Ret by done.
  by rewrite (proj2 (Nat.ltb_lt _ _) H).
Qed.

(** Two writes in a row are one write of the concatenation. *)
Lemma written_app s b1 s1 b2 s2 :
  wf s -> written s b1 s1 -> written s1 b2 s2 -> written s (b1 ++ b2) s2.
Proof.
  intros H [W1 B1 E1 P1 S1 C1 D1] [W2 B2 E2 P2 S2 C2 D2].
  pose proof (length_data _ H) as Hl. pose proof (wf_position _ H).
  constructor; rewrite ?length_app; try done; try congruence; try lia.
  rewrite D2, D1, P1. apply splice_splice. lia.
Qed.

Lemma fits_app s b1 s1 n :
  written s b1 s1 -> fits (length b1 + n) s -> fits n s1.
Proof. intros [W1 B1 E1 P1 S1 C1 D1] Hf. unfold fits in *. lia. Qed.

Lemma fits_le s n m : n <= m -> fits m s -> fits n s.
Proof. unfold fits. lia. Qed.

(** What was just written is what a reader finds at the old position. *)
Lemma written_remaining s buf s' :
  wf s -> written s buf s' ->
  exists rest, remaining (seek (ba_position s) s') = buf ++ rest.
Proof.
  intros H [W1 B1 E1 P1 S1 C1 D1].
  exists (drop (ba_position s + length buf) (data s)).
  unfold remaining, seek, data at 1; cbn [ba_position ba_size ba_nodes].
  change (drop (ba_position s) (data s') = buf ++ drop (ba_position s + length buf) (data s)).
  rewrite D1. unfold splice. rewrite drop_app_length'; [done|].
  rewrite length_take, length_data by done. pose proof (wf_position _ H). lia.
Qed.

(** ** Construction and reset *)

Lemma new_ByteArray_wf B : 0 < B -> (Z.of_nat B < 2 ^ 64)%Z -> wf (new_ByteArray B).
Proof.
  intros HB Hm. constructor; cbn; try done; try lia.
  - constructor; [apply length_replicate | constructor].
  - by rewrite cursor_0.
Qed.

Lemma data_new B : data (new_ByteArray B) = [].
Proof. done. Qed.

Lemma ByteArray_clear_wf s : wf s -> wf (ByteArray_clear s) /\ data (ByteArray_clear s) = [].
Proof.
  intros H. pose proof H as [HB Hr Hu Hcap Hcur Hpos Hsz Hmem]. split; [|done].
  destruct (ba_nodes s) as [|n0 ns] eqn:E; [done|].
  constructor; cbn; rewrite ?E; cbn; rewrite ?take_0; try done; try (cbn; lia).
  - inversion Hu; subst. by repeat constructor.
  - by rewrite cursor_0.
  - simpl in Hcap. nia.
Qed.

Lemma setIsLittleEndian_wf s b : wf s -> wf (setIsLittleEndian b s).
Proof. intros []. by constructor. Qed.

(** ** Specification: a flat byte string with a cursor *)

Record flat := mkFlat { fl_data : list Z; fl_pos : nat }.

Inductive cmd :=
| CWrite (buf : list Z)
| CRead (n : nat)
| CPeek (n p : nat)
| CSeek (p : nat)
| CToString
| CClear.

Inductive obs :=
| OUnit
| OBytes (bs : list Z)
| OThrow (e : exn).

(** One operation on the flat buffer; [None] outside the contract: reading
    zero bytes, peeking or seeking past the content. *)
Definition spec_step (c : cmd) (f : flat) : option (obs * flat) :=
  match c with
  | CWrite buf =>
      Some (OUnit, mkFlat (splice (fl_data f) (fl_pos f) buf) (fl_pos f + length buf))
  | CRead n =>
      if n =? 0 then None else
      if n <=? length (fl_data f) - fl_pos f
      then Some (OBytes (take n (drop (fl_pos f) (fl_data f))),
                 mkFlat (fl_data f) (fl_pos f + n))
      else Some (OThrow OutOfRange, f)
  | CPeek n p =>
      if (n =? 0) || negb (p + n <=? length (fl_data f)) then None
      else Some (OBytes (take n (drop p (fl_data f))), f)
  | CSeek p => if p <=? length (fl_data f) then Some (OUnit, mkFlat (fl_data f) p) else None
  | CToString => Some (OBytes (drop (fl_pos f) (fl_data f)), f)
  | CClear => Some (OUnit, mkFlat [] 0)
  end.

Fixpoint spec_run (cs : list cmd) (f : flat) : option (list obs) :=
  match cs with
  | [] => Some []
  | c :: cs =>
    match spec_step c f with
    | Some (o, f') => os ← spec_run cs f'; Some (o :: os)
    | None => None
    end
  end.

(** The same operation on the chunked buffer; a thrown exception is caught
    by the client, undefined behaviour ends the run. *)
Definition impl_step (c : cmd) (s : ByteArray) : option (obs * ByteArray) :=
  match c with
  | CWrite buf =>
      match ByteArray_write buf s with
      | Ret _ s' => Some (OUnit, s') | Throw e s' => Some (OThrow e, s') | Undef _ => None
      end
  | CRead n =>
      match ByteArray_read n s with
      | Ret b s' => Some (OBytes b, s') | Throw e s' => Some (OThrow e, s') | Undef _ => None
      end
  | CPeek n p =>
      match ByteArray_read_at n p s with
      | Ret b s' => Some (OBytes b, s') | Throw e s' => Some (OThrow e, s') | Undef _ => None
      end
  | CSeek p =>
      match setPosition p s with
      | Ret _ s' => Some (OUnit, s') | Throw e s' => Some (OThrow e, s') | Undef _ => None
      end
  | CToString =>
      match toString s with
      | Ret b s' => Some (OBytes b, s') | Throw e s' => Some (OThrow e, s') | Undef _ => None
      end
  | CClear => Some (OUnit, ByteArray_clear s)
  end.

Fixpoint impl_run (cs : list cmd) (s : ByteArray) : option (list obs) :=
  match cs with
  | [] => Some []
  | c :: cs =>
    match impl_step c s with
    | Some (o, s') => os ← impl_run cs s'; Some (o :: os)
    | None => None
    end
  end.

(** Bytes a command sequence writes. *)
Fixpoint volume (cs : list cmd) : nat :=
  match cs with
  | [] => 0
  | CWrite buf :: cs => length buf + volume cs
  | _ :: cs => volume cs
  end.

(** The simulation relation; [w] bytes have been written so far. *)
Record sim (w : nat) (f : flat) (s : ByteArray) : Prop := {
  sim_wf : wf s;
  sim_data : data s = fl_data f;
  sim_pos : ba_position s = fl_pos f;
  sim_vol : ba_size s <= w;
  sim_cap : ba_capacity s <= w + ba_baseSize s
}.

Lemma sim_seek w f s p : sim w f s -> p <= ba_size s -> sim w (mkFlat (fl_data f) p) (seek p s).
Proof.
  intros [] Hp. destruct (setPosition_spec s p) as [_ Hwf]; [done..|]. by constructor.
Qed.

Lemma sim_step w f s c o f' :
  sim w f s -> spec_step c f = Some (o, f') ->
  (Z.of_nat (w + volume [c] + 2 * ba_baseSize s) < 2 ^ 64)%Z ->
  exists s', impl_step c s = Some (o, s') /\ sim (w + volume [c]) f' s' /\
             ba_baseSize s' = ba_baseSize s.
Proof.
  intros Hs Hc Hm. pose proof Hs as [Hwf Hd Hp Hv Hcap].
  pose proof (length_data _ Hwf) as Hl. rewrite Hd in Hl.
  destruct c as [buf|n|n p|p| |]; cbn [spec_step volume impl_step] in *.
  - simplify_eq. destruct (ByteArray_write_spec s buf) as (s' & -> & Hw); [done| |].
    { unfold fits. pose proof (wf_position _ Hwf). lia. }
    destruct Hw as [Hwf' Eb _ Ep Es Ec Ed]. pose proof (wf_position _ Hwf).
    eexists. split; [done|]. split; [|done].
    constructor; cbn [fl_data fl_pos]; try done; try lia; congruence.
  - destruct (Nat.eqb_spec n 0) as [|Hn]; [done|]. rewrite Nat.add_0_r.
    destruct (Nat.leb_spec n (length (fl_data f) - fl_pos f)); simplify_eq.
    + rewrite ByteArray_read_spec by (done || lia). unfold remaining. rewrite Hd, Hp.
      eexists. split; [done|]. split; [|done]. apply sim_seek; [done|lia].
    + rewrite ByteArray_read_short by (done || lia). eauto.
  - destruct (Nat.eqb_spec n 0) as [|Hn]; [done|]. simpl in Hc.
    destruct (Nat.leb_spec (p + n) (length (fl_data f))); simplify_eq/=.
    rewrite Nat.add_0_r, ByteArray_read_at_spec by (done || lia). rewrite Hd. eauto.
  - destruct (Nat.leb_spec p (length (fl_data f))); simplify_eq.
    destruct (setPosition_spec s p) as [-> _]; [done|lia|].
    rewrite Nat.add_0_r. eexists. split; [done|]. split; [|done].
    apply sim_seek; [done|lia].
  - simplify_eq. rewrite toString_spec by done. unfold remaining. rewrite Hd, Hp.
    rewrite Nat.add_0_r. eauto.
  - simplify_eq. rewrite Nat.add_0_r. eexists. split; [done|].
    destruct (ByteArray_clear_wf s) as [Hwf' Hd']; [done|].
    split; [|done]. constructor; cbn; try done; lia.
Qed.

Lemma sim_run cs : forall w f s os,
  sim w f s -> spec_run cs f = Some os ->
  (Z.of_nat (w + volume cs + 2 * ba_baseSize s) < 2 ^ 64)%Z ->
  impl_run cs s = Some os.
Proof.
  induction cs as [|c cs IH]; intros w f s os Hs Hr Hm; cbn [spec_run impl_run] in *; [done|].
  destruct (spec_step c f) as [[o f']|] eqn:E; [|done].
  assert (volume (c :: cs) = volume [c] + volume cs) as Hvol
    by (destruct c; cbn [volume]; lia).
  destruct (sim_step w f s c o f' Hs E) as (s' & -> & Hs' & Hb); [lia|].
  destruct (spec_run cs f') as [os'|] eqn:Er; [|done]. simpl in Hr. simplify_eq.
  rewrite (IH _ _ _ _ Hs' Er); [done|]. rewrite Hb. lia.
Qed.

(** C1: for every node size and every sequence of operations within the
    contract, the chunked [ByteArray] shows exactly the results of a flat
    byte string with a cursor: no read or write is lost or misplaced at a
    node boundary, [read] past the end throws [std::out_of_range] and leaves
    the buffer as it was, and nothing is undefined. *)
Theorem ByteArray_refines_flat B cs os :
  0 < B -> spec_run cs (mkFlat [] 0) = Some os ->
  (Z.of_nat (volume cs + 2 * B) < 2 ^ 64)%Z ->
  impl_run cs (new_ByteArray B) = Some os.
Proof.
  intros HB Hr Hm. apply (sim_run cs 0 (mkFlat [] 0)); [|done|done].
  constructor; cbn; try done; try lia. apply new_ByteArray_wf; [done|lia].
Qed.

Lemma ByteArray_refines_flat_witness :
  impl_run [CWrite [1; 2; 3; 4; 5]%Z; CSeek 1; CRead 3; CWrite [9; 8]%Z; CSeek 0; CToString;
            CRead 7; CPeek 2 3] (new_ByteArray 2)
  = Some [OUnit; OUnit; OBytes [2; 3; 4]%Z; OUnit; OUnit; OBytes [1; 2; 3; 4; 9; 8]%Z;
          OThrow OutOfRange; OBytes [4; 9]%Z].
Proof. apply ByteArray_refines_flat; [lia | reflexivity | cbn; lia]. Defined.
