(* ===== verification/ByteCodec.v ===== *)
(** * ByteCodec: typed reads and writes of a ByteArray

    Models the templates [ByteArray::read<Type, size>()] and
    [ByteArray::write<Type, size>(value)] of
    [src/include/datastruct/bytearray.h], the varint and ZigZag primitives of
    [src/src/datastruct/bytearray.cpp] and [byteswap] of
    [src/include/utils/endian.h].  [host] is the byte order of the machine
    ([AZZATO_BYTE_ORDER]).  An encoding is an instance of the class [Codec]:
    what the writer appends and what the reader makes of it; the composite
    formats of the clients are proved against that class. *)

From S2P Require Import Prelude ByteArray.
From stdpp Require Import base list list_numbers numbers option.
From Stdlib Require Import ZArith Lia.

Local Open Scope Z_scope.

(** ** Integral types *)

Record int_ty := mkIntTy { it_size : nat; it_signed : bool }.

Definition it_width (ty : int_ty) : Z := 8 * Z.of_nat (it_size ty).

Definition in_ty (ty : int_ty) (v : Z) : Prop :=
  if it_signed ty then in_s (it_width ty) v else in_u (it_width ty) v.

Definition valid_ty (ty : int_ty) : Prop :=
  it_size ty = 1%nat \/ it_size ty = 2%nat \/ it_size ty = 4%nat \/ it_size ty = 8%nat.

Definition uint8_t : int_ty := mkIntTy 1 false.
Definition uint16_t : int_ty := mkIntTy 2 false.
Definition uint32_t : int_ty := mkIntTy 4 false.
Definition uint64_t : int_ty := mkIntTy 8 false.

(** [static_cast] to the unsigned storage type and back. *)
Definition to_storage (ty : int_ty) (v : Z) : Z := uwrap (it_width ty) v.
Definition of_storage (ty : int_ty) (v : Z) : Z :=
  if it_signed ty then swrap (it_width ty) v else v.

(** ** Byte order *)

Definition byteswap (n : nat) (v : Z) : Z := le_combine (rev (le_split n v)).

(** The bytes of an unsigned integer in the memory of the host. *)
Definition mem_of (host : endian) (n : nat) (v : Z) : list Z :=
  match host with
  | LITTLE_ENDIAN => le_split n v
  | BIG_ENDIAN => rev (le_split n v)
  end.

Definition of_mem (host : endian) (bs : list Z) : Z :=
  match host with
  | LITTLE_ENDIAN => le_combine bs
  | BIG_ENDIAN => le_combine (rev bs)
  end.

(** ** Fixed-width integers *)

Definition swap_needed (host : endian) (ty : int_ty) (s : ByteArray) : bool :=
  (1 <? it_size ty)%nat && negb (bool_decide (ba_endian s = host)).

Definition write_int (host : endian) (ty : int_ty) (value : Z) : M ByteArray unit :=
  s ← get;
  let v := to_storage ty value in
  let v := if swap_needed host ty s then byteswap (it_size ty) v else v in
  ByteArray_write (mem_of host (it_size ty) v).

Definition read_int (host : endian) (ty : int_ty) : M ByteArray Z :=
  bs ← ByteArray_read (it_size ty);
  s ← get;
  let v := of_mem host bs in
  let v := if swap_needed host ty s then byteswap (it_size ty) v else v in
  mret (of_storage ty v).

(** ** Variable-length integers *)

(** [encodeZigzag32/64]: [-v] of the most negative value overflows. *)
Definition encodeZigzag (w v : Z) : option Z :=
  if v <? 0 then
    if v =? - 2 ^ (w - 1) then None
    else Some (uwrap w (uwrap w (- v) * 2 - 1))
  else Some (uwrap w (uwrap w v * 2)).

Definition decodeZigzag (w v : Z) : Z :=
  swrap w (Z.lxor (Z.shiftr v 1) (uwrap w (- Z.land v 1))).

(** The bytes collected in [tmp[room]]; [None] is a write past its end. *)
Fixpoint varuint_bytes (room : nat) (value : Z) : option (list Z) :=
  match room with
  | O => None
  | S room =>
    if 128 <=? value then
      rest ← varuint_bytes room (Z.shiftr value 7);
      Some (Z.lor (Z.land value 127) 128 :: rest)
    else Some [value]
  end.

(** [uint8_t tmp[5]] or [uint8_t tmp[10]]. *)
Definition tmp_room (w : Z) : nat := if w =? 32 then 5 else 10.

Definition writeVaruint (w : Z) (value : Z) : M ByteArray unit :=
  match varuint_bytes (tmp_room w) value with
  | Some bs => ByteArray_write bs
  | None => undef BadIndex
  end.

Definition read_byte : M ByteArray Z :=
  bs ← ByteArray_read 1;
  match bs with
  | [b] => mret b
  | _ => undef BadIndex
  end.

(** [for(int i = 0; i < w; i += 7)] *)
Fixpoint readVaruint_loop (fuel : nat) (w i result : Z) : M ByteArray Z :=
  if i <? w then
    match fuel with
    | O => undef Diverges
    | S fuel =>
      b ← read_byte;
      if b <? 128 then mret (Z.lor result (uwrap w (Z.shiftl b i)))
      else readVaruint_loop fuel w (i + 7)
             (Z.lor result (uwrap w (Z.shiftl (Z.land b 127) i)))
    end
  else mret result.

Definition readVaruint (w : Z) : M ByteArray Z := readVaruint_loop 10 w 0 0.

(** The 32- or 64-bit primitive a type is routed to. *)
Definition var_width (ty : int_ty) : Z := if (it_size ty <=? 4)%nat then 32 else 64.

Definition write_varint (ty : int_ty) (value : Z) : M ByteArray unit :=
  let w := var_width ty in
  if it_signed ty then
    match encodeZigzag w (swrap w value) with
    | Some u => writeVaruint w u
    | None => undef SignedOverflow
    end
  else writeVaruint w (uwrap w value).

(** [static_cast<Type>] of the primitive's result. *)
Definition read_varint (ty : int_ty) : M ByteArray Z :=
  let w := var_width ty in
  u ← readVaruint w;
  mret (if it_signed ty then swrap (it_width ty) (decodeZigzag w u)
        else uwrap (it_width ty) u).

(** ** Strings *)

Inductive ByteSize :=
| Auto
| U8
| U16
| U32
| U64
| Varint.

Definition write_string (host : endian) (size : ByteSize) (value : list Z) : M ByteArray unit :=
  (match size with
   | U16 => write_int host uint16_t (u16 (Z.of_nat (length value)))
   | U32 => write_int host uint32_t (u32 (Z.of_nat (length value)))
   | U64 => write_int host uint64_t (u64 (Z.of_nat (length value)))
   | Varint => write_varint uint64_t (u64 (Z.of_nat (length value)))
   | Auto | U8 => mret tt
   end) ;;
  match value with
  | [] => mret tt
  | _ => ByteArray_write value
  end.

Definition read_string (host : endian) (size : ByteSize) : M ByteArray (list Z) :=
  len ← (match size with
         | U16 => read_int host uint16_t
         | U32 => read_int host uint32_t
         | U64 => read_int host uint64_t
         | Varint => read_varint uint64_t
         | Auto | U8 => s ← get; mret (getReadSize s)
         end);
  if 0 <? len then ByteArray_read (Z.to_nat len) else mret [].

(** ** Messages: a sequence of typed fields

    [SFloat n] is a [float] or a [double], copied bit by bit through the
    unsigned integer of the same size. *)

Inductive shape :=
| SInt (ty : int_ty)
| SVarint (ty : int_ty)
| SFloat (n : nat)
| SString (size : ByteSize).

Inductive value :=
| VInt (z : Z)
| VBits (z : Z)
| VStr (str : list Z).

Definition write_field (host : endian) (f : shape * value) : M ByteArray unit :=
  match f with
  | (SInt ty, VInt z) => write_int host ty z
  | (SVarint ty, VInt z) => write_varint ty z
  | (SFloat n, VBits z) => write_int host (mkIntTy n false) z
  | (SString size, VStr str) => write_string host size str
  | _ => undef NoReturn
  end.

Definition read_field (host : endian) (sh : shape) : M ByteArray value :=
  match sh with
  | SInt ty => z ← read_int host ty; mret (VInt z)
  | SVarint ty => z ← read_varint ty; mret (VInt z)
  | SFloat n => z ← read_int host (mkIntTy n false); mret (VBits z)
  | SString size => str ← read_string host size; mret (VStr str)
  end.

Fixpoint write_fields (host : endian) (fs : list (shape * value)) : M ByteArray unit :=
  match fs with
  | [] => mret tt
  | f :: fs => write_field host f ;; write_fields host fs
  end.

Fixpoint read_fields (host : endian) (shs : list shape) : M ByteArray (list value) :=
  match shs with
  | [] => mret []
  | sh :: shs => v ← read_field host sh; vs ← read_fields host shs; mret (v :: vs)
  end.

(** A field the format can carry: an integer of its type (for a ZigZag
    varint not the most negative one), a string whose length fits the prefix. *)
Definition ok_field (f : shape * value) : Prop :=
  match f with
  | (SInt ty, VInt z) => valid_ty ty /\ in_ty ty z
  | (SVarint ty, VInt z) =>
      valid_ty ty /\ in_ty ty z /\ (it_signed ty = true -> z <> - 2 ^ (var_width ty - 1))
  | (SFloat n, VBits z) => (n = 4%nat \/ n = 8%nat) /\ in_u (8 * Z.of_nat n) z
  | (SString U16, VStr str) => Z.of_nat (length str) < 2 ^ 16
  | (SString U32, VStr str) => Z.of_nat (length str) < 2 ^ 32
  | (SString U64, VStr str) | (SString Varint, VStr str) => Z.of_nat (length str) < 2 ^ 64
  | _ => False
  end.

(** ** The codec interface *)

Class Codec {A} (ok : A -> Prop) (wr : A -> M ByteArray unit) (rd : M ByteArray A)
    (enc : endian -> A -> list Z) : Prop := {
  codec_wr : forall a s, ok a -> wf s -> fits (length (enc (ba_endian s) a)) s ->
    exists s', wr a s = Ret tt s' /\ written s (enc (ba_endian s) a) s';
  codec_rd : forall a s rest, ok a -> wf s -> remaining s = enc (ba_endian s) a ++ rest ->
    rd s = Ret a (seek (ba_position s + length (enc (ba_endian s) a)) s)
}.

Definition enc_int (ty : int_ty) (e : endian) (v : Z) : list Z :=
  mem_of e (it_size ty) (to_storage ty v).

Definition enc_varuint (w : Z) (v : Z) : list Z :=
  default [] (varuint_bytes (tmp_room w) v).

Definition enc_varint (ty : int_ty) (e : endian) (v : Z) : list Z :=
  let w := var_width ty in
  enc_varuint w (if it_signed ty then default 0 (encodeZigzag w (swrap w v)) else uwrap w v).

Definition enc_string (size : ByteSize) (e : endian) (str : list Z) : list Z :=
  (match size with
   | U16 => enc_int uint16_t e (u16 (Z.of_nat (length str)))
   | U32 => enc_int uint32_t e (u32 (Z.of_nat (length str)))
   | U64 => enc_int uint64_t e (u64 (Z.of_nat (length str)))
   | Varint => enc_varint uint64_t e (u64 (Z.of_nat (length str)))
   | Auto | U8 => []
   end) ++ str.

Definition enc_field (e : endian) (f : shape * value) : list Z :=
  match f with
  | (SInt ty, VInt z) => enc_int ty e z
  | (SVarint ty, VInt z) => enc_varint ty e z
  | (SFloat n, VBits z) => enc_int (mkIntTy n false) e z
  | (SString size, VStr str) => enc_string size e str
  | _ => []
  end.

Definition enc_fields (e : endian) (fs : list (shape * value)) : list Z :=
  concat (map (enc_field e) fs).

(** ** Reading a known prefix *)

Lemma remaining_room s n rest :
  wf s -> remaining s = n ++ rest -> (ba_position s + length n <= ba_size s)%nat.
Proof.
  intros H Hr. apply (f_equal length) in Hr. unfold remaining in Hr.
  rewrite length_drop, length_data, length_app in Hr by done.
  pose proof (wf_position _ H). lia.
Qed.

Lemma seek_wf s p : wf s -> (p <= ba_size s)%nat -> wf (seek p s).
Proof. intros H Hp. by destruct (setPosition_spec s p H Hp). Qed.

Lemma remaining_seek s bs rest :
  remaining s = bs ++ rest -> remaining (seek (ba_position s + length bs) s) = rest.
Proof.
  intros Hr. unfold remaining. cbn [seek ba_position].
  change (data (seek _ s)) with (data s). rewrite <- drop_drop.
  change (drop (ba_position s) (data s)) with (remaining s).
  rewrite Hr. apply drop_app_length.
Qed.

Lemma seek_seek s p q : seek p (seek q s) = seek p s.
Proof. done. Qed.

Lemma read_prefix s bs rest :
  wf s -> bs <> [] -> remaining s = bs ++ rest ->
  ByteArray_read (length bs) s = Ret bs (seek (ba_position s + length bs) s).
Proof.
  intros H Hne Hr. pose proof (remaining_room _ _ _ H Hr).
  rewrite ByteArray_read_spec; [|done|destruct bs; [done|simpl; lia]|lia].
  by rewrite Hr, take_app_length.
Qed.

(** ** Fixed-width integers *)

Lemma length_mem_of h n v : length (mem_of h n v) = n.
Proof. destruct h; simpl; rewrite ?length_rev; apply length_le_split. Qed.

Lemma le_split_byteswap n v : le_split n (byteswap n v) = rev (le_split n v).
Proof.
  unfold byteswap.
  rewrite <- (length_le_split n v) at 1. rewrite <- length_rev.
  apply le_split_combine. apply Forall_rev, le_split_bytes.
Qed.

Lemma mem_of_swap h e n v : e <> h -> mem_of h n (byteswap n v) = mem_of e n v.
Proof.
  intros Hne. destruct h, e; try done; simpl; rewrite le_split_byteswap; [done|].
  apply rev_involutive.
Qed.

Lemma byteswap_invol n v : in_u (8 * Z.of_nat n) v -> byteswap n (byteswap n v) = v.
Proof.
  intros Hv. unfold byteswap at 1. rewrite le_split_byteswap, rev_involutive.
  rewrite le_combine_split. by apply Z.mod_small.
Qed.

Lemma of_mem_of h n v : in_u (8 * Z.of_nat n) v -> of_mem h (mem_of h n v) = v.
Proof.
  intros Hv. destruct h; simpl; rewrite ?rev_involutive, le_combine_split;
    by apply Z.mod_small.
Qed.

Lemma mem_of_1 h e v : mem_of h 1 v = mem_of e 1 v.
Proof. by destruct h, e. Qed.

Lemma to_storage_range ty v : in_u (it_width ty) (to_storage ty v).
Proof. apply uwrap_range. unfold it_width. lia. Qed.

Lemma swrap_uwrap w v : 0 < w -> in_s w v -> swrap w (uwrap w v) = v.
Proof.
  intros Hw Hv. unfold swrap, uwrap. rewrite Zplus_mod_idemp_l.
  change ((v + 2 ^ (w - 1)) mod 2 ^ w - 2 ^ (w - 1)) with (swrap w v). by apply swrap_id.
Qed.

Lemma of_to_storage ty v : valid_ty ty -> in_ty ty v -> of_storage ty (to_storage ty v) = v.
Proof.
  intros Hs Hv. unfold of_storage, to_storage, in_ty in *. destruct (it_signed ty).
  - apply swrap_uwrap; [|done]. unfold it_width. destruct Hs as [?|[?|[?|?]]]; lia.
  - by apply uwrap_id.
Qed.

(** The wire format of a fixed-width integer does not depend on the host. *)
Lemma write_int_eq host ty v s : valid_ty ty ->
  write_int host ty v s = ByteArray_write (enc_int ty (ba_endian s) v) s.
Proof.
  intros Hs. unfold write_int. erewrite bind_Ret by done. unfold swap_needed, enc_int.
  destruct (Nat.ltb_spec 1 (it_size ty)) as [H1|H1]; cbn [andb].
  - case_bool_decide as He; cbn [negb]; [by rewrite He|].
    by rewrite (mem_of_swap host (ba_endian s)).
  - assert (it_size ty = 1%nat) as -> by (destruct Hs as [?|[?|[?|?]]]; lia).
    f_equal. apply mem_of_1.
Qed.

#[export] Instance int_codec host ty :
  Codec (fun v => valid_ty ty /\ in_ty ty v) (write_int host ty) (read_int host ty) (enc_int ty).
Proof.
  split.
  - intros v s [Hs Hv] H Hf. rewrite write_int_eq by done. by apply ByteArray_write_spec.
  - intros v s rest [Hs Hv] H Hr. unfold read_int.
    pose proof (length_mem_of (ba_endian s) (it_size ty) (to_storage ty v)) as Hl.
    pose proof (to_storage_range ty v) as Hst.
    fold (enc_int ty (ba_endian s) v) in Hl.
    pose proof (read_prefix s _ rest H ltac:(intros E; rewrite E in Hl;
      destruct Hs as [?|[?|[?|?]]]; simpl in Hl; lia) Hr) as Hrd.
    rewrite Hl in Hrd |- *. erewrite bind_Ret by exact Hrd. erewrite bind_Ret by done.
    unfold mret, M_ret. f_equal. unfold swap_needed. cbn [seek ba_endian].
    transitivity (of_storage ty (to_storage ty v)); [f_equal|by apply of_to_storage].
    unfold enc_int. destruct (Nat.ltb_spec 1 (it_size ty)) as [H1|H1]; cbn [andb].
    + case_bool_decide as He; cbn [negb].
      * rewrite He. by apply of_mem_of.
      * rewrite <- (mem_of_swap host) by done.
        rewrite of_mem_of; [by apply byteswap_invol|].
        unfold byteswap. pose proof (le_combine_bound (rev (le_split (it_size ty)
          (to_storage ty v)))) as Hb.
        rewrite length_rev, length_le_split in Hb. apply Hb, Forall_rev, le_split_bytes.
    + assert (it_size ty = 1%nat) as E by (destruct Hs as [?|[?|[?|?]]]; lia).
      unfold it_width in Hst. rewrite E in *. rewrite (mem_of_1 _ host). by apply of_mem_of.
Qed.

(** ** ZigZag *)

Lemma encodeZigzag_spec w v : 0 < w -> in_s w v -> v <> - 2 ^ (w - 1) ->
  encodeZigzag w v = Some (if v <? 0 then - v * 2 - 1 else v * 2).
Proof.
  intros Hw [H1 H2] Hmin. unfold encodeZigzag.
  assert (2 ^ w = 2 * 2 ^ (w - 1)) as Hp.
  { rewrite <- Z.pow_succ_r by lia. f_equal. lia. }
  destruct (Z.ltb_spec v 0).
  - rewrite (proj2 (Z.eqb_neq _ _)) by done.
    rewrite (uwrap_id w (- v)) by (unfold in_u; lia).
    by rewrite uwrap_id by (unfold in_u; lia).
  - rewrite (uwrap_id w v) by (unfold in_u; lia).
    by rewrite uwrap_id by (unfold in_u; lia).
Qed.

Lemma lxor_ones w x : 0 <= w -> in_u w x -> Z.lxor x (2 ^ w - 1) = 2 ^ w - 1 - x.
Proof.
  intros Hw Hx. rewrite Z.sub_1_r, <- Z.ones_equiv.
  assert (Z.lxor x (Z.ones w) = Z.ldiff (Z.ones w) x) as ->.
  { apply Z.bits_inj'. intros n Hn. rewrite Z.lxor_spec, Z.ldiff_spec.
    rewrite Z.testbit_ones_nonneg by lia.
    destruct (Z.ltb_spec n w).
    - by destruct (Z.testbit x n).
    - rewrite <- (uwrap_id w x) by done. unfold uwrap.
      rewrite Z.mod_pow2_bits_high by lia. done. }
  symmetry. apply Z.sub_nocarry_ldiff. apply Z.bits_inj'. intros n Hn.
  rewrite Z.ldiff_spec, Z.bits_0, Z.testbit_ones_nonneg by lia.
  destruct (Z.ltb_spec n w); [by rewrite Bool.andb_false_r|].
  rewrite <- (uwrap_id w x) by done. unfold uwrap.
  by rewrite Z.mod_pow2_bits_high by lia.
Qed.

Lemma zigzag_roundtrip w v : 1 < w -> in_s w v -> v <> - 2 ^ (w - 1) ->
  exists u, encodeZigzag w v = Some u /\ in_u w u /\ decodeZigzag w u = v.
Proof.
  intros Hw Hv Hmin. rewrite encodeZigzag_spec by (done || lia).
  eexists. split; [done|]. destruct Hv as [H1 H2].
  assert (2 ^ w = 2 * 2 ^ (w - 1)) as Hp.
  { rewrite <- Z.pow_succ_r by lia. f_equal. lia. }
  unfold in_u, decodeZigzag. rewrite Z.shiftr_div_pow2 by lia. change (2 ^ 1) with 2.
  assert (forall u, Z.land u 1 = u mod 2) as Hl by (intros; apply (Z.land_ones _ 1); lia).
  rewrite !Hl.
  destruct (Z.ltb_spec v 0).
  - replace (- v * 2 - 1) with (1 + (- v - 1) * 2) by lia.
    rewrite Z_mod_plus_full, Z.div_add by lia. split; [lia|].
    change (1 / 2 + (- v - 1)) with (- v - 1). change (1 mod 2) with 1.
    assert (uwrap w (- (1)) = 2 ^ w - 1) as ->.
    { unfold uwrap. rewrite <- (Z.mod_small (2 ^ w - 1) (2 ^ w)) by lia.
      replace (2 ^ w - 1) with (-1 + 1 * 2 ^ w) by lia. by rewrite Z_mod_plus_full. }
    rewrite lxor_ones by (unfold in_u; lia).
    replace (2 ^ w - 1 - (- v - 1)) with (v + 1 * 2 ^ w) by lia.
    rewrite <- (swrap_id w v) at 2 by (unfold in_s; lia). unfold swrap. f_equal.
    replace (v + 1 * 2 ^ w + 2 ^ (w - 1)) with (v + 2 ^ (w - 1) + 1 * 2 ^ w) by lia.
    apply Z_mod_plus_full.
  - rewrite Z_mod_mult, Z.div_mul by lia. split; [lia|].
    unfold uwrap. rewrite Z.mod_0_l by lia. rewrite Z.lxor_0_r.
    apply swrap_id; [unfold in_s|]; lia.
Qed.

(** ** Varints *)

Lemma varuint_bytes_total room v : 0 <= v < 2 ^ (7 * Z.of_nat room) -> (0 < room)%nat ->
  exists bs, varuint_bytes room v = Some bs /\ bs <> [].
Proof.
  revert v. induction room as [|room IH]; intros v Hv Hr; [lia|]. cbn [varuint_bytes].
  destruct (Z.leb_spec 128 v) as [Hge|Hlt]; [|by eauto].
  assert (0 < room)%nat as Hr'.
  { destruct room; [|lia]. change (2 ^ (7 * Z.of_nat 1)) with 128 in Hv. lia. }
  destruct (IH (Z.shiftr v 7)) as (bs & -> & _); [|done|by eexists].
  rewrite Z.shiftr_div_pow2 by lia. change (2 ^ 7) with 128.
  replace (7 * Z.of_nat (S room)) with (7 * Z.of_nat room + 7) in Hv by lia.
  rewrite Z.pow_add_r in Hv by lia. change (2 ^ 7) with 128 in Hv.
  split; [apply Z.div_pos; lia|]. apply Z.div_lt_upper_bound; lia.
Qed.

Lemma varint_byte v : 0 <= v ->
  (Z.lor (Z.land v 127) 128 <? 128) = false /\
  Z.land (Z.lor (Z.land v 127) 128) 127 = Z.land v 127.
Proof.
  intros Hv. split.
  - apply Z.ltb_ge. pose proof (Z.add_lor_land (Z.land v 127) 128) as Hs.
    rewrite <- Z.land_assoc in Hs. change (Z.land 127 128) with 0 in Hs.
    rewrite Z.land_0_r in Hs. pose proof (Z.land_nonneg v 127). lia.
  - rewrite Z.land_lor_distr_l, <- Z.land_assoc. change (Z.land 127 127) with 127.
    change (Z.land 128 127) with 0. apply Z.lor_0_r.
Qed.

Lemma uwrap_lor w a b : 0 <= w -> uwrap w (Z.lor a b) = Z.lor (uwrap w a) (uwrap w b).
Proof.
  intros Hw. unfold uwrap. rewrite <- !Z.land_ones by done. apply Z.land_lor_distr_l.
Qed.

(** Seven bits and the rest of a value put together again. *)
Lemma shift_split v i : 0 <= i ->
  Z.lor (Z.shiftl (Z.land v 127) i) (Z.shiftl (Z.shiftr v 7) (i + 7)) = Z.shiftl v i.
Proof.
  intros Hi. rewrite Z.add_comm, <- Z.shiftl_shiftl, <- Z.shiftl_lor by lia. f_equal.
  apply Z.bits_inj'. intros n Hn.
  change 127 with (Z.ones 7). rewrite Z.lor_spec, Z.land_spec, Z.testbit_ones_nonneg by lia.
  destruct (Z.ltb_spec n 7).
  - rewrite Z.shiftl_spec_low by lia. by rewrite Bool.andb_true_r, Bool.orb_false_r.
  - rewrite Z.shiftl_spec_high, Z.shiftr_spec by lia. rewrite Bool.andb_false_r. simpl.
    f_equal. lia.
Qed.

Lemma read_byte_eq s b rest : wf s -> remaining s = b :: rest ->
  read_byte s = Ret b (seek (ba_position s + 1) s).
Proof.
  intros H Hr. unfold read_byte.
  erewrite bind_Ret by (apply (read_prefix s [b] rest); done). done.
Qed.

Lemma readVaruint_loop_spec room : forall fuel w i result v bs s rest,
  0 <= v -> 0 <= w -> 0 <= i -> (room <= fuel)%nat -> i + 7 * (Z.of_nat room - 1) < w ->
  varuint_bytes room v = Some bs -> wf s -> remaining s = bs ++ rest ->
  readVaruint_loop fuel w i result s
  = Ret (Z.lor result (uwrap w (Z.shiftl v i))) (seek (ba_position s + length bs) s).
Proof.
  induction room as [|room IH]; intros fuel w i result v bs s rest Hv Hw Hi Hf Hiw Hb H Hr;
    [done|]. cbn [varuint_bytes] in Hb.
  destruct fuel as [|fuel]; [lia|]. cbn [readVaruint_loop].
  rewrite (proj2 (Z.ltb_lt i w)) by lia.
  destruct (Z.leb_spec 128 v) as [Hge|Hlt].
  - destruct (varuint_bytes room (Z.shiftr v 7)) as [bs'|] eqn:E; [|done].
    simpl in Hb. simplify_eq. cbn [app length] in *.
    step read_byte_eq. destruct (varint_byte v Hv) as [-> ->].
    assert (0 < room)%nat by (destruct room; [done|lia]).
    pose proof (remaining_room s (_ :: bs') rest H Hr) as Hroom. simpl in Hroom.
    rewrite (IH fuel w (i + 7) _ (Z.shiftr v 7) bs' _ rest); try done; try lia.
    + rewrite <- Z.lor_assoc, <- uwrap_lor, shift_split by lia.
      rewrite seek_seek. cbn [seek ba_position]. do 2 f_equal. lia.
    + by apply Z.shiftr_nonneg.
    + apply seek_wf; [done|lia].
    + by apply (remaining_seek s [Z.lor (Z.land v 127) 128] (bs' ++ rest)).
  - simplify_eq. step read_byte_eq. by rewrite (proj2 (Z.ltb_lt _ _)) by lia.
Qed.

(** [tmp] is large enough, and the reader's loop reaches the last byte. *)
Lemma tmp_room_ok w v : w = 32 \/ w = 64 -> in_u w v ->
  0 <= v < 2 ^ (7 * Z.of_nat (tmp_room w)) /\
  (0 < tmp_room w <= 10)%nat /\ 7 * (Z.of_nat (tmp_room w) - 1) < w.
Proof.
  intros [-> | ->] [H0 Hv].
  - change (tmp_room 32) with 5%nat. change (2 ^ 32) with 4294967296 in Hv.
    change (2 ^ (7 * Z.of_nat 5)) with 34359738368. lia.
  - change (tmp_room 64) with 10%nat. change (2 ^ 64) with 18446744073709551616 in Hv.
    change (2 ^ (7 * Z.of_nat 10)) with 1180591620717411303424. lia.
Qed.

(** The primitive pair on the values of its width. *)
Lemma writeVaruint_spec w v s : w = 32 \/ w = 64 -> in_u w v -> wf s ->
  fits (length (enc_varuint w v)) s ->
  exists s', writeVaruint w v s = Ret tt s' /\ written s (enc_varuint w v) s'.
Proof.
  intros Hw Hu H Hf. destruct (tmp_room_ok w v Hw Hu) as (Hv & Hr & _).
  unfold writeVaruint, enc_varuint in *.
  destruct (varuint_bytes_total (tmp_room w) v Hv) as (bs & E & _); [lia|].
  rewrite E in *. by apply ByteArray_write_spec.
Qed.

Lemma readVaruint_spec w v s rest : w = 32 \/ w = 64 -> in_u w v -> wf s ->
  remaining s = enc_varuint w v ++ rest ->
  readVaruint w s = Ret v (seek (ba_position s + length (enc_varuint w v)) s).
Proof.
  intros Hw Hu H Hr. destruct (tmp_room_ok w v Hw Hu) as (Hv & Hroom & Hlast).
  unfold readVaruint, enc_varuint in *.
  destruct (varuint_bytes_total (tmp_room w) v Hv) as (bs & E & _); [lia|].
  rewrite E in *. cbn [default] in Hr |- *.
  rewrite (readVaruint_loop_spec (tmp_room w) 10 w 0 0 v bs s rest);
    try done; try lia.
  by rewrite Z.lor_0_l, Z.shiftl_0_r, uwrap_id.
Qed.

Lemma var_width_cases ty : var_width ty = 32 \/ var_width ty = 64.
Proof. unfold var_width. destruct (it_size ty <=? 4)%nat; auto. Qed.

(** A value of a type fits the primitive its type is routed to. *)
Lemma in_ty_var ty v : valid_ty ty -> in_ty ty v ->
  if it_signed ty then in_s (var_width ty) v else in_u (var_width ty) v.
Proof.
  unfold in_ty, valid_ty, var_width, in_s, in_u, it_width.
  destruct ty as [n sg]; cbn [it_size it_signed].
  intros [-> | [-> | [-> | ->]]]; destruct sg; simpl; lia.
Qed.

#[export] Instance varint_codec ty :
  Codec (fun v => valid_ty ty /\ in_ty ty v /\
           (it_signed ty = true -> v <> - 2 ^ (var_width ty - 1)))
    (write_varint ty) (read_varint ty) (enc_varint ty).
Proof.
  assert (forall v, valid_ty ty /\ in_ty ty v /\
           (it_signed ty = true -> v <> - 2 ^ (var_width ty - 1)) ->
    exists u, in_u (var_width ty) u /\
      (if it_signed ty then encodeZigzag (var_width ty) (swrap (var_width ty) v) = Some u /\
         swrap (it_width ty) (decodeZigzag (var_width ty) u) = v
       else uwrap (var_width ty) v = u /\ uwrap (it_width ty) u = v)) as Hprim.
  { intros v (Hs & Hv & Hmin). pose proof (in_ty_var ty v Hs Hv) as Hvw.
    unfold in_ty in Hv. pose proof (var_width_cases ty) as Hw.
    destruct (it_signed ty).
    - destruct (zigzag_roundtrip (var_width ty) v) as (u & Hu & Hr & Hd);
        [lia|done|auto|].
      exists u. rewrite (swrap_id (var_width ty) v) by (done || lia).
      split; [done|]. split; [done|]. rewrite Hd. apply swrap_id; [done|].
      unfold it_width. destruct Hs as [Hs|[Hs|[Hs|Hs]]]; rewrite Hs; lia.
    - exists v. by rewrite !uwrap_id by done. }
  split.
  - intros v s Hok H Hf. destruct (Hprim v Hok) as (u & Hu & Hp).
    unfold write_varint, enc_varint in *. destruct (it_signed ty); destruct Hp as [E _];
      rewrite E in *; (apply writeVaruint_spec; auto using var_width_cases).
  - intros v s rest Hok H Hr. destruct (Hprim v Hok) as (u & Hu & Hp).
    unfold read_varint, enc_varint in *. destruct (it_signed ty); destruct Hp as [E Hp];
      rewrite E in *; cbn [default] in *;
      (erewrite bind_Ret by (eapply readVaruint_spec; eauto using var_width_cases));
      unfold mret, M_ret; by rewrite Hp.
Qed.

(** ** Length-prefixed strings *)

Section prefixed.
Context {ok : Z -> Prop} {wr : Z -> M ByteArray unit} {rd : M ByteArray Z}
  {enc : endian -> Z -> list Z} {C : Codec ok wr rd enc}.

(** The prefix holds [n]; the whole string follows it. *)
Lemma prefixed_wr n str s : ok n -> wf s -> fits (length (enc (ba_endian s) n ++ str)) s ->
  exists s', (wr n ;; match str with [] => mret tt | _ => ByteArray_write str end) s = Ret tt s' /\
    written s (enc (ba_endian s) n ++ str) s'.
Proof.
  intros Hok H Hf. rewrite length_app in Hf.
  destruct (codec_wr _ s Hok H) as (s1 & E1 & W1); [eapply fits_le, Hf; lia|].
  erewrite bind_Ret by exact E1. pose proof (fits_app _ _ _ _ W1 Hf) as Hf1.
  destruct str as [|b str].
  - exists s1. by rewrite app_nil_r.
  - destruct (ByteArray_write_spec s1 (b :: str) (written_wf _ _ _ W1) Hf1) as (s2 & E2 & W2).
    exists s2. split; [done|]. by apply (written_app s _ s1).
Qed.

(** As much of the string as the prefix says is read. *)
Lemma prefixed_rd n str s rest : ok n -> 0 <= n <= Z.of_nat (length str) -> wf s ->
  remaining s = enc (ba_endian s) n ++ str ++ rest ->
  (len ← rd; if 0 <? len then ByteArray_read (Z.to_nat len) else mret []) s
  = Ret (take (Z.to_nat n) str) (seek (ba_position s + (length (enc (ba_endian s) n) + Z.to_nat n)) s).
Proof.
  intros Hok Hn H Hr. erewrite bind_Ret by (eapply codec_rd; eauto).
  pose proof (remaining_room _ _ _ H Hr) as Hroom. pose proof (remaining_seek _ _ _ Hr) as Hr1.
  destruct (Z.ltb_spec 0 n) as [Hpos|].
  - rewrite <- (take_drop (Z.to_nat n) str), <- app_assoc in Hr1.
    assert (length (take (Z.to_nat n) str) = Z.to_nat n) as Hl by (rewrite length_take; lia).
    pose proof (read_prefix _ (take (Z.to_nat n) str) (drop (Z.to_nat n) str ++ rest) (seek_wf _ _ H Hroom)) as E.
    rewrite Hl in E. rewrite E; [| by intros E0; rewrite E0 in Hl; cbn in Hl; lia | done].
    rewrite seek_seek. cbn [seek ba_position]. by rewrite Nat.add_assoc.
  - replace n with 0 by lia. cbn [Z.to_nat take]. by rewrite Nat.add_0_r.
Qed.

Lemma prefixed_rd_all str s rest : ok (Z.of_nat (length str)) -> wf s ->
  remaining s = (enc (ba_endian s) (Z.of_nat (length str)) ++ str) ++ rest ->
  (len ← rd; if 0 <? len then ByteArray_read (Z.to_nat len) else mret []) s
  = Ret str (seek (ba_position s + length (enc (ba_endian s) (Z.of_nat (length str)) ++ str)) s).
Proof.
  intros Hok H Hr. rewrite <- app_assoc in Hr. rewrite (prefixed_rd (Z.of_nat (length str)) str s rest) by (done || lia).
  by rewrite Nat2Z.id, take_ge, length_app by lia.
Qed.
End prefixed.

Definition ok_string (size : ByteSize) (str : list Z) : Prop := ok_field (SString size, VStr str).

Lemma in_ty_len n (str : list Z) : Z.of_nat (length str) < 2 ^ (8 * Z.of_nat n) ->
  in_ty (mkIntTy n false) (Z.of_nat (length str)).
Proof. intros H. unfold in_ty, in_u, it_width. simpl. lia. Qed.

Lemma uwrap_len w (str : list Z) : Z.of_nat (length str) < 2 ^ w ->
  uwrap w (Z.of_nat (length str)) = Z.of_nat (length str).
Proof. intros H. apply uwrap_id. unfold in_u. lia. Qed.

#[export] Instance string_codec host size :
  Codec (ok_string size) (write_string host size) (read_string host size) (enc_string size).
Proof.
  split; [intros str s Hlen H Hf | intros str s rest Hlen H Hr];
    unfold ok_string, write_string, read_string, enc_string, u16, u32, u64 in *;
    destruct size; cbn [ok_field] in Hlen; try done; rewrite !uwrap_len in * by exact Hlen.
  all: first [ apply (prefixed_wr (C := int_codec host _))
             | apply (prefixed_wr (C := varint_codec _))
             | apply (prefixed_rd_all (C := int_codec host _)) with (rest := rest)
             | apply (prefixed_rd_all (C := varint_codec _)) with (rest := rest) ]; try done.
  all: unfold valid_ty; (split; [simpl; lia|]);
    first [by apply in_ty_len | split; [by apply in_ty_len|done]].
Qed.

(** ** Messages *)

#[export] Instance field_codec host sh :
  Codec (fun v => ok_field (sh, v)) (fun v => write_field host (sh, v)) (read_field host sh)
    (fun e v => enc_field e (sh, v)).
Proof.
  split.
  - intros v s Hok H Hf. destruct sh as [ty|ty|n|size], v as [z|z|str]; try done;
      cbn [write_field enc_field ok_field] in *.
    + by apply (codec_wr (Codec := int_codec host ty)).
    + by apply (codec_wr (Codec := varint_codec ty)).
    + apply (codec_wr (Codec := int_codec host _)); try done.
      split; [unfold valid_ty; simpl; lia | apply Hok].
    + by destruct size.
    + by destruct size.
    + by apply (codec_wr (Codec := string_codec host size)).
  - intros v s rest Hok H Hr. destruct sh as [ty|ty|n|size], v as [z|z|str]; try done;
      cbn [read_field enc_field ok_field] in *.
    + erewrite bind_Ret; [done|]. by apply (codec_rd (Codec := int_codec host ty) z s rest).
    + erewrite bind_Ret; [done|]. by apply (codec_rd (Codec := varint_codec ty) z s rest).
    + erewrite bind_Ret; [done|].
      apply (codec_rd (Codec := int_codec host _) z s rest); try done.
      split; [unfold valid_ty; simpl; lia | apply Hok].
    + by destruct size.
    + by destruct size.
    + erewrite bind_Ret; [done|]. by apply (codec_rd (Codec := string_codec host size) str s rest).
Qed.

Lemma write_fields_spec host fs : forall s,
  Forall ok_field fs -> wf s -> fits (length (enc_fields (ba_endian s) fs)) s ->
  exists s', write_fields host fs s = Ret tt s' /\
             written s (enc_fields (ba_endian s) fs) s'.
Proof.
  induction fs as [|[sh v] fs IH]; intros s Hok H Hf; cbn [write_fields].
  - exists s. split; [done|]. pose proof (wf_position _ H).
    constructor; cbn; try done; try lia. by rewrite splice_nil.
  - apply list.Forall_cons_1 in Hok as [Hv Hok].
    change (enc_fields (ba_endian s) ((sh, v) :: fs))
      with (enc_field (ba_endian s) (sh, v) ++ enc_fields (ba_endian s) fs) in *.
    rewrite length_app in Hf.
    destruct (codec_wr (Codec := field_codec host sh) v s Hv H) as (s1 & E1 & W1);
      [eapply fits_le, Hf; lia|].
    erewrite bind_Ret by exact E1. pose proof (fits_app _ _ _ _ W1 Hf) as Hf1.
    rewrite <- (written_endian _ _ _ W1) in Hf1.
    destruct (IH s1 Hok (written_wf _ _ _ W1) Hf1) as (s2 & E2 & W2).
    exists s2. split; [done|]. rewrite (written_endian _ _ _ W1) in W2.
    by apply (written_app s _ s1).
Qed.

Lemma read_fields_spec host fs : forall s rest,
  Forall ok_field fs -> wf s -> remaining s = enc_fields (ba_endian s) fs ++ rest ->
  read_fields host (map fst fs) s
  = Ret (map snd fs) (seek (ba_position s + length (enc_fields (ba_endian s) fs)) s).
Proof.
  induction fs as [|[sh v] fs IH]; intros s rest Hok H Hr; cbn [read_fields map fst snd].
  - cbn. rewrite Nat.add_0_r. unfold seek. rewrite <- (wf_cursor _ H). by destruct s.
  - apply list.Forall_cons_1 in Hok as [Hv Hok].
    change (enc_fields (ba_endian s) ((sh, v) :: fs))
      with (enc_field (ba_endian s) (sh, v) ++ enc_fields (ba_endian s) fs) in *.
    rewrite <- app_assoc in Hr.
    pose proof (remaining_room _ _ _ H Hr) as Hroom.
    erewrite bind_Ret by exact (codec_rd (Codec := field_codec host sh) v s _ Hv H Hr).
    erewrite bind_Ret.
    2:{ apply (IH _ rest Hok); [by apply seek_wf|]. by apply remaining_seek. }
    rewrite seek_seek, length_app. cbn [seek ba_position ba_endian].
    by rewrite Nat.add_assoc.
Qed.

(** The width of the length prefix of a string. *)
Definition prefix_width (size : ByteSize) : option Z :=
  match size with U16 => Some 16 | U32 => Some 32 | U64 | Varint => Some 64 | Auto | U8 => None end.

(** A string of any length, with the length the prefix keeps of it. *)
Lemma any_string host size w str s : prefix_width size = Some w -> wf s -> fits (length (enc_string size (ba_endian s) str)) s ->
  exists s1 s2 s3, write_string host size str s = Ret tt s1 /\ setPosition (ba_position s) s1 = Ret tt s2 /\
    read_string host size s2 = Ret (take (Z.to_nat (Z.of_nat (length str) mod 2 ^ w)) str) s3 /\
    (ba_position s1 - ba_position s3 = length str - Z.to_nat (Z.of_nat (length str) mod 2 ^ w))%nat.
Proof.
  intros Hw H Hf. assert (0 < 2 ^ w) as Hp by (destruct size; simplify_eq/=; lia).
  pose proof (Z.mod_pos_bound (Z.of_nat (length str)) (2 ^ w) Hp) as Hm. pose proof (Z.mod_le (Z.of_nat (length str)) (2 ^ w) ltac:(lia) Hp) as Hle.
  set (n := Z.of_nat (length str) mod 2 ^ w) in *.
  assert (exists (ok : Z -> Prop) wr rd enc (C : Codec ok wr rd enc), ok n /\ enc_string size (ba_endian s) str = enc (ba_endian s) n ++ str /\
    write_string host size str = (wr n ;; match str with [] => mret tt | _ => ByteArray_write str end) /\
    read_string host size = (len ← rd; if 0 <? len then ByteArray_read (Z.to_nat len) else mret [])) as (ok & wr & rd & enc & C & Hok & Ee & Ew & Er).
  { destruct size; simplify_eq/=.
    - eexists _, _, _, _, (int_codec host uint16_t). split; [| done]. split; [unfold valid_ty; cbn; lia | exact Hm].
    - eexists _, _, _, _, (int_codec host uint32_t). split; [| done]. split; [unfold valid_ty; cbn; lia | exact Hm].
    - eexists _, _, _, _, (int_codec host uint64_t). split; [| done]. split; [unfold valid_ty; cbn; lia | exact Hm].
    - eexists _, _, _, _, (varint_codec uint64_t). split; [| done]. split; [unfold valid_ty; cbn; lia | split; [exact Hm | done]]. }
  rewrite Ee in Hf. destruct (prefixed_wr (C := C) n str s Hok H Hf) as (s1 & E1 & W1). pose proof (written_wf _ _ _ W1) as H1. pose proof (wf_position _ H1) as Hpos.
  rewrite (written_position _ _ _ W1) in Hpos. destruct (setPosition_spec s1 (ba_position s) H1) as [E2 H2]; [lia|].
  destruct (written_remaining _ _ _ H W1) as [rest Hr]. assert (ba_endian (seek (ba_position s) s1) = ba_endian s) as En by apply W1.
  rewrite <- app_assoc, <- En in Hr. pose proof (prefixed_rd (C := C) n str _ rest Hok ltac:(lia) H2 Hr) as E3.
  exists s1. eexists _, _. rewrite Ew, Er. split; [done|]. split; [exact E2|]. split; [exact E3|]. rewrite (written_position _ _ _ W1), En, length_app. cbn [seek ba_position]. lia.
Qed.

(** C2: serialisation round trip.  Every sequence of fields the formats can
    carry ([ok_field]: fixed-width integers of every size and sign, ZigZag and
    plain varints other than the most negative number, floating-point bit
    patterns, strings whose length fits their 16-, 32-, 64-bit or varint
    prefix), written at the cursor of any well-formed buffer in either byte order
    on either host, is read back unchanged from the position it was written at,
    and reading ends where writing ended.  Outside of these: writing the most
    negative number as a signed varint of 32 or 64 bits is undefined, and of a
    string of any length what is read back is the part its length modulo the
    width of the prefix says, with the rest left in front of the cursor. *)
Theorem fields_roundtrip host s : wf s ->
  (forall fs, Forall ok_field fs -> fits (length (enc_fields (ba_endian s) fs)) s ->
    exists s1 s2 s3,
      write_fields host fs s = Ret tt s1 /\
      setPosition (ba_position s) s1 = Ret tt s2 /\
      read_fields host (map fst fs) s2 = Ret (map snd fs) s3 /\
      ba_position s3 = ba_position s1 /\ data s3 = data s1) /\
  (forall ty, it_signed ty = true -> it_width ty = var_width ty -> write_varint ty (- 2 ^ (it_width ty - 1)) s = Undef SignedOverflow) /\
  (forall size w str, prefix_width size = Some w -> fits (length (enc_string size (ba_endian s) str)) s ->
    exists s1 s2 s3,
      write_string host size str s = Ret tt s1 /\
      setPosition (ba_position s) s1 = Ret tt s2 /\
      read_string host size s2 = Ret (take (Z.to_nat (Z.of_nat (length str) mod 2 ^ w)) str) s3 /\
      (ba_position s1 - ba_position s3 = length str - Z.to_nat (Z.of_nat (length str) mod 2 ^ w))%nat).
Proof.
  intros H. split; [| split].
  - intros fs Hok Hf. destruct (write_fields_spec host fs s Hok H Hf) as (s1 & E1 & W1).
    pose proof (written_wf _ _ _ W1) as H1. pose proof (wf_position _ H1) as Hp.
    rewrite (written_position _ _ _ W1) in Hp.
    destruct (setPosition_spec s1 (ba_position s) H1) as [E2 H2]; [lia|].
    destruct (written_remaining _ _ _ H W1) as [rest Hr].
    assert (ba_endian (seek (ba_position s) s1) = ba_endian s) as Ee by apply W1.
    rewrite <- Ee in Hr. pose proof (read_fields_spec host fs _ rest Hok H2 Hr) as E3. rewrite Ee in E3.
    eexists s1, _, _. split; [done|]. split; [exact E2|]. split; [exact E3|].
    split; [|done]. symmetry. apply W1.
  - intros ty Hs Hw. unfold write_varint. rewrite Hs, Hw. destruct (var_width_cases ty) as [-> | ->]; done.
  - intros size w str Hw. by apply any_string.
Qed.

Definition sample_message : list (shape * value) :=
  [(SInt uint16_t, VInt 513); (SInt (mkIntTy 4 true), VInt (-2));
   (SVarint (mkIntTy 4 true), VInt (-1234567)); (SVarint uint64_t, VInt (2 ^ 63));
   (SFloat 8, VBits 4611686018427387904); (SString U16, VStr [104; 105]); (SString Varint, VStr [])].

Lemma fields_roundtrip_witness :
  exists s1 s2 s3,
    write_fields LITTLE_ENDIAN sample_message (new_ByteArray 3) = Ret tt s1 /\
    setPosition 0 s1 = Ret tt s2 /\
    read_fields LITTLE_ENDIAN (map fst sample_message) s2 = Ret (map snd sample_message) s3 /\
    ba_position s3 = ba_position s1 /\ data s3 = data s1.
Proof.
  destruct (fields_roundtrip LITTLE_ENDIAN (new_ByteArray 3) ltac:(apply new_ByteArray_wf; [lia|reflexivity])) as [H _].
  apply (H sample_message).
  - unfold sample_message. repeat constructor; vm_compute; intuition congruence.
  - vm_compute. reflexivity.
Defined.
