(* ===== verification/ByteArrayIO.v ===== *)
(** * ByteArrayIO: scatter/gather lists, file transfer and printing

    Models the iovec helpers, the file I/O and [toHexString] of
    [src/src/datastruct/bytearray.cpp], and the way
    [src/src/streams/socket_stream.cpp] drives them: [SocketStream::read]
    and [SocketStream::write] on a [ByteArray], with the system call's result
    as an argument. *)

From S2P Require Import Prelude ByteArray.
From stdpp Require Import base list list_numbers numbers option.
From Stdlib Require Import ZArith Lia.

(** ** Scatter/gather lists *)

(** [iov_base = node->ptr + off], [iov_len = len]. *)
Record iovec := mkIovec { iov_node : nat; iov_off : nat; iov_len : nat }.

(** The loop the three [get*Buffers] methods share. *)
Fixpoint iov_loop (fuel : nat) (nodes : list Node) (cur : option nat)
    (nodeOffset nodeAvail len : nat) : outcome unit (list iovec) :=
  match len with
  | O => Ret [] tt
  | _ =>
    match fuel with
    | O => Undef Diverges
    | S fuel =>
      match deref nodes cur with
      | None => Undef NullDeref
      | Some (i, _) =>
        if len <=? nodeAvail then Ret [mkIovec i nodeOffset len] tt else
        let cur' := node_next nodes i in
        match deref nodes cur' with
        | None => Undef NullDeref
        | Some (_, n') =>
          match iov_loop fuel nodes cur' 0 (length n') (len - nodeAvail) with
          | Ret vs _ => Ret (mkIovec i nodeOffset nodeAvail :: vs) tt
          | Throw e _ => Throw e tt
          | Undef u => Undef u
          end
        end
      end
    end
  end.

Definition clamp_len (len : nat) (s : ByteArray) : nat :=
  if (getReadSize s <? Z.of_nat len)%Z then Z.to_nat (getReadSize s) else len.

(** The entries for [len] bytes from the member cursor on. *)
Definition cur_iovs (len : nat) : M ByteArray (nat * list iovec) := fun s =>
  if ba_baseSize s =? 0 then Undef DivByZero else
  let nodeOffset := ba_position s mod ba_baseSize s in
  match deref (ba_nodes s) (ba_cur s) with
  | None => Undef NullDeref
  | Some (_, n) =>
    match iov_loop (S (length (ba_nodes s))) (ba_nodes s) (ba_cur s) nodeOffset
            (length n - nodeOffset) len with
    | Ret vs _ => Ret (len, vs) s
    | Throw e _ => Throw e s
    | Undef u => Undef u
    end
  end.

(** [getReadBuffers(buffers, len)]: the returned size and the new entries. *)
Definition getReadBuffers (len : nat) : M ByteArray (nat * list iovec) :=
  s ← get;
  let len := clamp_len len s in
  if len =? 0 then mret (0, []) else cur_iovs len.

(** [getReadBuffers(buffers, len, position)]: [len] is clamped against the
    member cursor, not against [position]. *)
Definition getReadBuffers_at (len position : nat) : M ByteArray (nat * list iovec) := fun s =>
  let len := clamp_len len s in
  if len =? 0 then Ret (0, []) s else
  if ba_baseSize s =? 0 then Undef DivByZero else
  let nodeOffset := position mod ba_baseSize s in
  match node_walk (ba_nodes s) (Some 0) (position / ba_baseSize s) with
  | None => Undef NullDeref
  | Some cur =>
    match deref (ba_nodes s) cur with
    | None => Undef NullDeref
    | Some (_, n) =>
      match iov_loop (S (length (ba_nodes s))) (ba_nodes s) cur nodeOffset
              (length n - nodeOffset) len with
      | Ret vs _ => Ret (len, vs) s
      | Throw e _ => Throw e s
      | Undef u => Undef u
      end
    end
  end.

Definition getWriteBuffers (len : nat) : M ByteArray (nat * list iovec) :=
  if len =? 0 then mret (0, []) else addCapacity len ;; cur_iovs len.

(** What a gathering system call sees, and what a scattering one leaves. *)
Fixpoint gather (nodes : list Node) (vs : list iovec) : list Z :=
  match vs with
  | [] => []
  | v :: vs =>
      take (iov_len v) (drop (iov_off v) (default [] (nodes !! iov_node v))) ++ gather nodes vs
  end.

(** A store of [b] through [node->ptr + off]. *)
Definition poke (nodes : list Node) (i off : nat) (b : list Z) : list Node :=
  match nodes !! i with
  | Some n => <[i := splice n off b]> nodes
  | None => nodes
  end.

Fixpoint scatter (nodes : list Node) (vs : list iovec) (payload : list Z) : list Node :=
  match vs with
  | [] => nodes
  | v :: vs =>
      scatter (poke nodes (iov_node v) (iov_off v) (take (iov_len v) payload))
        vs (drop (iov_len v) payload)
  end.

(** [SocketStream::read(ByteArray::ptr, length)]; [recv] returned [rt] and
    delivered [payload] into the buffers it was given. *)
Definition SocketStream_read (connected : bool) (length0 : nat) (rt : Z) (payload : list Z)
    : M ByteArray Z :=
  if connected then
    r ← getWriteBuffers length0;
    modify (fun s => set_nodes (scatter (ba_nodes s) (snd r) payload) s) ;;
    s ← get;
    (if (0 <? rt)%Z then setPosition (ba_position s + Z.to_nat rt) else mret tt) ;;
    mret rt
  else mret (-1)%Z.

(** [SocketStream::write(ByteArray::ptr, length)]; [send] returned [rt], so
    the peer received the first [rt] gathered bytes, which are recorded. *)
Definition SocketStream_write (connected : bool) (length0 : nat) (rt : Z)
    : M ByteArray (Z * list Z) :=
  if connected then
    r ← getReadBuffers length0;
    s ← get;
    let sent := take (Z.to_nat rt) (gather (ba_nodes s) (snd r)) in
    (if (0 <? rt)%Z then setPosition (ba_position s + Z.to_nat rt) else mret tt) ;;
    mret (rt, sent)
  else mret ((-1)%Z, []).

(** [Stream::readFixSize(ByteArray::ptr, length)] over a [SocketStream]: one
    element of [script] per call of [recv]; [left] counts down. *)
Fixpoint readFixSize_loop (script : list (Z * list Z)) (length0 : nat) (left : Z)
    : M ByteArray Z :=
  if (left <=? 0)%Z then mret (Z.of_nat length0) else
  match script with
  | [] => undef Diverges
  | (rt, payload) :: script =>
    len ← SocketStream_read true (Z.to_nat left) rt payload;
    if (len <=? 0)%Z then mret len else readFixSize_loop script length0 (left - len)
  end.

Definition readFixSize (script : list (Z * list Z)) (length0 : nat) : M ByteArray Z :=
  readFixSize_loop script length0 (Z.of_nat length0).

(** [Stream::writeFixSize(ByteArray::ptr, length)] over a [SocketStream]. *)
Fixpoint writeFixSize_loop (script : list Z) (length0 : nat) (left : Z)
    : M ByteArray (Z * list Z) :=
  if (left <=? 0)%Z then mret (Z.of_nat length0, []) else
  match script with
  | [] => undef Diverges
  | rt :: script =>
    r ← SocketStream_write true (Z.to_nat left) rt;
    if (fst r <=? 0)%Z then mret (fst r, []) else
    r' ← writeFixSize_loop script length0 (left - fst r);
    mret (fst r', snd r ++ snd r')
  end.

Definition writeFixSize (script : list Z) (length0 : nat) : M ByteArray (Z * list Z) :=
  writeFixSize_loop script length0 (Z.of_nat length0).

(** ** Files *)

(** The loop of [writeToFile]; [len] may come out zero or negative. *)
Fixpoint writeToFile_loop (fuel : nat) (B : nat) (nodes : list Node) (cur : option nat)
    (pos readSize : Z) : outcome unit (list Z) :=
  if (readSize <=? 0)%Z then Ret [] tt else
  match fuel with
  | O => Undef Diverges
  | S fuel =>
    let diff := (pos mod Z.of_nat B)%Z in
    let len := ((if (Z.of_nat B <? readSize)%Z then Z.of_nat B else readSize) - diff)%Z in
    match deref nodes cur with
    | None => Undef NullDeref
    | Some (i, n) =>
      if (len <? 0)%Z || negb (diff + len <=? Z.of_nat (length n))%Z then Undef BadIndex else
      match writeToFile_loop fuel B nodes (node_next nodes i) (pos + len) (readSize - len) with
      | Ret bs _ => Ret (take (Z.to_nat len) (drop (Z.to_nat diff) n) ++ bs) tt
      | Throw e _ => Throw e tt
      | Undef u => Undef u
      end
    end
  end.

(** [writeToFile] on a file that can be opened: the bytes in the file. *)
Definition writeToFile (s : ByteArray) : outcome unit (list Z) :=
  if (0 <? getReadSize s)%Z && (ba_baseSize s =? 0) then Undef DivByZero else
  writeToFile_loop (S (length (ba_nodes s))) (ba_baseSize s) (ba_nodes s) (ba_cur s)
    (Z.of_nat (ba_position s)) (getReadSize s).

(** [readFromFile] on a file with content [file]: chunks of [_baseSize] bytes
    are appended until a read hits the end of the file. *)
Fixpoint readFromFile_loop (fuel : nat) (file : list Z) : M ByteArray bool :=
  match fuel with
  | O => undef Diverges
  | S fuel =>
    s ← get;
    ByteArray_write (take (ba_baseSize s) file) ;;
    if length file <? ba_baseSize s then mret true
    else readFromFile_loop fuel (drop (ba_baseSize s) file)
  end.

Definition readFromFile (file : list Z) : M ByteArray bool :=
  readFromFile_loop (S (length file)) file.

(** ** Printing *)

Definition hex_digit (d : Z) : Z := if (d <? 10)%Z then (48 + d)%Z else (87 + d)%Z.

(** Two hex digits and a blank per byte, a line break before every 32nd. *)
Fixpoint hex_dump (i : nat) (str : list Z) : list Z :=
  match str with
  | [] => []
  | b :: str =>
      (if (0 <? i) && (i mod 32 =? 0) then [10%Z] else []) ++
      [hex_digit (b / 16); hex_digit (b mod 16); 32]%Z ++ hex_dump (S i) str
  end.

Definition toHexString : M ByteArray (list Z) :=
  str ← toString; mret (hex_dump 0 str).

(** ** Lemmas on scatter/gather lists *)

(** [vs] describes the bytes [p .. p + len) of a node list of the shape of
    [nodes]: gathering reads them, scattering overwrites them. *)
Record covers (B : nat) (nodes : list Node) (vs : list iovec) (p len : nat) : Prop := {
  covers_gather : gather nodes vs = take len (drop p (concat nodes));
  covers_scatter : forall nodes1 payload,
    uniform B nodes1 -> length nodes1 = length nodes -> length payload <= len ->
    uniform B (scatter nodes1 vs payload) /\
    length (scatter nodes1 vs payload) = length nodes1 /\
    concat (scatter nodes1 vs payload) = splice (concat nodes1) p payload
}.

Lemma poke_spec B nodes i off b :
  uniform B nodes -> i < length nodes -> off + length b <= B ->
  uniform B (poke nodes i off b) /\ length (poke nodes i off b) = length nodes /\
  concat (poke nodes i off b) = splice (concat nodes) (B * i + off) b.
Proof.
  intros Hu Hi Hb. unfold poke. destruct (lookup_lt_is_Some_2 _ _ Hi) as [n Hn]. rewrite Hn.
  split; [by apply uniform_insert|]. split; [apply length_insert|].
  by apply concat_insert_splice.
Qed.

(** One entry for the end of node [i], the rest for what follows it. *)
Lemma covers_cons B nodes i n off a vs len :
  0 < B -> uniform B nodes -> nodes !! i = Some n -> off + a = B ->
  covers B nodes vs (B * i + off + a) len ->
  B * i + off + a + len <= B * length nodes ->
  covers B nodes (mkIovec i off a :: vs) (B * i + off) (a + len).
Proof.
  intros HB Hu Hn Ha [Hg Hs] Hroom. pose proof (uniform_lookup _ _ _ _ Hu Hn) as Hl.
  pose proof (lookup_lt_Some _ _ _ Hn) as Hi. split.
  - cbn [gather iov_len iov_off iov_node]. rewrite Hn, Hg. cbn [default].
    rewrite <- drop_drop, !(drop_concat B nodes i n) by (done || lia).
    rewrite (take_ge (drop off n)) by (rewrite length_drop; lia).
    rewrite (take_app (drop off n)), length_drop, Hl.
    rewrite (take_ge (drop off n)) by (rewrite length_drop; lia).
    rewrite (drop_app_length' (drop off n)) by (rewrite length_drop; lia).
    do 2 f_equal. lia.
  - intros nodes1 payload Hu1 Hl1 Hp. cbn [scatter iov_len iov_off iov_node].
    destruct (poke_spec B nodes1 i off (take a payload)) as (Hu2 & Hl2 & Hc2);
      [done|lia|rewrite length_take; lia|].
    destruct (Hs (poke nodes1 i off (take a payload)) (drop a payload)) as (Hu3 & Hl3 & Hc3);
      [done|lia|rewrite length_drop; lia|].
    split; [done|]. split; [lia|]. rewrite Hc3, Hc2.
    destruct (Nat.le_gt_cases (length payload) a) as [Hle|Hgt].
    + rewrite (drop_ge payload), (take_ge payload) by lia. apply splice_nil.
    + assert (length (take a payload) = a) as Ht by (rewrite length_take; lia).
      pose proof (splice_splice (concat nodes1) (take a payload) (drop a payload)
        (B * i + off)) as E. rewrite Ht, take_drop in E. apply E.
      rewrite (length_concat_uniform B) by done. nia.
Qed.

Lemma covers_one B nodes i n off len :
  uniform B nodes -> nodes !! i = Some n -> off + len <= B ->
  covers B nodes [mkIovec i off len] (B * i + off) len.
Proof.
  intros Hu Hn Hb. pose proof (uniform_lookup _ _ _ _ Hu Hn) as Hl.
  pose proof (lookup_lt_Some _ _ _ Hn) as Hi. split.
  - cbn [gather iov_len iov_off iov_node]. rewrite Hn. cbn [default].
    rewrite app_nil_r, (drop_concat B nodes i n) by (done || lia).
    rewrite take_app_le by (rewrite length_drop; lia). done.
  - intros nodes1 payload Hu1 Hl1 Hp. cbn [scatter iov_len iov_off iov_node].
    rewrite (take_ge payload) by done. apply poke_spec; [done|lia|lia].
Qed.

Lemma iov_loop_spec fuel : forall nodes B p len,
  0 < B -> uniform B nodes -> 0 < len -> p + len <= B * length nodes ->
  length nodes - p / B <= fuel ->
  exists vs, iov_loop fuel nodes (Some (p / B)) (p mod B) (B - p mod B) len = Ret vs tt /\
             covers B nodes vs p len.
Proof.
  induction fuel as [|fuel IH]; intros nodes B p len HB Hu Hs Hroom Hf;
    destruct (pos_split B p HB) as [Hp Hm];
    (destruct (pos_node B nodes p HB) as [n Hn]; [lia|]);
    pose proof (lookup_lt_Some _ _ _ Hn) as Hilt; [lia|].
  destruct len as [|len0]; [lia|]. cbn [iov_loop]. remember (S len0) as len eqn:El.
  rewrite (deref_Some _ _ _ Hn).
  destruct (Nat.leb_spec len (B - p mod B)) as [Hfit|Hbig].
  - eexists. split; [done|]. rewrite Hp at 3. apply (covers_one B nodes (p / B) n); [done..|lia].
  - assert (S (p / B) < length nodes) as HS by nia.
    destruct (lookup_lt_is_Some_2 _ _ HS) as [n2 Hn2].
    unfold node_next. rewrite (proj2 (Nat.ltb_lt _ _) HS), (deref_Some _ _ _ Hn2).
    rewrite (uniform_lookup _ _ _ _ Hu Hn2).
    destruct (pos_unique B (S (p / B)) 0 HB) as [Hd Hr].
    destruct (IH nodes B (B * S (p / B) + 0) (len - (B - p mod B))) as (vs & E & Hc);
      [done..|lia|lia|rewrite Hd; lia|].
    rewrite Hd, Hr, Nat.sub_0_r in E. rewrite E. eexists. split; [done|].
    pose proof (covers_cons B nodes (p / B) n (p mod B) (B - p mod B) vs
      (len - (B - p mod B))) as Hcc. rewrite <- Hp in Hcc.
    replace (B - p mod B + (len - (B - p mod B))) with len in Hcc by lia.
    apply Hcc; try done; try lia.
    replace (p + (B - p mod B)) with (B * S (p / B) + 0) by lia. done.
Qed.

Lemma cur_iovs_spec s len : wf s -> 0 < len -> ba_position s + len <= ba_capacity s ->
  exists vs, cur_iovs len s = Ret (len, vs) s /\
    covers (ba_baseSize s) (ba_nodes s) vs (ba_position s) len.
Proof.
  intros H Hl Hroom. pose proof H as [HB Hr Hu Hcap Hcur Hpos Hsz Hmem].
  destruct (wf_cur_node s H) as [Hc (nd & Hnd & Hln)]; [lia|].
  unfold cur_iovs. rewrite (proj2 (Nat.eqb_neq (ba_baseSize s) 0)) by lia.
  rewrite Hc, (deref_Some _ _ _ Hnd), Hln.
  destruct (iov_loop_spec (S (length (ba_nodes s))) (ba_nodes s) (ba_baseSize s)
    (ba_position s) len) as (vs & -> & Hcov); [done..|lia|lia|].
  by exists vs.
Qed.

(** ** Receiving into a buffer *)

(** [s'] is [s] after [payload] arrived at the cursor, with room kept for
    [len] bytes from the old cursor on. *)
Record received (s : ByteArray) (len : nat) (payload : list Z) (s' : ByteArray) : Prop := {
  received_wf : wf s';
  received_base : ba_baseSize s' = ba_baseSize s;
  received_endian : ba_endian s' = ba_endian s;
  received_position : ba_position s' = ba_position s + length payload;
  received_capacity : ba_capacity s' <=
    Nat.max (ba_capacity s) (ba_position s + len + ba_baseSize s);
  received_data : data s' = splice (data s) (ba_position s) payload
}.

Lemma SocketStream_read_spec s len rt payload :
  wf s -> fits len s -> 0 < len -> length payload = Z.to_nat rt -> Z.to_nat rt <= len ->
  exists s', SocketStream_read true len rt payload s = Ret rt s' /\ received s len payload s'.
Proof.
  intros H Hf Hlen Hp Hle. unfold SocketStream_read, getWriteBuffers.
  rewrite (proj2 (Nat.eqb_neq len 0)) by lia.
  destruct (addCapacity_spec s len H Hf) as (s1 & E1 & H1 & Eb & Ep & Es & Ee & Ed & Hup & Hroom).
  destruct (cur_iovs_spec s1 len H1 Hlen) as (vs & E2 & [_ Hcov]); [lia|].
  erewrite bind_Ret by (erewrite bind_Ret by exact E1; exact E2).
  erewrite !bind_Ret by done. cbn [snd].
  destruct (Hcov (ba_nodes s1) payload (wf_uniform _ H1) eq_refl) as (Hu & Hl & Hc); [lia|].
  set (nodes' := scatter (ba_nodes s1) vs payload) in *.
  pose proof (written_nodes s1 nodes' payload H1 Hu Hl Hc ltac:(lia)) as W.
  assert (wf (set_nodes nodes' s1)) as H2.
  { destruct H1. constructor; cbn [set_nodes ba_baseSize ba_position ba_capacity ba_size ba_nodes
      ba_cur]; rewrite ?Hl; try done; [by destruct nodes', (ba_nodes s1)|].
    rewrite (cursor_length _ nodes' (ba_nodes s1)); done. }
  cbn [set_nodes ba_position].
  destruct (Z.ltb_spec 0 rt) as [Hrt|Hrt].
  - destruct (setPosition_grow (set_nodes nodes' s1) (ba_position s1 + Z.to_nat rt) H2) as [E3 _];
      [cbn [set_nodes ba_capacity]; lia|].
    erewrite bind_Ret by exact E3. eexists. split; [done|]. rewrite <- Hp.
    destruct W as [W1 W2 W3 W4 W5 W6 W7].
    constructor; rewrite <- ?Ed, <- ?Ep, <- ?Ee, <- ?Eb in *; try done.
  - assert (payload = []) as -> by (destruct payload; [done|simpl in Hp; lia]).
    erewrite bind_Ret by done. eexists. split; [done|].
    constructor; cbn [set_nodes ba_baseSize ba_position ba_endian ba_capacity length]; try lia;
      try done.
    rewrite splice_nil in Hc |- *. unfold data; cbn [set_nodes ba_size ba_nodes].
    rewrite Hc. exact Ed.
Qed.

(** What the calls of [recv] amount to: the value [readFixSize] returns and
    the bytes that arrived; [None] when it still waits at the end of the
    script, or when a call breaks the contract of [recv]. *)
Fixpoint recv_spec (script : list (Z * list Z)) (length0 : nat) (left : nat)
    : option (Z * list Z) :=
  if left =? 0 then Some (Z.of_nat length0, []) else
  match script with
  | [] => None
  | (rt, payload) :: script =>
    if negb (length payload =? Z.to_nat rt) || negb (Z.to_nat rt <=? left) then None else
    if (rt <=? 0)%Z then Some (rt, []) else
    r ← recv_spec script length0 (left - Z.to_nat rt);
    Some (fst r, payload ++ snd r)
  end.

Lemma readFixSize_loop_spec script length0 : forall s left r bytes,
  wf s -> fits left s -> recv_spec script length0 left = Some (r, bytes) ->
  exists s', readFixSize_loop script length0 (Z.of_nat left) s = Ret r s' /\
    received s left bytes s' /\ length bytes <= left.
Proof.
  induction script as [|[rt payload] script IH]; intros s left r bytes H Hf Hs;
    cbn [recv_spec readFixSize_loop] in *.
  all: destruct (Nat.eqb_spec left 0) as [->|Hleft]; [simplify_eq; exists s;
    (split; [done|]); (split; [|simpl; lia]); constructor; try done; cbn; try lia;
    by rewrite splice_nil|].
  1: done.
  rewrite (proj2 (Z.leb_gt _ _)) by lia.
  destruct (Nat.eqb_spec (length payload) (Z.to_nat rt)) as [Hp|]; [|done].
  destruct (Nat.leb_spec (Z.to_nat rt) left) as [Hle|]; [|done]. cbn [negb orb] in Hs.
  rewrite Nat2Z.id.
  destruct (SocketStream_read_spec s left rt payload H Hf) as (s1 & E1 & R1); [lia|done|done|].
  erewrite bind_Ret by exact E1. destruct (Z.leb_spec rt 0) as [Hrt|Hrt].
  - simplify_eq. exists s1. split; [done|].
    assert (payload = []) as -> by (destruct payload; [done|simpl in Hp; lia]).
    split; [done|simpl; lia].
  - destruct (recv_spec script length0 (left - Z.to_nat rt)) as [[r' bytes']|] eqn:E; [|done].
    simpl in Hs. simplify_eq. destruct R1 as [W1 W2 W3 W4 W5 W6].
    replace (Z.of_nat left - rt)%Z with (Z.of_nat (left - Z.to_nat rt)) by lia.
    destruct (IH s1 (left - Z.to_nat rt) _ _ W1 ltac:(unfold fits in *; lia) E) as (s2 & E2 & [V1 V2 V3 V4 V5 V6] & Hl).
    exists s2. split; [done|]. rewrite length_app. split; [|lia].
    constructor; try congruence; rewrite ?length_app; try lia.
    rewrite V6, W4, W6. apply splice_splice. rewrite length_data by done. apply H.
Qed.

(** However [recv] splits the stream, [readFixSize] returns what the calls
    amount to, and the bytes that arrived stand at the old cursor in order. *)
Lemma readFixSize_spec script len s r bytes :
  wf s -> fits len s -> recv_spec script len len = Some (r, bytes) ->
  exists s', readFixSize script len s = Ret r s' /\ wf s' /\
    data s' = splice (data s) (ba_position s) bytes /\
    ba_position s' = ba_position s + length bytes.
Proof.
  intros H Hf Hs.
  destruct (readFixSize_loop_spec script len s len r bytes H Hf Hs) as (s' & E & [] & _).
  exists s'. auto.
Qed.

(** ** Sending from a buffer *)

Lemma getReadBuffers_spec s len : wf s ->
  exists vs, getReadBuffers len s = Ret (Nat.min len (ba_size s - ba_position s), vs) s /\
    gather (ba_nodes s) vs = take len (remaining s).
Proof.
  intros H. unfold getReadBuffers. erewrite bind_Ret by done.
  unfold clamp_len. rewrite getReadSize_wf by done.
  replace (if (Z.of_nat (ba_size s - ba_position s) <? Z.of_nat len)%Z
           then Z.to_nat (Z.of_nat (ba_size s - ba_position s)) else len)
    with (Nat.min len (ba_size s - ba_position s))
    by (destruct (Z.ltb_spec (Z.of_nat (ba_size s - ba_position s)) (Z.of_nat len)); lia).
  pose proof (length_data _ H) as Hl. pose proof (wf_position _ H). pose proof (wf_size _ H).
  assert (length (remaining s) = ba_size s - ba_position s) as Hlr
    by (unfold remaining; rewrite length_drop; lia).
  destruct (Nat.eqb_spec (Nat.min len (ba_size s - ba_position s)) 0) as [Hz|Hz].
  - exists []. rewrite Hz. split; [done|]. cbn [gather].
    destruct (Nat.min_spec len (ba_size s - ba_position s)) as [[_ Hm]|[_ Hm]].
    + by replace len with 0 by lia.
    + by rewrite (nil_length_inv (remaining s)) by lia; rewrite take_nil.
  - destruct (cur_iovs_spec s (Nat.min len (ba_size s - ba_position s)) H) as (vs & -> & [Hg _]);
      [lia|lia|].
    exists vs. split; [done|]. rewrite Hg, take_drop_data by (done || lia).
    fold (remaining s). destruct (Nat.le_ge_cases len (ba_size s - ba_position s)).
    + by rewrite Nat.min_l.
    + rewrite Nat.min_r by done. rewrite !take_ge by lia. done.
Qed.

Lemma SocketStream_write_spec s len rt :
  wf s -> Z.to_nat rt <= Nat.min len (ba_size s - ba_position s) ->
  SocketStream_write true len rt s
  = Ret (rt, take (Z.to_nat rt) (remaining s)) (seek (ba_position s + Z.to_nat rt) s).
Proof.
  intros H Hle. unfold SocketStream_write.
  destruct (getReadBuffers_spec s len H) as (vs & E & Hg).
  step E. erewrite bind_Ret by done. cbn [snd]. rewrite Hg, take_take, Nat.min_l by lia.
  destruct (Z.ltb_spec 0 rt) as [Hrt|Hrt].
  - destruct (setPosition_spec s (ba_position s + Z.to_nat rt) H) as [E2 _]; [lia|].
    by step E2.
  - replace (Z.to_nat rt) with 0 by lia. rewrite Nat.add_0_r.
    erewrite bind_Ret by done. unfold seek. rewrite <- (wf_cursor _ H). by destruct s.
Qed.

(** What the calls of [send] amount to: the returned value and the number of
    bytes accepted out of [avail]. *)
Fixpoint send_spec (script : list Z) (length0 left avail : nat) : option (Z * nat) :=
  if left =? 0 then Some (Z.of_nat length0, 0) else
  match script with
  | [] => None
  | rt :: script =>
    if negb (Z.to_nat rt <=? Nat.min left avail) then None else
    if (rt <=? 0)%Z then Some (rt, 0) else
    r ← send_spec script length0 (left - Z.to_nat rt) (avail - Z.to_nat rt);
    Some (fst r, Z.to_nat rt + snd r)
  end.

Lemma writeFixSize_loop_spec script length0 : forall s left r k,
  wf s -> send_spec script length0 left (ba_size s - ba_position s) = Some (r, k) ->
  writeFixSize_loop script length0 (Z.of_nat left) s
  = Ret (r, take k (remaining s)) (seek (ba_position s + k) s).
Proof.
  induction script as [|rt script IH]; intros s left r k H Hs;
    cbn [send_spec writeFixSize_loop] in *.
  all: destruct (Nat.eqb_spec left 0) as [->|Hleft]; [simplify_eq; rewrite take_0, Nat.add_0_r;
    unfold seek; rewrite <- (wf_cursor _ H); by destruct s|].
  1: done.
  rewrite (proj2 (Z.leb_gt _ _)) by lia. rewrite Nat2Z.id.
  destruct (Nat.leb_spec (Z.to_nat rt) (Nat.min left (ba_size s - ba_position s)))
    as [Hle|]; [|done]. cbn [negb] in Hs.
  erewrite bind_Ret by (apply SocketStream_write_spec; done). cbn [fst snd].
  destruct (Z.leb_spec rt 0) as [Hrt|Hrt].
  - simplify_eq. replace (Z.to_nat r) with 0 by lia. done.
  - destruct (send_spec script length0 (left - Z.to_nat rt)
      (ba_size s - ba_position s - Z.to_nat rt)) as [[r' k']|] eqn:E; [|done].
    simpl in Hs. simplify_eq. pose proof (wf_position _ H).
    replace (Z.of_nat left - rt)%Z with (Z.of_nat (left - Z.to_nat rt)) by lia.
    set (s1 := seek (ba_position s + Z.to_nat rt) s).
    assert (wf s1) as H1 by (apply setPosition_spec; [done|lia]).
    erewrite bind_Ret.
    2:{ apply (IH s1); [done|]. cbn [s1 seek ba_size ba_position].
        rewrite <- E. f_equal. lia. }
    cbn [fst snd]. unfold remaining at 2. unfold s1 at 1 2; cbn [seek ba_position].
    change (data (seek _ s)) with (data s).
    rewrite <- drop_drop. fold (remaining s).
    unfold mret, M_ret. rewrite <- take_take_drop, Nat.add_assoc. done.
Qed.

(** Transfers of a fixed number of bytes between a buffer and a connected
    socket.  However [recv] splits the stream, [readFixSize] returns what the
    calls amount to, the bytes that arrived stand at the old cursor in order,
    and nothing else of the content changes.  However [send] splits the
    transfer, the peer of [writeFixSize] receives exactly the next unread
    bytes, in order and without a gap, and the cursor ends behind the last
    byte accepted.  No buffer entry points outside a node. *)
Theorem fixSize_transfers len s : wf s ->
  (forall script r bytes, fits len s -> recv_spec script len len = Some (r, bytes) ->
    exists s', readFixSize script len s = Ret r s' /\ wf s' /\
      data s' = splice (data s) (ba_position s) bytes /\
      ba_position s' = ba_position s + length bytes) /\
  (forall script r k, send_spec script len len (ba_size s - ba_position s) = Some (r, k) ->
    writeFixSize script len s = Ret (r, take k (remaining s)) (seek (ba_position s + k) s)).
Proof.
  intros H. split; intros script r; [intros bytes; by apply readFixSize_spec|].
  intros k. by apply writeFixSize_loop_spec.
Qed.

Lemma fixSize_transfers_witness :
  exists s, (exists s', readFixSize [(2, [1; 2]); (2, [3; 4])]%Z 4 s = Ret 4%Z s' /\ wf s' /\
      data s' = [1; 2; 3; 4; 5]%Z /\ ba_position s' = 4) /\
    writeFixSize [3; 1]%Z 4 s = Ret (4, [7; 8; 9; 6])%Z (seek 4 s).
Proof.
  exists (mkByteArray 2 0 6 5 BIG_ENDIAN [[7; 8]; [9; 6]; [5; 0]]%Z (Some 0)).
  destruct (fixSize_transfers 4 (mkByteArray 2 0 6 5 BIG_ENDIAN [[7; 8]; [9; 6]; [5; 0]]%Z (Some 0))) as [H1 H2].
  { constructor; cbn; try done; try lia. repeat constructor. }
  split; [|exact (H2 [3; 1]%Z 4%Z 4 eq_refl)].
  apply (H1 [(2, [1; 2]); (2, [3; 4])]%Z 4%Z [1; 2; 3; 4]%Z); [vm_compute; reflexivity|reflexivity].
Defined.

(** ** Writing the content to a file *)

Lemma writeToFile_done fuel B nodes cur pos : writeToFile_loop fuel B nodes cur pos 0 = Ret [] tt.
Proof. by destruct fuel. Qed.

(** From a node boundary on, the loop writes the rest of the content. *)
Lemma writeToFile_aligned fuel : forall B nodes i r,
  0 < B -> uniform B nodes -> B * i + r <= B * length nodes -> length nodes - i < fuel ->
  writeToFile_loop fuel B nodes (cursor B nodes (B * i)) (Z.of_nat (B * i)) (Z.of_nat r)
  = Ret (take r (drop (B * i) (concat nodes))) tt.
Proof.
  induction fuel as [|fuel IH]; intros B nodes i r HB Hu Hroom Hf; [lia|].
  cbn [writeToFile_loop]. destruct (Z.leb_spec (Z.of_nat r) 0) as [Hr|Hr].
  { by replace r with 0 by lia. }
  assert (i < length nodes) as Hi by nia.
  destruct (lookup_lt_is_Some_2 _ _ Hi) as [n Hn].
  pose proof (uniform_lookup _ _ _ _ Hu Hn) as Hl.
  rewrite cursor_Some by nia. rewrite Nat.mul_comm, Nat.div_mul, Nat.mul_comm by lia.
  rewrite (deref_Some _ _ _ Hn).
  rewrite Nat2Z.inj_mul, Z.mul_comm, Z_mod_mult, Z.sub_0_r, Z.add_0_l.
  pose proof (drop_concat B nodes i n 0 Hu Hn ltac:(lia)) as Hd.
  rewrite Nat.add_0_r, drop_0 in Hd. rewrite Hd. change (Z.to_nat 0) with 0. rewrite drop_0.
  destruct (Z.ltb_spec (Z.of_nat B) (Z.of_nat r)) as [Hbig|Hsmall].
  - rewrite (proj2 (Z.ltb_ge _ _)), (proj2 (Z.leb_le _ _)) by lia. cbn [negb orb].
    rewrite (cursor_next B) by done.
    replace (Z.of_nat i * Z.of_nat B + Z.of_nat B)%Z with (Z.of_nat (B * S i)) by lia.
    replace (Z.of_nat r - Z.of_nat B)%Z with (Z.of_nat (r - B)) by lia.
    rewrite IH by (done || lia). rewrite Nat2Z.id, take_app, Hl.
    rewrite (take_ge n B), (take_ge n r) by lia. do 3 f_equal.
    destruct (decide (S i < length nodes)) as [HS|HS].
    + destruct (lookup_lt_is_Some_2 _ _ HS) as [n2 Hn2].
      pose proof (drop_concat B nodes (S i) n2 0 Hu Hn2 ltac:(lia)) as Hd2.
      rewrite Nat.add_0_r, drop_0 in Hd2. by rewrite Hd2, (drop_S nodes n2 (S i)).
    + rewrite (drop_ge nodes) by lia. apply drop_ge.
      rewrite (length_concat_uniform B) by done. nia.
  - rewrite (proj2 (Z.ltb_ge _ _)), (proj2 (Z.leb_le _ _)) by lia. cbn [negb orb].
    rewrite Z.sub_diag, writeToFile_done, app_nil_r.
    by rewrite take_app_le, Nat2Z.id by lia.
Qed.

(** [writeToFile] writes exactly the unread bytes when the cursor stands
    on a node boundary or more than one node's worth of bytes is left. *)
Theorem writeToFile_correct s :
  wf s -> ba_position s mod ba_baseSize s = 0 \/
          ba_baseSize s < ba_size s - ba_position s ->
  writeToFile s = Ret (remaining s) tt.
Proof.
  intros H Hcase. pose proof H as [HB Hr Hu Hcap Hcur Hpos Hsz Hmem].
  unfold writeToFile. rewrite getReadSize_wf by done.
  rewrite (proj2 (Nat.eqb_neq (ba_baseSize s) 0)), Bool.andb_false_r by lia.
  assert (forall p, p <= ba_size s -> take (ba_size s - p) (drop p (concat (ba_nodes s)))
    = drop p (data s)) as Hall.
  { intros p Hp. rewrite take_drop_data by (done || lia). apply take_ge.
    rewrite length_drop, length_data by done. lia. }
  destruct (pos_split (ba_baseSize s) (ba_position s) HB) as [Hp Hm].
  destruct (decide (ba_position s mod ba_baseSize s = 0)) as [E0|E0].
  { rewrite E0, Nat.add_0_r in Hp. rewrite Hcur.
    rewrite Hp at 1 2. rewrite writeToFile_aligned by (done || lia).
    rewrite <- Hp. by rewrite Hall. }
  destruct Hcase as [|Hbig]; [done|].
  destruct (wf_cur_node s H) as [Hc (n & Hn & Hl)]; [lia|].
  set (i := ba_position s / ba_baseSize s) in *.
  set (off := ba_position s mod ba_baseSize s) in *.
  pose proof (lookup_lt_Some _ _ _ Hn) as Hi.
  cbn [writeToFile_loop]. rewrite (proj2 (Z.leb_gt _ _)) by lia.
  rewrite Hc, (deref_Some _ _ _ Hn), <- Nat2Z.inj_mod. fold off.
  rewrite (proj2 (Z.ltb_lt (Z.of_nat (ba_baseSize s)) _)) by lia.
  rewrite (proj2 (Z.ltb_ge _ _)), (proj2 (Z.leb_le _ _)) by lia. cbn [negb orb].
  rewrite (cursor_next (ba_baseSize s)) by done.
  replace (Z.of_nat (ba_position s) + (Z.of_nat (ba_baseSize s) - Z.of_nat off))%Z
    with (Z.of_nat (ba_baseSize s * S i)) by lia.
  replace (Z.of_nat (ba_size s - ba_position s) - (Z.of_nat (ba_baseSize s) - Z.of_nat off))%Z
    with (Z.of_nat (ba_size s - ba_baseSize s * S i)) by lia.
  rewrite writeToFile_aligned by (done || lia). f_equal.
  rewrite Hall by lia. unfold remaining.
  rewrite <- (take_drop (ba_baseSize s - off) (drop (ba_position s) (data s))), drop_drop.
  f_equal; [|f_equal; lia]. rewrite <- take_drop_data by (done || lia).
  pose proof (drop_concat (ba_baseSize s) (ba_nodes s) i n off Hu Hn ltac:(lia)) as Hd.
  rewrite <- Hp in Hd. rewrite Hd, take_app_le by (rewrite length_drop; lia).
  do 2 f_equal; lia.
Qed.

Lemma writeToFile_correct_witness :
  writeToFile (mkByteArray 2 2 6 5 BIG_ENDIAN [[7; 8]; [9; 6]; [5; 0]]%Z (Some 1))
  = Ret [9; 6; 5]%Z tt.
Proof.
  apply (writeToFile_correct
    (mkByteArray 2 2 6 5 BIG_ENDIAN [[7; 8]; [9; 6]; [5; 0]]%Z (Some 1))).
  - constructor; cbn; try done; try lia. repeat constructor.
  - left. reflexivity.
Defined.

(** With the cursor inside a node and less left than its offset in the
    node, [writeToFile] asks the stream to write a negative number of bytes:
    the node offset is subtracted from the number of bytes to write. *)
Theorem writeToFile_negative_length s :
  wf s -> 0 < ba_size s - ba_position s ->
  ba_size s - ba_position s < ba_position s mod ba_baseSize s ->
  writeToFile s = Undef BadIndex.
Proof.
  intros H Hpos Hlt. pose proof H as [HB Hr Hu Hcap Hcur Hpo Hsz Hmem].
  destruct (pos_split (ba_baseSize s) (ba_position s) HB) as [_ Hm].
  destruct (wf_cur_node s H) as [Hc (n & Hn & Hl)]; [lia|].
  unfold writeToFile. rewrite getReadSize_wf by done.
  rewrite (proj2 (Nat.eqb_neq (ba_baseSize s) 0)), Bool.andb_false_r by lia.
  cbn [writeToFile_loop]. rewrite (proj2 (Z.leb_gt _ _)) by lia.
  rewrite Hc, (deref_Some _ _ _ Hn), <- Nat2Z.inj_mod.
  rewrite (proj2 (Z.ltb_ge (Z.of_nat (ba_baseSize s)) _)) by lia.
  by rewrite (proj2 (Z.ltb_lt _ _)) by lia.
Qed.

Lemma writeToFile_negative_length_witness :
  writeToFile (mkByteArray 4 3 4 4 BIG_ENDIAN [[7; 8; 9; 6]]%Z (Some 0)) = Undef BadIndex.
Proof.
  apply (writeToFile_negative_length
    (mkByteArray 4 3 4 4 BIG_ENDIAN [[7; 8; 9; 6]]%Z (Some 0))).
  - constructor; cbn; try done; try lia. repeat constructor.
  - cbn. lia.
  - cbn. lia.
Defined.

(** ** Reading a file *)

Lemma readFromFile_loop_spec fuel : forall s file,
  wf s -> fits (length file) s -> length file < fuel ->
  exists s', readFromFile_loop fuel file s = Ret true s' /\ written s file s'.
Proof.
  induction fuel as [|fuel IH]; intros s file H Hf Hfuel; [lia|].
  pose proof (wf_base _ H) as HB. set (B := ba_baseSize s) in *.
  cbn [readFromFile_loop]. erewrite bind_Ret by done.
  destruct (ByteArray_write_spec s (take B file) H) as (s1 & E1 & W1);
    [eapply fits_le, Hf; rewrite length_take; lia|].
  fold B. erewrite bind_Ret by exact E1.
  destruct (Nat.ltb_spec (length file) B) as [Hlt|Hge].
  - exists s1. split; [done|]. by rewrite take_ge in W1 by lia.
  - destruct (IH s1 (drop B file)) as (s2 & E2 & W2).
    + apply W1.
    + apply (fits_app _ _ _ _ W1). eapply fits_le, Hf. rewrite <- length_app, take_drop. lia.
    + rewrite length_drop. lia.
    + exists s2. split; [done|]. rewrite <- (take_drop B file). by apply (written_app s _ s1).
Qed.

(** [readFromFile] writes the whole file at the cursor, whatever its
    length is modulo the node size, and stops. *)
Theorem readFromFile_correct s file :
  wf s -> fits (length file) s ->
  exists s', readFromFile file s = Ret true s' /\ written s file s'.
Proof. intros H Hf. apply readFromFile_loop_spec; [done..|lia]. Qed.

Lemma readFromFile_correct_witness :
  exists s', readFromFile [1; 2; 3; 4]%Z (new_ByteArray 2) = Ret true s' /\
             written (new_ByteArray 2) [1; 2; 3; 4]%Z s'.
Proof.
  apply (readFromFile_correct (new_ByteArray 2) [1; 2; 3; 4]%Z).
  - apply new_ByteArray_wf; [lia|reflexivity].
  - vm_compute. reflexivity.
Defined.
