(* ===== verification/SortedVec.v ===== *)
(** * Sorted vectors

    The helpers of [src/include/datastruct/util.h] that every container of the
    library uses on its sorted vectors: [binarySearch] (over
    [std::lower_bound], written here as the halving loop of the C++ standard
    library), [sortLast], and [std::sort].  Elements are compared through a
    key, as the [Node::operator<] of the hash tables does; a plain vector uses
    the identity.

    The lemmas show that the halving loop finds the boundary of a sorted
    vector, that [binarySearch] finds an element exactly when there is one,
    and that [sortLast] is insertion into a sorted vector. *)

From S2P Require Import Prelude.
From stdpp Require Import base list list_numbers numbers option sorting gmap.
From Stdlib Require Import ZArith Lia.

(** ** Orders: what [operator<] of a key type promises *)

Class StrictOrd (K : Type) := {
  ltb : K -> K -> bool;
  ltb_irrefl x : ltb x x = false;
  ltb_trans x y z : ltb x y = true -> ltb y z = true -> ltb x z = true;
  ltb_total x y : ltb x y = false -> ltb y x = false -> x = y
}.

#[export] Program Instance Z_StrictOrd : StrictOrd Z := {| ltb := Z.ltb |}.
Next Obligation. intros. apply Z.ltb_irrefl. Qed.
Next Obligation. intros x y z. rewrite !Z.ltb_lt. lia. Qed.
Next Obligation. intros x y. rewrite !Z.ltb_ge. lia. Qed.

(** [std::string::operator<]: byte strings in lexicographic order. *)
Fixpoint lex_ltb {K} `{StrictOrd K} (a b : list K) : bool :=
  match a, b with
  | _, [] => false
  | [], _ :: _ => true
  | x :: a, y :: b => ltb x y || (negb (ltb y x) && lex_ltb a b)
  end.

(** ** The algorithms *)

Section algorithms.
Context {A K : Type} `{StrictOrd K} (f : A -> K).

(** [std::lower_bound]: [first] and [len] are the loop's variables. *)
Fixpoint lower_bound_loop (fuel first len : nat) (l : list A) (v : K) : nat :=
  match fuel with
  | O => first
  | S fuel =>
    if decide (len = 0) then first else
    let half := len / 2 in
    let middle := first + half in
    match l !! middle with
    | Some a =>
      if ltb (f a) v
      then lower_bound_loop fuel (middle + 1) (len - half - 1) l v
      else lower_bound_loop fuel first half l v
    | None => first
    end
  end.

Definition lower_bound (l : list A) (v : K) : nat :=
  lower_bound_loop (length l) 0 (length l) l v.

(** [binarySearch] returns an iterator; [None] is [end]. *)
Definition binarySearch (l : list A) (v : K) : option nat :=
  let tmp := lower_bound l v in
  match l !! tmp with
  | None => None
  | Some a => if negb (ltb v (f a)) then Some tmp else None
  end.

Definition swap (l : list A) (i j : nat) : list A :=
  match l !! i, l !! j with
  | Some a, Some b => <[i := b]> (<[j := a]> l)
  | _, _ => l
  end.

(** The loop of [sortLast] with [i] from [n - 1] down to 0. *)
Fixpoint sortLast_loop (n : nat) (data : list A) : list A :=
  match n with
  | O => data
  | S i =>
    match data !! (i + 1), data !! i with
    | Some b, Some a =>
      if ltb (f b) (f a) then sortLast_loop i (swap data (i + 1) i) else data
    | _, _ => data
    end
  end.

Definition sortLast (data : list A) (size : nat) : list A :=
  if decide (size <= 1) then data else sortLast_loop (size - 1) data.

(** [std::sort], by the key. *)
Definition key_le (a b : A) : Prop := ltb (f b) (f a) = false.
#[global] Instance key_le_dec : RelDecision key_le :=
  fun a b => bool_eq_dec (ltb (f b) (f a)) false.

Definition std_sort (l : list A) : list A := merge_sort key_le l.

(** Strictly sorted, and sorted with repetitions. *)
Definition key_lt (a b : A) : Prop := ltb (f a) (f b) = true.
Definition sorted (l : list A) : Prop := StronglySorted key_lt l.
Definition msorted (l : list A) : Prop := StronglySorted key_le l.

(** ** Their correctness *)

Lemma ltb_asym x y : ltb x y = true -> ltb y x = false.
Proof.
  intros Hxy. destruct (ltb y x) eqn:Hyx; [| done].
  rewrite <- (ltb_irrefl x). symmetry. by apply ltb_trans with y.
Qed.

Lemma ltb_le_trans x y z : ltb x y = true -> ltb z y = false -> ltb x z = true.
Proof.
  intros Hxy Hzy. destruct (ltb x z) eqn:Hxz; [done |].
  destruct (ltb z x) eqn:Hzx.
  - rewrite (ltb_trans z x y) in Hzy; done.
  - rewrite (ltb_total x z) in Hxy by done. congruence.
Qed.

Lemma ltb_le_trans_l x y z : ltb y x = false -> ltb y z = true -> ltb x z = true.
Proof.
  intros Hyx Hyz. destruct (ltb x y) eqn:Hxy; [by eapply ltb_trans |].
  by rewrite (ltb_total x y).
Qed.

#[global] Instance key_le_total : Total key_le.
Proof.
  intros a b. unfold key_le. destruct (ltb (f b) (f a)) eqn:E; [right | by left].
  by apply ltb_asym.
Qed.

#[global] Instance key_le_trans : Transitive key_le.
Proof.
  intros a b c Hab Hbc. unfold key_le in *.
  destruct (ltb (f c) (f a)) eqn:E; [| done].
  rewrite (ltb_le_trans_l (f b) (f c) (f a)) in Hab; done.
Qed.

Lemma sorted_msorted l : sorted l -> msorted l.
Proof.
  induction 1 as [| a l Hl IH Ha]; constructor; auto.
  eapply Forall_impl; [exact Ha |]. intros b. apply ltb_asym.
Qed.

Lemma msorted_lookup l i j a b :
  msorted l -> i < j -> l !! i = Some a -> l !! j = Some b -> key_le a b.
Proof.
  intros Hs. revert i j. induction Hs as [| c l Hl IH Hc]; intros i j Hij Hi Hj.
  - done.
  - destruct j as [| j]; [lia |]. destruct i as [| i]; simpl in *.
    + injection Hi as <-. rewrite Forall_lookup in Hc. by eapply Hc.
    + apply (IH i j); auto with lia.
Qed.

(** The halving loop ends at the boundary between the keys below [v] and the
    others, with fuel at least the length of the range. *)
Lemma lower_bound_loop_spec l v fuel first len :
  msorted l -> first + len <= length l -> len <= fuel ->
  (forall i a, i < first -> l !! i = Some a -> ltb (f a) v = true) ->
  (forall i a, first + len <= i -> l !! i = Some a -> ltb (f a) v = false) ->
  let r := lower_bound_loop fuel first len l v in
  r <= length l /\
  (forall i a, i < r -> l !! i = Some a -> ltb (f a) v = true) /\
  (forall i a, r <= i -> l !! i = Some a -> ltb (f a) v = false).
Proof.
  intros Hs. revert first len.
  induction fuel as [| fuel IH]; intros first len Hlen Hf Hlo Hhi;
    cbn [lower_bound_loop]; cbv zeta.
  { assert (len = 0) by lia. subst. rewrite Nat.add_0_r in *. auto with lia. }
  case_decide as Hz.
  { subst. rewrite Nat.add_0_r in *. auto with lia. }
  pose proof (Nat.div_lt len 2) as Hh. specialize (Hh ltac:(lia) ltac:(lia)).
  destruct (l !! (first + len / 2)) as [a |] eqn:Ha.
  2: { apply lookup_ge_None in Ha. lia. }
  destruct (ltb (f a) v) eqn:Hav; apply IH; try lia; try done.
  - intros i b Hi Hb. destruct (decide (i = first + len / 2)) as [-> | Hne].
    + congruence.
    + apply (ltb_le_trans_l _ (f a)); [| done].
      apply (msorted_lookup l i (first + len / 2)); auto with lia.
  - intros i b Hi Hb. apply (Hhi i b); [lia | done].
  - intros i b Hi Hb. destruct (decide (i = first + len / 2)) as [-> | Hne].
    + congruence.
    + pose proof (msorted_lookup l (first + len / 2) i a b Hs ltac:(lia) Ha Hb)
        as Hab.
      unfold key_le in Hab. destruct (ltb (f b) v) eqn:E; [| done].
      rewrite (ltb_le_trans_l (f a) (f b) v) in Hav; done.
Qed.

Lemma lower_bound_spec l v : msorted l ->
  lower_bound l v <= length l /\
  (forall i a, i < lower_bound l v -> l !! i = Some a -> ltb (f a) v = true) /\
  (forall i a, lower_bound l v <= i -> l !! i = Some a -> ltb (f a) v = false).
Proof.
  intros Hs. apply lower_bound_loop_spec; auto with lia.
  intros i a Hi Ha. apply lookup_lt_Some in Ha. lia.
Qed.

Lemma binarySearch_Some l v i : msorted l ->
  binarySearch l v = Some i -> exists a, l !! i = Some a /\ f a = v.
Proof.
  intros Hs. unfold binarySearch.
  destruct (lower_bound_spec l v Hs) as (_ & _ & Hge).
  destruct (l !! lower_bound l v) as [a |] eqn:Ha; [| done].
  destruct (ltb v (f a)) eqn:Hv; simpl; [done |].
  intros [= <-]. exists a. split; [done |].
  apply ltb_total; [by eapply Hge | done].
Qed.

Lemma binarySearch_None l v : msorted l ->
  binarySearch l v = None -> v ∉ (f <$> l).
Proof.
  intros Hs. unfold binarySearch.
  destruct (lower_bound_spec l v Hs) as (_ & Hlt & Hge). intros Hb Hin.
  apply list_elem_of_fmap in Hin as (a & -> & Hin).
  apply list_elem_of_lookup in Hin as [j Hj].
  destruct (decide (j < lower_bound l (f a))) as [Hjl | Hjl].
  { apply Hlt in Hj; [| done]. by rewrite ltb_irrefl in Hj. }
  destruct (l !! lower_bound l (f a)) as [b |] eqn:Hb'.
  2: { apply lookup_ge_None in Hb'. apply lookup_lt_Some in Hj. lia. }
  destruct (ltb (f a) (f b)) eqn:Hab; simpl in Hb; [| done].
  destruct (decide (j = lower_bound l (f a))) as [-> | Hne].
  { rewrite Hb' in Hj. injection Hj as ->. by rewrite ltb_irrefl in Hab. }
  pose proof (msorted_lookup l (lower_bound l (f a)) j b a Hs ltac:(lia) Hb' Hj)
    as Hle.
  unfold key_le in Hle. congruence.
Qed.

Lemma sorted_NoDup l : sorted l -> NoDup (f <$> l).
Proof.
  induction 1 as [| a l Hl IH Ha]; simpl; constructor; auto.
  rewrite list_elem_of_fmap. intros (b & Hab & Hb).
  rewrite Forall_forall in Ha. specialize (Ha b Hb). unfold key_lt in Ha.
  rewrite Hab, ltb_irrefl in Ha. done.
Qed.

Lemma sorted_filter (P : A -> Prop) `{!forall a, Decision (P a)} l :
  sorted l -> sorted (filter P l).
Proof.
  induction 1 as [| a l Hl IH Ha]; [constructor |]. rewrite filter_cons.
  case_decide; [| done]. constructor; [done |]. rewrite Forall_forall in *.
  intros b Hb. apply Ha. by apply list_elem_of_filter in Hb as [_ ?].
Qed.

Lemma msorted_NoDup_sorted l : msorted l -> NoDup (f <$> l) -> sorted l.
Proof.
  induction 1 as [| a l Hl IH Ha]; simpl; [constructor |].
  intros [Hn Hd]%NoDup_cons. constructor; [by apply IH |].
  rewrite Forall_forall in *. intros b Hb. specialize (Ha b Hb).
  unfold key_lt, key_le in *. destruct (ltb (f a) (f b)) eqn:E; [done |].
  destruct Hn. rewrite (ltb_total (f a) (f b)) by done.
  by apply list_elem_of_fmap_2.
Qed.

Lemma sorted_fmap_keys l : sorted l <-> StronglySorted (fun x y => ltb x y = true) (f <$> l).
Proof.
  unfold sorted. induction l as [| a l IH]; simpl.
  { split; constructor. }
  split; intros Hs; inversion_clear Hs as [| ? ? Hs' Hf]; constructor;
    try (by apply IH); rewrite Forall_fmap in *; exact Hf.
Qed.

Lemma std_sort_perm l : std_sort l ≡ₚ l.
Proof. apply merge_sort_Permutation. Qed.

Lemma length_std_sort l : length (std_sort l) = length l.
Proof. by rewrite std_sort_perm. Qed.

Lemma std_sort_msorted l : msorted (std_sort l).
Proof. apply StronglySorted_merge_sort; apply _. Qed.

Lemma std_sort_sorted l : NoDup (f <$> l) -> sorted (std_sort l).
Proof.
  intros Hd. apply msorted_NoDup_sorted; [apply std_sort_msorted |].
  by rewrite std_sort_perm.
Qed.

(** Insertion of [x] from the right, the effect of the swaps. *)
Lemma swap_adjacent (l r : list A) a b :
  swap (l ++ a :: b :: r) (length l + 1) (length l) = l ++ b :: a :: r.
Proof.
  unfold swap.
  rewrite lookup_app_r by lia. replace (length l + 1 - length l) with 1 by lia.
  simpl. rewrite list_lookup_middle by done. simpl.
  rewrite insert_app_r_alt by lia. rewrite Nat.sub_diag. simpl.
  rewrite insert_app_r_alt by lia.
  by replace (length l + 1 - length l) with 1 by lia.
Qed.

Lemma lookup_last2 (l r : list A) a b :
  (l ++ a :: b :: r) !! (length l + 1) = Some b /\
  (l ++ a :: b :: r) !! length l = Some a.
Proof.
  split; [| by apply list_lookup_middle].
  rewrite lookup_app_r by lia. by replace (length l + 1 - length l) with 1 by lia.
Qed.

Lemma Forall_key_le_app (l : list A) b x :
  msorted (l ++ [b]) -> ltb (f x) (f b) = false -> Forall (fun a => key_le a x) (l ++ [b]).
Proof.
  intros Hs Hb. rewrite Forall_app. split; [| by constructor].
  rewrite Forall_forall. intros a Ha. apply (key_le_trans _ b); [| exact Hb].
  apply list_elem_of_lookup in Ha as [i Hi].
  apply (msorted_lookup (l ++ [b]) i (length l)); auto.
  - by eapply lookup_lt_Some.
  - rewrite lookup_app_l by (by eapply lookup_lt_Some). done.
  - by apply list_lookup_middle.
Qed.

Lemma sortLast_loop_spec l x r :
  msorted l ->
  exists l1 l2, sortLast_loop (length l) (l ++ x :: r) = l1 ++ x :: l2 ++ r /\
    l = l1 ++ l2 /\ Forall (fun a => key_le a x) l1 /\ Forall (key_lt x) l2.
Proof.
  intros Hs. revert r. induction l as [| a l IH] using rev_ind; intros r.
  { exists [], []. repeat split; constructor. }
  rewrite length_app, Nat.add_1_r, <- app_assoc. simpl.
  destruct (lookup_last2 l r a x) as [-> ->].
  destruct (ltb (f x) (f a)) eqn:Hxa.
  - rewrite swap_adjacent.
    destruct (IH ltac:(by apply StronglySorted_app_1_l in Hs) (a :: r))
      as (l1 & l2 & -> & -> & H1 & H2).
    exists l1, (l2 ++ [a]). repeat split; auto.
    + by rewrite <- app_assoc.
    + by rewrite <- app_assoc.
    + apply Forall_app. auto.
  - exists (l ++ [a]), []. repeat split.
    + by rewrite <- app_assoc.
    + by rewrite app_nil_r.
    + by apply Forall_key_le_app.
    + constructor.
Qed.

Lemma sortLast_spec l x :
  msorted l ->
  exists l1 l2, sortLast (l ++ [x]) (length (l ++ [x])) = l1 ++ x :: l2 /\
    l = l1 ++ l2 /\ Forall (fun a => key_le a x) l1 /\ Forall (key_lt x) l2.
Proof.
  intros Hs. unfold sortLast. rewrite length_app. simpl. case_decide as Hl.
  - assert (l = []) as -> by (destruct l; simpl in *; [done | lia]).
    exists [], []. repeat split; constructor.
  - replace (length l + 1 - 1) with (length l) by lia.
    destruct (sortLast_loop_spec l x [] Hs) as (l1 & l2 & -> & ? & ? & ?).
    exists l1, l2. by rewrite app_nil_r.
Qed.

Lemma sortLast_perm l x :
  msorted l -> sortLast (l ++ [x]) (length (l ++ [x])) ≡ₚ l ++ [x].
Proof.
  intros Hs. destruct (sortLast_spec l x Hs) as (l1 & l2 & -> & -> & _).
  rewrite <- Permutation_middle. by rewrite <- (Permutation_cons_append (l1 ++ l2)).
Qed.

Lemma msorted_app l1 l2 :
  msorted l1 -> msorted l2 ->
  (forall a b, a ∈ l1 -> b ∈ l2 -> key_le a b) -> msorted (l1 ++ l2).
Proof.
  intros H1 H2 H12. apply StronglySorted_app. repeat split; auto.
Qed.

Lemma sortLast_msorted l x :
  msorted l -> msorted (sortLast (l ++ [x]) (length (l ++ [x]))).
Proof.
  intros Hs. destruct (sortLast_spec l x Hs) as (l1 & l2 & -> & -> & H1 & H2).
  rewrite Forall_forall in H1, H2.
  apply StronglySorted_app in Hs as (H12 & Hs1 & Hs2).
  apply msorted_app; [done | constructor; auto |].
  - apply Forall_forall. intros b Hb. apply ltb_asym. by apply H2.
  - intros a b Ha [-> | Hb]%elem_of_cons; [by apply H1 | by apply H12].
Qed.

Lemma sortLast_sorted l x :
  sorted l -> f x ∉ (f <$> l) -> sorted (sortLast (l ++ [x]) (length (l ++ [x]))).
Proof.
  intros Hs Hx. apply msorted_NoDup_sorted.
  - by apply sortLast_msorted, sorted_msorted.
  - rewrite sortLast_perm by (by apply sorted_msorted).
    rewrite fmap_app. apply NoDup_app. repeat split.
    + by apply sorted_NoDup.
    + intros k Hk. simpl. rewrite list_elem_of_singleton. by intros ->.
    + simpl. apply NoDup_singleton.
Qed.

End algorithms.

(** Byte strings are ordered, so they can be keys. *)
Section lex.
Context {K : Type} `{StrictOrd K}.

Lemma lex_irrefl (a : list K) : lex_ltb a a = false.
Proof. induction a as [| x a IH]; simpl; [done |]. by rewrite ltb_irrefl, IH. Qed.

Lemma lex_trans (a b c : list K) :
  lex_ltb a b = true -> lex_ltb b c = true -> lex_ltb a c = true.
Proof.
  revert b c. induction a as [| x a IH]; intros [| y b] [| z c]; simpl; try done.
  rewrite !orb_true_iff, !andb_true_iff, !negb_true_iff.
  intros [Hxy | [Hyx Hab]] [Hyz | [Hzy Hbc]].
  - left. by eapply ltb_trans.
  - left. by apply (ltb_le_trans x y z).
  - left. by apply (ltb_le_trans_l x y z).
  - destruct (ltb x z) eqn:Hxz; [by left | right]. split; [| by eapply IH].
    destruct (ltb z x) eqn:Hzx; [| done].
    rewrite (ltb_le_trans_l y z x) in Hyx; done.
Qed.

Lemma lex_total (a b : list K) :
  lex_ltb a b = false -> lex_ltb b a = false -> a = b.
Proof.
  revert b. induction a as [| x a IH]; intros [| y b]; simpl; try done.
  rewrite !orb_false_iff, !andb_false_iff, !negb_false_iff.
  intros [Hxy Hab] [Hyx Hba]. f_equal; [by apply ltb_total |].
  apply IH; intuition congruence.
Qed.

#[global] Instance lex_StrictOrd : StrictOrd (list K) :=
  {| ltb := lex_ltb; ltb_irrefl := lex_irrefl;
     ltb_trans := lex_trans; ltb_total := lex_total |}.
End lex.
