(* ===== verification/HashBuckets.v ===== *)
(** * Bucket tables

    The part that [HashMap], [Dict] and [HashMultimap]
    ([src/include/datastruct/hash_map.h], [dict.h], [hash_multimap.h]) have in
    common: an array of [_size] vectors of nodes, each vector sorted by key,
    a node living in the vector [posHash(key) % _size]; the count [_total];
    growth by [rehashUnlock] when more than sixteen nodes fall on a bucket.
    The payload of a node is a parameter: a value for [HashMap], a counted
    pointer for the other two.

    [buckets_ok] is the invariant, [abs] the finite map the table stands for.
    The lemmas say what a search, the replacement of one bucket and a rehash
    do to them. *)

From S2P Require Import Prelude SortedVec.
From stdpp Require Import base list list_numbers numbers option sorting gmap.
From Stdlib Require Import ZArith Lia.

(** The [PosHash] template argument: a function object returning
    [uint32_t]. *)
Class PosHash (K : Type) := {
  posHash : K -> Z;
  posHash_range k : in_u 32 (posHash k)
}.

(** [Murmur3Hash<int32_t>] and [Murmur3Hash<uint64_t>] are the conversion to
    [uint32_t]. *)
Definition Murmur3Hash_int (data : Z) : Z := u32 data.
#[export] Program Instance Z_PosHash : PosHash Z :=
  {| posHash := Murmur3Hash_int |}.
Next Obligation. intros k. by apply uwrap_range. Qed.

(** [basket]: the power of two above [n].  The argument is an [int]: callers
    pass unsigned values of 32 and 64 bits, which are converted. *)
Definition basket (n : Z) : Z :=
  if (n <=? 0)%Z then 1 else Z.shiftl 1 (Z.min (Z.log2 (Z.abs n) + 1) 30).

Section table.
Context {K P : Type} `{StrictOrd K, PosHash K, Countable K}.

Local Abbreviation node := (K * P)%type.

Record table := mk_table {
  t_size : Z;                         (* uint64_t *)
  t_total : Z;                        (* uint64_t *)
  t_datas : option (list (list node)) (* None: nullptr *)
}.

Definition new_table (size : Z) : table :=
  let sz := u64 (basket (i32 size)) in
  mk_table sz 0 (Some (replicate (Z.to_nat sz) [])).

(** [float getRate() { return _total * 1.0 / _size; }] and
    [getRate() > 16].  [_size] is a power of two, so the double quotient is
    exact, and its rounding to a float with 24 bits exceeds 16 when it is
    above [16 + 2^-20] (the tie goes to 16). *)
Definition needRehash (t : table) : bool :=
  (t_size t * (2 ^ 24 + 1) <? t_total t * 2 ^ 20)%Z.

Definition bucket_of (size : Z) (k : K) : nat := Z.to_nat (posHash k mod size).

(** One [datas[_posHash(n.key) % size].push_back(n)]. *)
Definition push_node (size : Z) (datas : list (list node)) (n : node) :
    list (list node) :=
  alter (fun b => b ++ [n]) (bucket_of size (fst n)) datas.

Definition rehashUnlock (t : table) : table :=
  let size := u64 (basket (i32 (t_total t))) in
  if (size =? t_size t)%Z then t else
  let datas := foldl (foldl (push_node size)) (replicate (Z.to_nat size) [])
                     (default [] (t_datas t)) in
  mk_table size (t_total t) (Some (std_sort fst <$> datas)).

Definition rehash (t : table) : table :=
  if needRehash t then rehashUnlock t else t.

(** [uint32_t pos = hashvalue % _size], the bucket it selects, and the
    replacement of that bucket. *)
Definition tbl_pos (k : K) : M table nat := fun t =>
  if (t_size t =? 0)%Z then Undef DivByZero else Ret (bucket_of (t_size t) k) t.

Definition tbl_bucket (pos : nat) : M table (list node) := fun t =>
  match t_datas t with
  | None => Undef NullDeref
  | Some ds => match ds !! pos with
               | None => Undef BadIndex
               | Some b => Ret b t
               end
  end.

Definition set_bucket (pos : nat) (b : list node) (t : table) : table :=
  mk_table (t_size t) (t_total t) ((fun ds => <[pos := b]> ds) <$> t_datas t).

Definition add_total (d : Z) (t : table) : table :=
  mk_table (t_size t) (u64 (t_total t + d)) (t_datas t).

(** [*it] *)
Definition node_at (b : list node) (it : nat) : M table node := fun t =>
  match b !! it with
  | None => Undef BadIndex
  | Some n => Ret n t
  end.

(** A new node: [push_back] and [sortLast]. *)
Definition push_sorted (b : list node) (n : node) : list node :=
  sortLast fst (b ++ [n]) (length (b ++ [n])).

(** The removal shared by the [del]s: swap with the last node, [resize],
    [std::sort]. *)
Definition remove_node (b : list node) (it : nat) : list node :=
  let b := if decide (1 < length b) then swap b it (length b - 1) else b in
  let b := take (length b - 1) b in
  std_sort fst b.

(** The steps the methods are made of: the search of [Node(k)] in its bucket
    ([pos], the bucket, the iterator), and what is done at the place found. *)
Definition tbl_find (k : K) : M table (nat * list node * option nat) :=
  pos ← tbl_pos k;
  b ← tbl_bucket pos;
  mret (pos, b, binarySearch fst b k).

Definition tbl_push (pos : nat) (b : list node) (n : node) : M table unit :=
  modify (set_bucket pos (push_sorted b n));;
  modify (add_total 1).

Definition tbl_assign (pos : nat) (b : list node) (it : nat) (p : P) : M table unit :=
  n ← node_at b it;
  modify (set_bucket pos (<[it := (fst n, p)]> b)).

Definition tbl_erase (pos : nat) (b : list node) (it : nat) : M table unit :=
  modify (set_bucket pos (remove_node b it));;
  modify (add_total (-1)).

(** The two nested loops of the [foreach] methods; the callback threads the
    state it captures, and returns [false] to stop. *)
Fixpoint foreach_bucket {S} (cb : node -> S -> S * bool) (b : list node) (s : S) :
    S * bool :=
  match b with
  | [] => (s, true)
  | n :: b => match cb n s with
              | (s, true) => foreach_bucket cb b s
              | (s, false) => (s, false)
              end
  end.

Fixpoint foreach_buckets {S} (cb : node -> S -> S * bool)
    (ds : list (list node)) (s : S) : S * bool :=
  match ds with
  | [] => (s, true)
  | b :: ds => match foreach_bucket cb b s with
               | (s, true) => foreach_buckets cb ds s
               | (s, false) => (s, false)
               end
  end.

(** ** Invariant and abstraction *)

Definition in_bucket (size : Z) (i : nat) (n : node) : Prop :=
  bucket_of size (fst n) = i.

Record buckets_ok (size : Z) (ds : list (list node)) : Prop := {
  ok_size : (0 < size)%Z;
  ok_length : length ds = Z.to_nat size;
  ok_sorted i b : ds !! i = Some b -> sorted fst b;
  ok_home i b : ds !! i = Some b -> Forall (in_bucket size i) b
}.

Definition wf_table (t : table) : Prop :=
  exists ds, t_datas t = Some ds /\ buckets_ok (t_size t) ds /\
    t_total t = u64 (Z.of_nat (length (concat ds))).

Definition abs_buckets (ds : list (list node)) : gmap K P :=
  list_to_map (concat ds).

Definition abs (t : table) : gmap K P := abs_buckets (default [] (t_datas t)).

(** ** Lemmas *)

Lemma basket_range n : (0 < basket n <= 2 ^ 30)%Z.
Proof.
  unfold basket. case_match eqn:E; [lia |]. apply Z.leb_gt in E.
  rewrite Z.shiftl_1_l. pose proof (Z.log2_nonneg (Z.abs n)). split.
  - apply Z.pow_pos_nonneg; lia.
  - apply Z.pow_le_mono_r; lia.
Qed.

Lemma basket_u64 n : u64 (basket n) = basket n.
Proof. apply uwrap_id. pose proof (basket_range n). unfold in_u. lia. Qed.

Lemma basket_above n : (0 < n < 2 ^ 30)%Z -> (n < basket n)%Z.
Proof.
  intros Hn. unfold basket. case_match eqn:E; [lia |].
  rewrite Z.abs_eq by lia. rewrite Z.shiftl_1_l, Z.min_l.
  - rewrite Z.add_1_r. apply Z.log2_spec. lia.
  - assert (Z.log2 n < 30)%Z by (apply Z.log2_lt_pow2; lia). lia.
Qed.

Lemma bucket_of_lt size k : (0 < size)%Z -> bucket_of size k < Z.to_nat size.
Proof.
  intros Hs. unfold bucket_of. pose proof (Z.mod_pos_bound (posHash k) size). lia.
Qed.

(** Splitting one bucket out of the node list. *)
Lemma buckets_split (ds : list (list node)) i b :
  ds !! i = Some b ->
  exists rest, concat ds ≡ₚ b ++ rest /\
    forall b', concat (<[i := b']> ds) ≡ₚ b' ++ rest.
Proof.
  revert i. induction ds as [| c ds IH]; intros [| i] Hi; simpl in *; try done.
  - injection Hi as ->. by exists (concat ds).
  - destruct (IH i Hi) as (rest & H1' & H2'). exists (c ++ rest). split.
    + rewrite H1'. rewrite !app_assoc. by rewrite (Permutation_app_comm c b).
    + intros b'. rewrite H2', !app_assoc. by rewrite (Permutation_app_comm c b').
Qed.

Lemma home_of_elem size ds i b n :
  buckets_ok size ds -> ds !! i = Some b -> n ∈ b -> bucket_of size (fst n) = i.
Proof.
  intros Hok Hi Hn. pose proof (ok_home _ _ Hok i b Hi) as Hf.
  rewrite Forall_forall in Hf. by apply Hf.
Qed.

(** Keys are distinct over the whole table. *)
Lemma NoDup_keys_aux (ds : list (list node)) (f : K -> nat) off :
  (forall i b, ds !! i = Some b -> NoDup (fst <$> b) /\
     Forall (fun n => f (fst n) = off + i) b) ->
  NoDup (fst <$> concat ds) /\
  Forall (fun n => off <= f (fst n)) (concat ds).
Proof.
  revert off. induction ds as [| c ds IH]; intros off Hds; simpl.
  { split; constructor. }
  destruct (Hds 0 c eq_refl) as [Hc Hfc].
  destruct (IH (S off)) as [Hn Hf].
  { intros i b Hi. destruct (Hds (S i) b Hi) as [Hb Hfb]. split; [done |].
    eapply Forall_impl; [exact Hfb |]. intros n. simpl. lia. }
  rewrite fmap_app, NoDup_app, Forall_app. rewrite Forall_forall in Hfc, Hf.
  split; [split_and!; auto |].
  - intros k (n & -> & Hin)%list_elem_of_fmap (m & Hk & Hin')%list_elem_of_fmap.
    specialize (Hfc n Hin). specialize (Hf m Hin'). rewrite Hk in Hfc. lia.
  - rewrite !Forall_forall. split; intros n Hin.
    + specialize (Hfc n Hin). lia.
    + specialize (Hf n Hin). lia.
Qed.

Lemma NoDup_keys size ds : buckets_ok size ds -> NoDup (fst <$> concat ds).
Proof.
  intros Hok. apply (NoDup_keys_aux ds (bucket_of size) 0). intros i b Hi. split.
  - by apply sorted_NoDup, (ok_sorted _ _ Hok i).
  - apply (ok_home _ _ Hok i b Hi).
Qed.

(** What the search of a key's bucket says about the abstract map. *)
Lemma bucket_lookup size ds k :
  buckets_ok size ds ->
  exists b, ds !! bucket_of size k = Some b /\ sorted fst b /\
    Forall (in_bucket size (bucket_of size k)) b.
Proof.
  intros Hok. destruct (ds !! bucket_of size k) as [b |] eqn:Hb.
  - exists b. split_and!; auto.
    + by apply (ok_sorted _ _ Hok (bucket_of size k)).
    + by apply (ok_home _ _ Hok (bucket_of size k)).
  - apply lookup_ge_None in Hb. pose proof (ok_length _ _ Hok) as Hl.
    rewrite Hl in Hb. pose proof (bucket_of_lt size k (ok_size _ _ Hok)). lia.
Qed.

Lemma elem_of_concat (ds : list (list node)) i b n :
  ds !! i = Some b -> n ∈ b -> n ∈ concat ds.
Proof.
  intros Hi Hn. destruct (buckets_split ds i b Hi) as (rest & -> & _).
  apply elem_of_app. by left.
Qed.

Lemma abs_found size ds k b i p :
  buckets_ok size ds -> ds !! bucket_of size k = Some b ->
  b !! i = Some (k, p) -> abs_buckets ds !! k = Some p.
Proof.
  intros Hok Hb Hi. apply elem_of_list_to_map_1; [by eapply NoDup_keys |].
  eapply elem_of_concat; [exact Hb |]. by eapply list_elem_of_lookup_2.
Qed.

Lemma abs_absent size ds k b :
  buckets_ok size ds -> ds !! bucket_of size k = Some b ->
  k ∉ (fst <$> b) -> abs_buckets ds !! k = None.
Proof.
  intros Hok Hb Hk. apply not_elem_of_list_to_map_1.
  intros (n & -> & Hn)%list_elem_of_fmap. apply list_elem_of_In, in_concat in Hn.
  destruct Hn as (c & Hc & Hn). apply list_elem_of_In in Hc, Hn.
  apply list_elem_of_lookup in Hc as [j Hj].
  pose proof (home_of_elem size ds j c n Hok Hj Hn) as <-.
  rewrite Hb in Hj. injection Hj as ->. apply Hk. by apply list_elem_of_fmap_2.
Qed.

(** Replacing a bucket by a sorted one of the same home. *)
Lemma buckets_ok_set size ds i b' :
  buckets_ok size ds -> i < length ds ->
  sorted fst b' -> Forall (in_bucket size i) b' ->
  buckets_ok size (<[i := b']> ds).
Proof.
  intros Hok Hlt Hs Hf. destruct Hok as [? ? Hsd Hhm]. split; auto.
  - by rewrite length_insert.
  - intros j c Hj. destruct (decide (i = j)) as [<- | Hne].
    + rewrite list_lookup_insert_eq in Hj by done. by injection Hj as <-.
    + rewrite list_lookup_insert_ne in Hj by done. by eapply Hsd.
  - intros j c Hj. destruct (decide (i = j)) as [<- | Hne].
    + rewrite list_lookup_insert_eq in Hj by done. by injection Hj as <-.
    + rewrite list_lookup_insert_ne in Hj by done. by eapply Hhm.
Qed.

Lemma abs_perm (l1 l2 : list node) :
  l1 ≡ₚ l2 -> NoDup (fst <$> l1) ->
  list_to_map l1 =@{gmap K P} list_to_map l2.
Proof. intros Hp Hd. by apply list_to_map_proper. Qed.

(** *** Insertion of a new node *)
Lemma push_sorted_ok size b n i :
  sorted fst b -> Forall (in_bucket size i) b -> in_bucket size i n ->
  fst n ∉ (fst <$> b) ->
  sorted fst (push_sorted b n) /\ Forall (in_bucket size i) (push_sorted b n) /\
  push_sorted b n ≡ₚ n :: b.
Proof.
  intros Hs Hf Hn Hk. unfold push_sorted.
  assert (sortLast fst (b ++ [n]) (length (b ++ [n])) ≡ₚ n :: b) as Hp.
  { rewrite sortLast_perm by (by apply sorted_msorted).
    by rewrite <- Permutation_cons_append. }
  split_and!; [by apply sortLast_sorted | | done].
  rewrite Hp. by constructor.
Qed.

Lemma insert_new_ok size ds k p b :
  buckets_ok size ds -> ds !! bucket_of size k = Some b ->
  k ∉ (fst <$> b) ->
  let ds' := <[bucket_of size k := push_sorted b (k, p)]> ds in
  buckets_ok size ds' /\ abs_buckets ds' = <[k := p]> (abs_buckets ds) /\
  length (concat ds') = S (length (concat ds)).
Proof.
  intros Hok Hb Hk ds'. pose proof (lookup_lt_Some _ _ _ Hb) as Hlt.
  destruct (push_sorted_ok size b (k, p) (bucket_of size k)) as (Hs & Hf & Hp);
    [by apply (ok_sorted _ _ Hok (bucket_of size k))
    | by apply (ok_home _ _ Hok) | done | done |].
  assert (buckets_ok size ds') as Hok' by (by apply buckets_ok_set).
  destruct (buckets_split ds _ b Hb) as (rest & Hr & Hr').
  assert (concat ds' ≡ₚ (k, p) :: concat ds) as Hc.
  { unfold ds'. rewrite Hr', Hp. simpl. by rewrite Hr. }
  split_and!; [done | | by rewrite Hc].
  unfold abs_buckets. rewrite (abs_perm _ _ Hc) by (by eapply NoDup_keys). done.
Qed.

(** *** Update of a payload in place *)
Lemma update_in_place_ok size ds k p p' b i :
  buckets_ok size ds -> ds !! bucket_of size k = Some b ->
  b !! i = Some (k, p) ->
  let ds' := <[bucket_of size k := <[i := (k, p')]> b]> ds in
  buckets_ok size ds' /\ abs_buckets ds' = <[k := p']> (abs_buckets ds) /\
  length (concat ds') = length (concat ds).
Proof.
  intros Hok Hb Hi ds'. pose proof (lookup_lt_Some _ _ _ Hb) as Hlt.
  pose proof (lookup_lt_Some _ _ _ Hi) as Hlti.
  assert (buckets_ok size ds') as Hok'.
  { apply buckets_ok_set; auto.
    - apply (sorted_fmap_keys fst). rewrite list_fmap_insert, list_insert_id.
      + apply (sorted_fmap_keys fst). by eapply (ok_sorted _ _ Hok).
      + by rewrite list_lookup_fmap, Hi.
    - apply Forall_insert; [by apply (ok_home _ _ Hok) | done]. }
  destruct (buckets_split ds _ b Hb) as (rest & Hr & Hr').
  pose proof (take_drop_middle b i (k, p) Hi) as Hbm.
  assert (concat ds ≡ₚ (k, p) :: take i b ++ drop (S i) b ++ rest) as Hc.
  { rewrite Hr. rewrite <- Hbm at 1. rewrite <- app_assoc. simpl.
    by rewrite <- Permutation_middle. }
  assert (concat ds' ≡ₚ (k, p') :: take i b ++ drop (S i) b ++ rest) as Hc'.
  { unfold ds'. rewrite Hr', insert_take_drop by done. rewrite <- app_assoc. simpl.
    by rewrite <- Permutation_middle. }
  split_and!; [done | | by rewrite Hc, Hc'].
  unfold abs_buckets.
  rewrite (abs_perm _ _ Hc), (abs_perm _ _ Hc') by (by eapply NoDup_keys).
  simpl. by rewrite insert_insert_eq.
Qed.

(** *** Removal *)
Lemma swap_last (l : list node) x it n :
  (l ++ [x]) !! it = Some n ->
  exists l', swap (l ++ [x]) it (length l) = l' ++ [n] /\
    length l' = length l /\ n :: l' ≡ₚ l ++ [x].
Proof.
  intros Hn. unfold swap. rewrite Hn, list_lookup_middle by done.
  pose proof (lookup_lt_Some _ _ _ Hn) as Hlt. rewrite length_app in Hlt. simpl in Hlt.
  rewrite (insert_app_r_alt l) by lia. rewrite Nat.sub_diag. simpl.
  destruct (decide (it = length l)) as [-> | Hne].
  - rewrite list_lookup_middle in Hn by done. injection Hn as ->.
    exists l. rewrite insert_app_r_alt by lia. rewrite Nat.sub_diag. simpl.
    split_and!; [done | done |]. by rewrite Permutation_cons_append.
  - rewrite lookup_app_l in Hn by lia. exists (<[it := x]> l).
    rewrite insert_app_l by lia. split_and!; [done | by rewrite length_insert |].
    rewrite insert_take_drop by lia.
    rewrite <- (take_drop_middle l it n Hn) at 3. rewrite <- app_assoc. simpl.
    rewrite (Permutation_middle (take it l) (x :: _) n).
    apply Permutation_app_head, Permutation_skip, Permutation_cons_append.
Qed.

Lemma remove_node_perm (b : list node) it n :
  b !! it = Some n -> n :: remove_node b it ≡ₚ b.
Proof.
  intros Hn. unfold remove_node. rewrite std_sort_perm.
  destruct (exists_last (l := b)) as (l & x & ->).
  { intros ->. done. }
  case_decide as Hlen.
  - replace (length (l ++ [x]) - 1) with (length l) by (rewrite length_app; simpl; lia).
    destruct (swap_last l x it n Hn) as (l' & -> & Hl' & Hp).
    rewrite length_app. simpl.
    replace (length l' + 1 - 1) with (length l') by lia.
    by rewrite take_app_length.
  - rewrite length_app in Hlen. simpl in Hlen. destruct l; simpl in *; [| lia].
    destruct it; simpl in *; by simplify_eq.
Qed.

Lemma remove_ok size ds k p b i :
  buckets_ok size ds -> ds !! bucket_of size k = Some b ->
  b !! i = Some (k, p) ->
  let ds' := <[bucket_of size k := remove_node b i]> ds in
  buckets_ok size ds' /\ abs_buckets ds' = delete k (abs_buckets ds) /\
  length (concat ds) = S (length (concat ds')).
Proof.
  intros Hok Hb Hi ds'. pose proof (lookup_lt_Some _ _ _ Hb) as Hlt.
  pose proof (remove_node_perm b i _ Hi) as Hp.
  pose proof (sorted_NoDup fst b ltac:(by eapply (ok_sorted _ _ Hok))) as Hd.
  assert (NoDup (fst <$> remove_node b i)) as Hd'.
  { rewrite <- Hp in Hd. simpl in Hd. by apply NoDup_cons in Hd as [_ ?]. }
  assert (buckets_ok size ds') as Hok'.
  { apply buckets_ok_set; auto.
    - apply msorted_NoDup_sorted; [apply std_sort_msorted | done].
    - pose proof (ok_home _ _ Hok _ _ Hb) as Hf. rewrite <- Hp in Hf.
      by inversion Hf. }
  destruct (buckets_split ds _ b Hb) as (rest & Hr & Hr').
  assert (concat ds ≡ₚ (k, p) :: concat ds') as Hc.
  { unfold ds'. rewrite Hr, Hr'. by rewrite <- Hp at 1. }
  pose proof (NoDup_keys _ _ Hok) as Hnd.
  split_and!; [done | | by rewrite Hc].
  unfold abs_buckets. rewrite (abs_perm _ _ Hc) by done. simpl.
  rewrite Hc in Hnd. simpl in Hnd. apply NoDup_cons in Hnd as [Hnk _].
  rewrite delete_insert_id; [done |]. by apply not_elem_of_list_to_map_1.
Qed.

(** *** Rehash *)
Lemma foldl_nested {B C} (g : C -> B -> C) (ds : list (list B)) acc :
  foldl (foldl g) acc ds = foldl g acc (concat ds).
Proof.
  revert acc. induction ds as [| b ds IH]; intros acc; simpl; [done |].
  by rewrite foldl_app, IH.
Qed.

Lemma push_node_ok size acc n :
  (0 < size)%Z -> length acc = Z.to_nat size ->
  (forall i b, acc !! i = Some b -> Forall (in_bucket size i) b) ->
  length (push_node size acc n) = Z.to_nat size /\
  (forall i b, push_node size acc n !! i = Some b -> Forall (in_bucket size i) b) /\
  concat (push_node size acc n) ≡ₚ n :: concat acc.
Proof.
  intros Hsz Hl Hh. unfold push_node.
  pose proof (bucket_of_lt size (fst n) Hsz) as Hlt. rewrite <- Hl in Hlt.
  apply lookup_lt_is_Some_2 in Hlt as [c Hc].
  rewrite length_alter. split_and!; [done | |].
  - intros i b Hi. rewrite list_lookup_alter in Hi.
    case_decide as Hd; simplify_eq.
    + rewrite Hc in Hi. injection Hi as <-.
      apply Forall_app. split; [by apply Hh | by repeat constructor].
    + by apply Hh.
  - destruct (buckets_split acc _ c Hc) as (rest & Hr & Hr').
    assert (alter (fun b => b ++ [n]) (bucket_of size (fst n)) acc =
            <[bucket_of size (fst n) := c ++ [n]]> acc) as ->.
    { pose proof (lookup_lt_Some _ _ _ Hc) as Hlt.
      apply list_eq. intros i. rewrite list_lookup_alter.
      case_decide as Hi; [subst i |].
      - by rewrite Hc, list_lookup_insert_eq.
      - by rewrite list_lookup_insert_ne. }
    rewrite Hr', Hr. rewrite <- Permutation_cons_append. done.
Qed.

Lemma push_nodes_ok size l acc :
  (0 < size)%Z -> length acc = Z.to_nat size ->
  (forall i b, acc !! i = Some b -> Forall (in_bucket size i) b) ->
  let r := foldl (push_node size) acc l in
  length r = Z.to_nat size /\
  (forall i b, r !! i = Some b -> Forall (in_bucket size i) b) /\
  concat r ≡ₚ l ++ concat acc.
Proof.
  intros Hsz. revert acc. induction l as [| n l IH]; intros acc Hl Hh; simpl.
  { done. }
  destruct (push_node_ok size acc n Hsz Hl Hh) as (Hl' & Hh' & Hc).
  destruct (IH _ Hl' Hh') as (H1' & H2' & H3'). split_and!; [done | done |].
  rewrite H3', Hc. by rewrite <- Permutation_middle.
Qed.

Lemma concat_replicate_nil {B} n : concat (replicate n (@nil B)) = [].
Proof. by induction n. Qed.

Lemma concat_sort_perm (ds : list (list node)) :
  concat (std_sort fst <$> ds) ≡ₚ concat ds.
Proof.
  induction ds as [| b ds IH]; simpl; [done |]. by rewrite IH, std_sort_perm.
Qed.

(** Distributing nodes with distinct keys over a fresh table and sorting each
    bucket, the loop of [rehashUnlock] and of the [readFrom]s. *)
Lemma distribute_ok size l :
  (0 < size)%Z -> NoDup (fst <$> l) ->
  let ds := std_sort fst <$>
    foldl (push_node size) (replicate (Z.to_nat size) []) l in
  buckets_ok size ds /\ concat ds ≡ₚ l.
Proof.
  intros Hsz Hd ds.
  destruct (push_nodes_ok size l (replicate (Z.to_nat size) [])) as (Hl & Hh & Hc);
    [done | by rewrite length_replicate | |].
  { intros i b Hi. apply lookup_replicate in Hi as [-> _]. constructor. }
  rewrite concat_replicate_nil, app_nil_r in Hc.
  assert (concat ds ≡ₚ l) as Hcd by (unfold ds; by rewrite concat_sort_perm).
  split; [| done]. split; [done | | |].
  - unfold ds. by rewrite length_fmap.
  - intros i b Hi. unfold ds in Hi. rewrite list_lookup_fmap_Some in Hi.
    destruct Hi as (c & -> & Hi). apply std_sort_sorted.
    destruct (buckets_split _ i c Hi) as (rest & Hr & _).
    rewrite <- Hc, Hr, fmap_app in Hd. by apply NoDup_app in Hd as [? _].
  - intros i b Hi. unfold ds in Hi. rewrite list_lookup_fmap_Some in Hi.
    destruct Hi as (c & -> & Hi). rewrite std_sort_perm. by apply Hh.
Qed.

Lemma new_table_wf size : wf_table (new_table size) /\ abs (new_table size) = ∅.
Proof.
  unfold new_table. rewrite basket_u64. pose proof (basket_range (i32 size)) as Hb.
  split.
  - eexists. split_and!; [done | | by rewrite concat_replicate_nil]. simpl. split.
    + lia.
    + by rewrite length_replicate.
    + intros i b [-> _]%lookup_replicate. constructor.
    + intros i b [-> _]%lookup_replicate. constructor.
  - unfold abs, abs_buckets. simpl. by rewrite concat_replicate_nil.
Qed.

Lemma rehashUnlock_wf t : wf_table t ->
  wf_table (rehashUnlock t) /\ abs (rehashUnlock t) = abs t.
Proof.
  intros (ds & Hds & Hok & Ht). unfold rehashUnlock. rewrite basket_u64.
  case_match; [by split; [exists ds |] |].
  rewrite Hds. simpl. rewrite foldl_nested.
  pose proof (NoDup_keys _ _ Hok) as Hnd.
  destruct (distribute_ok (basket (i32 (t_total t))) (concat ds)) as [Hok' Hp];
    [apply basket_range | done |].
  split.
  - eexists. split_and!; [done | done |]. simpl. by rewrite Hp.
  - unfold abs. simpl. rewrite Hds. simpl. symmetry. by apply abs_perm.
Qed.

Lemma rehash_wf t : wf_table t -> wf_table (rehash t) /\ abs (rehash t) = abs t.
Proof. intros Ht. unfold rehash. case_match; [by apply rehashUnlock_wf | done]. Qed.

(** The number of nodes is the size of the abstract map. *)
Lemma size_abs size ds : buckets_ok size ds ->
  base.size (abs_buckets ds) = length (concat ds).
Proof.
  intros Hok. unfold abs_buckets. rewrite <- (length_map_to_list (M := gmap K)).
  rewrite map_to_list_to_map by (by eapply NoDup_keys). done.
Qed.

(** *** The steps, on the abstract map *)
Lemma wf_intro size total ds :
  buckets_ok size ds -> total = u64 (Z.of_nat (length (concat ds))) ->
  wf_table (mk_table size total (Some ds)).
Proof. intros. by exists ds. Qed.

Lemma u64_add a d : u64 (u64 a + d) = u64 (a + d).
Proof. unfold u64, uwrap. by rewrite Zplus_mod_idemp_l. Qed.

(** The size and total of a table after a step. *)
Definition counts (t t' : table) (d : Z) : Prop :=
  t_size t' = t_size t /\ t_total t' = u64 (t_total t + d).

Lemma tbl_push_spec t ds b k p :
  t_datas t = Some ds -> buckets_ok (t_size t) ds ->
  t_total t = u64 (Z.of_nat (length (concat ds))) ->
  ds !! bucket_of (t_size t) k = Some b -> k ∉ (fst <$> b) ->
  exists t', tbl_push (bucket_of (t_size t) k) b (k, p) t = Ret tt t' /\
    wf_table t' /\ abs t' = <[k := p]> (abs t) /\ counts t t' 1.
Proof.
  intros Hds Hok Ht Hb Hk.
  destruct (insert_new_ok (t_size t) ds k p b Hok Hb Hk) as (Hok' & Habs' & Hlen).
  eexists. split; [reflexivity |].
  unfold abs, add_total, set_bucket. rewrite Hds. simpl. split_and!; [| done | done].
  apply wf_intro; [done |]. rewrite Hlen, Ht, u64_add. f_equal. lia.
Qed.

Lemma u64_idem a : u64 (u64 a) = u64 a.
Proof. unfold u64. by rewrite uwrap_id by (by apply uwrap_range). Qed.

Lemma tbl_assign_spec t ds b k p p' it :
  t_datas t = Some ds -> buckets_ok (t_size t) ds ->
  t_total t = u64 (Z.of_nat (length (concat ds))) ->
  ds !! bucket_of (t_size t) k = Some b -> b !! it = Some (k, p) ->
  exists t', tbl_assign (bucket_of (t_size t) k) b it p' t = Ret tt t' /\
    wf_table t' /\ abs t' = <[k := p']> (abs t) /\ counts t t' 0.
Proof.
  intros Hds Hok Ht Hb Hi.
  destruct (update_in_place_ok (t_size t) ds k p p' b it Hok Hb Hi)
    as (Hok' & Habs' & Hlen).
  eexists. unfold tbl_assign.
  rewrite (bind_Ret _ _ _ (k, p) t) by (unfold node_at; by rewrite Hi).
  split; [reflexivity |].
  unfold abs, set_bucket, counts. rewrite Hds. simpl.
  split_and!; [| done | done |].
  - apply wf_intro; [done |]. by rewrite Hlen.
  - rewrite Z.add_0_r, Ht. by rewrite u64_idem.
Qed.

Lemma tbl_erase_spec t ds b k p it :
  t_datas t = Some ds -> buckets_ok (t_size t) ds ->
  t_total t = u64 (Z.of_nat (length (concat ds))) ->
  ds !! bucket_of (t_size t) k = Some b -> b !! it = Some (k, p) ->
  exists t', tbl_erase (bucket_of (t_size t) k) b it t = Ret tt t' /\
    wf_table t' /\ abs t' = delete k (abs t) /\ counts t t' (-1).
Proof.
  intros Hds Hok Ht Hb Hi.
  destruct (remove_ok (t_size t) ds k p b it Hok Hb Hi) as (Hok' & Habs' & Hlen).
  eexists. split; [reflexivity |].
  unfold abs, add_total, set_bucket, counts. rewrite Hds. simpl.
  split_and!; [| done | done | done].
  apply wf_intro; [done |]. rewrite Ht, Hlen, u64_add. f_equal. lia.
Qed.

(** The search finds the key exactly when the map has it, and prepares the
    step that follows it. *)
Lemma tbl_find_spec t k : wf_table t ->
  exists pos b oit, tbl_find k t = Ret (pos, b, oit) t /\
    match oit with
    | None => abs t !! k = None /\
        forall p, exists t', tbl_push pos b (k, p) t = Ret tt t' /\
          wf_table t' /\ abs t' = <[k := p]> (abs t) /\ counts t t' 1
    | Some it => exists p, b !! it = Some (k, p) /\ abs t !! k = Some p /\
        (forall p', exists t', tbl_assign pos b it p' t = Ret tt t' /\
           wf_table t' /\ abs t' = <[k := p']> (abs t) /\ counts t t' 0) /\
        (exists t', tbl_erase pos b it t = Ret tt t' /\
           wf_table t' /\ abs t' = delete k (abs t) /\ counts t t' (-1))
    end.
Proof.
  intros (ds & Hds & Hok & Ht).
  destruct (bucket_lookup (t_size t) ds k Hok) as (b & Hb & Hs & Hf).
  exists (bucket_of (t_size t) k), b, (binarySearch fst b k). split.
  { unfold tbl_find, tbl_pos, tbl_bucket, mbind, M_bind.
    pose proof (ok_size _ _ Hok). rewrite (proj2 (Z.eqb_neq _ _)) by lia.
    by rewrite Hds, Hb. }
  apply sorted_msorted in Hs.
  assert (abs t = abs_buckets ds) as Habs by (unfold abs; by rewrite Hds).
  destruct (binarySearch fst b k) as [it |] eqn:Hbs.
  - apply binarySearch_Some in Hbs as ([k' p] & Hi & Hk); [| done].
    simpl in Hk. subst. exists p. split_and!; [done | | |].
    + rewrite Habs. by eapply abs_found.
    + intros p'. by eapply tbl_assign_spec.
    + by eapply tbl_erase_spec.
  - apply binarySearch_None in Hbs; [| done]. split.
    + rewrite Habs. by eapply abs_absent.
    + intros p. by eapply tbl_push_spec.
Qed.

(** *** Visiting *)
Lemma foreach_concat {S} (cb : node -> S -> S * bool) ds s :
  foreach_buckets cb ds s = foreach_bucket cb (concat ds) s.
Proof.
  revert s. induction ds as [| b ds IH]; intros s; simpl; [done |].
  induction b as [| n b IHb] in s |- *; simpl; [by rewrite IH |].
  destruct (cb n s) as [s' []]; [apply IHb | done].
Qed.

(** *** The load factor *)
Lemma rehash_load t :
  wf_table t -> (0 <= t_total t < 2 ^ 30)%Z ->
  (t_total (rehash t) = t_total t /\
   t_total (rehash t) * 2 ^ 20 <= t_size (rehash t) * (2 ^ 24 + 1))%Z.
Proof.
  intros Hwf Ht. unfold rehash. destruct (needRehash t) eqn:Hn.
  2: { unfold needRehash in Hn. apply Z.ltb_ge in Hn. lia. }
  assert (0 < t_total t)%Z as Hpos.
  { destruct Hwf as (ds & _ & Hok & _). pose proof (ok_size _ _ Hok).
    unfold needRehash in Hn. apply Z.ltb_lt in Hn. lia. }
  unfold rehashUnlock. rewrite basket_u64.
  unfold i32. rewrite swrap_id by (unfold in_s; lia).
  pose proof (basket_above (t_total t) ltac:(lia)) as Hb.
  case_match eqn:He; simpl.
  - apply Z.eqb_eq in He. unfold needRehash in Hn. apply Z.ltb_lt in Hn. lia.
  - lia.
Qed.

End table.

Arguments node_at {K P} b it _ /.
Arguments table : clear implicits.
