(* ===== verification/HashMap.v ===== *)
(** * HashMap

    [src/include/datastruct/hash_map.h]: a bucket table (file HashBuckets)
    whose payload is the value.  The locks taken by the methods make each of
    them atomic; they are not part of the model.

    The commands of a client are run against the table and against a finite
    map: the replies agree on every sequence of commands
    ([HashMap_refines_map]). *)

From S2P Require Import Prelude SortedVec HashBuckets.
From stdpp Require Import base list list_numbers numbers option sorting gmap.
From Stdlib Require Import ZArith Lia.

Section hashmap.
Context {K V : Type} `{StrictOrd K, PosHash K, Countable K}.

Local Abbreviation HashMap := (table K V).

Definition new_HashMap (size : Z) : HashMap := new_table size.

Definition HashMap_rforeach {S} (cb : K -> V -> S -> S * bool) (s : S) : M HashMap S :=
  fun t => Ret (fst (foreach_buckets (fun n => cb (fst n) (snd n))
                       (default [] (t_datas t)) s)) t.

(** [for(auto n : _datas[i]) cb(n.key, n.val)]: the callback gets a reference
    to the field of a copy of the node, so what it assigns is dropped with
    the copy. *)
Definition HashMap_wforeach {S} (cb : K -> V -> S -> S * V * bool) (s : S) :
    M HashMap S :=
  fun t => Ret (fst (foreach_buckets
                       (fun n s => let '(s, v, go) := cb (fst n) (snd n) s in (s, go))
                       (default [] (t_datas t)) s)) t.

(** [get] assigns its reference argument when it returns [true]. *)
Definition HashMap_get (k : K) : M HashMap (option V) :=
  '(pos, b, it) ← tbl_find k;
  match it with
  | None => mret None
  | Some it => n ← node_at b it; mret (Some (snd n))
  end.

Definition HashMap_exists (k : K) : M HashMap bool :=
  '(pos, b, it) ← tbl_find k;
  mret (match it with None => false | Some _ => true end).

Definition HashMap_set (k : K) (v : V) : M HashMap bool :=
  modify (fun t => if needRehash t then rehash t else t);;
  '(pos, b, it) ← tbl_find k;
  match it with
  | None => tbl_push pos b (k, v);; mret true
  | Some it => tbl_assign pos b it v;; mret false
  end.

Definition HashMap_getTotal : M HashMap Z := t ← get; mret (t_total t).

Definition HashMap_del (k : K) : M HashMap bool :=
  '(pos, b, it) ← tbl_find k;
  match it with
  | None => mret false
  | Some it => tbl_erase pos b it;; mret true
  end.

Definition HashMap_clear : M HashMap unit := modify (fun _ => mk_table 0 0 None).

Definition HashMap_rehash : M HashMap unit := modify rehash.

(** [merge]: the other table's nodes are copied out by [rforeach], then [set]
    one by one. *)
Fixpoint set_all (l : list (K * V)) : M HashMap unit :=
  match l with
  | [] => mret ()
  | (k, v) :: l => HashMap_set k v;; set_all l
  end.

Definition HashMap_merge (oth : HashMap) : M HashMap unit :=
  match HashMap_rforeach (fun k v tmp => (tmp ++ [(k, v)], true)) [] oth with
  | Ret tmp _ => set_all tmp
  | Throw e _ => throw e
  | Undef u => undef u
  end.

Definition HashMap_swap (this oth : HashMap) : HashMap * HashMap := (oth, this).

(** ** Behaviour of each operation on a well-formed table *)

Lemma HashMap_get_spec (t : HashMap) k :
  wf_table t -> HashMap_get k t = Ret (abs t !! k) t.
Proof.
  intros Hwf. destruct (tbl_find_spec t k Hwf) as (pos & b & [it |] & Hf & Hc);
    unfold HashMap_get; rewrite (bind_Ret _ _ _ _ _ Hf).
  - destruct Hc as (p & Hi & -> & _). unfold node_at, mbind, M_bind. by rewrite Hi.
  - by destruct Hc as [-> _].
Qed.

Lemma HashMap_exists_spec (t : HashMap) k :
  wf_table t -> HashMap_exists k t = Ret (bool_decide (is_Some (abs t !! k))) t.
Proof.
  intros Hwf. destruct (tbl_find_spec t k Hwf) as (pos & b & [it |] & Hf & Hc);
    unfold HashMap_exists; rewrite (bind_Ret _ _ _ _ _ Hf).
  - destruct Hc as (p & Hi & -> & _). by rewrite bool_decide_true.
  - destruct Hc as [-> _]. by rewrite bool_decide_false by (by intros [? ?]).
Qed.

Lemma rehash_guard (t : HashMap) : (if needRehash t then rehash t else t) = rehash t.
Proof. unfold rehash. by destruct (needRehash t). Qed.

Lemma HashMap_set_counts (t : HashMap) k v : wf_table t -> exists t',
  HashMap_set k v t = Ret (negb (bool_decide (is_Some (abs t !! k)))) t' /\
  wf_table t' /\ abs t' = <[k := v]> (abs t) /\
  exists d, (0 <= d <= 1)%Z /\ counts (rehash t) t' d.
Proof.
  intros Hwf. destruct (rehash_wf t Hwf) as [Hwf1 Habs1].
  destruct (tbl_find_spec _ k Hwf1) as (pos & b & [it |] & Hf & Hc);
    unfold HashMap_set; erewrite bind_Ret by reflexivity;
    rewrite rehash_guard, (bind_Ret _ _ _ _ _ Hf); rewrite Habs1 in Hc.
  - destruct Hc as (p & _ & -> & Ha & _). destruct (Ha v) as (t' & Hr & ? & ? & ?).
    exists t'. rewrite (bind_Ret _ _ _ _ _ Hr), bool_decide_true by done.
    split_and!; auto. exists 0%Z. auto with lia.
  - destruct Hc as [-> Hp]. destruct (Hp v) as (t' & Hr & ? & ? & ?).
    exists t'. rewrite (bind_Ret _ _ _ _ _ Hr).
    rewrite bool_decide_false by (by intros [? ?]).
    split_and!; auto. exists 1%Z. auto with lia.
Qed.

Lemma HashMap_set_spec (t : HashMap) k v : wf_table t -> exists t',
  HashMap_set k v t = Ret (negb (bool_decide (is_Some (abs t !! k)))) t' /\
  wf_table t' /\ abs t' = <[k := v]> (abs t).
Proof.
  intros Hwf. destruct (HashMap_set_counts t k v Hwf) as (t' & ? & ? & ? & _).
  by exists t'.
Qed.

Lemma HashMap_del_spec (t : HashMap) k : wf_table t -> exists t',
  HashMap_del k t = Ret (bool_decide (is_Some (abs t !! k))) t' /\
  wf_table t' /\ abs t' = delete k (abs t).
Proof.
  intros Hwf. destruct (tbl_find_spec t k Hwf) as (pos & b & [it |] & Hf & Hc);
    unfold HashMap_del; rewrite (bind_Ret _ _ _ _ _ Hf).
  - destruct Hc as (p & _ & -> & _ & t' & Hr & ? & ? & _).
    exists t'. by rewrite (bind_Ret _ _ _ _ _ Hr), bool_decide_true.
  - destruct Hc as [Hn _]. exists t.
    rewrite Hn, bool_decide_false by (by intros [? ?]). by rewrite delete_id.
Qed.

Lemma HashMap_getTotal_spec (t : HashMap) :
  wf_table t -> HashMap_getTotal t = Ret (u64 (Z.of_nat (size (abs t)))) t.
Proof.
  intros (ds & Hds & Hok & Ht). unfold HashMap_getTotal, abs. rewrite Hds. simpl.
  rewrite (size_abs _ _ Hok), <- Ht. done.
Qed.

(** Visiting copies every node once, in bucket order. *)
Lemma foreach_collect (l acc : list (K * V)) :
  foreach_bucket (fun n tmp => (tmp ++ [(fst n, snd n)], true)) l acc = (acc ++ l, true).
Proof.
  revert acc. induction l as [| [k v] l IH]; intros acc; simpl.
  - by rewrite app_nil_r.
  - rewrite IH. by rewrite <- app_assoc.
Qed.

Lemma HashMap_rforeach_collect (t : HashMap) :
  HashMap_rforeach (fun k v tmp => (tmp ++ [(k, v)], true)) [] t =
  Ret (concat (default [] (t_datas t))) t.
Proof.
  unfold HashMap_rforeach. f_equal. rewrite foreach_concat.
  by rewrite (foreach_collect _ []).
Qed.

Lemma set_all_spec l (t : HashMap) : wf_table t -> NoDup (fst <$> l) -> exists t',
  set_all l t = Ret tt t' /\ wf_table t' /\ abs t' = list_to_map l ∪ abs t.
Proof.
  revert t. induction l as [| [k v] l IH]; intros t Hwf Hd; simpl in *.
  { exists t. split_and!; auto. by rewrite (left_id_L ∅ (∪)). }
  apply NoDup_cons in Hd as [Hk Hd].
  destruct (HashMap_set_spec t k v Hwf) as (t1 & Hs & Hwf1 & Habs1).
  destruct (IH t1 Hwf1 Hd) as (t' & Hr & Hwf' & Habs').
  exists t'. rewrite (bind_Ret _ _ _ _ _ Hs). split_and!; auto.
  rewrite Habs', Habs1. rewrite <- insert_union_l, insert_union_r; [done |].
  by apply not_elem_of_list_to_map_1.
Qed.

Lemma HashMap_merge_spec (t oth : HashMap) : wf_table t -> wf_table oth -> exists t',
  HashMap_merge oth t = Ret tt t' /\ wf_table t' /\ abs t' = abs oth ∪ abs t.
Proof.
  intros Hwf (ds & Hds & Hok & _). unfold HashMap_merge.
  rewrite HashMap_rforeach_collect, Hds. simpl.
  destruct (set_all_spec (concat ds) t Hwf (NoDup_keys _ _ Hok)) as (t' & Hr & Hw & Ha).
  exists t'. split_and!; auto. rewrite Ha. unfold abs. by rewrite Hds.
Qed.

(** ** The specification: a finite map *)

Inductive hm_cmd :=
| HGet (k : K)
| HExists (k : K)
| HSet (k : K) (v : V)
| HDel (k : K)
| HTotal
| HRehash
| HMerge (oth : HashMap).

Inductive hm_reply :=
| RVal (v : option V)
| RBool (b : bool)
| RNum (n : Z)
| RUnit.

Definition hm_exec (c : hm_cmd) : M HashMap hm_reply :=
  match c with
  | HGet k => RVal <$> HashMap_get k
  | HExists k => RBool <$> HashMap_exists k
  | HSet k v => RBool <$> HashMap_set k v
  | HDel k => RBool <$> HashMap_del k
  | HTotal => RNum <$> HashMap_getTotal
  | HRehash => (fun _ => RUnit) <$> HashMap_rehash
  | HMerge oth => (fun _ => RUnit) <$> HashMap_merge oth
  end.

Definition map_exec (c : hm_cmd) (m : gmap K V) : hm_reply * gmap K V :=
  match c with
  | HGet k => (RVal (m !! k), m)
  | HExists k => (RBool (bool_decide (is_Some (m !! k))), m)
  | HSet k v => (RBool (negb (bool_decide (is_Some (m !! k)))), <[k := v]> m)
  | HDel k => (RBool (bool_decide (is_Some (m !! k))), delete k m)
  | HTotal => (RNum (u64 (Z.of_nat (size m))), m)
  | HRehash => (RUnit, m)
  | HMerge oth => (RUnit, abs oth ∪ m)
  end.

Definition cmd_wf (c : hm_cmd) : Prop :=
  match c with HMerge oth => wf_table oth | _ => True end.

Fixpoint hm_run (cs : list hm_cmd) : M HashMap (list hm_reply) :=
  match cs with
  | [] => mret []
  | c :: cs => r ← hm_exec c; rs ← hm_run cs; mret (r :: rs)
  end.

Fixpoint map_run (cs : list hm_cmd) (m : gmap K V) : list hm_reply * gmap K V :=
  match cs with
  | [] => ([], m)
  | c :: cs => let '(r, m) := map_exec c m in
               let '(rs, m) := map_run cs m in (r :: rs, m)
  end.

Lemma hm_exec_refines c (t : HashMap) : wf_table t -> cmd_wf c -> exists t',
  hm_exec c t = Ret (fst (map_exec c (abs t))) t' /\
  wf_table t' /\ abs t' = snd (map_exec c (abs t)).
Proof.
  intros Hwf Hc. destruct c as [k | k | k v | k | | | oth]; simpl.
  - exists t. by rewrite (fmap_Ret _ _ _ _ _ (HashMap_get_spec t k Hwf)).
  - exists t. by rewrite (fmap_Ret _ _ _ _ _ (HashMap_exists_spec t k Hwf)).
  - destruct (HashMap_set_spec t k v Hwf) as (t' & Hr & ?).
    exists t'. by rewrite (fmap_Ret _ _ _ _ _ Hr).
  - destruct (HashMap_del_spec t k Hwf) as (t' & Hr & ?).
    exists t'. by rewrite (fmap_Ret _ _ _ _ _ Hr).
  - exists t. by rewrite (fmap_Ret _ _ _ _ _ (HashMap_getTotal_spec t Hwf)).
  - exists (rehash t). split; [done |]. by apply rehash_wf.
  - destruct (HashMap_merge_spec t oth Hwf Hc) as (t' & Hr & ?).
    exists t'. by rewrite (fmap_Ret _ _ _ _ _ Hr).
Qed.

(** C3: a [HashMap] is a finite map.  From the empty table, any sequence of
    [get], [exists], [set], [del], [getTotal], [rehash] and [merge] (with a
    well-formed table) returns, never divides by zero and never leaves the
    bucket array, replies as the same sequence on a finite map does (the
    [bool] of [set] says that the key is new, [getTotal] is the number of
    keys), and ends in a well-formed table that stands for the final map. *)
Theorem HashMap_refines_map (size : Z) (cs : list hm_cmd)
    (Hcs : Forall cmd_wf cs) :
  exists t, hm_run cs (new_HashMap size) = Ret (fst (map_run cs ∅)) t /\
    wf_table t /\ abs t = snd (map_run cs ∅).
Proof.
  destruct (new_table_wf (K := K) (P := V) size) as [Hwf Habs]. rewrite <- Habs.
  unfold new_HashMap. clear Habs. generalize dependent (new_table (K := K) (P := V) size).
  induction Hcs as [| c cs Hc _ IH]; intros t Hwf; simpl.
  { by exists t. }
  destruct (hm_exec_refines c t Hwf Hc) as (t1 & Hr & Hwf1 & Habs1).
  destruct (IH t1 Hwf1) as (t' & Hrs & Hwf' & Habs').
  exists t'. rewrite (bind_Ret _ _ _ _ _ Hr), (bind_Ret _ _ _ _ _ Hrs).
  destruct (map_exec c (abs t)) as [r m]. simpl in *. subst m.
  by destruct (map_run cs (abs t1)) as [rs m].
Qed.

(** The load factor is bounded.  After a [set] the table holds at most
    sixteen nodes per bucket plus one (and the rounding of the float rate),
    as long as it holds fewer than [2^30] nodes. *)
Theorem HashMap_load_bound (t : HashMap) (k : K) (v : V)
    (Hwf : wf_table t) (Ht : (t_total t < 2 ^ 30)%Z) :
  exists b t', HashMap_set k v t = Ret b t' /\
    (t_total t' * 2 ^ 20 <= t_size t' * (2 ^ 24 + 1) + 2 ^ 20)%Z.
Proof.
  assert (0 <= t_total t)%Z as Hpos.
  { destruct Hwf as (ds & _ & _ & ->). by apply uwrap_range. }
  destruct (rehash_load t Hwf ltac:(lia)) as [Htot Hload].
  destruct (HashMap_set_counts t k v Hwf) as (t' & Hr & _ & _ & d & Hd & Hsz & Ht').
  do 2 eexists. split; [exact Hr |]. rewrite Hsz, Ht'.
  unfold u64. rewrite uwrap_id by (unfold in_u; lia). lia.
Qed.

(** After [clear] the table has no bucket, and the next access by key divides
    by zero. *)
Lemma HashMap_clear_unusable (t : HashMap) k v :
  (HashMap_clear;; HashMap_set k v) t = Undef DivByZero /\
  (HashMap_clear;; HashMap_get k) t = Undef DivByZero.
Proof. done. Qed.

End hashmap.

(** Twenty insertions into a table built with one bucket, which grows; then a
    deletion, a merge and lookups. *)
Definition hm_demo : list (@hm_cmd Z Z) :=
  (((fun k => HSet (k * 7 mod 20) k) <$> seqZ 0 20) ++
  [HSet 7 100; HDel 14; HMerge (new_HashMap 3); HTotal; HGet 7; HExists 14])%Z.

Lemma HashMap_refines_map_witness :
  exists t, hm_run hm_demo (new_HashMap 0) = Ret (fst (map_run hm_demo ∅)) t /\
    wf_table t /\ abs t = snd (map_run hm_demo ∅).
Proof.
  apply (HashMap_refines_map 0 hm_demo). unfold hm_demo. apply Forall_app. split.
  - apply Forall_fmap, Forall_true. done.
  - repeat constructor. apply new_table_wf.
Defined.

Lemma HashMap_load_bound_witness :
  exists b t', HashMap_set 5%Z 6%Z (new_HashMap 0) = Ret b t' /\
    (t_total t' * 2 ^ 20 <= t_size t' * (2 ^ 24 + 1) + 2 ^ 20)%Z.
Proof. apply HashMap_load_bound; [apply new_table_wf | done]. Defined.

(** The concrete replies of the demo. *)
Example hm_demo_replies :
  match hm_run hm_demo (new_HashMap 0) with
  | Ret rs t => drop 20 rs =
      [RBool false; RBool true; RUnit; RNum 19; RVal (Some 100%Z); RBool false] /\
      t_size t = 32%Z
  | _ => False
  end.
Proof. vm_compute. done. Qed.
