(* ===== verification/Streams.v ===== *)
(** * Binary streams

    The stream helpers of [src/include/utils/util.h] and
    [src/src/utils/util.cpp] that the containers use to save and load
    themselves: [readFixFromStream], [readFromStream] and the two
    [...WithSpeed] loops.  An input stream is the bytes it still has and its
    state; an output stream is the bytes written.  The [SpeedLimit] object
    only sleeps and is not modelled.

    The lemmas say that each loop ends, transfers exactly what was asked for
    when the stream has it, and reports failure otherwise; the chunking of
    the [WithSpeed] loops does not change the bytes. *)

From S2P Require Import Prelude.
From stdpp Require Import base list list_numbers numbers option.
From Stdlib Require Import ZArith Lia.

(** A trivially copyable type: [sizeof] bytes whose copy gives the value
    back.  The layout is the compiler's; [pod_ok] are the values the C++ type
    has (an integer field is a [Z] in range). *)
Class Pod (A : Type) := {
  sizeof : nat;
  pod_ok : A -> Prop;
  enc : A -> list Z;
  dec : list Z -> A;
  sizeof_pos : 0 < sizeof;
  enc_length a : length (enc a) = sizeof;
  dec_enc a : pod_ok a -> dec (enc a) = a
}.
Arguments sizeof A {_}.

(** The memory of a vector of such values, and back. *)
Definition enc_all {A} `{Pod A} (l : list A) : list Z := concat (enc <$> l).

Fixpoint dec_all {A} `{Pod A} (n : nat) (bytes : list Z) : list A :=
  match n with
  | O => []
  | S n => dec (take (sizeof A) bytes) :: dec_all n (drop (sizeof A) bytes)
  end.

Record istream := mk_istream {
  is_bytes : list Z;
  is_good : bool
}.

(** [is.read(p, n)]: the bytes it stores; a short read sets the fail bit. *)
Definition istream_read (ist : istream) (n : nat) : list Z * istream :=
  if is_good ist then
    if decide (n <= length (is_bytes ist))
    then (take n (is_bytes ist), mk_istream (drop n (is_bytes ist)) true)
    else (is_bytes ist, mk_istream [] false)
  else ([], ist).

(** [readFixFromStream(is, data, size)] on the memory [data]. *)
Fixpoint readFix_loop (fuel : nat) (ist : istream) (data : list Z) (pos size : nat) :
    option (list Z * nat * istream) :=
  match fuel with
  | O => None
  | S fuel =>
    if is_good ist && bool_decide (pos < size) then
      let '(got, ist) := istream_read ist (size - pos) in
      readFix_loop fuel ist (splice data pos got) (pos + length got) size
    else Some (data, pos, ist)
  end.

(** The result: the memory, whether all was read, the stream.  [None]: more
    iterations than bytes. *)
Definition readFixFromStream (ist : istream) (data : list Z) (size : nat) :
    option (list Z * bool * istream) :=
  match readFix_loop (S size) ist data 0 size with
  | None => None
  | Some (data, pos, ist) => Some (data, bool_decide (pos = size), ist)
  end.

(** [readFromStream(is, v)] for a [uint64_t]; [v] is its present value, which
    a short read overwrites in part. *)
Definition readFromStream_u64 (ist : istream) (v : Z) : option (Z * bool * istream) :=
  match readFixFromStream ist (le_split 8 v) 8 with
  | None => None
  | Some (data, ok, ist) => Some (le_combine data, ok, ist)
  end.

(** [std::max((uint64_t)ceil(speed / 100.0), (uint64_t)1024 * 64)] *)
Definition speed_chunk (speed : nat) : nat := Nat.max (ceil_div speed 100) (1024 * 64).

Fixpoint readFixSpeed_loop (fuel per : nat) (ist : istream) (data : list Z)
    (offset size : nat) : option (list Z * nat * istream) :=
  match fuel with
  | O => None
  | S fuel =>
    if is_good ist && bool_decide (offset < size) then
      let s := if decide (per < size - offset) then per else size - offset in
      let '(got, ist) := istream_read ist s in
      readFixSpeed_loop fuel per ist (splice data offset got) (offset + length got) size
    else Some (data, offset, ist)
  end.

Definition readFixFromStreamWithSpeed (ist : istream) (data : list Z) (size speed : nat) :
    option (list Z * bool * istream) :=
  match readFixSpeed_loop (S size) (speed_chunk speed) ist data 0 size with
  | None => None
  | Some (data, offset, ist) => Some (data, bool_decide (offset = size), ist)
  end.

(** The output stream stays good: its bytes, oldest first. *)
Fixpoint writeFixSpeed_loop (fuel per : nat) (os data : list Z) (offset size : nat) :
    option (list Z) :=
  match fuel with
  | O => None
  | S fuel =>
    if decide (offset < size) then
      let s := if decide (per < size - offset) then per else size - offset in
      writeFixSpeed_loop fuel per (os ++ take s (drop offset data)) data (offset + s) size
    else Some os
  end.

Definition writeFixToStreamWithSpeed (os data : list Z) (size speed : nat) :
    option (list Z) :=
  writeFixSpeed_loop (S size) (speed_chunk speed) os data 0 size.

(** ** Lemmas *)

Lemma speed_chunk_pos speed : 0 < speed_chunk speed.
Proof. unfold speed_chunk. lia. Qed.

Lemma splice_full (data got : list Z) pos :
  pos + length got = length data -> splice data pos got = take pos data ++ got.
Proof.
  intros Hl. unfold splice. rewrite drop_ge by lia. by rewrite app_nil_r.
Qed.

(** Both loops read the next [size - pos] bytes if the stream has them. *)
Lemma readFixSpeed_loop_ok fuel per b rest data pos size :
  0 < per -> pos + length b = size -> size <= length data ->
  size - pos < fuel ->
  readFixSpeed_loop fuel per (mk_istream (b ++ rest) true) data pos size =
  Some (splice data pos b, size, mk_istream rest true).
Proof.
  intros Hper. revert b data pos.
  induction fuel as [| fuel IH]; intros b data pos Hsz Hd Hf; [lia |].
  cbn [readFixSpeed_loop is_good]. rewrite andb_true_l.
  case_bool_decide as Hlt.
  2: { destruct b; [| simpl in *; lia]. rewrite splice_nil. simpl in *.
       do 3 f_equal. lia. }
  set (s := if decide (per < size - pos) then per else size - pos).
  assert (0 < s <= length b) as Hs by (unfold s; case_decide; lia).
  unfold istream_read. cbn [is_good is_bytes].
  rewrite decide_True by (rewrite length_app; lia).
  rewrite take_app_le, drop_app_le by lia.
  rewrite IH; rewrite ?length_take, ?length_drop; try lia.
  2: { rewrite length_splice; rewrite ?length_take; lia. }
  do 3 f_equal.
  rewrite <- length_take.
  rewrite splice_splice by lia. by rewrite take_drop.
Qed.

Lemma readFix_is_speed fuel ist data pos size :
  readFix_loop fuel ist data pos size =
  readFixSpeed_loop fuel size ist data pos size.
Proof.
  revert ist data pos. induction fuel as [| fuel IH]; intros ist data pos; [done |].
  cbn [readFix_loop readFixSpeed_loop].
  destruct (is_good ist && bool_decide (pos < size)) eqn:E; [| done].
  rewrite decide_False by lia. destruct (istream_read ist (size - pos)). apply IH.
Qed.

(** ... and fail if it has fewer. *)
Lemma readFixSpeed_loop_short fuel per b data pos size :
  0 < per -> pos + length b < size -> size - pos < fuel ->
  exists data', readFixSpeed_loop fuel per (mk_istream b true) data pos size =
    Some (data', pos + length b, mk_istream [] false).
Proof.
  intros Hper. revert b data pos.
  induction fuel as [| fuel IH]; intros b data pos Hsz Hf; [lia |].
  cbn [readFixSpeed_loop is_good]. rewrite andb_true_l.
  rewrite bool_decide_true by lia.
  set (s := if decide (per < size - pos) then per else size - pos).
  unfold istream_read. cbn [is_good is_bytes].
  assert (0 < s <= size - pos) as Hs by (unfold s; case_decide; lia).
  case_decide as Hl.
  - destruct (IH (drop s b) (splice data pos (take s b)) (pos + length (take s b)))
      as [data' ->]; rewrite ?length_take, ?length_drop; try lia.
    exists data'. do 3 f_equal. lia.
  - eexists. destruct fuel as [| fuel]; [lia |].
    cbn [readFixSpeed_loop is_good]. rewrite andb_false_l. reflexivity.
Qed.

Lemma readFixFromStream_ok b rest data :
  length b <= length data ->
  readFixFromStream (mk_istream (b ++ rest) true) data (length b) =
  Some (splice data 0 b, true, mk_istream rest true).
Proof.
  intros Hd. unfold readFixFromStream. rewrite readFix_is_speed.
  destruct b as [| x b].
  { by rewrite splice_nil. }
  rewrite readFixSpeed_loop_ok by (simpl in *; lia). by rewrite bool_decide_true.
Qed.

Lemma readFixFromStreamWithSpeed_ok b rest data speed :
  length b <= length data ->
  readFixFromStreamWithSpeed (mk_istream (b ++ rest) true) data (length b) speed =
  Some (splice data 0 b, true, mk_istream rest true).
Proof.
  intros Hd. unfold readFixFromStreamWithSpeed.
  pose proof (speed_chunk_pos speed).
  rewrite readFixSpeed_loop_ok by lia. by rewrite bool_decide_true.
Qed.

Lemma readFixFromStream_short b data size :
  length b < size ->
  exists data', readFixFromStream (mk_istream b true) data size =
    Some (data', false, mk_istream [] false).
Proof.
  intros Hd. unfold readFixFromStream. rewrite readFix_is_speed.
  destruct (readFixSpeed_loop_short (S size) size b data 0 size) as [d ->]; try lia.
  exists d. rewrite bool_decide_false by lia. done.
Qed.

Lemma readFixFromStreamWithSpeed_short b data size speed :
  length b < size ->
  exists data', readFixFromStreamWithSpeed (mk_istream b true) data size speed =
    Some (data', false, mk_istream [] false).
Proof.
  intros Hd. unfold readFixFromStreamWithSpeed. pose proof (speed_chunk_pos speed).
  destruct (readFixSpeed_loop_short (S size) (speed_chunk speed) b data 0 size)
    as [d ->]; try lia.
  exists d. rewrite bool_decide_false by lia. done.
Qed.

Lemma readFromStream_u64_ok v w rest :
  in_u 64 w ->
  readFromStream_u64 (mk_istream (le_split 8 w ++ rest) true) v =
  Some (w, true, mk_istream rest true).
Proof.
  intros Hw. unfold readFromStream_u64.
  replace 8 with (length (le_split 8 w)) at 3 by apply length_le_split.
  rewrite readFixFromStream_ok by (by rewrite !length_le_split).
  rewrite splice_full by (by rewrite !length_le_split).
  rewrite take_0, app_nil_l, le_combine_split. do 3 f_equal.
  by apply uwrap_id.
Qed.

Lemma readFromStream_u64_short v b :
  length b < 8 ->
  exists v', readFromStream_u64 (mk_istream b true) v =
    Some (v', false, mk_istream [] false).
Proof.
  intros Hb. unfold readFromStream_u64.
  destruct (readFixFromStream_short b (le_split 8 v) 8 Hb) as [d ->]. by eexists.
Qed.

Lemma writeFixSpeed_loop_ok fuel per os data offset size :
  0 < per -> size <= length data -> offset <= size -> size - offset < fuel ->
  writeFixSpeed_loop fuel per os data offset size =
  Some (os ++ take (size - offset) (drop offset data)).
Proof.
  intros Hper. revert os offset.
  induction fuel as [| fuel IH]; intros os offset Hd Ho Hf; [lia |].
  cbn [writeFixSpeed_loop]. case_decide as Hlt.
  2: { replace (size - offset) with 0 by lia. by rewrite take_0, app_nil_r. }
  set (s := if decide (per < size - offset) then per else size - offset).
  assert (0 < s <= size - offset) as Hs by (unfold s; case_decide; lia).
  rewrite IH by lia. rewrite <- app_assoc, <- drop_drop. do 2 f_equal.
  replace (size - offset) with (s + (size - (offset + s))) by lia.
  by rewrite take_take_drop.
Qed.

Lemma writeFixToStreamWithSpeed_ok os data speed :
  writeFixToStreamWithSpeed os data (length data) speed = Some (os ++ data).
Proof.
  unfold writeFixToStreamWithSpeed. pose proof (speed_chunk_pos speed).
  rewrite writeFixSpeed_loop_ok by lia. rewrite drop_0, Nat.sub_0_r.
  by rewrite take_ge.
Qed.

Section pod.
Context {A : Type} `{Pod A}.

Lemma length_enc_all (l : list A) : length (enc_all l) = length l * sizeof A.
Proof.
  induction l as [| a l IH]; [done |].
  change (enc_all (a :: l)) with (enc a ++ enc_all l).
  rewrite length_app, enc_length, IH. simpl. lia.
Qed.

Lemma dec_enc_all (l : list A) :
  Forall pod_ok l -> dec_all (length l) (enc_all l) = l.
Proof.
  induction 1 as [| a l Ha _ IH]; [done |].
  change (enc_all (a :: l)) with (enc a ++ enc_all l). simpl.
  rewrite take_app_length' by (by rewrite enc_length).
  rewrite drop_app_length' by (by rewrite enc_length). by rewrite dec_enc, IH by done.
Qed.
End pod.

(** Structures of 32-bit and 64-bit integers, without padding. *)
#[export] Program Instance int_pair_Pod : Pod (Z * Z) :=
  {| sizeof := 8;
     pod_ok n := in_s 32 (fst n) /\ in_s 32 (snd n);
     enc n := le_split 4 (fst n) ++ le_split 4 (snd n);
     dec l := (i32 (le_combine (take 4 l)), i32 (le_combine (drop 4 l))) |}.
Next Obligation. lia. Qed.
Next Obligation. done. Qed.
Next Obligation.
  intros [a b] [Ha Hb]. rewrite take_app_length', drop_app_length' by done.
  rewrite !le_combine_split. simpl in *. unfold i32.
  by rewrite !swrap_mod, !swrap_id by (lia || done).
Qed.

#[export] Program Instance char_Pod : Pod Z :=
  {| sizeof := 1; pod_ok := in_u 8; enc c := [c]; dec l := hd 0%Z l |}.
Next Obligation. lia. Qed.
Next Obligation. done. Qed.
Next Obligation. done. Qed.

#[export] Program Instance int_node_Pod : Pod (Z * (nat * nat)) :=
  {| sizeof := 16;
     pod_ok n := in_s 32 (fst n) /\ (Z.of_nat (fst (snd n)) < 2 ^ 31)%Z /\
                 (Z.of_nat (snd (snd n)) < 2 ^ 64)%Z;
     enc n := le_split 4 (fst n) ++ le_split 4 (Z.of_nat (fst (snd n))) ++
              le_split 8 (Z.of_nat (snd (snd n)));
     dec l := (i32 (le_combine (take 4 l)),
               (Z.to_nat (le_combine (take 4 (drop 4 l))),
                Z.to_nat (le_combine (drop 4 (drop 4 l))))) |}.
Next Obligation. lia. Qed.
Next Obligation. done. Qed.
Next Obligation.
  intros [k [n off]] (Hk & Hn & Ho). cbn [fst snd] in *.
  rewrite !drop_app_length' by done. rewrite !take_app_length' by done.
  rewrite !le_combine_split. unfold i32. rewrite swrap_mod, swrap_id by (lia || done).
  rewrite !Z.mod_small by (simpl; lia). by rewrite !Nat2Z.id.
Qed.
