(* ===== verification/HashMapIO.v ===== *)
(** * Saving and loading a HashMap

    [HashMap::writeTo] and [HashMap::readFrom] of
    [src/include/datastruct/hash_map.h], for trivially copyable nodes.  The
    image is the bucket count, the number of bytes of the nodes and the
    nodes, bucket after bucket.

    Loading gives back a well-formed table for the same finite map, and a
    truncated image is refused; the table is then left without buckets. *)

From S2P Require Import Prelude SortedVec HashBuckets HashMap Streams.
From stdpp Require Import base list list_numbers numbers option sorting gmap.
From Stdlib Require Import ZArith Lia.

Section hashmap_io.
Context {K V : Type} `{StrictOrd K, PosHash K, Countable K, Pod (K * V)}.

Local Abbreviation HashMap := (table K V).
Local Abbreviation Node := (K * V)%type.

(** [speed == (uint64_t)-1] selects the plain call. *)
Definition write_block (speed : option nat) (os data : list Z) : option (list Z) :=
  match speed with
  | None => Some (os ++ data)
  | Some speed => writeFixToStreamWithSpeed os data (length data) speed
  end.

Definition read_block (speed : option nat) (ist : istream) (data : list Z) (size : nat) :
    option (list Z * bool * istream) :=
  match speed with
  | None => readFixFromStream ist data size
  | Some speed => readFixFromStreamWithSpeed ist data size speed
  end.

Definition HashMap_writeTo (speed : option nat) (os : list Z) (t : HashMap) :
    option (list Z) :=
  let os := os ++ le_split 8 (t_size t) in
  let ns := foldl (foldl (fun ns n => ns ++ [n])) [] (default [] (t_datas t)) in
  let size := length ns * sizeof Node in
  let os := os ++ le_split 8 (Z.of_nat size) in
  write_block speed os (enc_all ns).

Definition set_size (size : Z) (t : HashMap) : HashMap :=
  mk_table size (t_total t) (t_datas t).

(** The part of [readFrom] after the nodes are in memory. *)
Definition load_nodes (ns : list Node) (total : Z) (t : HashMap) :
    outcome HashMap bool :=
  if (t_size t =? 0)%Z && negb (bool_decide (ns = [])) then Undef DivByZero else
  let datas := foldl (push_node (t_size t))
                     (replicate (Z.to_nat (t_size t)) []) ns in
  Ret true (mk_table (t_size t) total (Some (std_sort fst <$> datas))).

(** [readFrom]: each [break] ends in [return false], with what was assigned so
    far.  The vector [ns] has [size / sizeof(Node)] nodes and [size] bytes are
    read into it. *)
Definition HashMap_readFrom (speed : option nat) (ist : istream) (t : HashMap) :
    outcome HashMap bool * istream :=
  let t := mk_table (t_size t) (t_total t) None in
  match readFromStream_u64 ist (t_size t) with
  | None => (Undef Diverges, ist)
  | Some (size', false, ist) => (Ret false (set_size size' t), ist)
  | Some (size', true, ist) =>
    let t := set_size size' t in
    match readFromStream_u64 ist 0 with
    | None => (Undef Diverges, ist)
    | Some (_, false, ist) => (Ret false t, ist)
    | Some (size, true, ist) =>
      let n := (Z.to_nat size / sizeof Node)%nat in
      if decide (n * sizeof Node < Z.to_nat size /\
                 n * sizeof Node < length (is_bytes ist))
      then (Undef BadIndex, ist) else
      match read_block speed ist (replicate (n * sizeof Node) 0%Z) (Z.to_nat size) with
      | None => (Undef Diverges, ist)
      | Some (_, false, ist) => (Ret false t, ist)
      | Some (mem, true, ist) => (load_nodes (dec_all n mem) (Z.of_nat n) t, ist)
      end
    end
  end.

(** ** Lemmas *)

Lemma write_block_ok speed os data : write_block speed os data = Some (os ++ data).
Proof. destruct speed; simpl; [apply writeFixToStreamWithSpeed_ok | done]. Qed.

Lemma read_block_ok speed b rest data :
  length b <= length data ->
  read_block speed (mk_istream (b ++ rest) true) data (length b) =
  Some (splice data 0 b, true, mk_istream rest true).
Proof.
  intros Hl. destruct speed; simpl;
    [by apply readFixFromStreamWithSpeed_ok | by apply readFixFromStream_ok].
Qed.

Lemma read_block_short speed b data size :
  length b < size -> exists data',
  read_block speed (mk_istream b true) data size = Some (data', false, mk_istream [] false).
Proof.
  intros Hl. destruct speed; simpl;
    [by apply readFixFromStreamWithSpeed_short | by apply readFixFromStream_short].
Qed.

Lemma foldl_snoc {B} (l acc : list B) : foldl (fun ns n => ns ++ [n]) acc l = acc ++ l.
Proof.
  revert acc. induction l as [| n l IH]; intros acc; simpl.
  - by rewrite app_nil_r.
  - by rewrite IH, <- app_assoc.
Qed.

(** The image of a table with buckets [ds]. *)
Definition image (size : Z) (ns : list Node) : list Z :=
  le_split 8 size ++ le_split 8 (Z.of_nat (length ns * sizeof Node)) ++ enc_all ns.

Lemma HashMap_writeTo_spec speed os t ds :
  t_datas t = Some ds ->
  HashMap_writeTo speed os t = Some (os ++ image (t_size t) (concat ds)).
Proof.
  intros Hds. unfold HashMap_writeTo. rewrite write_block_ok, Hds. simpl.
  rewrite foldl_nested, foldl_snoc. unfold image. simpl app at 3.
  by rewrite <- !app_assoc.
Qed.

Lemma u64_image (ns : list Node) :
  (Z.of_nat (length ns * sizeof Node) < 2 ^ 64)%Z ->
  in_u 64 (Z.of_nat (length ns * sizeof Node)).
Proof. unfold in_u. lia. Qed.

Lemma readFrom_image speed size ns rest t :
  in_u 64 size -> (0 < size)%Z -> NoDup (fst <$> ns) ->
  (Z.of_nat (length ns * sizeof Node) < 2 ^ 64)%Z -> Forall pod_ok ns ->
  exists ds, HashMap_readFrom speed (mk_istream (image size ns ++ rest) true) t =
    (Ret true (mk_table size (Z.of_nat (length ns)) (Some ds)), mk_istream rest true) /\
    buckets_ok size ds /\ concat ds ≡ₚ ns.
Proof.
  intros Hsz Hpos Hd Hlen Hpod. unfold HashMap_readFrom, image.
  rewrite <- !app_assoc, readFromStream_u64_ok by done.
  rewrite readFromStream_u64_ok by (by apply u64_image).
  pose proof (sizeof_pos (A := Node)) as Hs0.
  rewrite Nat2Z.id, Nat.div_mul by lia.
  rewrite decide_False by lia.
  rewrite <- length_enc_all.
  rewrite read_block_ok by (by rewrite length_replicate).
  rewrite splice_full by (by rewrite length_replicate).
  rewrite take_0, app_nil_l, dec_enc_all by done.
  unfold load_nodes, set_size. simpl t_size.
  rewrite (proj2 (Z.eqb_neq _ _)) by lia. simpl andb. cbv iota.
  destruct (distribute_ok size ns Hpos Hd) as [Hok Hp].
  eexists. split; [reflexivity |]. done.
Qed.

(** Saving and loading a [HashMap].  Whatever the pace, what [writeTo]
    appends to a stream is read back by [readFrom] into any table as the same
    finite map with the same bucket count, in a well-formed table, and the
    bytes after the image are left in the stream. *)
Theorem HashMap_io_roundtrip (speed speed' : option nat) (t t0 : HashMap)
    (rest : list Z) (Hwf : wf_table t) (Hsz : in_u 64 (t_size t))
    (Hpod : map_Forall (fun k v => pod_ok (k, v)) (abs t))
    (Hlen : (Z.of_nat (size (abs t) * sizeof Node) < 2 ^ 64)%Z) :
  exists img t', HashMap_writeTo speed [] t = Some img /\
    HashMap_readFrom speed' (mk_istream (img ++ rest) true) t0 =
      (Ret true t', mk_istream rest true) /\
    wf_table t' /\ abs t' = abs t /\ t_size t' = t_size t.
Proof.
  destruct Hwf as (ds & Hds & Hok & Htot).
  assert (size (abs t) = length (concat ds)) as Hn.
  { unfold abs. rewrite Hds. simpl. by eapply size_abs. }
  pose proof (NoDup_keys _ _ Hok) as Hnd. rewrite Hn in Hlen.
  destruct (readFrom_image speed' (t_size t) (concat ds) rest t0)
    as (ds' & Hr & Hok' & Hp); [done | by eapply ok_size | done | done | |].
  { apply Forall_forall. intros [k v] Hin. apply (Hpod k v). unfold abs.
    rewrite Hds. simpl. by apply elem_of_list_to_map_1. }
  do 2 eexists. rewrite (HashMap_writeTo_spec speed [] t ds Hds). simpl app.
  split_and!; [done | exact Hr | | | done].
  - apply wf_intro; [done |]. rewrite Hp. unfold u64. rewrite uwrap_id; [done |].
    pose proof (sizeof_pos (A := Node)). unfold in_u. nia.
  - unfold abs. rewrite Hds. simpl. symmetry. by apply abs_perm.
Qed.

Lemma prefix_app_cases {B} (p a b : list B) :
  p `prefix_of` a ++ b ->
  length p < length a \/ exists q, p = a ++ q /\ q `prefix_of` b.
Proof.
  intros Hp. destruct (decide (length p < length a)) as [Hl | Hl]; [by left |].
  right. destruct Hp as [r Hr].
  assert (a = take (length a) p) as Ha.
  { rewrite <- (take_app_length a b) at 1. rewrite Hr, take_app_le by lia. done. }
  exists (drop (length a) p). split.
  - rewrite Ha at 1. by rewrite take_drop.
  - exists r. rewrite <- (drop_app_length a b), Hr, drop_app_le by lia. done.
Qed.

Lemma readFrom_short speed size ns p t :
  in_u 64 size -> (Z.of_nat (length ns * sizeof Node) < 2 ^ 64)%Z ->
  p `prefix_of` image size ns -> p <> image size ns ->
  exists t', fst (HashMap_readFrom speed (mk_istream p true) t) = Ret false t' /\
    t_datas t' = None.
Proof.
  intros Hsz Hlen Hp Hne. unfold image in *. unfold HashMap_readFrom.
  cbn [t_size].
  apply prefix_app_cases in Hp as [Hs | (p1 & -> & Hp)].
  { rewrite length_le_split in Hs.
    destruct (readFromStream_u64_short (t_size t) p Hs) as [v ->]. by eexists. }
  rewrite readFromStream_u64_ok by done.
  apply prefix_app_cases in Hp as [Hs | (p2 & -> & Hp)].
  { rewrite length_le_split in Hs.
    destruct (readFromStream_u64_short 0 p1 Hs) as [v ->]. by eexists. }
  rewrite readFromStream_u64_ok by (by apply u64_image).
  pose proof (sizeof_pos (A := Node)) as Hs0.
  rewrite Nat2Z.id, Nat.div_mul, decide_False by lia.
  assert (length p2 < length ns * sizeof Node) as Hs.
  { rewrite <- length_enc_all. destruct (decide (length p2 < length (enc_all ns)));
      [done |]. destruct Hne. do 2 f_equal.
    apply (prefix_length_eq p2); [done | lia]. }
  destruct (read_block_short speed p2 (replicate (length ns * sizeof Node) 0%Z) _ Hs)
    as [d ->]. by eexists.
Qed.

(** A truncated image is refused.  On any proper prefix of what [writeTo]
    produces, [readFrom] returns [false] (it neither runs forever nor reads
    out of bounds), and the table it was called on has lost its buckets. *)
Theorem HashMap_io_truncated (speed speed' : option nat) (t t0 : HashMap)
    (img p : list Z) (Hwf : wf_table t) (Hsz : in_u 64 (t_size t))
    (Hlen : (Z.of_nat (size (abs t) * sizeof Node) < 2 ^ 64)%Z)
    (Hw : HashMap_writeTo speed [] t = Some img)
    (Hp : p `prefix_of` img) (Hne : p <> img) :
  exists t', fst (HashMap_readFrom speed' (mk_istream p true) t0) = Ret false t' /\
    t_datas t' = None.
Proof.
  destruct Hwf as (ds & Hds & Hok & Htot).
  assert (size (abs t) = length (concat ds)) as Hn.
  { unfold abs. rewrite Hds. simpl. by eapply size_abs. }
  rewrite Hn in Hlen. rewrite (HashMap_writeTo_spec speed [] t ds Hds) in Hw.
  injection Hw as <-. by eapply readFrom_short.
Qed.

End hashmap_io.

(** A table of two [int] pairs. *)
Definition io_demo : table Z Z :=
  match set_all [(-7, 8); (1, 2)]%Z (new_HashMap 0) with
  | Ret _ t => t
  | _ => new_HashMap 0
  end.

Lemma io_demo_wf :
  wf_table io_demo /\ map_Forall (fun k v => pod_ok (k, v)) (abs io_demo).
Proof.
  destruct (new_table_wf (K := Z) (P := Z) 0) as [Hwf0 Habs0].
  destruct (set_all_spec [(-7, 8); (1, 2)]%Z (new_HashMap 0) Hwf0)
    as (t & Hr & Hwf & Habs).
  { by apply (bool_decide_unpack _). }
  unfold io_demo. rewrite Hr. split; [done |].
  rewrite Habs. unfold new_HashMap. rewrite Habs0, (right_id_L ∅ (∪)).
  simpl list_to_map.
  apply map_Forall_insert_2; [split; unfold in_s; simpl; lia |].
  apply map_Forall_insert_2; [split; unfold in_s; simpl; lia |].
  apply map_Forall_empty.
Qed.

Lemma HashMap_io_roundtrip_witness :
  exists img t', HashMap_writeTo (Some 1) [] io_demo = Some img /\
    HashMap_readFrom None (mk_istream (img ++ [7%Z]) true) (new_HashMap 9) =
      (Ret true t', mk_istream [7%Z] true) /\
    wf_table t' /\ abs t' = abs io_demo /\ t_size t' = t_size io_demo.
Proof.
  apply (HashMap_io_roundtrip (Some 1) None io_demo (new_HashMap 9) [7%Z]).
  - apply io_demo_wf.
  - by vm_compute.
  - apply io_demo_wf.
  - by vm_compute.
Defined.

Definition io_demo_image : list Z :=
  [1; 0; 0; 0; 0; 0; 0; 0; 16; 0; 0; 0; 0; 0; 0; 0;
   249; 255; 255; 255; 8; 0; 0; 0; 1; 0; 0; 0; 2; 0; 0; 0]%Z.

Lemma HashMap_io_truncated_witness :
  exists t' : table Z Z,
    fst (HashMap_readFrom None (mk_istream (take 31 io_demo_image) true)
      (new_HashMap 9)) = Ret false t' /\
    t_datas t' = None.
Proof.
  apply (HashMap_io_truncated None None io_demo (new_HashMap 9) io_demo_image).
  - apply io_demo_wf.
  - by vm_compute.
  - by vm_compute.
  - by vm_compute.
  - by exists [0%Z].
  - done.
Defined.
