(* ===== verification/ValueHeap.v ===== *)
(** * Value arrays

    [Dict] and [HashMultimap] ([src/include/datastruct/dict.h],
    [hash_multimap.h]) keep a node's values in a C array: [new V[n]()] for
    what a client inserts, a pointer into the vector [_values] for what
    [readFrom] loaded.  The arrays are an explicit heap, so that the release
    of memory ([delete[]] unless [inValues]) is part of the model: releasing
    an array that is not live is undefined.

    [owned] is the ownership invariant: every node's array is readable, no two
    nodes share memory, and every live heap array belongs to a node. *)

From S2P Require Import Prelude.
From stdpp Require Import base list list_numbers numbers option gmap fin_maps.
From Stdlib Require Import ZArith Lia.

(** A [V*]: null, the start of a heap array, or an offset in [_values]. *)
Inductive ptr :=
| PNull
| PHeap (q : positive)
| PVals (off : nat).

#[export] Instance ptr_eq_dec : EqDecision ptr.
Proof. solve_decision. Defined.

(** The [int size] of a node is assigned from a [uint32_t] and is kept here as
    that number: from 2^31 on the [int] is negative. *)
Definition fits_int (n : nat) : bool := (Z.of_nat n <? 2 ^ 31)%Z.

Section heap.
Context {V : Type}.

Record mem := mk_mem {
  m_values : list V;             (* std::vector<V> _values *)
  m_heap : gmap positive (list V)
}.

(** [memcpy] out of [p], [n] values. *)
Definition load (m : mem) (p : ptr) (n : nat) : option (list V) :=
  match p with
  | PNull => if decide (n = 0) then Some [] else None
  | PHeap q => l ← m_heap m !! q; if decide (n <= length l) then Some (take n l) else None
  | PVals off => if decide (off + n <= length (m_values m))
                 then Some (take n (drop off (m_values m))) else None
  end.

(** [memcpy] into [p]. *)
Definition store (m : mem) (p : ptr) (b : list V) : option mem :=
  match p with
  | PNull => if decide (b = []) then Some m else None
  | PHeap q => l ← m_heap m !! q;
      if decide (length b <= length l)
      then Some (mk_mem (m_values m) (<[q := splice l 0 b]> (m_heap m))) else None
  | PVals off => if decide (off + length b <= length (m_values m))
                 then Some (mk_mem (splice (m_values m) off b) (m_heap m)) else None
  end.

Definition add_array (q : positive) (b : list V) (m : mem) : mem :=
  mk_mem (m_values m) (<[q := b]> (m_heap m)).

(** [new V[n]()] followed by a [memcpy] of [b] into all of it. *)
Definition new_array (m : mem) (b : list V) : ptr * mem :=
  let q := fresh (dom (m_heap m)) in (PHeap q, add_array q b m).

(** [delete[] p] *)
Definition delete_array (m : mem) (p : ptr) : option mem :=
  match p with
  | PNull => Some m
  | PHeap q => match m_heap m !! q with
               | Some _ => Some (mk_mem (m_values m) (delete q (m_heap m)))
               | None => None
               end
  | PVals _ => None
  end.

(** [ptr >= &_values.front() && ptr <= &_values.back()]; a heap array is
    another object, so it is outside. *)
Definition inValues (m : mem) (p : ptr) : bool :=
  match p with
  | PNull => true
  | PHeap _ => false
  | PVals off => bool_decide (off < length (m_values m))
  end.

(** [if(!inValues(p)) delete[] p;] *)
Definition release (m : mem) (p : ptr) : option mem :=
  if inValues m p then Some m else delete_array m p.

(** ** Ownership *)

(** Disjoint memory of two [(size, pointer)] pairs. *)
Definition apart (a b : nat * ptr) : Prop :=
  match snd a, snd b with
  | PHeap p, PHeap q => p <> q
  | PVals o1, PVals o2 => o1 + fst a <= o2 \/ o2 + fst b <= o1
  | _, _ => True
  end.

Definition valid (m : mem) (a : nat * ptr) (vs : list V) : Prop :=
  length vs = fst a /\
  match snd a with
  | PNull => False
  | PHeap q => m_heap m !! q = Some vs
  | PVals off => fst a <> 0 /\ off + fst a <= length (m_values m) /\
                 take (fst a) (drop off (m_values m)) = vs
  end.

Context {K : Type} `{Countable K}.

(** [owned m ns cs]: the arrays of the nodes [ns] are live and hold [cs]. *)
Record owned (m : mem) (ns : gmap K (nat * ptr)) (cs : gmap K (list V)) : Prop := {
  own_dom k : is_Some (cs !! k) <-> is_Some (ns !! k);
  own_valid k a vs : ns !! k = Some a -> cs !! k = Some vs -> valid m a vs;
  own_apart k1 k2 a b : k1 <> k2 -> ns !! k1 = Some a -> ns !! k2 = Some b -> apart a b;
  own_no_leak q : is_Some (m_heap m !! q) -> exists k n, ns !! k = Some (n, PHeap q)
}.

(** ** Lemmas *)

Lemma valid_load m n p vs : valid m (n, p) vs -> load m p n = Some vs.
Proof.
  intros [Hl Hv]. destruct p as [| q | off]; simpl in *; [done | |].
  - rewrite Hv. simpl. rewrite decide_True by lia. rewrite take_ge by lia. done.
  - destruct Hv as (_ & Hle & Ht). rewrite decide_True by done. by rewrite Ht.
Qed.

Lemma apart_sym a b : apart a b -> apart b a.
Proof.
  destruct a as [n [| q | o]], b as [n' [| q' | o']]; unfold apart; simpl; auto.
  intros [?|?]; auto.
Qed.

Lemma owned_empty vs : owned (mk_mem vs ∅) ∅ ∅.
Proof.
  split.
  - intros k. by rewrite !lookup_empty.
  - intros k a v Hk. by rewrite lookup_empty in Hk.
  - intros k1 k2 a b _ Hk. by rewrite lookup_empty in Hk.
  - intros q [? Hq]. simpl in Hq. by rewrite lookup_empty in Hq.
Qed.

Lemma owned_lookup m ns cs k a :
  owned m ns cs -> ns !! k = Some a -> exists vs, cs !! k = Some vs /\ valid m a vs.
Proof.
  intros Ho Hk. destruct (proj2 (own_dom _ _ _ Ho k)) as [vs Hvs]; [by eexists |].
  exists vs. split; [done |]. by eapply own_valid.
Qed.

Lemma owned_none m ns cs k : owned m ns cs -> ns !! k = None -> cs !! k = None.
Proof.
  intros Ho Hk. apply eq_None_not_Some. rewrite (own_dom _ _ _ Ho k), Hk.
  by intros [? ?].
Qed.

Lemma fresh_heap m : m_heap m !! fresh (dom (m_heap m)) = None.
Proof. apply not_elem_of_dom, is_fresh. Qed.

(** A fresh array for a key that has none. *)
Lemma valid_add m q b a vs :
  m_heap m !! q = None -> valid m a vs -> valid (add_array q b m) a vs.
Proof.
  intros Hq [Hl Hv]. split; [done |].
  destruct a as [n [| q' | off]]; simpl in *; try done.
  rewrite lookup_insert_ne; [done |]. congruence.
Qed.

Lemma owned_add m ns cs k b q :
  owned m ns cs -> ns !! k = None -> m_heap m !! q = None ->
  owned (add_array q b m) (<[k := (length b, PHeap q)]> ns) (<[k := b]> cs).
Proof.
  intros Ho Hk Hfr.
  split; cbn [m_heap m_values].
  - intros k'. destruct (decide (k = k')) as [<- | Hne].
    + by rewrite !lookup_insert_eq.
    + rewrite !lookup_insert_ne by done. apply (own_dom _ _ _ Ho).
  - intros k' a vs Ha Hvs. destruct (decide (k = k')) as [<- | Hne].
    + rewrite lookup_insert_eq in Ha. rewrite lookup_insert_eq in Hvs. simplify_eq.
      split; [done |]. simpl. by rewrite lookup_insert_eq.
    + rewrite lookup_insert_ne in Ha by done. rewrite lookup_insert_ne in Hvs by done.
      apply valid_add; [done |]. by eapply own_valid.
  - assert (forall k' a, ns !! k' = Some a ->
      apart (length b, PHeap q) a) as Hap.
    { intros k' a Ha. destruct (owned_lookup _ _ _ _ _ Ho Ha) as (vs & _ & _ & Hv).
      destruct a as [n [| q' | off]]; unfold apart; simpl in *; try done. congruence. }
    intros k1 k2 a c Hne Ha Hc.
    destruct (decide (k = k1)) as [<- | H1], (decide (k = k2)) as [<- | H2].
    + done.
    + rewrite lookup_insert_eq in Ha. rewrite lookup_insert_ne in Hc by done.
      simplify_eq. by eapply Hap.
    + rewrite lookup_insert_eq in Hc. rewrite lookup_insert_ne in Ha by done.
      simplify_eq. apply apart_sym. by eapply Hap.
    + rewrite lookup_insert_ne in Ha by done. rewrite lookup_insert_ne in Hc by done.
      by eapply (own_apart _ _ _ Ho k1 k2).
  - intros q' Hq. destruct (decide (q = q')) as [<- | Hne].
    + exists k. rewrite lookup_insert_eq. by eexists.
    + simpl in Hq. rewrite lookup_insert_ne in Hq by done.
      destruct (own_no_leak _ _ _ Ho q' Hq) as (k' & n & Hk').
      exists k', n. rewrite lookup_insert_ne; [done |]. intros ->. congruence.
Qed.

(** Releasing the array of a key, which then has none. *)
Lemma owned_release m ns cs k a :
  owned m ns cs -> ns !! k = Some a ->
  exists m', release m (snd a) = Some m' /\ owned m' (delete k ns) (delete k cs).
Proof.
  intros Ho Hk. destruct (owned_lookup _ _ _ _ _ Ho Hk) as (vs & Hvs & Hv).
  assert (forall m', (forall k' a' vs', k' <> k -> ns !! k' = Some a' ->
            cs !! k' = Some vs' -> valid m' a' vs') ->
          (forall q, is_Some (m_heap m' !! q) ->
             is_Some (m_heap m !! q) /\ snd a <> PHeap q) ->
          owned m' (delete k ns) (delete k cs)) as Hgen.
  { intros m' Hval Hleak. split.
    - intros k'. destruct (decide (k = k')) as [<- | Hne].
      + rewrite !lookup_delete_eq. done.
      + rewrite !lookup_delete_ne by done. apply (own_dom _ _ _ Ho).
    - intros k' a' vs' [? Ha]%lookup_delete_Some [_ Hc]%lookup_delete_Some. eauto.
    - intros k1 k2 a' b Hne [_ Ha]%lookup_delete_Some [_ Hb]%lookup_delete_Some.
      by eapply (own_apart _ _ _ Ho k1 k2).
    - intros q Hq. destruct (Hleak q Hq) as [Hq' Hna].
      destruct (own_no_leak _ _ _ Ho q Hq') as (k' & n & Hk').
      exists k', n. rewrite lookup_delete_ne; [done |]. intros <-. simplify_eq. }
  unfold release. destruct a as [n [| q | off]]; simpl in *.
  - by destruct Hv.
  - destruct Hv as [Hl Hq]. simpl in Hq. rewrite Hq. eexists. split; [done |].
    apply Hgen.
    + intros k' a' vs' Hne Ha' Hvs'.
      pose proof (own_apart _ _ _ Ho k' k _ _ Hne Ha' Hk) as Hap.
      destruct (own_valid _ _ _ Ho k' a' vs' Ha' Hvs') as [Hl' Hv'].
      split; [done |]. destruct a' as [n' [| q' | off']]; simpl in *; try done.
      rewrite lookup_delete_ne; [done |]. unfold apart in Hap. simpl in Hap. congruence.
    + intros q' [v Hq']. cbn [m_heap] in Hq'.
      apply lookup_delete_Some in Hq' as [Hne Hq']. split; [by eexists | congruence].
  - destruct Hv as (Hl & Hn0 & Hle & _). simpl in *.
    rewrite bool_decide_true by lia. eexists. split; [done |]. apply Hgen.
    + intros. by eapply own_valid.
    + done.
Qed.

(** A new array for a key that had one, which is released afterwards. *)
Lemma release_add m m' q b p :
  release m p = Some m' -> m_heap m !! q = None ->
  release (add_array q b m) p = Some (add_array q b m') /\ m_heap m' !! q = None.
Proof.
  unfold release. destruct p as [| q' | off]; simpl; intros Hr Hq.
  - by simplify_eq.
  - destruct (m_heap m !! q') eqn:Hq'; [| done]. simplify_eq.
    assert (q <> q') by congruence. simpl. rewrite lookup_insert_ne by done.
    rewrite Hq', lookup_delete_ne by done. split; [| done].
    unfold add_array. simpl. by rewrite delete_insert_ne by done.
  - destruct (bool_decide (off < length (m_values m))); [| done]. by simplify_eq.
Qed.

Lemma owned_replace m ns cs k a v p m1 :
  owned m ns cs -> ns !! k = Some a -> new_array m v = (p, m1) ->
  exists m2, release m1 (snd a) = Some m2 /\
    owned m2 (<[k := (length v, p)]> ns) (<[k := v]> cs).
Proof.
  intros Ho Hk Hn. unfold new_array in Hn. injection Hn as <- <-.
  destruct (owned_release m ns cs k a Ho Hk) as (m' & Hr & Ho').
  destruct (release_add m m' _ v _ Hr (fresh_heap m)) as [Hr' Hq].
  eexists. split; [exact Hr' |].
  rewrite <- (insert_delete_eq ns), <- (insert_delete_eq cs).
  apply owned_add; [done | by rewrite lookup_delete_eq | done].
Qed.

(** Overwriting an array in place with as many values. *)
Lemma owned_store m ns cs k a b :
  owned m ns cs -> ns !! k = Some a -> length b = fst a ->
  exists m', store m (snd a) b = Some m' /\ owned m' ns (<[k := b]> cs).
Proof.
  intros Ho Hk Hlen. destruct (owned_lookup _ _ _ _ _ Ho Hk) as (vs & Hvs & Hv).
  assert (forall m', valid m' a b ->
          (forall k' a' vs', k' <> k -> ns !! k' = Some a' -> apart a' a ->
            valid m a' vs' -> valid m' a' vs') ->
          (forall q, is_Some (m_heap m' !! q) -> is_Some (m_heap m !! q)) ->
          owned m' ns (<[k := b]> cs)) as Hgen.
  { intros m' Hb Hval Hleak. split.
    - intros k'. destruct (decide (k = k')) as [<- | Hne].
      + rewrite lookup_insert_eq. rewrite Hk. by split; eexists.
      + rewrite lookup_insert_ne by done. apply (own_dom _ _ _ Ho).
    - intros k' a' vs' Ha Hc. destruct (decide (k = k')) as [<- | Hne].
      + rewrite lookup_insert_eq in Hc. by simplify_eq.
      + rewrite lookup_insert_ne in Hc by done.
        apply (Hval k'); [done | done | | by eapply own_valid].
        by eapply (own_apart _ _ _ Ho k' k).
    - apply (own_apart _ _ _ Ho).
    - intros q Hq. apply (own_no_leak _ _ _ Ho). auto. }
  destruct a as [n [| q | off]]; simpl in *.
  - by destruct Hv.
  - destruct Hv as [Hl Hq]. simpl in *. rewrite Hq. simpl.
    rewrite decide_True by lia. eexists. split; [done |].
    assert (splice vs 0 b = b) as ->.
    { unfold splice. rewrite take_0, drop_ge by lia. by rewrite app_nil_r. }
    apply Hgen.
    + split; [done |]. simpl. by rewrite lookup_insert_eq.
    + intros k' a' vs' Hne Ha' Hap [Hl' Hv']. split; [done |].
      destruct a' as [n' [| q' | off']]; simpl in *; try done.
      rewrite lookup_insert_ne; [done |]. unfold apart in Hap. simpl in Hap. congruence.
    + intros q' Hq'. simpl in Hq'. destruct (decide (q = q')) as [<- | Hne]; [by eexists |].
      by rewrite lookup_insert_ne in Hq'.
  - destruct Hv as (Hl & Hn0 & Hle & Ht). simpl in *. rewrite decide_True by lia.
    eexists. split; [done |]. apply Hgen; [| | done].
    + split; [done |]. simpl. rewrite length_splice by lia. split_and!; [done | lia |].
      subst n. apply read_splice. lia.
    + intros k' a' vs' Hne Ha' Hap [Hl' Hv']. split; [done |].
      destruct a' as [n' [| q' | off']]; simpl in *; try done.
      destruct Hv' as (Hn' & Hle' & <-). rewrite length_splice by lia.
      split_and!; [done | done |]. unfold apart in Hap. simpl in Hap.
      by apply read_splice_disjoint; try lia.
Qed.

End heap.
Arguments mem : clear implicits.
