(* ===== verification/Dict.v ===== *)
(** * Dict

    [src/include/datastruct/dict.h]: a bucket table (file HashBuckets) from a
    key to a counted array of values, the arrays living on the heap or in
    [_values] (file ValueHeap).

    [Dict_refines_map]: every sequence of commands replies as a finite map
    from keys to value lists; no array is read after it is released or
    released twice, and the destructor leaves nothing allocated. *)

From S2P Require Import Prelude SortedVec HashBuckets ValueHeap.
From stdpp Require Import base list list_numbers numbers option sorting gmap fin_maps.
From Stdlib Require Import ZArith Lia.

Section dict.
Context {K V : Type} `{StrictOrd K, PosHash K, Countable K}.

(** [Node]: the key with its [size] and [val]. *)
Local Abbreviation tbl := (table K (nat * ptr)).

Record Dict := mk_Dict {
  d_tbl : tbl;
  d_mem : mem V
}.

Definition new_Dict (size : Z) : Dict := mk_Dict (new_table size) (mk_mem [] ∅).

(** An action on the table; an action on the memory, whose [None] is an access
    to memory that is not there. *)
Definition tb {A} (m : M tbl A) : M Dict A := fun d =>
  match m (d_tbl d) with
  | Ret a t => Ret a (mk_Dict t (d_mem d))
  | Throw e t => Throw e (mk_Dict t (d_mem d))
  | Undef u => Undef u
  end.

Definition mm (u : ub) (f : mem V -> option (mem V)) : M Dict unit := fun d =>
  match f (d_mem d) with
  | Some m => Ret tt (mk_Dict (d_tbl d) m)
  | None => Undef u
  end.

Definition alloc (b : list V) : M Dict ptr := fun d =>
  let '(p, m) := new_array (d_mem d) b in Ret p (mk_Dict (d_tbl d) m).

Definition read_array (p : ptr) (n : nat) : M Dict (list V) := fun d =>
  match load (d_mem d) p n with
  | Some l => Ret l d
  | None => Undef BadIndex
  end.

(** [SharedArray<V>]: empty, a private copy, or the node's own array. *)
Inductive shared_array :=
| SA_empty
| SA_copy (l : list V)
| SA_alias (n : nat) (p : ptr).

(** A negative size makes [new V[it->size]()] throw [bad_array_new_length], and
    [v.resize(it->size)] throw [length_error]. *)
Definition Dict_get (k : K) (duplicate : bool) : M Dict shared_array :=
  '(pos, b, it) ← tb (tbl_find k);
  match it with
  | None => mret SA_empty
  | Some it =>
    n ← tb (node_at b it);
    let '(size, val) := snd n in
    if duplicate then
      if fits_int size then l ← read_array val size; mret (SA_copy l) else throw BadArray
    else mret (SA_alias size val)
  end.

Definition Dict_get_vector (k : K) : M Dict (option (list V)) :=
  '(pos, b, it) ← tb (tbl_find k);
  match it with
  | None => mret None
  | Some it =>
    n ← tb (node_at b it);
    let '(size, val) := snd n in
    if fits_int size then l ← read_array val size; mret (Some l) else throw LogicError
  end.

Definition Dict_exists (k : K) : M Dict bool :=
  '(pos, b, it) ← tb (tbl_find k);
  mret (match it with None => false | Some _ => true end).

(** [v] are the [size] values; [new V[node.size]()] of a negative size throws. *)
Definition Dict_insert (k : K) (v : list V) : M Dict bool :=
  if decide (length v = 0) then mret true else
  tb (modify (fun t => if needRehash t then rehash t else t));;
  '(pos, b, it) ← tb (tbl_find k);
  match it with
  | None =>
    if fits_int (length v) then
      val ← alloc v;
      tb (tbl_push pos b (k, (length v, val)));;
      mret true
    else throw BadArray
  | Some it =>
    n ← tb (node_at b it);
    let '(size, val) := snd n in
    if decide (size = length v) then
      mm BadIndex (fun m => store m val v);;
      mret true
    else
      datas ← alloc v;
      mm BadFree (fun m => release m val);;
      tb (tbl_assign pos b it (length v, datas));;
      mret true
  end.

(** [foreach]: the [break] leaves the inner loop only, the next bucket is
    visited. *)
Fixpoint Dict_foreach_loop {S} (cb : K -> nat * ptr -> S -> S * bool)
    (ds : list (list (K * (nat * ptr)))) (s : S) : S :=
  match ds with
  | [] => s
  | b :: ds => Dict_foreach_loop cb ds
                 (fst (foreach_bucket (fun n => cb (fst n) (snd n)) b s))
  end.

Definition Dict_foreach {S} (cb : K -> nat * ptr -> S -> S * bool) (s : S) : M Dict S :=
  fun d => Ret (Dict_foreach_loop cb (default [] (t_datas (d_tbl d))) s) d.

Definition Dict_getTotal : M Dict Z := d ← get; mret (t_total (d_tbl d)).

Definition Dict_del (k : K) : M Dict bool :=
  '(pos, b, it) ← tb (tbl_find k);
  match it with
  | None => mret false
  | Some it =>
    n ← tb (node_at b it);
    mm BadFree (fun m => release m (snd (snd n)));;
    tb (tbl_erase pos b it);;
    mret true
  end.

Definition Dict_rehash : M Dict unit := tb (modify rehash).

(** [freeDatas]: release the arrays of all nodes, bucket after bucket. *)
Fixpoint free_nodes (ns : list (K * (nat * ptr))) : M Dict unit :=
  match ns with
  | [] => mret ()
  | n :: ns => mm BadFree (fun m => release m (snd (snd n)));; free_nodes ns
  end.

Definition Dict_freeDatas : M Dict unit :=
  d ← get;
  match t_datas (d_tbl d) with
  | None => mret ()
  | Some ds =>
    free_nodes (concat ds);;
    tb (modify (fun t => mk_table (t_size t) (t_total t) None))
  end.

(** ** Invariant *)

(** The table is well formed and its nodes own the arrays, which hold [cs];
    no array is empty. *)
Definition dict_ok (d : Dict) (cs : gmap K (list V)) : Prop :=
  wf_table (d_tbl d) /\ owned (d_mem d) (abs (d_tbl d)) cs /\
  map_Forall (fun _ vs => vs <> []) cs.

Lemma tb_bind {A B} (m : M tbl A) (k : A -> M Dict B) d a t' :
  m (d_tbl d) = Ret a t' -> (tb m ≫= k) d = k a (mk_Dict t' (d_mem d)).
Proof. intros Hm. unfold tb, mbind, M_bind. by rewrite Hm. Qed.

Lemma mm_bind {B} u f (k : unit -> M Dict B) d m' :
  f (d_mem d) = Some m' -> (mm u f ≫= k) d = k tt (mk_Dict (d_tbl d) m').
Proof. intros Hm. unfold mm, mbind, M_bind. by rewrite Hm. Qed.

Lemma dict_eta d : mk_Dict (d_tbl d) (d_mem d) = d.
Proof. by destruct d. Qed.

Lemma new_Dict_ok size : dict_ok (new_Dict size) ∅.
Proof.
  destruct (new_table_wf (K := K) (P := nat * ptr) size) as [Hwf Habs].
  split_and!; [done | | by apply map_Forall_empty]. simpl. rewrite Habs.
  apply owned_empty.
Qed.

(** The search, on a dictionary. *)
Lemma dict_find d cs k : dict_ok d cs ->
  exists pos b oit, tbl_find k (d_tbl d) = Ret (pos, b, oit) (d_tbl d) /\
    match oit with
    | None => abs (d_tbl d) !! k = None /\ cs !! k = None /\
        forall p, exists t', tbl_push pos b (k, p) (d_tbl d) = Ret tt t' /\
          wf_table t' /\ abs t' = <[k := p]> (abs (d_tbl d))
    | Some it => exists size val vs,
        node_at b it (d_tbl d) = Ret (k, (size, val)) (d_tbl d) /\
        abs (d_tbl d) !! k = Some (size, val) /\ cs !! k = Some vs /\
        valid (d_mem d) (size, val) vs /\
        (forall p', exists t', tbl_assign pos b it p' (d_tbl d) = Ret tt t' /\
           wf_table t' /\ abs t' = <[k := p']> (abs (d_tbl d))) /\
        (exists t', tbl_erase pos b it (d_tbl d) = Ret tt t' /\
           wf_table t' /\ abs t' = delete k (abs (d_tbl d)))
    end.
Proof.
  intros (Hwf & Hown & _).
  destruct (tbl_find_spec (d_tbl d) k Hwf) as (pos & b & oit & Hf & Hc).
  exists pos, b, oit. split; [done |]. destruct oit as [it |].
  - destruct Hc as ([size val] & Hi & Habs & Ha & t' & He & Hwe & Hae & _).
    destruct (owned_lookup _ _ _ _ _ Hown Habs) as (vs & Hvs & Hv).
    exists size, val, vs. split_and!; eauto.
    + unfold node_at. by rewrite Hi.
    + intros p'. destruct (Ha p') as (t1 & ? & ? & ? & _). by exists t1.
  - destruct Hc as [Hn Hp]. split_and!; [done | by eapply owned_none |].
    intros p. destruct (Hp p) as (t1 & ? & ? & ? & _). by exists t1.
Qed.

(** No value list is too long for its node's [int]. *)
Definition short_at (cs : gmap K (list V)) (k : K) : bool := fits_int (length (default [] (cs !! k))).

Lemma Dict_get_vector_spec d cs k : dict_ok d cs ->
  Dict_get_vector k d = if short_at cs k then Ret (cs !! k) d else Throw LogicError d.
Proof.
  intros Hd. unfold short_at. destruct (dict_find d cs k Hd) as (pos & b & [it |] & Hf & Hc);
    unfold Dict_get_vector; rewrite (tb_bind _ _ _ _ _ Hf), dict_eta.
  - destruct Hc as (size & val & vs & Hn & _ & -> & Hv & _).
    rewrite (tb_bind _ _ _ _ _ Hn), dict_eta. cbn [snd from_option id]. assert (length vs = size) as <- by apply Hv. destruct (fits_int (length vs)); [| done].
    unfold read_array, mbind, M_bind. by rewrite (valid_load _ _ _ _ Hv).
  - by destruct Hc as (_ & -> & _).
Qed.

Lemma Dict_get_copy_spec d cs k : dict_ok d cs ->
  Dict_get k true d =
  if short_at cs k then Ret (match cs !! k with None => SA_empty | Some l => SA_copy l end) d else Throw BadArray d.
Proof.
  intros Hd. unfold short_at. destruct (dict_find d cs k Hd) as (pos & b & [it |] & Hf & Hc);
    unfold Dict_get; rewrite (tb_bind _ _ _ _ _ Hf), dict_eta.
  - destruct Hc as (size & val & vs & Hn & _ & -> & Hv & _).
    rewrite (tb_bind _ _ _ _ _ Hn), dict_eta. cbn [snd from_option id]. assert (length vs = size) as <- by apply Hv. destruct (fits_int (length vs)); [| done].
    unfold read_array, mbind, M_bind. by rewrite (valid_load _ _ _ _ Hv).
  - by destruct Hc as (_ & -> & _).
Qed.

Lemma Dict_exists_spec d cs k :
  dict_ok d cs -> Dict_exists k d = Ret (bool_decide (is_Some (cs !! k))) d.
Proof.
  intros Hd. destruct (dict_find d cs k Hd) as (pos & b & [it |] & Hf & Hc);
    unfold Dict_exists; rewrite (tb_bind _ _ _ _ _ Hf), dict_eta.
  - destruct Hc as (size & val & vs & Hn & _ & -> & _). by rewrite bool_decide_true.
  - destruct Hc as (_ & -> & _). by rewrite bool_decide_false by (by intros [? ?]).
Qed.

Lemma dict_ok_rehash d cs : dict_ok d cs -> dict_ok (mk_Dict (rehash (d_tbl d)) (d_mem d)) cs.
Proof.
  intros (Hwf & Ho & Hn). destruct (rehash_wf _ Hwf) as [Hwf' Habs].
  split_and!; [done | | done]. simpl. by rewrite Habs.
Qed.

Lemma rehash_guard_eq (t : tbl) : (if needRehash t then rehash t else t) = rehash t.
Proof. unfold rehash. by destruct (needRehash t). Qed.

(** What [insert] does to the map. *)
Definition map_put (k : K) (v : list V) (cs : gmap K (list V)) : gmap K (list V) :=
  if decide (length v = 0) then cs else <[k := v]> cs.

(** A new key needs a size that is an [int]; the value list of a key that is
    there is replaced by one of any length. *)
Lemma Dict_insert_spec d cs k v : dict_ok d cs ->
  if fits_int (length v) || bool_decide (is_Some (cs !! k)) then
    exists d', Dict_insert k v d = Ret true d' /\ dict_ok d' (map_put k v cs)
  else exists d', Dict_insert k v d = Throw BadArray d' /\ dict_ok d' cs.
Proof.
  intros Hd. unfold Dict_insert, map_put. case_decide as Hl; [rewrite Hl; by exists d |].
  assert (v <> []) as Hnil by (by intros ->).
  erewrite tb_bind by reflexivity. rewrite rehash_guard_eq.
  apply dict_ok_rehash in Hd.
  set (d1 := mk_Dict (rehash (d_tbl d)) (d_mem d)) in *. clearbody d1.
  destruct (dict_find d1 cs k Hd) as (pos & b & [it |] & Hf & Hc);
    rewrite (tb_bind _ _ _ _ _ Hf), dict_eta; destruct Hd as (Hwf & Ho & Hne);
    pose proof (map_Forall_insert_2 _ _ k v Hnil Hne) as Hne'.
  - destruct Hc as (size & val & vs & Hn & Habs & Hcs & Hv & Ha & _).
    rewrite Hcs, (bool_decide_true (is_Some (Some vs))), orb_true_r by done.
    rewrite (tb_bind _ _ _ _ _ Hn), dict_eta. cbn [snd]. case_decide as Hs.
    + destruct (owned_store _ _ _ k _ v Ho Habs) as (m' & Hst & Ho'); [done |].
      simpl in Hst. rewrite (mm_bind _ _ _ _ _ Hst).
      eexists. split; [reflexivity |]. by split_and!.
    + destruct (new_array (d_mem d1) v) as [p m1] eqn:Hna.
      destruct (owned_replace _ _ _ k _ v p m1 Ho Habs Hna) as (m2 & Hrel & Ho').
      destruct (Ha (length v, p)) as (t' & Has & Hwf' & Habs').
      erewrite bind_Ret by (unfold alloc; rewrite Hna; reflexivity).
      rewrite (mm_bind _ _ _ _ m2) by exact Hrel.
      erewrite tb_bind by exact Has.
      eexists. split; [reflexivity |]. split_and!; [done | | done].
      simpl. by rewrite Habs'.
  - destruct Hc as (Habs & Hcs & Hp). rewrite Hcs, (bool_decide_false (is_Some None)), orb_false_r by (by intros [? ?]).
    destruct (fits_int (length v)); [| exists d1; split; [done | by split_and!]].
    destruct (new_array (d_mem d1) v) as [p m1] eqn:Hna.
    destruct (Hp (length v, p)) as (t' & Hpu & Hwf' & Habs').
    erewrite bind_Ret by (unfold alloc; rewrite Hna; reflexivity).
    erewrite tb_bind by exact Hpu.
    eexists. split; [reflexivity |]. split_and!; [done | | done].
    simpl. rewrite Habs'. unfold new_array in Hna. injection Hna as <- <-.
    apply owned_add; [done | done | apply fresh_heap].
Qed.

Lemma Dict_del_spec d cs k : dict_ok d cs -> exists d',
  Dict_del k d = Ret (bool_decide (is_Some (cs !! k))) d' /\ dict_ok d' (delete k cs).
Proof.
  intros Hd. unfold Dict_del.
  destruct (dict_find d cs k Hd) as (pos & b & [it |] & Hf & Hc);
    rewrite (tb_bind _ _ _ _ _ Hf), dict_eta.
  - destruct Hd as (Hwf & Ho & Hne).
    destruct Hc as (size & val & vs & Hn & Habs & Hcs & Hv & _ & t' & He & Hwf' & Habs').
    rewrite (tb_bind _ _ _ _ _ Hn), dict_eta.
    destruct (owned_release _ _ _ k _ Ho Habs) as (m' & Hr & Ho').
    rewrite (mm_bind _ _ _ _ _ Hr). erewrite tb_bind by exact He.
    rewrite Hcs, bool_decide_true by done.
    eexists. split; [reflexivity |]. split_and!; [done | |].
    + simpl. by rewrite Habs'.
    + by apply map_Forall_delete.
  - destruct Hc as (_ & Hcs & _). exists d.
    rewrite Hcs, bool_decide_false by (by intros [? ?]). by rewrite delete_id.
Qed.

Lemma Dict_getTotal_spec d cs :
  dict_ok d cs -> Dict_getTotal d = Ret (u64 (Z.of_nat (size cs))) d.
Proof.
  intros ((ds & Hds & Hok & Ht) & Ho & _). unfold Dict_getTotal.
  assert (size cs = length (concat ds)) as ->.
  { rewrite <- (size_abs _ _ Hok), <- !size_dom. f_equal.
    apply set_eq. intros k. rewrite !elem_of_dom, (own_dom _ _ _ Ho).
    unfold abs. by rewrite Hds. }
  by rewrite <- Ht.
Qed.

(** [freeDatas] releases every array once and leaves none. *)
Lemma free_nodes_spec ns d m cs :
  NoDup (fst <$> ns) -> owned (d_mem d) m cs -> m = list_to_map ns ->
  exists d', free_nodes ns d = Ret tt d' /\ owned (K := K) (d_mem d') ∅ ∅ /\ d_tbl d' = d_tbl d.
Proof.
  revert d m cs. induction ns as [| [k a] ns IH]; intros d m cs Hd Ho ->; simpl in *.
  - exists d. split_and!; [done | | done].
    assert (cs = ∅) as <-; [| done]. apply map_eq. intros k. rewrite lookup_empty.
    apply (owned_none _ _ _ _ Ho). apply lookup_empty.
  - apply NoDup_cons in Hd as [Hk Hd].
    destruct (owned_release _ _ _ k a Ho) as (m' & Hr & Ho').
    { by rewrite lookup_insert_eq. }
    rewrite (mm_bind _ _ _ _ _ Hr).
    rewrite delete_insert_id in Ho' by (by apply not_elem_of_list_to_map_1).
    destruct (IH (mk_Dict (d_tbl d) m') _ _ Hd Ho' eq_refl) as (d' & ? & ? & ?).
    by exists d'.
Qed.

Lemma Dict_freeDatas_spec d cs : dict_ok d cs ->
  exists d', Dict_freeDatas d = Ret tt d' /\ m_heap (d_mem d') = ∅.
Proof.
  intros ((ds & Hds & Hok & _) & Ho & _). unfold Dict_freeDatas.
  erewrite bind_Ret by reflexivity. rewrite Hds.
  unfold abs in Ho. rewrite Hds in Ho. simpl in Ho.
  destruct (free_nodes_spec (concat ds) d _ _ (NoDup_keys _ _ Hok) Ho eq_refl)
    as (d' & Hr & Ho' & _).
  rewrite (bind_Ret _ _ _ _ _ Hr). eexists. split; [reflexivity |]. simpl.
  apply map_eq. intros q. rewrite lookup_empty. apply eq_None_not_Some. intros Hq.
  destruct (own_no_leak _ _ _ Ho' q Hq) as (k & n & Hk). by rewrite lookup_empty in Hk.
Qed.

(** ** The specification: a finite map from keys to lists *)

Inductive dict_cmd :=
| DGet (k : K)
| DGetVector (k : K)
| DExists (k : K)
| DInsert (k : K) (v : list V)
| DDel (k : K)
| DTotal
| DRehash.

Inductive dict_reply :=
| DR_array (a : shared_array)
| DR_vec (l : option (list V))
| DR_bool (b : bool)
| DR_num (n : Z)
| DR_unit.

Definition dict_exec (c : dict_cmd) : M Dict dict_reply :=
  match c with
  | DGet k => DR_array <$> Dict_get k true
  | DGetVector k => DR_vec <$> Dict_get_vector k
  | DExists k => DR_bool <$> Dict_exists k
  | DInsert k v => DR_bool <$> Dict_insert k v
  | DDel k => DR_bool <$> Dict_del k
  | DTotal => DR_num <$> Dict_getTotal
  | DRehash => (fun _ => DR_unit) <$> Dict_rehash
  end.

Definition dmap_exec (c : dict_cmd) (m : gmap K (list V)) :
    dict_reply * gmap K (list V) :=
  match c with
  | DGet k => (DR_array (match m !! k with None => SA_empty | Some l => SA_copy l end), m)
  | DGetVector k => (DR_vec (m !! k), m)
  | DExists k => (DR_bool (bool_decide (is_Some (m !! k))), m)
  | DInsert k v => (DR_bool true, map_put k v m)
  | DDel k => (DR_bool (bool_decide (is_Some (m !! k))), delete k m)
  | DTotal => (DR_num (u64 (Z.of_nat (size m))), m)
  | DRehash => (DR_unit, m)
  end.

Fixpoint dict_run (cs : list dict_cmd) : M Dict (list dict_reply) :=
  match cs with
  | [] => mret []
  | c :: cs => r ← dict_exec c; rs ← dict_run cs; mret (r :: rs)
  end.

Fixpoint dmap_run (cs : list dict_cmd) (m : gmap K (list V)) :
    list dict_reply * gmap K (list V) :=
  match cs with
  | [] => ([], m)
  | c :: cs => let '(r, m) := dmap_exec c m in
               let '(rs, m) := dmap_run cs m in (r :: rs, m)
  end.

(** The command's list fits an [int]; so do all lists of a map. *)
Definition short_cmd (c : dict_cmd) : Prop :=
  match c with DInsert _ v => fits_int (length v) = true | _ => True end.
Definition short_map (m : gmap K (list V)) : Prop := map_Forall (fun _ l => fits_int (length l) = true) m.

Lemma short_lookup m k : short_map m -> short_at m k = true.
Proof. intros Hm. unfold short_at. destruct (m !! k) as [l |] eqn:E; [by apply (Hm k) | done]. Qed.

Lemma short_exec c m : short_cmd c -> short_map m -> short_map (snd (dmap_exec c m)).
Proof.
  intros Hc Hm. destruct c as [k | k | k | k v | k | |]; simpl; try done.
  - unfold map_put. case_decide; [done |]. by apply map_Forall_insert_2.
  - by apply map_Forall_delete.
Qed.

Lemma dict_exec_refines c d m : short_cmd c -> short_map m -> dict_ok d m -> exists d',
  dict_exec c d = Ret (fst (dmap_exec c m)) d' /\ dict_ok d' (snd (dmap_exec c m)).
Proof.
  intros Hc Hm Hd. destruct c as [k | k | k | k v | k | |]; simpl.
  - exists d. pose proof (Dict_get_copy_spec d m k Hd) as E. rewrite short_lookup in E by done.
    by rewrite (fmap_Ret _ _ _ _ _ E).
  - exists d. pose proof (Dict_get_vector_spec d m k Hd) as E. rewrite short_lookup in E by done.
    by rewrite (fmap_Ret _ _ _ _ _ E).
  - exists d. by rewrite (fmap_Ret _ _ _ _ _ (Dict_exists_spec d m k Hd)).
  - pose proof (Dict_insert_spec d m k v Hd) as E. simpl in Hc. rewrite Hc in E. destruct E as (d' & Hr & ?).
    exists d'. by rewrite (fmap_Ret _ _ _ _ _ Hr).
  - destruct (Dict_del_spec d m k Hd) as (d' & Hr & ?).
    exists d'. by rewrite (fmap_Ret _ _ _ _ _ Hr).
  - exists d. by rewrite (fmap_Ret _ _ _ _ _ (Dict_getTotal_spec d m Hd)).
  - eexists. split; [reflexivity |]. by apply dict_ok_rehash.
Qed.

Lemma dict_run_refines cs d m : Forall short_cmd cs -> short_map m -> dict_ok d m -> exists d',
  dict_run cs d = Ret (fst (dmap_run cs m)) d' /\ dict_ok d' (snd (dmap_run cs m)).
Proof.
  intros Hcs. revert d m. induction Hcs as [| c cs Hc _ IH]; intros d m Hm Hd; simpl; [by exists d |].
  destruct (dict_exec_refines c d m Hc Hm Hd) as (d1 & Hr & Hd1). pose proof (short_exec c m Hc Hm) as Hm1.
  destruct (dmap_exec c m) as [r m1]. simpl in *.
  destruct (IH d1 m1 Hm1 Hd1) as (d2 & Hrs & Hd2).
  exists d2. rewrite (bind_Ret _ _ _ _ _ Hr), (bind_Ret _ _ _ _ _ Hrs).
  by destruct (dmap_run cs m1).
Qed.

(** C4: a [Dict] is a finite map from keys to non-empty lists of less than 2^31
    values, and it manages its memory.  From the empty dictionary every sequence
    of commands with such lists returns (no access to a released array, no
    double release, no division by zero), replies as the finite map does, and the
    destructor then releases every live array.  A list of 2^31 values or more:
    for a new key [insert] throws and leaves the map as it was; for a key that
    is there it is stored, its node's [int size] is negative, and [get] of the
    key throws from then on. *)
Theorem Dict_refines_map (size : Z) :
  (forall cs, Forall short_cmd cs -> exists d d',
    dict_run cs (new_Dict size) = Ret (fst (dmap_run cs ∅)) d /\
    dict_ok d (snd (dmap_run cs ∅)) /\
    Dict_freeDatas d = Ret tt d' /\ m_heap (d_mem d') = ∅) /\
  (forall d m k v, dict_ok d m -> fits_int (length v) = false ->
    if bool_decide (is_Some (m !! k)) then
      exists d', Dict_insert k v d = Ret true d' /\ dict_ok d' (<[k := v]> m) /\
        Dict_get k true d' = Throw BadArray d' /\ Dict_get_vector k d' = Throw LogicError d'
    else exists d', Dict_insert k v d = Throw BadArray d' /\ dict_ok d' m).
Proof.
  split.
  - intros cs Hcs. destruct (dict_run_refines cs _ _ Hcs (map_Forall_empty _) (new_Dict_ok size)) as (d & Hr & Hok).
    destruct (Dict_freeDatas_spec d _ Hok) as (d' & Hf & Hh). by exists d, d'.
  - intros d m k v Hd Hv. pose proof (Dict_insert_spec d m k v Hd) as E. rewrite Hv in E. cbn [orb] in E.
    destruct (bool_decide (is_Some (m !! k))); [| done]. destruct E as (d' & Hr & Hd'). exists d'.
    unfold map_put in Hd'. rewrite decide_False in Hd' by (intros E; by rewrite E in Hv).
    split_and!; [done | done | |].
    + rewrite (Dict_get_copy_spec d' _ k Hd'). unfold short_at. rewrite lookup_insert_eq. cbn [from_option id]. by rewrite Hv.
    + rewrite (Dict_get_vector_spec d' _ k Hd'). unfold short_at. rewrite lookup_insert_eq. cbn [from_option id]. by rewrite Hv.
Qed.

End dict.

Lemma Dict_refines_map_witness : exists d d', dict_run [DInsert 5 [1; 2]; DInsert 5 [3]; DGetVector 5]%Z (new_Dict (K := Z) (V := Z) 0) = Ret [DR_bool true; DR_bool true; DR_vec (Some [3%Z])] d /\
  Dict_freeDatas d = Ret tt d' /\ m_heap (d_mem d') = ∅.
Proof.
  destruct (Dict_refines_map (K := Z) (V := Z) 0) as [H _]. destruct (H [DInsert 5 [1; 2]; DInsert 5 [3]; DGetVector 5]%Z) as (d & d' & Hr & _ & Hf & Hh); [by repeat constructor |].
  exists d, d'. by rewrite Hr.
Defined.
