(* ===== verification/DictIO.v ===== *)
(** * Saving and loading a Dict

    [Dict::writeTo] and [Dict::readFrom] of [src/include/datastruct/dict.h].
    The image is the bucket count, the values of all nodes one after the
    other, and the nodes with the offset of their values in place of the
    pointer.  After loading, the nodes point into the vector [_values].

    [Dict_io_roundtrip]: loading an image gives a dictionary with the same
    contents and the ownership invariant, so that later insertions and
    deletions are safe although the arrays were never allocated one by one;
    what the dictionary held before is released. *)

From S2P Require Import Prelude SortedVec HashBuckets HashMap Streams HashMapIO.
From S2P Require Import ValueHeap Dict.
From stdpp Require Import base list list_numbers numbers option sorting gmap fin_maps.
From Stdlib Require Import ZArith Lia.

Section dict_io.
Context {K V : Type} `{StrictOrd K, PosHash K, Countable K, Inhabited V}.

(** [struct Node { K key; int size; V* val; }], with an offset in [val]. *)
Local Abbreviation Node := (K * (nat * nat))%type.
Context `{Pod V, Pod Node}.

Local Abbreviation Dict := (@Dict K V).

(** The loop of [writeTo] over the nodes of all buckets; [None]: the range
    [n.val, n.val + n.size] is not that of an array. *)
Fixpoint pack (m : mem V) (l : list (K * (nat * ptr))) (vs : list V)
    (ns : list Node) : option (list V * list Node) :=
  match l with
  | [] => Some (vs, ns)
  | (k, (size, val)) :: l =>
    let offset := length vs in
    match (if fits_int size then load m val size else None) with
    | None => None
    | Some b => pack m l (vs ++ b) (ns ++ [(k, (size, offset))])
    end
  end.

Definition Dict_writeTo (speed : option nat) (os : list Z) (d : Dict) :
    option (list Z) :=
  let os := os ++ le_split 8 (t_size (d_tbl d)) in
  match pack (d_mem d) (concat (default [] (t_datas (d_tbl d)))) [] [] with
  | None => None
  | Some (vs, ns) =>
    let size := length vs * sizeof V in
    let os := os ++ le_split 8 (Z.of_nat size) in
    os ← write_block speed os (enc_all vs);
    let size := length ns * sizeof Node in
    let os := os ++ le_split 8 (Z.of_nat size) in
    write_block speed os (enc_all ns)
  end.

(** [vs.resize(size / sizeof(V))] and the bytes read into it. *)
Definition read_values (speed : option nat) (ist : istream) (vs : list V) (size : nat) :
    option (list V * bool * istream) :=
  let n := size / sizeof V in
  match read_block speed ist (enc_all (resize n inhabitant vs)) size with
  | None => None
  | Some (data, ok, ist) => Some (dec_all n data, ok, ist)
  end.

Definition overruns (size elem avail : nat) : bool :=
  bool_decide (size / elem * elem < size /\ size / elem * elem < avail).

(** [n.val = &vs[0] + (uint64_t)n.val] *)
Definition relocate (n : Node) : K * (nat * ptr) :=
  (fst n, (fst (snd n), PVals (snd (snd n)))).

(** The last part of [readFrom], with the nodes read. *)
Definition load_dict (ns : list Node) (total : Z) (d : Dict) : outcome Dict bool :=
  match load_nodes (relocate <$> ns) total (d_tbl d) with
  | Ret b t => Ret b (mk_Dict t (d_mem d))
  | Throw e t => Throw e (mk_Dict t (d_mem d))
  | Undef u => Undef u
  end.

Definition read_nodes (speed : option nat) (ist : istream) (d : Dict) :
    outcome Dict bool * istream :=
  match readFromStream_u64 ist 0 with
  | None => (Undef Diverges, ist)
  | Some (_, false, ist) => (Ret false d, ist)
  | Some (size, true, ist) =>
    let n := Z.to_nat size / sizeof Node in
    if overruns (Z.to_nat size) (sizeof Node) (length (is_bytes ist))
    then (Undef BadIndex, ist) else
    match read_block speed ist (replicate (n * sizeof Node) 0%Z) (Z.to_nat size) with
    | None => (Undef Diverges, ist)
    | Some (_, false, ist) => (Ret false d, ist)
    | Some (mem, true, ist) => (load_dict (dec_all n mem) (Z.of_nat n) d, ist)
    end
  end.

Definition Dict_readFrom (speed : option nat) (ist : istream) (d : Dict) :
    outcome Dict bool * istream :=
  match Dict_freeDatas d with
  | Ret _ d =>
    let t := d_tbl d in
    match readFromStream_u64 ist (t_size t) with
    | None => (Undef Diverges, ist)
    | Some (size', false, ist) =>
      (Ret false (mk_Dict (mk_table size' (t_total t) (t_datas t)) (d_mem d)), ist)
    | Some (size', true, ist) =>
      let t := mk_table size' (t_total t) (t_datas t) in
      match readFromStream_u64 ist 0 with
      | None => (Undef Diverges, ist)
      | Some (_, false, ist) => (Ret false (mk_Dict t (d_mem d)), ist)
      | Some (size, true, ist) =>
        if overruns (Z.to_nat size) (sizeof V) (length (is_bytes ist))
        then (Undef BadIndex, ist) else
        match read_values speed ist (m_values (d_mem d)) (Z.to_nat size) with
        | None => (Undef Diverges, ist)
        | Some (vs, ok, ist) =>
          let d := mk_Dict t (mk_mem vs (m_heap (d_mem d))) in
          if ok then read_nodes speed ist d else (Ret false d, ist)
        end
      end
    end
  | Throw e d => (Throw e d, ist)
  | Undef u => (Undef u, ist)
  end.

(** ** The layout of an image *)

Definition contents (cs : gmap K (list V)) (l : list (K * (nat * ptr))) : list (list V) :=
  (fun n => default [] (cs !! fst n)) <$> l.

Fixpoint layout (off : nat) (l : list (K * (nat * ptr))) : list Node :=
  match l with
  | [] => []
  | (k, (size, _)) :: l => (k, (size, off)) :: layout (off + size) l
  end.

Lemma pack_spec m cs l vs ns :
  (forall k a, (k, a) ∈ l -> exists b, cs !! k = Some b /\ valid m a b /\ fits_int (length b) = true) ->
  pack m l vs ns =
  Some (vs ++ concat (contents cs l), ns ++ layout (length vs) l).
Proof.
  revert vs ns. induction l as [| [k [n p]] l IH]; intros vs ns Hl; simpl.
  { by rewrite !app_nil_r. }
  destruct (Hl k (n, p)) as (b & Hb & Hv & Hi); [by left |].
  assert (length b = n) as En by apply Hv. rewrite En in Hi.
  rewrite Hi, (valid_load _ _ _ _ Hv), Hb. simpl.
  rewrite IH by (intros; apply Hl; by right).
  destruct Hv as [Hlen _]. simpl in Hlen.
  by rewrite <- !app_assoc, length_app, Hlen.
Qed.

Lemma fst_layout off l : fst <$> layout off l = fst <$> l.
Proof.
  revert off. induction l as [| [k [n p]] l IH]; intros off; simpl; [done |].
  by rewrite IH.
Qed.

(** Offsets grow along the layout, and each range holds the contents. *)
Lemma layout_range cs l pre k n off :
  (forall k a, (k, a) ∈ l -> exists b, cs !! k = Some b /\ length b = fst a) ->
  (k, (n, off)) ∈ layout (length pre) l ->
  length pre <= off /\
  off + n <= length (pre ++ concat (contents cs l)) /\
  cs !! k = Some (take n (drop off (pre ++ concat (contents cs l)))).
Proof.
  revert pre. induction l as [| [k' [n' p]] l IH]; intros pre Hl Hin; simpl in *.
  { by apply elem_of_nil in Hin. }
  destruct (Hl k' (n', p)) as (b & Hb & Hlen); [by left |]. simpl in Hlen.
  rewrite Hb. simpl. apply elem_of_cons in Hin as [Heq | Hin].
  - injection Heq as -> -> ->. rewrite !length_app. split_and!; [done | lia |].
    by rewrite drop_app_length, take_app_length', Hb.
  - rewrite app_assoc. destruct (IH (pre ++ b)) as (Hle & Hr & Hc).
    + intros. apply Hl. by right.
    + by rewrite length_app, Hlen.
    + rewrite length_app in Hle. split_and!; [lia | done | done].
Qed.

Lemma layout_off_ge off l k n o : (k, (n, o)) ∈ layout off l -> off <= o.
Proof.
  revert off. induction l as [| [k' [n' p]] l IH]; intros off Hin; simpl in *.
  { by apply elem_of_nil in Hin. }
  apply elem_of_cons in Hin as [Heq | Hin]; [by simplify_eq |].
  apply IH in Hin. lia.
Qed.

Lemma layout_apart off l k1 k2 n1 n2 o1 o2 :
  k1 <> k2 -> (k1, (n1, o1)) ∈ layout off l -> (k2, (n2, o2)) ∈ layout off l ->
  o1 + n1 <= o2 \/ o2 + n2 <= o1.
Proof.
  intros Hne. revert off.
  induction l as [| [k [n p]] l IH]; intros off H1' H2'; simpl in *.
  { by apply elem_of_nil in H1'. }
  apply elem_of_cons in H1' as [Heq1 | H1'];
    apply elem_of_cons in H2' as [Heq2 | H2']; simplify_eq.
  - apply layout_off_ge in H2'. lia.
  - apply layout_off_ge in H1'. lia.
  - by eapply IH.
Qed.

Lemma relocate_lookup l k a :
  (list_to_map (relocate <$> l) : gmap K (nat * ptr)) !! k = Some a ->
  exists n off, a = (n, PVals off) /\ (k, (n, off)) ∈ l.
Proof.
  intros Hk%elem_of_list_to_map_2. apply list_elem_of_fmap in Hk as ([k' [n off]] & Heq & Hin).
  unfold relocate in Heq. simpl in Heq. simplify_eq. by exists n, off.
Qed.

(** The loaded nodes own the loaded values. *)
Lemma layout_owned cs l (ns0 : gmap K (nat * ptr)) m :
  owned m ns0 cs -> ns0 = list_to_map l -> NoDup (fst <$> l) ->
  map_Forall (fun _ vs => vs <> []) cs ->
  owned (mk_mem (concat (contents cs l)) ∅)
        (list_to_map (relocate <$> layout 0 l)) cs.
Proof.
  intros Ho -> Hnd Hne.
  assert (forall k a, (k, a) ∈ l -> exists b, cs !! k = Some b /\ length b = fst a) as Hl.
  { intros k a Hin.
    destruct (owned_lookup _ _ _ k a Ho) as (b & Hb & [Hlen _]).
    { by apply elem_of_list_to_map_1. }
    by exists b. }
  assert (fst <$> (relocate <$> layout 0 l) = fst <$> l) as Hfst.
  { rewrite <- list_fmap_compose, <- (fst_layout 0 l). apply list_fmap_ext. done. }
  split.
  - intros k. rewrite (own_dom _ _ _ Ho k), <- !elem_of_dom, !dom_list_to_map.
    by rewrite !elem_of_list_to_set, Hfst.
  - intros k a vs (n & off & -> & Hin)%relocate_lookup Hcs.
    destruct (layout_range cs l [] k n off Hl Hin) as (_ & Hle & Hc).
    rewrite Hcs in Hc. injection Hc as Hc. simpl in *.
    assert (length vs = n) as Hn.
    { rewrite Hc, length_take, length_drop. lia. }
    split; [done |]. simpl. split_and!; [| done | done].
    intros Hz. apply (Hne k vs Hcs). apply nil_length_inv. lia.
  - intros k1 k2 a b Hk (n1 & o1 & -> & Hi1)%relocate_lookup
      (n2 & o2 & -> & Hi2)%relocate_lookup.
    unfold apart. simpl. by eapply layout_apart.
  - intros q [? Hq]. simpl in Hq. by rewrite lookup_empty in Hq.
Qed.

Definition dict_image (size : Z) (vs : list V) (ns : list Node) : list Z :=
  le_split 8 size ++ le_split 8 (Z.of_nat (length vs * sizeof V)) ++ enc_all vs ++
  le_split 8 (Z.of_nat (length ns * sizeof Node)) ++ enc_all ns.

Lemma overruns_exact n elem avail : 0 < elem -> overruns (n * elem) elem avail = false.
Proof.
  intros He. unfold overruns. apply bool_decide_false.
  rewrite Nat.div_mul by lia. lia.
Qed.

Lemma read_values_ok speed vs0 vs rest : Forall pod_ok vs ->
  read_values speed (mk_istream (enc_all vs ++ rest) true) vs0 (length vs * sizeof V) =
  Some (vs, true, mk_istream rest true).
Proof.
  intros Hpod. unfold read_values. pose proof (sizeof_pos (A := V)).
  rewrite Nat.div_mul by lia. rewrite <- (length_enc_all vs).
  assert (length (enc_all (resize (length vs) inhabitant vs0)) = length (enc_all vs)) as Hl.
  { by rewrite !length_enc_all, length_resize. }
  rewrite read_block_ok by lia. rewrite splice_full by lia.
  by rewrite take_0, app_nil_l, dec_enc_all.
Qed.

Lemma read_nodes_ok speed ns rest d :
  (0 < t_size (d_tbl d))%Z -> NoDup (fst <$> ns) -> Forall pod_ok ns ->
  (Z.of_nat (length ns * sizeof Node) < 2 ^ 64)%Z ->
  exists ds, read_nodes speed (mk_istream
      (le_split 8 (Z.of_nat (length ns * sizeof Node)) ++ enc_all ns ++ rest) true) d =
    (Ret true (mk_Dict (mk_table (t_size (d_tbl d)) (Z.of_nat (length ns)) (Some ds))
       (d_mem d)), mk_istream rest true) /\
    buckets_ok (t_size (d_tbl d)) ds /\ concat ds ≡ₚ (relocate <$> ns).
Proof.
  intros Hsz Hnd Hpod Hlen. unfold read_nodes.
  rewrite readFromStream_u64_ok by (unfold in_u; lia).
  pose proof (sizeof_pos (A := Node)) as Hs0.
  rewrite Nat2Z.id, overruns_exact, Nat.div_mul by lia.
  rewrite <- length_enc_all.
  rewrite read_block_ok by (by rewrite length_replicate).
  rewrite splice_full by (by rewrite length_replicate).
  rewrite take_0, app_nil_l, dec_enc_all by done.
  unfold load_dict, load_nodes. rewrite (proj2 (Z.eqb_neq _ _)) by lia.
  simpl andb. cbv iota.
  destruct (distribute_ok (t_size (d_tbl d)) (relocate <$> ns) Hsz) as [Hok Hp].
  { by rewrite <- list_fmap_compose. }
  eexists. split; [reflexivity | done].
Qed.

Lemma Dict_writeTo_spec speed d cs ds :
  dict_ok d cs -> short_map cs -> t_datas (d_tbl d) = Some ds ->
  Dict_writeTo speed [] d =
  Some (dict_image (t_size (d_tbl d)) (concat (contents cs (concat ds)))
                   (layout 0 (concat ds))).
Proof.
  intros (Hwf & Ho & _) Hshort Hds. unfold Dict_writeTo. rewrite Hds. simpl default.
  destruct Hwf as (ds' & Hds' & Hok & _). assert (ds' = ds) as -> by congruence.
  rewrite (pack_spec _ cs).
  - rewrite write_block_ok. simpl mbind. rewrite write_block_ok.
    unfold dict_image. simpl app. by rewrite <- !app_assoc.
  - intros k a Hin. destruct (owned_lookup _ _ _ k a Ho) as (b & Hb & Hv).
    + unfold abs. rewrite Hds. simpl. apply elem_of_list_to_map_1; [by eapply NoDup_keys | done].
    + exists b. split_and!; [done | done | by apply (Hshort k)].
Qed.

Lemma Forall_contents (Q : V -> Prop) (R : list V -> Prop) cs l :
  map_Forall (fun _ vs => Forall Q vs /\ R vs) cs -> Forall Q (concat (contents cs l)).
Proof.
  intros Hq. induction l as [| n l IH]; simpl; [constructor |].
  apply Forall_app. split; [| done].
  destruct (cs !! fst n) as [vs |] eqn:Hn; simpl; [| constructor].
  by destruct (Hq _ _ Hn).
Qed.

(** C5: saving and loading a [Dict] whose lists have less than 2^31 values.
    [writeTo] succeeds, with and without a speed limit (its loops end and every
    array is there to be read), and what it produces, if it has less than 2^64
    bytes, is read back by [readFrom], with and without a speed limit, into any
    dictionary, as the same map, with the invariant of the operations (so the
    loaded arrays can be replaced and deleted safely), and the arrays held before
    are all released. *)
Theorem Dict_io_roundtrip (speed speed' : option nat) (d d0 : Dict)
    (cs cs0 : gmap K (list V)) (rest : list Z)
    (Hd : dict_ok d cs) (Hd0 : dict_ok d0 cs0) (Hsz : in_u 64 (t_size (d_tbl d)))
    (Hval : map_Forall (fun _ vs => Forall pod_ok vs /\
              (Z.of_nat (length vs) < 2 ^ 31)%Z) cs)
    (Hnode : forall k n off, is_Some (cs !! k) -> (Z.of_nat n < 2 ^ 31)%Z ->
               (Z.of_nat off < 2 ^ 64)%Z -> pod_ok (k, (n, off))) :
  exists img, Dict_writeTo speed [] d = Some img /\
    ((Z.of_nat (length img) < 2 ^ 64)%Z ->
     exists d', Dict_readFrom speed' (mk_istream (img ++ rest) true) d0 =
         (Ret true d', mk_istream rest true) /\
       dict_ok d' cs /\ m_heap (d_mem d') = ∅).
Proof.
  pose proof Hd as ((ds & Hds & Hok & _) & Ho & Hne).
  eexists. split; [apply (Dict_writeTo_spec speed d cs ds Hd); [| done]; intros k vs Hk; destruct (Hval k vs Hk); by apply Z.ltb_lt |]. intros Hlen.
  unfold dict_image in Hlen |- *.
  set (vs := concat (contents cs (concat ds))) in *.
  set (ns := layout 0 (concat ds)) in *.
  rewrite !length_app, !length_enc_all in Hlen.
  pose proof (NoDup_keys _ _ Hok) as Hnd.
  assert (forall k a, (k, a) ∈ concat ds ->
    exists b, cs !! k = Some b /\ length b = fst a) as Hl.
  { intros k a Hin. destruct (owned_lookup _ _ _ k a Ho) as (b & Hb & [Hlb _]).
    - unfold abs. rewrite Hds. by apply elem_of_list_to_map_1.
    - by exists b. }
  destruct (Dict_freeDatas_spec d0 cs0 Hd0) as (d1 & Hf & Hh).
  unfold Dict_readFrom. rewrite Hf, <- !app_assoc.
  rewrite readFromStream_u64_ok by done.
  rewrite readFromStream_u64_ok by (unfold in_u; lia).
  rewrite Nat2Z.id, overruns_exact by apply sizeof_pos.
  rewrite read_values_ok by (by apply (Forall_contents pod_ok
    (fun vs => (Z.of_nat (length vs) < 2 ^ 31)%Z))).
  edestruct (read_nodes_ok speed' ns rest) as (ds' & -> & Hok' & Hp).
  - cbn [d_tbl t_size]. by eapply ok_size.
  - unfold ns. by rewrite fst_layout.
  - apply Forall_forall. intros [k [n off]] Hin.
    destruct (layout_range cs (concat ds) [] k n off Hl Hin) as (_ & Hle & Hc).
    apply Hnode; [by eexists | |].
    + destruct (Hval k _ Hc) as [_ Hv]. rewrite length_take, length_drop in Hv.
      simpl in Hle, Hv. lia.
    + simpl in Hle. pose proof (sizeof_pos (A := V)).
      fold vs in Hle. nia.
  - lia.
  - cbn [d_tbl t_size d_mem] in *. eexists. split; [reflexivity |].
    rewrite Hh. split; [| done]. split_and!; [| | done].
    + apply wf_intro; [done |]. rewrite Hp, length_fmap.
      unfold u64. rewrite uwrap_id; [done |]. pose proof (sizeof_pos (A := Node)).
      unfold in_u. nia.
    + simpl d_mem. simpl d_tbl. unfold abs, abs_buckets. simpl.
      rewrite (abs_perm _ _ Hp) by (by eapply NoDup_keys).
      unfold abs in Ho. rewrite Hds in Ho. by eapply layout_owned.
Qed.

End dict_io.

(** Arrays in a dictionary of [int] keys, one replaced and one deleted. *)
Definition dict_demo : list (@dict_cmd Z Z) :=
  [DInsert 5 [1; 2; 3]; DInsert (-1) [9]; DInsert 5 [4; 4]; DInsert 8 [7]; DDel 8]%Z.

Definition dict_demo_state : @Dict Z Z :=
  match dict_run dict_demo (new_Dict 0) with
  | Ret _ d => d
  | _ => new_Dict 0
  end.

Lemma dict_demo_ok : dict_ok dict_demo_state (snd (dmap_run dict_demo ∅)).
Proof.
  destruct (dict_run_refines dict_demo (new_Dict 0) ∅) as (d & Hr & Hok); [by repeat constructor | apply map_Forall_empty | apply new_Dict_ok |].
  unfold dict_demo_state. by rewrite Hr.
Qed.

Lemma dict_demo_values :
  map_Forall (fun _ vs => Forall pod_ok vs /\ (Z.of_nat (length vs) < 2 ^ 31)%Z)
    (snd (dmap_run dict_demo ∅)).
Proof.
  cbn [dmap_run dmap_exec dict_demo fst snd map_put decide length].
  apply map_Forall_delete.
  assert (forall l : list Z, Forall (in_u 8) l -> (Z.of_nat (length l) < 2 ^ 31)%Z ->
    Forall pod_ok l /\ (Z.of_nat (length l) < 2 ^ 31)%Z) as Hi by done.
  repeat first [apply map_Forall_empty | apply map_Forall_insert_2;
    [apply Hi; [repeat constructor; unfold in_u; lia | simpl; lia] |]].
Qed.

Lemma dict_demo_keys : map_Forall (fun k _ => in_s 32 k) (snd (dmap_run dict_demo ∅)).
Proof.
  cbn [dmap_run dmap_exec dict_demo fst snd map_put decide length].
  apply map_Forall_delete.
  repeat first [apply map_Forall_empty | apply map_Forall_insert_2;
    [unfold in_s; lia |]].
Qed.

Definition dict_demo_image : list Z :=
  default [] (Dict_writeTo None [] dict_demo_state).

Lemma Dict_io_roundtrip_witness :
  exists d', Dict_readFrom (Some 3)
      (mk_istream (dict_demo_image ++ [0%Z]) true) (new_Dict 4) =
      (Ret true d', mk_istream [0%Z] true) /\
    dict_ok d' (snd (dmap_run dict_demo ∅)) /\ m_heap (d_mem d') = ∅.
Proof.
  destruct (Dict_io_roundtrip None (Some 3) dict_demo_state (new_Dict 4)
    (snd (dmap_run dict_demo ∅)) ∅ [0%Z]) as (img & Hw & H).
  - exact dict_demo_ok.
  - apply new_Dict_ok.
  - by vm_compute.
  - exact dict_demo_values.
  - intros k n off Hk Hn Ho.
    destruct Hk as [vs Hk]. by pose proof (dict_demo_keys k vs Hk).
  - assert (img = dict_demo_image) as -> by (unfold dict_demo_image; by rewrite Hw). apply H. by vm_compute.
Defined.
