(* ===== verification/StringDict.v ===== *)
(** * Murmur hashing and StringDict

    The hash functions of [src/src/utils/hash_util.cpp] that the containers
    use, and [StringDict] of [src/include/datastruct/dict.h], which gives
    every string a 64-bit identifier and remembers the string.

    [StringDict_interns]: after any sequence of updates whose strings do not
    collide, every identifier returned leads back to its string. *)

From S2P Require Import Prelude SortedVec HashBuckets ValueHeap Dict.
From stdpp Require Import base list list_numbers numbers option sorting gmap fin_maps.
From Stdlib Require Import ZArith Lia.

(** ** hash_util.cpp *)

Definition ROTL (x r : Z) : Z := Z.lor (u32 (Z.shiftl x r)) (Z.shiftr x (32 - r)).

Definition fmix32 (h : Z) : Z :=
  let h := Z.lxor h (Z.shiftr h 16) in
  let h := u32 (h * 0x85ebca6b) in
  let h := Z.lxor h (Z.shiftr h 13) in
  let h := u32 (h * 0xc2b2ae35) in
  Z.lxor h (Z.shiftr h 16).

Definition murmur_seed1 : Z := 0xcc9e2d51.
Definition murmur_seed2 : Z := 0x1b873593.

Definition scramble (s : Z) : Z :=
  u32 (ROTL (u32 (s * murmur_seed1)) 15 * murmur_seed2).

(** One iteration of the block loop on the little-endian word [s]. *)
Definition murmur_block (h s : Z) : Z :=
  let h := ROTL (Z.lxor h (scramble s)) 13 in
  u32 (u32 (h * 5) + 0xe6546b64).

Fixpoint murmur_blocks (blk : nat) (data : list Z) (h : Z) : Z :=
  match blk with
  | O => h
  | S blk => murmur_blocks blk (drop 4 data) (murmur_block h (le_combine (take 4 data)))
  end.

(** The [switch(len & 3)], whose cases fall through. *)
Definition murmur_tail (tail : list Z) (len : nat) (h : Z) : Z :=
  let byte i : Z := default 0%Z (tail !! i) in
  let s3 := Z.shiftl (byte 2%nat) 16 in
  let s2 := Z.shiftl (byte 1%nat) 8 in
  let s1 := byte 0%nat in
  match (len mod 4)%nat with
  | 3 => Z.lxor h (scramble (Z.lor (Z.lor s3 s2) s1))
  | 2 => Z.lxor h (scramble (Z.lor s2 s1))
  | 1 => Z.lxor h (scramble s1)
  | _ => h
  end%nat.

(** [murmur3_hash(data, size, seed)] of [size < 2^31] bytes; the data pointer
    is not null. *)
Definition murmur3_hash (data : list Z) (seed : Z) : Z :=
  let len := length data in
  let blk := (len / 4)%nat in
  let h := murmur_blocks blk data seed in
  let h := murmur_tail (drop (blk * 4) data) len h in
  fmix32 (Z.lxor h (Z.of_nat len)).

Definition murmur3_hash64 (data : list Z) (seed seed2 : Z) : Z :=
  Z.lor (Z.shiftl (murmur3_hash data seed) 32) (murmur3_hash data seed2).

(** The bytes of a C string, up to the terminating zero. *)
Fixpoint c_str (mem : list Z) : list Z :=
  match mem with
  | [] => []
  | c :: mem => if decide (c = 0%Z) then [] else c :: c_str mem
  end.

Definition murmur3_hash_cstr (str : list Z) (seed : Z) : Z := murmur3_hash (c_str str) seed.

Definition murmur3_hash64_cstr (str : list Z) (seed seed2 : Z) : Z :=
  Z.lor (Z.shiftl (murmur3_hash_cstr str seed) 32) (murmur3_hash_cstr str seed2).

(** [quick_hash(const char* )]; [char] is signed. *)
Fixpoint quick_hash_loop (str : list Z) (h : Z) : Z :=
  match str with
  | [] => h
  | c :: str => quick_hash_loop str (u32 (31 * h + swrap 8 c))
  end.

Definition quick_hash_cstr (str : list Z) : Z := quick_hash_loop (c_str str) 0.

(** [quick_hash(const void*, size)]: the pointer is never advanced, so the
    first byte is used [size] times. *)
Fixpoint quick_hash_n (first : Z) (size : nat) (h : Z) : Z :=
  match size with
  | O => h
  | S size => quick_hash_n first size (u32 (31 * h + swrap 8 first))
  end.

Definition quick_hash (data : list Z) : Z := quick_hash_n (hd 0%Z data) (length data) 0.

(** ** Ranges *)

Lemma u32_range x : in_u 32 (u32 x).
Proof. by apply uwrap_range. Qed.

#[export] Hint Resolve u32_range : azz.

Lemma fmix32_range h : in_u 32 (fmix32 h).
Proof.
  unfold fmix32.
  assert (forall x, in_u 32 (Z.lxor (u32 x) (Z.shiftr (u32 x) 16))) as Hx.
  { intros x. apply in_u_lxor; [done | |]; auto with azz.
    apply in_u_shiftr; auto with azz lia. }
  apply Hx.
Qed.

Lemma murmur3_hash_range data seed : in_u 32 (murmur3_hash data seed).
Proof. apply fmix32_range. Qed.

Lemma murmur3_hash64_range data seed seed2 : in_u 64 (murmur3_hash64 data seed seed2).
Proof.
  unfold murmur3_hash64.
  pose proof (murmur3_hash_range data seed) as [H1 H2].
  pose proof (murmur3_hash_range data seed2) as [H3 H4].
  apply in_u_lor; [done | |].
  - rewrite Z.shiftl_mul_pow2 by done. unfold in_u. lia.
  - unfold in_u. lia.
Qed.

(** Strings hash by [Murmur3Hash<std::string>], so they can be keys. *)
Definition Murmur3Hash_string (data : list Z) : Z := murmur3_hash data 1009150517.
#[export] Instance string_PosHash : PosHash (list Z) :=
  {| posHash := Murmur3Hash_string; posHash_range k := murmur3_hash_range k _ |}.

(** ** StringDict *)

Local Abbreviation StringDict := (@Dict Z Z).

Definition StringDict_GetID (str : list Z) : Z :=
  if decide (length str = 0)%nat then 0 else murmur3_hash64 str 1060627423 1050126127.

Definition StringDict_GetID_cstr (str : list Z) : Z :=
  murmur3_hash64_cstr str 1060627423 1050126127.

Definition Dict_getString (k : Z) : M StringDict (list Z) :=
  '(pos, b, it) ← tb (tbl_find k);
  match it with
  | None => mret []
  | Some it =>
    n ← tb (node_at b it);
    let '(size, val) := snd n in
    if fits_int size then read_array val size else throw LogicError
  end.

Definition StringDict_update (str : list Z) : M StringDict Z :=
  let id := StringDict_GetID str in
  if (id =? 0)%Z then mret 0%Z else Dict_insert id str;; mret id.

Definition StringDict_update_cstr (str : list Z) : M StringDict Z :=
  let id := StringDict_GetID_cstr str in
  if (id =? 0)%Z then mret 0%Z else Dict_insert id (c_str str);; mret id.

Definition StringDict_get (id : Z) : M StringDict (list Z) := Dict_getString id.

Fixpoint update_all (strs : list (list Z)) : M StringDict (list Z) :=
  match strs with
  | [] => mret []
  | s :: strs => id ← StringDict_update s; ids ← update_all strs; mret (id :: ids)
  end.

Lemma Dict_getString_spec (d : StringDict) cs k :
  dict_ok d cs -> short_at cs k = true -> Dict_getString k d = Ret (default [] (cs !! k)) d.
Proof.
  unfold short_at. intros Hd Hk. destruct (dict_find d cs k Hd) as (pos & b & [it |] & Hf & Hc);
    unfold Dict_getString; rewrite (tb_bind _ _ _ _ _ Hf), dict_eta.
  - destruct Hc as (size & val & vs & Hn & _ & Hcs & Hv & _). rewrite Hcs in *. cbn [from_option id] in *.
    assert (length vs = size) as En by apply Hv. rewrite En in Hk.
    rewrite (tb_bind _ _ _ _ _ Hn), dict_eta. cbn [snd]. rewrite Hk.
    unfold read_array. by rewrite (valid_load _ _ _ _ Hv).
  - by destruct Hc as (_ & -> & _).
Qed.

Definition id_put (s : list Z) (m : gmap Z (list Z)) : gmap Z (list Z) :=
  if (StringDict_GetID s =? 0)%Z then m else <[StringDict_GetID s := s]> m.

Lemma StringDict_update_spec (d : StringDict) cs s : fits_int (length s) = true -> dict_ok d cs -> exists d',
  StringDict_update s d = Ret (StringDict_GetID s) d' /\ dict_ok d' (id_put s cs).
Proof.
  intros Hs Hd. unfold StringDict_update, id_put.
  destruct (Z.eqb_spec (StringDict_GetID s) 0) as [Hz | Hnz].
  { exists d. by rewrite Hz. }
  pose proof (Dict_insert_spec d cs (StringDict_GetID s) s Hd) as E. rewrite Hs in E. destruct E as (d' & Hr & Hok).
  exists d'. rewrite (bind_Ret _ _ _ _ _ Hr). split; [done |].
  unfold map_put in Hok. rewrite decide_False in Hok; [done |].
  intros Hl. destruct Hnz. unfold StringDict_GetID. by rewrite decide_True.
Qed.

Lemma update_all_spec (d : StringDict) cs strs : Forall (fun s => fits_int (length s) = true) strs -> dict_ok d cs -> exists d',
  update_all strs d = Ret (StringDict_GetID <$> strs) d' /\
  dict_ok d' (foldl (flip id_put) cs strs).
Proof.
  intros Hs. revert d cs. induction Hs as [| s strs Hs _ IH]; intros d cs Hd; simpl; [by exists d |].
  destruct (StringDict_update_spec d cs s Hs Hd) as (d1 & Hr & Hd1).
  destruct (IH d1 _ Hd1) as (d2 & Hrs & Hd2).
  exists d2. by rewrite (bind_Ret _ _ _ _ _ Hr), (bind_Ret _ _ _ _ _ Hrs).
Qed.

Lemma foldl_id_put strs m s :
  (forall s', s' ∈ strs -> StringDict_GetID s' = StringDict_GetID s -> s' = s) ->
  s ∈ strs \/ m !! StringDict_GetID s = Some s ->
  StringDict_GetID s <> 0%Z ->
  foldl (flip id_put) m strs !! StringDict_GetID s = Some s.
Proof.
  revert m. induction strs as [| s' strs IH]; intros m Hinj Hs Hnz; simpl.
  { destruct Hs as [Hs%elem_of_nil | Hs]; done. }
  apply IH; [intros; apply Hinj; [by right | done] | | done].
  rewrite elem_of_cons in Hs. destruct Hs as [[-> | Hs] | Hm]; [right | by left | right].
  - unfold flip, id_put. rewrite (proj2 (Z.eqb_neq _ _)) by done.
    by rewrite lookup_insert_eq.
  - unfold flip, id_put. destruct (StringDict_GetID s' =? 0)%Z; [done |].
    destruct (decide (StringDict_GetID s' = StringDict_GetID s)) as [Heq | Hne].
    + rewrite (Hinj s') by (by left || done). by rewrite lookup_insert_eq.
    + by rewrite lookup_insert_ne.
Qed.

(** Interning.  Start from the empty dictionary and update any list of
    strings of less than 2^31 characters, no other of which has the identifier of [s]; if [s] was among
    them and its identifier is not the reserved 0, then [update] returned that
    identifier for it and [get] maps the identifier back to [s]. *)
Theorem StringDict_interns (strs : list (list Z)) (s : list Z) (i : nat)
    (Hlen : Forall (fun s => fits_int (length s) = true) strs)
    (Hs : strs !! i = Some s) (Hid : StringDict_GetID s <> 0%Z)
    (Hinj : forall s', s' ∈ strs -> StringDict_GetID s' = StringDict_GetID s -> s' = s) :
  exists ids d, update_all strs (new_Dict 0) = Ret ids d /\
    ids !! i = Some (StringDict_GetID s) /\
    StringDict_get (StringDict_GetID s) d = Ret s d.
Proof.
  destruct (update_all_spec (new_Dict 0) ∅ strs Hlen (new_Dict_ok 0)) as (d & Hr & Hok).
  do 2 eexists. split_and!; [exact Hr | by rewrite list_lookup_fmap, Hs |].
  assert (foldl (flip id_put) ∅ strs !! StringDict_GetID s = Some s) as E by (apply foldl_id_put; [done | left; by eapply list_elem_of_lookup_2 | done]).
  unfold StringDict_get. rewrite (Dict_getString_spec _ _ _ Hok); [by rewrite E |]. unfold short_at. rewrite E. rewrite Forall_lookup in Hlen. by apply (Hlen i).
Qed.

Lemma StringDict_interns_witness :
  exists ids d, update_all [[104; 105]; [98; 121; 101]; []; [104; 105]]%Z (new_Dict 0)
      = Ret ids d /\
    ids !! 1 = Some (StringDict_GetID [98; 121; 101]%Z) /\
    StringDict_get (StringDict_GetID [98; 121; 101]%Z) d = Ret [98; 121; 101]%Z d.
Proof.
  apply (StringDict_interns [[104; 105]; [98; 121; 101]; []; [104; 105]]%Z).
  - by repeat constructor.
  - done.
  - by vm_compute.
  - intros s' Hs'.
    repeat (apply elem_of_cons in Hs' as [-> | Hs']; [by vm_compute |]).
    destruct (proj1 (elem_of_nil _) Hs').
Defined.

(** The hash of the reference implementation of MurmurHash3 on known inputs. *)
Example murmur3_hash_empty : murmur3_hash [] 0 = 0%Z.
Proof. by vm_compute. Qed.
Example murmur3_hash_test :
  murmur3_hash [116; 101; 115; 116]%Z 0x9747b28c = 0x704b81dc%Z.
Proof. by vm_compute. Qed.
