(* ===== verification/HashMultimap.v ===== *)
(** * HashMultimap

    [src/include/datastruct/hash_multimap.h]: a bucket table from a key to a
    sorted array of values, with the count [_elements] of all values.  It has
    the fields of [Dict] and that count.  Values are ordered by
    [V::operator<], which may compare a part of the value only (as
    [Pair<K, V>] does): the key function [vkey].

    [HashMultimap_refines_maps]: on bulk arguments without repetitions, it is
    a finite map from keys to finite maps of values, with what [getElements]
    reports. *)

From S2P Require Import Prelude SortedVec HashBuckets ValueHeap Dict.
From stdpp Require Import base list list_numbers numbers option sorting gmap fin_maps.
From Stdlib Require Import ZArith Lia.

Section arrays.
Context {V VK : Type} `{StrictOrd VK, Countable VK} (vkey : V -> VK).

(** [std::set<V>::insert]: no effect when an equivalent value is there. *)
Definition std_set_insert (v : V) (s : list V) : list V :=
  match binarySearch vkey s (vkey v) with
  | Some _ => s
  | None => sortLast vkey (s ++ [v]) (length (s ++ [v]))
  end.

(** The loop of the bulk [insert]: found values are assigned in place, the
    others collected in [news]. *)
Fixpoint bulk_loop (v : list V) (val news : list V) : list V * list V :=
  match v with
  | [] => (val, news)
  | x :: v =>
    match binarySearch vkey val (vkey x) with
    | None => bulk_loop v val (std_set_insert x news)
    | Some iit => bulk_loop v (<[iit := x]> val) news
    end
  end.

(** A sorted array as a finite map. *)
Definition amap (l : list V) : gmap VK V := list_to_map ((fun v => (vkey v, v)) <$> l).

Lemma amap_keys (l : list V) : fst <$> ((fun v => (vkey v, v)) <$> l) = vkey <$> l.
Proof. rewrite <- list_fmap_compose. by apply list_fmap_ext. Qed.

Lemma amap_perm l1 l2 : l1 ≡ₚ l2 -> NoDup (vkey <$> l1) -> amap l1 = amap l2.
Proof.
  intros Hp Hd. apply list_to_map_proper; [by rewrite amap_keys |]. by rewrite Hp.
Qed.

Lemma amap_lookup l i v :
  sorted vkey l -> l !! i = Some v -> amap l !! vkey v = Some v.
Proof.
  intros Hs Hi. apply elem_of_list_to_map_1.
  - rewrite amap_keys. by apply sorted_NoDup.
  - apply list_elem_of_fmap. exists v. split; [done |]. by eapply list_elem_of_lookup_2.
Qed.

Lemma amap_None l k : k ∉ (vkey <$> l) -> amap l !! k = None.
Proof. intros Hk. apply not_elem_of_list_to_map_1. by rewrite amap_keys. Qed.

Lemma size_amap l : NoDup (vkey <$> l) -> size (amap l) = length l.
Proof.
  intros Hd. rewrite <- (length_map_to_list (M := gmap VK)). unfold amap.
  rewrite map_to_list_to_map by (by rewrite amap_keys). by rewrite length_fmap.
Qed.

(** The search in an array: what it finds and what the update does. *)
Lemma array_search l x : sorted vkey l ->
  match binarySearch vkey l (vkey x) with
  | Some i => exists y, (l !! i = Some y) /\ vkey y = vkey x /\
      amap l !! vkey x = Some y /\ sorted vkey (<[i := x]> l) /\
      amap (<[i := x]> l) = <[vkey x := x]> (amap l)
  | None => amap l !! vkey x = None /\ (vkey x ∉ (vkey <$> l)) /\
      sorted vkey (sortLast vkey (l ++ [x]) (length (l ++ [x]))) /\
      amap (sortLast vkey (l ++ [x]) (length (l ++ [x]))) = <[vkey x := x]> (amap l) /\
      sortLast vkey (l ++ [x]) (length (l ++ [x])) ≡ₚ x :: l
  end.
Proof.
  intros Hs. pose proof (sorted_msorted _ _ Hs) as Hm.
  destruct (binarySearch vkey l (vkey x)) as [i |] eqn:Hb.
  - apply binarySearch_Some in Hb as (y & Hi & Hk); [| done].
    pose proof (lookup_lt_Some _ _ _ Hi) as Hlt.
    assert (sorted vkey (<[i := x]> l)) as Hs'.
    { apply (sorted_fmap_keys vkey). rewrite list_fmap_insert, list_insert_id.
      - by apply (sorted_fmap_keys vkey).
      - by rewrite list_lookup_fmap, Hi, <- Hk. }
    exists y. split_and!; [done | done | | done |].
    + rewrite <- Hk. by eapply amap_lookup.
    + pose proof (take_drop_middle l i y Hi) as Hl.
      assert (<[i := x]> l ≡ₚ x :: take i l ++ drop (S i) l) as Hp1.
      { rewrite insert_take_drop by done. by rewrite <- Permutation_middle. }
      assert (l ≡ₚ y :: take i l ++ drop (S i) l) as Hp2.
      { rewrite <- Hl at 1. by rewrite <- Permutation_middle. }
      rewrite (amap_perm _ _ Hp1), (amap_perm _ _ Hp2) by (by apply sorted_NoDup).
      unfold amap. simpl. by rewrite Hk, insert_insert_eq.
  - apply binarySearch_None in Hb; [| done].
    pose proof (sortLast_perm vkey l x Hm) as Hp.
    assert (sortLast vkey (l ++ [x]) (length (l ++ [x])) ≡ₚ x :: l) as Hp'.
    { rewrite Hp. by rewrite <- Permutation_cons_append. }
    assert (sorted vkey (sortLast vkey (l ++ [x]) (length (l ++ [x])))) as Hs'
      by (by apply sortLast_sorted).
    split_and!; [by apply amap_None | done | done | | done].
    rewrite (amap_perm _ _ Hp') by (by apply sorted_NoDup). done.
Qed.

Lemma set_keys (l : list V) i x y :
  l !! i = Some y -> vkey y = vkey x -> vkey <$> <[i := x]> l = vkey <$> l.
Proof.
  intros Hi Hk. rewrite list_fmap_insert, list_insert_id; [done |].
  by rewrite list_lookup_fmap, Hi, <- Hk.
Qed.

(** The bulk loop overrides the array's map, on distinct keys. *)
Lemma bulk_loop_spec v val news :
  sorted vkey val -> sorted vkey news -> NoDup (vkey <$> v) ->
  (forall k, k ∈ (vkey <$> v) -> k ∉ (vkey <$> news)) ->
  (forall k, k ∈ (vkey <$> news) -> k ∉ (vkey <$> val)) ->
  exists val' news', bulk_loop v val news = (val', news') /\
    vkey <$> val' = vkey <$> val /\ sorted vkey val' /\ sorted vkey news' /\
    (forall k, k ∈ (vkey <$> news') -> k ∉ (vkey <$> val)) /\
    amap val' ∪ amap news' = amap v ∪ (amap val ∪ amap news).
Proof.
  revert val news. induction v as [| x v IH]; intros val news Hsv Hsn Hd Hn Hv; simpl.
  { exists val, news. split_and!; auto.
    change (amap []) with (∅ : gmap VK V). by rewrite (left_id_L ∅ (∪)). }
  simpl in Hd, Hn. apply NoDup_cons in Hd as [Hx Hd].
  assert (amap v !! vkey x = None) as Hxv by (by apply amap_None).
  pose proof (array_search val x Hsv) as Hsr.
  destruct (binarySearch vkey val (vkey x)) as [i |].
  - destruct Hsr as (y & Hi & Hk & _ & Hs' & Ha).
    pose proof (set_keys val i x y Hi Hk) as Hkeys.
    destruct (IH (<[i := x]> val) news) as (val' & news' & -> & ? & ? & ? & ? & Hm);
      [done | done | done | | |].
    + intros k Hk'. apply Hn. by right.
    + rewrite Hkeys. done.
    + exists val', news'. rewrite Hkeys in *. split_and!; auto.
      rewrite Hm, Ha, <- insert_union_l, <- insert_union_r by done.
      rewrite insert_union_l. done.
  - destruct Hsr as (Hnone & Hxk & _).
    unfold std_set_insert. pose proof (array_search news x Hsn) as Hsr'.
    destruct (binarySearch vkey news (vkey x)) as [j |].
    { destruct Hsr' as (y & Hj & Hk & _). destruct (Hn (vkey x)); [by left |].
      rewrite <- Hk. apply list_elem_of_fmap_2. by eapply list_elem_of_lookup_2. }
    destruct Hsr' as (_ & Hxn & Hs' & Ha & Hp).
    destruct (IH val (sortLast vkey (news ++ [x]) (length (news ++ [x]))))
      as (val' & news' & -> & ? & ? & ? & ? & Hm); [done | done | done | | |].
    + intros k Hk. rewrite Hp. simpl. rewrite elem_of_cons. intros [-> | Hk'].
      * done.
      * by apply (Hn k); [right |].
    + intros k. rewrite Hp. simpl. rewrite elem_of_cons. intros [-> | Hk]; [done |].
      by apply Hv.
    + exists val', news'. split_and!; auto.
      rewrite Hm, Ha, <- (insert_union_r (amap val)), <- insert_union_r by done.
      rewrite insert_union_l. done.
Qed.

(** The array built by the bulk insertion. *)
Lemma bulk_result v val :
  sorted vkey val -> NoDup (vkey <$> v) ->
  exists val' news', bulk_loop v val [] = (val', news') /\
    length val' = length val /\ sorted vkey val' /\
    sorted vkey (std_sort vkey (val' ++ news')) /\
    amap (std_sort vkey (val' ++ news')) = amap v ∪ amap val /\
    length (std_sort vkey (val' ++ news')) = length val + length news'.
Proof.
  intros Hs Hd. destruct (bulk_loop_spec v val [] Hs) as (val' & news' & He & Hk & Hs' & Hsn & Hdj & Hm);
    [constructor | done | set_solver | set_solver |].
  exists val', news'.
  assert (length val' = length val) as Hl.
  { by rewrite <- (length_fmap vkey val'), Hk, length_fmap. }
  assert (NoDup (vkey <$> val' ++ news')) as Hnd.
  { rewrite fmap_app. apply NoDup_app. rewrite Hk.
    split_and!; try by apply sorted_NoDup.
    intros k Hk' Hk''. by apply (Hdj k). }
  split_and!; [done | done | done | by apply std_sort_sorted | |].
  - rewrite (amap_perm _ (val' ++ news')); [| apply std_sort_perm | by rewrite std_sort_perm].
    unfold amap at 1. rewrite fmap_app, list_to_map_app. fold (amap val') (amap news').
    rewrite Hm. change (amap []) with (∅ : gmap VK V).
    by rewrite (right_id_L ∅ (∪)).
  - rewrite std_sort_perm, length_app. lia.
Qed.

End arrays.

Section multimap.
Context {K V VK : Type} `{StrictOrd K, PosHash K, Countable K}.
Context `{StrictOrd VK, Countable VK} (vkey : V -> VK).

Record HashMultimap := mk_HashMultimap {
  h_dict : @Dict K V;      (* _size, _total, _datas, _values and the heap *)
  h_elements : Z           (* uint64_t _elements *)
}.

Definition new_HashMultimap (size : Z) : HashMultimap :=
  mk_HashMultimap (new_Dict size) 0.

Definition dd {A} (m : M (@Dict K V) A) : M HashMultimap A := fun h =>
  match m (h_dict h) with
  | Ret a d => Ret a (mk_HashMultimap d (h_elements h))
  | Throw e d => Throw e (mk_HashMultimap d (h_elements h))
  | Undef u => Undef u
  end.

Definition add_elements (n : Z) : M HashMultimap unit :=
  modify (fun h => mk_HashMultimap (h_dict h) (u64 (h_elements h + n))).

(** [get(k, duplicate)] and [get(k, vector)] are those of [Dict]. *)
Definition HashMultimap_get (k : K) (duplicate : bool) : M HashMultimap shared_array :=
  dd (Dict_get k duplicate).

Definition HashMultimap_get_vector (k : K) : M HashMultimap (option (list V)) :=
  dd (Dict_get_vector k).

(** The array of the node an iterator points to, [it->val] to
    [it->val + it->size]. *)
Definition node_values (b : list (K * (nat * ptr))) (it : nat) :
    M HashMultimap (ptr * list V) :=
  n ← dd (tb (node_at b it));
  let '(size, val) := snd n in
  if fits_int size then l ← dd (read_array val size); mret (val, l) else undef BadIndex.

(** [get(k, v)]: on success [v] becomes the stored value. *)
Definition HashMultimap_get_value (k : K) (v : V) : M HashMultimap (option V) :=
  '(pos, b, it) ← dd (tb (tbl_find k));
  match it with
  | None => mret None
  | Some it =>
    '(val, l) ← node_values b it;
    match binarySearch vkey l (vkey v) with
    | Some iit => mret (l !! iit)
    | None => mret None
    end
  end.

Definition HashMultimap_exists (k : K) : M HashMultimap bool := dd (Dict_exists k).

Definition HashMultimap_exists_value (k : K) (v : V) : M HashMultimap bool :=
  '(pos, b, it) ← dd (tb (tbl_find k));
  match it with
  | None => mret false
  | Some it =>
    '(val, l) ← node_values b it;
    mret (match binarySearch vkey l (vkey v) with Some _ => true | None => false end)
  end.

Definition rehash_if_needed : M HashMultimap unit :=
  dd (tb (modify (fun t => if needRehash t then rehash t else t))).

Definition HashMultimap_insert (k : K) (v : V) : M HashMultimap bool :=
  rehash_if_needed;;
  '(pos, b, it) ← dd (tb (tbl_find k));
  match it with
  | None =>
    val ← dd (alloc [v]);
    dd (tb (tbl_push pos b (k, (1, val))));;
    add_elements 1;;
    mret true
  | Some it =>
    '(val, l) ← node_values b it;
    match binarySearch vkey l (vkey v) with
    | Some iit => dd (mm BadIndex (fun m => store m val (<[iit := v]> l)));; mret true
    | None =>
      if fits_int (length l + 1) then
        datas ← dd (alloc (sortLast vkey (l ++ [v]) (length (l ++ [v]))));
        dd (mm BadFree (fun m => release m val));;
        dd (tb (tbl_assign pos b it (length l + 1, datas)));;
        add_elements 1;;
        mret true
      else undef SignedOverflow
    end
  end.

(** A key that is not there: [size] values copied and sorted; [new] of a
    negative [node.size] throws. *)
Definition push_values (pos : nat) (b : list (K * (nat * ptr))) (k : K) (v : list V) :
    M HashMultimap bool :=
  if fits_int (length v) then
    val ← dd (alloc (std_sort vkey v));
    dd (tb (tbl_push pos b (k, (length v, val))));;
    add_elements (Z.of_nat (length v));;
    mret true
  else throw BadArray.

(** [std::sort(datas, datas + it->size)] of a negative size is undefined. *)
Definition HashMultimap_insert_array (k : K) (v : list V) : M HashMultimap bool :=
  rehash_if_needed;;
  '(pos, b, it) ← dd (tb (tbl_find k));
  match it with
  | None => push_values pos b k v
  | Some it =>
    '(val, l) ← node_values b it;
    let '(l', news) := bulk_loop vkey v l [] in
    dd (mm BadIndex (fun m => store m val l'));;
    if fits_int (length l + length news) then
      datas ← dd (alloc (std_sort vkey (l' ++ news)));
      dd (mm BadFree (fun m => release m val));;
      dd (tb (tbl_assign pos b it (length l + length news, datas)));;
      add_elements (Z.of_nat (length news));;
      mret true
    else undef BadIndex
  end.

Definition HashMultimap_set (k : K) (v : list V) : M HashMultimap bool :=
  rehash_if_needed;;
  '(pos, b, it) ← dd (tb (tbl_find k));
  match it with
  | None => push_values pos b k v
  | Some it =>
    n ← dd (tb (node_at b it));
    if fits_int (length v) then
      datas ← dd (alloc (std_sort vkey v));
      dd (mm BadFree (fun m => release m (snd (snd n))));;
      dd (tb (tbl_assign pos b it (length v, datas)));;
      add_elements (Z.of_nat (length v));;
      mret true
    else undef BadIndex
  end.

Definition HashMultimap_del (k : K) : M HashMultimap bool :=
  '(pos, b, it) ← dd (tb (tbl_find k));
  match it with
  | None => mret false
  | Some it =>
    n ← dd (tb (node_at b it));
    dd (mm BadFree (fun m => release m (snd (snd n))));;
    add_elements (- Z.of_nat (fst (snd n)));;
    dd (tb (tbl_erase pos b it));;
    mret true
  end.

Definition HashMultimap_rehash : M HashMultimap unit := dd Dict_rehash.
Definition HashMultimap_getTotal : M HashMultimap Z := dd Dict_getTotal.
Definition HashMultimap_getElements : M HashMultimap Z := h ← get; mret (h_elements h).

Definition HashMultimap_rforeach {S} (cb : K -> nat * ptr -> S -> S * bool) (s : S) :
    M HashMultimap S := fun h =>
  Ret (fst (foreach_buckets (fun n => cb (fst n) (snd n))
              (default [] (t_datas (d_tbl (h_dict h)))) s)) h.

(** [freeDatas]: nodes of size 0 are skipped. *)
Fixpoint free_sized_nodes (ns : list (K * (nat * ptr))) : M HashMultimap unit :=
  match ns with
  | [] => mret ()
  | n :: ns =>
    (if decide (fst (snd n) = 0) then mret ()
     else dd (mm BadFree (fun m => release m (snd (snd n)))));;
    free_sized_nodes ns
  end.

Definition HashMultimap_freeDatas : M HashMultimap unit :=
  h ← get;
  match t_datas (d_tbl (h_dict h)) with
  | None => mret ()
  | Some ds =>
    free_sized_nodes (concat ds);;
    dd (tb (modify (fun t => mk_table (t_size t) (t_total t) None)))
  end.

(** ** Invariant: as for [Dict], the arrays are sorted without repetition and
    have less than 2^31 values, and [_elements] is [e] *)

Definition hmm_ok (h : HashMultimap) (cs : gmap K (list V)) (e : Z) : Prop :=
  wf_table (d_tbl (h_dict h)) /\ owned (d_mem (h_dict h)) (abs (d_tbl (h_dict h))) cs /\
  map_Forall (fun _ l => sorted vkey l /\ fits_int (length l) = true) cs /\ h_elements h = u64 e.

(** The map of maps that the arrays stand for. *)
Definition maps_of (cs : gmap K (list V)) : gmap K (gmap VK V) := amap vkey <$> cs.

Lemma dd_bind {A B} (m : M (@Dict K V) A) (k : A -> M HashMultimap B) h a d' :
  m (h_dict h) = Ret a d' -> (dd m ≫= k) h = k a (mk_HashMultimap d' (h_elements h)).
Proof. intros Hm. unfold dd, mbind, M_bind. by rewrite Hm. Qed.

Lemma tb_Ret {A} (m : M (table K (nat * ptr)) A) (d : @Dict K V) a t' :
  m (d_tbl d) = Ret a t' -> tb m d = Ret a (mk_Dict t' (d_mem d)).
Proof. intros Hm. unfold tb. by rewrite Hm. Qed.

Lemma mm_Ret u f (d : @Dict K V) m' :
  f (d_mem d) = Some m' -> mm u f d = Ret tt (mk_Dict (d_tbl d) m').
Proof. intros Hm. unfold mm. by rewrite Hm. Qed.

Lemma hmm_eta h : mk_HashMultimap (mk_Dict (d_tbl (h_dict h)) (d_mem (h_dict h)))
  (h_elements h) = h.
Proof. by destruct h as [[]]. Qed.

(** The search, as in [Dict] but with empty arrays allowed. *)
Lemma hmm_find h cs e k : hmm_ok h cs e ->
  exists pos b oit,
    tb (tbl_find k) (h_dict h) = Ret (pos, b, oit) (h_dict h) /\
    match oit with
    | None => abs (d_tbl (h_dict h)) !! k = None /\ cs !! k = None /\
        forall p, exists t', tbl_push pos b (k, p) (d_tbl (h_dict h)) = Ret tt t' /\
          wf_table t' /\ abs t' = <[k := p]> (abs (d_tbl (h_dict h)))
    | Some it => exists size val l,
        tb (node_at b it) (h_dict h) = Ret (k, (size, val)) (h_dict h) /\
        node_values b it h = Ret (val, l) h /\
        abs (d_tbl (h_dict h)) !! k = Some (size, val) /\ cs !! k = Some l /\
        length l = size /\ sorted vkey l /\ fits_int (length l) = true /\
        (forall p', exists t', tbl_assign pos b it p' (d_tbl (h_dict h)) = Ret tt t' /\
           wf_table t' /\ abs t' = <[k := p']> (abs (d_tbl (h_dict h)))) /\
        (exists t', tbl_erase pos b it (d_tbl (h_dict h)) = Ret tt t' /\
           wf_table t' /\ abs t' = delete k (abs (d_tbl (h_dict h))))
    end.
Proof.
  intros (Hwf & Hown & Hs & _).
  destruct (tbl_find_spec (d_tbl (h_dict h)) k Hwf) as (pos & b & oit & Hf & Hc).
  exists pos, b, oit. split; [rewrite (tb_Ret _ _ _ _ Hf); by rewrite dict_eta |].
  destruct oit as [it |].
  - destruct Hc as ([size val] & Hi & Habs & Ha & t' & He & Hwe & Hae & _).
    destruct (owned_lookup _ _ _ _ _ Hown Habs) as (l & Hl & Hv).
    assert (tb (node_at b it) (h_dict h) = Ret (k, (size, val)) (h_dict h)) as Hn.
    { unfold tb, node_at. rewrite Hi. by rewrite dict_eta. }
    destruct (Hs k l Hl) as [Hsl Hfl]. assert (length l = size) as Hsz by apply Hv.
    exists size, val, l. split_and!; eauto.
    + unfold node_values. rewrite (dd_bind _ _ _ _ _ Hn). cbn [snd]. assert (fits_int size = true) as -> by (by rewrite <- Hsz).
      rewrite (dd_bind _ _ _ l (h_dict h)); [by destruct h |].
      simpl. unfold read_array. by rewrite (valid_load _ _ _ _ Hv).
    + intros p'. destruct (Ha p') as (t1 & ? & ? & ? & _). by exists t1.
  - destruct Hc as [Hn Hp]. split_and!; [done | by eapply owned_none |].
    intros p. destruct (Hp p) as (t1 & ? & ? & ? & _). by exists t1.
Qed.

(** The two ways a node gets a new array. *)
Lemma hmm_push h cs e k pos b l n d :
  hmm_ok h cs e -> abs (d_tbl (h_dict h)) !! k = None ->
  (forall p, exists t', tbl_push pos b (k, p) (d_tbl (h_dict h)) = Ret tt t' /\
     wf_table t' /\ abs t' = <[k := p]> (abs (d_tbl (h_dict h)))) ->
  sorted vkey l -> fits_int (length l) = true -> n = length l ->
  exists h', (val ← dd (alloc l);
              dd (tb (tbl_push pos b (k, (n, val))));;
              add_elements d;; mret true) h = Ret true h' /\
    hmm_ok h' (<[k := l]> cs) (e + d).
Proof.
  intros (Hwf & Ho & Hs & He) Habs Hp Hl Hfl ->.
  destruct (new_array (d_mem (h_dict h)) l) as [p m1] eqn:Hna.
  destruct (Hp (length l, p)) as (t' & Hpu & Hwf' & Habs').
  erewrite dd_bind by (unfold alloc; rewrite Hna; reflexivity).
  erewrite dd_bind by (apply tb_Ret; exact Hpu).
  eexists. split; [reflexivity |].
  split_and!; [done | | by apply map_Forall_insert_2 | by simpl; rewrite He, u64_add].
  simpl. rewrite Habs'. unfold new_array in Hna. injection Hna as <- <-.
  apply owned_add; [done | done | apply fresh_heap].
Qed.

Lemma hmm_replace h cs e k pos b it size val l n d :
  hmm_ok h cs e -> abs (d_tbl (h_dict h)) !! k = Some (size, val) ->
  (forall p', exists t', tbl_assign pos b it p' (d_tbl (h_dict h)) = Ret tt t' /\
     wf_table t' /\ abs t' = <[k := p']> (abs (d_tbl (h_dict h)))) ->
  sorted vkey l -> fits_int (length l) = true -> n = length l ->
  exists h', (datas ← dd (alloc l);
              dd (mm BadFree (fun m => release m val));;
              dd (tb (tbl_assign pos b it (n, datas)));;
              add_elements d;; mret true) h = Ret true h' /\
    hmm_ok h' (<[k := l]> cs) (e + d).
Proof.
  intros (Hwf & Ho & Hs & He) Habs Ha Hl Hfl ->.
  destruct (new_array (d_mem (h_dict h)) l) as [p m1] eqn:Hna.
  destruct (owned_replace _ _ _ k _ l p m1 Ho Habs Hna) as (m2 & Hrel & Ho').
  destruct (Ha (length l, p)) as (t' & Has & Hwf' & Habs').
  erewrite dd_bind by (unfold alloc; rewrite Hna; reflexivity).
  erewrite dd_bind by (apply mm_Ret; exact Hrel).
  erewrite dd_bind by (apply tb_Ret; exact Has).
  eexists. split; [reflexivity |].
  split_and!; [done | | by apply map_Forall_insert_2 | by simpl; rewrite He, u64_add].
  simpl. by rewrite Habs'.
Qed.

(** Values written over a node's array. *)
Lemma hmm_store h cs e k size val l :
  hmm_ok h cs e -> abs (d_tbl (h_dict h)) !! k = Some (size, val) ->
  sorted vkey l -> fits_int (length l) = true -> length l = size ->
  exists h', dd (mm BadIndex (fun m => store m val l)) h = Ret tt h' /\
    hmm_ok h' (<[k := l]> cs) e /\ d_tbl (h_dict h') = d_tbl (h_dict h).
Proof.
  intros (Hwf & Ho & Hs & He) Habs Hl Hfl Hlen.
  destruct (owned_store _ _ _ k _ l Ho Habs Hlen) as (m' & Hst & Ho').
  eexists. split; [unfold dd; erewrite mm_Ret by exact Hst; reflexivity |].
  split; [| done]. split_and!; [done | done | by apply map_Forall_insert_2 | done].
Qed.

Lemma hmm_rehash h cs e : hmm_ok h cs e -> exists h',
  rehash_if_needed h = Ret tt h' /\ hmm_ok h' cs e.
Proof.
  intros (Hwf & Ho & Hs & He). destruct (rehash_wf _ Hwf) as [Hwf' Habs].
  eexists. split; [reflexivity |]. cbn -[needRehash rehash].
  rewrite rehash_guard_eq. split_and!; [done | | done | done]. simpl. by rewrite Habs.
Qed.

(** *** The operations *)

(** The values of a key. *)
Definition values (cs : gmap K (list V)) (k : K) : list V := default [] (cs !! k).

Lemma hmm_same h : mk_HashMultimap (h_dict h) (h_elements h) = h.
Proof. by destruct h. Qed.

Lemma size_sorted l : sorted vkey l -> size (amap vkey l) = length l.
Proof. intros Hs. by apply size_amap, sorted_NoDup. Qed.

(** One value: it replaces an equivalent one or is added, which overflows the
    [int] at 2^31 - 1 values. *)
Lemma HashMultimap_insert_spec h cs e k v : hmm_ok h cs e ->
  if fits_int (size (<[vkey v := v]> (amap vkey (values cs k)))) then
    exists h' l', HashMultimap_insert k v h = Ret true h' /\
      hmm_ok h' (<[k := l']> cs)
        (e + Z.of_nat (length l') - Z.of_nat (length (values cs k))) /\
      amap vkey l' = <[vkey v := v]> (amap vkey (values cs k))
  else HashMultimap_insert k v h = Undef SignedOverflow.
Proof.
  intros Hh. destruct (hmm_rehash h cs e Hh) as (h1 & Hr & Hh1).
  unfold HashMultimap_insert, values. rewrite (bind_Ret _ _ _ _ _ Hr). clear h Hh Hr.
  destruct (hmm_find h1 cs e k Hh1) as (pos & b & [it |] & Hf & Hc);
    rewrite (dd_bind _ _ _ _ _ Hf), hmm_same.
  - destruct Hc as (size & val & l & Hn & Hnv & Habs & Hcs & Hlen & Hs & Hfl & Ha & _).
    rewrite (bind_Ret _ _ _ _ _ Hnv), Hcs. cbn [from_option id].
    pose proof (array_search vkey l v Hs) as Hsr.
    destruct (binarySearch vkey l (vkey v)) as [i |].
    + destruct Hsr as (y & Hi & _ & _ & Hs' & Hm).
      rewrite <- Hm, size_sorted, length_insert, Hfl by done.
      destruct (hmm_store h1 cs e k size val (<[i := v]> l) Hh1 Habs Hs')
        as (h' & Hst & Hh' & _); [by rewrite length_insert | by rewrite length_insert |].
      exists h', (<[i := v]> l). rewrite (bind_Ret _ _ _ _ _ Hst), length_insert.
      by replace (e + Z.of_nat (length l) - Z.of_nat (length l))%Z with e by lia.
    + destruct Hsr as (_ & _ & Hs' & Hm & Hp).
      pose proof (Permutation_length Hp) as Hpl. simpl in Hpl.
      rewrite <- Hm, size_sorted, Hpl, Nat.add_1_r by done.
      destruct (fits_int (S (length l))) eqn:Hfit; [| done].
      destruct (hmm_replace h1 cs e k pos b it size val _ (S (length l)) 1 Hh1 Habs Ha Hs')
        as (h' & Hr & Hh'); [by rewrite Hpl | done |].
      exists h', (sortLast vkey (l ++ [v]) (length (l ++ [v]))).
      split_and!; [exact Hr | | done]. rewrite Hpl.
      by replace (e + Z.of_nat (S (length l)) - Z.of_nat (length l))%Z
        with (e + 1)%Z by lia.
  - destruct Hc as (Habs & Hcs & Hp). rewrite Hcs. cbn [from_option id].
    change (<[vkey v := v]> (amap vkey [])) with (amap vkey [v]).
    rewrite size_sorted by (repeat constructor). change (fits_int (length [v])) with true.
    destruct (hmm_push h1 cs e k pos b [v] 1 1 Hh1 Habs Hp) as (h' & Hr & Hh');
      [repeat constructor | done | done |].
    exists h', [v]. split_and!; [exact Hr | | done]. simpl length.
    by replace (e + Z.of_nat 1 - Z.of_nat 0)%Z with (e + 1)%Z by lia.
Qed.

(** What becomes of a call with too many values. *)
Definition refused (o : outcome HashMultimap bool) (cs : gmap K (list V)) (e : Z) : Prop :=
  o = Undef BadIndex \/ exists h', o = Throw BadArray h' /\ hmm_ok h' cs e.

Lemma push_values_spec h cs e k v pos b :
  hmm_ok h cs e -> abs (d_tbl (h_dict h)) !! k = None ->
  (forall p, exists t', tbl_push pos b (k, p) (d_tbl (h_dict h)) = Ret tt t' /\
     wf_table t' /\ abs t' = <[k := p]> (abs (d_tbl (h_dict h)))) ->
  NoDup (vkey <$> v) ->
  if fits_int (length v) then
    exists h', push_values pos b k v h = Ret true h' /\
      hmm_ok h' (<[k := std_sort vkey v]> cs) (e + Z.of_nat (length v))
  else push_values pos b k v h = Throw BadArray h.
Proof.
  intros Hh Habs Hp Hd. unfold push_values. destruct (fits_int (length v)) eqn:Hf; [| done].
  apply hmm_push; [done | done | done | by apply std_sort_sorted | by rewrite length_std_sort |].
  by rewrite std_sort_perm.
Qed.

Lemma amap_sort v : NoDup (vkey <$> v) -> amap vkey (std_sort vkey v) = amap vkey v.
Proof.
  intros Hd. apply amap_perm; [apply std_sort_perm | by rewrite std_sort_perm].
Qed.

Lemma HashMultimap_insert_array_spec h cs e k v : hmm_ok h cs e -> NoDup (vkey <$> v) ->
  if fits_int (size (amap vkey v ∪ amap vkey (values cs k))) then
    exists h' l', HashMultimap_insert_array k v h = Ret true h' /\
      hmm_ok h' (<[k := l']> cs)
        (e + Z.of_nat (length l') - Z.of_nat (length (values cs k))) /\
      amap vkey l' = amap vkey v ∪ amap vkey (values cs k)
  else refused (HashMultimap_insert_array k v h) cs e.
Proof.
  intros Hh Hd. destruct (hmm_rehash h cs e Hh) as (h1 & Hr & Hh1).
  unfold HashMultimap_insert_array, values. rewrite (bind_Ret _ _ _ _ _ Hr). clear h Hh Hr.
  destruct (hmm_find h1 cs e k Hh1) as (pos & b & [it |] & Hf & Hc);
    rewrite (dd_bind _ _ _ _ _ Hf), hmm_same.
  - destruct Hc as (size & val & l & Hn & Hnv & Habs & Hcs & Hlen & Hs & Hfl & Ha & _).
    rewrite (bind_Ret _ _ _ _ _ Hnv), Hcs. cbn [from_option id].
    destruct (bulk_result vkey v l Hs Hd) as (l' & news & -> & Hl' & Hs' & Hsl & Hm & Hlr).
    rewrite <- Hm, size_sorted, Hlr by done.
    destruct (hmm_store h1 cs e k size val l' Hh1 Habs Hs') as (h2 & Hst & Hh2 & Ht);
      [by rewrite Hl' | lia |].
    rewrite (bind_Ret _ _ _ _ _ Hst). rewrite <- Ht in Habs, Ha.
    destruct (fits_int (length l + length news)) eqn:Hfit; [| by left].
    destruct (hmm_replace h2 _ e k pos b it size val _ (length l + length news)
      (Z.of_nat (length news)) Hh2 Habs Ha Hsl) as (h' & Hr & Hh'); [by rewrite Hlr | done |].
    exists h', (std_sort vkey (l' ++ news)). split_and!; [exact Hr | | done].
    rewrite insert_insert_eq in Hh'. rewrite Hlr.
    by replace (e + Z.of_nat (length l + length news) - Z.of_nat (length l))%Z
      with (e + Z.of_nat (length news))%Z by lia.
  - destruct Hc as (Habs & Hcs & Hp). rewrite Hcs. cbn [from_option id].
    change (amap vkey []) with (∅ : gmap VK V). rewrite (right_id_L ∅ (∪)), size_amap by done.
    pose proof (push_values_spec h1 cs e k v pos b Hh1 Habs Hp Hd) as E.
    destruct (fits_int (length v)); [| right; by exists h1]. destruct E as (h' & Hr & Hh').
    exists h', (std_sort vkey v). split_and!; [exact Hr | | by apply amap_sort].
    rewrite length_std_sort. simpl length.
    by replace (e + Z.of_nat (length v) - Z.of_nat 0)%Z
      with (e + Z.of_nat (length v))%Z by lia.
Qed.

(** [set(k, v, size)] counts the new values and keeps counting the old. *)
Lemma HashMultimap_set_spec h cs e k v : hmm_ok h cs e -> NoDup (vkey <$> v) ->
  if fits_int (size (amap vkey v)) then
    exists h' l', HashMultimap_set k v h = Ret true h' /\
      hmm_ok h' (<[k := l']> cs) (e + Z.of_nat (length l')) /\
      amap vkey l' = amap vkey v
  else refused (HashMultimap_set k v h) cs e.
Proof.
  intros Hh Hd. destruct (hmm_rehash h cs e Hh) as (h1 & Hr & Hh1).
  unfold HashMultimap_set. rewrite (bind_Ret _ _ _ _ _ Hr), size_amap by done. clear h Hh Hr.
  destruct (hmm_find h1 cs e k Hh1) as (pos & b & [it |] & Hf & Hc);
    rewrite (dd_bind _ _ _ _ _ Hf), hmm_same.
  - destruct Hc as (size & val & l & Hn & Hnv & Habs & Hcs & Hlen & Hs & Hfl & Ha & _).
    rewrite (dd_bind _ _ _ _ _ Hn), hmm_same.
    destruct (fits_int (length v)) eqn:Hfit; [| by left].
    destruct (hmm_replace h1 cs e k pos b it size val (std_sort vkey v) (length v)
      (Z.of_nat (length v)) Hh1 Habs Ha) as (h' & Hr & Hh');
      [by apply std_sort_sorted | by rewrite length_std_sort | by rewrite length_std_sort |].
    exists h', (std_sort vkey v).
    split_and!; [exact Hr | by rewrite length_std_sort | by apply amap_sort].
  - destruct Hc as (Habs & Hcs & Hp).
    pose proof (push_values_spec h1 cs e k v pos b Hh1 Habs Hp Hd) as E.
    destruct (fits_int (length v)); [| right; by exists h1]. destruct E as (h' & Hr & Hh').
    exists h', (std_sort vkey v).
    split_and!; [exact Hr | by rewrite length_std_sort | by apply amap_sort].
Qed.

Lemma HashMultimap_del_spec h cs e k : hmm_ok h cs e -> exists h',
  HashMultimap_del k h = Ret (bool_decide (is_Some (cs !! k))) h' /\
  hmm_ok h' (delete k cs) (e - Z.of_nat (length (values cs k))).
Proof.
  intros Hh. unfold HashMultimap_del, values.
  destruct (hmm_find h cs e k Hh) as (pos & b & [it |] & Hf & Hc);
    rewrite (dd_bind _ _ _ _ _ Hf), hmm_same.
  - destruct Hc as (size & val & l & Hn & _ & Habs & Hcs & Hlen & _ & _ & _ & t' & He & Hwf' & Habs').
    destruct Hh as (Hwf & Ho & Hs & Hel). rewrite (dd_bind _ _ _ _ _ Hn), hmm_same.
    destruct (owned_release _ _ _ k _ Ho Habs) as (m' & Hr & Ho').
    erewrite dd_bind by (apply mm_Ret; exact Hr).
    erewrite bind_Ret by reflexivity.
    erewrite dd_bind by (apply tb_Ret; exact He).
    rewrite Hcs, bool_decide_true by done.
    eexists. split; [reflexivity |]. split_and!; [done | | by apply map_Forall_delete |].
    + simpl. by rewrite Habs'.
    + simpl. rewrite Hel, u64_add. f_equal. simpl. lia.
  - destruct Hc as (_ & Hcs & _). exists h.
    rewrite Hcs, bool_decide_false by (by intros [? ?]).
    rewrite delete_id by done. simpl length. by rewrite Z.sub_0_r.
Qed.

Lemma HashMultimap_get_value_spec h cs e k v : hmm_ok h cs e ->
  HashMultimap_get_value k v h = Ret (amap vkey (values cs k) !! vkey v) h /\
  HashMultimap_exists_value k v h =
    Ret (bool_decide (is_Some (amap vkey (values cs k) !! vkey v))) h.
Proof.
  intros Hh. unfold HashMultimap_get_value, HashMultimap_exists_value, values.
  destruct (hmm_find h cs e k Hh) as (pos & b & [it |] & Hf & Hc);
    rewrite !(dd_bind _ _ _ _ _ Hf), hmm_same.
  - destruct Hc as (size & val & l & Hn & Hnv & Habs & -> & Hlen & Hs & _).
    rewrite !(bind_Ret _ _ _ _ _ Hnv). simpl default.
    pose proof (array_search vkey l v Hs) as Hsr.
    destruct (binarySearch vkey l (vkey v)) as [i |].
    + destruct Hsr as (y & Hi & _ & -> & _). rewrite Hi.
      by rewrite bool_decide_true by done.
    + destruct Hsr as (-> & _). by rewrite bool_decide_false by (by intros [? ?]).
  - destruct Hc as (_ & -> & _). simpl default.
    change (amap vkey []) with (∅ : gmap VK V). rewrite lookup_empty.
    by rewrite bool_decide_false by (by intros [? ?]).
Qed.

Lemma HashMultimap_get_vector_spec h cs e k : hmm_ok h cs e ->
  HashMultimap_get_vector k h = Ret (cs !! k) h.
Proof.
  intros Hh. unfold HashMultimap_get_vector, dd, Dict_get_vector.
  destruct (hmm_find h cs e k Hh) as (pos & b & [it |] & Hf & Hc);
    rewrite (bind_Ret _ _ _ _ _ Hf).
  - destruct Hc as (size & val & l & Hn & _ & Habs & Hcs & _).
    rewrite (bind_Ret _ _ _ _ _ Hn). cbn [snd]. destruct Hh as (_ & Ho & Hs & _).
    destruct (owned_lookup _ _ _ _ _ Ho Habs) as (l' & Hl' & Hv).
    assert (fits_int size = true) as -> by (assert (length l' = size) as <- by apply Hv; by destruct (Hs k l' Hl')).
    unfold read_array, mbind, M_bind. rewrite (valid_load _ _ _ _ Hv), Hcs.
    assert (l' = l) as -> by congruence. by destruct h.
  - destruct Hc as (_ & -> & _). by destruct h.
Qed.

(** ** The specification: a map of maps, and the count reported *)

Inductive hmm_cmd :=
| MGetVector (k : K)
| MGet (k : K) (v : V)
| MExists (k : K) (v : V)
| MInsert (k : K) (v : V)
| MInsertArray (k : K) (v : list V)
| MSet (k : K) (v : list V)
| MDel (k : K)
| MExistsKey (k : K)
| MTotal
| MElements
| MRehash.

Inductive hmm_reply :=
| MR_map (m : option (gmap VK V))
| MR_val (v : option V)
| MR_bool (b : bool)
| MR_num (n : Z)
| MR_unit.

Definition hmm_exec (c : hmm_cmd) : M HashMultimap hmm_reply :=
  match c with
  | MGetVector k => (fun l => MR_map (amap vkey <$> l)) <$> HashMultimap_get_vector k
  | MGet k v => MR_val <$> HashMultimap_get_value k v
  | MExists k v => MR_bool <$> HashMultimap_exists_value k v
  | MInsert k v => MR_bool <$> HashMultimap_insert k v
  | MInsertArray k v => MR_bool <$> HashMultimap_insert_array k v
  | MSet k v => MR_bool <$> HashMultimap_set k v
  | MDel k => MR_bool <$> HashMultimap_del k
  | MExistsKey k => MR_bool <$> HashMultimap_exists k
  | MTotal => MR_num <$> HashMultimap_getTotal
  | MElements => MR_num <$> HashMultimap_getElements
  | MRehash => (fun _ => MR_unit) <$> HashMultimap_rehash
  end.

(** How many values the maps have. *)
Definition value_count (m : gmap K (gmap VK V)) : Z :=
  map_fold (fun _ x n => Z.of_nat (size x) + n)%Z 0%Z m.

(** The abstract state: the maps, and how many values [_elements] counts that
    are not there. *)
Definition maps_exec (c : hmm_cmd) (s : gmap K (gmap VK V) * Z) :
    hmm_reply * (gmap K (gmap VK V) * Z) :=
  let '(m, over) := s in
  let at_key k := default ∅ (m !! k) in
  match c with
  | MGetVector k => (MR_map (m !! k), s)
  | MGet k v => (MR_val (at_key k !! vkey v), s)
  | MExists k v => (MR_bool (bool_decide (is_Some (at_key k !! vkey v))), s)
  | MInsert k v => (MR_bool true, (<[k := <[vkey v := v]> (at_key k)]> m, over))
  | MInsertArray k v => (MR_bool true, (<[k := amap vkey v ∪ at_key k]> m, over))
  | MSet k v => (MR_bool true,
                 (<[k := amap vkey v]> m, over + Z.of_nat (size (at_key k))))
  | MDel k => (MR_bool (bool_decide (is_Some (m !! k))), (delete k m, over))
  | MExistsKey k => (MR_bool (bool_decide (is_Some (m !! k))), s)
  | MTotal => (MR_num (u64 (Z.of_nat (size m))), s)
  | MElements =>
    (MR_num (u64 (over + value_count m)), s)
  | MRehash => (MR_unit, s)
  end%Z.

Definition bulk_ok (c : hmm_cmd) : Prop :=
  match c with
  | MInsertArray _ v | MSet _ v => NoDup (vkey <$> v)
  | _ => True
  end.

(** After the call the key it changes has less than 2^31 values. *)
Definition within (c : hmm_cmd) (m : gmap K (gmap VK V)) : bool :=
  let at_key k := default ∅ (m !! k) in
  match c with
  | MInsert k v => fits_int (size (<[vkey v := v]> (at_key k)))
  | MInsertArray k v => fits_int (size (amap vkey v ∪ at_key k))
  | MSet _ v => fits_int (size (amap vkey v))
  | _ => true
  end.

(** The concrete state [h] stands for the abstract [s]. *)
Definition rep (h : HashMultimap) (s : gmap K (gmap VK V) * Z) : Prop :=
  exists cs, fst s = maps_of cs /\
    hmm_ok h cs (snd s + value_count (fst s)).

Lemma sum_insert_new (m : gmap K (gmap VK V)) k x : m !! k = None ->
  (value_count (<[k := x]> m) =
   Z.of_nat (size x) + value_count m)%Z.
Proof.
  intros Hk. unfold value_count.
  rewrite map_fold_insert_L; [done | intros; lia | done].
Qed.

Lemma sum_delete (m : gmap K (gmap VK V)) k :
  (value_count (delete k m) =
   value_count m -
   Z.of_nat (size (default ∅ (m !! k))))%Z.
Proof.
  destruct (m !! k) as [x |] eqn:Hk; simpl.
  - rewrite <- (insert_delete_id m k x Hk) at 2.
    rewrite sum_insert_new by (by rewrite lookup_delete_eq). lia.
  - rewrite delete_id by done. rewrite map_size_empty. lia.
Qed.

Lemma sum_insert (m : gmap K (gmap VK V)) k x :
  (value_count (<[k := x]> m) =
   value_count m + Z.of_nat (size x) -
   Z.of_nat (size (default ∅ (m !! k))))%Z.
Proof.
  rewrite <- insert_delete_eq, sum_insert_new by (by rewrite lookup_delete_eq).
  rewrite sum_delete. lia.
Qed.

Lemma at_key_values cs k :
  default ∅ (maps_of cs !! k) = amap vkey (values cs k).
Proof. unfold maps_of, values. rewrite lookup_fmap. by destruct (cs !! k). Qed.

Lemma size_values h cs e k : hmm_ok h cs e ->
  size (amap vkey (values cs k)) = length (values cs k).
Proof.
  intros (_ & _ & Hs & _). apply size_amap, sorted_NoDup. unfold values.
  destruct (cs !! k) as [l |] eqn:Hk; simpl; [by apply (Hs k) | constructor].
Qed.

Lemma size_inserted h cs e k l : hmm_ok h (<[k := l]> cs) e -> size (amap vkey l) = length l.
Proof.
  intros (_ & _ & Hs & _). apply size_amap, sorted_NoDup, (Hs k).
  by rewrite lookup_insert_eq.
Qed.

Lemma maps_of_insert cs k l : maps_of (<[k := l]> cs) = <[k := amap vkey l]> (maps_of cs).
Proof. unfold maps_of. by rewrite fmap_insert. Qed.

Lemma maps_of_delete cs k : maps_of (delete k cs) = delete k (maps_of cs).
Proof. unfold maps_of. by rewrite fmap_delete. Qed.

(** A change of the array of one key, in the abstract state. *)
Lemma rep_change h h' cs over k l e : hmm_ok h cs (over + value_count (maps_of cs)) ->
  hmm_ok h' (<[k := l]> cs) e ->
  forall over', e = (over' + (value_count (maps_of cs) + Z.of_nat (length l) - Z.of_nat (length (values cs k))))%Z ->
  rep h' (<[k := amap vkey l]> (maps_of cs), over').
Proof.
  intros Hh Hh' over' ->. exists (<[k := l]> cs). cbn [fst snd]. rewrite maps_of_insert. split; [done |].
  by rewrite sum_insert, at_key_values, (size_inserted _ _ _ _ _ Hh'), (size_values _ _ _ k Hh).
Qed.

(** The total is the number of keys, and rehashing changes nothing. *)
Lemma HashMultimap_getTotal_spec h cs e : hmm_ok h cs e -> HashMultimap_getTotal h = Ret (u64 (Z.of_nat (size cs))) h.
Proof.
  intros ((ds & Hds & Hok & Ht) & Ho & _). unfold HashMultimap_getTotal, dd, Dict_getTotal.
  assert (size cs = length (concat ds)) as ->.
  { rewrite <- (size_abs _ _ Hok), <- !size_dom. f_equal.
    apply set_eq. intros k. rewrite !elem_of_dom, (own_dom _ _ _ Ho). unfold abs. by rewrite Hds. }
  rewrite <- Ht. by destruct h as [[]].
Qed.

Lemma HashMultimap_exists_spec h cs e k : hmm_ok h cs e -> HashMultimap_exists k h = Ret (bool_decide (is_Some (cs !! k))) h.
Proof.
  intros Hh. unfold HashMultimap_exists, dd, Dict_exists. destruct (hmm_find h cs e k Hh) as (pos & b & [it |] & Hf & Hc); rewrite (bind_Ret _ _ _ _ _ Hf).
  - destruct Hc as (size & val & l & _ & _ & _ & -> & _). rewrite bool_decide_true by done. by destruct h.
  - destruct Hc as (_ & -> & _). rewrite bool_decide_false by (by intros [? ?]). by destruct h.
Qed.

Lemma HashMultimap_rehash_spec h cs e : hmm_ok h cs e -> exists h', HashMultimap_rehash h = Ret tt h' /\ hmm_ok h' cs e.
Proof.
  intros (Hwf & Ho & Hs & He). destruct (rehash_wf _ Hwf) as [Hwf' Habs].
  eexists. split; [reflexivity |]. split_and!; [done | | done | done]. simpl. by rewrite Habs.
Qed.

Lemma hmm_exec_refines c h s : rep h s -> bulk_ok c -> within c (fst s) = true -> exists h',
  hmm_exec c h = Ret (fst (maps_exec c s)) h' /\ rep h' (snd (maps_exec c s)).
Proof.
  destruct s as [m over]. intros (cs & Hm & Hh) Hc Hw. cbn [fst snd] in Hm, Hh, Hw. subst m.
  destruct c as [k | k v | k v | k v | k v | k v | k | k | | |]; cbn [within] in Hw; cbn [hmm_exec maps_exec fst snd]; rewrite ?at_key_values in *.
  - exists h. rewrite (fmap_Ret _ _ _ _ _ (HashMultimap_get_vector_spec h cs _ k Hh)).
    split; [| by exists cs]. unfold maps_of. by rewrite lookup_fmap.
  - destruct (HashMultimap_get_value_spec h cs _ k v Hh) as [Hg _].
    exists h. rewrite (fmap_Ret _ _ _ _ _ Hg). split; [done | by exists cs].
  - destruct (HashMultimap_get_value_spec h cs _ k v Hh) as [_ Hg].
    exists h. rewrite (fmap_Ret _ _ _ _ _ Hg). split; [done | by exists cs].
  - pose proof (HashMultimap_insert_spec h cs _ k v Hh) as E. rewrite Hw in E. destruct E as (h' & l & Hr & Hh' & Hm).
    exists h'. rewrite (fmap_Ret _ _ _ _ _ Hr), <- Hm. split; [done |]. apply (rep_change h h' cs over k l _ Hh Hh'). lia.
  - pose proof (HashMultimap_insert_array_spec h cs _ k v Hh Hc) as E. rewrite Hw in E. destruct E as (h' & l & Hr & Hh' & Hm).
    exists h'. rewrite (fmap_Ret _ _ _ _ _ Hr), <- Hm. split; [done |]. apply (rep_change h h' cs over k l _ Hh Hh'). lia.
  - pose proof (HashMultimap_set_spec h cs _ k v Hh Hc) as E. rewrite Hw in E. destruct E as (h' & l & Hr & Hh' & Hm).
    exists h'. rewrite (fmap_Ret _ _ _ _ _ Hr), <- Hm, (size_values _ _ _ k Hh). split; [done |]. apply (rep_change h h' cs over k l _ Hh Hh'). lia.
  - destruct (HashMultimap_del_spec h cs _ k Hh) as (h' & Hr & Hh').
    exists h'. rewrite (fmap_Ret _ _ _ _ _ Hr). split.
    { unfold maps_of. rewrite lookup_fmap. by destruct (cs !! k). }
    exists (delete k cs). simpl. rewrite maps_of_delete. split; [done |].
    rewrite sum_delete, at_key_values, (size_values _ _ _ k Hh).
    eapply eq_rect; [exact Hh' | lia].
  - exists h. rewrite (fmap_Ret _ _ _ _ _ (HashMultimap_exists_spec h cs _ k Hh)). split; [| by exists cs].
    unfold maps_of. rewrite lookup_fmap. by destruct (cs !! k).
  - exists h. rewrite (fmap_Ret _ _ _ _ _ (HashMultimap_getTotal_spec h cs _ Hh)). split; [| by exists cs].
    unfold maps_of. by rewrite map_size_fmap.
  - exists h. split; [| by exists cs]. destruct Hh as (_ & _ & _ & He).
    unfold HashMultimap_getElements.
    rewrite (fmap_Ret _ _ _ (h_elements h) h) by done. by rewrite He.
  - destruct (HashMultimap_rehash_spec h cs _ Hh) as (h' & Hr & Hh'). exists h'. rewrite (fmap_Ret _ _ _ _ _ Hr). split; [done | by exists cs].
Qed.

(** A call that would leave 2^31 values under a key: one more value overflows,
    an array is refused with an exception or sorted over a negative length. *)
Lemma hmm_exec_beyond c h s : rep h s -> bulk_ok c -> within c (fst s) = false ->
  match c with
  | MInsert _ _ => hmm_exec c h = Undef SignedOverflow
  | _ => hmm_exec c h = Undef BadIndex \/ exists h', hmm_exec c h = Throw BadArray h' /\ rep h' s
  end.
Proof.
  destruct s as [m over]. intros (cs & Hm & Hh) Hc Hw. cbn [fst snd] in Hm, Hh, Hw. subst m.
  assert (forall o : M HashMultimap bool, refused (o h) cs (over + value_count (maps_of cs)) -> (MR_bool <$> o) h = Undef BadIndex \/ exists h', (MR_bool <$> o) h = Throw BadArray h' /\ rep h' (maps_of cs, over)) as Href.
  { intros o [E | (h' & E & Hh')]; unfold fmap, M_fmap; rewrite E; [by left | right]. exists h'. split; [done | by exists cs]. }
  destruct c as [k | k v | k v | k v | k v | k v | k | k | | |]; cbn [within] in Hw; cbn [hmm_exec]; try done; rewrite ?at_key_values in *.
  - pose proof (HashMultimap_insert_spec h cs _ k v Hh) as E. rewrite Hw in E. unfold fmap, M_fmap. by rewrite E.
  - pose proof (HashMultimap_insert_array_spec h cs _ k v Hh Hc) as E. rewrite Hw in E. by apply Href.
  - pose proof (HashMultimap_set_spec h cs _ k v Hh Hc) as E. rewrite Hw in E. by apply Href.
Qed.

Fixpoint hmm_run (cs : list hmm_cmd) : M HashMultimap (list hmm_reply) :=
  match cs with
  | [] => mret []
  | c :: cs => r ← hmm_exec c; rs ← hmm_run cs; mret (r :: rs)
  end.

Fixpoint maps_run (cs : list hmm_cmd) (s : gmap K (gmap VK V) * Z) :
    list hmm_reply * (gmap K (gmap VK V) * Z) :=
  match cs with
  | [] => ([], s)
  | c :: cs => let '(r, s) := maps_exec c s in
               let '(rs, s) := maps_run cs s in (r :: rs, s)
  end.

Lemma new_HashMultimap_rep size : rep (new_HashMultimap size) (∅, 0%Z).
Proof.
  destruct (new_table_wf (K := K) (P := nat * ptr) size) as [Hwf Habs].
  exists ∅. split; [unfold maps_of; by rewrite fmap_empty |].
  split_and!; [done | | apply map_Forall_empty |].
  - simpl. rewrite Habs. apply owned_empty.
  - simpl. unfold value_count. by rewrite map_fold_empty.
Qed.

(** Every call of a sequence stays below 2^31 values for each key. *)
Fixpoint all_within (cs : list hmm_cmd) (s : gmap K (gmap VK V) * Z) : bool :=
  match cs with
  | [] => true
  | c :: cs => within c (fst s) && all_within cs (snd (maps_exec c s))
  end.

(** C6: a [HashMultimap] is a map of maps.  From the empty table, every
    sequence of lookups, insertions, bulk insertions and [set]s whose arguments
    have no two equivalent values in one call, deletions of keys, counts and
    rehashes, that keeps less than 2^31 values under each key, returns, touches
    no released array, and replies as the finite map from keys to finite maps of
    values: an inserted value replaces an equivalent one, a bulk insertion
    overrides, [set] replaces the whole, [del] removes the key, [rehash] changes
    nothing.  [getElements] is the number of values, plus the number of values
    that a [set] replaced.  A call that would leave 2^31 values or more under a
    key does not return: [insert] of one value overflows [it->size + 1], an array
    is refused with an exception, without effect, or sorted over a negative
    length. *)
Theorem HashMultimap_refines_maps (size : Z) :
  (forall cs, Forall bulk_ok cs -> all_within cs (∅, 0%Z) = true ->
    exists h, hmm_run cs (new_HashMultimap size) = Ret (fst (maps_run cs (∅, 0%Z))) h /\
      rep h (snd (maps_run cs (∅, 0%Z)))) /\
  (forall c h s, rep h s -> bulk_ok c -> within c (fst s) = false ->
    match c with
    | MInsert _ _ => hmm_exec c h = Undef SignedOverflow
    | _ => hmm_exec c h = Undef BadIndex \/ exists h', hmm_exec c h = Throw BadArray h' /\ rep h' s
    end).
Proof.
  split; [| exact hmm_exec_beyond].
  intros cs Hcs. pose proof (new_HashMultimap_rep size) as Hrep. revert Hrep.
  generalize (∅ : gmap K (gmap VK V), 0%Z) as s, (new_HashMultimap size) as h.
  induction Hcs as [| c cs Hc _ IH]; intros s h Hrep Hw; simpl; [by exists h |].
  cbn [all_within] in Hw. apply andb_true_iff in Hw as [Hwc Hw].
  destruct (hmm_exec_refines c h s Hrep Hc Hwc) as (h1 & Hr & Hrep1).
  destruct (maps_exec c s) as [r s1]. simpl in *.
  destruct (IH s1 h1 Hrep1 Hw) as (h2 & Hrs & Hrep2).
  exists h2. rewrite (bind_Ret _ _ _ _ _ Hr), (bind_Ret _ _ _ _ _ Hrs).
  by destruct (maps_run cs s1).
Qed.

(** [set] over an existing key leaves [_elements] too large.  If the
    table stands for the map [m] and reports the right number of values, then
    after [set(k, v, size)] it reports the right number plus the number of
    values that [k] had before. *)
Theorem HashMultimap_set_overcounts (h : HashMultimap) (m : gmap K (gmap VK V))
    (k : K) (v : list V) (Hrep : rep h (m, 0%Z)) (Hv : NoDup (vkey <$> v))
    (Hlen : fits_int (size (amap vkey v)) = true) :
  exists h', HashMultimap_set k v h = Ret true h' /\
    rep h' (<[k := amap vkey v]> m, Z.of_nat (size (default ∅ (m !! k)))) /\
    HashMultimap_getElements h' =
      Ret (u64 (value_count (<[k := amap vkey v]> m) +
                Z.of_nat (size (default ∅ (m !! k))))) h'.
Proof.
  destruct (hmm_exec_refines (MSet k v) h _ Hrep Hv Hlen) as (h' & Hr & Hrep').
  simpl in Hr, Hrep'. exists h'. split_and!; [| done |].
  - unfold fmap, M_fmap in Hr. by destruct (HashMultimap_set k v h); simplify_eq.
  - destruct Hrep' as (cs & Hm & _ & _ & _ & He).
    unfold HashMultimap_getElements. erewrite bind_Ret by reflexivity.
    rewrite He. unfold mret, M_ret. f_equal. f_equal. simpl. lia.
Qed.

End multimap.

(** [Pair<int, int>] values, compared by their first component. *)
Definition hmm_demo : list (@hmm_cmd Z (Z * Z)) :=
  [MInsert 1 (10, 1); MInsert 1 (10, 2); MInsertArray 1 [(5, 5); (10, 3); (7, 7)];
   MSet 2 [(3, 3)]; MSet 2 [(1, 1); (2, 2)]; MElements; MDel 2; MGetVector 1;
   MGet 1 (7, 0); MRehash; MTotal]%Z.

Lemma HashMultimap_refines_maps_witness :
  exists h, hmm_run fst hmm_demo (new_HashMultimap 10) =
      Ret (fst (maps_run fst hmm_demo (∅, 0%Z))) h /\
    rep fst h (snd (maps_run fst hmm_demo (∅, 0%Z))).
Proof.
  destruct (HashMultimap_refines_maps (K := Z) (V := Z * Z) (VK := Z) fst 10) as [H _]. apply (H hmm_demo).
  - repeat constructor; by apply (bool_decide_unpack _).
  - by vm_compute.
Defined.

(** A table with one value under key 4. *)
Definition hmm_one : @HashMultimap Z Z :=
  match HashMultimap_insert id 4%Z 9%Z (new_HashMultimap 0) with
  | Ret _ h => h
  | _ => new_HashMultimap 0
  end.
Definition hmm_one_map : gmap Z (gmap Z Z) := <[4%Z := <[9%Z := 9%Z]> ∅]> ∅.

Lemma hmm_one_rep : rep id hmm_one (hmm_one_map, 0%Z).
Proof.
  destruct (hmm_exec_refines (K := Z) id (MInsert 4%Z 9%Z) (new_HashMultimap 0) (∅, 0%Z))
    as (h & Hr & Hrep); [apply new_HashMultimap_rep | done | done |].
  assert (hmm_one = h) as ->; [| done].
  unfold hmm_one. simpl in Hr. unfold fmap, M_fmap in Hr.
  by destruct (HashMultimap_insert id 4%Z 9%Z (new_HashMultimap 0)); simplify_eq.
Qed.

Lemma HashMultimap_set_overcounts_witness :
  exists h', HashMultimap_set id 4%Z [2; 1]%Z hmm_one = Ret true h' /\
    rep id h' (<[4%Z := amap id [2; 1]%Z]> hmm_one_map,
               Z.of_nat (size (default ∅ (hmm_one_map !! 4%Z)))) /\
    HashMultimap_getElements h' =
      Ret (u64 (value_count (<[4%Z := amap id [2; 1]%Z]> hmm_one_map) +
                Z.of_nat (size (default ∅ (hmm_one_map !! 4%Z))))) h'.
Proof.
  apply (HashMultimap_set_overcounts id hmm_one hmm_one_map 4%Z [2; 1]%Z).
  - apply hmm_one_rep.
  - by apply (bool_decide_unpack _).
  - by vm_compute.
Defined.

(** Two values in key 2, three reported. *)
Example hmm_demo_replies :
  match hmm_run fst hmm_demo (new_HashMultimap 10) with
  | Ret rs h => rs !! 5 = Some (MR_num 6) /\ rs !! 8 = Some (MR_val (Some (7, 7)%Z))
  | _ => False
  end.
Proof. vm_compute. done. Qed.
