(* ===== verification/CacheStatus.v ===== *)
(** * CacheStatus, and lists with iterators

    [src/include/datastruct/cache_status.h]: the counters that the caches
    share; and the part of [std::list] the caches rely on: a list whose nodes
    keep their address while they are spliced, so that an iterator is an
    address.  A node is its address with the item it holds. *)

From S2P Require Import Prelude.
From stdpp Require Import base list list_numbers numbers option gmap fin_maps.
From Stdlib Require Import ZArith Lia.

Record CacheStatus := mk_CacheStatus {
  cs_get : Z;
  cs_set : Z;
  cs_del : Z;
  cs_timeout : Z;
  cs_prune : Z;
  cs_hit : Z
}.

Definition new_CacheStatus : CacheStatus := mk_CacheStatus 0 0 0 0 0 0.

(** [Atomic::addFetch] on an [int64_t] wraps. *)
Definition CacheStatus_incGet (v : Z) (s : CacheStatus) : CacheStatus :=
  mk_CacheStatus (i64 (cs_get s + v)) (cs_set s) (cs_del s) (cs_timeout s)
    (cs_prune s) (cs_hit s).
Definition CacheStatus_incSet (v : Z) (s : CacheStatus) : CacheStatus :=
  mk_CacheStatus (cs_get s) (i64 (cs_set s + v)) (cs_del s) (cs_timeout s)
    (cs_prune s) (cs_hit s).
Definition CacheStatus_incDel (v : Z) (s : CacheStatus) : CacheStatus :=
  mk_CacheStatus (cs_get s) (cs_set s) (i64 (cs_del s + v)) (cs_timeout s)
    (cs_prune s) (cs_hit s).
Definition CacheStatus_incTimeout (v : Z) (s : CacheStatus) : CacheStatus :=
  mk_CacheStatus (cs_get s) (cs_set s) (cs_del s) (i64 (cs_timeout s + v))
    (cs_prune s) (cs_hit s).
Definition CacheStatus_incPrune (v : Z) (s : CacheStatus) : CacheStatus :=
  mk_CacheStatus (cs_get s) (cs_set s) (cs_del s) (cs_timeout s)
    (i64 (cs_prune s + v)) (cs_hit s).
Definition CacheStatus_incHit (v : Z) (s : CacheStatus) : CacheStatus :=
  mk_CacheStatus (cs_get s) (cs_set s) (cs_del s) (cs_timeout s)
    (cs_prune s) (i64 (cs_hit s + v)).

Definition CacheStatus_merge (s other : CacheStatus) : CacheStatus :=
  mk_CacheStatus (i64 (cs_get s + cs_get other)) (i64 (cs_set s + cs_set other))
    (i64 (cs_del s + cs_del other)) (i64 (cs_timeout s + cs_timeout other))
    (i64 (cs_prune s + cs_prune other)) (i64 (cs_hit s + cs_hit other)).

(** ** Lists with iterators *)

Section lists.
Context {A : Type}.

Fixpoint node_get (i : positive) (l : list (positive * A)) : option A :=
  match l with
  | [] => None
  | (j, x) :: l => if decide (j = i) then Some x else node_get i l
  end.

(** [erase(it)] *)
Definition node_erase (i : positive) (l : list (positive * A)) : list (positive * A) :=
  filter (fun n => fst n <> i) l.

(** An assignment through the iterator. *)
Definition node_set (i : positive) (x : A) (l : list (positive * A)) :
    list (positive * A) :=
  (fun n => if decide (fst n = i) then (i, x) else n) <$> l.

(** [splice(begin(), list, it)] *)
Definition node_to_front (i : positive) (l : list (positive * A)) :
    option (list (positive * A)) :=
  match node_get i l with
  | Some x => Some ((i, x) :: node_erase i l)
  | None => None
  end.

(** An address not in use. *)
Definition node_fresh (l : list (positive * A)) : positive :=
  fresh (list_to_set (C := gset positive) (fst <$> l)).

Lemma node_fresh_spec l : node_fresh l ∉ (fst <$> l).
Proof.
  unfold node_fresh. intros Hin.
  apply (is_fresh (list_to_set (C := gset positive) (fst <$> l))).
  by apply elem_of_list_to_set.
Qed.

Lemma node_get_Some i x l :
  NoDup (fst <$> l) -> (node_get i l = Some x <-> (i, x) ∈ l).
Proof.
  induction l as [| [j y] l IH]; simpl; intros Hd.
  { split; [done |]. intros Hin. by apply elem_of_nil in Hin. }
  apply NoDup_cons in Hd as [Hj Hd]. rewrite elem_of_cons. case_decide as Hij.
  - subst. split; [intros [= ->]; by left |]. intros [Heq | Hin]; [by simplify_eq |].
    destruct Hj. apply list_elem_of_fmap. by exists (i, x).
  - rewrite IH by done. split; [by right |]. intros [Heq | Hin]; [| done].
    by simplify_eq.
Qed.

Lemma node_erase_not_in i l : i ∉ (fst <$> l) -> node_erase i l = l.
Proof.
  intros Hi. unfold node_erase.
  induction l as [| [j x] l IH]; [done |]. simpl in Hi.
  rewrite not_elem_of_cons in Hi. destruct Hi as [Hne Hi].
  rewrite filter_cons_True by (simpl; congruence). by rewrite IH.
Qed.

Lemma node_erase_keys i l x : x ∈ (fst <$> node_erase i l) <-> x ∈ (fst <$> l) /\ x <> i.
Proof.
  rewrite !list_elem_of_fmap. unfold node_erase. split.
  - intros (n & -> & Hn). apply list_elem_of_filter in Hn as [Hne Hn].
    split; [by exists n | done].
  - intros [(n & -> & Hn) Hne]. exists n. split; [done |].
    by apply list_elem_of_filter.
Qed.

Lemma node_erase_NoDup {B} (f : positive * A -> B) i l :
  NoDup (f <$> l) -> NoDup (f <$> node_erase i l).
Proof.
  unfold node_erase. induction l as [| n l IH]; [done |]. intros Hd.
  simpl in Hd. apply NoDup_cons in Hd as [Hn Hd].
  rewrite filter_cons. case_decide; simpl; [| by apply IH].
  apply NoDup_cons. split; [| by apply IH].
  rewrite list_elem_of_fmap in Hn |- *. intros (m & Hm & Hin). apply Hn.
  exists m. split; [done |]. by apply list_elem_of_filter in Hin as [_ ?].
Qed.

End lists.
