(* ===== verification/LruCache.v ===== *)
(** * LruCache and HashLruCache

    [src/include/datastruct/lru_cache.h].  A cache is the list [_keys] of its
    items, most recently used first, and the index [_cache] from a key to the
    list node.  The prune callback is the log of the items it is called with.

    The specification is the recency list alone: [set] and [get] move the
    item to the front, pruning cuts the tail.  [LruCache_refines_recency]
    shows that the two structures stay together and behave so on every
    sequence of calls; [LruCache_keeps_most_recent] says which items survive,
    and the bounds follow for [HashLruCache]. *)

From S2P Require Import Prelude CacheStatus.
From stdpp Require Import base list list_numbers numbers option gmap fin_maps.
From Stdlib Require Import ZArith Lia.

Section lru.
Context {K V : Type} `{Countable K}.

Record LruCache := mk_LruCache {
  lc_cache : gmap K positive;            (* unordered_map<K, list::iterator> *)
  lc_keys : list (positive * (K * V));   (* std::list<pair<K, V>> *)
  lc_maxSize : Z;                        (* size_t *)
  lc_elasticity : Z;                     (* size_t *)
  lc_cb : option (list (K * V));         (* prune_callback: its calls so far *)
  lc_status : CacheStatus                (* *_status *)
}.

Definition new_LruCache (max_size elasticity : Z) (status : CacheStatus) : LruCache :=
  mk_LruCache ∅ [] max_size elasticity None status.

Definition set_contents (c : gmap K positive) (l : list (positive * (K * V)))
    (s : LruCache) : LruCache :=
  mk_LruCache c l (lc_maxSize s) (lc_elasticity s) (lc_cb s) (lc_status s).

Definition on_status (f : CacheStatus -> CacheStatus) (s : LruCache) : LruCache :=
  mk_LruCache (lc_cache s) (lc_keys s) (lc_maxSize s) (lc_elasticity s) (lc_cb s)
    (f (lc_status s)).

Definition call_cb (x : K * V) (s : LruCache) : LruCache :=
  mk_LruCache (lc_cache s) (lc_keys s) (lc_maxSize s) (lc_elasticity s)
    ((fun calls => calls ++ [x]) <$> lc_cb s) (lc_status s).

Definition LruCache_getMaxAllowedSize (s : LruCache) : Z :=
  u64 (lc_maxSize s + lc_elasticity s).

Definition cache_size (s : LruCache) : Z := Z.of_nat (size (lc_cache s)).

(** The loop of [prune]: [back()] of an empty list is undefined. *)
Fixpoint prune_loop (fuel : nat) (count : Z) : M LruCache Z := fun s =>
  if (lc_maxSize s <? cache_size s)%Z then
    match fuel, last (lc_keys s) with
    | S fuel, Some (i, x) =>
      let s := call_cb x s in
      let s := set_contents (delete (fst x) (lc_cache s))
                 (take (length (lc_keys s) - 1) (lc_keys s)) s in
      prune_loop fuel (count + 1) s
    | O, _ => Undef Diverges
    | _, None => Undef BadIndex
    end
  else Ret count s.

Definition LruCache_prune : M LruCache Z :=
  s ← get;
  if (lc_maxSize s =? 0)%Z || (cache_size s <? LruCache_getMaxAllowedSize s)%Z
  then mret 0%Z
  else
    count ← prune_loop (length (lc_keys s)) 0;
    modify (on_status (CacheStatus_incPrune count));;
    mret count.

(** Dereferencing and moving the node of an iterator. *)
Definition splice_front (i : positive) : M LruCache unit := fun s =>
  match node_to_front i (lc_keys s) with
  | Some l => Ret tt (set_contents (lc_cache s) l s)
  | None => Undef NullDeref
  end.

Definition deref_item (i : positive) : M LruCache (K * V) := fun s =>
  match node_get i (lc_keys s) with
  | Some x => Ret x s
  | None => Undef NullDeref
  end.

Definition LruCache_set (k : K) (v : V) : M LruCache unit :=
  modify (on_status (CacheStatus_incSet 1));;
  s ← get;
  match lc_cache s !! k with
  | Some it =>
    x ← deref_item it;
    modify (fun s => set_contents (lc_cache s) (node_set it (fst x, v) (lc_keys s)) s);;
    splice_front it
  | None =>
    let it := node_fresh (lc_keys s) in
    modify (fun s => set_contents (lc_cache s) ((it, (k, v)) :: lc_keys s) s);;
    modify (fun s => set_contents (<[k := it]> (lc_cache s)) (lc_keys s) s);;
    LruCache_prune;;
    mret ()
  end.

(** [get(k, v)]; [get(k)] is the same with [V()] for [None]. *)
Definition LruCache_get (k : K) : M LruCache (option V) :=
  modify (on_status (CacheStatus_incGet 1));;
  s ← get;
  match lc_cache s !! k with
  | None => mret None
  | Some it =>
    splice_front it;;
    x ← deref_item it;
    modify (on_status (CacheStatus_incHit 1));;
    mret (Some (snd x))
  end.

Definition LruCache_get_value (dflt : V) (k : K) : M LruCache V :=
  v ← LruCache_get k; mret (default dflt v).

Definition LruCache_del (k : K) : M LruCache bool :=
  modify (on_status (CacheStatus_incDel 1));;
  s ← get;
  match lc_cache s !! k with
  | None => mret false
  | Some it =>
    modify (fun s => set_contents (lc_cache s) (node_erase it (lc_keys s)) s);;
    modify (fun s => set_contents (delete k (lc_cache s)) (lc_keys s) s);;
    mret true
  end.

Definition LruCache_exists (k : K) : M LruCache bool :=
  s ← get; mret (bool_decide (is_Some (lc_cache s !! k))).

Definition LruCache_size : M LruCache Z := s ← get; mret (cache_size s).

Definition LruCache_empty : M LruCache bool :=
  s ← get; mret (bool_decide (lc_cache s = ∅)).

Definition LruCache_clear : M LruCache bool :=
  modify (set_contents ∅ []);; mret true.

Definition LruCache_setMaxSize (v : Z) : M LruCache unit :=
  modify (fun s => mk_LruCache (lc_cache s) (lc_keys s) v (lc_elasticity s) (lc_cb s)
                     (lc_status s)).

Definition LruCache_setElasticity (v : Z) : M LruCache unit :=
  modify (fun s => mk_LruCache (lc_cache s) (lc_keys s) (lc_maxSize s) v (lc_cb s)
                     (lc_status s)).

Definition LruCache_setPruneCallback : M LruCache unit :=
  modify (fun s => mk_LruCache (lc_cache s) (lc_keys s) (lc_maxSize s) (lc_elasticity s)
                     (Some []) (lc_status s)).

(** ** Invariant: the list and its index *)

Record lru_ok (s : LruCache) : Prop := {
  lo_ids : NoDup (fst <$> lc_keys s);
  lo_keys : NoDup ((fun n => fst (snd n)) <$> lc_keys s);
  lo_index k i : lc_cache s !! k = Some i <-> exists v, (i, (k, v)) ∈ lc_keys s
}.

(** The recency list. *)
Definition recency (s : LruCache) : list (K * V) := snd <$> lc_keys s.

Definition without (k : K) (l : list (K * V)) : list (K * V) :=
  filter (fun x => fst x <> k) l.

Definition lookup_key (k : K) (l : list (K * V)) : option V :=
  snd <$> (list_find (fun x => fst x = k) l ≫= fun p => Some (snd p)).

(** ** Lemmas on the recency list *)

Lemma recency_keys s : fst <$> recency s = (fun n => fst (snd n)) <$> lc_keys s.
Proof. unfold recency. by rewrite <- list_fmap_compose. Qed.

Lemma lookup_key_Some k v l :
  NoDup (fst <$> l) -> (lookup_key k l = Some v <-> (k, v) ∈ l).
Proof.
  intros Hd. unfold lookup_key. split.
  - destruct (list_find _ l) as [[i [k' v']] |] eqn:Hf; simpl; [| done].
    intros [= <-]. apply list_find_Some in Hf as (Hi & Hk & _). simpl in Hk. subst.
    by eapply list_elem_of_lookup_2.
  - intros Hin. destruct (list_find _ l) as [[i [k' v']] |] eqn:Hf; simpl.
    + apply list_find_Some in Hf as (Hi & Hk & _). simpl in Hk. subst.
      apply list_elem_of_lookup in Hin as [j Hj].
      assert (i = j) as ->.
      { eapply NoDup_lookup; [exact Hd | |].
        - by rewrite list_lookup_fmap, Hi.
        - by rewrite list_lookup_fmap, Hj. }
      by simplify_eq.
    + rewrite list_find_None, Forall_forall in Hf. by destruct (Hf _ Hin).
Qed.

Lemma lookup_key_None k l : lookup_key k l = None <-> k ∉ (fst <$> l).
Proof.
  unfold lookup_key. destruct (list_find _ l) as [[i [k' v']] |] eqn:Hf; simpl.
  - split; [done |]. apply list_find_Some in Hf as (Hi & Hk & _). simpl in Hk. subst.
    intros Hn. destruct Hn. apply list_elem_of_fmap. exists (k, v').
    split; [done |]. by eapply list_elem_of_lookup_2.
  - split; [| done]. intros _ (x & -> & Hx)%list_elem_of_fmap.
    rewrite list_find_None, Forall_forall in Hf. by apply (Hf x).
Qed.

Lemma without_absent k l : k ∉ (fst <$> l) -> without k l = l.
Proof.
  intros Hk. unfold without. induction l as [| x l IH]; [done |]. simpl in Hk.
  rewrite not_elem_of_cons in Hk. destruct Hk as [Hne Hk].
  rewrite filter_cons_True by congruence. by rewrite IH.
Qed.

(** The index agrees with the list. *)
Lemma index_lookup s k : lru_ok s ->
  match lc_cache s !! k with
  | Some i => exists v, (i, (k, v)) ∈ lc_keys s /\ node_get i (lc_keys s) = Some (k, v) /\
                        lookup_key k (recency s) = Some v
  | None => lookup_key k (recency s) = None
  end.
Proof.
  intros Hok. destruct (lc_cache s !! k) as [i |] eqn:Hi.
  - apply (lo_index _ Hok) in Hi as [v Hv]. exists v. split_and!; [done | |].
    + by apply node_get_Some; [apply (lo_ids _ Hok) |].
    + apply lookup_key_Some.
      * rewrite recency_keys. apply (lo_keys _ Hok).
      * apply list_elem_of_fmap. by exists (i, (k, v)).
  - apply lookup_key_None. rewrite recency_keys.
    intros ([i [k' v]] & Hk & Hin)%list_elem_of_fmap. simpl in Hk. subst.
    assert (lc_cache s !! k' = Some i) by (apply (lo_index _ Hok); by exists v).
    congruence.
Qed.

Lemma size_index s : lru_ok s -> size (lc_cache s) = length (lc_keys s).
Proof.
  intros Hok.
  assert (lc_cache s = list_to_map ((fun n => (fst (snd n), fst n)) <$> lc_keys s)) as ->.
  { apply map_eq. intros k. apply option_eq. intros i.
    rewrite (lo_index _ Hok), <- elem_of_list_to_map.
    - rewrite list_elem_of_fmap. split.
      + intros [v Hv]. by exists (i, (k, v)).
      + intros ([j [k' v]] & Heq & Hin). simpl in Heq. simplify_eq. by exists v.
    - rewrite <- list_fmap_compose. apply (lo_keys _ Hok). }
  rewrite <- (length_map_to_list (M := gmap K)), map_to_list_to_map.
  - by rewrite length_fmap.
  - rewrite <- list_fmap_compose. apply (lo_keys _ Hok).
Qed.

Lemma erase_recency i k v l :
  NoDup (fst <$> l) -> NoDup ((fun n : positive * (K * V) => fst (snd n)) <$> l) ->
  (i, (k, v)) ∈ l -> snd <$> node_erase i l = without k (snd <$> l).
Proof.
  unfold node_erase, without. induction l as [| [j [k' v']] l IH]; [done |].
  simpl. intros [Hj Hi]%NoDup_cons [Hk' Hk]%NoDup_cons Hin.
  rewrite !filter_cons. simpl.
  apply elem_of_cons in Hin as [Heq | Hin].
  - simplify_eq. rewrite !decide_False by (intros Hn; by apply Hn).
    fold (node_erase j l). rewrite node_erase_not_in by done.
    symmetry. apply without_absent. by rewrite <- list_fmap_compose.
  - rewrite !decide_True.
    + simpl. f_equal. by apply IH.
    + intros ->. apply Hk'. apply list_elem_of_fmap. by exists (i, (k, v)).
    + intros ->. apply Hj. apply list_elem_of_fmap. by exists (i, (k, v)).
Qed.

(** ** The specification: a recency list *)

Record lru_spec := mk_spec {
  sp_items : list (K * V);
  sp_max : Z;
  sp_ela : Z;
  sp_cb : option (list (K * V));
  sp_status : CacheStatus
}.

Definition abs_lru (s : LruCache) : lru_spec :=
  mk_spec (recency s) (lc_maxSize s) (lc_elasticity s) (lc_cb s) (lc_status s).

Definition sp_with (l : list (K * V)) (st : CacheStatus) (a : lru_spec) : lru_spec :=
  mk_spec l (sp_max a) (sp_ela a) (sp_cb a) st.

(** Everything behind the first [max] items goes, the oldest first. *)
Definition sp_prune (a : lru_spec) : lru_spec :=
  if (sp_max a =? 0)%Z || (Z.of_nat (length (sp_items a)) <? u64 (sp_max a + sp_ela a))%Z
  then a
  else
    let n := Z.to_nat (sp_max a) in
    mk_spec (take n (sp_items a)) (sp_max a) (sp_ela a)
      ((fun calls => calls ++ reverse (drop n (sp_items a))) <$> sp_cb a)
      (CacheStatus_incPrune (Z.of_nat (length (drop n (sp_items a)))) (sp_status a)).

Definition sp_set (k : K) (v : V) (a : lru_spec) : lru_spec :=
  let st := CacheStatus_incSet 1 (sp_status a) in
  match lookup_key k (sp_items a) with
  | Some _ => sp_with ((k, v) :: without k (sp_items a)) st a
  | None => sp_prune (sp_with ((k, v) :: sp_items a) st a)
  end.

Definition sp_get (k : K) (a : lru_spec) : option V * lru_spec :=
  let st := CacheStatus_incGet 1 (sp_status a) in
  match lookup_key k (sp_items a) with
  | Some v => (Some v, sp_with ((k, v) :: without k (sp_items a))
                         (CacheStatus_incHit 1 st) a)
  | None => (None, sp_with (sp_items a) st a)
  end.

Definition sp_del (k : K) (a : lru_spec) : bool * lru_spec :=
  (bool_decide (is_Some (lookup_key k (sp_items a))),
   sp_with (without k (sp_items a)) (CacheStatus_incDel 1 (sp_status a)) a).

(** ** The operations implement it *)

Lemma lru_ok_status f s : lru_ok s -> lru_ok (on_status f s).
Proof. intros [? ? ?]. by split. Qed.

Lemma abs_on_status f s :
  abs_lru (on_status f s) =
  sp_with (sp_items (abs_lru s)) (f (sp_status (abs_lru s))) (abs_lru s).
Proof. done. Qed.

(** Dropping the last node. *)
Lemma last_split {A} (l : list A) x : last l = Some x -> l = take (length l - 1) l ++ [x].
Proof.
  intros Hl. destruct (last_Some l x) as [Hs _]. destruct (Hs Hl) as [l' ->].
  rewrite length_app. simpl. replace (length l' + 1 - 1) with (length l') by lia.
  by rewrite take_app_length.
Qed.

Lemma drop_last_ok s i k v l :
  lru_ok s -> lc_keys s = l ++ [(i, (k, v))] ->
  lru_ok (set_contents (delete k (lc_cache s)) l s).
Proof.
  intros Hok Hl. destruct Hok as [Hi Hk Hx]. rewrite Hl in *.
  rewrite fmap_app in Hi. rewrite fmap_app in Hk. simpl in *.
  apply NoDup_app in Hi as (Hi & Hin & _). apply NoDup_app in Hk as (Hk & Hkn & _).
  split; simpl; [done | done |]. intros k' i'.
  rewrite lookup_delete_Some, Hx. split.
  - intros [Hne [v' Hv]]. exists v'. apply elem_of_app in Hv as [Hv | Hv]; [done |].
    apply list_elem_of_singleton in Hv. by simplify_eq.
  - intros [v' Hv]. split.
    + intros ->. apply (Hkn k'); [| by left].
      apply list_elem_of_fmap. by exists (i', (k', v')).
    + exists v'. apply elem_of_app. by left.
Qed.

Lemma prune_loop_spec fuel count s :
  lru_ok s -> (0 <= lc_maxSize s)%Z -> length (lc_keys s) <= fuel ->
  let n := Z.to_nat (lc_maxSize s) in
  exists s', prune_loop fuel count s =
      Ret (count + Z.of_nat (length (drop n (recency s))))%Z s' /\
    lru_ok s' /\
    abs_lru s' = mk_spec (take n (recency s)) (lc_maxSize s) (lc_elasticity s)
      ((fun calls => calls ++ reverse (drop n (recency s))) <$> lc_cb s) (lc_status s).
Proof.
  intros Hok Hmax Hf n. revert count s Hok Hmax Hf n.
  induction fuel as [| fuel IH]; intros count s Hok Hmax Hf n.
  - assert (lc_keys s = []) as Hk by (apply nil_length_inv; lia).
    exists s. unfold prune_loop, cache_size. rewrite (size_index s Hok), Hk. simpl.
    rewrite (proj2 (Z.ltb_ge _ _)) by lia.
    unfold abs_lru, recency. rewrite Hk. simpl. rewrite take_nil, drop_nil. simpl.
    split_and!; [f_equal; lia | done |]. f_equal.
    destruct (lc_cb s); simpl; [| done]. by rewrite app_nil_r.
  - simpl. unfold cache_size. rewrite (size_index s Hok).
    destruct (Z.ltb_spec (lc_maxSize s) (Z.of_nat (length (lc_keys s)))) as [Hlt | Hge].
    + destruct (last (lc_keys s)) as [[i [k v]] |] eqn:Hl.
      2: { apply last_None in Hl. rewrite Hl in Hlt. simpl in Hlt. lia. }
      pose proof (last_split _ _ Hl) as Hs.
      set (l := take (length (lc_keys s) - 1) (lc_keys s)) in *.
      assert (length (lc_keys s) = S (length l)) as Hlen.
      { rewrite Hs, length_app. simpl. lia. }
      set (s1 := set_contents (delete k (lc_cache s)) l (call_cb (k, v) s)).
      assert (lru_ok s1) as Hok1.
      { destruct (drop_last_ok s i k v l Hok Hs) as [H1 H2 H3]. by split. }
      destruct (IH (count + 1)%Z s1 Hok1) as (s' & Hr & Hok' & Ha);
        [done | simpl; lia |].
      exists s'. cbn [fst].
      assert (recency s = recency s1 ++ [(k, v)]) as Hrec.
      { unfold recency. rewrite Hs at 1. by rewrite fmap_app. }
      assert (Z.to_nat (lc_maxSize s) <= length (recency s1)) as Hle.
      { unfold recency. rewrite length_fmap. simpl. lia. }
      change (lc_maxSize s1) with (lc_maxSize s) in Hr, Ha. fold n in Hr, Ha, Hle.
      rewrite Hrec, drop_app_le, take_app_le by done.
      split_and!; [| done |].
      * rewrite length_app. simpl. etransitivity; [exact Hr |]. f_equal. lia.
      * rewrite Ha. simpl. f_equal. rewrite reverse_app. simpl.
        destruct (lc_cb s); simpl; [| done]. by rewrite <- app_assoc.
    + exists s. split_and!; [| done |].
      * rewrite drop_ge; [simpl; f_equal; lia |]. unfold recency. rewrite length_fmap. lia.
      * unfold abs_lru. rewrite take_ge, drop_ge
          by (unfold recency; rewrite length_fmap; lia).
        f_equal. destruct (lc_cb s); simpl; [| done]. by rewrite app_nil_r.
Qed.

Lemma LruCache_prune_spec s :
  lru_ok s -> (0 <= lc_maxSize s)%Z -> exists n s',
  LruCache_prune s = Ret n s' /\ lru_ok s' /\ abs_lru s' = sp_prune (abs_lru s).
Proof.
  intros Hok Hmax. unfold LruCache_prune. erewrite bind_Ret by reflexivity.
  unfold sp_prune, cache_size, LruCache_getMaxAllowedSize. simpl.
  assert (length (recency s) = size (lc_cache s)) as Hlen.
  { rewrite (size_index s Hok). unfold recency. by rewrite length_fmap. }
  rewrite Hlen. case_match; [by exists 0%Z, s |].
  destruct (prune_loop_spec (length (lc_keys s)) 0 s Hok Hmax (le_n _))
    as (s' & Hr & Hok' & Ha).
  rewrite (bind_Ret _ _ _ _ _ Hr). do 2 eexists.
  split_and!; [reflexivity | by apply lru_ok_status |].
  by rewrite abs_on_status, Ha.
Qed.

(** Moving a node to the front, with a possibly new value. *)
Lemma move_front_ok s i k v w :
  lru_ok s -> (i, (k, v)) ∈ lc_keys s ->
  lru_ok (set_contents (lc_cache s) ((i, (k, w)) :: node_erase i (lc_keys s)) s) /\
  snd <$> ((i, (k, w)) :: node_erase i (lc_keys s)) = (k, w) :: without k (recency s).
Proof.
  intros Hok Hin. destruct Hok as [Hi Hk Hx].
  pose proof (erase_recency i k v (lc_keys s) Hi Hk Hin) as He. split.
  2: { rewrite fmap_cons. f_equal. exact He. }
  split; simpl.
  - apply NoDup_cons. split; [| by apply node_erase_NoDup].
    intros [_ Hn]%node_erase_keys. done.
  - apply NoDup_cons. split; [| by apply node_erase_NoDup].
    intros ([j [k' v']] & Heq & Hj)%list_elem_of_fmap. simpl in Heq. subst k'.
    unfold node_erase in Hj. apply list_elem_of_filter in Hj as [Hne Hj].
    apply Hne. simpl.
    assert (lc_cache s !! k = Some i) by (apply Hx; by exists v).
    assert (lc_cache s !! k = Some j) by (apply Hx; by exists v').
    congruence.
  - intros k' i'. rewrite Hx. split.
    + intros [v' Hv]. destruct (decide (i' = i)) as [-> | Hne].
      * assert (k' = k) as ->.
        { apply node_get_Some in Hv; [| done]. apply node_get_Some in Hin; [| done].
          congruence. }
        exists w. by left.
      * exists v'. right. unfold node_erase. by apply list_elem_of_filter.
    + intros [v' [Heq | Hv]%elem_of_cons].
      * simplify_eq. by exists v.
      * exists v'. unfold node_erase in Hv. by apply list_elem_of_filter in Hv as [_ ?].
Qed.

Lemma node_set_erase (i : positive) (x : K * V) l :
  node_erase i (node_set i x l) = node_erase i l.
Proof.
  unfold node_erase, node_set. induction l as [| [j y] l IH]; [done |].
  rewrite fmap_cons, !filter_cons, IH. simpl. by repeat case_decide; simplify_eq.
Qed.

Lemma node_get_set (i : positive) (x y : K * V) l :
  node_get i l = Some y -> node_get i (node_set i x l) = Some x.
Proof.
  induction l as [| [j z] l IH]; [done |]. simpl. intros Hg.
  destruct (decide (j = i)) as [-> | Hne]; simpl.
  - by rewrite decide_True.
  - rewrite decide_False by done. by apply IH.
Qed.

Lemma push_front_ok s k v i :
  lru_ok s -> lc_cache s !! k = None -> i ∉ (fst <$> lc_keys s) ->
  lru_ok (set_contents (<[k := i]> (lc_cache s)) ((i, (k, v)) :: lc_keys s) s).
Proof.
  intros Hok Hk Hi. destruct Hok as [Hids Hkeys Hx]. split; simpl.
  - by apply NoDup_cons.
  - apply NoDup_cons. split; [| done].
    intros ([j [k' v']] & Heq & Hj)%list_elem_of_fmap. simpl in Heq. subst k'.
    assert (lc_cache s !! k = Some j) by (apply Hx; by exists v'). congruence.
  - intros k' i'. rewrite lookup_insert_Some, Hx. split.
    + intros [[<- <-] | [Hne [v' Hv]]]; [exists v; by left | exists v'; by right].
    + intros [v' [Heq | Hv]%elem_of_cons]; [left; by simplify_eq |].
      right. split; [| by exists v']. intros <-.
      assert (lc_cache s !! k = Some i') by (apply Hx; by exists v'). congruence.
Qed.

Lemma LruCache_set_spec s k v :
  lru_ok s -> (0 <= lc_maxSize s)%Z -> exists s',
  LruCache_set k v s = Ret tt s' /\ lru_ok s' /\ abs_lru s' = sp_set k v (abs_lru s).
Proof.
  intros Hok Hmax. unfold LruCache_set, sp_set.
  erewrite bind_Ret by reflexivity. erewrite bind_Ret by reflexivity.
  set (s0 := on_status (CacheStatus_incSet 1) s).
  assert (lru_ok s0) as Hok0 by (by apply lru_ok_status).
  pose proof (index_lookup s0 k Hok0) as Hx.
  change (sp_items (abs_lru s)) with (recency s0).
  destruct (lc_cache s0 !! k) as [it |] eqn:Hc.
  - destruct Hx as (v0 & Hin & Hget & ->).
    erewrite bind_Ret by (unfold deref_item; by rewrite Hget).
    erewrite bind_Ret by reflexivity.
    destruct (move_front_ok s0 it k v0 v Hok0 Hin) as [Hok' Hrec].
    eexists. unfold splice_front, node_to_front. simpl lc_keys.
    erewrite node_get_set by exact Hget. rewrite node_set_erase.
    split_and!; [reflexivity | exact Hok' |].
    unfold abs_lru, sp_with. simpl. f_equal. exact Hrec.
  - rewrite Hx. erewrite bind_Ret by reflexivity. erewrite bind_Ret by reflexivity.
    set (i := node_fresh (lc_keys s0)).
    pose proof (push_front_ok s0 k v i Hok0 Hc (node_fresh_spec _)) as Hok1.
    destruct (LruCache_prune_spec _ Hok1 Hmax) as (n & s' & Hr & Hok' & Ha).
    exists s'. erewrite bind_Ret by exact Hr. done.
Qed.

Lemma LruCache_get_spec s k : lru_ok s -> exists s',
  LruCache_get k s = Ret (fst (sp_get k (abs_lru s))) s' /\ lru_ok s' /\
  abs_lru s' = snd (sp_get k (abs_lru s)).
Proof.
  intros Hok. unfold LruCache_get, sp_get.
  erewrite bind_Ret by reflexivity. erewrite bind_Ret by reflexivity.
  set (s0 := on_status (CacheStatus_incGet 1) s).
  assert (lru_ok s0) as Hok0 by (by apply lru_ok_status).
  pose proof (index_lookup s0 k Hok0) as Hx.
  change (sp_items (abs_lru s)) with (recency s0).
  destruct (lc_cache s0 !! k) as [it |] eqn:Hc.
  - destruct Hx as (v & Hin & Hget & ->).
    destruct (move_front_ok s0 it k v v Hok0 Hin) as [Hok' Hrec].
    erewrite bind_Ret by (unfold splice_front, node_to_front; by rewrite Hget).
    erewrite bind_Ret.
    2: { unfold deref_item. simpl. by rewrite decide_True. }
    erewrite bind_Ret by reflexivity.
    eexists. split_and!; [reflexivity | by apply lru_ok_status |].
    unfold abs_lru, sp_with. simpl. f_equal. exact Hrec.
  - rewrite Hx. exists s0. done.
Qed.

Lemma erase_ok s i k v :
  lru_ok s -> (i, (k, v)) ∈ lc_keys s ->
  lru_ok (set_contents (delete k (lc_cache s)) (node_erase i (lc_keys s)) s).
Proof.
  intros Hok Hin. destruct Hok as [Hi Hk Hx]. split; simpl.
  - by apply node_erase_NoDup.
  - by apply node_erase_NoDup.
  - intros k' i'. rewrite lookup_delete_Some, Hx. unfold node_erase.
    setoid_rewrite list_elem_of_filter. apply node_get_Some in Hin as Hget; [| done].
    split.
    + intros [Hne [v' Hv]]. exists v'. split; [| done]. simpl. intros ->.
      apply node_get_Some in Hv; [| done]. congruence.
    + intros [v' [Hne Hv]]. split; [| by exists v']. intros <-.
      assert (lc_cache s !! k = Some i') by (apply Hx; by exists v').
      assert (lc_cache s !! k = Some i) by (apply Hx; by exists v).
      simpl in Hne. congruence.
Qed.

Lemma LruCache_del_spec s k : lru_ok s -> exists s',
  LruCache_del k s = Ret (fst (sp_del k (abs_lru s))) s' /\ lru_ok s' /\
  abs_lru s' = snd (sp_del k (abs_lru s)).
Proof.
  intros Hok. unfold LruCache_del, sp_del.
  erewrite bind_Ret by reflexivity. erewrite bind_Ret by reflexivity.
  set (s0 := on_status (CacheStatus_incDel 1) s).
  assert (lru_ok s0) as Hok0 by (by apply lru_ok_status).
  pose proof (index_lookup s0 k Hok0) as Hx.
  change (sp_items (abs_lru s)) with (recency s0).
  destruct (lc_cache s0 !! k) as [it |] eqn:Hc.
  - destruct Hx as (v & Hin & Hget & ->). rewrite bool_decide_true by done.
    erewrite bind_Ret by reflexivity. erewrite bind_Ret by reflexivity.
    eexists. split_and!; [reflexivity | |].
    + exact (erase_ok s0 it k v Hok0 Hin).
    + unfold abs_lru, sp_with. simpl. f_equal.
      apply (erase_recency it k v); [apply Hok0 | apply Hok0 | done].
  - rewrite Hx. rewrite bool_decide_false by (by intros [? ?]).
    exists s0. split_and!; [done | done |]. simpl.
    rewrite without_absent by (by apply lookup_key_None). done.
Qed.

(** ** Sequences of calls *)

Inductive lru_cmd :=
| LSet (k : K) (v : V)
| LGet (k : K)
| LDel (k : K)
| LExists (k : K)
| LSize
| LEmpty
| LClear
| LSetMax (n : Z)
| LSetEla (n : Z)
| LSetCb.

Inductive lru_reply :=
| LR_unit
| LR_val (v : option V)
| LR_bool (b : bool)
| LR_num (n : Z).

Definition lru_exec (c : lru_cmd) : M LruCache lru_reply :=
  match c with
  | LSet k v => (fun _ => LR_unit) <$> LruCache_set k v
  | LGet k => LR_val <$> LruCache_get k
  | LDel k => LR_bool <$> LruCache_del k
  | LExists k => LR_bool <$> LruCache_exists k
  | LSize => LR_num <$> LruCache_size
  | LEmpty => LR_bool <$> LruCache_empty
  | LClear => LR_bool <$> LruCache_clear
  | LSetMax n => (fun _ => LR_unit) <$> LruCache_setMaxSize n
  | LSetEla n => (fun _ => LR_unit) <$> LruCache_setElasticity n
  | LSetCb => (fun _ => LR_unit) <$> LruCache_setPruneCallback
  end.

Definition sp_exec (c : lru_cmd) (a : lru_spec) : lru_reply * lru_spec :=
  match c with
  | LSet k v => (LR_unit, sp_set k v a)
  | LGet k => let '(v, a) := sp_get k a in (LR_val v, a)
  | LDel k => let '(b, a) := sp_del k a in (LR_bool b, a)
  | LExists k => (LR_bool (bool_decide (is_Some (lookup_key k (sp_items a)))), a)
  | LSize => (LR_num (Z.of_nat (length (sp_items a))), a)
  | LEmpty => (LR_bool (bool_decide (sp_items a = [])), a)
  | LClear => (LR_bool true, sp_with [] (sp_status a) a)
  | LSetMax n => (LR_unit, mk_spec (sp_items a) n (sp_ela a) (sp_cb a) (sp_status a))
  | LSetEla n => (LR_unit, mk_spec (sp_items a) (sp_max a) n (sp_cb a) (sp_status a))
  | LSetCb => (LR_unit, mk_spec (sp_items a) (sp_max a) (sp_ela a) (Some []) (sp_status a))
  end.

Definition lru_cmd_ok (c : lru_cmd) : Prop :=
  match c with LSetMax n => in_u 64 n | _ => True end.

Fixpoint lru_run (cs : list lru_cmd) : M LruCache (list lru_reply) :=
  match cs with
  | [] => mret []
  | c :: cs => r ← lru_exec c; rs ← lru_run cs; mret (r :: rs)
  end.

Fixpoint sp_run (cs : list lru_cmd) (a : lru_spec) : list lru_reply * lru_spec :=
  match cs with
  | [] => ([], a)
  | c :: cs => let '(r, a) := sp_exec c a in
               let '(rs, a) := sp_run cs a in (r :: rs, a)
  end.

Lemma lru_ok_config s m e cb :
  lru_ok s -> lru_ok (mk_LruCache (lc_cache s) (lc_keys s) m e cb (lc_status s)).
Proof. intros [? ? ?]. by split. Qed.

Lemma lru_ok_empty s : lru_ok (set_contents ∅ [] s).
Proof.
  split; simpl; [constructor | constructor |]. intros k i. rewrite lookup_empty.
  split; [done |]. by intros [v Hv%elem_of_nil].
Qed.

Lemma sp_prune_max a : sp_max (sp_prune a) = sp_max a.
Proof. unfold sp_prune. by case_match. Qed.

Lemma sp_max_exec c a : (0 <= sp_max a)%Z -> lru_cmd_ok c ->
  (0 <= sp_max (snd (sp_exec c a)))%Z.
Proof.
  intros Ha Hc. destruct c; simpl; try done.
  - unfold sp_set. case_match; [done |]. by rewrite sp_prune_max.
  - unfold sp_get. by destruct (lookup_key k (sp_items a)).
  - by destruct Hc.
Qed.

Lemma lru_exec_refines c s :
  lru_ok s -> (0 <= lc_maxSize s)%Z -> exists s',
  lru_exec c s = Ret (fst (sp_exec c (abs_lru s))) s' /\ lru_ok s' /\
  abs_lru s' = snd (sp_exec c (abs_lru s)).
Proof.
  intros Hok Hmax.
  assert (length (recency s) = length (lc_keys s)) as Hlen
    by (unfold recency; by rewrite length_fmap).
  destruct c as [k v | k | k | k | | | | n | n |]; simpl.
  - destruct (LruCache_set_spec s k v Hok Hmax) as (s' & Hr & ?).
    exists s'. by rewrite (fmap_Ret _ _ _ _ _ Hr).
  - destruct (LruCache_get_spec s k Hok) as (s' & Hr & ?).
    exists s'. rewrite (fmap_Ret _ _ _ _ _ Hr). by destruct (sp_get k (abs_lru s)).
  - destruct (LruCache_del_spec s k Hok) as (s' & Hr & ?).
    exists s'. by rewrite (fmap_Ret _ _ _ _ _ Hr).
  - exists s. split; [| done]. pose proof (index_lookup s k Hok) as Hx.
    unfold LruCache_exists, fmap, M_fmap. erewrite bind_Ret by reflexivity.
    destruct (lc_cache s !! k); [destruct Hx as (v & _ & _ & ->) | rewrite Hx];
      unfold mret, M_ret.
    + by rewrite !bool_decide_true.
    + by rewrite !bool_decide_false by (by intros [? ?]).
  - exists s. split; [| done]. unfold LruCache_size, fmap, M_fmap.
    erewrite bind_Ret by reflexivity. unfold mret, M_ret, cache_size.
    by rewrite (size_index s Hok), Hlen.
  - exists s. split; [| done]. unfold LruCache_empty, fmap, M_fmap.
    erewrite bind_Ret by reflexivity. unfold mret, M_ret. do 2 f_equal.
    apply bool_decide_ext. rewrite <- map_size_empty_iff, (size_index s Hok), <- Hlen.
    by rewrite length_zero_iff_nil.
  - eexists. split; [reflexivity |]. split; [apply lru_ok_empty | done].
  - eexists. split; [reflexivity |]. split; [by apply lru_ok_config | done].
  - eexists. split; [reflexivity |]. split; [by apply lru_ok_config | done].
  - eexists. split; [reflexivity |]. split; [by apply lru_ok_config | done].
Qed.

Lemma lru_run_refines cs s :
  lru_ok s -> (0 <= lc_maxSize s)%Z -> Forall lru_cmd_ok cs -> exists s',
  lru_run cs s = Ret (fst (sp_run cs (abs_lru s))) s' /\ lru_ok s' /\
  abs_lru s' = snd (sp_run cs (abs_lru s)).
Proof.
  intros Hok Hmax Hcs. revert s Hok Hmax.
  induction Hcs as [| c cs Hc _ IH]; intros s Hok Hmax; simpl; [by exists s |].
  destruct (lru_exec_refines c s Hok Hmax) as (s1 & Hr & Hok1 & Ha1).
  pose proof (sp_max_exec c (abs_lru s) Hmax Hc) as Hmax1. rewrite <- Ha1 in Hmax1.
  destruct (IH s1 Hok1 Hmax1) as (s2 & Hrs & Hok2 & Ha2).
  exists s2. rewrite (bind_Ret _ _ _ _ _ Hr), (bind_Ret _ _ _ _ _ Hrs).
  destruct (sp_exec c (abs_lru s)) as [r a]. simpl in *. subst a.
  by destruct (sp_run cs (abs_lru s1)).
Qed.

Lemma new_LruCache_ok m e st : lru_ok (new_LruCache m e st).
Proof. apply (lru_ok_empty (new_LruCache m e st)). Qed.

(** C7: an [LruCache] is a recency list.  On every sequence of calls, from a
    new cache with any limits, the hash index and the linked list stay
    consistent (no dangling iterator is followed, pruning ends), and the
    replies, the items and their order, the counters and the calls of the
    prune callback are those of the recency list. *)
Theorem LruCache_refines_recency (max_size elasticity : Z) (st : CacheStatus)
    (cs : list lru_cmd) (Hmax : in_u 64 max_size) (Hcs : Forall lru_cmd_ok cs) :
  exists s, lru_run cs (new_LruCache max_size elasticity st) =
      Ret (fst (sp_run cs (mk_spec [] max_size elasticity None st))) s /\
    lru_ok s /\ abs_lru s = snd (sp_run cs (mk_spec [] max_size elasticity None st)).
Proof.
  apply (lru_run_refines cs (new_LruCache max_size elasticity st));
    [apply new_LruCache_ok | by destruct Hmax | done].
Qed.

(** ** Which items survive *)

(** Of each key the first entry. *)
Fixpoint newest (l : list (K * V)) : list (K * V) :=
  match l with
  | [] => []
  | (k, v) :: l => (k, v) :: without k (newest l)
  end.

Lemma without_keys k l k' : k' ∈ (fst <$> without k l) <-> k' ∈ (fst <$> l) /\ k' <> k.
Proof.
  unfold without. rewrite !list_elem_of_fmap. split.
  - intros (x & -> & [Hne Hx]%list_elem_of_filter). split; [by exists x | done].
  - intros [(x & -> & Hx) Hne]. exists x. split; [done |]. by apply list_elem_of_filter.
Qed.

Lemma without_NoDup k l : NoDup (fst <$> l) -> NoDup (fst <$> without k l).
Proof.
  unfold without. induction l as [| x l IH]; [done |]. simpl.
  intros [Hx Hd]%NoDup_cons. rewrite filter_cons. case_decide; simpl; [| by apply IH].
  apply NoDup_cons. split; [| by apply IH]. by intros [Hx' _]%without_keys.
Qed.

Lemma newest_NoDup l : NoDup (fst <$> newest l).
Proof.
  induction l as [| [k v] l IH]; simpl; constructor.
  - by intros [_ ?]%without_keys.
  - by apply without_NoDup.
Qed.

Lemma without_cons k x l :
  without k (x :: l) = if decide (fst x = k) then without k l else x :: without k l.
Proof.
  unfold without. rewrite filter_cons. destruct (decide (fst x = k)) as [Hx | Hx].
  - by rewrite decide_False by (intros Hn; by apply Hn).
  - by rewrite decide_True.
Qed.

Lemma without_take k l n :
  NoDup (fst <$> l) ->
  if decide (k ∈ (fst <$> take n l))
  then without k (take n l) = take (n - 1) (without k l) /\ 0 < n
  else forall m, m <= n -> take m (without k l) = take m l.
Proof.
  revert n. induction l as [| x l IH]; intros n Hd.
  { rewrite take_nil. case_decide as Hk; [by apply elem_of_nil in Hk | done]. }
  rewrite fmap_cons in Hd. apply NoDup_cons in Hd as [Hx Hd]. destruct n as [| n].
  { rewrite decide_False by (rewrite take_0; apply not_elem_of_nil).
    intros m Hm. by replace m with 0 by lia. }
  specialize (IH n Hd). rewrite firstn_cons, fmap_cons, !without_cons.
  destruct (decide (fst x = k)) as [Hxk | Hxk].
  - rewrite decide_True by (apply elem_of_cons; by left). split; [| lia].
    rewrite !without_absent; [f_equal; lia | by rewrite <- Hxk |].
    rewrite <- Hxk. intros Hin. apply Hx. apply list_elem_of_fmap in Hin as (y & -> & Hy).
    apply list_elem_of_fmap_2. apply elem_of_take in Hy as (j & Hj & _).
    by eapply list_elem_of_lookup_2.
  - destruct (decide (k ∈ (fst <$> take n l))) as [Hk | Hk].
    + rewrite decide_True by (apply elem_of_cons; by right).
      destruct IH as [-> Hn]. split; [| lia].
      by replace (S n - 1) with (S (n - 1)) by lia.
    + rewrite decide_False.
      * intros [| m] Hm; [done |]. simpl. f_equal. apply IH. lia.
      * rewrite elem_of_cons. intros [-> | Hin]; done.
Qed.

Lemma sp_set_newest k v L n a :
  sp_items a = take n L -> NoDup (fst <$> L) -> sp_max a = Z.of_nat n -> 0 < n ->
  (Z.of_nat n < 2 ^ 64)%Z -> sp_ela a = 0%Z ->
  sp_items (sp_set k v a) = take n ((k, v) :: without k L) /\
  sp_max (sp_set k v a) = sp_max a /\ sp_ela (sp_set k v a) = 0%Z.
Proof.
  intros Hi Hd Hm Hn Hn64 He. unfold sp_set. rewrite Hi.
  pose proof (without_take k L n Hd) as Hw.
  destruct n as [| n]; [lia |]. rewrite firstn_cons.
  destruct (lookup_key k (take (S n) L)) as [w |] eqn:Hl.
  - rewrite decide_True in Hw.
    2: { destruct (decide (k ∈ (fst <$> take (S n) L))) as [| Hn']; [done |].
         apply lookup_key_None in Hn'. congruence. }
    destruct Hw as [Hw _]. simpl in Hw. rewrite Nat.sub_0_r in Hw.
    simpl sp_items. by rewrite <- Hw.
  - apply lookup_key_None in Hl. rewrite decide_False in Hw by done.
    unfold sp_prune. cbn [sp_with sp_max sp_items sp_ela]. rewrite He, Hm, Z.add_0_r.
    unfold u64. rewrite uwrap_id by (unfold in_u; lia).
    rewrite (proj2 (Z.eqb_neq _ _)) by lia. rewrite orb_false_l.
    case_match eqn:Hlt; cbn [sp_items sp_max sp_ela sp_with].
    + apply Z.ltb_lt in Hlt. simpl length in Hlt. rewrite length_take in Hlt.
      split_and!; [| done | done]. f_equal. rewrite Hw by lia.
      rewrite !take_ge by lia. done.
    + rewrite Nat2Z.id, firstn_cons. split_and!; [| done | done]. f_equal.
      rewrite take_take, Hw by lia. f_equal. lia.
Qed.

(** The cache keeps the most recently set items.  After any sequence of
    [set] calls on a cache of [n] items and no elasticity, its contents, in
    order, are the last [n] distinct keys set, each with the last value given
    for it. *)
Theorem LruCache_keeps_most_recent (n : nat) (kvs : list (K * V))
    (Hn : 0 < n) (Hn64 : (Z.of_nat n < 2 ^ 64)%Z) :
  exists rs s, lru_run ((fun x => LSet (fst x) (snd x)) <$> kvs)
      (new_LruCache (Z.of_nat n) 0 new_CacheStatus) = Ret rs s /\
    recency s = take n (newest (reverse kvs)).
Proof.
  set (s0 := new_LruCache (Z.of_nat n) 0 new_CacheStatus).
  assert (forall l0 a, sp_items a = take n (newest l0) -> sp_max a = Z.of_nat n ->
    sp_ela a = 0%Z ->
    sp_items (snd (sp_run ((fun x => LSet (fst x) (snd x)) <$> kvs) a)) =
    take n (newest (reverse kvs ++ l0))) as Hrun.
  { induction kvs as [| [k v] kvs IH]; intros l0 a Hi Hm He; [done |].
    simpl. destruct (sp_set_newest k v (newest l0) n a Hi (newest_NoDup l0))
      as (Hi' & Hm' & He'); [done | done | done | done |].
    specialize (IH ((k, v) :: l0) (sp_set k v a)).
    destruct (sp_run _ (sp_set k v a)) as [rs a'] eqn:Hr. simpl in *.
    rewrite IH by (done || congruence).
    by rewrite reverse_cons, <- app_assoc. }
  destruct (lru_run_refines ((fun x => LSet (fst x) (snd x)) <$> kvs) s0)
    as (s & Hr & _ & Ha).
  - apply new_LruCache_ok.
  - simpl. lia.
  - apply Forall_fmap, Forall_true. done.
  - do 2 eexists. split; [exact Hr |].
    change (recency s) with (sp_items (abs_lru s)). rewrite Ha, (Hrun []); try done.
    + by rewrite app_nil_r.
    + symmetry. apply take_nil.
Qed.

(** ** The size stays within the limits *)

Definition keeps_limits (c : lru_cmd) : Prop :=
  match c with LSetMax _ | LSetEla _ => False | _ => True end.

Definition within (a : lru_spec) : Prop :=
  (Z.of_nat (length (sp_items a)) <= Z.max (sp_max a) (sp_max a + sp_ela a - 1))%Z.

Lemma length_without k l : length (without k l) <= length l.
Proof. apply length_filter. Qed.

Lemma length_without_in k l v :
  NoDup (fst <$> l) -> lookup_key k l = Some v -> S (length (without k l)) <= length l.
Proof.
  intros Hd Hl. apply lookup_key_Some in Hl; [| done].
  unfold without. apply length_filter_lt with (x := (k, v)); [done |]. simpl. auto.
Qed.

Lemma sp_exec_within c a :
  (0 < sp_max a)%Z -> (0 <= sp_ela a)%Z -> (sp_max a + sp_ela a < 2 ^ 64)%Z ->
  NoDup (fst <$> sp_items a) -> keeps_limits c -> within a ->
  within (snd (sp_exec c a)) /\ sp_max (snd (sp_exec c a)) = sp_max a /\
  sp_ela (snd (sp_exec c a)) = sp_ela a.
Proof.
  unfold within. intros Hm He H64 Hd Hc Hw.
  destruct c as [k v | k | k | k | | | | n | n |]; simpl in *; try done.
  - unfold sp_set. destruct (lookup_key k (sp_items a)) as [w |] eqn:Hl; simpl.
    + pose proof (length_without_in k _ w Hd Hl). lia.
    + unfold sp_prune. cbn [sp_with sp_max sp_items sp_ela].
      unfold u64. rewrite uwrap_id by (unfold in_u; lia).
      rewrite (proj2 (Z.eqb_neq _ _)) by lia. rewrite orb_false_l.
      case_match eqn:Hlt; simpl.
      * apply Z.ltb_lt in Hlt. simpl in Hlt. lia.
      * rewrite length_take. simpl. lia.
  - unfold sp_get. destruct (lookup_key k (sp_items a)) as [w |] eqn:Hl; simpl; [| done].
    pose proof (length_without_in k _ w Hd Hl). lia.
  - pose proof (length_without k (sp_items a)). lia.
  - lia.
Qed.

Lemma recency_NoDup s : lru_ok s -> NoDup (fst <$> recency s).
Proof. intros Hok. rewrite recency_keys. apply (lo_keys _ Hok). Qed.

Lemma lru_run_within cs s :
  lru_ok s -> (0 < lc_maxSize s)%Z -> (0 <= lc_elasticity s)%Z ->
  (lc_maxSize s + lc_elasticity s < 2 ^ 64)%Z -> Forall keeps_limits cs ->
  within (abs_lru s) ->
  exists rs s', lru_run cs s = Ret rs s' /\ lru_ok s' /\ within (abs_lru s') /\
    lc_maxSize s' = lc_maxSize s /\ lc_elasticity s' = lc_elasticity s.
Proof.
  intros Hok Hm He H64 Hcs Hw. revert s Hok Hm He H64 Hw.
  induction Hcs as [| c cs Hc _ IH]; intros s Hok Hm He H64 Hw; simpl.
  { by exists [], s. }
  destruct (lru_exec_refines c s Hok ltac:(lia)) as (s1 & Hr & Hok1 & Ha1).
  destruct (sp_exec_within c (abs_lru s)) as (Hw1 & Hm1 & He1); auto.
  { by apply recency_NoDup. }
  rewrite <- Ha1 in Hw1, Hm1, He1. simpl in Hm1, He1.
  destruct (IH s1) as (rs & s2 & Hrs & ? & ? & ? & ?); try (done || lia).
  do 2 eexists. rewrite (bind_Ret _ _ _ _ _ Hr), (bind_Ret _ _ _ _ _ Hrs).
  split_and!; [reflexivity | done | done | congruence | congruence].
Qed.

End lru.
Arguments LruCache : clear implicits.
Arguments LruCache K V {_ _}.

(** ** HashLruCache

    One cache per bucket, all reporting to one [CacheStatus]: a call runs on
    the selected cache with the shared counters. *)
Section hash_lru.
Context {K V : Type} `{Countable K}.
(** [std::hash<K>], a [size_t]. *)
Context (hash : K -> Z).

Record HashLruCache := mk_HashLruCache {
  hl_datas : list (LruCache K V);
  hl_bucket : Z;
  hl_maxSize : Z;
  hl_elasticity : Z;
  hl_status : CacheStatus
}.

(** [std::ceil(n * 1.0 / bucket)] converted to [size_t]. *)
Definition per_bucket (n bucket : Z) : Z :=
  Z.of_nat (ceil_div (Z.to_nat n) (Z.to_nat bucket)).

Definition new_HashLruCache (bucket max_size elasticity : Z) : HashLruCache :=
  let pre_max_size := per_bucket max_size bucket in
  let pre_elasticity := per_bucket elasticity bucket in
  mk_HashLruCache
    (replicate (Z.to_nat bucket) (new_LruCache pre_max_size pre_elasticity new_CacheStatus))
    bucket (u64 (pre_max_size * bucket)) (u64 (pre_elasticity * bucket)) new_CacheStatus.

Definition with_status (st : CacheStatus) (c : LruCache K V) : LruCache K V :=
  on_status (fun _ => st) c.

(** [_datas[_hash(k) % _bucket]->...] *)
Definition at_bucket {A} (k : K) (m : M (LruCache K V) A) : M HashLruCache A := fun h =>
  if (hl_bucket h =? 0)%Z then Undef DivByZero else
  let i := Z.to_nat (hash k mod hl_bucket h) in
  match hl_datas h !! i with
  | None => Undef BadIndex
  | Some c =>
    match m (with_status (hl_status h) c) with
    | Ret a c => Ret a (mk_HashLruCache (<[i := c]> (hl_datas h)) (hl_bucket h)
                          (hl_maxSize h) (hl_elasticity h) (lc_status c))
    | Throw e c => Throw e (mk_HashLruCache (<[i := c]> (hl_datas h)) (hl_bucket h)
                              (hl_maxSize h) (hl_elasticity h) (lc_status c))
    | Undef u => Undef u
    end
  end.

Definition HashLruCache_set (k : K) (v : V) : M HashLruCache unit :=
  at_bucket k (LruCache_set k v).
Definition HashLruCache_get (k : K) : M HashLruCache (option V) :=
  at_bucket k (LruCache_get k).
Definition HashLruCache_del (k : K) : M HashLruCache bool := at_bucket k (LruCache_del k).
Definition HashLruCache_exists (k : K) : M HashLruCache bool :=
  at_bucket k (LruCache_exists k).

Definition HashLruCache_size (h : HashLruCache) : Z :=
  foldr (fun c total => cache_size c + total)%Z 0%Z (hl_datas h).

Definition HashLruCache_empty (h : HashLruCache) : bool :=
  forallb (fun c => bool_decide (lc_cache c = ∅)) (hl_datas h).

Definition HashLruCache_clear : M HashLruCache unit :=
  modify (fun h => mk_HashLruCache (set_contents ∅ [] <$> hl_datas h) (hl_bucket h)
                     (hl_maxSize h) (hl_elasticity h) (hl_status h)).

Definition HashLruCache_setMaxSize (v : Z) : M HashLruCache unit :=
  modify (fun h =>
    let pre_max_size := per_bucket v (hl_bucket h) in
    mk_HashLruCache
      ((fun s => mk_LruCache (lc_cache s) (lc_keys s) pre_max_size (lc_elasticity s)
                   (lc_cb s) (lc_status s)) <$> hl_datas h)
      (hl_bucket h) (u64 (pre_max_size * hl_bucket h)) (hl_elasticity h) (hl_status h)).

Definition HashLruCache_setElasticity (v : Z) : M HashLruCache unit :=
  modify (fun h =>
    let pre_elasticity := per_bucket v (hl_bucket h) in
    mk_HashLruCache
      ((fun s => mk_LruCache (lc_cache s) (lc_keys s) (lc_maxSize s) pre_elasticity
                   (lc_cb s) (lc_status s)) <$> hl_datas h)
      (hl_bucket h) (hl_maxSize h) (u64 (pre_elasticity * hl_bucket h)) (hl_status h)).

(** The calls of a client; a sequence of them. *)
Inductive hl_cmd :=
| HLSet (k : K) (v : V)
| HLGet (k : K)
| HLDel (k : K)
| HLClear.

Definition hl_exec (c : hl_cmd) : M HashLruCache (option V) :=
  match c with
  | HLSet k v => (fun _ => None) <$> HashLruCache_set k v
  | HLGet k => HashLruCache_get k
  | HLDel k => (fun _ => None) <$> HashLruCache_del k
  | HLClear => (fun _ => None) <$> HashLruCache_clear
  end.

Fixpoint hl_run (cs : list hl_cmd) : M HashLruCache unit :=
  match cs with
  | [] => mret ()
  | c :: cs => hl_exec c;; hl_run cs
  end.

(** ** Invariant *)

Definition bucket_ok (pm pe : Z) (c : LruCache K V) : Prop :=
  lru_ok c /\ lc_maxSize c = pm /\ lc_elasticity c = pe /\ within (abs_lru c).

Definition hl_ok (pm pe : Z) (h : HashLruCache) : Prop :=
  (0 < hl_bucket h)%Z /\ length (hl_datas h) = Z.to_nat (hl_bucket h) /\
  Forall (bucket_ok pm pe) (hl_datas h).

Lemma with_status_ok pm pe st c : bucket_ok pm pe c -> bucket_ok pm pe (with_status st c).
Proof. intros (Hok & ? & ? & ?). split_and!; auto. by apply lru_ok_status. Qed.

(** A call that keeps a bucket's invariant keeps the whole. *)
Lemma at_bucket_ok {A} pm pe k (m : M (LruCache K V) A) h :
  hl_ok pm pe h ->
  (forall c, bucket_ok pm pe c -> exists a c', m c = Ret a c' /\ bucket_ok pm pe c') ->
  exists a h', at_bucket k m h = Ret a h' /\ hl_ok pm pe h' /\
    hl_bucket h' = hl_bucket h.
Proof.
  intros (Hb & Hl & Hf) Hm. unfold at_bucket.
  rewrite (proj2 (Z.eqb_neq _ _)) by lia.
  pose proof (Z.mod_pos_bound (hash k) (hl_bucket h) Hb).
  destruct (lookup_lt_is_Some_2 (hl_datas h) (Z.to_nat (hash k mod hl_bucket h)))
    as [c Hc]; [lia |].
  rewrite Hc. rewrite Forall_lookup in Hf.
  destruct (Hm (with_status (hl_status h) c)) as (a & c' & -> & Hc').
  { apply with_status_ok. by eapply Hf. }
  do 2 eexists. split; [reflexivity |]. split; [| done].
  split_and!; [done | simpl; by rewrite length_insert |]. simpl.
  apply Forall_insert; [by apply Forall_lookup | done].
Qed.

Lemma lru_cmd_bucket_ok pm pe (c : @lru_cmd K V) s :
  (0 < pm)%Z -> (0 <= pe)%Z -> (pm + pe < 2 ^ 64)%Z -> keeps_limits c ->
  bucket_ok pm pe s -> exists r s', lru_exec c s = Ret r s' /\ bucket_ok pm pe s'.
Proof.
  intros Hm He H64 Hc (Hok & Hsm & Hse & Hw).
  destruct (lru_run_within [c] s) as (rs & s' & Hr & ? & ? & ? & ?);
    try (done || lia); [by repeat constructor |].
  simpl in Hr. unfold mbind, M_bind in Hr.
  destruct (lru_exec c s) as [r s1 | |] eqn:He1; try done. simpl in Hr.
  exists r, s1. split; [done |]. unfold mret, M_ret in Hr. injection Hr as _ ->.
  split_and!; (done || congruence).
Qed.

Lemma fmap_Ret_inv {S A B} (f : A -> B) (m : M S A) s b s' :
  (f <$> m) s = Ret b s' -> exists a, m s = Ret a s'.
Proof.
  unfold fmap, M_fmap. destruct (m s) as [a s1 | |]; try done.
  intros [= _ <-]. by exists a.
Qed.

Lemma hl_exec_ok pm pe c h :
  (0 < pm)%Z -> (0 <= pe)%Z -> (pm + pe < 2 ^ 64)%Z -> hl_ok pm pe h ->
  exists a h', hl_exec c h = Ret a h' /\ hl_ok pm pe h' /\ hl_bucket h' = hl_bucket h.
Proof.
  intros Hm He H64 Hh. destruct c as [k v | k | k |]; simpl.
  - destruct (at_bucket_ok pm pe k (LruCache_set k v) h Hh) as (a & h' & Hr & ?).
    { intros c Hc. destruct (lru_cmd_bucket_ok pm pe (LSet k v) c) as (r & c' & Hr & ?);
        [done.. |].
      apply fmap_Ret_inv in Hr as [u Hu]. by exists u, c'. }
    unfold HashLruCache_set. rewrite (fmap_Ret _ _ _ _ _ Hr). eauto.
  - destruct (at_bucket_ok pm pe k (LruCache_get k) h Hh) as (a & h' & Hr & ?).
    { intros c Hc. destruct (lru_cmd_bucket_ok pm pe (LGet k) c) as (r & c' & Hr & ?);
        [done.. |].
      apply fmap_Ret_inv in Hr as [u Hu]. by exists u, c'. }
    unfold HashLruCache_get. rewrite Hr. eauto.
  - destruct (at_bucket_ok pm pe k (LruCache_del k) h Hh) as (a & h' & Hr & ?).
    { intros c Hc. destruct (lru_cmd_bucket_ok pm pe (LDel k) c) as (r & c' & Hr & ?);
        [done.. |].
      apply fmap_Ret_inv in Hr as [u Hu]. by exists u, c'. }
    unfold HashLruCache_del. rewrite (fmap_Ret _ _ _ _ _ Hr). eauto.
  - destruct Hh as (Hb & Hl & Hf). do 2 eexists. split; [reflexivity |].
    split; [| done]. split_and!; [done | simpl; by rewrite length_fmap |].
    apply Forall_fmap. eapply Forall_impl; [exact Hf |].
    intros c (Hok & ? & ? & Hw). split_and!; [apply lru_ok_empty | done | done |].
    unfold within in *. simpl in *. lia.
Qed.

Lemma hl_size_bound pm pe h : hl_ok pm pe h ->
  (HashLruCache_size h <= hl_bucket h * Z.max pm (pm + pe - 1))%Z.
Proof.
  intros (Hb & Hl & Hf). unfold HashLruCache_size.
  replace (hl_bucket h) with (Z.of_nat (length (hl_datas h))) by lia.
  clear Hb Hl. induction Hf as [| c l (Hok & Hm & He & Hw) _ IH]; cbn [foldr]; [simpl; lia |].
  unfold within in Hw. simpl in Hw. unfold cache_size at 1.
  rewrite (size_index c Hok), <- (length_fmap snd). fold (recency c).
  rewrite Hm, He in Hw. cbn [length]. rewrite Nat2Z.inj_succ, Z.mul_succ_l. lia.
Qed.

Lemma per_bucket_bound n b : (0 < b)%Z -> (0 <= n)%Z ->
  (n <= per_bucket n b * b < n + b)%Z.
Proof.
  intros Hb Hn. unfold per_bucket, ceil_div.
  pose proof (Nat.div_mod_eq (Z.to_nat n + Z.to_nat b - 1) (Z.to_nat b)) as Hd.
  pose proof (Nat.mod_upper_bound (Z.to_nat n + Z.to_nat b - 1) (Z.to_nat b)) as Hu.
  nia.
Qed.

(** The size of a [HashLruCache] is bounded.  For a positive number of
    buckets and a positive limit, every sequence of calls returns and leaves
    at most [getMaxSize()] items when there is no elasticity, and fewer than
    [getMaxSize() + getElasticity()] with elasticity at least the number of
    buckets; and [getMaxSize()] exceeds the limit asked for by less than the
    number of buckets. *)
Theorem HashLruCache_size_bound (bucket max_size elasticity : Z) (cs : list hl_cmd)
    (Hb : (0 < bucket < 2 ^ 31)%Z) (Hm : (0 < max_size < 2 ^ 53)%Z)
    (He : (0 <= elasticity < 2 ^ 53)%Z) :
  exists h, hl_run cs (new_HashLruCache bucket max_size elasticity) = Ret tt h /\
    (HashLruCache_size h <=
      Z.max (hl_maxSize (new_HashLruCache bucket max_size elasticity))
            (hl_maxSize (new_HashLruCache bucket max_size elasticity) +
             hl_elasticity (new_HashLruCache bucket max_size elasticity) - bucket))%Z /\
    (max_size <= hl_maxSize (new_HashLruCache bucket max_size elasticity) <
     max_size + bucket)%Z.
Proof.
  set (pm := per_bucket max_size bucket). set (pe := per_bucket elasticity bucket).
  pose proof (per_bucket_bound max_size bucket ltac:(lia) ltac:(lia)) as Hpm.
  pose proof (per_bucket_bound elasticity bucket ltac:(lia) ltac:(lia)) as Hpe.
  fold pm in Hpm. fold pe in Hpe.
  assert (hl_maxSize (new_HashLruCache bucket max_size elasticity) = pm * bucket)%Z as ->.
  { simpl. fold pm. unfold u64. apply uwrap_id. unfold in_u. lia. }
  assert (hl_elasticity (new_HashLruCache bucket max_size elasticity) = pe * bucket)%Z as ->.
  { simpl. fold pe. unfold u64. apply uwrap_id. unfold in_u. lia. }
  assert (0 <= pe)%Z as Hpe0 by (unfold pe, per_bucket; lia).
  assert (0 < pm)%Z as Hpm0 by nia.
  assert (pm + pe < 2 ^ 64)%Z as H64 by nia.
  assert (hl_ok pm pe (new_HashLruCache bucket max_size elasticity)) as Hok.
  { split_and!; [simpl; lia | simpl; by rewrite length_replicate |]. simpl.
    apply Forall_replicate. split_and!; [apply new_LruCache_ok | done | done |].
    unfold within. simpl. lia. }
  assert (hl_bucket (new_HashLruCache bucket max_size elasticity) = bucket) as Hbk by done.
  revert Hok Hbk. generalize (new_HashLruCache bucket max_size elasticity) as h.
  induction cs as [| c cs IH]; intros h Hok Hbk; simpl.
  - exists h. split_and!; [done | | lia | lia].
    pose proof (hl_size_bound pm pe h Hok) as Hs. rewrite Hbk in Hs. nia.
  - destruct (hl_exec_ok pm pe c h Hpm0 Hpe0 H64 Hok) as (a & h1 & Hr & Hok1 & Hb1).
    rewrite (bind_Ret _ _ _ _ _ Hr). apply IH; [done | congruence].
Qed.

End hash_lru.

(** Three keys in a cache of two, then a prune callback. *)
Definition lru_demo : list (@lru_cmd Z Z) :=
  [LSetCb; LSet 1 10; LSet 2 20; LGet 1; LSet 3 30; LExists 2; LDel 3; LSize]%Z.

Lemma LruCache_refines_recency_witness :
  exists s, lru_run lru_demo (new_LruCache 2 0 new_CacheStatus) =
      Ret (fst (sp_run lru_demo (mk_spec [] 2 0 None new_CacheStatus))) s /\
    lru_ok s /\ abs_lru s = snd (sp_run lru_demo (mk_spec [] 2 0 None new_CacheStatus)).
Proof.
  apply (LruCache_refines_recency 2 0 new_CacheStatus lru_demo).
  - by vm_compute.
  - by repeat constructor.
Defined.

Lemma LruCache_keeps_most_recent_witness :
  exists rs s, lru_run ((fun x => LSet (fst x) (snd x)) <$> [(1, 1); (2, 2); (1, 3); (4, 4)]%Z)
      (new_LruCache (Z.of_nat 2) 0 new_CacheStatus) = Ret rs s /\
    recency s = take 2 (newest (reverse [(1, 1); (2, 2); (1, 3); (4, 4)]%Z)).
Proof. apply LruCache_keeps_most_recent; lia. Defined.

Lemma HashLruCache_size_bound_witness :
  exists h, hl_run (fun k : Z => k) [HLSet 1 1; HLSet 4 4; HLGet 1; HLClear]%Z
      (new_HashLruCache 3 5 0) = Ret tt h /\
    (HashLruCache_size h <=
      Z.max (hl_maxSize (K := Z) (V := Z) (new_HashLruCache 3 5 0))
            (hl_maxSize (K := Z) (V := Z) (new_HashLruCache 3 5 0) +
             hl_elasticity (K := Z) (V := Z) (new_HashLruCache 3 5 0) - 3))%Z /\
    (5 <= hl_maxSize (K := Z) (V := Z) (new_HashLruCache 3 5 0) < 5 + 3)%Z.
Proof. apply HashLruCache_size_bound; lia. Defined.

(** The demo evicts key 2, the least recently used. *)
Example lru_demo_replies :
  match lru_run lru_demo (new_LruCache 2 0 new_CacheStatus) with
  | Ret rs s => drop 3 rs =
      [LR_val (Some 10%Z); LR_unit; LR_bool false; LR_bool true; LR_num 1] /\
      lc_cb s = Some [(2, 20)]%Z
  | _ => False
  end.
Proof. vm_compute. done. Qed.
