(* ===== verification/TimedLruCache.v ===== *)
(** * TimedLruCache

    [src/include/datastruct/timed_lru_cache.h]: an LRU cache whose items also
    carry a deadline.  The third structure, [_timed], is a [std::set] of list
    iterators ordered by deadline and key.  An item is the key with its value
    and its deadline, so the list and the index are those of file LruCache.

    The specification is again the recency list, now of items with deadlines:
    [TimedLruCache_refines_recency] shows that the three structures stay
    together on every sequence of calls, and that [checkTimeout] removes
    exactly the items whose deadline has passed, reporting them in order of
    deadline. *)

From S2P Require Import Prelude SortedVec CacheStatus LruCache.
From stdpp Require Import base list list_numbers numbers option gmap fin_maps sorting.
From Stdlib Require Import ZArith Lia.

(** Pairs compared by the first component, then by the second. *)
Definition pair_ltb {A B} `{StrictOrd A, StrictOrd B} (x y : A * B) : bool :=
  ltb (fst x) (fst y) || (negb (ltb (fst y) (fst x)) && ltb (snd x) (snd y)).

#[export] Program Instance pair_StrictOrd {A B} `{StrictOrd A, StrictOrd B} :
  StrictOrd (A * B) := {| ltb := pair_ltb |}.
Next Obligation.
  intros A B HA HB [a b]. unfold pair_ltb. simpl. by rewrite !ltb_irrefl.
Qed.
Next Obligation.
  intros A B HA HB [a b] [c d] [e f]. unfold pair_ltb. simpl.
  rewrite !orb_true_iff, !andb_true_iff, !negb_true_iff.
  intros [Hac | [Hca Hbd]] [Hce | [Hec Hdf]].
  - left. by eapply ltb_trans.
  - left. by apply (ltb_le_trans a c e).
  - left. by apply (ltb_le_trans_l a c e).
  - destruct (ltb a e) eqn:Hae; [by left | right]. split; [| by eapply ltb_trans].
    destruct (ltb e a) eqn:Hea; [| done].
    rewrite (ltb_le_trans_l c e a) in Hca; done.
Qed.
Next Obligation.
  intros A B HA HB [a b] [c d]. unfold pair_ltb. simpl.
  rewrite !orb_false_iff, !andb_false_iff, !negb_false_iff.
  intros [Hac Hbd] [Hca Hdb].
  f_equal; apply ltb_total; intuition congruence.
Qed.

Definition option_ltb {K} `{StrictOrd K} (a b : option K) : bool :=
  match a, b with
  | Some x, Some y => ltb x y
  | None, Some _ => true
  | _, None => false
  end.

#[export] Program Instance option_StrictOrd {K} `{StrictOrd K} : StrictOrd (option K) :=
  {| ltb := option_ltb |}.
Next Obligation. intros K HK [x |]; simpl; [apply ltb_irrefl | done]. Qed.
Next Obligation.
  intros K HK [x |] [y |] [z |]; simpl; try done. apply ltb_trans.
Qed.
Next Obligation.
  intros K HK [x |] [y |]; simpl; try done. intros. f_equal. by apply ltb_total.
Qed.

(** ** [std::set] with a comparison on elements *)

Section sets.
Context {A : Type} (lt : A -> A -> bool).

(** [insert(x)]: no effect when an equivalent element is there. *)
Fixpoint set_insert (x : A) (l : list A) : list A :=
  match l with
  | [] => [x]
  | y :: l => if lt x y then x :: y :: l
              else if lt y x then y :: set_insert x l
              else y :: l
  end.

(** [erase(x)]: the element equivalent to [x] goes. *)
Fixpoint set_erase (x : A) (l : list A) : list A :=
  match l with
  | [] => []
  | y :: l => if lt x y then y :: l
              else if lt y x then y :: set_erase x l
              else l
  end.
End sets.

Section set_lemmas.
Context {A T : Type} `{StrictOrd T} (f : A -> T).

Local Abbreviation lt := (fun a b => ltb (f a) (f b)).

Lemma set_erase_perm x l : sorted f l -> x ∈ l -> x :: set_erase lt x l ≡ₚ l.
Proof.
  induction 1 as [| y l Hs IH Hy]; intros Hin; simpl.
  { by apply elem_of_nil in Hin. }
  rewrite Forall_forall in Hy. apply elem_of_cons in Hin as [<- | Hin].
  - by rewrite ltb_irrefl.
  - specialize (Hy x Hin). unfold key_lt in Hy.
    rewrite (ltb_asym _ _ Hy), Hy. rewrite <- (IH Hin) at 2. apply perm_swap.
Qed.

Lemma set_erase_sorted x l : sorted f l -> sorted f (set_erase lt x l).
Proof.
  induction 1 as [| y l Hs IH Hy]; simpl; [constructor |].
  destruct (ltb (f x) (f y)); [by constructor |].
  destruct (ltb (f y) (f x)); [| done]. constructor; [done |].
  rewrite Forall_forall in Hy |- *. intros z Hz. apply Hy. clear -Hz.
  induction l as [| w l IHl]; simpl in *; [done |].
  destruct (ltb (f x) (f w)); [done |]. destruct (ltb (f w) (f x)); [| by right].
  apply elem_of_cons in Hz as [-> | Hz]; [by left | right; by apply IHl].
Qed.

Lemma set_insert_perm x l : f x ∉ (f <$> l) -> set_insert lt x l ≡ₚ x :: l.
Proof.
  induction l as [| y l IH]; intros Hx; simpl; [done |].
  rewrite fmap_cons, not_elem_of_cons in Hx. destruct Hx as [Hne Hx].
  destruct (ltb (f x) (f y)) eqn:E1; [done |].
  destruct (ltb (f y) (f x)) eqn:E2.
  - rewrite (IH Hx). apply perm_swap.
  - destruct Hne. by apply ltb_total.
Qed.

Lemma set_insert_sorted x l :
  sorted f l -> f x ∉ (f <$> l) -> sorted f (set_insert lt x l).
Proof.
  induction 1 as [| y l Hs IH Hy]; intros Hx; simpl; [by repeat constructor |].
  rewrite fmap_cons, not_elem_of_cons in Hx. destruct Hx as [Hne Hx].
  destruct (ltb (f x) (f y)) eqn:E1.
  - constructor; [by constructor |]. constructor; [done |].
    eapply Forall_impl; [exact Hy |]. intros z Hz. by eapply ltb_trans.
  - destruct (ltb (f y) (f x)) eqn:E2; [| by constructor].
    constructor; [by apply IH |]. rewrite set_insert_perm by done. by constructor.
Qed.

Lemma set_ops_ext (lt' : A -> A -> bool) x l :
  (forall a b, lt' a b = ltb (f a) (f b)) ->
  set_erase lt' x l = set_erase lt x l /\ set_insert lt' x l = set_insert lt x l.
Proof.
  intros He. induction l as [| y l [IH1 IH2]]; simpl; [done |].
  by rewrite !He, IH1, IH2.
Qed.

Lemma sorted_ext (g : A -> T) l :
  (forall a, a ∈ l -> f a = g a) -> sorted f l -> sorted g l.
Proof.
  intros He Hs. apply (sorted_fmap_keys g). apply (sorted_fmap_keys f) in Hs.
  replace (g <$> l) with (f <$> l); [done |].
  apply list_fmap_ext. intros i a Ha. apply He. by eapply list_elem_of_lookup_2.
Qed.

Lemma sorted_tail y l : sorted f (y :: l) -> sorted f l.
Proof. by inversion 1. Qed.
End set_lemmas.

Section timed_lru.
Context {K V : Type} `{Countable K, StrictOrd K}.

Local Abbreviation lru := (LruCache K (V * Z)).

Record TimedLruCache := mk_TimedLruCache {
  tl_lru : lru;                 (* _cache, _keys, the limits, _cb, _status *)
  tl_timed : list positive      (* std::set<list::iterator, ItemTimeOp> *)
}.

Definition new_TimedLruCache (max_size elasticity : Z) (status : CacheStatus) :
    TimedLruCache :=
  mk_TimedLruCache (new_LruCache max_size elasticity status) [].

(** The deadline and key of a node. *)
Definition time_key (l : list (positive * (K * (V * Z)))) (i : positive) : Z * option K :=
  match node_get i l with
  | Some (k, (v, ts)) => (ts, Some k)
  | None => (0%Z, None)
  end.

(** [ItemTimeOp] on iterators into the list [l]. *)
Definition ItemTimeOp (l : list (positive * (K * (V * Z)))) (a b : positive) : bool :=
  if decide (a = b) then false else
  let '(ta, ka) := time_key l a in
  let '(tb, kb) := time_key l b in
  if decide (ta = tb) then option_ltb ka kb else (ta <? tb)%Z.

(** The callback gets the key and the value. *)
Definition lift_lru (f : lru -> lru) (s : TimedLruCache) : TimedLruCache :=
  mk_TimedLruCache (f (tl_lru s)) (tl_timed s).

Definition set_timed (t : list positive) (s : TimedLruCache) : TimedLruCache :=
  mk_TimedLruCache (tl_lru s) t.

Fixpoint tl_prune_loop (fuel : nat) (count : Z) : M TimedLruCache Z := fun s =>
  let c := tl_lru s in
  if (lc_maxSize c <? cache_size c)%Z then
    match fuel, last (lc_keys c) with
    | S fuel, Some (i, x) =>
      let c1 := call_cb x c in
      let c2 := set_contents (delete (fst x) (lc_cache c1)) (lc_keys c1) c1 in
      let timed := set_erase (ItemTimeOp (lc_keys c2)) i (tl_timed s) in
      let c3 := set_contents (lc_cache c2) (take (length (lc_keys c2) - 1) (lc_keys c2)) c2 in
      tl_prune_loop fuel (count + 1) (mk_TimedLruCache c3 timed)
    | O, _ => Undef Diverges
    | _, None => Undef BadIndex
    end
  else Ret count s.

Definition TimedLruCache_prune : M TimedLruCache Z :=
  s ← get;
  let c := tl_lru s in
  if (lc_maxSize c =? 0)%Z || (cache_size c <? LruCache_getMaxAllowedSize c)%Z
  then mret 0%Z
  else
    count ← tl_prune_loop (length (lc_keys c)) 0;
    modify (lift_lru (on_status (CacheStatus_incPrune count)));;
    mret count.

Definition tl_splice_front (i : positive) : M TimedLruCache unit := fun s =>
  match node_to_front i (lc_keys (tl_lru s)) with
  | Some l => Ret tt (lift_lru (fun c => set_contents (lc_cache c) l c) s)
  | None => Undef NullDeref
  end.

Definition tl_deref (i : positive) : M TimedLruCache (K * (V * Z)) := fun s =>
  match node_get i (lc_keys (tl_lru s)) with
  | Some x => Ret x s
  | None => Undef NullDeref
  end.

Definition timed_erase (i : positive) (s : TimedLruCache) : TimedLruCache :=
  set_timed (set_erase (ItemTimeOp (lc_keys (tl_lru s))) i (tl_timed s)) s.

Definition timed_insert (i : positive) (s : TimedLruCache) : TimedLruCache :=
  set_timed (set_insert (ItemTimeOp (lc_keys (tl_lru s))) i (tl_timed s)) s.

(** [now] is [getCurrentMS()] at the call. *)
Definition TimedLruCache_set (k : K) (v : V) (expired now : Z) : M TimedLruCache unit :=
  modify (lift_lru (on_status (CacheStatus_incSet 1)));;
  s ← get;
  match lc_cache (tl_lru s) !! k with
  | Some it =>
    tl_splice_front it;;
    modify (timed_erase it);;
    x ← tl_deref it;
    modify (lift_lru (fun c => set_contents (lc_cache c)
              (node_set it (fst x, (v, u64 (expired + now))) (lc_keys c)) c));;
    modify (timed_insert it)
  | None =>
    let it := node_fresh (lc_keys (tl_lru s)) in
    modify (lift_lru (fun c => set_contents (lc_cache c)
              ((it, (k, (v, u64 (expired + now)))) :: lc_keys c) c));;
    modify (lift_lru (fun c => set_contents (<[k := it]> (lc_cache c)) (lc_keys c) c));;
    modify (timed_insert it);;
    TimedLruCache_prune;;
    mret ()
  end.

Definition TimedLruCache_get (k : K) : M TimedLruCache (option V) :=
  modify (lift_lru (on_status (CacheStatus_incGet 1)));;
  s ← get;
  match lc_cache (tl_lru s) !! k with
  | None => mret None
  | Some it =>
    tl_splice_front it;;
    x ← tl_deref it;
    modify (lift_lru (on_status (CacheStatus_incHit 1)));;
    mret (Some (fst (snd x)))
  end.

Definition TimedLruCache_del (k : K) : M TimedLruCache bool :=
  modify (lift_lru (on_status (CacheStatus_incDel 1)));;
  s ← get;
  match lc_cache (tl_lru s) !! k with
  | None => mret false
  | Some it =>
    modify (timed_erase it);;
    modify (lift_lru (fun c => set_contents (lc_cache c) (node_erase it (lc_keys c)) c));;
    modify (lift_lru (fun c => set_contents (delete k (lc_cache c)) (lc_keys c) c));;
    mret true
  end.

Definition TimedLruCache_exists (k : K) : M TimedLruCache bool :=
  s ← get; mret (bool_decide (is_Some (lc_cache (tl_lru s) !! k))).

Definition TimedLruCache_size : M TimedLruCache Z :=
  s ← get; mret (cache_size (tl_lru s)).

Definition TimedLruCache_clear : M TimedLruCache bool :=
  modify (fun s => mk_TimedLruCache (set_contents ∅ [] (tl_lru s)) []);; mret true.

Definition TimedLruCache_empty : M TimedLruCache bool :=
  s ← get; mret (cache_size (tl_lru s) =? 0)%Z.

Definition TimedLruCache_setMaxSize (v : Z) : M TimedLruCache unit :=
  modify (lift_lru (fun c => mk_LruCache (lc_cache c) (lc_keys c) v (lc_elasticity c) (lc_cb c) (lc_status c))).

Definition TimedLruCache_setElasticity (v : Z) : M TimedLruCache unit :=
  modify (lift_lru (fun c => mk_LruCache (lc_cache c) (lc_keys c) (lc_maxSize c) v (lc_cb c) (lc_status c))).

Definition TimedLruCache_setPruneCallback : M TimedLruCache unit :=
  modify (lift_lru (fun c => mk_LruCache (lc_cache c) (lc_keys c) (lc_maxSize c) (lc_elasticity c) (Some []) (lc_status c))).

(** [checkTimeout]: from the earliest deadline on. *)
Fixpoint timeout_loop (fuel : nat) (ts : Z) (count : Z) : M TimedLruCache Z := fun s =>
  match tl_timed s with
  | [] => Ret count s
  | i :: timed =>
    match fuel, node_get i (lc_keys (tl_lru s)) with
    | O, _ => Undef Diverges
    | _, None => Undef NullDeref
    | S fuel, Some x =>
      if (snd (snd x) <=? ts)%Z then
        let c1 := call_cb x (tl_lru s) in
        let c2 := set_contents (delete (fst x) (lc_cache c1)) (node_erase i (lc_keys c1)) c1 in
        timeout_loop fuel ts (count + 1) (mk_TimedLruCache c2 timed)
      else Ret count s
    end
  end.

Definition TimedLruCache_checkTimeout (ts : Z) : M TimedLruCache Z :=
  s ← get; timeout_loop (S (length (tl_timed s))) ts 0.

(** ** Invariant: the three structures hold the same items *)

Record tl_ok (s : TimedLruCache) : Prop := {
  tlo_lru : lru_ok (tl_lru s);
  tlo_sorted : sorted (time_key (lc_keys (tl_lru s))) (tl_timed s);
  tlo_perm : tl_timed s ≡ₚ (fst <$> lc_keys (tl_lru s))
}.

Lemma ItemTimeOp_ltb l a b : ItemTimeOp l a b = ltb (time_key l a) (time_key l b).
Proof.
  unfold ItemTimeOp. case_decide as Hab.
  { subst. by rewrite ltb_irrefl. }
  destruct (time_key l a) as [ta ka], (time_key l b) as [tb kb].
  simpl. unfold pair_ltb. simpl. case_decide as Ht.
  - subst. by rewrite Z.ltb_irrefl.
  - destruct (Z.ltb_spec ta tb) as [Hl | Hl]; [done |].
    by rewrite (proj2 (Z.ltb_lt tb ta)) by lia.
Qed.

Lemma time_key_ext l l' i : node_get i l = node_get i l' -> time_key l i = time_key l' i.
Proof. unfold time_key. by intros ->. Qed.

(** Looking up other nodes after a change. *)
Lemma node_get_erase (l : list (positive * (K * (V * Z)))) i j :
  i <> j -> node_get i (node_erase j l) = node_get i l.
Proof.
  intros Hne. unfold node_erase. induction l as [| [n x] l IH]; [done |].
  rewrite filter_cons. simpl. destruct (decide (n = j)) as [-> | Hnj].
  - rewrite decide_False by (intros Hn; by apply Hn). rewrite IH.
    by rewrite decide_False by congruence.
  - rewrite decide_True by done. simpl. by rewrite IH.
Qed.

(** *** Removing a node *)
Lemma tl_remove_ok s i k x t' :
  tl_ok s -> (i, (k, x)) ∈ lc_keys (tl_lru s) ->
  i :: t' ≡ₚ tl_timed s -> sorted (time_key (lc_keys (tl_lru s))) t' ->
  let c := tl_lru s in
  tl_ok (mk_TimedLruCache
    (set_contents (delete k (lc_cache c)) (node_erase i (lc_keys c)) c) t') /\
  recency (set_contents (delete k (lc_cache c)) (node_erase i (lc_keys c)) c) =
    without k (recency c).
Proof.
  intros Hok Hin Hp Hs. cbv zeta. destruct Hok as [Hl Hso Hpe].
  assert (NoDup (i :: t')) as Hnd.
  { rewrite Hp, Hpe. apply Hl. }
  apply NoDup_cons in Hnd as [Hi Hnd]. split.
  - split; simpl.
    + by eapply erase_ok.
    + eapply sorted_ext; [| exact Hs]. intros a Ha. apply time_key_ext.
      symmetry. apply node_get_erase. intros ->. done.
    + apply NoDup_Permutation; [done | apply node_erase_NoDup, Hl |].
      intros a. rewrite node_erase_keys, <- Hpe, <- Hp, elem_of_cons.
      split; [intros Ha; split; [by right | by intros ->] |].
      intros [[-> | Ha] Hne]; done.
  - unfold recency. simpl. apply (erase_recency i k x); [apply Hl | apply Hl | done].
Qed.

Lemma timed_erase_spec s i l1 :
  tl_ok s -> i ∈ (fst <$> lc_keys (tl_lru s)) ->
  (forall j, node_get j l1 = node_get j (lc_keys (tl_lru s))) ->
  let t' := set_erase (ItemTimeOp l1) i (tl_timed s) in
  i :: t' ≡ₚ tl_timed s /\ sorted (time_key (lc_keys (tl_lru s))) t'.
Proof.
  intros [Hl Hso Hpe] Hin He t'. unfold t'.
  destruct (set_ops_ext (time_key (lc_keys (tl_lru s)))
    (ItemTimeOp l1) i (tl_timed s)) as [-> _].
  { intros a b. rewrite ItemTimeOp_ltb.
    by rewrite !(time_key_ext l1 (lc_keys (tl_lru s))) by apply He. }
  split; [| by apply set_erase_sorted]. apply set_erase_perm; [done |].
  by rewrite Hpe.
Qed.

(** *** Adding a node *)
Lemma time_key_other l i j k x :
  NoDup (fst <$> l) -> NoDup ((fun n => fst (snd n)) <$> l) ->
  (i, (k, x)) ∈ l -> j ∈ (fst <$> l) -> i <> j ->
  time_key l i <> time_key l j.
Proof.
  intros Hi Hk Hin Hj Hne. apply list_elem_of_fmap in Hj as ([j' [k' [v' t']]] & -> & Hj).
  destruct x as [v t]. unfold time_key. simpl in *.
  rewrite (proj2 (node_get_Some i (k, (v, t)) l Hi) Hin).
  rewrite (proj2 (node_get_Some j' (k', (v', t')) l Hi) Hj).
  intros Heq. simplify_eq.
  apply list_elem_of_lookup in Hin as [a Ha]. apply list_elem_of_lookup in Hj as [b Hb].
  assert (a = b) as ->.
  { eapply NoDup_lookup; [exact Hk | |].
    - by rewrite list_lookup_fmap, Ha.
    - by rewrite list_lookup_fmap, Hb. }
  congruence.
Qed.

Lemma timed_insert_ok c i k x t :
  lru_ok c -> (i, (k, x)) ∈ lc_keys c -> sorted (time_key (lc_keys c)) t ->
  i :: t ≡ₚ (fst <$> lc_keys c) ->
  tl_ok (mk_TimedLruCache c (set_insert (ItemTimeOp (lc_keys c)) i t)).
Proof.
  intros Hc Hin Hs Hp. pose proof (lo_ids _ Hc) as Hids.
  assert (i ∉ t) as Hit.
  { rewrite <- Hp in Hids. by apply NoDup_cons in Hids as [? _]. }
  assert (time_key (lc_keys c) i ∉ (time_key (lc_keys c) <$> t)) as Hk.
  { intros (j & Heq & Hj)%list_elem_of_fmap.
    eapply (time_key_other (lc_keys c) i j k x); eauto using lo_keys.
    - rewrite <- Hp. by right.
    - intros ->. done. }
  destruct (set_ops_ext (time_key (lc_keys c)) (ItemTimeOp (lc_keys c)) i t) as [_ ->].
  { intros a b. apply ItemTimeOp_ltb. }
  split; cbn [tl_lru tl_timed]; [done | by apply set_insert_sorted |].
  by rewrite set_insert_perm.
Qed.

(** ** The specification *)

Local Abbreviation spec := (@lru_spec K (V * Z)).

Definition abs_tl (s : TimedLruCache) : spec := abs_lru (tl_lru s).

Definition tsp_get (k : K) (a : spec) : option V * spec :=
  let '(v, a) := sp_get k a in (fst <$> v, a).

(** The items whose deadline has passed, and the others. *)
Definition expired_items (ts : Z) (l : list (K * (V * Z))) : list (K * (V * Z)) :=
  filter (fun x => (snd (snd x) <= ts)%Z) l.
Definition live_items (ts : Z) (l : list (K * (V * Z))) : list (K * (V * Z)) :=
  filter (fun x => (ts < snd (snd x))%Z) l.

(** By deadline, then by key. *)
Definition deadline (x : K * (V * Z)) : Z * option K := (snd (snd x), Some (fst x)).

Definition tsp_timeout (ts : Z) (a : spec) : Z * spec :=
  let gone := std_sort deadline (expired_items ts (sp_items a)) in
  (Z.of_nat (length gone),
   mk_spec (live_items ts (sp_items a)) (sp_max a) (sp_ela a)
     ((fun calls => calls ++ gone) <$> sp_cb a) (sp_status a)).

(** ** The operations implement it *)

Lemma tl_ok_status f s : tl_ok s -> tl_ok (lift_lru (on_status f) s).
Proof. intros [Hl Hs Hp]. split; simpl; [by apply lru_ok_status | done | done]. Qed.

Lemma in_ids i k x (l : list (positive * (K * (V * Z)))) :
  (i, (k, x)) ∈ l -> i ∈ (fst <$> l).
Proof. intros Hin. apply list_elem_of_fmap. by exists (i, (k, x)). Qed.

(** The last node, removed by [pop_back]. *)
Lemma pop_back_erase (l : list (positive * (K * (V * Z)))) i x :
  NoDup (fst <$> l) -> last l = Some (i, x) ->
  take (length l - 1) l = node_erase i l /\ (i, x) ∈ l.
Proof.
  intros Hd Hl. pose proof (last_split l _ Hl) as Hs.
  set (l0 := take (length l - 1) l) in *. clearbody l0. subst l.
  rewrite fmap_app in Hd. apply NoDup_app in Hd as (_ & Hn & _). split.
  - unfold node_erase. rewrite filter_app, filter_cons_False by (simpl; tauto).
    rewrite filter_nil, app_nil_r. symmetry. apply (node_erase_not_in i l0).
    intros Hi. apply (Hn i Hi). by left.
  - apply elem_of_app. right. by left.
Qed.

(** One round of the pruning loop, seen as a removal. *)
Lemma tl_prune_step s i k x :
  tl_ok s -> last (lc_keys (tl_lru s)) = Some (i, (k, x)) ->
  let c1 := call_cb (k, x) (tl_lru s) in
  let s1 := mk_TimedLruCache
    (set_contents (delete k (lc_cache c1)) (take (length (lc_keys c1) - 1) (lc_keys c1)) c1)
    (set_erase (ItemTimeOp (lc_keys c1)) i (tl_timed s)) in
  tl_ok s1 /\ recency (tl_lru s) = recency (tl_lru s1) ++ [(k, x)].
Proof.
  intros Hok Hl. cbv zeta.
  destruct (pop_back_erase _ _ _ (lo_ids _ (tlo_lru _ Hok)) Hl) as [He Hin].
  destruct (timed_erase_spec s i _ Hok (in_ids _ _ _ _ Hin) (fun _ => eq_refl))
    as [Hp Hs].
  destruct (tl_remove_ok s i k x _ Hok Hin Hp Hs) as [Hok1 _].
  split.
  - cbn [lc_keys call_cb]. rewrite He. destruct Hok1 as [[] ? ?]. by split.
  - unfold recency. cbn [tl_lru set_contents lc_keys call_cb].
    rewrite (last_split _ _ Hl) at 1. by rewrite fmap_app.
Qed.

Lemma tl_prune_loop_spec fuel count s :
  tl_ok s -> (0 <= lc_maxSize (tl_lru s))%Z -> length (lc_keys (tl_lru s)) <= fuel ->
  let n := Z.to_nat (lc_maxSize (tl_lru s)) in
  let r := recency (tl_lru s) in
  exists s', tl_prune_loop fuel count s = Ret (count + Z.of_nat (length (drop n r)))%Z s' /\
    tl_ok s' /\
    abs_tl s' = mk_spec (take n r) (lc_maxSize (tl_lru s)) (lc_elasticity (tl_lru s))
      ((fun calls => calls ++ reverse (drop n r)) <$> lc_cb (tl_lru s))
      (lc_status (tl_lru s)).
Proof.
  intros Hok Hmax Hf n r.
  assert (forall s : TimedLruCache, length (recency (tl_lru s)) = length (lc_keys (tl_lru s)))
    as Hlen by (intros; unfold recency; by rewrite length_fmap).
  revert count s Hok Hmax Hf n r.
  induction fuel as [| fuel IH]; intros count s Hok Hmax Hf n r;
    pose proof (size_index _ (tlo_lru _ Hok)) as Hsz;
    cbn [tl_prune_loop]; cbv zeta; unfold cache_size; rewrite Hsz;
    destruct (Z.ltb_spec (lc_maxSize (tl_lru s))
      (Z.of_nat (length (lc_keys (tl_lru s))))) as [Hlt | Hge].
  1: lia.
  2: { destruct (last (lc_keys (tl_lru s))) as [[i [k x]] |] eqn:Hl.
    2: { apply last_None in Hl. rewrite Hl in Hlt. simpl in Hlt. lia. }
    destruct (tl_prune_step s i k x Hok Hl) as [Hok1 Hrec].
    match type of Hok1 with tl_ok ?t => set (s1 := t) in * end.
    pose proof (Hlen s) as Hls. rewrite Hrec, length_app in Hls. cbn [length] in Hls.
    pose proof (Hlen s1) as Hl1.
    destruct (IH (count + 1)%Z s1 Hok1) as (s' & Hr & Hok' & Ha); [done | lia |].
    exists s'. change (lc_maxSize (tl_lru s1)) with (lc_maxSize (tl_lru s)) in Hr, Ha.
    fold n in Hr, Ha. unfold r. rewrite Hrec, drop_app_le, take_app_le by lia.
    split_and!; [| done |].
    - rewrite length_app. cbn [length]. etransitivity; [exact Hr |]. f_equal. lia.
    - rewrite Ha. cbn [tl_lru s1 set_contents call_cb lc_cb lc_elasticity lc_status].
      f_equal. rewrite reverse_app. simpl.
      destruct (lc_cb (tl_lru s)); simpl; [| done]. by rewrite <- app_assoc. }
  all: subst n r; exists s; pose proof (Hlen s); split_and!; [| done |];
    [rewrite drop_ge by lia; simpl; f_equal; lia |];
    unfold abs_tl, abs_lru; rewrite take_ge, drop_ge by lia; f_equal;
    destruct (lc_cb (tl_lru s)); simpl; [by rewrite app_nil_r | done].
Qed.

Lemma TimedLruCache_prune_spec s :
  tl_ok s -> (0 <= lc_maxSize (tl_lru s))%Z -> exists n s',
  TimedLruCache_prune s = Ret n s' /\ tl_ok s' /\ abs_tl s' = sp_prune (abs_tl s).
Proof.
  intros Hok Hmax. unfold TimedLruCache_prune. erewrite bind_Ret by reflexivity.
  unfold sp_prune, cache_size, LruCache_getMaxAllowedSize. simpl.
  assert (length (recency (tl_lru s)) = size (lc_cache (tl_lru s))) as Hlen.
  { rewrite (size_index _ (tlo_lru _ Hok)). unfold recency. by rewrite length_fmap. }
  rewrite Hlen. case_match; [by exists 0%Z, s |].
  destruct (tl_prune_loop_spec (length (lc_keys (tl_lru s))) 0 s Hok Hmax (le_n _))
    as (s' & Hr & Hok' & Ha).
  rewrite (bind_Ret _ _ _ _ _ Hr). do 2 eexists.
  split_and!; [reflexivity | by apply tl_ok_status |].
  unfold abs_tl in *. cbn [tl_lru lift_lru]. by rewrite abs_on_status, Ha.
Qed.

(** *** Setting *)

(** A node moved to the front keeps its deadline and key. *)
Lemma node_get_front (l : list (positive * (K * (V * Z)))) i x j :
  node_get i l = Some x -> node_get j ((i, x) :: node_erase i l) = node_get j l.
Proof.
  intros Hi. simpl. case_decide as Hij; [by subst |].
  apply node_get_erase. congruence.
Qed.

Lemma front_ids (l : list (positive * (K * (V * Z)))) i x :
  NoDup (fst <$> l) -> (i, x) ∈ l -> i :: (fst <$> node_erase i l) ≡ₚ (fst <$> l).
Proof.
  intros Hd Hin. apply NoDup_Permutation.
  - apply NoDup_cons. split; [by intros [_ ?]%node_erase_keys |].
    by apply node_erase_NoDup.
  - done.
  - intros j. rewrite elem_of_cons, node_erase_keys. split.
    + intros [-> | [Hj _]]; [| done]. apply list_elem_of_fmap. by exists (i, x).
    + intros Hj. destruct (decide (j = i)); [by left | by right].
Qed.

Lemma tl_deref_head s i x l :
  lc_keys (tl_lru s) = (i, x) :: l -> tl_deref i s = Ret x s.
Proof. intros Hl. unfold tl_deref. rewrite Hl. simpl. by rewrite decide_True. Qed.

Lemma node_set_absent (l : list (positive * (K * (V * Z)))) i x :
  i ∉ (fst <$> l) -> node_set i x l = l.
Proof.
  unfold node_set. induction l as [| n l IH]; [done |].
  rewrite !fmap_cons, not_elem_of_cons. intros [Hne Hi].
  rewrite decide_False by congruence. by rewrite IH.
Qed.

Lemma TimedLruCache_set_spec s k v e now :
  tl_ok s -> (0 <= lc_maxSize (tl_lru s))%Z -> exists s',
  TimedLruCache_set k v e now s = Ret tt s' /\ tl_ok s' /\
  abs_tl s' = sp_set k (v, u64 (e + now)) (abs_tl s).
Proof.
  intros Hok Hmax. unfold TimedLruCache_set, sp_set.
  erewrite bind_Ret by reflexivity. erewrite bind_Ret by reflexivity.
  set (s0 := lift_lru (on_status (CacheStatus_incSet 1)) s).
  assert (tl_ok s0) as Hok0 by (by apply tl_ok_status).
  pose proof (tlo_lru _ Hok0) as Hl0. pose proof (lo_ids _ Hl0) as Hids.
  pose proof (index_lookup (tl_lru s0) k Hl0) as Hx.
  change (sp_items (abs_tl s)) with (recency (tl_lru s0)).
  set (ts := u64 (e + now)).
  destruct (lc_cache (tl_lru s0) !! k) as [it |] eqn:Hc.
  - destruct Hx as (v0 & Hin & Hget & ->).
    set (l := lc_keys (tl_lru s0)) in *.
    set (l1 := (it, (k, v0)) :: node_erase it l).
    destruct (timed_erase_spec s0 it l1 Hok0 (in_ids _ _ _ _ Hin)) as [Hpt Hst].
    { intros j. by apply node_get_front. }
    destruct (move_front_ok (tl_lru s0) it k v0 (v, ts) Hl0 Hin) as [Hl' Hrec].
    set (c2 := set_contents _ _ _) in Hl'.
    assert (tl_ok (mk_TimedLruCache c2 (set_insert (ItemTimeOp (lc_keys c2)) it
      (set_erase (ItemTimeOp l1) it (tl_timed s0))))) as Hok2.
    { apply (timed_insert_ok c2 it k (v, ts)); [done | by left | |].
      - eapply sorted_ext; [| exact Hst]. intros a Ha. apply time_key_ext.
        assert (a <> it) as Hne.
        { intros ->. pose proof (tlo_perm _ Hok0) as Hp0. rewrite <- Hpt in Hp0.
          fold l in Hp0. rewrite <- Hp0 in Hids. apply NoDup_cons in Hids. tauto. }
        cbn [c2 set_contents lc_keys node_get]. rewrite decide_False by done.
        symmetry. by apply node_get_erase.
      - rewrite Hpt, (tlo_perm _ Hok0). symmetry. cbn [c2 set_contents lc_keys].
        rewrite fmap_cons. by apply (front_ids l it (k, v0)). }
    assert (node_set it (k, (v, ts)) l1 = (it, (k, (v, ts))) :: node_erase it l) as Hset.
    { unfold l1, node_set. rewrite fmap_cons. cbn [fst]. rewrite decide_True by done.
      f_equal. apply (node_set_absent (node_erase it l)).
      by intros [_ ?]%node_erase_keys. }
    erewrite bind_Ret by (unfold tl_splice_front, node_to_front; fold l; by rewrite Hget).
    erewrite bind_Ret by reflexivity.
    erewrite bind_Ret by (eapply (tl_deref_head _ it (k, v0)); reflexivity).
    erewrite bind_Ret by reflexivity.
    eexists. split; [reflexivity |].
    unfold timed_insert, timed_erase, lift_lru, set_timed.
    cbn [tl_lru tl_timed set_contents lc_keys lc_cache fst]. fold l. fold l1.
    rewrite Hset. split; [exact Hok2 |].
    unfold abs_tl, abs_lru, sp_with. cbn. f_equal. exact Hrec.
  - rewrite Hx. erewrite bind_Ret by reflexivity. erewrite bind_Ret by reflexivity.
    erewrite bind_Ret by reflexivity.
    set (i := node_fresh (lc_keys (tl_lru s0))).
    pose proof (node_fresh_spec (lc_keys (tl_lru s0))) as Hfr. fold i in Hfr.
    pose proof (push_front_ok (tl_lru s0) k (v, ts) i Hl0 Hc Hfr) as Hl1.
    set (c1 := set_contents _ _ _) in Hl1.
    assert (tl_ok (mk_TimedLruCache c1 (set_insert (ItemTimeOp (lc_keys c1)) i
      (tl_timed s0)))) as Hok1.
    { apply (timed_insert_ok c1 i k (v, ts)); [done | by left | |].
      - eapply sorted_ext; [| exact (tlo_sorted _ Hok0)]. intros a Ha. apply time_key_ext.
        cbn [c1 set_contents lc_keys node_get]. rewrite decide_False; [done |].
        intros <-. apply Hfr. by rewrite <- (tlo_perm _ Hok0).
      - rewrite (tlo_perm _ Hok0). done. }
    destruct (TimedLruCache_prune_spec _ Hok1 Hmax) as (n & s' & Hr & Hok' & Ha).
    exists s'. erewrite bind_Ret by exact Hr. done.
Qed.

(** *** The others *)

Lemma tl_front_ok s it k x :
  tl_ok s -> (it, (k, x)) ∈ lc_keys (tl_lru s) ->
  let l1 := (it, (k, x)) :: node_erase it (lc_keys (tl_lru s)) in
  tl_ok (lift_lru (fun c => set_contents (lc_cache c) l1 c) s).
Proof.
  intros Hok Hin l1. pose proof (tlo_lru _ Hok) as Hl.
  destruct (move_front_ok (tl_lru s) it k x x Hl Hin) as [Hl' _].
  split; cbn [lift_lru tl_lru tl_timed set_contents lc_keys].
  - exact Hl'.
  - eapply sorted_ext; [| exact (tlo_sorted _ Hok)]. intros a _. apply time_key_ext.
    symmetry. apply node_get_front. apply node_get_Some; [apply Hl | done].
  - rewrite (tlo_perm _ Hok). symmetry. unfold l1. rewrite fmap_cons.
    by apply (front_ids _ it (k, x)); [apply Hl |].
Qed.

Lemma TimedLruCache_get_spec s k : tl_ok s -> exists s',
  TimedLruCache_get k s = Ret (fst (tsp_get k (abs_tl s))) s' /\ tl_ok s' /\
  abs_tl s' = snd (tsp_get k (abs_tl s)).
Proof.
  intros Hok. unfold TimedLruCache_get, tsp_get, sp_get.
  erewrite bind_Ret by reflexivity. erewrite bind_Ret by reflexivity.
  set (s0 := lift_lru (on_status (CacheStatus_incGet 1)) s).
  assert (tl_ok s0) as Hok0 by (by apply tl_ok_status).
  pose proof (tlo_lru _ Hok0) as Hl0.
  pose proof (index_lookup (tl_lru s0) k Hl0) as Hx.
  change (sp_items (abs_tl s)) with (recency (tl_lru s0)).
  destruct (lc_cache (tl_lru s0) !! k) as [it |] eqn:Hc.
  - destruct Hx as (v & Hin & Hget & ->).
    destruct (move_front_ok (tl_lru s0) it k v v Hl0 Hin) as [_ Hrec].
    pose proof (tl_front_ok s0 it k v Hok0 Hin) as Hok1.
    erewrite bind_Ret by (unfold tl_splice_front, node_to_front; by rewrite Hget).
    erewrite bind_Ret by (eapply (tl_deref_head _ it (k, v)); reflexivity).
    erewrite bind_Ret by reflexivity.
    eexists. split_and!; [reflexivity | by apply tl_ok_status |].
    unfold abs_tl, abs_lru, sp_with. cbn. f_equal. exact Hrec.
  - rewrite Hx. exists s0. done.
Qed.

Lemma TimedLruCache_del_spec s k : tl_ok s -> exists s',
  TimedLruCache_del k s = Ret (fst (sp_del k (abs_tl s))) s' /\ tl_ok s' /\
  abs_tl s' = snd (sp_del k (abs_tl s)).
Proof.
  intros Hok. unfold TimedLruCache_del, sp_del.
  erewrite bind_Ret by reflexivity. erewrite bind_Ret by reflexivity.
  set (s0 := lift_lru (on_status (CacheStatus_incDel 1)) s).
  assert (tl_ok s0) as Hok0 by (by apply tl_ok_status).
  pose proof (index_lookup (tl_lru s0) k (tlo_lru _ Hok0)) as Hx.
  change (sp_items (abs_tl s)) with (recency (tl_lru s0)).
  destruct (lc_cache (tl_lru s0) !! k) as [it |] eqn:Hc.
  - destruct Hx as (v & Hin & Hget & ->). rewrite bool_decide_true by done.
    destruct (timed_erase_spec s0 it _ Hok0 (in_ids _ _ _ _ Hin) (fun _ => eq_refl))
      as [Hp Hs].
    destruct (tl_remove_ok s0 it k v _ Hok0 Hin Hp Hs) as [Hok1 Hrec].
    erewrite bind_Ret by reflexivity. erewrite bind_Ret by reflexivity.
    erewrite bind_Ret by reflexivity.
    eexists. split_and!; [reflexivity | exact Hok1 |].
    unfold abs_tl, abs_lru, sp_with. cbn. f_equal. exact Hrec.
  - rewrite Hx. rewrite bool_decide_false by (by intros [? ?]).
    exists s0. split_and!; [done | done |]. cbn [snd].
    rewrite without_absent by (by apply lookup_key_None). done.
Qed.

(** *** Timeouts *)

Lemma live_without ts k l :
  (forall x, (k, x) ∈ l -> (snd x <= ts)%Z) ->
  live_items ts (without k l) = live_items ts l.
Proof.
  intros Hk. unfold live_items, without. induction l as [| [k' x] l IH]; [done |].
  rewrite !filter_cons. cbn [fst snd].
  assert (forall x, (k, x) ∈ l -> (snd x <= ts)%Z) as Hk' by (intros; apply Hk; by right).
  destruct (decide (k' = k)) as [-> | Hne].
  - rewrite decide_False by (intros Hn; by apply Hn). rewrite IH by done.
    rewrite decide_False; [done |]. specialize (Hk x). rewrite elem_of_cons in Hk.
    assert (snd x <= ts)%Z by (apply Hk; by left). lia.
  - rewrite decide_True by done. rewrite filter_cons. cbn [fst snd].
    by rewrite IH.
Qed.

#[local] Instance expired_items_proper ts :
  Proper ((≡ₚ) ==> (≡ₚ)) (expired_items ts).
Proof. intros l1 l2 Hl. unfold expired_items. by rewrite Hl. Qed.

Lemma without_perm (k : K) (x : V * Z) l :
  NoDup (fst <$> l) -> (k, x) ∈ l -> l ≡ₚ (k, x) :: without k l.
Proof.
  induction l as [| [k' y] l IH]; intros Hd Hin; [by apply elem_of_nil in Hin |].
  rewrite fmap_cons in Hd. apply NoDup_cons in Hd as [Hk Hd].
  rewrite without_cons. cbn [fst] in *. apply elem_of_cons in Hin as [Heq | Hin].
  - simplify_eq. rewrite decide_True by done. by rewrite without_absent.
  - rewrite decide_False.
    + rewrite (IH Hd Hin) at 1. apply perm_swap.
    + intros ->. apply Hk. apply list_elem_of_fmap. by exists (k, x).
Qed.

(** A node's deadline is that of its item. *)
Lemma time_key_item s i x :
  tl_ok s -> (i, x) ∈ lc_keys (tl_lru s) -> time_key (lc_keys (tl_lru s)) i = deadline x.
Proof.
  intros Hok Hin. unfold time_key.
  rewrite (proj2 (node_get_Some i x _ (lo_ids _ (tlo_lru _ Hok))) Hin).
  by destruct x as [k [v t]].
Qed.

(** The items behind the first of [_timed] have later deadlines. *)
Lemma timed_head s i t x y :
  tl_ok s -> tl_timed s = i :: t -> (i, x) ∈ lc_keys (tl_lru s) ->
  y ∈ recency (tl_lru s) -> y = x \/ ltb (deadline x) (deadline y) = true.
Proof.
  intros Hok Ht Hin Hy. unfold recency in Hy.
  apply list_elem_of_fmap in Hy as ([j y'] & -> & Hj). cbn [snd].
  assert (j ∈ tl_timed s) as Hjt.
  { rewrite (tlo_perm _ Hok). apply list_elem_of_fmap. by exists (j, y'). }
  rewrite Ht in Hjt. apply elem_of_cons in Hjt as [-> | Hjt].
  - left. pose proof (lo_ids _ (tlo_lru _ Hok)) as Hd.
    apply node_get_Some in Hin; [| done]. apply node_get_Some in Hj; [| done]. congruence.
  - right. pose proof (tlo_sorted _ Hok) as Hs. rewrite Ht in Hs.
    inversion_clear Hs as [| ? ? _ Hf]. rewrite Forall_forall in Hf.
    specialize (Hf j Hjt). unfold key_lt in Hf.
    by rewrite (time_key_item s i x), (time_key_item s j y') in Hf.
Qed.

Lemma deadline_le x y :
  ltb (deadline x) (deadline y) = true -> (snd (snd x) <= snd (snd y))%Z.
Proof.
  unfold deadline. cbn -[Z.le]. unfold pair_ltb. cbn -[Z.le].
  rewrite orb_true_iff, andb_true_iff, negb_true_iff, Z.ltb_lt, Z.ltb_ge. lia.
Qed.

Lemma timeout_loop_spec fuel ts count s :
  tl_ok s -> length (tl_timed s) < fuel ->
  let r := recency (tl_lru s) in
  exists s' gone, timeout_loop fuel ts count s =
      Ret (count + Z.of_nat (length gone))%Z s' /\ tl_ok s' /\
    abs_tl s' = mk_spec (live_items ts r) (lc_maxSize (tl_lru s))
      (lc_elasticity (tl_lru s)) ((fun calls => calls ++ gone) <$> lc_cb (tl_lru s))
      (lc_status (tl_lru s)) /\
    gone ≡ₚ expired_items ts r /\ sorted deadline gone.
Proof.
  revert count s. induction fuel as [| fuel IH]; intros count s Hok Hf r; [lia |].
  assert (forall s : TimedLruCache, abs_tl s = mk_spec (recency (tl_lru s))
    (lc_maxSize (tl_lru s)) (lc_elasticity (tl_lru s))
    ((fun calls => calls ++ []) <$> lc_cb (tl_lru s)) (lc_status (tl_lru s))) as Hnil.
  { intros s'. unfold abs_tl, abs_lru. f_equal.
    destruct (lc_cb (tl_lru s')); simpl; [by rewrite app_nil_r | done]. }
  cbn [timeout_loop]. destruct (tl_timed s) as [| i t] eqn:Ht.
  { pose proof (tlo_perm _ Hok) as Hp. rewrite Ht in Hp.
    apply Permutation_nil_l in Hp. symmetry in Hp. apply fmap_nil_inv in Hp.
    assert (r = []) as -> by (unfold r, recency; by rewrite Hp).
    exists s, []. split_and!; [simpl; f_equal; lia | done | | done | constructor].
    rewrite Hnil. unfold recency. by rewrite Hp. }
  assert (i ∈ (fst <$> lc_keys (tl_lru s))) as Hi.
  { rewrite <- (tlo_perm _ Hok), Ht. by left. }
  apply list_elem_of_fmap in Hi as ([i' [k x]] & Heq & Hin). simpl in Heq. subst i'.
  pose proof (lo_ids _ (tlo_lru _ Hok)) as Hids.
  rewrite (proj2 (node_get_Some i (k, x) _ Hids) Hin). cbn [fst snd].
  assert ((k, x) ∈ r) as Hr.
  { apply list_elem_of_fmap. by exists (i, (k, x)). }
  pose proof (recency_NoDup _ (tlo_lru _ Hok)) as Hkeys. fold r in Hkeys.
  destruct (Z.leb_spec (snd x) ts) as [Hle | Hgt].
  - destruct (tl_remove_ok s i k x t Hok Hin) as [Hok1 Hrec1].
    { by rewrite Ht. }
    { pose proof (tlo_sorted _ Hok) as Hs. rewrite Ht in Hs. by inversion Hs. }
    set (s1 := mk_TimedLruCache _ t) in Hok1.
    set (s2 := mk_TimedLruCache (set_contents (delete k (lc_cache (call_cb (k, x) (tl_lru s))))
      (node_erase i (lc_keys (call_cb (k, x) (tl_lru s)))) (call_cb (k, x) (tl_lru s))) t).
    assert (tl_ok s2) as Hok2.
    { destruct Hok1 as [[] ? ?]. by split. }
    destruct (IH (count + 1)%Z s2 Hok2) as (s' & gone & Hrun & Hok' & Ha & Hp & Hs).
    { simpl. simpl in Hf. lia. }
    assert (recency (tl_lru s2) = without k r) as Hrec2 by exact Hrec1.
    rewrite Hrec2 in Ha, Hp.
    exists s', ((k, x) :: gone). split_and!.
    + etransitivity; [exact Hrun |]. cbn [length]. f_equal. lia.
    + done.
    + rewrite Ha, live_without.
      * cbn [s2 tl_lru set_contents call_cb lc_cb lc_maxSize lc_elasticity lc_status].
        f_equal. destruct (lc_cb (tl_lru s)); simpl; [| done]. by rewrite <- app_assoc.
      * intros y Hy. assert (y = x) as ->; [| done].
        apply (lookup_key_Some k y r Hkeys) in Hy.
        apply (lookup_key_Some k x r Hkeys) in Hr. congruence.
    + rewrite Hp. rewrite (without_perm k x r Hkeys Hr) at 2.
      unfold expired_items. by rewrite filter_cons_True.
    + constructor; [done |]. rewrite Hp. rewrite Forall_forall. intros y Hy.
      unfold expired_items, without in Hy.
      apply list_elem_of_filter in Hy as [_ Hy]. apply list_elem_of_filter in Hy as [Hne Hy].
      destruct (timed_head s i t (k, x) y Hok Ht Hin Hy) as [-> | Hlt]; done.
  - assert (forall y, y ∈ r -> (ts < snd (snd y))%Z) as Hall.
    { intros y Hy. destruct (timed_head s i t (k, x) y Hok Ht Hin Hy) as [-> | Hlt]; [done |].
      apply deadline_le in Hlt. cbn [snd] in Hlt. lia. }
    exists s, []. split_and!; [simpl; f_equal; lia | done | | | constructor].
    + rewrite Hnil. f_equal. unfold live_items. fold r. symmetry.
      clear -Hall. induction r as [| y r IH]; [done |].
      rewrite filter_cons_True by (apply Hall; by left).
      rewrite IH; [done |]. intros. apply Hall. by right.
    + unfold expired_items. clear -Hall. induction r as [| y r IH]; [done |].
      rewrite filter_cons_False.
      * apply IH. intros. apply Hall. by right.
      * specialize (Hall y ltac:(by left)). lia.
Qed.

#[local] Instance key_lt_antisym {A T} `{StrictOrd T} (f : A -> T) :
  AntiSymm (=) (key_lt f).
Proof.
  intros a b Hab Hba. unfold key_lt in *. apply ltb_asym in Hab. congruence.
Qed.

Lemma checkTimeout_spec s ts : tl_ok s -> exists s',
  TimedLruCache_checkTimeout ts s = Ret (fst (tsp_timeout ts (abs_tl s))) s' /\ tl_ok s' /\
  abs_tl s' = snd (tsp_timeout ts (abs_tl s)).
Proof.
  intros Hok. unfold TimedLruCache_checkTimeout. erewrite bind_Ret by reflexivity.
  destruct (timeout_loop_spec (S (length (tl_timed s))) ts 0 s Hok)
    as (s' & gone & Hr & Hok' & Ha & Hp & Hs); [lia |].
  assert (gone = std_sort deadline (expired_items ts (recency (tl_lru s)))) as Hg.
  { apply (StronglySorted_unique (key_lt deadline)); [done | |].
    - apply std_sort_sorted. rewrite <- Hp. by apply sorted_NoDup.
    - by rewrite std_sort_perm. }
  exists s'. unfold tsp_timeout. cbn [abs_tl abs_lru sp_items fst snd].
  rewrite <- Hg. split_and!; [exact Hr | done | exact Ha].
Qed.

(** ** Sequences of calls *)

Inductive tl_cmd :=
| TSet (k : K) (v : V) (expired now : Z)
| TGet (k : K)
| TDel (k : K)
| TExists (k : K)
| TSize
| TEmpty
| TClear
| TTimeout (ts : Z)
| TSetMax (n : Z)
| TSetEla (n : Z)
| TSetCb.

Inductive tl_reply :=
| TR_unit
| TR_val (v : option V)
| TR_bool (b : bool)
| TR_num (n : Z).

Definition tl_exec (c : tl_cmd) : M TimedLruCache tl_reply :=
  match c with
  | TSet k v e now => (fun _ => TR_unit) <$> TimedLruCache_set k v e now
  | TGet k => TR_val <$> TimedLruCache_get k
  | TDel k => TR_bool <$> TimedLruCache_del k
  | TExists k => TR_bool <$> TimedLruCache_exists k
  | TSize => TR_num <$> TimedLruCache_size
  | TClear => TR_bool <$> TimedLruCache_clear
  | TEmpty => TR_bool <$> TimedLruCache_empty
  | TTimeout ts => TR_num <$> TimedLruCache_checkTimeout ts
  | TSetMax n => (fun _ => TR_unit) <$> TimedLruCache_setMaxSize n
  | TSetEla n => (fun _ => TR_unit) <$> TimedLruCache_setElasticity n
  | TSetCb => (fun _ => TR_unit) <$> TimedLruCache_setPruneCallback
  end.

Definition tsp_exec (c : tl_cmd) (a : spec) : tl_reply * spec :=
  match c with
  | TSet k v e now => (TR_unit, sp_set k (v, u64 (e + now)) a)
  | TGet k => let '(v, a) := tsp_get k a in (TR_val v, a)
  | TDel k => let '(b, a) := sp_del k a in (TR_bool b, a)
  | TExists k => (TR_bool (bool_decide (is_Some (lookup_key k (sp_items a)))), a)
  | TSize => (TR_num (Z.of_nat (length (sp_items a))), a)
  | TClear => (TR_bool true, sp_with [] (sp_status a) a)
  | TEmpty => (TR_bool (bool_decide (sp_items a = [])), a)
  | TTimeout ts => let '(n, a) := tsp_timeout ts a in (TR_num n, a)
  | TSetMax n => (TR_unit, mk_spec (sp_items a) n (sp_ela a) (sp_cb a) (sp_status a))
  | TSetEla n => (TR_unit, mk_spec (sp_items a) (sp_max a) n (sp_cb a) (sp_status a))
  | TSetCb => (TR_unit, mk_spec (sp_items a) (sp_max a) (sp_ela a) (Some []) (sp_status a))
  end.

Definition tl_cmd_ok (c : tl_cmd) : Prop :=
  match c with TSetMax n => in_u 64 n | _ => True end.

Fixpoint tl_run (cs : list tl_cmd) : M TimedLruCache (list tl_reply) :=
  match cs with
  | [] => mret []
  | c :: cs => r ← tl_exec c; rs ← tl_run cs; mret (r :: rs)
  end.

Fixpoint tsp_run (cs : list tl_cmd) (a : spec) : list tl_reply * spec :=
  match cs with
  | [] => ([], a)
  | c :: cs => let '(r, a) := tsp_exec c a in
               let '(rs, a) := tsp_run cs a in (r :: rs, a)
  end.

Lemma tl_ok_empty c : tl_ok (mk_TimedLruCache (set_contents ∅ [] c) []).
Proof. split; [apply lru_ok_empty | constructor | done]. Qed.

Lemma tsp_max c a : tl_cmd_ok c -> (0 <= sp_max a)%Z -> (0 <= sp_max (snd (tsp_exec c a)))%Z.
Proof.
  intros Hc Ha. destruct c; simpl; try done.
  - unfold sp_set. case_match; [done |]. by rewrite sp_prune_max.
  - unfold tsp_get, sp_get. by destruct (lookup_key k (sp_items a)).
  - by destruct Hc.
Qed.

Lemma tl_exec_refines c s :
  tl_ok s -> (0 <= lc_maxSize (tl_lru s))%Z -> exists s',
  tl_exec c s = Ret (fst (tsp_exec c (abs_tl s))) s' /\ tl_ok s' /\
  abs_tl s' = snd (tsp_exec c (abs_tl s)).
Proof.
  intros Hok Hmax.
  destruct c as [k v e now | k | k | k | | | | ts | n | n |]; cbn [tl_exec tsp_exec].
  - destruct (TimedLruCache_set_spec s k v e now Hok Hmax) as (s' & Hr & ?).
    exists s'. by rewrite (fmap_Ret _ _ _ _ _ Hr).
  - destruct (TimedLruCache_get_spec s k Hok) as (s' & Hr & ?).
    exists s'. rewrite (fmap_Ret _ _ _ _ _ Hr). by destruct (tsp_get k (abs_tl s)).
  - destruct (TimedLruCache_del_spec s k Hok) as (s' & Hr & ?).
    exists s'. rewrite (fmap_Ret _ _ _ _ _ Hr). by destruct (sp_del k (abs_tl s)).
  - exists s. split; [| done].
    pose proof (index_lookup (tl_lru s) k (tlo_lru _ Hok)) as Hx.
    unfold TimedLruCache_exists, fmap, M_fmap. erewrite bind_Ret by reflexivity.
    cbn [fst abs_tl abs_lru sp_items].
    destruct (lc_cache (tl_lru s) !! k); [destruct Hx as (v & _ & _ & ->) | rewrite Hx];
      unfold mret, M_ret.
    + by rewrite !bool_decide_true.
    + by rewrite !bool_decide_false by (by intros [? ?]).
  - exists s. split; [| done]. unfold TimedLruCache_size, fmap, M_fmap.
    erewrite bind_Ret by reflexivity. unfold mret, M_ret, cache_size.
    rewrite (size_index _ (tlo_lru _ Hok)). cbn [fst abs_tl abs_lru sp_items].
    unfold recency. by rewrite length_fmap.
  - exists s. split; [| done]. unfold TimedLruCache_empty, fmap, M_fmap.
    erewrite bind_Ret by reflexivity. unfold mret, M_ret, cache_size.
    rewrite (size_index _ (tlo_lru _ Hok)). cbn [fst abs_tl abs_lru sp_items].
    unfold recency. by destruct (lc_keys (tl_lru s)).
  - eexists. split; [reflexivity |]. split; [apply tl_ok_empty | done].
  - destruct (checkTimeout_spec s ts Hok) as (s' & Hr & ?).
    exists s'. rewrite (fmap_Ret _ _ _ _ _ Hr). by destruct (tsp_timeout ts (abs_tl s)).
  - eexists. split; [reflexivity |]. split; [| done]. destruct Hok as [[] ? ?]. by split.
  - eexists. split; [reflexivity |]. split; [| done]. destruct Hok as [[] ? ?]. by split.
  - eexists. split; [reflexivity |]. split; [| done]. destruct Hok as [[] ? ?]. by split.
Qed.

(** C8: a [TimedLruCache] is a recency list of items with deadlines.  On
    every sequence of [set], [get], [del], [exists], [size], [empty], [clear],
    [checkTimeout], [setMaxSize], [setElasticity] and [setPruneCallback], at any
    times, the index, the linked list and the set ordered by deadline stay
    consistent (a node is found again in the set although its deadline changes,
    no dangling iterator is followed, the loops end); the replies, the items, the
    counters and the calls of the callback since it was set are those of the
    recency list: eviction calls back from the least recent item on, and
    [checkTimeout(ts)] removes and counts exactly the items with deadline at most
    [ts], calling back in order of deadline. *)
Theorem TimedLruCache_refines_recency (max_size elasticity : Z) (st : CacheStatus)
    (cs : list tl_cmd) (Hmax : in_u 64 max_size) (Hcs : Forall tl_cmd_ok cs) :
  exists s, tl_run cs (new_TimedLruCache max_size elasticity st) =
      Ret (fst (tsp_run cs (mk_spec [] max_size elasticity None st))) s /\
    tl_ok s /\ abs_tl s = snd (tsp_run cs (mk_spec [] max_size elasticity None st)).
Proof.
  assert (tl_ok (new_TimedLruCache max_size elasticity st)) as Hok
    by apply (tl_ok_empty (new_LruCache max_size elasticity st)).
  change (mk_spec [] max_size elasticity None st)
    with (abs_tl (new_TimedLruCache max_size elasticity st)).
  assert (0 <= lc_maxSize (tl_lru (new_TimedLruCache max_size elasticity st)))%Z as Hm
    by (by destruct Hmax).
  revert Hok Hm. generalize (new_TimedLruCache max_size elasticity st) as s.
  induction Hcs as [| c cs Hc _ IH]; intros s Hok Hm; cbn [tl_run tsp_run]; [by exists s |].
  destruct (tl_exec_refines c s Hok Hm) as (s1 & Hr & Hok1 & Ha1).
  destruct (IH s1 Hok1) as (s2 & Hrs & Hok2 & Ha2).
  { change (lc_maxSize (tl_lru s1)) with (sp_max (abs_tl s1)). rewrite Ha1. by apply tsp_max. }
  exists s2. rewrite (bind_Ret _ _ _ _ _ Hr), (bind_Ret _ _ _ _ _ Hrs).
  destruct (tsp_exec c (abs_tl s)) as [r a]. simpl in *. subst a.
  by destruct (tsp_run cs (abs_tl s1)).
Qed.

End timed_lru.

(** Items with deadlines 15, 12 and 30; the deadline of key 1 is moved.  Key 3
    is evicted, then key 2 expires. *)
Definition tl_demo : list (@tl_cmd Z Z) :=
  [TSetCb; TSet 1 10 5 10; TSet 2 20 2 10; TSet 3 30 20 10; TSet 1 11 50 10; TGet 2; TSetMax 3; TSet 4 40 90 10; TTimeout 14;
   TGet 1; TGet 2; TTimeout 30; TSize]%Z.

Lemma TimedLruCache_refines_recency_witness :
  exists s, tl_run tl_demo (new_TimedLruCache 0 0 new_CacheStatus) =
      Ret (fst (tsp_run tl_demo (mk_spec [] 0 0 None new_CacheStatus))) s /\
    tl_ok s /\ abs_tl s = snd (tsp_run tl_demo (mk_spec [] 0 0 None new_CacheStatus)).
Proof.
  apply (TimedLruCache_refines_recency 0 0 new_CacheStatus tl_demo); [by vm_compute |]. repeat constructor; by vm_compute.
Defined.

Example tl_demo_replies :
  match tl_run tl_demo (new_TimedLruCache 0 0 new_CacheStatus) with
  | Ret rs s => drop 8 rs = [TR_num 1; TR_val (Some 11%Z); TR_val None; TR_num 0; TR_num 2] /\
    lc_cb (tl_lru s) = Some [(3, (30, 30)); (2, (20, 12))]%Z
  | _ => False
  end.
Proof. vm_compute. done. Qed.
