(* ===== verification/TimedCache.v ===== *)
(** * TimedCache

    [src/include/datastruct/timed_cache.h]: a cache bounded by deadlines.
    [_timed] is a [std::set] of items ordered by deadline and key, [_cache]
    maps a key to its node in the set.

    [set] on a key that is present replaces the entry of [_cache] but leaves
    the old item in [_timed].  [TimedCache_safe] shows what holds all the
    same: every sequence of calls is free of dangling iterators, loops end,
    and no item outlives its deadline; [del] of a key that is there is undefined.  [TimedCache_set_evicts_early] shows
    the consequence: the new value disappears at the old deadline. *)

From S2P Require Import Prelude SortedVec CacheStatus TimedLruCache.
From stdpp Require Import base list list_numbers numbers option gmap fin_maps sorting.
From Stdlib Require Import ZArith Lia.

Section timed.
Context {K V : Type} `{Countable K, StrictOrd K}.

(** [Item]: key, value and deadline. *)
Record Item := mk_Item {
  it_key : K;
  it_val : V;
  it_ts : Z
}.

(** [Item::operator<] *)
Definition Item_ltb (a b : Item) : bool :=
  if negb (it_ts a =? it_ts b)%Z then (it_ts a <? it_ts b)%Z
  else ltb (it_key a) (it_key b).

Record TimedCache := mk_TimedCache {
  tc_cache : gmap K positive;
  tc_timed : list (positive * Item);
  tc_maxSize : Z;
  tc_elasticity : Z;
  tc_cb : option (list (K * V));
  tc_status : CacheStatus
}.

Definition new_TimedCache (max_size elasticity : Z) (status : CacheStatus) : TimedCache :=
  mk_TimedCache ∅ [] max_size elasticity None status.

Definition tc_set_contents (c : gmap K positive) (t : list (positive * Item))
    (s : TimedCache) : TimedCache :=
  mk_TimedCache c t (tc_maxSize s) (tc_elasticity s) (tc_cb s) (tc_status s).

Definition tc_on_status (f : CacheStatus -> CacheStatus) (s : TimedCache) : TimedCache :=
  mk_TimedCache (tc_cache s) (tc_timed s) (tc_maxSize s) (tc_elasticity s) (tc_cb s)
    (f (tc_status s)).

Definition tc_call_cb (x : Item) (s : TimedCache) : TimedCache :=
  mk_TimedCache (tc_cache s) (tc_timed s) (tc_maxSize s) (tc_elasticity s)
    ((fun calls => calls ++ [(it_key x, it_val x)]) <$> tc_cb s) (tc_status s).

(** [_timed.insert(item)]: the node of the item, and the set; an equivalent
    item already there is kept as it is. *)
Fixpoint items_insert (i : positive) (x : Item) (l : list (positive * Item)) :
    positive * list (positive * Item) :=
  match l with
  | [] => (i, [(i, x)])
  | (j, y) :: l =>
    if Item_ltb x y then (i, (i, x) :: (j, y) :: l)
    else if Item_ltb y x then
      let '(n, l) := items_insert i x l in (n, (j, y) :: l)
    else (j, (j, y) :: l)
  end.

(** The loop of [prune]: [_timed.begin()] of an empty set is undefined. *)
Fixpoint tc_prune_loop (fuel : nat) (count : Z) : M TimedCache Z := fun s =>
  if (tc_maxSize s <? Z.of_nat (size (tc_cache s)))%Z then
    match fuel, tc_timed s with
    | O, _ => Undef Diverges
    | _, [] => Undef BadIndex
    | S fuel, (i, x) :: t =>
      let s := tc_call_cb x s in
      tc_prune_loop fuel (count + 1) (tc_set_contents (delete (it_key x) (tc_cache s)) t s)
    end
  else Ret count s.

Definition TimedCache_prune : M TimedCache Z :=
  s ← get;
  if (tc_maxSize s =? 0)%Z ||
     (Z.of_nat (size (tc_cache s)) <? u64 (tc_maxSize s + tc_elasticity s))%Z
  then mret 0%Z
  else
    count ← tc_prune_loop (length (tc_timed s)) 0;
    modify (tc_on_status (CacheStatus_incPrune count));;
    mret count.

Definition TimedCache_set (k : K) (v : V) (expired now : Z) : M TimedCache unit :=
  modify (tc_on_status (CacheStatus_incSet 1));;
  modify (fun s => tc_set_contents (delete k (tc_cache s)) (tc_timed s) s);;
  s ← get;
  let '(i, t) := items_insert (node_fresh (tc_timed s))
                   (mk_Item k v (u64 (expired + now))) (tc_timed s) in
  modify (fun s => tc_set_contents (<[k := i]> (tc_cache s)) t s);;
  TimedCache_prune;;
  mret ().

Definition tc_deref (i : positive) : M TimedCache Item := fun s =>
  match node_get i (tc_timed s) with
  | Some x => Ret x s
  | None => Undef NullDeref
  end.

Definition TimedCache_get (k : K) : M TimedCache (option V) :=
  modify (tc_on_status (CacheStatus_incGet 1));;
  s ← get;
  match tc_cache s !! k with
  | None => mret None
  | Some i =>
    x ← tc_deref i;
    modify (tc_on_status (CacheStatus_incHit 1));;
    mret (Some (it_val x))
  end.

(** [del]: the path that deletes runs off the end of a function returning
    [bool]. *)
Definition TimedCache_del (k : K) : M TimedCache bool :=
  modify (tc_on_status (CacheStatus_incDel 1));;
  s ← get;
  match tc_cache s !! k with
  | None => mret false
  | Some i =>
    modify (fun s => tc_set_contents (tc_cache s) (node_erase i (tc_timed s)) s);;
    modify (fun s => tc_set_contents (delete k (tc_cache s)) (tc_timed s) s);;
    modify (tc_on_status (CacheStatus_incHit 1));;
    undef NoReturn
  end.

(** [expired]: the item is taken out and put back unchanged. *)
Definition TimedCache_expired (k : K) (ts now : Z) : M TimedCache bool :=
  s ← get;
  match tc_cache s !! k with
  | None => mret false
  | Some i =>
    x ← tc_deref i;
    if (it_ts x =? u64 (ts + now))%Z then mret true else
    modify (fun s => tc_set_contents (tc_cache s) (node_erase i (tc_timed s)) s);;
    s ← get;
    let '(j, t) := items_insert (node_fresh (tc_timed s)) x (tc_timed s) in
    modify (fun s => tc_set_contents (<[k := j]> (tc_cache s)) t s);;
    mret true
  end.

Definition TimedCache_exists (k : K) : M TimedCache bool :=
  s ← get; mret (bool_decide (is_Some (tc_cache s !! k))).

Definition TimedCache_size : M TimedCache Z :=
  s ← get; mret (Z.of_nat (size (tc_cache s))).

Definition TimedCache_clear : M TimedCache bool := modify (tc_set_contents ∅ []);; mret true.

Definition TimedCache_setMaxSize (v : Z) : M TimedCache unit :=
  modify (fun s => mk_TimedCache (tc_cache s) (tc_timed s) v (tc_elasticity s) (tc_cb s) (tc_status s)).

Definition TimedCache_setElasticity (v : Z) : M TimedCache unit :=
  modify (fun s => mk_TimedCache (tc_cache s) (tc_timed s) (tc_maxSize s) v (tc_cb s) (tc_status s)).

Definition TimedCache_setPruneCallback : M TimedCache unit :=
  modify (fun s => mk_TimedCache (tc_cache s) (tc_timed s) (tc_maxSize s) (tc_elasticity s) (Some []) (tc_status s)).

Fixpoint tc_timeout_loop (fuel : nat) (ts count : Z) : M TimedCache Z := fun s =>
  match tc_timed s with
  | [] => Ret count s
  | (i, x) :: t =>
    if (it_ts x <=? ts)%Z then
      match fuel with
      | O => Undef Diverges
      | S fuel =>
        let s := tc_call_cb x s in
        tc_timeout_loop fuel ts (count + 1)
          (tc_set_contents (delete (it_key x) (tc_cache s)) t s)
      end
    else Ret count s
  end.

Definition TimedCache_checkTimeout (ts : Z) : M TimedCache Z :=
  s ← get; tc_timeout_loop (length (tc_timed s)) ts 0.

(** ** What holds after every call *)

Definition item_key (x : Item) : Z * K := (it_ts x, it_key x).

(** The set is sorted, its nodes are distinct, and every entry of [_cache]
    points to a node of the set that holds an item of that key. *)
Record tc_ok (s : TimedCache) : Prop := {
  tco_ids : NoDup (fst <$> tc_timed s);
  tco_sorted : sorted (fun n => item_key (snd n)) (tc_timed s);
  tco_index k i : tc_cache s !! k = Some i ->
    exists x, (i, x) ∈ tc_timed s /\ it_key x = k
}.

Lemma Item_ltb_key a b : Item_ltb a b = ltb (item_key a) (item_key b).
Proof.
  unfold Item_ltb. cbn. unfold pair_ltb. cbn.
  destruct (Z.eqb_spec (it_ts a) (it_ts b)) as [-> | Hne]; simpl.
  - by rewrite Z.ltb_irrefl.
  - destruct (Z.ltb_spec (it_ts a) (it_ts b)) as [Hl | Hl]; [done |].
    by rewrite (proj2 (Z.ltb_lt (it_ts b) (it_ts a))) by lia.
Qed.

(** Insertion: either the new node is in, or an equivalent item was there. *)
Lemma items_insert_spec i x l :
  sorted (fun n => item_key (snd n)) l ->
  let '(j, l') := items_insert i x l in
  sorted (fun n => item_key (snd n)) l' /\
  ((j = i /\ l' ≡ₚ (i, x) :: l) \/
   (l' = l /\ exists y, (j, y) ∈ l /\ item_key y = item_key x)).
Proof.
  induction 1 as [| [j y] l Hs IH Hy]; cbn [items_insert].
  { split; [by repeat constructor | by left]. }
  rewrite !Item_ltb_key.
  destruct (ltb (item_key x) (item_key y)) eqn:E1.
  { split; [| by left]. constructor; [by constructor |]. constructor; [done |].
    eapply Forall_impl; [exact Hy |]. intros n Hn. unfold key_lt in *. cbn [snd] in *.
    by eapply ltb_trans. }
  destruct (ltb (item_key y) (item_key x)) eqn:E2.
  - destruct (items_insert i x l) as [n l']. destruct IH as [Hs' Hc].
    destruct Hc as [[-> Hp] | [-> (z & Hz & Hk)]].
    + split; [| left; split; [done | rewrite Hp; apply perm_swap]].
      constructor; [done |]. rewrite Hp. by constructor.
    + split; [by constructor |]. right. split; [done |]. exists z.
      split; [by right | done].
  - split; [by constructor |]. right. split; [done |]. exists y.
    split; [by left |]. symmetry. by apply ltb_total.
Qed.

Lemma tc_ok_status f s : tc_ok s -> tc_ok (tc_on_status f s).
Proof. intros [? ? ?]. by split. Qed.

(** Entries that go from [_cache]; items that go from [_timed]. *)
Lemma tc_drop_head s i x t :
  tc_ok s -> tc_timed s = (i, x) :: t ->
  tc_ok (tc_set_contents (delete (it_key x) (tc_cache s)) t s).
Proof.
  intros [Hi Hs Hx] Ht. rewrite Ht in *. rewrite fmap_cons in Hi.
  apply NoDup_cons in Hi as [Hni Hi]. split; simpl.
  - done.
  - by inversion Hs.
  - intros k j [Hne Hj]%lookup_delete_Some. destruct (Hx k j Hj) as (y & Hy & Hk).
    apply elem_of_cons in Hy as [Heq | Hy]; [simplify_eq; done | by exists y].
Qed.

Lemma tc_insert_ok s k v ts :
  tc_ok s ->
  let '(i, t) := items_insert (node_fresh (tc_timed s)) (mk_Item k v ts) (tc_timed s) in
  tc_ok (tc_set_contents (<[k := i]> (delete k (tc_cache s))) t s) /\
  exists x, (i, x) ∈ t /\ it_key x = k /\ it_ts x = ts.
Proof.
  intros [Hi Hs Hx].
  pose proof (items_insert_spec (node_fresh (tc_timed s)) (mk_Item k v ts) _ Hs) as Hin.
  pose proof (node_fresh_spec (tc_timed s)) as Hfr.
  destruct (items_insert _ _ _) as [i t]. destruct Hin as [Hs' Hc].
  assert (forall n, n ∈ tc_timed s -> n ∈ t) as Hsub.
  { intros n Hn. destruct Hc as [[_ Hp] | [-> _]]; [| done]. rewrite Hp. by right. }
  assert (exists x, (i, x) ∈ t /\ it_key x = k /\ it_ts x = ts) as (x & Hxt & Hxk & Hxs).
  { destruct Hc as [[-> Hp] | [-> (y & Hy & Hk)]].
    - exists (mk_Item k v ts). split; [| done]. rewrite Hp. by left.
    - exists y. unfold item_key in Hk. simpl in Hk. by simplify_eq. }
  split; [| by exists x]. split; simpl.
  - destruct Hc as [[-> Hp] | [-> _]]; [| done]. rewrite Hp, fmap_cons.
    by apply NoDup_cons.
  - done.
  - intros k' j. rewrite lookup_insert_Some. intros [[<- <-] | [Hne Hj]].
    + by exists x.
    + rewrite lookup_delete_ne in Hj by done. destruct (Hx k' j Hj) as (y & Hy & Hk).
      exists y. auto.
Qed.

(** An entry means the set is not empty. *)
Lemma tc_timed_nonempty s : tc_ok s -> size (tc_cache s) <> 0 -> tc_timed s <> [].
Proof.
  intros Hok Hn Ht. apply Hn. apply map_size_empty_iff. apply map_eq. intros k.
  rewrite lookup_empty. destruct (tc_cache s !! k) as [i |] eqn:Hk; [| done].
  destruct (tco_index _ Hok k i Hk) as (x & Hx & _). rewrite Ht in Hx.
  by apply elem_of_nil in Hx.
Qed.

Lemma tc_prune_loop_spec fuel count s :
  tc_ok s -> (0 <= tc_maxSize s)%Z -> length (tc_timed s) <= fuel ->
  exists n s', tc_prune_loop fuel count s = Ret n s' /\ tc_ok s' /\
    (Z.of_nat (size (tc_cache s')) <= tc_maxSize s)%Z /\
    tc_maxSize s' = tc_maxSize s /\ tc_elasticity s' = tc_elasticity s /\
    (forall n, n ∈ tc_timed s' -> n ∈ tc_timed s).
Proof.
  intros Hok Hmax Hf. revert count s Hok Hmax Hf.
  induction fuel as [| fuel IH]; intros count s Hok Hmax Hf; cbn [tc_prune_loop];
    destruct (Z.ltb_spec (tc_maxSize s) (Z.of_nat (size (tc_cache s)))) as [Hlt | Hge];
    try (by exists count, s).
  - destruct (tc_timed_nonempty s Hok ltac:(lia)). apply nil_length_inv. lia.
  - destruct (tc_timed s) as [| [i x] t] eqn:Ht.
    { destruct (tc_timed_nonempty s Hok ltac:(lia)). done. }
    cbv zeta. pose proof (tc_drop_head s i x t Hok Ht) as Hok1.
    set (s1 := tc_set_contents (delete (it_key x) (tc_cache (tc_call_cb x s))) t
                 (tc_call_cb x s)).
    assert (tc_ok s1) as Hok1' by (destruct Hok1; by split).
    destruct (IH (count + 1)%Z s1 Hok1') as (n & s' & Hr & ? & ? & ? & ? & Hsub);
      [done | simpl in *; lia |].
    exists n, s'. split_and!; try done. intros m Hm. right. by apply Hsub.
Qed.

Lemma TimedCache_prune_spec s :
  tc_ok s -> (0 <= tc_maxSize s)%Z -> exists n s',
  TimedCache_prune s = Ret n s' /\ tc_ok s' /\
  tc_maxSize s' = tc_maxSize s /\ tc_elasticity s' = tc_elasticity s /\
  (forall n, n ∈ tc_timed s' -> n ∈ tc_timed s).
Proof.
  intros Hok Hmax. unfold TimedCache_prune. erewrite bind_Ret by reflexivity.
  case_match; [by exists 0%Z, s |].
  destruct (tc_prune_loop_spec (length (tc_timed s)) 0 s Hok Hmax (le_n _))
    as (n & s' & Hr & ? & ? & ? & ? & ?).
  rewrite (bind_Ret _ _ _ _ _ Hr). do 2 eexists. split; [reflexivity |].
  split; [by apply tc_ok_status |]. done.
Qed.

Lemma TimedCache_set_safe s k v e now :
  tc_ok s -> (0 <= tc_maxSize s)%Z -> exists s',
  TimedCache_set k v e now s = Ret tt s' /\ tc_ok s' /\ tc_maxSize s' = tc_maxSize s.
Proof.
  intros Hok Hmax. unfold TimedCache_set.
  erewrite bind_Ret by reflexivity. erewrite bind_Ret by reflexivity.
  erewrite bind_Ret by reflexivity.
  set (s0 := tc_on_status (CacheStatus_incSet 1) s).
  pose proof (tc_insert_ok s0 k v (u64 (e + now)) (tc_ok_status _ _ Hok)) as Hin.
  cbn [tc_set_contents tc_timed].
  destruct (items_insert _ _ _) as [i t]. destruct Hin as [Hok1 _].
  erewrite bind_Ret by reflexivity.
  destruct (TimedCache_prune_spec _ Hok1 Hmax) as (n & s' & Hr & Hok' & Hm & _).
  exists s'. erewrite bind_Ret by exact Hr. done.
Qed.

Lemma tc_deref_ok s k i : tc_ok s -> tc_cache s !! k = Some i ->
  exists x, tc_deref i s = Ret x s /\ (i, x) ∈ tc_timed s /\ it_key x = k.
Proof.
  intros Hok Hk. destruct (tco_index _ Hok k i Hk) as (x & Hx & Hkx).
  exists x. split; [| done]. unfold tc_deref.
  by rewrite (proj2 (node_get_Some i x _ (tco_ids _ Hok)) Hx).
Qed.

Lemma TimedCache_get_safe s k : tc_ok s -> exists v s',
  TimedCache_get k s = Ret v s' /\ tc_ok s' /\ tc_maxSize s' = tc_maxSize s.
Proof.
  intros Hok. unfold TimedCache_get. erewrite bind_Ret by reflexivity.
  erewrite bind_Ret by reflexivity.
  apply (tc_ok_status (CacheStatus_incGet 1)) in Hok.
  destruct (tc_cache (tc_on_status (CacheStatus_incGet 1) s) !! k) as [i |] eqn:Hk.
  - destruct (tc_deref_ok _ k i Hok Hk) as (x & Hd & _).
    rewrite (bind_Ret _ _ _ _ _ Hd). do 2 eexists. split; [reflexivity |].
    split; [by apply tc_ok_status | done].
  - do 2 eexists. split; [reflexivity |]. done.
Qed.

(** Taking an item out and putting it back. *)
Lemma TimedCache_expired_safe s k ts now : tc_ok s -> exists b s',
  TimedCache_expired k ts now s = Ret b s' /\ tc_ok s' /\ tc_maxSize s' = tc_maxSize s.
Proof.
  intros Hok. unfold TimedCache_expired. erewrite bind_Ret by reflexivity.
  destruct (tc_cache s !! k) as [i |] eqn:Hk; [| by exists false, s].
  destruct (tc_deref_ok _ k i Hok Hk) as (x & Hd & Hx & Hkx).
  rewrite (bind_Ret _ _ _ _ _ Hd). case_match; [by exists true, s |].
  erewrite bind_Ret by reflexivity. erewrite bind_Ret by reflexivity.
  cbn [tc_set_contents tc_timed].
  set (t0 := node_erase i (tc_timed s)).
  assert (sorted (fun n => item_key (snd n)) t0) as Hs0.
  { apply sorted_filter, Hok. }
  pose proof (items_insert_spec (node_fresh t0) x t0 Hs0) as Hin.
  pose proof (node_fresh_spec t0) as Hfr.
  destruct (items_insert _ _ _) as [j t]. destruct Hin as [Hs' Hc].
  erewrite bind_Ret by reflexivity. do 2 eexists. split; [reflexivity |].
  split; [| done].
  assert (forall n, n ∈ t0 -> n ∈ t) as Hsub.
  { intros n Hn. destruct Hc as [[_ Hp] | [-> _]]; [| done]. rewrite Hp. by right. }
  split; simpl.
  - destruct Hc as [[-> Hp] | [-> _]].
    + rewrite Hp, fmap_cons. apply NoDup_cons. split; [done |].
      apply node_erase_NoDup, Hok.
    + apply node_erase_NoDup, Hok.
  - done.
  - intros k' i'. rewrite lookup_insert_Some. intros [[<- <-] | [Hne Hi']].
    + destruct Hc as [[-> Hp] | [-> (y & Hy & Hky)]].
      * exists x. split; [rewrite Hp; by left | done].
      * exists y. split; [done |]. unfold item_key in Hky. by simplify_eq.
    + destruct (tco_index _ Hok k' i' Hi') as (y & Hy & Hky). exists y. split; [| done].
      apply Hsub. unfold t0, node_erase. apply list_elem_of_filter. split; [| done].
      simpl. intros ->. pose proof (tco_ids _ Hok) as Hd'.
      apply node_get_Some in Hy; [| done]. apply node_get_Some in Hx; [| done].
      congruence.
Qed.

(** Timeouts: what is left has a later deadline. *)
Definition live_after (ts : Z) (s : TimedCache) : Prop :=
  forall k i, tc_cache s !! k = Some i ->
    exists x, node_get i (tc_timed s) = Some x /\ it_key x = k /\ (ts < it_ts x)%Z.

Lemma item_key_le x y :
  ltb (item_key x) (item_key y) = true -> (it_ts x <= it_ts y)%Z.
Proof.
  unfold item_key. cbn -[Z.le]. unfold pair_ltb. cbn -[Z.le].
  rewrite orb_true_iff, andb_true_iff, negb_true_iff, Z.ltb_lt, Z.ltb_ge. lia.
Qed.

(** The items with a deadline that has passed, in order of deadline, and what a
    callback is told of them. *)
Definition due (ts : Z) (l : list (positive * Item)) : list (positive * Item) := filter (fun n => (it_ts (snd n) <= ts)%Z) l.
Definition told (l : list (positive * Item)) : list (K * V) := (fun n => (it_key (snd n), it_val (snd n))) <$> l.

(** What [checkTimeout(ts)] makes of [s]: the due items are gone and have been
    reported, with them the entries of their keys. *)
Record timed_out (ts : Z) (s s' : TimedCache) : Prop := {
  to_timed : tc_timed s' = filter (fun n => (ts < it_ts (snd n))%Z) (tc_timed s);
  to_cb : tc_cb s' = (fun calls => calls ++ told (due ts (tc_timed s))) <$> tc_cb s;
  to_cache k : tc_cache s' !! k = if decide (k ∈ (fst <$> told (due ts (tc_timed s)))) then None else tc_cache s !! k;
  to_limits : tc_maxSize s' = tc_maxSize s /\ tc_elasticity s' = tc_elasticity s;
  to_status : tc_status s' = tc_status s
}.

(** Behind an item that is not due, none is. *)
Lemma none_due ts n l : sorted (fun n => item_key (snd n)) (n :: l) -> (ts < it_ts (snd n))%Z ->
  due ts (n :: l) = [] /\ filter (fun n => (ts < it_ts (snd n))%Z) (n :: l) = n :: l.
Proof.
  intros Hs Hn. assert (Forall (fun n => (ts < it_ts (snd n))%Z) (n :: l)) as Hall.
  { inversion_clear Hs as [| ? ? _ Hf]. constructor; [done |]. eapply Forall_impl; [exact Hf |]. intros m Hm. unfold key_lt in Hm. apply item_key_le in Hm. lia. }
  clear -Hall. unfold due. generalize dependent (n :: l). induction 1 as [| m k Hm _ [IH1 IH2]]; [done |].
  rewrite filter_cons_False by lia. rewrite filter_cons_True by done. by rewrite IH1, IH2.
Qed.

Lemma tc_timeout_loop_spec fuel ts count s :
  tc_ok s -> length (tc_timed s) <= fuel ->
  exists s', tc_timeout_loop fuel ts count s = Ret (count + Z.of_nat (length (due ts (tc_timed s))))%Z s' /\ tc_ok s' /\ timed_out ts s s'.
Proof.
  assert (forall s : TimedCache, (fun calls => calls ++ []) <$> tc_cb s = tc_cb s) as Hcb by (intros s0; destruct (tc_cb s0) as [l |]; cbn; [by rewrite app_nil_r | done]).
  revert count s. induction fuel as [| fuel IH]; intros count s Hok Hf;
    cbn [tc_timeout_loop]; destruct (tc_timed s) as [| [i x] t] eqn:Ht.
  1, 3: exists s; (split; [cbn; f_equal; lia |]); (split; [done |]); split; rewrite ?Ht; try done; cbn; by rewrite Hcb.
  - simpl in Hf. lia.
  - pose proof (tco_sorted _ Hok) as Hs. rewrite Ht in Hs. destruct (Z.leb_spec (it_ts x) ts) as [Hle | Hgt].
    + cbv zeta. pose proof (tc_drop_head s i x t Hok Ht) as Hok1.
      set (s1 := tc_set_contents (delete (it_key x) (tc_cache (tc_call_cb x s))) t
                   (tc_call_cb x s)).
      assert (tc_ok s1) as Hok1' by (destruct Hok1; by split).
      destruct (IH (count + 1)%Z s1 Hok1') as (s' & Hr & Hok' & [E1 E2 E3 E4 E5]); [simpl in *; lia |].
      assert (due ts ((i, x) :: t) = (i, x) :: due ts t) as Ed by (unfold due; by rewrite filter_cons_True).
      exists s'. rewrite Ed. split; [rewrite Hr; f_equal; cbn [length]; simpl tc_timed; lia |]. split; [done |]. split; rewrite ?Ht, ?Ed.
      * rewrite E1, filter_cons_False by (cbn [snd]; lia). done.
      * rewrite E2. cbn [s1 tc_set_contents tc_cb tc_call_cb tc_timed]. destruct (tc_cb s) as [l |]; [| done]. cbn. by rewrite <- app_assoc.
      * intros k. rewrite E3. cbn [s1 tc_set_contents tc_cache tc_call_cb tc_timed]. change (fst <$> told ((i, x) :: due ts t)) with (it_key x :: (fst <$> told (due ts t))).
        destruct (decide (k ∈ (fst <$> told (due ts t)))) as [Hin | Hin]; [by rewrite decide_True by (by right) |]. destruct (decide (k = it_key x)) as [-> | Hne].
        -- rewrite decide_True by (by left). by rewrite lookup_delete_eq.
        -- rewrite decide_False by (rewrite elem_of_cons; tauto). by rewrite lookup_delete_ne.
      * done.
      * done.
    + destruct (none_due ts (i, x) t Hs Hgt) as [Ed Ef]. exists s. rewrite Ed. split; [cbn; f_equal; lia |]. split; [done |]. split; rewrite ?Ht, ?Ed; try done; cbn [told fmap list_fmap]; by rewrite Hcb.
Qed.

(** What is left has a later deadline. *)
Lemma timed_out_live ts s s' : tc_ok s' -> timed_out ts s s' -> live_after ts s'.
Proof.
  intros Hok [Et _ _ _ _] k i Hk. destruct (tco_index _ Hok k i Hk) as (x & Hx & Hkx). exists x. split_and!; [apply node_get_Some; [apply Hok | done] | done |].
  rewrite Et in Hx. by apply list_elem_of_filter in Hx as [Hlt _].
Qed.

(** ** Sequences of calls *)

Inductive tc_cmd :=
| CSet (k : K) (v : V) (expired now : Z)
| CGet (k : K)
| CDel (k : K)
| CExpired (k : K) (ts now : Z)
| CExists (k : K)
| CSize
| CClear
| CTimeout (ts : Z)
| CSetMax (n : Z)
| CSetEla (n : Z)
| CSetCb.

Definition tc_exec (c : tc_cmd) : M TimedCache unit :=
  match c with
  | CSet k v e now => TimedCache_set k v e now
  | CGet k => (fun _ => ()) <$> TimedCache_get k
  | CDel k => (fun _ => ()) <$> TimedCache_del k
  | CExpired k ts now => (fun _ => ()) <$> TimedCache_expired k ts now
  | CExists k => (fun _ => ()) <$> TimedCache_exists k
  | CSize => (fun _ => ()) <$> TimedCache_size
  | CClear => (fun _ => ()) <$> TimedCache_clear
  | CTimeout ts => (fun _ => ()) <$> TimedCache_checkTimeout ts
  | CSetMax n => TimedCache_setMaxSize n
  | CSetEla n => TimedCache_setElasticity n
  | CSetCb => TimedCache_setPruneCallback
  end.

Fixpoint tc_run (cs : list tc_cmd) : M TimedCache unit :=
  match cs with
  | [] => mret ()
  | c :: cs => tc_exec c;; tc_run cs
  end.

Definition tc_cmd_ok (c : tc_cmd) : Prop := match c with CSetMax n => in_u 64 n | _ => True end.

(** A call of [del] for a key that is there. *)
Definition deletes (c : tc_cmd) (s : TimedCache) : Prop := match c with CDel k => is_Some (tc_cache s !! k) | _ => False end.

Lemma tc_del_present k s : is_Some (tc_cache s !! k) -> TimedCache_del k s = Undef NoReturn.
Proof.
  intros [i Hi]. unfold TimedCache_del. erewrite bind_Ret by reflexivity. erewrite bind_Ret by reflexivity.
  assert (tc_cache (tc_on_status (CacheStatus_incDel 1) s) !! k = Some i) as -> by done. done.
Qed.

Lemma tc_exec_safe c s :
  tc_ok s -> (0 <= tc_maxSize s)%Z -> tc_cmd_ok c ->
  (deletes c s /\ tc_exec c s = Undef NoReturn) \/
  exists s', tc_exec c s = Ret tt s' /\ tc_ok s' /\ (0 <= tc_maxSize s')%Z.
Proof.
  intros Hok Hmax Hc. destruct c as [k v e now | k | k | k ts now | k | | | ts | n | n |]; cbn [tc_exec].
  - right. destruct (TimedCache_set_safe s k v e now Hok Hmax) as (s' & Hr & Hok' & Hm). exists s'. by rewrite Hm.
  - right. destruct (TimedCache_get_safe s k Hok) as (v & s' & Hr & Hok' & Hm).
    exists s'. by rewrite (fmap_Ret _ _ _ _ _ Hr), Hm.
  - destruct (tc_cache s !! k) as [i |] eqn:Hk.
    + left. split; [by exists i |]. unfold fmap, M_fmap. by rewrite tc_del_present by (by rewrite Hk).
    + right. exists (tc_on_status (CacheStatus_incDel 1) s). split; [| split; [by apply tc_ok_status | done]].
      assert (TimedCache_del k s = Ret false (tc_on_status (CacheStatus_incDel 1) s)) as Hr; [| by rewrite (fmap_Ret _ _ _ _ _ Hr)].
      unfold TimedCache_del. erewrite bind_Ret by reflexivity. erewrite bind_Ret by reflexivity.
      assert (tc_cache (tc_on_status (CacheStatus_incDel 1) s) !! k = None) as -> by done. done.
  - right. destruct (TimedCache_expired_safe s k ts now Hok) as (b & s' & Hr & Hok' & Hm).
    exists s'. by rewrite (fmap_Ret _ _ _ _ _ Hr), Hm.
  - right. by exists s.
  - right. by exists s.
  - right. eexists. split; [reflexivity |]. split; [| done].
    split; simpl; [constructor | constructor |]. intros k i Hk.
    by rewrite lookup_empty in Hk.
  - right. destruct (tc_timeout_loop_spec (length (tc_timed s)) ts 0 s Hok (le_n _))
      as (s' & Hr & Hok' & [_ _ _ [Hm _] _]).
    exists s'. unfold TimedCache_checkTimeout. unfold fmap, M_fmap.
    erewrite bind_Ret by reflexivity. by rewrite Hr, Hm.
  - right. eexists. split; [reflexivity |]. split; [by destruct Hok; split | by destruct Hc].
  - right. eexists. split; [reflexivity |]. split; [by destruct Hok; split | done].
  - right. eexists. split; [reflexivity |]. split; [by destruct Hok; split | done].
Qed.

(** C9: a [TimedCache] is safe, and nothing outlives its deadline.  Any
    sequence of calls to [set], [get], [del], [expired], [exists], [size],
    [clear], [checkTimeout], [setMaxSize], [setElasticity] and
    [setPruneCallback], at any times and with any limits, either contains a
    [del] of a key that is in the cache at that point, which is undefined (the
    function ends without returning its [bool]), the calls before it having
    returned; or every call returns (no iterator in [_cache] dangles although
    [set] leaves stale items behind, and the loops end), and a [checkTimeout(ts)]
    that follows returns the number of items with a deadline up to [ts], tells
    the callback of exactly these in order of deadline, removes them and the
    entries of their keys and nothing else, so that only entries whose item has a
    deadline after [ts] are left. *)
Theorem TimedCache_safe (max_size elasticity : Z) (st : CacheStatus)
    (cs : list tc_cmd) (ts : Z) (Hmax : in_u 64 max_size) (Hcs : Forall tc_cmd_ok cs) :
  (exists cs1 k cs2 s, cs = cs1 ++ CDel k :: cs2 /\ tc_run cs1 (new_TimedCache max_size elasticity st) = Ret tt s /\
    is_Some (tc_cache s !! k) /\ TimedCache_del k s = Undef NoReturn) \/
  exists s s', tc_run cs (new_TimedCache max_size elasticity st) = Ret tt s /\ tc_ok s /\
    TimedCache_checkTimeout ts s = Ret (Z.of_nat (length (due ts (tc_timed s)))) s' /\ timed_out ts s s' /\ live_after ts s'.
Proof.
  assert (tc_ok (new_TimedCache max_size elasticity st)) as Hok.
  { split; simpl; [constructor | constructor |]. intros k i Hk.
    by rewrite lookup_empty in Hk. }
  assert (0 <= tc_maxSize (new_TimedCache max_size elasticity st))%Z as Hm
    by (by destruct Hmax).
  revert Hok Hm. generalize (new_TimedCache max_size elasticity st) as s.
  induction Hcs as [| c cs Hc _ IH]; intros s Hok Hm; cbn [tc_run].
  - right. destruct (tc_timeout_loop_spec (length (tc_timed s)) ts 0 s Hok (le_n _)) as (s' & Hr & Hok' & Ht).
    exists s, s'. split_and!; [done | done | exact Hr | done | by eapply timed_out_live].
  - destruct (tc_exec_safe c s Hok Hm Hc) as [[Hd _] | (s1 & Hr & Hok1 & Hm1)].
    + left. destruct c as [| | k | | | | | | | |]; try done. exists [], k, cs, s. split_and!; [done | done | done | by apply tc_del_present].
    + destruct (IH s1 Hok1 Hm1) as [(cs1 & k & cs2 & s2 & -> & Hr1 & Hd) | (s2 & s' & Hr1 & Hrest)].
      * left. exists (c :: cs1), k, cs2, s2. split; [done |]. split; [| done]. cbn [tc_run]. by rewrite (bind_Ret _ _ _ _ _ Hr).
      * right. exists s2, s'. by rewrite (bind_Ret _ _ _ _ _ Hr).
Qed.

Lemma set_unlimited s k v e now i t :
  tc_maxSize s = 0%Z ->
  items_insert (node_fresh (tc_timed s)) (mk_Item k v (u64 (e + now))) (tc_timed s) = (i, t) ->
  TimedCache_set k v e now s =
  Ret tt (tc_set_contents (<[k := i]> (delete k (tc_cache s))) t
            (tc_on_status (CacheStatus_incSet 1) s)).
Proof.
  intros Hm Hi. unfold TimedCache_set.
  erewrite bind_Ret by reflexivity. erewrite bind_Ret by reflexivity.
  erewrite bind_Ret by reflexivity. cbn [tc_set_contents tc_on_status tc_timed].
  rewrite Hi. erewrite bind_Ret by reflexivity.
  unfold TimedCache_prune. unfold mbind, M_bind, get. cbn -[Z.eqb Z.ltb].
  by rewrite Hm.
Qed.

(** Replacing a value does not replace its deadline.  In an unlimited
    cache, set a key with deadline [now + e1] and set it again with a later
    one: at [now + e1] the timeout check removes the key, although its current
    value is to live until [now + e2]. *)
Theorem TimedCache_set_evicts_early (st : CacheStatus) (k : K) (v1 v2 : V)
    (e1 e2 now : Z) (He : (0 <= now + e1 < now + e2)%Z) (H64 : (now + e2 < 2 ^ 64)%Z) :
  exists s, tc_run [CSet k v1 e1 now; CSet k v2 e2 now; CTimeout (now + e1)]
      (new_TimedCache 0 0 st) = Ret tt s /\
    tc_cache s !! k = None /\
    exists i, tc_timed s = [(i, mk_Item k v2 (now + e2))].
Proof.
  assert (u64 (e1 + now) = now + e1)%Z as E1.
  { unfold u64. rewrite uwrap_id by (unfold in_u; lia). lia. }
  assert (u64 (e2 + now) = now + e2)%Z as E2.
  { unfold u64. rewrite uwrap_id by (unfold in_u; lia). lia. }
  set (x1 := mk_Item k v1 (now + e1)). set (x2 := mk_Item k v2 (now + e2)).
  assert (Item_ltb x2 x1 = false /\ Item_ltb x1 x2 = true) as [L1 L2].
  { unfold Item_ltb. cbn [it_ts x1 x2].
    rewrite !(proj2 (Z.eqb_neq _ _)) by lia. cbn [negb]. split.
    - apply Z.ltb_ge. lia.
    - apply Z.ltb_lt. lia. }
  cbn [tc_run tc_exec].
  erewrite bind_Ret by (eapply set_unlimited; [done |]; cbn [tc_timed new_TimedCache];
    rewrite E1; reflexivity).
  erewrite bind_Ret by (eapply set_unlimited; [done |]; cbn [tc_timed tc_set_contents];
    rewrite E2; cbn [items_insert]; fold x1 x2; rewrite L1, L2; reflexivity).
  unfold TimedCache_checkTimeout, fmap, M_fmap. unfold mbind, M_bind, get.
  cbn [tc_timed tc_set_contents length tc_timeout_loop x1 x2 it_ts].
  rewrite Z.leb_refl. cbv zeta. cbn [tc_timed tc_set_contents].
  rewrite (proj2 (Z.leb_gt _ _)) by lia.
  eexists. split; [reflexivity |]. cbn [tc_cache tc_timed tc_set_contents tc_call_cb it_key].
  split; [by rewrite lookup_delete_eq | by eexists].
Qed.

End timed.

(** Two keys, one replaced. *)
Definition tc_demo : list (@tc_cmd Z Z) := [CSetCb; CSet 1 10 5 10; CSet 2 20 2 10; CSet 1 11 50 10; CExpired 2 9 10]%Z.

Lemma TimedCache_safe_witness :
  exists s s', tc_run tc_demo (new_TimedCache 5 0 new_CacheStatus) = Ret tt s /\ tc_ok s /\
    TimedCache_checkTimeout 14 s = Ret (Z.of_nat (length (due 14 (tc_timed s)))) s' /\ timed_out 14 s s' /\ live_after 14 s'.
Proof.
  destruct (TimedCache_safe 5 0 new_CacheStatus tc_demo 14) as [(cs1 & k & cs2 & s & E & _) | H]; [by vm_compute | repeat constructor | | exact H].
  exfalso. unfold tc_demo in E. do 5 (destruct cs1 as [| ? cs1]; [by simplify_eq |]; injection E as _ E). by destruct cs1.
Defined.

Example tc_demo_told :
  match tc_run (tc_demo ++ [CTimeout 15])%Z (new_TimedCache 5 0 new_CacheStatus) with
  | Ret _ s => tc_cb s = Some [(2, 20); (1, 10)]%Z
  | _ => False
  end.
Proof. vm_compute. done. Qed.

Lemma TimedCache_set_evicts_early_witness :
  exists s, tc_run [CSet 7 1 5 100; CSet 7 2 1000 100; CTimeout (100 + 5)]%Z
      (new_TimedCache 0 0 new_CacheStatus) = Ret tt s /\
    tc_cache s !! 7%Z = None /\
    exists i, tc_timed s = [(i, mk_Item 7 2 (100 + 1000))]%Z.
Proof. apply TimedCache_set_evicts_early; lia. Defined.
