(* ===== verification/RoaringArrays.v ===== *)
(** * Roaring bitmaps: searches and set operations on sorted arrays

    The scalar code of [array_util] in [src/src/datastruct/roaring.c] and
    [src/include/datastruct/roaring.h]: the searches [binarySearch],
    [advanceUntil], [binarySearch2], [binarySearch4] and the counts built on
    them, and the merge loops that intersect, unite, subtract and
    symmetrically subtract two sorted arrays of [uint16_t] (or [uint32_t]).
    This is the code an x86-64 build selects without [-msse4.2] or [-mavx2],
    which is how the project's build file compiles it.

    An array with its length is a [list Z].  A search takes the array and
    indices and reads through [rd]; [None] is a read outside the array (or a
    loop that runs out of fuel), and every theorem shows [Some].  A merge
    loop advances two cursors that only move forward: a cursor is the list of
    the elements from it to the end of its array.  The values stored through
    the output cursor are the resulting list, in order, and its length is the
    number the C function returns; that the destination has room for them is
    checked where the destination is known, in [RoaringArrayContainer]. *)

From stdpp Require Import base list list_numbers numbers option sorting.
From Stdlib Require Import ZArith Lia.
From S2P Require Import Prelude.

Local Open Scope Z_scope.

(** [a[i]] *)
Definition rd {A} (a : list A) (i : Z) : option A :=
  if 0 <=? i then a !! Z.to_nat i else None.

Definition zlen {A} (a : list A) : Z := Z.of_nat (length a).

(** ** Searches *)

Fixpoint binarySearch_loop (fuel : nat) (array : list Z) (low high ikey : Z) : option Z :=
  match fuel with
  | O => None
  | S fuel =>
    if low <=? high then
      let middleIndex := Z.shiftr (low + high) 1 in
      middleValue ← rd array middleIndex;
      if middleValue <? ikey then binarySearch_loop fuel array (middleIndex + 1) high ikey
      else if ikey <? middleValue then binarySearch_loop fuel array low (middleIndex - 1) ikey
      else Some middleIndex
    else Some (- (low + 1))
  end.

Definition binarySearch (array : list Z) (ikey : Z) : option Z :=
  binarySearch_loop (S (length array)) array 0 (zlen array - 1) ikey.

(** The doubling loop of [advanceUntil]. *)
Fixpoint gallop (fuel : nat) (array : list Z) (lower spansize min : Z) : option Z :=
  match fuel with
  | O => None
  | S fuel =>
    if lower + spansize <? zlen array then
      v ← rd array (lower + spansize);
      if v <? min then gallop fuel array lower (Z.shiftl spansize 1) min
      else Some spansize
    else Some spansize
  end.

(** [while(lower + 1 != upper)] *)
Fixpoint narrow (fuel : nat) (array : list Z) (lower upper min : Z) : option Z :=
  match fuel with
  | O => None
  | S fuel =>
    if lower + 1 =? upper then Some upper
    else
      let mid := Z.shiftr (lower + upper) 1 in
      v ← rd array mid;
      if v =? min then Some mid
      else if v <? min then narrow fuel array mid upper min
      else narrow fuel array lower mid min
  end.

Definition advanceUntil (array : list Z) (pos min : Z) : option Z :=
  let length_ := zlen array in
  let lower := pos + 1 in
  if length_ <=? lower then Some lower
  else
    v ← rd array lower;
    if min <=? v then Some lower
    else
      spansize ← gallop (S (length array)) array lower 1 min;
      let upper := if lower + spansize <? length_ then lower + spansize else length_ - 1 in
      u ← rd array upper;
      if u =? min then Some upper
      else if u <? min then Some length_
      else narrow (S (length array)) array (lower + Z.shiftr spansize 1) upper min.

Definition count_less (array : list Z) (ikey : Z) : option Z :=
  if zlen array =? 0 then Some 0
  else
    pos ← binarySearch array ikey;
    Some (if 0 <=? pos then pos else - (pos + 1)).

Definition count_greater (array : list Z) (ikey : Z) : option Z :=
  if zlen array =? 0 then Some 0
  else
    pos ← binarySearch array ikey;
    Some (if 0 <=? pos then zlen array - (pos + 1) else zlen array - (- pos - 1)).

(** One of the interleaved searches of [binarySearch2] and [binarySearch4]:
    [base] is the offset of [base1] from [array]; all searches of a call run
    through the same values of [n]. *)
Fixpoint branchless (fuel : nat) (array : list Z) (n base target : Z) : option Z :=
  match fuel with
  | O => None
  | S fuel =>
    if 1 <? n then
      let half := Z.shiftr n 1 in
      v ← rd array (base + half);
      branchless fuel array (n - half) (if v <? target then base + half else base) target
    else
      v ← rd array base;
      Some ((if v <? target then 1 else 0) + base)
  end.

Definition branchless_search (array : list Z) (target : Z) : option Z :=
  branchless (S (length array)) array (zlen array) 0 target.

(** The index arguments hold [old] when the array is empty. *)
Definition binarySearch2 (array : list Z) (target1 target2 : Z) (old : Z * Z) :
    option (Z * Z) :=
  if zlen array =? 0 then Some old
  else
    index1 ← branchless_search array target1;
    index2 ← branchless_search array target2;
    Some (index1, index2).

Definition binarySearch4 (array : list Z) (target1 target2 target3 target4 : Z)
    (old : Z * Z * Z * Z) : option (Z * Z * Z * Z) :=
  if zlen array =? 0 then Some old
  else
    index1 ← branchless_search array target1;
    index2 ← branchless_search array target2;
    index3 ← branchless_search array target3;
    index4 ← branchless_search array target4;
    Some (index1, index2, index3, index4).

(** ** Merges *)

(** [while( *A < b) if(++A == endA) return;] an empty result is the return. *)
Fixpoint skip_below (A : list Z) (b : Z) : list Z :=
  match A with
  | [] => []
  | a :: A' => if a <? b then skip_below A' b else A
  end.

(** The loop of [intersect_uint16] and [intersection_uint32].  After the two
    inner loops [*A <= *B]; when they differ, [goto SKIP_FIRST_COMPARE]
    advances [A] and goes on with the first inner loop. *)
Fixpoint intersect_loop (fuel : nat) (A B : list Z) : option (list Z) :=
  match fuel with
  | O => None
  | S fuel =>
    match B with
    | [] => None
    | b :: _ =>
      match skip_below A b with
      | [] => Some []
      | a :: A' =>
        match skip_below B a with
        | [] => Some []
        | b' :: B' =>
          if a =? b' then
            match A', B' with
            | [], _ | _, [] => Some [a]
            | _, _ => cons a <$> intersect_loop fuel A' B'
            end
          else
            match A' with
            | [] => Some []
            | _ => intersect_loop fuel A' (b' :: B')
            end
        end
      end
    end
  end.

Definition intersect_uint16 (A B : list Z) : option (list Z) :=
  if (zlen A =? 0) || (zlen B =? 0) then Some []
  else intersect_loop (S (length A)) A B.

Definition intersection_uint32 (A B : list Z) : option (list Z) :=
  if (zlen A =? 0) || (zlen B =? 0) then Some []
  else intersect_loop (S (length A)) A B.

Fixpoint intersect_card_loop (fuel : nat) (A B : list Z) (answer : Z) : option Z :=
  match fuel with
  | O => None
  | S fuel =>
    match B with
    | [] => None
    | b :: _ =>
      match skip_below A b with
      | [] => Some answer
      | a :: A' =>
        match skip_below B a with
        | [] => Some answer
        | b' :: B' =>
          if a =? b' then
            match A', B' with
            | [], _ | _, [] => Some (answer + 1)
            | _, _ => intersect_card_loop fuel A' B' (answer + 1)
            end
          else
            match A' with
            | [] => Some answer
            | _ => intersect_card_loop fuel A' (b' :: B') answer
            end
        end
      end
    end
  end.

Definition intersect_uint16_cardinality (A B : list Z) : option Z :=
  if (zlen A =? 0) || (zlen B =? 0) then Some 0
  else intersect_card_loop (S (length A)) A B 0.

Definition intersection_uint32_card (A B : list Z) : option Z :=
  if (zlen A =? 0) || (zlen B =? 0) then Some 0
  else intersect_card_loop (S (length A)) A B 0.

Fixpoint intersect_nonempty_loop (fuel : nat) (A B : list Z) : option bool :=
  match fuel with
  | O => None
  | S fuel =>
    match B with
    | [] => None
    | b :: _ =>
      match skip_below A b with
      | [] => Some false
      | a :: A' =>
        match skip_below B a with
        | [] => Some false
        | b' :: B' =>
          if a =? b' then Some true
          else
            match A' with
            | [] => Some false
            | _ => intersect_nonempty_loop fuel A' (b' :: B')
            end
        end
      end
    end
  end.

Definition intersect_uint16_nonempty (A B : list Z) : option bool :=
  if (zlen A =? 0) || (zlen B =? 0) then Some false
  else intersect_nonempty_loop (S (length A)) A B.

(** The loop and the copy of the rest in [union_uint16] and [union_uint32]:
    the loop ends when a cursor reaches the end of its set, and what the
    other set still holds is moved behind the output. *)
Fixpoint union_loop (set_1 : list Z) : list Z -> list Z :=
  fix inner (set_2 : list Z) : list Z :=
    match set_1, set_2 with
    | [], _ => set_2
    | _, [] => set_1
    | val_1 :: rest_1, val_2 :: rest_2 =>
      if val_1 <? val_2 then val_1 :: union_loop rest_1 set_2
      else if val_2 <? val_1 then val_2 :: inner rest_2
      else val_1 :: union_loop rest_1 rest_2
    end.

Definition union_uint16 (set_1 set_2 : list Z) : list Z :=
  if zlen set_2 =? 0 then set_1
  else if zlen set_1 =? 0 then set_2
  else union_loop set_1 set_2.

Definition union_uint32 (set_1 set_2 : list Z) : list Z :=
  if zlen set_2 =? 0 then set_1
  else if zlen set_1 =? 0 then set_2
  else union_loop set_1 set_2.

Fixpoint union_card_loop (set_1 : list Z) : list Z -> Z -> Z :=
  fix inner (set_2 : list Z) (pos : Z) : Z :=
    match set_1, set_2 with
    | [], _ => pos + zlen set_2
    | _, [] => pos + zlen set_1
    | val_1 :: rest_1, val_2 :: rest_2 =>
      if val_1 <? val_2 then union_card_loop rest_1 set_2 (pos + 1)
      else if val_2 <? val_1 then inner rest_2 (pos + 1)
      else union_card_loop rest_1 rest_2 (pos + 1)
    end.

Definition union_uint32_card (set_1 set_2 : list Z) : Z :=
  if zlen set_2 =? 0 then zlen set_1
  else if zlen set_1 =? 0 then zlen set_2
  else union_card_loop set_1 set_2 0.

Definition fast_union_uint16 (set_1 set_2 : list Z) : list Z :=
  if zlen set_1 <? zlen set_2 then union_uint16 set_1 set_2
  else union_uint16 set_2 set_1.

Fixpoint difference_loop (a1 : list Z) : list Z -> list Z :=
  fix inner (a2 : list Z) : list Z :=
    match a1, a2 with
    | [], _ => []
    | _, [] => a1
    | s1 :: rest_1, s2 :: rest_2 =>
      if s1 <? s2 then s1 :: difference_loop rest_1 a2
      else if s1 =? s2 then difference_loop rest_1 rest_2
      else inner rest_2
    end.

Definition difference_uint16 (a1 a2 : list Z) : list Z :=
  if zlen a1 =? 0 then []
  else if zlen a2 =? 0 then a1
  else difference_loop a1 a2.

Fixpoint xor_uint16 (array_1 : list Z) : list Z -> list Z :=
  fix inner (array_2 : list Z) : list Z :=
    match array_1, array_2 with
    | [], _ => array_2
    | _, [] => array_1
    | v1 :: rest_1, v2 :: rest_2 =>
      if v1 =? v2 then xor_uint16 rest_1 rest_2
      else if v1 <? v2 then v1 :: xor_uint16 rest_1 array_2
      else v2 :: inner rest_2
    end.

(** [if((index + idx_l < size_l) && (large[idx_l + index] == target))
    buffer[pos++] = target;] *)
Definition hit (large : list Z) (idx_l index target : Z) : option (list Z) :=
  if index + idx_l <? zlen large then
    v ← rd large (idx_l + index);
    Some (if v =? target then [target] else [])
  else Some [].

(** The last two steps of [intersect_skewed_uint16]: a pair, then one. *)
Definition skewed_one (small large : list Z) (idx_l : Z) : option (list Z) :=
  match small with
  | [] => Some []
  | val_s :: _ =>
    if idx_l <? zlen large then
      index ← binarySearch (drop (Z.to_nat idx_l) large) val_s;
      Some (if 0 <=? index then [val_s] else [])
    else Some []
  end.

Definition skewed_two (small large : list Z) (idx_l index1 index2 : Z) : option (list Z) :=
  match small with
  | target1 :: target2 :: rest =>
    if idx_l <? zlen large then
      '(index1, index2) ← binarySearch2 (drop (Z.to_nat idx_l) large) target1 target2
                            (index1, index2);
      h1 ← hit large idx_l index1 target1;
      h2 ← hit large idx_l index2 target2;
      r ← skewed_one rest large (idx_l + index2);
      Some (h1 ++ h2 ++ r)
    else skewed_one small large idx_l
  | _ => skewed_one small large idx_l
  end.

Fixpoint skewed_loop (small large : list Z) (idx_l : Z) (old : Z * Z * Z * Z) :
    option (list Z) :=
  match small with
  | target1 :: target2 :: target3 :: target4 :: rest =>
    if idx_l <? zlen large then
      '(index1, index2, index3, index4) ←
        binarySearch4 (drop (Z.to_nat idx_l) large) target1 target2 target3 target4 old;
      h1 ← hit large idx_l index1 target1;
      h2 ← hit large idx_l index2 target2;
      h3 ← hit large idx_l index3 target3;
      h4 ← hit large idx_l index4 target4;
      r ← skewed_loop rest large (idx_l + index4) (index1, index2, index3, index4);
      Some (h1 ++ h2 ++ h3 ++ h4 ++ r)
    else skewed_two small large idx_l (fst (fst (fst old))) (snd (fst (fst old)))
  | _ => skewed_two small large idx_l (fst (fst (fst old))) (snd (fst (fst old)))
  end.

Definition intersect_skewed_uint16 (small large : list Z) : option (list Z) :=
  if zlen small =? 0 then Some [] else skewed_loop small large 0 (0, 0, 0, 0).

(** The galloping loop; [val_s :: small] is what [idx_s] still has before it. *)
Fixpoint skewed_card_loop (fuel : nat) (val_s : Z) (small large : list Z)
    (idx_l val_l pos : Z) : option Z :=
  match fuel with
  | O => None
  | S fuel =>
    if val_l <? val_s then
      idx_l ← advanceUntil large idx_l val_s;
      if idx_l =? zlen large then Some pos
      else val_l ← rd large idx_l; skewed_card_loop fuel val_s small large idx_l val_l pos
    else if val_s <? val_l then
      match small with
      | [] => Some pos
      | val_s :: small => skewed_card_loop fuel val_s small large idx_l val_l pos
      end
    else
      match small with
      | [] => Some (pos + 1)
      | val_s :: small =>
        idx_l ← advanceUntil large idx_l val_s;
        if idx_l =? zlen large then Some (pos + 1)
        else val_l ← rd large idx_l; skewed_card_loop fuel val_s small large idx_l val_l (pos + 1)
      end
  end.

Definition intersect_skewed_uint16_cardinality (small large : list Z) : option Z :=
  match small with
  | [] => Some 0
  | val_s :: small' =>
    val_l ← rd large 0;
    skewed_card_loop (S (length small + length large)) val_s small' large 0 val_l 0
  end.

Fixpoint skewed_nonempty_loop (fuel : nat) (val_s : Z) (small large : list Z)
    (idx_l val_l : Z) : option bool :=
  match fuel with
  | O => None
  | S fuel =>
    if val_l <? val_s then
      idx_l ← advanceUntil large idx_l val_s;
      if idx_l =? zlen large then Some false
      else val_l ← rd large idx_l; skewed_nonempty_loop fuel val_s small large idx_l val_l
    else if val_s <? val_l then
      match small with
      | [] => Some false
      | val_s :: small => skewed_nonempty_loop fuel val_s small large idx_l val_l
      end
    else Some true
  end.

Definition intersect_skewed_uint16_nonempty (small large : list Z) : option bool :=
  match small with
  | [] => Some false
  | val_s :: small' =>
    val_l ← rd large 0;
    skewed_nonempty_loop (S (length small + length large)) val_s small' large 0 val_l
  end.

(** ** What the searches compute *)

Definition strict (a : list Z) : Prop := StronglySorted Z.lt a.

(** The number of elements below [k]: in a sorted array, the first index
    whose element is not below it. *)
Definition lb (a : list Z) (k : Z) : Z := zlen (filter (fun v => v < k) a).

Lemma zlen_nonneg {A} (a : list A) : 0 <= zlen a.
Proof. unfold zlen. lia. Qed.

Lemma zlen_app {A} (a b : list A) : zlen (a ++ b) = zlen a + zlen b.
Proof. unfold zlen. rewrite length_app. lia. Qed.

Lemma zlen_cons {A} (x : A) a : zlen (x :: a) = zlen a + 1.
Proof. unfold zlen. simpl. lia. Qed.

Lemma zlen_nil {A} : zlen (@nil A) = 0.
Proof. done. Qed.

Lemma rd_Some {A} (a : list A) i : 0 <= i < zlen a -> exists v, rd a i = Some v.
Proof.
  intros H. unfold rd. rewrite (proj2 (Z.leb_le 0 i)) by lia.
  apply lookup_lt_is_Some. unfold zlen in H. lia.
Qed.

Lemma rd_bound {A} (a : list A) i v : rd a i = Some v -> 0 <= i < zlen a.
Proof.
  unfold rd. destruct (Z.leb_spec 0 i); [| done].
  intros Hl%lookup_lt_Some. unfold zlen. lia.
Qed.

Lemma rd_drop {A} (a : list A) n i : 0 <= n -> 0 <= i ->
  rd (drop (Z.to_nat n) a) i = rd a (n + i).
Proof.
  intros Hn Hi. unfold rd.
  rewrite (proj2 (Z.leb_le 0 i)), (proj2 (Z.leb_le 0 (n + i))) by lia.
  rewrite lookup_drop. f_equal; lia.
Qed.

Lemma rd_elem {A} (a : list A) i v : rd a i = Some v -> v ∈ a.
Proof. unfold rd. destruct (0 <=? i); [apply list_elem_of_lookup_2 | done]. Qed.

Lemma elem_rd {A} (a : list A) v : v ∈ a -> exists i, rd a i = Some v.
Proof.
  intros [i Hi]%list_elem_of_lookup. exists (Z.of_nat i).
  unfold rd. rewrite (proj2 (Z.leb_le 0 (Z.of_nat i))) by lia. by rewrite Nat2Z.id.
Qed.

Lemma lb_range a k : 0 <= lb a k <= zlen a.
Proof. unfold lb, zlen. pose proof (length_filter (fun v => v < k) a). lia. Qed.

Lemma lb_app a b k : lb (a ++ b) k = lb a k + lb b k.
Proof. unfold lb. by rewrite filter_app, zlen_app. Qed.

Lemma lb_cons x a k : lb (x :: a) k = (if x <? k then 1 else 0) + lb a k.
Proof.
  unfold lb. rewrite filter_cons. destruct (decide (x < k)); rewrite ?zlen_cons.
  - rewrite (proj2 (Z.ltb_lt x k)) by done. lia.
  - rewrite (proj2 (Z.ltb_ge x k)) by lia. lia.
Qed.

Lemma lb_none a k : Forall (fun v => k <= v) a -> lb a k = 0.
Proof.
  induction 1; [done |]. rewrite lb_cons, (proj2 (Z.ltb_ge x k)) by done. lia.
Qed.

Lemma lb_all a k : Forall (fun v => v < k) a -> lb a k = zlen a.
Proof.
  induction 1; [done |].
  rewrite lb_cons, zlen_cons, (proj2 (Z.ltb_lt x k)) by done. lia.
Qed.

Lemma strict_split a i v : strict a -> rd a i = Some v ->
  exists l r, a = l ++ v :: r /\ zlen l = i /\
    Forall (fun x => x < v) l /\ Forall (fun x => v < x) r.
Proof.
  intros Hs Hv. pose proof (rd_bound a i v Hv) as Hi. unfold rd in Hv.
  rewrite (proj2 (Z.leb_le 0 i)) in Hv by lia.
  exists (take (Z.to_nat i) a), (drop (S (Z.to_nat i)) a).
  pose proof (take_drop_middle a _ _ Hv) as Heq. split; [done |].
  rewrite <- Heq in Hs. unfold strict in Hs.
  rewrite StronglySorted_app, StronglySorted_cons in Hs.
  destruct Hs as (Hlt & _ & Hgt & _). split; [| split; [| done]].
  - unfold zlen in *. rewrite length_take. lia.
  - apply Forall_forall. intros y Hy. apply Hlt; [done | apply list_elem_of_here].
Qed.

(** In a sorted array [lb] separates the elements below [k] from the rest. *)
Lemma lb_lookup a k i v : strict a -> rd a i = Some v -> (v <? k) = (i <? lb a k).
Proof.
  intros Hs Hv. destruct (strict_split a i v Hs Hv) as (l & r & -> & Hl & Hlt & Hgt).
  rewrite lb_app, lb_cons. pose proof (lb_range l k). pose proof (lb_range r k).
  destruct (Z.ltb_spec v k) as [Hk | Hk].
  - rewrite lb_all; [lia |]. eapply Forall_impl; [exact Hlt |]. simpl. lia.
  - rewrite (lb_none r); [lia |]. eapply Forall_impl; [exact Hgt |]. simpl. lia.
Qed.

Lemma lb_at a k i : strict a -> rd a i = Some k -> lb a k = i.
Proof.
  intros Hs Hv. destruct (strict_split a i k Hs Hv) as (l & r & -> & Hl & Hlt & Hgt).
  rewrite lb_app, lb_cons, lb_all, Z.ltb_irrefl, lb_none; [lia | | done].
  eapply Forall_impl; [exact Hgt |]. simpl. lia.
Qed.

Lemma strict_lt a i j v w : strict a -> rd a i = Some v -> rd a j = Some w ->
  i < j -> v < w.
Proof.
  intros Hs Hv Hw Hij. apply Z.ltb_lt. rewrite (lb_lookup a w i v Hs Hv).
  rewrite (lb_at a w j Hs Hw). by apply Z.ltb_lt.
Qed.

Lemma rd_lb_elem a k : strict a -> k ∈ a -> rd a (lb a k) = Some k.
Proof. intros Hs [i Hi]%elem_rd. by rewrite (lb_at a k i). Qed.

Lemma shiftr1 x : Z.shiftr x 1 = x / 2.
Proof. by rewrite Z.shiftr_div_pow2 by lia. Qed.

(** [binarySearch] returns the index of the key, or [- p - 1] where [p] is
    the place it would take. *)
Lemma binarySearch_loop_spec fuel a low high k :
  strict a -> 0 <= low -> high < zlen a -> low <= lb a k <= high + 1 ->
  (k ∈ a -> lb a k <= high) -> high - low + 1 < Z.of_nat fuel ->
  binarySearch_loop fuel a low high k =
    Some (if decide (k ∈ a) then lb a k else - (lb a k + 1)).
Proof.
  intros Hs. revert low high. induction fuel as [|fuel IH]; intros low high H0 Hh Hl Hk Hf; [lia |].
  cbn [binarySearch_loop]. destruct (Z.leb_spec low high) as [Hle | Hgt].
  - rewrite shiftr1. set (m := (low + high) / 2).
    assert (low <= m <= high) as Hm by (subst m; Z.to_euclidean_division_equations; lia).
    clearbody m. destruct (rd_Some a m) as [v Hv]; [lia |]. rewrite Hv. simpl.
    pose proof (lb_lookup a k m v Hs Hv) as He. rewrite He.
    destruct (Z.ltb_spec m (lb a k)) as [Hml | Hml]; [apply IH; auto; lia |].
    apply Z.ltb_ge in He. destruct (Z.ltb_spec k v) as [Hkv | Hkv].
    + apply IH; try lia. intros Hin. pose proof (rd_lb_elem a k Hs Hin) as Hr.
      destruct (decide (lb a k = m)) as [Hlm |]; [| lia].
      rewrite Hlm, Hv in Hr. injection Hr as ->. lia.
    + assert (v = k) as -> by lia.
      rewrite decide_True by (by eapply rd_elem). by rewrite (lb_at a k m).
  - rewrite decide_False; [f_equal; lia |]. intros Hin. specialize (Hk Hin). lia.
Qed.

Lemma binarySearch_spec a k : strict a ->
  binarySearch a k = Some (if decide (k ∈ a) then lb a k else - (lb a k + 1)).
Proof.
  intros Hs. pose proof (lb_range a k). unfold binarySearch.
  apply binarySearch_loop_spec; auto; try (unfold zlen in *; lia).
  intros Hin. pose proof (rd_bound _ _ _ (rd_lb_elem a k Hs Hin)). lia.
Qed.

Lemma count_less_spec a k : strict a -> count_less a k = Some (lb a k).
Proof.
  intros Hs. unfold count_less. pose proof (lb_range a k).
  destruct (Z.eqb_spec (zlen a) 0); [f_equal; lia |].
  rewrite binarySearch_spec by done. simpl. destruct (decide (k ∈ a)).
  - by rewrite (proj2 (Z.leb_le 0 (lb a k))) by lia.
  - rewrite (proj2 (Z.leb_gt 0 _)) by lia. f_equal; lia.
Qed.

Lemma strict_cons x a : strict (x :: a) <-> Forall (fun y => x < y) a /\ strict a.
Proof. apply StronglySorted_cons. Qed.

Lemma strict_cons_notin x a : strict (x :: a) -> x ∉ a.
Proof. intros [H _]%strict_cons Hin. rewrite Forall_forall in H. specialize (H x Hin). lia. Qed.

Lemma lb_succ a k : strict a -> lb a (k + 1) = lb a k + (if decide (k ∈ a) then 1 else 0).
Proof.
  induction a as [|x a IH]; intros Hs; [done |].
  pose proof (strict_cons_notin x a Hs) as Hx. pose proof Hs as [_ Hs']%strict_cons.
  rewrite !lb_cons, IH by done. destruct (decide (k ∈ x :: a)) as [Hin | Hin];
    destruct (decide (k ∈ a)) as [Hin' | Hin'].
  - assert (x <> k) by congruence.
    destruct (Z.ltb_spec x (k + 1)), (Z.ltb_spec x k); lia.
  - apply elem_of_cons in Hin. destruct Hin as [-> | ]; [| done].
    rewrite Z.ltb_irrefl, (proj2 (Z.ltb_lt x (x + 1))) by lia. lia.
  - contradict Hin. by apply list_elem_of_further.
  - assert (x <> k) by (intros ->; apply Hin, list_elem_of_here).
    destruct (Z.ltb_spec x (k + 1)), (Z.ltb_spec x k); lia.
Qed.

(** [count_greater] counts the elements above the key. *)
Lemma count_greater_spec a k : strict a ->
  count_greater a k = Some (zlen a - lb a (k + 1)).
Proof.
  intros Hs. unfold count_greater. rewrite lb_succ by done. pose proof (lb_range a k).
  destruct (Z.eqb_spec (zlen a) 0) as [H0 |].
  { destruct a; [done |]. rewrite zlen_cons in H0. pose proof (zlen_nonneg a). lia. }
  rewrite binarySearch_spec by done. simpl. destruct (decide (k ∈ a)).
  - rewrite (proj2 (Z.leb_le 0 (lb a k))) by lia. f_equal; lia.
  - rewrite (proj2 (Z.leb_gt 0 _)) by lia. f_equal; lia.
Qed.

(** The galloping search: [gallop] stops at a step that passes [k] (or the
    end), while half of it does not. *)
Lemma gallop_spec fuel a lower span k :
  strict a -> 0 <= lower -> 1 <= span ->
  lower + span / 2 < lb a k -> Z.max 0 (zlen a - (lower + span)) < Z.of_nat fuel ->
  exists s, gallop fuel a lower span k = Some s /\ 1 <= s /\
    lower + s / 2 < lb a k /\ (lower + s < zlen a -> lb a k <= lower + s).
Proof.
  intros Hs H0. revert span. induction fuel as [|fuel IH]; intros span Hsp Hlt Hf; [lia |].
  cbn [gallop]. destruct (Z.ltb_spec (lower + span) (zlen a)) as [Hlen | Hlen].
  - destruct (rd_Some a (lower + span)) as [v Hv]; [lia |]. rewrite Hv. simpl.
    rewrite (lb_lookup a k _ v Hs Hv). destruct (Z.ltb_spec (lower + span) (lb a k)).
    + rewrite Z.shiftl_mul_pow2 by lia. apply IH; [lia | | lia].
      by rewrite Z.div_mul by lia.
    + exists span. repeat split; auto; lia.
  - exists span. repeat split; auto; lia.
Qed.

Lemma narrow_spec fuel a lower upper k :
  strict a -> 0 <= lower -> upper < zlen a -> lower < lb a k <= upper ->
  upper - lower <= Z.of_nat fuel ->
  narrow fuel a lower upper k = Some (lb a k).
Proof.
  intros Hs. revert lower upper.
  induction fuel as [|fuel IH]; intros lower upper H0 Hu Hl Hf; [lia |].
  cbn [narrow]. destruct (Z.eqb_spec (lower + 1) upper); [f_equal; lia |].
  rewrite shiftr1. set (m := (lower + upper) / 2).
  assert (lower < m < upper) as Hm by (subst m; Z.to_euclidean_division_equations; lia).
  clearbody m. destruct (rd_Some a m) as [v Hv]; [lia |]. rewrite Hv. simpl.
  destruct (Z.eqb_spec v k) as [-> | Hne]; [by rewrite (lb_at a k m) |].
  rewrite (lb_lookup a k m v Hs Hv).
  destruct (Z.ltb_spec m (lb a k)); apply IH; lia.
Qed.

(** [advanceUntil] moves to the first element after [pos] that is not below
    [min]. *)
Lemma advanceUntil_spec a pos k : strict a -> -1 <= pos ->
  advanceUntil a pos k = Some (Z.max (pos + 1) (lb a k)).
Proof.
  intros Hs Hp. unfold advanceUntil. pose proof (lb_range a k) as Hr.
  destruct (Z.leb_spec (zlen a) (pos + 1)); [f_equal; lia |].
  destruct (rd_Some a (pos + 1)) as [v Hv]; [lia |]. rewrite Hv. cbn [mbind option_bind].
  pose proof (lb_lookup a k _ v Hs Hv) as He.
  destruct (Z.leb_spec k v) as [Hkv | Hkv].
  { rewrite (proj2 (Z.ltb_ge v k)) in He by lia. symmetry in He.
    apply Z.ltb_ge in He. f_equal; lia. }
  rewrite (proj2 (Z.ltb_lt v k)) in He by lia. symmetry in He. apply Z.ltb_lt in He.
  destruct (gallop_spec (S (length a)) a (pos + 1) 1 k) as (s & -> & H1 & Hhalf & Hpass);
    try done; try (unfold zlen in *; lia); [change (1 / 2) with 0; lia |]. cbn [mbind option_bind].
  rewrite Z.max_r by lia. rewrite shiftr1.
  set (upper := if _ <? _ then _ else _).
  assert (0 <= upper < zlen a /\ (lb a k <= upper \/ upper = zlen a - 1)) as [Hu Hu'].
  { subst upper. destruct (Z.ltb_spec (pos + 1 + s) (zlen a)); lia. }
  clearbody upper. destruct (rd_Some a upper) as [u Hru]; [lia |]. rewrite Hru. cbn [mbind option_bind].
  pose proof (lb_lookup a k _ u Hs Hru) as Heu. clear Hv He.
  destruct (Z.eqb_spec u k) as [-> | Hne]; [by rewrite (lb_at a k upper) |].
  rewrite Heu. destruct (Z.ltb_spec upper (lb a k)) as [Hul | Hul]; [f_equal; lia |].
  assert (0 <= s / 2) by (apply Z.div_pos; lia).
  apply narrow_spec; try done; unfold zlen in *; lia.
Qed.

Lemma branchless_spec fuel a n base k :
  strict a -> 0 <= base -> 1 <= n -> base + n <= zlen a ->
  (base = 0 \/ base < lb a k) -> lb a k <= base + n -> n <= Z.of_nat fuel ->
  branchless fuel a n base k = Some (lb a k).
Proof.
  intros Hs. revert n base.
  induction fuel as [|fuel IH]; intros n base H0 Hn Hlen Hb Hl Hf; [lia |].
  cbn [branchless]. destruct (Z.ltb_spec 1 n) as [H1 | H1].
  - rewrite shiftr1. set (h := n / 2).
    assert (1 <= h < n) as Hh by (subst h; Z.to_euclidean_division_equations; lia).
    assert (2 * h <= n) as Hh2 by (subst h; Z.to_euclidean_division_equations; lia).
    clearbody h. destruct (rd_Some a (base + h)) as [v Hv]; [lia |]. rewrite Hv. simpl.
    rewrite (lb_lookup a k _ v Hs Hv).
    destruct (Z.ltb_spec (base + h) (lb a k)); apply IH; lia.
  - destruct (rd_Some a base) as [v Hv]; [lia |]. rewrite Hv. simpl.
    rewrite (lb_lookup a k _ v Hs Hv). f_equal. pose proof (lb_range a k).
    destruct (Z.ltb_spec base (lb a k)); lia.
Qed.

Lemma branchless_search_spec a k : strict a -> a <> [] ->
  branchless_search a k = Some (lb a k).
Proof.
  intros Hs Ha. pose proof (lb_range a k) as Hr. unfold branchless_search.
  assert (0 < zlen a) by (destruct a; [done | rewrite zlen_cons; pose proof (zlen_nonneg a); lia]).
  apply branchless_spec; auto; unfold zlen in *; lia.
Qed.

(** ** What the merges compute *)

Definition inter (a b : list Z) : list Z := filter (fun x => x ∈ b) a.
Definition minus (a b : list Z) : list Z := filter (fun x => x ∉ b) a.

Lemma strict_filter (P : Z -> Prop) `{!forall x, Decision (P x)} a :
  strict a -> strict (filter P a).
Proof.
  induction a as [|x a IH]; [done |]. intros [Hx Hs]%strict_cons.
  rewrite filter_cons. destruct (decide (P x)); [| auto].
  apply strict_cons. split; [| auto]. apply Forall_forall. intros y Hy.
  apply list_elem_of_filter in Hy as [_ Hy]. rewrite Forall_forall in Hx. auto.
Qed.

(** Two sorted arrays with the same elements are equal. *)
Lemma strict_ext a b : strict a -> strict b -> (forall x, x ∈ a <-> x ∈ b) -> a = b.
Proof.
  intros Ha Hb H. eapply (StronglySorted_unique_strong Z.lt); [lia | done | done |].
  apply NoDup_Permutation; auto.
  - clear -Ha. induction a; constructor; [by apply strict_cons_notin |].
    apply IHa. by apply strict_cons in Ha as [_ ?].
  - clear -Hb. induction b; constructor; [by apply strict_cons_notin |].
    apply IHb. by apply strict_cons in Hb as [_ ?].
Qed.

Lemma filter_none (P : Z -> Prop) `{!forall x, Decision (P x)} a :
  Forall (fun x => ~ P x) a -> filter P a = [].
Proof. induction 1; [done |]. by rewrite filter_cons_False. Qed.

Lemma inter_nil_r a : inter a [] = [].
Proof. apply filter_none, Forall_forall. intros x _ H. inversion H. Qed.

(** Elements of [b] below all of [a] (or above it) do not matter. *)
Lemma inter_skip_r a l b : Forall (fun x => x ∉ l) a -> inter a (l ++ b) = inter a b.
Proof.
  intros H. unfold inter. induction H as [|x a Hx _ IH]; [done |].
  rewrite !filter_cons, IH. destruct (decide (x ∈ b)) as [Hin | Hin].
  - rewrite decide_True; [done |]. apply elem_of_app. auto.
  - rewrite decide_False; [done |]. intros [? | ?]%elem_of_app; auto.
Qed.

Lemma skip_below_spec A b : strict A -> exists l, A = l ++ skip_below A b /\
  Forall (fun x => x < b) l /\ Forall (fun x => b <= x) (skip_below A b).
Proof.
  induction A as [|a A IH]; intros Hs; [by exists [] |]. simpl.
  pose proof Hs as [Ha Hs']%strict_cons. destruct (Z.ltb_spec a b) as [Hlt | Hge].
  - destruct (IH Hs') as (l & Heq & Hl & Hr). exists (a :: l).
    split; [by rewrite Heq at 1 | split; [by constructor | done]].
  - exists []. repeat split; [done |]. constructor; [done |].
    eapply Forall_impl; [exact Ha |]. simpl. lia.
Qed.

(** One round of the merge loops: what the two inner loops leave. *)
Lemma skip_round A b B : strict A -> strict (b :: B) ->
  match skip_below A b with
  | [] => inter A (b :: B) = []
  | a :: A' =>
    (length (a :: A') <= length A)%nat /\ strict (a :: A') /\
    match skip_below (b :: B) a with
    | [] => inter A (b :: B) = []
    | b' :: B' => a <= b' /\ strict (b' :: B') /\
        inter A (b :: B) = if a =? b' then a :: inter A' B' else inter A' (b' :: B')
    end
  end.
Proof.
  intros HA HB. destruct (skip_below_spec A b HA) as (l & Heq & Hl & Hr).
  assert (inter A (b :: B) = inter (skip_below A b) (b :: B)) as Hi.
  { rewrite Heq at 1. unfold inter. rewrite filter_app, (filter_none _ l); [done |].
    eapply Forall_impl; [exact Hl |]. simpl. intros x Hx Hin.
    apply strict_cons in HB as [HB _]. rewrite Forall_forall in HB.
    apply elem_of_cons in Hin as [-> | Hin]; [lia | specialize (HB x Hin); lia]. }
  rewrite Hi. destruct (skip_below A b) as [|a A'] eqn:EA; [done |].
  rewrite Heq in HA. unfold strict in HA. rewrite StronglySorted_app in HA.
  destruct HA as (_ & _ & HA). apply strict_cons in HA as HA'. destruct HA' as [Ha HA'].
  split; [rewrite Heq, length_app; lia | split; [done |]].
  destruct (skip_below_spec (b :: B) a HB) as (l' & Heq' & Hl' & Hr').
  assert (inter (a :: A') (b :: B) = inter (a :: A') (skip_below (b :: B) a)) as Hi'.
  { rewrite Heq' at 1. apply inter_skip_r, Forall_forall. intros x Hx Hin.
    rewrite Forall_forall in Hl'. specialize (Hl' x Hin).
    rewrite Forall_forall in Ha. apply elem_of_cons in Hx as [-> | Hx]; [lia |].
    specialize (Ha x Hx). lia. }
  rewrite Hi'. destruct (skip_below (b :: B) a) as [|b' B'] eqn:EB; [apply inter_nil_r |].
  rewrite Heq' in HB. unfold strict in HB. rewrite StronglySorted_app in HB.
  destruct HB as (_ & _ & HB). apply strict_cons in HB as HB'. destruct HB' as [Hb HB'].
  apply Forall_cons in Hr' as [Hab _]. split; [done | split; [done |]].
  unfold inter. rewrite filter_cons. destruct (Z.eqb_spec a b') as [-> | Hne].
  - rewrite decide_True by apply list_elem_of_here. f_equal.
    apply (inter_skip_r A' [b'] B'), Forall_forall. intros x Hx Hin.
    apply list_elem_of_singleton in Hin as ->. rewrite Forall_forall in Ha.
    specialize (Ha b' Hx). lia.
  - rewrite decide_False; [done |]. intros [-> | Hin]%elem_of_cons; [done |].
    rewrite Forall_forall in Hb. specialize (Hb a Hin). lia.
Qed.

Lemma intersect_loop_spec fuel A b B : strict A -> strict (b :: B) ->
  (length A < fuel)%nat -> intersect_loop fuel A (b :: B) = Some (inter A (b :: B)).
Proof.
  revert A b B. induction fuel as [|fuel IH]; intros A b B HA HB Hf; [lia |].
  cbn [intersect_loop]. pose proof (skip_round A b B HA HB) as H.
  destruct (skip_below A b) as [|a A']; [by rewrite H |]. destruct H as (Hlen & HA' & H).
  apply strict_cons in HA' as [Ha HA']. simpl in Hlen.
  destruct (skip_below (b :: B) a) as [|b' B']; [by rewrite H |].
  destruct H as (Hle & HB' & ->). apply strict_cons in HB' as HB''. destruct HB'' as [_ HB''].
  destruct (Z.eqb_spec a b') as [-> | Hne].
  - destruct A' as [|a' A']; [done |]. destruct B' as [|b'' B'].
    + by rewrite inter_nil_r.
    + rewrite IH by (auto; simpl in *; lia). done.
  - destruct A' as [|a' A']; [done |]. apply IH; auto; simpl in *; lia.
Qed.

Lemma zlen_zero {A} (a : list A) : (zlen a =? 0) = true -> a = [].
Proof. intros H%Z.eqb_eq. destruct a; [done |]. unfold zlen in H. simpl in H. lia. Qed.

Lemma zlen_pos {A} (x : A) a : (zlen (x :: a) =? 0) = false.
Proof. apply Z.eqb_neq. rewrite zlen_cons. pose proof (zlen_nonneg a). lia. Qed.

(** [intersect_uint16] keeps the elements of the first array that are in the
    second; so does [intersection_uint32], which has the same body. *)
Lemma intersect_uint16_spec A B : strict A -> strict B ->
  intersect_uint16 A B = Some (inter A B).
Proof.
  intros HA HB. unfold intersect_uint16. destruct A as [|a A]; [done |].
  destruct B as [|b B]; [by rewrite inter_nil_r, orb_true_r |].
  rewrite !zlen_pos. apply intersect_loop_spec; auto.
Qed.

Lemma intersect_card_loop_spec fuel A b B n : strict A -> strict (b :: B) ->
  (length A < fuel)%nat ->
  intersect_card_loop fuel A (b :: B) n = Some (n + zlen (inter A (b :: B))).
Proof.
  revert A b B n. induction fuel as [|fuel IH]; intros A b B n HA HB Hf; [lia |].
  cbn [intersect_card_loop]. pose proof (skip_round A b B HA HB) as H.
  destruct (skip_below A b) as [|a A']; [rewrite H; f_equal; unfold zlen; simpl; lia |].
  destruct H as (Hlen & HA' & H).
  apply strict_cons in HA' as [Ha HA']. simpl in Hlen.
  destruct (skip_below (b :: B) a) as [|b' B'].
  { rewrite H. f_equal. unfold zlen. simpl. lia. }
  destruct H as (Hle & HB' & ->). apply strict_cons in HB' as HB''. destruct HB'' as [_ HB''].
  destruct (Z.eqb_spec a b') as [-> | Hne].
  - rewrite zlen_cons. destruct A' as [|a' A']; [done |]. destruct B' as [|b'' B'].
    + by rewrite inter_nil_r.
    + rewrite IH by (auto; simpl in *; lia). f_equal. lia.
  - destruct A' as [|a' A']; [f_equal; unfold zlen; simpl; lia |].
    apply IH; auto; simpl in *; lia.
Qed.

Lemma intersect_uint16_cardinality_spec A B : strict A -> strict B ->
  intersect_uint16_cardinality A B = Some (zlen (inter A B)).
Proof.
  intros HA HB. unfold intersect_uint16_cardinality. destruct A as [|a A]; [done |].
  destruct B as [|b B]; [by rewrite inter_nil_r, orb_true_r |].
  rewrite !zlen_pos. rewrite intersect_card_loop_spec; auto.
Qed.

Lemma intersect_nonempty_loop_spec fuel A b B : strict A -> strict (b :: B) ->
  (length A < fuel)%nat ->
  intersect_nonempty_loop fuel A (b :: B) = Some (bool_decide (inter A (b :: B) <> [])).
Proof.
  revert A b B. induction fuel as [|fuel IH]; intros A b B HA HB Hf; [lia |].
  cbn [intersect_nonempty_loop]. pose proof (skip_round A b B HA HB) as H.
  destruct (skip_below A b) as [|a A']; [by rewrite H |].
  destruct H as (Hlen & HA' & H).
  apply strict_cons in HA' as [Ha HA']. simpl in Hlen.
  destruct (skip_below (b :: B) a) as [|b' B']; [by rewrite H |].
  destruct H as (Hle & HB' & ->).
  destruct (Z.eqb_spec a b') as [-> | Hne]; [done |].
  destruct A' as [|a' A']; [done |]. apply IH; auto; simpl in *; lia.
Qed.

Lemma intersect_uint16_nonempty_spec A B : strict A -> strict B ->
  intersect_uint16_nonempty A B = Some (bool_decide (inter A B <> [])).
Proof.
  intros HA HB. unfold intersect_uint16_nonempty. destruct A as [|a A]; [done |].
  destruct B as [|b B]; [by rewrite inter_nil_r, orb_true_r |].
  rewrite !zlen_pos. apply intersect_nonempty_loop_spec; auto.
Qed.

(** *** Union, difference, symmetric difference *)

(** [merge_ind]: the recursion scheme of the merge loops over two arrays. *)
Lemma merge_ind (P : list Z -> list Z -> Prop) :
  (forall l, P [] l) -> (forall l, P l []) ->
  (forall x a y b, P a (y :: b) -> P (x :: a) b -> P a b -> P (x :: a) (y :: b)) ->
  forall a b, P a b.
Proof.
  intros H1 H2 H3 a. induction a as [|x a IHa]; [auto |].
  intros b. induction b as [|y b IHb]; auto.
Qed.

Lemma union_loop_cons x a y b : union_loop (x :: a) (y :: b) =
  if x <? y then x :: union_loop a (y :: b)
  else if y <? x then y :: union_loop (x :: a) b else x :: union_loop a b.
Proof. done. Qed.

Lemma union_loop_nil_r a : union_loop a [] = a.
Proof. by destruct a. Qed.

Lemma union_loop_nil_l a : union_loop [] a = a.
Proof. by destruct a. Qed.

Lemma elem_of_union_loop a b x : x ∈ union_loop a b <-> x ∈ a \/ x ∈ b.
Proof.
  revert a b. apply merge_ind; intros.
  - rewrite union_loop_nil_l. split; [auto | intros [H|]; [inversion H | done]].
  - rewrite union_loop_nil_r. split; [auto | intros [|H]; [done | inversion H]].
  - rewrite union_loop_cons. destruct (Z.ltb_spec x0 y); [| destruct (Z.ltb_spec y x0)].
    + rewrite !elem_of_cons, H, elem_of_cons. tauto.
    + rewrite !elem_of_cons, H0, elem_of_cons. tauto.
    + assert (x0 = y) as -> by lia. rewrite !elem_of_cons, H1. tauto.
Qed.

(** A merge that starts with the smaller head is sorted. *)
Lemma strict_cons_elem x a : strict a -> (forall y, y ∈ a -> x < y) -> strict (x :: a).
Proof. intros H1 H2. apply strict_cons. split; [by apply Forall_forall | done]. Qed.

Lemma strict_head x a y : strict (x :: a) -> y ∈ a -> x < y.
Proof. intros [H _]%strict_cons Hy. rewrite Forall_forall in H. auto. Qed.

Lemma strict_tail x a : strict (x :: a) -> strict a.
Proof. by intros [_ ?]%strict_cons. Qed.

Lemma union_loop_strict a b : strict a -> strict b -> strict (union_loop a b).
Proof.
  revert a b. apply (merge_ind (fun a b => _ -> _ -> _)); intros.
  - by rewrite union_loop_nil_l.
  - by rewrite union_loop_nil_r.
  - pose proof (strict_tail _ _ H2). pose proof (strict_tail _ _ H3).
    rewrite union_loop_cons. destruct (Z.ltb_spec x y); [| destruct (Z.ltb_spec y x)];
      (apply strict_cons_elem; [auto |]); intros z;
      rewrite elem_of_union_loop, ?elem_of_cons; intros Hz.
    + destruct Hz as [Hz | [-> | Hz]]; [by eapply strict_head | done |].
      trans y; [done | by eapply strict_head].
    + destruct Hz as [[-> | Hz] | Hz]; [done | | by eapply strict_head].
      trans x; [done | by eapply strict_head].
    + assert (x = y) as -> by lia. destruct Hz as [Hz | Hz]; [exact (strict_head _ _ _ H2 Hz) | exact (strict_head _ _ _ H3 Hz)].
Qed.

Lemma union_loop_length a b : zlen (union_loop a b) <= zlen a + zlen b.
Proof.
  revert a b. apply merge_ind; intros.
  - rewrite union_loop_nil_l. unfold zlen. simpl. lia.
  - rewrite union_loop_nil_r. unfold zlen. simpl. lia.
  - rewrite union_loop_cons, !zlen_cons in *.
    destruct (x <? y); [| destruct (y <? x)]; rewrite zlen_cons; lia.
Qed.

Lemma union_uint16_eq a b : union_uint16 a b = union_loop a b.
Proof.
  unfold union_uint16. destruct (zlen b =? 0) eqn:E.
  { apply zlen_zero in E as ->. by rewrite union_loop_nil_r. }
  destruct (zlen a =? 0) eqn:E'; [| done]. apply zlen_zero in E' as ->.
  by rewrite union_loop_nil_l.
Qed.

Lemma union_loop_comm a b : strict a -> strict b -> union_loop a b = union_loop b a.
Proof.
  intros Ha Hb. apply strict_ext; try (by apply union_loop_strict).
  intros x. rewrite !elem_of_union_loop. tauto.
Qed.

Lemma fast_union_uint16_eq a b : strict a -> strict b ->
  fast_union_uint16 a b = union_loop a b.
Proof.
  intros Ha Hb. unfold fast_union_uint16.
  destruct (_ <? _); rewrite union_uint16_eq; [done | by apply union_loop_comm].
Qed.

Lemma union_card_loop_spec a b n : union_card_loop a b n = n + zlen (union_loop a b).
Proof.
  revert a b n. apply (merge_ind (fun a b => forall n, _)); intros.
  - rewrite union_loop_nil_l. by destruct l.
  - rewrite union_loop_nil_r. by destruct l.
  - rewrite union_loop_cons.
    change (union_card_loop (x :: a) (y :: b) n) with
      (if x <? y then union_card_loop a (y :: b) (n + 1)
       else if y <? x then union_card_loop (x :: a) b (n + 1)
       else union_card_loop a b (n + 1)).
    destruct (x <? y); [| destruct (y <? x)]; rewrite zlen_cons, ?H, ?H0, ?H1; lia.
Qed.

Lemma union_uint32_card_spec a b : union_uint32_card a b = zlen (union_uint32 a b).
Proof.
  unfold union_uint32_card, union_uint32. destruct (_ =? _); [done |].
  destruct (_ =? _); [done |]. by rewrite union_card_loop_spec.
Qed.

Lemma difference_loop_cons x a y b : difference_loop (x :: a) (y :: b) =
  if x <? y then x :: difference_loop a (y :: b)
  else if x =? y then difference_loop a b else difference_loop (x :: a) b.
Proof. done. Qed.

Lemma minus_nil_r a : minus a [] = a.
Proof.
  induction a as [|x a IH]; [done |]. unfold minus in *. rewrite filter_cons, IH.
  rewrite decide_True; [done |]. apply not_elem_of_nil.
Qed.

(** An element of [b] that is not in [a] does not matter. *)
Lemma minus_skip_r a y b : y ∉ a -> minus a (y :: b) = minus a b.
Proof.
  intros Hy. unfold minus. induction a as [|x a IH]; [done |].
  apply not_elem_of_cons in Hy as [Hne Hy].
  rewrite !filter_cons, IH by done. destruct (decide (x ∉ b)).
  - rewrite decide_True; [done |]. apply not_elem_of_cons. auto.
  - rewrite decide_False; [done |]. rewrite not_elem_of_cons. tauto.
Qed.

Lemma difference_loop_spec a b : strict a -> strict b -> difference_loop a b = minus a b.
Proof.
  revert a b. apply (merge_ind (fun a b => _ -> _ -> _)).
  - by intros [].
  - intros l _ _. rewrite minus_nil_r. by destruct l.
  - intros x a y b H1 H2 H3 Ha Hb. pose proof (strict_tail _ _ Ha). pose proof (strict_tail _ _ Hb).
    rewrite difference_loop_cons. destruct (Z.ltb_spec x y); [| destruct (Z.eqb_spec x y) as [-> |]].
    + rewrite H1 by done. unfold minus. rewrite filter_cons_True; [done |].
      apply not_elem_of_cons. split; [lia |]. intros Hin. pose proof (strict_head _ _ _ Hb Hin). lia.
    + rewrite H3 by done. unfold minus at 2.
      rewrite filter_cons_False; [| intros Hn; apply Hn, list_elem_of_here].
      symmetry. apply (minus_skip_r a y b). by apply strict_cons_notin.
    + rewrite H2 by done. symmetry. apply minus_skip_r. apply not_elem_of_cons.
      split; [done |]. intros Hin. pose proof (strict_head _ _ _ Ha Hin). lia.
Qed.

Lemma difference_uint16_spec a b : strict a -> strict b -> difference_uint16 a b = minus a b.
Proof.
  intros Ha Hb. unfold difference_uint16. destruct (zlen a =? 0) eqn:E.
  { by apply zlen_zero in E as ->. }
  destruct (zlen b =? 0) eqn:E'; [| by apply difference_loop_spec].
  apply zlen_zero in E' as ->. by rewrite minus_nil_r.
Qed.

Lemma xor_uint16_cons x a y b : xor_uint16 (x :: a) (y :: b) =
  if x =? y then xor_uint16 a b
  else if x <? y then x :: xor_uint16 a (y :: b) else y :: xor_uint16 (x :: a) b.
Proof. done. Qed.

Lemma xor_uint16_nil_l a : xor_uint16 [] a = a.
Proof. by destruct a. Qed.

Lemma xor_uint16_nil_r a : xor_uint16 a [] = a.
Proof. by destruct a. Qed.

Lemma xor_uint16_spec a b : strict a -> strict b ->
  strict (xor_uint16 a b) /\
  forall z, z ∈ xor_uint16 a b <-> (z ∈ a /\ z ∉ b) \/ (z ∈ b /\ z ∉ a).
Proof.
  revert a b. apply (merge_ind (fun a b => _ -> _ -> _)).
  - intros l _ Hl. rewrite xor_uint16_nil_l. split; [done |]. intros z.
    pose proof (not_elem_of_nil z). tauto.
  - intros l Hl _. rewrite xor_uint16_nil_r. split; [done |]. intros z.
    pose proof (not_elem_of_nil z). tauto.
  - intros x a y b H1 H2 H3 Ha Hb. pose proof (strict_tail _ _ Ha) as Ha'.
    pose proof (strict_tail _ _ Hb) as Hb'. pose proof (fun z => strict_head x a z Ha) as Hxa.
    pose proof (fun z => strict_head y b z Hb) as Hyb.
    rewrite xor_uint16_cons. destruct (Z.eqb_spec x y) as [-> | Hne].
    + destruct (H3 Ha' Hb') as [Hs He]. split; [done |]. intros z. rewrite He, !elem_of_cons.
      pose proof (strict_cons_notin _ _ Ha). pose proof (strict_cons_notin _ _ Hb).
      destruct (decide (z = y)) as [-> |]; tauto.
    + destruct (Z.ltb_spec x y) as [Hlt | Hlt].
      * destruct (H1 Ha' Hb) as [Hs He].
        assert (x ∉ (y :: b)) by (intros [-> | Hin%Hyb]%elem_of_cons; lia).
        assert (x ∉ a) by (intros Hin%Hxa; lia).
        split; [apply strict_cons_elem; [done |] |]; intros z; rewrite ?elem_of_cons, He, ?elem_of_cons.
        -- intros [[Hz%Hxa _] | [[-> | Hz%Hyb] _]]; lia.
        -- destruct (decide (z = x)) as [-> |]; [| tauto].
           rewrite elem_of_cons in *. tauto.
      * destruct (H2 Ha Hb') as [Hs He].
        assert (y ∉ (x :: a)) by (intros [-> | Hin%Hxa]%elem_of_cons; lia).
        assert (y ∉ b) by (intros Hin%Hyb; lia).
        split; [apply strict_cons_elem; [done |] |]; intros z; rewrite ?elem_of_cons, He, ?elem_of_cons.
        -- intros [[[-> | Hz%Hxa] _] | [Hz%Hyb _]]; lia.
        -- destruct (decide (z = y)) as [-> |]; [| tauto].
           rewrite elem_of_cons in *. tauto.
Qed.

Lemma xor_uint16_length a b : zlen (xor_uint16 a b) <= zlen a + zlen b.
Proof.
  revert a b. apply merge_ind; intros.
  - rewrite xor_uint16_nil_l. unfold zlen. simpl. lia.
  - rewrite xor_uint16_nil_r. unfold zlen. simpl. lia.
  - rewrite xor_uint16_cons, !zlen_cons in *.
    destruct (x =? y); [lia | destruct (x <? y)]; rewrite zlen_cons; lia.
Qed.

(** *** Skewed intersections *)

Lemma lb_mono a k k' : k <= k' -> lb a k <= lb a k'.
Proof.
  intros H. induction a as [|x a IH]; [done |]. rewrite !lb_cons.
  destruct (Z.ltb_spec x k), (Z.ltb_spec x k'); lia.
Qed.

(** Searching from [n] on, when everything before [n] is below the key. *)
Lemma lb_drop a n k : strict a -> 0 <= n <= lb a k ->
  n + lb (drop (Z.to_nat n) a) k = lb a k.
Proof.
  intros Hs Hn. rewrite <- (take_drop (Z.to_nat n) a) at 2. rewrite lb_app.
  pose proof (lb_range a k). rewrite (lb_all (take (Z.to_nat n) a)).
  - unfold zlen in *. rewrite length_take. lia.
  - apply Forall_forall. intros x Hx. apply elem_rd in Hx as [i Hi].
    pose proof (rd_bound _ _ _ Hi) as Hb. unfold zlen in Hb. rewrite length_take in Hb.
    apply Z.ltb_lt. rewrite (lb_lookup a k i x Hs); [apply Z.ltb_lt; lia |].
    unfold rd in *. rewrite (proj2 (Z.leb_le 0 i)) in * by lia.
    rewrite lookup_take_lt in Hi by lia. done.
Qed.

Lemma strict_drop n a : strict a -> strict (drop n a).
Proof.
  intros H. rewrite <- (take_drop n a) in H. unfold strict in H.
  rewrite StronglySorted_app in H. by destruct H as (_ & ? & ?).
Qed.

Lemma strict_take n a : strict a -> strict (take n a).
Proof.
  intros H. rewrite <- (take_drop n a) in H. unfold strict in H.
  rewrite StronglySorted_app in H. by destruct H as (_ & ? & ?).
Qed.

Lemma elem_of_lb a k : strict a -> k ∈ a <-> rd a (lb a k) = Some k.
Proof. intros Hs. split; [by apply rd_lb_elem | apply rd_elem]. Qed.

Lemma hit_spec a n k : strict a -> 0 <= n <= lb a k ->
  hit a n (lb (drop (Z.to_nat n) a) k) k = Some (if decide (k ∈ a) then [k] else []).
Proof.
  intros Hs Hn. unfold hit. rewrite Z.add_comm, lb_drop by done.
  destruct (Z.ltb_spec (lb a k) (zlen a)) as [Hlt | Hge].
  - pose proof (lb_range a k). destruct (rd_Some a (lb a k)) as [v Hv]; [lia |].
    rewrite Hv. simpl. destruct (Z.eqb_spec v k) as [-> | Hne].
    + rewrite decide_True; [done | by eapply rd_elem].
    + rewrite decide_False; [done |]. intros Hr%elem_of_lb; [| done].
      rewrite Hv in Hr. by injection Hr.
  - rewrite decide_False; [done |]. intros Hr%elem_of_lb; [| done].
    apply rd_bound in Hr. lia.
Qed.

Lemma inter_cons x a b : inter (x :: a) b = (if decide (x ∈ b) then [x] else []) ++ inter a b.
Proof. unfold inter. rewrite filter_cons. by destruct (decide (x ∈ b)). Qed.

(** Past the end of the large array nothing is left to find. *)
Lemma inter_past s l : strict s -> (forall x, x ∈ s -> zlen l <= lb l x) -> strict l ->
  inter s l = [].
Proof.
  intros _ H Hl. apply filter_none, Forall_forall. intros x Hx Hin.
  apply rd_lb_elem in Hin; [| done]. apply rd_bound in Hin. specialize (H x Hx). lia.
Qed.

Definition ahead (small large : list Z) (idx_l : Z) : Prop :=
  0 <= idx_l /\ forall x, x ∈ small -> idx_l <= lb large x.

Lemma ahead_next x small large n k : strict (x :: small) -> ahead (x :: small) large n ->
  lb large x = k -> ahead small large k.
Proof.
  intros Hs [Hn _] <-. pose proof (lb_range large x). split; [lia |].
  intros y Hy. apply lb_mono. pose proof (strict_head _ _ _ Hs Hy). lia.
Qed.

Lemma ahead_tail x small large n : ahead (x :: small) large n -> ahead small large n.
Proof. intros [H1 H2]. split; [done |]. intros y Hy. apply H2. by constructor. Qed.

Lemma ahead_head x small large n : ahead (x :: small) large n -> 0 <= n <= lb large x.
Proof. intros [H1 H2]. split; [done |]. apply H2, list_elem_of_here. Qed.

Lemma drop_nonempty {A} (l : list A) n : 0 <= n < zlen l -> drop (Z.to_nat n) l <> [].
Proof.
  intros H Hd. apply (f_equal length) in Hd. rewrite length_drop in Hd.
  unfold zlen in H. simpl in Hd. lia.
Qed.

Lemma skewed_one_spec small large n : strict small -> strict large -> (length small <= 1)%nat ->
  ahead small large n -> skewed_one small large n = Some (inter small large).
Proof.
  intros Hs Hl Hlen Ha. destruct small as [|x small]; [done |].
  destruct small; [| simpl in Hlen; lia]. pose proof (ahead_head _ _ _ _ Ha) as Hx.
  simpl. rewrite inter_cons. destruct (Z.ltb_spec n (zlen large)).
  - rewrite binarySearch_spec by (by apply strict_drop). simpl.
    pose proof (lb_drop large n x Hl Hx). pose proof (lb_range (drop (Z.to_nat n) large) x) as Hr.
    assert (x ∈ drop (Z.to_nat n) large <-> x ∈ large) as Hin.
    { rewrite (elem_of_lb (drop _ _)) by (by apply strict_drop).
      rewrite rd_drop by lia. rewrite lb_drop by done. by rewrite <- elem_of_lb. }
    destruct (decide (x ∈ drop (Z.to_nat n) large)) as [Hd | Hd].
    + rewrite decide_True by (by apply Hin). by destruct (Z.leb_spec 0 (lb (drop (Z.to_nat n) large) x)); [| lia].
    + rewrite decide_False by tauto. by destruct (Z.leb_spec 0 (- (lb (drop (Z.to_nat n) large) x + 1))); [lia |].
  - rewrite decide_False; [done |]. intros Hr%elem_of_lb; [| done].
    apply rd_bound in Hr. lia.
Qed.

Lemma skewed_two_spec small large n i1 i2 : strict small -> strict large ->
  (length small <= 3)%nat \/ zlen large <= n ->
  ahead small large n -> skewed_two small large n i1 i2 = Some (inter small large).
Proof.
  intros Hs Hl Hlen Ha.
  assert (zlen large <= n -> skewed_one small large n = Some (inter small large)) as Hpast.
  { intros Hn. rewrite inter_past; [| done | | done].
    - destruct small; [done |]. simpl. by rewrite (proj2 (Z.ltb_ge n (zlen large))) by lia.
    - intros x Hx. destruct Ha as [_ Ha]. specialize (Ha x Hx). lia. }
  destruct small as [|x [|y small]]; [by apply skewed_one_spec; auto | |].
  { apply (skewed_one_spec [x]); auto. }
  cbn [skewed_two]. destruct (Z.ltb_spec n (zlen large)) as [Hn | Hn]; [| by apply Hpast].
  pose proof (strict_tail _ _ Hs) as Hs1. pose proof (strict_tail _ _ Hs1) as Hs2.
  pose proof (ahead_tail _ _ _ _ Ha) as Ha1. pose proof (ahead_head _ _ _ _ Ha) as Hx.
  pose proof (ahead_head _ _ _ _ Ha1) as Hy. pose proof (drop_nonempty large n ltac:(lia)) as Hd.
  unfold binarySearch2. destruct (zlen (drop _ _) =? 0) eqn:E; [by apply zlen_zero in E |].
  rewrite !branchless_search_spec by (auto using strict_drop). cbn [mbind option_bind].
  rewrite !hit_spec by done. cbn [mbind option_bind]. rewrite (lb_drop large n y) by done.
  rewrite skewed_one_spec; [by cbn [mbind option_bind]; rewrite !inter_cons | done | done | simpl in Hlen; lia |].
  by eapply ahead_next.
Qed.

Lemma skewed_loop_spec_aux m : forall small large n old, (length small <= m)%nat ->
  strict small -> strict large ->
  ahead small large n -> skewed_loop small large n old = Some (inter small large).
Proof.
  induction m as [m IH] using lt_wf_ind. intros small large n old Hm Hs Hl Ha.
  assert ((length small <= 3)%nat \/ zlen large <= n ->
    skewed_two small large n (fst (fst (fst old))) (snd (fst (fst old))) =
      Some (inter small large)) as Htail by (intros; by apply skewed_two_spec).
  destruct small as [|x1 [|x2 [|x3 [|x4 small]]]]; try (apply Htail; simpl; lia).
  cbn [skewed_loop]. destruct (Z.ltb_spec n (zlen large)) as [Hn | Hn]; [| by apply Htail; right].
  pose proof (strict_tail _ _ Hs) as Hs1. pose proof (strict_tail _ _ Hs1) as Hs2.
  pose proof (strict_tail _ _ Hs2) as Hs3. pose proof (strict_tail _ _ Hs3) as Hs4.
  pose proof (ahead_tail _ _ _ _ Ha) as Ha1. pose proof (ahead_tail _ _ _ _ Ha1) as Ha2.
  pose proof (ahead_tail _ _ _ _ Ha2) as Ha3.
  pose proof (ahead_head _ _ _ _ Ha). pose proof (ahead_head _ _ _ _ Ha1).
  pose proof (ahead_head _ _ _ _ Ha2). pose proof (ahead_head _ _ _ _ Ha3).
  pose proof (drop_nonempty large n ltac:(lia)) as Hd. unfold binarySearch4.
  destruct (zlen (drop _ _) =? 0) eqn:E; [by apply zlen_zero in E |].
  rewrite !branchless_search_spec by (auto using strict_drop). cbn [mbind option_bind].
  rewrite !hit_spec by done. cbn [mbind option_bind]. rewrite (lb_drop large n x4) by done.
  simpl in Hm. rewrite (IH (length small)); [| lia | lia | done | done | by eapply ahead_next].
  cbn [mbind option_bind]. by rewrite !inter_cons.
Qed.

(** The skewed intersection computes what the plain one does. *)
Lemma intersect_skewed_uint16_spec small large : strict small -> strict large ->
  intersect_skewed_uint16 small large = Some (inter small large).
Proof.
  intros Hs Hl. unfold intersect_skewed_uint16. destruct (zlen small =? 0) eqn:E.
  { by apply zlen_zero in E as ->. }
  eapply skewed_loop_spec_aux; auto. split; [lia |]. intros x _. apply lb_range.
Qed.

(** One step of the galloping loops: where [advanceUntil] stops, and that
    what it skipped cannot be hit. *)
Lemma gallop_step large n v k : strict large -> rd large n = Some v -> v < k ->
  advanceUntil large n k = Some (lb large k) /\ n < lb large k.
Proof.
  intros Hl Hv Hk. pose proof (rd_bound _ _ _ Hv).
  assert (n < lb large k) by (apply Z.ltb_lt; rewrite <- (lb_lookup large k n v) by done; by apply Z.ltb_lt).
  rewrite advanceUntil_spec by (done || lia). split; [f_equal |]; lia.
Qed.

Lemma skewed_card_loop_spec fuel s small large n v pos :
  strict (s :: small) -> strict large -> rd large n = Some v ->
  ahead (s :: small) large n ->
  (length small + Z.to_nat (zlen large - n) < fuel)%nat ->
  skewed_card_loop fuel s small large n v pos = Some (pos + zlen (inter (s :: small) large)).
Proof.
  intros Hs Hl. revert s small n v pos Hs.
  induction fuel as [|fuel IH]; intros s small n v pos Hs Hv Ha Hf; [lia |].
  pose proof (rd_bound _ _ _ Hv) as Hn. pose proof (ahead_head _ _ _ _ Ha) as Hx.
  pose proof (lb_lookup large s n v Hl Hv) as Hsep.
  cbn [skewed_card_loop]. destruct (Z.ltb_spec v s) as [Hvs | Hvs].
  - destruct (gallop_step large n v s Hl Hv Hvs) as [-> Hlt]. cbn [mbind option_bind].
    pose proof (lb_range large s). destruct (Z.eqb_spec (lb large s) (zlen large)) as [He | He].
    + rewrite inter_past; [f_equal; unfold zlen; simpl; lia | done | | done].
      intros y [-> | Hy]%elem_of_cons; [lia |]. rewrite <- He. apply lb_mono.
      pose proof (strict_head _ _ _ Hs Hy). lia.
    + destruct (rd_Some large (lb large s)) as [w Hw]; [lia |]. rewrite Hw. cbn [mbind option_bind].
      apply IH; [done | done | | lia].
      pose proof (ahead_next s small large n _ Hs Ha eq_refl) as [H0 H1].
      split; [done |]. intros y [-> | Hy]%elem_of_cons; [lia | auto].
  - assert (lb large s <= n) as Hlb by (symmetry in Hsep; by apply Z.ltb_ge in Hsep).
    rewrite inter_cons. destruct (Z.ltb_spec s v) as [Hsv | Hsv].
    + rewrite decide_False.
      2: { intros Hin%rd_lb_elem; [| done]. assert (lb large s = n) as Hln by lia.
           rewrite Hln, Hv in Hin. injection Hin as ->. lia. }
      destruct small as [|s' small]; [f_equal; unfold zlen; simpl; lia |].
      apply IH; [by eapply strict_tail | done | by eapply ahead_tail | simpl in *; lia].
    + assert (v = s) as -> by lia. rewrite decide_True by (by eapply rd_elem).
      rewrite zlen_app. change (zlen [s]) with 1.
      destruct small as [|s' small]; [f_equal; unfold zlen; simpl; lia |].
      pose proof (strict_head _ _ s' Hs ltac:(apply list_elem_of_here)) as Hss.
      destruct (gallop_step large n s s' Hl Hv Hss) as [-> Hlt]. cbn [mbind option_bind].
      pose proof (strict_tail _ _ Hs) as Hs'. pose proof (lb_range large s').
      assert (forall y, y ∈ s' :: small -> lb large s' <= lb large y) as Hmono.
      { intros y [-> | Hy]%elem_of_cons; [lia |]. apply lb_mono.
        pose proof (strict_head _ _ _ Hs' Hy). lia. }
      destruct (Z.eqb_spec (lb large s') (zlen large)) as [He | He].
      * rewrite inter_past; [f_equal; unfold zlen; simpl; lia | done | | done].
        intros y Hy%Hmono. lia.
      * destruct (rd_Some large (lb large s')) as [w Hw]; [lia |]. rewrite Hw. cbn [mbind option_bind].
        rewrite IH; [f_equal; lia | done | done | split; [lia | done] | simpl in *; lia].
Qed.

Lemma intersect_skewed_uint16_cardinality_spec small large : strict small -> strict large ->
  large <> [] ->
  intersect_skewed_uint16_cardinality small large = Some (zlen (inter small large)).
Proof.
  intros Hs Hl Hne. destruct small as [|s small]; [done |].
  destruct large as [|v large]; [done |]. unfold intersect_skewed_uint16_cardinality.
  change (rd (v :: large) 0) with (Some v). cbn [mbind option_bind].
  rewrite skewed_card_loop_spec; try done.
  - split; [lia |]. intros y _. apply lb_range.
  - unfold zlen. simpl. lia.
Qed.

Lemma skewed_nonempty_loop_spec fuel s small large n v :
  strict (s :: small) -> strict large -> rd large n = Some v ->
  ahead (s :: small) large n ->
  (length small + Z.to_nat (zlen large - n) < fuel)%nat ->
  skewed_nonempty_loop fuel s small large n v =
    Some (bool_decide (inter (s :: small) large <> [])).
Proof.
  intros Hs Hl. revert s small n v Hs.
  induction fuel as [|fuel IH]; intros s small n v Hs Hv Ha Hf; [lia |].
  pose proof (rd_bound _ _ _ Hv) as Hn. pose proof (ahead_head _ _ _ _ Ha) as Hx.
  pose proof (lb_lookup large s n v Hl Hv) as Hsep.
  cbn [skewed_nonempty_loop]. destruct (Z.ltb_spec v s) as [Hvs | Hvs].
  - destruct (gallop_step large n v s Hl Hv Hvs) as [-> Hlt]. cbn [mbind option_bind].
    pose proof (lb_range large s). destruct (Z.eqb_spec (lb large s) (zlen large)) as [He | He].
    + rewrite inter_past; [done | done | | done].
      intros y [-> | Hy]%elem_of_cons; [lia |]. rewrite <- He. apply lb_mono.
      pose proof (strict_head _ _ _ Hs Hy). lia.
    + destruct (rd_Some large (lb large s)) as [w Hw]; [lia |]. rewrite Hw. cbn [mbind option_bind].
      apply IH; [done | done | | lia].
      pose proof (ahead_next s small large n _ Hs Ha eq_refl) as [H0 H1].
      split; [done |]. intros y [-> | Hy]%elem_of_cons; [lia | auto].
  - assert (lb large s <= n) as Hlb by (symmetry in Hsep; by apply Z.ltb_ge in Hsep).
    rewrite inter_cons. destruct (Z.ltb_spec s v) as [Hsv | Hsv].
    + rewrite decide_False.
      2: { intros Hin%rd_lb_elem; [| done]. assert (lb large s = n) as Hln by lia.
           rewrite Hln, Hv in Hin. injection Hin as ->. lia. }
      destruct small as [|s' small]; [done |].
      apply IH; [by eapply strict_tail | done | by eapply ahead_tail | simpl in *; lia].
    + assert (v = s) as -> by lia. by rewrite decide_True by (by eapply rd_elem).
Qed.

Lemma intersect_skewed_uint16_nonempty_spec small large : strict small -> strict large ->
  large <> [] ->
  intersect_skewed_uint16_nonempty small large = Some (bool_decide (inter small large <> [])).
Proof.
  intros Hs Hl Hne. destruct small as [|s small]; [done |].
  destruct large as [|v large]; [done |]. unfold intersect_skewed_uint16_nonempty.
  change (rd (v :: large) 0) with (Some v). cbn [mbind option_bind].
  rewrite skewed_nonempty_loop_spec; try done.
  - split; [lia |]. intros y _. apply lb_range.
  - unfold zlen. simpl. lia.
Qed.

(** The set operations on sorted arrays.  For strictly increasing arrays
    the merge of [intersect_uint16] and the block-wise galloping of
    [intersect_skewed_uint16] both return exactly the elements of the first
    array that are in the second, in order; [difference_uint16] those that are
    not; [fast_union_uint16] and [xor_uint16] return strictly increasing
    arrays whose elements are those of either array, respectively of exactly
    one; no routine reads outside its arrays. *)
Theorem sorted_set_operations A B : strict A -> strict B ->
  intersect_uint16 A B = Some (inter A B) /\
  intersect_skewed_uint16 A B = Some (inter A B) /\
  difference_uint16 A B = minus A B /\
  strict (fast_union_uint16 A B) /\
  (forall x, x ∈ fast_union_uint16 A B <-> x ∈ A \/ x ∈ B) /\
  strict (xor_uint16 A B) /\
  (forall x, x ∈ xor_uint16 A B <-> (x ∈ A /\ x ∉ B) \/ (x ∈ B /\ x ∉ A)).
Proof.
  intros HA HB. rewrite fast_union_uint16_eq by done.
  split; [by apply intersect_uint16_spec |].
  split; [by apply intersect_skewed_uint16_spec |].
  split; [by apply difference_uint16_spec |].
  split; [by apply union_loop_strict |].
  split; [intros x; apply elem_of_union_loop |].
  by apply xor_uint16_spec.
Qed.

(** The searches.  In a strictly increasing array [binarySearch] returns
    the index of the key, or [- p - 1] for the place [p] it would take;
    [advanceUntil] the first index after [pos] whose element is not below the
    key (or the length); [count_less] and [count_greater] the number of
    elements below and above it; the branchless searches the number of
    elements below it.  None reads outside the array. *)
Theorem searches_correct a k : strict a ->
  binarySearch a k = Some (if decide (k ∈ a) then lb a k else - (lb a k + 1)) /\
  (forall pos, -1 <= pos -> advanceUntil a pos k = Some (Z.max (pos + 1) (lb a k))) /\
  count_less a k = Some (lb a k) /\
  count_greater a k = Some (zlen (filter (fun v => k < v) a)) /\
  (a <> [] -> branchless_search a k = Some (lb a k)).
Proof.
  intros Hs. split; [by apply binarySearch_spec |].
  split; [intros; by apply advanceUntil_spec |].
  split; [by apply count_less_spec |].
  split; [| by intros; apply branchless_search_spec].
  rewrite count_greater_spec by done. f_equal. clear Hs. unfold lb.
  induction a as [|x a IH]; [done |]. rewrite !filter_cons, zlen_cons.
  destruct (decide (x < k + 1)), (decide (k < x)); rewrite ?zlen_cons; lia.
Qed.

Definition demo_small : list Z := [3; 10; 11; 50; 51; 700; 9000].
Definition demo_large : list Z := (fun i => 5 * i) <$> seqZ 0 200.

Lemma demo_strict : strict demo_small /\ strict demo_large.
Proof.
  split; unfold strict, demo_small, demo_large.
  - repeat constructor; lia.
  - apply (StronglySorted_fmap _ Z.lt); [lia |].
    assert (forall n m, StronglySorted Z.lt (seqZ m (Z.of_nat n))) as H; [| apply (H 200%nat)].
    induction n as [|n IH]; intros m; [constructor |].
    rewrite seqZ_cons by lia. constructor.
    + replace (Z.pred (Z.of_nat (S n))) with (Z.of_nat n) by lia. apply IH.
    + apply Forall_forall. intros x Hx%elem_of_seqZ. lia.
Qed.

Lemma sorted_set_operations_witness :
  strict demo_small /\ strict demo_large /\
  intersect_skewed_uint16 demo_small demo_large = Some [10; 50; 700].
Proof.
  destruct demo_strict as [H1 H2]. split; [done | split; [done |]].
  destruct (sorted_set_operations demo_small demo_large H1 H2) as (_ & -> & _).
  by vm_compute.
Defined.

Lemma searches_correct_witness :
  binarySearch demo_large 55 = Some 11 /\ binarySearch demo_large 56 = Some (-13).
Proof.
  destruct demo_strict as [_ H].
  destruct (searches_correct demo_large 55 H) as (-> & _).
  destruct (searches_correct demo_large 56 H) as (-> & _).
  split; by vm_compute.
Defined.
