(* ===== verification/RoaringInplace.v ===== *)
(** * Roaring bitmaps: set operations that write over their input

    [array_container_intersection_inplace] and the in-place
    [array_container_andnot] call [intersect_uint16],
    [intersect_skewed_uint16] and [difference_uint16] of
    [src/src/datastruct/roaring.c] with the output pointer equal to one of
    the inputs.  Here these routines run on one buffer [mem]: the aliased
    input is read from it at the moment the code reads it, and every output
    goes into it.  The theorems show that the output never overtakes what
    still has to be read, so the result is that of the routine on separate
    arrays ([RoaringArrays]).

    The result is the buffer and the number of values written. *)

From stdpp Require Import base list list_numbers numbers option sorting.
From Stdlib Require Import ZArith Lia.
From S2P Require Import Prelude.
From S2P Require Import RoaringArrays.

(** [buffer[pos] = x] *)
Definition put_at (mem : list Z) (pos : nat) (x : Z) : option (list Z) :=
  if decide (pos < length mem) then Some (<[pos := x]> mem) else None.

(** ** intersect_uint16 with [out = A] *)

(** The cursor [A] is an index [a] into the buffer with [n] elements left. *)
Fixpoint skip_in (mem : list Z) (a n : nat) (b : Z) : option (nat * nat) :=
  match n with
  | O => Some (a, O)
  | S n' => x ← mem !! a; if (x <? b)%Z then skip_in mem (S a) n' b else Some (a, n)
  end.

Fixpoint intersect_buf (fuel : nat) (mem : list Z) (a n : nat) (B : list Z) (out : nat) :
    option (list Z * nat) :=
  match fuel with
  | O => None
  | S fuel =>
    match B with
    | [] => None
    | b :: _ =>
      '(a, n) ← skip_in mem a n b;
      match n with
      | O => Some (mem, out)
      | S n' =>
        x ← mem !! a;
        match skip_below B x with
        | [] => Some (mem, out)
        | b' :: B' =>
          if (x =? b')%Z then
            mem ← put_at mem out x;
            match n', B' with
            | O, _ | _, [] => Some (mem, S out)
            | _, _ => intersect_buf fuel mem (S a) n' B' (S out)
            end
          else
            match n' with
            | O => Some (mem, out)
            | _ => intersect_buf fuel mem (S a) n' (b' :: B') out
            end
        end
      end
    end
  end.

Definition intersect_uint16_inplace (mem : list Z) (lenA : nat) (B : list Z) :
    option (list Z * nat) :=
  if decide (lenA = 0) then Some (mem, 0)
  else match B with
  | [] => Some (mem, 0)
  | _ => intersect_buf (S lenA) mem 0 lenA B 0
  end.

(** ** difference_uint16 with [a_out = a1] *)

(** [memmove(a_out + out_card, a1 + k1, ...)] inside the buffer. *)
Definition move_down (mem : list Z) (dst src n : nat) : list Z :=
  splice mem dst (take n (drop src mem)).

(** [k1] counts up while [n] elements are left. *)
Fixpoint difference_buf (mem : list Z) (k1 n out : nat) (a2 : list Z) {struct n} :
    option (list Z * nat) :=
  match n with
  | O => Some (mem, out)
  | S n' =>
    s1 ← mem !! k1;
    (fix inner (a2 : list Z) : option (list Z * nat) :=
       match a2 with
       | [] => Some (move_down mem out k1 n, out + n)
       | s2 :: rest =>
         if (s1 <? s2)%Z then
           mem ← put_at mem out s1; difference_buf mem (S k1) n' (S out) a2
         else if (s1 =? s2)%Z then
           match n' with
           | O => Some (mem, out)
           | _ => difference_buf mem (S k1) n' out rest
           end
         else inner rest
       end) a2
  end.

Definition difference_uint16_inplace (mem : list Z) (length1 : nat) (a2 : list Z) :
    option (list Z * nat) :=
  if decide (length1 = 0) then Some (mem, 0)
  else match a2 with
  | [] => Some (mem, length1)
  | _ => difference_buf mem 0 length1 0 a2
  end.

(** ** intersect_skewed_uint16 with the output over either input *)

Section skewed.

(** How the two inputs are read while the buffer holds [mem]: an input that
    is the output buffer is a prefix of [mem], the other one is fixed. *)
Variables small_at large_at : list Z -> list Z.

Definition hit_buf (mem : list Z) (pos : nat) (idx_l index target : Z) :
    option (list Z * nat) :=
  h ← hit (large_at mem) idx_l index target;
  match h with
  | [] => Some (mem, pos)
  | _ => mem ← put_at mem pos target; Some (mem, S pos)
  end.

Definition skewed_one_buf (mem : list Z) (idx_s n : nat) (idx_l : Z) (pos : nat) :
    option (list Z * nat) :=
  match n with
  | O => Some (mem, pos)
  | S _ =>
    if (idx_l <? zlen (large_at mem))%Z then
      val_s ← small_at mem !! idx_s;
      index ← binarySearch (drop (Z.to_nat idx_l) (large_at mem)) val_s;
      if (0 <=? index)%Z then mem ← put_at mem pos val_s; Some (mem, S pos)
      else Some (mem, pos)
    else Some (mem, pos)
  end.

Definition skewed_two_buf (mem : list Z) (idx_s n : nat) (idx_l : Z) (pos : nat)
    (index1 index2 : Z) : option (list Z * nat) :=
  match n with
  | S (S n') =>
    if (idx_l <? zlen (large_at mem))%Z then
      target1 ← small_at mem !! idx_s;
      target2 ← small_at mem !! (idx_s + 1);
      '(index1, index2) ← binarySearch2 (drop (Z.to_nat idx_l) (large_at mem)) target1 target2
                            (index1, index2);
      '(mem, pos) ← hit_buf mem pos idx_l index1 target1;
      '(mem, pos) ← hit_buf mem pos idx_l index2 target2;
      skewed_one_buf mem (idx_s + 2) n' (idx_l + index2) pos
    else skewed_one_buf mem idx_s n idx_l pos
  | _ => skewed_one_buf mem idx_s n idx_l pos
  end.

(** [n] elements of the small array are left at [idx_s]. *)
Fixpoint skewed_buf (mem : list Z) (idx_s n : nat) (idx_l : Z) (pos : nat)
    (old : Z * Z * Z * Z) : option (list Z * nat) :=
  match n with
  | S (S (S (S n'))) =>
    if (idx_l <? zlen (large_at mem))%Z then
      target1 ← small_at mem !! idx_s;
      target2 ← small_at mem !! (idx_s + 1);
      target3 ← small_at mem !! (idx_s + 2);
      target4 ← small_at mem !! (idx_s + 3);
      '(index1, index2, index3, index4) ←
        binarySearch4 (drop (Z.to_nat idx_l) (large_at mem)) target1 target2 target3 target4 old;
      '(mem, pos) ← hit_buf mem pos idx_l index1 target1;
      '(mem, pos) ← hit_buf mem pos idx_l index2 target2;
      '(mem, pos) ← hit_buf mem pos idx_l index3 target3;
      '(mem, pos) ← hit_buf mem pos idx_l index4 target4;
      skewed_buf mem (idx_s + 4) n' (idx_l + index4) pos (index1, index2, index3, index4)
    else skewed_two_buf mem idx_s n idx_l pos (fst (fst (fst old))) (snd (fst (fst old)))
  | _ => skewed_two_buf mem idx_s n idx_l pos (fst (fst (fst old))) (snd (fst (fst old)))
  end.

Definition intersect_skewed_buf (mem : list Z) (size_s : nat) : option (list Z * nat) :=
  if decide (size_s = 0) then Some (mem, 0)
  else skewed_buf mem 0 size_s 0 0 (0, 0, 0, 0)%Z.

End skewed.

(** [intersect_skewed_uint16(src_1, card_1, src_2, card_2, src_1)] *)
Definition intersect_skewed_over_small (mem : list Z) (size_s : nat) (large : list Z) :
    option (list Z * nat) :=
  intersect_skewed_buf (fun mem => take size_s mem) (fun _ => large) mem size_s.

(** [intersect_skewed_uint16(src_2, card_2, src_1, card_1, src_1)] *)
Definition intersect_skewed_over_large (small : list Z) (mem : list Z) (size_l : nat) :
    option (list Z * nat) :=
  intersect_skewed_buf (fun _ => small) (fun mem => take size_l mem) mem (length small).

(** ** Proofs: intersect_uint16 *)

Lemma put_at_ok (mem : list Z) pos x : pos < length mem -> put_at mem pos x = Some (<[pos := x]> mem).
Proof. intros H. unfold put_at. by rewrite decide_True. Qed.

(** What a store at [pos] leaves: the part written so far, one value longer. *)
Lemma take_put (mem : list Z) pos x : pos < length mem ->
  take (S pos) (<[pos := x]> mem) = take pos mem ++ [x].
Proof.
  intros H. erewrite take_S_r by (by apply list_lookup_insert_eq).
  by rewrite take_insert_ge by lia.
Qed.

Lemma drop_lookup (l : list Z) i x r : drop i l = x :: r ->
  l !! i = Some x /\ drop (S i) l = r.
Proof.
  intros H. split.
  - rewrite <- (Nat.add_0_r i), <- lookup_drop, H. done.
  - replace (S i) with (i + 1) by lia. by rewrite <- drop_drop, H.
Qed.

Lemma take_cons_drop (mem : list Z) a n x : mem !! a = Some x ->
  take (S n) (drop a mem) = x :: take n (drop (S a) mem).
Proof. intros H. by rewrite (drop_S _ _ _ H). Qed.

Lemma take_drop_ne (mem : list Z) a n : a + S n <= length mem ->
  exists y t, take (S n) (drop a mem) = y :: t.
Proof.
  intros H. destruct (lookup_lt_is_Some_2 mem a) as [x Hx]; [lia |].
  rewrite (take_cons_drop mem a n x Hx). eauto.
Qed.

Lemma skip_in_spec mem a n b : a + n <= length mem -> exists k, k <= n /\
  skip_in mem a n b = Some (a + k, n - k) /\
  skip_below (take n (drop a mem)) b = take (n - k) (drop (a + k) mem).
Proof.
  revert a. induction n as [|n IH]; intros a H.
  - exists 0. by rewrite Nat.add_0_r.
  - destruct (lookup_lt_is_Some_2 mem a) as [x Hx]; [lia |]. cbn [skip_in]. rewrite Hx.
    cbn [mbind option_bind]. rewrite (take_cons_drop mem a n x Hx). cbn [skip_below].
    destruct (x <? b)%Z eqn:E.
    + destruct (IH (S a)) as (k & Hk & -> & ->); [lia |]. exists (S k).
      split; [lia | split]; [do 2 f_equal; lia |]. do 2 f_equal; lia.
    + exists 0. rewrite Nat.add_0_r. split; [lia | split; [done |]].
      by rewrite <- (take_cons_drop mem a n x Hx).
Qed.

Lemma intersect_buf_spec fuel mem a n B out l :
  a + n <= length mem -> out <= a ->
  intersect_loop fuel (take n (drop a mem)) B = Some l ->
  exists mem', intersect_buf fuel mem a n B out = Some (mem', out + length l) /\
    length mem' = length mem /\ take (out + length l) mem' = take out mem ++ l.
Proof.
  revert mem a n B out l. induction fuel as [|fuel IH]; intros mem a n B out l Hlen Ho H; [done |].
  cbn [intersect_loop intersect_buf] in *. destruct B as [|b B]; [done |].
  destruct (skip_in_spec mem a n b Hlen) as (k & Hk & -> & Hs). rewrite Hs in H. clear Hs.
  cbn [mbind option_bind]. set (a' := a + k) in *. set (m := n - k) in *.
  assert (a' + m <= length mem /\ out <= a') as [Hlen' Ho'] by lia.
  clearbody a' m. clear Hk Hlen Ho.
  destruct m as [|m].
  { injection H as <-. exists mem. simpl. by rewrite Nat.add_0_r, app_nil_r. }
  destruct (lookup_lt_is_Some_2 mem a') as [x Hx]; [lia |]. rewrite Hx. cbn [mbind option_bind].
  rewrite (take_cons_drop mem a' m x Hx) in H.
  destruct (skip_below (b :: B) x) as [|b' B'].
  { injection H as <-. exists mem. simpl. by rewrite Nat.add_0_r, app_nil_r. }
  destruct (x =? b')%Z.
  - rewrite put_at_ok by lia. cbn [mbind option_bind].
    pose proof (take_put mem out x ltac:(lia)) as Hput.
    assert (length (<[out := x]> mem) = length mem) as Hl by apply length_insert.
    assert (m = 0 \/ B' = [] -> l = [x]) as Hstop.
    { intros [-> | ->]; [by injection H as <- |].
      destruct (take m _); by injection H as <-. }
    destruct (decide (m = 0 \/ B' = [])) as [Hs | Hs].
    + rewrite (Hstop Hs). exists (<[out := x]> mem). rewrite Nat.add_1_r.
      split; [| done]. destruct Hs as [-> | ->]; [done |]. by destruct m.
    + clear Hstop. destruct m as [|m]; [tauto |]. destruct B' as [|b'' B']; [tauto |].
      destruct (take_drop_ne mem (S a') m) as (y & t & Et); [lia |].
      rewrite Et in H. rewrite <- Et in H. clear Et y t.
      destruct (intersect_loop fuel _ (b'' :: B')) as [l1 |] eqn:E1; [| done].
      injection H as <-. rewrite <- (drop_insert_lt mem (S a') out x) in E1 by lia.
      destruct (IH (<[out := x]> mem) (S a') (S m) _ (S out) l1 ltac:(lia) ltac:(lia) E1) as (mem' & -> & Hm1 & Hm2).
      exists mem'. simpl. rewrite Nat.add_succ_r. split; [done |]. split; [lia |].
      simpl in Hm2. by rewrite Hm2, Hput, <- app_assoc.
  - destruct m as [|m].
    { injection H as <-. exists mem. simpl. by rewrite Nat.add_0_r, app_nil_r. }
    destruct (take_drop_ne mem (S a') m) as (y & t & Et); [lia |].
    rewrite Et in H. rewrite <- Et in H. apply IH; [lia | lia | done].
Qed.

Lemma intersect_uint16_inplace_spec A rest B : strict A -> strict B ->
  exists mem', intersect_uint16_inplace (A ++ rest) (length A) B =
      Some (mem', length (inter A B)) /\
    length mem' = length (A ++ rest) /\ take (length (inter A B)) mem' = inter A B.
Proof.
  intros HA HB. unfold intersect_uint16_inplace. destruct (decide (length A = 0)) as [H0 | H0].
  { destruct A; [| done]. by exists rest. }
  destruct B as [|b B].
  { exists (A ++ rest). by rewrite inter_nil_r. }
  destruct (intersect_buf_spec (S (length A)) (A ++ rest) 0 (length A) (b :: B) 0 (inter A (b :: B)))
    as (mem' & -> & Hl & Ht); [rewrite length_app; lia | lia | |].
  - rewrite drop_0, take_app_length. apply intersect_loop_spec; auto.
  - by exists mem'.
Qed.

(** ** Proofs: difference_uint16 *)

Lemma take_splice_end (mem b : list Z) out : out <= length mem ->
  take (out + length b) (splice mem out b) = take out mem ++ b.
Proof.
  intros H. unfold splice. rewrite app_assoc, take_app_length'; [done |].
  rewrite length_app, length_take. lia.
Qed.

Lemma difference_buf_spec mem k1 n out a2 :
  k1 + n <= length mem -> out <= k1 ->
  let d := difference_loop (take n (drop k1 mem)) a2 in
  exists mem', difference_buf mem k1 n out a2 = Some (mem', out + length d) /\
    length mem' = length mem /\ take (out + length d) mem' = take out mem ++ d.
Proof.
  revert mem k1 out a2. induction n as [|n IH]; intros mem k1 out a2 Hlen Ho; cbn zeta.
  { exists mem. replace (difference_loop _ a2) with (@nil Z) by (by destruct a2).
    simpl. by rewrite Nat.add_0_r, app_nil_r. }
  destruct (lookup_lt_is_Some_2 mem k1) as [s1 Hs]; [lia |].
  rewrite (take_cons_drop mem k1 n s1 Hs). cbn [difference_buf]. rewrite Hs.
  cbn [mbind option_bind]. induction a2 as [|s2 a2 IHa].
  - rewrite <- (take_cons_drop mem k1 n s1 Hs).
    exists (move_down mem out k1 (S n)).
    assert (length (take (S n) (drop k1 mem)) = S n) as Hl
      by (rewrite length_take, length_drop; lia).
    replace (difference_loop (take (S n) (drop k1 mem)) []) with (take (S n) (drop k1 mem))
      by (by destruct (take (S n) (drop k1 mem))).
    rewrite Hl. split; [done |]. unfold move_down. split; [apply length_splice; lia |].
    rewrite <- Hl at 1. apply take_splice_end. lia.
  - rewrite difference_loop_cons. destruct (Z.ltb_spec s1 s2).
    + rewrite put_at_ok by lia. cbn [mbind option_bind].
      destruct (IH (<[out := s1]> mem) (S k1) (S out) (s2 :: a2)) as (mem' & He & H1 & H2);
        [rewrite length_insert; lia | lia |].
      rewrite drop_insert_lt in He, H2 by lia. exists mem'. cbn [length]. rewrite Nat.add_succ_r.
      split; [exact He |]. rewrite length_insert in H1. split; [done |].
      cbn [Nat.add] in H2. by rewrite H2, take_put, <- app_assoc by lia.
    + destruct (Z.eqb_spec s1 s2); [| exact IHa].
      destruct n as [|n].
      * exists mem. replace (difference_loop _ a2) with (@nil Z) by (by destruct a2).
        simpl. by rewrite Nat.add_0_r, app_nil_r.
      * apply IH; lia.
Qed.

Lemma difference_uint16_inplace_spec A rest B : strict A -> strict B ->
  exists mem', difference_uint16_inplace (A ++ rest) (length A) B =
      Some (mem', length (minus A B)) /\
    length mem' = length (A ++ rest) /\ take (length (minus A B)) mem' = minus A B.
Proof.
  intros HA HB. unfold difference_uint16_inplace. destruct (decide (length A = 0)) as [H0 | H0].
  { destruct A; [| done]. by exists rest. }
  destruct B as [|b B].
  { exists (A ++ rest). rewrite minus_nil_r. by rewrite take_app_length. }
  destruct (difference_buf_spec (A ++ rest) 0 (length A) 0 (b :: B)) as (mem' & -> & Hl & Ht);
    [rewrite length_app; lia | lia |].
  rewrite drop_0, take_app_length, difference_loop_spec in * by done. by exists mem'.
Qed.

(** ** Proofs: intersect_skewed_uint16 *)

Section skewed_spec.

Variables small_at large_at : list Z -> list Z.
Variables (small large : list Z) (N : nat).
Hypothesis Hsmall : strict small.
Hypothesis Hlarge : strict large.
Hypothesis Hroom : length small <= N \/ length large <= N.

(** While the buffer holds [mem], the inputs still read as they were from
    index [k] on. *)
Definition agree_s (mem : list Z) (k : nat) : Prop := drop k (small_at mem) = drop k small.
Definition agree_l (mem : list Z) (k : nat) : Prop :=
  length (large_at mem) = length large /\ drop k (large_at mem) = drop k large.

(** A store below [k] does not disturb them; a store at [k] of the value the
    large array has there does not either. *)
Hypothesis small_stable : forall mem k pos x,
  agree_s mem k -> pos < k -> agree_s (<[pos := x]> mem) k.
Hypothesis large_stable : forall mem k pos x,
  agree_l mem k -> pos <= k -> (pos = k -> large !! k = Some x) -> agree_l (<[pos := x]> mem) k.

Lemma agree_s_weaken mem k k' : agree_s mem k -> k <= k' -> agree_s mem k'.
Proof.
  unfold agree_s. intros H Hk. replace k' with (k + (k' - k)) by lia.
  by rewrite <- !drop_drop, H.
Qed.

Lemma agree_l_weaken mem k k' : agree_l mem k -> k <= k' -> agree_l mem k'.
Proof.
  intros [Hl H] Hk. split; [done |]. replace k' with (k + (k' - k)) by lia.
  by rewrite <- !drop_drop, H.
Qed.

Lemma agree_s_lookup mem k i : agree_s mem k -> k <= i -> small_at mem !! i = small !! i.
Proof.
  intros H Hk. replace i with (k + (i - k)) by lia.
  by rewrite <- !lookup_drop, H.
Qed.

Lemma hit_agree mem k n i t : agree_l mem k -> (0 <= n -> 0 <= i -> Z.of_nat k <= n + i ->
  hit (large_at mem) n i t = hit large n i t)%Z.
Proof.
  intros [Hl H] Hn Hi Hk. unfold hit, zlen. rewrite Hl.
  destruct (_ <? _)%Z; [| done]. f_equal. unfold rd.
  destruct (0 <=? n + i)%Z; [| done]. replace (Z.to_nat (n + i)) with (k + (Z.to_nat (n + i) - k)) by lia.
  by rewrite <- !lookup_drop, H.
Qed.

(** The value at index [i] of the small array is looked up and, when found,
    stored: [pos] values were stored before, all of them below it. *)
Lemma hit_step mem pos i t n k :
  length mem = N -> small !! i = Some t -> pos <= i ->
  agree_l mem k -> (Z.of_nat k <= lb large t)%Z -> (0 <= n <= lb large t)%Z ->
  (Z.of_nat pos <= lb large t)%Z ->
  let h := if decide (t ∈ large) then [t] else [] in
  exists mem', hit_buf large_at mem pos n (lb (drop (Z.to_nat n) large) t) t =
      Some (mem', pos + length h) /\
    length mem' = N /\ agree_l mem' (Z.to_nat (lb large t)) /\
    (forall j, agree_s mem j -> pos < j -> agree_s mem' j) /\
    take (pos + length h) mem' = take pos mem ++ h /\
    (forall u, (t < u)%Z -> (Z.of_nat (pos + length h) <= lb large u)%Z).
Proof.
  intros HN Ht Hpi Hk Hkt Hn Hpos h. pose proof (lb_drop large n t Hlarge Hn) as Hd.
  pose proof (lb_range (drop (Z.to_nat n) large) t) as Hr.
  unfold hit_buf. rewrite (hit_agree mem k) by (done || lia).
  rewrite hit_spec by done. cbn [mbind option_bind]. fold h.
  assert (agree_l mem (Z.to_nat (lb large t))) as Hag by (eapply agree_l_weaken; [done | lia]).
  subst h. destruct (decide (t ∈ large)) as [Hin | Hin].
  - pose proof (rd_lb_elem large t Hlarge Hin) as Hrd. pose proof (rd_bound _ _ _ Hrd) as Hb.
    pose proof (lookup_lt_Some _ _ _ Ht). unfold zlen in Hb.
    assert (pos < length mem) as Hp by lia.
    rewrite put_at_ok by done. cbn [mbind option_bind length].
    exists (<[pos := t]> mem). rewrite Nat.add_1_r. split; [done |].
    split; [by rewrite length_insert |]. split; [| split; [| split]].
    + apply large_stable; [done | lia |]. intros _. unfold rd in Hrd.
      by destruct (0 <=? _)%Z.
    + intros j Hj Hlt. by apply small_stable.
    + by apply take_put.
    + intros u Hu. pose proof (lb_mono large (t + 1) u ltac:(lia)).
      rewrite lb_succ, decide_True in H0 by done. lia.
  - exists mem. cbn [length]. rewrite Nat.add_0_r, app_nil_r.
    repeat split; auto; try apply Hag. intros u Hu.
    pose proof (lb_mono large t u ltac:(lia)). lia.
Qed.

(** The state between two rounds, with [idx_s] values of the small array
    done. *)
Record round_inv (mem : list Z) (idx_s : nat) (idx_l : Z) (pos : nat) : Prop := {
  ri_len : length mem = N;
  ri_small : agree_s mem idx_s;
  ri_large : agree_l mem (Z.to_nat idx_l);
  ri_pos : pos <= idx_s;
  ri_ahead : ahead (drop idx_s small) large idx_l;
  ri_lb : forall x, x ∈ drop idx_s small -> (Z.of_nat pos <= lb large x)%Z;
}.

Definition writes (mem : list Z) (pos : nat) (r : list Z) (o : option (list Z * nat)) : Prop :=
  exists mem', o = Some (mem', pos + length r) /\ length mem' = N /\
    take (pos + length r) mem' = take pos mem ++ r.

Lemma writes_nil mem pos : length mem = N -> writes mem pos [] (Some (mem, pos)).
Proof. intros H. exists mem. simpl. by rewrite Nat.add_0_r, app_nil_r. Qed.

(** Output that is extended by a further output. *)
Lemma writes_app mem pos h mem1 r o : take (pos + length h) mem1 = take pos mem ++ h ->
  writes mem1 (pos + length h) r o -> writes mem pos (h ++ r) o.
Proof.
  intros Ht (mem' & Ho & Hl & Hr). exists mem'.
  rewrite length_app, Nat.add_assoc. split; [done |]. split; [done |].
  by rewrite Hr, Ht, <- app_assoc.
Qed.

Lemma one_hit t : length (if decide (t ∈ large) then [t] else []) <= 1.
Proof. destruct (decide (t ∈ large)); simpl; lia. Qed.

Lemma past_end mem idx_s idx_l pos : round_inv mem idx_s idx_l pos ->
  (zlen large <= idx_l)%Z -> inter (drop idx_s small) large = [].
Proof.
  intros [] H. apply inter_past; [by apply strict_drop | | done].
  intros x Hx. destruct ri_ahead0 as [_ Ha]. specialize (Ha x Hx). lia.
Qed.

Lemma round_guard mem idx_s idx_l pos : round_inv mem idx_s idx_l pos ->
  zlen (large_at mem) = zlen large /\ (0 <= idx_l)%Z /\
  drop (Z.to_nat idx_l) (large_at mem) = drop (Z.to_nat idx_l) large.
Proof.
  intros []. destruct ri_large0 as [Hl Hd]. unfold zlen. split; [lia |].
  destruct ri_ahead0. done.
Qed.

Lemma skewed_one_buf_spec mem idx_s idx_l pos :
  round_inv mem idx_s idx_l pos -> length (drop idx_s small) <= 1 ->
  writes mem pos (inter (drop idx_s small) large)
    (skewed_one_buf small_at large_at mem idx_s (length (drop idx_s small)) idx_l pos).
Proof.
  intros HR Hlen. pose proof (round_guard _ _ _ _ HR) as (Hz & Hi & Hd).
  destruct (drop idx_s small) as [|t r] eqn:E; [apply writes_nil, HR |].
  destruct r; [| simpl in Hlen; lia]. cbn [skewed_one_buf length]. rewrite Hz.
  destruct (Z.ltb_spec idx_l (zlen large)) as [Hlt | Hge].
  - destruct (drop_lookup _ _ _ _ E) as [Ht _]. destruct HR as [HN Hag Hal Hpos Ha Hlb].
    rewrite (agree_s_lookup mem idx_s idx_s), Ht by done. cbn [mbind option_bind]. rewrite Hd.
    rewrite E in Ha, Hlb. pose proof (Hlb t ltac:(apply list_elem_of_here)) as Hpt.
    pose proof (skewed_one_spec [t] large idx_l ltac:(repeat constructor) Hlarge ltac:(simpl; lia) Ha) as Hs.
    simpl in Hs. rewrite (proj2 (Z.ltb_lt _ _) Hlt) in Hs.
    destruct (binarySearch _ t) as [index |]; [| done]. cbn [mbind option_bind] in *.
    injection Hs as Hs. rewrite <- Hs. destruct (0 <=? index)%Z eqn:Ei.
    + pose proof (lookup_lt_Some _ _ _ Ht).
      assert (t ∈ large) as Hin.
      { unfold inter in Hs. assert (t ∈ filter (fun x => x ∈ large) [t]) as Hf
          by (rewrite <- Hs; apply list_elem_of_here).
        by apply list_elem_of_filter in Hf as [? _]. }
      pose proof (rd_bound _ _ _ (rd_lb_elem large t Hlarge Hin)) as Hb. unfold zlen in Hb.
      rewrite put_at_ok by lia. exists (<[pos := t]> mem). cbn [mbind option_bind length].
      rewrite Nat.add_1_r, length_insert. split; [done | split; [done |]].
      apply take_put. lia.
    + by apply writes_nil.
  - rewrite <- E, (past_end mem idx_s idx_l pos HR Hge). by apply writes_nil, HR.
Qed.

Lemma skewed_two_buf_spec mem idx_s idx_l pos i1 i2 :
  round_inv mem idx_s idx_l pos -> length (drop idx_s small) <= 3 \/ (zlen large <= idx_l)%Z ->
  writes mem pos (inter (drop idx_s small) large)
    (skewed_two_buf small_at large_at mem idx_s (length (drop idx_s small)) idx_l pos i1 i2).
Proof.
  intros HR Hlen. pose proof (round_guard _ _ _ _ HR) as (Hz & Hi & Hd).
  pose proof (skewed_one_buf_spec mem idx_s idx_l pos HR) as Hone.
  destruct (drop idx_s small) as [|t1 [|t2 r]] eqn:E; [apply Hone; simpl; lia.. |].
  cbn [skewed_two_buf length]. rewrite Hz.
  destruct (Z.ltb_spec idx_l (zlen large)) as [Hlt | Hge].
  - destruct (drop_lookup _ _ _ _ E) as [Ht1 E1]. destruct (drop_lookup _ _ _ _ E1) as [Ht2 E2].
    assert (strict (t1 :: t2 :: r)) as Hst by (rewrite <- E; by apply strict_drop).
    pose proof (strict_head _ _ t2 Hst ltac:(apply list_elem_of_here)) as H12.
    destruct HR as [HN Hag Hal Hpos Ha Hlb]. rewrite E in Ha, Hlb.
    pose proof (ahead_tail _ _ _ _ Ha) as Ha2. pose proof (ahead_head _ _ _ _ Ha) as Hn1.
    pose proof (ahead_head _ _ _ _ Ha2) as Hn2.
    rewrite !(agree_s_lookup mem idx_s), Nat.add_1_r, Ht1, Ht2 by (done || lia).
    cbn [mbind option_bind]. rewrite Hd. unfold binarySearch2.
    pose proof (drop_nonempty large idx_l ltac:(lia)) as Hne.
    destruct (zlen (drop _ _) =? 0)%Z eqn:Ez; [by apply zlen_zero in Ez |].
    rewrite !branchless_search_spec by (auto using strict_drop). cbn [mbind option_bind].
    destruct (hit_step mem pos idx_s t1 idx_l (Z.to_nat idx_l)) as
      (mem1 & -> & HN1 & Hal1 & Hs1 & Hw1 & Hlb1); try done; try lia.
    { apply Hlb, list_elem_of_here. }
    cbn [mbind option_bind]. set (h1 := if decide (t1 ∈ large) then [t1] else []) in *.
    assert (length h1 <= 1) as Hh1 by apply one_hit.
    pose proof (lb_range large t1). pose proof (lb_mono large t1 t2 ltac:(lia)).
    destruct (hit_step mem1 (pos + length h1) (S idx_s) t2 idx_l (Z.to_nat (lb large t1))) as
      (mem2 & -> & HN2 & Hal2 & Hs2 & Hw2 & Hlb2); try done; try lia; [by apply Hlb1 |].
    cbn [mbind option_bind]. set (h2 := if decide (t2 ∈ large) then [t2] else []) in *.
    assert (length h2 <= 1) as Hh2 by apply one_hit.
    rewrite !inter_cons. fold h1 h2. eapply writes_app; [exact Hw1 |].
    eapply writes_app; [exact Hw2 |]. rewrite lb_drop by done.
    replace (idx_s + 2) with (S (S idx_s)) by lia. rewrite <- E2.
    apply skewed_one_buf_spec; [| rewrite E2; simpl in Hlen; lia].
    split; [done | | done | lia | |].
    + apply Hs2; [apply Hs1; [by eapply agree_s_weaken; [exact Hag | lia] | lia] | lia].
    + rewrite E2. eapply ahead_next; [exact (strict_tail _ _ Hst) | exact Ha2 | done].
    + rewrite E2. intros x Hx. apply Hlb2.
      by apply (strict_head t2 r x (strict_tail _ _ Hst)).
  - assert (skewed_one_buf small_at large_at mem idx_s (S (S (length r))) idx_l pos = Some (mem, pos)) as ->.
    { cbn [skewed_one_buf]. by rewrite Hz, (proj2 (Z.ltb_ge _ _) Hge). }
    rewrite <- E, (past_end mem idx_s idx_l pos HR Hge). by apply writes_nil, HR.
Qed.

Lemma skewed_buf_spec m : forall mem idx_s idx_l pos old,
  length (drop idx_s small) <= m -> round_inv mem idx_s idx_l pos ->
  writes mem pos (inter (drop idx_s small) large)
    (skewed_buf small_at large_at mem idx_s (length (drop idx_s small)) idx_l pos old).
Proof.
  induction m as [m IH] using lt_wf_ind. intros mem idx_s idx_l pos old Hm HR.
  pose proof (round_guard _ _ _ _ HR) as (Hz & Hi & Hd).
  pose proof (fun i1 i2 => skewed_two_buf_spec mem idx_s idx_l pos i1 i2 HR) as Htwo.
  destruct (drop idx_s small) as [|t1 [|t2 [|t3 [|t4 r]]]] eqn:E; try (apply Htwo; simpl; lia).
  cbn [skewed_buf length]. rewrite Hz.
  destruct (Z.ltb_spec idx_l (zlen large)) as [Hlt | Hge]; [| by apply Htwo; right].
  destruct (drop_lookup _ _ _ _ E) as [Ht1 E1]. destruct (drop_lookup _ _ _ _ E1) as [Ht2 E2].
  destruct (drop_lookup _ _ _ _ E2) as [Ht3 E3]. destruct (drop_lookup _ _ _ _ E3) as [Ht4 E4].
  assert (strict (t1 :: t2 :: t3 :: t4 :: r)) as Hst1 by (rewrite <- E; by apply strict_drop).
  pose proof (strict_tail _ _ Hst1) as Hst2. pose proof (strict_tail _ _ Hst2) as Hst3.
  pose proof (strict_tail _ _ Hst3) as Hst4.
  pose proof (strict_head _ _ t2 Hst1 ltac:(apply list_elem_of_here)) as H12.
  pose proof (strict_head _ _ t3 Hst2 ltac:(apply list_elem_of_here)) as H23.
  pose proof (strict_head _ _ t4 Hst3 ltac:(apply list_elem_of_here)) as H34.
  destruct HR as [HN Hag Hal Hpos Ha Hlb]. rewrite E in Ha, Hlb.
  pose proof (ahead_tail _ _ _ _ Ha) as Ha2. pose proof (ahead_tail _ _ _ _ Ha2) as Ha3.
  pose proof (ahead_tail _ _ _ _ Ha3) as Ha4.
  pose proof (ahead_head _ _ _ _ Ha) as Hn1. pose proof (ahead_head _ _ _ _ Ha2) as Hn2.
  pose proof (ahead_head _ _ _ _ Ha3) as Hn3. pose proof (ahead_head _ _ _ _ Ha4) as Hn4.
  replace (idx_s + 1) with (S idx_s) by lia. replace (idx_s + 2) with (S (S idx_s)) by lia.
  replace (idx_s + 3) with (S (S (S idx_s))) by lia.
  replace (idx_s + 4) with (S (S (S (S idx_s)))) by lia.
  rewrite !(agree_s_lookup mem idx_s), Ht1, Ht2, Ht3, Ht4 by (done || lia).
  cbn [mbind option_bind]. rewrite Hd. unfold binarySearch4.
  pose proof (drop_nonempty large idx_l ltac:(lia)) as Hne.
  destruct (zlen (drop _ _) =? 0)%Z eqn:Ez; [by apply zlen_zero in Ez |].
  rewrite !branchless_search_spec by (auto using strict_drop). cbn [mbind option_bind].
  pose proof (agree_s_weaken _ _ (S (S (S (S idx_s)))) Hag ltac:(lia)) as Hag0.
  pose proof (one_hit t1). pose proof (one_hit t2). pose proof (one_hit t3). pose proof (one_hit t4).
  pose proof (lb_range large t1). pose proof (lb_mono large t1 t2 ltac:(lia)).
  pose proof (lb_mono large t2 t3 ltac:(lia)). pose proof (lb_mono large t3 t4 ltac:(lia)).
  destruct (hit_step mem pos idx_s t1 idx_l (Z.to_nat idx_l)) as
    (mem1 & -> & HN1 & Hal1 & Hs1 & Hw1 & Hlb1); try done; try lia.
  { apply Hlb, list_elem_of_here. }
  cbn [mbind option_bind].
  destruct (hit_step mem1 (pos + length (if decide (t1 ∈ large) then [t1] else []))
    (S idx_s) t2 idx_l (Z.to_nat (lb large t1))) as
    (mem2 & -> & HN2 & Hal2 & Hs2 & Hw2 & Hlb2); try done; try lia; [by apply Hlb1 |].
  cbn [mbind option_bind].
  destruct (hit_step mem2 (pos + length (if decide (t1 ∈ large) then [t1] else [])
    + length (if decide (t2 ∈ large) then [t2] else []))
    (S (S idx_s)) t3 idx_l (Z.to_nat (lb large t2))) as
    (mem3 & -> & HN3 & Hal3 & Hs3 & Hw3 & Hlb3); try done; try lia; [by apply Hlb2 |].
  cbn [mbind option_bind].
  destruct (hit_step mem3 (pos + length (if decide (t1 ∈ large) then [t1] else [])
    + length (if decide (t2 ∈ large) then [t2] else [])
    + length (if decide (t3 ∈ large) then [t3] else []))
    (S (S (S idx_s))) t4 idx_l (Z.to_nat (lb large t3))) as
    (mem4 & -> & HN4 & Hal4 & Hs4 & Hw4 & Hlb4); try done; try lia; [by apply Hlb3 |].
  cbn [mbind option_bind]. rewrite !inter_cons.
  eapply writes_app; [exact Hw1 |]. eapply writes_app; [exact Hw2 |].
  eapply writes_app; [exact Hw3 |]. eapply writes_app; [exact Hw4 |].
  rewrite lb_drop by done. rewrite <- E4. simpl in Hm.
  apply (IH (length r)); [lia | rewrite E4; lia |].
  split; [done | | done | lia | |]; rewrite ?E4.
  - apply Hs4; [apply Hs3; [apply Hs2; [apply Hs1; [done | lia] | lia] | lia] | lia].
  - eapply ahead_next; [exact Hst4 | exact Ha4 | done].
  - intros x Hx. apply Hlb4. by apply (strict_head t4 r x Hst4).
Qed.

End skewed_spec.

(** An input that is a prefix of the buffer. *)
Lemma drop_take_insert (mem : list Z) n k pos x : pos < k ->
  drop k (take n (<[pos := x]> mem)) = drop k (take n mem).
Proof.
  intros H. rewrite take_insert. destruct (decide (pos < n)); [| done].
  by rewrite drop_insert_lt.
Qed.

Lemma take_insert_same (mem : list Z) n k x l : drop k (take n mem) = drop k l ->
  l !! k = Some x -> <[k := x]> mem = mem.
Proof.
  intros Hd Hl. apply list_insert_id.
  assert (take n mem !! k = Some x) as Ht.
  { rewrite <- (Nat.add_0_r k), <- lookup_drop, Hd, lookup_drop, Nat.add_0_r. done. }
  apply lookup_take_Some in Ht. by destruct Ht.
Qed.

(** Both ways [array_container_intersection_inplace] aliases the buffer. *)
Lemma intersect_skewed_over_small_spec A rest large : strict A -> strict large ->
  exists mem', intersect_skewed_over_small (A ++ rest) (length A) large =
      Some (mem', length (inter A large)) /\
    length mem' = length (A ++ rest) /\ take (length (inter A large)) mem' = inter A large.
Proof.
  intros HA HL. unfold intersect_skewed_over_small, intersect_skewed_buf.
  destruct (decide (length A = 0)) as [H0 | H0].
  { destruct A; [| done]. by exists rest. }
  apply (skewed_buf_spec (fun mem => take (length A) mem) (fun _ => large) A large
    (length (A ++ rest)) HA HL) with (m := length A) (idx_s := 0).
  - rewrite length_app. lia.
  - unfold agree_s. intros mem k pos x Hk Hlt. by rewrite drop_take_insert.
  - done.
  - done.
  - split; rewrite ?drop_0; try done.
    + unfold agree_s. by rewrite take_app_length.
    + split; [lia |]. intros. apply lb_range.
    + intros. apply lb_range.
Qed.

Lemma intersect_skewed_over_large_spec small A rest : strict small -> strict A ->
  exists mem', intersect_skewed_over_large small (A ++ rest) (length A) =
      Some (mem', length (inter small A)) /\
    length mem' = length (A ++ rest) /\ take (length (inter small A)) mem' = inter small A.
Proof.
  intros HS HA. unfold intersect_skewed_over_large, intersect_skewed_buf.
  destruct (decide (length small = 0)) as [H0 | H0].
  { destruct small; [| done]. by exists (A ++ rest). }
  apply (skewed_buf_spec (fun _ => small) (fun mem => take (length A) mem) small A
    (length (A ++ rest)) HS HA) with (m := length small) (idx_s := 0).
  - rewrite length_app. lia.
  - done.
  - unfold agree_l. intros mem k pos x [Hl Hk] Hle Hx. rewrite length_take in *.
    split; [by rewrite length_insert |].
    destruct (decide (pos = k)) as [-> |]; [| rewrite drop_take_insert by lia; done].
    by rewrite (take_insert_same mem (length A) k x A) by auto.
  - done.
  - split; rewrite ?drop_0; try done.
    + unfold agree_l. by rewrite take_app_length.
    + split; [lia |]. intros. apply lb_range.
    + intros. apply lb_range.
Qed.
