(* ===== verification/RoaringArrayContainer.v ===== *)
(** * Roaring bitmaps: the array container

    [array_container_t] of [src/include/datastruct/roaring.h] and the
    [array_container_*] functions of that file and of
    [src/src/datastruct/roaring.c]: a sorted array of [uint16_t] in a buffer
    that grows.

    [ac_array] is the part of the buffer in use, so its length is the field
    [cardinality]; [ac_capacity] is the room of the buffer.  Every store
    checks the room: [None] is a write (or a read) outside the buffer, and
    the theorems show [Some].  [malloc] and [realloc] succeed. *)

From stdpp Require Import base list list_numbers numbers option sorting.
From Stdlib Require Import ZArith Lia.
From S2P Require Import Prelude.
From S2P Require Import RoaringArrays.
From S2P Require Import RoaringInplace.

Local Open Scope Z_scope.

Definition DEFAULT_MAX_SIZE : Z := 4096.
Definition ARRAY_DEFAULT_INIT_SIZE : Z := 0.
Definition INT32_MAX : Z := 2 ^ 31 - 1.

Record array_container_t := mk_array {
  ac_capacity : Z;
  ac_array : list Z;
}.

Definition array_container_cardinality (c : array_container_t) : Z := zlen (ac_array c).

(** [c->cardinality = |l|] after [l] was stored from the start of the buffer. *)
Definition store_array (c : array_container_t) (l : list Z) : option array_container_t :=
  if zlen l <=? ac_capacity c then Some (mk_array (ac_capacity c) l) else None.

Definition array_container_create_given_capacity (size : Z) : array_container_t :=
  mk_array size [].

Definition array_container_create : array_container_t :=
  array_container_create_given_capacity ARRAY_DEFAULT_INIT_SIZE.

Definition array_container_nonzero_cardinality (c : array_container_t) : bool :=
  0 <? array_container_cardinality c.

Definition array_container_empty (c : array_container_t) : bool :=
  array_container_cardinality c =? 0.

Definition array_container_full (c : array_container_t) : bool :=
  array_container_cardinality c =? ac_capacity c.

Definition array_container_clear (c : array_container_t) : array_container_t :=
  mk_array (ac_capacity c) [].

(** [for(k = min; k < max; k++) array[cardinality++] = k] *)
Definition array_container_create_range (min max : Z) : option array_container_t :=
  store_array (array_container_create_given_capacity (max - min + 1))
    (u16 <$> seqZ min (max - min)).

Definition array_container_clone (src : array_container_t) : option array_container_t :=
  store_array (array_container_create_given_capacity (ac_capacity src)) (ac_array src).

Definition array_container_shrink_to_fit (src : array_container_t) : Z * array_container_t :=
  let card := array_container_cardinality src in
  if card =? ac_capacity src then (0, src)
  else (ac_capacity src - card, mk_array card (ac_array src)).

Definition grow_capacity (capacity : Z) : Z :=
  if capacity <=? 0 then ARRAY_DEFAULT_INIT_SIZE
  else if capacity <? 64 then capacity * 2
  else if capacity <? 1024 then capacity * 3 / 2
  else capacity * 5 / 4.

Definition clamp (val min max : Z) : Z :=
  if val <? min then min else if max <? val then max else val.

(** Without [preserve] the content of the new block is undefined, and every
    caller stores new content next. *)
Definition array_container_grow (c : array_container_t) (min : Z) (preserve : bool) :
    array_container_t :=
  let max := if min <=? DEFAULT_MAX_SIZE then DEFAULT_MAX_SIZE else 65536 in
  let new_capacity := clamp (grow_capacity (ac_capacity c)) min max in
  mk_array new_capacity
    (if preserve then take (Z.to_nat new_capacity) (ac_array c) else []).

(** [if(out->capacity < n) array_container_grow(out, n, false)] *)
Definition ensure_capacity (out : array_container_t) (n : Z) : array_container_t :=
  if ac_capacity out <? n then array_container_grow out n false else out.

Definition array_container_copy (src dst : array_container_t) : option array_container_t :=
  let cardinality := array_container_cardinality src in
  store_array (ensure_capacity dst cardinality) (ac_array src).

Definition array_container_append (arr : array_container_t) (pos : Z) :
    option array_container_t :=
  let arr := if array_container_full arr
             then array_container_grow arr (ac_capacity arr + 1) true else arr in
  store_array arr (ac_array arr ++ [pos]).

(** [for(value = min; value < max; value += step) append(value)] *)
Fixpoint add_from_range_loop (fuel : nat) (arr : array_container_t) (value max step : Z) :
    option array_container_t :=
  match fuel with
  | O => None
  | S fuel =>
    if value <? max then
      arr ← array_container_append arr (u16 value);
      add_from_range_loop fuel arr (value + step) max step
    else Some arr
  end.

Definition array_container_add_from_range (arr : array_container_t) (min max step : Z) :
    option array_container_t :=
  add_from_range_loop (S (Z.to_nat (max - min))) arr min max step.

Definition array_container_union (array_1 array_2 out : array_container_t) :
    option array_container_t :=
  let max_cardinality := array_container_cardinality array_1 + array_container_cardinality array_2 in
  let out := ensure_capacity out max_cardinality in
  store_array out (fast_union_uint16 (ac_array array_1) (ac_array array_2)).

Definition array_container_andnot (array_1 array_2 out : array_container_t) :
    option array_container_t :=
  let out := ensure_capacity out (array_container_cardinality array_1) in
  store_array out (difference_uint16 (ac_array array_1) (ac_array array_2)).

Definition array_container_xor (array_1 array_2 out : array_container_t) :
    option array_container_t :=
  let max_cardinality := array_container_cardinality array_1 + array_container_cardinality array_2 in
  let out := ensure_capacity out max_cardinality in
  store_array out (xor_uint16 (ac_array array_1) (ac_array array_2)).

Definition threshold : Z := 64.

Definition array_container_intersection (array1 array2 out : array_container_t) :
    option array_container_t :=
  let card_1 := array_container_cardinality array1 in
  let card_2 := array_container_cardinality array2 in
  let out := ensure_capacity out (Z.min card_1 card_2) in
  l ← (if card_1 * threshold <? card_2 then
         intersect_skewed_uint16 (ac_array array1) (ac_array array2)
       else if card_2 * threshold <? card_1 then
         intersect_skewed_uint16 (ac_array array2) (ac_array array1)
       else intersect_uint16 (ac_array array1) (ac_array array2));
  store_array out l.

(** The output goes over the array of [src_1]. *)
Definition array_container_intersection_inplace (src_1 src_2 : array_container_t) :
    option array_container_t :=
  let card_1 := array_container_cardinality src_1 in
  let card_2 := array_container_cardinality src_2 in
  '(mem, n) ← (if card_1 * threshold <? card_2 then
                 intersect_skewed_over_small (ac_array src_1) (length (ac_array src_1)) (ac_array src_2)
               else if card_2 * threshold <? card_1 then
                 intersect_skewed_over_large (ac_array src_2) (ac_array src_1) (length (ac_array src_1))
               else intersect_uint16_inplace (ac_array src_1) (length (ac_array src_1)) (ac_array src_2));
  Some (mk_array (ac_capacity src_1) (take n mem)).

(** [array_container_andnot(src_1, src_2, src_1)]: growing the output would
    discard the input, and the guard never asks for it. *)
Definition array_container_andnot_inplace (src_1 src_2 : array_container_t) :
    option array_container_t :=
  if ac_capacity src_1 <? array_container_cardinality src_1 then None
  else
    '(mem, n) ← difference_uint16_inplace (ac_array src_1) (length (ac_array src_1)) (ac_array src_2);
    Some (mk_array (ac_capacity src_1) (take n mem)).

Definition array_container_intersection_cardinality (array1 array2 : array_container_t) :
    option Z :=
  let card_1 := array_container_cardinality array1 in
  let card_2 := array_container_cardinality array2 in
  if card_1 * threshold <? card_2 then
    intersect_skewed_uint16_cardinality (ac_array array1) (ac_array array2)
  else if card_2 * threshold <? card_1 then
    intersect_skewed_uint16_cardinality (ac_array array2) (ac_array array1)
  else intersect_uint16_cardinality (ac_array array1) (ac_array array2).

Definition array_container_intersect (array1 array2 : array_container_t) : option bool :=
  let card_1 := array_container_cardinality array1 in
  let card_2 := array_container_cardinality array2 in
  if card_1 * threshold <? card_2 then
    intersect_skewed_uint16_nonempty (ac_array array1) (ac_array array2)
  else if card_2 * threshold <? card_1 then
    intersect_skewed_uint16_nonempty (ac_array array2) (ac_array array1)
  else intersect_uint16_nonempty (ac_array array1) (ac_array array2).

Definition array_container_to_uint32_array (cont : array_container_t) (base : Z) : list Z :=
  (fun v => u32 (base + v)) <$> ac_array cont.

Fixpoint number_of_runs_loop (l : list Z) (prev nr_runs : Z) : Z :=
  match l with
  | [] => nr_runs
  | p :: l => number_of_runs_loop l p (if p =? prev + 1 then nr_runs else nr_runs + 1)
  end.

Definition array_container_number_of_runs (a : array_container_t) : Z :=
  number_of_runs_loop (ac_array a) (-2) 0.

Definition array_container_size_in_bytes (c : array_container_t) : Z :=
  array_container_cardinality c * 2.

Definition array_container_serialized_size_in_bytes (card : Z) : Z := card * 2 + 2.

(** The memory of an array of [uint16_t] on the little-endian target. *)
Definition mem16 (l : list Z) : list Z := l ≫= le_split 2.

Fixpoint of_mem16 (b : list Z) : list Z :=
  match b with
  | x :: y :: b => le_combine [x; y] :: of_mem16 b
  | _ => []
  end.

Definition array_container_write (c : array_container_t) : list Z := mem16 (ac_array c).

(** The container read and the bytes consumed. *)
Definition array_container_read (cardinality : Z) (c : array_container_t) (buf : list Z) :
    option (array_container_t * Z) :=
  if zlen buf <? cardinality * 2 then None
  else
    c ← store_array (ensure_capacity c cardinality)
          (of_mem16 (take (Z.to_nat (cardinality * 2)) buf));
    Some (c, array_container_size_in_bytes c).

Definition array_container_serialize (c : array_container_t) : list Z :=
  le_split 2 (u16 (array_container_cardinality c)) ++ mem16 (ac_array c).

Definition array_container_serialization_len (c : array_container_t) : Z :=
  2 + 2 * array_container_cardinality c.

(** [for(i = 0, j = 0; ...) if(array[i] < j) fail; else j = array[i]] *)
Fixpoint monotone_from (j : Z) (l : list Z) : bool :=
  match l with
  | [] => true
  | x :: l => if x <? j then false else monotone_from x l
  end.

(** [None] is the NULL result. *)
Definition array_container_deserialize (buf : list Z) : option array_container_t :=
  if zlen buf <? 2 then None
  else
    let cardinality := le_combine (take 2 buf) in
    if negb (2 * cardinality =? zlen buf - 2) then None
    else
      let l := of_mem16 (drop 2 buf) in
      if monotone_from 0 l then Some (mk_array cardinality l) else None.

Fixpoint iterate_list {S} (l : list Z) (iterator : Z -> S -> bool * S) (ptr : S) : bool * S :=
  match l with
  | [] => (true, ptr)
  | v :: l =>
    match iterator v ptr with
    | (true, ptr) => iterate_list l iterator ptr
    | (false, ptr) => (false, ptr)
    end
  end.

Definition array_container_iterate {S} (cont : array_container_t) (base : Z)
    (iterator : Z -> S -> bool * S) (ptr : S) : bool * S :=
  iterate_list (ac_array cont) (fun v => iterator (u32 (v + base))) ptr.

Definition array_container_iterate64 {S} (cont : array_container_t) (base : Z)
    (iterator : Z -> S -> bool * S) (high_bits : Z) (ptr : S) : bool * S :=
  iterate_list (ac_array cont) (fun v => iterator (Z.lor high_bits (u32 (v + base)))) ptr.

Definition array_container_equals (c1 c2 : array_container_t) : bool :=
  if negb (array_container_cardinality c1 =? array_container_cardinality c2) then false
  else bool_decide (mem16 (ac_array c1) = mem16 (ac_array c2)).

Fixpoint is_subset_loop (l1 : list Z) : list Z -> bool :=
  fix inner (l2 : list Z) : bool :=
    match l1, l2 with
    | [], _ => true
    | _, [] => false
    | x :: r1, y :: r2 =>
      if x =? y then is_subset_loop r1 r2
      else if y <? x then inner r2
      else false
    end.

Definition array_container_is_subset (c1 c2 : array_container_t) : bool :=
  if array_container_cardinality c2 <? array_container_cardinality c1 then false
  else is_subset_loop (ac_array c1) (ac_array c2).

(** [Some (inl r)]: false, and [*start_rank = r]; [Some (inr v)]: true, and
    [*element = v]. *)
Definition array_container_select (c : array_container_t) (start_rank rank : Z) :
    option (Z + Z) :=
  let card := array_container_cardinality c in
  if u32 (start_rank + card) <=? rank then Some (inl (u32 (start_rank + card)))
  else v ← rd (ac_array c) (u32 (rank - start_rank)); Some (inr v).

(** [memmove] of the tail one place up, and the store of [value]. *)
Definition insert_at (l : list Z) (idx : Z) (value : Z) : list Z :=
  take (Z.to_nat idx) l ++ value :: drop (Z.to_nat idx) l.

(** The return code and the container. *)
Definition array_container_try_add (arr : array_container_t) (value max_cardinality : Z) :
    option (Z * array_container_t) :=
  let cardinality := array_container_cardinality arr in
  append ← (if array_container_empty arr then Some (cardinality <? max_cardinality)
            else v ← rd (ac_array arr) (cardinality - 1);
                 Some ((v <? value) && (cardinality <? max_cardinality)));
  if append : bool then arr ← array_container_append arr value; Some (1, arr)
  else
    loc ← binarySearch (ac_array arr) value;
    if 0 <=? loc then Some (0, arr)
    else if cardinality <? max_cardinality then
      let arr := if array_container_full arr
                 then array_container_grow arr (ac_capacity arr + 1) true else arr in
      let insert_idx := - loc - 1 in
      arr ← store_array arr (insert_at (ac_array arr) insert_idx value);
      Some (1, arr)
    else Some (-1, arr).

Definition array_container_add (arr : array_container_t) (value : Z) :
    option (bool * array_container_t) :=
  '(rc, arr) ← array_container_try_add arr value INT32_MAX;
  Some (rc =? 1, arr).

Definition array_container_remove (arr : array_container_t) (pos : Z) :
    option (bool * array_container_t) :=
  idx ← binarySearch (ac_array arr) pos;
  if 0 <=? idx then
    Some (true, mk_array (ac_capacity arr)
      (take (Z.to_nat idx) (ac_array arr) ++ drop (Z.to_nat (idx + 1)) (ac_array arr)))
  else Some (false, arr).

(** [for(i = low; i <= high; i++)] of [array_container_contains]. *)
Fixpoint contains_scan (fuel : nat) (carr : list Z) (i high pos : Z) : option bool :=
  match fuel with
  | O => None
  | S fuel =>
    if i <=? high then
      v ← rd carr i;
      if v =? pos then Some true
      else if pos <? v then Some false
      else contains_scan fuel carr (i + 1) high pos
    else Some false
  end.

Fixpoint contains_loop (fuel : nat) (carr : list Z) (low high pos : Z) : option bool :=
  match fuel with
  | O => None
  | S fuel =>
    if low + 16 <=? high then
      let middleIndex := Z.shiftr (low + high) 1 in
      middleValue ← rd carr middleIndex;
      if middleValue <? pos then contains_loop fuel carr (middleIndex + 1) high pos
      else if pos <? middleValue then contains_loop fuel carr low (middleIndex - 1) pos
      else Some true
    else contains_scan 17 carr low high pos
  end.

Definition array_container_contains (arr : array_container_t) (pos : Z) : option bool :=
  contains_loop (S (length (ac_array arr))) (ac_array arr) 0
    (array_container_cardinality arr - 1) pos.

Definition array_container_contains_range (arr : array_container_t) (range_start range_end : Z) :
    option bool :=
  let rs_included := u16 range_start in
  let re_included := u16 (range_end - 1) in
  let card := array_container_cardinality arr in
  start ← advanceUntil (ac_array arr) (-1) rs_included;
  end_ ← advanceUntil (ac_array arr) (start - 1) re_included;
  if (start <? card) && (end_ <? card) && (u16 (end_ - start) =? re_included - rs_included) then
    s ← rd (ac_array arr) start;
    if s =? rs_included then e ← rd (ac_array arr) end_; Some (e =? re_included)
    else Some false
  else Some false.

Definition array_container_minimum (arr : array_container_t) : option Z :=
  if array_container_cardinality arr =? 0 then Some 0 else rd (ac_array arr) 0.

Definition array_container_maximum (arr : array_container_t) : option Z :=
  if array_container_cardinality arr =? 0 then Some 0
  else rd (ac_array arr) (array_container_cardinality arr - 1).

Definition array_container_rank (arr : array_container_t) (x : Z) : option Z :=
  idx ← binarySearch (ac_array arr) x;
  Some (if 0 <=? idx then idx + 1 else - idx - 1).

Definition array_container_index_equalorlarger (arr : array_container_t) (x : Z) : option Z :=
  idx ← binarySearch (ac_array arr) x;
  if 0 <=? idx then Some idx
  else
    let candidate := - idx - 1 in
    Some (if candidate <? array_container_cardinality arr then candidate else -1).

(** The tail of [nvals_greater] values moves to the end of the union, the
    range is written after the [nvals_less] values below it. *)
Definition array_container_add_range_nvals (array : array_container_t)
    (min max nvals_less nvals_greater : Z) : option array_container_t :=
  let union_cardinality := nvals_less + (max - min + 1) + nvals_greater in
  let array := if ac_capacity array <? union_cardinality
               then array_container_grow array union_cardinality true else array in
  let tail := drop (Z.to_nat (array_container_cardinality array - nvals_greater)) (ac_array array) in
  store_array array
    (take (Z.to_nat nvals_less) (ac_array array) ++
     (u16 <$> seqZ min (max - min + 1)) ++ tail).

Definition array_container_add_range (array : array_container_t) (min max : Z) :
    option array_container_t :=
  nvals_greater ← count_greater (ac_array array) max;
  nvals_less ← count_less
    (take (Z.to_nat (array_container_cardinality array - nvals_greater)) (ac_array array)) min;
  array_container_add_range_nvals array min max nvals_less nvals_greater.

Definition array_container_remove_range (array : array_container_t) (pos count : Z) :
    option array_container_t :=
  if count =? 0 then Some array
  else if array_container_cardinality array <? pos + count then None
  else
    Some (mk_array (ac_capacity array)
      (take (Z.to_nat pos) (ac_array array) ++
       drop (Z.to_nat (pos + count)) (ac_array array))).
