(* ===== verification/RoaringArrayFacts.v ===== *)
(** * Roaring bitmaps: what the array container functions compute

    [array_ok] is the invariant of an array container: its values are strictly
    increasing [uint16_t] values and fit the buffer.  Every function of
    [RoaringArrayContainer] preserves it, never leaves the buffer (the result
    is [Some]) and computes the set operation on the list of values. *)

From stdpp Require Import base list list_numbers numbers option sorting.
From Stdlib Require Import ZArith Lia ZifyBool.
From S2P Require Import Prelude.
From S2P Require Import RoaringArrays.
From S2P Require Import RoaringInplace.
From S2P Require Import RoaringArrayContainer.

Local Open Scope Z_scope.

(** Strictly increasing [uint16_t] values. *)
Definition sorted16 (l : list Z) : Prop := strict l /\ Forall (in_u 16) l.

Record array_ok (c : array_container_t) : Prop := {
  ao_strict : strict (ac_array c);
  ao_range : Forall (in_u 16) (ac_array c);
  ao_room : zlen (ac_array c) <= ac_capacity c;
}.

Lemma array_ok_sorted c : array_ok c -> sorted16 (ac_array c).
Proof. intros []. by split. Qed.

(** ** Sorted lists of bounded values *)

Lemma strict_length_bound l lo hi : strict l -> (forall x, x ∈ l -> lo <= x < hi) -> lo <= hi ->
  zlen l <= hi - lo.
Proof.
  revert lo. induction l as [|x l IH]; intros lo Hs Hb Hh; [unfold zlen; simpl; lia |].
  pose proof (Hb x (list_elem_of_here _ _)) as Hx. rewrite zlen_cons.
  pose proof (fun y => strict_head x l y Hs) as Hhd.
  enough (zlen l <= hi - (x + 1)) by lia.
  apply IH; [by eapply strict_tail | | lia]. intros y Hy. pose proof (Hhd y Hy).
  pose proof (Hb y ltac:(by constructor)). lia.
Qed.

Lemma sorted16_length l : sorted16 l -> zlen l <= 65536.
Proof.
  intros [Hs Hb]. rewrite Forall_forall in Hb.
  apply (strict_length_bound l 0 65536); [done | | lia]. intros x Hx. apply Hb, Hx.
Qed.

(** A value outside the list leaves room for itself. *)
Lemma strict_gap l lo hi x : strict l -> (forall y, y ∈ l -> lo <= y < hi) -> lo <= x < hi ->
  x ∉ l -> zlen l <= hi - lo - 1.
Proof.
  intros Hs Hb Hx Hn.
  assert (lb l x <= x - lo) as H1.
  { apply strict_length_bound; [by apply strict_filter | | lia].
    intros y [Hy1 Hy2]%list_elem_of_filter. specialize (Hb y Hy2). lia. }
  assert (zlen (filter (fun v => x < v) l) <= hi - (x + 1)) as H2.
  { apply strict_length_bound; [by apply strict_filter | | lia].
    intros y [Hy1 Hy2]%list_elem_of_filter. specialize (Hb y Hy2). lia. }
  enough (zlen l = lb l x + zlen (filter (fun v => x < v) l)) by lia.
  clear -Hn. induction l as [|y l IH]; [done |]. apply not_elem_of_cons in Hn as [Hne Hn].
  rewrite lb_cons, zlen_cons, filter_cons, IH by done. destruct (Z.ltb_spec y x).
  - rewrite decide_False by lia. lia.
  - rewrite decide_True by lia. rewrite zlen_cons. lia.
Qed.

Lemma sorted16_room l x : sorted16 l -> in_u 16 x -> x ∉ l -> zlen l <= 65535.
Proof.
  intros [Hs Hb] Hx Hn. rewrite Forall_forall in Hb.
  apply (strict_gap l 0 65536 x Hs); [intros y Hy; apply Hb, Hy | apply Hx | done].
Qed.

Lemma sorted16_filter (P : Z -> Prop) `{!forall x, Decision (P x)} l :
  sorted16 l -> sorted16 (filter P l).
Proof.
  intros [Hs Hb]. split; [by apply strict_filter |]. rewrite Forall_forall in *.
  intros x [_ Hx]%list_elem_of_filter. auto.
Qed.

Lemma sorted16_inter a b : sorted16 a -> sorted16 (inter a b).
Proof. apply sorted16_filter. Qed.

Lemma sorted16_minus a b : sorted16 a -> sorted16 (minus a b).
Proof. apply sorted16_filter. Qed.

Lemma elem_of_inter a b x : x ∈ inter a b <-> x ∈ a /\ x ∈ b.
Proof. unfold inter. rewrite list_elem_of_filter. tauto. Qed.

Lemma elem_of_minus a b x : x ∈ minus a b <-> x ∈ a /\ x ∉ b.
Proof. unfold minus. rewrite list_elem_of_filter. tauto. Qed.

Lemma inter_comm a b : strict a -> strict b -> inter a b = inter b a.
Proof.
  intros Ha Hb. apply strict_ext; try (by apply strict_filter).
  intros x. rewrite !elem_of_inter. tauto.
Qed.

Lemma zlen_filter_le (P : Z -> Prop) `{!forall x, Decision (P x)} (l : list Z) :
  zlen (filter P l) <= zlen l.
Proof. pose proof (length_filter P l). unfold zlen. lia. Qed.

Lemma zlen_inter_le a b : strict a -> strict b -> zlen (inter a b) <= Z.min (zlen a) (zlen b).
Proof.
  intros Ha Hb. pose proof (zlen_filter_le (fun x => x ∈ b) a) as H1.
  pose proof (zlen_filter_le (fun x => x ∈ a) b) as H2.
  fold (inter a b) in H1. fold (inter b a) in H2. rewrite (inter_comm b a) in H2 by done. lia.
Qed.

Lemma sorted16_union a b : sorted16 a -> sorted16 b -> sorted16 (union_loop a b).
Proof.
  intros [Ha Ba] [Hb Bb]. split; [by apply union_loop_strict |]. rewrite Forall_forall in *.
  intros x [Hx | Hx]%elem_of_union_loop; auto.
Qed.

Lemma sorted16_xor a b : sorted16 a -> sorted16 b -> sorted16 (xor_uint16 a b).
Proof.
  intros [Ha Ba] [Hb Bb]. destruct (xor_uint16_spec a b Ha Hb) as [Hs He].
  split; [done |]. rewrite Forall_forall in *. intros x [[] | []]%He; auto.
Qed.

(** ** Room in the buffer *)

Lemma grow_room c min preserve : min <= 65536 ->
  min <= ac_capacity (array_container_grow c min preserve).
Proof.
  intros H. unfold array_container_grow, clamp, DEFAULT_MAX_SIZE. simpl.
  destruct (Z.leb_spec min 4096), (Z.ltb_spec (grow_capacity (ac_capacity c)) min); try lia.
  - destruct (Z.ltb_spec 4096 (grow_capacity (ac_capacity c))); lia.
  - destruct (Z.ltb_spec 65536 (grow_capacity (ac_capacity c))); lia.
Qed.

Lemma ensure_room c n : n <= 65536 -> n <= ac_capacity (ensure_capacity c n).
Proof.
  intros H. unfold ensure_capacity. destruct (Z.ltb_spec (ac_capacity c) n); [| done].
  by apply grow_room.
Qed.

Lemma grow_keeps c min : zlen (ac_array c) <= min <= 65536 ->
  ac_array (array_container_grow c min true) = ac_array c.
Proof.
  intros H. pose proof (grow_room c min true ltac:(lia)) as Hr.
  unfold array_container_grow in *. cbn [ac_array ac_capacity] in *. apply take_ge.
  unfold zlen in H. lia.
Qed.

(** A store of a sorted list into enough room. *)
Lemma store_array_ok c l : sorted16 l -> zlen l <= ac_capacity c ->
  exists c', store_array c l = Some c' /\ ac_array c' = l /\ array_ok c'.
Proof.
  intros [Hs Hb] H. unfold store_array. rewrite (proj2 (Z.leb_le _ _)) by done.
  eexists. split; [done |]. split; [done |]. by split.
Qed.

(** [o] is a well-formed container holding [l]. *)
Definition array_result (o : option array_container_t) (l : list Z) : Prop :=
  exists c, o = Some c /\ ac_array c = l /\ array_ok c.

Lemma store_ensured out n l : sorted16 l -> zlen l <= n <= 65536 ->
  array_result (store_array (ensure_capacity out n) l) l.
Proof.
  intros Hl Hn. apply store_array_ok; [done |].
  pose proof (ensure_room out n ltac:(lia)). lia.
Qed.

(** ** Set operations *)

Section set_operations.

Context (c1 c2 out : array_container_t) (H1 : array_ok c1) (H2 : array_ok c2).

Let s1 := ao_strict c1 H1.
Let s2 := ao_strict c2 H2.
Let w1 := array_ok_sorted c1 H1.
Let w2 := array_ok_sorted c2 H2.

Lemma array_union_spec : zlen (ac_array c1) + zlen (ac_array c2) <= 65536 ->
  array_result (array_container_union c1 c2 out) (union_loop (ac_array c1) (ac_array c2)).
Proof.
  intros H. unfold array_container_union. rewrite fast_union_uint16_eq by done.
  apply store_ensured; [by apply sorted16_union |].
  pose proof (union_loop_length (ac_array c1) (ac_array c2)). split; [done | exact H].
Qed.

Lemma array_xor_spec : zlen (ac_array c1) + zlen (ac_array c2) <= 65536 ->
  array_result (array_container_xor c1 c2 out) (xor_uint16 (ac_array c1) (ac_array c2)).
Proof.
  intros H. unfold array_container_xor. apply store_ensured; [by apply sorted16_xor |].
  pose proof (xor_uint16_length (ac_array c1) (ac_array c2)). split; [done | exact H].
Qed.

Lemma array_andnot_spec :
  array_result (array_container_andnot c1 c2 out) (minus (ac_array c1) (ac_array c2)).
Proof.
  unfold array_container_andnot. rewrite difference_uint16_spec by done.
  apply store_ensured; [by apply sorted16_minus |].
  pose proof (sorted16_length _ w1). split; [apply zlen_filter_le | done].
Qed.

(** Whichever of the three intersections is chosen. *)
Lemma array_intersection_spec :
  array_result (array_container_intersection c1 c2 out) (inter (ac_array c1) (ac_array c2)).
Proof.
  unfold array_container_intersection.
  assert ((if array_container_cardinality c1 * threshold <? array_container_cardinality c2
           then intersect_skewed_uint16 (ac_array c1) (ac_array c2)
           else if array_container_cardinality c2 * threshold <? array_container_cardinality c1
           then intersect_skewed_uint16 (ac_array c2) (ac_array c1)
           else intersect_uint16 (ac_array c1) (ac_array c2)) =
          Some (inter (ac_array c1) (ac_array c2))) as ->.
  { repeat destruct (_ <? _).
    - by apply intersect_skewed_uint16_spec.
    - rewrite inter_comm by done. by apply intersect_skewed_uint16_spec.
    - by apply intersect_uint16_spec. }
  cbn [mbind option_bind]. apply store_ensured; [by apply sorted16_inter |].
  pose proof (sorted16_length _ w1). pose proof (zlen_inter_le _ _ s1 s2).
  unfold array_container_cardinality. lia.
Qed.

Lemma skewed_large_nonempty (a b : list Z) : (zlen a * threshold <? zlen b) = true -> b <> [].
Proof. intros H ->. pose proof (zlen_nonneg a). unfold threshold, zlen in *. simpl in *. lia. Qed.

Lemma array_intersection_cardinality_spec :
  array_container_intersection_cardinality c1 c2 = Some (zlen (inter (ac_array c1) (ac_array c2))).
Proof.
  unfold array_container_intersection_cardinality, array_container_cardinality.
  destruct (_ <? _) eqn:E; [| destruct (zlen (ac_array c2) * _ <? _) eqn:E2].
  - apply intersect_skewed_uint16_cardinality_spec; [done | done |]. by eapply skewed_large_nonempty.
  - rewrite inter_comm by done.
    apply intersect_skewed_uint16_cardinality_spec; [done | done |]. by eapply skewed_large_nonempty.
  - by apply intersect_uint16_cardinality_spec.
Qed.

Lemma array_intersect_spec :
  array_container_intersect c1 c2 = Some (bool_decide (inter (ac_array c1) (ac_array c2) <> [])).
Proof.
  unfold array_container_intersect, array_container_cardinality.
  destruct (_ <? _) eqn:E; [| destruct (zlen (ac_array c2) * _ <? _) eqn:E2].
  - apply intersect_skewed_uint16_nonempty_spec; [done | done |]. by eapply skewed_large_nonempty.
  - rewrite inter_comm by done.
    apply intersect_skewed_uint16_nonempty_spec; [done | done |]. by eapply skewed_large_nonempty.
  - by apply intersect_uint16_nonempty_spec.
Qed.

(** The same list whether the output is a separate container or the first
    input itself. *)
Lemma array_intersection_inplace_spec :
  array_result (array_container_intersection_inplace c1 c2) (inter (ac_array c1) (ac_array c2)).
Proof.
  unfold array_container_intersection_inplace.
  assert (exists mem, (if array_container_cardinality c1 * threshold <? array_container_cardinality c2
           then intersect_skewed_over_small (ac_array c1) (length (ac_array c1)) (ac_array c2)
           else if array_container_cardinality c2 * threshold <? array_container_cardinality c1
           then intersect_skewed_over_large (ac_array c2) (ac_array c1) (length (ac_array c1))
           else intersect_uint16_inplace (ac_array c1) (length (ac_array c1)) (ac_array c2)) =
          Some (mem, length (inter (ac_array c1) (ac_array c2))) /\
          take (length (inter (ac_array c1) (ac_array c2))) mem = inter (ac_array c1) (ac_array c2))
    as (mem & -> & Ht).
  { repeat destruct (_ <? _).
    - destruct (intersect_skewed_over_small_spec (ac_array c1) [] (ac_array c2) s1 s2) as (mem & He & _ & Ht).
      rewrite app_nil_r in He. by exists mem.
    - rewrite inter_comm by done.
      destruct (intersect_skewed_over_large_spec (ac_array c2) (ac_array c1) [] s2 s1) as (mem & He & _ & Ht).
      rewrite app_nil_r in He. by exists mem.
    - destruct (intersect_uint16_inplace_spec (ac_array c1) [] (ac_array c2) s1 s2) as (mem & He & _ & Ht).
      rewrite app_nil_r in He. by exists mem. }
  cbn [mbind option_bind]. rewrite Ht. eexists. split; [done |]. split; [done |].
  destruct (sorted16_inter _ (ac_array c2) w1). split; [done | done |]. cbn.
  pose proof (zlen_inter_le _ _ s1 s2). pose proof (ao_room c1 H1). lia.
Qed.

Lemma array_andnot_inplace_spec :
  array_result (array_container_andnot_inplace c1 c2) (minus (ac_array c1) (ac_array c2)).
Proof.
  unfold array_container_andnot_inplace. pose proof (ao_room c1 H1) as Hr.
  rewrite (proj2 (Z.ltb_ge _ _)) by done.
  destruct (difference_uint16_inplace_spec (ac_array c1) [] (ac_array c2) s1 s2) as (mem & He & _ & Ht).
  rewrite app_nil_r in He. rewrite He. cbn [mbind option_bind]. rewrite Ht.
  eexists. split; [done |]. split; [done |].
  destruct (sorted16_minus _ (ac_array c2) w1). split; [done | done |]. cbn.
  pose proof (zlen_filter_le (fun x => x ∉ ac_array c2) (ac_array c1)).
  fold (minus (ac_array c1) (ac_array c2)) in *. lia.
Qed.

(** *** Comparisons *)

Lemma le_split_inj16 x y : in_u 16 x -> in_u 16 y -> le_split 2 x = le_split 2 y -> x = y.
Proof.
  intros Hx Hy H. apply (f_equal le_combine) in H. rewrite !le_combine_split in H.
  change (8 * Z.of_nat 2) with 16 in H. rewrite !Z.mod_small in H by done. done.
Qed.

Lemma mem16_inj (a b : list Z) : Forall (in_u 16) a -> Forall (in_u 16) b ->
  mem16 a = mem16 b -> a = b.
Proof.
  unfold mem16. intros Ha. revert b. induction Ha as [|x a Hx Ha IH]; intros b Hb H.
  - destruct Hb as [|y b]; [done |]. apply (f_equal length) in H.
    rewrite bind_cons, length_app, length_le_split in H. simpl in H. lia.
  - destruct Hb as [|y b Hy Hb].
    + apply (f_equal length) in H. rewrite bind_cons, length_app, length_le_split in H. simpl in H. lia.
    + rewrite !bind_cons in H. apply app_inj_1 in H as [H1' H2'].
      * f_equal; [by apply le_split_inj16 | auto].
      * by rewrite !length_le_split.
Qed.

Lemma array_equals_spec :
  array_container_equals c1 c2 = bool_decide (ac_array c1 = ac_array c2).
Proof.
  unfold array_container_equals, array_container_cardinality.
  destruct (Z.eqb_spec (zlen (ac_array c1)) (zlen (ac_array c2))) as [He | Hne]; cbn [negb].
  - apply bool_decide_ext. split; [| by intros ->]. apply mem16_inj; apply ao_range; done.
  - rewrite bool_decide_false; [done |]. intros E. by rewrite E in Hne.
Qed.

Lemma is_subset_loop_cons x a y b : is_subset_loop (x :: a) (y :: b) =
  if x =? y then is_subset_loop a b
  else if y <? x then is_subset_loop (x :: a) b else false.
Proof. done. Qed.

Lemma is_subset_loop_spec a b : strict a -> strict b ->
  is_subset_loop a b = true <-> (forall x, x ∈ a -> x ∈ b).
Proof.
  revert a b. apply (merge_ind (fun a b => _ -> _ -> _)).
  - intros l _ _. split; [| by destruct l]. intros _ x Hx. by apply not_elem_of_nil in Hx.
  - intros l _ _. destruct l as [|x l]; [split; [intros _ x Hx; done | done] |].
    split; [done |]. intros H. specialize (H x (list_elem_of_here _ _)). by apply not_elem_of_nil in H.
  - intros x a y b _ Hi2 Hi3 Ha Hb. pose proof (strict_tail _ _ Ha) as Ha'.
    pose proof (strict_tail _ _ Hb) as Hb'. rewrite is_subset_loop_cons.
    destruct (Z.eqb_spec x y) as [-> | Hne]; [| destruct (Z.ltb_spec y x)].
    + rewrite Hi3 by done. split; intros H z.
      * intros [-> | Hz]%elem_of_cons; [constructor |]. constructor. auto.
      * intros Hz. pose proof (strict_head _ _ _ Ha Hz).
        specialize (H z ltac:(by constructor)). apply elem_of_cons in H as [-> | H]; [lia | done].
    + rewrite Hi2 by done. split; intros H' z Hz.
      * constructor. auto.
      * specialize (H' z Hz). apply elem_of_cons in H' as [-> | H']; [| done].
        apply elem_of_cons in Hz as [-> | Hz]; [lia |]. pose proof (strict_head _ _ _ Ha Hz). lia.
    + split; [done |]. intros H'. specialize (H' x (list_elem_of_here _ _)).
      apply elem_of_cons in H' as [-> | H']; [lia |]. pose proof (strict_head _ _ _ Hb H'). lia.
Qed.

(** A list of more elements is no subset. *)
Lemma strict_subset_length a b : strict a -> strict b -> (forall x, x ∈ a -> x ∈ b) -> zlen a <= zlen b.
Proof.
  intros Ha Hb H. assert (inter a b = a) as <-; [| by pose proof (zlen_inter_le a b Ha Hb); lia].
  apply strict_ext; [by apply strict_filter | done |]. intros x. rewrite elem_of_inter. split; [tauto | auto].
Qed.

Lemma array_is_subset_spec :
  array_container_is_subset c1 c2 = true <-> (forall x, x ∈ ac_array c1 -> x ∈ ac_array c2).
Proof.
  unfold array_container_is_subset, array_container_cardinality.
  destruct (Z.ltb_spec (zlen (ac_array c2)) (zlen (ac_array c1))); [| by apply is_subset_loop_spec].
  split; [done |]. intros H'. pose proof (strict_subset_length _ _ s1 s2 H'). lia.
Qed.

End set_operations.

(** ** Splitting at a value *)

Lemma lb_take a k : strict a -> Forall (fun v => v < k) (take (Z.to_nat (lb a k)) a).
Proof.
  intros Hs. apply Forall_forall. intros x Hx. apply elem_rd in Hx as [i Hi].
  pose proof (rd_bound _ _ _ Hi) as Hb. unfold zlen in Hb. rewrite length_take in Hb.
  apply Z.ltb_lt. rewrite (lb_lookup a k i x Hs); [apply Z.ltb_lt; lia |].
  unfold rd in *. rewrite (proj2 (Z.leb_le 0 i)) in * by lia.
  rewrite lookup_take_lt in Hi by lia. done.
Qed.

Lemma lb_drop_ge a k : strict a -> Forall (fun v => k <= v) (drop (Z.to_nat (lb a k)) a).
Proof.
  intros Hs. apply Forall_forall. intros x Hx. apply elem_rd in Hx as [i Hi].
  pose proof (rd_bound _ _ _ Hi) as Hb. rewrite rd_drop in Hi by (pose proof (lb_range a k); lia).
  apply Z.ltb_ge. rewrite (lb_lookup a k _ x Hs Hi). apply Z.ltb_ge. lia.
Qed.

Lemma elem_of_take_1 {A} (a : list A) n x : x ∈ take n a -> x ∈ a.
Proof. intros H. rewrite <- (take_drop n a). apply elem_of_app. auto. Qed.

Lemma elem_of_drop_1 {A} (a : list A) n x : x ∈ drop n a -> x ∈ a.
Proof. intros H. rewrite <- (take_drop n a). apply elem_of_app. auto. Qed.

Lemma filter_every (P : Z -> Prop) `{!forall x, Decision (P x)} (a : list Z) :
  (forall x, x ∈ a -> P x) -> filter P a = a.
Proof.
  intros HP. induction a as [|x a IH]; [done |]. rewrite filter_cons_True by (apply HP; constructor).
  f_equal. apply IH. intros y Hy. apply HP. by constructor.
Qed.

Lemma filter_ext_in (P Q : Z -> Prop) `{!forall x, Decision (P x), !forall x, Decision (Q x)} (a : list Z) :
  (forall x, x ∈ a -> P x <-> Q x) -> filter P a = filter Q a.
Proof.
  intros HPQ. induction a as [|x a IH]; [done |].
  pose proof (HPQ x (list_elem_of_here _ _)) as Hx.
  rewrite !filter_cons, IH by (intros y Hy; apply HPQ; by constructor).
  destruct (decide (P x)), (decide (Q x)); tauto.
Qed.

Lemma zlen_take {A} (a : list A) n : 0 <= n <= zlen a -> zlen (take (Z.to_nat n) a) = n.
Proof. intros H. unfold zlen in *. rewrite length_take. lia. Qed.

Lemma zlen_drop {A} (a : list A) n : 0 <= n <= zlen a -> zlen (drop (Z.to_nat n) a) = zlen a - n.
Proof. intros H. unfold zlen in *. rewrite length_drop. lia. Qed.

Lemma rd_app_l {A} (a b : list A) i : i < zlen a -> rd (a ++ b) i = rd a i.
Proof.
  intros H. unfold rd, zlen in *. destruct (Z.leb_spec 0 i); [| done]. apply lookup_app_l. lia.
Qed.

Lemma rd_app_r {A} (a b : list A) i : zlen a <= i -> rd (a ++ b) i = rd b (i - zlen a).
Proof.
  intros H. unfold rd, zlen in *. rewrite (proj2 (Z.leb_le 0 i)), (proj2 (Z.leb_le 0 _)) by lia.
  rewrite lookup_app_r by lia. f_equal. lia.
Qed.

Lemma rd_fmap {A B} (f : A -> B) (a : list A) i : rd (f <$> a) i = f <$> rd a i.
Proof. unfold rd. destruct (0 <=? i); [apply list_lookup_fmap | done]. Qed.

Lemma strict_app a b : strict a -> strict b -> (forall x y, x ∈ a -> y ∈ b -> x < y) ->
  strict (a ++ b).
Proof. intros Ha Hb H. by apply StronglySorted_app_2. Qed.

Lemma strict_sublists a n : strict a -> strict (take n a) /\ strict (drop n a).
Proof.
  intros Ha. rewrite <- (take_drop n a) in Ha. unfold strict in *.
  split; [by eapply StronglySorted_app_1_l | by eapply StronglySorted_app_1_r].
Qed.

Lemma seqZ_strict m n : strict (seqZ m n).
Proof.
  destruct (decide (0 <= n)) as [Hn |]; [| by rewrite seqZ_nil by lia; constructor].
  replace n with (Z.of_nat (Z.to_nat n)) by lia. generalize (Z.to_nat n). clear.
  intros n. revert m. induction n as [|n IH]; intros m; [constructor |].
  rewrite seqZ_cons by lia. apply strict_cons_elem.
  - replace (Z.pred (Z.of_nat (S n))) with (Z.of_nat n) by lia. apply IH.
  - intros y Hy%elem_of_seqZ. lia.
Qed.

Lemma zlen_seqZ m n : 0 <= n -> zlen (seqZ m n) = n.
Proof. intros H. unfold zlen. rewrite length_seqZ. lia. Qed.

(** The values below [m], those of the range, the values from [e] on. *)
Lemma union_range a m e : strict a -> m <= e ->
  union_loop a (seqZ m (e - m)) =
    take (Z.to_nat (lb a m)) a ++ seqZ m (e - m) ++ drop (Z.to_nat (lb a e)) a.
Proof.
  intros Ha He. pose proof (lb_range a m). pose proof (lb_range a e).
  pose proof (lb_take a m Ha) as Hlt. pose proof (lb_drop_ge a e Ha) as Hge.
  rewrite Forall_forall in Hlt, Hge.
  destruct (strict_sublists a (Z.to_nat (lb a m)) Ha) as [Ht _].
  destruct (strict_sublists a (Z.to_nat (lb a e)) Ha) as [_ Hd].
  apply strict_ext.
  - by apply union_loop_strict, seqZ_strict.
  - apply strict_app; [done | apply strict_app; [apply seqZ_strict | done |] |].
    + intros x y Hx%elem_of_seqZ Hy%Hge. lia.
    + intros x y Hx%Hlt [Hy%elem_of_seqZ | Hy%Hge]%elem_of_app; lia.
  - intros x. rewrite elem_of_union_loop, !elem_of_app, elem_of_seqZ. split.
    + intros [Hx | Hx]; [| right; left; done].
      destruct (decide (x < m)) as [Hm |]; [left | destruct (decide (x < e)); [right; left; lia | do 2 right]].
      * rewrite <- (take_drop (Z.to_nat (lb a m)) a) in Hx. apply elem_of_app in Hx as [Hx | Hx]; [done |].
        pose proof (lb_drop_ge a m Ha) as Hg. rewrite Forall_forall in Hg. specialize (Hg x Hx). lia.
      * rewrite <- (take_drop (Z.to_nat (lb a e)) a) in Hx. apply elem_of_app in Hx as [Hx | Hx]; [| done].
        pose proof (lb_take a e Ha) as Hg. rewrite Forall_forall in Hg. specialize (Hg x Hx). lia.
    + intros [Hx | [Hx | Hx]]; [left; by eapply elem_of_take_1 | by right |
        left; by eapply elem_of_drop_1].
Qed.

Lemma seqZ_one x : seqZ x 1 = [x].
Proof. by rewrite seqZ_cons, seqZ_nil by lia. Qed.

Lemma insert_at_union a x : strict a -> x ∉ a -> insert_at a (lb a x) x = union_loop a [x].
Proof.
  intros Ha Hx. pose proof (union_range a x (x + 1) Ha ltac:(lia)) as H.
  replace (x + 1 - x) with 1 in H by lia. rewrite seqZ_one in H. rewrite H. unfold insert_at.
  rewrite lb_succ, decide_False, Z.add_0_r by done. done.
Qed.

Lemma remove_at_minus a x : strict a -> x ∈ a ->
  take (Z.to_nat (lb a x)) a ++ drop (Z.to_nat (lb a x + 1)) a = minus a [x].
Proof.
  intros Ha Hx. pose proof (rd_lb_elem a x Ha Hx) as Hr.
  destruct (strict_split a _ x Ha Hr) as (l & r & E & Hl & Hlt & Hgt).
  generalize dependent (lb a x). intros i Hr Hl. subst i. rewrite E.
  unfold zlen. rewrite Nat2Z.id, take_app_length.
  replace (Z.to_nat (Z.of_nat (length l) + 1)) with (length l + 1)%nat by lia.
  rewrite drop_app_add. cbn [drop]. unfold minus. rewrite filter_app, filter_cons_False.
  - rewrite Forall_forall in Hlt, Hgt. rewrite !filter_every; [done | |];
      intros y Hy ->%list_elem_of_singleton; [specialize (Hgt _ Hy) | specialize (Hlt _ Hy)]; lia.
  - intros Hn. apply Hn, list_elem_of_here.
Qed.

(** ** Single values *)

(** Room for one more value. *)
Lemma grow_one arr : array_ok arr -> zlen (ac_array arr) <= 65535 ->
  let arr' := if array_container_full arr
              then array_container_grow arr (ac_capacity arr + 1) true else arr in
  ac_array arr' = ac_array arr /\ zlen (ac_array arr) + 1 <= ac_capacity arr'.
Proof.
  intros [_ _ Hr] H arr'. subst arr'. unfold array_container_full, array_container_cardinality.
  destruct (Z.eqb_spec (zlen (ac_array arr)) (ac_capacity arr)); [| split; [done | lia]].
  split; [apply grow_keeps; lia |].
  pose proof (grow_room arr (ac_capacity arr + 1) true ltac:(lia)). lia.
Qed.

Lemma sorted16_snoc a x : sorted16 a -> in_u 16 x -> Forall (fun y => y < x) a -> sorted16 (a ++ [x]).
Proof.
  intros [Hs Hb] Hx Hlt. rewrite Forall_forall in Hlt. split.
  - apply strict_app; [done | repeat constructor |]. intros y z Hy ->%list_elem_of_singleton. auto.
  - apply Forall_app. split; [done | by apply Forall_singleton].
Qed.

Lemma snoc_union a x : strict a -> Forall (fun y => y < x) a -> a ++ [x] = union_loop a [x].
Proof.
  intros Ha Hlt. apply strict_ext.
  - rewrite Forall_forall in Hlt. apply strict_app; [done | repeat constructor |].
    intros y z Hy ->%list_elem_of_singleton. auto.
  - apply union_loop_strict; [done | repeat constructor].
  - intros y. by rewrite elem_of_union_loop, elem_of_app.
Qed.

Lemma above_notin a x : Forall (fun y => y < x) a -> x ∉ a.
Proof. rewrite Forall_forall. intros H Hin. specialize (H x Hin). lia. Qed.

Lemma array_append_spec arr x : array_ok arr -> in_u 16 x -> Forall (fun y => y < x) (ac_array arr) ->
  array_result (array_container_append arr x) (ac_array arr ++ [x]).
Proof.
  intros Hok Hx Hlt. pose proof (array_ok_sorted _ Hok) as Hs.
  destruct (grow_one arr Hok) as [E Hr].
  { eapply sorted16_room; [done | done | by apply above_notin]. }
  unfold array_container_append. rewrite E. apply store_array_ok; [by apply sorted16_snoc |].
  rewrite zlen_app. unfold zlen at 2. simpl. lia.
Qed.

Lemma last_max a v : strict a -> rd a (zlen a - 1) = Some v -> forall y, y ∈ a -> y <= v.
Proof.
  intros Hs Hv y Hy. apply elem_rd in Hy as [i Hi]. pose proof (rd_bound _ _ _ Hi).
  destruct (decide (i = zlen a - 1)) as [-> |]; [rewrite Hv in Hi; injection Hi; lia |].
  pose proof (strict_lt a i (zlen a - 1) y v Hs Hi Hv ltac:(lia)). lia.
Qed.

(** The three outcomes of [array_container_try_add]. *)
Lemma array_try_add_spec arr x maxc : array_ok arr -> in_u 16 x ->
  exists rc arr', array_container_try_add arr x maxc = Some (rc, arr') /\ array_ok arr' /\
    if decide (x ∈ ac_array arr) then rc = 0 /\ arr' = arr
    else if zlen (ac_array arr) <? maxc
    then rc = 1 /\ ac_array arr' = union_loop (ac_array arr) [x]
    else rc = -1 /\ arr' = arr.
Proof.
  intros Hok Hx. pose proof (array_ok_sorted _ Hok) as Hs. pose proof (ao_strict _ Hok) as Hst.
  unfold array_container_try_add, array_container_empty, array_container_cardinality.
  assert (exists app, (if zlen (ac_array arr) =? 0 then Some (zlen (ac_array arr) <? maxc)
            else v ← rd (ac_array arr) (zlen (ac_array arr) - 1);
                 Some ((v <? x) && (zlen (ac_array arr) <? maxc))) = Some app /\
          (app = true -> Forall (fun y => y < x) (ac_array arr) /\ (zlen (ac_array arr) <? maxc) = true))
    as (app & -> & Happ).
  { destruct (Z.eqb_spec (zlen (ac_array arr)) 0) as [H0 | H0].
    - eexists. split; [done |]. intros Ha. split; [| done].
      destruct (ac_array arr); [constructor |]. rewrite zlen_cons in H0.
      pose proof (zlen_nonneg l). lia.
    - destruct (rd_Some (ac_array arr) (zlen (ac_array arr) - 1)) as [v Hv];
        [pose proof (zlen_nonneg (ac_array arr)); lia |]. rewrite Hv. cbn [mbind option_bind].
      eexists. split; [done |]. intros [Hv2 Hm]%andb_prop. split; [| done].
      apply Forall_forall. intros y Hy. pose proof (last_max _ _ Hst Hv y Hy). lia. }
  cbn [mbind option_bind]. destruct app.
  - destruct Happ as [Hlt Hm]; [done |].
    destruct (array_append_spec arr x Hok Hx Hlt) as (c & -> & Hc & Hcok). cbn [mbind option_bind].
    exists 1, c. rewrite decide_False by (by apply above_notin). rewrite Hm, Hc. split; [done |]. split; [done |]. split; [done |]. by apply snoc_union.
  - rewrite binarySearch_spec by done. cbn [mbind option_bind]. pose proof (lb_range (ac_array arr) x).
    destruct (decide (x ∈ ac_array arr)) as [Hin | Hin].
    { rewrite (proj2 (Z.leb_le 0 _)) by lia. by exists 0, arr. }
    rewrite (proj2 (Z.leb_gt 0 _)) by lia. destruct (Z.ltb_spec (zlen (ac_array arr)) maxc); [| by exists (-1), arr].
    destruct (grow_one arr Hok) as [E Hr]; [by eapply sorted16_room |].
    replace (- - (lb (ac_array arr) x + 1) - 1) with (lb (ac_array arr) x) by lia.
    rewrite E, insert_at_union by done.
    destruct (store_array_ok (if array_container_full arr
        then array_container_grow arr (ac_capacity arr + 1) true else arr)
        (union_loop (ac_array arr) [x])) as (c & -> & Hc & Hcok).
    + apply sorted16_union; [done |]. split; [repeat constructor | by apply Forall_singleton].
    + pose proof (union_loop_length (ac_array arr) [x]) as Hl.
      change (zlen [x]) with 1 in Hl. lia.
    + by exists 1, c.
Qed.

Lemma array_add_spec arr x : array_ok arr -> in_u 16 x ->
  exists arr', array_container_add arr x = Some (bool_decide (x ∉ ac_array arr), arr') /\
    array_ok arr' /\ ac_array arr' = union_loop (ac_array arr) [x].
Proof.
  intros Hok Hx. unfold array_container_add.
  destruct (array_try_add_spec arr x INT32_MAX Hok Hx) as (rc & c & -> & Hc & H). cbn [mbind option_bind].
  pose proof (sorted16_length _ (array_ok_sorted _ Hok)).
  destruct (decide (x ∈ ac_array arr)) as [Hin | Hin].
  - destruct H as [-> ->]. exists arr. rewrite bool_decide_false by tauto. split; [done |]. split; [done |].
    apply strict_ext; [apply Hok | apply union_loop_strict; [apply Hok | repeat constructor] |].
    intros y. rewrite elem_of_union_loop, list_elem_of_singleton. split; [auto | intros [| ->]; done].
  - rewrite (proj2 (Z.ltb_lt _ _)) in H by (unfold INT32_MAX; lia). destruct H as [-> Hu].
    exists c. by rewrite bool_decide_true.
Qed.

Lemma array_remove_spec arr x : array_ok arr ->
  exists arr', array_container_remove arr x = Some (bool_decide (x ∈ ac_array arr), arr') /\
    array_ok arr' /\ ac_array arr' = minus (ac_array arr) [x].
Proof.
  intros Hok. pose proof (ao_strict _ Hok) as Hst. pose proof (lb_range (ac_array arr) x).
  unfold array_container_remove. rewrite binarySearch_spec by done. cbn [mbind option_bind].
  destruct (decide (x ∈ ac_array arr)) as [Hin | Hin].
  - rewrite (proj2 (Z.leb_le 0 _)), bool_decide_true by (done || lia).
    rewrite remove_at_minus by done. eexists. split; [done |]. split; [| done].
    destruct (sorted16_minus _ [x] (array_ok_sorted _ Hok)). split; [done | done |]. cbn.
    pose proof (ao_room _ Hok). etrans; [apply zlen_filter_le | done].
  - rewrite (proj2 (Z.leb_gt 0 _)), bool_decide_false by (done || lia). exists arr.
    split; [done |]. split; [done |]. symmetry. apply filter_every.
    intros y Hy ->%list_elem_of_singleton. done.
Qed.

(** *** Membership *)

Lemma contains_scan_spec fuel a i high x : strict a -> 0 <= i -> high < zlen a ->
  Z.max 0 (high - i + 1) < Z.of_nat fuel -> i <= lb a x -> (x ∈ a -> lb a x <= high) ->
  contains_scan fuel a i high x = Some (bool_decide (x ∈ a)).
Proof.
  intros Hs. revert i. induction fuel as [|fuel IH]; intros i Hi Hh Hf Hl Hin; [lia |].
  cbn [contains_scan]. destruct (Z.leb_spec i high).
  - destruct (rd_Some a i) as [v Hv]; [lia |]. rewrite Hv. cbn [mbind option_bind].
    destruct (Z.eqb_spec v x) as [-> | Hne].
    + rewrite bool_decide_true; [done |]. by eapply rd_elem.
    + pose proof (lb_lookup a x i v Hs Hv) as Hlb. destruct (Z.ltb_spec x v).
      * rewrite bool_decide_false; [done |]. intros Hx. pose proof (rd_lb_elem a x Hs Hx) as Hr.
        replace (lb a x) with i in Hr by lia. rewrite Hv in Hr. injection Hr as ->. lia.
      * apply IH; [lia | lia | lia | | done]. assert (i < lb a x) by lia. lia.
  - rewrite bool_decide_false; [done |]. intros Hx. specialize (Hin Hx). lia.
Qed.

Lemma contains_loop_spec fuel a low high x : strict a -> 0 <= low -> high < zlen a ->
  Z.max 0 (high - low + 1) < Z.of_nat fuel -> low <= lb a x -> (x ∈ a -> lb a x <= high) ->
  contains_loop fuel a low high x = Some (bool_decide (x ∈ a)).
Proof.
  intros Hs. revert low high. induction fuel as [|fuel IH]; intros low high Hi Hh Hf Hl Hin.
  - lia.
  - cbn [contains_loop]. destruct (Z.leb_spec (low + 16) high).
    + rewrite shiftr1. destruct (rd_Some a ((low + high) / 2)) as [v Hv];
        [Z.to_euclidean_division_equations; lia |]. rewrite Hv. cbn [mbind option_bind].
      pose proof (lb_lookup a x _ v Hs Hv) as Hlb.
      destruct (Z.ltb_spec v x); [| destruct (Z.ltb_spec x v)].
      * apply IH; try (Z.to_euclidean_division_equations; lia). done.
      * apply IH; try (Z.to_euclidean_division_equations; lia). intros Hx.
        pose proof (rd_lb_elem a x Hs Hx) as Hr.
        destruct (decide (lb a x = (low + high) / 2)) as [E |]; [| lia].
        rewrite E, Hv in Hr. injection Hr. lia.
      * rewrite bool_decide_true; [done |]. replace x with v by lia. by eapply rd_elem.
    + apply contains_scan_spec; (done || lia).
Qed.

Lemma array_contains_spec arr x : array_ok arr ->
  array_container_contains arr x = Some (bool_decide (x ∈ ac_array arr)).
Proof.
  intros Hok. pose proof (ao_strict _ Hok) as Hs. pose proof (lb_range (ac_array arr) x).
  unfold array_container_contains, array_container_cardinality. apply contains_loop_spec; try done.
  - lia.
  - unfold zlen. lia.
  - lia.
  - intros Hx. pose proof (rd_bound _ _ _ (rd_lb_elem _ _ Hs Hx)). lia.
Qed.

(** ** Ranges *)

(** The number of elements from [a] to [b - 1]. *)
Definition count_in (l : list Z) (a b : Z) : Z := zlen (filter (fun x => a <= x < b) l).

Lemma count_in_nonneg l a b : 0 <= count_in l a b.
Proof. apply zlen_nonneg. Qed.

Lemma count_in_cons x l a b : count_in (x :: l) a b = (if (a <=? x) && (x <? b) then 1 else 0) + count_in l a b.
Proof.
  unfold count_in. rewrite filter_cons. destruct (decide (a <= x < b)).
  - rewrite zlen_cons. replace ((a <=? x) && (x <? b)) with true by lia. lia.
  - replace ((a <=? x) && (x <? b)) with false by lia. lia.
Qed.

Lemma count_in_split l a b c : a <= b <= c -> count_in l a b + count_in l b c = count_in l a c.
Proof.
  intros H. induction l as [|x l IH]; [done |]. rewrite !count_in_cons.
  destruct (Z.leb_spec a x), (Z.ltb_spec x b), (Z.leb_spec b x), (Z.ltb_spec x c); cbn [andb]; lia.
Qed.

Lemma count_in_lb l a b : a <= b -> count_in l a b = lb l b - lb l a.
Proof.
  intros H. induction l as [|x l IH]; [done |]. rewrite count_in_cons, !lb_cons.
  destruct (Z.leb_spec a x), (Z.ltb_spec x b), (Z.ltb_spec x a); cbn [andb]; lia.
Qed.

Lemma count_in_all l a b : (forall x, x ∈ l -> a <= x < b) -> count_in l a b = zlen l.
Proof.
  intros H. unfold count_in. f_equal. induction l as [|x l IH]; [done |].
  rewrite filter_cons_True by (apply H; constructor). f_equal. apply IH.
  intros y Hy. apply H. by constructor.
Qed.

(** The values of a whole range are there exactly when there are as many. *)
Lemma count_in_full l a b : strict l -> a <= b ->
  count_in l a b = b - a <-> (forall x, a <= x < b -> x ∈ l).
Proof.
  intros Hs Hab. unfold count_in. set (f := filter _ l).
  assert (strict f) as Hf by (by apply strict_filter).
  assert (forall y, y ∈ f <-> (a <= y < b) /\ y ∈ l) as He.
  { intros y. subst f. rewrite list_elem_of_filter. done. }
  split.
  - intros Hl x Hx. destruct (decide (x ∈ l)) as [| Hn]; [done |]. exfalso.
    pose proof (strict_gap f a b x Hf) as Hg. rewrite Hl in Hg.
    assert (b - a <= b - a - 1); [| lia]. apply Hg; [intros y [Hy _]%He; done | done |].
    intros [_ Hin]%He. done.
  - intros Hall. assert (f = seqZ a (b - a)) as ->; [| apply zlen_seqZ; lia].
    apply strict_ext; [done | apply seqZ_strict |]. intros y. rewrite He, elem_of_seqZ. split.
    + lia.
    + intros Hy. split; [lia |]. apply Hall. lia.
Qed.

Lemma lb_step a k : strict a -> lb a k <= lb a (k + 1) <= lb a k + 1.
Proof. intros Hs. rewrite lb_succ by done. destruct (decide (k ∈ a)); lia. Qed.

Lemma array_contains_range_spec arr s e : array_ok arr -> 0 <= s < e -> e <= 65536 ->
  exists r, array_container_contains_range arr s e = Some r /\
    (r = true <-> forall x, s <= x < e -> x ∈ ac_array arr).
Proof.
  intros Hok Hse He. pose proof (ao_strict _ Hok) as Hs.
  pose proof (sorted16_length _ (array_ok_sorted _ Hok)) as Hlen.
  unfold array_container_contains_range, array_container_cardinality. set (a := ac_array arr) in *.
  assert (u16 s = s) as -> by (apply uwrap_id; split; lia).
  assert (u16 (e - 1) = e - 1) as -> by (apply uwrap_id; split; lia).
  pose proof (lb_range a s). pose proof (lb_range a (e - 1)).
  pose proof (lb_mono a s (e - 1) ltac:(lia)) as Hm.
  rewrite advanceUntil_spec by (done || lia). cbn [mbind option_bind].
  rewrite Z.max_r by lia. rewrite advanceUntil_spec by (done || lia). cbn [mbind option_bind].
  rewrite Z.max_r by lia.
  assert ((forall x, s <= x < e -> x ∈ a) <-> e - 1 ∈ a /\ lb a (e - 1) - lb a s = e - 1 - s) as HQ.
  { rewrite <- (count_in_full a s e) by (done || lia). rewrite count_in_lb by lia.
    replace (lb a e) with (lb a (e - 1 + 1)) by (f_equal; lia). rewrite lb_succ by done.
    destruct (decide (e - 1 ∈ a)) as [Hin | Hin]; [split; [intros; split |]; (done || lia) |].
    split; [| tauto]. intros Hc. exfalso. apply Hin.
    apply (proj1 (count_in_full a s e Hs ltac:(lia))); [| lia]. rewrite count_in_lb by lia.
    replace (lb a e) with (lb a (e - 1 + 1)) by (f_equal; lia). rewrite lb_succ, decide_False by done. lia. }
  assert (forall k, k ∈ a -> lb a k < zlen a) as Hlt.
  { intros k Hk. pose proof (rd_bound _ _ _ (rd_lb_elem _ _ Hs Hk)). lia. }
  destruct (Z.ltb_spec (lb a s) (zlen a)) as [Hls | Hls]; cbn [andb].
  2: { eexists. split; [done |]. rewrite HQ. split; [done |]. intros [Hin _]. specialize (Hlt _ Hin). lia. }
  destruct (Z.ltb_spec (lb a (e - 1)) (zlen a)) as [Hle | Hle]; cbn [andb].
  2: { eexists. split; [done |]. rewrite HQ. split; [done |]. intros [Hin _]. specialize (Hlt _ Hin). lia. }
  assert (u16 (lb a (e - 1) - lb a s) = lb a (e - 1) - lb a s) as -> by (apply uwrap_id; split; lia).
  destruct (Z.eqb_spec (lb a (e - 1) - lb a s) (e - 1 - s)) as [Hc | Hc].
  2: { eexists. split; [done |]. rewrite HQ. split; [done |]. intros [_ Hc']. lia. }
  destruct (rd_Some a (lb a s)) as [v1 Hv1]; [lia |]. destruct (rd_Some a (lb a (e - 1))) as [v2 Hv2]; [lia |].
  rewrite Hv1. cbn [mbind option_bind]. rewrite Hv2. cbn [mbind option_bind].
  destruct (Z.eqb_spec v1 s) as [-> | Hne].
  - eexists. split; [done |]. rewrite HQ, Z.eqb_eq. split.
    + intros ->. split; [by eapply rd_elem | done].
    + intros [Hin _]. pose proof (rd_lb_elem a _ Hs Hin). congruence.
  - eexists. split; [done |]. split; [done |]. intros Hall. exfalso. apply Hne.
    pose proof (rd_lb_elem a s Hs (Hall s ltac:(lia))). congruence.
Qed.

(** Adding the range [[min, max]] and removing [count] values from index
    [pos] on. *)
Lemma map_u16_id (l : list Z) : Forall (in_u 16) l -> (u16 <$> l) = l.
Proof. induction 1 as [|x l Hx _ IH]; [done |]. rewrite fmap_cons, IH. f_equal. by apply uwrap_id. Qed.

Lemma seqZ_u16 m e : 0 <= m -> e <= 65536 -> Forall (in_u 16) (seqZ m (e - m)).
Proof. intros Hm He. apply Forall_forall. intros x Hx%elem_of_seqZ. split; lia. Qed.

Lemma sorted16_seqZ m e : 0 <= m -> e <= 65536 -> sorted16 (seqZ m (e - m)).
Proof. intros Hm He. split; [apply seqZ_strict | by apply seqZ_u16]. Qed.

Lemma lb_take_upper a m e : strict a -> m <= e ->
  lb (take (Z.to_nat (lb a e)) a) m = lb a m.
Proof.
  intros Hs Hm. rewrite <- (take_drop (Z.to_nat (lb a e)) a) at 3. rewrite lb_app.
  rewrite (lb_none (drop _ a)); [lia |]. eapply Forall_impl; [by apply lb_drop_ge |]. simpl. lia.
Qed.

Lemma array_create_range_spec m e : 0 <= m <= e -> e <= 65536 ->
  array_result (array_container_create_range m e) (seqZ m (e - m)).
Proof.
  intros Hm He. unfold array_container_create_range. rewrite map_u16_id by (apply seqZ_u16; lia).
  apply store_array_ok; [apply sorted16_seqZ; lia |]. rewrite zlen_seqZ by lia. cbn. lia.
Qed.

Lemma array_add_range_nvals_spec arr m x : array_ok arr -> 0 <= m <= x -> x <= 65535 ->
  array_result (array_container_add_range_nvals arr m x (lb (ac_array arr) m)
      (zlen (ac_array arr) - lb (ac_array arr) (x + 1)))
    (union_loop (ac_array arr) (seqZ m (x + 1 - m))).
Proof.
  intros Hok Hm Hx. pose proof (ao_strict _ Hok) as Hs. pose proof (array_ok_sorted _ Hok) as Hw.
  set (a := ac_array arr) in *. pose proof (lb_range a m). pose proof (lb_range a (x + 1)).
  pose proof (lb_mono a m (x + 1) ltac:(lia)) as Hmono.
  assert (sorted16 (union_loop a (seqZ m (x + 1 - m)))) as Hu by (apply sorted16_union; [done | apply sorted16_seqZ; lia]).
  pose proof (sorted16_length _ Hu) as Hlen.
  rewrite (union_range a m (x + 1) Hs ltac:(lia)) in Hu, Hlen |- *.
  assert (zlen (take (Z.to_nat (lb a m)) a ++ seqZ m (x + 1 - m) ++ drop (Z.to_nat (lb a (x + 1))) a) =
          lb a m + (x - m + 1) + (zlen a - lb a (x + 1))) as Hz.
  { rewrite !zlen_app, zlen_take, zlen_drop, zlen_seqZ by lia. lia. }
  unfold array_container_add_range_nvals, array_container_cardinality.
  set (n := lb a m + (x - m + 1) + (zlen a - lb a (x + 1))) in *.
  assert (lb a (x + 1) - lb a m <= x - m + 1) as Hcnt.
  { rewrite <- count_in_lb by lia. unfold count_in. replace (x - m + 1) with (x + 1 - m) by lia.
    apply strict_length_bound; [by apply strict_filter | | lia].
    intros y [Hy _]%list_elem_of_filter. lia. }
  set (arr' := if ac_capacity arr <? n then array_container_grow arr n true else arr).
  assert (ac_array arr' = a /\ n <= ac_capacity arr') as [E Hr].
  { subst arr'. destruct (Z.ltb_spec (ac_capacity arr) n); [| split; [done | lia]]. split.
    - apply grow_keeps. fold a. lia.
    - apply grow_room. lia. }
  rewrite E. replace (x - m + 1) with (x + 1 - m) by lia. rewrite map_u16_id by (apply seqZ_u16; lia).
  replace (zlen a - (zlen a - lb a (x + 1))) with (lb a (x + 1)) by lia.
  apply store_array_ok; [done | lia].
Qed.

Lemma array_add_range_spec arr m x : array_ok arr -> 0 <= m <= x -> x <= 65535 ->
  array_result (array_container_add_range arr m x)
    (union_loop (ac_array arr) (seqZ m (x + 1 - m))).
Proof.
  intros Hok Hm Hx. pose proof (ao_strict _ Hok) as Hs. unfold array_container_add_range.
  rewrite count_greater_spec by done. cbn [mbind option_bind].
  pose proof (lb_range (ac_array arr) (x + 1)). unfold array_container_cardinality.
  replace (zlen (ac_array arr) - (zlen (ac_array arr) - lb (ac_array arr) (x + 1)))
    with (lb (ac_array arr) (x + 1)) by lia.
  rewrite count_less_spec by (by apply strict_sublists). cbn [mbind option_bind].
  rewrite lb_take_upper by (done || lia). by apply array_add_range_nvals_spec.
Qed.

Lemma array_remove_range_spec arr m x : array_ok arr -> m <= x ->
  let a := ac_array arr in
  array_result (array_container_remove_range arr (lb a m) (lb a (x + 1) - lb a m))
    (minus a (seqZ m (x + 1 - m))).
Proof.
  intros Hok Hx a. pose proof (ao_strict _ Hok) as Hs. pose proof (array_ok_sorted _ Hok) as Hw.
  pose proof (lb_range a m). pose proof (lb_range a (x + 1)).
  pose proof (lb_mono a m (x + 1) ltac:(lia)) as Hmono.
  assert (minus a (seqZ m (x + 1 - m)) =
    take (Z.to_nat (lb a m)) a ++ drop (Z.to_nat (lb a (x + 1))) a) as E.
  { pose proof (lb_take a m Hs) as Ht. pose proof (lb_drop_ge a (x + 1) Hs) as Hd.
    rewrite Forall_forall in Ht, Hd. apply strict_ext; [by apply strict_filter | |].
    - apply strict_app; [by apply strict_sublists | by apply strict_sublists |].
      intros y z Hy%Ht Hz%Hd. lia.
    - intros y. rewrite elem_of_minus, elem_of_app, elem_of_seqZ. split.
      + intros [Hy Hn]. rewrite <- (take_drop (Z.to_nat (lb a m)) a) in Hy.
        apply elem_of_app in Hy as [Hy | Hy]; [by left | right].
        pose proof (lb_drop_ge a m Hs) as Hdm. rewrite Forall_forall in Hdm. specialize (Hdm _ Hy).
        apply elem_of_drop_1 in Hy. rewrite <- (take_drop (Z.to_nat (lb a (x + 1))) a) in Hy.
        apply elem_of_app in Hy as [Hy | Hy]; [| done].
        pose proof (lb_take a (x + 1) Hs) as Htx. rewrite Forall_forall in Htx. specialize (Htx _ Hy). lia.
      + intros [Hy | Hy].
        * specialize (Ht _ Hy). split; [by eapply elem_of_take_1 | lia].
        * specialize (Hd _ Hy). split; [by eapply elem_of_drop_1 | lia]. }
  pose proof (sorted16_minus a (seqZ m (x + 1 - m)) Hw) as Hsm.
  pose proof (zlen_filter_le (fun y => y ∉ seqZ m (x + 1 - m)) a) as Hle.
  fold (minus a (seqZ m (x + 1 - m))) in Hle. pose proof (ao_room _ Hok) as Hr. fold a in Hr.
  unfold array_container_remove_range, array_container_cardinality. fold a.
  destruct (Z.eqb_spec (lb a (x + 1) - lb a m) 0) as [Hz | Hz].
  - exists arr. split; [done |]. split; [| done]. fold a. rewrite E.
    replace (lb a (x + 1)) with (lb a m) by lia. by rewrite take_drop.
  - rewrite (proj2 (Z.ltb_ge _ _)) by lia.
    replace (lb a m + (lb a (x + 1) - lb a m)) with (lb a (x + 1)) by lia. rewrite <- E.
    eexists. split; [done |]. split; [done |]. destruct Hsm. split; [done | done |]. cbn. lia.
Qed.

(** ** Order statistics *)

Lemma array_rank_spec arr x : array_ok arr ->
  array_container_rank arr x = Some (lb (ac_array arr) (x + 1)).
Proof.
  intros Hok. pose proof (ao_strict _ Hok) as Hs. pose proof (lb_range (ac_array arr) x).
  unfold array_container_rank. rewrite binarySearch_spec by done. cbn [mbind option_bind].
  rewrite lb_succ by done. destruct (decide _).
  - rewrite (proj2 (Z.leb_le 0 _)) by lia. done.
  - rewrite (proj2 (Z.leb_gt 0 _)) by lia. f_equal; lia.
Qed.

Lemma array_index_equalorlarger_spec arr x : array_ok arr ->
  array_container_index_equalorlarger arr x =
    Some (let i := lb (ac_array arr) x in if i <? zlen (ac_array arr) then i else -1).
Proof.
  intros Hok. pose proof (ao_strict _ Hok) as Hs. pose proof (lb_range (ac_array arr) x).
  unfold array_container_index_equalorlarger, array_container_cardinality.
  rewrite binarySearch_spec by done. cbn [mbind option_bind]. destruct (decide _) as [Hin | Hin].
  - rewrite (proj2 (Z.leb_le 0 _)) by lia. pose proof (rd_bound _ _ _ (rd_lb_elem _ _ Hs Hin)).
    cbv zeta. by rewrite (proj2 (Z.ltb_lt _ _)) by lia.
  - rewrite (proj2 (Z.leb_gt 0 _)) by lia. cbv zeta.
    by replace (- - (lb (ac_array arr) x + 1) - 1) with (lb (ac_array arr) x) by lia.
Qed.

Lemma array_select_spec arr start rank : array_ok arr -> 0 <= start <= rank ->
  start + 65536 < 2 ^ 32 -> rank < 2 ^ 32 ->
  let card := zlen (ac_array arr) in
  array_container_select arr start rank =
    if start + card <=? rank then Some (inl (start + card))
    else v ← rd (ac_array arr) (rank - start); Some (inr v).
Proof.
  intros Hok Hr Hs Hk card. pose proof (sorted16_length _ (array_ok_sorted _ Hok)) as Hl.
  pose proof (zlen_nonneg (ac_array arr)). subst card.
  unfold array_container_select, array_container_cardinality, u32. rewrite !uwrap_id by (split; lia).
  done.
Qed.

Lemma array_minimum_spec arr x : array_ok arr -> x ∈ ac_array arr ->
  exists m, array_container_minimum arr = Some m /\ m ∈ ac_array arr /\ m <= x.
Proof.
  intros Hok Hx. pose proof (ao_strict _ Hok) as Hs.
  unfold array_container_minimum, array_container_cardinality.
  destruct (ac_array arr) as [|y l]; [by apply not_elem_of_nil in Hx |].
  rewrite zlen_pos. exists y. split; [done |]. split; [constructor |].
  apply elem_of_cons in Hx as [-> | Hx]; [done |]. pose proof (strict_head _ _ _ Hs Hx). lia.
Qed.

Lemma array_maximum_spec arr x : array_ok arr -> x ∈ ac_array arr ->
  exists m, array_container_maximum arr = Some m /\ m ∈ ac_array arr /\ x <= m.
Proof.
  intros Hok Hx. pose proof (ao_strict _ Hok) as Hs.
  unfold array_container_maximum, array_container_cardinality.
  apply elem_rd in Hx as [i Hi]. pose proof (rd_bound _ _ _ Hi).
  rewrite (proj2 (Z.eqb_neq _ _)) by lia.
  destruct (rd_Some (ac_array arr) (zlen (ac_array arr) - 1)) as [v Hv]; [lia |].
  exists v. split; [done |]. split; [by eapply rd_elem |]. eapply last_max; [done | done | by eapply rd_elem].
Qed.

(** The runs of consecutive values are as many as the values whose
    predecessor is absent. *)
Definition run_starts (l : list Z) : list Z := filter (fun x => x - 1 ∉ l) l.

Lemma number_of_runs_loop_spec l prev n : strict (prev :: l) ->
  number_of_runs_loop l prev n = n + zlen (filter (fun x => x - 1 ∉ prev :: l) l).
Proof.
  revert prev n. induction l as [|x l IH]; intros prev n Hs; [unfold zlen; simpl; lia |].
  pose proof (strict_tail _ _ Hs) as Hs'. cbn [number_of_runs_loop]. rewrite IH by done.
  assert (filter (fun y => y - 1 ∉ prev :: x :: l) l = filter (fun y => y - 1 ∉ x :: l) l) as Hf.
  { apply filter_ext_in. intros y Hy. rewrite (not_elem_of_cons (x :: l)).
    pose proof (strict_head _ _ _ Hs (list_elem_of_here _ _)). pose proof (strict_head _ _ _ Hs' Hy).
    split; [tauto |]. intros H'. split; [lia | done]. }
  rewrite filter_cons, Hf. destruct (Z.eqb_spec x (prev + 1)) as [-> | Hne].
  - rewrite decide_False; [done |]. intros Hn. apply Hn. replace (prev + 1 - 1) with prev by lia. constructor.
  - rewrite decide_True; [rewrite zlen_cons; lia |]. rewrite !not_elem_of_cons. split; [lia |].
    split; [lia |]. intros Hy. pose proof (strict_head _ _ _ Hs' Hy). lia.
Qed.

Lemma array_number_of_runs_spec arr : array_ok arr ->
  array_container_number_of_runs arr = zlen (run_starts (ac_array arr)).
Proof.
  intros [Hs Hb _]. unfold array_container_number_of_runs. rewrite Forall_forall in Hb.
  rewrite number_of_runs_loop_spec.
  - unfold run_starts. rewrite Z.add_0_l. f_equal. apply filter_ext_in.
    intros y Hy. rewrite not_elem_of_cons. destruct (Hb y Hy). split; [tauto |]. intros Hn. split; [lia | done].
  - apply strict_cons_elem; [done |]. intros y Hy. destruct (Hb y Hy). lia.
Qed.

(** ** Bytes *)

Lemma of_mem16_mem16 (l : list Z) : Forall (in_u 16) l -> of_mem16 (mem16 l) = l.
Proof.
  unfold mem16. induction 1 as [|x l Hx _ IH]; [done |]. rewrite bind_cons.
  set (m := l ≫= le_split 2) in *. cbn [le_split app of_mem16]. rewrite IH. f_equal.
  pose proof (le_combine_split 2 x) as H. cbn [le_split] in H. rewrite H.
  apply Z.mod_small, Hx.
Qed.

Lemma zlen_mem16 (l : list Z) : zlen (mem16 l) = 2 * zlen l.
Proof.
  unfold mem16. induction l as [|x l IH]; [done |].
  rewrite bind_cons, zlen_app, IH, zlen_cons. unfold zlen. rewrite length_le_split. lia.
Qed.

Lemma array_read_write c src rest : array_ok src ->
  exists c', array_container_read (array_container_cardinality src) c
      (array_container_write src ++ rest) = Some (c', zlen (array_container_write src)) /\
    ac_array c' = ac_array src /\ array_ok c'.
Proof.
  intros Hok. pose proof (array_ok_sorted _ Hok) as Hw. pose proof (sorted16_length _ Hw).
  unfold array_container_read, array_container_write, array_container_cardinality.
  pose proof (zlen_mem16 (ac_array src)) as Hm. pose proof (zlen_nonneg rest).
  rewrite zlen_app, (proj2 (Z.ltb_ge _ _)) by lia.
  assert (take (Z.to_nat (zlen (ac_array src) * 2)) (mem16 (ac_array src) ++ rest) = mem16 (ac_array src)) as ->.
  { replace (Z.to_nat (zlen (ac_array src) * 2)) with (length (mem16 (ac_array src))) by (unfold zlen in *; lia).
    apply take_app_length. }
  rewrite of_mem16_mem16 by apply Hw.
  destruct (store_ensured c (zlen (ac_array src)) (ac_array src) Hw ltac:(lia)) as (c' & -> & E & Hc').
  cbn [mbind option_bind]. exists c'. split; [| done].
  unfold array_container_size_in_bytes, array_container_cardinality. rewrite E. repeat f_equal; lia.
Qed.

Lemma monotone_from_strict (l : list Z) j : strict l -> (forall x, x ∈ l -> j <= x) -> monotone_from j l = true.
Proof.
  revert j. induction l as [|x l IH]; intros j Hs Hj; [done |]. cbn [monotone_from].
  rewrite (proj2 (Z.ltb_ge _ _)) by (apply Hj; constructor). apply IH; [by eapply strict_tail |].
  intros y Hy. pose proof (strict_head _ _ _ Hs Hy). lia.
Qed.

Lemma array_deserialize_serialize c : array_ok c -> zlen (ac_array c) < 65536 ->
  array_container_deserialize (array_container_serialize c) =
    Some (mk_array (zlen (ac_array c)) (ac_array c)).
Proof.
  intros Hok Hl. unfold array_container_serialize, array_container_deserialize, array_container_cardinality.
  pose proof (zlen_nonneg (ac_array c)). rewrite zlen_app, zlen_mem16.
  replace (zlen (le_split 2 (u16 (zlen (ac_array c))))) with 2 by (unfold zlen; by rewrite length_le_split).
  rewrite (proj2 (Z.ltb_ge _ _)) by lia.
  rewrite (take_app_length' _ _ 2), (drop_app_length' _ _ 2) by (by rewrite length_le_split).
  rewrite le_combine_split. change (8 * Z.of_nat 2) with 16.
  assert (u16 (zlen (ac_array c)) = zlen (ac_array c)) as -> by (apply uwrap_id; split; lia).
  rewrite Z.mod_small by (split; lia).
  replace (2 * zlen (ac_array c) =? _) with true by lia. cbn [negb].
  rewrite of_mem16_mem16 by apply Hok. rewrite monotone_from_strict; [done | apply Hok |].
  intros x Hx. pose proof (ao_range _ Hok) as Hb. rewrite Forall_forall in Hb. apply Hb, Hx.
Qed.

(** ** The array container *)

(** Writing over the input is safe.  [array_container_intersection_inplace]
    and [array_container_andnot] with [out == array_1] overwrite the array they
    are still reading; on well-formed containers they leave the same values as
    the same call with a separate output, whatever that output held, and both
    are well formed. *)
Theorem array_inplace_equivalent c1 c2 out : array_ok c1 -> array_ok c2 ->
  (exists r, array_container_intersection_inplace c1 c2 = Some r /\ array_ok r /\
     ac_array <$> array_container_intersection c1 c2 out = Some (ac_array r)) /\
  (exists r, array_container_andnot_inplace c1 c2 = Some r /\ array_ok r /\
     ac_array <$> array_container_andnot c1 c2 out = Some (ac_array r)).
Proof.
  intros H1 H2. split.
  - destruct (array_intersection_inplace_spec c1 c2 H1 H2) as (r & E & Er & Or). exists r. split; [done |].
    split; [done |]. destruct (array_intersection_spec c1 c2 out H1 H2) as (s & -> & Es & _). cbn. congruence.
  - destruct (array_andnot_inplace_spec c1 c2 H1 H2) as (r & E & Er & Or). exists r. split; [done |].
    split; [done |]. destruct (array_andnot_spec c1 c2 out H1 H2) as (s & -> & Es & _). cbn. congruence.
Qed.

Definition demo_array1 : array_container_t := mk_array 8 [1; 5; 9; 70; 4000; 65535].
Definition demo_array2 : array_container_t := mk_array 3 [5; 70; 71].

Lemma demo_arrays_ok : array_ok demo_array1 /\ array_ok demo_array2.
Proof.
  split; constructor; try (vm_compute; done).
  all: unfold strict, in_u; cbn; repeat first
    [ apply SSorted_nil | apply Forall_nil; exact I
    | apply SSorted_cons | apply Forall_cons; split; [lia |] ].
Qed.

Lemma array_inplace_equivalent_witness :
  array_ok demo_array1 /\ array_ok demo_array2 /\
  exists r, array_container_intersection_inplace demo_array1 demo_array2 = Some r /\ ac_array r = [5; 70].
Proof.
  destruct demo_arrays_ok as [H1 H2].
  split; [exact H1 |]. split; [exact H2 |].
  destruct (array_inplace_equivalent demo_array1 demo_array2 demo_array2 H1 H2) as [(r & E & _ & Hr) _].
  exists r. split; [exact E |]. vm_compute in Hr. injection Hr as Hr. symmetry. exact Hr.
Defined.

(** The array container is a set of 16-bit values.  On a container whose
    array is strictly increasing and fits its capacity, [array_container_add],
    [array_container_remove], [array_container_add_range],
    [array_container_remove_range] (called with the positions the callers
    compute), [array_container_union], [array_container_xor] leave such a
    container, with the values of the set operation; [add] and [remove] report
    whether the value was new or present; [contains], [contains_range], [rank]
    and [number_of_runs] answer from the set.  No call reads or stores outside
    its array. *)
Theorem array_container_set arr : array_ok arr ->
  let a := ac_array arr in
  (forall x, in_u 16 x ->
     (exists r, array_container_add arr x = Some (bool_decide (x ∉ a), r) /\
        array_ok r /\ ac_array r = union_loop a [x]) /\
     (exists r, array_container_remove arr x = Some (bool_decide (x ∈ a), r) /\
        array_ok r /\ ac_array r = minus a [x]) /\
     array_container_contains arr x = Some (bool_decide (x ∈ a)) /\
     array_container_rank arr x = Some (zlen (filter (fun y => y <= x) a))) /\
  (forall m x, 0 <= m <= x -> x <= 65535 ->
     array_result (array_container_add_range arr m x) (union_loop a (seqZ m (x + 1 - m))) /\
     array_result (array_container_remove_range arr (lb a m) (lb a (x + 1) - lb a m))
       (minus a (seqZ m (x + 1 - m))) /\
     exists r, array_container_contains_range arr m (x + 1) = Some r /\
       (r = true <-> forall y, m <= y <= x -> y ∈ a)) /\
  (forall c out, array_ok c -> zlen a + zlen (ac_array c) <= 65536 ->
     array_result (array_container_union arr c out) (union_loop a (ac_array c)) /\
     array_result (array_container_xor arr c out) (xor_uint16 a (ac_array c))) /\
  array_container_number_of_runs arr = zlen (filter (fun x => x - 1 ∉ a) a).
Proof.
  intros H a. split; [| split; [| split]].
  - intros x Hx. split; [by apply array_add_spec |]. split; [by apply array_remove_spec |].
    split; [by apply array_contains_spec |]. rewrite array_rank_spec by done. f_equal. unfold lb. f_equal.
    apply filter_ext_in. intros. lia.
  - intros m x Hm Hx. split; [by apply array_add_range_spec |]. split; [apply array_remove_range_spec; [done | lia] |].
    destruct (array_contains_range_spec arr m (x + 1) H) as (r & -> & Hr); [lia | lia |].
    exists r. split; [done |]. rewrite Hr. split; intros Hall y Hy; apply Hall; lia.
  - intros c out Hc Hl. split; [by apply array_union_spec | by apply array_xor_spec].
  - by apply array_number_of_runs_spec.
Qed.

Lemma array_container_set_witness :
  array_ok demo_array1 /\
  exists r, array_container_add demo_array1 6 = Some (true, r) /\ ac_array r = [1; 5; 6; 9; 70; 4000; 65535].
Proof.
  destruct demo_arrays_ok as [H1 _]. split; [exact H1 |].
  destruct (array_container_set demo_array1 H1) as [Hx _].
  destruct (Hx 6 ltac:(split; [lia | reflexivity])) as [(r & E & _ & Hr) _].
  exists r. split; [rewrite E; reflexivity |]. rewrite Hr. reflexivity.
Defined.
