(* ===== verification/RoaringBitset.v ===== *)
(** * Roaring bitmaps: bitsets of 64-bit words

    The bit-range and bit-list functions of [bitset_util] and the bitset
    container, [bitset_container_t], with the [bitset_container_*] functions
    of [src/include/datastruct/roaring.h] and
    [src/src/datastruct/roaring.c], in their portable C versions (neither
    [USEAVX] nor [USENEON] nor the inline assembler).

    A bitset is the list of its words, each a [uint64_t] in [Z]; an access
    outside the list is [None].  [elems ws] is the sorted list of the
    positions of the set bits, the abstract value of the bitset. *)

From stdpp Require Import base list list_numbers numbers option sorting.
From Stdlib Require Import ZArith Lia.
From S2P Require Import Prelude.
From S2P Require Import RoaringArrays.
From S2P Require Import RoaringArrayContainer.

Local Open Scope Z_scope.

(** ** Words *)

Definition ones64 : Z := 2 ^ 64 - 1.
Definition not64 (w : Z) : Z := u64 (Z.lnot w).
Definition shl64 (w k : Z) : Z := u64 (Z.shiftl w k).
Definition shr64 (w k : Z) : Z := Z.shiftr w k.

(** [~x + 1] on [uint32_t] *)
Definition neg32 (x : Z) : Z := u32 (u32 (Z.lnot x) + 1).

Definition word_bits (w : Z) : list Z := filter (fun i => Z.testbit w i = true) (seqZ 0 64).

(** [__builtin_popcountll] *)
Definition hamming (w : Z) : Z := zlen (word_bits w).

Fixpoint ctz_pos (p : positive) : Z :=
  match p with
  | xO p => ctz_pos p + 1
  | _ => 0
  end.

(** [__builtin_ctzll], undefined at 0, and [__builtin_clzll]. *)
Definition ctz (w : Z) : Z := match w with Zpos p => ctz_pos p | _ => 0 end.
Definition clz (w : Z) : Z := 63 - Z.log2 w.

(** [ws[i] = v] *)
Definition wr (ws : list Z) (i v : Z) : option (list Z) :=
  if (0 <=? i) && (i <? zlen ws) then Some (<[Z.to_nat i := v]> ws) else None.

(** ** Bit ranges *)

(** [for(i = from; i < to; i++) ws[i] = f(ws[i])] *)
Fixpoint map_words (n : nat) (ws : list Z) (i : Z) (f : Z -> Z) : option (list Z) :=
  match n with
  | O => Some ws
  | S n => w ← rd ws i; ws ← wr ws i (f w); map_words n ws (i + 1) f
  end.

Definition map_range (ws : list Z) (from to : Z) (f : Z -> Z) : option (list Z) :=
  map_words (Z.to_nat (to - from)) ws from f.

Definition bitset_set_range (bitmap : list Z) (start end_ : Z) : option (list Z) :=
  if start =? end_ then Some bitmap
  else
    let firstword := start / 64 in
    let endword := (end_ - 1) / 64 in
    if firstword =? endword then
      w ← rd bitmap firstword;
      wr bitmap firstword
        (Z.lor w (Z.land (shl64 ones64 (start mod 64)) (shr64 ones64 (neg32 end_ mod 64))))
    else
      w ← rd bitmap firstword;
      bitmap ← wr bitmap firstword (Z.lor w (shl64 ones64 (start mod 64)));
      bitmap ← map_range bitmap (firstword + 1) endword (fun _ => ones64);
      w ← rd bitmap endword;
      wr bitmap endword (Z.lor w (shr64 ones64 (neg32 end_ mod 64))).

(** [((~start + 1) - lenminusone - 1) % 64] and [(63 - lenminusone) % 64] on
    [uint32_t]. *)
Definition end_shift (start lenminusone : Z) : Z :=
  u32 (neg32 start - lenminusone - 1) mod 64.
Definition len_shift (lenminusone : Z) : Z := u32 (63 - lenminusone) mod 64.

Fixpoint sum_words (n : nat) (ws : list Z) (i answer : Z) : option Z :=
  match n with
  | O => Some answer
  | S n => w ← rd ws i; sum_words n ws (i + 1) (answer + hamming w)
  end.

Definition bitset_lenrange_cardinality (bitmap : list Z) (start lenminusone : Z) : option Z :=
  let firstword := start / 64 in
  let endword := (start + lenminusone) / 64 in
  if firstword =? endword then
    w ← rd bitmap firstword;
    Some (hamming (Z.land w (shl64 (shr64 ones64 (len_shift lenminusone)) (start mod 64))))
  else
    w ← rd bitmap firstword;
    answer ← sum_words (Z.to_nat (endword - (firstword + 1))) bitmap (firstword + 1)
               (hamming (Z.land w (shl64 ones64 (start mod 64))));
    w ← rd bitmap endword;
    Some (answer + hamming (Z.land w (shr64 ones64 (end_shift start lenminusone)))).

(** [for(i = from; ...) if(ws[i] != 0) return false;] *)
Fixpoint all_zero (n : nat) (ws : list Z) (i : Z) : option bool :=
  match n with
  | O => Some true
  | S n => w ← rd ws i; if w =? 0 then all_zero n ws (i + 1) else Some false
  end.

Definition bitset_lenrange_empty (bitmap : list Z) (start lenminusone : Z) : option bool :=
  let firstword := start / 64 in
  let endword := (start + lenminusone) / 64 in
  if firstword =? endword then
    w ← rd bitmap firstword;
    Some (Z.land w (shl64 (shr64 ones64 (len_shift lenminusone)) (start mod 64)) =? 0)
  else
    w ← rd bitmap firstword;
    if negb (Z.land w (shl64 ones64 (start mod 64)) =? 0) then Some false
    else
      b ← all_zero (Z.to_nat (endword - (firstword + 1))) bitmap (firstword + 1);
      if negb b then Some false
      else
        w ← rd bitmap endword;
        Some (Z.land w (shr64 ones64 (end_shift start lenminusone)) =? 0).

(** [for(i = from; i < endword; i += 2) ws[i] = ws[i + 1] = ~0] *)
Fixpoint fill_pairs (fuel : nat) (ws : list Z) (i endword : Z) : option (list Z) :=
  match fuel with
  | O => None
  | S fuel =>
    if i <? endword then
      ws ← wr ws (i + 1) ones64;
      ws ← wr ws i ones64;
      fill_pairs fuel ws (i + 2) endword
    else Some ws
  end.

Definition bitset_set_lenrange (bitmap : list Z) (start lenminusone : Z) : option (list Z) :=
  let firstword := start / 64 in
  let endword := (start + lenminusone) / 64 in
  if firstword =? endword then
    w ← rd bitmap firstword;
    wr bitmap firstword (Z.lor w (shl64 (shr64 ones64 (len_shift lenminusone)) (start mod 64)))
  else
    temp ← rd bitmap endword;
    w ← rd bitmap firstword;
    bitmap ← wr bitmap firstword (Z.lor w (shl64 ones64 (start mod 64)));
    bitmap ← fill_pairs (S (Z.to_nat (endword - firstword))) bitmap (firstword + 1) endword;
    wr bitmap endword (Z.lor temp (shr64 ones64 (end_shift start lenminusone))).

Definition bitset_flip_range (bitmap : list Z) (start end_ : Z) : option (list Z) :=
  if start =? end_ then Some bitmap
  else
    let firstword := start / 64 in
    let endword := (end_ - 1) / 64 in
    w ← rd bitmap firstword;
    bitmap ← wr bitmap firstword (Z.lxor w (not64 (shl64 ones64 (start mod 64))));
    bitmap ← map_range bitmap firstword endword not64;
    w ← rd bitmap endword;
    wr bitmap endword (Z.lxor w (shr64 ones64 (neg32 end_ mod 64))).

Definition bitset_reset_range (bitmap : list Z) (start end_ : Z) : option (list Z) :=
  if start =? end_ then Some bitmap
  else
    let firstword := start / 64 in
    let endword := (end_ - 1) / 64 in
    if firstword =? endword then
      w ← rd bitmap firstword;
      wr bitmap firstword (Z.land w (not64
        (Z.land (shl64 ones64 (start mod 64)) (shr64 ones64 (neg32 end_ mod 64)))))
    else
      w ← rd bitmap firstword;
      bitmap ← wr bitmap firstword (Z.land w (not64 (shl64 ones64 (start mod 64))));
      bitmap ← map_range bitmap (firstword + 1) endword (fun _ => 0);
      w ← rd bitmap endword;
      wr bitmap endword (Z.land w (not64 (shr64 ones64 (neg32 end_ mod 64)))).

(** ** Bit lists *)

Fixpoint bitset_clear_list (bitset : list Z) (card : Z) (l : list Z) : option (list Z * Z) :=
  match l with
  | [] => Some (bitset, card)
  | pos :: l =>
    let offset := Z.shiftr pos 6 in
    let index := pos mod 64 in
    load ← rd bitset offset;
    let newload := Z.land load (not64 (shl64 1 index)) in
    bitset ← wr bitset offset newload;
    bitset_clear_list bitset (u64 (card - shr64 (Z.lxor load newload) index)) l
  end.

Fixpoint bitset_set_list_withcard (bitset : list Z) (card : Z) (l : list Z) :
    option (list Z * Z) :=
  match l with
  | [] => Some (bitset, card)
  | pos :: l =>
    let offset := Z.shiftr pos 6 in
    let index := pos mod 64 in
    load ← rd bitset offset;
    let newload := Z.lor load (shl64 1 index) in
    bitset ← wr bitset offset newload;
    bitset_set_list_withcard bitset (u64 (card + shr64 (Z.lxor load newload) index)) l
  end.

Fixpoint bitset_set_list (bitset : list Z) (l : list Z) : option (list Z) :=
  match l with
  | [] => Some bitset
  | pos :: l =>
    let offset := Z.shiftr pos 6 in
    let index := pos mod 64 in
    load ← rd bitset offset;
    let newload := Z.lor load (shl64 1 index) in
    bitset ← wr bitset offset newload;
    bitset_set_list bitset l
  end.

Fixpoint bitset_flip_list_withcard (bitset : list Z) (card : Z) (l : list Z) :
    option (list Z * Z) :=
  match l with
  | [] => Some (bitset, card)
  | pos :: l =>
    let offset := Z.shiftr pos 6 in
    let index := pos mod 64 in
    load ← rd bitset offset;
    let newload := Z.lxor load (shl64 1 index) in
    bitset ← wr bitset offset newload;
    bitset_flip_list_withcard bitset
      (u64 (card + (1 - 2 * shr64 (Z.land (shl64 1 index) load) index))) l
  end.

Fixpoint bitset_flip_list (bitset : list Z) (l : list Z) : option (list Z) :=
  match l with
  | [] => Some bitset
  | pos :: l =>
    let offset := Z.shiftr pos 6 in
    let index := pos mod 64 in
    load ← rd bitset offset;
    let newload := Z.lxor load (shl64 1 index) in
    bitset ← wr bitset offset newload;
    bitset_flip_list bitset l
  end.

(** ** Reading the set bits out *)

(** [while(w != 0) { t = w & (~w + 1); r = ctz(w); out r + base; w ^= t; }] *)
Fixpoint extract_word (fuel : nat) (w base : Z) : option (list Z) :=
  match fuel with
  | O => None
  | S fuel =>
    if w =? 0 then Some []
    else
      let t := Z.land w (u64 (not64 w + 1)) in
      let r := ctz w in
      l ← extract_word fuel (Z.lxor w t) base;
      Some (r + base :: l)
  end.

Fixpoint extract_words (ws : list Z) (base : Z) : option (list Z) :=
  match ws with
  | [] => Some []
  | w :: ws =>
    l ← extract_word 65 w base;
    r ← extract_words ws (base + 64);
    Some (l ++ r)
  end.

(** The values are stored as [uint32_t], respectively [uint16_t]. *)
Definition bitset_extract_setbits (bitset : list Z) (base : Z) : option (list Z) :=
  extract_words bitset base ≫= fun l : list Z => Some (u32 <$> l).

Definition bitset_extract_setbits_uint16 (bitset : list Z) (base : Z) : option (list Z) :=
  extract_words bitset base ≫= fun l : list Z => Some (u16 <$> l).

Definition bitset_extract_intersection_setbits_uint16 (bitset1 bitset2 : list Z) (base : Z) :
    option (list Z) :=
  extract_words (zip_with Z.land bitset1 bitset2) base ≫= fun l : list Z => Some (u16 <$> l).

(** ** The container *)

Definition BITSET_CONTAINER_SIZE_IN_WORDS : Z := 2 ^ 16 / 64.
Definition BITSET_UNKNOWN_CARDINALITY : Z := -1.

Record bitset_container_t := mk_bitset {
  bc_cardinality : Z;
  bc_array : list Z;
}.

Definition bitset_container_create : bitset_container_t :=
  mk_bitset 0 (replicate (Z.to_nat BITSET_CONTAINER_SIZE_IN_WORDS) 0).

Definition bitset_container_clear (b : bitset_container_t) : bitset_container_t :=
  mk_bitset 0 (replicate (Z.to_nat BITSET_CONTAINER_SIZE_IN_WORDS) 0).

Definition bitset_container_set_all (b : bitset_container_t) : bitset_container_t :=
  mk_bitset (2 ^ 16) (replicate (Z.to_nat BITSET_CONTAINER_SIZE_IN_WORDS) ones64).

Definition bitset_container_copy (source dest : bitset_container_t) : bitset_container_t :=
  mk_bitset (bc_cardinality source) (bc_array source).

Definition bitset_container_clone (src : bitset_container_t) : bitset_container_t :=
  mk_bitset (bc_cardinality src) (bc_array src).

Definition bitset_container_set (b : bitset_container_t) (pos : Z) : option bitset_container_t :=
  old_word ← rd (bc_array b) (Z.shiftr pos 6);
  let index := Z.land pos 63 in
  let new_word := Z.lor old_word (shl64 1 index) in
  ws ← wr (bc_array b) (Z.shiftr pos 6) new_word;
  Some (mk_bitset (bc_cardinality b + u32 (shr64 (Z.lxor old_word new_word) index)) ws).

Definition bitset_container_unset (b : bitset_container_t) (pos : Z) : option bitset_container_t :=
  old_word ← rd (bc_array b) (Z.shiftr pos 6);
  let index := Z.land pos 63 in
  let new_word := Z.land old_word (not64 (shl64 1 index)) in
  ws ← wr (bc_array b) (Z.shiftr pos 6) new_word;
  Some (mk_bitset (bc_cardinality b - u32 (shr64 (Z.lxor old_word new_word) index)) ws).

Definition bitset_container_add (b : bitset_container_t) (pos : Z) :
    option (bool * bitset_container_t) :=
  old_word ← rd (bc_array b) (Z.shiftr pos 6);
  let index := Z.land pos 63 in
  let new_word := Z.lor old_word (shl64 1 index) in
  let increment := shr64 (Z.lxor old_word new_word) index in
  ws ← wr (bc_array b) (Z.shiftr pos 6) new_word;
  Some (0 <? increment, mk_bitset (bc_cardinality b + u32 increment) ws).

Definition bitset_container_remove (b : bitset_container_t) (pos : Z) :
    option (bool * bitset_container_t) :=
  old_word ← rd (bc_array b) (Z.shiftr pos 6);
  let index := Z.land pos 63 in
  let new_word := Z.land old_word (not64 (shl64 1 index)) in
  let increment := shr64 (Z.lxor old_word new_word) index in
  ws ← wr (bc_array b) (Z.shiftr pos 6) new_word;
  Some (0 <? increment, mk_bitset (bc_cardinality b - u32 increment) ws).

Definition bitset_container_get (b : bitset_container_t) (pos : Z) : option bool :=
  word ← rd (bc_array b) (Z.shiftr pos 6);
  Some (Z.land (shr64 word (Z.land pos 63)) 1 =? 1).

Definition bitset_container_contains (b : bitset_container_t) (pos : Z) : option bool :=
  bitset_container_get b pos.

(** [for(i = start + 1; (i < WORDS) && (i < end); ++i) if(array[i] != ~0) return false;] *)
Fixpoint all_ones (fuel : nat) (ws : list Z) (i end_ : Z) : option bool :=
  match fuel with
  | O => None
  | S fuel =>
    if (i <? BITSET_CONTAINER_SIZE_IN_WORDS) && (i <? end_) then
      w ← rd ws i;
      if w =? ones64 then all_ones fuel ws (i + 1) end_ else Some false
    else Some true
  end.

Definition bitset_container_get_range (b : bitset_container_t) (pos_start pos_end : Z) :
    option bool :=
  let start := Z.shiftr pos_start 6 in
  let end_ := Z.shiftr pos_end 6 in
  let first := not64 (shl64 1 (Z.land pos_start 63) - 1) in
  let last := shl64 1 (Z.land pos_end 63) - 1 in
  if start =? end_ then
    w ← rd (bc_array b) end_;
    Some (Z.land (Z.land w first) last =? Z.land first last)
  else
    w ← rd (bc_array b) start;
    if negb (Z.land w first =? first) then Some false
    else
      stop ← (if end_ <? BITSET_CONTAINER_SIZE_IN_WORDS then
                w ← rd (bc_array b) end_; Some (negb (Z.land w last =? last))
              else Some false);
      if stop : bool then Some false
      else all_ones (S (Z.to_nat (end_ - start))) (bc_array b) (start + 1) end_.

Definition bitset_container_contains_range (b : bitset_container_t) (pos_start pos_end : Z) :
    option bool :=
  bitset_container_get_range b pos_start pos_end.

Definition bitset_container_cardinality (b : bitset_container_t) : Z := bc_cardinality b.

(** The loop adds four words per round. *)
Fixpoint compute_cardinality_loop (ws : list Z) (sum : Z) : option Z :=
  match ws with
  | [] => Some sum
  | w0 :: w1 :: w2 :: w3 :: ws =>
    compute_cardinality_loop ws (sum + hamming w0 + hamming w1 + hamming w2 + hamming w3)
  | _ => None
  end.

Definition bitset_container_compute_cardinality (b : bitset_container_t) : option Z :=
  compute_cardinality_loop (bc_array b) 0.

Definition bitset_container_nonzero_cardinality (b : bitset_container_t) :
    option (bool * bitset_container_t) :=
  b ← (if bc_cardinality b =? BITSET_UNKNOWN_CARDINALITY then
         card ← bitset_container_compute_cardinality b;
         Some (mk_bitset card (bc_array b))
       else Some b);
  Some (0 <? bc_cardinality b, b).

Definition bitset_container_empty (b : bitset_container_t) : option bool :=
  if bc_cardinality b =? BITSET_UNKNOWN_CARDINALITY then
    all_zero (Z.to_nat BITSET_CONTAINER_SIZE_IN_WORDS) (bc_array b) 0
  else Some (bc_cardinality b =? 0).

Definition bitset_container_const_nonzero_cardinality (b : bitset_container_t) : option bool :=
  e ← bitset_container_empty b; Some (negb e).

(** [for(value = min; value < max; value += step) bitset_container_add(bitset, value)] *)
Fixpoint bitset_add_loop (fuel : nat) (b : bitset_container_t) (value max step : Z) :
    option bitset_container_t :=
  match fuel with
  | O => None
  | S fuel =>
    if value <? max then
      '(_, b) ← bitset_container_add b (u16 value);
      bitset_add_loop fuel b (value + step) max step
    else Some b
  end.

(** [for(value = min % step; value < 64; value += step) mask |= 1 << value] *)
Fixpoint step_mask (fuel : nat) (mask value step : Z) : Z :=
  match fuel with
  | O => mask
  | S fuel =>
    if value <? 64 then step_mask fuel (Z.lor mask (shl64 1 value)) (value + step) step else mask
  end.

Definition bitset_container_add_from_range (b : bitset_container_t) (min max step : Z) :
    option bitset_container_t :=
  if step =? 0 then Some b
  else if 64 mod step =? 0 then
    let mask := step_mask 65 0 (min mod step) step in
    let firstword := min / 64 in
    let endword := (max - 1) / 64 in
    let card := (max - min + step - 1) / step in
    if firstword =? endword then
      w ← rd (bc_array b) firstword;
      ws ← wr (bc_array b) firstword (Z.lor w (Z.land mask
             (Z.land (shl64 ones64 (min mod 64)) (shr64 ones64 (neg32 max mod 64)))));
      Some (mk_bitset card ws)
    else
      ws ← wr (bc_array b) firstword (Z.land mask (shl64 ones64 (min mod 64)));
      ws ← map_range ws (firstword + 1) endword (fun _ => mask);
      ws ← wr ws endword (Z.land mask (shr64 ones64 (neg32 max mod 64)));
      Some (mk_bitset card ws)
  else bitset_add_loop (S (Z.to_nat (max - min))) b min max step.

Definition bitset_container_set_range (b : bitset_container_t) (begin end_ : Z) :
    option bitset_container_t :=
  ws ← bitset_set_range (bc_array b) begin end_;
  card ← bitset_container_compute_cardinality (mk_bitset (bc_cardinality b) ws);
  Some (mk_bitset card ws).

Fixpoint bitset_intersect_loop (array_1 array_2 : list Z) : bool :=
  match array_1, array_2 with
  | w1 :: a1, w2 :: a2 => if negb (Z.land w1 w2 =? 0) then true else bitset_intersect_loop a1 a2
  | _, _ => false
  end.

Definition bitset_container_intersect (src_1 src_2 : bitset_container_t) : bool :=
  bitset_intersect_loop (bc_array src_1) (bc_array src_2).

(** [BITSET_CONTAINER_FN(opname, opsymbol)]: the three functions the macro
    defines; the loop handles two words per round. *)
Section container_fn.

Variable opsymbol : Z -> Z -> Z.

Fixpoint fn_loop (array_1 array_2 : list Z) (sum : Z) : option (list Z * Z) :=
  match array_1, array_2 with
  | [], [] => Some ([], sum)
  | x1 :: x2 :: a1, y1 :: y2 :: a2 =>
    let word_1 := opsymbol x1 y1 in
    let word_2 := opsymbol x2 y2 in
    '(out, sum) ← fn_loop a1 a2 (sum + hamming word_1 + hamming word_2);
    Some (word_1 :: word_2 :: out, sum)
  | _, _ => None
  end.

Definition bitset_container_fn (src_1 src_2 : bitset_container_t) : option bitset_container_t :=
  '(out, sum) ← fn_loop (bc_array src_1) (bc_array src_2) 0;
  Some (mk_bitset sum out).

Definition bitset_container_fn_nocard (src_1 src_2 : bitset_container_t) : bitset_container_t :=
  mk_bitset BITSET_UNKNOWN_CARDINALITY (zip_with opsymbol (bc_array src_1) (bc_array src_2)).

Definition bitset_container_fn_justcard (src_1 src_2 : bitset_container_t) : option Z :=
  '(_, sum) ← fn_loop (bc_array src_1) (bc_array src_2) 0;
  Some sum.

End container_fn.

Definition bitset_container_or := bitset_container_fn Z.lor.
Definition bitset_container_or_nocard := bitset_container_fn_nocard Z.lor.
Definition bitset_container_or_justcard := bitset_container_fn_justcard Z.lor.
Definition bitset_container_and := bitset_container_fn Z.land.
Definition bitset_container_and_nocard := bitset_container_fn_nocard Z.land.
Definition bitset_container_and_justcard := bitset_container_fn_justcard Z.land.
Definition bitset_container_xor := bitset_container_fn Z.lxor.
Definition bitset_container_xor_nocard := bitset_container_fn_nocard Z.lxor.
Definition bitset_container_xor_justcard := bitset_container_fn_justcard Z.lxor.
Definition andnot64 (x y : Z) : Z := Z.land x (not64 y).
Definition bitset_container_andnot := bitset_container_fn andnot64.
Definition bitset_container_andnot_nocard := bitset_container_fn_nocard andnot64.
Definition bitset_container_andnot_justcard := bitset_container_fn_justcard andnot64.

Definition bitset_container_to_uint32_array (b : bitset_container_t) (base : Z) : option (list Z) :=
  bitset_extract_setbits (bc_array b) base.

(** [num_runs += hamming(~word & (word << 1)) + ((word >> 63) & ~next_word)] *)
Fixpoint bitset_runs_loop (word : Z) (ws : list Z) (num_runs : Z) : Z :=
  match ws with
  | [] =>
    num_runs + hamming (Z.land (not64 word) (shl64 word 1)) +
      (if Z.land word (2 ^ 63) =? 0 then 0 else 1)
  | next_word :: ws =>
    bitset_runs_loop next_word ws
      (num_runs + hamming (Z.land (not64 word) (shl64 word 1)) +
       Z.land (shr64 word 63) (not64 next_word))
  end.

Definition bitset_container_number_of_runs (b : bitset_container_t) : option Z :=
  match bc_array b with
  | [] => None
  | word :: ws => Some (bitset_runs_loop word ws 0)
  end.

Definition bitset_container_size_in_bytes (b : bitset_container_t) : Z :=
  BITSET_CONTAINER_SIZE_IN_WORDS * 8.

Definition mem64 (ws : list Z) : list Z := ws ≫= le_split 8.

Fixpoint of_mem64 (n : nat) (b : list Z) : list Z :=
  match n with
  | O => []
  | S n => le_combine (take 8 b) :: of_mem64 n (drop 8 b)
  end.

Definition bitset_container_serialize (b : bitset_container_t) : list Z := mem64 (bc_array b).

Definition bitset_container_write (b : bitset_container_t) : list Z := mem64 (bc_array b).

(** The container read and the bytes consumed. *)
Definition bitset_container_read (cardinality : Z) (buf : list Z) :
    option (bitset_container_t * Z) :=
  if zlen buf <? BITSET_CONTAINER_SIZE_IN_WORDS * 8 then None
  else
    let b := mk_bitset cardinality (of_mem64 (Z.to_nat BITSET_CONTAINER_SIZE_IN_WORDS) buf) in
    Some (b, bitset_container_size_in_bytes b).

Definition bitset_container_serialization_len : Z := 8 * BITSET_CONTAINER_SIZE_IN_WORDS.

Definition bitset_container_deserialize (buf : list Z) : option bitset_container_t :=
  if negb (8 * BITSET_CONTAINER_SIZE_IN_WORDS =? zlen buf) then None
  else
    let ws := of_mem64 (Z.to_nat BITSET_CONTAINER_SIZE_IN_WORDS) buf in
    card ← compute_cardinality_loop ws 0;
    Some (mk_bitset card ws).

(** The bits of one word are handed to the callback in turn. *)
Fixpoint iterate_word {S} (fuel : nat) (w base : Z) (iterator : Z -> S -> bool * S) (ptr : S) :
    option (bool * S) :=
  match fuel with
  | O => None
  | S fuel =>
    if w =? 0 then Some (true, ptr)
    else
      let t := Z.land w (u64 (not64 w + 1)) in
      match iterator (u32 (ctz w + base)) ptr with
      | (false, ptr) => Some (false, ptr)
      | (true, ptr) => iterate_word fuel (Z.lxor w t) base iterator ptr
      end
  end.

Fixpoint iterate_words {S} (ws : list Z) (base : Z) (iterator : Z -> S -> bool * S) (ptr : S) :
    option (bool * S) :=
  match ws with
  | [] => Some (true, ptr)
  | w :: ws =>
    '(go, ptr) ← iterate_word 65 w base iterator ptr;
    if go : bool then iterate_words ws (base + 64) iterator ptr else Some (false, ptr)
  end.

Definition bitset_container_iterate {S} (b : bitset_container_t) (base : Z)
    (iterator : Z -> S -> bool * S) (ptr : S) : option (bool * S) :=
  iterate_words (bc_array b) base iterator ptr.

Definition bitset_container_iterate64 {S} (b : bitset_container_t) (base : Z)
    (iterator : Z -> S -> bool * S) (high_bits : Z) (ptr : S) : option (bool * S) :=
  iterate_words (bc_array b) base (fun v => iterator (Z.lor high_bits v)) ptr.

Definition both_known (c1 c2 : bitset_container_t) : bool :=
  negb (bc_cardinality c1 =? BITSET_UNKNOWN_CARDINALITY) &&
  negb (bc_cardinality c2 =? BITSET_UNKNOWN_CARDINALITY).

Definition bitset_container_equals (c1 c2 : bitset_container_t) : bool :=
  if both_known c1 c2 && negb (bc_cardinality c1 =? bc_cardinality c2) then false
  else if both_known c1 c2 && (bc_cardinality c1 =? 0x10000) then true
  else bool_decide (mem64 (bc_array c1) = mem64 (bc_array c2)).

Fixpoint bitset_subset_loop (a1 a2 : list Z) : bool :=
  match a1, a2 with
  | w1 :: a1, w2 :: a2 => if negb (Z.land w1 w2 =? w1) then false else bitset_subset_loop a1 a2
  | _, _ => true
  end.

Definition bitset_container_is_subset (c1 c2 : bitset_container_t) : bool :=
  if both_known c1 c2 && (bc_cardinality c2 <? bc_cardinality c1) then false
  else bitset_subset_loop (bc_array c1) (bc_array c2).

(** [inl r]: the word is exhausted and [*start_rank = r]; [inr v]: found. *)
Fixpoint select_word (fuel : nat) (w base start_rank rank : Z) : option (Z + Z) :=
  match fuel with
  | O => None
  | S fuel =>
    if w =? 0 then Some (inl start_rank)
    else
      let t := Z.land w (u64 (not64 w + 1)) in
      if start_rank =? rank then Some (inr (ctz w + base))
      else select_word fuel (Z.lxor w t) base (u32 (start_rank + 1)) rank
  end.

(** Running past the last word is [assert(false)]. *)
Fixpoint select_words (ws : list Z) (i start_rank rank : Z) : option Z :=
  match ws with
  | [] => None
  | w :: ws =>
    let size := hamming w in
    if rank <=? u32 (start_rank + size) then
      r ← select_word 65 w (u16 (i * 64)) start_rank rank;
      match r with
      | inr element => Some element
      | inl start_rank => select_words ws (i + 1) start_rank rank
      end
    else select_words ws (i + 1) (u32 (start_rank + size)) rank
  end.

Definition bitset_container_select (b : bitset_container_t) (start_rank rank : Z) :
    option (Z + Z) :=
  let card := bitset_container_cardinality b in
  if u32 (start_rank + card) <=? rank then Some (inl (u32 (start_rank + card)))
  else element ← select_words (bc_array b) 0 start_rank rank; Some (inr element).

Fixpoint bitset_minimum_loop (ws : list Z) (i : Z) : Z :=
  match ws with
  | [] => 2 ^ 16 - 1
  | w :: ws => if w =? 0 then bitset_minimum_loop ws (i + 1) else u16 (ctz w + i * 64)
  end.

Definition bitset_container_minimum (b : bitset_container_t) : Z :=
  bitset_minimum_loop (bc_array b) 0.

(** [for(i = WORDS - 1; i > 0; --i)]: word 0 is not looked at. *)
Fixpoint bitset_maximum_loop (n : nat) (ws : list Z) : option Z :=
  match n with
  | O => Some 0
  | S n' =>
    w ← ws !! n;
    if w =? 0 then bitset_maximum_loop n' ws
    else Some (u16 (Z.of_nat n * 64 + 63 - clz w))
  end.

Definition bitset_container_maximum (b : bitset_container_t) : option Z :=
  bitset_maximum_loop (Z.to_nat (BITSET_CONTAINER_SIZE_IN_WORDS - 1)) (bc_array b).

Definition bitset_container_rank (b : bitset_container_t) (x : Z) : option Z :=
  sum ← sum_words (Z.to_nat (x / 64)) (bc_array b) 0 0;
  lastword ← rd (bc_array b) (x / 64);
  let lastpos := shl64 1 (x mod 64) in
  let mask := u64 (lastpos + lastpos - 1) in
  Some (sum + hamming (Z.land lastword mask)).

(** [while(word == 0) { k++; if(k == WORDS) return -1; word = array[k]; }] *)
Fixpoint index_loop (fuel : nat) (ws : list Z) (k word : Z) : option Z :=
  match fuel with
  | O => None
  | S fuel =>
    if word =? 0 then
      if k + 1 =? BITSET_CONTAINER_SIZE_IN_WORDS then Some (-1)
      else word ← rd ws (k + 1); index_loop fuel ws (k + 1) word
    else Some (k * 64 + ctz word)
  end.

Definition bitset_container_index_equalorlarger (b : bitset_container_t) (x : Z) : option Z :=
  let k := x / 64 in
  word ← rd (bc_array b) k;
  let diff := x - k * 64 in
  index_loop (Z.to_nat BITSET_CONTAINER_SIZE_IN_WORDS) (bc_array b) k (shl64 (shr64 word diff) diff).
