(* ===== verification/RoaringBitsetFacts.v ===== *)
(** * Roaring bitmaps: what the bitset functions compute

    The abstract value of a list of words is [elems], the sorted list of the
    positions of its set bits; every function of [RoaringBitset] is related
    to it: popcounts to its length, decoding to the list itself, the range
    and list updates and the word-wise operations to the change of its
    members. *)

From stdpp Require Import base list list_numbers numbers option sorting.
From Stdlib Require Import ZArith Lia ZifyBool.
From S2P Require Import Prelude.
From S2P Require Import RoaringArrays.
From S2P Require Import RoaringArrayContainer.
From S2P Require Import RoaringArrayFacts.
From S2P Require Import RoaringBitset.

Local Open Scope Z_scope.

Definition bit (ws : list Z) (x : Z) : bool :=
  match rd ws (x / 64) with
  | Some w => Z.testbit w (x mod 64)
  | None => false
  end.

Definition elems (ws : list Z) : list Z :=
  filter (fun x => bit ws x = true) (seqZ 0 (64 * zlen ws)).

Definition words_ok (ws : list Z) : Prop := Forall (in_u 64) ws.

(** ** Sorted ranges *)

Lemma strict_shift k (a : list Z) : strict a -> strict ((fun x => k + x) <$> a).
Proof. apply (StronglySorted_fmap _ Z.lt). lia. Qed.

Lemma zlen_fmap {A B} (f : A -> B) (a : list A) : zlen (f <$> a) = zlen a.
Proof. unfold zlen. by rewrite length_fmap. Qed.

Lemma elem_of_shift k (a : list Z) x : x ∈ (fun y => k + y) <$> a <-> x - k ∈ a.
Proof.
  rewrite list_elem_of_fmap. split.
  - intros (y & -> & Hy). by replace (k + y - k) with y by lia.
  - intros H. exists (x - k). split; [lia | done].
Qed.

Lemma elem_of_elems ws x : x ∈ elems ws <-> 0 <= x < 64 * zlen ws /\ bit ws x = true.
Proof.
  unfold elems. rewrite list_elem_of_filter, elem_of_seqZ. split; intros [? ?]; split; auto; lia.
Qed.

Lemma bit_range ws x : bit ws x = true -> 0 <= x < 64 * zlen ws.
Proof.
  unfold bit. destruct (rd ws (x / 64)) eqn:E; [| done]. apply rd_bound in E.
  intros _. Z.to_euclidean_division_equations. lia.
Qed.

(** [x] is an element exactly when its bit is set. *)
Lemma elems_bit ws x : x ∈ elems ws <-> bit ws x = true.
Proof. rewrite elem_of_elems. pose proof (bit_range ws x). tauto. Qed.

Lemma elems_strict ws : strict (elems ws).
Proof. apply strict_filter, seqZ_strict. Qed.

Lemma elem_of_word_bits w i : i ∈ word_bits w <-> 0 <= i < 64 /\ Z.testbit w i = true.
Proof.
  unfold word_bits. rewrite list_elem_of_filter, elem_of_seqZ. split; intros [? ?]; split; auto; lia.
Qed.

Lemma word_bits_strict w : strict (word_bits w).
Proof. apply strict_filter, seqZ_strict. Qed.

Lemma rd_cons {A} (x : A) l i : rd (x :: l) i = if i =? 0 then Some x else rd l (i - 1).
Proof.
  unfold rd. destruct (Z.eqb_spec i 0) as [-> | Hne]; [done |].
  destruct (Z.leb_spec 0 i).
  - rewrite (proj2 (Z.leb_le 0 (i - 1))) by lia.
    replace (Z.to_nat i) with (S (Z.to_nat (i - 1))) by lia. done.
  - by rewrite (proj2 (Z.leb_gt 0 (i - 1))) by lia.
Qed.

Lemma bit_cons w ws x : 0 <= x ->
  bit (w :: ws) x = if x <? 64 then Z.testbit w x else bit ws (x - 64).
Proof.
  intros Hx. unfold bit. rewrite rd_cons. destruct (Z.ltb_spec x 64).
  - rewrite Z.div_small, Z.mod_small by lia. done.
  - replace ((x - 64) / 64) with (x / 64 - 1) by (Z.to_euclidean_division_equations; lia).
    replace ((x - 64) mod 64) with (x mod 64) by (Z.to_euclidean_division_equations; lia).
    destruct (Z.eqb_spec (x / 64) 0); [| done].
    exfalso. Z.to_euclidean_division_equations. lia.
Qed.

Lemma elems_cons w ws : elems (w :: ws) = word_bits w ++ ((fun x => 64 + x) <$> elems ws).
Proof.
  apply strict_ext; [apply elems_strict | |].
  - apply StronglySorted_app_2; [| apply word_bits_strict | apply strict_shift, elems_strict].
    intros x y Hx%elem_of_word_bits Hy. apply elem_of_shift, elem_of_elems in Hy. lia.
  - intros x. rewrite elem_of_app, elem_of_shift, elem_of_word_bits, !elem_of_elems, zlen_cons.
    pose proof (zlen_nonneg ws). split.
    + intros [Hx Hb]. rewrite bit_cons in Hb by lia. destruct (Z.ltb_spec x 64).
      * left. split; [lia | done].
      * right. split; [lia | done].
    + intros [[Hx Hb] | [Hx Hb]].
      * split; [lia |]. rewrite bit_cons by lia. by rewrite (proj2 (Z.ltb_lt x 64)) by lia.
      * split; [lia |]. rewrite bit_cons by lia. by rewrite (proj2 (Z.ltb_ge x 64)) by lia.
Qed.

(** ** Counting *)

Definition popcount (ws : list Z) : Z := zlen (elems ws).

Lemma popcount_nil : popcount [] = 0.
Proof. done. Qed.

Lemma popcount_cons w ws : popcount (w :: ws) = hamming w + popcount ws.
Proof. unfold popcount, hamming. by rewrite elems_cons, zlen_app, zlen_fmap. Qed.

Lemma popcount_range ws : 0 <= popcount ws <= 64 * zlen ws.
Proof.
  unfold popcount, elems. split; [apply zlen_nonneg |].
  pose proof (zlen_nonneg ws).
  pose proof (length_filter (fun x => bit ws x = true) (seqZ 0 (64 * zlen ws))) as H1.
  unfold zlen at 1. rewrite length_seqZ in H1. lia.
Qed.

Lemma hamming_range w : 0 <= hamming w <= 64.
Proof.
  unfold hamming, word_bits. split; [apply zlen_nonneg |].
  pose proof (length_filter (fun i => Z.testbit w i = true) (seqZ 0 64)) as H1.
  unfold zlen. rewrite length_seqZ in H1. lia.
Qed.

Lemma compute_cardinality_loop_spec ws sum n : (length ws = 4 * n)%nat ->
  compute_cardinality_loop ws sum = Some (sum + popcount ws).
Proof.
  revert ws sum. induction n as [|n IH]; intros ws sum Hn.
  - destruct ws; [| simpl in Hn; lia]. simpl. f_equal. rewrite popcount_nil. lia.
  - destruct ws as [|w0 [|w1 [|w2 [|w3 ws]]]]; simpl in Hn; try lia.
    cbn [compute_cardinality_loop]. rewrite IH by lia. rewrite !popcount_cons. f_equal. lia.
Qed.

Lemma sum_words_spec n ws i a : 0 <= i -> i + Z.of_nat n <= zlen ws ->
  sum_words n ws i a = Some (a + popcount (take n (drop (Z.to_nat i) ws))).
Proof.
  revert i a. induction n as [|n IH]; intros i a Hi Hn.
  - cbn [sum_words]. rewrite take_0, popcount_nil. f_equal; lia.
  - cbn [sum_words]. destruct (rd_Some ws i) as [w Hw]; [lia |]. rewrite Hw. cbn [mbind option_bind].
    rewrite IH by lia. unfold rd in Hw. rewrite (proj2 (Z.leb_le 0 i)) in Hw by lia.
    rewrite (drop_S _ _ _ Hw), firstn_cons, popcount_cons.
    replace (Z.to_nat (i + 1)) with (S (Z.to_nat i)) by lia. f_equal. lia.
Qed.

(** ** Bits of words *)

Lemma testbit_ones64 n : 0 <= n -> Z.testbit ones64 n = (n <? 64).
Proof.
  intros H. unfold ones64.
  replace (2 ^ 64 - 1) with (Z.ones 64) by done. by rewrite Z.testbit_ones_nonneg by lia.
Qed.

Lemma testbit_u64 w n : 0 <= n -> Z.testbit (u64 w) n = Z.testbit w n && (n <? 64).
Proof.
  intros H. unfold u64, uwrap. destruct (Z.ltb_spec n 64).
  - rewrite Z.mod_pow2_bits_low by lia. by rewrite andb_true_r.
  - rewrite Z.mod_pow2_bits_high by lia. by rewrite andb_false_r.
Qed.

Lemma testbit_not64 w n : 0 <= n < 64 -> Z.testbit (not64 w) n = negb (Z.testbit w n).
Proof.
  intros H. unfold not64. rewrite testbit_u64, Z.lnot_spec by lia.
  rewrite (proj2 (Z.ltb_lt n 64)) by lia. by rewrite andb_true_r.
Qed.

Lemma testbit_shl64 w k n : 0 <= k -> 0 <= n < 64 ->
  Z.testbit (shl64 w k) n = (k <=? n) && Z.testbit w (n - k).
Proof.
  intros Hk H. unfold shl64. rewrite testbit_u64, Z.shiftl_spec by lia.
  rewrite (proj2 (Z.ltb_lt n 64)), andb_true_r by lia. destruct (Z.leb_spec k n); [done |].
  by rewrite Z.testbit_neg_r by lia.
Qed.

Lemma testbit_hi k n : 0 <= k -> 0 <= n < 64 -> Z.testbit (shl64 ones64 k) n = (k <=? n).
Proof.
  intros Hk H. rewrite testbit_shl64 by lia. destruct (Z.leb_spec k n); [| done].
  rewrite testbit_ones64 by lia. apply Z.ltb_lt. lia.
Qed.

Lemma testbit_lo k n : 0 <= k -> 0 <= n -> Z.testbit (shr64 ones64 k) n = (n <? 64 - k).
Proof.
  intros Hk H. unfold shr64. rewrite Z.shiftr_spec, testbit_ones64 by lia.
  destruct (Z.ltb_spec (n + k) 64), (Z.ltb_spec n (64 - k)); lia || done.
Qed.

Lemma testbit_one k n : 0 <= k -> 0 <= n < 64 -> Z.testbit (shl64 1 k) n = (n =? k).
Proof.
  intros Hk H. unfold shl64. rewrite testbit_u64, Z.shiftl_1_l, Z.pow2_bits_eqb by lia.
  rewrite (proj2 (Z.ltb_lt n 64)), andb_true_r by lia. apply Z.eqb_sym.
Qed.

Create Rewrite HintDb bits.
#[export] Hint Rewrite Z.land_spec Z.lor_spec Z.lxor_spec : bits.
#[export] Hint Rewrite testbit_not64 testbit_hi testbit_lo testbit_one testbit_shl64
  using lia : bits.

(** ** Writing words *)

Lemma wr_Some ws i v : 0 <= i < zlen ws -> wr ws i v = Some (<[Z.to_nat i := v]> ws).
Proof.
  intros H. unfold wr. by rewrite (proj2 (Z.leb_le 0 i)), (proj2 (Z.ltb_lt i (zlen ws))) by lia.
Qed.

Lemma rd_insert (ws : list Z) i v j : 0 <= i < zlen ws -> 
  rd (<[Z.to_nat i := v]> ws) j = if j =? i then Some v else rd ws j.
Proof.
  intros Hi. unfold rd, zlen in *. destruct (Z.leb_spec 0 j) as [Hj | Hj].
  - destruct (Z.eqb_spec j i) as [-> | Hne].
    + rewrite list_lookup_insert_eq; [done | lia].
    + rewrite list_lookup_insert_ne; [done | lia].
  - by rewrite (proj2 (Z.eqb_neq j i)) by lia.
Qed.

Lemma zlen_insert (ws : list Z) i v : zlen (<[i := v]> ws) = zlen ws.
Proof. unfold zlen. by rewrite length_insert. Qed.

Lemma bit_insert ws i v x : 0 <= i < zlen ws ->
  bit (<[Z.to_nat i := v]> ws) x = if x / 64 =? i then Z.testbit v (x mod 64) else bit ws x.
Proof. intros Hi. unfold bit. rewrite rd_insert by done. by destruct (_ =? _). Qed.

Lemma words_ok_rd ws i w : words_ok ws -> rd ws i = Some w -> in_u 64 w.
Proof. intros H Hr%rd_elem. unfold words_ok in H. rewrite Forall_forall in H. auto. Qed.

Lemma words_ok_insert ws i v : words_ok ws -> in_u 64 v -> words_ok (<[i := v]> ws).
Proof. intros. by apply Forall_insert. Qed.

Lemma map_words_spec n ws i f : words_ok ws -> (forall w, in_u 64 w -> in_u 64 (f w)) ->
  0 <= i -> i + Z.of_nat n <= zlen ws ->
  exists ws', map_words n ws i f = Some ws' /\ zlen ws' = zlen ws /\ words_ok ws' /\
    forall j, rd ws' j = if (i <=? j) && (j <? i + Z.of_nat n) then f <$> rd ws j else rd ws j.
Proof.
  revert ws i. induction n as [|n IH]; intros ws i Hok Hf Hi Hn.
  - exists ws. split; [done | split; [done | split; [done |]]]. intros j.
    destruct (Z.leb_spec i j), (Z.ltb_spec j (i + Z.of_nat 0)); try done; lia.
  - cbn [map_words]. destruct (rd_Some ws i) as [w Hw]; [lia |]. rewrite Hw. cbn [mbind option_bind].
    rewrite wr_Some by lia. cbn [mbind option_bind].
    destruct (IH (<[Z.to_nat i := f w]> ws) (i + 1)) as (ws' & -> & Hl & Hok' & Hr).
    + apply words_ok_insert; [done |]. apply Hf. by eapply words_ok_rd.
    + done.
    + lia.
    + rewrite zlen_insert. lia.
    + exists ws'. rewrite zlen_insert in Hl. split; [done | split; [done | split; [done |]]].
      intros j. rewrite Hr, !rd_insert by lia.
      destruct (Z.eqb_spec j i) as [-> | Hne].
      * destruct (Z.leb_spec (i + 1) i); [lia |]. destruct (Z.leb_spec i i); [| lia].
        destruct (Z.ltb_spec i (i + Z.of_nat (S n))); [| lia]. cbn [andb]. by rewrite Hw.
      * destruct (Z.leb_spec (i + 1) j), (Z.leb_spec i j); try lia; [| done].
        destruct (Z.ltb_spec j (i + 1 + Z.of_nat n)), (Z.ltb_spec j (i + Z.of_nat (S n))); try done; lia.
Qed.

(** ** Bit ranges *)

(** A function that turns [ws] into [ws'] with the bits [f]. *)
Definition sets_bits (ws : list Z) (o : option (list Z)) (f : Z -> bool) : Prop :=
  exists ws', o = Some ws' /\ zlen ws' = zlen ws /\ words_ok ws' /\
    forall x, 0 <= x < 64 * zlen ws -> bit ws' x = f x.

Lemma in_u64_ones : in_u 64 ones64.
Proof. split; unfold ones64; lia. Qed.

Lemma in_u64_shl w k : in_u 64 (shl64 w k).
Proof. apply uwrap_range. lia. Qed.

Lemma in_u64_not w : in_u 64 (not64 w).
Proof. apply uwrap_range. lia. Qed.

Lemma in_u64_shr w k : 0 <= k -> in_u 64 w -> in_u 64 (shr64 w k).
Proof. intros. by apply in_u_shiftr. Qed.

Lemma in_u_nonneg w x : in_u w x -> 0 <= x.
Proof. by intros []. Qed.

#[export] Hint Resolve in_u64_ones in_u64_shl in_u64_not : azz.

Ltac u64 :=
  repeat first
    [ apply in_u64_ones | apply in_u64_shl | apply in_u64_not
    | apply in_u64_shr; [Z.to_euclidean_division_equations; lia |]
    | apply in_u_lor; [lia | |] | apply in_u_lxor; [lia | |]
    | apply in_u_land; [lia | | eapply in_u_nonneg]
    | eassumption | eapply words_ok_rd; eassumption ].

Lemma neg32_mod x : neg32 x mod 64 = (- x) mod 64.
Proof.
  unfold neg32, u32, uwrap, Z.lnot. rewrite Zplus_mod_idemp_l.
  replace (Z.pred (- x) + 1) with (- x) by lia.
  change (2 ^ 32) with (64 * 2 ^ 26). rewrite Z.rem_mul_r by lia.
  rewrite (Z.mul_comm 64), Z.mod_add, Z.mod_mod by lia. done.
Qed.

(** A bit of a word that was read. *)
Lemma bit_rd ws x w : rd ws (x / 64) = Some w -> bit ws x = Z.testbit w (x mod 64).
Proof. intros H. unfold bit. by rewrite H. Qed.

Ltac div64 := Z.to_euclidean_division_equations; lia.

(** The shape the range updates share: a first word, the words between, a
    last word. *)
Lemma three_parts ws i j v f g : words_ok ws -> 0 <= i < j -> j < zlen ws ->
  in_u 64 v -> (forall w, in_u 64 w -> in_u 64 (f w)) -> (forall w, in_u 64 w -> in_u 64 (g w)) ->
  exists ws', (ws ← wr ws i v; ws ← map_range ws (i + 1) j f; w ← rd ws j; wr ws j (g w)) = Some ws' /\
    zlen ws' = zlen ws /\ words_ok ws' /\
    forall k, rd ws' k = if k =? i then Some v else if k =? j then g <$> rd ws j
                    else if (i <? k) && (k <? j) then f <$> rd ws k else rd ws k.
Proof.
  intros Hok Hij Hj Hv Hf Hg. rewrite wr_Some by lia. cbn [mbind option_bind]. unfold map_range.
  destruct (map_words_spec (Z.to_nat (j - (i + 1))) (<[Z.to_nat i := v]> ws) (i + 1) f)
    as (ws' & -> & Hl & Hok' & Hrd); [by apply words_ok_insert | done | lia | rewrite zlen_insert; lia |].
  rewrite zlen_insert in Hl. cbn [mbind option_bind].
  destruct (rd_Some ws j) as [w Hw]; [lia |].
  assert (rd ws' j = Some w) as Hw'.
  { rewrite Hrd, rd_insert by lia. replace ((i + 1 <=? j) && _) with false by lia.
    by replace (j =? i) with false by lia. }
  rewrite Hw', Hw. cbn [mbind option_bind]. rewrite wr_Some by lia. eexists. split; [done |].
  rewrite zlen_insert. split; [done |]. split.
  { apply words_ok_insert; [done |]. apply Hg. by eapply words_ok_rd. }
  intros k. rewrite rd_insert, Hrd, rd_insert by lia.
  destruct (Z.eqb_spec k j), (Z.eqb_spec k i); try lia; try done; subst.
  - replace ((i + 1 <=? i) && _) with false by lia. done.
  - replace ((i + 1 <=? k) && (k <? i + 1 + Z.of_nat (Z.to_nat (j - (i + 1)))))
      with ((i <? k) && (k <? j)) by lia. done.
Qed.

(** The words of a result, bit by bit. *)
Lemma bit_of_rd ws' x w : rd ws' (x / 64) = Some w -> bit ws' x = Z.testbit w (x mod 64).
Proof. apply bit_rd. Qed.

Ltac rd_word ws x w Hw := destruct (rd_Some ws (x / 64)) as [w Hw]; [div64 |].

Lemma bitset_set_range_spec ws s e : words_ok ws -> 0 <= s <= e -> e <= 64 * zlen ws ->
  sets_bits ws (bitset_set_range ws s e) (fun x => bit ws x || ((s <=? x) && (x <? e))).
Proof.
  intros Hok Hse He. unfold bitset_set_range. destruct (Z.eqb_spec s e) as [-> | Hne].
  { exists ws. split; [done | split; [done | split; [done |]]]. intros x _. lia. }
  rewrite neg32_mod.
  assert (0 <= s / 64 <= (e - 1) / 64 /\ (e - 1) / 64 < zlen ws) as Hr by div64.
  destruct (rd_Some ws (s / 64)) as [w Hw]; [lia |]. rewrite Hw. cbn [mbind option_bind].
  destruct (Z.eqb_spec (s / 64) ((e - 1) / 64)) as [Hsame | Hdiff].
  - rewrite wr_Some by lia. eexists. split; [done |]. rewrite zlen_insert. split; [done |].
    split; [apply words_ok_insert; [done | u64] |]. intros x Hx. rewrite bit_insert by lia.
    destruct (Z.eqb_spec (x / 64) (s / 64)) as [Hq | Hq].
    + rewrite <- Hq in Hw. rewrite (bit_rd ws x w Hw).
      rewrite Z.lor_spec, Z.land_spec, testbit_hi, testbit_lo by div64. f_equal. div64.
    + generalize (bit ws x). intros b. div64.
  - destruct (three_parts ws (s / 64) ((e - 1) / 64) (Z.lor w (shl64 ones64 (s mod 64)))
      (fun _ => ones64) (fun w => Z.lor w (shr64 ones64 ((- e) mod 64))))
      as (ws' & Hws & Hl & Hok' & Hrd); [done | lia | lia | u64 | auto with azz | intros; u64 |].
    exists ws'. split; [exact Hws | split; [done | split; [done |]]]. intros x Hx.
    rd_word ws x w3 Hw3. rewrite (bit_rd ws x w3 Hw3).
    unfold bit. rewrite Hrd. destruct (Z.eqb_spec (x / 64) (s / 64)) as [Hq | Hq].
    + rewrite <- Hq, Hw3 in Hw. injection Hw as ->. rewrite Z.lor_spec, testbit_hi by div64.
      f_equal. div64.
    + destruct (Z.eqb_spec (x / 64) ((e - 1) / 64)) as [Hq2 | Hq2].
      * rewrite <- Hq2, Hw3. cbn. rewrite Z.lor_spec, testbit_lo by div64. f_equal. div64.
      * rewrite Hw3. destruct ((s / 64 <? x / 64) && _) eqn:Eb; cbn [fmap option_fmap option_map];
          rewrite ?testbit_ones64 by div64; generalize (Z.testbit w3 (x mod 64)); intros b; div64.
Qed.

Lemma bitset_reset_range_spec ws s e : words_ok ws -> 0 <= s <= e -> e <= 64 * zlen ws ->
  sets_bits ws (bitset_reset_range ws s e) (fun x => bit ws x && negb ((s <=? x) && (x <? e))).
Proof.
  intros Hok Hse He. unfold bitset_reset_range. destruct (Z.eqb_spec s e) as [-> | Hne].
  { exists ws. split; [done | split; [done | split; [done |]]]. intros x _.
    generalize (bit ws x). lia. }
  rewrite neg32_mod.
  assert (0 <= s / 64 <= (e - 1) / 64 /\ (e - 1) / 64 < zlen ws) as Hr by div64.
  destruct (rd_Some ws (s / 64)) as [w Hw]; [lia |]. rewrite Hw. cbn [mbind option_bind].
  destruct (Z.eqb_spec (s / 64) ((e - 1) / 64)) as [Hsame | Hdiff].
  - rewrite wr_Some by lia. eexists. split; [done |]. rewrite zlen_insert. split; [done |].
    split; [apply words_ok_insert; [done | u64] |]. intros x Hx. rewrite bit_insert by lia.
    destruct (Z.eqb_spec (x / 64) (s / 64)) as [Hq | Hq].
    + rewrite <- Hq in Hw. rewrite (bit_rd ws x w Hw).
      rewrite Z.land_spec, testbit_not64, Z.land_spec, testbit_hi, testbit_lo by div64.
      f_equal. div64.
    + generalize (bit ws x). intros b. div64.
  - destruct (three_parts ws (s / 64) ((e - 1) / 64) (Z.land w (not64 (shl64 ones64 (s mod 64))))
      (fun _ => 0) (fun w => Z.land w (not64 (shr64 ones64 ((- e) mod 64)))))
      as (ws' & Hws & Hl & Hok' & Hrd); [done | lia | lia | u64 | by split | intros; u64 |].
    exists ws'. split; [exact Hws | split; [done | split; [done |]]]. intros x Hx.
    rd_word ws x w3 Hw3. rewrite (bit_rd ws x w3 Hw3).
    unfold bit. rewrite Hrd. destruct (Z.eqb_spec (x / 64) (s / 64)) as [Hq | Hq].
    + rewrite <- Hq, Hw3 in Hw. injection Hw as ->.
      rewrite Z.land_spec, testbit_not64, testbit_hi by div64. f_equal. div64.
    + destruct (Z.eqb_spec (x / 64) ((e - 1) / 64)) as [Hq2 | Hq2].
      * rewrite <- Hq2, Hw3. cbn. rewrite Z.land_spec, testbit_not64, testbit_lo by div64.
        f_equal. div64.
      * rewrite Hw3. destruct ((s / 64 <? x / 64) && _) eqn:Eb; cbn [fmap option_fmap option_map];
          rewrite ?Z.bits_0; generalize (Z.testbit w3 (x mod 64)); intros b; div64.
Qed.

Lemma bitset_flip_range_spec ws s e : words_ok ws -> 0 <= s <= e -> e <= 64 * zlen ws ->
  sets_bits ws (bitset_flip_range ws s e) (fun x => xorb (bit ws x) ((s <=? x) && (x <? e))).
Proof.
  intros Hok Hse He. unfold bitset_flip_range. destruct (Z.eqb_spec s e) as [-> | Hne].
  { exists ws. split; [done | split; [done | split; [done |]]]. intros x _.
    replace ((e <=? x) && (x <? e)) with false by lia. by rewrite xorb_false_r. }
  rewrite neg32_mod.
  assert (0 <= s / 64 <= (e - 1) / 64 /\ (e - 1) / 64 < zlen ws) as Hr by div64.
  destruct (rd_Some ws (s / 64)) as [w Hw]; [lia |]. rewrite Hw. cbn [mbind option_bind].
  rewrite wr_Some by lia. cbn [mbind option_bind]. unfold map_range.
  set (v := Z.lxor w _). assert (in_u 64 v) as Hv by (subst v; u64).
  destruct (map_words_spec (Z.to_nat ((e - 1) / 64 - s / 64)) (<[Z.to_nat (s / 64) := v]> ws)
    (s / 64) not64) as (ws' & -> & Hl & Hok' & Hrd);
    [by apply words_ok_insert | auto with azz | lia | rewrite zlen_insert; lia |].
  rewrite zlen_insert in Hl. cbn [mbind option_bind].
  destruct (rd_Some ws' ((e - 1) / 64)) as [w2 Hw2]; [lia |]. rewrite Hw2. cbn [mbind option_bind].
  rewrite wr_Some by lia. eexists. split; [done |]. rewrite zlen_insert. split; [done |].
  split; [apply words_ok_insert; [done | u64] |]. intros x Hx. rewrite bit_insert by lia.
  rd_word ws x w3 Hw3. rewrite (bit_rd ws x w3 Hw3).
  assert (bit ws' x = xorb (Z.testbit w3 (x mod 64))
    ((s <=? x) && (x / 64 <? (e - 1) / 64) || (x / 64 =? (e - 1) / 64) && (x / 64 =? s / 64) && (x <? s))) as Hbit.
  { unfold bit. rewrite Hrd, rd_insert by lia. destruct (Z.eqb_spec (x / 64) (s / 64)) as [Hq | Hq].
    - rewrite <- Hq, Hw3 in Hw. injection Hw as <-.
      assert (Z.testbit v (x mod 64) = xorb (Z.testbit w3 (x mod 64)) (x <? s)) as Hvb.
      { subst v. rewrite Z.lxor_spec, testbit_not64, testbit_hi by div64. f_equal. div64. }
      destruct ((s / 64 <=? x / 64) && _) eqn:Eb; cbn [fmap option_fmap option_map].
      + rewrite testbit_not64, Hvb by div64. destruct (Z.testbit w3 (x mod 64)); div64.
      + rewrite Hvb. f_equal. div64.
    - rewrite Hw3. destruct ((s / 64 <=? x / 64) && _) eqn:Eb; cbn [fmap option_fmap option_map].
      + rewrite testbit_not64 by div64. destruct (Z.testbit w3 (x mod 64)); div64.
      + transitivity (xorb (Z.testbit w3 (x mod 64)) false); [by rewrite xorb_false_r |]. f_equal. div64. }
  destruct (Z.eqb_spec (x / 64) ((e - 1) / 64)) as [Hq | Hq].
  - rewrite <- Hq in Hw2. rewrite Z.lxor_spec, <- (bit_rd ws' x w2 Hw2), Hbit, testbit_lo by div64.
    destruct (Z.testbit w3 (x mod 64)); div64.
  - rewrite Hbit. f_equal. div64.
Qed.

(** ** Counting in a range *)

(** Elements inside one word: those of the masked word. *)
Lemma count_in_word ws i w m p q : rd ws i = Some w -> 0 <= p -> q <= 64 ->
  (forall n, 0 <= n < 64 -> Z.testbit m n = (p <=? n) && (n <? q) && Z.testbit w n) ->
  count_in (elems ws) (64 * i + p) (64 * i + q) = hamming m.
Proof.
  intros Hw Hp Hq Hm. pose proof (rd_bound _ _ _ Hw) as Hi. unfold count_in, hamming.
  rewrite <- (zlen_fmap (fun n => 64 * i + n) (word_bits m)). f_equal. apply strict_ext.
  - apply strict_filter, elems_strict.
  - apply strict_shift, word_bits_strict.
  - intros x. rewrite list_elem_of_filter, elem_of_shift, elem_of_word_bits, elems_bit.
    destruct (decide (64 * i <= x < 64 * i + 64)) as [Hx | Hx].
    + assert (x / 64 = i /\ x mod 64 = x - 64 * i) as [E1 E2] by div64.
      unfold bit. rewrite E1, Hw, E2, Hm by lia. generalize (Z.testbit w (x - 64 * i)). lia.
    + split; [lia |]. intros [? ?]. lia.
Qed.

Lemma sum_words_count n ws i a : 0 <= i -> i + Z.of_nat n <= zlen ws ->
  sum_words n ws i a = Some (a + count_in (elems ws) (64 * i) (64 * (i + Z.of_nat n))).
Proof.
  revert i a. induction n as [|n IH]; intros i a Hi Hn.
  - cbn [sum_words]. f_equal. rewrite count_in_lb by lia. replace (i + Z.of_nat 0) with i by lia. lia.
  - cbn [sum_words]. destruct (rd_Some ws i) as [w Hw]; [lia |]. rewrite Hw. cbn [mbind option_bind].
    rewrite IH by lia. f_equal.
    rewrite <- (count_in_split _ (64 * i) (64 * (i + 1)) (64 * (i + Z.of_nat (S n)))) by lia.
    assert (count_in (elems ws) (64 * i) (64 * (i + 1)) = hamming w) as ->.
    { rewrite <- (count_in_word ws i w w 0 64 Hw); [f_equal; lia | lia | lia |].
      intros k Hk. generalize (Z.testbit w k). lia. }
    replace (i + 1 + Z.of_nat n) with (i + Z.of_nat (S n)) by lia. lia.
Qed.

Lemma len_shift_eq len : len_shift len = (63 - len) mod 64.
Proof.
  unfold len_shift, u32, uwrap. change (2 ^ 32) with (64 * 2 ^ 26).
  rewrite Z.rem_mul_r by lia. rewrite (Z.mul_comm 64), Z.mod_add, Z.mod_mod by lia. done.
Qed.

Lemma end_shift_eq s len : end_shift s len = (- (s + len + 1)) mod 64.
Proof.
  unfold end_shift, neg32, u32, uwrap, Z.lnot. rewrite Zplus_mod_idemp_l.
  rewrite <- Z.sub_add_distr, Zminus_mod_idemp_l.
  change (2 ^ 32) with (64 * 2 ^ 26).
  rewrite Z.rem_mul_r by lia. rewrite (Z.mul_comm 64), Z.mod_add, Z.mod_mod by lia.
  f_equal. lia.
Qed.

(** The mask of a range inside one word. *)
Lemma testbit_lenmask s len n : 0 <= len -> s / 64 = (s + len) / 64 -> 0 <= n < 64 ->
  Z.testbit (shl64 (shr64 ones64 ((63 - len) mod 64)) (s mod 64)) n =
    (s mod 64 <=? n) && (n <=? s mod 64 + len).
Proof.
  intros Hl Hs Hn. rewrite testbit_shl64 by div64.
  destruct (Z.leb_spec (s mod 64) n); [| done]. cbn [andb]. rewrite testbit_lo by div64. div64.
Qed.

Lemma bitset_lenrange_cardinality_spec ws s len : words_ok ws -> 0 <= s -> 0 <= len ->
  s + len < 64 * zlen ws ->
  bitset_lenrange_cardinality ws s len = Some (count_in (elems ws) s (s + len + 1)).
Proof.
  intros Hok Hs Hlen Hr. unfold bitset_lenrange_cardinality. rewrite len_shift_eq, end_shift_eq.
  assert (0 <= s / 64 <= (s + len) / 64 /\ (s + len) / 64 < zlen ws) as Hq by div64.
  destruct (rd_Some ws (s / 64)) as [w Hw]; [lia |]. rewrite Hw. cbn [mbind option_bind].
  destruct (Z.eqb_spec (s / 64) ((s + len) / 64)) as [Hsame | Hdiff].
  - f_equal. rewrite <- (count_in_word ws (s / 64) w _ (s mod 64) (s mod 64 + len + 1)).
    + f_equal; div64.
    + done.
    + div64.
    + div64.
    + intros n Hn. rewrite Z.land_spec, testbit_lenmask by (done || lia).
      generalize (Z.testbit w n). lia.
  - rewrite sum_words_count by lia. cbn [mbind option_bind].
    destruct (rd_Some ws ((s + len) / 64)) as [w2 Hw2]; [lia |]. rewrite Hw2. cbn [mbind option_bind].
    f_equal.
    rewrite <- (count_in_split _ s (64 * (s / 64) + 64) (s + len + 1)) by div64.
    rewrite <- (count_in_split _ (64 * (s / 64) + 64) (64 * ((s + len) / 64)) (s + len + 1)) by div64.
    rewrite Z.add_assoc. f_equal; [f_equal |].
    + rewrite <- (count_in_word ws (s / 64) w _ (s mod 64) 64 Hw); [f_equal; div64 | div64 | lia |].
      intros n Hn. rewrite Z.land_spec, testbit_hi by div64. generalize (Z.testbit w n). lia.
    + f_equal; lia.
    + rewrite <- (count_in_word ws ((s + len) / 64) w2 _ 0 ((s + len) mod 64 + 1) Hw2);
        [f_equal; div64 | lia | div64 |].
      intros n Hn. rewrite Z.land_spec, testbit_lo by div64. generalize (Z.testbit w2 n).
      intros b. div64.
Qed.

(** ** Emptiness of a range *)

Lemma word_eq0 w : in_u 64 w -> (w =? 0) = (hamming w =? 0).
Proof.
  intros [H0 H1]. apply Bool.eq_true_iff_eq. rewrite !Z.eqb_eq. split; [by intros -> |].
  intros Hh. apply Z.bits_inj'. intros n Hn. rewrite Z.bits_0.
  destruct (Z.testbit w n) eqn:E; [| done]. exfalso.
  assert (n < 64) as Hlt.
  { destruct (decide (n < 64)); [done |]. rewrite Z.bits_above_log2 in E; [done | lia |].
    destruct (decide (w = 0)) as [-> | Hw0]; [rewrite Z.bits_0 in E; done |].
    pose proof (Z.log2_lt_pow2 w 64 ltac:(lia)). lia. }
  assert (n ∈ word_bits w) as Hin by (apply elem_of_word_bits; split; [lia | done]).
  unfold hamming in Hh. destruct (word_bits w) as [|y l] eqn:Eb; [by apply not_elem_of_nil in Hin |].
  rewrite zlen_cons in Hh. pose proof (zlen_nonneg l). lia.
Qed.

Lemma all_zero_count n ws i : words_ok ws -> 0 <= i -> i + Z.of_nat n <= zlen ws ->
  all_zero n ws i = Some (count_in (elems ws) (64 * i) (64 * (i + Z.of_nat n)) =? 0).
Proof.
  intros Hok. revert i. induction n as [|n IH]; intros i Hi Hn.
  - cbn [all_zero]. f_equal. rewrite count_in_lb by lia. replace (i + Z.of_nat 0) with i by lia. lia.
  - cbn [all_zero]. destruct (rd_Some ws i) as [w Hw]; [lia |]. rewrite Hw. cbn [mbind option_bind].
    rewrite <- (count_in_split _ (64 * i) (64 * (i + 1)) (64 * (i + Z.of_nat (S n)))) by lia.
    assert (count_in (elems ws) (64 * i) (64 * (i + 1)) = hamming w) as ->.
    { rewrite <- (count_in_word ws i w w 0 64 Hw); [f_equal; lia | lia | lia |].
      intros k Hk. generalize (Z.testbit w k). lia. }
    rewrite word_eq0 by (by eapply words_ok_rd). rewrite IH by lia.
    replace (i + 1 + Z.of_nat n) with (i + Z.of_nat (S n)) by lia.
    pose proof (hamming_range w).
    pose proof (count_in_nonneg (elems ws) (64 * (i + 1)) (64 * (i + Z.of_nat (S n)))) as Hp.
    destruct (Z.eqb_spec (hamming w) 0); f_equal; lia.
Qed.

Lemma bitset_lenrange_empty_spec ws s len : words_ok ws -> 0 <= s -> 0 <= len ->
  s + len < 64 * zlen ws ->
  bitset_lenrange_empty ws s len = Some (count_in (elems ws) s (s + len + 1) =? 0).
Proof.
  intros Hok Hs Hlen Hr. pose proof (bitset_lenrange_cardinality_spec ws s len Hok Hs Hlen Hr) as Hc.
  unfold bitset_lenrange_cardinality in Hc. unfold bitset_lenrange_empty.
  assert (0 <= s / 64 <= (s + len) / 64 /\ (s + len) / 64 < zlen ws) as Hq by div64.
  destruct (rd_Some ws (s / 64)) as [w Hw]; [lia |]. rewrite Hw in Hc |- *. cbn [mbind option_bind] in Hc |- *.
  assert (in_u 64 w) as Hwu by (by eapply words_ok_rd).
  destruct (Z.eqb_spec (s / 64) ((s + len) / 64)) as [Hsame | Hdiff].
  - injection Hc as <-. f_equal. apply word_eq0. u64.
  - destruct (rd_Some ws ((s + len) / 64)) as [w2 Hw2]; [lia |].
    assert (in_u 64 w2) as Hwu2 by (by eapply words_ok_rd).
    rewrite sum_words_count in Hc by lia. rewrite all_zero_count by (done || lia).
    cbn [mbind option_bind] in Hc |- *. rewrite Hw2 in Hc |- *. cbn [mbind option_bind] in Hc |- *.
    injection Hc as <-. rewrite end_shift_eq.
    rewrite (word_eq0 (Z.land w _)), (word_eq0 (Z.land w2 _)) by u64.
    set (h1 := Z.land w _). set (h2 := Z.land w2 _).
    pose proof (hamming_range h1). pose proof (hamming_range h2).
    set (c := count_in _ _ _). assert (0 <= c) as Hp by apply count_in_nonneg.
    destruct (Z.eqb_spec (hamming h1) 0); cbn [negb]; [| f_equal; lia].
    destruct (Z.eqb_spec c 0); cbn [negb]; f_equal; lia.
Qed.

(** ** Setting a range given by its length *)

Lemma fill_pairs_spec fuel ws i endword : words_ok ws -> 0 <= i -> endword < zlen ws ->
  (Z.to_nat (endword - i) < fuel)%nat ->
  exists ws', fill_pairs fuel ws i endword = Some ws' /\ zlen ws' = zlen ws /\ words_ok ws' /\
    forall k, k <> endword -> rd ws' k = if (i <=? k) && (k <? endword) then Some ones64 else rd ws k.
Proof.
  revert ws i. induction fuel as [|fuel IH]; intros ws i Hok Hi He Hf; [lia |]. cbn [fill_pairs].
  destruct (Z.ltb_spec i endword) as [Hlt | Hge].
  - rewrite wr_Some by lia. cbn [mbind option_bind]. rewrite wr_Some by (rewrite zlen_insert; lia).
    cbn [mbind option_bind].
    set (ws1 := <[Z.to_nat (i + 1) := ones64]> ws).
    set (ws2 := <[Z.to_nat i := ones64]> ws1).
    assert (zlen ws1 = zlen ws) as Hl1 by apply zlen_insert.
    assert (zlen ws2 = zlen ws) as Hl2 by (rewrite <- Hl1; apply zlen_insert).
    destruct (IH ws2 (i + 2)) as (ws' & Hws & Hl & Hok' & Hr); [| lia | lia | lia |].
    { apply words_ok_insert, in_u64_ones. apply words_ok_insert, in_u64_ones. done. }
    exists ws'. split; [done | split; [lia | split; [done |]]]. intros k Hk. rewrite Hr by done.
    subst ws2 ws1. rewrite !rd_insert by (rewrite ?zlen_insert; lia).
    destruct (Z.leb_spec (i + 2) k), (Z.ltb_spec k endword), (Z.leb_spec i k),
      (Z.eqb_spec k i), (Z.eqb_spec k (i + 1)); cbn [andb]; try done; lia.
  - exists ws. split; [done | split; [done | split; [done |]]]. intros k Hk.
    replace ((i <=? k) && (k <? endword)) with false by lia. done.
Qed.

Lemma bitset_set_lenrange_spec ws s len : words_ok ws -> 0 <= s -> 0 <= len ->
  s + len < 64 * zlen ws ->
  sets_bits ws (bitset_set_lenrange ws s len) (fun x => bit ws x || ((s <=? x) && (x <=? s + len))).
Proof.
  intros Hok Hs Hlen Hr. unfold bitset_set_lenrange. rewrite len_shift_eq, end_shift_eq.
  assert (0 <= s / 64 <= (s + len) / 64 /\ (s + len) / 64 < zlen ws) as Hq by div64.
  destruct (rd_Some ws (s / 64)) as [w Hw]; [lia |].
  destruct (Z.eqb_spec (s / 64) ((s + len) / 64)) as [Hsame | Hdiff].
  - rewrite Hw. cbn [mbind option_bind].
    rewrite wr_Some by lia. eexists. split; [done |]. rewrite zlen_insert. split; [done |].
    split; [apply words_ok_insert; [done | u64] |]. intros x Hx. rewrite bit_insert by lia.
    destruct (Z.eqb_spec (x / 64) (s / 64)) as [Hxq | Hxq].
    + rewrite <- Hxq in Hw. rewrite (bit_rd ws x w Hw).
      rewrite Z.lor_spec, testbit_lenmask by (done || div64). f_equal. div64.
    + generalize (bit ws x). intros b. div64.
  - destruct (rd_Some ws ((s + len) / 64)) as [w2 Hw2]; [lia |]. rewrite Hw2, Hw. cbn [mbind option_bind].
    rewrite wr_Some by lia. cbn [mbind option_bind].
    set (v := Z.lor w _). assert (in_u 64 v) as Hv by (subst v; u64).
    assert (in_u 64 w2) as Hwu2 by (by eapply words_ok_rd).
    destruct (fill_pairs_spec (S (Z.to_nat ((s + len) / 64 - s / 64))) (<[Z.to_nat (s / 64) := v]> ws)
      (s / 64 + 1) ((s + len) / 64)) as (ws' & -> & Hl & Hok' & Hrd);
      [by apply words_ok_insert | lia | rewrite zlen_insert; lia | lia |].
    rewrite zlen_insert in Hl. cbn [mbind option_bind]. rewrite wr_Some by lia.
    eexists. split; [done |]. rewrite zlen_insert. split; [done |].
    split; [apply words_ok_insert; [done | u64] |]. intros x Hx. rewrite bit_insert by lia.
    destruct (Z.eqb_spec (x / 64) ((s + len) / 64)) as [Hxq | Hxq].
    + rewrite <- Hxq in Hw2. rewrite (bit_rd ws x w2 Hw2), Z.lor_spec, testbit_lo by div64.
      f_equal. div64.
    + rd_word ws x w3 Hw3. rewrite (bit_rd ws x w3 Hw3). unfold bit.
      rewrite Hrd, rd_insert by lia. destruct (Z.eqb_spec (x / 64) (s / 64)) as [Hx2 | Hx2].
      * rewrite <- Hx2, Hw3 in Hw. injection Hw as <-. replace (_ && _) with false by lia.
        subst v. rewrite Z.lor_spec, testbit_hi by div64. f_equal. div64.
      * rewrite Hw3. destruct ((s / 64 + 1 <=? x / 64) && _) eqn:Eb;
          rewrite ?testbit_ones64 by div64; generalize (Z.testbit w3 (x mod 64)); intros b; div64.
Qed.
