(* ===== verification/RoaringBitsetOps.v ===== *)
(** * Roaring bitmaps: the bitset container computes set operations

    The bit lists, the decoding of the words, the word-wise operations and
    the order statistics of [RoaringBitset], related to the sorted list
    [elems] of the set positions; [bitset_ok] is the invariant of a
    container with its cardinality up to date, [bitset_wf] the one of the
    lazy operations, which leave it unknown. *)

From stdpp Require Import base list list_numbers numbers option sorting.
From Stdlib Require Import ZArith Lia ZifyBool.
From S2P Require Import Prelude.
From S2P Require Import RoaringArrays.
From S2P Require Import RoaringArrayContainer.
From S2P Require Import RoaringArrayFacts.
From S2P Require Import RoaringBitset.
From S2P Require Import RoaringBitsetFacts.

Local Open Scope Z_scope.

Record bitset_wf (b : bitset_container_t) : Prop := {
  bw_length : zlen (bc_array b) = 1024;
  bw_words : words_ok (bc_array b);
}.

Record bitset_ok (b : bitset_container_t) : Prop := {
  bo_wf : bitset_wf b;
  bo_card : bc_cardinality b = popcount (bc_array b);
}.

(** ** From bits to elements *)

Lemma sets_bits_elems ws o f : sets_bits ws o f ->
  exists ws', o = Some ws' /\ zlen ws' = zlen ws /\ words_ok ws' /\
    forall x, x ∈ elems ws' <-> 0 <= x < 64 * zlen ws /\ f x = true.
Proof.
  intros (ws' & -> & Hl & Hok & Hb). exists ws'. split; [done |]. split; [done |]. split; [done |].
  intros x. rewrite elem_of_elems, Hl. split; intros [Hx H]; (split; [done |]); [by rewrite <- Hb | by rewrite Hb].
Qed.

(** [o] yields words of the same number whose elements are [l]. *)
Definition words_result (ws : list Z) (o : option (list Z)) (l : list Z) : Prop :=
  exists ws', o = Some ws' /\ zlen ws' = zlen ws /\ words_ok ws' /\ elems ws' = l.

Lemma sets_bits_result ws o f l : sets_bits ws o f -> strict l ->
  (forall x, x ∈ l <-> 0 <= x < 64 * zlen ws /\ f x = true) -> words_result ws o l.
Proof.
  intros (ws' & -> & Hl & Hok & He)%sets_bits_elems Hs H. exists ws'.
  split; [done |]. split; [done |]. split; [done |].
  apply strict_ext; [apply elems_strict | done |]. intros x. by rewrite He, H.
Qed.

Lemma elems_range ws x : x ∈ elems ws -> 0 <= x < 64 * zlen ws.
Proof. intros [Hx _]%elem_of_elems. done. Qed.

Lemma set_range_result ws s e : words_ok ws -> 0 <= s <= e -> e <= 64 * zlen ws ->
  words_result ws (bitset_set_range ws s e) (union_loop (elems ws) (seqZ s (e - s))).
Proof.
  intros Hok Hs He. eapply sets_bits_result; [by apply bitset_set_range_spec | |].
  - apply union_loop_strict; [apply elems_strict | apply seqZ_strict].
  - intros x. rewrite elem_of_union_loop, elem_of_seqZ, elem_of_elems.
    generalize (bit ws x). intros b. lia.
Qed.

Lemma set_lenrange_result ws s len : words_ok ws -> 0 <= s -> 0 <= len -> s + len < 64 * zlen ws ->
  words_result ws (bitset_set_lenrange ws s len) (union_loop (elems ws) (seqZ s (len + 1))).
Proof.
  intros Hok Hs Hl He. eapply sets_bits_result; [by apply bitset_set_lenrange_spec | |].
  - apply union_loop_strict; [apply elems_strict | apply seqZ_strict].
  - intros x. rewrite elem_of_union_loop, elem_of_seqZ, elem_of_elems.
    generalize (bit ws x). intros b. lia.
Qed.

Lemma reset_range_result ws s e : words_ok ws -> 0 <= s <= e -> e <= 64 * zlen ws ->
  words_result ws (bitset_reset_range ws s e) (minus (elems ws) (seqZ s (e - s))).
Proof.
  intros Hok Hs He. eapply sets_bits_result; [by apply bitset_reset_range_spec | |].
  - apply strict_filter, elems_strict.
  - intros x. rewrite elem_of_minus, elem_of_seqZ, elem_of_elems.
    generalize (bit ws x). intros b. lia.
Qed.

Lemma elem_of_xor a b x : strict a -> strict b ->
  x ∈ xor_uint16 a b <-> (x ∈ a /\ x ∉ b) \/ (x ∈ b /\ x ∉ a).
Proof. intros Ha Hb. apply xor_uint16_spec; done. Qed.

Lemma xor_strict a b : strict a -> strict b -> strict (xor_uint16 a b).
Proof. intros Ha Hb. by apply xor_uint16_spec. Qed.

Lemma flip_range_result ws s e : words_ok ws -> 0 <= s <= e -> e <= 64 * zlen ws ->
  words_result ws (bitset_flip_range ws s e) (xor_uint16 (elems ws) (seqZ s (e - s))).
Proof.
  intros Hok Hs He. eapply sets_bits_result; [by apply bitset_flip_range_spec | |].
  - apply xor_strict; [apply elems_strict | apply seqZ_strict].
  - intros x. rewrite elem_of_xor by (apply elems_strict || apply seqZ_strict).
    rewrite elem_of_seqZ, elem_of_elems. destruct (bit ws x); rewrite ?xorb_true_l, ?xorb_false_l; lia.
Qed.

(** ** One bit *)

(** Adding and removing one element changes the length by one. *)
Lemma zlen_union_one a x : strict a ->
  zlen (union_loop a [x]) = zlen a + (if decide (x ∈ a) then 0 else 1).
Proof.
  intros Ha. destruct (decide (x ∈ a)) as [Hx | Hx].
  - assert (union_loop a [x] = a) as ->; [| lia].
    apply strict_ext; [apply union_loop_strict; [done | repeat constructor] | done |].
    intros y. rewrite elem_of_union_loop, list_elem_of_singleton. split; [intros [| ->]; done | auto].
  - rewrite <- insert_at_union by done. unfold insert_at. rewrite zlen_app, zlen_cons.
    pose proof (lb_range a x). rewrite zlen_take, zlen_drop by lia. lia.
Qed.

Lemma zlen_minus_one a x : strict a ->
  zlen (minus a [x]) = zlen a - (if decide (x ∈ a) then 1 else 0).
Proof.
  intros Ha. destruct (decide (x ∈ a)) as [Hx | Hx].
  - rewrite <- remove_at_minus by done. pose proof (rd_bound _ _ _ (rd_lb_elem a x Ha Hx)).
    rewrite zlen_app, zlen_take, zlen_drop by lia. lia.
  - unfold minus. rewrite filter_every; [lia |]. intros y Hy ->%list_elem_of_singleton. done.
Qed.

Lemma shiftr6 x : Z.shiftr x 6 = x / 64.
Proof. by rewrite Z.shiftr_div_pow2. Qed.

Lemma land63 x : Z.land x 63 = x mod 64.
Proof. change 63 with (Z.ones 6). by rewrite Z.land_ones. Qed.

(** What the increments of the source extract: one bit. *)
Lemma shr_single w k b : 0 <= k < 64 ->
  (forall n, 0 <= n -> Z.testbit w n = (n =? k) && b) -> shr64 w k = if b then 1 else 0.
Proof.
  intros Hk H. unfold shr64. apply Z.bits_inj'. intros n Hn. rewrite Z.shiftr_spec, H by lia.
  destruct b; rewrite ?Z.bits_0, ?andb_false_r, ?andb_true_r; [| done].
  destruct (Z.eqb_spec n 0) as [-> | Hne]; [by rewrite (proj2 (Z.eqb_eq (0 + k) k)) by lia |].
  rewrite (proj2 (Z.eqb_neq (n + k) k)) by lia. change 1 with (2 ^ 0).
  by rewrite Z.pow2_bits_false by lia.
Qed.

Lemma testbit_shl1 k n : 0 <= k < 64 -> 0 <= n -> Z.testbit (shl64 1 k) n = (n =? k).
Proof.
  intros Hk Hn. destruct (decide (n < 64)); [apply testbit_one; lia |].
  rewrite (in_u_testbit 64) by (apply in_u64_shl || lia). lia.
Qed.

Lemma set_increment w k : in_u 64 w -> 0 <= k < 64 ->
  shr64 (Z.lxor w (Z.lor w (shl64 1 k))) k = if Z.testbit w k then 0 else 1.
Proof.
  intros Hw Hk. rewrite (shr_single _ k (negb (Z.testbit w k))); [by destruct (Z.testbit w k) | done |].
  intros n Hn. rewrite Z.lxor_spec, Z.lor_spec, testbit_shl1 by done.
  destruct (Z.eqb_spec n k) as [-> |]; [by destruct (Z.testbit w k) | by destruct (Z.testbit w n)].
Qed.

Lemma unset_increment w k : in_u 64 w -> 0 <= k < 64 ->
  shr64 (Z.lxor w (Z.land w (not64 (shl64 1 k)))) k = if Z.testbit w k then 1 else 0.
Proof.
  intros Hw Hk. rewrite (shr_single _ k (Z.testbit w k)); [done | done |].
  intros n Hn. rewrite Z.lxor_spec, Z.land_spec. destruct (decide (n < 64)).
  - rewrite testbit_not64, testbit_shl1 by lia.
    destruct (Z.eqb_spec n k) as [-> |]; [by destruct (Z.testbit w k) | by destruct (Z.testbit w n)].
  - rewrite (in_u_testbit 64 w) by (done || lia). rewrite (proj2 (Z.eqb_neq n k)) by lia. done.
Qed.

Lemma flip_increment w k : in_u 64 w -> 0 <= k < 64 ->
  shr64 (Z.land (shl64 1 k) w) k = if Z.testbit w k then 1 else 0.
Proof.
  intros Hw Hk. rewrite (shr_single _ k (Z.testbit w k)); [done | done |].
  intros n Hn. rewrite Z.land_spec, testbit_shl1 by done.
  by destruct (Z.eqb_spec n k) as [-> |].
Qed.

(** Rewriting the word of a position. *)
Lemma one_bit_result ws pos w f l : words_ok ws -> rd ws (pos / 64) = Some w -> in_u 64 (f w) ->
  (forall n, 0 <= n < 64 -> n <> pos mod 64 -> Z.testbit (f w) n = Z.testbit w n) ->
  strict l ->
  (forall x, x ∈ l <-> if decide (x = pos) then Z.testbit (f w) (pos mod 64) = true else x ∈ elems ws) ->
  words_result ws (wr ws (pos / 64) (f w)) l.
Proof.
  intros Hok Hw Hf Hbits Hs Hl. pose proof (rd_bound _ _ _ Hw) as Hb. rewrite wr_Some by done.
  eexists. split; [done |]. rewrite zlen_insert. split; [done |].
  split; [by apply words_ok_insert |]. apply strict_ext; [apply elems_strict | done |].
  intros x. rewrite Hl, elems_bit, bit_insert by done. destruct (decide (x = pos)) as [-> | Hne].
  - by rewrite Z.eqb_refl.
  - rewrite elems_bit. destruct (Z.eqb_spec (x / 64) (pos / 64)) as [E | E]; [| done].
    rewrite Hbits by div64. rewrite <- E in Hw. by rewrite (bit_rd ws x w Hw).
Qed.

Lemma elem_pos_bit ws pos w : rd ws (pos / 64) = Some w ->
  pos ∈ elems ws <-> Z.testbit w (pos mod 64) = true.
Proof. intros Hw. by rewrite elems_bit, (bit_rd ws pos w Hw). Qed.

Lemma set_bit_result ws pos w : words_ok ws -> rd ws (pos / 64) = Some w ->
  words_result ws (wr ws (pos / 64) (Z.lor w (shl64 1 (pos mod 64)))) (union_loop (elems ws) [pos]).
Proof.
  intros Hok Hw. assert (in_u 64 w) by (by eapply words_ok_rd).
  apply (one_bit_result ws pos w (fun w => Z.lor w (shl64 1 (pos mod 64)))); [done | done | u64 | | |].
  - intros n Hn Hne. rewrite Z.lor_spec, testbit_one by div64. rewrite (proj2 (Z.eqb_neq _ _)) by done.
    apply orb_false_r.
  - apply union_loop_strict; [apply elems_strict | repeat constructor].
  - intros x. rewrite elem_of_union_loop, list_elem_of_singleton. destruct (decide (x = pos)).
    + rewrite Z.lor_spec, testbit_one, Z.eqb_refl, orb_true_r by div64. tauto.
    + tauto.
Qed.

Lemma unset_bit_result ws pos w : words_ok ws -> rd ws (pos / 64) = Some w ->
  words_result ws (wr ws (pos / 64) (Z.land w (not64 (shl64 1 (pos mod 64))))) (minus (elems ws) [pos]).
Proof.
  intros Hok Hw. assert (in_u 64 w) by (by eapply words_ok_rd).
  apply (one_bit_result ws pos w (fun w => Z.land w (not64 (shl64 1 (pos mod 64))))); [done | done | u64 | | |].
  - intros n Hn Hne. rewrite Z.land_spec, testbit_not64, testbit_one by div64.
    rewrite (proj2 (Z.eqb_neq _ _)) by done. apply andb_true_r.
  - apply strict_filter, elems_strict.
  - intros x. rewrite elem_of_minus, list_elem_of_singleton. destruct (decide (x = pos)).
    + rewrite Z.land_spec, testbit_not64, testbit_one, Z.eqb_refl, andb_false_r by div64. split; [tauto | done].
    + tauto.
Qed.

Lemma flip_bit_result ws pos w : words_ok ws -> rd ws (pos / 64) = Some w ->
  words_result ws (wr ws (pos / 64) (Z.lxor w (shl64 1 (pos mod 64)))) (xor_uint16 (elems ws) [pos]).
Proof.
  intros Hok Hw. assert (in_u 64 w) by (by eapply words_ok_rd).
  assert (strict [pos]) by repeat constructor. pose proof (elems_strict ws).
  apply (one_bit_result ws pos w (fun w => Z.lxor w (shl64 1 (pos mod 64)))); [done | done | u64 | | |].
  - intros n Hn Hne. rewrite Z.lxor_spec, testbit_one by div64. rewrite (proj2 (Z.eqb_neq _ _)) by done.
    apply xorb_false_r.
  - by apply xor_strict.
  - intros x. rewrite elem_of_xor, list_elem_of_singleton by done. destruct (decide (x = pos)) as [-> |].
    + rewrite Z.lxor_spec, testbit_one, Z.eqb_refl, xorb_true_r by div64.
      rewrite (elem_pos_bit ws pos w Hw). destruct (Z.testbit w (pos mod 64)); cbn [negb]; split; try done.
      * intros [[_ ?] | [_ Hn]]; [done |]. by destruct Hn.
      * intros _. right. split; done.
    + tauto.
Qed.

(** ** Lists of bits *)

Definition in_words (ws : list Z) (x : Z) : Prop := 0 <= x < 64 * zlen ws.

Lemma in_words_rd ws x : in_words ws x -> exists w, rd ws (x / 64) = Some w.
Proof. intros H. apply rd_Some. unfold in_words in H. div64. Qed.

Lemma union_loop_cons_r a x l : strict a -> strict (x :: l) ->
  union_loop (union_loop a [x]) l = union_loop a (x :: l).
Proof.
  intros Ha Hl. pose proof (strict_tail _ _ Hl). apply strict_ext.
  - apply union_loop_strict; [apply union_loop_strict; [done | repeat constructor] | done].
  - by apply union_loop_strict.
  - intros y. rewrite !elem_of_union_loop, list_elem_of_singleton, elem_of_cons. tauto.
Qed.

Lemma u64_add_l x y : u64 (u64 x + y) = u64 (x + y).
Proof. unfold u64, uwrap. by rewrite Zplus_mod_idemp_l. Qed.

(** The list need not be sorted, nor without repetitions. *)
Lemma bitset_set_list_withcard_spec l ws card : words_ok ws -> Forall (in_words ws) l -> in_u 64 card ->
  exists ws', bitset_set_list_withcard ws card l = Some (ws', u64 (card + (popcount ws' - popcount ws))) /\
    bitset_set_list ws l = Some ws' /\
    zlen ws' = zlen ws /\ words_ok ws' /\ forall x, x ∈ elems ws' <-> x ∈ elems ws \/ x ∈ l.
Proof.
  revert ws card. induction l as [|pos l IH]; intros ws card Hok Hl Hc.
  - exists ws. cbn [bitset_set_list_withcard bitset_set_list]. rewrite Z.sub_diag, Z.add_0_r.
    unfold u64. rewrite uwrap_id by done.
    do 4 (split; [done |]). intros x. pose proof (not_elem_of_nil x). tauto.
  - apply Forall_cons in Hl as [Hp Hl]. destruct (in_words_rd ws pos Hp) as [w Hw].
    cbn [bitset_set_list_withcard bitset_set_list]. rewrite shiftr6, Hw. cbn [mbind option_bind].
    destruct (set_bit_result ws pos w Hok Hw) as (ws1 & E1 & Hl1 & Hok1 & He1).
    rewrite E1. cbn [mbind option_bind]. rewrite set_increment; [| exact (words_ok_rd _ _ _ Hok Hw) | div64].
    destruct (IH ws1 (u64 (card + (if Z.testbit w (pos mod 64) then 0 else 1)))) as (ws' & -> & -> & Hl' & Hok' & He');
      [done | | apply uwrap_range; lia |].
    { eapply Forall_impl; [exact Hl |]. unfold in_words. by rewrite Hl1. }
    exists ws'. split; [| split; [done | split; [by rewrite Hl' | split; [done |]]]].
    + do 2 f_equal. rewrite u64_add_l. f_equal. unfold popcount. rewrite He1, zlen_union_one by apply elems_strict.
      pose proof (elem_pos_bit ws pos w Hw). destruct (decide _), (Z.testbit _ _); try tauto; try lia.
      exfalso. cut (false = true); [done | tauto].
    + intros x. rewrite He', He1, elem_of_union_loop, list_elem_of_singleton, elem_of_cons. tauto.
Qed.

Lemma bitset_clear_list_spec l ws card : words_ok ws -> Forall (in_words ws) l -> in_u 64 card ->
  exists ws', bitset_clear_list ws card l = Some (ws', u64 (card + (popcount ws' - popcount ws))) /\
    zlen ws' = zlen ws /\ words_ok ws' /\ forall x, x ∈ elems ws' <-> x ∈ elems ws /\ x ∉ l.
Proof.
  revert ws card. induction l as [|pos l IH]; intros ws card Hok Hl Hc.
  - exists ws. cbn [bitset_clear_list]. rewrite Z.sub_diag, Z.add_0_r.
    unfold u64. rewrite uwrap_id by done.
    do 3 (split; [done |]). intros x. pose proof (not_elem_of_nil x). tauto.
  - apply Forall_cons in Hl as [Hp Hl]. destruct (in_words_rd ws pos Hp) as [w Hw].
    cbn [bitset_clear_list]. rewrite shiftr6, Hw. cbn [mbind option_bind].
    destruct (unset_bit_result ws pos w Hok Hw) as (ws1 & E1 & Hl1 & Hok1 & He1).
    rewrite E1. cbn [mbind option_bind]. rewrite unset_increment; [| exact (words_ok_rd _ _ _ Hok Hw) | div64].
    destruct (IH ws1 (u64 (card - (if Z.testbit w (pos mod 64) then 1 else 0)))) as (ws' & -> & Hl' & Hok' & He');
      [done | | apply uwrap_range; lia |].
    { eapply Forall_impl; [exact Hl |]. unfold in_words. by rewrite Hl1. }
    exists ws'. split; [| split; [by rewrite Hl' | split; [done |]]].
    + do 2 f_equal. rewrite u64_add_l. f_equal. unfold popcount. rewrite He1, zlen_minus_one by apply elems_strict.
      pose proof (elem_pos_bit ws pos w Hw). destruct (decide _), (Z.testbit _ _); try tauto; try lia.
      exfalso. cut (false = true); [done | tauto].
    + intros x. rewrite He', He1, elem_of_minus, list_elem_of_singleton, not_elem_of_cons. tauto.
Qed.

Lemma zlen_xor_one a x : strict a ->
  zlen (xor_uint16 a [x]) = zlen a + (if decide (x ∈ a) then -1 else 1).
Proof.
  intros Ha. assert (strict [x]) by repeat constructor. destruct (decide (x ∈ a)) as [Hx | Hx].
  - assert (xor_uint16 a [x] = minus a [x]) as ->.
    { apply strict_ext; [by apply xor_strict | by apply strict_filter |]. intros y.
      rewrite elem_of_xor, elem_of_minus, list_elem_of_singleton by done.
      split; [intros [| [-> ?]]; [tauto | done] | tauto]. }
    rewrite zlen_minus_one, decide_True by done. lia.
  - assert (xor_uint16 a [x] = union_loop a [x]) as ->.
    { apply strict_ext; [by apply xor_strict | by apply union_loop_strict |]. intros y.
      rewrite elem_of_xor, elem_of_union_loop, list_elem_of_singleton by done.
      split; [tauto |]. intros [Hy | ->]; [left; split; [done | by intros ->] | by right]. }
    rewrite zlen_union_one, decide_False by done. lia.
Qed.

Lemma bitset_flip_list_withcard_spec l ws card : words_ok ws -> Forall (in_words ws) l -> NoDup l ->
  in_u 64 card ->
  exists ws', bitset_flip_list_withcard ws card l = Some (ws', u64 (card + (popcount ws' - popcount ws))) /\
    bitset_flip_list ws l = Some ws' /\
    zlen ws' = zlen ws /\ words_ok ws' /\
    forall x, x ∈ elems ws' <-> (x ∈ elems ws /\ x ∉ l) \/ (x ∈ l /\ x ∉ elems ws).
Proof.
  revert ws card. induction l as [|pos l IH]; intros ws card Hok Hl Hnd Hc.
  - exists ws. cbn [bitset_flip_list_withcard bitset_flip_list]. rewrite Z.sub_diag, Z.add_0_r.
    unfold u64. rewrite uwrap_id by done.
    do 4 (split; [done |]). intros x. pose proof (not_elem_of_nil x). tauto.
  - apply Forall_cons in Hl as [Hp Hl]. apply NoDup_cons in Hnd as [Hpl Hnd].
    destruct (in_words_rd ws pos Hp) as [w Hw].
    cbn [bitset_flip_list_withcard bitset_flip_list]. rewrite shiftr6, Hw. cbn [mbind option_bind].
    destruct (flip_bit_result ws pos w Hok Hw) as (ws1 & E1 & Hl1 & Hok1 & He1).
    rewrite E1. cbn [mbind option_bind]. rewrite flip_increment; [| exact (words_ok_rd _ _ _ Hok Hw) | div64].
    destruct (IH ws1 (u64 (card + (1 - 2 * if Z.testbit w (pos mod 64) then 1 else 0)))) as (ws' & -> & -> & Hl' & Hok' & He');
      [done | | done | apply uwrap_range; lia |].
    { eapply Forall_impl; [exact Hl |]. unfold in_words. by rewrite Hl1. }
    exists ws'. split; [| split; [done | split; [by rewrite Hl' | split; [done |]]]].
    + do 2 f_equal. rewrite u64_add_l. f_equal. unfold popcount. rewrite He1, zlen_xor_one by apply elems_strict.
      pose proof (elem_pos_bit ws pos w Hw). destruct (decide _), (Z.testbit _ _); try tauto; try lia.
      exfalso. cut (false = true); [done | tauto].
    + intros x. assert (strict [pos]) by repeat constructor. pose proof (elems_strict ws).
      rewrite He', He1, elem_of_xor, list_elem_of_singleton, elem_of_cons by done.
      destruct (decide (x = pos)) as [-> |]; tauto.
Qed.

(** ** Reading the set bits *)

(** [w = 2^ctz(w) * odd]. *)
Lemma ctz_odd w : 0 < w -> exists m, 0 <= m /\ 0 <= ctz w /\ w = 2 ^ ctz w * (2 * m + 1).
Proof.
  destruct w as [|p|]; [lia | intros _ | lia]. cbn [ctz]. induction p as [p _ | p IH |].
  - exists (Z.pos p). cbn [ctz_pos]. lia.
  - destruct IH as (m & Hm & Hc & E). exists m. cbn [ctz_pos]. split; [done |]. split; [lia |].
    rewrite Z.pow_add_r by lia. rewrite (Pos2Z.inj_xO p), E at 1. lia.
  - exists 0. cbn [ctz_pos]. lia.
Qed.

Lemma ctz_testbit w : 0 < w -> 0 <= ctz w /\ Z.testbit w (ctz w) = true /\
  forall j, 0 <= j < ctz w -> Z.testbit w j = false.
Proof.
  intros Hw. destruct (ctz_odd w Hw) as (m & Hm & Hc & E). split; [done |].
  generalize dependent (ctz w). intros k Hk E. split.
  - rewrite E. rewrite Z.mul_comm, Z.mul_pow2_bits by lia.
    replace (k - k) with 0 by lia. by rewrite Z.testbit_odd_0.
  - intros j Hj. rewrite E. rewrite Z.mul_comm. apply Z.mul_pow2_bits_low. lia.
Qed.

(** [w & -w] is the lowest set bit. *)
Lemma low_bit w : in_u 64 w -> w <> 0 -> Z.land w (u64 (not64 w + 1)) = 2 ^ ctz w.
Proof.
  intros Hw H0. assert (0 < w) as Hp by (destruct Hw; lia).
  destruct (ctz_odd w Hp) as (m & Hm & Hc & E).
  assert (u64 (not64 w + 1) = u64 (- w)) as ->.
  { unfold not64. rewrite u64_add_l. f_equal. unfold Z.lnot. lia. }
  assert (Z.land w (u64 (- w)) = Z.land w (- w)) as ->.
  { apply Z.bits_inj'. intros n Hn. rewrite !Z.land_spec, testbit_u64 by done.
    destruct (Z.ltb_spec n 64); [by rewrite andb_true_r |].
    by rewrite (in_u_testbit 64 w) by (done || lia). }
  apply Z.bits_inj'. intros n Hn. rewrite Z.land_spec, Z.pow2_bits_eqb by done.
  assert (- w = (- (2 * m + 1)) * 2 ^ ctz w) as En by lia.
  assert (w = (2 * m + 1) * 2 ^ ctz w) as Ew by lia.
  rewrite En. rewrite Ew at 1. clear En Ew E. generalize dependent (ctz w). intros k Hk.
  rewrite !Z.mul_pow2_bits by lia.
  destruct (Z.eqb_spec k n) as [<- | Hne].
  - replace (k - k) with 0 by lia. rewrite Z.testbit_odd_0.
    replace (- (2 * m + 1)) with (2 * (- m - 1) + 1) by lia. by rewrite Z.testbit_odd_0.
  - destruct (decide (n < k)); [by rewrite Z.testbit_neg_r by lia |].
    replace (- (2 * m + 1)) with (Z.lnot (2 * m)) by (unfold Z.lnot; lia).
    rewrite Z.lnot_spec by lia.
    replace (n - k) with (Z.succ (n - k - 1)) by lia.
    rewrite Z.testbit_odd_succ, Z.testbit_even_succ by lia. apply andb_negb_r.
Qed.

(** Dropping the lowest bit drops the first position. *)
Lemma word_bits_step w : in_u 64 w -> w <> 0 ->
  let w' := Z.lxor w (Z.land w (u64 (not64 w + 1))) in
  word_bits w = ctz w :: word_bits w' /\ in_u 64 w' /\ ctz w < 64.
Proof.
  intros Hw H0 w'. assert (0 < w) as Hp by (destruct Hw; lia).
  destruct (ctz_testbit w Hp) as (Hc & Hb & Hlow). subst w'. rewrite low_bit by done.
  assert (ctz w < 64) as Hc64.
  { destruct (decide (ctz w < 64)); [done |]. by rewrite (in_u_testbit 64 w) in Hb by (done || lia). }
  assert (forall n, 0 <= n -> Z.testbit (Z.lxor w (2 ^ ctz w)) n = Z.testbit w n && negb (n =? ctz w)) as Hx.
  { intros n Hn. rewrite Z.lxor_spec, Z.pow2_bits_eqb by done. destruct (Z.eqb_spec (ctz w) n) as [<- | Hne].
    - by rewrite Hb, Z.eqb_refl.
    - rewrite (proj2 (Z.eqb_neq n _)) by lia. by rewrite xorb_false_r, andb_true_r. }
  split; [| split; [| done]].
  - apply strict_ext; [apply word_bits_strict | |].
    + apply strict_cons_elem; [apply word_bits_strict |]. intros y [Hy Hyb]%elem_of_word_bits.
      rewrite Hx in Hyb by lia. destruct (decide (y < ctz w)); [| lia]. rewrite Hlow in Hyb by lia. done.
    + intros y. rewrite elem_of_cons, !elem_of_word_bits. split.
      * intros [Hy Hyb]. destruct (decide (y = ctz w)); [by left | right]. split; [done |].
        rewrite Hx, Hyb by lia. lia.
      * intros [-> | [Hy Hyb]]; [split; [lia | done] |]. split; [done |].
        rewrite Hx in Hyb by lia. by apply andb_prop in Hyb as [].
  - apply in_u_lxor; [lia | done |]. split; [lia |]. apply Z.pow_lt_mono_r; lia.
Qed.

Lemma word_bits_0 : word_bits 0 = [].
Proof. done. Qed.

Lemma hamming_cons w : in_u 64 w -> w <> 0 ->
  hamming w = hamming (Z.lxor w (Z.land w (u64 (not64 w + 1)))) + 1.
Proof. intros Hw H0. unfold hamming. destruct (word_bits_step w Hw H0) as [-> _]. apply zlen_cons. Qed.

Lemma extract_word_spec fuel w base : in_u 64 w -> hamming w < Z.of_nat fuel ->
  extract_word fuel w base = Some ((fun i => i + base) <$> word_bits w).
Proof.
  revert w. induction fuel as [|fuel IH]; intros w Hw Hf; [pose proof (hamming_range w); lia |].
  cbn [extract_word]. destruct (Z.eqb_spec w 0) as [-> | H0]; [done |].
  rewrite (hamming_cons w Hw H0) in Hf. destruct (word_bits_step w Hw H0) as (-> & Hw' & _).
  rewrite IH by (done || lia). done.
Qed.

Lemma extract_words_spec ws base : words_ok ws ->
  extract_words ws base = Some ((fun x => x + base) <$> elems ws).
Proof.
  intros Hok. revert base. induction Hok as [|w ws Hw _ IH]; intros base; [done |].
  cbn [extract_words]. pose proof (hamming_range w). rewrite extract_word_spec by (done || lia).
  cbn [mbind option_bind]. rewrite IH. cbn [mbind option_bind]. f_equal.
  rewrite elems_cons, fmap_app. f_equal. rewrite <- list_fmap_compose. apply list_fmap_ext.
  intros i x _. simpl. lia.
Qed.

Lemma bitset_extract_setbits_spec ws base : words_ok ws ->
  bitset_extract_setbits ws base = Some ((fun x => u32 (x + base)) <$> elems ws).
Proof.
  intros Hok. unfold bitset_extract_setbits. rewrite extract_words_spec by done.
  cbn [mbind option_bind]. by rewrite <- list_fmap_compose.
Qed.

(** The 1024 words of a container as [uint16_t] values. *)
Lemma bitset_extract_setbits_uint16_spec ws : words_ok ws -> zlen ws <= 1024 ->
  bitset_extract_setbits_uint16 ws 0 = Some (elems ws).
Proof.
  intros Hok Hl. unfold bitset_extract_setbits_uint16. rewrite extract_words_spec by done.
  cbn [mbind option_bind]. rewrite <- list_fmap_compose. f_equal.
  transitivity (id <$> elems ws); [| by rewrite list_fmap_id].
  apply list_fmap_ext. intros i x Hx%list_elem_of_lookup_2. apply elems_range in Hx. simpl.
  rewrite Z.add_0_r. apply uwrap_id. split; lia.
Qed.

(** Iterating over the words is iterating over the elements. *)
Lemma iterate_word_spec {S} fuel w base (f : Z -> S -> bool * S) p : in_u 64 w ->
  hamming w < Z.of_nat fuel ->
  iterate_word fuel w base f p = Some (iterate_list ((fun i => u32 (i + base)) <$> word_bits w) f p).
Proof.
  revert w p. induction fuel as [|fuel IH]; intros w p Hw Hf; [pose proof (hamming_range w); lia |].
  cbn [iterate_word]. destruct (Z.eqb_spec w 0) as [-> | H0]; [done |].
  rewrite (hamming_cons w Hw H0) in Hf. destruct (word_bits_step w Hw H0) as (-> & Hw' & _).
  rewrite fmap_cons. cbn [iterate_list]. destruct (f (u32 (ctz w + base)) p) as [[|] p']; [| done].
  by rewrite IH by (done || lia).
Qed.

Lemma iterate_list_app {S} l1 l2 (f : Z -> S -> bool * S) p :
  iterate_list (l1 ++ l2) f p =
    match iterate_list l1 f p with (true, p) => iterate_list l2 f p | r => r end.
Proof.
  revert p. induction l1 as [|x l1 IH]; intros p; [done |]. cbn [iterate_list app].
  destruct (f x p) as [[|] p']; [apply IH | done].
Qed.

Lemma iterate_words_spec {S} ws base (f : Z -> S -> bool * S) p : words_ok ws ->
  iterate_words ws base f p = Some (iterate_list ((fun x => u32 (x + base)) <$> elems ws) f p).
Proof.
  intros Hok. revert base p. induction Hok as [|w ws Hw _ IH]; intros base p; [done |].
  cbn [iterate_words]. pose proof (hamming_range w). rewrite iterate_word_spec by (done || lia).
  cbn [mbind option_bind]. rewrite elems_cons, fmap_app, iterate_list_app.
  destruct (iterate_list _ f p) as [[|] p']; [| done]. rewrite IH. do 2 f_equal.
  rewrite <- list_fmap_compose. apply list_fmap_ext. intros i x _. simpl. f_equal. lia.
Qed.

(** ** Word-wise operations *)

Section words2.

Variables (op : Z -> Z -> Z) (opb : bool -> bool -> bool).
Hypothesis op_range : forall x y, in_u 64 x -> in_u 64 y -> in_u 64 (op x y).
Hypothesis op_bits : forall x y n, 0 <= n < 64 ->
  Z.testbit (op x y) n = opb (Z.testbit x n) (Z.testbit y n).

Lemma fn_loop_spec n a b sum : (length a = 2 * n)%nat -> length b = length a ->
  fn_loop op a b sum = Some (zip_with op a b, sum + popcount (zip_with op a b)).
Proof.
  revert a b sum. induction n as [|n IH]; intros a b sum Ha Hb.
  - destruct a, b; simpl in *; try lia. rewrite popcount_nil, Z.add_0_r. done.
  - destruct a as [|x1 [|x2 a]], b as [|y1 [|y2 b]]; simpl in *; try lia.
    rewrite IH by lia. cbn [mbind option_bind]. do 2 f_equal. rewrite !popcount_cons. lia.
Qed.

Lemma words_ok_zip a b : words_ok a -> words_ok b -> words_ok (zip_with op a b).
Proof.
  intros Ha. revert b. induction Ha as [|x a Hx _ IH]; intros b Hb; [constructor |].
  destruct Hb as [|y b Hy Hb]; [constructor |]. constructor; [by apply op_range | by apply IH].
Qed.

Lemma zlen_zip (a b : list Z) : zlen a = zlen b -> zlen (zip_with op a b) = zlen a.
Proof. intros H. unfold zlen in *. rewrite length_zip_with. lia. Qed.

Lemma rd_zip (a b : list Z) i x y : rd a i = Some x -> rd b i = Some y ->
  rd (zip_with op a b) i = Some (op x y).
Proof.
  unfold rd. destruct (0 <=? i); [| done]. intros Hx Hy. by rewrite lookup_zip_with, Hx, Hy.
Qed.

Lemma bit_zip a b x : zlen a = zlen b -> 0 <= x < 64 * zlen a ->
  bit (zip_with op a b) x = opb (bit a x) (bit b x).
Proof.
  intros Hl Hx. destruct (rd_Some a (x / 64)) as [v Hv]; [div64 |].
  destruct (rd_Some b (x / 64)) as [w Hw]; [div64 |].
  unfold bit. rewrite (rd_zip _ _ _ _ _ Hv Hw), Hv, Hw. apply op_bits. div64.
Qed.

Lemma elems_zip a b l : zlen a = zlen b -> strict l ->
  (forall x, x ∈ l <-> 0 <= x < 64 * zlen a /\ opb (bit a x) (bit b x) = true) ->
  elems (zip_with op a b) = l.
Proof.
  intros Hl Hs H. apply strict_ext; [apply elems_strict | done |].
  intros x. rewrite H, elem_of_elems, zlen_zip by done. split; intros [Hx Hb]; (split; [done |]).
  - by rewrite <- bit_zip.
  - by rewrite bit_zip.
Qed.

End words2.

(** What a word-wise operation computes, given the set operation. *)
Record word_op (op : Z -> Z -> Z) (set_op : list Z -> list Z -> list Z) : Prop := {
  wo_range : forall x y, in_u 64 x -> in_u 64 y -> in_u 64 (op x y);
  wo_elems : forall a b, zlen a = zlen b -> elems (zip_with op a b) = set_op (elems a) (elems b);
}.

Lemma word_op_lor : word_op Z.lor union_loop.
Proof.
  split; [intros; u64 |]. intros a b Hl.
  apply (elems_zip _ orb); [intros; apply Z.lor_spec | done | apply union_loop_strict; apply elems_strict |].
  intros x. rewrite elem_of_union_loop, !elem_of_elems, orb_true_iff, Hl. tauto.
Qed.

Lemma word_op_land : word_op Z.land inter.
Proof.
  split; [intros x y Hx Hy; apply in_u_land; [lia | done | by destruct Hy] |]. intros a b Hl.
  apply (elems_zip _ andb); [intros; apply Z.land_spec | done | apply strict_filter, elems_strict |].
  intros x. rewrite elem_of_inter, !elem_of_elems, andb_true_iff, Hl. tauto.
Qed.

Lemma word_op_lxor : word_op Z.lxor xor_uint16.
Proof.
  split; [intros; u64 |]. intros a b Hl. pose proof (elems_strict a). pose proof (elems_strict b).
  apply (elems_zip _ xorb); [intros; apply Z.lxor_spec | done | by apply xor_strict |].
  intros x. rewrite elem_of_xor by done. rewrite !elem_of_elems, Hl.
  destruct (bit a x), (bit b x); cbn [xorb]; intuition congruence.
Qed.

Lemma word_op_andnot : word_op andnot64 minus.
Proof.
  split; [intros x y Hx Hy; apply in_u_land; [lia | done | apply in_u64_not] |]. intros a b Hl.
  apply (elems_zip _ (fun p q => p && negb q)).
  - intros x y n Hn. unfold andnot64. by rewrite Z.land_spec, testbit_not64.
  - done.
  - apply strict_filter, elems_strict.
  - intros x. rewrite elem_of_minus, !elem_of_elems, Hl.
    destruct (bit a x), (bit b x); cbn [andb negb]; intuition congruence.
Qed.

Section fn.

Context (op : Z -> Z -> Z) (set_op : list Z -> list Z -> list Z) (Hop : word_op op set_op).
Context (c1 c2 : bitset_container_t) (H1 : bitset_wf c1) (H2 : bitset_wf c2).

Let same : zlen (bc_array c1) = zlen (bc_array c2).
Proof. rewrite (bw_length _ H1), (bw_length _ H2). done. Qed.

Lemma fn_words : words_ok (zip_with op (bc_array c1) (bc_array c2)) /\
  zlen (zip_with op (bc_array c1) (bc_array c2)) = 1024.
Proof.
  split; [apply words_ok_zip; [apply Hop | apply H1 | apply H2] |].
  rewrite zlen_zip by exact same. apply H1.
Qed.

(** [bitset_container_<op>]: the words of the operation and its cardinality. *)
Lemma bitset_fn_spec : exists c, bitset_container_fn op c1 c2 = Some c /\ bitset_ok c /\
  elems (bc_array c) = set_op (elems (bc_array c1)) (elems (bc_array c2)).
Proof.
  unfold bitset_container_fn. pose proof (bw_length _ H1) as Hl. pose proof same as Hs. unfold zlen in Hl, Hs.
  rewrite (fn_loop_spec op 512) by lia. cbn [mbind option_bind].
  destruct fn_words as [Hw Hz]. eexists. split; [done |]. split; [| apply Hop, same].
  split; [by split |]. cbn. lia.
Qed.

Lemma bitset_fn_nocard_spec : let c := bitset_container_fn_nocard op c1 c2 in
  bitset_wf c /\ bc_cardinality c = BITSET_UNKNOWN_CARDINALITY /\
  elems (bc_array c) = set_op (elems (bc_array c1)) (elems (bc_array c2)).
Proof.
  destruct fn_words as [Hw Hz]. split; [by split |]. split; [done |]. apply Hop, same.
Qed.

Lemma bitset_fn_justcard_spec :
  bitset_container_fn_justcard op c1 c2 = Some (zlen (set_op (elems (bc_array c1)) (elems (bc_array c2)))).
Proof.
  unfold bitset_container_fn_justcard. pose proof (bw_length _ H1) as Hl. pose proof same as Hs. unfold zlen in Hl, Hs.
  rewrite (fn_loop_spec op 512) by lia. cbn [mbind option_bind]. unfold popcount.
  by rewrite (wo_elems _ _ Hop) by exact same.
Qed.

End fn.
