(* ===== verification/RoaringBitsetContainer.v ===== *)
(** * Roaring bitmaps: the operations of the bitset container

    Every [bitset_container_*] function of [RoaringBitset] on a container
    that satisfies [bitset_ok]: single values, ranges, comparisons, order
    statistics and bytes. *)

From stdpp Require Import base list list_numbers numbers option sorting.
From Stdlib Require Import ZArith Lia ZifyBool.
From S2P Require Import Prelude.
From S2P Require Import RoaringArrays.
From S2P Require Import RoaringArrayContainer.
From S2P Require Import RoaringArrayFacts.
From S2P Require Import RoaringBitset.
From S2P Require Import RoaringBitsetFacts.
From S2P Require Import RoaringBitsetOps.

Local Open Scope Z_scope.

Definition bc_elems (b : bitset_container_t) : list Z := elems (bc_array b).

Lemma bc_elems_strict b : strict (bc_elems b).
Proof. apply elems_strict. Qed.

Lemma bc_elems_sorted b : bitset_wf b -> sorted16 (bc_elems b).
Proof.
  intros [Hl _]. split; [apply elems_strict |]. apply Forall_forall.
  intros x Hx%elems_range. rewrite Hl in Hx. split; lia.
Qed.

Lemma bc_elems_range b x : bitset_wf b -> x ∈ bc_elems b -> in_u 16 x.
Proof. intros H Hx. destruct (bc_elems_sorted b H) as [_ Hr]. rewrite Forall_forall in Hr. auto. Qed.

Lemma bc_card_elems b : bitset_ok b -> bc_cardinality b = zlen (bc_elems b).
Proof. by intros [_ ->]. Qed.

Lemma bc_card_range b : bitset_ok b -> 0 <= bc_cardinality b <= 65536.
Proof.
  intros H. rewrite bc_card_elems by done. split; [apply zlen_nonneg |].
  apply sorted16_length, bc_elems_sorted, H.
Qed.

Lemma bc_words b x : bitset_wf b -> in_u 16 x -> in_words (bc_array b) x.
Proof. intros [Hl _] Hx. unfold in_words. rewrite Hl. destruct Hx. split; lia. Qed.

(** [o] is a container in order that holds [l]. *)
Definition bitset_result (o : option bitset_container_t) (l : list Z) : Prop :=
  exists b, o = Some b /\ bitset_ok b /\ bc_elems b = l.

Lemma words_result_wf b o l card : bitset_wf b -> words_result (bc_array b) o l ->
  exists ws, o = Some ws /\ bitset_wf (mk_bitset card ws) /\ elems ws = l.
Proof.
  intros [Hl Hw] (ws & -> & Hz & Hok & He). exists ws. split; [done |]. split; [| done].
  split; cbn; [lia | done].
Qed.

(** ** Single values *)

Lemma bitset_get_spec b x : bitset_wf b -> in_u 16 x ->
  bitset_container_get b x = Some (bool_decide (x ∈ bc_elems b)).
Proof.
  intros Hb Hx. destruct (in_words_rd _ _ (bc_words b x Hb Hx)) as [w Hw].
  unfold bitset_container_get. rewrite shiftr6, Hw, land63. cbn [mbind option_bind]. f_equal.
  unfold bc_elems. rewrite (bool_decide_ext _ _ (elem_pos_bit _ _ _ Hw)).
  unfold shr64. change 1 with (Z.ones 1) at 1. rewrite Z.land_ones by lia. change (2 ^ 1) with 2.
  rewrite Zmod_odd, <- Z.bit0_odd, Z.shiftr_spec by lia. rewrite Z.add_0_l.
  by destruct (Z.testbit w (x mod 64)).
Qed.

Lemma bit_increment b x w : rd (bc_array b) (x / 64) = Some w ->
  Z.testbit w (x mod 64) = bool_decide (x ∈ bc_elems b).
Proof.
  intros Hw. unfold bc_elems. rewrite (bool_decide_ext _ _ (elem_pos_bit _ _ _ Hw)).
  by destruct (Z.testbit w (x mod 64)).
Qed.

Lemma bitset_add_spec b x : bitset_ok b -> in_u 16 x ->
  exists b', bitset_container_add b x = Some (bool_decide (x ∉ bc_elems b), b') /\ bitset_ok b' /\
    bc_elems b' = union_loop (bc_elems b) [x].
Proof.
  intros Hb Hx. destruct (in_words_rd _ _ (bc_words b x (bo_wf _ Hb) Hx)) as [w Hw].
  pose proof (words_ok_rd _ _ _ (bw_words _ (bo_wf _ Hb)) Hw) as Hwr.
  unfold bitset_container_add. rewrite shiftr6, Hw, land63. cbn [mbind option_bind].
  rewrite set_increment by (done || div64). rewrite (bit_increment _ _ _ Hw).
  destruct (words_result_wf b _ _ (bc_cardinality b + u32 (if bool_decide (x ∈ bc_elems b) then 0 else 1))
    (bo_wf _ Hb) (set_bit_result _ _ _ (bw_words _ (bo_wf _ Hb)) Hw)) as (ws & -> & Hwf & He).
  cbn [mbind option_bind]. eexists (mk_bitset _ ws). split; [| split; [| exact He]].
  - repeat f_equal. by repeat case_bool_decide.
  - split; [done |]. cbn. unfold popcount. rewrite He, zlen_union_one by apply elems_strict.
    rewrite (bo_card _ Hb). unfold popcount. f_equal. unfold bc_elems.
    destruct (decide _); [by rewrite bool_decide_true | by rewrite bool_decide_false].
Qed.

Lemma bitset_set_spec b x : bitset_ok b -> in_u 16 x ->
  bitset_result (bitset_container_set b x) (union_loop (bc_elems b) [x]).
Proof.
  intros Hb Hx. destruct (bitset_add_spec b x Hb Hx) as (b' & E & Hok & He).
  exists b'. split; [| done]. unfold bitset_container_add in E. unfold bitset_container_set.
  destruct (rd _ _) as [w|]; [| done]. cbn [mbind option_bind] in *.
  destruct (wr _ _ _) as [ws|]; [| done]. cbn [mbind option_bind] in *. congruence.
Qed.

Lemma bitset_remove_spec b x : bitset_ok b -> in_u 16 x ->
  exists b', bitset_container_remove b x = Some (bool_decide (x ∈ bc_elems b), b') /\ bitset_ok b' /\
    bc_elems b' = minus (bc_elems b) [x].
Proof.
  intros Hb Hx. destruct (in_words_rd _ _ (bc_words b x (bo_wf _ Hb) Hx)) as [w Hw].
  pose proof (words_ok_rd _ _ _ (bw_words _ (bo_wf _ Hb)) Hw) as Hwr.
  unfold bitset_container_remove. rewrite shiftr6, Hw, land63. cbn [mbind option_bind].
  rewrite unset_increment by (done || div64). rewrite (bit_increment _ _ _ Hw).
  destruct (words_result_wf b _ _ (bc_cardinality b - u32 (if bool_decide (x ∈ bc_elems b) then 1 else 0))
    (bo_wf _ Hb) (unset_bit_result _ _ _ (bw_words _ (bo_wf _ Hb)) Hw)) as (ws & -> & Hwf & He).
  cbn [mbind option_bind]. eexists (mk_bitset _ ws). split; [| split; [| exact He]].
  - repeat f_equal. by repeat case_bool_decide.
  - split; [done |]. cbn. unfold popcount. rewrite He, zlen_minus_one by apply elems_strict.
    rewrite (bo_card _ Hb). unfold popcount. f_equal. unfold bc_elems.
    destruct (decide _); [by rewrite bool_decide_true | by rewrite bool_decide_false].
Qed.

Lemma bitset_unset_spec b x : bitset_ok b -> in_u 16 x ->
  bitset_result (bitset_container_unset b x) (minus (bc_elems b) [x]).
Proof.
  intros Hb Hx. destruct (bitset_remove_spec b x Hb Hx) as (b' & E & Hok & He).
  exists b'. split; [| done]. unfold bitset_container_remove in E. unfold bitset_container_unset.
  destruct (rd _ _) as [w|]; [| done]. cbn [mbind option_bind] in *.
  destruct (wr _ _ _) as [ws|]; [| done]. cbn [mbind option_bind] in *. congruence.
Qed.

(** ** Cardinality *)

Lemma bitset_compute_cardinality_spec b : bitset_wf b ->
  bitset_container_compute_cardinality b = Some (zlen (bc_elems b)).
Proof.
  intros [Hl _]. unfold bitset_container_compute_cardinality, zlen in *.
  rewrite (compute_cardinality_loop_spec _ _ 256) by lia. f_equal; lia.
Qed.

(** Recomputing the cardinality makes a lazy container exact. *)
Lemma bitset_repair b : bitset_wf b -> bitset_ok (mk_bitset (zlen (bc_elems b)) (bc_array b)).
Proof. intros [Hl Hw]. split; [by split | done]. Qed.

(** The cardinality is known and right, or unknown. *)
Definition bitset_lazy (b : bitset_container_t) : Prop :=
  bitset_wf b /\ (bc_cardinality b = BITSET_UNKNOWN_CARDINALITY \/ bitset_ok b).

Lemma bitset_ok_lazy b : bitset_ok b -> bitset_lazy b.
Proof. intros H. split; [apply H | by right]. Qed.

Lemma bitset_nonzero_cardinality_spec b : bitset_lazy b ->
  exists b', bitset_container_nonzero_cardinality b = Some (bool_decide (bc_elems b <> []), b') /\
    bitset_ok b' /\ bc_elems b' = bc_elems b.
Proof.
  intros [Hwf Hc]. unfold bitset_container_nonzero_cardinality.
  assert (exists b', (if bc_cardinality b =? BITSET_UNKNOWN_CARDINALITY then
         card ← bitset_container_compute_cardinality b; Some (mk_bitset card (bc_array b))
       else Some b) = Some b' /\ bitset_ok b' /\ bc_elems b' = bc_elems b) as (b' & -> & Hok & He).
  { destruct (Z.eqb_spec (bc_cardinality b) BITSET_UNKNOWN_CARDINALITY).
    - rewrite bitset_compute_cardinality_spec by done. cbn [mbind option_bind].
      eexists. split; [done |]. split; [by apply bitset_repair | done].
    - exists b. split; [done |]. by destruct Hc. }
  cbn [mbind option_bind]. exists b'. split; [| done]. do 2 f_equal.
  rewrite bc_card_elems, He by done. destruct (bc_elems b) as [|x l].
  - by rewrite bool_decide_false by tauto.
  - rewrite bool_decide_true by done. rewrite zlen_cons. pose proof (zlen_nonneg l). lia.
Qed.

Lemma bitset_empty_spec b : bitset_lazy b ->
  bitset_container_empty b = Some (zlen (bc_elems b) =? 0).
Proof.
  intros [[Hl Hw] Hc]. unfold bitset_container_empty.
  destruct (Z.eqb_spec (bc_cardinality b) BITSET_UNKNOWN_CARDINALITY).
  - rewrite all_zero_count by (done || (rewrite Hl; done)). f_equal. f_equal.
    rewrite count_in_all; [done |]. intros x Hx%elems_range. rewrite Hl in Hx.
    change (BITSET_CONTAINER_SIZE_IN_WORDS) with 1024. lia.
  - destruct Hc as [| Hok]; [done |]. by rewrite bc_card_elems.
Qed.

(** ** Ranges *)

Lemma bitset_set_range_container b s e : bitset_wf b -> 0 <= s <= e -> e <= 65536 ->
  bitset_result (bitset_container_set_range b s e) (union_loop (bc_elems b) (seqZ s (e - s))).
Proof.
  intros [Hl Hw] Hs He. unfold bitset_container_set_range.
  destruct (words_result_wf b _ _ (bc_cardinality b) (Build_bitset_wf _ Hl Hw)
    (set_range_result (bc_array b) s e Hw Hs ltac:(lia))) as (ws & -> & Hwf & E).
  cbn [mbind option_bind]. rewrite bitset_compute_cardinality_spec by done. cbn [mbind option_bind].
  eexists. split; [done |]. split; [| done]. by apply (bitset_repair (mk_bitset (bc_cardinality b) ws)).
Qed.

(** [(w & m) == m]: the bits of [m] are set in [w]. *)
Lemma land_mask w m : in_u 64 m ->
  (Z.land w m =? m) = true <-> forall n, 0 <= n < 64 -> Z.testbit m n = true -> Z.testbit w n = true.
Proof.
  intros Hm. rewrite Z.eqb_eq. split.
  - intros E n Hn Hb. rewrite <- E, Z.land_spec in Hb. by apply andb_prop in Hb as [].
  - intros H. apply Z.bits_inj'. intros n Hn. rewrite Z.land_spec.
    destruct (decide (n < 64)); [| by rewrite (in_u_testbit 64 m) by (done || lia); apply andb_false_r].
    destruct (Z.testbit m n) eqn:E; [by rewrite H by (done || lia) | apply andb_false_r].
Qed.

Lemma eqb_iff_false (b : bool) (P : Prop) : (b = true <-> P) -> b = false -> ~ P.
Proof. intros H -> HP. apply H in HP. done. Qed.

Lemma testbit_below k n : 0 <= k < 64 -> 0 <= n -> Z.testbit (shl64 1 k - 1) n = (n <? k).
Proof.
  intros Hk Hn. unfold shl64, u64. rewrite Z.shiftl_1_l, uwrap_id.
  - replace (2 ^ k - 1) with (Z.ones k) by (rewrite Z.ones_equiv; lia).
    rewrite Z.testbit_ones_nonneg by lia. done.
  - split; [lia |]. apply Z.pow_lt_mono_r; lia.
Qed.

Lemma in_u64_below k : 0 <= k < 64 -> in_u 64 (shl64 1 k - 1).
Proof.
  intros Hk. unfold shl64, u64. rewrite Z.shiftl_1_l, uwrap_id.
  - pose proof (Z.pow_pos_nonneg 2 k ltac:(lia) ltac:(lia)).
    pose proof (Z.pow_lt_mono_r 2 k 64 ltac:(lia) ltac:(lia) ltac:(lia)). split; lia.
  - split; [lia |]. apply Z.pow_lt_mono_r; lia.
Qed.

Lemma all_ones_spec fuel ws i e : words_ok ws -> zlen ws = 1024 -> 0 <= i ->
  Z.max 0 (e - i) < Z.of_nat fuel ->
  exists r, all_ones fuel ws i e = Some r /\
    (r = true <-> forall x, 64 * i <= x < 64 * Z.min 1024 e -> x ∈ elems ws).
Proof.
  intros Hok Hl. revert i. induction fuel as [|fuel IH]; intros i Hi Hf; [lia |].
  cbn [all_ones]. change BITSET_CONTAINER_SIZE_IN_WORDS with 1024.
  destruct ((i <? 1024) && (i <? e)) eqn:E.
  2: { exists true. split; [done |]. split; [| done]. intros _ x Hx. lia. }
  destruct (rd_Some ws i) as [w Hw]; [lia |]. rewrite Hw. cbn [mbind option_bind].
  assert ((w =? ones64) = true <-> forall x, 64 * i <= x < 64 * i + 64 -> x ∈ elems ws) as Hone.
  { replace (w =? ones64) with (Z.land w ones64 =? ones64).
    - rewrite land_mask by apply in_u64_ones. split.
      + intros H x Hx. assert (x / 64 = i) as Ex by div64. apply elems_bit.
        rewrite (bit_rd ws x w) by (by rewrite Ex). apply H; [div64 |].
        rewrite testbit_ones64 by div64. div64.
      + intros H n Hn _. specialize (H (64 * i + n) ltac:(lia)). apply elems_bit in H.
        assert ((64 * i + n) / 64 = i /\ (64 * i + n) mod 64 = n) as [E1 E2] by div64.
        rewrite (bit_rd ws _ w) in H by (by rewrite E1). by rewrite E2 in H.
    - f_equal. change ones64 with (Z.ones 64). rewrite Z.land_ones by lia.
      apply Z.mod_small. by eapply words_ok_rd. }
  destruct (w =? ones64) eqn:Ew.
  - destruct (IH (i + 1)) as (r & -> & Hr); [lia | lia |]. exists r. split; [done |]. rewrite Hr. split.
    + intros H x Hx. destruct (decide (x < 64 * i + 64)); [apply Hone; [done | lia] | apply H; lia].
    + intros H x Hx. apply H. lia.
  - exists false. split; [done |]. split; [done |]. intros H. apply Hone. intros x Hx. apply H. lia.
Qed.

Lemma bitset_get_range_spec b s e : bitset_wf b -> 0 <= s < e -> e <= 65536 ->
  exists r, bitset_container_get_range b s e = Some r /\
    (r = true <-> forall x, s <= x < e -> x ∈ bc_elems b).
Proof.
  intros [Hl Hok] Hs He. unfold bitset_container_get_range. rewrite !shiftr6, !land63.
  set (first := not64 _). set (last := shl64 1 (e mod 64) - 1).
  assert (in_u 64 first) as Hfr by apply in_u64_not.
  assert (in_u 64 last) as Hlr by (apply in_u64_below; div64).
  assert (forall n, 0 <= n < 64 -> Z.testbit first n = (s mod 64 <=? n)) as Hf.
  { intros n Hn. subst first. rewrite testbit_not64, testbit_below by div64. lia. }
  assert (forall n, 0 <= n < 64 -> Z.testbit last n = (n <? e mod 64)) as Hla.
  { intros n Hn. subst last. apply testbit_below; div64. }
  assert (forall k w x, rd (bc_array b) k = Some w -> x / 64 = k ->
    x ∈ bc_elems b <-> Z.testbit w (x mod 64) = true) as Hmem.
  { intros k w x Hw Hx. unfold bc_elems. rewrite elems_bit, (bit_rd _ x w) by congruence. done. }
  destruct (Z.eqb_spec (s / 64) (e / 64)) as [Hse | Hse].
  - destruct (rd_Some (bc_array b) (e / 64)) as [w Hw]; [div64 |]. rewrite Hw. cbn [mbind option_bind].
    eexists. split; [done |]. rewrite <- Z.land_assoc.
    rewrite land_mask by (apply in_u_land; [lia | done | by destruct Hlr]). split.
    + intros H x Hx. apply (Hmem _ _ _ Hw); [div64 |]. apply H; [div64 |].
      rewrite Z.land_spec, Hf, Hla by div64. div64.
    + intros H n Hn. rewrite Z.land_spec, Hf, Hla by done. intros Hb.
      specialize (H (64 * (e / 64) + n)). rewrite (Hmem _ _ _ Hw) in H by div64.
      replace ((64 * (e / 64) + n) mod 64) with n in H by div64. apply H. div64.
  - destruct (rd_Some (bc_array b) (s / 64)) as [w Hw]; [div64 |]. rewrite Hw. cbn [mbind option_bind].
    assert ((Z.land w first =? first) = true <-> forall x, s <= x < 64 * (s / 64) + 64 -> x ∈ bc_elems b) as H1.
    { rewrite land_mask by done. split.
      - intros H x Hx. apply (Hmem _ _ _ Hw); [div64 |]. apply H; [div64 |]. rewrite Hf by div64. div64.
      - intros H n Hn. rewrite Hf by done. intros Hb. specialize (H (64 * (s / 64) + n)).
        rewrite (Hmem _ _ _ Hw) in H by div64. replace ((64 * (s / 64) + n) mod 64) with n in H by div64.
        apply H. div64. }
    destruct (Z.land w first =? first) eqn:E1; cbn [negb].
    2: { exists false. split; [done |]. split; [done |]. intros H. apply H1. intros x Hx. apply H. div64. }
    assert (exists stop, (if e / 64 <? BITSET_CONTAINER_SIZE_IN_WORDS then
                w ← rd (bc_array b) (e / 64); Some (negb (Z.land w last =? last))
              else Some false) = Some stop /\
       (stop = false <-> forall x, 64 * (e / 64) <= x < e -> x ∈ bc_elems b)) as (stop & -> & Hstop).
    { change BITSET_CONTAINER_SIZE_IN_WORDS with 1024. destruct (Z.ltb_spec (e / 64) 1024).
      - destruct (rd_Some (bc_array b) (e / 64)) as [w2 Hw2]; [div64 |]. rewrite Hw2. cbn [mbind option_bind].
        eexists. split; [done |]. rewrite negb_false_iff, land_mask by done. split.
        + intros H' x Hx. apply (Hmem _ _ _ Hw2); [div64 |]. apply H'; [div64 |]. rewrite Hla by div64. div64.
        + intros H' n Hn. rewrite Hla by done. intros Hb. specialize (H' (64 * (e / 64) + n)).
          rewrite (Hmem _ _ _ Hw2) in H' by div64. replace ((64 * (e / 64) + n) mod 64) with n in H' by div64.
          apply H'. div64.
      - exists false. split; [done |]. split; [| done]. intros _ x Hx. div64. }
    cbn [mbind option_bind]. destruct stop.
    + exists false. split; [done |]. split; [done |]. intros H. symmetry.
      apply Hstop. intros x Hx. apply H. div64.
    + destruct (all_ones_spec (S (Z.to_nat (e / 64 - s / 64))) (bc_array b) (s / 64 + 1) (e / 64)) as (r & -> & Hr);
        [done | done | div64 | div64 |].
      exists r. split; [done |]. rewrite Hr. split; intros H x Hx.
      * destruct (decide (x < 64 * (s / 64) + 64)); [apply H1; [done | lia] |].
        destruct (decide (64 * (e / 64) <= x)); [apply Hstop; [done | lia] |]. apply H. div64.
      * apply H. div64.
Qed.

(** ** Comparisons *)

Lemma elems_inj a b : words_ok a -> words_ok b -> zlen a = zlen b -> elems a = elems b -> a = b.
Proof.
  intros Ha. revert b. induction Ha as [|w a Hw Ha IH]; intros b Hb Hl He.
  - destruct b; [done |]. rewrite zlen_cons, zlen_nil in Hl. pose proof (zlen_nonneg b). lia.
  - destruct Hb as [|v b Hv Hb]; [rewrite zlen_cons, zlen_nil in Hl; pose proof (zlen_nonneg a); lia |].
    rewrite !zlen_cons in Hl. rewrite !elems_cons in He.
    assert (word_bits w = word_bits v /\ elems a = elems b) as [E1 E2].
    { assert (forall x, x ∈ word_bits w ++ ((fun y => 64 + y) <$> elems a) <->
                        x ∈ word_bits v ++ ((fun y => 64 + y) <$> elems b)) as H by (by rewrite He).
      assert (forall ws x, x ∈ elems ws -> 0 <= x) as Hpos by (intros ws x Hx%elems_range; lia).
      split; apply strict_ext; try apply word_bits_strict; try apply elems_strict; intros x.
      - specialize (H x). rewrite !elem_of_app, !elem_of_shift in H. split; intros Hx.
        + destruct (proj1 H) as [? | Hc]; [by left | done |].
          apply Hpos in Hc. apply elem_of_word_bits in Hx. lia.
        + destruct (proj2 H) as [? | Hc]; [by left | done |].
          apply Hpos in Hc. apply elem_of_word_bits in Hx. lia.
      - specialize (H (64 + x)). rewrite !elem_of_app, !elem_of_shift in H.
        replace (64 + x - 64) with x in H by lia. split; intros Hx.
        + destruct (proj1 H) as [Hc | ?]; [by right | | done].
          apply Hpos in Hx. apply elem_of_word_bits in Hc. lia.
        + destruct (proj2 H) as [Hc | ?]; [by right | | done].
          apply Hpos in Hx. apply elem_of_word_bits in Hc. lia. }
    f_equal; [| apply IH; [done | lia | done]]. apply Z.bits_inj'. intros n Hn.
    destruct (decide (n < 64)).
    + pose proof (elem_of_word_bits w n) as H1. pose proof (elem_of_word_bits v n) as H2.
      rewrite E1 in H1. destruct (Z.testbit w n), (Z.testbit v n); try done; exfalso.
      * cut (false = true); [done |]. apply H2, H1. split; [lia | done].
      * cut (false = true); [done |]. apply H1, H2. split; [lia | done].
    + by rewrite !(in_u_testbit 64) by (done || lia).
Qed.

Lemma mem64_inj a b : words_ok a -> words_ok b -> mem64 a = mem64 b -> a = b.
Proof.
  unfold mem64. intros Ha. revert b. induction Ha as [|x a Hx Ha IH]; intros b Hb H.
  - destruct Hb as [|y b]; [done |]. apply (f_equal length) in H.
    rewrite bind_cons, length_app, length_le_split in H. simpl in H. lia.
  - destruct Hb as [|y b Hy Hb].
    + apply (f_equal length) in H. rewrite bind_cons, length_app, length_le_split in H. simpl in H. lia.
    + rewrite !bind_cons in H. apply app_inj_1 in H as [H1 H2]; [| by rewrite !length_le_split].
      f_equal; [| auto]. apply (f_equal le_combine) in H1. rewrite !le_combine_split in H1.
      change (8 * Z.of_nat 8) with 64 in H1. by rewrite !Z.mod_small in H1.
Qed.

Lemma both_known_ok c1 c2 : bitset_lazy c1 -> bitset_lazy c2 -> both_known c1 c2 = true ->
  bitset_ok c1 /\ bitset_ok c2.
Proof.
  intros [_ H1] [_ H2] [E1%negb_true_iff%Z.eqb_neq E2%negb_true_iff%Z.eqb_neq]%andb_prop.
  destruct H1; [done |]. destruct H2; done.
Qed.

Lemma bitset_full b : bitset_ok b -> bc_cardinality b = 0x10000 -> bc_elems b = seqZ 0 65536.
Proof.
  intros Hok Hc. rewrite bc_card_elems in Hc by done.
  pose proof (bc_elems_sorted b (bo_wf _ Hok)) as [Hs Hr]. rewrite Forall_forall in Hr.
  apply strict_ext; [done | apply seqZ_strict |]. intros x. rewrite elem_of_seqZ. split.
  - intros Hx. destruct (Hr x Hx). lia.
  - intros Hx. destruct (decide (x ∈ bc_elems b)) as [| Hn]; [done |].
    pose proof (sorted16_room _ x (conj Hs (proj2 (Forall_forall _ _) Hr))) as H.
    assert (zlen (bc_elems b) <= 65535); [| lia]. apply H; [split; lia | done].
Qed.

Lemma bitset_equals_spec c1 c2 : bitset_lazy c1 -> bitset_lazy c2 ->
  bitset_container_equals c1 c2 = bool_decide (bc_elems c1 = bc_elems c2).
Proof.
  intros H1 H2. unfold bitset_container_equals. destruct (both_known c1 c2) eqn:Ek; cbn [andb].
  - destruct (both_known_ok _ _ H1 H2 Ek) as [O1 O2].
    destruct (Z.eqb_spec (bc_cardinality c1) (bc_cardinality c2)) as [E | E]; cbn [negb].
    + destruct (Z.eqb_spec (bc_cardinality c1) 0x10000).
      * rewrite bool_decide_true; [done |]. rewrite !bitset_full by (done || lia). done.
      * destruct H1 as [[L1 W1] _], H2 as [[L2 W2] _]. apply bool_decide_ext. unfold bc_elems. split.
        -- intros Hm. by rewrite (mem64_inj _ _ W1 W2 Hm).
        -- intros He. rewrite (elems_inj _ _ W1 W2) by (done || congruence). done.
    + rewrite bool_decide_false; [done |]. intros He. rewrite !bc_card_elems in E by done. by rewrite He in E.
  - destruct H1 as [[L1 W1] _], H2 as [[L2 W2] _]. apply bool_decide_ext. unfold bc_elems. split.
    + intros Hm. by rewrite (mem64_inj _ _ W1 W2 Hm).
    + intros He. rewrite (elems_inj _ _ W1 W2) by (done || congruence). done.
Qed.

Lemma land_left w v : in_u 64 w ->
  (Z.land w v =? w) = true <-> forall n, n ∈ word_bits w -> n ∈ word_bits v.
Proof.
  intros Hw. rewrite Z.land_comm, land_mask by done. split.
  - intros H n [Hn Hb]%elem_of_word_bits. apply elem_of_word_bits. auto.
  - intros H n Hn Hb. specialize (H n). rewrite !elem_of_word_bits in H. apply H. auto.
Qed.

Lemma bitset_subset_loop_spec a b : words_ok a -> zlen a = zlen b ->
  bitset_subset_loop a b = true <-> forall x, x ∈ elems a -> x ∈ elems b.
Proof.
  intros Ha. revert b. induction Ha as [|w a Hw Ha IH]; intros b Hl.
  - split; [| done]. intros _ x Hx. by apply not_elem_of_nil in Hx.
  - destruct b as [|v b]; [rewrite zlen_cons, zlen_nil in Hl; pose proof (zlen_nonneg a); lia |].
    rewrite !zlen_cons in Hl. cbn [bitset_subset_loop]. pose proof (land_left w v Hw) as Hwv.
    assert ((forall x, x ∈ elems (w :: a) -> x ∈ elems (v :: b)) <->
      (forall n, n ∈ word_bits w -> n ∈ word_bits v) /\ (forall x, x ∈ elems a -> x ∈ elems b)) as ->.
    { rewrite !elems_cons. split.
      - intros H. split.
        + intros n Hn. specialize (H n). rewrite !elem_of_app, !elem_of_shift in H.
          destruct H as [| Hc]; [by left | done |]. apply elems_range in Hc. apply elem_of_word_bits in Hn. lia.
        + intros x Hx. specialize (H (64 + x)). rewrite !elem_of_app, !elem_of_shift in H.
          replace (64 + x - 64) with x in H by lia. destruct H as [Hc |]; [by right | | done].
          apply elems_range in Hx. apply elem_of_word_bits in Hc. lia.
      - intros [H1 H2] x. rewrite !elem_of_app, !elem_of_shift. intros [Hx | Hx]; [left | right]; auto. }
    rewrite <- Hwv, <- (IH b) by lia. destruct (Z.land w v =? w); cbn [negb]; [tauto |].
    split; [done | intros [? _]; done].
Qed.

Lemma bitset_is_subset_spec c1 c2 : bitset_lazy c1 -> bitset_lazy c2 ->
  bitset_container_is_subset c1 c2 = true <-> forall x, x ∈ bc_elems c1 -> x ∈ bc_elems c2.
Proof.
  intros H1 H2. unfold bitset_container_is_subset.
  assert (bitset_subset_loop (bc_array c1) (bc_array c2) = true <->
    forall x, x ∈ bc_elems c1 -> x ∈ bc_elems c2) as Hloop.
  { destruct H1 as [[L1 W1] _], H2 as [[L2 W2] _]. apply bitset_subset_loop_spec; [done | congruence]. }
  destruct (both_known c1 c2) eqn:Ek; cbn [andb]; [| done].
  destruct (both_known_ok _ _ H1 H2 Ek) as [O1 O2]. rewrite !bc_card_elems by done.
  destruct (Z.ltb_spec (zlen (bc_elems c2)) (zlen (bc_elems c1))); [| done]. split; [done |].
  intros Hs. pose proof (strict_subset_length _ _ (bc_elems_strict c1) (bc_elems_strict c2) Hs). lia.
Qed.

Lemma bitset_intersect_spec c1 c2 : bitset_wf c1 -> bitset_wf c2 ->
  bitset_container_intersect c1 c2 = bool_decide (inter (bc_elems c1) (bc_elems c2) <> []).
Proof.
  intros [L1 W1] [L2 W2]. unfold bitset_container_intersect, bc_elems.
  rewrite <- (wo_elems _ _ word_op_land) by congruence. clear L1 L2.
  revert W2. generalize (bc_array c2) as b. generalize dependent (bc_array c1).
  intros a Ha. induction Ha as [|w a Hw Ha IH]; intros b Hb; [by rewrite bool_decide_false by tauto |].
  destruct Hb as [|v b Hv Hb]; [by rewrite bool_decide_false by tauto |]. cbn [bitset_intersect_loop zip_with].
  rewrite elems_cons. rewrite word_eq0 by (apply in_u_land; [lia | done | by destruct Hv]).
  unfold hamming. destruct (word_bits (Z.land w v)) as [|n l].
  - rewrite zlen_nil, Z.eqb_refl. cbn [negb]. rewrite IH by done. apply bool_decide_ext.
    cbn [app]. destruct (elems (zip_with Z.land a b)); done.
  - rewrite zlen_pos. cbn [negb]. by rewrite bool_decide_true.
Qed.

(** ** Order statistics *)

Lemma bitset_rank_spec b x : bitset_wf b -> in_u 16 x ->
  bitset_container_rank b x = Some (lb (bc_elems b) (x + 1)).
Proof.
  intros [Hl Hw] Hx. assert (0 <= x < 65536) as Hx' by (destruct Hx; split; lia).
  unfold bitset_container_rank. rewrite sum_words_count by div64. cbn [mbind option_bind].
  destruct (rd_Some (bc_array b) (x / 64)) as [w Hwd]; [div64 |]. rewrite Hwd. cbn [mbind option_bind].
  f_equal. fold (bc_elems b).
  assert (lb (bc_elems b) (x + 1) = count_in (bc_elems b) 0 (x + 1)) as ->.
  { rewrite count_in_lb by lia. rewrite (lb_none _ 0); [lia |]. apply Forall_forall.
    intros y Hy%elems_range. lia. }
  rewrite <- (count_in_split _ 0 (64 * (x / 64)) (x + 1)) by div64. f_equal.
  - rewrite Z.add_0_l. f_equal; div64.
  - unfold bc_elems. rewrite <- (count_in_word (bc_array b) (x / 64) w _ 0 (x mod 64 + 1) Hwd);
      [f_equal; div64 | lia | div64 |].
    intros n Hn. rewrite Z.land_spec. replace (0 <=? n) with true by lia. cbn [andb].
    rewrite andb_comm. f_equal. unfold shl64, u64. rewrite Z.shiftl_1_l.
    rewrite (uwrap_id 64 (2 ^ (x mod 64))) by (split; [lia | apply Z.pow_lt_mono_r; div64]).
    replace (2 ^ (x mod 64) + 2 ^ (x mod 64) - 1) with (Z.ones (x mod 64 + 1)).
    + unfold uwrap. rewrite Z.mod_pow2_bits_low by lia. rewrite Z.testbit_ones_nonneg by div64. done.
    + rewrite Z.ones_equiv, Z.pow_add_r by div64. lia.
Qed.

(** The smallest element from [x] on, or [-1]. *)
Definition next_from (l : list Z) (x r : Z) : Prop :=
  (r = -1 /\ forall y, y ∈ l -> y < x) \/
  (r ∈ l /\ x <= r /\ forall y, y ∈ l -> x <= y -> r <= y).

Lemma index_loop_spec fuel ws k word x : words_ok ws -> zlen ws = 1024 -> 0 <= k < 1024 ->
  1024 - k <= Z.of_nat fuel -> in_u 64 word -> x < 64 * (k + 1) ->
  (forall y, y ∈ elems ws -> x <= y -> 64 * k <= y) ->
  (forall n, 0 <= n < 64 -> Z.testbit word n = true <-> (64 * k + n ∈ elems ws /\ x <= 64 * k + n)) ->
  exists r, index_loop fuel ws k word = Some r /\ next_from (elems ws) x r.
Proof.
  intros Hok Hl. revert k word. induction fuel as [|fuel IH]; intros k word Hk Hf Hw Hx Hlow Hbits; [lia |].
  cbn [index_loop]. change BITSET_CONTAINER_SIZE_IN_WORDS with 1024.
  destruct (Z.eqb_spec word 0) as [-> | H0].
  - assert (forall y, y ∈ elems ws -> x <= y -> 64 * (k + 1) <= y) as Hlow'.
    { intros y Hy Hxy. specialize (Hlow y Hy Hxy). destruct (decide (y < 64 * (k + 1))); [| lia].
      specialize (Hbits (y - 64 * k) ltac:(lia)). rewrite Z.bits_0 in Hbits.
      replace (64 * k + (y - 64 * k)) with y in Hbits by lia. exfalso. cut (false = true); [done |]. apply Hbits. auto. }
    destruct (Z.eqb_spec (k + 1) 1024) as [Hend | Hend].
    + exists (-1). split; [done |]. left. split; [done |]. intros y Hy.
      destruct (decide (x <= y)) as [Hxy |]; [| lia]. specialize (Hlow' y Hy Hxy). apply elems_range in Hy. lia.
    + destruct (rd_Some ws (k + 1)) as [w' Hw']; [lia |]. rewrite Hw'. cbn [mbind option_bind].
      apply IH; [lia | lia | by eapply words_ok_rd | lia | done |].
      intros n Hn. assert ((64 * (k + 1) + n) / 64 = k + 1 /\ (64 * (k + 1) + n) mod 64 = n) as [E1 E2] by div64.
      rewrite elems_bit, (bit_rd ws _ w') by (by rewrite E1). rewrite E2.
      split; [| tauto]. intros Hb. split; [done | lia].
  - destruct (ctz_testbit word) as (Hc & Hb & Hmin); [destruct Hw; lia |].
    destruct (word_bits_step word Hw H0) as (_ & _ & Hc64).
    exists (k * 64 + ctz word). split; [done |]. right.
    rewrite Z.mul_comm. destruct (proj1 (Hbits (ctz word) ltac:(lia)) Hb) as [Hin Hge].
    split; [done |]. split; [done |]. intros y Hy Hxy. specialize (Hlow y Hy Hxy).
    destruct (decide (64 * k + ctz word <= y)); [done |]. exfalso.
    cut (false = true); [done |]. rewrite <- (Hmin (y - 64 * k)) by lia. apply Hbits; [lia |].
    by replace (64 * k + (y - 64 * k)) with y by lia.
Qed.

Lemma bitset_index_equalorlarger_spec b x : bitset_wf b -> in_u 16 x ->
  exists r, bitset_container_index_equalorlarger b x = Some r /\ next_from (bc_elems b) x r.
Proof.
  intros [Hl Hw] Hx. assert (0 <= x < 65536) as Hx' by (destruct Hx; split; lia).
  unfold bitset_container_index_equalorlarger.
  destruct (rd_Some (bc_array b) (x / 64)) as [w Hwd]; [div64 |]. rewrite Hwd. cbn [mbind option_bind].
  pose proof (words_ok_rd _ _ _ Hw Hwd) as Hwr.
  apply index_loop_spec; [done | done | div64 | | apply in_u64_shl | div64 | div64 |].
  - change BITSET_CONTAINER_SIZE_IN_WORDS with 1024. div64.
  - intros n Hn. rewrite testbit_shl64 by div64. unfold shr64.
    assert ((64 * (x / 64) + n) / 64 = x / 64 /\ (64 * (x / 64) + n) mod 64 = n) as [E1 E2] by div64.
    rewrite elems_bit, (bit_rd (bc_array b) _ w) by (by rewrite E1). rewrite E2.
    destruct (Z.leb_spec (x - x / 64 * 64) n) as [Hle | Hgt]; cbn [andb].
    + rewrite Z.shiftr_spec by lia. replace (n - (x - x / 64 * 64) + (x - x / 64 * 64)) with n by lia.
      split; [| tauto]. intros Hb. split; [done | lia].
    + split; [done |]. intros [_ ?]. lia.
Qed.

Lemma bitset_minimum_loop_spec ws i : words_ok ws -> 0 <= i -> i + zlen ws <= 1024 -> elems ws <> [] ->
  exists m, m ∈ elems ws /\ (forall y, y ∈ elems ws -> m <= y) /\ bitset_minimum_loop ws i = 64 * i + m.
Proof.
  intros Hok. revert i. induction Hok as [|w ws Hw Hok IH]; intros i Hi Hl Hne; [done |].
  rewrite zlen_cons in Hl. cbn [bitset_minimum_loop]. rewrite elems_cons in Hne |- *.
  pose proof (zlen_nonneg ws). destruct (Z.eqb_spec w 0) as [-> | H0].
  - rewrite word_bits_0 in *. cbn [app] in *.
    destruct (IH (i + 1)) as (m & Hm & Hmin & ->); [lia | lia | by intros E; rewrite E in Hne |].
    exists (64 + m). split; [apply elem_of_shift; by replace (64 + m - 64) with m by lia |]. split; [| lia].
    intros y Hy%elem_of_shift. specialize (Hmin _ Hy). lia.
  - destruct (word_bits_step w Hw H0) as (E & _ & Hc). destruct (ctz_testbit w) as (Hc0 & _); [destruct Hw; lia |].
    exists (ctz w). rewrite E. split; [constructor |]. split.
    + intros y [Hy | Hy%elem_of_shift%elems_range]%elem_of_app; [| lia].
      pose proof (word_bits_strict w) as Hs. rewrite E in Hs.
      apply elem_of_cons in Hy as [-> | Hy]; [done |]. pose proof (strict_head _ _ _ Hs Hy). lia.
    + unfold u16. rewrite uwrap_id by (split; lia). lia.
Qed.

Lemma bitset_minimum_spec b : bitset_wf b -> bc_elems b <> [] ->
  bitset_container_minimum b ∈ bc_elems b /\ forall y, y ∈ bc_elems b -> bitset_container_minimum b <= y.
Proof.
  intros [Hl Hw] Hne. unfold bitset_container_minimum.
  destruct (bitset_minimum_loop_spec (bc_array b) 0) as (m & Hm & Hmin & ->); [done | lia | lia | done |].
  by rewrite Z.mul_0_r, Z.add_0_l.
Qed.

(** The largest element, provided it is not in the first word. *)
Lemma bitset_maximum_loop_spec n ws : words_ok ws -> Z.of_nat n < zlen ws -> zlen ws <= 1024 ->
  (forall y, y ∈ elems ws -> y < 64 * (Z.of_nat n + 1)) ->
  (exists y, y ∈ elems ws /\ 64 <= y) ->
  exists m, bitset_maximum_loop n ws = Some m /\ m ∈ elems ws /\ forall y, y ∈ elems ws -> y <= m.
Proof.
  intros Hok. induction n as [|n IH]; intros Hn Hl Hall (y0 & Hy0 & Hge); [specialize (Hall _ Hy0); lia |].
  cbn [bitset_maximum_loop]. destruct (rd_Some ws (Z.of_nat (S n))) as [w Hw]; [lia |].
  pose proof Hw as Hw'. unfold rd in Hw'. rewrite (proj2 (Z.leb_le 0 _)), Nat2Z.id in Hw' by lia. rewrite Hw'.
  cbn [mbind option_bind]. pose proof (words_ok_rd _ _ _ Hok Hw) as Hwr.
  assert (forall k, 0 <= k < 64 -> 64 * Z.of_nat (S n) + k ∈ elems ws <-> Z.testbit w k = true) as Hbits.
  { intros k Hk. assert ((64 * Z.of_nat (S n) + k) / 64 = Z.of_nat (S n) /\ (64 * Z.of_nat (S n) + k) mod 64 = k)
      as [E1 E2] by div64. rewrite elems_bit, (bit_rd ws _ w) by (by rewrite E1). by rewrite E2. }
  destruct (Z.eqb_spec w 0) as [-> | H0].
  - apply IH; [lia | done | | by exists y0]. intros y Hy. specialize (Hall y Hy).
    destruct (decide (y < 64 * (Z.of_nat n + 1))); [done |]. exfalso.
    specialize (Hbits (y - 64 * Z.of_nat (S n)) ltac:(lia)).
    replace (64 * Z.of_nat (S n) + (y - 64 * Z.of_nat (S n))) with y in Hbits by lia.
    apply Hbits in Hy. by rewrite Z.bits_0 in Hy.
  - assert (0 < w) as Hp by (destruct Hwr; lia). pose proof (Z.log2_nonneg w).
    assert (Z.log2 w < 64) as H64 by (apply Z.log2_lt_pow2; [done | apply Hwr]).
    eexists. split; [done |]. unfold clz.
    replace (Z.of_nat (S n) * 64 + 63 - (63 - Z.log2 w)) with (64 * Z.of_nat (S n) + Z.log2 w) by lia.
    unfold u16. rewrite uwrap_id by (split; lia). split; [apply Hbits; [lia | by apply Z.bit_log2] |].
    intros y Hy. specialize (Hall y Hy). destruct (decide (y <= 64 * Z.of_nat (S n) + Z.log2 w)); [done |]. exfalso.
    specialize (Hbits (y - 64 * Z.of_nat (S n)) ltac:(lia)).
    replace (64 * Z.of_nat (S n) + (y - 64 * Z.of_nat (S n))) with y in Hbits by lia.
    apply Hbits in Hy. rewrite Z.bits_above_log2 in Hy by lia. done.
Qed.

Lemma bitset_maximum_spec b : bitset_wf b -> (exists y, y ∈ bc_elems b /\ 64 <= y) ->
  exists m, bitset_container_maximum b = Some m /\ m ∈ bc_elems b /\ forall y, y ∈ bc_elems b -> y <= m.
Proof.
  intros [Hl Hw] Hex. unfold bitset_container_maximum. change BITSET_CONTAINER_SIZE_IN_WORDS with 1024.
  apply bitset_maximum_loop_spec; [done | lia | lia | | done]. intros y Hy%elems_range. lia.
Qed.

(** A container of more than 64 values has one outside the first word. *)
Lemma bitset_large b : bitset_wf b -> 64 < zlen (bc_elems b) -> exists y, y ∈ bc_elems b /\ 64 <= y.
Proof.
  intros Hb Hl. destruct (rd_Some (bc_elems b) (zlen (bc_elems b) - 1)) as [m Hm]; [lia |].
  exists m. split; [by eapply rd_elem |]. destruct (decide (64 <= m)); [done |].
  pose proof (last_max _ _ (bc_elems_strict b) Hm) as Hmax.
  assert (zlen (bc_elems b) <= 64 - 0); [| lia].
  apply strict_length_bound; [apply bc_elems_strict | | lia].
  intros y Hy. specialize (Hmax y Hy). apply elems_range in Hy. lia.
Qed.

Lemma select_word_spec fuel w base start rank : in_u 64 w -> hamming w < Z.of_nat fuel ->
  0 <= start <= rank -> rank < 2 ^ 32 - 65 ->
  select_word fuel w base start rank =
    Some (match rd (word_bits w) (rank - start) with
          | Some i => inr (i + base)
          | None => inl (start + hamming w)
          end).
Proof.
  revert w start. induction fuel as [|fuel IH]; intros w start Hw Hf Hs Hr; [pose proof (hamming_range w); lia |].
  cbn [select_word]. destruct (Z.eqb_spec w 0) as [-> | H0].
  - replace (rd (word_bits 0) (rank - start)) with (@None Z); [by replace (hamming 0) with 0 by done; rewrite Z.add_0_r |].
    rewrite word_bits_0. unfold rd. by destruct (0 <=? rank - start).
  - rewrite (hamming_cons w Hw H0) in Hf |- *. destruct (word_bits_step w Hw H0) as (-> & Hw' & _).
    rewrite rd_cons. destruct (Z.eqb_spec start rank) as [-> | Hne].
    + by rewrite Z.sub_diag.
    + rewrite (proj2 (Z.eqb_neq (rank - start) 0)) by lia. unfold u32. rewrite uwrap_id by (split; lia).
      rewrite IH by (done || lia). replace (rank - (start + 1)) with (rank - start - 1) by lia.
      destruct (rd _ _); [done |]. do 2 f_equal. lia.
Qed.

Lemma select_words_spec ws i start rank : words_ok ws -> 0 <= i -> i + zlen ws <= 1024 ->
  0 <= start <= rank -> rank < 2 ^ 31 -> rank - start < popcount ws ->
  select_words ws i start rank = (fun x => 64 * i + x) <$> rd (elems ws) (rank - start).
Proof.
  intros Hok. revert i start. induction Hok as [|w ws Hw Hok IH]; intros i start Hi Hl Hs Hr Hp;
    [rewrite popcount_nil in Hp; lia |].
  rewrite zlen_cons in Hl. rewrite popcount_cons in Hp. pose proof (zlen_nonneg ws).
  pose proof (hamming_range w). cbn [select_words]. unfold u32.
  rewrite (uwrap_id 32) by (split; lia). unfold u16. rewrite uwrap_id by (split; lia). rewrite elems_cons.
  destruct (Z.leb_spec rank (start + hamming w)) as [Hle | Hgt].
  - rewrite select_word_spec by (done || lia). cbn [mbind option_bind].
    destruct (decide (rank - start < hamming w)) as [Hlt | Hge].
    + rewrite rd_app_l by done. destruct (rd_Some (word_bits w) (rank - start)) as [k Hk]; [unfold hamming in Hlt; lia |].
      rewrite Hk. cbn. f_equal. lia.
    + replace (rd (word_bits w) (rank - start)) with (@None Z).
      2: { unfold rd, hamming, zlen in *. rewrite (proj2 (Z.leb_le 0 _)) by lia. symmetry. apply lookup_ge_None. lia. }
      rewrite rd_app_r by (unfold hamming in Hge; lia). rewrite rd_fmap, IH by lia.
      fold (hamming w). replace (rank - (start + hamming w)) with (rank - start - hamming w) by lia.
      destruct (rd _ _); cbn; [f_equal; lia | done].
  - rewrite rd_app_r by (unfold hamming in Hgt; lia). rewrite rd_fmap, IH by lia.
    fold (hamming w). replace (rank - (start + hamming w)) with (rank - start - hamming w) by lia.
    destruct (rd _ _); cbn; [f_equal; lia | done].
Qed.

Lemma bitset_select_spec b start rank : bitset_ok b -> 0 <= start <= rank -> rank < 2 ^ 31 ->
  let card := zlen (bc_elems b) in
  bitset_container_select b start rank =
    if start + card <=? rank then Some (inl (start + card))
    else v ← rd (bc_elems b) (rank - start); Some (inr v).
Proof.
  intros Hok Hs Hr card. subst card. pose proof (bc_card_range b Hok) as Hc. rewrite bc_card_elems in Hc by done.
  unfold bitset_container_select, bitset_container_cardinality. rewrite bc_card_elems by done.
  unfold u32. rewrite uwrap_id by (split; lia). destruct (Z.leb_spec (start + zlen (bc_elems b)) rank); [done |].
  destruct Hok as [[Hl Hw] _]. rewrite select_words_spec by (done || (unfold popcount; fold (bc_elems b); lia)).
  fold (bc_elems b). destruct (rd (bc_elems b) (rank - start)); cbn; done.
Qed.

(** ** Counting runs *)

Definition run_ends (l : list Z) : list Z := filter (fun x => x + 1 ∉ l) l.

Lemma filter_cons_out (l : list Z) x d : (forall y, y ∈ l -> y + d <> x) ->
  filter (fun y => y + d ∉ x :: l) l = filter (fun y => y + d ∉ l) l.
Proof.
  intros H. apply filter_ext_in. intros y Hy. rewrite not_elem_of_cons. specialize (H y Hy). tauto.
Qed.

(** A run has one start and one end. *)
Lemma run_ends_starts l : strict l -> zlen (run_ends l) = zlen (run_starts l).
Proof.
  induction l as [|x l IH]; intros Hs; [done |]. pose proof (strict_tail _ _ Hs) as Hs'.
  pose proof (fun y => strict_head x l y Hs) as Hx. specialize (IH Hs').
  assert (zlen (run_ends (x :: l)) = zlen (run_ends l) + (if decide (x + 1 ∈ l) then 0 else 1)) as ->.
  { unfold run_ends. rewrite filter_cons, (filter_cons_out l x 1) by (intros y Hy; specialize (Hx y Hy); lia).
    destruct (decide (x + 1 ∉ x :: l)) as [Hn | Hn]; rewrite not_elem_of_cons in Hn.
    - rewrite decide_False by tauto. rewrite zlen_cons. lia.
    - rewrite decide_True; [lia |]. destruct (decide (x + 1 ∈ l)); [done |]. exfalso. apply Hn. split; [lia | done]. }
  assert (zlen (run_starts (x :: l)) = zlen (run_starts l) + (if decide (x + 1 ∈ l) then 0 else 1)) as ->; [| lia].
  unfold run_starts. rewrite filter_cons_True.
  2: { apply not_elem_of_cons. split; [lia |]. intros Hy. specialize (Hx _ Hy). lia. }
  rewrite zlen_cons. destruct l as [|y l]; [done |].
  assert (x < y) as Hxy by (apply Hx; constructor).
  assert (filter (fun z => z - 1 ∉ x :: y :: l) l = filter (fun z => z - 1 ∉ y :: l) l) as E.
  { apply filter_ext_in. intros z Hz. rewrite (not_elem_of_cons (y :: l)).
    pose proof (strict_head _ _ _ Hs' Hz). split; [tauto |]. intros Hn. split; [lia | done]. }
  assert (y - 1 ∉ y :: l) as Hy1.
  { apply not_elem_of_cons. split; [lia |]. intros Hz. pose proof (strict_head _ _ _ Hs' Hz). lia. }
  rewrite !filter_cons, E. rewrite (decide_True (P := y - 1 ∉ y :: l)) by done. rewrite zlen_cons.
  destruct (decide (y = x + 1)) as [-> | Hne].
  - rewrite decide_False; [rewrite decide_True by constructor; lia |].
    rewrite not_elem_of_cons. intros [Hc _]. lia.
  - rewrite decide_True.
    + rewrite zlen_cons, decide_False; [lia |]. intros [|Hz]%elem_of_cons; [lia |].
      pose proof (strict_head _ _ _ Hs' Hz). lia.
    + rewrite not_elem_of_cons. split; [lia | done].
Qed.

(** Positions of a word whose successor in the word is clear. *)
Lemma hamming_ends w : in_u 64 w ->
  hamming (Z.land (not64 w) (shl64 w 1)) =
    zlen (filter (fun x => (x + 1 ∉ word_bits w) /\ x <> 63) (word_bits w)).
Proof.
  intros Hw. unfold hamming. rewrite <- (zlen_fmap (fun x => 1 + x) (filter _ _)). f_equal.
  apply strict_ext; [apply word_bits_strict | apply strict_shift, strict_filter, word_bits_strict |].
  intros y. rewrite elem_of_shift, list_elem_of_filter, !elem_of_word_bits.
  replace (y - 1 + 1) with y by lia. split.
  - intros [Hy Hb]. rewrite Z.land_spec, testbit_not64, testbit_shl64 in Hb by lia.
    apply andb_prop in Hb as [Hb1 [Hb2 Hb3]%andb_prop]. split; [split; [| lia] | split; [lia | done]].
    intros [_ Hc]. by rewrite Hc in Hb1.
  - intros [[Hn H63] [Hy Hb]]. split; [lia |].
    rewrite Z.land_spec, testbit_not64, testbit_shl64, Hb by lia.
    destruct (Z.testbit w y) eqn:E; [exfalso; apply Hn; split; [lia | done] |]. cbn [negb andb]. lia.
Qed.

Lemma zlen_filter_split (P Q : Z -> Prop) `{!forall x, Decision (P x), !forall x, Decision (Q x)} (l : list Z) :
  zlen (filter P l) = zlen (filter (fun x => P x /\ Q x) l) + zlen (filter (fun x => P x /\ ~ Q x) l).
Proof.
  induction l as [|x l IH]; [done |]. rewrite !filter_cons.
  destruct (decide (P x)), (decide (P x /\ Q x)), (decide (P x /\ ~ Q x)); rewrite ?zlen_cons; try tauto; lia.
Qed.

Lemma filter_last_bit w (Q : Prop) `{!Decision Q} :
  zlen (filter (fun x => x = 63 /\ Q) (word_bits w)) = if decide (Z.testbit w 63 = true /\ Q) then 1 else 0.
Proof.
  destruct (decide (Z.testbit w 63 = true /\ Q)) as [[Hb HQ] | Hn].
  - assert (filter (fun x => x = 63 /\ Q) (word_bits w) = [63]) as ->; [| done].
    apply strict_ext; [apply strict_filter, word_bits_strict | repeat constructor |].
    intros x. rewrite list_elem_of_filter, elem_of_word_bits, list_elem_of_singleton. split; [tauto |].
    intros ->. split; [done |]. split; [lia | done].
  - rewrite filter_none; [done |].
    apply Forall_forall. intros x [Hx Hb]%elem_of_word_bits [-> HQ]. tauto.
Qed.

(** The ends in the first word, given what follows it. *)
Lemma run_ends_cons w ws : in_u 64 w ->
  zlen (run_ends (elems (w :: ws))) =
    hamming (Z.land (not64 w) (shl64 w 1)) +
    (if decide (Z.testbit w 63 = true /\ 0 ∉ elems ws) then 1 else 0) + zlen (run_ends (elems ws)).
Proof.
  intros Hw. unfold run_ends. rewrite elems_cons, filter_app, zlen_app. f_equal.
  - rewrite hamming_ends, <- (filter_last_bit w (0 ∉ elems ws)) by done.
    rewrite (zlen_filter_split _ (fun x => x <> 63)). f_equal.
    + f_equal. apply filter_ext_in. intros x Hx%elem_of_word_bits. rewrite elem_of_app, elem_of_shift.
      split; intros [H1 H2]; (split; [| done]); [tauto |].
      intros [| Hc%elems_range]; [tauto | lia].
    + f_equal. apply filter_ext_in. intros x Hx%elem_of_word_bits. rewrite elem_of_app, elem_of_shift. split.
      * intros [H1 H2]. assert (x = 63) as -> by lia. split; [done |]. intros H0. apply H1. right. done.
      * intros [-> H0]. split; [| lia]. intros [Hc%elem_of_word_bits | Hc]; [lia | done].
  - rewrite <- (zlen_fmap (fun x => 64 + x) (filter (fun x => x + 1 ∉ elems ws) (elems ws))). f_equal.
    apply strict_ext; [apply strict_filter, strict_shift, elems_strict | apply strict_shift, strict_filter, elems_strict |].
    intros x. rewrite list_elem_of_filter, !elem_of_shift, list_elem_of_filter, elem_of_app, elem_of_shift, elem_of_word_bits.
    replace (x + 1 - 64) with (x - 64 + 1) by lia. split; intros [H1 H2]; (split; [| done]); [tauto |].
    intros [[? _] | Hc]; [apply elems_range in H2; lia | done].
Qed.

Lemma top_bit w : in_u 64 w -> shr64 w 63 = if Z.testbit w 63 then 1 else 0.
Proof.
  intros Hw. unfold shr64. apply Z.bits_inj'. intros n Hn. rewrite Z.shiftr_spec by lia.
  destruct (Z.eqb_spec n 0) as [-> | Hne].
  - rewrite Z.add_0_l. by destruct (Z.testbit w 63).
  - rewrite (in_u_testbit 64) by (done || lia). destruct (Z.testbit w 63); [| by rewrite Z.bits_0].
    change 1 with (2 ^ 0). by rewrite Z.pow2_bits_false by lia.
Qed.

Lemma bitset_runs_loop_spec ws w n : in_u 64 w -> words_ok ws ->
  bitset_runs_loop w ws n = n + zlen (run_ends (elems (w :: ws))).
Proof.
  intros Hw Hok. revert w n Hw. induction Hok as [|v ws Hv Hok IH]; intros w n Hw; cbn [bitset_runs_loop].
  - rewrite run_ends_cons by done. change (zlen (run_ends (elems []))) with 0. change (elems []) with (@nil Z).
    assert ((Z.land w (2 ^ 63) =? 0) = negb (Z.testbit w 63)) as ->.
    { assert (Z.land w (2 ^ 63) = if Z.testbit w 63 then 2 ^ 63 else 0) as ->; [| by destruct (Z.testbit w 63)].
      apply Z.bits_inj'. intros k Hk. rewrite Z.land_spec, Z.pow2_bits_eqb by lia.
      destruct (Z.eqb_spec 63 k) as [<- | Hne].
      - destruct (Z.testbit w 63); [by rewrite Z.pow2_bits_true | by rewrite Z.bits_0].
      - rewrite andb_false_r. destruct (Z.testbit w 63); [by rewrite Z.pow2_bits_false by lia | by rewrite Z.bits_0]. }
    pose proof (not_elem_of_nil (0 : Z)). destruct (Z.testbit w 63); cbn [negb].
    + rewrite decide_True by done. lia.
    + rewrite decide_False by (intros [? _]; done). lia.
  - rewrite IH by done. rewrite (run_ends_cons w) by done. rewrite top_bit by done.
    assert (Z.land (if Z.testbit w 63 then 1 else 0) (not64 v) =
      if decide (Z.testbit w 63 = true /\ 0 ∉ elems (v :: ws)) then 1 else 0) as ->; [| lia].
    assert (0 ∈ elems (v :: ws) <-> Z.testbit v 0 = true) as H0.
    { rewrite elems_bit, bit_cons by lia. done. }
    destruct (Z.testbit w 63); [| rewrite decide_False by (intros [? _]; done); apply Z.land_0_l].
    rewrite Z.land_comm. change 1 with (Z.ones 1) at 1. rewrite Z.land_ones by lia. change (2 ^ 1) with 2.
    rewrite Zmod_odd, <- Z.bit0_odd, testbit_not64 by lia. destruct (Z.testbit v 0); cbn [negb].
    + rewrite decide_False; [done |]. tauto.
    + rewrite decide_True; [done |]. split; [done |]. rewrite H0. done.
Qed.

Lemma bitset_number_of_runs_spec b : bitset_wf b ->
  bitset_container_number_of_runs b = Some (zlen (run_starts (bc_elems b))).
Proof.
  intros [Hl Hw]. unfold bitset_container_number_of_runs, bc_elems. destruct (bc_array b) as [|w ws]; [done |].
  apply Forall_cons in Hw as [Hw Hws]. rewrite bitset_runs_loop_spec by done.
  by rewrite Z.add_0_l, run_ends_starts by apply elems_strict.
Qed.

(** ** Bytes *)

Lemma of_mem64_mem64 ws rest : words_ok ws -> of_mem64 (length ws) (mem64 ws ++ rest) = ws.
Proof.
  unfold mem64. induction 1 as [|w ws Hw _ IH]; [done |]. rewrite bind_cons, <- app_assoc. cbn [length of_mem64].
  rewrite take_app_length', drop_app_length' by (by rewrite length_le_split). rewrite IH. f_equal.
  rewrite le_combine_split. change (8 * Z.of_nat 8) with 64. by apply Z.mod_small.
Qed.

Lemma zlen_mem64 ws : zlen (mem64 ws) = 8 * zlen ws.
Proof.
  unfold mem64. induction ws as [|x l IH]; [done |].
  rewrite bind_cons, zlen_app, IH, zlen_cons. unfold zlen. rewrite length_le_split. lia.
Qed.

Lemma bitset_read_write b rest : bitset_wf b ->
  bitset_container_read (bc_cardinality b) (bitset_container_write b ++ rest) =
    Some (b, zlen (bitset_container_write b)).
Proof.
  intros [Hl Hw]. unfold bitset_container_read, bitset_container_write. pose proof (zlen_nonneg rest).
  rewrite zlen_app, zlen_mem64, Hl. change BITSET_CONTAINER_SIZE_IN_WORDS with 1024.
  rewrite (proj2 (Z.ltb_ge _ _)) by lia.
  replace (Z.to_nat 1024) with (length (bc_array b)) by (unfold zlen in Hl; lia).
  rewrite of_mem64_mem64 by done. by destruct b.
Qed.

Lemma bitset_deserialize_serialize b : bitset_ok b ->
  bitset_container_deserialize (bitset_container_serialize b) = Some b.
Proof.
  intros [[Hl Hw] Hc]. unfold bitset_container_deserialize, bitset_container_serialize.
  rewrite zlen_mem64, Hl. change BITSET_CONTAINER_SIZE_IN_WORDS with 1024. cbn [Z.eqb negb].
  replace (Z.to_nat 1024) with (length (bc_array b)) by (unfold zlen in Hl; lia).
  rewrite <- (app_nil_r (mem64 (bc_array b))), of_mem64_mem64 by done.
  rewrite (compute_cardinality_loop_spec _ _ 256) by (unfold zlen in Hl; lia). cbn [mbind option_bind].
  f_equal. destruct b. cbn in *. f_equal. lia.
Qed.

(** ** Whole bitsets *)

Lemma elems_zeros n : elems (replicate n 0) = [].
Proof. induction n as [|n IH]; [done |]. cbn [replicate]. rewrite elems_cons, IH. done. Qed.

Lemma bitset_create_ok : bitset_ok bitset_container_create /\ bc_elems bitset_container_create = [].
Proof.
  split; [| apply elems_zeros]. split; [split |].
  - unfold zlen. cbn [bc_array bitset_container_create]. by rewrite length_replicate.
  - apply Forall_replicate. by split.
  - cbn [bc_array bitset_container_create bc_cardinality]. unfold popcount. by rewrite elems_zeros.
Qed.

(** ** The bitset container *)

(** The bitset container keeps its cardinality.  On a container of 1024
    64-bit words whose [cardinality] field is the number of its bits,
    [bitset_container_set], [unset], [add], [remove] and [set_range] leave such
    a container with the bits of the set operation, although the field is only
    updated by the branch-free increments of the code; [add] and [remove]
    report whether the bit changed; [contains], [get_range], [rank] and
    [number_of_runs] answer from the set of its bits; the bits decoded by
    [bitset_extract_setbits_uint16] are the set in increasing order. *)
Theorem bitset_container_set_bits b : bitset_ok b ->
  (forall x, in_u 16 x ->
     bitset_result (bitset_container_set b x) (union_loop (bc_elems b) [x]) /\
     bitset_result (bitset_container_unset b x) (minus (bc_elems b) [x]) /\
     (exists r, bitset_container_add b x = Some (bool_decide (x ∉ bc_elems b), r) /\ bitset_ok r /\
        bc_elems r = union_loop (bc_elems b) [x]) /\
     (exists r, bitset_container_remove b x = Some (bool_decide (x ∈ bc_elems b), r) /\ bitset_ok r /\
        bc_elems r = minus (bc_elems b) [x]) /\
     bitset_container_contains b x = Some (bool_decide (x ∈ bc_elems b)) /\
     bitset_container_rank b x = Some (zlen (filter (fun y => y <= x) (bc_elems b)))) /\
  (forall s e, 0 <= s < e -> e <= 65536 ->
     bitset_result (bitset_container_set_range b s e) (union_loop (bc_elems b) (seqZ s (e - s))) /\
     exists r, bitset_container_get_range b s e = Some r /\
       (r = true <-> forall x, s <= x < e -> x ∈ bc_elems b)) /\
  bitset_container_number_of_runs b = Some (zlen (filter (fun x => x - 1 ∉ bc_elems b) (bc_elems b))) /\
  bitset_extract_setbits_uint16 (bc_array b) 0 = Some (bc_elems b) /\
  strict (bc_elems b) /\ (forall x, x ∈ bc_elems b <-> 0 <= x < 65536 /\ bit (bc_array b) x = true).
Proof.
  intros H. pose proof (bo_wf _ H) as W. split; [| split; [| split; [| split; [| split]]]].
  - intros x Hx. split; [by apply bitset_set_spec |]. split; [by apply bitset_unset_spec |].
    split; [by apply bitset_add_spec |]. split; [by apply bitset_remove_spec |]. split; [by apply bitset_get_spec |].
    rewrite bitset_rank_spec by done. f_equal. unfold lb. f_equal. apply filter_ext_in. intros. lia.
  - intros s e Hs He. split; [apply bitset_set_range_container; (done || lia) | by apply bitset_get_range_spec].
  - by apply bitset_number_of_runs_spec.
  - apply bitset_extract_setbits_uint16_spec; [apply W | rewrite (bw_length _ W); lia].
  - apply bc_elems_strict.
  - intros x. unfold bc_elems. rewrite elem_of_elems, (bw_length _ W). done.
Qed.

Lemma bitset_container_set_bits_witness :
  bitset_ok bitset_container_create /\
  exists r, bitset_container_add bitset_container_create 77 = Some (true, r) /\ bc_elems r = [77].
Proof.
  destruct bitset_create_ok as [H E]. split; [exact H |].
  destruct (bitset_container_set_bits bitset_container_create H) as [Hx _].
  destruct (Hx 77 ltac:(split; [lia | reflexivity])) as (_ & _ & (r & Ea & _ & Er) & _).
  exists r. rewrite Ea, Er, E. split; reflexivity.
Defined.

(** The word-wise set operations.  [bitset_container_or], [and], [xor] and
    [andnot] write the union, intersection, symmetric difference and difference
    of the sets and the right cardinality; the [_nocard] variants write the same
    bits and mark the cardinality unknown; the [_justcard] variants return the
    cardinality only, and [compute_cardinality] recomputes it. *)
Theorem bitset_container_word_operations c1 c2 : bitset_wf c1 -> bitset_wf c2 ->
  let a := bc_elems c1 in
  let b := bc_elems c2 in
  (bitset_result (bitset_container_or c1 c2) (union_loop a b) /\
   bitset_result (bitset_container_and c1 c2) (inter a b) /\
   bitset_result (bitset_container_xor c1 c2) (xor_uint16 a b) /\
   bitset_result (bitset_container_andnot c1 c2) (minus a b)) /\
  (bitset_lazy (bitset_container_or_nocard c1 c2) /\
   bc_elems (bitset_container_or_nocard c1 c2) = union_loop a b /\
   bc_cardinality (bitset_container_or_nocard c1 c2) = BITSET_UNKNOWN_CARDINALITY /\
   bc_elems (bitset_container_xor_nocard c1 c2) = xor_uint16 a b) /\
  bitset_container_and_justcard c1 c2 = Some (zlen (inter a b)) /\
  bitset_container_compute_cardinality c1 = Some (zlen a).
Proof.
  intros H1 H2 a b.
  assert (forall op f, word_op op f -> bitset_result (bitset_container_fn op c1 c2) (f a b)) as Hfn.
  { intros op f Hop. by apply bitset_fn_spec. }
  split; [| split; [| split]].
  - split; [apply Hfn, word_op_lor |]. split; [apply Hfn, word_op_land |]. split; [apply Hfn, word_op_lxor |].
    apply Hfn, word_op_andnot.
  - destruct (bitset_fn_nocard_spec _ _ word_op_lor c1 c2 H1 H2) as (W & C & E).
    destruct (bitset_fn_nocard_spec _ _ word_op_lxor c1 c2 H1 H2) as (_ & _ & E').
    split; [split; [exact W | by left] |]. done.
  - apply (bitset_fn_justcard_spec _ _ word_op_land); done.
  - by apply bitset_compute_cardinality_spec.
Qed.

Lemma bitset_container_word_operations_witness :
  bitset_wf bitset_container_create /\
  bitset_container_compute_cardinality bitset_container_create = Some 0.
Proof.
  destruct bitset_create_ok as [[W _] E]. split; [exact W |].
  destruct (bitset_container_word_operations bitset_container_create bitset_container_create W W) as (_ & _ & _ & H).
  rewrite H, E. reflexivity.
Defined.
