(* ===== verification/RoaringRun.v ===== *)
(** * Roaring bitmaps: the run container

    [run_container_t] of [src/include/datastruct/roaring.h] and the
    [run_container_*] functions of that file and of
    [src/src/datastruct/roaring.c]: sorted runs [value, value + length] in a
    buffer that grows.

    [rc_runs] is the part of the buffer in use, so its length is the field
    [n_runs]; [rc_capacity] is the room of the buffer.  A store outside the
    buffer and a read of a run that does not exist are [None]; [malloc] and
    [realloc] succeed.  Fields of a run are [uint16_t]: what is stored is
    wrapped. *)

From stdpp Require Import base list list_numbers numbers option sorting.
From Stdlib Require Import ZArith Lia.
From S2P Require Import Prelude.
From S2P Require Import RoaringArrays.
From S2P Require Import RoaringArrayContainer.

Local Open Scope Z_scope.

Record rle16_t := mk_rle {
  r_value : Z;
  r_length : Z;
}.

#[export] Instance rle16_eq_dec : EqDecision rle16_t.
Proof. solve_decision. Defined.

(** The last value of a run. *)
Definition r_max (r : rle16_t) : Z := r_value r + r_length r.

Definition RUN_DEFAULT_INIT_SIZE : Z := 0.

Record run_container_t := mk_run {
  rc_capacity : Z;
  rc_runs : list rle16_t;
}.

Definition n_runs (c : run_container_t) : Z := zlen (rc_runs c).

(** [runs[i] = r] inside the runs in use. *)
Definition set_run (l : list rle16_t) (i : Z) (r : rle16_t) : option (list rle16_t) :=
  if (0 <=? i) && (i <? zlen l) then Some (<[Z.to_nat i := r]> l) else None.

(** ** Searches *)

Fixpoint interleaved_loop (fuel : nat) (array : list rle16_t) (low high ikey : Z) : option Z :=
  match fuel with
  | O => None
  | S fuel =>
    if low <=? high then
      let middleIndex := Z.shiftr (low + high) 1 in
      r ← rd array middleIndex;
      if r_value r <? ikey then interleaved_loop fuel array (middleIndex + 1) high ikey
      else if ikey <? r_value r then interleaved_loop fuel array low (middleIndex - 1) ikey
      else Some middleIndex
    else Some (- (low + 1))
  end.

Definition interleavedBinarySearch (array : list rle16_t) (ikey : Z) : option Z :=
  interleaved_loop (S (length array)) array 0 (zlen array - 1) ikey.

Fixpoint find_run_loop (fuel : nat) (array : list rle16_t) (low high ikey : Z) : option Z :=
  match fuel with
  | O => None
  | S fuel =>
    if low <=? high then
      let middleIndex := Z.shiftr (low + high) 1 in
      r ← rd array middleIndex;
      let min := r_value r in
      let max := u16 (r_value r + r_length r) in
      if max <? ikey then find_run_loop fuel array (middleIndex + 1) high ikey
      else if ikey <? min then find_run_loop fuel array low (middleIndex - 1) ikey
      else Some middleIndex
    else Some (- (low + 1))
  end.

Definition rle16_find_run (array : list rle16_t) (ikey : Z) : option Z :=
  find_run_loop (S (length array)) array 0 (zlen array - 1) ikey.

Fixpoint count_less_loop (fuel : nat) (array : list rle16_t) (low high key : Z) : option Z :=
  match fuel with
  | O => None
  | S fuel =>
    if low <=? high then
      let middleIndex := Z.shiftr (low + high) 1 in
      r ← rd array middleIndex;
      let min_value := r_value r in
      let max_value := u16 (r_value r + r_length r) in
      if max_value + 1 <? key then count_less_loop fuel array (middleIndex + 1) high key
      else if key <? min_value then count_less_loop fuel array low (middleIndex - 1) key
      else Some middleIndex
    else Some low
  end.

Definition rle16_count_less (array : list rle16_t) (key : Z) : option Z :=
  if zlen array =? 0 then Some 0
  else count_less_loop (S (length array)) array 0 (zlen array - 1) key.

Fixpoint count_greater_loop (fuel : nat) (array : list rle16_t) (low high key : Z) : option Z :=
  match fuel with
  | O => None
  | S fuel =>
    if low <=? high then
      let middleIndex := Z.shiftr (low + high) 1 in
      r ← rd array middleIndex;
      let min_value := r_value r in
      let max_value := u16 (r_value r + r_length r) in
      if max_value <? key then count_greater_loop fuel array (middleIndex + 1) high key
      else if key + 1 <? min_value then count_greater_loop fuel array low (middleIndex - 1) key
      else Some (zlen array - (middleIndex + 1))
    else Some (zlen array - low)
  end.

Definition rle16_count_greater (array : list rle16_t) (key : Z) : option Z :=
  if zlen array =? 0 then Some 0
  else count_greater_loop (S (length array)) array 0 (zlen array - 1) key.

(** ** Memory *)

Definition run_container_create_given_capacity (size : Z) : run_container_t := mk_run size [].

Definition run_container_create : run_container_t :=
  run_container_create_given_capacity RUN_DEFAULT_INIT_SIZE.

Definition run_container_shrink_to_fit (src : run_container_t) : Z * run_container_t :=
  if n_runs src =? rc_capacity src then (0, src)
  else (rc_capacity src - n_runs src, mk_run (n_runs src) (rc_runs src)).

Definition run_container_clone (src : run_container_t) : run_container_t :=
  mk_run (rc_capacity src) (rc_runs src).

(** Without [copy] the content is undefined, and every caller stores new
    content next. *)
Definition run_container_grow (run : run_container_t) (min : Z) (copy : bool) : run_container_t :=
  let newCapacity :=
    if rc_capacity run =? 0 then RUN_DEFAULT_INIT_SIZE
    else if rc_capacity run <? 64 then rc_capacity run * 2
    else if rc_capacity run <? 1024 then rc_capacity run * 3 / 2
    else rc_capacity run * 5 / 4 in
  let newCapacity := if newCapacity <? min then min else newCapacity in
  mk_run newCapacity (if copy then rc_runs run else []).

(** [if(dst->capacity < n) run_container_grow(dst, n, false)], then
    [dst->n_runs = 0]. *)
Definition ensure_runs (dst : run_container_t) (n : Z) : run_container_t :=
  let dst := if rc_capacity dst <? n then run_container_grow dst n false else dst in
  mk_run (rc_capacity dst) [].

(** [runs[n_runs] = r; n_runs++] *)
Definition push_run (run : run_container_t) (r : rle16_t) : option run_container_t :=
  if n_runs run <? rc_capacity run then Some (mk_run (rc_capacity run) (rc_runs run ++ [r]))
  else None.

Definition run_container_copy (src dst : run_container_t) : run_container_t :=
  let dst := if rc_capacity dst <? n_runs src then run_container_grow dst (n_runs src) false else dst in
  mk_run (rc_capacity dst) (rc_runs src).

(** [memmove] over the run at [index]. *)
Definition recoverRoomAtIndex (run : run_container_t) (index : Z) : run_container_t :=
  mk_run (rc_capacity run)
    (take (Z.to_nat index) (rc_runs run) ++ drop (Z.to_nat (index + 1)) (rc_runs run)).

(** [makeRoomAtIndex(run, index)] and the store of [r] there. *)
Definition insert_run (run : run_container_t) (index : Z) (r : rle16_t) : option run_container_t :=
  let run := if rc_capacity run <? n_runs run + 1
             then run_container_grow run (n_runs run + 1) true else run in
  if (index <=? n_runs run) && (n_runs run <? rc_capacity run) then
    Some (mk_run (rc_capacity run)
      (take (Z.to_nat index) (rc_runs run) ++ r :: drop (Z.to_nat index) (rc_runs run)))
  else None.

Definition with_runs (run : run_container_t) (l : list rle16_t) : run_container_t :=
  mk_run (rc_capacity run) l.

(** ** Single values *)

(** The tail of [run_container_add]: a run of one value at [index + 1]. *)
Definition add_single (run : run_container_t) (index pos : Z) : option (bool * run_container_t) :=
  run ← insert_run run (u16 (index + 1)) (mk_rle pos 0);
  Some (true, run).

Definition run_container_add (run : run_container_t) (pos : Z) : option (bool * run_container_t) :=
  let runs := rc_runs run in
  index ← interleavedBinarySearch runs pos;
  if 0 <=? index then Some (false, run)
  else
    let index := - index - 2 in
    if 0 <=? index then
      r ← rd runs index;
      let offset := pos - r_value r in
      let le := r_length r in
      if offset <=? le then Some (false, run)
      else
        let next := rd runs (index + 1) in
        if offset =? le + 1 then
          match next with
          | Some s =>
            if r_value s =? pos + 1 then
              l ← set_run runs index (mk_rle (r_value r) (u16 (r_value s + r_length s - r_value r)));
              Some (true, recoverRoomAtIndex (with_runs run l) (u16 (index + 1)))
            else
              l ← set_run runs index (mk_rle (r_value r) (u16 (r_length r + 1)));
              Some (true, with_runs run l)
          | None =>
            l ← set_run runs index (mk_rle (r_value r) (u16 (r_length r + 1)));
            Some (true, with_runs run l)
          end
        else
          match next with
          | Some s =>
            if r_value s =? pos + 1 then
              l ← set_run runs (index + 1) (mk_rle pos (u16 (r_length s + 1)));
              Some (true, with_runs run l)
            else add_single run index pos
          | None => add_single run index pos
          end
    else
      match rd runs 0 with
      | Some s =>
        if r_value s =? pos + 1 then
          l ← set_run runs 0 (mk_rle (u16 (r_value s - 1)) (u16 (r_length s + 1)));
          Some (true, with_runs run l)
        else add_single run index pos
      | None => add_single run index pos
      end.

Definition run_container_remove (run : run_container_t) (pos : Z) : option (bool * run_container_t) :=
  let runs := rc_runs run in
  index ← interleavedBinarySearch runs pos;
  if 0 <=? index then
    r ← rd runs index;
    if r_length r =? 0 then Some (true, recoverRoomAtIndex run (u16 index))
    else
      l ← set_run runs index (mk_rle (u16 (r_value r + 1)) (u16 (r_length r - 1)));
      Some (true, with_runs run l)
  else
    let index := - index - 2 in
    if 0 <=? index then
      r ← rd runs index;
      let offset := pos - r_value r in
      let le := r_length r in
      if offset <? le then
        l ← set_run runs index (mk_rle (r_value r) (u16 (offset - 1)));
        run ← insert_run (with_runs run l) (u16 (index + 1))
                (mk_rle (u16 (pos + 1)) (u16 (le - offset - 1)));
        Some (true, run)
      else if offset =? le then
        l ← set_run runs index (mk_rle (r_value r) (u16 (r_length r - 1)));
        Some (true, with_runs run l)
      else Some (false, run)
    else Some (false, run).

Definition run_container_contains (run : run_container_t) (pos : Z) : option bool :=
  index ← interleavedBinarySearch (rc_runs run) pos;
  if 0 <=? index then Some true
  else
    let index := - index - 2 in
    if negb (index =? -1) then
      r ← rd (rc_runs run) index;
      Some (pos - r_value r <=? r_length r)
    else Some false.

(** The loop over the runs from [index] on; the differences are [uint32_t]. *)
Fixpoint contains_range_loop (l : list rle16_t) (pos_start pos_end count : Z) : Z :=
  match l with
  | [] => count
  | r :: l =>
    let stop := r_value r + r_length r in
    if pos_end <=? r_value r then count
    else if pos_end <=? stop then u32 (count + u32 (pos_end - r_value r))
    else
      let min := u32 (stop - pos_start) in
      contains_range_loop l pos_start pos_end
        (u32 (count + (if min <? r_length r then min else r_length r)))
  end.

Definition run_container_contains_range (run : run_container_t) (pos_start pos_end : Z) :
    option bool :=
  index ← interleavedBinarySearch (rc_runs run) (u16 pos_start);
  start ← (if index <? 0 then
             let index := - index - 2 in
             if index =? -1 then Some None
             else r ← rd (rc_runs run) index;
                  if r_length r <? u32 (pos_start - r_value r) then Some None
                  else Some (Some index)
           else Some (Some index));
  match start with
  | None => Some false
  | Some index =>
    let count := contains_range_loop (drop (Z.to_nat index) (rc_runs run)) pos_start pos_end 0 in
    Some (u32 (pos_end - pos_start - 1) <=? count)
  end.

(** ** Cardinality *)

Fixpoint sum_lengths (l : list rle16_t) (sum : Z) : Z :=
  match l with
  | [] => sum
  | r :: l => sum_lengths l (sum + r_length r)
  end.

Definition run_container_cardinality (run : run_container_t) : Z :=
  sum_lengths (rc_runs run) (n_runs run).

Definition run_container_nonzero_cardinality (run : run_container_t) : bool := 0 <? n_runs run.

Definition run_container_empty (run : run_container_t) : bool := n_runs run =? 0.

Definition run_container_clear (run : run_container_t) : run_container_t :=
  mk_run (rc_capacity run) [].

(** [runs[0]] is read before [n_runs] is looked at: an empty container
    without a buffer is a null dereference. *)
Definition run_container_is_full (run : run_container_t) : option bool :=
  match rc_runs run with
  | [] => if 0 <? rc_capacity run then Some false else None
  | vl :: _ => Some ((n_runs run =? 1) && (r_value vl =? 0) && (r_length vl =? 0xFFFF))
  end.

(** ** Appending *)

(** [runs[n_runs - 1] = r] *)
Definition put_last (run : run_container_t) (r : rle16_t) : option run_container_t :=
  l ← set_run (rc_runs run) (n_runs run - 1) r;
  Some (with_runs run l).

Definition run_container_append (run : run_container_t) (vl previousrl : rle16_t) :
    option (run_container_t * rle16_t) :=
  let previousend := r_value previousrl + r_length previousrl in
  if previousend + 1 <? r_value vl then
    run ← push_run run vl;
    Some (run, vl)
  else
    let newend := r_value vl + r_length vl + 1 in
    if previousend <? newend then
      let previousrl := mk_rle (r_value previousrl) (u16 (newend - 1 - r_value previousrl)) in
      run ← put_last run previousrl;
      Some (run, previousrl)
    else Some (run, previousrl).

Definition run_container_append_first (run : run_container_t) (vl : rle16_t) :
    option (run_container_t * rle16_t) :=
  run ← push_run run vl; Some (run, vl).

Definition run_container_append_value (run : run_container_t) (val : Z) (previousrl : rle16_t) :
    option (run_container_t * rle16_t) :=
  let previousend := r_value previousrl + r_length previousrl in
  if previousend + 1 <? val then
    run ← push_run run (mk_rle val 0);
    Some (run, mk_rle val 0)
  else if val =? previousend + 1 then
    let previousrl := mk_rle (r_value previousrl) (u16 (r_length previousrl + 1)) in
    run ← put_last run previousrl;
    Some (run, previousrl)
  else Some (run, previousrl).

Definition run_container_append_value_first (run : run_container_t) (val : Z) :
    option (run_container_t * rle16_t) :=
  run ← push_run run (mk_rle val 0); Some (run, mk_rle val 0).

(** ** Set operations *)

Fixpoint append_all (l : list rle16_t) (dst : run_container_t) (previousrle : rle16_t) :
    option (run_container_t * rle16_t) :=
  match l with
  | [] => Some (dst, previousrle)
  | r :: l =>
    '(dst, previousrle) ← run_container_append dst r previousrle;
    append_all l dst previousrle
  end.

(** The three loops of [run_container_union]; the lists are what [rlepos]
    and [xrlepos] still have before them. *)
Fixpoint run_union_loop (runs1 : list rle16_t) :
    list rle16_t -> run_container_t -> rle16_t -> option run_container_t :=
  fix inner (runs2 : list rle16_t) (dst : run_container_t) (previousrle : rle16_t) :=
    match runs1, runs2 with
    | x :: rest1, y :: rest2 =>
      if r_value x <=? r_value y then
        '(dst, previousrle) ← run_container_append dst x previousrle;
        run_union_loop rest1 runs2 dst previousrle
      else
        '(dst, previousrle) ← run_container_append dst y previousrle;
        inner rest2 dst previousrle
    | _, _ =>
      '(dst, previousrle) ← append_all runs2 dst previousrle;
      '(dst, previousrle) ← append_all runs1 dst previousrle;
      Some dst
    end.

(** From the first run on, into [dst]. *)
Definition run_union_into (runs1 runs2 : list rle16_t) (dst : run_container_t) :
    option run_container_t :=
  match runs1, runs2 with
  | x :: rest1, y :: rest2 =>
    if r_value x <=? r_value y then
      '(dst, previousrle) ← run_container_append_first dst x;
      run_union_loop rest1 runs2 dst previousrle
    else
      '(dst, previousrle) ← run_container_append_first dst y;
      run_union_loop runs1 rest2 dst previousrle
  | _, _ => None
  end.

Definition run_container_union (src_1 src_2 dst : run_container_t) : option run_container_t :=
  if1 ← run_container_is_full src_1;
  if2 ← run_container_is_full src_2;
  if if1 : bool then Some (run_container_copy src_1 dst)
  else if if2 : bool then Some (run_container_copy src_2 dst)
  else run_union_into (rc_runs src_1) (rc_runs src_2) (ensure_runs dst (n_runs src_1 + n_runs src_2)).

(** The runs of [src_1] are moved up to index [maxoutput] and read there while
    the output grows from index 0: output at or beyond [maxoutput] would
    overwrite them, so the room of the output is [maxoutput]. *)
Definition run_container_union_inplace (src_1 src_2 : run_container_t) : option run_container_t :=
  if1 ← run_container_is_full src_1;
  if2 ← run_container_is_full src_2;
  if if1 : bool then Some src_1
  else if if2 : bool then Some (run_container_copy src_2 src_1)
  else
    let maxoutput := n_runs src_1 + n_runs src_2 in
    let neededcapacity := maxoutput + n_runs src_1 in
    let src_1 := if rc_capacity src_1 <? neededcapacity
                 then run_container_grow src_1 neededcapacity true else src_1 in
    out ← run_union_into (rc_runs src_1) (rc_runs src_2) (mk_run maxoutput []);
    Some (mk_run (rc_capacity src_1) (rc_runs out)).

Definition run_container_smart_append_exclusive (src : run_container_t) (start length : Z) :
    option run_container_t :=
  match last (rc_runs src) with
  | None => push_run src (mk_rle start length)
  | Some last_run =>
    let old_end := r_value last_run + r_length last_run + 1 in
    if old_end <? start then push_run src (mk_rle start length)
    else if old_end =? start then
      put_last src (mk_rle (r_value last_run) (u16 (r_length last_run + (length + 1))))
    else
      let new_end := start + length + 1 in
      if start =? r_value last_run then
        if new_end <? old_end then
          put_last src (mk_rle (u16 new_end) (u16 (old_end - new_end - 1)))
        else if old_end <? new_end then
          put_last src (mk_rle (u16 old_end) (u16 (new_end - old_end - 1)))
        else Some (with_runs src (removelast (rc_runs src)))
      else
        src ← put_last src (mk_rle (r_value last_run) (u16 (start - r_value last_run - 1)));
        if new_end <? old_end then
          push_run src (mk_rle (u16 new_end) (u16 (old_end - new_end - 1)))
        else if old_end <? new_end then
          push_run src (mk_rle (u16 old_end) (u16 (new_end - old_end - 1)))
        else Some src
  end.

Fixpoint append_exclusive_all (l : list rle16_t) (dst : run_container_t) : option run_container_t :=
  match l with
  | [] => Some dst
  | r :: l =>
    dst ← run_container_smart_append_exclusive dst (r_value r) (r_length r);
    append_exclusive_all l dst
  end.

Fixpoint run_xor_loop (runs1 : list rle16_t) :
    list rle16_t -> run_container_t -> option run_container_t :=
  fix inner (runs2 : list rle16_t) (dst : run_container_t) :=
    match runs1, runs2 with
    | x :: rest1, y :: rest2 =>
      if r_value x <=? r_value y then
        dst ← run_container_smart_append_exclusive dst (r_value x) (r_length x);
        run_xor_loop rest1 runs2 dst
      else
        dst ← run_container_smart_append_exclusive dst (r_value y) (r_length y);
        inner rest2 dst
    | _, _ =>
      dst ← append_exclusive_all runs1 dst;
      append_exclusive_all runs2 dst
    end.

Definition run_container_xor (src_1 src_2 dst : run_container_t) : option run_container_t :=
  run_xor_loop (rc_runs src_1) (rc_runs src_2) (ensure_runs dst (n_runs src_1 + n_runs src_2)).

(** [start], [end], [xstart] and [xend] are those of the runs at [rlepos] and
    [xrlepos]. *)
Fixpoint run_intersection_loop (runs1 : list rle16_t) :
    list rle16_t -> run_container_t -> option run_container_t :=
  fix inner (runs2 : list rle16_t) (dst : run_container_t) :=
    match runs1, runs2 with
    | x :: rest1, y :: rest2 =>
      let start := r_value x in
      let end_ := start + r_length x + 1 in
      let xstart := r_value y in
      let xend := xstart + r_length y + 1 in
      if end_ <=? xstart then run_intersection_loop rest1 runs2 dst
      else if xend <=? start then inner rest2 dst
      else
        let lateststart := if xstart <? start then start else xstart in
        let earliestend := if end_ <? xend then end_ else xend in
        dst ← push_run dst (mk_rle (u16 lateststart) (u16 (earliestend - lateststart - 1)));
        if end_ =? xend then run_intersection_loop rest1 rest2 dst
        else if end_ <? xend then run_intersection_loop rest1 runs2 dst
        else inner rest2 dst
    | _, _ => Some dst
    end.

(** [runs[0]] of both containers is read first. *)
Definition run_container_intersection (src_1 src_2 dst : run_container_t) :
    option run_container_t :=
  if1 ← run_container_is_full src_1;
  if2 ← run_container_is_full src_2;
  if if1 : bool then Some (run_container_copy src_2 dst)
  else if if2 : bool then Some (run_container_copy src_1 dst)
  else
    _ ← rd (rc_runs src_1) 0;
    _ ← rd (rc_runs src_2) 0;
    run_intersection_loop (rc_runs src_1) (rc_runs src_2)
      (ensure_runs dst (n_runs src_1 + n_runs src_2)).

Fixpoint run_intersection_card_loop (runs1 : list rle16_t) : list rle16_t -> Z -> Z :=
  fix inner (runs2 : list rle16_t) (answer : Z) :=
    match runs1, runs2 with
    | x :: rest1, y :: rest2 =>
      let start := r_value x in
      let end_ := start + r_length x + 1 in
      let xstart := r_value y in
      let xend := xstart + r_length y + 1 in
      if end_ <=? xstart then run_intersection_card_loop rest1 runs2 answer
      else if xend <=? start then inner rest2 answer
      else
        let lateststart := if xstart <? start then start else xstart in
        let earliestend := if end_ <? xend then end_ else xend in
        let answer := answer + (earliestend - lateststart) in
        if end_ =? xend then run_intersection_card_loop rest1 rest2 answer
        else if end_ <? xend then run_intersection_card_loop rest1 runs2 answer
        else inner rest2 answer
    | _, _ => answer
    end.

Definition run_container_intersection_cardinality (src_1 src_2 : run_container_t) : option Z :=
  if1 ← run_container_is_full src_1;
  if2 ← run_container_is_full src_2;
  if if1 : bool then Some (run_container_cardinality src_2)
  else if if2 : bool then Some (run_container_cardinality src_1)
  else
    _ ← rd (rc_runs src_1) 0;
    _ ← rd (rc_runs src_2) 0;
    Some (run_intersection_card_loop (rc_runs src_1) (rc_runs src_2) 0).

Fixpoint run_intersect_loop (runs1 : list rle16_t) : list rle16_t -> bool :=
  fix inner (runs2 : list rle16_t) :=
    match runs1, runs2 with
    | x :: rest1, y :: rest2 =>
      let start := r_value x in
      let end_ := start + r_length x + 1 in
      let xstart := r_value y in
      let xend := xstart + r_length y + 1 in
      if end_ <=? xstart then run_intersect_loop rest1 runs2
      else if xend <=? start then inner rest2
      else true
    | _, _ => false
    end.

Definition run_container_intersect (src_1 src_2 : run_container_t) : option bool :=
  if1 ← run_container_is_full src_1;
  if2 ← run_container_is_full src_2;
  if if1 : bool then Some (negb (run_container_empty src_2))
  else if if2 : bool then Some (negb (run_container_empty src_1))
  else
    _ ← rd (rc_runs src_1) 0;
    _ ← rd (rc_runs src_2) 0;
    Some (run_intersect_loop (rc_runs src_1) (rc_runs src_2)).

Fixpoint push_all (l : list rle16_t) (dst : run_container_t) : option run_container_t :=
  match l with
  | [] => Some dst
  | r :: l => dst ← push_run dst r; push_all l dst
  end.

(** [start] and [end] of the run at [rlepos1], of which a prefix may be gone. *)
Definition run_bounds (runs : list rle16_t) (old : Z * Z) : Z * Z :=
  match runs with
  | r :: _ => (r_value r, r_value r + r_length r + 1)
  | [] => old
  end.

Fixpoint run_andnot_loop (fuel : nat) (runs1 runs2 : list rle16_t) (start end_ : Z)
    (dst : run_container_t) : option run_container_t :=
  match fuel with
  | O => None
  | S fuel =>
    match runs1, runs2 with
    | _ :: rest1, y :: rest2 =>
      let start2 := r_value y in
      let end2 := start2 + r_length y + 1 in
      if end_ <=? start2 then
        dst ← push_run dst (mk_rle (u16 start) (u16 (end_ - start - 1)));
        let '(start, end_) := run_bounds rest1 (start, end_) in
        run_andnot_loop fuel rest1 runs2 start end_ dst
      else if end2 <=? start then run_andnot_loop fuel runs1 rest2 start end_ dst
      else
        dst ← (if start <? start2
               then push_run dst (mk_rle (u16 start) (u16 (start2 - start - 1)))
               else Some dst);
        if end2 <? end_ then run_andnot_loop fuel runs1 runs2 end2 end_ dst
        else
          let '(start, end_) := run_bounds rest1 (start, end_) in
          run_andnot_loop fuel rest1 runs2 start end_ dst
    | _ :: rest1, [] =>
      dst ← push_run dst (mk_rle (u16 start) (u16 (end_ - start - 1)));
      push_all rest1 dst
    | [], _ => Some dst
    end
  end.

Definition run_container_andnot (src_1 src_2 dst : run_container_t) : option run_container_t :=
  r1 ← rd (rc_runs src_1) 0;
  _ ← rd (rc_runs src_2) 0;
  run_andnot_loop (S (2 * (length (rc_runs src_1) + length (rc_runs src_2))))
    (rc_runs src_1) (rc_runs src_2) (r_value r1) (r_value r1 + r_length r1 + 1)
    (ensure_runs dst (n_runs src_1 + n_runs src_2)).

(** ** Reading out *)

Definition run_values (r : rle16_t) : list Z := seqZ (r_value r) (r_length r + 1).

Definition run_container_to_uint32_array (cont : run_container_t) (base : Z) : list Z :=
  rc_runs cont ≫= fun r => (fun j => u32 (u32 (base + r_value r) + j)) <$> seqZ 0 (r_length r + 1).

Definition run_container_iterate {S} (cont : run_container_t) (base : Z)
    (iterator : Z -> S -> bool * S) (ptr : S) : bool * S :=
  iterate_list (run_container_to_uint32_array cont base) iterator ptr.

Definition run_container_iterate64 {S} (cont : run_container_t) (base : Z)
    (iterator : Z -> S -> bool * S) (high_bits : Z) (ptr : S) : bool * S :=
  iterate_list (run_container_to_uint32_array cont base)
    (fun v => iterator (Z.lor high_bits v)) ptr.

(** ** Bytes *)

Definition mem_rle (l : list rle16_t) : list Z :=
  l ≫= fun r => le_split 2 (r_value r) ++ le_split 2 (r_length r).

Fixpoint of_mem_rle (b : list Z) : list rle16_t :=
  match b with
  | v0 :: v1 :: l0 :: l1 :: b => mk_rle (le_combine [v0; v1]) (le_combine [l0; l1]) :: of_mem_rle b
  | _ => []
  end.

Definition run_container_serialized_size_in_bytes (num_runs : Z) : Z := 2 + 4 * num_runs.

Definition run_container_size_in_bytes (container : run_container_t) : Z :=
  run_container_serialized_size_in_bytes (n_runs container).

Definition run_container_write (container : run_container_t) : list Z :=
  le_split 2 (u16 (n_runs container)) ++ mem_rle (rc_runs container).

(** The container read and the bytes consumed.  Only the two low bytes of
    [n_runs] are stored: the two high bytes keep what the fresh container
    has there, zero. *)
Definition run_container_read (container : run_container_t) (buf : list Z) :
    option (run_container_t * Z) :=
  if zlen buf <? 2 then None
  else
    let n := le_combine (take 2 buf) in
    if zlen buf <? 2 + 4 * n then None
    else
      let container := if rc_capacity container <? n
                       then run_container_grow container n false else container in
      let container := mk_run (rc_capacity container) (of_mem_rle (take (Z.to_nat (4 * n)) (drop 2 buf))) in
      Some (container, run_container_size_in_bytes container).

Definition run_container_serialize (container : run_container_t) : list Z :=
  le_split 4 (u32 (n_runs container)) ++ le_split 4 (u32 (rc_capacity container)) ++
  mem_rle (rc_runs container).

Definition run_container_serialization_len (container : run_container_t) : Z :=
  8 + 4 * n_runs container.

(** [n_runs] and [capacity] are [int32_t]; the block has room for [n_runs]
    runs whatever [capacity] says. *)
Definition run_container_deserialize (buf : list Z) : option run_container_t :=
  if zlen buf <? 8 then None
  else
    let n := i32 (le_combine (take 4 buf)) in
    let capacity := i32 (le_combine (take 4 (drop 4 buf))) in
    if negb (u64 (4 * n) =? zlen buf - 8) then None
    else
      let l := of_mem_rle (drop 8 buf) in
      if monotone_from 0 (r_value <$> l) then Some (mk_run capacity l) else None.

(** ** Comparisons *)

Definition run_container_equals (container1 container2 : run_container_t) : bool :=
  if negb (n_runs container1 =? n_runs container2) then false
  else bool_decide (mem_rle (rc_runs container1) = mem_rle (rc_runs container2)).

Fixpoint run_subset_loop (runs1 : list rle16_t) : list rle16_t -> bool :=
  fix inner (runs2 : list rle16_t) :=
    match runs1, runs2 with
    | x :: rest1, y :: rest2 =>
      let start1 := r_value x in
      let stop1 := start1 + r_length x in
      let start2 := r_value y in
      let stop2 := start2 + r_length y in
      if start1 <? start2 then false
      else if stop1 <? stop2 then run_subset_loop rest1 runs2
      else if stop1 =? stop2 then run_subset_loop rest1 rest2
      else inner rest2
    | [], _ => true
    | _, [] => false
    end.

Definition run_container_is_subset (container1 container2 : run_container_t) : bool :=
  run_subset_loop (rc_runs container1) (rc_runs container2).

(** ** Order statistics *)

Definition run_container_create_range (start stop : Z) : option run_container_t :=
  '(rc, _) ← run_container_append_first (run_container_create_given_capacity 1)
    (mk_rle (u16 start) (u16 (stop - start - 1)));
  Some rc.

Fixpoint run_select_loop (l : list rle16_t) (start_rank rank : Z) : Z + Z :=
  match l with
  | [] => inl start_rank
  | r :: l =>
    if rank <=? u32 (start_rank + r_length r) then inr (u32 (r_value r + rank - start_rank))
    else run_select_loop l (u32 (start_rank + (r_length r + 1))) rank
  end.

Definition run_container_select (container : run_container_t) (start_rank rank : Z) : Z + Z :=
  run_select_loop (rc_runs container) start_rank rank.

Fixpoint run_rank_loop (l : list rle16_t) (sum x : Z) : Z :=
  match l with
  | [] => sum
  | r :: l =>
    let startpoint := r_value r in
    let endpoint := r_length r + startpoint in
    if x <=? endpoint then
      if x <? startpoint then sum else sum + (x - startpoint) + 1
    else run_rank_loop l (sum + (r_length r + 1)) x
  end.

Definition run_container_rank (container : run_container_t) (x : Z) : Z :=
  run_rank_loop (rc_runs container) 0 x.

Definition run_container_minimum (run : run_container_t) : option Z :=
  if n_runs run =? 0 then Some 0 else r ← rd (rc_runs run) 0; Some (r_value r).

Definition run_container_maximum (run : run_container_t) : option Z :=
  if n_runs run =? 0 then Some 0
  else r ← rd (rc_runs run) (n_runs run - 1); Some (u16 (r_value r + r_length r)).

Definition run_container_index_equalorlarger (arr : run_container_t) (x : Z) : option Z :=
  index ← interleavedBinarySearch (rc_runs arr) x;
  if 0 <=? index then Some index
  else
    let index := - index - 2 in
    found ← (if negb (index =? -1) then
               r ← rd (rc_runs arr) index; Some (x - r_value r <=? r_length r)
             else Some false);
    if found : bool then Some index
    else Some (if index + 1 <? n_runs arr then index + 1 else -1).

(** ** Ranges *)

Definition run_container_add_range_nruns (run : run_container_t)
    (min max nruns_less nruns_greater : Z) : option run_container_t :=
  let nruns_common := n_runs run - nruns_less - nruns_greater in
  if nruns_common =? 0 then
    insert_run run (u16 nruns_less) (mk_rle (u16 min) (u16 (max - min)))
  else
    first ← rd (rc_runs run) nruns_less;
    last ← rd (rc_runs run) (nruns_less + nruns_common - 1);
    let common_min := r_value first in
    let common_max := r_value last + r_length last in
    let result_min := if common_min <? min then common_min else min in
    let result_max := if max <? common_max then common_max else max in
    l ← set_run (rc_runs run) nruns_less (mk_rle (u16 result_min) (u16 (result_max - result_min)));
    Some (with_runs run
      (take (Z.to_nat (nruns_less + 1)) l ++ drop (Z.to_nat (n_runs run - nruns_greater)) l)).

Definition run_container_add_range (run : run_container_t) (min max : Z) : option run_container_t :=
  nruns_greater ← rle16_count_greater (rc_runs run) (u16 max);
  nruns_less ← rle16_count_less (take (Z.to_nat (n_runs run - nruns_greater)) (rc_runs run)) (u16 min);
  run_container_add_range_nruns run min max nruns_less nruns_greater.

(** The last [count] runs move by [distance]; the runs they leave behind keep
    their content. *)
Definition run_container_shift_tail (run : run_container_t) (count distance : Z) :
    option run_container_t :=
  let run := if (0 <? distance) && (rc_capacity run <? count + distance)
             then run_container_grow run (count + distance) true else run in
  let srcpos := n_runs run - count in
  let dstpos := srcpos + distance in
  if (0 <=? count) && (0 <=? srcpos) && (0 <=? dstpos) && (dstpos <=? n_runs run) &&
     (n_runs run + distance <=? rc_capacity run) then
    Some (with_runs run (take (Z.to_nat dstpos) (rc_runs run) ++ drop (Z.to_nat srcpos) (rc_runs run)))
  else None.

Definition run_container_remove_range (run : run_container_t) (min max : Z) :
    option run_container_t :=
  let runs := rc_runs run in
  first ← rle16_find_run runs (u16 min);
  last ← rle16_find_run runs (u16 max);
  let rfirst := if 0 <=? first then rd runs first else None in
  let split := match rfirst with
               | Some r => (r_value r <? min) && (max <? r_value r + r_length r)
               | None => false
               end in
  if split then
    r ← rfirst;
    run ← insert_run run (u16 (first + 1)) (mk_rle (u16 (max + 1)) (u16 (r_value r + r_length r - (max + 1))));
    l ← set_run (rc_runs run) first (mk_rle (r_value r) (u16 (min - 1 - r_value r)));
    Some (with_runs run l)
  else
    '(runs, first) ←
      (if 0 <=? first then
         r ← rd runs first;
         if r_value r <? min then
           l ← set_run runs first (mk_rle (r_value r) (u16 (min - 1 - r_value r)));
           Some (l, first + 1)
         else Some (runs, first)
       else Some (runs, - first - 1));
    '(runs, last) ←
      (if 0 <=? last then
         r ← rd runs last;
         let run_max := u16 (r_value r + r_length r) in
         if max <? run_max then
           l ← set_run runs last (mk_rle (u16 (max + 1)) (u16 (run_max - (max + 1))));
           Some (l, last - 1)
         else Some (runs, last)
       else Some (runs, - last - 1 - 1));
    let run := with_runs run runs in
    if first <=? last then
      run_container_shift_tail run (n_runs run - (last + 1)) (- (last - first + 1))
    else Some run.
