(* ===== verification/RoaringRunFacts.v ===== *)
(** * Roaring bitmaps: what the run container functions compute

    [expand] is the sorted list of the values of a list of runs, the abstract
    value of a run container; [runs_ok] is the invariant of its runs: sorted,
    inside 16 bits and not even adjacent, so that the runs of a set are
    unique.  The searches and the operations on single values are related to
    it here. *)

From stdpp Require Import base list list_numbers numbers option sorting.
From Stdlib Require Import ZArith Lia ZifyBool.
From S2P Require Import Prelude.
From S2P Require Import RoaringArrays.
From S2P Require Import RoaringArrayContainer.
From S2P Require Import RoaringArrayFacts.
From S2P Require Import RoaringRun.

Local Open Scope Z_scope.

Definition expand (l : list rle16_t) : list Z := l ≫= run_values.

Definition run_wf (r : rle16_t) : Prop :=
  0 <= r_value r /\ 0 <= r_length r /\ r_max r <= 65535.

(** [b] comes after [a] and cannot be merged with it. *)
Definition apart (a b : rle16_t) : Prop := r_max a + 1 < r_value b.

Definition runs_ok (l : list rle16_t) : Prop :=
  Forall run_wf l /\ StronglySorted apart l.

Record run_ok (c : run_container_t) : Prop := {
  ro_runs : runs_ok (rc_runs c);
  ro_room : zlen (rc_runs c) <= rc_capacity c;
}.

(** Runs that end before [v] with a gap, and runs that start after [m] with a
    gap. *)
Definition ends_before (v : Z) (l : list rle16_t) : Prop := Forall (fun a => r_max a + 1 < v) l.
Definition starts_after (m : Z) (l : list rle16_t) : Prop := Forall (fun b => m + 1 < r_value b) l.

(** ** Values of runs *)

Lemma expand_nil : expand [] = [].
Proof. done. Qed.

Lemma expand_cons r l : expand (r :: l) = run_values r ++ expand l.
Proof. done. Qed.

Lemma expand_app l1 l2 : expand (l1 ++ l2) = expand l1 ++ expand l2.
Proof. unfold expand. by rewrite bind_app. Qed.

Lemma elem_of_run_values r x : x ∈ run_values r <-> r_value r <= x <= r_max r.
Proof. unfold run_values, r_max. rewrite elem_of_seqZ. lia. Qed.

Lemma elem_of_expand_nil x : x ∈ expand [] <-> False.
Proof. rewrite expand_nil. split; [apply not_elem_of_nil | done]. Qed.

Lemma elem_of_expand_cons r l x : x ∈ expand (r :: l) <-> r_value r <= x <= r_max r \/ x ∈ expand l.
Proof. by rewrite expand_cons, elem_of_app, elem_of_run_values. Qed.

Lemma elem_of_expand_app l1 l2 x : x ∈ expand (l1 ++ l2) <-> x ∈ expand l1 \/ x ∈ expand l2.
Proof. by rewrite expand_app, elem_of_app. Qed.

Create Rewrite HintDb runs.
#[export] Hint Rewrite elem_of_expand_app elem_of_expand_cons elem_of_expand_nil : runs.

(** Membership atoms as booleans, for [lia]. *)
Ltac abstract_members :=
  repeat match goal with
  | |- context [?y ∈ ?l] =>
    let b := fresh "b" in
    let Hb := fresh "Hb" in
    assert (exists b, y ∈ l <-> b = true) as [b Hb]
      by (exists (bool_decide (y ∈ l)); by rewrite bool_decide_eq_true);
    rewrite !Hb; clear Hb
  end.

Ltac members := autorewrite with runs; unfold r_max; cbn [r_value r_length]; abstract_members; lia.

Lemma elem_of_expand l x : x ∈ expand l <-> exists r, r ∈ l /\ r_value r <= x <= r_max r.
Proof.
  unfold expand. rewrite list_elem_of_bind. split.
  - intros (r & Hx%elem_of_run_values & Hr). eauto.
  - intros (r & Hr & Hx%elem_of_run_values). eauto.
Qed.

Lemma ends_before_elem v l x : ends_before v l -> x ∈ expand l -> x + 1 < v.
Proof.
  intros H (r & Hr & Hx)%elem_of_expand. unfold ends_before in H. rewrite Forall_forall in H.
  specialize (H r Hr). lia.
Qed.

Lemma starts_after_elem m l x : starts_after m l -> x ∈ expand l -> m + 1 < x.
Proof.
  intros H (r & Hr & Hx)%elem_of_expand. unfold starts_after in H. rewrite Forall_forall in H.
  specialize (H r Hr). lia.
Qed.

Lemma ends_before_mono v v' l : ends_before v l -> v <= v' -> ends_before v' l.
Proof. intros H Hv. eapply Forall_impl; [exact H |]. simpl. lia. Qed.

Lemma starts_after_mono m m' l : starts_after m l -> m' <= m -> starts_after m' l.
Proof. intros H Hm. eapply Forall_impl; [exact H |]. simpl. lia. Qed.

Lemma ends_before_nil v : ends_before v [].
Proof. constructor. Qed.

Lemma starts_after_nil m : starts_after m [].
Proof. constructor. Qed.

Lemma ends_before_app v l1 l2 : ends_before v (l1 ++ l2) <-> ends_before v l1 /\ ends_before v l2.
Proof. unfold ends_before. by rewrite Forall_app. Qed.

Lemma starts_after_cons m r l : starts_after m (r :: l) <-> m + 1 < r_value r /\ starts_after m l.
Proof. unfold starts_after. by rewrite Forall_cons. Qed.

Lemma ends_before_cons v r l : ends_before v (r :: l) <-> r_max r + 1 < v /\ ends_before v l.
Proof. unfold ends_before. by rewrite Forall_cons. Qed.

Lemma runs_ok_nil : runs_ok [].
Proof. split; constructor. Qed.

Lemma runs_ok_cons r l : runs_ok (r :: l) <-> run_wf r /\ starts_after (r_max r) l /\ runs_ok l.
Proof.
  unfold runs_ok. rewrite Forall_cons. split.
  - intros [[Hr Hl] [Hs Ha]%StronglySorted_inv]. auto.
  - intros (Hr & Ha & Hl & Hs). split; [auto |]. by constructor.
Qed.

Lemma apart_trans_lt a b : run_wf b -> apart a b -> r_max a + 1 < r_max b.
Proof. unfold apart, run_wf, r_max. lia. Qed.

(** A run in the middle separates what is before it from what is after. *)
Lemma runs_ok_mid l1 r l2 : runs_ok (l1 ++ r :: l2) <->
  runs_ok l1 /\ run_wf r /\ runs_ok l2 /\ ends_before (r_value r) l1 /\ starts_after (r_max r) l2.
Proof.
  induction l1 as [|a l1 IH]; cbn [app].
  - rewrite runs_ok_cons. pose proof runs_ok_nil. pose proof (ends_before_nil (r_value r)). tauto.
  - rewrite !runs_ok_cons, IH, ends_before_cons. unfold starts_after at 1 3.
    rewrite Forall_app, Forall_cons. fold (starts_after (r_max a) l1). fold (starts_after (r_max a) l2).
    split; [tauto |]. intros ((Ha & Hal & Hl1) & Hr & Hl2 & [Har Hbr] & Hsr).
    pose proof (apart_trans_lt a r Hr Har) as Hmm.
    split; [done |]. split; [| done]. split; [done |]. split; [done |].
    eapply starts_after_mono; [done | lia].
Qed.

Lemma runs_ok_app l1 l2 v : runs_ok l1 -> runs_ok l2 -> ends_before v l1 -> starts_after (v - 2) l2 ->
  runs_ok (l1 ++ l2).
Proof.
  intros H1 H2 Hb Ha. destruct l2 as [|r l2]; [by rewrite app_nil_r |].
  apply runs_ok_cons in H2 as (Hr & Hs & H2). apply runs_ok_mid. apply starts_after_cons in Ha as [Hv _].
  split; [done |]. split; [done |]. split; [done |]. split; [| done]. eapply ends_before_mono; [done | lia].
Qed.

Lemma runs_ok_app_inv l1 l2 : runs_ok (l1 ++ l2) -> runs_ok l1 /\ runs_ok l2.
Proof.
  intros [H1 H2]. apply Forall_app in H1 as [? ?]. split; split; try done.
  - by eapply StronglySorted_app_1_l.
  - by eapply StronglySorted_app_1_r.
Qed.

Lemma expand_strict l : runs_ok l -> strict (expand l).
Proof.
  induction l as [|r l IH]; intros H; [constructor |]. apply runs_ok_cons in H as (Hr & Ha & Hl).
  rewrite expand_cons. apply strict_app; [apply seqZ_strict | auto |].
  intros x y Hx%elem_of_run_values Hy. pose proof (starts_after_elem _ _ _ Ha Hy). lia.
Qed.

Lemma expand_range l x : runs_ok l -> x ∈ expand l -> in_u 16 x.
Proof.
  intros [Hw _] (r & Hr & Hx)%elem_of_expand. rewrite Forall_forall in Hw.
  destruct (Hw r Hr) as (? & ? & ?). split; lia.
Qed.

Lemma expand_sorted l : runs_ok l -> sorted16 (expand l).
Proof.
  intros H. split; [by apply expand_strict |]. apply Forall_forall. intros x Hx. by eapply expand_range.
Qed.

Lemma zlen_run_values r : run_wf r -> zlen (run_values r) = r_length r + 1.
Proof. intros (? & ? & ?). unfold run_values. apply zlen_seqZ. lia. Qed.

Lemma sum_lengths_spec l n : Forall run_wf l -> sum_lengths l n = n + zlen (expand l) - zlen l.
Proof.
  intros H. revert n. induction H as [|r l Hr _ IH]; intros n; [unfold zlen; simpl; lia |].
  cbn [sum_lengths]. rewrite IH, expand_cons, zlen_app, zlen_run_values, zlen_cons by done. lia.
Qed.

Lemma run_cardinality_spec c : run_ok c -> run_container_cardinality c = zlen (expand (rc_runs c)).
Proof.
  intros [[Hw _] _]. unfold run_container_cardinality, n_runs. rewrite sum_lengths_spec by done. lia.
Qed.

(** The runs of a set are unique. *)
Lemma runs_unique l1 l2 : runs_ok l1 -> runs_ok l2 -> (forall x, x ∈ expand l1 <-> x ∈ expand l2) -> l1 = l2.
Proof.
  revert l2. induction l1 as [|r l1 IH]; intros l2 H1 H2 He.
  - destruct l2 as [|s l2]; [done |]. exfalso. apply runs_ok_cons in H2 as ((? & ? & ?) & _).
    specialize (He (r_value s)). autorewrite with runs in He. unfold r_max in *. lia.
  - destruct l2 as [|s l2].
    { exfalso. apply runs_ok_cons in H1 as ((? & ? & ?) & _).
      specialize (He (r_value r)). autorewrite with runs in He. unfold r_max in *. lia. }
    apply runs_ok_cons in H1 as ((R1 & R2 & R3) & Ra & H1).
    apply runs_ok_cons in H2 as ((S1 & S2 & S3) & Sa & H2).
    assert (forall x, x ∈ expand l1 -> r_max r + 1 < x) as Hl1 by (intros x; by apply starts_after_elem).
    assert (forall x, x ∈ expand l2 -> r_max s + 1 < x) as Hl2 by (intros x; by apply starts_after_elem).
    assert (forall x, (r_value r <= x <= r_max r \/ x ∈ expand l1) <->
                      (r_value s <= x <= r_max s \/ x ∈ expand l2)) as He'.
    { intros x. specialize (He x). by autorewrite with runs in He. }
    assert (r_value r = r_value s) as Hv.
    { pose proof (proj1 (He' (r_value r))) as A. pose proof (proj2 (He' (r_value s))) as B.
      specialize (Hl1 (r_value s)). specialize (Hl2 (r_value r)). unfold r_max in *.
      destruct A as [A|A]; [lia | |]; destruct B as [B|B]; try lia;
        try specialize (Hl1 B); try specialize (Hl2 A); lia. }
    assert (r_max r = r_max s) as Hm.
    { destruct (Z.lt_trichotomy (r_max r) (r_max s)) as [Hlt | [| Hlt]]; [| done |].
      - destruct (proj2 (He' (r_max r + 1))) as [?|X]; [left; unfold r_max in *; lia | lia |].
        specialize (Hl1 _ X). lia.
      - destruct (proj1 (He' (r_max s + 1))) as [?|X]; [left; unfold r_max in *; lia | lia |].
        specialize (Hl2 _ X). lia. }
    assert (r = s) as <- by (destruct r, s; unfold r_max in *; cbn in *; f_equal; lia).
    f_equal. apply IH; [done | done |]. intros x. specialize (He' x). split; intros Hx.
    + destruct (proj1 He') as [?|]; [by right | specialize (Hl1 x Hx); lia | done].
    + destruct (proj2 He') as [?|]; [by right | specialize (Hl2 x Hx); lia | done].
Qed.

Lemma expand_inj l1 l2 : runs_ok l1 -> runs_ok l2 -> expand l1 = expand l2 -> l1 = l2.
Proof. intros H1 H2 E. apply runs_unique; [done | done |]. intros x. by rewrite E. Qed.

(** The starts of the runs are the values without a predecessor. *)
Lemma run_starts_expand l : runs_ok l -> run_starts (expand l) = r_value <$> l.
Proof.
  intros H. apply strict_ext.
  - apply strict_filter. by apply expand_strict.
  - induction l as [|r l IH]; [constructor |]. apply runs_ok_cons in H as ((? & ? & ?) & Ha & Hl).
    rewrite fmap_cons. apply strict_cons_elem; [by apply IH |].
    intros y (s & -> & Hs)%list_elem_of_fmap. unfold starts_after in Ha. rewrite Forall_forall in Ha.
    specialize (Ha s Hs). unfold r_max in *. lia.
  - intros x. unfold run_starts. rewrite list_elem_of_filter, list_elem_of_fmap. split.
    + intros [Hn (r & Hr & Hx)%elem_of_expand]. exists r. split; [| done].
      destruct (decide (x = r_value r)); [done |]. exfalso. apply Hn. apply elem_of_expand. exists r. split; [done | lia].
    + intros (r & -> & Hr). split.
      * apply list_elem_of_split in Hr as (l1 & l2 & ->). apply runs_ok_mid in H as (_ & (? & ? & ?) & _ & Hb & Ha).
        autorewrite with runs. intros [Hc | [Hc | Hc]].
        -- pose proof (ends_before_elem _ _ _ Hb Hc). lia.
        -- lia.
        -- pose proof (starts_after_elem _ _ _ Ha Hc). unfold r_max in *. lia.
      * apply elem_of_expand. exists r. split; [done |]. destruct H as [Hw _]. rewrite Forall_forall in Hw.
        destruct (Hw r Hr) as (? & ? & ?). unfold r_max. lia.
Qed.

(** ** Searches *)

Lemma rd_at {A} (l1 : list A) r l2 : rd (l1 ++ r :: l2) (zlen l1) = Some r.
Proof. rewrite rd_app_r by lia. by rewrite Z.sub_diag. Qed.

Lemma rd_after {A} (l1 : list A) r l2 : rd (l1 ++ r :: l2) (zlen l1 + 1) = rd l2 0.
Proof.
  rewrite rd_app_r by lia. replace (zlen l1 + 1 - zlen l1) with 1 by lia. done.
Qed.

Lemma insert_middle {A} (l1 : list A) r s l2 : <[length l1 := s]> (l1 ++ r :: l2) = l1 ++ s :: l2.
Proof. rewrite insert_app_r_alt, Nat.sub_diag by lia. done. Qed.

Lemma set_run_at l1 r s l2 : set_run (l1 ++ r :: l2) (zlen l1) s = Some (l1 ++ s :: l2).
Proof.
  unfold set_run. pose proof (zlen_nonneg l1). pose proof (zlen_nonneg l2). rewrite zlen_app, zlen_cons.
  replace ((0 <=? zlen l1) && _) with true by lia. f_equal. unfold zlen. rewrite Nat2Z.id. apply insert_middle.
Qed.

Lemma set_run_after l1 r x s l2 : set_run (l1 ++ r :: x :: l2) (zlen l1 + 1) s = Some (l1 ++ r :: s :: l2).
Proof.
  replace (l1 ++ r :: x :: l2) with ((l1 ++ [r]) ++ x :: l2) by (by rewrite <- app_assoc).
  replace (zlen l1 + 1) with (zlen (l1 ++ [r])) by (by rewrite zlen_app).
  rewrite set_run_at, <- app_assoc. done.
Qed.

(** Runs are at most every second value. *)
Lemma runs_count l lo : runs_ok l -> Forall (fun r => lo <= r_value r) l -> lo <= 65537 ->
  2 * zlen l <= 65537 - lo.
Proof.
  revert lo. induction l as [|r l IH]; intros lo H Hlo Hb; [unfold zlen; simpl; lia |].
  apply runs_ok_cons in H as ((? & ? & ?) & Ha & Hl). apply Forall_cons in Hlo as [Hlo _]. rewrite zlen_cons.
  enough (2 * zlen l <= 65537 - (r_max r + 2)) by (unfold r_max in *; lia).
  apply IH; [done | | lia]. eapply Forall_impl; [exact Ha |]. simpl. lia.
Qed.

Lemma runs_ok_count l : runs_ok l -> zlen l <= 32768.
Proof.
  intros H. pose proof (runs_count l 0 H) as Hc. enough (2 * zlen l <= 65537 - 0) by lia.
  apply Hc; [| lia]. destruct H as [Hw _]. eapply Forall_impl; [exact Hw |]. intros r (? & ? & ?). done.
Qed.

Lemma interleaved_loop_eq fuel l low high k :
  interleaved_loop fuel l low high k = binarySearch_loop fuel (r_value <$> l) low high k.
Proof.
  revert low high. induction fuel as [|fuel IH]; intros low high; [done |].
  cbn [interleaved_loop binarySearch_loop]. destruct (low <=? high); [| done]. rewrite rd_fmap.
  destruct (rd l (Z.shiftr (low + high) 1)) as [r|]; [| done]. cbn [mbind option_bind fmap option_fmap option_map].
  rewrite !IH. done.
Qed.

Lemma values_strict l : runs_ok l -> strict (r_value <$> l).
Proof.
  intros H. rewrite <- run_starts_expand by done. apply strict_filter. by apply expand_strict.
Qed.

Lemma search_eq l k : runs_ok l ->
  interleavedBinarySearch l k =
    Some (if decide (k ∈ r_value <$> l) then lb (r_value <$> l) k else - (lb (r_value <$> l) k + 1)).
Proof.
  intros H. rewrite <- binarySearch_spec by (by apply values_strict).
  unfold interleavedBinarySearch, binarySearch. rewrite interleaved_loop_eq. unfold zlen. by rewrite length_fmap.
Qed.

(** The three answers of the search: the run that starts at the key, the key
    below all runs, the last run that starts below the key. *)
Variant search_result (k : Z) : list rle16_t -> Z -> Prop :=
| Search_at l1 r l2 : r_value r = k -> search_result k (l1 ++ r :: l2) (zlen l1)
| Search_before l : Forall (fun s => k < r_value s) l -> search_result k l (-1)
| Search_after l1 r l2 : r_value r < k -> Forall (fun s => k < r_value s) l2 ->
    search_result k (l1 ++ r :: l2) (- zlen l1 - 2).

Lemma search_cases l k : runs_ok l -> exists i, interleavedBinarySearch l k = Some i /\ search_result k l i.
Proof.
  intros H. rewrite search_eq by done. eexists. split; [done |]. pose proof (values_strict l H) as Hs.
  pose proof (lb_range (r_value <$> l) k) as Hr. unfold zlen in Hr. rewrite length_fmap in Hr. fold (zlen l) in Hr.
  destruct (decide (k ∈ r_value <$> l)) as [Hin | Hin].
  - pose proof (rd_lb_elem _ _ Hs Hin) as Hl. rewrite rd_fmap in Hl.
    destruct (rd l (lb (r_value <$> l) k)) as [r|] eqn:E; [| done]. injection Hl as Hk.
    set (p := lb (r_value <$> l) k) in *.
    assert (l = take (Z.to_nat p) l ++ r :: drop (S (Z.to_nat p)) l) as El.
    { unfold rd in E. rewrite (proj2 (Z.leb_le 0 p)) in E by lia. by rewrite take_drop_middle. }
    assert (zlen (take (Z.to_nat p) l) = p) as Ep.
    { apply rd_bound in E. apply zlen_take. lia. }
    rewrite El at 1. rewrite <- Ep at 3. by constructor.
  - set (p := lb (r_value <$> l) k) in *.
    assert (Forall (fun s => k < r_value s) (drop (Z.to_nat p) l)) as Hd.
    { pose proof (lb_drop_ge (r_value <$> l) k Hs) as Hd. fold p in Hd. rewrite <- fmap_drop in Hd.
      apply Forall_forall. intros s Hs'. rewrite Forall_forall in Hd.
      assert (r_value s ∈ r_value <$> drop (Z.to_nat p) l) as Hv by (by apply list_elem_of_fmap_2).
      specialize (Hd _ Hv). destruct (decide (k = r_value s)) as [-> |]; [| lia]. exfalso. apply Hin.
      rewrite fmap_drop in Hv. by eapply elem_of_drop_1. }
    destruct (decide (p = 0)) as [Hp | Hp].
    + rewrite Hp in *. rewrite drop_0 in Hd. by constructor.
    + destruct (rd_Some l (p - 1)) as [r Er]; [lia |].
      assert (l = take (Z.to_nat (p - 1)) l ++ r :: drop (Z.to_nat p) l) as El.
      { unfold rd in Er. rewrite (proj2 (Z.leb_le 0 (p - 1))) in Er by lia.
        rewrite <- (take_drop_middle l _ _ Er) at 1. do 3 f_equal. lia. }
      assert (zlen (take (Z.to_nat (p - 1)) l) = p - 1) as Ep by (apply zlen_take; lia).
      rewrite El. replace (- (p + 1)) with (- zlen (take (Z.to_nat (p - 1)) l) - 2) by lia.
      apply Search_after; [| done].
      apply Z.ltb_lt. rewrite (lb_lookup (r_value <$> l) k (p - 1)); [apply Z.ltb_lt; fold p; lia | done |].
      rewrite rd_fmap, Er. done.
Qed.

(** [o] is a well-formed run container that holds [l]. *)
Definition run_result (o : option run_container_t) (l : list Z) : Prop :=
  exists c, o = Some c /\ run_ok c /\ expand (rc_runs c) = l.

Lemma run_grow_room run min copy : min <= rc_capacity (run_container_grow run min copy).
Proof.
  unfold run_container_grow. cbn [rc_capacity]. set (n := if rc_capacity run =? 0 then _ else _).
  destruct (Z.ltb_spec n min); lia.
Qed.

Lemma insert_run_at run l1 l2 r : rc_runs run = l1 ++ l2 ->
  exists cap, insert_run run (zlen l1) r = Some (mk_run cap (l1 ++ r :: l2)) /\ zlen (l1 ++ r :: l2) <= cap.
Proof.
  intros E. unfold insert_run, n_runs.
  set (run' := if rc_capacity run <? zlen (rc_runs run) + 1
               then run_container_grow run (zlen (rc_runs run) + 1) true else run).
  assert (rc_runs run' = l1 ++ l2 /\ zlen (l1 ++ l2) + 1 <= rc_capacity run') as [E' Hc].
  { subst run'. rewrite E. destruct (Z.ltb_spec (rc_capacity run) (zlen (l1 ++ l2) + 1)).
    - split; [done |]. apply run_grow_room.
    - split; [done | lia]. }
  rewrite E'. pose proof (zlen_nonneg l1). pose proof (zlen_nonneg l2). rewrite zlen_app in *.
  replace ((zlen l1 <=? zlen l1 + zlen l2) && _) with true by lia. exists (rc_capacity run').
  split; [| rewrite zlen_app, zlen_cons; lia].
  replace (Z.to_nat (zlen l1)) with (length l1) by (unfold zlen; lia).
  by rewrite take_app_length, drop_app_length.
Qed.

(** ** Single values *)

(** A new list of runs in a container, by its members. *)
Lemma run_result_intro cap l v : runs_ok l -> zlen l <= cap -> strict v ->
  (forall x, x ∈ expand l <-> x ∈ v) -> run_result (Some (mk_run cap l)) v.
Proof.
  intros Hl Hc Hv H. eexists. split; [done |]. split; [by split |].
  apply strict_ext; [by apply expand_strict | done | done].
Qed.

Lemma zlen_set {A} (l1 : list A) r s l2 : zlen (l1 ++ r :: l2) = zlen (l1 ++ s :: l2).
Proof. by rewrite !zlen_app, !zlen_cons. Qed.

Lemma u16_id x : 0 <= x <= 65535 -> u16 x = x.
Proof. intros H. apply uwrap_id. split; lia. Qed.

Lemma run_contains_spec run x : run_ok run ->
  run_container_contains run x = Some (bool_decide (x ∈ expand (rc_runs run))).
Proof.
  intros [Hr _]. unfold run_container_contains. destruct (search_cases (rc_runs run) x Hr) as (i & -> & Hs).
  cbn [mbind option_bind]. generalize dependent (rc_runs run). intros l Hl Hs. destruct Hs as [l1 r l2 Hv | l Hb | l1 r l2 Hv Hb].
  - pose proof (zlen_nonneg l1). rewrite (proj2 (Z.leb_le 0 _)) by lia. rewrite bool_decide_true; [done |].
    apply runs_ok_mid in Hl as (_ & (? & ? & ?) & _). autorewrite with runs. unfold r_max. lia.
  - cbn. rewrite bool_decide_false; [done |]. intros (r & Hr & Hx)%elem_of_expand.
    rewrite Forall_forall in Hb. specialize (Hb r Hr). lia.
  - pose proof (zlen_nonneg l1). rewrite (proj2 (Z.leb_gt 0 _)) by lia.
    replace (- (- zlen l1 - 2) - 2) with (zlen l1) by lia.
    rewrite (proj2 (Z.eqb_neq (zlen l1) (-1))) by lia. cbn [negb]. rewrite rd_at. cbn [mbind option_bind]. f_equal.
    apply runs_ok_mid in Hl as (_ & (? & ? & ?) & _ & He & _).
    assert (x ∈ expand (l1 ++ r :: l2) <-> x - r_value r <= r_length r) as Hx.
    { autorewrite with runs. unfold r_max. split; [| lia]. intros [Hc | [Hc | Hc]]; [| lia |].
      - pose proof (ends_before_elem _ _ _ He Hc). lia.
      - apply elem_of_expand in Hc as (s & Hs & Hx). rewrite Forall_forall in Hb. specialize (Hb s Hs). lia. }
    rewrite (bool_decide_ext _ _ Hx). destruct (Z.leb_spec (x - r_value r) (r_length r));
      [by rewrite bool_decide_true | rewrite bool_decide_false by lia; done].
Qed.

(** [x] inside the last run that starts at or below it, if anywhere. *)
Lemma expand_absent l1 r l2 x : runs_ok (l1 ++ r :: l2) -> r_value r <= x -> Forall (fun s => x < r_value s) l2 ->
  x ∈ expand (l1 ++ r :: l2) <-> x <= r_max r.
Proof.
  intros (_ & (? & ? & ?) & _ & He & _)%runs_ok_mid Hv Hb. autorewrite with runs. split; [| lia].
  intros [Hc | [Hc | Hc]]; [| lia |].
  - pose proof (ends_before_elem _ _ _ He Hc). lia.
  - apply elem_of_expand in Hc as (s & Hs & Hx). rewrite Forall_forall in Hb. specialize (Hb s Hs). lia.
Qed.

Lemma expand_before l x : Forall (fun s => x < r_value s) l -> x ∉ expand l.
Proof. intros Hb (s & Hs & Hx)%elem_of_expand. rewrite Forall_forall in Hb. specialize (Hb s Hs). lia. Qed.

Lemma union_one_elem a x y : y ∈ union_loop a [x] <-> y ∈ a \/ y = x.
Proof. by rewrite elem_of_union_loop, list_elem_of_singleton. Qed.

Lemma minus_one_elem a x y : y ∈ minus a [x] <-> y ∈ a /\ y <> x.
Proof. by rewrite elem_of_minus, list_elem_of_singleton. Qed.

Lemma union_one_strict a x : strict a -> strict (union_loop a [x]).
Proof. intros H. apply union_loop_strict; [done | repeat constructor]. Qed.

(** Whether a value was added, and the container afterwards. *)
Definition run_change (o : option (bool * run_container_t)) (b : bool) (l : list Z) : Prop :=
  exists c, o = Some (b, c) /\ run_ok c /\ expand (rc_runs c) = l.

Lemma run_change_intro b cap l v : runs_ok l -> zlen l <= cap -> strict v ->
  (forall x, x ∈ expand l <-> x ∈ v) -> run_change (Some (b, mk_run cap l)) b v.
Proof.
  intros Hl Hc Hv H. eexists. split; [done |]. split; [by split |].
  apply strict_ext; [by apply expand_strict | done | done].
Qed.

(** Inserting a run of one value between two others. *)
Lemma add_single_spec run l1 l2 x : rc_runs run = l1 ++ l2 -> runs_ok (l1 ++ l2) -> in_u 16 x ->
  ends_before x l1 -> starts_after x l2 ->
  run_change (add_single run (zlen l1 - 1) x) true (union_loop (expand (l1 ++ l2)) [x]).
Proof.
  intros E Hl Hx Hb Ha. unfold add_single.
  pose proof (runs_ok_count _ Hl) as Hc. rewrite zlen_app in Hc. pose proof (zlen_nonneg l1). pose proof (zlen_nonneg l2).
  rewrite u16_id by lia. replace (zlen l1 - 1 + 1) with (zlen l1) by lia.
  destruct (insert_run_at run l1 l2 (mk_rle x 0) E) as (cap & -> & Hcap). cbn [mbind option_bind].
  destruct (runs_ok_app_inv _ _ Hl) as [Hl1 Hl2]. destruct Hx as [Hx1 Hx2].
  apply run_change_intro; [| done | by apply union_one_strict, expand_strict |].
  - apply runs_ok_mid. split; [done |]. split; [unfold run_wf, r_max; cbn; lia |]. split; [done |].
    split; [done |]. unfold r_max. cbn. eapply starts_after_mono; [done | lia].
  - intros y. rewrite union_one_elem. members.
Qed.

Lemma starts_after_of_lt x l : runs_ok l -> Forall (fun s => x < r_value s) l ->
  match l with [] => True | s :: _ => x + 1 < r_value s end -> starts_after x l.
Proof.
  intros Hl Hb Hh. destruct l as [|s l]; [constructor |]. apply runs_ok_cons in Hl as ((? & ? & ?) & Ha & _).
  apply starts_after_cons. split; [done |]. eapply starts_after_mono; [exact Ha |]. unfold r_max. lia.
Qed.

Lemma run_add_spec run x : run_ok run -> in_u 16 x ->
  run_change (run_container_add run x) (bool_decide (x ∉ expand (rc_runs run)))
    (union_loop (expand (rc_runs run)) [x]).
Proof.
  intros [Hl Hroom] Hx. pose proof Hx as [Hx1 Hx2]. unfold run_container_add.
  destruct (search_cases (rc_runs run) x Hl) as (i & Hsearch & Hs). rewrite Hsearch. cbn [mbind option_bind].
  remember (rc_runs run) as l eqn:El. symmetry in El.
  assert (Hpresent : x ∈ expand l -> run_change (Some (false, run)) (bool_decide (x ∉ expand l)) (union_loop (expand l) [x])).
  { intros Hin. rewrite bool_decide_false by tauto. exists run. split; [done |].
    split; [split; by rewrite El |]. rewrite El.
    apply strict_ext; [by apply expand_strict | by apply union_one_strict, expand_strict |].
    intros y. rewrite union_one_elem. split; [auto | intros [| ->]; done]. }
  destruct Hs as [l1 r l2 Hv | l Hb | l1 r l2 Hv Hb].
  - pose proof (zlen_nonneg l1). rewrite (proj2 (Z.leb_le 0 _)) by lia. apply Hpresent.
    apply runs_ok_mid in Hl as (_ & (? & ? & ?) & _). autorewrite with runs. unfold r_max. lia.
  - change (- -1 - 2) with (-1). change (0 <=? -1) with false. cbv beta iota zeta.
    rewrite bool_decide_true by (by apply expand_before).
    destruct l as [|s l].
    { change (rd [] 0) with (@None rle16_t). cbv iota.
      apply (add_single_spec run [] []); [done | done | done | constructor | constructor]. }
    change (rd (s :: l) 0) with (Some s). cbv iota.
    apply Forall_cons in Hb as [Hsv Hb]. pose proof Hl as Hl'. apply runs_ok_cons in Hl' as ((S1 & S2 & S3) & Sa & Hl2).
    destruct (Z.eqb_spec (r_value s) (x + 1)) as [E | E].
    + pose proof (set_run_at [] s (mk_rle (u16 (r_value s - 1)) (u16 (r_length s + 1))) l) as Hset.
      cbn [app] in Hset. change (zlen []) with 0 in Hset. rewrite Hset. cbn [mbind option_bind].
      unfold r_max in *. rewrite !u16_id by lia.
      apply run_change_intro; [| by rewrite !zlen_cons in * | by apply union_one_strict, expand_strict |].
      * apply runs_ok_cons. unfold run_wf, r_max. cbn. split; [lia |]. split; [eapply starts_after_mono; [done | lia] | done].
      * intros y. rewrite union_one_elem. members.
    + apply (add_single_spec run [] (s :: l)); [done | done | done | constructor |].
      apply starts_after_of_lt; [done | by constructor | lia].
  - pose proof (zlen_nonneg l1). rewrite (proj2 (Z.leb_gt 0 _)) by lia.
    replace (- (- zlen l1 - 2) - 2) with (zlen l1) by lia. rewrite (proj2 (Z.leb_le 0 (zlen l1))) by lia.
    rewrite rd_at, rd_after. cbn [mbind option_bind].
    pose proof (expand_absent l1 r l2 x Hl ltac:(lia) Hb) as Habs.
    pose proof Hl as Hl'. apply runs_ok_mid in Hl' as (Hl1 & (R1 & R2 & R3) & Hl2 & Re & Ra).
    destruct (Z.leb_spec (x - r_value r) (r_length r)) as [Hin | Hout];
      [apply Hpresent, Habs; unfold r_max; lia |].
    rewrite bool_decide_true by (rewrite Habs; unfold r_max; lia).
    assert (Hext : x - r_value r = r_length r + 1 -> match l2 with [] => True | s :: _ => x + 1 < r_value s end ->
      run_change (l ← set_run (l1 ++ r :: l2) (zlen l1) (mk_rle (r_value r) (u16 (r_length r + 1)));
                  Some (true, with_runs run l)) true (union_loop (expand (l1 ++ r :: l2)) [x])).
    { intros E Hh. rewrite set_run_at. cbn [mbind option_bind]. unfold r_max in *. rewrite u16_id by lia.
      apply run_change_intro; [| by rewrite (zlen_set _ _ r) | by apply union_one_strict, expand_strict |].
      - apply runs_ok_mid. unfold run_wf, r_max. cbn. split; [done |]. split; [lia |]. split; [done |]. split; [done |].
        eapply starts_after_mono; [by apply (starts_after_of_lt x) | lia].
      - intros y. rewrite union_one_elem. members. }
    assert (Hsingle : r_length r + 1 < x - r_value r -> match l2 with [] => True | s :: _ => x + 1 < r_value s end ->
      run_change (add_single run (zlen l1) x) true (union_loop (expand (l1 ++ r :: l2)) [x])).
    { intros Hgap Hh. replace (l1 ++ r :: l2) with ((l1 ++ [r]) ++ l2) in * by (by rewrite <- app_assoc).
      replace (zlen l1) with (zlen (l1 ++ [r]) - 1) by (rewrite zlen_app; change (zlen [r]) with 1; lia).
      apply add_single_spec; [done | done | done | | by apply starts_after_of_lt].
      apply ends_before_app. split; [eapply ends_before_mono; [done | lia] |].
      apply ends_before_cons. split; [unfold r_max; lia | constructor]. }
    destruct l2 as [|s l2].
    { change (rd [] 0) with (@None rle16_t). cbv iota. destruct (Z.eqb_spec (x - r_value r) (r_length r + 1)); [by apply Hext | apply Hsingle; [lia | done]]. }
    change (rd (s :: l2) 0) with (Some s). cbv iota.
    apply Forall_cons in Hb as [Hsv Hb]. apply runs_ok_cons in Hl2 as ((S1 & S2 & S3) & Sa & Hl2).
    apply starts_after_cons in Ra as [Rs Ra].
    destruct (Z.eqb_spec (x - r_value r) (r_length r + 1)) as [E | E];
      destruct (Z.eqb_spec (r_value s) (x + 1)) as [Es | Es]; [| apply Hext; [done | lia] | | apply Hsingle; lia].
    + rewrite set_run_at. cbn [mbind option_bind]. unfold recoverRoomAtIndex, with_runs. cbn [rc_runs rc_capacity].
      pose proof (runs_ok_count _ Hl) as Hcnt. rewrite zlen_app, !zlen_cons in Hcnt. pose proof (zlen_nonneg l2).
      rewrite (u16_id (zlen l1 + 1)) by lia. unfold r_max in *. rewrite u16_id by lia.
      set (m := mk_rle (r_value r) (r_value s + r_length s - r_value r)).
      assert (take (Z.to_nat (zlen l1 + 1)) (l1 ++ m :: s :: l2) ++ drop (Z.to_nat (zlen l1 + 1 + 1)) (l1 ++ m :: s :: l2) =
        l1 ++ m :: l2) as ->.
      { replace (Z.to_nat (zlen l1 + 1)) with (length l1 + 1)%nat by (unfold zlen; lia).
        replace (Z.to_nat (zlen l1 + 1 + 1)) with (length l1 + 2)%nat by (unfold zlen; lia).
        rewrite take_app_add, drop_app_add. by rewrite <- app_assoc. }
      apply run_change_intro; [| | by apply union_one_strict, expand_strict |].
      * apply runs_ok_mid. unfold run_wf, r_max. cbn. split; [done |]. split; [lia |]. split; [done |]. split; [done |].
        eapply starts_after_mono; [exact Sa | lia].
      * rewrite zlen_app, !zlen_cons in *. lia.
      * intros y. subst m. rewrite union_one_elem. members.
    + rewrite set_run_after. cbn [mbind option_bind]. unfold r_max in *. rewrite u16_id by lia.
      apply run_change_intro; [| | by apply union_one_strict, expand_strict |].
      * apply runs_ok_mid. split; [done |]. split; [done |]. split; [| split; [done |]].
        -- apply runs_ok_cons. unfold run_wf, r_max. cbn. split; [lia |]. split; [eapply starts_after_mono; [exact Sa | lia] | done].
        -- apply starts_after_cons. unfold r_max. cbn. split; [lia | done].
      * rewrite zlen_app, !zlen_cons in *. lia.
      * intros y. rewrite union_one_elem. members.
Qed.
