(* ===== verification/RoaringRunOps.v ===== *)
(** * Roaring bitmaps: run containers, values, ranges and order statistics

    Removal, membership of ranges, comparisons, order statistics and bytes
    of the run container, related to the list [expand] of its values. *)

From stdpp Require Import base list list_numbers numbers option sorting.
From Stdlib Require Import ZArith Lia ZifyBool.
From S2P Require Import Prelude.
From S2P Require Import RoaringArrays.
From S2P Require Import RoaringArrayContainer.
From S2P Require Import RoaringArrayFacts.
From S2P Require Import RoaringRun.
From S2P Require Import RoaringRunFacts.

Local Open Scope Z_scope.

(** ** Removal *)

Lemma runs_ok_delete l1 r l2 : runs_ok (l1 ++ r :: l2) -> runs_ok (l1 ++ l2).
Proof.
  intros (L1 & (? & ? & ?) & L2 & He & Ha)%runs_ok_mid. eapply runs_ok_app; [done | done | exact He |].
  eapply starts_after_mono; [done |]. unfold r_max. lia.
Qed.

Lemma recover_at cap l1 r l2 :
  recoverRoomAtIndex (mk_run cap (l1 ++ r :: l2)) (zlen l1) = mk_run cap (l1 ++ l2).
Proof.
  unfold recoverRoomAtIndex. cbn [rc_runs rc_capacity]. f_equal.
  replace (Z.to_nat (zlen l1)) with (length l1) by (unfold zlen; lia).
  replace (Z.to_nat (zlen l1 + 1)) with (length l1 + 1)%nat by (unfold zlen; lia).
  by rewrite take_app_length, drop_app_add.
Qed.

Lemma minus_one_strict a x : strict a -> strict (minus a [x]).
Proof. apply strict_filter. Qed.

Lemma run_remove_spec run x : run_ok run -> in_u 16 x ->
  run_change (run_container_remove run x) (bool_decide (x ∈ expand (rc_runs run)))
    (minus (expand (rc_runs run)) [x]).
Proof.
  intros [Hl Hroom] [Hx1 Hx2]. unfold run_container_remove. destruct run as [cap l]. cbn [rc_runs rc_capacity] in *.
  destruct (search_cases l x Hl) as (i & -> & Hs). cbn [mbind option_bind].
  assert (Habsent : x ∉ expand l ->
    run_change (Some (false, mk_run cap l)) (bool_decide (x ∈ expand l)) (minus (expand l) [x])).
  { intros Hin. rewrite bool_decide_false by done. eexists. split; [done |]. split; [by split |].
    symmetry. apply filter_every. intros y Hy ->%list_elem_of_singleton. done. }
  destruct Hs as [l1 r l2 Hv | l Hb | l1 r l2 Hv Hb].
  - pose proof (zlen_nonneg l1). rewrite (proj2 (Z.leb_le 0 _)) by lia. rewrite rd_at. cbn [mbind option_bind].
    pose proof Hl as (H1 & (R1 & R2 & R3) & H2 & He & Ha)%runs_ok_mid.
    pose proof (fun y => starts_after_elem _ l2 y Ha) as Hl2. pose proof (fun y => ends_before_elem _ l1 y He) as Hl1.
    rewrite bool_decide_true by (autorewrite with runs; unfold r_max in *; lia). unfold r_max in *.
    destruct (Z.eqb_spec (r_length r) 0) as [E | E].
    + pose proof (runs_ok_count _ Hl) as Hcnt. rewrite zlen_app, !zlen_cons in Hcnt. pose proof (zlen_nonneg l2).
      rewrite u16_id, recover_at by lia.
      apply run_change_intro; [by eapply runs_ok_delete | | by apply minus_one_strict, expand_strict |].
      * rewrite zlen_app, ?zlen_cons in *. lia.
      * intros y. rewrite minus_one_elem. specialize (Hl1 y). specialize (Hl2 y). revert Hl1 Hl2. members.
    + rewrite set_run_at. cbn [mbind option_bind]. rewrite !u16_id by lia.
      apply run_change_intro; [| by rewrite (zlen_set _ _ r) | by apply minus_one_strict, expand_strict |].
      * apply runs_ok_mid. unfold run_wf, r_max. cbn. split; [done |]. split; [lia |]. split; [done |].
        split; [eapply ends_before_mono; [exact He | lia] | eapply starts_after_mono; [exact Ha | lia]].
      * intros y. rewrite minus_one_elem. specialize (Hl1 y). specialize (Hl2 y). revert Hl1 Hl2. members.
  - apply Habsent. by apply expand_before.
  - pose proof (zlen_nonneg l1). rewrite (proj2 (Z.leb_gt 0 _)) by lia.
    replace (- (- zlen l1 - 2) - 2) with (zlen l1) by lia. rewrite (proj2 (Z.leb_le 0 (zlen l1))) by lia.
    rewrite rd_at. cbn [mbind option_bind]. pose proof (expand_absent l1 r l2 x Hl ltac:(lia) Hb) as Habs.
    pose proof Hl as (H1 & (R1 & R2 & R3) & H2 & He & Ha)%runs_ok_mid.
    pose proof (fun y => starts_after_elem _ l2 y Ha) as Hl2. pose proof (fun y => ends_before_elem _ l1 y He) as Hl1.
    unfold r_max in *.
    destruct (Z.ltb_spec (x - r_value r) (r_length r)) as [Hlt | Hge];
      [| destruct (Z.eqb_spec (x - r_value r) (r_length r)) as [Heq | Hne]].
    + rewrite bool_decide_true by (apply Habs; lia). rewrite set_run_at. cbn [mbind option_bind].
      pose proof (runs_ok_count _ Hl) as Hcnt. rewrite zlen_app, !zlen_cons in Hcnt. pose proof (zlen_nonneg l2).
      rewrite !u16_id by lia.
      set (a := mk_rle (r_value r) (x - r_value r - 1)). set (b := mk_rle (x + 1) (r_length r - (x - r_value r) - 1)).
      replace (zlen l1 + 1) with (zlen (l1 ++ [a])) by (by rewrite zlen_app).
      destruct (insert_run_at (with_runs (mk_run cap (l1 ++ r :: l2)) (l1 ++ a :: l2)) (l1 ++ [a]) l2 b) as (cap' & -> & Hcap');
        [by rewrite <- app_assoc |]. cbn [mbind option_bind]. rewrite <- app_assoc in Hcap' |- *. cbn [app] in *.
      apply run_change_intro; [| done | by apply minus_one_strict, expand_strict |].
      * apply runs_ok_mid. subst a b. unfold run_wf, r_max. cbn. split; [done |]. split; [lia |].
        split; [apply runs_ok_cons; unfold run_wf, r_max; cbn; split; [lia |]; split; [eapply starts_after_mono; [exact Ha | lia] | done] |].
        split; [done |]. apply starts_after_cons. cbn. split; [lia |]. eapply starts_after_mono; [exact Ha | lia].
      * intros y. subst a b. rewrite minus_one_elem. specialize (Hl1 y). specialize (Hl2 y). revert Hl1 Hl2. members.
    + rewrite bool_decide_true by (apply Habs; lia). rewrite set_run_at. cbn [mbind option_bind]. rewrite u16_id by lia.
      apply run_change_intro; [| by rewrite (zlen_set _ _ r) | by apply minus_one_strict, expand_strict |].
      * apply runs_ok_mid. unfold run_wf, r_max. cbn. split; [done |]. split; [lia |]. split; [done |].
        split; [done | eapply starts_after_mono; [exact Ha | lia]].
      * intros y. rewrite minus_one_elem. specialize (Hl1 y). specialize (Hl2 y). revert Hl1 Hl2. members.
    + apply Habsent. rewrite Habs. lia.
Qed.

(** ** Membership of a range *)

Lemma contains_range_bound l s e c p k : runs_ok l -> starts_after p l -> 0 <= s <= p -> p < e <= 65536 ->
  0 <= k -> 0 <= c <= p - s - k -> 0 <= contains_range_loop l s e c <= e - s - 1 - k.
Proof.
  revert c p. induction l as [|r l IH]; intros c p Hl Ha Hsp Hpe Hk Hc; [cbn; lia |]. cbn [contains_range_loop].
  apply runs_ok_cons in Hl as ((R1 & R2 & R3) & Ra & Hl). apply starts_after_cons in Ha as [Hv Ha].
  unfold r_max in *. unfold u32.
  destruct (Z.leb_spec e (r_value r)); [lia |]. destruct (Z.leb_spec e (r_value r + r_length r)).
  - rewrite !uwrap_id by (rewrite ?uwrap_id by (split; lia); split; lia). lia.
  - rewrite (uwrap_id 32 (r_value r + r_length r - s)) by (split; lia).
    destruct (Z.ltb_spec (r_value r + r_length r - s) (r_length r)); [lia |].
    rewrite uwrap_id by (split; lia). eapply IH; [done | exact Ra | lia | lia | lia | lia].
Qed.

Lemma run_contains_range_spec run s e : run_ok run -> 0 <= s < e -> e <= 65536 ->
  exists b, run_container_contains_range run s e = Some b /\
    (b = true <-> forall x, s <= x < e -> x ∈ expand (rc_runs run)).
Proof.
  intros [Hl _] Hse He. unfold run_container_contains_range. rewrite u16_id by lia.
  generalize dependent (rc_runs run). intros l Hl.
  destruct (search_cases l s Hl) as (i & -> & Hs). cbn [mbind option_bind].
  assert (Hcovered : forall l1 r l2, runs_ok (l1 ++ r :: l2) -> r_value r <= s <= r_max r ->
    (u32 (e - s - 1) <=? contains_range_loop (drop (Z.to_nat (zlen l1)) (l1 ++ r :: l2)) s e 0) = true <->
    forall x, s <= x < e -> x ∈ expand (l1 ++ r :: l2)).
  { clear -Hse He. intros l1 r l2 Hl Hs. unfold u32. rewrite (uwrap_id 32 (e - s - 1)) by (split; lia).
    replace (Z.to_nat (zlen l1)) with (length l1) by (unfold zlen; lia). rewrite drop_app_length.
    apply runs_ok_mid in Hl as (_ & (R1 & R2 & R3) & Hl2 & Hb & Ha).
    assert (forall x, s <= x -> x ∈ expand (l1 ++ r :: l2) <-> x <= r_max r \/ x ∈ expand l2) as Hmem.
    { intros x Hx. pose proof (ends_before_elem _ _ x Hb) as Hl1. revert Hl1. autorewrite with runs.
      abstract_members. lia. }
    assert (forall x, x ∈ expand l2 -> r_max r + 1 < x) as Hgap by (intros x; by apply starts_after_elem).
    unfold r_max in *. cbn [contains_range_loop]. rewrite (proj2 (Z.leb_gt e _)) by lia.
    destruct (Z.leb_spec e (r_value r + r_length r)).
    - unfold u32. rewrite !uwrap_id by (rewrite ?uwrap_id by (split; lia); split; lia). split; [| lia].
      intros _ x Hx. apply Hmem; lia.
    - unfold u32. rewrite (uwrap_id 32 (r_value r + r_length r - s)) by (split; lia).
      replace (if _ <? r_length r then _ else _) with (r_value r + r_length r - s)
        by (destruct (Z.ltb_spec (r_value r + r_length r - s) (r_length r)); lia).
      rewrite uwrap_id by (split; lia). split.
      + intros Hcount. destruct (decide (e - 1 <= r_value r + r_length r)) as [Hd | Hd].
        { intros x Hx. apply Hmem; lia. }
        exfalso. destruct l2 as [|r2 l2]; [cbn in Hcount; lia |]. cbn [contains_range_loop] in Hcount.
        apply runs_ok_cons in Hl2 as ((S1 & S2 & S3) & Sa & Hl2). apply starts_after_cons in Ha as [Hv Ha].
        unfold r_max in *. unfold u32 in Hcount. destruct (Z.leb_spec e (r_value r2)); [lia |].
        destruct (Z.leb_spec e (r_value r2 + r_length r2)).
        * rewrite !uwrap_id in Hcount by (rewrite ?uwrap_id by (split; lia); split; lia). lia.
        * rewrite (uwrap_id 32 (r_value r2 + r_length r2 - s)) in Hcount by (split; lia).
          destruct (Z.ltb_spec (r_value r2 + r_length r2 - s) (r_length r2)); [lia |].
          rewrite uwrap_id in Hcount by (split; lia).
          pose proof (contains_range_bound l2 s e (0 + (r_value r + r_length r - s) + r_length r2)
            (r_value r2 + r_length r2) 2 Hl2 Sa ltac:(lia) ltac:(lia) ltac:(lia) ltac:(lia)). lia.
      + intros Hall. assert (r_value r + r_length r = e - 1) as Ee.
        { destruct (decide (r_value r + r_length r < e - 1)); [| lia]. exfalso.
          destruct (proj1 (Hmem (r_value r + r_length r + 1) ltac:(lia))) as [? | Hc]; [apply Hall; lia | lia |].
          specialize (Hgap _ Hc). lia. }
        destruct l2 as [|r2 l2]; [cbn; lia |]. cbn [contains_range_loop].
        apply starts_after_cons in Ha as [Hv _]. rewrite (proj2 (Z.leb_le e _)) by lia. lia. }
  assert (Hout : forall l, s ∉ expand l -> exists b : bool, Some false = Some b /\
    (b = true <-> forall x, s <= x < e -> x ∈ expand l)).
  { intros l' Hn. exists false. split; [done |]. split; [done |]. intros H. exfalso. apply Hn, H. lia. }
  destruct Hs as [l1 r l2 Hv | l Hb | l1 r l2 Hv Hb].
  - pose proof (zlen_nonneg l1). rewrite (proj2 (Z.ltb_ge _ 0)) by lia. cbn [mbind option_bind].
    eexists. split; [done |]. apply Hcovered; [done |].
    apply runs_ok_mid in Hl as (_ & (? & ? & ?) & _). unfold r_max. lia.
  - apply Hout. by apply expand_before.
  - pose proof (zlen_nonneg l1). rewrite (proj2 (Z.ltb_lt _ 0)) by lia.
    replace (- (- zlen l1 - 2) - 2) with (zlen l1) by lia. rewrite (proj2 (Z.eqb_neq (zlen l1) (-1))) by lia.
    rewrite rd_at. cbn [mbind option_bind].
    pose proof (expand_absent l1 r l2 s Hl ltac:(lia) Hb) as Habs.
    pose proof Hl as (_ & (R1 & R2 & R3) & _)%runs_ok_mid. unfold r_max in *.
    assert (u32 (s - r_value r) = s - r_value r) as -> by (apply uwrap_id; split; lia).
    destruct (Z.ltb_spec (r_length r) (s - r_value r)); cbn [mbind option_bind].
    + apply Hout. rewrite Habs. lia.
    + eexists. split; [done |]. apply Hcovered; [done |]. unfold r_max. lia.
Qed.

(** ** Comparisons *)

Lemma mem_rle_inj l1 l2 : Forall run_wf l1 -> Forall run_wf l2 -> mem_rle l1 = mem_rle l2 -> l1 = l2.
Proof.
  assert (forall r s, run_wf r -> run_wf s ->
    le_split 2 (r_value r) ++ le_split 2 (r_length r) = le_split 2 (r_value s) ++ le_split 2 (r_length s) -> r = s) as Hone.
  { intros [v1 n1] [v2 n2] (? & ? & ?) (? & ? & ?) E. unfold r_max in *. cbn [r_value r_length] in *.
    apply app_inj_1 in E as [E1 E2]; [| by rewrite !length_le_split].
    f_equal; apply le_split_inj16; try done; split; lia. }
  unfold mem_rle. intros H1. revert l2. induction H1 as [|r l1 Hr H1 IH]; intros l2 H2 E.
  - destruct H2 as [|s l2]; [done |]. apply (f_equal length) in E.
    rewrite bind_cons, !length_app, !length_le_split in E. simpl in E. lia.
  - destruct H2 as [|s l2 Hs H2].
    + apply (f_equal length) in E. rewrite bind_cons, !length_app, !length_le_split in E. simpl in E. lia.
    + rewrite !bind_cons in E. apply app_inj_1 in E as [E1 E2]; [| by rewrite !length_app, !length_le_split].
      f_equal; [by apply Hone | by apply IH].
Qed.

Lemma run_equals_spec c1 c2 : run_ok c1 -> run_ok c2 ->
  run_container_equals c1 c2 = bool_decide (expand (rc_runs c1) = expand (rc_runs c2)).
Proof.
  intros [H1 _] [H2 _]. unfold run_container_equals, n_runs.
  destruct (Z.eqb_spec (zlen (rc_runs c1)) (zlen (rc_runs c2))) as [E | E]; cbn [negb].
  - apply bool_decide_ext. split; [| intros He; by rewrite (expand_inj _ _ H1 H2 He)].
    intros Hm. by rewrite (mem_rle_inj _ _ (proj1 H1) (proj1 H2) Hm).
  - rewrite bool_decide_false; [done |]. intros He. apply E. by rewrite (expand_inj _ _ H1 H2 He).
Qed.

(** Induction over two lists of which one or both shrink. *)
Lemma merge_runs_ind (P : list rle16_t -> list rle16_t -> Prop) :
  (forall l, P [] l) -> (forall l, P l []) ->
  (forall x a y b, P a (y :: b) -> P (x :: a) b -> P a b -> P (x :: a) (y :: b)) ->
  forall a b, P a b.
Proof.
  intros Hnl Hnr Hc a. induction a as [|x a IHa]; [done |].
  intros b. induction b as [|y b IHb]; [done |]. auto.
Qed.

Lemma run_subset_loop_cons x a y b : run_subset_loop (x :: a) (y :: b) =
  if r_value x <? r_value y then false
  else if r_value x + r_length x <? r_value y + r_length y then run_subset_loop a (y :: b)
  else if r_value x + r_length x =? r_value y + r_length y then run_subset_loop a b
  else run_subset_loop (x :: a) b.
Proof. done. Qed.

Lemma run_subset_loop_spec a b : runs_ok a -> runs_ok b ->
  run_subset_loop a b = true <-> forall x, x ∈ expand a -> x ∈ expand b.
Proof.
  revert a b. apply (merge_runs_ind (fun a b => _ -> _ -> _)).
  - intros l _ _. split; [| by destruct l]. intros _ x Hx. by apply elem_of_expand_nil in Hx.
  - intros [|r l] H _; [split; [intros _ x Hx; by apply elem_of_expand_nil in Hx | done] |].
    split; [done |]. intros Hx. apply runs_ok_cons in H as ((? & ? & ?) & _).
    exfalso. apply (elem_of_expand_nil (r_value r)), Hx. autorewrite with runs. unfold r_max. lia.
  - intros x a y b I1 I2 I3 Ha Hb. pose proof Ha as ((X1 & X2 & X3) & Xa & Ha')%runs_ok_cons.
    pose proof Hb as ((Y1 & Y2 & Y3) & Ya & Hb')%runs_ok_cons.
    pose proof (fun z => starts_after_elem _ a z Xa) as Xe. pose proof (fun z => starts_after_elem _ b z Ya) as Ye.
    rewrite run_subset_loop_cons. unfold r_max in *.
    destruct (Z.ltb_spec (r_value x) (r_value y)) as [Hlt | Hge];
      [| destruct (Z.ltb_spec (r_value x + r_length x) (r_value y + r_length y)) as [Hs | Hs];
         [| destruct (Z.eqb_spec (r_value x + r_length x) (r_value y + r_length y)) as [He | He]]].
    + split; [done |]. intros H. exfalso. specialize (H (r_value x)). autorewrite with runs in H. unfold r_max in H.
      destruct H as [? | Hc]; [lia | lia |]. specialize (Ye _ Hc). lia.
    + rewrite I1 by done. split; intros H z.
      * autorewrite with runs. unfold r_max. intros [Hz | Hz]; [lia |]. specialize (H z Hz).
        autorewrite with runs in H. unfold r_max in H. done.
      * intros Hz. apply H. autorewrite with runs. by right.
    + rewrite I3 by done. split; intros H z.
      * autorewrite with runs. unfold r_max. intros [Hz | Hz]; [lia |]. right. auto.
      * intros Hz. specialize (Xe z Hz). specialize (H z). autorewrite with runs in H. unfold r_max in H.
        destruct H as [? | ?]; [by right | lia | done].
    + rewrite I2 by done. split; intros H z Hz.
      * autorewrite with runs. right. auto.
      * pose proof (H z Hz) as Hzb. autorewrite with runs in Hzb. unfold r_max in Hzb.
        destruct Hzb as [Hzy | ]; [| done]. exfalso.
        assert (r_value x <= r_value y + r_length y) as Hxy.
        { autorewrite with runs in Hz. unfold r_max in Hz. destruct Hz as [Hz | Hz]; [lia |]. specialize (Xe z Hz). lia. }
        specialize (H (r_value y + r_length y + 1)). autorewrite with runs in H. unfold r_max in H.
        destruct H as [? | Hc]; [lia | lia |]. specialize (Ye _ Hc). lia.
Qed.

Lemma run_is_subset_spec c1 c2 : run_ok c1 -> run_ok c2 ->
  run_container_is_subset c1 c2 = true <-> forall x, x ∈ expand (rc_runs c1) -> x ∈ expand (rc_runs c2).
Proof. intros [H1 _] [H2 _]. by apply run_subset_loop_spec. Qed.

(** ** Order statistics *)

Lemma lb_seqZ m n k : 0 <= n -> lb (seqZ m n) k = Z.max 0 (Z.min n (k - m)).
Proof.
  intros Hn. replace n with (Z.of_nat (Z.to_nat n)) by lia. generalize (Z.to_nat n) as i. clear.
  intros i. revert m. induction i as [|i IH]; intros m; [unfold lb, zlen; simpl; lia |].
  rewrite seqZ_cons by lia. rewrite lb_cons. replace (Z.pred (Z.of_nat (S i))) with (Z.of_nat i) by lia.
  rewrite IH. destruct (Z.ltb_spec m k); lia.
Qed.

Lemma run_rank_loop_spec l sum x : runs_ok l -> run_rank_loop l sum x = sum + lb (expand l) (x + 1).
Proof.
  revert sum. induction l as [|r l IH]; intros sum H; [unfold lb, zlen; simpl; lia |].
  apply runs_ok_cons in H as ((? & ? & ?) & Ha & Hl). cbn [run_rank_loop]. unfold r_max in *.
  rewrite expand_cons, lb_app. unfold run_values. rewrite lb_seqZ by lia.
  destruct (Z.leb_spec x (r_length r + r_value r)).
  - rewrite (lb_none (expand l)); [destruct (Z.ltb_spec x (r_value r)); lia |].
    apply Forall_forall. intros y Hy. pose proof (starts_after_elem _ _ _ Ha Hy). lia.
  - rewrite IH by done. lia.
Qed.

Lemma run_rank_spec c x : run_ok c -> run_container_rank c x = lb (expand (rc_runs c)) (x + 1).
Proof. intros [H _]. unfold run_container_rank. by rewrite run_rank_loop_spec. Qed.

Lemma rd_seqZ m n i : 0 <= i < n -> rd (seqZ m n) i = Some (m + i).
Proof.
  intros H. unfold rd. rewrite (proj2 (Z.leb_le 0 i)) by lia. apply lookup_seqZ. lia.
Qed.

Lemma run_select_loop_spec l start rank : runs_ok l -> 0 <= start <= rank -> rank < 2 ^ 31 ->
  let card := zlen (expand l) in
  Some (run_select_loop l start rank) =
    if start + card <=? rank then Some (inl (start + card))
    else v ← rd (expand l) (rank - start); Some (inr v).
Proof.
  revert start. induction l as [|r l IH]; intros start H Hs Hr card.
  - subst card. change (zlen (expand [])) with 0. rewrite (proj2 (Z.leb_le _ _)) by lia. cbn. by rewrite Z.add_0_r.
  - apply runs_ok_cons in H as (Hw & Ha & Hl). pose proof Hw as (? & ? & ?). unfold r_max in *. subst card.
    cbn [run_select_loop]. rewrite expand_cons, zlen_app, zlen_run_values by done.
    pose proof (zlen_nonneg (expand l)). unfold u32. rewrite (uwrap_id 32 (start + r_length r)) by (split; lia).
    destruct (Z.leb_spec rank (start + r_length r)).
    + rewrite (proj2 (Z.leb_gt _ rank)) by lia. rewrite uwrap_id by (split; lia).
      rewrite rd_app_l by (rewrite zlen_run_values by done; lia). unfold run_values.
      rewrite rd_seqZ by lia. cbn. do 2 f_equal. lia.
    + rewrite uwrap_id by (split; lia). rewrite IH by (done || lia).
      replace (start + (r_length r + 1) + zlen (expand l)) with (start + (r_length r + 1 + zlen (expand l))) by lia.
      destruct (_ <=? rank); [done |]. rewrite rd_app_r by (rewrite zlen_run_values by done; lia).
      rewrite zlen_run_values by done. do 2 f_equal. lia.
Qed.

Lemma run_minimum_spec c x : run_ok c -> x ∈ expand (rc_runs c) ->
  exists m, run_container_minimum c = Some m /\ m ∈ expand (rc_runs c) /\ m <= x.
Proof.
  intros [H _] Hx. unfold run_container_minimum, n_runs. destruct (rc_runs c) as [|r l]; [by apply elem_of_expand_nil in Hx |].
  rewrite zlen_pos. exists (r_value r). split; [done |]. apply runs_ok_cons in H as ((? & ? & ?) & Ha & _).
  autorewrite with runs in *. unfold r_max in *. split; [lia |]. destruct Hx as [Hx | Hx]; [lia |].
  pose proof (starts_after_elem _ _ _ Ha Hx). lia.
Qed.

Lemma run_maximum_spec c x : run_ok c -> x ∈ expand (rc_runs c) ->
  exists m, run_container_maximum c = Some m /\ m ∈ expand (rc_runs c) /\ x <= m.
Proof.
  intros [H _] Hx. unfold run_container_maximum, n_runs. generalize dependent (rc_runs c). intros l H Hx.
  destruct l as [|r l _] using rev_ind; [by apply elem_of_expand_nil in Hx |].
  pose proof (zlen_nonneg l). rewrite zlen_app. change (zlen [r]) with 1. rewrite (proj2 (Z.eqb_neq _ _)) by lia.
  replace (zlen l + 1 - 1) with (zlen l) by lia. rewrite rd_at. cbn [mbind option_bind].
  apply runs_ok_mid in H as (_ & (? & ? & ?) & _ & He & _). unfold r_max in *. rewrite u16_id by lia.
  eexists. split; [done |]. autorewrite with runs in *. unfold r_max in *. split; [lia |].
  destruct Hx as [Hx | [Hx | []]]; [| lia]. pose proof (ends_before_elem _ _ _ He Hx). lia.
Qed.

(** The first run that reaches [x], or [-1]. *)
Lemma run_index_equalorlarger_spec c x : run_ok c ->
  exists i, run_container_index_equalorlarger c x = Some i /\
    ((i = -1 /\ forall y, y ∈ expand (rc_runs c) -> y < x) \/
     (exists l1 r l2, rc_runs c = l1 ++ r :: l2 /\ zlen l1 = i /\ x <= r_max r /\
        forall y, y ∈ expand l1 -> y < x)).
Proof.
  intros [H _]. unfold run_container_index_equalorlarger, n_runs.
  destruct (search_cases (rc_runs c) x H) as (i & -> & Hs). cbn [mbind option_bind].
  generalize dependent (rc_runs c). intros l H Hs. destruct Hs as [l1 r l2 Hv | l Hb | l1 r l2 Hv Hb].
  - pose proof (zlen_nonneg l1). rewrite (proj2 (Z.leb_le 0 _)) by lia. eexists. split; [done |]. right.
    apply runs_ok_mid in H as (_ & (? & ? & ?) & _ & He & _). exists l1, r, l2. unfold r_max.
    split; [done |]. split; [done |]. split; [lia |]. intros y Hy. pose proof (ends_before_elem _ _ _ He Hy). lia.
  - change (0 <=? -1) with false. change (- -1 - 2) with (-1). change (negb (-1 =? -1)) with false.
    cbn [mbind option_bind]. change (-1 + 1) with 0. destruct l as [|s l].
    + exists (-1). split; [done |]. left. split; [done |]. intros y Hy. by apply elem_of_expand_nil in Hy.
    + pose proof (zlen_nonneg l). rewrite zlen_cons, (proj2 (Z.ltb_lt 0 _)) by lia. exists 0. split; [done |]. right.
      exists [], s, l. split; [done |]. split; [done |]. apply runs_ok_cons in H as ((? & ? & ?) & _).
      apply Forall_cons in Hb as [Hs _]. unfold r_max. split; [lia |]. intros y Hy. by apply elem_of_expand_nil in Hy.
  - pose proof (zlen_nonneg l1). rewrite (proj2 (Z.leb_gt 0 _)) by lia.
    replace (- (- zlen l1 - 2) - 2) with (zlen l1) by lia. rewrite (proj2 (Z.eqb_neq (zlen l1) (-1))) by lia.
    cbn [negb]. rewrite rd_at. cbn [mbind option_bind].
    apply runs_ok_mid in H as (_ & (? & ? & ?) & Hl2 & He & Ha). unfold r_max in *.
    assert (forall y, y ∈ expand l1 -> y < x) as Hl1 by (intros y Hy; pose proof (ends_before_elem _ _ _ He Hy); lia).
    destruct (Z.leb_spec (x - r_value r) (r_length r)).
    + eexists. split; [done |]. right. exists l1, r, l2. unfold r_max. split; [done |]. split; [done |]. split; [lia | done].
    + rewrite zlen_app, zlen_cons. destruct l2 as [|s l2].
      * change (zlen []) with 0. rewrite (proj2 (Z.ltb_ge _ _)) by lia. exists (-1). split; [done |]. left. split; [done |].
        intros y. autorewrite with runs. unfold r_max. intros [Hy | [Hy | []]]; [auto | lia].
      * rewrite zlen_cons. pose proof (zlen_nonneg l2). rewrite (proj2 (Z.ltb_lt _ _)) by lia.
        eexists. split; [done |]. right. exists (l1 ++ [r]), s, l2. rewrite <- app_assoc. split; [done |].
        split; [by rewrite zlen_app |]. apply Forall_cons in Hb as [Hs _].
        apply runs_ok_cons in Hl2 as ((? & ? & ?) & _). unfold r_max. split; [lia |].
        intros y. autorewrite with runs. unfold r_max. intros [Hy | [Hy | []]]; [auto | lia].
Qed.

(** ** Bytes *)

Lemma of_mem_rle_mem l : Forall run_wf l -> of_mem_rle (mem_rle l) = l.
Proof.
  unfold mem_rle. induction 1 as [|r l (? & ? & ?) _ IH]; [done |]. rewrite bind_cons.
  set (m := l ≫= _) in *. cbn [le_split app of_mem_rle]. rewrite IH. unfold r_max in *. f_equal. destruct r as [v n].
  cbn [r_value r_length] in *.
  pose proof (le_combine_split 2 v) as H2. pose proof (le_combine_split 2 n) as H3. cbn [le_split] in H2, H3.
  change (8 * Z.of_nat 2) with 16 in *. f_equal; [rewrite H2 | rewrite H3]; apply Z.mod_small; split; lia.
Qed.

Lemma zlen_mem_rle l : zlen (mem_rle l) = 4 * zlen l.
Proof.
  unfold mem_rle. induction l as [|x l IH]; [done |].
  rewrite bind_cons, zlen_app, IH, zlen_cons. unfold zlen. rewrite length_app, !length_le_split. lia.
Qed.

Lemma run_read_write c src rest : run_ok src ->
  exists c', run_container_read c (run_container_write src ++ rest) =
      Some (c', zlen (run_container_write src)) /\ run_ok c' /\ rc_runs c' = rc_runs src.
Proof.
  intros [H Hr]. pose proof (runs_ok_count _ H) as Hc. pose proof (zlen_nonneg (rc_runs src)).
  pose proof (zlen_nonneg rest). unfold run_container_read, run_container_write, n_runs. rewrite u16_id by lia.
  rewrite <- app_assoc. rewrite (take_app_length' (le_split 2 _) _ 2), (drop_app_length' (le_split 2 _) _ 2) by (by rewrite length_le_split).
  rewrite le_combine_split. change (8 * Z.of_nat 2) with 16. rewrite Z.mod_small by (split; lia).
  rewrite !zlen_app, zlen_mem_rle. replace (zlen (le_split 2 (zlen (rc_runs src)))) with 2 by (unfold zlen; by rewrite length_le_split).
  rewrite !(proj2 (Z.ltb_ge _ _)) by lia.
  rewrite take_app_length' by (pose proof (zlen_mem_rle (rc_runs src)) as Hm; unfold zlen in Hm |- *; lia).
  rewrite of_mem_rle_mem by apply H. eexists. split; [do 2 f_equal; unfold run_container_size_in_bytes, run_container_serialized_size_in_bytes, n_runs; cbn [rc_runs]; lia |].
  split; [| done]. split; [done |]. cbn [rc_runs rc_capacity].
  destruct (Z.ltb_spec (rc_capacity c) (zlen (rc_runs src))); [apply run_grow_room | lia].
Qed.

Lemma run_deserialize_serialize c : run_ok c -> rc_capacity c < 2 ^ 31 ->
  run_container_deserialize (run_container_serialize c) = Some c.
Proof.
  intros [H Hr] Hcap. pose proof (runs_ok_count _ H) as Hc. pose proof (zlen_nonneg (rc_runs c)).
  unfold run_container_deserialize, run_container_serialize, n_runs, u32. rewrite !uwrap_id by (split; lia).
  rewrite !zlen_app, zlen_mem_rle.
  rewrite !(take_app_length' (le_split 4 _) _ 4), !(drop_app_length' (le_split 4 _) _ 4) by (by rewrite length_le_split).
  replace (drop 8 (le_split 4 (zlen (rc_runs c)) ++ le_split 4 (rc_capacity c) ++ mem_rle (rc_runs c))) with (mem_rle (rc_runs c))
    by (rewrite app_assoc, (drop_app_length' _ _ 8); [done | by rewrite length_app, !length_le_split]).
  rewrite (take_app_length' (le_split 4 _) _ 4) by (by rewrite length_le_split).
  rewrite !le_combine_split. change (8 * Z.of_nat 4) with 32. rewrite !Z.mod_small by (split; lia).
  replace (zlen (le_split 4 (zlen (rc_runs c)))) with 4 by (unfold zlen; by rewrite length_le_split).
  replace (zlen (le_split 4 (rc_capacity c))) with 4 by (unfold zlen; by rewrite length_le_split).
  unfold i32. rewrite !swrap_id by (lia || (split; lia)). unfold u64. rewrite uwrap_id by (split; lia).
  rewrite (proj2 (Z.ltb_ge _ _)) by lia. rewrite (proj2 (Z.eqb_eq _ _)) by lia. cbn [negb].
  rewrite of_mem_rle_mem by apply H. rewrite monotone_from_strict.
  - by destruct c.
  - by apply values_strict.
  - intros x (r & -> & Hin)%list_elem_of_fmap. destruct H as [Hw _]. rewrite Forall_forall in Hw. apply (Hw r Hin).
Qed.

(** ** Ranges *)

Lemma run_create_range_spec s e : 0 <= s < e -> e <= 65536 ->
  run_result (run_container_create_range s e) (seqZ s (e - s)).
Proof.
  intros Hs He. unfold run_container_create_range, run_container_append_first, push_run.
  cbn. rewrite !u16_id by lia. apply run_result_intro; [| done | apply seqZ_strict |].
  - apply runs_ok_cons. unfold run_wf, r_max. cbn. split; [lia |]. split; [constructor | apply runs_ok_nil].
  - intros x. rewrite elem_of_seqZ. autorewrite with runs. unfold r_max. cbn. lia.
Qed.

Lemma rd_order l i j a b : runs_ok l -> rd l i = Some a -> rd l j = Some b -> i < j -> r_max a + 1 < r_value b.
Proof.
  intros H Ha Hb Hij. pose proof (rd_bound _ _ _ Ha) as Hi. unfold rd in Ha. rewrite (proj2 (Z.leb_le 0 i)) in Ha by lia.
  rewrite <- (take_drop_middle l _ _ Ha) in H, Hb. apply runs_ok_mid in H as (_ & _ & _ & _ & Hs).
  rewrite rd_app_r in Hb by (unfold zlen; rewrite length_take; lia).
  unfold zlen in Hb. rewrite length_take in Hb. destruct Hi as [Hi1 Hi2]. unfold zlen in Hi2.
  replace (j - Z.of_nat (Z.to_nat i `min` length l)) with (j - i) in Hb by lia.
  unfold rd in Hb. rewrite (proj2 (Z.leb_le 0 (j - i))) in Hb by lia.
  replace (Z.to_nat (j - i)) with (S (Z.to_nat (j - i - 1))) in Hb by lia. cbn [lookup list_lookup] in Hb.
  apply list_elem_of_lookup_2 in Hb. unfold starts_after in Hs. rewrite Forall_forall in Hs. by apply Hs.
Qed.

Lemma rd_wf l i r : runs_ok l -> rd l i = Some r -> run_wf r.
Proof. intros [Hw _] Hr%rd_elem. rewrite Forall_forall in Hw. auto. Qed.

(** A bisection over runs that stops in the middle: everything before the
    answer satisfies [below], everything from it on does not. *)
Definition bisects (l : list rle16_t) (p : Z) (below : rle16_t -> Prop) : Prop :=
  0 <= p <= zlen l /\ (forall i r, rd l i = Some r -> i < p -> below r) /\
  (forall i r, rd l i = Some r -> p <= i -> ~ below r).

Lemma bisects_split l p below : bisects l p below ->
  exists l1 l2, l = l1 ++ l2 /\ zlen l1 = p /\ Forall below l1 /\ Forall (fun r => ~ below r) l2.
Proof.
  intros (Hp & Hb & Ha). exists (take (Z.to_nat p) l), (drop (Z.to_nat p) l). rewrite take_drop.
  split; [done |]. split; [by apply zlen_take |]. split; apply Forall_forall; intros r Hr.
  - apply elem_rd in Hr as [i Hi]. pose proof (rd_bound _ _ _ Hi) as Hib. rewrite zlen_take in Hib by lia.
    apply (Hb i); [| lia]. rewrite <- (take_drop (Z.to_nat p) l), rd_app_l; [done |]. rewrite zlen_take; lia.
  - apply elem_rd in Hr as [i Hi]. pose proof (rd_bound _ _ _ Hi) as Hib. rewrite rd_drop in Hi by lia.
    apply (Ha (p + i)); [done | lia].
Qed.

Lemma count_less_loop_spec fuel l low high k : runs_ok l -> 0 <= low <= high + 1 -> high < zlen l ->
  high - low + 1 < Z.of_nat fuel ->
  (forall i r, rd l i = Some r -> i < low -> r_max r + 1 < k) ->
  (forall i r, rd l i = Some r -> high < i -> k < r_value r) ->
  exists p, count_less_loop fuel l low high k = Some p /\ bisects l p (fun r => r_max r + 1 < k).
Proof.
  intros H. revert low high. induction fuel as [|fuel IH]; intros low high Hlh Hh Hf Hlow Hhigh; [lia |].
  cbn [count_less_loop]. destruct (Z.leb_spec low high).
  - rewrite shiftr1. destruct (rd_Some l ((low + high) / 2)) as [r Hr]; [Z.to_euclidean_division_equations; lia |].
    rewrite Hr. cbn [mbind option_bind]. pose proof (rd_wf _ _ _ H Hr) as (? & ? & ?).
    unfold r_max in *. rewrite u16_id by lia.
    destruct (Z.ltb_spec (r_value r + r_length r + 1) k); [| destruct (Z.ltb_spec k (r_value r))].
    + apply IH; try (Z.to_euclidean_division_equations; lia); [| done]. intros i s Hs Hi.
      destruct (decide (i = (low + high) / 2)) as [-> |]; [rewrite Hr in Hs; injection Hs as <-; lia |].
      pose proof (rd_order l i _ s r H Hs Hr ltac:(lia)). unfold r_max in *. lia.
    + apply IH; try (Z.to_euclidean_division_equations; lia); [done |]. intros i s Hs Hi.
      destruct (decide (i = (low + high) / 2)) as [-> |]; [rewrite Hr in Hs; injection Hs as <-; lia |].
      pose proof (rd_order l _ i r s H Hr Hs ltac:(lia)). unfold r_max in *. lia.
    + eexists. split; [done |]. split; [apply rd_bound in Hr; lia |]. split; intros i s Hs Hi.
      * pose proof (rd_order l i _ s r H Hs Hr ltac:(lia)). unfold r_max in *. lia.
      * destruct (decide (i = (low + high) / 2)) as [-> |]; [rewrite Hr in Hs; injection Hs as <-; unfold r_max; lia |].
        pose proof (rd_order l _ i r s H Hr Hs ltac:(lia)). pose proof (rd_wf _ _ _ H Hs) as (? & ? & ?). unfold r_max in *. lia.
  - exists low. split; [done |]. split; [lia |]. split; [done |]. intros i s Hs Hi.
    specialize (Hhigh i s Hs ltac:(lia)). pose proof (rd_wf _ _ _ H Hs) as (? & ? & ?). unfold r_max. lia.
Qed.

Lemma rle16_count_less_spec l k : runs_ok l ->
  exists p, rle16_count_less l k = Some p /\ bisects l p (fun r => r_max r + 1 < k).
Proof.
  intros H. pose proof (zlen_nonneg l). unfold rle16_count_less. destruct (Z.eqb_spec (zlen l) 0).
  - exists 0. split; [done |]. split; [lia |]. split; intros i r Hr; apply rd_bound in Hr; lia.
  - apply count_less_loop_spec; [done | lia | lia | unfold zlen in *; lia | |];
      intros i r Hr; apply rd_bound in Hr; lia.
Qed.

Lemma count_greater_loop_spec fuel l low high k : runs_ok l -> 0 <= low <= high + 1 -> high < zlen l ->
  high - low + 1 < Z.of_nat fuel ->
  (forall i r, rd l i = Some r -> i < low -> r_max r < k) ->
  (forall i r, rd l i = Some r -> high < i -> k + 1 < r_value r) ->
  exists p, count_greater_loop fuel l low high k = Some (zlen l - p) /\ bisects l p (fun r => r_value r <= k + 1).
Proof.
  intros H. revert low high. induction fuel as [|fuel IH]; intros low high Hlh Hh Hf Hlow Hhigh; [lia |].
  cbn [count_greater_loop]. destruct (Z.leb_spec low high).
  - rewrite shiftr1. destruct (rd_Some l ((low + high) / 2)) as [r Hr]; [Z.to_euclidean_division_equations; lia |].
    rewrite Hr. cbn [mbind option_bind]. pose proof (rd_wf _ _ _ H Hr) as (? & ? & ?).
    unfold r_max in *. rewrite u16_id by lia.
    destruct (Z.ltb_spec (r_value r + r_length r) k); [| destruct (Z.ltb_spec (k + 1) (r_value r))].
    + apply IH; try (Z.to_euclidean_division_equations; lia); [| done]. intros i s Hs Hi.
      destruct (decide (i = (low + high) / 2)) as [-> |]; [rewrite Hr in Hs; injection Hs as <-; lia |].
      pose proof (rd_order l i _ s r H Hs Hr ltac:(lia)). unfold r_max in *. lia.
    + apply IH; try (Z.to_euclidean_division_equations; lia); [done |]. intros i s Hs Hi.
      destruct (decide (i = (low + high) / 2)) as [-> |]; [rewrite Hr in Hs; injection Hs as <-; lia |].
      pose proof (rd_order l _ i r s H Hr Hs ltac:(lia)). unfold r_max in *. lia.
    + eexists. split; [done |]. split; [apply rd_bound in Hr; lia |]. split; intros i s Hs Hi.
      * destruct (decide (i = (low + high) / 2)) as [-> |]; [rewrite Hr in Hs; injection Hs as <-; lia |].
        pose proof (rd_order l i _ s r H Hs Hr ltac:(lia)). pose proof (rd_wf _ _ _ H Hs) as (? & ? & ?). unfold r_max in *. lia.
      * pose proof (rd_order l _ i r s H Hr Hs ltac:(lia)). unfold r_max in *. lia.
  - exists low. split; [done |]. split; [lia |]. split; intros i s Hs Hi.
    + specialize (Hlow i s Hs Hi). pose proof (rd_wf _ _ _ H Hs) as (? & ? & ?). unfold r_max in *. lia.
    + specialize (Hhigh i s Hs ltac:(lia)). lia.
Qed.

Lemma rle16_count_greater_spec l k : runs_ok l ->
  exists p, rle16_count_greater l k = Some (zlen l - p) /\ bisects l p (fun r => r_value r <= k + 1).
Proof.
  intros H. pose proof (zlen_nonneg l). unfold rle16_count_greater. destruct (Z.eqb_spec (zlen l) 0) as [E | E].
  - exists 0. split; [by rewrite E |]. split; [lia |]. split; intros i r Hr; apply rd_bound in Hr; lia.
  - apply count_greater_loop_spec; [done | lia | lia | unfold zlen in *; lia | |];
      intros i r Hr; apply rd_bound in Hr; lia.
Qed.

Lemma last_run_bound l r : runs_ok (l ++ [r]) -> forall x, x ∈ expand (l ++ [r]) -> x <= r_max r.
Proof.
  intros (_ & (? & ? & ?) & _ & He & _)%runs_ok_mid x. autorewrite with runs. intros [Hx | [Hx | []]]; [| lia].
  pose proof (ends_before_elem _ _ _ He Hx). unfold r_max. lia.
Qed.

(** [run_container_add_range] adds the values from [m] to [x]. *)
Lemma run_add_range_spec run m x : run_ok run -> 0 <= m <= x -> x <= 65535 ->
  run_result (run_container_add_range run m x) (union_loop (expand (rc_runs run)) (seqZ m (x + 1 - m))).
Proof.
  intros [H Hroom] Hm Hx. unfold run_container_add_range, n_runs. rewrite !u16_id by lia. destruct run as [cap l].
  cbn [rc_runs rc_capacity] in *.
  destruct (rle16_count_greater_spec l x H) as (p & -> & (l12 & l3 & -> & <- & Hle & Hgt)%bisects_split). cbn [mbind option_bind].
  replace (zlen (l12 ++ l3) - (zlen (l12 ++ l3) - zlen l12)) with (zlen l12) by lia.
  replace (Z.to_nat (zlen l12)) with (length l12) by (unfold zlen; lia). rewrite take_app_length.
  destruct (runs_ok_app_inv _ _ H) as [H12 H3].
  destruct (rle16_count_less_spec l12 m H12) as (q & -> & (l1 & l2 & -> & <- & Hlt & Hnl)%bisects_split). cbn [mbind option_bind].
  assert (starts_after x l3) as Hs3 by (eapply Forall_impl; [exact Hgt |]; simpl; lia).
  assert (ends_before m l1) as He1 by exact Hlt.
  destruct (runs_ok_app_inv _ _ H12) as [H1 H2].
  unfold run_container_add_range_nruns, n_runs. cbn [rc_runs rc_capacity].
  pose proof (runs_ok_count _ H) as Hcnt. rewrite !zlen_app in Hcnt |- *.
  pose proof (zlen_nonneg l1). pose proof (zlen_nonneg l2). pose proof (zlen_nonneg l3).
  replace (zlen l1 + zlen l2 + zlen l3 - zlen l1 - (zlen l1 + zlen l2 + zlen l3 - (zlen l1 + zlen l2))) with (zlen l2) by lia.
  destruct l2 as [|f l2].
  - change (zlen (@nil rle16_t)) with 0. cbn [Z.eqb]. rewrite !u16_id by lia.
    destruct (insert_run_at (mk_run cap ((l1 ++ []) ++ l3)) l1 l3 (mk_rle m (x - m))) as (cap' & -> & Hcap');
      [by rewrite app_nil_r |].
    apply run_result_intro; [| done | apply union_loop_strict; [by apply expand_strict | apply seqZ_strict] |].
    + apply runs_ok_mid. unfold run_wf, r_max. cbn. split; [done |]. split; [lia |]. split; [done |]. split; [done |].
      eapply starts_after_mono; [done | lia].
    + intros y. rewrite elem_of_union_loop, elem_of_seqZ. rewrite app_nil_r. members.
  - rewrite (proj2 (Z.eqb_neq (zlen (f :: l2)) 0)) by (rewrite zlen_cons; pose proof (zlen_nonneg l2); lia).
    destruct (exists_last (l := f :: l2) ltac:(done)) as (l2' & la & Ela).
    assert (rd ((l1 ++ f :: l2) ++ l3) (zlen l1 + zlen (f :: l2) - 1) = Some la) as Erd.
    { rewrite Ela. replace ((l1 ++ l2' ++ [la]) ++ l3) with ((l1 ++ l2') ++ la :: l3) by (by rewrite <- !app_assoc).
      rewrite (zlen_app l2'). change (zlen [la]) with 1.
      replace (zlen l1 + (zlen l2' + 1) - 1) with (zlen (l1 ++ l2')) by (rewrite zlen_app; lia). apply rd_at. }
    rewrite Erd. rewrite <- app_assoc in Erd |- *. cbn [app]. rewrite rd_at. cbn [mbind option_bind]. rewrite set_run_at. cbn [mbind option_bind].
    pose proof Hle as [_ Hle2]%Forall_app.
    assert (runs_ok (f :: l2)) as H2c by done. apply runs_ok_cons in H2c as (Fw & Fa & _).
    pose proof H2 as H2l. rewrite Ela in H2l. pose proof (last_run_bound _ _ H2l) as Hlb. rewrite <- Ela in Hlb.
    apply runs_ok_mid in H2l as (_ & Lw & _).
    assert (r_value f <= r_max la) as Hfl.
    { apply Hlb. autorewrite with runs. destruct Fw as (? & ? & ?). unfold r_max. lia. }
    pose proof Hnl as [Hf1 _]%Forall_cons.
    assert (r_value la <= x + 1) as Hla1.
    { rewrite Ela in Hle2. apply Forall_app in Hle2 as [_ Hla]. by apply Forall_cons in Hla as [? _]. }
    set (vmin := if r_value f <? m then r_value f else m).
    set (vmax := if x <? r_value la + r_length la then r_value la + r_length la else x).
    assert (vmin = Z.min (r_value f) m) as Evmin by (subst vmin; destruct (Z.ltb_spec (r_value f) m); lia).
    assert (vmax = Z.max (r_max la) x) as Evmax by (subst vmax; unfold r_max; destruct (Z.ltb_spec x (r_value la + r_length la)); lia).
    destruct Fw as (F1 & F2 & F3), Lw as (L1 & L2 & L3). rewrite !u16_id by lia.
    assert (forall y, vmin <= y <= vmax <-> y ∈ expand (f :: l2) \/ m <= y <= x) as Hmid.
    { intros y. split.
      - intros Hy. destruct (decide (m <= y <= x)); [by right | left].
        destruct (decide (y < m)).
        + autorewrite with runs. left. unfold r_max in *. lia.
        + rewrite Ela. autorewrite with runs. right. left. unfold r_max in *. lia.
      - intros [Hy | Hy]; [| lia]. pose proof (Hlb y Hy). autorewrite with runs in Hy.
        destruct Hy as [Hy | Hy]; [lia |]. pose proof (starts_after_elem _ _ _ Fa Hy). unfold r_max in *. lia. }
    replace (Z.to_nat (zlen l1 + 1)) with (length l1 + 1)%nat by (unfold zlen; lia). rewrite take_app_add. cbn [take]. rewrite take_0.
    rewrite zlen_cons.
    replace (zlen l1 + (zlen l2 + 1) + zlen l3 - (zlen l1 + (zlen l2 + 1) + zlen l3 - (zlen l1 + (zlen l2 + 1))))
      with (zlen l1 + (zlen l2 + 1)) by lia.
    replace (Z.to_nat (zlen l1 + (zlen l2 + 1))) with (length l1 + (length l2 + 1))%nat by (unfold zlen; lia).
    rewrite drop_app_add. replace (length l2 + 1)%nat with (S (length l2)) by lia. cbn [drop].
    rewrite drop_app_length, <- app_assoc. cbn [app].
    pose proof H as Hbig. rewrite <- app_assoc in Hbig. cbn [app] in Hbig.
    assert (ends_before (r_value f) l1) as Hel by (apply runs_ok_mid in Hbig; tauto).
    assert (starts_after (r_max la) l3) as Hsl.
    { rewrite Ela in H. replace ((l1 ++ l2' ++ [la]) ++ l3) with ((l1 ++ l2') ++ la :: l3) in H by (by rewrite <- !app_assoc).
      apply runs_ok_mid in H. tauto. }
    apply run_result_intro; [| | apply union_loop_strict; [by apply expand_strict | apply seqZ_strict] |].
    + apply runs_ok_mid. unfold run_wf, r_max in *. cbn. split; [done |]. split; [lia |]. split; [done |]. split.
      * rewrite Evmin. destruct (decide (r_value f < m)); eapply ends_before_mono; [exact Hel | lia | exact He1 | lia].
      * replace (vmin + (vmax - vmin)) with vmax by lia. rewrite Evmax.
        destruct (decide (x < r_value la + r_length la)); eapply starts_after_mono; [exact Hsl | lia | exact Hs3 | lia].
    + cbn [rc_capacity]. pose proof (zlen_nonneg l2) as Hn2. rewrite !zlen_app, !zlen_cons in Hroom.
      rewrite zlen_app, zlen_cons. lia.
    + intros y. rewrite elem_of_union_loop, elem_of_seqZ. specialize (Hmid y). revert Hmid.
      change (f :: l2 ++ l3) with ((f :: l2) ++ l3).
      rewrite !elem_of_expand_app, (elem_of_expand_cons (mk_rle vmin (vmax - vmin))). unfold r_max. cbn [r_value r_length].
      abstract_members. lia.
Qed.
