(* ===== verification/RoaringRunRange.v ===== *)
(** * Roaring bitmaps: removing a range from a run container

    [run_container_remove_range] cuts the run at the left end of the range,
    the run at its right end, and drops the runs between; or it splits the
    one run that contains the whole range. *)

From stdpp Require Import base list list_numbers numbers option sorting.
From Stdlib Require Import ZArith Lia ZifyBool.
From S2P Require Import Prelude.
From S2P Require Import RoaringArrays.
From S2P Require Import RoaringArrayContainer.
From S2P Require Import RoaringArrayFacts.
From S2P Require Import RoaringRun.
From S2P Require Import RoaringRunFacts.
From S2P Require Import RoaringRunOps.

Local Open Scope Z_scope.

(** The run that contains [k], or the place where it would be. *)
Variant find_result (k : Z) : list rle16_t -> Z -> Prop :=
| Find_in l1 r l2 : r_value r <= k <= r_max r -> find_result k (l1 ++ r :: l2) (zlen l1)
| Find_gap l1 l2 : Forall (fun r => r_max r < k) l1 -> Forall (fun r => k < r_value r) l2 ->
    find_result k (l1 ++ l2) (- zlen l1 - 1).

Lemma rd_middle {A} (l : list A) i x : rd l i = Some x ->
  exists l1 l2, l = l1 ++ x :: l2 /\ zlen l1 = i.
Proof.
  intros H. pose proof (rd_bound _ _ _ H). unfold rd in H. rewrite (proj2 (Z.leb_le 0 i)) in H by lia.
  exists (take (Z.to_nat i) l), (drop (S (Z.to_nat i)) l). split; [by rewrite take_drop_middle |].
  apply zlen_take. lia.
Qed.

Lemma find_run_loop_spec fuel l low high k : runs_ok l -> 0 <= low <= high + 1 -> high < zlen l ->
  high - low + 1 < Z.of_nat fuel ->
  (forall i r, rd l i = Some r -> i < low -> r_max r < k) ->
  (forall i r, rd l i = Some r -> high < i -> k < r_value r) ->
  exists j, find_run_loop fuel l low high k = Some j /\ find_result k l j.
Proof.
  intros H. revert low high. induction fuel as [|fuel IH]; intros low high Hlh Hh Hf Hlow Hhigh; [lia |].
  cbn [find_run_loop]. destruct (Z.leb_spec low high).
  - rewrite shiftr1. destruct (rd_Some l ((low + high) / 2)) as [r Hr]; [Z.to_euclidean_division_equations; lia |].
    rewrite Hr. cbn [mbind option_bind]. pose proof (rd_wf _ _ _ H Hr) as (? & ? & ?).
    unfold r_max in *. rewrite u16_id by lia.
    destruct (Z.ltb_spec (r_value r + r_length r) k); [| destruct (Z.ltb_spec k (r_value r))].
    + apply IH; try (Z.to_euclidean_division_equations; lia); [| done]. intros i s Hs Hi.
      destruct (decide (i = (low + high) / 2)) as [-> |]; [rewrite Hr in Hs; injection Hs as <-; lia |].
      pose proof (rd_order l i _ s r H Hs Hr ltac:(lia)). unfold r_max in *. lia.
    + apply IH; try (Z.to_euclidean_division_equations; lia); [done |]. intros i s Hs Hi.
      destruct (decide (i = (low + high) / 2)) as [-> |]; [rewrite Hr in Hs; injection Hs as <-; lia |].
      pose proof (rd_order l _ i r s H Hr Hs ltac:(lia)). unfold r_max in *. lia.
    + eexists. split; [done |]. destruct (rd_middle _ _ _ Hr) as (l1 & l2 & -> & <-).
      constructor. unfold r_max. lia.
  - eexists. split; [done |].
    assert (bisects l low (fun r => r_max r < k)) as (l1 & l2 & -> & <- & H1 & H2)%bisects_split.
    { split; [lia |]. split; [done |]. intros i s Hs Hi. specialize (Hhigh i s Hs ltac:(lia)).
      pose proof (rd_wf _ _ _ H Hs) as (? & ? & ?). unfold r_max. lia. }
    replace (- (zlen l1 + 1)) with (- zlen l1 - 1) by lia. constructor; [done |].
    apply Forall_forall. intros r Hr. apply elem_rd in Hr as [i Hi]. pose proof (rd_bound _ _ _ Hi).
    apply (Hhigh (zlen l1 + i)); [| lia]. rewrite rd_app_r by lia. by replace (zlen l1 + i - zlen l1) with i by lia.
Qed.

Lemma rle16_find_run_spec l k : runs_ok l -> exists j, rle16_find_run l k = Some j /\ find_result k l j.
Proof.
  intros H. pose proof (zlen_nonneg l). apply find_run_loop_spec; [done | lia | lia | unfold zlen; lia | |];
    intros i r Hr; apply rd_bound in Hr; lia.
Qed.

(** What the answer says of every run of the list. *)
Lemma find_result_rd k l j : runs_ok l -> find_result k l j ->
  (0 <= j /\ exists r, rd l j = Some r /\ r_value r <= k <= r_max r) \/
  (j < 0 /\ (forall i r, rd l i = Some r -> i < - j - 1 -> r_max r < k) /\
   (forall i r, rd l i = Some r -> - j - 1 <= i -> k < r_value r) /\ - j - 1 <= zlen l).
Proof.
  intros H Hf. destruct Hf as [l1 r l2 Hr | l1 l2 H1 H2].
  - left. split; [apply zlen_nonneg |]. exists r. by rewrite rd_at.
  - right. pose proof (zlen_nonneg l1). pose proof (zlen_nonneg l2). split; [lia |]. rewrite Forall_forall in H1, H2.
    replace (- (- zlen l1 - 1) - 1) with (zlen l1) by lia.
    split; [| split; [| rewrite zlen_app; lia]]; intros i r Hr Hi.
    + rewrite rd_app_l in Hr by done. apply H1. by eapply rd_elem.
    + rewrite rd_app_r in Hr by done. apply H2. by eapply rd_elem.
Qed.

Lemma find_result_unique k l i j : runs_ok l -> find_result k l i -> find_result k l j -> i = j.
Proof.
  intros H Hi%find_result_rd Hj%find_result_rd; [| done | done].
  destruct Hi as [(I1 & r & Ir & Ik) | (I1 & I2 & I3 & I4)], Hj as [(J1 & s & Jr & Jk) | (J1 & J2 & J3 & J4)].
  - destruct (Z.lt_trichotomy i j) as [Hlt | [| Hlt]]; [| done |].
    + pose proof (rd_order _ _ _ _ _ H Ir Jr Hlt). lia.
    + pose proof (rd_order _ _ _ _ _ H Jr Ir Hlt). lia.
  - destruct (decide (i < - j - 1)) as [Hlt | Hge].
    + specialize (J2 i r Ir Hlt). lia.
    + specialize (J3 i r Ir ltac:(lia)). lia.
  - destruct (decide (j < - i - 1)) as [Hlt | Hge].
    + specialize (I2 j s Jr Hlt). lia.
    + specialize (I3 j s Jr ltac:(lia)). lia.
  - destruct (Z.lt_trichotomy i j) as [Hlt | [| Hlt]]; [| done |].
    + destruct (rd_Some l (- j - 1)) as [r Hr]; [lia |]. specialize (J3 _ _ Hr ltac:(lia)).
      specialize (I2 _ _ Hr ltac:(lia)). pose proof (rd_wf _ _ _ H Hr) as (? & ? & ?). unfold r_max in *. lia.
    + destruct (rd_Some l (- i - 1)) as [r Hr]; [lia |]. specialize (I3 _ _ Hr ltac:(lia)).
      specialize (J2 _ _ Hr ltac:(lia)). pose proof (rd_wf _ _ _ H Hr) as (? & ? & ?). unfold r_max in *. lia.
Qed.

(** Searching past a prefix of runs below the key. *)
Lemma find_run_suffix p l k : runs_ok (p ++ l) -> Forall (fun r => r_max r < k) p ->
  (exists l1 r l2, l = l1 ++ r :: l2 /\ r_value r <= k <= r_max r /\
     rle16_find_run (p ++ l) k = Some (zlen p + zlen l1)) \/
  (exists l1 l2, l = l1 ++ l2 /\ Forall (fun r => r_max r < k) l1 /\ Forall (fun r => k < r_value r) l2 /\
     rle16_find_run (p ++ l) k = Some (- (zlen p + zlen l1) - 1)).
Proof.
  intros H Hp. destruct (runs_ok_app_inv _ _ H) as [_ Hl].
  destruct (rle16_find_run_spec l k Hl) as (j & _ & Hj).
  destruct (rle16_find_run_spec (p ++ l) k H) as (i & -> & Hi).
  destruct Hj as [l1 r l2 Hr | l1 l2 H1 H2].
  - left. exists l1, r, l2. split; [done |]. split; [done |]. f_equal. rewrite <- zlen_app.
    eapply find_result_unique; [exact H | exact Hi |]. rewrite app_assoc. by constructor.
  - right. exists l1, l2. split; [done |]. split; [done |]. split; [done |]. f_equal. rewrite <- zlen_app.
    eapply find_result_unique; [exact H | exact Hi |]. rewrite app_assoc. constructor; [| done].
    by apply Forall_app.
Qed.

(** The runs from [first] to [last] are dropped. *)
Lemma shift_tail_spec cap a m b : zlen (a ++ m ++ b) <= cap ->
  (let run := mk_run cap (a ++ m ++ b) in
   if zlen a <=? zlen a + zlen m - 1 then
     run_container_shift_tail run (n_runs run - (zlen a + zlen m - 1 + 1))
       (- (zlen a + zlen m - 1 - zlen a + 1))
   else Some run) = Some (mk_run cap (a ++ b)).
Proof.
  intros Hcap. cbv zeta. pose proof (zlen_nonneg a). pose proof (zlen_nonneg m). pose proof (zlen_nonneg b).
  destruct (Z.leb_spec (zlen a) (zlen a + zlen m - 1)).
  - unfold run_container_shift_tail, n_runs. cbn [rc_runs rc_capacity]. rewrite !zlen_app in Hcap |- *.
    replace ((0 <? - (zlen a + zlen m - 1 - zlen a + 1)) && _) with false by lia. cbn [rc_runs rc_capacity].
    rewrite !zlen_app. replace (_ && _) with true by lia. unfold with_runs. cbn [rc_capacity]. do 2 f_equal.
    replace (Z.to_nat _) with (length a) at 1 by (unfold zlen in *; lia). rewrite take_app_length.
    replace (Z.to_nat _) with (length (a ++ m)) by (rewrite length_app; unfold zlen in *; lia).
    rewrite app_assoc, drop_app_length. done.
  - assert (m = []) as -> by (destruct m; [done |]; rewrite zlen_cons in *; pose proof (zlen_nonneg m); lia). done.
Qed.

Lemma below_elem k l x : Forall (fun r => r_max r < k) l -> x ∈ expand l -> x < k.
Proof. intros H (r & Hr & ?)%elem_of_expand. rewrite Forall_forall in H. specialize (H r Hr). lia. Qed.

Lemma above_elem k l x : Forall (fun r => k <= r_value r) l -> x ∈ expand l -> k <= x.
Proof. intros H (r & Hr & ?)%elem_of_expand. rewrite Forall_forall in H. specialize (H r Hr). lia. Qed.

Lemma runs_ok_drop_mid a m b : runs_ok (a ++ m ++ b) -> runs_ok (a ++ b).
Proof.
  induction m as [|r m IH]; [done |]. intros H. apply IH. cbn [app] in H.
  by apply runs_ok_delete in H.
Qed.

Lemma elem_of_minus_range l m x y : y ∈ minus l (seqZ m (x + 1 - m)) <-> y ∈ l /\ ~ (m <= y <= x).
Proof. rewrite elem_of_minus, elem_of_seqZ. split; intros [? ?]; (split; [done | lia]). Qed.

(** The right end of the range: the run found there is cut or dropped, with
    the runs before it. *)
Lemma remove_right cap a rest min max last : runs_ok (a ++ rest) -> zlen (a ++ rest) <= cap ->
  0 <= min <= max -> max <= 65535 ->
  Forall (fun r => r_max r < min) a -> Forall (fun r => min <= r_value r) rest ->
  (exists m r b, rest = m ++ r :: b /\ r_value r <= max <= r_max r /\ last = zlen a + zlen m) \/
  (exists m b, rest = m ++ b /\ Forall (fun r => r_max r < max) m /\ Forall (fun r => max < r_value r) b /\
     last = - (zlen a + zlen m) - 1) ->
  run_result
    ('(runs, last) ←
      (if 0 <=? last then
         r ← rd (a ++ rest) last;
         let run_max := u16 (r_value r + r_length r) in
         if max <? run_max then
           l ← set_run (a ++ rest) last (mk_rle (u16 (max + 1)) (u16 (run_max - (max + 1))));
           Some (l, last - 1)
         else Some (a ++ rest, last)
       else Some (a ++ rest, - last - 1 - 1));
     let run := mk_run cap runs in
     if zlen a <=? last then
       run_container_shift_tail run (n_runs run - (last + 1)) (- (last - zlen a + 1))
     else Some run)
    (minus (expand (a ++ rest)) (seqZ min (max + 1 - min))).
Proof.
  intros Hok Hcap Hmm Hmax Ha Hrest Hlast.
  pose proof (proj1 (sorted16_minus _ (seqZ min (max + 1 - min)) (expand_sorted _ Hok))) as Hst.
  pose proof (fun y => below_elem min a y Ha) as Ea. pose proof (fun y => above_elem min rest y Hrest) as Er.
  pose proof (zlen_nonneg a).
  destruct Hlast as [(m & r & b & -> & Hr & ->) | (m & b & -> & Hm & Hb & ->)]; pose proof (zlen_nonneg m).
  - rewrite (proj2 (Z.leb_le _ _)) by lia. rewrite <- zlen_app.
    assert (runs_ok ((a ++ m) ++ r :: b)) as Hok' by by rewrite <- app_assoc.
    pose proof Hok' as (_ & (W1 & W2 & W3) & Ob & Em & Sb)%runs_ok_mid.
    rewrite app_assoc, rd_at. cbn [mbind option_bind]. cbv zeta. unfold r_max in W3, Hr.
    rewrite (u16_id (r_value r + r_length r)) by lia.
    assert (forall y, y ∈ expand (a ++ m) -> y < max) as Em' by (intros y Hy; pose proof (ends_before_elem _ _ _ Em Hy); lia).
    destruct (Z.ltb_spec max (r_value r + r_length r)).
    + rewrite set_run_at, !u16_id by lia. cbn [mbind option_bind]. rewrite <- app_assoc, zlen_app.
      set (r' := mk_rle _ _). rewrite shift_tail_spec; [| by rewrite app_assoc, <- (zlen_set _ r), <- app_assoc].
      apply run_result_intro; [| | by rewrite <- app_assoc |].
      * apply (runs_ok_drop_mid a m). rewrite app_assoc. apply runs_ok_mid.
        pose proof Hok' as (O1 & _)%runs_ok_mid. split; [done |]. split; [unfold run_wf, r', r_max; cbn; lia |].
        split; [done |]. split; [eapply ends_before_mono; [done | cbn; lia] |].
        eapply starts_after_mono; [done | unfold r', r_max; cbn; lia].
      * rewrite !zlen_app, !zlen_cons in *. lia.
      * intros y. rewrite elem_of_minus_range. rewrite <- app_assoc.
        specialize (Ea y). specialize (Er y). specialize (Em' y). pose proof (starts_after_elem _ _ y Sb).
        unfold r', r_max in *. revert Ea Er Em' H2. members.
    + cbn [mbind option_bind]. rewrite zlen_app, <- app_assoc.
      replace (zlen a + zlen m) with (zlen a + zlen (m ++ [r]) - 1) by (rewrite zlen_app; change (zlen [r]) with 1; lia).
      replace (a ++ m ++ r :: b) with (a ++ (m ++ [r]) ++ b) by by rewrite <- (app_assoc m).
      rewrite shift_tail_spec by (rewrite <- (app_assoc m); done).
      apply run_result_intro; [| | rewrite <- (app_assoc m); exact Hst |].
      * apply (runs_ok_drop_mid a (m ++ [r])). by rewrite <- (app_assoc m).
      * rewrite !zlen_app, !zlen_cons in *. lia.
      * intros y. rewrite elem_of_minus_range. rewrite <- (app_assoc m). cbn [app].
        specialize (Ea y). specialize (Er y). specialize (Em' y). pose proof (starts_after_elem _ _ y Sb).
        unfold r_max in *. revert Ea Er Em' H2. members.
  - rewrite (proj2 (Z.leb_gt _ _)) by lia. cbn [mbind option_bind].
    replace (- (- (zlen a + zlen m) - 1) - 1 - 1) with (zlen a + zlen m - 1) by lia.
    rewrite shift_tail_spec by done. apply run_result_intro; [by eapply runs_ok_drop_mid | | done |].
    + rewrite !zlen_app in *. lia.
    + intros y. rewrite elem_of_minus_range.
      pose proof (below_elem max m y Hm) as Bm.
      assert (Forall (fun r => max + 1 <= r_value r) b) as Hb' by (eapply Forall_impl; [exact Hb | cbn; lia]).
      pose proof (above_elem _ b y Hb') as Ab. specialize (Ea y). specialize (Er y).
      revert Ea Er Bm Ab. members.
Qed.

Lemma ends_before_below v l : ends_before v l -> Forall (fun r => r_max r < v) l.
Proof. intros H. eapply Forall_impl; [exact H | cbn; lia]. Qed.

Lemma minus_range_ext l l' m x : strict l -> strict l' ->
  (forall y, ~ (m <= y <= x) -> y ∈ l <-> y ∈ l') ->
  minus l (seqZ m (x + 1 - m)) = minus l' (seqZ m (x + 1 - m)).
Proof.
  intros Hl Hl' H. apply strict_ext; [by apply strict_filter | by apply strict_filter |].
  intros y. rewrite !elem_of_minus_range. specialize (H y). split; intros [? ?]; (split; [| done]); by apply H.
Qed.

Lemma runs_from l1 r l2 k : runs_ok (l1 ++ r :: l2) -> k <= r_value r ->
  Forall (fun s => k <= r_value s) (r :: l2).
Proof.
  intros (_ & (? & ? & ?) & _ & _ & Hs)%runs_ok_mid Hk. constructor; [done |].
  eapply Forall_impl; [exact Hs |]. unfold r_max. cbn. lia.
Qed.

Lemma find_run_at l1 r l2 k : runs_ok (l1 ++ r :: l2) -> r_value r <= k <= r_max r ->
  rle16_find_run (l1 ++ r :: l2) k = Some (zlen l1).
Proof.
  intros Hok Hk. destruct (rle16_find_run_spec _ k Hok) as (j & -> & Hj). f_equal.
  eapply find_result_unique; [exact Hok | exact Hj | by constructor].
Qed.

(** A run that loses its end, from [min] on. *)
Lemma runs_ok_cut l1 r l2 min : runs_ok (l1 ++ r :: l2) -> r_value r < min <= r_max r ->
  let r' := mk_rle (r_value r) (min - 1 - r_value r) in
  runs_ok (l1 ++ r' :: l2) /\ (forall y, ~ (min <= y <= r_max r) ->
    y ∈ expand (l1 ++ r :: l2) <-> y ∈ expand (l1 ++ r' :: l2)).
Proof.
  intros (O1 & (W1 & W2 & W3) & O2 & E1 & S2)%runs_ok_mid Hm r'. unfold r_max in *. split.
  - apply runs_ok_mid. split; [done |]. split; [unfold run_wf, r', r_max; cbn; lia |]. split; [done |].
    split; [done |]. eapply starts_after_mono; [exact S2 |]. unfold r', r_max; cbn. lia.
  - intros y. unfold r'. members.
Qed.

Lemma run_split_range cap l1 r l2 min max : runs_ok (l1 ++ r :: l2) ->
  r_value r < min -> min <= max -> max < r_max r ->
  run_result
    (run ← insert_run (mk_run cap (l1 ++ r :: l2)) (u16 (zlen l1 + 1))
             (mk_rle (u16 (max + 1)) (u16 (r_value r + r_length r - (max + 1))));
     l ← set_run (rc_runs run) (zlen l1) (mk_rle (r_value r) (u16 (min - 1 - r_value r)));
     Some (with_runs run l))
    (minus (expand (l1 ++ r :: l2)) (seqZ min (max + 1 - min))).
Proof.
  intros Hok H1 H2 H3. pose proof Hok as (O1 & (W1 & W2 & W3) & O2 & E1 & S2)%runs_ok_mid.
  unfold r_max in *. pose proof (runs_ok_count _ Hok) as Hc. rewrite zlen_app, zlen_cons in Hc.
  pose proof (zlen_nonneg l1). pose proof (zlen_nonneg l2). rewrite !u16_id by lia.
  replace (zlen l1 + 1) with (zlen (l1 ++ [r])) by (rewrite zlen_app; done).
  destruct (insert_run_at (mk_run cap (l1 ++ r :: l2)) (l1 ++ [r]) l2
    (mk_rle (max + 1) (r_value r + r_length r - (max + 1)))) as (cap' & -> & Hroom).
  { cbn [rc_runs]. by rewrite <- app_assoc. }
  cbn [mbind option_bind rc_runs]. rewrite <- app_assoc. cbn [app]. rewrite set_run_at.
  cbn [mbind option_bind]. unfold with_runs. cbn [rc_capacity].
  apply run_result_intro.
  - apply runs_ok_mid. split; [done |]. split; [unfold run_wf, r_max; cbn; lia |]. split; [| split; [done |]].
    + apply runs_ok_cons. split; [unfold run_wf, r_max; cbn; lia |]. split; [| done].
      eapply starts_after_mono; [exact S2 | unfold r_max; cbn; lia].
    + apply starts_after_cons. split; [unfold r_max; cbn; lia |].
      eapply starts_after_mono; [exact S2 | unfold r_max; cbn; lia].
  - rewrite <- app_assoc in Hroom. cbn [app] in Hroom. by rewrite <- (zlen_set l1 r).
  - apply strict_filter, expand_strict, Hok.
  - intros y. rewrite elem_of_minus_range. pose proof (ends_before_elem _ _ y E1) as Q1.
    pose proof (starts_after_elem _ _ y S2) as Q2. unfold r_max in *. revert Q1 Q2. members.
Qed.

Lemma run_remove_range_spec run min max : run_ok run -> 0 <= min <= max -> max <= 65535 ->
  run_result (run_container_remove_range run min max)
    (minus (expand (rc_runs run)) (seqZ min (max + 1 - min))).
Proof.
  intros [Hok Hroom] Hmm Hmax. destruct run as [cap l]. cbn [rc_runs rc_capacity] in *.
  unfold run_container_remove_range. cbn [rc_runs rc_capacity]. rewrite !(u16_id min), !(u16_id max) by lia.
  destruct (rle16_find_run_spec l min Hok) as (first & Hfirst & Hres). rewrite Hfirst. cbn [mbind option_bind].
  destruct Hres as [l1 r l2 Hr | l1 l2 H1 H2]; pose proof (zlen_nonneg l1).
  - pose proof Hok as (O1 & (W1 & W2 & W3) & O2 & E1 & S2)%runs_ok_mid.
    rewrite (proj2 (Z.leb_le 0 (zlen l1))) by lia. rewrite rd_at.
    destruct (Z.ltb_spec (r_value r) min); [destruct (Z.lt_total (r_max r) max) as [Hx | [Hx | Hx]] |].
    + destruct (runs_ok_cut _ _ _ min Hok ltac:(lia)) as [Hok' Hext]. set (r' := mk_rle _ _) in *.
      assert (Forall (fun s => r_max s < max) (l1 ++ [r])) as B1.
      { apply Forall_app. split; [| by constructor].
        eapply Forall_impl; [apply (ends_before_below _ _ E1) | cbn; lia]. }
      replace (l1 ++ r :: l2) with ((l1 ++ [r]) ++ l2) in * by by rewrite <- app_assoc.
      rewrite (minus_range_ext _ (expand ((l1 ++ [r']) ++ l2))).
      2, 3: apply expand_strict; try done; by rewrite <- app_assoc.
      2: { intros y Hy. rewrite <- (app_assoc l1 [r']). apply Hext. lia. }
      destruct (find_run_suffix (l1 ++ [r]) l2 max Hok B1) as [(m & s & b & Eb & Hs & ->) | (m & b & Eb & Hm & Hb & ->)];
        cbn [mbind option_bind]; cbv zeta; cbv iota; replace (_ && _) with false by (unfold r_max in *; lia);
        rewrite (proj2 (Z.ltb_lt (r_value r) min)) by lia;
        rewrite <- (app_assoc l1 [r]); cbn [app]; rewrite set_run_at, (u16_id (min - 1 - r_value r)) by (unfold r_max in *; lia);
        cbn [mbind option_bind]; fold r'; replace (l1 ++ r' :: l2) with ((l1 ++ [r']) ++ l2) by by rewrite <- app_assoc.
      all: assert (forall t : rle16_t, zlen (l1 ++ [t]) = zlen l1 + 1) as Hlen by (intros; by rewrite zlen_app);
        rewrite <- (Hlen r'), (Hlen r), <- (Hlen r').
      all: apply remove_right; try done.
      all: rewrite ?Hlen, <- ?app_assoc; try done.
      all: try by cbn [rc_capacity app]; rewrite <- (zlen_set l1 r); rewrite <- app_assoc in Hroom.
      all: try (apply Forall_app; split;
        [eapply Forall_impl; [apply (ends_before_below _ _ E1) | cbn; lia]
        | by constructor; [unfold r', r_max; cbn; lia |]]).
      all: try by eapply Forall_impl; [exact S2 | cbn; lia].
      * left. by exists m, s, b.
      * right. by exists m, b.
    + destruct (runs_ok_cut _ _ _ min Hok ltac:(lia)) as [Hok' Hext]. set (r' := mk_rle _ _) in *.
      rewrite find_run_at by (done || lia). cbn [mbind option_bind]. cbv zeta. cbv iota.
      replace (_ && _) with false by (unfold r_max in *; lia).
      rewrite (proj2 (Z.ltb_lt (r_value r) min)) by lia.
      rewrite set_run_at, (u16_id (min - 1 - r_value r)) by (unfold r_max in *; lia). cbn [mbind option_bind]. fold r'.
      rewrite (proj2 (Z.leb_le 0 (zlen l1))) by lia. rewrite rd_at. cbn [mbind option_bind].
      rewrite (u16_id (r_value r' + r_length r')) by (unfold r', r_max in *; cbn; lia).
      rewrite (proj2 (Z.ltb_ge _ _)) by (unfold r'; cbn; lia). cbn [mbind option_bind].
      rewrite (proj2 (Z.leb_gt _ _)) by lia.
      unfold with_runs. cbn [rc_capacity]. apply run_result_intro; [done | by rewrite <- (zlen_set l1 r) | |].
      * apply strict_filter, expand_strict, Hok.
      * intros y. rewrite elem_of_minus_range. pose proof (ends_before_elem _ _ y E1) as Q1.
        pose proof (starts_after_elem _ _ y S2) as Q2. unfold r', r_max in *. revert Q1 Q2. members.
    + rewrite find_run_at by (done || lia). cbn [mbind option_bind]. cbv zeta. cbv iota.
      replace (_ && _) with true by (unfold r_max in *; lia). apply run_split_range; (done || lia).
    + destruct (find_run_suffix l1 (r :: l2) max Hok) as [(m & s & b & Eb & Hs & ->) | (m & b & Eb & Hm & Hb & ->)].
      { eapply Forall_impl; [apply (ends_before_below _ _ E1) | cbn; lia]. }
      all: cbn [mbind option_bind]; cbv zeta; cbv iota; replace (_ && _) with false by lia;
        rewrite (proj2 (Z.ltb_ge (r_value r) min)) by lia; cbn [mbind option_bind].
      all: apply remove_right; try done;
        [by apply ends_before_below; replace min with (r_value r) by lia | by eapply runs_from; [| lia] | ].
      * left. by exists m, s, b.
      * right. by exists m, b.
  - destruct (find_run_suffix l1 l2 max Hok) as [(m & s & b & Eb & Hs & ->) | (m & b & Eb & Hm & Hb & ->)].
    { eapply Forall_impl; [exact H1 | cbn; lia]. }
    all: cbn [mbind option_bind];
      rewrite (proj2 (Z.leb_gt 0 (- zlen l1 - 1))) by lia; cbn [mbind option_bind];
      replace (- (- zlen l1 - 1) - 1) with (zlen l1) by lia.
    all: apply remove_right; try done; [eapply Forall_impl; [exact H2 | cbn; lia] |].
    + left. by exists m, s, b.
    + right. by exists m, b.
Qed.
