(* ===== verification/RoaringRunSets.v ===== *)
(** * Roaring bitmaps: set operations on run containers

    [run_container_union], [run_container_xor], [run_container_intersection]
    and [run_container_andnot] merge two sorted sequences of runs.  Each is
    proved to return a well-formed container whose values are the union,
    symmetric difference, intersection or difference of the values of its
    arguments, in particular never to store outside the capacity it reserves. *)

From stdpp Require Import base list list_numbers numbers option sorting.
From Stdlib Require Import ZArith Lia ZifyBool.
From S2P Require Import Prelude.
From S2P Require Import RoaringArrays.
From S2P Require Import RoaringArrayContainer.
From S2P Require Import RoaringArrayFacts.
From S2P Require Import RoaringBitsetOps.
From S2P Require Import RoaringRun.
From S2P Require Import RoaringRunFacts.
From S2P Require Import RoaringRunOps.

Local Open Scope Z_scope.

(** ** Stores at the end of the buffer *)

Lemma push_run_ok cap d r : zlen d < cap -> push_run (mk_run cap d) r = Some (mk_run cap (d ++ [r])).
Proof. intros H. unfold push_run, n_runs. cbn [rc_runs rc_capacity]. by rewrite (proj2 (Z.ltb_lt _ _)). Qed.

Lemma put_last_ok cap d r s : put_last (mk_run cap (d ++ [r])) s = Some (mk_run cap (d ++ [s])).
Proof.
  unfold put_last, n_runs. cbn [rc_runs]. rewrite zlen_app. change (zlen [r]) with 1.
  replace (zlen d + 1 - 1) with (zlen d) by lia. by rewrite set_run_at.
Qed.

Lemma zlen_snoc {A} (d : list A) r : zlen (d ++ [r]) = zlen d + 1.
Proof. by rewrite zlen_app. Qed.

Lemma runs_ok_snoc d r : runs_ok (d ++ [r]) <-> runs_ok d /\ run_wf r /\ ends_before (r_value r) d.
Proof.
  rewrite runs_ok_mid. split; [by intros (? & ? & _ & ? & _) |].
  intros (? & ? & ?). do 4 (split; [first [done | apply runs_ok_nil] |]). constructor.
Qed.

(** Runs that start at or after [v]. *)
Definition starts_from (v : Z) (l : list rle16_t) : Prop := Forall (fun r => v <= r_value r) l.

Lemma starts_from_mono v v' l : starts_from v l -> v' <= v -> starts_from v' l.
Proof. intros H ?. eapply Forall_impl; [exact H | cbn; lia]. Qed.

Lemma starts_from_cons v r l : starts_from v (r :: l) <-> v <= r_value r /\ starts_from v l.
Proof. apply (Forall_cons (fun r => v <= r_value r)). Qed.

Lemma starts_from_nil v : starts_from v [].
Proof. constructor. Qed.

(** Runs in order that may touch: a sequence of values seen as runs of one. *)
Definition runs_touch (l : list rle16_t) : Prop :=
  Forall run_wf l /\ StronglySorted (fun a b => r_max a < r_value b) l.

Lemma runs_touch_nil : runs_touch [].
Proof. split; constructor. Qed.

Lemma runs_touch_cons r l : runs_touch (r :: l) <-> run_wf r /\ starts_after (r_max r - 1) l /\ runs_touch l.
Proof.
  unfold runs_touch, starts_after. rewrite Forall_cons. split.
  - intros [[Hr Hl] [Hs Ha]%StronglySorted_inv]. split; [done |]. split; [| done]. eapply Forall_impl; [exact Ha | cbn; lia].
  - intros (Hr & Ha & Hl & Hs). split; [auto |]. constructor; [done |]. eapply Forall_impl; [exact Ha | cbn; lia].
Qed.

Lemma runs_ok_touch l : runs_ok l -> runs_touch l.
Proof.
  induction l as [|r l IH]; [intros; apply runs_touch_nil |]. intros (Hr & Hs & Hl)%runs_ok_cons. apply runs_touch_cons.
  split; [done |]. split; [eapply starts_after_mono; [done | lia] | auto].
Qed.

Lemma runs_touch_starts r l : runs_touch (r :: l) -> starts_from (r_value r) l.
Proof.
  intros ((? & ? & ?) & Hs & _)%runs_touch_cons. eapply Forall_impl; [exact Hs |]. unfold r_max. cbn. lia.
Qed.

Lemma runs_ok_starts r l : runs_ok (r :: l) -> starts_from (r_value r) l.
Proof.
  intros ((? & ? & ?) & Hs & _)%runs_ok_cons. eapply Forall_impl; [exact Hs |]. unfold r_max. cbn. lia.
Qed.

(** ** Union *)

Lemma append_spec cap d prev vl : runs_ok (d ++ [prev]) -> run_wf vl -> r_value prev <= r_value vl ->
  zlen (d ++ [prev]) < cap ->
  exists d' prev', run_container_append (mk_run cap (d ++ [prev])) vl prev =
      Some (mk_run cap (d' ++ [prev']), prev') /\
    runs_ok (d' ++ [prev']) /\ r_value prev' <= r_value vl /\ zlen (d' ++ [prev']) <= zlen (d ++ [prev]) + 1 /\
    forall x, x ∈ expand (d' ++ [prev']) <-> x ∈ expand (d ++ [prev]) \/ r_value vl <= x <= r_max vl.
Proof.
  intros Hok W Hle Hcap. pose proof Hok as (O & (P1 & P2 & P3) & E)%runs_ok_snoc. destruct W as (W1 & W2 & W3).
  unfold run_container_append, r_max in *. destruct (Z.ltb_spec (r_value prev + r_length prev + 1) (r_value vl)).
  - rewrite push_run_ok by done. cbn [mbind option_bind]. exists (d ++ [prev]), vl. split; [done |]. split.
    + apply runs_ok_snoc. split; [done |]. split; [done |]. apply ends_before_app.
      split; [by eapply ends_before_mono |]. by constructor.
    + rewrite (zlen_snoc (d ++ [prev])). split; [lia |]. split; [lia |]. intros x. members.
  - destruct (Z.ltb_spec (r_value prev + r_length prev) (r_value vl + r_length vl + 1)).
    + rewrite put_last_ok, u16_id by lia. cbn [mbind option_bind]. eexists d, _. split; [done |]. split.
      * apply runs_ok_snoc. split; [done |]. split; [unfold run_wf, r_max; cbn; lia | done].
      * rewrite !zlen_snoc. split; [cbn; lia |]. split; [lia |]. intros x.
        members.
    + exists d, prev. split; [done |]. split; [done |]. split; [lia |]. split; [lia |]. intros x. members.
Qed.

Lemma append_all_spec l : forall cap d prev, runs_ok (d ++ [prev]) -> runs_touch l -> starts_from (r_value prev) l ->
  zlen (d ++ [prev]) + zlen l <= cap ->
  exists d' prev', append_all l (mk_run cap (d ++ [prev])) prev = Some (mk_run cap (d' ++ [prev']), prev') /\
    runs_ok (d' ++ [prev']) /\ zlen (d' ++ [prev']) <= cap /\
    forall x, x ∈ expand (d' ++ [prev']) <-> x ∈ expand (d ++ [prev]) \/ x ∈ expand l.
Proof.
  induction l as [|r l IH]; intros cap d prev Hok Hl Hs Hcap.
  - exists d, prev. split; [done |]. split; [done |]. change (zlen []) with 0 in Hcap. split; [lia |].
    intros x. members.
  - rewrite zlen_cons in Hcap. pose proof Hl as (W & _ & Hl')%runs_touch_cons. apply starts_from_cons in Hs as [Hr Hs].
    pose proof (zlen_nonneg l).
    destruct (append_spec cap d prev r) as (d1 & p1 & E & O1 & V1 & Z1 & X1); [done | done | done | lia |].
    cbn [append_all]. rewrite E. cbn [mbind option_bind].
    destruct (IH cap d1 p1 O1 Hl') as (d2 & p2 & -> & O2 & Z2 & X2).
    { eapply starts_from_mono; [by apply runs_touch_starts | done]. }
    { lia. }
    exists d2, p2. split; [done |]. split; [done |]. split; [done |]. intros x. rewrite X2, X1. members.
Qed.

Lemma run_union_loop_cons x a y b dst prev : run_union_loop (x :: a) (y :: b) dst prev =
  if r_value x <=? r_value y then
    '(dst, prev) ← run_container_append dst x prev; run_union_loop a (y :: b) dst prev
  else
    '(dst, prev) ← run_container_append dst y prev; run_union_loop (x :: a) b dst prev.
Proof. done. Qed.

Lemma run_union_loop_nil_l b dst prev : run_union_loop [] b dst prev = fst <$> append_all b dst prev.
Proof. destruct b; cbn; [done |]. by destruct (run_container_append dst r prev) as [[]|]; cbn; [destruct append_all as [[]|] |]. Qed.

Lemma run_union_loop_nil_r a dst prev : run_union_loop a [] dst prev = fst <$> append_all a dst prev.
Proof. destruct a; cbn; [done |]. by destruct (run_container_append dst r prev) as [[]|]; cbn; [destruct append_all as [[]|] |]. Qed.

Lemma run_union_loop_spec a b : forall cap d prev, runs_ok (d ++ [prev]) -> runs_touch a -> runs_touch b ->
  starts_from (r_value prev) a -> starts_from (r_value prev) b ->
  zlen (d ++ [prev]) + zlen a + zlen b <= cap ->
  exists l, run_union_loop a b (mk_run cap (d ++ [prev])) prev = Some (mk_run cap l) /\
    runs_ok l /\ zlen l <= cap /\
    forall x, x ∈ expand l <-> x ∈ expand (d ++ [prev]) \/ x ∈ expand a \/ x ∈ expand b.
Proof.
  revert a b. apply (merge_runs_ind (fun a b => forall cap d prev, _ -> _ -> _ -> _ -> _ -> _ -> _)).
  - intros b cap d prev Hok Ha Hb Sa Sb Hcap. change (zlen []) with 0 in Hcap.
    rewrite run_union_loop_nil_l. destruct (append_all_spec b cap d prev Hok Hb Sb) as (d' & p' & -> & O & Z & X); [lia |].
    eexists. split; [done |]. split; [done |]. split; [done |]. intros x. rewrite X. members.
  - intros b cap d prev Hok Ha Hb Sa Sb Hcap. change (zlen []) with 0 in Hcap.
    rewrite run_union_loop_nil_r. destruct (append_all_spec b cap d prev Hok Ha Sa) as (d' & p' & -> & O & Z & X); [lia |].
    eexists. split; [done |]. split; [done |]. split; [done |]. intros x. rewrite X. members.
  - intros x a y b I1 I2 _ cap d prev Hok Ha Hb Sa Sb Hcap. rewrite !zlen_cons in Hcap.
    pose proof (zlen_nonneg a). pose proof (zlen_nonneg b). rewrite run_union_loop_cons.
    pose proof Ha as (Wa & _ & Ha')%runs_touch_cons. pose proof Hb as (Wb & _ & Hb')%runs_touch_cons.
    pose proof (runs_touch_starts _ _ Ha) as Ta. pose proof (runs_touch_starts _ _ Hb) as Tb.
    apply starts_from_cons in Sa as [Va Sa]. apply starts_from_cons in Sb as [Vb Sb].
    destruct (Z.leb_spec (r_value x) (r_value y)).
    + destruct (append_spec cap d prev x) as (d1 & p1 & -> & O1 & V1 & Z1 & X1); [done | done | done | lia |].
      cbn [mbind option_bind]. destruct (I1 cap d1 p1) as (l & -> & O & Z & X); try done.
      { by eapply starts_from_mono. }
      { apply starts_from_cons. split; [lia |]. eapply starts_from_mono; [done | lia]. }
      { rewrite zlen_cons. lia. }
      eexists. split; [done |]. split; [done |]. split; [done |]. intros z. rewrite X, X1. members.
    + destruct (append_spec cap d prev y) as (d1 & p1 & -> & O1 & V1 & Z1 & X1); [done | done | done | lia |].
      cbn [mbind option_bind]. destruct (I2 cap d1 p1) as (l & -> & O & Z & X); try done.
      { apply starts_from_cons. split; [lia |]. eapply starts_from_mono; [done | lia]. }
      { by eapply starts_from_mono. }
      { rewrite zlen_cons. lia. }
      eexists. split; [done |]. split; [done |]. split; [done |]. intros z. rewrite X, X1. members.
Qed.

Lemma ensure_runs_spec dst n : exists cap, ensure_runs dst n = mk_run cap [] /\ n <= cap.
Proof.
  unfold ensure_runs. eexists. split; [done |].
  destruct (Z.ltb_spec (rc_capacity dst) n); [apply run_grow_room | done].
Qed.

Lemma run_copy_spec src dst : run_ok src ->
  run_ok (run_container_copy src dst) /\ rc_runs (run_container_copy src dst) = rc_runs src.
Proof.
  intros [H1 H2]. unfold run_container_copy, n_runs. cbv zeta. split; [| done]. constructor; [done |].
  cbn [rc_runs rc_capacity]. destruct (Z.ltb_spec (rc_capacity dst) (zlen (rc_runs src))); [apply run_grow_room | done].
Qed.

Lemma run_copy_result src dst : run_ok src -> run_result (Some (run_container_copy src dst)) (expand (rc_runs src)).
Proof. intros H. destruct (run_copy_spec src dst H) as [? E]. eexists. split; [done |]. by rewrite E. Qed.

Lemma expand_full : expand [mk_rle 0 65535] = seqZ 0 65536.
Proof. rewrite expand_cons, expand_nil, app_nil_r. unfold run_values. cbn [r_value r_length]. by change (65535 + 1) with 65536. Qed.

Lemma run_is_full_spec c : run_ok c -> rc_runs c <> [] ->
  run_container_is_full c = Some (bool_decide (expand (rc_runs c) = seqZ 0 65536)).
Proof.
  intros [Hok _] Hne. unfold run_container_is_full, n_runs. destruct (rc_runs c) as [|r l] eqn:E; [done |].
  f_equal. apply eq_true_iff_eq. rewrite bool_decide_eq_true. split.
  - intros Hb. assert (l = []) as -> by (destruct l; [done |]; rewrite !zlen_cons in Hb; pose proof (zlen_nonneg l); lia).
    destruct r as [v n]. cbn in Hb. replace v with 0 by lia. replace n with 65535 by lia. apply expand_full.
  - intros Hx. rewrite <- expand_full in Hx. apply expand_inj in Hx; [| done |].
    + by injection Hx as -> ->.
    + apply runs_ok_cons. split; [by unfold run_wf, r_max; cbn |]. split; [constructor | apply runs_ok_nil].
Qed.

(** A full container absorbs its union and is neutral for intersection. *)
Lemma union_full_l a b : strict b -> a = seqZ 0 65536 -> (forall x, x ∈ b -> in_u 16 x) -> union_loop a b = a.
Proof.
  intros Hb -> Hr. pose proof (seqZ_strict 0 65536). apply strict_ext; [by apply union_loop_strict | done |].
  intros x. rewrite elem_of_union_loop, elem_of_seqZ. specialize (Hr x). unfold in_u in Hr.
  change (2 ^ 16) with 65536 in Hr. split; [intros [? | Hx]; [done | specialize (Hr Hx); lia] | by left].
Qed.

Lemma inter_full_l a b : a = seqZ 0 65536 -> strict b -> (forall x, x ∈ b -> in_u 16 x) -> inter a b = b.
Proof.
  intros -> Hb Hr. apply strict_ext; [apply strict_filter, seqZ_strict | done |].
  intros x. rewrite elem_of_inter, elem_of_seqZ. specialize (Hr x). unfold in_u in Hr.
  change (2 ^ 16) with 65536 in Hr. split; [by intros [_ ?] | intros Hx; specialize (Hr Hx); split; [lia | done]].
Qed.

Lemma run_union_into_spec a b cap : runs_touch a -> runs_touch b -> a <> [] -> b <> [] -> zlen a + zlen b <= cap ->
  exists l, run_union_into a b (mk_run cap []) = Some (mk_run cap l) /\ runs_ok l /\ zlen l <= cap /\
    forall x, x ∈ expand l <-> x ∈ expand a \/ x ∈ expand b.
Proof.
  intros Ha Hb Na Nb Hcap. destruct a as [|x a]; [done |]. destruct b as [|y b]; [done |].
  rewrite !zlen_cons in Hcap. pose proof (zlen_nonneg a). pose proof (zlen_nonneg b).
  pose proof Ha as (Wa & _ & Ha')%runs_touch_cons. pose proof Hb as (Wb & _ & Hb')%runs_touch_cons.
  pose proof (runs_touch_starts _ _ Ha) as Ta. pose proof (runs_touch_starts _ _ Hb) as Tb.
  cbn [run_union_into]. unfold run_container_append_first.
  assert (forall r, run_wf r -> runs_ok ([] ++ [r])) as H1.
  { intros r Hr. apply runs_ok_snoc. split; [apply runs_ok_nil |]. split; [done | constructor]. }
  destruct (Z.leb_spec (r_value x) (r_value y)).
  - rewrite push_run_ok by (change (zlen []) with 0; lia). cbn [mbind option_bind].
    destruct (run_union_loop_spec a (y :: b) cap [] x) as (l & -> & O & Z & X); auto.
    { apply starts_from_cons. split; [lia |]. eapply starts_from_mono; [done | lia]. }
    { rewrite zlen_cons. change (zlen ([] ++ [x])) with 1. lia. }
    eexists. split; [done |]. split; [done |]. split; [done |]. intros z. rewrite X. cbn [app]. members.
  - rewrite push_run_ok by (change (zlen []) with 0; lia). cbn [mbind option_bind].
    destruct (run_union_loop_spec (x :: a) b cap [] y) as (l & -> & O & Z & X); auto.
    { apply starts_from_cons. split; [lia |]. eapply starts_from_mono; [done | lia]. }
    { rewrite zlen_cons. change (zlen ([] ++ [y])) with 1. lia. }
    eexists. split; [done |]. split; [done |]. split; [done |]. intros z. rewrite X. cbn [app]. members.
Qed.

Section binary.

Context (c1 c2 dst : run_container_t) (H1 : run_ok c1) (H2 : run_ok c2)
  (N1 : rc_runs c1 <> []) (N2 : rc_runs c2 <> []).

Let S1 := expand_strict _ (ro_runs _ H1).
Let S2 := expand_strict _ (ro_runs _ H2).
Let R1 := fun x => expand_range _ x (ro_runs _ H1).
Let R2 := fun x => expand_range _ x (ro_runs _ H2).

Lemma run_union_spec :
  run_result (run_container_union c1 c2 dst) (union_loop (expand (rc_runs c1)) (expand (rc_runs c2))).
Proof.
  unfold run_container_union. rewrite !run_is_full_spec by done. cbn [mbind option_bind].
  case_bool_decide as F1; [| case_bool_decide as F2].
  - rewrite union_full_l by done. by apply run_copy_result.
  - rewrite union_loop_comm, union_full_l by done. by apply run_copy_result.
  - destruct (ensure_runs_spec dst (n_runs c1 + n_runs c2)) as (cap & -> & Hcap).
    destruct (run_union_into_spec (rc_runs c1) (rc_runs c2) cap) as (l & -> & O & Z & X); try (apply runs_ok_touch; apply H1 || apply H2); try done.
    apply run_result_intro; [done | done | by apply union_loop_strict |].
    intros x. by rewrite X, elem_of_union_loop.
Qed.

Lemma run_union_inplace_spec :
  run_result (run_container_union_inplace c1 c2) (union_loop (expand (rc_runs c1)) (expand (rc_runs c2))).
Proof.
  unfold run_container_union_inplace. rewrite !run_is_full_spec by done. cbn [mbind option_bind].
  case_bool_decide as F1; [| case_bool_decide as F2].
  - rewrite union_full_l by done. eexists. by split.
  - rewrite union_loop_comm, union_full_l by done. by apply run_copy_result.
  - cbv zeta. set (src := if _ <? _ then _ else c1).
    assert (rc_runs src = rc_runs c1 /\ n_runs c1 + n_runs c2 + n_runs c1 <= rc_capacity src) as [-> Hroom].
    { unfold src. destruct (Z.ltb_spec (rc_capacity c1) (n_runs c1 + n_runs c2 + n_runs c1)); [| done].
      split; [done | apply run_grow_room]. }
    destruct (run_union_into_spec (rc_runs c1) (rc_runs c2) (n_runs c1 + n_runs c2)) as (l & -> & O & Z & X);
      try (apply runs_ok_touch; apply H1 || apply H2); try done.
    cbn [mbind option_bind rc_runs]. unfold n_runs in *. pose proof (zlen_nonneg (rc_runs c1)).
    apply run_result_intro; [done | lia | by apply union_loop_strict |].
    intros x. by rewrite X, elem_of_union_loop.
Qed.

End binary.

(** ** Symmetric difference

    The output is [d], the runs before the two cursors are those of the
    arguments that start before it; [e1] and [e2] are the ends of the last
    runs taken from each.  The last run of the output never starts after the
    next run to be taken. *)
Record xor_inv (d : list rle16_t) (e1 e2 : Z) (a b : list rle16_t) : Prop := {
  xi_out : runs_ok d;
  xi_a : runs_touch a;
  xi_b : runs_touch b;
  xi_last : forall d0 r, d = d0 ++ [r] ->
    r_max r + 1 <= Z.max e1 e2 /\ starts_from (r_value r) a /\ starts_from (r_value r) b;
  xi_after_a : starts_after (e1 - 2) a;
  xi_after_b : starts_after (e2 - 2) b;
}.

Lemma xor_inv_sym d e1 e2 a b : xor_inv d e1 e2 a b -> xor_inv d e2 e1 b a.
Proof.
  intros [? ? ? H ? ?]. constructor; try done. intros d0 r E. destruct (H d0 r E) as (? & ? & ?).
  split; [lia | done].
Qed.

Lemma xor_inv_snoc d r e1 e2 a b : runs_ok (d ++ [r]) -> runs_touch a -> runs_touch b ->
  r_max r + 1 <= Z.max e1 e2 -> starts_from (r_value r) a -> starts_from (r_value r) b ->
  starts_after (e1 - 2) a -> starts_after (e2 - 2) b -> xor_inv (d ++ [r]) e1 e2 a b.
Proof. intros. constructor; try done. intros d0 s [-> ->]%app_inj_tail. done. Qed.

(** One case of the step below: the runs stored at the end of the output are
    well formed and cover the symmetric difference. *)
Ltac close_step :=
  repeat match goal with
  | |- Some _ = Some _ => reflexivity
  | |- _ /\ _ => split
  | |- zlen _ <= _ => rewrite !zlen_snoc; lia
  | |- xor_inv (_ ++ [_]) _ _ _ _ => apply xor_inv_snoc; try done
  | |- runs_ok (_ ++ [_]) => apply runs_ok_snoc
  | |- run_wf _ => unfold run_wf, r_max; cbn [r_value r_length]
  | |- ends_before _ (_ ++ [_]) => apply ends_before_app
  | |- ends_before _ [_] => apply ends_before_cons
  | |- ends_before _ [] => constructor
  | Ed : ends_before _ ?d |- ends_before _ ?d => eapply ends_before_mono; [exact Ed | cbn [r_value r_length]; lia]
  | Fa : forall v, _ -> starts_from v ?a |- starts_from _ ?a => apply Fa; cbn [r_value r_length]; lia
  | Ey : forall y, y ∈ expand ?d -> _ |- forall z, _ => intros z; specialize (Ey z); revert Ey; members
  | |- _ => unfold r_max; cbn [r_value r_length]; first [done | lia]
  end.

Lemma smart_append_spec cap d e1 e2 x a b : xor_inv d e1 e2 (x :: a) b -> starts_from (r_value x) b ->
  zlen d < cap ->
  exists d', run_container_smart_append_exclusive (mk_run cap d) (r_value x) (r_length x) = Some (mk_run cap d') /\
    xor_inv d' (r_max x + 1) e2 a b /\ zlen d' <= zlen d + 1 /\
    forall z, z ∈ expand d' <->
      (z ∈ expand d /\ ~ (r_value x <= z <= r_max x)) \/ (~ (z ∈ expand d) /\ r_value x <= z <= r_max x).
Proof.
  intros [Hd Ha Hb Hlast Aa Ab] Hxb Hcap. pose proof Ha as ((X1 & X2 & X3) & Xa & Ha')%runs_touch_cons.
  apply starts_after_cons in Aa as [Aa _]. pose proof (runs_touch_starts _ _ Ha) as Ta.
  assert (starts_after (r_max x + 1 - 2) a) as Aa' by (eapply starts_after_mono; [exact Xa | lia]).
  unfold run_container_smart_append_exclusive. cbn [rc_runs].
  destruct d as [|r d _] using rev_ind.
  - cbn [last]. rewrite push_run_ok by done. exists ([] ++ [x]). split; [by destruct x |]. split; [| split; [done |]].
    + apply xor_inv_snoc; try done; [| lia]. apply runs_ok_snoc. by split; [apply runs_ok_nil | split; [| constructor]].
    + intros z. cbn [app]. members.
  - rewrite last_snoc. pose proof Hd as (Od & (R1 & R2 & R3) & Ed)%runs_ok_snoc.
    destruct (Hlast d r eq_refl) as (He & Va & Vb). apply starts_from_cons in Va as [Va _].
    assert (forall v, v <= r_max x + 1 -> starts_from v a) as Fa.
    { intros v Hv. eapply Forall_impl; [exact Xa | cbn; lia]. }
    assert (forall v, v <= e2 -> starts_from v b) as Fb.
    { intros v Hv. eapply Forall_impl; [exact Ab | cbn; lia]. }
    assert (forall y, y ∈ expand d -> y + 1 < r_value r) as Ey by (intros y; by apply ends_before_elem).
    unfold r_max in *. rewrite zlen_snoc in Hcap.
    destruct (Z.ltb_spec (r_value r + r_length r + 1) (r_value x)) as [L1 | L1].
    { rewrite push_run_ok by (rewrite zlen_snoc; lia). exists ((d ++ [r]) ++ [x]).
      replace (mk_rle (r_value x) (r_length x)) with x by by destruct x. close_step. }
    destruct (Z.eqb_spec (r_value r + r_length r + 1) (r_value x)) as [L2 | L2].
    { rewrite put_last_ok, u16_id by lia. eexists (d ++ [_]). close_step. }
    destruct (Z.eqb_spec (r_value x) (r_value r)) as [L3 | L3];
      (destruct (Z.ltb_spec (r_value x + r_length x + 1) (r_value r + r_length r + 1)) as [L4 | L4];
       [| destruct (Z.ltb_spec (r_value r + r_length r + 1) (r_value x + r_length x + 1)) as [L5 | L5]]).
    all: rewrite ?put_last_ok; cbn [mbind option_bind]; rewrite ?push_run_ok by (rewrite zlen_snoc; lia);
      rewrite ?u16_id by lia.
    1, 2, 6: eexists (d ++ [_]); close_step.
    2, 3: eexists ((d ++ [_]) ++ [_]); close_step.
    exists d. split; [unfold with_runs; cbn [rc_runs rc_capacity]; by rewrite removelast_last |].
    split; [| split; [rewrite zlen_snoc; lia | close_step]].
    constructor; try done. intros d0 s ->. apply ends_before_app in Ed as [_ [Es _]%ends_before_cons].
    destruct (runs_ok_snoc d0 s) as [Hs _]. destruct (Hs Od) as (_ & (? & ? & ?) & _). unfold r_max in *.
    split; [lia |]. split; [apply Fa | apply Fb]; lia.
Qed.

Lemma append_exclusive_all_spec a : forall cap d e1 e2, xor_inv d e1 e2 a [] -> zlen d + zlen a <= cap ->
  exists l, append_exclusive_all a (mk_run cap d) = Some (mk_run cap l) /\ runs_ok l /\ zlen l <= cap /\
    forall z, z ∈ expand l <-> (z ∈ expand d /\ ~ z ∈ expand a) \/ (~ (z ∈ expand d) /\ z ∈ expand a).
Proof.
  induction a as [|x a IH]; intros cap d e1 e2 I Hcap.
  - change (zlen []) with 0 in Hcap. exists d. split; [done |]. split; [apply I |]. split; [lia |]. intros z. members.
  - rewrite zlen_cons in Hcap. pose proof (zlen_nonneg a).
    pose proof (runs_touch_cons x a) as [Hx _]. destruct (Hx (xi_a _ _ _ _ _ I)) as (_ & Sx & _).
    destruct (smart_append_spec cap d e1 e2 x a []) as (d' & E & I' & Z & X); [done | constructor | lia |].
    cbn [append_exclusive_all]. rewrite E. cbn [mbind option_bind].
    destruct (IH cap d' _ _ I') as (l & -> & O & Zl & Xl); [lia |].
    eexists. split; [done |]. split; [done |]. split; [done |]. intros z. rewrite Xl, X.
    pose proof (starts_after_elem _ a z Sx) as Hz. unfold r_max in Hz. revert Hz. members.
Qed.

Lemma run_xor_loop_cons x a y b dst : run_xor_loop (x :: a) (y :: b) dst =
  if r_value x <=? r_value y then
    dst ← run_container_smart_append_exclusive dst (r_value x) (r_length x); run_xor_loop a (y :: b) dst
  else
    dst ← run_container_smart_append_exclusive dst (r_value y) (r_length y); run_xor_loop (x :: a) b dst.
Proof. done. Qed.

Lemma run_xor_loop_nil_l b dst : run_xor_loop [] b dst = append_exclusive_all b dst.
Proof. by destruct b. Qed.

Lemma run_xor_loop_nil_r a dst : run_xor_loop a [] dst = append_exclusive_all a dst.
Proof. destruct a; cbn; [done |]. destruct run_container_smart_append_exclusive; [| done]. cbn. by destruct append_exclusive_all. Qed.

Lemma expand_nil_false z : bool_decide (z ∈ expand []) = false.
Proof. apply bool_decide_eq_false. by intros ?%elem_of_expand_nil. Qed.

Lemma xor_decide A B `{!Decision A, !Decision B} :
  bool_decide ((A /\ ~ B) \/ (~ A /\ B)) = xorb (bool_decide A) (bool_decide B).
Proof. repeat case_bool_decide; cbn; tauto. Qed.

Lemma expand_cons_xor r l z : runs_touch (r :: l) -> bool_decide (z ∈ expand (r :: l)) =
  xorb (bool_decide (r_value r <= z <= r_max r)) (bool_decide (z ∈ expand l)).
Proof.
  intros (_ & Hs & _)%runs_touch_cons. pose proof (starts_after_elem _ l z Hs) as Hz.
  rewrite (bool_decide_ext _ _ (elem_of_expand_cons r l z)).
  repeat case_bool_decide; cbn; try tauto. exfalso. specialize (Hz ltac:(done)). lia.
Qed.

Lemma run_xor_loop_spec a b : forall cap d e1 e2, xor_inv d e1 e2 a b -> zlen d + zlen a + zlen b <= cap ->
  exists l, run_xor_loop a b (mk_run cap d) = Some (mk_run cap l) /\ runs_ok l /\ zlen l <= cap /\
    forall z, z ∈ expand l <-> xorb (bool_decide (z ∈ expand d))
      (xorb (bool_decide (z ∈ expand a)) (bool_decide (z ∈ expand b))) = true.
Proof.
  revert a b. apply (merge_runs_ind (fun a b => forall cap d e1 e2, _ -> _ -> _)).
  - intros b cap d e1 e2 I Hcap. change (zlen []) with 0 in Hcap. rewrite run_xor_loop_nil_l.
    destruct (append_exclusive_all_spec b cap d e2 e1) as (l & -> & O & Z & X); [by apply xor_inv_sym | lia |].
    eexists. split; [done |]. split; [done |]. split; [done |]. intros z. rewrite X.
    rewrite (expand_nil_false z).
    repeat case_bool_decide; cbn; intuition congruence.
  - intros a cap d e1 e2 I Hcap. change (zlen []) with 0 in Hcap. rewrite run_xor_loop_nil_r.
    destruct (append_exclusive_all_spec a cap d e1 e2 I) as (l & -> & O & Z & X); [lia |].
    eexists. split; [done |]. split; [done |]. split; [done |]. intros z. rewrite X.
    rewrite (expand_nil_false z).
    repeat case_bool_decide; cbn; intuition congruence.
  - intros x a y b I1 I2 _ cap d e1 e2 I Hcap. rewrite !zlen_cons in Hcap. rewrite run_xor_loop_cons.
    pose proof (zlen_nonneg a). pose proof (zlen_nonneg b).
    pose proof (runs_touch_starts _ _ (xi_a _ _ _ _ _ I)) as Ta. pose proof (runs_touch_starts _ _ (xi_b _ _ _ _ _ I)) as Tb.
    pose proof (xi_a _ _ _ _ _ I) as ((? & ? & ?) & Sx & _)%runs_touch_cons.
    pose proof (xi_b _ _ _ _ _ I) as ((? & ? & ?) & Sy & _)%runs_touch_cons.
    destruct (Z.leb_spec (r_value x) (r_value y)).
    + destruct (smart_append_spec cap d e1 e2 x a (y :: b)) as (d' & -> & I' & Z & X); [done | | lia |].
      { apply starts_from_cons. split; [done |]. by eapply starts_from_mono. }
      cbn [mbind option_bind]. destruct (I1 cap d' _ _ I') as (l & -> & O & Zl & Xl); [rewrite zlen_cons; lia |].
      eexists. split; [done |]. split; [done |]. split; [done |]. intros z. rewrite Xl.
      rewrite (bool_decide_ext _ _ (X z)), xor_decide, !expand_cons_xor by apply I.
      repeat case_bool_decide; done.
    + destruct (smart_append_spec cap d e2 e1 y b (x :: a)) as (d' & -> & I' & Z & X); [by apply xor_inv_sym | | lia |].
      { apply starts_from_cons. split; [lia |]. eapply starts_from_mono; [done | lia]. }
      cbn [mbind option_bind]. apply xor_inv_sym in I'.
      destruct (I2 cap d' _ _ I') as (l & -> & O & Zl & Xl); [rewrite zlen_cons; lia |].
      eexists. split; [done |]. split; [done |]. split; [done |]. intros z. rewrite Xl.
      rewrite (bool_decide_ext _ _ (X z)), xor_decide, !expand_cons_xor by apply I.
      repeat case_bool_decide; done.
Qed.

Lemma run_xor_spec c1 c2 dst : run_ok c1 -> run_ok c2 ->
  run_result (run_container_xor c1 c2 dst) (xor_uint16 (expand (rc_runs c1)) (expand (rc_runs c2))).
Proof.
  intros [O1 _] [O2 _]. unfold run_container_xor.
  destruct (ensure_runs_spec dst (n_runs c1 + n_runs c2)) as (cap & -> & Hcap).
  destruct (run_xor_loop_spec (rc_runs c1) (rc_runs c2) cap [] (-1) (-1)) as (l & -> & O & Z & X).
  - constructor; [apply runs_ok_nil | by apply runs_ok_touch | by apply runs_ok_touch | intros d0 r Hd; by destruct d0 | |].
    all: eapply Forall_impl; [eapply (proj1 O1) || eapply (proj1 O2) |]; unfold run_wf; cbn; lia.
  - change (zlen []) with 0. done.
  - pose proof (expand_strict _ O1). pose proof (expand_strict _ O2).
    apply run_result_intro; [done | done | by apply xor_strict |].
    intros z. rewrite X, elem_of_xor by done.
    rewrite (expand_nil_false z).
    repeat case_bool_decide; cbn; intuition congruence.
Qed.

(** ** Intersection

    The overlaps of two sequences of runs, in order: what
    [run_container_intersection] stores, [run_container_intersection_cardinality]
    counts and [run_container_intersect] looks for. *)
Definition overlap (x y : rle16_t) : rle16_t :=
  let start := Z.max (r_value x) (r_value y) in
  mk_rle start (Z.min (r_max x) (r_max y) - start).

Fixpoint overlaps (a : list rle16_t) : list rle16_t -> list rle16_t :=
  fix inner (b : list rle16_t) :=
    match a, b with
    | x :: a', y :: b' =>
      if r_max x <? r_value y then overlaps a' b
      else if r_max y <? r_value x then inner b'
      else overlap x y ::
        if r_max x =? r_max y then overlaps a' b'
        else if r_max x <? r_max y then overlaps a' b
        else inner b'
    | _, _ => []
    end.

Lemma overlaps_cons x a y b : overlaps (x :: a) (y :: b) =
  if r_max x <? r_value y then overlaps a (y :: b)
  else if r_max y <? r_value x then overlaps (x :: a) b
  else overlap x y ::
    if r_max x =? r_max y then overlaps a b
    else if r_max x <? r_max y then overlaps a (y :: b)
    else overlaps (x :: a) b.
Proof. done. Qed.

Lemma overlaps_nil_l b : overlaps [] b = [].
Proof. by destruct b. Qed.

Lemma overlaps_nil_r a : overlaps a [] = [].
Proof. by destruct a. Qed.

Lemma overlaps_from a b v : starts_from v a \/ starts_from v b -> starts_from v (overlaps a b).
Proof.
  revert a b. apply (merge_runs_ind (fun a b => _ -> _)).
  - intros b _. rewrite overlaps_nil_l. constructor.
  - intros a _. rewrite overlaps_nil_r. constructor.
  - intros x a y b I1 I2 I3 H. rewrite overlaps_cons.
    assert (starts_from v a \/ starts_from v (y :: b)) as H1 by (rewrite starts_from_cons in H; tauto).
    assert (starts_from v (x :: a) \/ starts_from v b) as H2 by (rewrite !starts_from_cons in *; tauto).
    assert (starts_from v a \/ starts_from v b) as H3 by (rewrite !starts_from_cons in *; tauto).
    repeat case_match; auto. all: apply starts_from_cons; split; auto.
    all: unfold overlap; cbn [r_value]; rewrite !starts_from_cons in H; lia.
Qed.

Lemma starts_after_from m l : starts_after m l <-> starts_from (m + 2) l.
Proof. split; intros H; (eapply Forall_impl; [exact H | cbn; lia]). Qed.

Lemma overlaps_ok a b : runs_ok a -> runs_ok b -> runs_ok (overlaps a b).
Proof.
  revert a b. apply (merge_runs_ind (fun a b => _ -> _ -> _)).
  - intros b _ _. rewrite overlaps_nil_l. apply runs_ok_nil.
  - intros a _ _. rewrite overlaps_nil_r. apply runs_ok_nil.
  - intros x a y b I1 I2 I3 Ha Hb. pose proof Ha as ((X1 & X2 & X3) & Xs & Ha')%runs_ok_cons.
    pose proof Hb as ((Y1 & Y2 & Y3) & Ys & Hb')%runs_ok_cons. rewrite overlaps_cons.
    rewrite starts_after_from in Xs, Ys. unfold r_max in Xs, Ys.
    assert (forall l, starts_from (r_max (overlap x y) + 2) l -> starts_after (r_max (overlap x y)) l) as Hsa
      by (intros l; by rewrite starts_after_from).
    unfold overlap, r_max in *. cbn [r_value r_length] in *.
    destruct (Z.ltb_spec (r_value x + r_length x) (r_value y)); [auto |].
    destruct (Z.ltb_spec (r_value y + r_length y) (r_value x)); [auto |].
    apply runs_ok_cons. split; [unfold run_wf, r_max; cbn; lia |].
    unfold r_max. cbn [r_value r_length].
    destruct (Z.eqb_spec (r_value x + r_length x) (r_value y + r_length y));
      [| destruct (Z.ltb_spec (r_value x + r_length x) (r_value y + r_length y))];
      (split; [| auto]); apply Hsa, overlaps_from.
    1, 2: left; eapply starts_from_mono; [exact Xs | lia].
    right; eapply starts_from_mono; [exact Ys | lia].
Qed.

Lemma overlaps_elem a b z : runs_ok a -> runs_ok b ->
  z ∈ expand (overlaps a b) <-> z ∈ expand a /\ z ∈ expand b.
Proof.
  revert a b. apply (merge_runs_ind (fun a b => _ -> _ -> _)).
  - intros b _ _. rewrite overlaps_nil_l. members.
  - intros a _ _. rewrite overlaps_nil_r. members.
  - intros x a y b I1 I2 I3 Ha Hb. pose proof Ha as ((X1 & X2 & X3) & Xs & Ha')%runs_ok_cons.
    pose proof Hb as ((Y1 & Y2 & Y3) & Ys & Hb')%runs_ok_cons. rewrite overlaps_cons.
    specialize (I1 Ha' Hb). specialize (I2 Ha Hb'). specialize (I3 Ha' Hb').
    pose proof (starts_after_elem _ a z Xs) as Xe. pose proof (starts_after_elem _ b z Ys) as Ye.
    revert I1 I2 I3 Xe Ye. unfold overlap, r_max in *. autorewrite with runs. unfold r_max.
    repeat case_match; autorewrite with runs; unfold r_max; cbn [r_value r_length]; abstract_members; lia.
Qed.

Lemma overlaps_length a b : zlen (overlaps a b) <= zlen a + zlen b.
Proof.
  revert a b. apply (merge_runs_ind (fun a b => _)).
  - intros b. rewrite overlaps_nil_l. pose proof (zlen_nonneg b). cbn. lia.
  - intros a. rewrite overlaps_nil_r. pose proof (zlen_nonneg a). cbn. lia.
  - intros x a y b I1 I2 I3. rewrite overlaps_cons. rewrite !zlen_cons in *.
    repeat case_match; rewrite ?zlen_cons; lia.
Qed.

Lemma expand_overlaps a b : runs_ok a -> runs_ok b -> expand (overlaps a b) = inter (expand a) (expand b).
Proof.
  intros Ha Hb. apply strict_ext; [by apply expand_strict, overlaps_ok | by apply strict_filter, expand_strict |].
  intros z. by rewrite overlaps_elem, elem_of_inter.
Qed.

Lemma push_all_spec l : forall cap d, zlen d + zlen l <= cap ->
  push_all l (mk_run cap d) = Some (mk_run cap (d ++ l)).
Proof.
  induction l as [|r l IH]; intros cap d Hcap; [by rewrite app_nil_r |]. rewrite zlen_cons in Hcap.
  pose proof (zlen_nonneg l). cbn [push_all]. rewrite push_run_ok by lia. cbn [mbind option_bind].
  rewrite IH by (rewrite zlen_snoc; lia). by rewrite <- app_assoc.
Qed.

Lemma run_intersection_loop_spec a b : forall dst, runs_ok a -> runs_ok b ->
  run_intersection_loop a b dst = push_all (overlaps a b) dst.
Proof.
  revert a b. apply (merge_runs_ind (fun a b => forall dst, _ -> _ -> _)).
  - intros b dst _ _. rewrite overlaps_nil_l. by destruct b.
  - intros a dst _ _. rewrite overlaps_nil_r. by destruct a.
  - intros x a y b I1 I2 I3 dst Ha Hb. pose proof Ha as ((X1 & X2 & X3) & _ & Ha')%runs_ok_cons.
    pose proof Hb as ((Y1 & Y2 & Y3) & _ & Hb')%runs_ok_cons. rewrite overlaps_cons.
    change (run_intersection_loop (x :: a) (y :: b) dst) with
      (let start := r_value x in
       let end_ := start + r_length x + 1 in
       let xstart := r_value y in
       let xend := xstart + r_length y + 1 in
       if end_ <=? xstart then run_intersection_loop a (y :: b) dst
       else if xend <=? start then run_intersection_loop (x :: a) b dst
       else
         let lateststart := if xstart <? start then start else xstart in
         let earliestend := if end_ <? xend then end_ else xend in
         dst ← push_run dst (mk_rle (u16 lateststart) (u16 (earliestend - lateststart - 1)));
         if end_ =? xend then run_intersection_loop a b dst
         else if end_ <? xend then run_intersection_loop a (y :: b) dst
         else run_intersection_loop (x :: a) b dst).
    cbv zeta. unfold r_max in *.
    destruct (Z.leb_spec (r_value x + r_length x + 1) (r_value y)), (Z.ltb_spec (r_value x + r_length x) (r_value y));
      try lia; [by apply I1 |].
    destruct (Z.leb_spec (r_value y + r_length y + 1) (r_value x)), (Z.ltb_spec (r_value y + r_length y) (r_value x));
      try lia; [by apply I2 |].
    cbn [push_all].
    replace (mk_rle (u16 _) _) with (overlap x y); cycle 1.
    { unfold overlap, r_max. f_equal; [symmetry; rewrite u16_id by (case_match; lia); case_match; lia |].
      symmetry. rewrite u16_id by (repeat case_match; lia). repeat case_match; lia. }
    destruct (push_run dst (overlap x y)) as [dst'|]; [| done]. cbn [mbind option_bind].
    replace (r_value x + r_length x + 1 =? _) with (r_value x + r_length x =? r_value y + r_length y) by lia.
    replace (r_value x + r_length x + 1 <? _) with (r_value x + r_length x <? r_value y + r_length y) by lia.
    repeat case_match; auto.
Qed.

Lemma zlen_overlap x y : run_wf x -> run_wf y -> r_value y <= r_max x -> r_value x <= r_max y ->
  zlen (run_values (overlap x y)) = Z.min (r_max x) (r_max y) - Z.max (r_value x) (r_value y) + 1.
Proof.
  intros (? & ? & ?) (? & ? & ?) ? ?. rewrite zlen_run_values; [unfold overlap; cbn; lia |].
  unfold run_wf, overlap, r_max in *. cbn. lia.
Qed.

Lemma run_intersection_card_loop_spec a b : forall n, runs_ok a -> runs_ok b ->
  run_intersection_card_loop a b n = n + zlen (expand (overlaps a b)).
Proof.
  revert a b. apply (merge_runs_ind (fun a b => forall n, _ -> _ -> _)).
  - intros b n _ _. rewrite overlaps_nil_l, expand_nil. change (zlen []) with 0. destruct b; cbn; lia.
  - intros a n _ _. rewrite overlaps_nil_r, expand_nil. change (zlen []) with 0. destruct a; cbn; lia.
  - intros x a y b I1 I2 I3 n Ha Hb. pose proof Ha as (Wx & _ & Ha')%runs_ok_cons.
    pose proof Hb as (Wy & _ & Hb')%runs_ok_cons. rewrite overlaps_cons.
    change (run_intersection_card_loop (x :: a) (y :: b) n) with
      (let start := r_value x in
       let end_ := start + r_length x + 1 in
       let xstart := r_value y in
       let xend := xstart + r_length y + 1 in
       if end_ <=? xstart then run_intersection_card_loop a (y :: b) n
       else if xend <=? start then run_intersection_card_loop (x :: a) b n
       else
         let lateststart := if xstart <? start then start else xstart in
         let earliestend := if end_ <? xend then end_ else xend in
         let answer := n + (earliestend - lateststart) in
         if end_ =? xend then run_intersection_card_loop a b answer
         else if end_ <? xend then run_intersection_card_loop a (y :: b) answer
         else run_intersection_card_loop (x :: a) b answer).
    cbv zeta. pose proof (zlen_overlap x y Wx Wy) as Ho. unfold r_max in *.
    destruct (Z.leb_spec (r_value x + r_length x + 1) (r_value y)), (Z.ltb_spec (r_value x + r_length x) (r_value y));
      try lia; [by apply I1 |].
    destruct (Z.leb_spec (r_value y + r_length y + 1) (r_value x)), (Z.ltb_spec (r_value y + r_length y) (r_value x));
      try lia; [by apply I2 |].
    rewrite expand_cons, zlen_app, Ho by lia.
    repeat case_match; try lia; rewrite ?I1, ?I2, ?I3 by done; lia.
Qed.

Lemma run_intersect_loop_spec a b : run_intersect_loop a b = bool_decide (overlaps a b <> []).
Proof.
  revert a b. apply (merge_runs_ind (fun a b => _)).
  - intros b. rewrite overlaps_nil_l. by destruct b.
  - intros a. rewrite overlaps_nil_r. by destruct a.
  - intros x a y b I1 I2 _. rewrite overlaps_cons.
    change (run_intersect_loop (x :: a) (y :: b)) with
      (if r_value x + r_length x + 1 <=? r_value y then run_intersect_loop a (y :: b)
       else if r_value y + r_length y + 1 <=? r_value x then run_intersect_loop (x :: a) b else true).
    unfold r_max.
    destruct (Z.leb_spec (r_value x + r_length x + 1) (r_value y)), (Z.ltb_spec (r_value x + r_length x) (r_value y));
      try lia; try done.
    destruct (Z.leb_spec (r_value y + r_length y + 1) (r_value x)), (Z.ltb_spec (r_value y + r_length y) (r_value x));
      try lia; try done.
Qed.

Section intersections.

Context (c1 c2 dst : run_container_t) (H1 : run_ok c1) (H2 : run_ok c2)
  (N1 : rc_runs c1 <> []) (N2 : rc_runs c2 <> []).

Let S1 := expand_strict _ (ro_runs _ H1).
Let S2 := expand_strict _ (ro_runs _ H2).
Let R1 := fun x => expand_range _ x (ro_runs _ H1).
Let R2 := fun x => expand_range _ x (ro_runs _ H2).

Lemma rd_first (l : list rle16_t) : l <> [] -> exists r, rd l 0 = Some r.
Proof. destruct l as [|r l]; [done |]. by exists r. Qed.

Lemma run_intersection_spec :
  run_result (run_container_intersection c1 c2 dst) (inter (expand (rc_runs c1)) (expand (rc_runs c2))).
Proof.
  unfold run_container_intersection. rewrite !run_is_full_spec by done. cbn [mbind option_bind].
  case_bool_decide as F1; [| case_bool_decide as F2].
  - rewrite inter_full_l by done. by apply run_copy_result.
  - rewrite inter_comm, inter_full_l by done. by apply run_copy_result.
  - destruct (rd_first _ N1) as [r ->], (rd_first _ N2) as [s ->]. cbn [mbind option_bind].
    destruct (ensure_runs_spec dst (n_runs c1 + n_runs c2)) as (cap & -> & Hcap).
    pose proof (overlaps_length (rc_runs c1) (rc_runs c2)) as Hlen. unfold n_runs in Hcap.
    rewrite run_intersection_loop_spec, push_all_spec by (apply H1 || apply H2 || (change (zlen []) with 0; lia)).
    eexists. split; [done |]. split; [| by rewrite <- expand_overlaps by (apply H1 || apply H2)].
    constructor; [apply overlaps_ok; [apply H1 | apply H2] | cbn; lia].
Qed.

Lemma run_intersection_cardinality_spec :
  run_container_intersection_cardinality c1 c2 = Some (zlen (inter (expand (rc_runs c1)) (expand (rc_runs c2)))).
Proof.
  unfold run_container_intersection_cardinality. rewrite !run_is_full_spec by done. cbn [mbind option_bind].
  case_bool_decide as F1; [| case_bool_decide as F2].
  - by rewrite inter_full_l, run_cardinality_spec by done.
  - by rewrite inter_comm, inter_full_l, run_cardinality_spec by done.
  - destruct (rd_first _ N1) as [r ->], (rd_first _ N2) as [s ->]. cbn [mbind option_bind].
    by rewrite run_intersection_card_loop_spec, expand_overlaps by (apply H1 || apply H2).
Qed.

Lemma run_empty_false c : rc_runs c <> [] -> negb (run_container_empty c) = true.
Proof.
  intros Hne. unfold run_container_empty, n_runs. destruct (rc_runs c); [done |]. rewrite zlen_cons.
  pose proof (zlen_nonneg l). lia.
Qed.

Lemma run_values_ne l : runs_ok l -> expand l = [] -> l = [].
Proof.
  intros Hok E. destruct l as [|r l]; [done |]. apply runs_ok_cons in Hok as [(? & ? & ?) _].
  assert (r_value r ∈ expand (r :: l)) as Hin by (autorewrite with runs; unfold r_max; lia). rewrite E in Hin.
  by apply elem_of_nil in Hin.
Qed.

Lemma run_intersect_spec :
  run_container_intersect c1 c2 = Some (bool_decide (inter (expand (rc_runs c1)) (expand (rc_runs c2)) <> [])).
Proof.
  unfold run_container_intersect. rewrite !run_is_full_spec by done. cbn [mbind option_bind].
  case_bool_decide as F1; [| case_bool_decide as F2].
  - rewrite inter_full_l, run_empty_false, bool_decide_eq_true_2 by done || (by intros ?%run_values_ne; [| apply H2]). done.
  - rewrite inter_comm, inter_full_l, run_empty_false, bool_decide_eq_true_2 by done || (by intros ?%run_values_ne; [| apply H1]). done.
  - destruct (rd_first _ N1) as [r ->], (rd_first _ N2) as [s ->]. cbn [mbind option_bind].
    rewrite run_intersect_loop_spec. f_equal. apply bool_decide_ext.
    rewrite <- expand_overlaps by (apply H1 || apply H2).
    split; intros H E; apply H; [by apply run_values_ne; [apply overlaps_ok; [apply H1 | apply H2] |] | by rewrite E].
Qed.

End intersections.

(** ** Difference *)

(** 1 when the first run of [runs2] ends before [start]: the next step of the
    loop drops it. *)
Definition spent (runs2 : list rle16_t) (start : Z) : Z :=
  match runs2 with
  | y :: _ => if r_max y + 1 <=? start then 1 else 0
  | [] => 0
  end.

Lemma spent_bound b s : 0 <= spent b s <= 1.
Proof. destruct b; cbn; [lia |]. case_match; lia. Qed.

(** The current run of the first argument: what is left of [x] is
    [start, r_max x]. *)
Record andnot_inv (d : list rle16_t) (x : rle16_t) (a b : list rle16_t) (start : Z) : Prop := {
  ai_out : runs_ok d;
  ai_a : runs_ok (x :: a);
  ai_b : runs_touch b;
  ai_start : r_value x <= start <= r_max x;
  ai_before : ends_before start d;
}.

Lemma andnot_push d x a b start stop : andnot_inv d x a b start -> start < stop <= r_max x + 1 ->
  let r := mk_rle start (stop - start - 1) in
  mk_rle (u16 start) (u16 (stop - start - 1)) = r /\ runs_ok (d ++ [r]) /\
  (forall v, stop < v -> ends_before v (d ++ [r])) /\
  forall z, z ∈ expand (d ++ [r]) <-> z ∈ expand d \/ start <= z < stop.
Proof.
  intros [Od Oa _ [S1 S2] Ed] Hs r. apply runs_ok_cons in Oa as ((X1 & X2 & X3) & _ & _). unfold r_max in *.
  unfold r. split; [by rewrite !u16_id by lia |]. split.
  - apply runs_ok_snoc. split; [done |]. split; [unfold run_wf, r_max; cbn; lia | done].
  - split; [| intros z; members]. intros v Hv. apply ends_before_app. split; [eapply ends_before_mono; [done | lia] |].
    constructor; [unfold r_max; cbn; lia | constructor].
Qed.

(** What the loop has to return from a state of its invariant. *)
Definition andnot_goal (cap : Z) (d : list rle16_t) (o : option run_container_t) (P : Z -> Prop) : Prop :=
  exists l, o = Some (mk_run cap l) /\ runs_ok l /\ zlen l <= cap /\
    forall z, z ∈ expand l <-> z ∈ expand d \/ P z.

Lemma andnot_goal_ext cap d d' o P P' : andnot_goal cap d' o P' ->
  (forall z, z ∈ expand d' \/ P' z <-> z ∈ expand d \/ P z) -> andnot_goal cap d o P.
Proof.
  intros (l & -> & O & Z & X) H. eexists. split; [done |]. split; [done |]. split; [done |]. intros z. by rewrite X.
Qed.

Definition andnot_loop_ok (fuel : nat) : Prop := forall cap d x a b start, andnot_inv d x a b start ->
  2 * (zlen (x :: a) + zlen b) - spent b start < Z.of_nat fuel ->
  zlen d + zlen (x :: a) + zlen b - spent b start <= cap ->
  andnot_goal cap d (run_andnot_loop fuel (x :: a) b start (r_max x + 1) (mk_run cap d))
    (fun z => (start <= z <= r_max x \/ z ∈ expand a) /\ ~ (z ∈ expand b)).

(** The current run is used up: the loop goes on with the next one. *)
Lemma andnot_next fuel cap d x a b start old : andnot_loop_ok fuel -> runs_ok d -> runs_ok (x :: a) -> runs_touch b ->
  (forall v, r_max x + 1 < v -> ends_before v d) ->
  2 * (zlen a + zlen b) < Z.of_nat fuel -> zlen d + zlen a + zlen b <= cap ->
  andnot_goal cap d (let '(start, end_) := run_bounds a (start, old) in
    run_andnot_loop fuel a b start end_ (mk_run cap d)) (fun z => z ∈ expand a /\ ~ z ∈ expand b).
Proof.
  intros IH Od Oa Ob Ed Hf Hcap. pose proof (zlen_nonneg b). apply runs_ok_cons in Oa as (_ & Xs & Oa).
  destruct a as [|x' a]; cbn [run_bounds].
  - change (zlen []) with 0 in *. destruct fuel; [lia |]. cbn [run_andnot_loop]. exists d. split; [done |].
    split; [done |]. split; [lia |]. intros z. members.
  - pose proof Oa as ((? & ? & ?) & _ & _)%runs_ok_cons. apply starts_after_cons in Xs as [Xs _].
    pose proof (spent_bound b (r_value x')).
    replace (r_value x' + r_length x' + 1) with (r_max x' + 1) by done.
    eapply andnot_goal_ext; [apply IH; [constructor; try done; [unfold r_max in *; lia | apply Ed; lia] | lia | lia] |].
    intros z. members.
Qed.

(** Two runs overlap: the part before the overlap is stored, the part after
    it stays. *)
Lemma andnot_overlap fuel cap d x a y b start : andnot_loop_ok fuel -> andnot_inv d x a (y :: b) start ->
  r_value y <= r_max x -> start <= r_max y ->
  2 * (zlen (x :: a) + zlen (y :: b)) < Z.of_nat (S fuel) -> zlen d + zlen (x :: a) + zlen (y :: b) <= cap ->
  andnot_goal cap d
    (dst ← (if start <? r_value y
            then push_run (mk_run cap d) (mk_rle (u16 start) (u16 (r_value y - start - 1)))
            else Some (mk_run cap d));
     if r_max y + 1 <? r_max x + 1 then run_andnot_loop fuel (x :: a) (y :: b) (r_max y + 1) (r_max x + 1) dst
     else
       let '(start, end_) := run_bounds a (start, r_max x + 1) in
       run_andnot_loop fuel a (y :: b) start end_ dst)
    (fun z => (start <= z <= r_max x \/ z ∈ expand a) /\ ~ (z ∈ expand (y :: b))).
Proof.
  intros IH I Hyx Hsy Hf Hcap. pose proof I as [Od Oa Ob [T1 T2] Ed].
  pose proof Oa as ((X1 & X2 & X3) & Xs & Oa')%runs_ok_cons. pose proof Ob as ((Y1 & Y2 & Y3) & Ys & Ob')%runs_touch_cons.
  assert (forall z, z ∈ expand a -> r_max x + 1 < z) as Ea by (intros z; by apply starts_after_elem).
  assert (forall z, z ∈ expand b -> r_max y < z) as Eb by (intros z Hz; pose proof (starts_after_elem _ b z Ys Hz); lia).
  rewrite !zlen_cons in Hf, Hcap. pose proof (zlen_nonneg a). pose proof (zlen_nonneg b).
  assert (exists d1, (if start <? r_value y
            then push_run (mk_run cap d) (mk_rle (u16 start) (u16 (r_value y - start - 1)))
            else Some (mk_run cap d)) = Some (mk_run cap d1) /\ runs_ok d1 /\ zlen d1 <= zlen d + 1 /\
            (forall v, Z.max start (r_value y) < v -> ends_before v d1) /\
            forall z, z ∈ expand d1 <-> z ∈ expand d \/ start <= z < r_value y) as (d1 & -> & O1 & Z1 & E1 & V1).
  { destruct (Z.ltb_spec start (r_value y)).
    - destruct (andnot_push _ _ _ _ _ (r_value y) I) as (-> & O1 & E1 & V1); [lia |].
      rewrite push_run_ok by lia. eexists. split; [done |]. split; [done |]. rewrite zlen_snoc. split; [lia |].
      split; [intros v Hv; apply E1; lia | done].
    - exists d. split; [done |]. split; [done |]. split; [lia |]. split; [| intros z; abstract_members; lia].
      intros v Hv. eapply ends_before_mono; [done | lia]. }
  cbn [mbind option_bind]. unfold r_max in *. destruct (Z.ltb_spec (r_value y + r_length y + 1) (r_value x + r_length x + 1)).
  - eapply andnot_goal_ext; [apply IH |].
    + constructor; try done; [unfold r_max; lia | apply E1; lia].
    + rewrite !zlen_cons. cbn [spent]. unfold r_max. rewrite (proj2 (Z.leb_le _ _)) by lia. lia.
    + rewrite !zlen_cons. cbn [spent]. unfold r_max. rewrite (proj2 (Z.leb_le _ _)) by lia. lia.
    + intros z. rewrite V1. specialize (Ea z). specialize (Eb z). revert Ea Eb. members.
  - eapply andnot_goal_ext; [eapply (andnot_next _ _ _ x); try done; [intros v Hv; apply E1; unfold r_max in *; lia | |] |].
    + rewrite zlen_cons. lia.
    + rewrite zlen_cons. lia.
    + intros z. rewrite V1. specialize (Ea z). specialize (Eb z). revert Ea Eb. members.
Qed.

Lemma run_andnot_loop_spec fuel : andnot_loop_ok fuel.
Proof.
  induction fuel as [|fuel IH]; intros cap d x a b start I Hf Hcap.
  { pose proof (spent_bound b start). rewrite zlen_cons in Hf. pose proof (zlen_nonneg a). pose proof (zlen_nonneg b). lia. }
  pose proof I as [Od Oa Ob [T1 T2] Ed]. pose proof Oa as ((X1 & X2 & X3) & Xs & Oa')%runs_ok_cons.
  pose proof (zlen_nonneg a) as Za. cbn [run_andnot_loop]. destruct b as [|y b].
  - rewrite zlen_cons in Hf, Hcap. cbn [spent] in *. change (zlen []) with 0 in *.
    destruct (andnot_push _ _ _ _ _ (r_max x + 1) I) as (-> & O1 & E1 & V1); [lia |].
    rewrite push_run_ok by lia. cbn [mbind option_bind]. rewrite push_all_spec by (rewrite zlen_snoc; lia).
    eexists. split; [done |]. split; [| split; [rewrite zlen_app, zlen_snoc; lia |]].
    + eapply (runs_ok_app _ _ (r_max x + 2)); [done | done | apply E1; lia |].
      eapply starts_after_mono; [done | lia].
    + intros z. rewrite elem_of_expand_app, V1. members.
  - cbn [spent] in *. pose proof Ob as ((Y1 & Y2 & Y3) & Ys & Ob')%runs_touch_cons. pose proof (zlen_nonneg b) as Zb.
    assert (forall z, z ∈ expand a -> r_max x + 1 < z) as Ea by (intros z; by apply starts_after_elem).
    assert (forall z, z ∈ expand b -> r_max y < z) as Eb by (intros z Hz; pose proof (starts_after_elem _ b z Ys Hz); lia).
    replace (r_value y + r_length y + 1) with (r_max y + 1) by done.
    destruct (Z.leb_spec (r_max x + 1) (r_value y)); [| destruct (Z.leb_spec (r_max y + 1) start)].
    + destruct (andnot_push _ _ _ _ _ (r_max x + 1) I) as (-> & O1 & E1 & V1); [lia |].
      rewrite (proj2 (Z.leb_gt _ _)) in Hf, Hcap by (unfold r_max in *; lia). rewrite !zlen_cons in Hf, Hcap.
      rewrite push_run_ok by lia. cbn [mbind option_bind].
      eapply andnot_goal_ext; [eapply (andnot_next _ _ _ x); try done; rewrite ?zlen_snoc, ?zlen_cons; lia |].
      intros z. rewrite V1. specialize (Ea z). specialize (Eb z). unfold r_max in *. revert Ea Eb. members.
    + rewrite !zlen_cons in *. pose proof (spent_bound b start).
      eapply andnot_goal_ext; [apply IH; [by constructor | rewrite zlen_cons; lia | rewrite zlen_cons; lia] |].
      intros z. specialize (Ea z). specialize (Eb z). unfold r_max in *. revert Ea Eb. members.
    + apply andnot_overlap; try done; try lia.
Qed.

Lemma run_andnot_spec c1 c2 dst : run_ok c1 -> run_ok c2 -> rc_runs c1 <> [] -> rc_runs c2 <> [] ->
  run_result (run_container_andnot c1 c2 dst) (minus (expand (rc_runs c1)) (expand (rc_runs c2))).
Proof.
  intros [O1 _] [O2 _] N1 N2. unfold run_container_andnot, n_runs.
  destruct (rc_runs c1) as [|x a] eqn:E1; [done |]. destruct (rd_first _ N2) as [y ->].
  change (rd (x :: a) 0) with (Some x). cbn [mbind option_bind].
  destruct (ensure_runs_spec dst (zlen (x :: a) + zlen (rc_runs c2))) as (cap & -> & Hcap).
  pose proof O1 as ((? & ? & ?) & _ & _)%runs_ok_cons. pose proof (spent_bound (rc_runs c2) (r_value x)).
  destruct (run_andnot_loop_spec (S (2 * (length (x :: a) + length (rc_runs c2)))) cap [] x a (rc_runs c2) (r_value x))
    as (l & E & O & Z & X).
  - constructor; try done; [apply runs_ok_nil | by apply runs_ok_touch | unfold r_max; lia | constructor].
  - unfold zlen. lia.
  - change (zlen []) with 0. lia.
  - unfold r_max in E. rewrite E. apply run_result_intro; [done | done | apply strict_filter, expand_strict, O1 |].
    intros z. rewrite X, elem_of_minus. members.
Qed.
