(* ===== verification/RoaringRunContainer.v ===== *)
(** * Roaring bitmaps: what the run container guarantees

    The lemmas on runs, ranges and merges, put together as the properties of
    [run_container_t], with the byte formats of the three container types. *)

From stdpp Require Import base list list_numbers numbers option sorting.
From Stdlib Require Import ZArith Lia ZifyBool.
From S2P Require Import Prelude.
From S2P Require Import RoaringArrays.
From S2P Require Import RoaringArrayContainer.
From S2P Require Import RoaringArrayFacts.
From S2P Require Import RoaringBitset.
From S2P Require Import RoaringBitsetFacts.
From S2P Require Import RoaringBitsetOps.
From S2P Require Import RoaringBitsetContainer.
From S2P Require Import RoaringRun.
From S2P Require Import RoaringRunFacts.
From S2P Require Import RoaringRunOps.
From S2P Require Import RoaringRunRange.
From S2P Require Import RoaringRunSets.

Local Open Scope Z_scope.

(** The values of a run container. *)
Definition rc_elems (c : run_container_t) : list Z := expand (rc_runs c).

Definition demo_run1 : run_container_t := mk_run 4 [mk_rle 3 4; mk_rle 20 0; mk_rle 65000 535].
Definition demo_run2 : run_container_t := mk_run 4 [mk_rle 0 2; mk_rle 5 60].

Lemma demo_runs_ok : run_ok demo_run1 /\ run_ok demo_run2.
Proof.
  assert (forall c, forallb (fun r => (0 <=? r_value r) && (0 <=? r_length r) && (r_max r <=? 65535)) (rc_runs c) = true ->
    StronglySorted apart (rc_runs c) -> zlen (rc_runs c) <= rc_capacity c -> run_ok c) as H.
  { intros c Hw Hs Hr. constructor; [split |]; [| done | done]. apply Forall_forall. intros r Hin.
    rewrite forallb_forall in Hw. specialize (Hw r ltac:(by apply list_elem_of_In)). unfold run_wf. lia. }
  split; apply H; try (vm_compute; done).
  all: cbn; repeat first [apply SSorted_nil | apply Forall_nil; exact I | apply SSorted_cons
    | apply Forall_cons; split; [unfold apart, r_max; cbn; lia |]].
Qed.

(** The run container is a set of 16-bit values kept as maximal runs.  On
    runs that are in range, sorted and separated by at least one missing value,
    [run_container_add] and [run_container_remove] (which extend, merge, cut or
    split a run), [run_container_add_range] and [run_container_remove_range]
    leave such runs, within the capacity, with the values of the set operation;
    [contains], [contains_range], [cardinality] and [rank] answer from the set. *)
Theorem run_container_set run : run_ok run ->
  let a := rc_elems run in
  (forall x, in_u 16 x ->
     (exists r, run_container_add run x = Some (bool_decide (x ∉ a), r) /\ run_ok r /\ rc_elems r = union_loop a [x]) /\
     (exists r, run_container_remove run x = Some (bool_decide (x ∈ a), r) /\ run_ok r /\ rc_elems r = minus a [x]) /\
     run_container_contains run x = Some (bool_decide (x ∈ a)) /\
     run_container_rank run x = zlen (filter (fun y => y <= x) a)) /\
  (forall m x, 0 <= m <= x -> x <= 65535 ->
     (exists r, run_container_add_range run m x = Some r /\ run_ok r /\ rc_elems r = union_loop a (seqZ m (x + 1 - m))) /\
     (exists r, run_container_remove_range run m x = Some r /\ run_ok r /\ rc_elems r = minus a (seqZ m (x + 1 - m))) /\
     exists r, run_container_contains_range run m (x + 1) = Some r /\ (r = true <-> forall y, m <= y <= x -> y ∈ a)) /\
  run_container_cardinality run = zlen a /\ strict a.
Proof.
  intros H a. split; [| split; [| split]].
  - intros x Hx. split; [by apply run_add_spec |]. split; [by apply run_remove_spec |].
    split; [by apply run_contains_spec |]. rewrite run_rank_spec by done. unfold lb. f_equal.
    apply filter_ext_in. intros. lia.
  - intros m x Hm Hx. split; [by apply run_add_range_spec |]. split; [by apply run_remove_range_spec |].
    destruct (run_contains_range_spec run m (x + 1) H) as (r & -> & Hr); [lia | lia |].
    exists r. split; [done |]. rewrite Hr. split; intros Hall y Hy; apply Hall; lia.
  - by apply run_cardinality_spec.
  - apply expand_strict, H.
Qed.

Lemma run_container_set_witness :
  run_ok demo_run1 /\
  exists r, run_container_remove_range demo_run1 5 65100 = Some r /\ run_ok r /\
    rc_runs r = [mk_rle 3 1; mk_rle 65101 434].
Proof.
  destruct demo_runs_ok as [H _]. split; [exact H |].
  destruct (run_container_set demo_run1 H) as (_ & Hr & _).
  destruct (Hr 5 65100 ltac:(lia) ltac:(lia)) as (_ & (r & E & O & _) & _).
  exists r. split; [exact E |]. split; [exact O |]. vm_compute in E. injection E as <-. reflexivity.
Defined.

(** The merges of run containers.  For non-empty well-formed containers,
    [run_container_union] (and its in-place form, which reads the runs it has
    moved to the end of the buffer it writes), [run_container_xor],
    [run_container_intersection] and [run_container_andnot] write a well-formed
    container with the union, symmetric difference, intersection and difference
    of the values, never past the capacity they reserve, and their loops end;
    [intersection_cardinality] and [intersect] return its size and whether it
    is non-empty. *)
Theorem run_container_merges c1 c2 dst : run_ok c1 -> run_ok c2 -> rc_runs c1 <> [] -> rc_runs c2 <> [] ->
  let a := rc_elems c1 in
  let b := rc_elems c2 in
  run_result (run_container_union c1 c2 dst) (union_loop a b) /\
  run_result (run_container_union_inplace c1 c2) (union_loop a b) /\
  run_result (run_container_xor c1 c2 dst) (xor_uint16 a b) /\
  run_result (run_container_intersection c1 c2 dst) (inter a b) /\
  run_result (run_container_andnot c1 c2 dst) (minus a b) /\
  run_container_intersection_cardinality c1 c2 = Some (zlen (inter a b)) /\
  run_container_intersect c1 c2 = Some (bool_decide (inter a b <> [])).
Proof.
  intros H1 H2 N1 N2 a b. split; [by apply run_union_spec |]. split; [by apply run_union_inplace_spec |].
  split; [by apply run_xor_spec |]. split; [by apply run_intersection_spec |]. split; [by apply run_andnot_spec |].
  split; [by apply run_intersection_cardinality_spec | by apply run_intersect_spec].
Qed.

Lemma run_container_merges_witness :
  run_ok demo_run1 /\ run_ok demo_run2 /\
  exists r, run_container_xor demo_run1 demo_run2 run_container_create = Some r /\ run_ok r /\
    rc_runs r = [mk_rle 0 4; mk_rle 8 11; mk_rle 21 44; mk_rle 65000 535].
Proof.
  destruct demo_runs_ok as [H1 H2]. split; [exact H1 |]. split; [exact H2 |].
  destruct (run_container_merges demo_run1 demo_run2 run_container_create H1 H2) as (_ & _ & (r & E & O & _) & _);
    [intros H; inversion H | intros H; inversion H |].
  exists r. split; [exact E |]. split; [exact O |]. vm_compute in E. injection E as <-. reflexivity.
Defined.

(** Runs are canonical.  Two well-formed run containers that hold the same
    values hold the same runs, so that [run_container_equals], which compares
    the runs as bytes, decides equality of the sets; the runs start exactly at
    the values whose predecessor is missing, so [n_runs] is the count that
    [array_container_number_of_runs] and [bitset_container_number_of_runs]
    compute from the other representations; and [run_container_is_subset]
    decides inclusion. *)
Theorem run_container_canonical c1 c2 : run_ok c1 -> run_ok c2 ->
  (rc_elems c1 = rc_elems c2 -> rc_runs c1 = rc_runs c2) /\
  run_container_equals c1 c2 = bool_decide (rc_elems c1 = rc_elems c2) /\
  (run_container_is_subset c1 c2 = true <-> forall x, x ∈ rc_elems c1 -> x ∈ rc_elems c2) /\
  (forall arr, array_ok arr -> ac_array arr = rc_elems c1 -> array_container_number_of_runs arr = n_runs c1) /\
  (forall b, bitset_wf b -> bc_elems b = rc_elems c1 -> bitset_container_number_of_runs b = Some (n_runs c1)).
Proof.
  intros H1 H2.
  assert (zlen (run_starts (rc_elems c1)) = n_runs c1) as Hn.
  { unfold rc_elems. rewrite run_starts_expand by apply H1. unfold n_runs, zlen. by rewrite length_fmap. }
  split; [intros E; by apply expand_inj; [apply H1 | apply H2 |] |]. split; [by apply run_equals_spec |].
  split; [by apply run_is_subset_spec |]. split.
  - intros arr Ha E. rewrite array_number_of_runs_spec by done. by rewrite E.
  - intros b Hb E. rewrite bitset_number_of_runs_spec by done. by rewrite E, Hn.
Qed.

Lemma run_container_canonical_witness :
  run_ok demo_run1 /\ run_ok demo_run2 /\ rc_elems demo_run1 <> rc_elems demo_run2.
Proof.
  destruct demo_runs_ok as [H1 H2]. split; [exact H1 |]. split; [exact H2 |]. intros E.
  destruct (run_container_canonical demo_run1 demo_run2 H1 H2) as [Hc _]. specialize (Hc E). discriminate Hc.
Defined.

(** The byte formats of the containers.  What [array_container_write],
    [bitset_container_write] and [run_container_write] (the portable format of
    a bitmap) put in a buffer is read back by the [_read] functions, which
    consume exactly the bytes written; what the [_serialize] functions write
    the [_deserialize] functions restore, capacity apart. *)
Theorem container_bytes_roundtrip arr b run rest : array_ok arr -> bitset_ok b -> run_ok run ->
  (forall c, exists r, array_container_read (array_container_cardinality arr) c (array_container_write arr ++ rest) =
     Some (r, zlen (array_container_write arr)) /\ array_ok r /\ ac_array r = ac_array arr) /\
  bitset_container_read (bc_cardinality b) (bitset_container_write b ++ rest) =
    Some (b, zlen (bitset_container_write b)) /\
  (forall c, exists r, run_container_read c (run_container_write run ++ rest) =
     Some (r, zlen (run_container_write run)) /\ run_ok r /\ rc_runs r = rc_runs run /\ rc_elems r = rc_elems run) /\
  (zlen (ac_array arr) < 65536 ->
   array_container_deserialize (array_container_serialize arr) = Some (mk_array (zlen (ac_array arr)) (ac_array arr))) /\
  bitset_container_deserialize (bitset_container_serialize b) = Some b /\
  (rc_capacity run < 2 ^ 31 -> run_container_deserialize (run_container_serialize run) = Some run).
Proof.
  intros Ha Hb Hr. split; [| split; [by apply bitset_read_write, Hb |]].
  { intros c. destruct (array_read_write c arr rest Ha) as (r & E & Er & Or). by exists r. }
  split.
  { intros c. destruct (run_read_write c run rest Hr) as (r & E & O & Er). exists r. unfold rc_elems. by rewrite Er. }
  split; [by apply array_deserialize_serialize |].
  split; [by apply bitset_deserialize_serialize | by apply run_deserialize_serialize].
Qed.

Lemma container_bytes_roundtrip_witness :
  run_ok demo_run1 /\ run_container_deserialize (run_container_serialize demo_run1) = Some demo_run1.
Proof.
  destruct demo_runs_ok as [H1 _]. split; [exact H1 |].
  destruct (container_bytes_roundtrip demo_array1 bitset_container_create demo_run1 []
    (proj1 demo_arrays_ok) (proj1 bitset_create_ok) H1) as (_ & _ & _ & _ & _ & H).
  apply H. reflexivity.
Defined.
