(* ===== verification/RoaringConvert.v ===== *)
(** * Roaring bitmaps: conversions between containers

    [src/containers/convert.c] of the amalgamation [src/src/datastruct/roaring.c].
    A [void*] with its type code is a value of [container_t]; the functions
    that return a container and store its type code return such a value.
    Freeing the source of a conversion is not modelled. *)

From stdpp Require Import base list list_numbers numbers option sorting.
From Stdlib Require Import ZArith Lia.
From S2P Require Import Prelude.
From S2P Require Import RoaringArrays.
From S2P Require Import RoaringArrayContainer.
From S2P Require Import RoaringBitset.
From S2P Require Import RoaringRun.

Local Open Scope Z_scope.

(** [BITSET_CONTAINER_TYPE_CODE], [ARRAY_CONTAINER_TYPE_CODE] and
    [RUN_CONTAINER_TYPE_CODE]. *)
Inductive container_t :=
| Bitset (b : bitset_container_t)
| Array (a : array_container_t)
| Run (r : run_container_t).

Definition BITSET_CONTAINER_TYPE_CODE : Z := 1.
Definition ARRAY_CONTAINER_TYPE_CODE : Z := 2.
Definition RUN_CONTAINER_TYPE_CODE : Z := 3.

Definition type_code (c : container_t) : Z :=
  match c with
  | Bitset _ => BITSET_CONTAINER_TYPE_CODE
  | Array _ => ARRAY_CONTAINER_TYPE_CODE
  | Run _ => RUN_CONTAINER_TYPE_CODE
  end.

Definition bitset_container_serialized_size_in_bytes : Z := BITSET_CONTAINER_SIZE_IN_WORDS * 8.

(** ** To a bitset *)

Fixpoint set_values (l : list Z) (b : bitset_container_t) : option bitset_container_t :=
  match l with
  | [] => Some b
  | x :: l => b ← bitset_container_set b x; set_values l b
  end.

Definition bitset_container_from_array (a : array_container_t) : option bitset_container_t :=
  set_values (ac_array a) bitset_container_create.

Fixpoint set_runs (l : list rle16_t) (words : list Z) : option (list Z) :=
  match l with
  | [] => Some words
  | vl :: l => words ← bitset_set_lenrange words (r_value vl) (r_length vl); set_runs l words
  end.

Definition bitset_container_from_run (arr : run_container_t) : option bitset_container_t :=
  let card := run_container_cardinality arr in
  words ← set_runs (rc_runs arr) (bc_array bitset_container_create);
  Some (mk_bitset card words).

Definition bitset_container_from_run_range (run : run_container_t) (min max : Z) :
    option bitset_container_t :=
  words ← set_runs (rc_runs run) (bc_array bitset_container_create);
  let union_cardinality := sum_lengths (rc_runs run) (n_runs run) in
  let union_cardinality := i32 (union_cardinality + (max - min + 1)) in
  c ← bitset_lenrange_cardinality words min (max - min);
  let union_cardinality := i32 (union_cardinality - c) in
  words ← bitset_set_lenrange words min (max - min);
  Some (mk_bitset union_cardinality words).

(** ** To an array *)

(** The values the inner loops over the runs store. *)
Definition run_fill (l : list rle16_t) : list Z :=
  l ≫= fun r => u16 <$> seqZ (r_value r) (r_length r + 1).

Definition array_container_from_run (arr : run_container_t) : option array_container_t :=
  store_array (array_container_create_given_capacity (run_container_cardinality arr))
    (run_fill (rc_runs arr)).

(** [cardinality] is copied: the values stored have to be that many. *)
Definition array_container_from_bitset (bits : bitset_container_t) : option array_container_t :=
  l ← bitset_extract_setbits_uint16 (bc_array bits) 0;
  if zlen l =? bc_cardinality bits then Some (mk_array (bc_cardinality bits) l) else None.

(** ** To runs *)

Definition add_run (r : run_container_t) (s e : Z) : option run_container_t :=
  push_run r (mk_rle (u16 s) (u16 (e - s))).

Fixpoint from_array_loop (l : list Z) (prev run_start : Z) (answer : run_container_t) :
    option run_container_t :=
  match l with
  | [] => add_run answer run_start prev
  | cur_val :: l =>
    if negb (cur_val =? prev + 1) then
      answer ← (if negb (run_start =? -1) then add_run answer run_start prev else Some answer);
      from_array_loop l cur_val cur_val answer
    else from_array_loop l cur_val run_start answer
  end.

Definition run_container_from_array (c : array_container_t) : option run_container_t :=
  let n_runs := array_container_number_of_runs c in
  let answer := run_container_create_given_capacity n_runs in
  if array_container_cardinality c =? 0 then Some answer
  else from_array_loop (ac_array c) (-2) (-1) answer.

(** [while(cur_word == v && long_ctr < 1023) cur_word = array[++long_ctr]] *)
Fixpoint skip_words (fuel : nat) (v : Z) (words : list Z) (long_ctr cur_word : Z) : option (Z * Z) :=
  match fuel with
  | O => None
  | S fuel =>
    if (cur_word =? v) && (long_ctr <? BITSET_CONTAINER_SIZE_IN_WORDS - 1) then
      w ← rd words (long_ctr + 1);
      skip_words fuel v words (long_ctr + 1) w
    else Some (long_ctr, cur_word)
  end.

Definition word_fuel : nat := S (Z.to_nat BITSET_CONTAINER_SIZE_IN_WORDS).

Fixpoint from_bitset_loop (fuel : nat) (words : list Z) (long_ctr cur_word : Z)
    (answer : run_container_t) : option run_container_t :=
  match fuel with
  | O => None
  | S fuel =>
    '(long_ctr, cur_word) ← skip_words word_fuel 0 words long_ctr cur_word;
    if cur_word =? 0 then Some answer
    else
      let local_run_start := ctz cur_word in
      let run_start := local_run_start + 64 * long_ctr in
      let cur_word_with_1s := Z.lor cur_word (cur_word - 1) in
      '(long_ctr, cur_word_with_1s) ← skip_words word_fuel ones64 words long_ctr cur_word_with_1s;
      if cur_word_with_1s =? ones64 then
        let run_end := 64 + long_ctr * 64 in
        add_run answer run_start (run_end - 1)
      else
        let local_run_end := ctz (not64 cur_word_with_1s) in
        let run_end := local_run_end + long_ctr * 64 in
        answer ← add_run answer run_start (run_end - 1);
        from_bitset_loop fuel words long_ctr
          (Z.land cur_word_with_1s (u64 (cur_word_with_1s + 1))) answer
  end.

(** ** The smallest representation *)

Definition convert_run_to_efficient_container (c : run_container_t) : option container_t :=
  let size_as_run_container := run_container_serialized_size_in_bytes (n_runs c) in
  let size_as_bitset_container := bitset_container_serialized_size_in_bytes in
  let card := run_container_cardinality c in
  let size_as_array_container := array_container_serialized_size_in_bytes card in
  let min_size_non_run :=
    if size_as_bitset_container <? size_as_array_container
    then size_as_bitset_container else size_as_array_container in
  if size_as_run_container <=? min_size_non_run then Some (Run c)
  else if card <=? DEFAULT_MAX_SIZE then
    answer ← store_array (array_container_create_given_capacity card) (run_fill (rc_runs c));
    Some (Array answer)
  else
    words ← foldl (fun words r => words ← words;
                     bitset_set_range words (r_value r) (r_value r + r_length r + 1))
              (Some (bc_array bitset_container_create)) (rc_runs c);
    Some (Bitset (mk_bitset card words)).

(** The caller frees [c] when the answer is another container. *)
Definition convert_run_to_efficient_container_and_free := convert_run_to_efficient_container.

Definition convert_run_optimize (c : container_t) : option container_t :=
  match c with
  | Run c => convert_run_to_efficient_container c
  | Array c_qua_array =>
    let n_runs := array_container_number_of_runs c_qua_array in
    let size_as_run_container := run_container_serialized_size_in_bytes n_runs in
    let card := array_container_cardinality c_qua_array in
    let size_as_array_container := array_container_serialized_size_in_bytes card in
    if size_as_array_container <=? size_as_run_container then Some (Array c_qua_array)
    else
      answer ← from_array_loop (ac_array c_qua_array) (-2) (-1)
                 (run_container_create_given_capacity n_runs);
      Some (Run answer)
  | Bitset c_qua_bitset =>
    n_runs ← bitset_container_number_of_runs c_qua_bitset;
    let size_as_run_container := run_container_serialized_size_in_bytes n_runs in
    let size_as_bitset_container := bitset_container_serialized_size_in_bytes in
    if size_as_bitset_container <=? size_as_run_container then Some (Bitset c_qua_bitset)
    else
      cur_word ← rd (bc_array c_qua_bitset) 0;
      answer ← from_bitset_loop (S (Z.to_nat n_runs)) (bc_array c_qua_bitset) 0 cur_word
                 (run_container_create_given_capacity n_runs);
      Some (Run answer)
  end.

(** [for(uint16_t run_value = run_start; run_value <= run_end; ++run_value)]:
    the counter is 16 bits wide. *)
Fixpoint fill16 (fuel : nat) (run_value run_end : Z) (answer : array_container_t) :
    option array_container_t :=
  match fuel with
  | O => None
  | S fuel =>
    if run_value <=? run_end then
      answer ← store_array answer (ac_array answer ++ [run_value]);
      fill16 fuel (u16 (run_value + 1)) run_end answer
    else Some answer
  end.

Fixpoint fill_runs (l : list rle16_t) (answer : array_container_t) : option array_container_t :=
  match l with
  | [] => Some answer
  | r :: l =>
    answer ← fill16 (S (S (Z.to_nat (ac_capacity answer)))) (r_value r)
               (u16 (r_value r + r_length r)) answer;
    fill_runs l answer
  end.

Definition convert_to_bitset_or_array_container (r : run_container_t) (card : Z) : option container_t :=
  if card <=? DEFAULT_MAX_SIZE then
    answer ← fill_runs (rc_runs r) (array_container_create_given_capacity card);
    Some (Array answer)
  else
    words ← set_runs (rc_runs r) (bc_array bitset_container_create);
    Some (Bitset (mk_bitset card words)).
