(* ===== verification/RoaringConvertFacts.v ===== *)
(** * Roaring bitmaps: conversions keep the values

    Every conversion of [RoaringConvert] returns a well-formed container with
    the values of its argument, and the type that the size rule of the code
    chooses. *)

From stdpp Require Import base list list_numbers numbers option sorting.
From Stdlib Require Import ZArith Lia ZifyBool.
From S2P Require Import Prelude.
From S2P Require Import RoaringArrays.
From S2P Require Import RoaringArrayContainer.
From S2P Require Import RoaringArrayFacts.
From S2P Require Import RoaringBitset.
From S2P Require Import RoaringBitsetFacts.
From S2P Require Import RoaringBitsetOps.
From S2P Require Import RoaringBitsetContainer.
From S2P Require Import RoaringRun.
From S2P Require Import RoaringRunFacts.
From S2P Require Import RoaringRunOps.
From S2P Require Import RoaringRunSets.
From S2P Require Import RoaringRunContainer.
From S2P Require Import RoaringConvert.

Local Open Scope Z_scope.

(** ** Containers as sets *)

Definition container_elems (c : container_t) : list Z :=
  match c with
  | Bitset b => bc_elems b
  | Array a => ac_array a
  | Run r => rc_elems r
  end.

Definition container_ok (c : container_t) : Prop :=
  match c with
  | Bitset b => bitset_ok b
  | Array a => array_ok a
  | Run r => run_ok r
  end.

(** The type the code chooses by cardinality: arrays hold at most 4096
    values, bitsets more. *)
Definition sized (c : container_t) : Prop :=
  match c with
  | Bitset b => DEFAULT_MAX_SIZE < zlen (bc_elems b)
  | Array a => zlen (ac_array a) <= DEFAULT_MAX_SIZE
  | Run _ => True
  end.

(** What a container operation returns: the values [l], in a well-formed
    container of the right type. *)
Definition container_result (o : option container_t) (l : list Z) : Prop :=
  exists c, o = Some c /\ container_ok c /\ sized c /\ container_elems c = l.

Lemma container_sorted c : container_ok c -> sorted16 (container_elems c).
Proof.
  destruct c; cbn; intros H; [apply bc_elems_sorted, H | by apply array_ok_sorted | apply expand_sorted, H].
Qed.

Lemma container_strict c : container_ok c -> strict (container_elems c).
Proof. intros H. apply container_sorted, H. Qed.

Lemma sorted16_elem l x : sorted16 l -> x ∈ l -> in_u 16 x.
Proof. intros [_ H] Hx. rewrite Forall_forall in H. auto. Qed.

Lemma sorted16_union_ext a b l : sorted16 l -> strict a -> strict b -> (forall x, x ∈ l <-> x ∈ a \/ x ∈ b) ->
  l = union_loop a b.
Proof.
  intros [Hl _] Ha Hb H. apply strict_ext; [done | by apply union_loop_strict |].
  intros x. by rewrite H, elem_of_union_loop.
Qed.

(** ** Arrays and bitsets *)

Lemma set_values_spec l : forall b, bitset_ok b -> Forall (in_u 16) l ->
  exists b', set_values l b = Some b' /\ bitset_ok b' /\ forall x, x ∈ bc_elems b' <-> x ∈ bc_elems b \/ x ∈ l.
Proof.
  induction l as [|y l IH]; intros b Hb Hl.
  - exists b. split; [done |]. split; [done |]. intros x. rewrite elem_of_nil. tauto.
  - apply Forall_cons in Hl as [Hy Hl]. destruct (bitset_set_spec b y Hb Hy) as (b1 & E & O1 & E1).
    cbn [set_values]. rewrite E. cbn [mbind option_bind].
    destruct (IH b1 O1 Hl) as (b2 & -> & O2 & E2). exists b2. split; [done |]. split; [done |].
    intros x. rewrite E2, E1, union_one_elem, elem_of_cons. tauto.
Qed.

Lemma bitset_from_array_spec a : array_ok a ->
  bitset_result (bitset_container_from_array a) (ac_array a).
Proof.
  intros Ha. destruct bitset_create_ok as [Hc Ec].
  destruct (set_values_spec (ac_array a) _ Hc) as (b & E & Hb & X); [apply Ha |].
  exists b. split; [done |]. split; [done |]. apply strict_ext; [apply bc_elems_strict | apply Ha |].
  intros x. rewrite X, Ec, elem_of_nil. tauto.
Qed.

Lemma array_from_bitset_spec b : bitset_ok b -> array_result (array_container_from_bitset b) (bc_elems b).
Proof.
  intros Hb. pose proof (bo_wf _ Hb) as W. unfold array_container_from_bitset.
  rewrite bitset_extract_setbits_uint16_spec by (apply W || (rewrite (bw_length _ W); lia)).
  cbn [mbind option_bind]. fold (bc_elems b). rewrite bc_card_elems by done.
  rewrite Z.eqb_refl. eexists. split; [done |]. split; [done |].
  constructor; cbn; [apply bc_elems_strict | apply bc_elems_sorted, W | lia].
Qed.

(** The bitset becomes an array when it holds at most 4096 values. *)
Lemma to_sized_spec b l : bitset_ok b -> bc_elems b = l ->
  container_result (if bc_cardinality b <=? DEFAULT_MAX_SIZE
                    then a ← array_container_from_bitset b; Some (Array a) else Some (Bitset b)) l.
Proof.
  intros Hb <-. rewrite bc_card_elems by done. destruct (Z.leb_spec (zlen (bc_elems b)) DEFAULT_MAX_SIZE).
  - destruct (array_from_bitset_spec b Hb) as (a & -> & Ea & Oa). cbn [mbind option_bind].
    exists (Array a). split; [done |]. split; [done |]. split; [cbn; by rewrite Ea | done].
  - exists (Bitset b). by repeat split; try apply Hb.
Qed.

(** ** Runs and bitsets *)

Lemma set_runs_spec l : forall ws, words_ok ws -> zlen ws = 1024 -> Forall run_wf l ->
  exists ws', set_runs l ws = Some ws' /\ words_ok ws' /\ zlen ws' = 1024 /\
    forall x, x ∈ elems ws' <-> x ∈ elems ws \/ x ∈ expand l.
Proof.
  induction l as [|r l IH]; intros ws Hw Hl Hr.
  - exists ws. split; [done |]. split; [done |]. split; [done |]. intros x. rewrite elem_of_expand_nil. tauto.
  - apply Forall_cons in Hr as [(R1 & R2 & R3) Hr]. unfold r_max in R3.
    destruct (set_lenrange_result ws (r_value r) (r_length r)) as (ws1 & E & L1 & W1 & E1); [done | lia.. |].
    cbn [set_runs]. rewrite E. cbn [mbind option_bind].
    destruct (IH ws1 W1 ltac:(lia) Hr) as (ws2 & -> & W2 & L2 & E2). exists ws2.
    split; [done |]. split; [done |]. split; [done |]. intros x.
    rewrite E2, E1, elem_of_union_loop, elem_of_seqZ. members.
Qed.

Lemma create_words : exists b, bitset_container_create = b /\ words_ok (bc_array b) /\
  zlen (bc_array b) = 1024 /\ bc_elems b = [].
Proof.
  destruct bitset_create_ok as [[[H1 H2] _] H3]. exists bitset_container_create.
  split; [reflexivity |]. split; [exact H2 |]. split; [exact H1 | exact H3].
Qed.

Lemma words_bitset_ok ws l : words_ok ws -> zlen ws = 1024 -> elems ws = l -> bitset_ok (mk_bitset (zlen l) ws).
Proof. intros Hw Hl <-. constructor; [by constructor |]. done. Qed.

Lemma set_runs_fresh r : run_ok r ->
  exists ws, set_runs (rc_runs r) (bc_array bitset_container_create) = Some ws /\ words_ok ws /\ zlen ws = 1024 /\
    elems ws = rc_elems r.
Proof.
  intros Hr. destruct create_words as (b & -> & W & L & E). unfold bc_elems in E.
  destruct (set_runs_spec (rc_runs r) _ W L) as (ws & -> & W' & L' & X); [apply Hr |].
  exists ws. split; [done |]. split; [done |]. split; [done |].
  apply strict_ext; [apply elems_strict | apply expand_strict, Hr |]. intros x. rewrite X, E, elem_of_nil. tauto.
Qed.

Lemma bitset_from_run_spec r : run_ok r -> bitset_result (bitset_container_from_run r) (rc_elems r).
Proof.
  intros Hr. unfold bitset_container_from_run. destruct (set_runs_fresh r Hr) as (ws & -> & W & L & E).
  cbn [mbind option_bind]. rewrite run_cardinality_spec by done. eexists. split; [done |].
  split; [by apply words_bitset_ok | done].
Qed.

Lemma run_fill_expand l : Forall run_wf l -> run_fill l = expand l.
Proof.
  induction l as [|r l IH]; intros H; [done |]. apply Forall_cons in H as [(R1 & R2 & R3) H].
  unfold run_fill in *. cbn [mbind list_bind]. rewrite IH by done. unfold expand. cbn [mbind list_bind]. f_equal.
  unfold run_values. apply map_u16_id. unfold r_max in R3.
  replace (r_length r + 1) with (r_value r + r_length r + 1 - r_value r) by lia. apply seqZ_u16; lia.
Qed.

Lemma array_from_run_spec r : run_ok r -> array_result (array_container_from_run r) (rc_elems r).
Proof.
  intros Hr. unfold array_container_from_run. rewrite run_cardinality_spec, run_fill_expand by (done || apply Hr).
  destruct (store_array_ok (array_container_create_given_capacity (zlen (expand (rc_runs r)))) (expand (rc_runs r)))
    as (c & E & Ec & Oc); [apply expand_sorted, Hr | done |]. by exists c.
Qed.

(** ** From an array to runs *)

(** The runs of a sorted array, of which [start, prev] is the first seen so
    far. *)
Fixpoint group_runs (l : list Z) (prev start : Z) : list rle16_t :=
  match l with
  | [] => [mk_rle start (prev - start)]
  | x :: l =>
    if x =? prev + 1 then group_runs l x start
    else mk_rle start (prev - start) :: group_runs l x x
  end.

Lemma group_runs_spec l : forall prev start, 0 <= start <= prev -> prev <= 65535 -> strict (prev :: l) ->
  Forall (in_u 16) l ->
  runs_ok (group_runs l prev start) /\ starts_from start (group_runs l prev start) /\
  forall x, x ∈ expand (group_runs l prev start) <-> start <= x <= prev \/ x ∈ l.
Proof.
  induction l as [|y l IH]; intros prev start Hs Hp Hst Hl; cbn [group_runs].
  - split; [apply runs_ok_cons; split; [unfold run_wf, r_max; cbn; lia | split; [constructor | apply runs_ok_nil]] |].
    split; [by constructor |]. intros x. rewrite elem_of_nil. members.
  - apply Forall_cons in Hl as [Hy Hl]. unfold in_u in Hy. change (2 ^ 16) with 65536 in Hy.
    assert (prev < y) as Hlt by (eapply strict_head; [exact Hst | apply elem_of_cons; by left]).
    pose proof (strict_tail _ _ Hst) as Hst'.
    destruct (Z.eqb_spec y (prev + 1)) as [-> |].
    + destruct (IH (prev + 1) start) as (O & F & X); [lia | lia | done | done |].
      split; [done |]. split; [done |]. intros x. rewrite X, elem_of_cons. members.
    + destruct (IH y y) as (O & F & X); [lia | lia | done | done |].
      split; [| split].
      * apply runs_ok_cons. split; [unfold run_wf, r_max; cbn; lia |]. split; [| done].
        apply starts_after_from. eapply starts_from_mono; [exact F |]. unfold r_max. cbn. lia.
      * apply starts_from_cons. split; [done |]. eapply starts_from_mono; [exact F | lia].
      * intros x. rewrite elem_of_expand_cons, X, elem_of_cons. members.
Qed.

Lemma from_array_loop_eq l : forall prev start ans, 0 <= start <= prev -> prev <= 65535 -> strict (prev :: l) ->
  Forall (in_u 16) l ->
  from_array_loop l prev start ans = push_all (group_runs l prev start) ans.
Proof.
  induction l as [|y l IH]; intros prev start ans Hs Hp Hst Hl; cbn [group_runs from_array_loop].
  - unfold add_run. rewrite !u16_id by lia. cbn [push_all]. by destruct push_run.
  - apply Forall_cons in Hl as [Hy Hl]. unfold in_u in Hy. change (2 ^ 16) with 65536 in Hy.
    assert (prev < y) as Hlt by (eapply strict_head; [exact Hst | apply elem_of_cons; by left]).
    pose proof (strict_tail _ _ Hst) as Hst'. destruct (Z.eqb_spec y (prev + 1)) as [-> |]; cbn [negb].
    + apply IH; (done || lia).
    + rewrite (proj2 (Z.eqb_neq start (-1))) by lia. cbn [negb push_all]. unfold add_run. rewrite !u16_id by lia.
      destruct push_run as [ans'|]; [| done]. cbn [mbind option_bind]. apply IH; (done || lia).
Qed.

Lemma from_array_loop_spec a n : sorted16 a -> a <> [] -> n = zlen (run_starts a) ->
  exists r, from_array_loop a (-2) (-1) (run_container_create_given_capacity n) = Some r /\ run_ok r /\ rc_elems r = a.
Proof.
  intros [Hst Hb] Hne ->. destruct a as [|x l]; [done |]. pose proof Hb as [Hx Hl]%Forall_cons.
  unfold in_u in Hx. change (2 ^ 16) with 65536 in Hx.
  destruct (group_runs_spec l x x) as (O & _ & X); [lia | lia | done | done |].
  assert (expand (group_runs l x x) = x :: l) as E.
  { apply strict_ext; [by apply expand_strict | done |]. intros z. rewrite X, elem_of_cons. members. }
  assert (zlen (run_starts (x :: l)) = zlen (group_runs l x x)) as ->.
  { rewrite <- E, run_starts_expand by done. unfold zlen. by rewrite length_fmap. }
  cbn [from_array_loop]. replace (x =? -2 + 1) with false by lia. change (-1 =? -1) with true. cbn [negb mbind option_bind].
  rewrite from_array_loop_eq by (done || lia). unfold run_container_create_given_capacity.
  rewrite push_all_spec by done. eexists. split; [done |]. split; [by constructor | done].
Qed.

Lemma run_from_array_spec a : array_ok a -> exists r, run_container_from_array a = Some r /\ run_ok r /\ rc_elems r = ac_array a.
Proof.
  intros Ha. unfold run_container_from_array, array_container_cardinality. rewrite array_number_of_runs_spec by done.
  destruct (ac_array a) as [|x l] eqn:E.
  - eexists. split; [done |]. split; [by constructor; [apply runs_ok_nil |] | done].
  - replace (zlen (x :: l) =? 0) with false by (rewrite zlen_cons; pose proof (zlen_nonneg l); lia).
    apply from_array_loop_spec; [rewrite <- E; by apply array_ok_sorted | done | done].
Qed.

(** ** Roaring bitmaps: from a bitset to runs

    [convert_run_optimize] turns a bitset into runs by jumping over words that
    are all zeros or all ones and by finding the ends of a run inside a word
    with [ctz], [w | (w - 1)] and [w & (w + 1)].  The loop is proved to return
    the runs of the set. *)


(** ** Bit tricks *)

Lemma testbit_opp v n : 0 < v -> 0 <= n ->
  Z.testbit (- v) n = if n <? ctz v then false else if n =? ctz v then true else negb (Z.testbit v n).
Proof.
  intros Hv Hn. destruct (ctz_odd v Hv) as (m & Hm & Hc & E).
  assert (v = (2 * m + 1) * 2 ^ ctz v) as Ev by lia. assert (- v = (- (2 * m + 1)) * 2 ^ ctz v) as En by lia.
  rewrite En. rewrite Ev at 4. clear E Ev En. generalize dependent (ctz v). intros k Hk.
  rewrite !Z.mul_pow2_bits by lia. replace (- (2 * m + 1)) with (Z.lnot (2 * m)) by (unfold Z.lnot; lia).
  destruct (Z.ltb_spec n k); [by rewrite Z.testbit_neg_r by lia |].
  rewrite Z.lnot_spec by lia. destruct (Z.eqb_spec n k) as [-> |].
  - replace (k - k) with 0 by lia. by rewrite Z.testbit_even_0.
  - replace (n - k) with (Z.succ (n - k - 1)) by lia.
    by rewrite Z.testbit_odd_succ, Z.testbit_even_succ by lia.
Qed.

(** [w | (w - 1)] fills the bits below the lowest. *)
Lemma fill_low w n : 0 < w -> 0 <= n -> Z.testbit (Z.lor w (w - 1)) n = (n <? ctz w) || Z.testbit w n.
Proof.
  intros Hw Hn. rewrite Z.lor_spec. replace (w - 1) with (Z.lnot (- w)) by (unfold Z.lnot; lia).
  rewrite Z.lnot_spec, testbit_opp by done. destruct (ctz_testbit w Hw) as (_ & Hb & Hlow).
  destruct (Z.ltb_spec n (ctz w)); [by rewrite orb_true_r |].
  destruct (Z.eqb_spec n (ctz w)) as [-> |]; [by rewrite Hb |]. rewrite negb_involutive. by rewrite orb_diag.
Qed.

Lemma in_u64_fill w : in_u 64 w -> 0 < w -> in_u 64 (Z.lor w (w - 1)).
Proof. intros Hw Hp. apply in_u_lor; [lia | done |]. unfold in_u in *. lia. Qed.

Lemma not64_eq w : in_u 64 w -> not64 w = 2 ^ 64 - 1 - w.
Proof.
  intros Hw. unfold not64, u64, uwrap. unfold in_u in Hw. unfold Z.lnot. symmetry. apply Z.mod_unique_pos with (-1); lia.
Qed.

Lemma not64_pos w : in_u 64 w -> w <> ones64 -> 0 < not64 w.
Proof. intros Hw Hne. rewrite not64_eq by done. unfold in_u, ones64 in *. lia. Qed.

(** [w & (w + 1)] clears the ones at the low end. *)
Lemma clear_low w n : in_u 64 w -> w <> ones64 -> 0 <= n < 64 ->
  Z.testbit (Z.land w (u64 (w + 1))) n = (ctz (not64 w) <? n) && Z.testbit w n.
Proof.
  intros Hw Hne Hn. set (v := not64 w).
  pose proof (not64_eq w Hw) as Ev. pose proof (not64_pos w Hw Hne) as Hv. fold v in Ev, Hv.
  assert (u64 (w + 1) = u64 (- v)) as ->.
  { unfold u64, uwrap. replace (w + 1) with (- v + 1 * 2 ^ 64) by lia. by rewrite Z.mod_add by lia. }
  rewrite Z.land_spec, testbit_u64, testbit_opp by lia. rewrite (proj2 (Z.ltb_lt n 64)) by lia. rewrite andb_true_r.
  assert (Z.testbit v n = negb (Z.testbit w n)) as Hvn by (unfold v; by rewrite testbit_not64).
  destruct (ctz_testbit v Hv) as (_ & Hb & _).
  destruct (Z.ltb_spec n (ctz v)); [rewrite (proj2 (Z.ltb_ge _ _)) by lia; by rewrite andb_false_r |].
  destruct (Z.eqb_spec n (ctz v)) as [-> |].
  - rewrite Z.ltb_irrefl, andb_true_r. rewrite Hb in Hvn. by destruct (Z.testbit w _).
  - rewrite (proj2 (Z.ltb_lt (ctz v) n)) by lia. rewrite Hvn, negb_involutive. by rewrite andb_diag.
Qed.

Lemma ctz_bound w : in_u 64 w -> 0 < w -> 0 <= ctz w < 64.
Proof.
  intros Hw Hp. destruct (ctz_testbit w Hp) as (Hc & Hb & _). split; [done |].
  destruct (decide (ctz w < 64)); [done |]. by rewrite (in_u_testbit 64 w) in Hb by (done || lia).
Qed.

(** ** Jumping over words *)

Section words.

Context (ws : list Z) (Hw : words_ok ws) (Hl : zlen ws = 1024).

(** What is left of the set when the loop is at word [ctr] with [w] left of
    it. *)
Definition left_bit (ctr w x : Z) : bool :=
  if x <? 64 * (ctr + 1) then Z.testbit w (x - 64 * ctr) else bit ws x.

Lemma left_bit_word ctr w x : rd ws ctr = Some w -> 64 * ctr <= x -> left_bit ctr w x = bit ws x.
Proof.
  intros Hr Hx. unfold left_bit. destruct (Z.ltb_spec x (64 * (ctr + 1))); [| done].
  replace ctr with (x / 64) in Hr by div64. rewrite (bit_rd _ _ _ Hr). f_equal. div64.
Qed.

Lemma skip_words_spec v fuel : forall ctr w, 0 <= ctr < 1024 -> in_u 64 w -> 1024 - ctr <= Z.of_nat fuel ->
  exists ctr' w', skip_words fuel v ws ctr w = Some (ctr', w') /\ ctr <= ctr' < 1024 /\ in_u 64 w' /\
    (w' = v -> ctr' = 1023) /\ (ctr < ctr' -> w = v /\ rd ws ctr' = Some w') /\ (ctr = ctr' -> w' = w) /\
    (forall i, ctr < i < ctr' -> rd ws i = Some v).
Proof.
  induction fuel as [|fuel IH]; intros ctr w Hc Hu Hf; [lia |]. cbn [skip_words].
  change (BITSET_CONTAINER_SIZE_IN_WORDS - 1) with 1023.
  destruct (Z.eqb_spec w v) as [-> | Hne], (Z.ltb_spec ctr 1023); cbn [andb].
  - destruct (rd_Some ws (ctr + 1)) as [w1 H1]; [lia |]. rewrite H1. cbn [mbind option_bind].
    destruct (IH (ctr + 1) w1) as (c' & w' & E & Hc' & Hu' & Hv' & Hlt & Heq & Hmid);
      [lia | by eapply words_ok_rd | lia |].
    exists c', w'. split; [done |]. split; [lia |]. split; [done |]. split; [done |].
    split; [| split; [lia |]].
    + intros _. split; [done |]. destruct (decide (ctr + 1 = c')) as [<- |]; [rewrite Heq by done; done | by apply Hlt; lia].
    + intros i Hi. destruct (decide (i = ctr + 1)) as [-> |]; [| apply Hmid; lia].
      destruct (Hlt ltac:(lia)) as [-> _]. done.
  - exists ctr, v. repeat split; try done; try lia; apply Hu.
  - exists ctr, w. repeat split; try done; try lia; apply Hu.
  - exists ctr, w. repeat split; try done; try lia; apply Hu.
Qed.

(** The words jumped over are all [v]; what is left after them is unchanged. *)
Lemma skip_words_bits v ctr w : 0 <= ctr < 1024 -> in_u 64 w ->
  exists ctr' w', skip_words word_fuel v ws ctr w = Some (ctr', w') /\ ctr <= ctr' < 1024 /\ in_u 64 w' /\
    (w' = v -> ctr' = 1023) /\
    (forall x, 64 * ctr' <= x -> left_bit ctr' w' x = left_bit ctr w x) /\
    (forall x, 64 * ctr <= x < 64 * ctr' -> left_bit ctr w x = Z.testbit v (x mod 64)).
Proof.
  intros Hc Hu. destruct (skip_words_spec v word_fuel ctr w Hc Hu) as (c' & w' & E & Hc' & Hu' & Hv' & Hlt & Heq & Hmid).
  { change (Z.of_nat word_fuel) with 1025. lia. }
  exists c', w'. split; [done |]. split; [done |]. split; [done |]. split; [done |].
  destruct (decide (ctr = c')) as [<- |]; [rewrite Heq by done; split; [done | lia] |].
  destruct (Hlt ltac:(lia)) as [-> Hr]. split; intros x Hx.
  - rewrite (left_bit_word _ _ _ Hr) by lia. unfold left_bit. rewrite (proj2 (Z.ltb_ge _ _)) by lia. done.
  - unfold left_bit. destruct (Z.ltb_spec x (64 * (ctr + 1))).
    + f_equal. div64.
    + rewrite (bit_rd _ _ v); [done |]. apply Hmid. div64.
Qed.

(** The first run left: where it starts. *)
Lemma run_start_spec ctr w r rs : 0 <= ctr < 1024 -> in_u 64 w -> runs_ok (r :: rs) -> starts_from (64 * ctr) (r :: rs) ->
  (forall x, 64 * ctr <= x < 65536 -> left_bit ctr w x = true <-> x ∈ expand (r :: rs)) ->
  exists ctr' w', skip_words word_fuel 0 ws ctr w = Some (ctr', w') /\ ctr <= ctr' < 1024 /\ in_u 64 w' /\ 0 < w' /\
    ctz w' + 64 * ctr' = r_value r /\ 0 <= ctz w' < 64 /\
    (forall x, 64 * ctr' <= x -> left_bit ctr' w' x = left_bit ctr w x).
Proof.
  intros Hc Hu Hok Hfrom Hset. destruct (skip_words_bits 0 ctr w Hc Hu) as (c & v & E & Hc' & Hv & Hlast & Hsame & Hskip).
  exists c, v. split; [done |]. split; [done |]. split; [done |].
  pose proof Hok as ((R1 & R2 & R3) & Hs & _)%runs_ok_cons. apply starts_from_cons in Hfrom as [Hfrom _].
  assert (left_bit ctr w (r_value r) = true) as Hr.
  { unfold r_max in R3. apply Hset; [lia |]. autorewrite with runs. unfold r_max. lia. }
  unfold r_max in *.
  assert (64 * c <= r_value r) as Hcr.
  { destruct (decide (64 * c <= r_value r)); [done |]. rewrite Hskip, Z.bits_0 in Hr by lia. done. }
  assert (0 < v) as Hp.
  { destruct (decide (v = 0)) as [-> |]; [| unfold in_u in Hv; lia]. rewrite <- Hsame in Hr by done.
    unfold left_bit in Hr. rewrite Hlast in Hr by done. rewrite (proj2 (Z.ltb_lt _ _)), Z.bits_0 in Hr by lia. done. }
  split; [done |]. pose proof (ctz_bound v Hv Hp). destruct (ctz_testbit v Hp) as (_ & Hb & Hlow).
  split; [| split; [done | done]].
  assert (left_bit c v (ctz v + 64 * c) = true) as Hfirst.
  { unfold left_bit. rewrite (proj2 (Z.ltb_lt _ _)) by lia. by replace (ctz v + 64 * c - 64 * c) with (ctz v) by lia. }
  rewrite Hsame in Hfirst by lia. apply Hset in Hfirst; [| lia].
  rewrite <- Hsame in Hr by lia. unfold left_bit in Hr. destruct (Z.ltb_spec (r_value r) (64 * (c + 1))).
  - destruct (decide (r_value r - 64 * c < ctz v)); [by rewrite Hlow in Hr by lia |].
    autorewrite with runs in Hfirst. destruct Hfirst as [? | He]; [lia |].
    pose proof (starts_after_elem _ _ _ Hs He). lia.
  - autorewrite with runs in Hfirst. destruct Hfirst as [? | He]; [lia |].
    pose proof (starts_after_elem _ _ _ Hs He). lia.
Qed.

(** Filling the bits below the run changes nothing from its start on. *)
Lemma left_bit_fill ctr w x : 0 < w -> 64 * ctr <= x ->
  left_bit ctr (Z.lor w (w - 1)) x = (x <? ctz w + 64 * ctr) && (x <? 64 * (ctr + 1)) || left_bit ctr w x.
Proof.
  intros Hp Hx. unfold left_bit. destruct (Z.ltb_spec x (64 * (ctr + 1))); [| by rewrite andb_false_r].
  rewrite fill_low by lia. rewrite andb_true_r. f_equal. lia.
Qed.

(** A stretch of values that starts with a run and ends before a missing value
    is the run. *)
Lemma run_is_stretch r rs e : runs_ok (r :: rs) -> r_value r < e ->
  (forall x, r_value r <= x < e -> x ∈ expand (r :: rs)) -> e ∉ expand (r :: rs) -> r_max r + 1 = e.
Proof.
  intros ((R1 & R2 & R3) & Hs & _)%runs_ok_cons He Hall Hno.
  assert (r_max r + 1 ∉ expand (r :: rs)) as Hgap.
  { autorewrite with runs. intros [? | Hx]; [lia |]. pose proof (starts_after_elem _ _ _ Hs Hx). lia. }
  unfold r_max in *. destruct (Z.lt_total (r_value r + r_length r + 1) e) as [? | [? | ?]]; [| done |].
  - exfalso. apply Hgap, Hall. lia.
  - exfalso. apply Hno. autorewrite with runs. unfold r_max. lia.
Qed.

(** Where it ends: in the word reached after the words of ones. *)
Lemma run_end_spec ctr w r rs : 0 <= ctr < 1024 -> in_u 64 w -> 0 < w -> runs_ok (r :: rs) ->
  ctz w + 64 * ctr = r_value r -> 0 <= ctz w < 64 ->
  (forall x, 64 * ctr <= x < 65536 -> left_bit ctr w x = true <-> x ∈ expand (r :: rs)) ->
  exists ctr' w', skip_words word_fuel ones64 ws ctr (Z.lor w (w - 1)) = Some (ctr', w') /\
    ctr <= ctr' < 1024 /\ in_u 64 w' /\
    if w' =? ones64 then r_max r = 65535 /\ ctr' = 1023
    else ctz (not64 w') + ctr' * 64 = r_max r + 1 /\ 0 <= ctz (not64 w') < 64 /\
         forall x, r_max r + 1 <= x -> 64 * ctr' <= x -> left_bit ctr' w' x = left_bit ctr w x.
Proof.
  intros Hc Hu Hp Hok Hstart Hk Hset.
  destruct (skip_words_bits ones64 ctr (Z.lor w (w - 1)) Hc (in_u64_fill w Hu Hp)) as (c & v & E & Hc' & Hv & Hlast & Hsame & Hskip).
  exists c, v. split; [done |]. split; [done |]. split; [done |].
  pose proof Hok as ((R1 & R2 & R3) & Hs & _)%runs_ok_cons.
  assert (forall x, r_value r <= x < 64 * c -> x ∈ expand (r :: rs)) as Hones.
  { intros x Hx. apply Hset; [lia |]. specialize (Hskip x ltac:(lia)).
    rewrite testbit_ones64 in Hskip by div64. rewrite (proj2 (Z.ltb_lt _ _)) in Hskip by div64.
    rewrite left_bit_fill in Hskip by lia. rewrite (proj2 (Z.ltb_ge x _)) in Hskip by lia. done. }
  assert (forall x, r_value r <= x < 65536 -> 64 * c <= x < 64 * (c + 1) ->
    Z.testbit v (x - 64 * c) = true <-> x ∈ expand (r :: rs)) as Hword.
  { intros x Hx Hxc. rewrite <- Hset by lia. specialize (Hsame x ltac:(lia)). unfold left_bit at 1 in Hsame.
    rewrite (proj2 (Z.ltb_lt _ _)) in Hsame by lia. rewrite Hsame, left_bit_fill by lia.
    rewrite (proj2 (Z.ltb_ge x _)) by lia. done. }
  destruct (Z.eqb_spec v ones64) as [-> | Hne].
  - rewrite Hlast in * by done. split; [| done].
    assert (65535 ∈ expand (r :: rs)) as Hin.
    { destruct (decide (r_value r <= 65535)); [| unfold r_max in *; lia]. apply Hword; [lia | lia | done]. }
    assert (r_max r + 1 = 65536) as Hm; [| lia]. apply (run_is_stretch r rs); [done | unfold r_max in *; lia | |].
    + intros x Hx. destruct (decide (x < 64 * 1023)); [apply Hones; lia |]. apply Hword; [lia | lia |].
      rewrite testbit_ones64 by lia. apply Z.ltb_lt. lia.
    + intros Hx. apply (expand_range _ _ Hok) in Hx. unfold in_u in Hx. lia.
  - pose proof (not64_pos v Hv Hne) as Hn. pose proof (ctz_bound _ (in_u64_not v) Hn) as Hcb.
    destruct (ctz_testbit _ Hn) as (_ & Hb & Hlow). rewrite testbit_not64 in Hb by done. set (e := ctz (not64 v)) in *.
    assert (forall j, 0 <= j < e -> Z.testbit v j = true) as Hlow'.
    { intros j Hj. specialize (Hlow j Hj). rewrite testbit_not64 in Hlow by lia. by apply negb_false_iff in Hlow. }
    apply negb_true_iff in Hb.
    assert (r_value r < e + c * 64) as Hlt.
    { destruct (decide (c = ctr)) as [-> |]; [| lia]. destruct (decide (r_value r < e + ctr * 64)); [done |]. exfalso.
      specialize (Hsame (e + ctr * 64) ltac:(lia)). rewrite left_bit_fill in Hsame by lia.
      unfold left_bit in Hsame. rewrite (proj2 (Z.ltb_lt (e + ctr * 64) (64 * (ctr + 1)))) in Hsame by lia.
      replace (e + ctr * 64 - 64 * ctr) with e in Hsame by lia. rewrite Hb in Hsame.
      destruct (decide (e = ctz w)) as [Ee |]; [| rewrite (proj2 (Z.ltb_lt (e + ctr * 64) _)) in Hsame by lia; done].
      destruct (ctz_testbit w Hp) as (_ & Hbw & _). rewrite Ee, Hbw, orb_true_r in Hsame. done. }
    assert (r_max r + 1 = e + c * 64) as Hend.
    { apply (run_is_stretch r rs); [done | done | |].
      - intros x Hx. destruct (decide (x < 64 * c)); [apply Hones; lia |]. apply Hword; [lia | lia |]. apply Hlow'. lia.
      - intros Hx. pose proof (expand_range _ _ Hok Hx) as Hr. unfold in_u in Hr. change (2 ^ 16) with 65536 in Hr.
        apply Hword in Hx; [| lia | lia]. replace (e + c * 64 - 64 * c) with e in Hx by lia. by rewrite Hb in Hx. }
    split; [lia |]. split; [done |]. intros x Hx1 Hx2. rewrite Hsame by lia. rewrite left_bit_fill by lia.
    rewrite (proj2 (Z.ltb_ge x _)) by lia. done.
Qed.

Lemma from_bitset_loop_eq rs : forall fuel ctr w ans, 0 <= ctr < 1024 -> in_u 64 w -> runs_ok rs ->
  starts_from (64 * ctr) rs ->
  (forall x, 64 * ctr <= x < 65536 -> left_bit ctr w x = true <-> x ∈ expand rs) ->
  zlen rs < Z.of_nat fuel ->
  from_bitset_loop fuel ws ctr w ans = push_all rs ans.
Proof.
  induction rs as [|r rs IH]; intros fuel ctr w ans Hc Hu Hok Hfrom Hset Hf.
  - destruct fuel as [|fuel]; [change (zlen []) with 0 in Hf; lia |]. cbn [from_bitset_loop].
    destruct (skip_words_bits 0 ctr w Hc Hu) as (c & v & -> & Hc' & Hv & Hlast & Hsame & Hskip). cbn [mbind option_bind].
    destruct (Z.eqb_spec v 0) as [| Hne]; [done |]. exfalso.
    assert (0 < v) as Hp by (unfold in_u in Hv; lia). pose proof (ctz_bound v Hv Hp). destruct (ctz_testbit v Hp) as (_ & Hb & _).
    apply (elem_of_expand_nil (ctz v + 64 * c)), Hset; [lia |]. rewrite <- Hsame by lia. unfold left_bit.
    rewrite (proj2 (Z.ltb_lt _ _)) by lia. by replace (ctz v + 64 * c - 64 * c) with (ctz v) by lia.
  - destruct fuel as [|fuel]; [pose proof (zlen_nonneg (r :: rs)); lia |]. rewrite zlen_cons in Hf. cbn [from_bitset_loop].
    pose proof Hok as ((R1 & R2 & R3) & Hs & Hok')%runs_ok_cons.
    destruct (run_start_spec ctr w r rs) as (c & v & -> & Hc1 & Hv & Hp & Hstart & Hk & Hsame); try done.
    cbn [mbind option_bind]. rewrite (proj2 (Z.eqb_neq v 0)) by lia.
    destruct (run_end_spec c v r rs) as (c2 & v2 & -> & Hc2 & Hv2 & Hend); try done; [lia | |].
    { intros x Hx. rewrite Hsame by lia. apply Hset. lia. }
    cbn [mbind option_bind push_all]. rewrite Hstart. unfold add_run.
    destruct (Z.eqb_spec v2 ones64) as [_ | Hne].
    + destruct Hend as [Hm ->]. unfold r_max in *. rewrite !u16_id by lia.
      replace (64 + 1023 * 64 - 1 - r_value r) with (r_length r) by lia. replace (mk_rle _ _) with r by by destruct r.
      assert (rs = []) as ->.
      { destruct rs as [|s rs]; [done |]. apply starts_after_cons in Hs as [? _].
        apply runs_ok_cons in Hok' as [(? & ? & ?) _]. unfold r_max in *. lia. }
      by destruct push_run.
    + destruct Hend as (Hm & He & Hrest). rewrite Hm. unfold r_max in R3. rewrite !u16_id by (unfold r_max; lia).
      replace (mk_rle _ _) with r by (destruct r; unfold r_max; cbn; f_equal; lia).
      destruct push_run as [ans'|]; [| done]. cbn [mbind option_bind].
      apply IH; [lia | apply in_u_land; [lia | done | apply uwrap_range; lia] | done | | | lia].
      * apply starts_after_from in Hs. eapply starts_from_mono; [exact Hs | lia].
      * intros x Hx. assert (left_bit c2 (Z.land v2 (u64 (v2 + 1))) x = (r_max r + 1 <? x) && left_bit c2 v2 x) as ->.
        { unfold left_bit. destruct (Z.ltb_spec x (64 * (c2 + 1))).
          - rewrite clear_low by (done || lia). f_equal. lia.
          - rewrite (proj2 (Z.ltb_lt _ _)) by lia. done. }
        pose proof (starts_after_elem _ rs x Hs) as Hsx.
        destruct (Z.ltb_spec (r_max r + 1) x); cbn [andb].
        -- rewrite Hrest, Hsame, Hset by lia. autorewrite with runs. split; [intros [? | ?]; [lia | done] | by right].
        -- split; [done |]. intros Hx'. specialize (Hsx Hx'). lia.
Qed.

End words.

(** ** The conversions *)

Lemma runs_of a : sorted16 a -> exists rs, runs_ok rs /\ expand rs = a /\ zlen rs = zlen (run_starts a).
Proof.
  intros Ha. destruct (decide (a = [])) as [-> | Hne]; [exists []; split; [apply runs_ok_nil | done] |].
  destruct (from_array_loop_spec a _ Ha Hne eq_refl) as (r & _ & [Ho _] & E). exists (rc_runs r). split; [done |].
  split; [exact E |]. rewrite <- E. unfold rc_elems. rewrite run_starts_expand by done. unfold zlen. by rewrite length_fmap.
Qed.

Lemma bitset_to_run_spec b n : bitset_ok b -> n = zlen (run_starts (bc_elems b)) ->
  exists r, (cur_word ← rd (bc_array b) 0;
             from_bitset_loop (S (Z.to_nat n)) (bc_array b) 0 cur_word (run_container_create_given_capacity n)) = Some r /\
    run_ok r /\ rc_elems r = bc_elems b.
Proof.
  intros [[Hl Hw] _] ->. destruct (runs_of (bc_elems b)) as (rs & Ho & E & Hn).
  { apply bc_elems_sorted. by constructor. }
  destruct (rd_Some (bc_array b) 0) as [w Hr]; [lia |]. rewrite Hr. cbn [mbind option_bind].
  rewrite (from_bitset_loop_eq _ Hw Hl rs); try done.
  - unfold run_container_create_given_capacity. rewrite push_all_spec by (change (zlen []) with 0; lia).
    eexists. split; [done |]. split; [constructor; [done | cbn [rc_runs rc_capacity app]; lia] | exact E].
  - by eapply words_ok_rd.
  - eapply Forall_impl; [apply Ho |]. intros r (? & _). lia.
  - intros x Hx. rewrite (left_bit_word _ _ _ _ Hr) by lia. rewrite E. unfold bc_elems. rewrite elem_of_elems, Hl. 
    split; [intros Hb; split; [lia | done] | by intros [_ ?]].
  - pose proof (zlen_nonneg rs). lia.
Qed.

Lemma set_ranges_spec l : forall ws, words_ok ws -> zlen ws = 1024 -> Forall run_wf l ->
  exists ws', foldl (fun words r => words ← words; bitset_set_range words (r_value r) (r_value r + r_length r + 1))
      (Some ws) l = Some ws' /\ words_ok ws' /\ zlen ws' = 1024 /\
    forall x, x ∈ elems ws' <-> x ∈ elems ws \/ x ∈ expand l.
Proof.
  induction l as [|r l IH]; intros ws Hw Hl Hr.
  - exists ws. split; [done |]. split; [done |]. split; [done |]. intros x. members.
  - apply Forall_cons in Hr as [(R1 & R2 & R3) Hr]. unfold r_max in R3.
    destruct (set_range_result ws (r_value r) (r_value r + r_length r + 1)) as (ws1 & E & L1 & W1 & E1); [done | lia.. |].
    cbn [foldl mbind option_bind]. rewrite E. destruct (IH ws1 W1 ltac:(lia) Hr) as (ws2 & -> & W2 & L2 & E2).
    exists ws2. split; [done |]. split; [done |]. split; [done |]. intros x.
    rewrite E2, E1, elem_of_union_loop, elem_of_seqZ. members.
Qed.

Lemma convert_run_to_efficient_spec c : run_ok c ->
  container_result (convert_run_to_efficient_container c) (rc_elems c).
Proof.
  intros Hc. unfold convert_run_to_efficient_container. rewrite run_cardinality_spec by done. fold (rc_elems c).
  cbv zeta. set (small := _ <=? _). destruct small; [by exists (Run c) |].
  destruct (Z.leb_spec (zlen (rc_elems c)) DEFAULT_MAX_SIZE).
  - rewrite run_fill_expand by apply Hc. fold (rc_elems c).
    destruct (store_array_ok (array_container_create_given_capacity (zlen (rc_elems c))) (rc_elems c))
      as (a & -> & Ea & Oa); [apply expand_sorted, Hc | done |].
    exists (Array a). split; [done |]. split; [done |]. split; [cbn; by rewrite Ea | done].
  - destruct create_words as (b0 & -> & W & L & E). unfold bc_elems in E.
    destruct (set_ranges_spec (rc_runs c) _ W L) as (ws & -> & W' & L' & X); [apply Hc |]. cbn [mbind option_bind].
    assert (elems ws = rc_elems c) as Ews.
    { apply strict_ext; [apply elems_strict | apply expand_strict, Hc |]. intros x. rewrite X, E, elem_of_nil.
      unfold rc_elems. tauto. }
    exists (Bitset (mk_bitset (zlen (rc_elems c)) ws)). split; [done |]. split; [by apply words_bitset_ok |].
    split; [| done]. unfold sized, bc_elems. cbn [bc_array]. rewrite Ews. done.
Qed.

Lemma convert_run_optimize_spec c : container_ok c -> sized c ->
  container_result (convert_run_optimize c) (container_elems c).
Proof.
  intros Hc Hs. destruct c as [b | a | r]; cbn [convert_run_optimize container_elems].
  - rewrite bitset_number_of_runs_spec by apply Hc. cbn [mbind option_bind]. set (big := _ <=? _). destruct big; [by exists (Bitset b) |].
    destruct (bitset_to_run_spec b _ Hc eq_refl) as (r & E & Or & Er).
    destruct (rd (bc_array b) 0) as [w|]; [| done]. cbn [mbind option_bind] in E |- *. rewrite E. cbn [mbind option_bind].
    by exists (Run r).
  - rewrite array_number_of_runs_spec by done. cbv zeta. destruct (Z.leb_spec
      (array_container_serialized_size_in_bytes (array_container_cardinality a))
      (run_container_serialized_size_in_bytes (zlen (run_starts (ac_array a))))) as [| Hlt]; [by exists (Array a) |].
    destruct (from_array_loop_spec (ac_array a) (zlen (run_starts (ac_array a))) (array_ok_sorted _ Hc))
      as (r & -> & Or & Er); [| done |].
    { intros E. unfold array_container_cardinality in Hlt. by rewrite E in Hlt. }
    cbn [mbind option_bind]. by exists (Run r).
  - by apply convert_run_to_efficient_spec.
Qed.

(** ** The loop with a 16-bit counter *)

Lemma fill16_spec fuel : forall v e cap a, 0 <= v <= e + 1 -> e < 65535 -> e + 1 - v < Z.of_nat fuel ->
  zlen a + (e + 1 - v) <= cap ->
  fill16 fuel v e (mk_array cap a) = Some (mk_array cap (a ++ seqZ v (e + 1 - v))).
Proof.
  induction fuel as [|fuel IH]; intros v e cap a Hv He Hf Hc; [lia |]. cbn [fill16].
  destruct (Z.leb_spec v e).
  - unfold store_array. cbn [ac_array ac_capacity]. rewrite zlen_snoc. replace (zlen a + 1 <=? cap) with true by lia.
    cbn [mbind option_bind]. rewrite u16_id by lia. rewrite IH by (rewrite ?zlen_snoc; lia).
    rewrite <- app_assoc. rewrite (seqZ_cons v) by lia.
    by replace (Z.pred (e + 1 - v)) with (e + 1 - (v + 1)) by lia.
  - replace (e + 1 - v) with 0 by lia. by rewrite app_nil_r.
Qed.

Lemma fill16_overrun fuel : forall v a, in_u 16 v -> fill16 fuel v 65535 a = None.
Proof.
  induction fuel as [|fuel IH]; intros v a Hv; [done |]. cbn [fill16]. unfold in_u in Hv.
  rewrite (proj2 (Z.leb_le v 65535)) by lia. destruct store_array; [| done]. cbn [mbind option_bind].
  apply IH, uwrap_range. lia.
Qed.

Lemma fill_runs_spec l : forall cap a, Forall run_wf l -> Forall (fun r => r_max r < 65535) l ->
  zlen a + zlen (expand l) <= cap ->
  fill_runs l (mk_array cap a) = Some (mk_array cap (a ++ expand l)).
Proof.
  induction l as [|r l IH]; intros cap a Hw Hm Hc; cbn [fill_runs]; [by rewrite expand_nil, app_nil_r |].
  apply Forall_cons in Hw as [Wr Hw]. apply Forall_cons in Hm as [Hr Hm].
  rewrite expand_cons, zlen_app, (zlen_run_values _ Wr) in Hc. destruct Wr as (R1 & R2 & R3). unfold r_max in *.
  pose proof (zlen_nonneg a). pose proof (zlen_nonneg (expand l)). cbn [ac_capacity].
  rewrite (u16_id (r_value r + r_length r)) by lia. rewrite fill16_spec by lia. cbn [mbind option_bind].
  replace (r_value r + r_length r + 1 - r_value r) with (r_length r + 1) by lia. fold (run_values r).
  rewrite IH; [by rewrite expand_cons, app_assoc | done | done |]. rewrite zlen_app.
  unfold run_values. rewrite zlen_seqZ by lia. lia.
Qed.

Lemma convert_to_bitset_or_array_spec r : run_ok r ->
  DEFAULT_MAX_SIZE < zlen (rc_elems r) \/ 65535 ∉ rc_elems r ->
  container_result (convert_to_bitset_or_array_container r (run_container_cardinality r)) (rc_elems r).
Proof.
  intros Hr Hcase. unfold convert_to_bitset_or_array_container. rewrite run_cardinality_spec by done. fold (rc_elems r).
  destruct (Z.leb_spec (zlen (rc_elems r)) DEFAULT_MAX_SIZE).
  - destruct Hcase as [? | Hno]; [lia |].
    unfold array_container_create_given_capacity. rewrite fill_runs_spec; cbn [app mbind option_bind].
    + eexists. split; [done |]. split; [| by split].
      constructor; cbn [ac_array ac_capacity]; [apply expand_strict, Hr | apply (expand_sorted _ (ro_runs _ Hr)) | done].
    + apply Hr.
    + apply Forall_forall. intros s Hs. pose proof (proj1 (ro_runs _ Hr)) as Hwf. rewrite Forall_forall in Hwf.
      destruct (Hwf s Hs) as (S1 & S2 & S3). destruct (decide (r_max s = 65535)) as [Es |]; [| lia].
      exfalso. apply Hno, elem_of_expand. exists s. unfold r_max in *. split; [done | lia].
    + done.
  - destruct (set_runs_fresh r Hr) as (ws & -> & W & L & E). cbn [mbind option_bind].
    exists (Bitset (mk_bitset (zlen (rc_elems r)) ws)). split; [done |]. split; [by apply words_bitset_ok |].
    split; [| done]. unfold sized, bc_elems. cbn [bc_array]. by rewrite E.
Qed.

Lemma fill_runs_overrun l : forall a, Forall run_wf l -> Exists (fun r => r_max r = 65535) l -> fill_runs l a = None.
Proof.
  induction l as [|r l IH]; intros a Hw He; [by inversion He |]. apply Forall_cons in Hw as [(R1 & R2 & R3) Hw].
  cbn [fill_runs]. destruct (decide (r_max r = 65535)) as [E | Hne].
  - unfold r_max in E. rewrite E, fill16_overrun; [done |]. unfold in_u, r_max in *. lia.
  - destruct fill16; [| done]. cbn [mbind option_bind]. apply IH; [done |]. by apply Exists_cons in He as [? | ?].
Qed.

(** The largest value is in the last run. *)
Definition holds_last (r : run_container_t) : Prop := 65535 ∈ rc_elems r.

(** A run that ends with 65535.  [convert_to_bitset_or_array_container]
    copies the runs of a small container with a [uint16_t] loop variable that
    is compared, with [<=], to the last value of the run; a run that ends with
    65535 is never passed, and the loop writes behind the new array. *)
Theorem convert_overrun r : run_ok r -> zlen (rc_elems r) <= DEFAULT_MAX_SIZE -> holds_last r ->
  convert_to_bitset_or_array_container r (run_container_cardinality r) = None.
Proof.
  intros Hr Hc (s & Hs & Hx)%elem_of_expand. unfold convert_to_bitset_or_array_container.
  rewrite run_cardinality_spec by done. fold (rc_elems r). rewrite (proj2 (Z.leb_le _ _)) by done.
  rewrite fill_runs_overrun; [done | apply Hr |]. apply Exists_exists. exists s. split; [done |].
  pose proof (proj1 (ro_runs _ Hr)) as Hwf. rewrite Forall_forall in Hwf. destruct (Hwf s Hs) as (_ & _ & ?). lia.
Qed.

Lemma convert_overrun_witness : convert_to_bitset_or_array_container demo_run1 (run_container_cardinality demo_run1) = None.
Proof.
  apply (convert_overrun demo_run1 (proj1 demo_runs_ok)); [vm_compute; discriminate |].
  apply elem_of_expand. exists (mk_rle 65000 535). split; [apply list_elem_of_In; cbn; auto | unfold r_max; cbn; lia].
Defined.

(** ** Runs and a range *)

Lemma from_run_range_spec r m x : run_ok r -> 0 <= m <= x -> x <= 65535 ->
  bitset_result (bitset_container_from_run_range r m x) (union_loop (rc_elems r) (seqZ m (x + 1 - m))).
Proof.
  intros Hr Hm Hx. unfold bitset_container_from_run_range. destruct (set_runs_fresh r Hr) as (ws & -> & W & L & E).
  cbn [mbind option_bind].
  rewrite bitset_lenrange_cardinality_spec by (done || lia). cbn [mbind option_bind].
  destruct (set_lenrange_result ws m (x - m)) as (ws' & -> & L' & W' & E'); [done | lia.. |]. cbn [mbind option_bind].
  replace (x - m + 1) with (x + 1 - m) in E' by lia. rewrite E in E'.
  pose proof (expand_sorted _ (ro_runs _ Hr)) as [Hst Hb]. fold (rc_elems r) in Hst, Hb.
  assert (zlen (elems ws') = zlen (rc_elems r) + (x + 1 - m) - count_in (rc_elems r) m (x + 1)) as Hlen.
  { rewrite E', union_range by (done || lia). rewrite !zlen_app, zlen_seqZ by lia.
    pose proof (lb_range (rc_elems r) m). pose proof (lb_range (rc_elems r) (x + 1)).
    rewrite zlen_take, zlen_drop by lia. rewrite count_in_lb by lia. lia. }
  eexists. split; [done |]. split; [| exact E'].
  assert (sum_lengths (rc_runs r) (n_runs r) = zlen (rc_elems r)) as -> by (apply run_cardinality_spec, Hr).
  assert (zlen ws' = 1024) as L1024 by lia.
  pose proof (popcount_range ws'). pose proof (sorted16_length (rc_elems r) (conj Hst Hb)).
  pose proof (zlen_nonneg (rc_elems r)). pose proof (count_in_nonneg (rc_elems r) m (x + 1)).
  constructor; [by constructor |]. cbn [bc_cardinality bc_array]. unfold popcount. rewrite Hlen, E.
  replace (m + (x - m) + 1) with (x + 1) by lia.
  assert (0 <= zlen (elems ws') <= 65536) as Hb2.
  { split; [apply zlen_nonneg |]. unfold popcount in *. lia. }
  unfold i32. rewrite (swrap_id 32 (zlen (rc_elems r) + _)) by (unfold in_s; lia || lia).
  rewrite swrap_id by (unfold in_s; lia || lia). lia.
Qed.
