(* ===== verification/RoaringMixed.v ===== *)
(** * Roaring bitmaps: operations between containers of different types

    The files [mixed_andnot.c], [mixed_equal.c], [mixed_intersection.c],
    [mixed_negation.c], [mixed_subset.c], [mixed_union.c] and [mixed_xor.c] of
    the amalgamation [src/src/datastruct/roaring.c].

    A function that stores a container in [*dst] and returns whether it is a
    bitset, or its type code, returns a [container_t].  The variants that free
    their first argument after the call are the function itself.  Where the
    output may be the first argument and is written while that argument is
    read, the in-place call has a definition of its own, on one buffer. *)

From stdpp Require Import base list list_numbers numbers option sorting.
From Stdlib Require Import ZArith Lia.
From S2P Require Import Prelude.
From S2P Require Import RoaringArrays.
From S2P Require Import RoaringInplace.
From S2P Require Import RoaringArrayContainer.
From S2P Require Import RoaringBitset.
From S2P Require Import RoaringRun.
From S2P Require Import RoaringConvert.

Local Open Scope Z_scope.

Definition ARRAY_LAZY_LOWERBOUND : Z := 1024.

(** [if(cardinality <= DEFAULT_MAX_SIZE) *dst = array_container_from_bitset(result)] *)
Definition bitset_or_array (b : bitset_container_t) : option container_t :=
  if bc_cardinality b <=? DEFAULT_MAX_SIZE
  then a ← array_container_from_bitset b; Some (Array a)
  else Some (Bitset b).

(** [b->cardinality = bitset_container_compute_cardinality(b)] *)
Definition recount (words : list Z) : option bitset_container_t :=
  card ← bitset_container_compute_cardinality (mk_bitset 0 words);
  Some (mk_bitset card words).

(** ** Loops over an array that keep some of its values

    [step] decides whether a value is kept and may have a state. *)

Section keep.

Context {St : Type} (step : St -> Z -> option (bool * St)).

(** Into another array. *)
Fixpoint keep_values (s : St) (l : list Z) : option (list Z) :=
  match l with
  | [] => Some []
  | val :: l =>
    '(keep, s) ← step s val;
    rest ← keep_values s l;
    Some (if keep : bool then val :: rest else rest)
  end.

(** Into the array itself: [mem] is its memory, [i] and [newcard] the places
    that are read and written. *)
Fixpoint keep_buf (n : nat) (mem : list Z) (i newcard : nat) (s : St) : option (list Z * nat) :=
  match n with
  | O => Some (mem, newcard)
  | S n =>
    val ← mem !! i;
    '(keep, s) ← step s val;
    mem ← put_at mem newcard val;
    keep_buf n mem (S i) (if keep : bool then S newcard else newcard) s
  end.

End keep.

Definition keep_inplace {St} (step : St -> Z -> option (bool * St)) (s : St) (a : array_container_t) :
    option array_container_t :=
  '(mem, newcard) ← keep_buf step (length (ac_array a)) (ac_array a) 0 0 s;
  Some (mk_array (ac_capacity a) (take newcard mem)).

Definition in_bitset (want : bool) (src_2 : bitset_container_t) (_ : unit) (key : Z) : option (bool * unit) :=
  c ← bitset_container_contains src_2 key;
  Some (Bool.eqb c want, tt).

(** ** Difference *)

Definition array_bitset_container_andnot (src_1 : array_container_t) (src_2 : bitset_container_t)
    (dst : array_container_t) : option array_container_t :=
  let dst := ensure_capacity dst (array_container_cardinality src_1) in
  l ← keep_values (in_bitset false src_2) tt (ac_array src_1);
  store_array dst l.

Definition array_bitset_container_iandnot (src_1 : array_container_t) (src_2 : bitset_container_t) :
    option array_container_t :=
  keep_inplace (in_bitset false src_2) tt src_1.

Definition bitset_array_container_andnot (src_1 : bitset_container_t) (src_2 : array_container_t) :
    option container_t :=
  '(words, card) ← bitset_clear_list (bc_array src_1) (u64 (bc_cardinality src_1)) (ac_array src_2);
  bitset_or_array (mk_bitset (i32 card) words).

Definition bitset_array_container_iandnot := bitset_array_container_andnot.

(** The values of the runs, and those of them that are not in [src_2]. *)
Definition run_ints (l : list rle16_t) : list Z := l ≫= run_values.

Definition bit_clear (src_2 : bitset_container_t) (_ : unit) (run_value : Z) : option (bool * unit) :=
  c ← bitset_container_get src_2 (u16 run_value);
  Some (negb c, tt).

Fixpoint andnot_ranges (l : list rle16_t) (last_pos : Z) (words : list Z) : option (list Z) :=
  match l with
  | [] => bitset_reset_range words last_pos (2 ^ 16)
  | rle :: l =>
    let start := r_value rle in
    let end_ := start + r_length rle + 1 in
    words ← bitset_reset_range words last_pos start;
    words ← bitset_flip_range words start end_;
    andnot_ranges l end_ words
  end.

Definition run_bitset_container_andnot (src_1 : run_container_t) (src_2 : bitset_container_t) :
    option container_t :=
  let card := run_container_cardinality src_1 in
  if card <=? DEFAULT_MAX_SIZE then
    l ← keep_values (bit_clear src_2) tt (run_ints (rc_runs src_1));
    answer ← store_array (array_container_create_given_capacity card) (u16 <$> l);
    Some (Array answer)
  else
    words ← andnot_ranges (rc_runs src_1) 0 (bc_array (bitset_container_clone src_2));
    answer ← recount words;
    bitset_or_array answer.

Definition run_bitset_container_iandnot := run_bitset_container_andnot.

Fixpoint reset_ranges (l : list rle16_t) (words : list Z) : option (list Z) :=
  match l with
  | [] => Some words
  | rle :: l =>
    words ← bitset_reset_range words (r_value rle) (r_value rle + r_length rle + 1);
    reset_ranges l words
  end.

Definition bitset_run_container_andnot (src_1 : bitset_container_t) (src_2 : run_container_t) :
    option container_t :=
  words ← reset_ranges (rc_runs src_2) (bc_array src_1);
  result ← recount words;
  bitset_or_array result.

Definition bitset_run_container_iandnot := bitset_run_container_andnot.

(** The values of one run, without those of the array from [in_array_pos] on. *)
Fixpoint subtract_values (vs : list Z) (a : list Z) (in_array_pos next_nonincluded : Z) :
    option (list Z * Z) :=
  match vs with
  | [] => Some ([], in_array_pos)
  | i :: vs =>
    if negb (i =? next_nonincluded) then
      '(out, p) ← subtract_values vs a in_array_pos next_nonincluded;
      Some (u16 i :: out, p)
    else if zlen a <=? in_array_pos + 1 then subtract_values vs a in_array_pos 0
    else
      next ← rd a (in_array_pos + 1);
      subtract_values vs a (in_array_pos + 1) next
  end.

Fixpoint run_array_array_subtract (l : list rle16_t) (a_in : list Z) (in_array_pos : Z) :
    option (list Z) :=
  match l with
  | [] => Some []
  | r :: l =>
    let start := r_value r in
    let end_ := start + r_length r + 1 in
    in_array_pos ← advanceUntil a_in in_array_pos (u16 start);
    if zlen a_in <=? in_array_pos then
      rest ← run_array_array_subtract l a_in in_array_pos;
      Some ((u16 <$> seqZ start (end_ - start)) ++ rest)
    else
      next_nonincluded ← rd a_in in_array_pos;
      if end_ <=? next_nonincluded then
        rest ← run_array_array_subtract l a_in (in_array_pos - 1);
        Some ((u16 <$> seqZ start (end_ - start)) ++ rest)
      else
        '(out, in_array_pos) ← subtract_values (seqZ start (end_ - start)) a_in in_array_pos next_nonincluded;
        rest ← run_array_array_subtract l a_in (in_array_pos - 1);
        Some (out ++ rest)
  end.

(** The small case runs the loop of [run_container_andnot], each value of the
    array being a run of one. *)
Definition run_array_container_andnot (src_1 : run_container_t) (src_2 : array_container_t) :
    option container_t :=
  let card := run_container_cardinality src_1 in
  if card <=? 32 then
    if array_container_cardinality src_2 =? 0 then Some (Run (run_container_clone src_1))
    else
      rle ← rd (rc_runs src_1) 0;
      let ones := (fun x => mk_rle x 0) <$> ac_array src_2 in
      answer ← run_andnot_loop (S (2 * (length (rc_runs src_1) + length ones)))
        (rc_runs src_1) ones (r_value rle) (r_value rle + r_length rle + 1)
        (run_container_create_given_capacity (card + array_container_cardinality src_2));
      convert_run_to_efficient_container answer
  else if card <=? DEFAULT_MAX_SIZE then
    l ← run_array_array_subtract (rc_runs src_1) (ac_array src_2) (-1);
    ac ← store_array (array_container_create_given_capacity card) l;
    Some (Array ac)
  else
    ans ← bitset_container_from_run src_1;
    bitset_array_container_iandnot ans src_2.

Definition run_array_container_iandnot := run_array_container_andnot.

(** [run_start], [run_end] and the runs after [which_run]. *)
Definition run_cursor : Type := Z * Z * list rle16_t.

(** The [do ... while(val > run_end)] loop; past the last run the bounds are
    [(1 << 16) + 1]. *)
Fixpoint next_run (rest : list rle16_t) (val : Z) : run_cursor :=
  match rest with
  | [] => (2 ^ 16 + 1, 2 ^ 16 + 1, [])
  | r :: rest =>
    let run_end := r_value r + r_length r in
    if run_end <? val then next_run rest val else (r_value r, run_end, rest)
  end.

Definition outside_runs (cur : run_cursor) (val : Z) : option (bool * run_cursor) :=
  let '(run_start, run_end, rest) := cur in
  let '(run_start, run_end, rest) :=
    if (run_start <=? val) && (run_end <? val) then next_run rest val else (run_start, run_end, rest) in
  Some (val <? run_start, (run_start, run_end, rest)).

Definition array_run_container_andnot (src_1 : array_container_t) (src_2 : run_container_t)
    (dst : array_container_t) : option array_container_t :=
  let dst := ensure_capacity dst (array_container_cardinality src_1) in
  match rc_runs src_2 with
  | [] => store_array dst (ac_array src_1)
  | r :: rest =>
    l ← keep_values outside_runs (r_value r, r_value r + r_length r, rest) (ac_array src_1);
    store_array dst l
  end.

Definition array_run_container_iandnot (src_1 : array_container_t) (src_2 : run_container_t) :
    option array_container_t :=
  match rc_runs src_2 with
  | [] => Some src_1
  | r :: rest => keep_inplace outside_runs (r_value r, r_value r + r_length r, rest) src_1
  end.

Definition run_run_container_andnot (src_1 src_2 : run_container_t) : option container_t :=
  ans ← run_container_andnot src_1 src_2 run_container_create;
  convert_run_to_efficient_container_and_free ans.

Definition run_run_container_iandnot := run_run_container_andnot.

Definition array_array_container_andnot := array_container_andnot.
Definition array_array_container_iandnot := array_container_andnot_inplace.

Definition bitset_bitset_container_andnot (src_1 src_2 : bitset_container_t) : option container_t :=
  ans ← bitset_container_andnot src_1 src_2;
  bitset_or_array ans.

Definition bitset_bitset_container_iandnot := bitset_bitset_container_andnot.

(** ** Equality *)

(** The bits of word [i] against the array from [pos] on: what is left of the
    array, or [None] inside when they differ. *)
Fixpoint equal_word (fuel : nat) (w i : Z) (l : list Z) : option (option (list Z)) :=
  match fuel with
  | O => None
  | S fuel =>
    if w =? 0 then Some (Some l)
    else
      let t := Z.land w (u64 (not64 w + 1)) in
      let r := u16 (i * 64 + ctz w) in
      match l with
      | [] => Some None
      | x :: l => if negb (x =? r) then Some None else equal_word fuel (Z.lxor w t) i l
      end
  end.

Fixpoint equal_words (words : list Z) (i : Z) (l : list Z) : option bool :=
  match words with
  | [] => Some (zlen l =? 0)
  | w :: words =>
    o ← equal_word 65 w i l;
    match o with
    | None => Some false
    | Some l => equal_words words (i + 1) l
    end
  end.

Definition array_container_equal_bitset (container1 : array_container_t) (container2 : bitset_container_t) :
    option bool :=
  if negb (bc_cardinality container2 =? BITSET_UNKNOWN_CARDINALITY) &&
     negb (bc_cardinality container2 =? array_container_cardinality container1)
  then Some false
  else equal_words (bc_array container2) 0 (ac_array container1).

Fixpoint equal_runs (l : list rle16_t) (a : list Z) (pos : Z) : option bool :=
  match l with
  | [] => Some true
  | r :: l =>
    let run_start := r_value r in
    let le := r_length r in
    x ← rd a pos;
    if negb (x =? run_start) then Some false
    else
      y ← rd a (pos + le);
      if negb (y =? run_start + le) then Some false else equal_runs l a (pos + (le + 1))
  end.

Definition run_container_equals_array (container1 : run_container_t) (container2 : array_container_t) :
    option bool :=
  if negb (run_container_cardinality container1 =? array_container_cardinality container2)
  then Some false
  else equal_runs (rc_runs container1) (ac_array container2) 0.

Fixpoint all_in_bitset (l : list rle16_t) (b : bitset_container_t) : option bool :=
  match l with
  | [] => Some true
  | r :: l =>
    let begin := r_value r in
    ok ← (if negb (r_length r =? 0)
          then bitset_container_contains_range b begin (begin + r_length r + 1)
          else bitset_container_contains b begin);
    if ok : bool then all_in_bitset l b else Some false
  end.

Definition run_container_equals_bitset (container1 : run_container_t) (container2 : bitset_container_t) :
    option bool :=
  let run_card := run_container_cardinality container1 in
  bitset_card ← (if negb (bc_cardinality container2 =? BITSET_UNKNOWN_CARDINALITY)
                 then Some (bc_cardinality container2)
                 else bitset_container_compute_cardinality container2);
  if negb (bitset_card =? run_card) then Some false
  else all_in_bitset (rc_runs container1) container2.

(** ** Intersection *)

Definition array_bitset_container_intersection (src_1 : array_container_t) (src_2 : bitset_container_t)
    (dst : array_container_t) : option array_container_t :=
  let dst := ensure_capacity dst (array_container_cardinality src_1) in
  l ← keep_values (in_bitset true src_2) tt (ac_array src_1);
  store_array dst l.

Definition array_bitset_container_intersection_inplace (src_1 : array_container_t)
    (src_2 : bitset_container_t) : option array_container_t :=
  keep_inplace (in_bitset true src_2) tt src_1.

Fixpoint count_in_bitset (l : list Z) (b : bitset_container_t) (newcard : Z) : option Z :=
  match l with
  | [] => Some newcard
  | key :: l =>
    c ← bitset_container_contains b key;
    count_in_bitset l b (newcard + if c : bool then 1 else 0)
  end.

Definition array_bitset_container_intersection_cardinality (src_1 : array_container_t)
    (src_2 : bitset_container_t) : option Z :=
  count_in_bitset (ac_array src_1) src_2 0.

Fixpoint any_in_bitset (l : list Z) (b : bitset_container_t) : option bool :=
  match l with
  | [] => Some false
  | key :: l => c ← bitset_container_contains b key; if c : bool then Some true else any_in_bitset l b
  end.

Definition array_bitset_container_intersect (src_1 : array_container_t) (src_2 : bitset_container_t) :
    option bool :=
  any_in_bitset (ac_array src_1) src_2.

(** [while(rle.value + rle.length < arrayval)]: the run reached, [None] when
    there is none left. *)
Fixpoint advance_run (rle : rle16_t) (rest : list rle16_t) (arrayval : Z) : option (rle16_t * list rle16_t) :=
  if r_value rle + r_length rle <? arrayval then
    match rest with
    | [] => None
    | rle :: rest => advance_run rle rest arrayval
    end
  else Some (rle, rest).

(** The values of the array that are in the runs; [a] is what the array holds
    when it is read. *)
Fixpoint array_run_loop (fuel : nat) (a : list Z) (arraypos : Z) (rle : rle16_t) (rest : list rle16_t) :
    option (list Z) :=
  match fuel with
  | O => None
  | S fuel =>
    if arraypos <? zlen a then
      arrayval ← rd a arraypos;
      match advance_run rle rest arrayval with
      | None => Some []
      | Some (rle, rest) =>
        if arrayval <? r_value rle then
          arraypos ← advanceUntil a arraypos (r_value rle);
          array_run_loop fuel a arraypos rle rest
        else
          l ← array_run_loop fuel a (arraypos + 1) rle rest;
          Some (arrayval :: l)
      end
    else Some []
  end.

(** Without runs the function returns before it has set the cardinality of
    [dst]. *)
Definition array_run_container_intersection (src_1 : array_container_t) (src_2 : run_container_t)
    (dst : array_container_t) : option array_container_t :=
  full ← run_container_is_full src_2;
  if full : bool then array_container_copy src_1 dst
  else
    let dst := ensure_capacity dst (array_container_cardinality src_1) in
    match rc_runs src_2 with
    | [] => Some dst
    | rle :: rest =>
      l ← array_run_loop (S (length (ac_array src_1))) (ac_array src_1) 0 rle rest;
      store_array dst l
    end.

(** The same loop when [dst == src_1]: [mem] is read at [arraypos] and beyond
    and written at [newcard]. *)
Fixpoint array_run_buf (fuel : nat) (mem : list Z) (arraypos : Z) (newcard : nat)
    (rle : rle16_t) (rest : list rle16_t) : option (list Z * nat) :=
  match fuel with
  | O => None
  | S fuel =>
    if arraypos <? zlen mem then
      arrayval ← rd mem arraypos;
      match advance_run rle rest arrayval with
      | None => Some (mem, newcard)
      | Some (rle, rest) =>
        if arrayval <? r_value rle then
          arraypos ← advanceUntil mem arraypos (r_value rle);
          array_run_buf fuel mem arraypos newcard rle rest
        else
          mem ← put_at mem newcard arrayval;
          array_run_buf fuel mem (arraypos + 1) (S newcard) rle rest
      end
    else Some (mem, newcard)
  end.

Definition array_run_container_intersection_inplace (src_1 : array_container_t) (src_2 : run_container_t) :
    option array_container_t :=
  full ← run_container_is_full src_2;
  if full : bool then Some src_1
  else
    match rc_runs src_2 with
    | [] => Some src_1
    | rle :: rest =>
      '(mem, newcard) ← array_run_buf (S (length (ac_array src_1))) (ac_array src_1) 0 0 rle rest;
      Some (mk_array (ac_capacity src_1) (take newcard mem))
    end.

Fixpoint array_run_card_loop (fuel : nat) (a : list Z) (arraypos : Z) (rle : rle16_t) (rest : list rle16_t)
    (newcard : Z) : option Z :=
  match fuel with
  | O => None
  | S fuel =>
    if arraypos <? zlen a then
      arrayval ← rd a arraypos;
      match advance_run rle rest arrayval with
      | None => Some newcard
      | Some (rle, rest) =>
        if arrayval <? r_value rle then
          arraypos ← advanceUntil a arraypos (r_value rle);
          array_run_card_loop fuel a arraypos rle rest newcard
        else array_run_card_loop fuel a (arraypos + 1) rle rest (newcard + 1)
      end
    else Some newcard
  end.

Definition array_run_container_intersection_cardinality (src_1 : array_container_t)
    (src_2 : run_container_t) : option Z :=
  full ← run_container_is_full src_2;
  if full : bool then Some (array_container_cardinality src_1)
  else
    match rc_runs src_2 with
    | [] => Some 0
    | rle :: rest => array_run_card_loop (S (length (ac_array src_1))) (ac_array src_1) 0 rle rest 0
    end.

Fixpoint array_run_intersect_loop (fuel : nat) (a : list Z) (arraypos : Z) (rle : rle16_t)
    (rest : list rle16_t) : option bool :=
  match fuel with
  | O => None
  | S fuel =>
    if arraypos <? zlen a then
      arrayval ← rd a arraypos;
      match advance_run rle rest arrayval with
      | None => Some false
      | Some (rle, rest) =>
        if arrayval <? r_value rle then
          arraypos ← advanceUntil a arraypos (r_value rle);
          array_run_intersect_loop fuel a arraypos rle rest
        else Some true
      end
    else Some false
  end.

Definition array_run_container_intersect (src_1 : array_container_t) (src_2 : run_container_t) : option bool :=
  full ← run_container_is_full src_2;
  if full : bool then Some (negb (array_container_empty src_1))
  else
    match rc_runs src_2 with
    | [] => Some false
    | rle :: rest => array_run_intersect_loop (S (length (ac_array src_1))) (ac_array src_1) 0 rle rest
    end.

(** Everything outside the runs is reset. *)
Fixpoint mask_ranges (l : list rle16_t) (start : Z) (words : list Z) : option (list Z) :=
  match l with
  | [] => bitset_reset_range words start (2 ^ 16)
  | rle :: l =>
    let end_ := r_value rle in
    words ← bitset_reset_range words start end_;
    mask_ranges l (end_ + r_length rle + 1) words
  end.

(** The branch-free loop stores every value at index [n], the number of values
    kept so far, also when it is not kept; the answer has [room] places. *)
Fixpoint keep_branchless (src_2 : bitset_container_t) (l : list Z) (n room : Z) : option (list Z) :=
  match l with
  | [] => Some []
  | runValue :: l =>
    if n <? room then
      c ← bitset_container_contains src_2 runValue;
      rest ← keep_branchless src_2 l (n + if c : bool then 1 else 0) room;
      Some (if c : bool then u16 runValue :: rest else rest)
    else None
  end.

Definition run_bitset_container_intersection (src_1 : run_container_t) (src_2 : bitset_container_t) :
    option container_t :=
  full ← run_container_is_full src_1;
  if full : bool then Some (Bitset (bitset_container_clone src_2))
  else
    let card := run_container_cardinality src_1 in
    if card <=? DEFAULT_MAX_SIZE then
      let card := if bc_cardinality src_2 <? card then bc_cardinality src_2 else card in
      l ← keep_branchless src_2 (run_ints (rc_runs src_1)) 0 card;
      answer ← store_array (array_container_create_given_capacity card) l;
      Some (Array answer)
    else
      words ← mask_ranges (rc_runs src_1) 0 (bc_array (bitset_container_clone src_2));
      answer ← recount words;
      bitset_or_array answer.

(** With [*dst == src_2] the words of [src_2] are the ones that are reset. *)
Definition run_bitset_container_intersection_inplace := run_bitset_container_intersection.

Fixpoint sum_ranges (l : list rle16_t) (words : list Z) (answer : Z) : option Z :=
  match l with
  | [] => Some answer
  | rle :: l =>
    c ← bitset_lenrange_cardinality words (r_value rle) (r_length rle);
    sum_ranges l words (answer + c)
  end.

Definition run_bitset_container_intersection_cardinality (src_1 : run_container_t)
    (src_2 : bitset_container_t) : option Z :=
  full ← run_container_is_full src_1;
  if full : bool then Some (bitset_container_cardinality src_2)
  else sum_ranges (rc_runs src_1) (bc_array src_2) 0.

Fixpoint any_range (l : list rle16_t) (words : list Z) : option bool :=
  match l with
  | [] => Some false
  | rle :: l =>
    e ← bitset_lenrange_empty words (r_value rle) (r_length rle);
    if negb e then Some true else any_range l words
  end.

Definition run_bitset_container_intersect (src_1 : run_container_t) (src_2 : bitset_container_t) :
    option bool :=
  full ← run_container_is_full src_1;
  if full : bool then e ← bitset_container_empty src_2; Some (negb e)
  else any_range (rc_runs src_1) (bc_array src_2).

Definition bitset_bitset_container_intersection (src_1 src_2 : bitset_container_t) : option container_t :=
  newCardinality ← bitset_container_and_justcard src_1 src_2;
  if DEFAULT_MAX_SIZE <? newCardinality then
    let dst := bitset_container_and_nocard src_1 src_2 in
    Some (Bitset (mk_bitset newCardinality (bc_array dst)))
  else
    l ← bitset_extract_intersection_setbits_uint16 (bc_array src_1) (bc_array src_2) 0;
    if zlen l =? newCardinality then Some (Array (mk_array newCardinality l)) else None.

Definition bitset_bitset_container_intersection_inplace := bitset_bitset_container_intersection.

(** ** Negation *)

Definition array_container_negation (src : array_container_t) (dst : bitset_container_t) :
    option bitset_container_t :=
  let card := 2 ^ 16 in
  let dst := bitset_container_set_all dst in
  '(words, card) ← bitset_clear_list (bc_array dst) card (ac_array src);
  Some (mk_bitset (i32 card) words).

(** The two loops over [range_start, range_end): the values of the array from
    [in_pos] to [last_index] are left out. *)
Fixpoint flip_loop (vs : list Z) (a : list Z) (in_pos last_index : Z) : option (list Z) :=
  match vs with
  | [] => Some []
  | val_in_range :: vs =>
    if in_pos <=? last_index then
      x ← rd a in_pos;
      if negb (u16 val_in_range =? x) then
        rest ← flip_loop vs a in_pos last_index;
        Some (u16 val_in_range :: rest)
      else flip_loop vs a (in_pos + 1) last_index
    else
      rest ← flip_loop vs a in_pos last_index;
      Some (u16 val_in_range :: rest)
  end.

Definition array_container_negation_range (src : array_container_t) (range_start range_end : Z) :
    option container_t :=
  if range_end <=? range_start then c ← array_container_clone src; Some (Array c)
  else
    let a := ac_array src in
    start_index ← binarySearch a (u16 range_start);
    let start_index := if start_index <? 0 then - start_index - 1 else start_index in
    last_index ← binarySearch a (u16 (range_end - 1));
    let last_index := if last_index <? 0 then - last_index - 2 else last_index in
    let current_values_in_range := last_index - start_index + 1 in
    let span_to_be_flipped := range_end - range_start in
    let new_values_in_range := span_to_be_flipped - current_values_in_range in
    let cardinality_change := new_values_in_range - current_values_in_range in
    let new_cardinality := array_container_cardinality src + cardinality_change in
    if DEFAULT_MAX_SIZE <? new_cardinality then
      temp ← bitset_container_from_array src;
      words ← bitset_flip_range (bc_array temp) range_start range_end;
      Some (Bitset (mk_bitset new_cardinality words))
    else if new_cardinality =? 0 then Some (Array (array_container_create_given_capacity 0))
    else
      middle ← flip_loop (seqZ range_start (range_end - range_start)) a start_index last_index;
      arr ← store_array (array_container_create_given_capacity new_cardinality)
              (take (Z.to_nat start_index) a ++ middle ++ drop (Z.to_nat (last_index + 1)) a);
      Some (Array arr).

Definition array_container_negation_range_inplace := array_container_negation_range.

Definition bitset_container_negation_range (src : bitset_container_t) (range_start range_end : Z) :
    option container_t :=
  words ← bitset_flip_range (bc_array (bitset_container_clone src)) range_start range_end;
  t ← recount words;
  bitset_or_array t.

Definition bitset_container_negation_range_inplace := bitset_container_negation_range.

Definition bitset_container_negation (src : bitset_container_t) : option container_t :=
  bitset_container_negation_range src 0 (2 ^ 16).

Definition bitset_container_negation_inplace (src : bitset_container_t) : option container_t :=
  bitset_container_negation_range_inplace src 0 (2 ^ 16).

(** The runs that start before the range, and the others. *)
Fixpoint runs_before (l : list rle16_t) (range_start : Z) : list rle16_t * list rle16_t :=
  match l with
  | [] => ([], [])
  | r :: rest =>
    if r_value r <? range_start then let '(a, b) := runs_before rest range_start in (r :: a, b)
    else ([], l)
  end.

Definition run_container_negation_range (src : run_container_t) (range_start range_end : Z) :
    option container_t :=
  if range_end <=? range_start then Some (Run (run_container_clone src))
  else
    let ans := run_container_create_given_capacity (n_runs src + 1) in
    let '(before, from_) := runs_before (rc_runs src) range_start in
    ans ← push_all before ans;
    ans ← run_container_smart_append_exclusive ans (u16 range_start) (u16 (range_end - range_start - 1));
    ans ← append_exclusive_all from_ ans;
    convert_run_to_efficient_container ans.

(** The in-place form writes the runs over the ones it reads, one run behind
    the reading: run [k] is in [buffered] when up to [k] + 1 runs have been
    written.  [mem] is the buffer; [k] runs of it are read, [n] are the output. *)
Definition smart_append_buf (mem : list rle16_t) (n : nat) (start length_ : Z) :
    option (list rle16_t * nat) :=
  out ← run_container_smart_append_exclusive (mk_run (zlen mem) (take n mem)) start length_;
  Some (rc_runs out ++ drop (length (rc_runs out)) mem, length (rc_runs out)).

Fixpoint negation_buf (count : nat) (mem : list rle16_t) (k n : nat) (buffered : rle16_t) (my_nbr_runs : nat) :
    option (list rle16_t * nat) :=
  match count with
  | O => Some (mem, n)
  | S count =>
    next ← (if decide (k + 1 < my_nbr_runs)%nat then mem !! (k + 1)%nat else Some (mk_rle 0 0));
    '(mem, n) ← smart_append_buf mem n (r_value buffered) (r_length buffered);
    negation_buf count mem (k + 1) n next my_nbr_runs
  end.

Definition negation_fits (src : run_container_t) (range_start range_end : Z) : option bool :=
  if negb (rc_capacity src =? n_runs src) then Some true
  else
    last_val_before_range ← (if 0 <? range_start then run_container_contains src (u16 (range_start - 1)) else Some false);
    first_val_in_range ← run_container_contains src (u16 range_start);
    if Bool.eqb last_val_before_range first_val_in_range then
      last_val_in_range ← run_container_contains src (u16 (range_end - 1));
      first_val_past_range ← (if negb (range_end =? 0x10000) then run_container_contains src (u16 range_end) else Some false);
      Some (negb (Bool.eqb last_val_in_range first_val_past_range))
    else Some true.

Definition run_container_negation_range_inplace (src : run_container_t) (range_start range_end : Z) :
    option container_t :=
  if range_end <=? range_start then Some (Run src)
  else
    fits ← negation_fits src range_start range_end;
    if negb fits then run_container_negation_range src range_start range_end
    else
      let my_nbr_runs := length (rc_runs src) in
      let k := length (fst (runs_before (rc_runs src) range_start)) in
      let room := (Z.to_nat (rc_capacity src) - my_nbr_runs)%nat in
      let mem := rc_runs src ++ replicate room (mk_rle 0 0) in
      buffered ← (if decide (k < my_nbr_runs)%nat then mem !! k else Some (mk_rle 0 0));
      '(mem, n) ← smart_append_buf mem k (u16 range_start) (u16 (range_end - range_start - 1));
      '(mem, n) ← negation_buf (my_nbr_runs - k) mem k n buffered my_nbr_runs;
      convert_run_to_efficient_container (mk_run (rc_capacity src) (take n mem)).

Definition run_container_negation (src : run_container_t) : option container_t :=
  run_container_negation_range src 0 (2 ^ 16).

Definition run_container_negation_inplace (src : run_container_t) : option container_t :=
  run_container_negation_range_inplace src 0 (2 ^ 16).

(** ** Inclusion *)

Fixpoint all_keys_in (l : list Z) (b : bitset_container_t) : option bool :=
  match l with
  | [] => Some true
  | key :: l => c ← bitset_container_contains b key; if c : bool then all_keys_in l b else Some false
  end.

Definition array_container_is_subset_bitset (container1 : array_container_t) (container2 : bitset_container_t) :
    option bool :=
  if negb (bc_cardinality container2 =? BITSET_UNKNOWN_CARDINALITY) &&
     (bc_cardinality container2 <? array_container_cardinality container1)
  then Some false
  else all_keys_in (ac_array container1) container2.

Fixpoint run_subset_array_loop (l : list rle16_t) (a : list Z) (stop_pos : Z) : option bool :=
  match l with
  | [] => Some true
  | r :: l =>
    let start := r_value r in
    let stop := start + r_length r in
    start_pos ← advanceUntil a stop_pos (u16 start);
    stop_pos ← advanceUntil a stop_pos (u16 stop);
    if start_pos =? zlen a then Some false
    else if negb (stop_pos - start_pos =? stop - start) then Some false
    else
      x ← rd a start_pos;
      if negb (x =? start) then Some false
      else
        y ← rd a stop_pos;
        if negb (y =? stop) then Some false else run_subset_array_loop l a stop_pos
  end.

Definition run_container_is_subset_array (container1 : run_container_t) (container2 : array_container_t) :
    option bool :=
  if array_container_cardinality container2 <? run_container_cardinality container1 then Some false
  else run_subset_array_loop (rc_runs container1) (ac_array container2) (-1).

Fixpoint array_subset_run_loop (a : list Z) : list rle16_t -> bool :=
  fix inner (l : list rle16_t) :=
    match a, l with
    | [], _ => true
    | _, [] => false
    | x :: a', r :: l' =>
      let start := r_value r in
      let stop := start + r_length r in
      if x <? start then false
      else if stop <? x then inner l'
      else array_subset_run_loop a' l
    end.

Definition array_container_is_subset_run (container1 : array_container_t) (container2 : run_container_t) : bool :=
  if run_container_cardinality container2 <? array_container_cardinality container1 then false
  else array_subset_run_loop (ac_array container1) (rc_runs container2).

Definition run_container_is_subset_bitset (container1 : run_container_t) (container2 : bitset_container_t) :
    option bool :=
  card ← (if negb (bc_cardinality container2 =? BITSET_UNKNOWN_CARDINALITY)
          then Some (bc_cardinality container2)
          else bitset_container_compute_cardinality container2);
  if card <? run_container_cardinality container1 then Some false
  else all_keys_in (run_ints (rc_runs container1)) container2.

(** The bits of word [i_bitset] against the runs: the runs left, or [None]
    inside when a bit is outside of them. *)
Fixpoint subset_word (fuel : nat) (w i_bitset : Z) (runs : list rle16_t) : option (option (list rle16_t)) :=
  match fuel with
  | O => None
  | S fuel =>
    if w =? 0 then Some (Some runs)
    else
      match runs with
      | [] => Some None
      | rle :: rest =>
        let start := r_value rle in
        let stop := start + r_length rle in
        let t := Z.land w (u64 (not64 w + 1)) in
        let r := u16 (i_bitset * 64 + ctz w) in
        if r <? start then Some None
        else if stop <? r then subset_word fuel w i_bitset rest
        else subset_word fuel (Z.lxor w t) i_bitset runs
      end
  end.

(** When the runs are used up the words left have to be zero. *)
Fixpoint subset_words (words : list Z) (i_bitset : Z) (runs : list rle16_t) : option bool :=
  match words with
  | [] => Some true
  | w :: words' =>
    match runs with
    | [] => Some (forallb (fun w => w =? 0) words)
    | _ =>
      o ← subset_word (65 + length runs) w i_bitset runs;
      match o with
      | None => Some false
      | Some runs => subset_words words' (i_bitset + 1) runs
      end
    end
  end.

Definition bitset_container_is_subset_run (container1 : bitset_container_t) (container2 : run_container_t) :
    option bool :=
  if negb (bc_cardinality container1 =? BITSET_UNKNOWN_CARDINALITY) &&
     (run_container_cardinality container2 <? bc_cardinality container1)
  then Some false
  else subset_words (bc_array container1) 0 (rc_runs container2).

(** ** Union *)

Definition array_bitset_container_union (src_1 : array_container_t) (src_2 : bitset_container_t) :
    option bitset_container_t :=
  '(words, card) ← bitset_set_list_withcard (bc_array src_2) (u64 (bc_cardinality src_2)) (ac_array src_1);
  Some (mk_bitset (i32 card) words).

Definition array_bitset_container_lazy_union (src_1 : array_container_t) (src_2 : bitset_container_t) :
    option bitset_container_t :=
  words ← bitset_set_list (bc_array src_2) (ac_array src_1);
  Some (mk_bitset BITSET_UNKNOWN_CARDINALITY words).

Definition run_bitset_container_union (src_1 : run_container_t) (src_2 : bitset_container_t) :
    option bitset_container_t :=
  words ← set_runs (rc_runs src_1) (bc_array src_2);
  recount words.

Definition run_bitset_container_lazy_union (src_1 : run_container_t) (src_2 : bitset_container_t) :
    option bitset_container_t :=
  words ← set_runs (rc_runs src_1) (bc_array src_2);
  Some (mk_bitset BITSET_UNKNOWN_CARDINALITY words).

Fixpoint append_values (l : list Z) (dst : run_container_t) (previousrle : rle16_t) :
    option (run_container_t * rle16_t) :=
  match l with
  | [] => Some (dst, previousrle)
  | x :: l =>
    '(dst, previousrle) ← run_container_append_value dst x previousrle;
    append_values l dst previousrle
  end.

Fixpoint array_run_union_loop (runs : list rle16_t) :
    list Z -> run_container_t -> rle16_t -> option run_container_t :=
  fix inner (a : list Z) (dst : run_container_t) (previousrle : rle16_t) :=
    match runs, a with
    | r :: runs', x :: a' =>
      if r_value r <=? x then
        '(dst, previousrle) ← run_container_append dst r previousrle;
        array_run_union_loop runs' a dst previousrle
      else
        '(dst, previousrle) ← run_container_append_value dst x previousrle;
        inner a' dst previousrle
    | [], _ => fst <$> append_values a dst previousrle
    | _, [] => fst <$> append_all runs dst previousrle
    end.

(** From the first run or value on; both are read. *)
Definition array_run_union_into (a : list Z) (runs : list rle16_t) (dst : run_container_t) :
    option run_container_t :=
  match runs, a with
  | r :: runs', x :: a' =>
    if r_value r <=? x then
      '(dst, previousrle) ← run_container_append_first dst r;
      array_run_union_loop runs' a dst previousrle
    else
      '(dst, previousrle) ← run_container_append_value_first dst x;
      array_run_union_loop runs a' dst previousrle
  | _, _ => None
  end.

(** [run_container_grow] keeps [n_runs] but not the runs: with a [dst] that
    is not empty the result has undefined content. *)
Definition array_run_container_union (src_1 : array_container_t) (src_2 dst : run_container_t) :
    option run_container_t :=
  full ← run_container_is_full src_2;
  if full : bool then Some (run_container_copy src_2 dst)
  else
    match rc_runs dst with
    | [] =>
      let dst := run_container_grow dst (2 * (array_container_cardinality src_1 + n_runs src_2)) false in
      array_run_union_into (ac_array src_1) (rc_runs src_2) dst
    | _ => None
    end.

(** The runs of [src_2] are read from index [maxoutput] on: the output may not
    grow beyond. *)
Definition array_run_container_inplace_union (src_1 : array_container_t) (src_2 : run_container_t) :
    option run_container_t :=
  full ← run_container_is_full src_2;
  if full : bool then Some src_2
  else
    let maxoutput := array_container_cardinality src_1 + n_runs src_2 in
    let neededcapacity := maxoutput + n_runs src_2 in
    let src_2 := if rc_capacity src_2 <? neededcapacity
                 then run_container_grow src_2 neededcapacity true else src_2 in
    out ← array_run_union_into (ac_array src_1) (rc_runs src_2) (mk_run maxoutput []);
    Some (mk_run (rc_capacity src_2) (rc_runs out)).

Definition union_in_bitset (src_1 src_2 : array_container_t) : option bitset_container_t :=
  words ← bitset_set_list (bc_array bitset_container_create) (ac_array src_1);
  '(words, card) ← bitset_set_list_withcard words (array_container_cardinality src_1) (ac_array src_2);
  Some (mk_bitset (i32 card) words).

Definition array_array_container_union (src_1 src_2 : array_container_t) : option container_t :=
  let totalCardinality := array_container_cardinality src_1 + array_container_cardinality src_2 in
  if totalCardinality <=? DEFAULT_MAX_SIZE then
    c ← array_container_union src_1 src_2 (array_container_create_given_capacity totalCardinality);
    Some (Array c)
  else
    ourbitset ← union_in_bitset src_1 src_2;
    bitset_or_array ourbitset.

(** [union_uint16] of the array moved up to index [idx_1] of [mem] and of
    [set_2], written from index [pos] on.  The elements at [idx_1] are read
    when they are compared; the tails are moved. *)
Fixpoint union_buf (mem : list Z) (idx_1 n1 : nat) (set_2 : list Z) (pos : nat) {struct n1} :
    option (list Z * nat) :=
  (fix inner (mem : list Z) (set_2 : list Z) (pos : nat) {struct set_2} : option (list Z * nat) :=
     match n1, set_2 with
     | O, _ => if decide (pos + length set_2 <= length mem)%nat
               then Some (splice mem pos set_2, (pos + length set_2)%nat) else None
     | S _, [] => Some (move_down mem pos idx_1 n1, (pos + n1)%nat)
     | S n1', val_2 :: rest_2 =>
       val_1 ← mem !! idx_1;
       if val_1 <? val_2 then
         mem ← put_at mem pos val_1; union_buf mem (S idx_1) n1' set_2 (S pos)
       else if val_2 <? val_1 then
         mem ← put_at mem pos val_2; inner mem rest_2 (S pos)
       else
         mem ← put_at mem pos val_1; union_buf mem (S idx_1) n1' rest_2 (S pos)
     end) mem set_2 pos.

(** [memmove(array + card_2, array, card_1)], then the union over the array. *)
Definition array_union_over (src_1 src_2 : array_container_t) : option array_container_t :=
  let a := ac_array src_1 in
  let b := ac_array src_2 in
  let mem := take (length b) a ++ replicate (length b - length a) 0 ++ a in
  '(mem, n) ← union_buf mem (length b) (length a) b 0;
  Some (mk_array (ac_capacity src_1) (take n mem)).

(** [*dst == NULL] with a result that is not a bitset stands for [src_1]. *)
Definition array_array_container_inplace_union (src_1 src_2 : array_container_t) : option container_t :=
  let totalCardinality := array_container_cardinality src_1 + array_container_cardinality src_2 in
  if totalCardinality <=? DEFAULT_MAX_SIZE then
    if ac_capacity src_1 <? totalCardinality then
      c ← array_container_union src_1 src_2 (array_container_create_given_capacity (2 * totalCardinality));
      Some (Array c)
    else c ← array_union_over src_1 src_2; Some (Array c)
  else
    ourbitset ← union_in_bitset src_1 src_2;
    if bc_cardinality ourbitset <=? DEFAULT_MAX_SIZE then
      let src_1 := ensure_capacity src_1 (bc_cardinality ourbitset) in
      l ← bitset_extract_setbits_uint16 (bc_array ourbitset) 0;
      c ← store_array src_1 l;
      Some (Array c)
    else Some (Bitset ourbitset).

Definition lazy_in_bitset (src_1 src_2 : array_container_t) : option bitset_container_t :=
  words ← bitset_set_list (bc_array bitset_container_create) (ac_array src_1);
  words ← bitset_set_list words (ac_array src_2);
  Some (mk_bitset BITSET_UNKNOWN_CARDINALITY words).

Definition array_array_container_lazy_union (src_1 src_2 : array_container_t) : option container_t :=
  let totalCardinality := array_container_cardinality src_1 + array_container_cardinality src_2 in
  if totalCardinality <=? ARRAY_LAZY_LOWERBOUND then
    c ← array_container_union src_1 src_2 (array_container_create_given_capacity totalCardinality);
    Some (Array c)
  else b ← lazy_in_bitset src_1 src_2; Some (Bitset b).

Definition array_array_container_lazy_inplace_union (src_1 src_2 : array_container_t) : option container_t :=
  let totalCardinality := array_container_cardinality src_1 + array_container_cardinality src_2 in
  if totalCardinality <=? ARRAY_LAZY_LOWERBOUND then
    if ac_capacity src_1 <? totalCardinality then
      c ← array_container_union src_1 src_2 (array_container_create_given_capacity (2 * totalCardinality));
      Some (Array c)
    else c ← array_union_over src_1 src_2; Some (Array c)
  else b ← lazy_in_bitset src_1 src_2; Some (Bitset b).

(** ** Symmetric difference *)

Definition array_bitset_container_xor (src_1 : array_container_t) (src_2 : bitset_container_t) :
    option container_t :=
  '(words, card) ← bitset_flip_list_withcard (bc_array src_2) (u64 (bc_cardinality src_2)) (ac_array src_1);
  bitset_or_array (mk_bitset (i32 card) words).

Definition array_bitset_container_lazy_xor (src_1 : array_container_t) (src_2 : bitset_container_t) :
    option bitset_container_t :=
  words ← bitset_flip_list (bc_array src_2) (ac_array src_1);
  Some (mk_bitset BITSET_UNKNOWN_CARDINALITY words).

Fixpoint flip_ranges (l : list rle16_t) (words : list Z) : option (list Z) :=
  match l with
  | [] => Some words
  | rle :: l =>
    words ← bitset_flip_range words (r_value rle) (r_value rle + r_length rle + 1);
    flip_ranges l words
  end.

Definition run_bitset_container_xor (src_1 : run_container_t) (src_2 : bitset_container_t) :
    option container_t :=
  words ← flip_ranges (rc_runs src_1) (bc_array src_2);
  result ← recount words;
  bitset_or_array result.

Definition run_bitset_container_lazy_xor (src_1 : run_container_t) (src_2 : bitset_container_t) :
    option bitset_container_t :=
  words ← flip_ranges (rc_runs src_1) (bc_array src_2);
  Some (mk_bitset BITSET_UNKNOWN_CARDINALITY words).

(** Each value of the array is appended as a run of one: the loop of
    [run_container_xor], which takes the first argument's run when both start
    at the same value. *)
Definition array_run_container_lazy_xor (src_1 : array_container_t) (src_2 dst : run_container_t) :
    option run_container_t :=
  let dst := run_container_grow dst (array_container_cardinality src_1 + n_runs src_2) false in
  run_xor_loop (rc_runs src_2) ((fun x => mk_rle x 0) <$> ac_array src_1) (mk_run (rc_capacity dst) []).

Definition array_array_container_xor (src_1 src_2 : array_container_t) : option container_t :=
  let totalCardinality := array_container_cardinality src_1 + array_container_cardinality src_2 in
  if totalCardinality <=? DEFAULT_MAX_SIZE then
    c ← array_container_xor src_1 src_2 (array_container_create_given_capacity totalCardinality);
    Some (Array c)
  else
    ourbitset ← bitset_container_from_array src_1;
    '(words, card) ← bitset_flip_list_withcard (bc_array ourbitset) (array_container_cardinality src_1) (ac_array src_2);
    bitset_or_array (mk_bitset (i32 (u32 card)) words).

Definition array_array_container_lazy_xor (src_1 src_2 : array_container_t) : option container_t :=
  let totalCardinality := array_container_cardinality src_1 + array_container_cardinality src_2 in
  if totalCardinality <=? ARRAY_LAZY_LOWERBOUND then
    c ← array_container_xor src_1 src_2 (array_container_create_given_capacity totalCardinality);
    Some (Array c)
  else
    ourbitset ← bitset_container_from_array src_1;
    words ← bitset_flip_list (bc_array ourbitset) (ac_array src_2);
    Some (Bitset (mk_bitset BITSET_UNKNOWN_CARDINALITY words)).

Definition bitset_array_container_ixor (src_1 : bitset_container_t) (src_2 : array_container_t) :
    option container_t :=
  '(words, card) ← bitset_flip_list_withcard (bc_array src_1) (u64 (bc_cardinality src_1)) (ac_array src_2);
  bitset_or_array (mk_bitset (i32 (u32 card)) words).

Definition array_run_container_xor (src_1 : array_container_t) (src_2 : run_container_t) :
    option container_t :=
  if array_container_cardinality src_1 <? 32 then
    ans ← array_run_container_lazy_xor src_1 src_2 run_container_create;
    convert_run_to_efficient_container_and_free ans
  else
    let card := run_container_cardinality src_2 in
    if card <=? DEFAULT_MAX_SIZE then
      temp ← array_container_from_run src_2;
      array_array_container_xor temp src_1
    else
      result ← bitset_container_from_run src_2;
      bitset_array_container_ixor result src_1.

Definition run_run_container_xor (src_1 src_2 : run_container_t) : option container_t :=
  ans ← run_container_xor src_1 src_2 run_container_create;
  convert_run_to_efficient_container_and_free ans.

Definition bitset_bitset_container_xor (src_1 src_2 : bitset_container_t) : option container_t :=
  ans ← bitset_container_xor src_1 src_2;
  bitset_or_array ans.

Definition bitset_bitset_container_ixor := bitset_bitset_container_xor.
Definition array_bitset_container_ixor := array_bitset_container_xor.
Definition run_bitset_container_ixor := run_bitset_container_xor.

Definition bitset_run_container_ixor (src_1 : bitset_container_t) (src_2 : run_container_t) : option container_t :=
  run_bitset_container_xor src_2 src_1.

Definition array_run_container_ixor := array_run_container_xor.

Definition run_array_container_ixor (src_1 : run_container_t) (src_2 : array_container_t) : option container_t :=
  array_run_container_xor src_2 src_1.

Definition array_array_container_ixor := array_array_container_xor.
Definition run_run_container_ixor := run_run_container_xor.
