(* ===== verification/RoaringMixedAndnot.v ===== *)
(** * Roaring bitmaps: differences between container types

    Every function of [mixed_andnot.c] returns a well-formed container of the
    right type that holds the difference of its arguments. *)

From stdpp Require Import base list list_numbers numbers option sorting.
From Stdlib Require Import ZArith Lia ZifyBool.
From S2P Require Import Prelude.
From S2P Require Import RoaringArrays.
From S2P Require Import RoaringInplace.
From S2P Require Import RoaringArrayContainer.
From S2P Require Import RoaringArrayFacts.
From S2P Require Import RoaringBitset.
From S2P Require Import RoaringBitsetFacts.
From S2P Require Import RoaringBitsetOps.
From S2P Require Import RoaringBitsetContainer.
From S2P Require Import RoaringRun.
From S2P Require Import RoaringRunFacts.
From S2P Require Import RoaringRunOps.
From S2P Require Import RoaringRunSets.
From S2P Require Import RoaringRunContainer.
From S2P Require Import RoaringConvert.
From S2P Require Import RoaringConvertFacts.
From S2P Require Import RoaringMixed.

Local Open Scope Z_scope.

(** ** Keeping some values of an array *)

Section keep.

Context {St : Type} (step : St -> Z -> option (bool * St)) (P : Z -> Prop) `{!forall x, Decision (P x)}
  (Inv : St -> list Z -> Prop)
  (Hstep : forall s x l, Inv s (x :: l) -> exists s', step s x = Some (bool_decide (P x), s') /\ Inv s' l).

Lemma keep_values_spec l : forall s, Inv s l -> keep_values step s l = Some (filter P l).
Proof.
  induction l as [|x l IH]; intros s Hs; [done |]. cbn [keep_values].
  destruct (Hstep s x l Hs) as (s' & -> & Hs'). cbn [mbind option_bind]. rewrite IH by done. cbn [mbind option_bind].
  rewrite filter_cons. case_bool_decide; [rewrite decide_True by done | rewrite decide_False by done]; done.
Qed.

Lemma keep_buf_spec l : forall mem i n s, Inv s l -> (n <= i)%nat -> take (length l) (drop i mem) = l ->
  (i + length l <= length mem)%nat ->
  exists mem', keep_buf step (length l) mem i n s = Some (mem', (n + length (filter P l))%nat) /\
    length mem' = length mem /\ take (n + length (filter P l)) mem' = take n mem ++ filter P l.
Proof.
  induction l as [|x l IH]; intros mem i n s Hs Hn Hl Hlen; cbn [keep_buf length] in *.
  - exists mem. rewrite Nat.add_0_r, app_nil_r. done.
  - destruct (drop i mem) as [|y t] eqn:E; [done |]. cbn [take] in Hl. injection Hl as -> Hl.
    destruct (drop_lookup _ _ _ _ E) as [Hx Hl']. rewrite <- Hl' in Hl. clear Hl'.
    rewrite Hx. cbn [mbind option_bind]. destruct (Hstep s x l Hs) as (s' & -> & Hs'). cbn [mbind option_bind].
    rewrite put_at_ok by lia. cbn [mbind option_bind].
    rewrite filter_cons. case_bool_decide; [rewrite decide_True by done | rewrite decide_False by done].
    + destruct (IH (<[n := x]> mem) (S i) (S n) s') as (mem' & -> & L & T);
        [done | lia | by rewrite drop_insert_lt by lia | rewrite length_insert; lia |].
      exists mem'. split; [f_equal; f_equal; cbn; lia |]. split; [by rewrite L, length_insert |].
      replace (n + length (x :: filter P l))%nat with (S n + length (filter P l))%nat by (cbn; lia).
      rewrite T, take_put by lia. by rewrite <- app_assoc.
    + destruct (IH (<[n := x]> mem) (S i) n s') as (mem' & -> & L & T);
        [done | lia | by rewrite drop_insert_lt by lia | rewrite length_insert; lia |].
      exists mem'. split; [done |]. split; [by rewrite L, length_insert |].
      rewrite T. f_equal. by rewrite take_insert_ge by lia.
Qed.

Lemma keep_inplace_spec s a : Inv s (ac_array a) -> array_ok a ->
  array_result (keep_inplace step s a) (filter P (ac_array a)).
Proof.
  intros Hs Ha. unfold keep_inplace.
  destruct (keep_buf_spec (ac_array a) (ac_array a) 0 0 s) as (mem & -> & L & T); [done | lia | by rewrite drop_0, take_ge | lia |].
  cbn [mbind option_bind]. rewrite Nat.add_0_l in T. rewrite Nat.add_0_l, T, take_0, app_nil_l.
  eexists. split; [done |]. split; [done |]. pose proof (sorted16_filter P _ (array_ok_sorted _ Ha)) as [Hst Hb].
  constructor; [done | done |]. cbn [ac_array ac_capacity]. pose proof (zlen_filter_le P (ac_array a)).
  pose proof (ao_room _ Ha). lia.
Qed.

Lemma keep_store s src dst : Inv s (ac_array src) -> array_ok src ->
  array_result (l ← keep_values step s (ac_array src);
                store_array (ensure_capacity dst (array_container_cardinality src)) l) (filter P (ac_array src)).
Proof.
  intros Hs Ha. rewrite keep_values_spec by done. cbn [mbind option_bind].
  apply store_ensured; [by apply sorted16_filter, array_ok_sorted |].
  unfold array_container_cardinality. split; [apply zlen_filter_le | by apply sorted16_length, array_ok_sorted].
Qed.

End keep.

Lemma in_bitset_step want b : bitset_wf b -> forall s x l, Forall (in_u 16) (x :: l) ->
  exists s', in_bitset want b s x = Some (bool_decide (bool_decide (x ∈ bc_elems b) = want), s') /\
    Forall (in_u 16) l.
Proof.
  intros Hb [] x l [Hx Hl]%Forall_cons. exists tt. split; [| done].
  unfold in_bitset, bitset_container_contains. rewrite bitset_get_spec by done. cbn [mbind option_bind].
  do 2 f_equal. destruct want; repeat case_bool_decide; tauto || done.
Qed.

Lemma filter_in_minus a b : filter (fun x => bool_decide (x ∈ b) = false) a = minus a b.
Proof. apply filter_ext_in. intros x _. apply bool_decide_eq_false. Qed.

Lemma filter_in_inter a b : filter (fun x => bool_decide (x ∈ b) = true) a = inter a b.
Proof. apply filter_ext_in. intros x _. apply bool_decide_eq_true. Qed.

Lemma array_bitset_andnot_spec a b dst : array_ok a -> bitset_wf b ->
  array_result (array_bitset_container_andnot a b dst) (minus (ac_array a) (bc_elems b)).
Proof.
  intros Ha Hb. rewrite <- filter_in_minus. by eapply (keep_store _ _ _ (in_bitset_step false b Hb)); [apply Ha |].
Qed.

Lemma array_bitset_iandnot_spec a b : array_ok a -> bitset_wf b ->
  array_result (array_bitset_container_iandnot a b) (minus (ac_array a) (bc_elems b)).
Proof.
  intros Ha Hb. rewrite <- filter_in_minus. by eapply (keep_inplace_spec _ _ _ (in_bitset_step false b Hb)); [apply Ha |].
Qed.

(** ** Bitsets that are updated in place *)

Lemma recount_spec ws l : words_ok ws -> zlen ws = 1024 -> elems ws = l ->
  bitset_result (recount ws) l.
Proof.
  intros Hw Hl <-. unfold recount. rewrite (bitset_compute_cardinality_spec (mk_bitset 0 ws)) by by constructor.
  cbn [mbind option_bind]. eexists. split; [done |]. split; [by apply words_bitset_ok | done].
Qed.

Lemma recount_sized o l : bitset_result o l -> container_result (b ← o; bitset_or_array b) l.
Proof. intros (b & -> & Hb & <-). cbn [mbind option_bind]. by apply to_sized_spec. Qed.

(** The cardinality that the [_withcard] loops return is that of the set. *)
Lemma withcard_ok b ws c : bitset_ok b -> words_ok ws -> zlen ws = zlen (bc_array b) ->
  c = u64 (u64 (bc_cardinality b) + (popcount ws - popcount (bc_array b))) ->
  bitset_ok (mk_bitset (i32 c) ws) /\ i32 (u32 c) = i32 c.
Proof.
  intros [[Hl Hw] Hc] Hws Hlen ->. rewrite u64_add_l, Hc.
  pose proof (popcount_range ws). rewrite Hlen, Hl in *.
  replace (u64 (popcount (bc_array b) + (popcount ws - popcount (bc_array b)))) with (popcount ws).
  2: { unfold u64. rewrite uwrap_id; [lia |]. unfold in_u. lia. }
  assert (i32 (popcount ws) = popcount ws) as Hi by (apply swrap_id; [unfold in_s; lia | lia]).
  assert (u32 (popcount ws) = popcount ws) as Hu by (apply uwrap_id; unfold in_u; lia).
  rewrite Hu, Hi. split; [| done]. constructor; [by constructor | done].
Qed.

Lemma in_words16 b l : bitset_wf b -> Forall (in_u 16) l -> Forall (in_words (bc_array b)) l.
Proof. intros Hb Hl. eapply Forall_impl; [exact Hl |]. intros x Hx. by apply bc_words. Qed.

Lemma card_u64 b : bitset_ok b -> in_u 64 (u64 (bc_cardinality b)).
Proof. intros Hb. apply uwrap_range. lia. Qed.

Lemma clear_list_ok b l : bitset_ok b -> sorted16 l ->
  exists ws c, bitset_clear_list (bc_array b) (u64 (bc_cardinality b)) l = Some (ws, c) /\
    bitset_ok (mk_bitset (i32 c) ws) /\ i32 (u32 c) = i32 c /\ elems ws = minus (bc_elems b) l.
Proof.
  intros Hb [Hst Hl]. pose proof (bo_wf _ Hb) as W.
  destruct (bitset_clear_list_spec l (bc_array b) (u64 (bc_cardinality b))) as (ws & -> & L & Hw & X);
    [apply W | by apply in_words16 | by apply card_u64 |].
  eexists ws, _. split; [done |]. destruct (withcard_ok b ws _ Hb Hw L eq_refl) as [O U]. split; [done |]. split; [done |].
  apply strict_ext; [apply elems_strict | apply strict_filter, bc_elems_strict |]. intros x. by rewrite X, elem_of_minus.
Qed.

Lemma set_list_ok b l : bitset_ok b -> sorted16 l ->
  exists ws c, bitset_set_list_withcard (bc_array b) (u64 (bc_cardinality b)) l = Some (ws, c) /\
    bitset_ok (mk_bitset (i32 c) ws) /\ elems ws = union_loop (bc_elems b) l.
Proof.
  intros Hb [Hst Hl]. pose proof (bo_wf _ Hb) as W.
  destruct (bitset_set_list_withcard_spec l (bc_array b) (u64 (bc_cardinality b))) as (ws & -> & _ & L & Hw & X);
    [apply W | by apply in_words16 | by apply card_u64 |].
  eexists ws, _. split; [done |]. destruct (withcard_ok b ws _ Hb Hw L eq_refl) as [O _]. split; [done |].
  apply strict_ext; [apply elems_strict | apply union_loop_strict; [apply bc_elems_strict | done] |].
  intros x. by rewrite X, elem_of_union_loop.
Qed.

Lemma strict_NoDup l : strict l -> NoDup l.
Proof.
  induction l as [|x l IH]; intros H; constructor.
  - intros Hx. pose proof (strict_head _ _ _ H Hx). lia.
  - by apply IH, (strict_tail _ _ H).
Qed.

Lemma flip_list_ok b l : bitset_ok b -> sorted16 l ->
  exists ws c, bitset_flip_list_withcard (bc_array b) (u64 (bc_cardinality b)) l = Some (ws, c) /\
    bitset_ok (mk_bitset (i32 c) ws) /\ i32 (u32 c) = i32 c /\ elems ws = xor_uint16 (bc_elems b) l.
Proof.
  intros Hb [Hst Hl]. pose proof (bo_wf _ Hb) as W. pose proof (bc_elems_strict b).
  destruct (bitset_flip_list_withcard_spec l (bc_array b) (u64 (bc_cardinality b))) as (ws & -> & _ & L & Hw & X);
    [apply W | by apply in_words16 | by apply strict_NoDup | by apply card_u64 |].
  eexists ws, _. split; [done |]. destruct (withcard_ok b ws _ Hb Hw L eq_refl) as [O U]. split; [done |]. split; [done |].
  apply strict_ext; [apply elems_strict | by apply xor_strict |]. intros x. by rewrite X, elem_of_xor.
Qed.

(** ** The differences *)

Lemma bitset_array_andnot_spec b a : bitset_ok b -> array_ok a ->
  container_result (bitset_array_container_andnot b a) (minus (bc_elems b) (ac_array a)).
Proof.
  intros Hb Ha. unfold bitset_array_container_andnot.
  destruct (clear_list_ok b (ac_array a) Hb (array_ok_sorted _ Ha)) as (ws & c & -> & O & _ & E).
  cbn [mbind option_bind]. by apply to_sized_spec.
Qed.

Lemma bitset_bitset_andnot_spec b1 b2 : bitset_wf b1 -> bitset_wf b2 ->
  container_result (bitset_bitset_container_andnot b1 b2) (minus (bc_elems b1) (bc_elems b2)).
Proof. intros H1 H2. by apply recount_sized, (bitset_fn_spec _ _ word_op_andnot). Qed.

Lemma reset_ranges_spec l : forall ws, words_ok ws -> zlen ws = 1024 -> Forall run_wf l ->
  exists ws', reset_ranges l ws = Some ws' /\ words_ok ws' /\ zlen ws' = 1024 /\
    forall x, x ∈ elems ws' <-> x ∈ elems ws /\ ~ (x ∈ expand l).
Proof.
  induction l as [|r l IH]; intros ws Hw Hl Hr.
  - exists ws. split; [done |]. split; [done |]. split; [done |]. intros x. members.
  - apply Forall_cons in Hr as [(R1 & R2 & R3) Hr]. unfold r_max in R3.
    destruct (reset_range_result ws (r_value r) (r_value r + r_length r + 1)) as (ws1 & E & L1 & W1 & E1); [done | lia.. |].
    cbn [reset_ranges]. rewrite E. cbn [mbind option_bind].
    destruct (IH ws1 W1 ltac:(lia) Hr) as (ws2 & -> & W2 & L2 & E2). exists ws2.
    split; [done |]. split; [done |]. split; [done |]. intros x. rewrite E2, E1, elem_of_minus, elem_of_seqZ. members.
Qed.

Lemma bitset_run_andnot_spec b r : bitset_wf b -> run_ok r ->
  container_result (bitset_run_container_andnot b r) (minus (bc_elems b) (rc_elems r)).
Proof.
  intros [Hl Hw] Hr. unfold bitset_run_container_andnot.
  destruct (reset_ranges_spec (rc_runs r) (bc_array b) Hw Hl) as (ws & -> & W & L & X); [apply Hr |]. cbn [mbind option_bind].
  apply recount_sized, recount_spec; [done | done |].
  apply strict_ext; [apply elems_strict | apply strict_filter, elems_strict |]. intros x. by rewrite X, elem_of_minus.
Qed.

Lemma run_run_andnot_spec r1 r2 : run_ok r1 -> run_ok r2 -> rc_runs r1 <> [] -> rc_runs r2 <> [] ->
  container_result (run_run_container_andnot r1 r2) (minus (rc_elems r1) (rc_elems r2)).
Proof.
  intros H1 H2 N1 N2. unfold run_run_container_andnot.
  destruct (run_andnot_spec r1 r2 run_container_create H1 H2 N1 N2) as (r & -> & O & E). cbn [mbind option_bind].
  unfold rc_elems. rewrite <-E. by apply convert_run_to_efficient_spec.
Qed.

(** A run container without a bitset. *)

Lemma minus_app a b c : minus (a ++ b) c = minus a c ++ minus b c.
Proof. apply filter_app. Qed.

Lemma zlen_minus_le a b : zlen (minus a b) <= zlen a.
Proof. apply zlen_filter_le. Qed.

Lemma store_created n l : sorted16 l -> zlen l <= n -> n <= DEFAULT_MAX_SIZE ->
  container_result (a ← store_array (array_container_create_given_capacity n) l; Some (Array a)) l.
Proof.
  intros Hs Hl Hn. destruct (store_array_ok (array_container_create_given_capacity n) l Hs Hl) as (c & -> & E & O).
  cbn [mbind option_bind]. exists (Array c). split; [done |]. split; [done |]. cbn. rewrite E. split; [lia | done].
Qed.

Lemma andnot_ranges_spec l : forall ws p, words_ok ws -> zlen ws = 1024 -> runs_ok l -> starts_from p l -> 0 <= p <= 65536 ->
  exists ws', andnot_ranges l p ws = Some ws' /\ words_ok ws' /\ zlen ws' = 1024 /\
    forall x, x ∈ elems ws' <-> (x ∈ elems ws /\ x < p) \/ (p <= x /\ x ∈ expand l /\ ~ (x ∈ elems ws)).
Proof.
  induction l as [|r l IH]; intros ws p Hw Hl Hr Hp P; cbn [andnot_ranges].
  - destruct (reset_range_result ws p (2 ^ 16)) as (ws1 & -> & L1 & W1 & E1); [done | lia.. |].
    exists ws1. split; [done |]. split; [done |]. split; [lia |]. intros x. rewrite E1, elem_of_minus, elem_of_seqZ.
    pose proof (elems_range ws x) as Hx. rewrite Hl in Hx. revert Hx. members.
  - apply runs_ok_cons in Hr as ((R1 & R2 & R3) & Rs & Hr). apply starts_from_cons in Hp as [Hp _]. unfold r_max in *.
    destruct (reset_range_result ws p (r_value r)) as (ws1 & -> & L1 & W1 & E1); [done | lia.. |]. cbn [mbind option_bind].
    destruct (flip_range_result ws1 (r_value r) (r_value r + r_length r + 1)) as (ws2 & -> & L2 & W2 & E2); [done | lia.. |].
    cbn [mbind option_bind].
    destruct (IH ws2 (r_value r + r_length r + 1) W2 ltac:(lia) Hr) as (ws3 & -> & W3 & L3 & E3).
    { eapply Forall_impl; [exact Rs | cbn; lia]. }
    { lia. }
    exists ws3. split; [done |]. split; [done |]. split; [done |]. intros x.
    rewrite E3, E2, elem_of_xor, E1, elem_of_minus, !elem_of_seqZ by (apply elems_strict || apply seqZ_strict).
    pose proof (starts_after_elem _ l x Rs) as Hx. revert Hx. members.
Qed.

Lemma run_bitset_andnot_spec r b : run_ok r -> bitset_wf b ->
  container_result (run_bitset_container_andnot r b) (minus (rc_elems r) (bc_elems b)).
Proof.
  intros Hr Hb. unfold run_bitset_container_andnot. rewrite run_cardinality_spec by done. pose proof (expand_sorted _ (ro_runs _ Hr)) as Hs.
  destruct (Z.leb_spec (zlen (expand (rc_runs r))) DEFAULT_MAX_SIZE).
  - change (run_ints (rc_runs r)) with (expand (rc_runs r)).
    rewrite (keep_values_spec _ (fun x => x ∉ bc_elems b) (fun _ l => Forall (in_u 16) l)); [| | apply Hs].
    + cbn [mbind option_bind]. fold (minus (expand (rc_runs r)) (bc_elems b)).
      rewrite map_u16_id by apply sorted16_minus, Hs.
      apply store_created; [by apply sorted16_minus | apply zlen_minus_le | done].
    + intros [] x l [Hx Hl]%Forall_cons. exists tt. split; [| done]. unfold bit_clear. rewrite u16_id by (unfold in_u in Hx; lia).
      rewrite bitset_get_spec by done. cbn [mbind option_bind]. do 2 f_equal. by rewrite bool_decide_not.
  - destruct (andnot_ranges_spec (rc_runs r) (bc_array b) 0) as (ws & E & W & L & X); [apply Hb | apply Hb | apply Hr | | done |].
    { eapply Forall_impl; [apply Hr |]. unfold run_wf. cbn. lia. }
    unfold bitset_container_clone. cbn [bc_array]. rewrite E. cbn [mbind option_bind].
    apply recount_sized, recount_spec; [done | done |].
    apply strict_ext; [apply elems_strict | apply strict_filter, Hs |].
    intros x. rewrite X, elem_of_minus. unfold rc_elems, bc_elems. pose proof (expand_range (rc_runs r) x (ro_runs _ Hr)) as Hx.
    pose proof (elems_range (bc_array b) x) as Hx'. unfold in_u in Hx. revert Hx Hx'. members.
Qed.

(** A run container without an array. *)

Lemma run_clone_result r : run_ok r -> container_result (Some (Run (run_container_clone r))) (rc_elems r).
Proof. destruct r. intros Hr. eexists. split; [done |]. split; [exact Hr |]. done. Qed.

Lemma runs_le_elems l : runs_ok l -> zlen l <= zlen (expand l).
Proof.
  induction l as [|r l IH]; [done |]. intros ((? & ? & ?) & _ & Hl)%runs_ok_cons. specialize (IH Hl).
  rewrite expand_cons, zlen_app, zlen_run_values, zlen_cons by done. lia.
Qed.

Definition ones (l : list Z) : list rle16_t := (fun x => mk_rle x 0) <$> l.

Lemma expand_ones l : expand (ones l) = l.
Proof.
  induction l as [|x l IH]; [done |]. unfold ones. rewrite fmap_cons, expand_cons. fold (ones l). by rewrite IH.
Qed.

Lemma ones_touch l : sorted16 l -> runs_touch (ones l).
Proof.
  intros [Hs Hr]. induction l as [|x l IH]; [apply runs_touch_nil |]. apply Forall_cons in Hr as [Hx Hr].
  unfold ones. rewrite fmap_cons. fold (ones l). apply runs_touch_cons. unfold run_wf, r_max, in_u in *. cbn [r_value r_length].
  split; [lia |]. split; [| by apply IH; [apply (strict_tail _ _ Hs) |]].
  apply Forall_fmap, Forall_forall. intros y Hy. cbn. pose proof (strict_head _ _ _ Hs Hy). lia.
Qed.

Lemma zlen_ones l : zlen (ones l) = zlen l.
Proof. unfold zlen, ones. by rewrite length_fmap. Qed.

(** Where the next search for [v] starts: not after the values below it. *)
Definition before_value (a : list Z) (pos v : Z) : Prop := -1 <= pos /\ (pos + 1 <= lb a v \/ zlen a <= lb a v).

Lemma before_value_mono a pos v v' : before_value a pos v -> v <= v' -> before_value a pos v'.
Proof. intros [H1 H2] Hv. pose proof (lb_mono a v v' Hv). split; [done | lia]. Qed.

Lemma advance_before a pos v : strict a -> before_value a pos v ->
  exists p, advanceUntil a pos v = Some p /\ 0 <= p /\ (p = lb a v \/ (zlen a <= p /\ lb a v = zlen a)).
Proof.
  intros Hs [H1 H2]. rewrite advanceUntil_spec by done. pose proof (lb_range a v). eexists. split; [done |]. lia.
Qed.

Lemma minus_cons x l b : minus (x :: l) b = if decide (x ∈ b) then minus l b else x :: minus l b.
Proof. unfold minus. rewrite filter_cons. repeat case_decide; tauto || done. Qed.

Lemma minus_above l a : Forall (fun x => zlen a <= lb a x) l -> strict a -> minus l a = l.
Proof.
  intros H Hs. induction H as [|x l Hx _ IH]; [done |]. rewrite minus_cons, decide_False, IH; [done |].
  intros Hin%rd_lb_elem; [| done]. pose proof (rd_bound _ _ _ Hin). lia.
Qed.

(** [next] is the value of the array at [p], the first one from [s] on, or 0
    behind the last one. *)
Definition next_value (a : list Z) (p next s : Z) : Prop :=
  0 <= p /\ ((rd a p = Some next /\ lb a s = p) \/ (next = 0 /\ 1 <= s /\ lb a s = zlen a /\ p = zlen a - 1)).

Lemma subtract_values_spec a k : sorted16 a -> forall s p next, next_value a p next s -> 0 <= s -> s + Z.of_nat k <= 65536 ->
  exists p', subtract_values (seqZ s (Z.of_nat k)) a p next = Some (minus (seqZ s (Z.of_nat k)) a, p') /\
    0 <= p' <= lb a (s + Z.of_nat k).
Proof.
  intros [Hs Hr]. induction k as [|k IH]; intros s p next [Hp Hn] H0 Hk.
  - exists p. split; [done |]. rewrite Z.add_0_r. destruct Hn as [[_ Hn] | Hn]; lia.
  - rewrite seqZ_cons by lia. replace (Z.pred (Z.of_nat (S k))) with (Z.of_nat k) by lia.
    replace (s + Z.of_nat (S k)) with (Z.succ s + Z.of_nat k) by lia. cbn [subtract_values]. rewrite minus_cons.
    pose proof (lb_succ a s Hs) as Hsucc. change (s + 1) with (Z.succ s) in Hsucc.
    destruct (Z.eqb_spec s next) as [<- | Hne]; cbn [negb].
    + destruct Hn as [[Hrd Hlb] | ?]; [| lia]. rewrite decide_True in Hsucc by by eapply rd_elem. rewrite decide_True by by eapply rd_elem.
      pose proof (rd_bound _ _ _ Hrd).
      destruct (Z.leb_spec (zlen a) (p + 1)).
      * apply IH; [| lia | lia]. split; [done |]. right. lia.
      * destruct (rd_Some a (p + 1)) as [next Hnext]; [lia |]. rewrite Hnext. cbn [mbind option_bind].
        apply IH; [| lia | lia]. split; [lia |]. left. split; [done | lia].
    + assert (s ∉ a) as Hin.
      { intros Hin. pose proof (rd_lb_elem a s Hs Hin) as Hrd. destruct Hn as [[Hrd' Hlb] | (_ & _ & Hlb & _)].
        - rewrite Hlb in Hrd. congruence.
        - pose proof (rd_bound _ _ _ Hrd). lia. }
      rewrite decide_False in Hsucc by done. rewrite decide_False by done. rewrite u16_id by lia.
      destruct (IH (Z.succ s) p next) as (p' & -> & Hp'); [| lia | lia |].
      { split; [done |]. destruct Hn as [[? ?] | ?]; [left; split; [done | lia] | right; lia]. }
      cbn [mbind option_bind]. by exists p'.
Qed.

Lemma expand_run_seq r l : expand (r :: l) = seqZ (r_value r) (r_value r + r_length r + 1 - r_value r) ++ expand l.
Proof. rewrite expand_cons. unfold run_values. do 2 f_equal. lia. Qed.

Lemma seqZ_above a s n : zlen a <= lb a s -> Forall (fun x => zlen a <= lb a x) (seqZ s n).
Proof. intros H. apply Forall_forall. intros x Hx%elem_of_seqZ. pose proof (lb_mono a s x). lia. Qed.

Lemma seqZ_between a s n : strict a -> zlen a > lb a s -> (forall v, rd a (lb a s) = Some v -> s + n <= v) ->
  minus (seqZ s n) a = seqZ s n.
Proof.
  intros Hs Hz Hv. apply strict_ext; [apply strict_filter, seqZ_strict | apply seqZ_strict |].
  intros x. rewrite elem_of_minus. split; [by intros [? _] |]. intros Hx. split; [done |]. revert Hx. intros Hx%elem_of_seqZ Hin.
  pose proof (lb_range a s). destruct (rd_Some a (lb a s)) as [v E]; [lia |]. specialize (Hv v E).
  pose proof (rd_lb_elem a x Hs Hin) as Ex. pose proof (lb_mono a s x).
  pose proof (lb_lookup a x (lb a s) v Hs E). replace (lb a x) with (lb a s) in Ex by lia. rewrite E in Ex.
  injection Ex as ->. lia.
Qed.

Lemma run_array_subtract_spec l a : forall pos, sorted16 a -> runs_ok l ->
  match l with r :: _ => before_value a pos (r_value r) | [] => True end ->
  run_array_array_subtract l a pos = Some (minus (expand l) a).
Proof.
  induction l as [|r l IH]; intros pos Ha Hl Hpos; [done |]. pose proof Ha as [Hs _].
  apply runs_ok_cons in Hl as ((R1 & R2 & R3) & Rs & Hl). unfold r_max in *. cbn [run_array_array_subtract].
  assert (forall p, before_value a p (r_value r + r_length r + 1) ->
    run_array_array_subtract l a p = Some (minus (expand l) a)) as Hrest.
  { intros p Hp. apply IH; [done | done |]. destruct l as [|r' l]; [done |]. apply starts_after_cons in Rs as [Rs _].
    eapply before_value_mono; [exact Hp | lia]. }
  rewrite u16_id by lia. destruct (advance_before a pos (r_value r)) as (p & -> & P0 & Hp); [done | done |].
  cbn [mbind option_bind]. rewrite expand_run_seq, minus_app.
  rewrite (map_u16_id (seqZ _ _)) by (apply seqZ_u16; lia).
  pose proof (lb_mono a (r_value r) (r_value r + r_length r + 1) ltac:(lia)). pose proof (lb_range a (r_value r + r_length r + 1)).
  pose proof (lb_range a (r_value r)).
  destruct (Z.leb_spec (zlen a) p).
  - rewrite Hrest by (split; lia). cbn [mbind option_bind]. f_equal. f_equal.
    rewrite minus_above; [done | | done]. apply seqZ_above. lia.
  - destruct Hp as [-> | ?]; [| lia]. destruct (rd_Some a (lb a (r_value r))) as [v Ev]; [lia |]. rewrite Ev. cbn [mbind option_bind].
    destruct (Z.leb_spec (r_value r + r_length r + 1) v).
    + rewrite Hrest by (split; lia). cbn [mbind option_bind]. f_equal. f_equal. symmetry.
      apply seqZ_between; [done | lia |]. intros v' Ev'. rewrite Ev in Ev'. injection Ev' as <-. lia.
    + destruct (subtract_values_spec a (Z.to_nat (r_length r + 1)) Ha (r_value r) (lb a (r_value r)) v) as (p' & E & Hp');
        [by split; [| left] | lia | lia |].
      rewrite Z2Nat.id in E, Hp' by lia.
      replace (r_value r + r_length r + 1 - r_value r) with (r_length r + 1) by lia. rewrite E. cbn [mbind option_bind].
      rewrite Hrest by (split; [lia |]; left; rewrite Z.sub_add; replace (r_value r + r_length r + 1) with (r_value r + (r_length r + 1)) by lia; lia).
      done.
Qed.

Lemma run_array_andnot_spec r a : run_ok r -> array_ok a -> rc_runs r <> [] ->
  container_result (run_array_container_andnot r a) (minus (rc_elems r) (ac_array a)).
Proof.
  intros Hr Ha Hne. unfold run_array_container_andnot. rewrite run_cardinality_spec by done.
  pose proof (array_ok_sorted _ Ha) as Sa. pose proof (expand_sorted _ (ro_runs _ Hr)) as Sr. unfold array_container_cardinality.
  destruct (Z.leb_spec (zlen (expand (rc_runs r))) 32); [| destruct (Z.leb_spec (zlen (expand (rc_runs r))) DEFAULT_MAX_SIZE)].
  - destruct (Z.eqb_spec (zlen (ac_array a)) 0) as [Hz%Z.eqb_eq%zlen_zero |].
    { rewrite Hz, minus_nil_r. apply run_clone_result, Hr. }
    unfold rc_elems in *. destruct (rc_runs r) as [|x l] eqn:E; [done |]. pose proof (ro_runs _ Hr) as Or. rewrite E in Or.
    change (rd (x :: l) 0) with (Some x). cbn [mbind option_bind]. fold (ones (ac_array a)).
    pose proof Or as ((? & ? & ?) & _ & _)%runs_ok_cons. pose proof (spent_bound (ones (ac_array a)) (r_value x)).
    pose proof (zlen_ones (ac_array a)) as Z1. pose proof (runs_le_elems _ Or).
    destruct (run_andnot_loop_spec (S (2 * (length (x :: l) + length (ones (ac_array a)))))
      (zlen (expand (x :: l)) + zlen (ac_array a)) [] x l (ones (ac_array a)) (r_value x)) as (o & Eo & O & Z & X).
    + constructor; try done; [apply runs_ok_nil | by apply ones_touch | unfold r_max in *; lia | constructor].
    + unfold zlen in *. lia.
    + change (zlen []) with 0. lia.
    + unfold r_max in Eo. unfold run_container_create_given_capacity. rewrite Eo. cbn [mbind option_bind].
      replace (minus (expand (x :: l)) (ac_array a)) with (rc_elems (mk_run (zlen (expand (x :: l)) + zlen (ac_array a)) o)).
      * apply convert_run_to_efficient_spec. by constructor.
      * apply strict_ext; [by apply expand_strict | apply strict_filter, Sr |]. intros z. unfold rc_elems. cbn [rc_runs].
        rewrite X, elem_of_minus, expand_ones. members.
  - rewrite run_array_subtract_spec; [| done | apply Hr |].
    + cbn [mbind option_bind]. apply store_created; [by apply sorted16_minus | apply zlen_minus_le | done].
    + destruct (rc_runs r) as [|x l]; [done |]. pose proof (lb_range (ac_array a) (r_value x)). split; lia.
  - destruct (bitset_from_run_spec r Hr) as (b & -> & Hb & E). cbn [mbind option_bind]. rewrite <- E.
    by apply bitset_array_andnot_spec.
Qed.

(** An array without a run container: the cursor is at a run, and the values
    still to come are in the runs exactly when they are in that run or in one
    of those after it. *)

Definition cursor_ok (cur : run_cursor) : Prop :=
  let '(s, e, rest) := cur in s <= e /\ runs_ok rest /\ starts_after e rest.

Definition in_cursor (cur : run_cursor) (x : Z) : Prop :=
  let '(s, e, rest) := cur in s <= x <= e \/ x ∈ expand rest.

Lemma next_run_spec rest val : runs_ok rest -> val <= 65535 ->
  cursor_ok (next_run rest val) /\ val <= snd (fst (next_run rest val)) /\
  forall x, val <= x <= 65535 -> in_cursor (next_run rest val) x <-> x ∈ expand rest.
Proof.
  induction rest as [|r rest IH]; intros Hr Hv; cbn [next_run].
  - split; [split; [lia | split; [apply runs_ok_nil | constructor]] |]. split; [cbn; lia |]. intros x Hx. unfold in_cursor. members.
  - apply runs_ok_cons in Hr as ((R1 & R2 & R3) & Rs & Hr). destruct (Z.ltb_spec (r_value r + r_length r) val).
    + destruct (IH Hr Hv) as (C & V & X). split; [done |]. split; [done |]. intros x Hx. rewrite X by done. members.
    + unfold r_max in *. split; [split; [lia | done] |]. split; [cbn; lia |]. intros x Hx. unfold in_cursor. members.
Qed.

Definition cursor_inv (runs : list rle16_t) (cur : run_cursor) (l : list Z) : Prop :=
  strict l /\ Forall (in_u 16) l /\ cursor_ok cur /\ forall x, x ∈ l -> in_cursor cur x <-> x ∈ expand runs.

Lemma outside_runs_step runs cur x l : cursor_inv runs cur (x :: l) ->
  exists cur', outside_runs cur x = Some (bool_decide (x ∉ expand runs), cur') /\ cursor_inv runs cur' l.
Proof.
  destruct cur as [[s e] rest]. intros (Hl & Hr & (C1 & C2 & C3) & X). pose proof Hr as [Hx Hr']%Forall_cons. unfold in_u in Hx.
  set (cur := if (s <=? x) && (e <? x) then next_run rest x else (s, e, rest)).
  assert (cursor_ok cur /\ (fst (fst cur) <= x -> x <= snd (fst cur)) /\
          forall y, x <= y <= 65535 -> in_cursor cur y <-> in_cursor (s, e, rest) y) as (O & V & Y).
  { unfold cur. destruct ((s <=? x) && (e <? x)) eqn:E.
    - destruct (next_run_spec rest x C2 ltac:(lia)) as (O & V & Y). split; [done |]. split; [done |]. intros y Hy.
      rewrite Y by done. unfold in_cursor. split; [auto |]. intros [? | ?]; [lia | done].
    - split; [done |]. split; [cbn; lia | done]. }
  unfold outside_runs. fold cur. destruct cur as [[s' e'] rest'] eqn:Ec. cbn [fst snd] in V. destruct O as (O1 & O2 & O3).
  exists (s', e', rest'). split.
  - do 2 f_equal. apply eq_true_iff_eq. rewrite bool_decide_eq_true, <- X by apply list_elem_of_here.
    rewrite <- Y by lia.
    pose proof (starts_after_elem _ rest' x O3) as Hx'. revert Hx'. unfold in_cursor. abstract_members. lia.
  - split; [by apply (strict_tail _ _ Hl) |]. split; [done |]. split; [done |]. intros y Hy.
    rewrite Forall_forall in Hr'. pose proof (Hr' y Hy) as Hu. unfold in_u in Hu. pose proof (strict_head _ _ _ Hl Hy).
    rewrite Y by lia. apply X. by constructor.
Qed.

Lemma cursor_start r runs a : runs_ok (r :: runs) -> array_ok a ->
  cursor_inv (r :: runs) (r_value r, r_value r + r_length r, runs) (ac_array a).
Proof.
  intros ((R1 & R2 & R3) & Rs & Hr)%runs_ok_cons [Hs Hb _]. split; [done |]. split; [done |].
  split; [split; [lia | done] |]. intros x _. unfold in_cursor. members.
Qed.

Lemma array_run_andnot_spec a r dst : array_ok a -> run_ok r ->
  array_result (array_run_container_andnot a r dst) (minus (ac_array a) (rc_elems r)).
Proof.
  intros Ha [Hr _]. unfold array_run_container_andnot, rc_elems. destruct (rc_runs r) as [|x l].
  - rewrite expand_nil, minus_nil_r. pose proof (array_ok_sorted _ Ha).
    apply store_ensured; [done |]. split; [done | by apply sorted16_length].
  - by apply (keep_store _ _ _ (outside_runs_step (x :: l))); [apply cursor_start |].
Qed.

Lemma array_run_iandnot_spec a r : array_ok a -> run_ok r ->
  array_result (array_run_container_iandnot a r) (minus (ac_array a) (rc_elems r)).
Proof.
  intros Ha [Hr _]. unfold array_run_container_iandnot, rc_elems. destruct (rc_runs r) as [|x l].
  - rewrite expand_nil, minus_nil_r. by exists a.
  - by apply (keep_inplace_spec _ _ _ (outside_runs_step (x :: l))); [apply cursor_start |].
Qed.
