(* ===== verification/RoaringMixedInter.v ===== *)
(** * Roaring bitmaps: intersections between container types

    Every function of [mixed_intersection.c] returns a well-formed container
    of the right type that holds the intersection of its arguments, its
    cardinality, or whether it has a value. *)

From stdpp Require Import base list list_numbers numbers option sorting.
From Stdlib Require Import ZArith Lia ZifyBool.
From S2P Require Import Prelude.
From S2P Require Import RoaringArrays.
From S2P Require Import RoaringInplace.
From S2P Require Import RoaringArrayContainer.
From S2P Require Import RoaringArrayFacts.
From S2P Require Import RoaringBitset.
From S2P Require Import RoaringBitsetFacts.
From S2P Require Import RoaringBitsetOps.
From S2P Require Import RoaringBitsetContainer.
From S2P Require Import RoaringRun.
From S2P Require Import RoaringRunFacts.
From S2P Require Import RoaringRunOps.
From S2P Require Import RoaringRunSets.
From S2P Require Import RoaringRunContainer.
From S2P Require Import RoaringConvert.
From S2P Require Import RoaringConvertFacts.
From S2P Require Import RoaringMixed.
From S2P Require Import RoaringMixedAndnot.

Local Open Scope Z_scope.

(** ** An array and a bitset *)

Lemma array_bitset_intersection_spec a b dst : array_ok a -> bitset_wf b ->
  array_result (array_bitset_container_intersection a b dst) (inter (ac_array a) (bc_elems b)).
Proof.
  intros Ha Hb. rewrite <- filter_in_inter. by eapply (keep_store _ _ _ (in_bitset_step true b Hb)); [apply Ha |].
Qed.

Lemma array_bitset_intersection_inplace_spec a b : array_ok a -> bitset_wf b ->
  array_result (array_bitset_container_intersection_inplace a b) (inter (ac_array a) (bc_elems b)).
Proof.
  intros Ha Hb. rewrite <- filter_in_inter. by eapply (keep_inplace_spec _ _ _ (in_bitset_step true b Hb)); [apply Ha |].
Qed.

Lemma inter_cons_if x l b : inter (x :: l) b = if decide (x ∈ b) then x :: inter l b else inter l b.
Proof. unfold inter. by rewrite filter_cons. Qed.

Lemma inter_app a b c : inter (a ++ b) c = inter a c ++ inter b c.
Proof. apply filter_app. Qed.

Lemma inter_none l b : (forall x, x ∈ l -> x ∉ b) -> inter l b = [].
Proof.
  induction l as [|x l IH]; intros H; [done |]. rewrite inter_cons_if, decide_False by (apply H; constructor).
  apply IH. intros y Hy. apply H. by constructor.
Qed.

Lemma count_in_bitset_spec b l : forall n, bitset_wf b -> Forall (in_u 16) l ->
  count_in_bitset l b n = Some (n + zlen (inter l (bc_elems b))).
Proof.
  induction l as [|x l IH]; intros n Hb Hl; cbn [count_in_bitset]; [f_equal; unfold zlen; cbn; lia |].
  apply Forall_cons in Hl as [Hx Hl]. unfold bitset_container_contains. rewrite bitset_get_spec by done. cbn [mbind option_bind].
  rewrite IH, inter_cons_if by done. f_equal. case_decide; [rewrite bool_decide_eq_true_2 by done; rewrite zlen_cons
    | rewrite bool_decide_eq_false_2 by done]; lia.
Qed.

Lemma array_bitset_intersection_cardinality_spec a b : array_ok a -> bitset_wf b ->
  array_bitset_container_intersection_cardinality a b = Some (zlen (inter (ac_array a) (bc_elems b))).
Proof. intros Ha Hb. apply count_in_bitset_spec; [done | apply Ha]. Qed.

Lemma any_in_bitset_spec b l : bitset_wf b -> Forall (in_u 16) l ->
  any_in_bitset l b = Some (bool_decide (inter l (bc_elems b) <> [])).
Proof.
  induction l as [|x l IH]; intros Hb Hl; cbn [any_in_bitset]; [done |].
  apply Forall_cons in Hl as [Hx Hl]. unfold bitset_container_contains. rewrite bitset_get_spec by done. cbn [mbind option_bind].
  rewrite inter_cons_if. case_decide; [rewrite bool_decide_eq_true_2 by done | rewrite bool_decide_eq_false_2 by done]; auto.
Qed.

Lemma array_bitset_intersect_spec a b : array_ok a -> bitset_wf b ->
  array_bitset_container_intersect a b = Some (bool_decide (inter (ac_array a) (bc_elems b) <> [])).
Proof. intros Ha Hb. apply any_in_bitset_spec; [done | apply Ha]. Qed.

(** ** An array and runs *)

Lemma advance_run_spec rest v : forall rle, runs_ok (rle :: rest) ->
  match advance_run rle rest v with
  | None => forall x, v <= x -> ~ (x ∈ expand (rle :: rest))
  | Some (rle', rest') => runs_ok (rle' :: rest') /\ v <= r_max rle' /\
      forall x, v <= x -> x ∈ expand (rle :: rest) <-> x ∈ expand (rle' :: rest')
  end.
Proof.
  induction rest as [|r rest IH]; intros rle Hr; cbn [advance_run]; pose proof Hr as ((R1 & R2 & R3) & Rs & Hr')%runs_ok_cons;
    unfold r_max in *; destruct (Z.ltb_spec (r_value rle + r_length rle) v) as [L | L].
  - intros x Hx. members.
  - done.
  - specialize (IH r Hr'). destruct (advance_run r rest v) as [[rle' rest'] |].
    + destruct IH as (O & V & X). split; [done |]. split; [done |]. intros x Hx. rewrite <- X by done.
      rewrite elem_of_expand_cons. unfold r_max. abstract_members. lia.
    + intros x Hx. specialize (IH x Hx). rewrite elem_of_expand_cons. unfold r_max. revert IH. abstract_members. lia.
  - done.
Qed.

(** What the cursors still have to compare. *)
Definition left_over (a : list Z) (pos : Z) (runs : list rle16_t) : list Z :=
  inter (drop (Z.to_nat pos) a) (expand runs).

Lemma left_over_head a pos v runs : rd a pos = Some v ->
  left_over a pos runs = if decide (v ∈ expand runs) then v :: left_over a (pos + 1) runs else left_over a (pos + 1) runs.
Proof.
  intros H. pose proof (rd_bound _ _ _ H). unfold left_over, rd in *. rewrite (proj2 (Z.leb_le _ _)) in H by lia.
  rewrite (drop_S _ _ _ H), inter_cons_if, Z2Nat.inj_add by lia. by rewrite Nat.add_1_r.
Qed.

Lemma drop_below a pos v x : strict a -> rd a pos = Some v -> x ∈ drop (Z.to_nat pos) a -> v <= x.
Proof.
  intros Hs H Hx. pose proof (rd_bound _ _ _ H). unfold rd in H. rewrite (proj2 (Z.leb_le _ _)) in H by lia.
  pose proof (strict_drop (Z.to_nat pos) _ Hs) as Hd. rewrite (drop_S _ _ _ H) in Hd, Hx. apply elem_of_cons in Hx as [-> | Hx]; [lia |].
  pose proof (strict_head _ _ _ Hd Hx). lia.
Qed.

(** Nothing is lost when the array is advanced to the start of the next run. *)
Lemma left_over_advance a pos v r runs : strict a -> runs_ok (r :: runs) -> rd a pos = Some v -> v < r_value r ->
  left_over a (Z.max (pos + 1) (lb a (r_value r))) (r :: runs) = left_over a pos (r :: runs).
Proof.
  intros Hs Hr H Hv. pose proof (rd_bound _ _ _ H). pose proof (lb_lookup a (r_value r) pos v Hs H) as Hlb.
  replace (Z.max (pos + 1) (lb a (r_value r))) with (lb a (r_value r)) by lia.
  pose proof (lb_range a (r_value r)). unfold left_over.
  rewrite <- (take_drop (Z.to_nat (lb a (r_value r) - pos)) (drop (Z.to_nat pos) a)).
  rewrite inter_app, drop_drop. replace (Z.to_nat pos + Z.to_nat (lb a (r_value r) - pos))%nat with (Z.to_nat (lb a (r_value r))) by lia.
  rewrite (inter_none (take _ _)); [done |]. intros x Hx Hin.
  apply list_elem_of_lookup in Hx as [i Hi]. apply lookup_take_Some in Hi as [Hi Hlt]. rewrite lookup_drop in Hi.
  assert (rd a (pos + Z.of_nat i) = Some x) as Hrd.
  { unfold rd. rewrite (proj2 (Z.leb_le _ _)) by lia. rewrite <- Hi. f_equal. lia. }
  pose proof (lb_lookup a (r_value r) _ x Hs Hrd). pose proof (runs_ok_starts _ _ Hr) as Hst.
  pose proof Hr as ((? & ? & ?) & Rs & _)%runs_ok_cons. pose proof (starts_after_elem _ runs x Rs) as Hx. unfold r_max in *.
  revert Hx Hin. members.
Qed.

Lemma left_over_end a pos runs : zlen a <= pos -> left_over a pos runs = [].
Proof. intros H. unfold left_over. rewrite drop_ge; [done | unfold zlen in H; lia]. Qed.

Lemma left_over_same a pos v runs runs' : strict a -> rd a pos = Some v ->
  (forall x, v <= x -> x ∈ expand runs <-> x ∈ expand runs') -> left_over a pos runs = left_over a pos runs'.
Proof.
  intros Hs H X. apply filter_ext_in. intros x Hx. apply X. by eapply drop_below.
Qed.

Lemma array_run_loop_spec a fuel : forall pos rle rest, strict a -> runs_ok (rle :: rest) -> 0 <= pos <= zlen a ->
  zlen a - pos < Z.of_nat fuel -> array_run_loop fuel a pos rle rest = Some (left_over a pos (rle :: rest)).
Proof.
  induction fuel as [|fuel IH]; intros pos rle rest Hs Hr Hp Hf; cbn [array_run_loop].
  - lia.
  - destruct (Z.ltb_spec pos (zlen a)); [| by rewrite left_over_end].
    destruct (rd_Some a pos) as [v Hv]; [lia |]. rewrite Hv. cbn [mbind option_bind].
    pose proof (advance_run_spec rest v rle Hr) as HA. destruct (advance_run rle rest v) as [[rle' rest'] |].
    + destruct HA as (O & V & X). rewrite (left_over_same a pos v _ _ Hs Hv X). destruct (Z.ltb_spec v (r_value rle')).
      * rewrite advanceUntil_spec by (done || lia). cbn [mbind option_bind].
        pose proof (lb_range a (r_value rle')). rewrite IH by (done || lia). f_equal. by eapply left_over_advance.
      * rewrite IH by (done || lia). cbn [mbind option_bind]. rewrite (left_over_head a pos v) by done.
        rewrite decide_True; [done |]. rewrite elem_of_expand_cons. lia.
    + f_equal. unfold left_over. symmetry. apply inter_none. intros x Hx. apply HA. by eapply drop_below.
Qed.

Lemma array_run_card_loop_eq a fuel : forall pos rle rest n,
  array_run_card_loop fuel a pos rle rest n = (fun l => n + zlen l) <$> array_run_loop fuel a pos rle rest.
Proof.
  induction fuel as [|fuel IH]; intros pos rle rest n; cbn [array_run_card_loop array_run_loop]; [done |].
  destruct (pos <? zlen a); [| cbn; f_equal; unfold zlen; cbn; lia]. destruct (rd a pos) as [v |]; [| done]. cbn [mbind option_bind].
  destruct (advance_run rle rest v) as [[rle' rest'] |]; [| cbn; f_equal; unfold zlen; cbn; lia].
  destruct (v <? r_value rle').
  - destruct (advanceUntil a pos (r_value rle')); [| done]. cbn [mbind option_bind]. apply IH.
  - rewrite IH. destruct (array_run_loop fuel a (pos + 1) rle' rest') as [l |]; [| done].
    cbn [fmap option_fmap option_map mbind option_bind]. f_equal. rewrite zlen_cons. lia.
Qed.

Lemma array_run_intersect_loop_eq a fuel : forall pos rle rest l, array_run_loop fuel a pos rle rest = Some l ->
  array_run_intersect_loop fuel a pos rle rest = Some (bool_decide (l <> [])).
Proof.
  induction fuel as [|fuel IH]; intros pos rle rest l H; cbn [array_run_intersect_loop array_run_loop] in *; [done |].
  destruct (pos <? zlen a); [| by injection H as <-]. destruct (rd a pos) as [v |]; [| done]. cbn [mbind option_bind] in *.
  destruct (advance_run rle rest v) as [[rle' rest'] |]; [| by injection H as <-].
  destruct (v <? r_value rle').
  - destruct (advanceUntil a pos (r_value rle')); [| done]. by apply IH.
  - destruct (array_run_loop fuel a (pos + 1) rle' rest') as [l' |]; [| done]. by injection H as <-.
Qed.

(** *** In place *)

(** The search reads only behind [pos]. *)
Section agree.

Context (a b : list Z) (pos : Z) (Hlen : zlen a = zlen b) (Hrd : forall i, pos < i -> rd a i = rd b i).

Lemma gallop_agree fuel lower k : pos < lower -> forall span, 0 <= span -> gallop fuel a lower span k = gallop fuel b lower span k.
Proof.
  intros Hl. induction fuel as [|fuel IH]; intros span Hs; [done |]. cbn [gallop]. rewrite Hlen, Hrd by lia.
  destruct (lower + span <? zlen b); [| done]. destruct (rd b (lower + span)); [| done]. cbn [mbind option_bind].
  destruct (z <? k); [| done]. apply IH. rewrite Z.shiftl_mul_pow2 by lia. lia.
Qed.

Lemma narrow_agree fuel k : forall lower upper, pos < lower -> pos < upper -> narrow fuel a lower upper k = narrow fuel b lower upper k.
Proof.
  induction fuel as [|fuel IH]; intros lower upper Hl Hu; [done |]. cbn [narrow]. destruct (lower + 1 =? upper); [done |].
  assert (pos < Z.shiftr (lower + upper) 1) by (rewrite Z.shiftr_div_pow2 by lia; apply Z.lt_le_trans with (pos + 1); [lia | apply Z.div_le_lower_bound; lia]).
  rewrite Hrd by done. destruct (rd b _) as [v |]; [| done]. cbn [mbind option_bind].
  destruct (v =? k); [done |]. destruct (v <? k); by apply IH.
Qed.

Lemma gallop_pos fuel lower k : forall span n, 0 <= span -> gallop fuel b lower span k = Some n -> 0 <= n.
Proof.
  induction fuel as [|fuel IH]; intros span n Hs; [done |]. cbn [gallop].
  destruct (lower + span <? zlen b); [| by intros [= <-]]. destruct (rd b (lower + span)); [| done]. cbn [mbind option_bind].
  destruct (z <? k); [| by intros [= <-]]. apply IH. rewrite Z.shiftl_mul_pow2 by lia. lia.
Qed.

Lemma advanceUntil_agree k : advanceUntil a pos k = advanceUntil b pos k.
Proof.
  unfold advanceUntil. assert (length a = length b) as -> by (unfold zlen in Hlen; lia). rewrite Hlen.
  destruct (Z.leb_spec (zlen b) (pos + 1)); [done |]. rewrite Hrd by lia.
  destruct (rd b (pos + 1)) as [v |]; [| done]. cbn [mbind option_bind]. destruct (k <=? v); [done |].
  rewrite gallop_agree by lia. destruct (gallop _ b _ _ k) as [span |] eqn:E; [| done]. cbn [mbind option_bind].
  apply gallop_pos in E; [| lia]. assert (0 <= Z.shiftr span 1) by (rewrite Z.shiftr_nonneg; lia).
  rewrite Hrd by (destruct (_ <? _); lia). destruct (rd b _) as [u |]; [| done]. cbn [mbind option_bind].
  destruct (u =? k); [done |]. destruct (u <? k); [done |]. apply narrow_agree; [lia | destruct (_ <? _); lia].
Qed.

End agree.

Lemma rd_put (l : list Z) n v i : rd (<[n := v]> l) i = if (i =? Z.of_nat n) && (Z.of_nat n <? zlen l) then Some v else rd l i.
Proof.
  destruct (Z.ltb_spec (Z.of_nat n) (zlen l)).
  - replace n with (Z.to_nat (Z.of_nat n)) at 1 by lia. rewrite rd_insert by lia. by rewrite andb_true_r.
  - rewrite andb_false_r, list_insert_ge; [done | unfold zlen in *; lia].
Qed.

Lemma array_run_buf_eq a fuel : forall mem pos n rle rest l, zlen mem = zlen a -> (forall i, pos <= i -> rd mem i = rd a i) ->
  -1 <= pos -> Z.of_nat n <= pos -> strict a ->
  array_run_loop fuel a pos rle rest = Some l ->
  exists mem', array_run_buf fuel mem pos n rle rest = Some (mem', (n + length l)%nat) /\
    take (n + length l) mem' = take n mem ++ l.
Proof.
  induction fuel as [|fuel IH]; intros mem pos n rle rest l Hlen Hrd H1 Hn Hs H; cbn [array_run_buf array_run_loop] in *; [done |].
  assert (forall l, Some (@nil Z) = Some l -> exists mem', Some (mem, n) = Some (mem', (n + length l)%nat) /\
    take (n + length l) mem' = take n mem ++ l) as Hstop.
  { intros l' [= <-]. exists mem. cbn [length]. by rewrite Nat.add_0_r, app_nil_r. }
  rewrite Hlen. destruct (Z.ltb_spec pos (zlen a)); [| by apply Hstop]. rewrite Hrd by lia.
  destruct (rd a pos) as [v |] eqn:Hv; [| done]. cbn [mbind option_bind] in *.
  destruct (advance_run rle rest v) as [[rle' rest'] |]; [| by apply Hstop].
  destruct (v <? r_value rle').
  - rewrite (advanceUntil_agree mem a pos Hlen) by (intros; apply Hrd; lia).
    rewrite advanceUntil_spec in * by (done || lia). cbn [mbind option_bind] in *.
    apply IH; [done | intros; apply Hrd; lia | lia | lia | done | done].
  - destruct (array_run_loop fuel a (pos + 1) rle' rest') as [l' |] eqn:E; [| done]. cbn [mbind option_bind] in H. injection H as <-.
    rewrite put_at_ok by (unfold zlen in *; lia). cbn [mbind option_bind].
    destruct (IH (<[n := v]> mem) (pos + 1) (S n) rle' rest' l') as (mem' & -> & T); [| | lia | lia | done | done |].
    + unfold zlen in *. by rewrite length_insert.
    + intros i Hi. rewrite rd_put. replace (i =? Z.of_nat n) with false by lia. cbn [andb]. apply Hrd. lia.
    + exists mem'. split; [do 2 f_equal; cbn; lia |].
      replace (n + length (v :: l'))%nat with (S n + length l')%nat by (cbn; lia).
      rewrite T, take_put by (unfold zlen in *; lia). by rewrite <- app_assoc.
Qed.

Lemma array_copy_spec src dst : array_ok src -> array_result (array_container_copy src dst) (ac_array src).
Proof.
  intros Hs. pose proof (array_ok_sorted _ Hs). apply store_ensured; [done |]. split; [done | by apply sorted16_length].
Qed.

Section array_run.

Context (a : array_container_t) (r : run_container_t) (Ha : array_ok a) (Hr : run_ok r) (Hne : rc_runs r <> []).

Let Sa := array_ok_sorted _ Ha.

Lemma inter_full_array : expand (rc_runs r) = seqZ 0 65536 -> inter (ac_array a) (rc_elems r) = ac_array a.
Proof.
  intros F. unfold rc_elems. rewrite inter_comm by (apply Sa || apply expand_strict, Hr).
  apply inter_full_l; [done | apply Sa |]. intros x. by apply sorted16_elem.
Qed.

Lemma array_run_loop_start rle rest : rc_runs r = rle :: rest ->
  array_run_loop (S (length (ac_array a))) (ac_array a) 0 rle rest = Some (inter (ac_array a) (rc_elems r)).
Proof.
  intros E. pose proof (ro_runs _ Hr) as O. rewrite E in O. pose proof (zlen_nonneg (ac_array a)). unfold rc_elems. rewrite E.
  rewrite array_run_loop_spec; [done | apply Sa | done | lia | unfold zlen; lia].
Qed.

Lemma array_run_intersection_spec dst :
  array_result (array_run_container_intersection a r dst) (inter (ac_array a) (rc_elems r)).
Proof.
  unfold array_run_container_intersection. rewrite run_is_full_spec by done. cbn [mbind option_bind].
  case_bool_decide as F; [rewrite inter_full_array by done; by apply array_copy_spec |].
  destruct (rc_runs r) as [|rle rest] eqn:E; [done |]. rewrite (array_run_loop_start _ _ E). cbn [mbind option_bind].
  apply store_ensured; [by apply sorted16_filter |].
  unfold array_container_cardinality. split; [apply zlen_filter_le | by apply sorted16_length].
Qed.

Lemma array_run_intersection_inplace_spec :
  array_result (array_run_container_intersection_inplace a r) (inter (ac_array a) (rc_elems r)).
Proof.
  unfold array_run_container_intersection_inplace. rewrite run_is_full_spec by done. cbn [mbind option_bind].
  case_bool_decide as F; [rewrite inter_full_array by done; by exists a |].
  destruct (rc_runs r) as [|rle rest] eqn:E; [done |].
  destruct (array_run_buf_eq _ _ (ac_array a) 0 0 rle rest _ eq_refl ltac:(done) ltac:(lia) ltac:(lia) ltac:(apply Sa) (array_run_loop_start _ _ E))
    as (mem & -> & T).
  cbn [mbind option_bind]. rewrite Nat.add_0_l in *. rewrite take_0, app_nil_l in T. rewrite T. eexists. split; [done |].
  split; [done |]. pose proof (sorted16_filter (fun x => x ∈ rc_elems r) _ Sa) as [? ?]. constructor; [done | done |].
  cbn [ac_array ac_capacity]. pose proof (zlen_filter_le (fun x => x ∈ rc_elems r) (ac_array a)).
  pose proof (ao_room _ Ha). unfold inter. lia.
Qed.

Lemma array_run_intersection_cardinality_spec :
  array_run_container_intersection_cardinality a r = Some (zlen (inter (ac_array a) (rc_elems r))).
Proof.
  unfold array_run_container_intersection_cardinality. rewrite run_is_full_spec by done. cbn [mbind option_bind].
  case_bool_decide as F; [by rewrite inter_full_array |].
  destruct (rc_runs r) as [|rle rest] eqn:E; [done |]. rewrite array_run_card_loop_eq, (array_run_loop_start _ _ E). done.
Qed.

Lemma zlen_zero_iff {A} (l : list A) : (zlen l =? 0) = bool_decide (l = []).
Proof. destruct l; [done |]. rewrite zlen_pos. done. Qed.

Lemma array_run_intersect_spec :
  array_run_container_intersect a r = Some (bool_decide (inter (ac_array a) (rc_elems r) <> [])).
Proof.
  unfold array_run_container_intersect. rewrite run_is_full_spec by done. cbn [mbind option_bind].
  case_bool_decide as F.
  - rewrite inter_full_array by done. unfold array_container_empty, array_container_cardinality.
    by rewrite zlen_zero_iff, bool_decide_not.
  - destruct (rc_runs r) as [|rle rest] eqn:E; [done |]. by apply array_run_intersect_loop_eq, array_run_loop_start.
Qed.

End array_run.

(** ** Runs and a bitset *)

Lemma mask_ranges_spec l : forall ws p, words_ok ws -> zlen ws = 1024 -> runs_ok l -> starts_from p l -> 0 <= p <= 65536 ->
  exists ws', mask_ranges l p ws = Some ws' /\ words_ok ws' /\ zlen ws' = 1024 /\
    forall x, x ∈ elems ws' <-> x ∈ elems ws /\ (x < p \/ x ∈ expand l).
Proof.
  induction l as [|r l IH]; intros ws p Hw Hl Hr Hp P; cbn [mask_ranges].
  - destruct (reset_range_result ws p (2 ^ 16)) as (ws1 & -> & L1 & W1 & E1); [done | lia.. |].
    exists ws1. split; [done |]. split; [done |]. split; [lia |]. intros x. rewrite E1, elem_of_minus, elem_of_seqZ.
    pose proof (elems_range ws x) as Hx. rewrite Hl in Hx. revert Hx. members.
  - apply runs_ok_cons in Hr as ((R1 & R2 & R3) & Rs & Hr). apply starts_from_cons in Hp as [Hp _]. unfold r_max in *.
    destruct (reset_range_result ws p (r_value r)) as (ws1 & -> & L1 & W1 & E1); [done | lia.. |]. cbn [mbind option_bind].
    destruct (IH ws1 (r_value r + r_length r + 1) W1 ltac:(lia) Hr) as (ws3 & -> & W3 & L3 & E3).
    { eapply Forall_impl; [exact Rs | cbn; lia]. }
    { lia. }
    exists ws3. split; [done |]. split; [done |]. split; [done |]. intros x.
    rewrite E3, E1, elem_of_minus, !elem_of_seqZ.
    pose proof (starts_after_elem _ l x Rs) as Hx. revert Hx. members.
Qed.

Lemma keep_branchless_spec b l room : bitset_wf b -> Forall (in_u 16) l -> forall n, n + zlen l <= room ->
  keep_branchless b l n room = Some (inter l (bc_elems b)).
Proof.
  intros Hb. induction l as [|x l IH]; intros Hl n Hn; [done |]. rewrite zlen_cons in Hn. pose proof (zlen_nonneg l).
  apply Forall_cons in Hl as [Hx Hl]. cbn [keep_branchless]. rewrite (proj2 (Z.ltb_lt _ _)) by lia.
  unfold bitset_container_contains. rewrite bitset_get_spec by done. cbn [mbind option_bind].
  rewrite IH by (done || case_bool_decide; lia). cbn [mbind option_bind]. rewrite inter_cons_if, u16_id by (unfold in_u in Hx; lia).
  case_decide; [by rewrite bool_decide_eq_true_2 | by rewrite bool_decide_eq_false_2].
Qed.

Lemma count_in_inter l s n : strict l -> count_in l s (s + n) = zlen (inter (seqZ s n) l).
Proof.
  intros Hl. unfold count_in. f_equal. apply strict_ext; [by apply strict_filter | apply strict_filter, seqZ_strict |].
  intros x. rewrite elem_of_inter, elem_of_seqZ, list_elem_of_filter. done.
Qed.

Lemma sum_ranges_spec l ws : forall n, words_ok ws -> zlen ws = 1024 -> Forall run_wf l ->
  sum_ranges l ws n = Some (n + zlen (inter (expand l) (elems ws))).
Proof.
  induction l as [|r l IH]; intros n Hw Hl Hr; cbn [sum_ranges]; [f_equal; unfold zlen; cbn; lia |].
  apply Forall_cons in Hr as [(R1 & R2 & R3) Hr]. unfold r_max in R3.
  rewrite bitset_lenrange_cardinality_spec by (done || lia). cbn [mbind option_bind]. rewrite IH by done.
  rewrite expand_cons, inter_app, zlen_app. unfold run_values. rewrite <- count_in_inter by apply elems_strict.
  replace (r_value r + (r_length r + 1)) with (r_value r + r_length r + 1) by lia. f_equal. lia.
Qed.

Lemma any_range_spec l ws : words_ok ws -> zlen ws = 1024 -> Forall run_wf l ->
  any_range l ws = Some (bool_decide (inter (expand l) (elems ws) <> [])).
Proof.
  intros Hw Hl. induction l as [|r l IH]; intros Hr; cbn [any_range]; [done |].
  apply Forall_cons in Hr as [(R1 & R2 & R3) Hr]. unfold r_max in R3.
  rewrite bitset_lenrange_empty_spec by (done || lia). cbn [mbind option_bind]. rewrite IH by done.
  rewrite expand_cons, inter_app. unfold run_values. rewrite <- Z.add_assoc, count_in_inter, zlen_zero_iff by apply elems_strict.
  destruct (inter (seqZ _ _) _); done.
Qed.

Section run_bitset.

Context (r : run_container_t) (b : bitset_container_t) (Hr : run_ok r) (Hb : bitset_ok b) (Hne : rc_runs r <> []).

Let Sr := expand_sorted _ (ro_runs _ Hr).
Let Wb := bo_wf _ Hb.

Lemma inter_full_bitset : expand (rc_runs r) = seqZ 0 65536 -> inter (rc_elems r) (bc_elems b) = bc_elems b.
Proof.
  intros F. apply inter_full_l; [done | apply elems_strict |]. intros x. apply sorted16_elem. by apply bc_elems_sorted.
Qed.

Lemma run_bitset_intersection_spec : sized (Bitset b) ->
  container_result (run_bitset_container_intersection r b) (inter (rc_elems r) (bc_elems b)).
Proof.
  intros Hsz. cbn in Hsz. unfold run_bitset_container_intersection. rewrite run_is_full_spec by done. cbn [mbind option_bind].
  case_bool_decide as F.
  { rewrite inter_full_bitset by done. exists (Bitset (bitset_container_clone b)). destruct b. done. }
  rewrite run_cardinality_spec by done. destruct (Z.leb_spec (zlen (expand (rc_runs r))) DEFAULT_MAX_SIZE).
  - rewrite bc_card_elems by done. rewrite (proj2 (Z.ltb_ge _ _)) by lia.
    change (run_ints (rc_runs r)) with (expand (rc_runs r)). rewrite keep_branchless_spec by (done || apply Sr || lia).
    cbn [mbind option_bind]. apply store_created; [by apply sorted16_filter | apply zlen_filter_le | done].
  - destruct (mask_ranges_spec (rc_runs r) (bc_array b) 0) as (ws & E & W & L & X); [apply Wb | apply Wb | apply Hr | | done |].
    { eapply Forall_impl; [apply Hr |]. unfold run_wf. cbn. lia. }
    unfold bitset_container_clone. cbn [bc_array]. rewrite E. cbn [mbind option_bind].
    apply recount_sized, recount_spec; [done | done |].
    apply strict_ext; [apply elems_strict | apply strict_filter, Sr |].
    intros x. rewrite X, elem_of_inter. unfold rc_elems, bc_elems.
    pose proof (elems_range (bc_array b) x) as Hx'. revert Hx'. members.
Qed.

Lemma run_bitset_intersection_cardinality_spec :
  run_bitset_container_intersection_cardinality r b = Some (zlen (inter (rc_elems r) (bc_elems b))).
Proof.
  unfold run_bitset_container_intersection_cardinality. rewrite run_is_full_spec by done. cbn [mbind option_bind].
  case_bool_decide as F; [rewrite inter_full_bitset by done; f_equal; by apply bc_card_elems |].
  apply (sum_ranges_spec (rc_runs r)); [apply Wb | apply Wb | apply Hr].
Qed.

Lemma run_bitset_intersect_spec :
  run_bitset_container_intersect r b = Some (bool_decide (inter (rc_elems r) (bc_elems b) <> [])).
Proof.
  unfold run_bitset_container_intersect. rewrite run_is_full_spec by done. cbn [mbind option_bind].
  case_bool_decide as F.
  - rewrite inter_full_bitset, bitset_empty_spec by (done || by apply bitset_ok_lazy). cbn [mbind option_bind].
    by rewrite zlen_zero_iff, bool_decide_not.
  - apply (any_range_spec (rc_runs r)); [apply Wb | apply Wb | apply Hr].
Qed.

End run_bitset.

(** ** Two bitsets *)

Lemma extract_intersection_spec b1 b2 : bitset_wf b1 -> bitset_wf b2 ->
  bitset_extract_intersection_setbits_uint16 (bc_array b1) (bc_array b2) 0 = Some (inter (bc_elems b1) (bc_elems b2)).
Proof.
  intros H1 H2. destruct (fn_words _ _ word_op_land b1 b2 H1 H2) as [Hw Hz].
  change (bitset_extract_intersection_setbits_uint16 (bc_array b1) (bc_array b2) 0)
    with (bitset_extract_setbits_uint16 (zip_with Z.land (bc_array b1) (bc_array b2)) 0).
  rewrite bitset_extract_setbits_uint16_spec by (done || lia). f_equal.
  apply (wo_elems _ _ word_op_land). by rewrite (bw_length _ H1), (bw_length _ H2).
Qed.

Lemma bitset_bitset_intersection_spec b1 b2 : bitset_wf b1 -> bitset_wf b2 ->
  container_result (bitset_bitset_container_intersection b1 b2) (inter (bc_elems b1) (bc_elems b2)).
Proof.
  intros H1 H2. unfold bitset_bitset_container_intersection, bitset_container_and_justcard.
  rewrite (bitset_fn_justcard_spec _ _ word_op_land) by done. cbn [mbind option_bind].
  change (zlen (inter (elems (bc_array b1)) (elems (bc_array b2)))) with (zlen (inter (bc_elems b1) (bc_elems b2))).
  destruct (Z.ltb_spec DEFAULT_MAX_SIZE (zlen (inter (bc_elems b1) (bc_elems b2)))).
  - destruct (bitset_fn_nocard_spec _ _ word_op_land b1 b2 H1 H2) as ([L W] & _ & E).
    eexists. split; [done |]. cbn [container_ok sized container_elems]. unfold bc_elems at 3 4. cbn [bc_array].
    split; [by apply words_bitset_ok |]. fold (bc_elems b1) (bc_elems b2) in E. unfold bitset_container_and_nocard. by rewrite E.
  - rewrite extract_intersection_spec by done. cbn [mbind option_bind]. rewrite Z.eqb_refl.
    eexists. split; [done |]. cbn [container_ok sized container_elems ac_array]. split; [| done].
    destruct (sorted16_filter (fun x => x ∈ bc_elems b2) _ (bc_elems_sorted b1 H1)). constructor; [done | done |]. cbn. lia.
Qed.
