(* ===== verification/RoaringMixedUnion.v ===== *)
(** * Roaring bitmaps: unions between container types

    Every function of [mixed_union.c] returns a well-formed container that
    holds the union of its arguments; the lazy ones leave the cardinality of a
    bitset unknown. *)

From stdpp Require Import base list list_numbers numbers option sorting.
From Stdlib Require Import ZArith Lia ZifyBool.
From S2P Require Import Prelude.
From S2P Require Import RoaringArrays.
From S2P Require Import RoaringInplace.
From S2P Require Import RoaringArrayContainer.
From S2P Require Import RoaringArrayFacts.
From S2P Require Import RoaringBitset.
From S2P Require Import RoaringBitsetFacts.
From S2P Require Import RoaringBitsetOps.
From S2P Require Import RoaringBitsetContainer.
From S2P Require Import RoaringRun.
From S2P Require Import RoaringRunFacts.
From S2P Require Import RoaringRunOps.
From S2P Require Import RoaringRunSets.
From S2P Require Import RoaringRunContainer.
From S2P Require Import RoaringConvert.
From S2P Require Import RoaringConvertFacts.
From S2P Require Import RoaringMixed.
From S2P Require Import RoaringMixedAndnot.
From S2P Require Import RoaringMixedInter.

Local Open Scope Z_scope.

(** ** A bitset and another container *)

(** A bitset whose cardinality may be unknown. *)
Definition lazy_result (o : option bitset_container_t) (l : list Z) : Prop :=
  exists b, o = Some b /\ bitset_lazy b /\ bc_elems b = l.

Lemma lazy_intro ws l : words_ok ws -> zlen ws = 1024 -> elems ws = l ->
  lazy_result (Some (mk_bitset BITSET_UNKNOWN_CARDINALITY ws)) l.
Proof. intros Hw Hl E. eexists. split; [done |]. split; [| done]. split; [by constructor | by left]. Qed.

Lemma set_list_words ws l : words_ok ws -> zlen ws = 1024 -> sorted16 l ->
  exists ws', bitset_set_list ws l = Some ws' /\ words_ok ws' /\ zlen ws' = 1024 /\ elems ws' = union_loop l (elems ws).
Proof.
  intros Hw Hl [Hs Hr]. destruct (bitset_set_list_withcard_spec l ws 0) as (ws' & _ & -> & L & W & X).
  - done.
  - eapply Forall_impl; [exact Hr |]. unfold in_u, in_words. rewrite Hl. lia.
  - unfold in_u. lia.
  - exists ws'. split; [done |]. split; [done |]. split; [lia |].
    apply strict_ext; [apply elems_strict | apply union_loop_strict; [done | apply elems_strict] |].
    intros x. rewrite X, elem_of_union_loop. tauto.
Qed.

Lemma array_bitset_union_spec a b : array_ok a -> bitset_ok b ->
  bitset_result (array_bitset_container_union a b) (union_loop (ac_array a) (bc_elems b)).
Proof.
  intros Ha Hb. unfold array_bitset_container_union. pose proof (array_ok_sorted _ Ha) as Sa.
  destruct (set_list_ok b (ac_array a) Hb Sa) as (ws & c & -> & O & E). cbn [mbind option_bind].
  eexists. split; [done |]. split; [done |]. rewrite union_loop_comm by (apply Sa || apply bc_elems_strict). done.
Qed.

Lemma array_bitset_lazy_union_spec a b : array_ok a -> bitset_wf b ->
  lazy_result (array_bitset_container_lazy_union a b) (union_loop (ac_array a) (bc_elems b)).
Proof.
  intros Ha [Hl Hw]. unfold array_bitset_container_lazy_union.
  destruct (set_list_words (bc_array b) (ac_array a) Hw Hl (array_ok_sorted _ Ha)) as (ws & -> & W & L & E).
  cbn [mbind option_bind]. by apply lazy_intro.
Qed.

Lemma set_runs_union r b : run_ok r -> bitset_wf b ->
  exists ws, set_runs (rc_runs r) (bc_array b) = Some ws /\ words_ok ws /\ zlen ws = 1024 /\
    elems ws = union_loop (rc_elems r) (bc_elems b).
Proof.
  intros [Hr _] [Hl Hw]. destruct (set_runs_spec (rc_runs r) (bc_array b) Hw Hl (proj1 Hr)) as (ws & -> & W & L & X).
  exists ws. split; [done |]. split; [done |]. split; [done |].
  apply strict_ext; [apply elems_strict | apply union_loop_strict; [by apply expand_strict | apply elems_strict] |].
  intros x. rewrite X, elem_of_union_loop. unfold rc_elems, bc_elems. tauto.
Qed.

Lemma run_bitset_union_spec r b : run_ok r -> bitset_wf b ->
  bitset_result (run_bitset_container_union r b) (union_loop (rc_elems r) (bc_elems b)).
Proof.
  intros Hr Hb. unfold run_bitset_container_union. destruct (set_runs_union r b Hr Hb) as (ws & -> & W & L & E).
  cbn [mbind option_bind]. by apply recount_spec.
Qed.

Lemma run_bitset_lazy_union_spec r b : run_ok r -> bitset_wf b ->
  lazy_result (run_bitset_container_lazy_union r b) (union_loop (rc_elems r) (bc_elems b)).
Proof.
  intros Hr Hb. unfold run_bitset_container_lazy_union. destruct (set_runs_union r b Hr Hb) as (ws & -> & W & L & E).
  cbn [mbind option_bind]. by apply lazy_intro.
Qed.

(** ** An array and runs: the loop of [run_container_union] on runs of one *)

Lemma append_value_one cap d prev x : run_wf prev -> r_value prev <= x -> in_u 16 x ->
  run_container_append_value (mk_run cap (d ++ [prev])) x prev = run_container_append (mk_run cap (d ++ [prev])) (mk_rle x 0) prev.
Proof.
  intros (P1 & P2 & P3) Hx Hu. unfold run_container_append_value, run_container_append, r_max, in_u in *. cbn [r_value r_length].
  destruct (Z.ltb_spec (r_value prev + r_length prev + 1) x) as [L | L]; [done |].
  destruct (Z.eqb_spec x (r_value prev + r_length prev + 1)) as [-> | N].
  - rewrite (proj2 (Z.ltb_lt _ _)) by lia.
    by replace (r_value prev + r_length prev + 1 + 0 + 1 - 1 - r_value prev) with (r_length prev + 1) by lia.
  - destruct (Z.ltb_spec (r_value prev + r_length prev) (x + 0 + 1)); [| done].
    replace x with (r_value prev + r_length prev) by lia.
    replace (u16 (r_value prev + r_length prev + 0 + 1 - 1 - r_value prev)) with (r_length prev) by (rewrite u16_id; lia).
    rewrite put_last_ok. destruct prev. done.
Qed.

Lemma append_values_eq l : forall cap d prev, runs_ok (d ++ [prev]) -> sorted16 l -> starts_from (r_value prev) (ones l) ->
  zlen (d ++ [prev]) + zlen l <= cap ->
  append_values l (mk_run cap (d ++ [prev])) prev = append_all (ones l) (mk_run cap (d ++ [prev])) prev.
Proof.
  induction l as [|x l IH]; intros cap d prev O Hl Hs Hcap; [done |]. rewrite zlen_cons in Hcap. pose proof (zlen_nonneg l).
  pose proof (ones_touch _ Hl) as T. change (ones (x :: l)) with (mk_rle x 0 :: ones l) in *.
  pose proof T as (W & _ & _)%runs_touch_cons. apply starts_from_cons in Hs as [Hx Hs]. cbn [r_value] in Hx.
  destruct Hl as [Hst [Hu Hr]%Forall_cons]. pose proof O as (_ & Wp & _)%runs_ok_snoc.
  cbn [append_values append_all]. rewrite append_value_one by done.
  destruct (append_spec cap d prev (mk_rle x 0)) as (d1 & p1 & -> & O1 & V1 & Z1 & _); [done | done | done | lia |].
  cbn [mbind option_bind]. apply IH; [done | by split; [apply (strict_tail _ _ Hst) |] | | lia].
  eapply starts_from_mono; [by apply runs_touch_starts | done].
Qed.

Lemma array_run_union_loop_cons r runs x a dst prev : array_run_union_loop (r :: runs) (x :: a) dst prev =
  if r_value r <=? x then
    '(dst, prev) ← run_container_append dst r prev; array_run_union_loop runs (x :: a) dst prev
  else
    '(dst, prev) ← run_container_append_value dst x prev; array_run_union_loop (r :: runs) a dst prev.
Proof. done. Qed.

Lemma array_run_union_loop_eq runs a : forall cap d prev, runs_ok (d ++ [prev]) -> runs_touch runs -> sorted16 a ->
  starts_from (r_value prev) runs -> starts_from (r_value prev) (ones a) -> zlen (d ++ [prev]) + zlen runs + zlen a <= cap ->
  array_run_union_loop runs a (mk_run cap (d ++ [prev])) prev = run_union_loop runs (ones a) (mk_run cap (d ++ [prev])) prev.
Proof.
  revert a. induction runs as [|r runs IHr]; intros a.
  { intros cap d prev O _ Ha _ Hs Hcap. rewrite run_union_loop_nil_l. change (zlen []) with 0 in Hcap.
    destruct a; cbn [array_run_union_loop]; [done |]. rewrite append_values_eq by (done || lia). done. }
  induction a as [|x a IHa]; intros cap d prev O Hr Ha Sr Sa Hcap; [by rewrite run_union_loop_nil_r |].
  rewrite !zlen_cons in Hcap. pose proof (zlen_nonneg runs). pose proof (zlen_nonneg a). pose proof (ones_touch _ Ha) as T.
  change (ones (x :: a)) with (mk_rle x 0 :: ones a) in *. rewrite array_run_union_loop_cons, run_union_loop_cons. cbn [r_value].
  pose proof Hr as (Wr & _ & Hr')%runs_touch_cons. pose proof T as (Wx & _ & _)%runs_touch_cons.
  pose proof (runs_touch_starts _ _ Hr) as Tr. pose proof (runs_touch_starts _ _ T) as Ta. cbn [r_value] in Ta.
  pose proof O as (_ & Wp & _)%runs_ok_snoc. apply starts_from_cons in Sr as [Vr Sr]. apply starts_from_cons in Sa as [Va Sa]. cbn [r_value] in Va.
  destruct (Z.leb_spec (r_value r) x).
  - destruct (append_spec cap d prev r) as (d1 & p1 & -> & O1 & V1 & Z1 & _); [done | done | done | lia |].
    cbn [mbind option_bind]. apply (IHr (x :: a)); try done.
    + by eapply starts_from_mono.
    + apply starts_from_cons. split; [cbn; lia |]. eapply starts_from_mono; [done | lia].
    + rewrite zlen_cons. lia.
  - destruct Ha as [Hst [Hu Hra]%Forall_cons]. rewrite append_value_one by done.
    destruct (append_spec cap d prev (mk_rle x 0)) as (d1 & p1 & -> & O1 & V1 & Z1 & _); [done | done | done | lia |].
    cbn [r_value] in V1. cbn [mbind option_bind]. apply IHa; try done.
    + by split; [apply (strict_tail _ _ Hst) |].
    + apply starts_from_cons. split; [lia |]. eapply starts_from_mono; [done | lia].
    + by eapply starts_from_mono.
    + rewrite zlen_cons. lia.
Qed.

Lemma single_ok r : run_wf r -> runs_ok ([] ++ [r]).
Proof. intros Hr. apply runs_ok_snoc. split; [apply runs_ok_nil |]. split; [done | constructor]. Qed.

Lemma array_run_union_into_eq a runs cap : runs_ok runs -> sorted16 a -> zlen runs + zlen a <= cap ->
  array_run_union_into a runs (mk_run cap []) = run_union_into runs (ones a) (mk_run cap []).
Proof.
  intros Or%runs_ok_touch Ha Hcap. destruct runs as [|r runs], a as [|x a]; try done. rewrite !zlen_cons in Hcap.
  pose proof (zlen_nonneg runs). pose proof (zlen_nonneg a).
  pose proof (ones_touch _ Ha) as T. change (ones (x :: a)) with (mk_rle x 0 :: ones a) in *.
  pose proof Or as (Wr & _ & Or')%runs_touch_cons. pose proof T as (Wx & _ & _)%runs_touch_cons.
  pose proof (runs_touch_starts _ _ Or) as Tr. pose proof (runs_touch_starts _ _ T) as Ta. cbn [r_value] in Ta.
  cbn [array_run_union_into run_union_into r_value].
  unfold run_container_append_first, run_container_append_value_first.
  destruct (Z.leb_spec (r_value r) x); rewrite push_run_ok by (change (zlen []) with 0; lia); cbn [mbind option_bind].
  - apply (array_run_union_loop_eq runs (x :: a)); try done; [by apply single_ok | |].
    + apply starts_from_cons. split; [done |]. eapply starts_from_mono; [done | lia].
    + rewrite zlen_cons. change (zlen ([] ++ [r])) with 1. lia.
  - destruct Ha as [Hst [Hu Hra]%Forall_cons].
    apply array_run_union_loop_eq; try done; [by apply single_ok | by split; [apply (strict_tail _ _ Hst) |] | |].
    + apply starts_from_cons. split; [cbn; lia |]. eapply starts_from_mono; [done | cbn; lia].
    + rewrite zlen_cons. change (zlen ([] ++ [mk_rle x 0])) with 1. lia.
Qed.

Lemma array_run_union_into_spec a r cap : array_ok a -> run_ok r -> ac_array a <> [] -> rc_runs r <> [] ->
  zlen (rc_runs r) + zlen (ac_array a) <= cap ->
  exists l, array_run_union_into (ac_array a) (rc_runs r) (mk_run cap []) = Some (mk_run cap l) /\ runs_ok l /\ zlen l <= cap /\
    forall x, x ∈ expand l <-> x ∈ union_loop (ac_array a) (rc_elems r).
Proof.
  intros Ha [Or _] Na Nr Hcap. pose proof (array_ok_sorted _ Ha) as Sa. rewrite array_run_union_into_eq by done.
  destruct (run_union_into_spec (rc_runs r) (ones (ac_array a)) cap) as (l & -> & O & Z & X).
  - by apply runs_ok_touch.
  - by apply ones_touch.
  - done.
  - by destruct (ac_array a).
  - by rewrite zlen_ones.
  - exists l. split; [done |]. split; [done |]. split; [done |]. intros x. rewrite X, elem_of_union_loop, expand_ones. unfold rc_elems. tauto.
Qed.

Section array_run.

Context (a : array_container_t) (r : run_container_t) (Ha : array_ok a) (Hr : run_ok r)
  (Na : ac_array a <> []) (Nr : rc_runs r <> []).

Let Sa := array_ok_sorted _ Ha.
Let Sr := expand_sorted _ (ro_runs _ Hr).

Lemma union_full_run : expand (rc_runs r) = seqZ 0 65536 -> union_loop (ac_array a) (rc_elems r) = expand (rc_runs r).
Proof.
  intros F. unfold rc_elems. rewrite union_loop_comm by (apply Sa || apply Sr). apply union_full_l; [apply Sa | done |].
  intros x. by apply sorted16_elem.
Qed.

Lemma array_run_union_spec dst : rc_runs dst = [] ->
  run_result (array_run_container_union a r dst) (union_loop (ac_array a) (rc_elems r)).
Proof.
  intros Ed. unfold array_run_container_union. rewrite run_is_full_spec by done. cbn [mbind option_bind].
  case_bool_decide as F; [rewrite union_full_run by done; by apply run_copy_result |]. rewrite Ed.
  set (n := 2 * _). pose proof (run_grow_room dst n false) as Hn. unfold run_container_grow in *. cbn [rc_capacity] in Hn.
  set (cap := if _ <? n then n else _) in *. cbv zeta. fold cap.
  pose proof (zlen_nonneg (rc_runs r)). pose proof (zlen_nonneg (ac_array a)).
  destruct (array_run_union_into_spec a r cap) as (l & -> & O & Z & X); try done.
  { unfold n, n_runs, array_container_cardinality in *. lia. }
  apply run_result_intro; [done | done | apply union_loop_strict; [apply Sa | apply Sr] | done].
Qed.

Lemma array_run_inplace_union_spec :
  run_result (array_run_container_inplace_union a r) (union_loop (ac_array a) (rc_elems r)).
Proof.
  unfold array_run_container_inplace_union. rewrite run_is_full_spec by done. cbn [mbind option_bind].
  case_bool_decide as F; [rewrite union_full_run by done; by exists r |]. cbv zeta. set (src := if _ <? _ then _ else r).
  set (room := array_container_cardinality a + n_runs r).
  assert (rc_runs src = rc_runs r /\ room + n_runs r <= rc_capacity src) as [-> Hroom].
  { unfold src. fold room. destruct (Z.ltb_spec (rc_capacity r) (room + n_runs r)); [| done]. split; [done | apply run_grow_room]. }
  unfold n_runs, array_container_cardinality in room. pose proof (zlen_nonneg (rc_runs r)).
  destruct (array_run_union_into_spec a r room) as (l & -> & O & Z & X); try done.
  { unfold room. lia. }
  cbn [mbind option_bind rc_runs]. unfold n_runs in *.
  apply run_result_intro; [done | lia | apply union_loop_strict; [apply Sa | apply Sr] | done].
Qed.

End array_run.

(** ** Two arrays *)

Lemma u64_zlen16 l : sorted16 l -> u64 (zlen l) = zlen l.
Proof. intros H. pose proof (sorted16_length _ H). pose proof (zlen_nonneg l). apply uwrap_id. unfold in_u. lia. Qed.

Lemma set_list_fresh l : sorted16 l ->
  exists ws, bitset_set_list (bc_array bitset_container_create) l = Some ws /\ bitset_ok (mk_bitset (zlen l) ws) /\ elems ws = l.
Proof.
  intros Hl. destruct create_words as (b & -> & W & L & E).
  destruct (set_list_words (bc_array b) l W L Hl) as (ws & -> & W' & L' & E'). exists ws. split; [done |].
  assert (elems ws = l) as Ew by (rewrite E'; fold (bc_elems b); by rewrite E, union_loop_nil_r).
  split; [by apply words_bitset_ok | done].
Qed.

Lemma union_in_bitset_spec a1 a2 : array_ok a1 -> array_ok a2 ->
  bitset_result (union_in_bitset a1 a2) (union_loop (ac_array a1) (ac_array a2)).
Proof.
  intros H1%array_ok_sorted H2%array_ok_sorted. unfold union_in_bitset, array_container_cardinality.
  destruct (set_list_fresh _ H1) as (ws & -> & O & E). cbn [mbind option_bind].
  destruct (set_list_ok _ _ O H2) as (ws' & c & Ec & O' & E'). cbn [bc_array bc_cardinality] in Ec. rewrite u64_zlen16 in Ec by done.
  rewrite Ec. cbn [mbind option_bind]. eexists. split; [done |]. split; [done |].
  unfold bc_elems in *. cbn [bc_array] in *. by rewrite E', E.
Qed.

Lemma lazy_in_bitset_spec a1 a2 : array_ok a1 -> array_ok a2 ->
  lazy_result (lazy_in_bitset a1 a2) (union_loop (ac_array a1) (ac_array a2)).
Proof.
  intros H1%array_ok_sorted H2%array_ok_sorted. unfold lazy_in_bitset.
  destruct (set_list_fresh _ H1) as (ws & -> & [[L W] _] & E). cbn [mbind option_bind].
  destruct (set_list_words ws _ W L H2) as (ws' & -> & W' & L' & E'). cbn [mbind option_bind].
  apply lazy_intro; [done | done |]. rewrite E', E. apply union_loop_comm; [apply H2 | apply H1].
Qed.

Lemma array_container_result o l : array_result o l -> zlen l <= DEFAULT_MAX_SIZE ->
  container_result (a ← o; Some (Array a)) l.
Proof.
  intros (a & -> & E & O) Hl. exists (Array a). split; [done |]. split; [done |]. cbn. by rewrite E.
Qed.

Lemma array_array_union_spec a1 a2 : array_ok a1 -> array_ok a2 ->
  container_result (array_array_container_union a1 a2) (union_loop (ac_array a1) (ac_array a2)).
Proof.
  intros H1 H2. unfold array_array_container_union, array_container_cardinality.
  destruct (Z.leb_spec (zlen (ac_array a1) + zlen (ac_array a2)) DEFAULT_MAX_SIZE).
  - pose proof (union_loop_length (ac_array a1) (ac_array a2)).
    apply array_container_result; [| lia]. apply array_union_spec; [done | done |]. unfold DEFAULT_MAX_SIZE in *. lia.
  - by apply recount_sized, union_in_bitset_spec.
Qed.

(** *** Over the first array *)

Lemma union_buf_unfold mem idx_1 n1 set_2 pos : union_buf mem idx_1 n1 set_2 pos =
  match n1, set_2 with
  | O, _ => if decide (pos + length set_2 <= length mem)%nat
            then Some (splice mem pos set_2, (pos + length set_2)%nat) else None
  | S _, [] => Some (move_down mem pos idx_1 n1, (pos + n1)%nat)
  | S n1', val_2 :: rest_2 =>
    val_1 ← mem !! idx_1;
    if val_1 <? val_2 then
      mem ← put_at mem pos val_1; union_buf mem (S idx_1) n1' set_2 (S pos)
    else if val_2 <? val_1 then
      mem ← put_at mem pos val_2; union_buf mem idx_1 n1 rest_2 (S pos)
    else
      mem ← put_at mem pos val_1; union_buf mem (S idx_1) n1' rest_2 (S pos)
  end.
Proof. by destruct n1, set_2. Qed.

Lemma union_buf_spec a b : forall mem idx pos, (pos + length b <= idx)%nat -> (idx + length a <= length mem)%nat ->
  take (length a) (drop idx mem) = a ->
  exists mem', union_buf mem idx (length a) b pos = Some (mem', (pos + length (union_loop a b))%nat) /\
    take (pos + length (union_loop a b)) mem' = take pos mem ++ union_loop a b.
Proof.
  revert a b. apply (merge_ind (fun a b => forall mem idx pos, _ -> _ -> _ -> _)).
  - intros b mem idx pos Hp Hi _. rewrite union_buf_unfold, union_loop_nil_l. cbn [length] in *.
    rewrite decide_True by lia. eexists. split; [done |]. rewrite take_splice_end by lia. done.
  - intros a mem idx pos Hp Hi Ha. rewrite union_buf_unfold, union_loop_nil_r. destruct a as [|x a].
    + cbn [length] in *. rewrite decide_True by lia. eexists. split; [done |]. rewrite splice_nil, Nat.add_0_r, app_nil_r. done.
    + unfold move_down. rewrite Ha. eexists. split; [done |]. rewrite take_splice_end by lia. done.
  - intros x a y b I1 I2 I3 mem idx pos Hp Hi Ha. rewrite union_buf_unfold. cbn [length] in Hp, Hi, Ha.
    destruct (drop idx mem) as [|x' t] eqn:Ed; [done |]. cbn [take] in Ha. injection Ha as -> Ha.
    destruct (drop_lookup _ _ _ _ Ed) as [Hx Ht]. cbn [length]. rewrite Hx. cbn [mbind option_bind].
    rewrite !put_at_ok by lia. cbn [mbind option_bind]. rewrite union_loop_cons.
    assert (forall v l o, (exists mem', o = Some (mem', (S pos + length l)%nat) /\
       take (S pos + length l) mem' = take (S pos) (<[pos := v]> mem) ++ l) ->
      exists mem', o = Some (mem', (pos + length (v :: l))%nat) /\
       take (pos + length (v :: l)) mem' = take pos mem ++ v :: l) as Hnext.
    { intros v l o (mem' & -> & T). exists mem'. replace (pos + length (v :: l))%nat with (S pos + length l)%nat by (cbn; lia).
      split; [done |]. rewrite T, take_put by lia. by rewrite <- app_assoc. }
    destruct (Z.ltb_spec x y); [| destruct (Z.ltb_spec y x)]; apply Hnext.
    + apply I1; [cbn; lia | rewrite length_insert; lia |]. rewrite drop_insert_lt by lia. by rewrite Ht.
    + apply I2; [lia | rewrite length_insert; cbn; lia |]. rewrite drop_insert_lt by lia. rewrite Ed. cbn. by rewrite Ha.
    + apply I3; [lia | rewrite length_insert; lia |]. rewrite drop_insert_lt by lia. by rewrite Ht.
Qed.

Lemma array_union_over_spec a1 a2 : array_ok a1 -> array_ok a2 ->
  zlen (ac_array a1) + zlen (ac_array a2) <= ac_capacity a1 ->
  array_result (array_union_over a1 a2) (union_loop (ac_array a1) (ac_array a2)).
Proof.
  intros H1%array_ok_sorted H2%array_ok_sorted Hcap. unfold array_union_over. cbv zeta.
  set (a := ac_array a1) in *. set (b := ac_array a2) in *.
  set (front := take (length b) a ++ replicate (length b - length a) 0).
  assert (length front = length b) as Hfront by (unfold front; rewrite length_app, length_take, length_replicate; lia).
  rewrite app_assoc. fold front.
  destruct (union_buf_spec a b (front ++ a) (length b) 0) as (mem & -> & T).
  - lia.
  - rewrite length_app. lia.
  - rewrite <- Hfront at 1. by rewrite drop_app_length, take_ge.
  - cbn [mbind option_bind]. rewrite Nat.add_0_l in *. rewrite T, take_0, app_nil_l. eexists. split; [done |]. split; [done |].
    destruct (sorted16_union a b H1 H2). pose proof (union_loop_length a b). constructor; [done | done | cbn; lia].
Qed.

(** The array that holds the union, in a new container or over [a1]. *)
Lemma small_union_result a1 a2 cap : array_ok a1 -> array_ok a2 -> zlen (ac_array a1) + zlen (ac_array a2) <= DEFAULT_MAX_SIZE ->
  container_result
    (if ac_capacity a1 <? array_container_cardinality a1 + array_container_cardinality a2
     then c ← array_container_union a1 a2 cap; Some (Array c)
     else c ← array_union_over a1 a2; Some (Array c)) (union_loop (ac_array a1) (ac_array a2)).
Proof.
  intros H1 H2 Hsum. pose proof (union_loop_length (ac_array a1) (ac_array a2)). unfold array_container_cardinality, DEFAULT_MAX_SIZE in *.
  destruct (Z.ltb_spec (ac_capacity a1) (zlen (ac_array a1) + zlen (ac_array a2))).
  - apply array_container_result; [apply array_union_spec; [done | done | lia] | unfold DEFAULT_MAX_SIZE; lia].
  - apply array_container_result; [by apply array_union_over_spec | unfold DEFAULT_MAX_SIZE; lia].
Qed.

Lemma array_array_inplace_union_spec a1 a2 : array_ok a1 -> array_ok a2 ->
  container_result (array_array_container_inplace_union a1 a2) (union_loop (ac_array a1) (ac_array a2)).
Proof.
  intros H1 H2. unfold array_array_container_inplace_union.
  destruct (Z.leb_spec (array_container_cardinality a1 + array_container_cardinality a2) DEFAULT_MAX_SIZE);
    [by apply small_union_result |].
  destruct (union_in_bitset_spec a1 a2 H1 H2) as (b & -> & O & E). cbn [mbind option_bind].
  pose proof (bc_card_elems b O) as Hc. rewrite E in Hc. rewrite Hc.
  destruct (Z.leb_spec (zlen (union_loop (ac_array a1) (ac_array a2))) DEFAULT_MAX_SIZE).
  - destruct (bo_wf _ O) as [Lb Wb]. rewrite bitset_extract_setbits_uint16_spec by (done || lia).
    cbn [mbind option_bind]. fold (bc_elems b). rewrite E. apply array_container_result; [| done].
    apply store_ensured; [apply sorted16_union; by apply array_ok_sorted |]. unfold DEFAULT_MAX_SIZE in *. lia.
  - exists (Bitset b). split; [done |]. split; [done |]. cbn [sized container_elems]. by rewrite E.
Qed.

(** A container that the lazy operations return: the cardinality of a bitset
    may be unknown, and it may hold few values. *)
Definition container_lazy (c : container_t) : Prop :=
  match c with
  | Bitset b => bitset_lazy b
  | Array a => array_ok a /\ zlen (ac_array a) <= DEFAULT_MAX_SIZE
  | Run r => run_ok r
  end.

Definition lazy_container_result (o : option container_t) (l : list Z) : Prop :=
  exists c, o = Some c /\ container_lazy c /\ container_elems c = l.

Lemma container_ok_lazy c : container_ok c -> sized c -> container_lazy c.
Proof. destruct c; cbn; [intros H _; by apply bitset_ok_lazy | done | done]. Qed.

Lemma container_result_lazy o l : container_result o l -> lazy_container_result o l.
Proof. intros (c & -> & O & Z & E). exists c. split; [done |]. split; [by apply container_ok_lazy | done]. Qed.

Lemma lazy_bitset_container o l : lazy_result o l -> lazy_container_result (b ← o; Some (Bitset b)) l.
Proof. intros (b & -> & O & E). by exists (Bitset b). Qed.

Lemma array_array_lazy_union_spec a1 a2 : array_ok a1 -> array_ok a2 ->
  lazy_container_result (array_array_container_lazy_union a1 a2) (union_loop (ac_array a1) (ac_array a2)).
Proof.
  intros H1 H2. unfold array_array_container_lazy_union, array_container_cardinality.
  destruct (Z.leb_spec (zlen (ac_array a1) + zlen (ac_array a2)) ARRAY_LAZY_LOWERBOUND).
  - pose proof (union_loop_length (ac_array a1) (ac_array a2)). unfold ARRAY_LAZY_LOWERBOUND in *.
    apply container_result_lazy, array_container_result; [| unfold DEFAULT_MAX_SIZE; lia].
    apply array_union_spec; [done | done |]. lia.
  - by apply lazy_bitset_container, lazy_in_bitset_spec.
Qed.

Lemma array_array_lazy_inplace_union_spec a1 a2 : array_ok a1 -> array_ok a2 ->
  lazy_container_result (array_array_container_lazy_inplace_union a1 a2) (union_loop (ac_array a1) (ac_array a2)).
Proof.
  intros H1 H2. unfold array_array_container_lazy_inplace_union.
  destruct (Z.leb_spec (array_container_cardinality a1 + array_container_cardinality a2) ARRAY_LAZY_LOWERBOUND).
  - apply container_result_lazy, small_union_result; [done | done |].
    unfold array_container_cardinality, ARRAY_LAZY_LOWERBOUND, DEFAULT_MAX_SIZE in *. lia.
  - by apply lazy_bitset_container, lazy_in_bitset_spec.
Qed.
