(* ===== verification/RoaringMixedXor.v ===== *)
(** * Roaring bitmaps: symmetric differences between container types

    Every function of [mixed_xor.c] returns a well-formed container that
    holds the symmetric difference of its arguments; the lazy ones leave the cardinality of a
    bitset unknown. *)

From stdpp Require Import base list list_numbers numbers option sorting.
From Stdlib Require Import ZArith Lia ZifyBool.
From S2P Require Import Prelude.
From S2P Require Import RoaringArrays.
From S2P Require Import RoaringInplace.
From S2P Require Import RoaringArrayContainer.
From S2P Require Import RoaringArrayFacts.
From S2P Require Import RoaringBitset.
From S2P Require Import RoaringBitsetFacts.
From S2P Require Import RoaringBitsetOps.
From S2P Require Import RoaringBitsetContainer.
From S2P Require Import RoaringRun.
From S2P Require Import RoaringRunFacts.
From S2P Require Import RoaringRunOps.
From S2P Require Import RoaringRunSets.
From S2P Require Import RoaringRunContainer.
From S2P Require Import RoaringConvert.
From S2P Require Import RoaringConvertFacts.
From S2P Require Import RoaringMixed.
From S2P Require Import RoaringMixedAndnot.
From S2P Require Import RoaringMixedInter.
From S2P Require Import RoaringMixedUnion.

Local Open Scope Z_scope.



Lemma flip_list_words ws l : words_ok ws -> zlen ws = 1024 -> sorted16 l ->
  exists ws', bitset_flip_list ws l = Some ws' /\ words_ok ws' /\ zlen ws' = 1024 /\ elems ws' = xor_uint16 l (elems ws).
Proof.
  intros Hw Hl [Hs Hr]. destruct (bitset_flip_list_withcard_spec l ws 0) as (ws' & _ & -> & L & W & X).
  - done.
  - eapply Forall_impl; [exact Hr |]. unfold in_u, in_words. rewrite Hl. lia.
  - by apply strict_NoDup.
  - unfold in_u. lia.
  - exists ws'. split; [done |]. split; [done |]. split; [lia |].
    apply strict_ext; [apply elems_strict | apply xor_strict; [done | apply elems_strict] |].
    intros x. rewrite X, elem_of_xor by (done || apply elems_strict). tauto.
Qed.

Lemma xor_comm a b : strict a -> strict b -> xor_uint16 a b = xor_uint16 b a.
Proof.
  intros Ha Hb. apply strict_ext; [by apply xor_strict | by apply xor_strict |].
  intros x. rewrite !elem_of_xor by done. tauto.
Qed.

(** ** A bitset and another container *)

Lemma array_bitset_xor_spec a b : array_ok a -> bitset_ok b ->
  container_result (array_bitset_container_xor a b) (xor_uint16 (ac_array a) (bc_elems b)).
Proof.
  intros Ha Hb. unfold array_bitset_container_xor. pose proof (array_ok_sorted _ Ha) as Sa.
  destruct (flip_list_ok b (ac_array a) Hb Sa) as (ws & c & -> & O & _ & E). cbn [mbind option_bind].
  apply to_sized_spec; [done |]. rewrite xor_comm by (apply Sa || apply bc_elems_strict). done.
Qed.

Lemma bitset_array_ixor_spec b a : bitset_ok b -> array_ok a ->
  container_result (bitset_array_container_ixor b a) (xor_uint16 (bc_elems b) (ac_array a)).
Proof.
  intros Hb Ha. unfold bitset_array_container_ixor. pose proof (array_ok_sorted _ Ha) as Sa.
  destruct (flip_list_ok b (ac_array a) Hb Sa) as (ws & c & -> & O & U & E). cbn [mbind option_bind].
  rewrite U. by apply to_sized_spec.
Qed.

Lemma array_bitset_lazy_xor_spec a b : array_ok a -> bitset_wf b ->
  lazy_result (array_bitset_container_lazy_xor a b) (xor_uint16 (ac_array a) (bc_elems b)).
Proof.
  intros Ha [Hl Hw]. unfold array_bitset_container_lazy_xor.
  destruct (flip_list_words (bc_array b) (ac_array a) Hw Hl (array_ok_sorted _ Ha)) as (ws & -> & W & L & E).
  cbn [mbind option_bind]. by apply lazy_intro.
Qed.

Lemma flip_ranges_spec l : forall ws, words_ok ws -> zlen ws = 1024 -> runs_ok l ->
  exists ws', flip_ranges l ws = Some ws' /\ words_ok ws' /\ zlen ws' = 1024 /\
    forall x, x ∈ elems ws' <-> (x ∈ elems ws /\ ~ (x ∈ expand l)) \/ (x ∈ expand l /\ ~ (x ∈ elems ws)).
Proof.
  induction l as [|r l IH]; intros ws Hw Hl Hr.
  - exists ws. split; [done |]. split; [done |]. split; [done |]. intros x. members.
  - apply runs_ok_cons in Hr as ((R1 & R2 & R3) & Rs & Hr). unfold r_max in *.
    destruct (flip_range_result ws (r_value r) (r_value r + r_length r + 1)) as (ws1 & E & L1 & W1 & E1); [done | lia.. |].
    cbn [flip_ranges]. rewrite E. cbn [mbind option_bind].
    destruct (IH ws1 W1 ltac:(lia) Hr) as (ws2 & -> & W2 & L2 & E2). exists ws2.
    split; [done |]. split; [done |]. split; [done |]. intros x.
    rewrite E2, E1, elem_of_xor, elem_of_seqZ by (apply elems_strict || apply seqZ_strict).
    pose proof (starts_after_elem _ l x Rs) as Hx. revert Hx. members.
Qed.

Lemma flip_runs_words r b : run_ok r -> bitset_wf b ->
  exists ws, flip_ranges (rc_runs r) (bc_array b) = Some ws /\ words_ok ws /\ zlen ws = 1024 /\
    elems ws = xor_uint16 (rc_elems r) (bc_elems b).
Proof.
  intros [Hr _] [Hl Hw]. destruct (flip_ranges_spec (rc_runs r) (bc_array b) Hw Hl Hr) as (ws & -> & W & L & X).
  pose proof (expand_strict _ Hr). pose proof (elems_strict (bc_array b)).
  exists ws. split; [done |]. split; [done |]. split; [done |]. unfold rc_elems, bc_elems.
  apply strict_ext; [apply elems_strict | by apply xor_strict |].
  intros x. rewrite X, elem_of_xor by done. tauto.
Qed.

Lemma run_bitset_xor_spec r b : run_ok r -> bitset_wf b ->
  container_result (run_bitset_container_xor r b) (xor_uint16 (rc_elems r) (bc_elems b)).
Proof.
  intros Hr Hb. unfold run_bitset_container_xor. destruct (flip_runs_words r b Hr Hb) as (ws & -> & W & L & E).
  cbn [mbind option_bind]. by apply recount_sized, recount_spec.
Qed.

Lemma run_bitset_lazy_xor_spec r b : run_ok r -> bitset_wf b ->
  lazy_result (run_bitset_container_lazy_xor r b) (xor_uint16 (rc_elems r) (bc_elems b)).
Proof.
  intros Hr Hb. unfold run_bitset_container_lazy_xor. destruct (flip_runs_words r b Hr Hb) as (ws & -> & W & L & E).
  cbn [mbind option_bind]. by apply lazy_intro.
Qed.

Lemma bitset_bitset_xor_spec b1 b2 : bitset_wf b1 -> bitset_wf b2 ->
  container_result (bitset_bitset_container_xor b1 b2) (xor_uint16 (bc_elems b1) (bc_elems b2)).
Proof. intros H1 H2. by apply recount_sized, (bitset_fn_spec _ _ word_op_lxor). Qed.

(** ** Arrays and runs *)

Lemma array_run_lazy_xor_spec a r dst : array_ok a -> run_ok r ->
  run_result (array_run_container_lazy_xor a r dst) (xor_uint16 (ac_array a) (rc_elems r)).
Proof.
  intros Ha [Or _]. unfold array_run_container_lazy_xor. pose proof (array_ok_sorted _ Ha) as Sa.
  set (n := _ + _). pose proof (run_grow_room dst n false) as Hn. cbv zeta. set (cap := rc_capacity _) in *. fold (ones (ac_array a)).
  destruct (run_xor_loop_spec (rc_runs r) (ones (ac_array a)) cap [] 0 0) as (l & -> & O & Z & X).
  - constructor; [apply runs_ok_nil | by apply runs_ok_touch | by apply ones_touch | intros d0 s Hd; by destruct d0 | |].
    + eapply Forall_impl; [apply Or |]. unfold run_wf. cbn. lia.
    + apply Forall_fmap. eapply Forall_impl; [apply Sa |]. unfold in_u. cbn. lia.
  - change (zlen []) with 0. rewrite zlen_ones. unfold n, n_runs, array_container_cardinality in *. lia.
  - pose proof (expand_strict _ Or). destruct Sa as [Sa _]. unfold rc_elems.
    apply run_result_intro; [done | done | by apply xor_strict |].
    intros z. rewrite X, elem_of_xor by done. rewrite (expand_nil_false z), expand_ones.
    repeat case_bool_decide; cbn; intuition congruence.
Qed.

Lemma from_array_words a : array_ok a -> exists b, bitset_container_from_array a = Some b /\ bitset_ok b /\ bc_elems b = ac_array a.
Proof. intros H. apply (bitset_from_array_spec a H). Qed.

Lemma array_array_xor_spec a1 a2 : array_ok a1 -> array_ok a2 ->
  container_result (array_array_container_xor a1 a2) (xor_uint16 (ac_array a1) (ac_array a2)).
Proof.
  intros H1 H2. unfold array_array_container_xor, array_container_cardinality. pose proof (array_ok_sorted _ H2) as S2.
  destruct (Z.leb_spec (zlen (ac_array a1) + zlen (ac_array a2)) DEFAULT_MAX_SIZE).
  - apply array_container_result; [apply array_xor_spec; [done | done |] |]; unfold DEFAULT_MAX_SIZE in *; [lia |].
    pose proof (xor_uint16_length (ac_array a1) (ac_array a2)). lia.
  - destruct (from_array_words a1 H1) as (b & -> & O & E). cbn [mbind option_bind].
    destruct (flip_list_ok b (ac_array a2) O S2) as (ws & c & Ec & O' & U & E').
    rewrite (bc_card_elems b O), E, u64_zlen16 in Ec by by apply array_ok_sorted. rewrite Ec. cbn [mbind option_bind].
    rewrite U. apply to_sized_spec; [done |]. rewrite <- E. done.
Qed.

Lemma array_array_lazy_xor_spec a1 a2 : array_ok a1 -> array_ok a2 ->
  lazy_container_result (array_array_container_lazy_xor a1 a2) (xor_uint16 (ac_array a1) (ac_array a2)).
Proof.
  intros H1 H2. unfold array_array_container_lazy_xor, array_container_cardinality. pose proof (array_ok_sorted _ H2) as S2.
  destruct (Z.leb_spec (zlen (ac_array a1) + zlen (ac_array a2)) ARRAY_LAZY_LOWERBOUND).
  - unfold ARRAY_LAZY_LOWERBOUND in *. apply container_result_lazy, array_container_result; [apply array_xor_spec; [done | done | lia] |].
    pose proof (xor_uint16_length (ac_array a1) (ac_array a2)). unfold DEFAULT_MAX_SIZE. lia.
  - destruct (from_array_words a1 H1) as (b & -> & [[L W] _] & E). cbn [mbind option_bind].
    destruct (flip_list_words (bc_array b) (ac_array a2) W L S2) as (ws & -> & W' & L' & E'). cbn [mbind option_bind].
    apply (lazy_bitset_container (Some _)), lazy_intro; [done | done |]. rewrite E'. fold (bc_elems b). rewrite E.
    apply xor_comm; [apply S2 | by apply array_ok_sorted].
Qed.

Lemma array_run_xor_spec a r : array_ok a -> run_ok r ->
  container_result (array_run_container_xor a r) (xor_uint16 (ac_array a) (rc_elems r)).
Proof.
  intros Ha Hr. unfold array_run_container_xor. pose proof (array_ok_sorted _ Ha) as [Sa _]. pose proof (expand_strict _ (ro_runs _ Hr)) as Sr.
  rewrite run_cardinality_spec by done. destruct (array_container_cardinality a <? 32).
  - destruct (array_run_lazy_xor_spec a r run_container_create Ha Hr) as (c & -> & O & E). cbn [mbind option_bind].
    rewrite <- E. by apply convert_run_to_efficient_spec.
  - rewrite xor_comm by done. destruct (zlen (expand (rc_runs r)) <=? DEFAULT_MAX_SIZE).
    + destruct (array_from_run_spec r Hr) as (c & -> & E & O). cbn [mbind option_bind]. rewrite <- E. by apply array_array_xor_spec.
    + destruct (bitset_from_run_spec r Hr) as (c & -> & O & E). cbn [mbind option_bind]. rewrite <- E. by apply bitset_array_ixor_spec.
Qed.

Lemma run_run_xor_spec r1 r2 : run_ok r1 -> run_ok r2 ->
  container_result (run_run_container_xor r1 r2) (xor_uint16 (rc_elems r1) (rc_elems r2)).
Proof.
  intros H1 H2. unfold run_run_container_xor.
  destruct (run_xor_spec r1 r2 run_container_create H1 H2) as (c & -> & O & E). cbn [mbind option_bind].
  unfold rc_elems. rewrite <- E. by apply convert_run_to_efficient_spec.
Qed.
