(* ===== verification/RoaringMixedRel.v ===== *)
(** * Roaring bitmaps: equality and inclusion between container types

    The functions of [mixed_equal.c] and [mixed_subset.c] decide whether the
    sets of two containers are equal, and whether one includes the other. *)

From stdpp Require Import base list list_numbers numbers option sorting.
From Stdlib Require Import ZArith Lia ZifyBool.
From S2P Require Import Prelude.
From S2P Require Import RoaringArrays.
From S2P Require Import RoaringInplace.
From S2P Require Import RoaringArrayContainer.
From S2P Require Import RoaringArrayFacts.
From S2P Require Import RoaringBitset.
From S2P Require Import RoaringBitsetFacts.
From S2P Require Import RoaringBitsetOps.
From S2P Require Import RoaringBitsetContainer.
From S2P Require Import RoaringRun.
From S2P Require Import RoaringRunFacts.
From S2P Require Import RoaringRunOps.
From S2P Require Import RoaringRunSets.
From S2P Require Import RoaringRunContainer.
From S2P Require Import RoaringConvert.
From S2P Require Import RoaringConvertFacts.
From S2P Require Import RoaringMixed.
From S2P Require Import RoaringMixedAndnot.
From S2P Require Import RoaringMixedInter.

Local Open Scope Z_scope.

(** ** The values of one word *)

Definition positions (i w : Z) : list Z := (fun n => i * 64 + n) <$> word_bits w.

Definition from_word (ws : list Z) (i : Z) : list Z := (fun x => i * 64 + x) <$> elems ws.

Lemma from_word_cons w ws i : from_word (w :: ws) i = positions i w ++ from_word ws (i + 1).
Proof.
  unfold from_word, positions. rewrite elems_cons, fmap_app. f_equal. rewrite <- list_fmap_compose.
  apply list_fmap_ext. intros j x _. simpl. lia.
Qed.

Lemma from_word_0 ws : from_word ws 0 = elems ws.
Proof. unfold from_word. transitivity (id <$> elems ws); [by apply list_fmap_ext | by rewrite list_fmap_id]. Qed.

Lemma positions_step i w : in_u 64 w -> w <> 0 ->
  let w' := Z.lxor w (Z.land w (u64 (not64 w + 1))) in
  positions i w = (i * 64 + ctz w) :: positions i w' /\ in_u 64 w' /\ 0 <= ctz w < 64.
Proof.
  intros Hw H0 w'. destruct (word_bits_step w Hw H0) as (E & Hw' & Hc). unfold positions. rewrite E, fmap_cons.
  split; [done |]. split; [done |]. assert (0 < w) as Hp by (destruct Hw; lia). by destruct (ctz_testbit w Hp).
Qed.

Lemma elem_of_positions i w x : x ∈ positions i w -> i * 64 <= x < (i + 1) * 64.
Proof. unfold positions. intros (n & -> & [Hn _]%elem_of_word_bits)%list_elem_of_fmap. lia. Qed.

Lemma positions_strict i w : strict (positions i w).
Proof.
  unfold positions. pose proof (word_bits_strict w) as H. induction (word_bits w) as [|n l IH]; [constructor |].
  rewrite fmap_cons. apply strict_cons_elem; [apply IH, (strict_tail _ _ H) |].
  intros y (m & -> & Hm)%list_elem_of_fmap. pose proof (strict_head _ _ _ H Hm). lia.
Qed.

(** ** Equality *)

(** What is left of [l] after the prefix [p]. *)
Fixpoint strip (p l : list Z) : option (list Z) :=
  match p, l with
  | [], _ => Some l
  | x :: p, y :: l => if y =? x then strip p l else None
  | _ :: _, [] => None
  end.

Lemma strip_spec p l r : strip p l = Some r <-> l = p ++ r.
Proof.
  revert l. induction p as [|x p IH]; intros l; cbn [strip app]; [split; congruence |].
  destruct l as [|y l]; [split; [done | by intros ?] |]. destruct (Z.eqb_spec y x) as [-> | N].
  - rewrite IH. split; congruence.
  - split; [done |]. congruence.
Qed.

Lemma equal_word_spec fuel i : 0 <= i < 1024 -> forall w l, in_u 64 w -> hamming w < Z.of_nat fuel ->
  equal_word fuel w i l = Some (strip (positions i w) l).
Proof.
  intros Hi. induction fuel as [|fuel IH]; intros w l Hw Hf; [pose proof (hamming_range w); lia |].
  cbn [equal_word]. destruct (Z.eqb_spec w 0) as [-> | H0]; [done |].
  rewrite (hamming_cons w Hw H0) in Hf. destruct (positions_step i w Hw H0) as (-> & Hw' & Hc). cbn [strip].
  rewrite u16_id by lia. destruct l as [|x l]; [done |]. destruct (Z.eqb_spec x (i * 64 + ctz w)); cbn [negb]; [| done].
  by rewrite IH by (done || lia).
Qed.

Lemma equal_words_spec ws : forall i l, words_ok ws -> 0 <= i -> i + zlen ws <= 1024 ->
  equal_words ws i l = Some (bool_decide (l = from_word ws i)).
Proof.
  induction ws as [|w ws IH]; intros i l Hw Hi Hl; cbn [equal_words].
  - f_equal. change (from_word [] i) with (@nil Z). rewrite zlen_zero_iff. by apply bool_decide_ext.
  - rewrite zlen_cons in Hl. pose proof (zlen_nonneg ws). apply Forall_cons in Hw as [Hw Hws]. pose proof (hamming_range w).
    rewrite equal_word_spec by (done || lia). cbn [mbind option_bind]. rewrite from_word_cons.
    destruct (strip (positions i w) l) as [r |] eqn:E.
    + apply strip_spec in E as ->. rewrite IH by (done || lia). f_equal. apply bool_decide_ext.
      split; [by intros -> | by intros ?%app_inv_head].
    + symmetry. f_equal. apply bool_decide_eq_false. intros F%strip_spec. congruence.
Qed.

Lemma array_equal_bitset_spec a b : bitset_lazy b ->
  array_container_equal_bitset a b = Some (bool_decide (ac_array a = bc_elems b)).
Proof.
  intros [[Hl Hw] Hc]. unfold array_container_equal_bitset, array_container_cardinality.
  destruct (negb (bc_cardinality b =? BITSET_UNKNOWN_CARDINALITY) && negb (bc_cardinality b =? zlen (ac_array a))) eqn:E.
  - apply andb_true_iff in E as [E1%negb_true_iff%Z.eqb_neq E2%negb_true_iff%Z.eqb_neq]. destruct Hc as [? | Hc]; [done |].
    rewrite bc_card_elems in E2 by done. symmetry. f_equal. apply bool_decide_eq_false. congruence.
  - rewrite equal_words_spec by (done || lia). by rewrite from_word_0.
Qed.

Lemma rd_gap a i j v w : strict a -> rd a i = Some v -> rd a j = Some w -> i <= j -> j - i <= w - v.
Proof.
  intros Hs Hi Hj Hij. replace j with (i + (j - i)) in Hj by lia. remember (j - i) as n eqn:En. assert (0 <= n) as Hn by lia.
  clear En Hij j. revert w Hj. pattern n. apply natlike_ind; [| | done].
  - intros w Hj. rewrite Z.add_0_r, Hi in Hj. injection Hj as ->. lia.
  - intros m Hm IH w Hj. pose proof (rd_bound _ _ _ Hi). pose proof (rd_bound _ _ _ Hj).
    destruct (rd_Some a (i + m)) as [u Hu]; [lia |]. specialize (IH u Hu).
    pose proof (strict_lt a (i + m) (i + Z.succ m) u w Hs Hu Hj ltac:(lia)). lia.
Qed.

(** A stretch of a sorted array whose ends differ by its length is a run. *)
Lemma stretch a pos n v : strict a -> 0 <= n -> rd a pos = Some v -> rd a (pos + n) = Some (v + n) ->
  drop (Z.to_nat pos) a = seqZ v (n + 1) ++ drop (Z.to_nat (pos + n + 1)) a.
Proof.
  intros Hs Hn. revert pos v. pattern n. apply natlike_ind; [| | done].
  - intros pos v H _. pose proof (rd_bound _ _ _ H). unfold rd in H. rewrite (proj2 (Z.leb_le _ _)) in H by lia.
    rewrite (drop_S _ _ _ H). rewrite seqZ_cons by lia. cbn [app]. f_equal. replace (Z.to_nat (pos + 0 + 1)) with (S (Z.to_nat pos)) by lia. done.
  - intros m Hm IH pos v H1 H2. pose proof (rd_bound _ _ _ H1). pose proof (rd_bound _ _ _ H2).
    destruct (rd_Some a (pos + 1)) as [u Hu]; [lia |].
    assert (v < u) by (eapply (strict_lt a pos (pos + 1)); [done | done | done | lia]).
    pose proof (rd_gap a (pos + 1) (pos + Z.succ m) u (v + Z.succ m) Hs Hu H2 ltac:(lia)).
    replace (drop (Z.to_nat pos) a) with (v :: drop (Z.to_nat (pos + 1)) a).
    2: { unfold rd in H1. rewrite (proj2 (Z.leb_le _ _)) in H1 by lia. rewrite (drop_S _ _ _ H1). do 2 f_equal. lia. }
    rewrite (IH (pos + 1) (v + 1)); [| rewrite Hu; f_equal; lia | replace (pos + 1 + m) with (pos + Z.succ m) by lia; rewrite H2; f_equal; lia].
    rewrite (seqZ_cons v (Z.succ m + 1)) by lia. cbn [app]. f_equal. f_equal; [f_equal; lia | f_equal; lia].
Qed.

Lemma rd_app_seq v n t i : 0 <= i < n -> rd (seqZ v n ++ t) i = Some (v + i).
Proof.
  intros Hi. rewrite rd_app_l by (rewrite zlen_seqZ; lia). unfold rd. rewrite (proj2 (Z.leb_le _ _)) by lia.
  rewrite lookup_seqZ. split; [f_equal; lia | lia].
Qed.

Lemma equal_runs_spec l a : strict a -> forall pos, 0 <= pos -> runs_ok l -> zlen (expand l) = zlen a - pos ->
  equal_runs l a pos = Some (bool_decide (drop (Z.to_nat pos) a = expand l)).
Proof.
  intros Hs. induction l as [|r l IH]; intros pos Hp Hr Hz; cbn [equal_runs].
  - rewrite drop_ge; [done |]. change (zlen (expand [])) with 0 in Hz. unfold zlen in *. lia.
  - apply runs_ok_cons in Hr as ((R1 & R2 & R3) & _ & Hr). pose proof (zlen_nonneg (expand l)).
    rewrite expand_cons, zlen_app, zlen_run_values in Hz by done. unfold r_max in *.
    destruct (rd_Some a pos) as [x Hx]; [lia |]. rewrite Hx. cbn [mbind option_bind].
    destruct (rd_Some a (pos + r_length r)) as [y Hy]; [lia |].
    rewrite expand_cons. unfold run_values.
    assert (drop (Z.to_nat pos) a = seqZ (r_value r) (r_length r + 1) ++ expand l ->
      x = r_value r /\ y = r_value r + r_length r) as Hfirst.
    { intros E. split.
      - assert (rd (drop (Z.to_nat pos) a) 0 = Some x) as F by (by rewrite rd_drop, Z.add_0_r by lia).
        rewrite E, rd_app_seq in F by lia. injection F. lia.
      - assert (rd (drop (Z.to_nat pos) a) (r_length r) = Some y) as F by (by rewrite rd_drop by lia).
        rewrite E, rd_app_seq in F by lia. injection F. lia. }
    destruct (Z.eqb_spec x (r_value r)) as [-> | N]; cbn [negb].
    2: { symmetry. f_equal. apply bool_decide_eq_false. intros []%Hfirst. done. }
    rewrite Hy. cbn [mbind option_bind].
    destruct (Z.eqb_spec y (r_value r + r_length r)) as [-> | N]; cbn [negb].
    2: { symmetry. f_equal. apply bool_decide_eq_false. intros []%Hfirst. done. }
    rewrite IH by (done || lia). f_equal. apply bool_decide_ext. rewrite (stretch a pos (r_length r) (r_value r)) by done.
    rewrite Z.add_assoc. split; [by intros -> | by intros ?%app_inv_head].
Qed.

Lemma run_equals_array_spec r a : run_ok r -> array_ok a ->
  run_container_equals_array r a = Some (bool_decide (rc_elems r = ac_array a)).
Proof.
  intros Hr Ha. unfold run_container_equals_array, array_container_cardinality. rewrite run_cardinality_spec by done.
  destruct (Z.eqb_spec (zlen (expand (rc_runs r))) (zlen (ac_array a))) as [E | N]; cbn [negb].
  - rewrite equal_runs_spec; [| apply Ha | lia | apply Hr | lia]. f_equal. apply bool_decide_ext.
    change (Z.to_nat 0) with 0%nat. rewrite drop_0. unfold rc_elems. split; congruence.
  - symmetry. f_equal. apply bool_decide_eq_false. unfold rc_elems. congruence.
Qed.

Lemma strict_subset_eq a b : strict a -> strict b -> (forall x, x ∈ a -> x ∈ b) -> zlen b <= zlen a -> a = b.
Proof.
  intros Ha Hb H Hz. apply strict_ext; [done | done |]. intros x. split; [auto |]. intros Hx.
  destruct (decide (x ∈ a)) as [| N]; [done |]. exfalso.
  pose proof (strict_subset_length a (minus b [x]) Ha (strict_filter _ _ Hb)) as L.
  assert (zlen (minus b [x]) < zlen b) as L'.
  { clear -Hx. unfold minus. induction b as [|y b IH]; [by apply elem_of_nil in Hx |]. rewrite filter_cons.
    destruct (decide (y ∉ [x])) as [D | D].
    - rewrite !zlen_cons. apply elem_of_cons in Hx as [-> | Hx]; [by destruct D; apply list_elem_of_here |]. specialize (IH Hx). lia.
    - rewrite zlen_cons. pose proof (zlen_filter_le (fun z => z ∉ [x]) b). lia. }
  assert (zlen a <= zlen (minus b [x])); [| lia]. apply L. intros y Hy. apply elem_of_minus. split; [auto |].
  rewrite list_elem_of_singleton. by intros ->.
Qed.

Lemma all_in_bitset_spec l b : bitset_wf b -> Forall run_wf l ->
  exists v, all_in_bitset l b = Some v /\ (v = true <-> forall x, x ∈ expand l -> x ∈ bc_elems b).
Proof.
  intros Hb. induction l as [|r l IH]; intros Hr.
  - exists true. split; [done |]. split; [by intros _ x ?%elem_of_expand_nil | done].
  - apply Forall_cons in Hr as [(R1 & R2 & R3) Hr]. unfold r_max in *. destruct (IH Hr) as (v & E & X). cbn [all_in_bitset].
    assert (exists ok, (if negb (r_length r =? 0) then bitset_container_contains_range b (r_value r) (r_value r + r_length r + 1)
          else bitset_container_contains b (r_value r)) = Some ok /\
        (ok = true <-> forall x, r_value r <= x < r_value r + r_length r + 1 -> x ∈ bc_elems b)) as (ok & -> & Y).
    { destruct (Z.eqb_spec (r_length r) 0) as [Hz | Hz]; cbn [negb].
      - unfold bitset_container_contains. rewrite bitset_get_spec by (done || unfold in_u; lia). eexists. split; [done |].
        rewrite bool_decide_eq_true. split; [| intros H; apply H; lia]. intros H x Hx. by replace x with (r_value r) by lia.
      - apply (bitset_get_range_spec b); [done | lia | lia]. }
    cbn [mbind option_bind]. destruct ok.
    + exists v. split; [done |]. rewrite X. destruct Y as [Y _]. specialize (Y eq_refl). split.
      * intros H x [Hx | Hx]%elem_of_expand_cons; [apply Y; unfold r_max in Hx; lia | auto].
      * intros H x Hx. apply H, elem_of_expand_cons. by right.
    + exists false. split; [done |]. split; [done |]. intros H. apply Y. intros x Hx. apply H, elem_of_expand_cons.
      left. unfold r_max. lia.
Qed.

(** The cardinality the code reads from a bitset, counted when unknown. *)
Lemma lazy_card b : bitset_lazy b ->
  (if negb (bc_cardinality b =? BITSET_UNKNOWN_CARDINALITY) then Some (bc_cardinality b)
   else bitset_container_compute_cardinality b) = Some (zlen (bc_elems b)).
Proof.
  intros [Hw Hc]. destruct (Z.eqb_spec (bc_cardinality b) BITSET_UNKNOWN_CARDINALITY); cbn [negb].
  - by apply bitset_compute_cardinality_spec.
  - destruct Hc as [| Hc]; [done |]. by rewrite bc_card_elems.
Qed.

Lemma run_equals_bitset_spec r b : run_ok r -> bitset_lazy b ->
  run_container_equals_bitset r b = Some (bool_decide (rc_elems r = bc_elems b)).
Proof.
  intros Hr Hb. unfold run_container_equals_bitset. rewrite lazy_card by done. cbn [mbind option_bind].
  rewrite run_cardinality_spec by done. pose proof (expand_strict _ (ro_runs _ Hr)) as Sr.
  destruct (Z.eqb_spec (zlen (bc_elems b)) (zlen (expand (rc_runs r)))) as [E | N]; cbn [negb].
  - destruct (all_in_bitset_spec (rc_runs r) b (proj1 Hb) (proj1 (ro_runs _ Hr))) as (v & -> & X). f_equal.
    apply eq_true_iff_eq. rewrite X, bool_decide_eq_true. split; [| by intros <-].
    intros H. apply strict_subset_eq; [done | apply bc_elems_strict | done |]. unfold rc_elems. lia.
  - symmetry. f_equal. apply bool_decide_eq_false. unfold rc_elems. congruence.
Qed.

(** ** Inclusion *)

(** [o] answers whether [a] is included in [b]. *)
Definition subset_result (o : option bool) (a b : list Z) : Prop :=
  exists v, o = Some v /\ (v = true <-> forall x, x ∈ a -> x ∈ b).

Lemma subset_too_large a b : strict a -> strict b -> zlen b < zlen a -> subset_result (Some false) a b.
Proof.
  intros Ha Hb Hz. exists false. split; [done |]. split; [done |]. intros H. pose proof (strict_subset_length a b Ha Hb H). lia.
Qed.

Lemma all_keys_in_spec l b : bitset_wf b -> Forall (in_u 16) l -> subset_result (all_keys_in l b) l (bc_elems b).
Proof.
  intros Hb Hl. induction Hl as [|x l Hx Hl (v & E & X)].
  - exists true. split; [done |]. split; [by intros _ x ?%elem_of_nil | done].
  - cbn [all_keys_in]. unfold bitset_container_contains. rewrite bitset_get_spec by done. cbn [mbind option_bind].
    case_bool_decide as D.
    + exists v. split; [done |]. rewrite X. split.
      * intros H y [-> | Hy]%elem_of_cons; [done | auto].
      * intros H y Hy. apply H. by constructor.
    + exists false. split; [done |]. split; [done |]. intros H. destruct D. apply H. constructor.
Qed.

Lemma array_subset_bitset_spec a b : array_ok a -> bitset_lazy b ->
  subset_result (array_container_is_subset_bitset a b) (ac_array a) (bc_elems b).
Proof.
  intros Ha [Hw Hc]. unfold array_container_is_subset_bitset, array_container_cardinality.
  destruct (_ && _) eqn:E; [| apply all_keys_in_spec; [done | apply Ha]].
  apply andb_true_iff in E as [E1%negb_true_iff%Z.eqb_neq E2%Z.ltb_lt]. destruct Hc as [? | Hc]; [done |].
  rewrite bc_card_elems in E2 by done. apply subset_too_large; [apply Ha | apply bc_elems_strict | done].
Qed.

Lemma run_subset_bitset_spec r b : run_ok r -> bitset_lazy b ->
  subset_result (run_container_is_subset_bitset r b) (rc_elems r) (bc_elems b).
Proof.
  intros Hr Hb. unfold run_container_is_subset_bitset. rewrite lazy_card by done. cbn [mbind option_bind].
  rewrite run_cardinality_spec by done. destruct (expand_sorted _ (ro_runs _ Hr)) as [Sr Rr].
  destruct (Z.ltb_spec (zlen (bc_elems b)) (zlen (expand (rc_runs r)))).
  - apply subset_too_large; [done | apply bc_elems_strict | done].
  - change (run_ints (rc_runs r)) with (expand (rc_runs r)). apply all_keys_in_spec; [apply Hb | done].
Qed.

Lemma array_subset_run_loop_cons x a r l : array_subset_run_loop (x :: a) (r :: l) =
  if x <? r_value r then false
  else if r_value r + r_length r <? x then array_subset_run_loop (x :: a) l
  else array_subset_run_loop a (r :: l).
Proof. done. Qed.

Lemma array_subset_run_loop_spec a : forall l, strict a -> runs_ok l ->
  array_subset_run_loop a l = true <-> forall x, x ∈ a -> x ∈ expand l.
Proof.
  induction a as [|x a IHa]; [intros l _ _; destruct l; split; done || by intros _ x ?%elem_of_nil |].
  intros l. induction l as [|r l IHl]; intros Ha Hr.
  - split; [done |]. intros H. destruct (elem_of_expand_nil x) as [F _]. destruct F. apply H. constructor.
  - rewrite array_subset_run_loop_cons. pose proof Hr as ((R1 & R2 & R3) & Rs & Hr')%runs_ok_cons. unfold r_max in *.
    destruct (Z.ltb_spec x (r_value r)); [| destruct (Z.ltb_spec (r_value r + r_length r) x)].
    + split; [done |]. intros H'. assert (x ∈ expand (r :: l)) as Hx by (apply H'; constructor).
      apply elem_of_expand_cons in Hx as [Hx | Hx]; [unfold r_max in Hx; lia |]. pose proof (starts_after_elem _ _ _ Rs Hx). lia.
    + rewrite IHl by done. split; intros H' y Hy.
      * apply elem_of_expand_cons. right. auto.
      * specialize (H' y Hy). apply elem_of_expand_cons in H' as [H' | H']; [| done]. unfold r_max in H'.
        apply elem_of_cons in Hy as [-> | Hy]; [lia |]. pose proof (strict_head _ _ _ Ha Hy). lia.
    + rewrite IHa by (done || by apply (strict_tail _ _ Ha)). split; intros H' y Hy.
      * apply elem_of_cons in Hy as [-> | Hy]; [| auto]. apply elem_of_expand_cons. left. unfold r_max. lia.
      * apply H'. by constructor.
Qed.

Lemma array_subset_run_spec a r : array_ok a -> run_ok r ->
  subset_result (Some (array_container_is_subset_run a r)) (ac_array a) (rc_elems r).
Proof.
  intros Ha Hr. unfold array_container_is_subset_run, array_container_cardinality. rewrite run_cardinality_spec by done.
  destruct (Z.ltb_spec (zlen (expand (rc_runs r))) (zlen (ac_array a))).
  - apply subset_too_large; [apply Ha | apply expand_strict, Hr | done].
  - eexists. split; [done |]. apply array_subset_run_loop_spec; [apply Ha | apply Hr].
Qed.

(** A run is in a sorted array when its ends are there, as far apart as its
    length. *)
Lemma run_in_array a s n : strict a -> 0 <= n ->
  (forall x, s <= x <= s + n -> x ∈ a) <->
  rd a (lb a s) = Some s /\ rd a (lb a (s + n)) = Some (s + n) /\ lb a (s + n) - lb a s = n.
Proof.
  intros Hs Hn. split.
  - intros H. assert (rd a (lb a s) = Some s) as H1 by (apply rd_lb_elem; [done | apply H; lia]).
    assert (rd a (lb a (s + n)) = Some (s + n)) as H2 by (apply rd_lb_elem; [done | apply H; lia]).
    split; [done |]. split; [done |]. pose proof (lb_mono a s (s + n) ltac:(lia)). rewrite <- count_in_lb by lia.
    replace n with (s + n - s) at 2 by lia. apply count_in_full; [done | lia |]. intros x Hx. apply H. lia.
  - intros (H1 & H2 & H3) x Hx. replace (lb a (s + n)) with (lb a s + n) in H2 by lia.
    pose proof (stretch a (lb a s) n s Hs Hn H1 H2) as E.
    assert (x ∈ drop (Z.to_nat (lb a s)) a) as Hin by (rewrite E, elem_of_app; left; apply elem_of_seqZ; lia).
    rewrite <- (take_drop (Z.to_nat (lb a s)) a). apply elem_of_app. by right.
Qed.

Lemma run_subset_array_loop_spec a l : strict a -> forall pos, runs_ok l ->
  -1 <= pos -> match l with r :: _ => pos < lb a (r_value r) | [] => True end ->
  Forall (fun r => lb a (r_max r) < zlen a) l ->
  subset_result (run_subset_array_loop l a pos) (expand l) a.
Proof.
  intros Hs. induction l as [|r l IH]; intros pos Hr Hp Hpos Hm.
  - exists true. split; [done |]. split; [by intros _ x ?%elem_of_expand_nil | done].
  - apply Forall_cons in Hm as [Hm0 Hm]. apply runs_ok_cons in Hr as ((R1 & R2 & R3) & Rs & Hr). unfold r_max in *. cbn [run_subset_array_loop].
    rewrite !u16_id by lia. pose proof (lb_mono a (r_value r) (r_value r + r_length r) ltac:(lia)) as M.
    rewrite !advanceUntil_spec by done. rewrite !Z.max_r by lia. cbn [mbind option_bind].
    pose proof (run_in_array a (r_value r) (r_length r) Hs R2) as RI.
    assert (~ (rd a (lb a (r_value r)) = Some (r_value r) /\ rd a (lb a (r_value r + r_length r)) = Some (r_value r + r_length r) /\
       lb a (r_value r + r_length r) - lb a (r_value r) = r_length r) -> subset_result (Some false) (expand (r :: l)) a) as Hno.
    { intros N. exists false. split; [done |]. split; [done |]. intros H. destruct N. apply RI. intros x Hx. apply H, elem_of_expand_cons.
      left. done. }
    pose proof (lb_range a (r_value r)). pose proof (lb_range a (r_value r + r_length r)).
    destruct (Z.eqb_spec (lb a (r_value r)) (zlen a)).
    { apply Hno. intros (F & _). apply rd_bound in F. lia. }
    replace (r_value r + r_length r - r_value r) with (r_length r) by lia.
    destruct (Z.eqb_spec (lb a (r_value r + r_length r) - lb a (r_value r)) (r_length r)) as [E | N]; cbn [negb]; [| apply Hno; tauto].
    destruct (rd_Some a (lb a (r_value r))) as [x Hx]; [lia |]. rewrite Hx. cbn [mbind option_bind].
    destruct (Z.eqb_spec x (r_value r)) as [-> | N]; cbn [negb].
    2: { apply Hno. rewrite Hx. intros ([=] & _). done. }
    destruct (rd_Some a (lb a (r_value r + r_length r))) as [y Hy]; [lia |]. rewrite Hy.
    cbn [mbind option_bind].
    destruct (Z.eqb_spec y (r_value r + r_length r)) as [-> | N]; cbn [negb].
    2: { apply Hno. rewrite Hy. intros (_ & [=] & _). done. }
    destruct (IH (lb a (r_value r + r_length r))) as (v & -> & X); [done | lia | | done |].
    { destruct l as [|r' l]; [done |]. apply starts_after_cons in Rs as [Rs _].
      pose proof (lb_succ a (r_value r + r_length r) Hs) as Hl. rewrite decide_True in Hl by by eapply rd_elem.
      pose proof (lb_mono a (r_value r + r_length r + 1) (r_value r') ltac:(lia)). lia. }
    exists v. split; [done |]. rewrite X. destruct RI as [_ RI]. specialize (RI (conj Hx (conj Hy E))). split.
    + intros H' z [Hz | Hz]%elem_of_expand_cons; [apply RI; unfold r_max in Hz; lia | auto].
    + intros H' z Hz. apply H', elem_of_expand_cons. by right.
Qed.

(** The answer is right when the array has a value at or above the last run;
    every read is then inside of the array. *)
Lemma run_subset_array_spec r a y : run_ok r -> array_ok a -> y ∈ ac_array a -> (forall x, x ∈ rc_elems r -> x <= y) ->
  subset_result (run_container_is_subset_array r a) (rc_elems r) (ac_array a).
Proof.
  intros Hr Ha Hy Hm. unfold run_container_is_subset_array, array_container_cardinality. rewrite run_cardinality_spec by done.
  destruct (Z.ltb_spec (zlen (ac_array a)) (zlen (expand (rc_runs r)))).
  - apply subset_too_large; [apply expand_strict, Hr | apply Ha | done].
  - apply run_subset_array_loop_spec; [apply Ha | apply Hr | lia | |].
    + destruct (rc_runs r) as [|x l]; [done |]. pose proof (lb_range (ac_array a) (r_value x)). lia.
    + apply Forall_forall. intros x Hx. pose proof (rd_lb_elem _ y (ao_strict _ Ha) Hy) as E. pose proof (rd_bound _ _ _ E).
      assert (r_max x <= y) by (apply Hm, elem_of_expand; exists x; split; [done |]; destruct (ro_runs _ Hr) as [W _];
        rewrite Forall_forall in W; destruct (W x Hx) as (? & ? & ?); unfold r_max; lia).
      pose proof (lb_mono (ac_array a) (r_max x) y ltac:(done)). lia.
Qed.

Lemma strict_app_lt a b x y : strict (a ++ b) -> x ∈ a -> y ∈ b -> x < y.
Proof.
  induction a as [|z a IH]; intros H Hx Hy; [by apply elem_of_nil in Hx |]. apply elem_of_cons in Hx as [-> | Hx].
  - apply (strict_head _ _ _ H), elem_of_app. by right.
  - apply IH; [by apply (strict_tail _ _ H) | done | done].
Qed.

(** Otherwise the function can read behind the last element: here the array
    ends with all the values of the run but the last. *)
Lemma run_subset_array_overrun p s n cap c : sorted16 (p ++ seqZ s n) -> p <> [] -> 0 < n -> s + n <= 65535 ->
  run_container_is_subset_array (mk_run cap [mk_rle s n]) (mk_array c (p ++ seqZ s n)) = None.
Proof.
  intros [Hs Hr] Hp Hn Hle. assert (s ∈ p ++ seqZ s n) as Hin by (apply elem_of_app; right; apply elem_of_seqZ; lia).
  assert (0 <= s) by (rewrite Forall_forall in Hr; destruct (Hr s Hin); lia).
  assert (forall x, x ∈ p -> x < s) as Hlt.
  { intros x Hx. eapply strict_app_lt; [exact Hs | done |]. apply elem_of_seqZ. lia. }
  assert (lb (p ++ seqZ s n) s = zlen p) as L1.
  { rewrite lb_app, lb_all, lb_none; [lia | |]; apply Forall_forall; [| done]. intros x Hx%elem_of_seqZ. lia. }
  assert (lb (p ++ seqZ s n) (s + n) = zlen p + n) as L2.
  { rewrite lb_app, !lb_all, zlen_seqZ; [done | lia | |]; apply Forall_forall; [intros x Hx%elem_of_seqZ; lia |].
    intros x Hx. specialize (Hlt x Hx). lia. }
  unfold run_container_is_subset_array, array_container_cardinality. cbn [ac_array rc_runs].
  assert (0 < zlen p) by (destruct p; [done |]; rewrite zlen_cons; pose proof (zlen_nonneg p); lia).
  rewrite zlen_app, zlen_seqZ by lia. replace (run_container_cardinality (mk_run cap [mk_rle s n])) with (n + 1).
  2: { unfold run_container_cardinality, n_runs. cbn [rc_runs sum_lengths r_length]. change (zlen [mk_rle s n]) with 1. lia. }
  rewrite (proj2 (Z.ltb_ge _ _)) by lia. cbn [run_subset_array_loop r_value r_length]. rewrite !u16_id by lia.
  rewrite !advanceUntil_spec by (done || lia). rewrite L1, L2. cbn [mbind option_bind].
  rewrite zlen_app, zlen_seqZ, !Z.max_r by lia. rewrite (proj2 (Z.eqb_neq _ _)) by lia.
  replace (zlen p + n - zlen p =? s + n - s) with true by lia. cbn [negb].
  pose proof (rd_lb_elem _ s Hs Hin) as E. rewrite L1 in E. rewrite E. cbn [mbind option_bind]. rewrite Z.eqb_refl. cbn [negb].
  destruct (rd (p ++ seqZ s n) (zlen p + n)) as [y |] eqn:Ey; [| done]. apply rd_bound in Ey.
  rewrite zlen_app, zlen_seqZ in Ey by lia. lia.
Qed.

(** *** A bitset in runs *)

Lemma subset_word_spec fuel i : 0 <= i < 1024 -> forall w runs, in_u 64 w -> runs_ok runs ->
  hamming w + zlen runs < Z.of_nat fuel ->
  exists o, subset_word fuel w i runs = Some o /\
    match o with
    | None => ~ (forall x, x ∈ positions i w -> x ∈ expand runs)
    | Some runs' => (forall x, x ∈ positions i w -> x ∈ expand runs) /\ runs_ok runs' /\
        forall x, (i + 1) * 64 <= x -> x ∈ expand runs <-> x ∈ expand runs'
    end.
Proof.
  intros Hi. induction fuel as [|fuel IH]; intros w runs Hw Hr Hf; cbn [subset_word].
  { pose proof (hamming_range w). pose proof (zlen_nonneg runs). lia. }
  destruct (Z.eqb_spec w 0) as [-> | H0].
  { eexists. split; [done |]. split; [by intros x ?%elem_of_nil | done]. }
  destruct (positions_step i w Hw H0) as (E & Hw' & Hc). pose proof (positions_strict i w) as Hst. rewrite E in *.
  destruct runs as [|r runs].
  { eexists. split; [done |]. intros H. destruct (elem_of_expand_nil (i * 64 + ctz w)) as [F _]. apply F, H. constructor. }
  pose proof Hr as ((R1 & R2 & R3) & Rs & Hr')%runs_ok_cons. unfold r_max in *. rewrite u16_id by lia.
  set (v := i * 64 + ctz w) in *. cbv zeta.
  assert (forall x, x ∈ positions i (Z.lxor w (Z.land w (u64 (not64 w + 1)))) -> v < x) as Hgt by (intros x; by apply strict_head).
  destruct (Z.ltb_spec v (r_value r)); [| destruct (Z.ltb_spec (r_value r + r_length r) v)].
  - eexists. split; [done |]. intros H'. assert (v ∈ expand (r :: runs)) as Hv by (apply H'; constructor).
    apply elem_of_expand_cons in Hv as [Hv | Hv]; [unfold r_max in Hv; lia |]. pose proof (starts_after_elem _ _ _ Rs Hv). lia.
  - rewrite zlen_cons in Hf. destruct (IH w runs Hw Hr' ltac:(lia)) as (o & -> & Ho). exists o. split; [done |].
    rewrite E in Ho. assert (forall x, v <= x -> x ∈ expand (r :: runs) <-> x ∈ expand runs) as Hsame by (intros x Hx; members).
    assert (forall x, x ∈ v :: positions i (Z.lxor w (Z.land w (u64 (not64 w + 1)))) -> v <= x) as Hge.
    { intros x [-> | Hx]%elem_of_cons; [lia |]. specialize (Hgt x Hx). lia. }
    destruct o as [runs' |].
    + destruct Ho as (A & O & X). split; [intros x Hx; apply Hsame; auto |]. split; [done |].
      intros x Hx. rewrite Hsame by (unfold v; lia). by apply X.
    + intros H'. apply Ho. intros x Hx. apply Hsame; auto.
  - rewrite (hamming_cons w Hw H0) in Hf.
    destruct (IH (Z.lxor w (Z.land w (u64 (not64 w + 1)))) (r :: runs) Hw' Hr ltac:(lia)) as (o & -> & Ho). exists o. split; [done |].
    assert (v ∈ expand (r :: runs)) as Hv by (apply elem_of_expand_cons; left; unfold r_max; lia).
    destruct o as [runs' |].
    + destruct Ho as (A & O & X). split; [| done]. intros x [-> | Hx]%elem_of_cons; auto.
    + intros H'. apply Ho. intros x Hx. apply H'. by constructor.
Qed.

Lemma zero_words ws i : words_ok ws -> forallb (fun w => w =? 0) ws = true <-> from_word ws i = [].
Proof.
  intros Hw. revert i. induction Hw as [|w ws Hw _ IH]; intros i; cbn [forallb]; [done |].
  rewrite andb_true_iff, (IH (i + 1)), from_word_cons, Z.eqb_eq. split.
  - intros [-> ->]. done.
  - intros [E ->]%app_nil. split; [| done]. destruct (decide (w = 0)) as [| N]; [done |].
    destruct (positions_step i w Hw N) as (F & _). rewrite F in E. done.
Qed.

Lemma elem_of_from_word ws i x : x ∈ from_word ws i -> i * 64 <= x.
Proof. unfold from_word. intros (y & -> & Hy)%list_elem_of_fmap. apply elems_range in Hy. lia. Qed.

Lemma subset_words_spec ws : forall i runs, words_ok ws -> runs_ok runs -> 0 <= i -> i + zlen ws <= 1024 ->
  subset_result (subset_words ws i runs) (from_word ws i) (expand runs).
Proof.
  induction ws as [|w ws IH]; intros i runs Hw Hr Hi Hl.
  { exists true. split; [done |]. split; [by intros _ x ?%elem_of_nil | done]. }
  rewrite zlen_cons in Hl. pose proof (zlen_nonneg ws). cbn [subset_words]. destruct runs as [|r runs].
  { eexists. split; [done |]. rewrite (zero_words _ i) by done. split.
    - intros -> x Hx. by apply elem_of_nil in Hx.
    - intros H'. destruct (from_word (w :: ws) i) as [|x l]; [done |]. destruct (elem_of_expand_nil x) as [F _]. destruct F. apply H'. constructor. }
  apply Forall_cons in Hw as [Hw Hws]. pose proof (hamming_range w).
  destruct (subset_word_spec (65 + length (r :: runs)) i ltac:(lia) w (r :: runs)) as (o & -> & Ho); [done | done | unfold zlen; lia |].
  cbn [mbind option_bind]. destruct o as [runs' |].
  - destruct Ho as (A & O & X). destruct (IH (i + 1) runs' Hws O ltac:(lia) ltac:(lia)) as (v & -> & V). exists v. split; [done |].
    rewrite V, from_word_cons. split.
    + intros H' x [Hx | Hx]%elem_of_app; [auto |]. apply X; [by apply (elem_of_from_word ws) | auto].
    + intros H' x Hx. apply X; [by apply (elem_of_from_word ws) |]. apply H', elem_of_app. by right.
  - exists false. split; [done |]. split; [done |]. intros H'. destruct Ho. intros x Hx. apply H'. rewrite from_word_cons.
    apply elem_of_app. by left.
Qed.

Lemma bitset_subset_run_spec b r : bitset_lazy b -> run_ok r ->
  subset_result (bitset_container_is_subset_run b r) (bc_elems b) (rc_elems r).
Proof.
  intros [[Hl Hw] Hc] Hr. unfold bitset_container_is_subset_run. rewrite run_cardinality_spec by done.
  destruct (_ && _) eqn:E.
  - apply andb_true_iff in E as [E1%negb_true_iff%Z.eqb_neq E2%Z.ltb_lt]. destruct Hc as [? | Hc]; [done |].
    rewrite bc_card_elems in E2 by done. apply subset_too_large; [apply bc_elems_strict | apply expand_strict, Hr | done].
  - unfold bc_elems. rewrite <- from_word_0. apply subset_words_spec; [done | apply Hr | lia | lia].
Qed.
