(* ===== verification/RoaringMixedNeg.v ===== *)
(** * Roaring bitmaps: negation of containers

    The functions of [mixed_negation.c] flip every value of a range, or of all
    65536 values. *)

From stdpp Require Import base list list_numbers numbers option sorting.
From Stdlib Require Import ZArith Lia ZifyBool.
From S2P Require Import Prelude.
From S2P Require Import RoaringArrays.
From S2P Require Import RoaringInplace.
From S2P Require Import RoaringArrayContainer.
From S2P Require Import RoaringArrayFacts.
From S2P Require Import RoaringBitset.
From S2P Require Import RoaringBitsetFacts.
From S2P Require Import RoaringBitsetOps.
From S2P Require Import RoaringBitsetContainer.
From S2P Require Import RoaringRun.
From S2P Require Import RoaringRunFacts.
From S2P Require Import RoaringRunOps.
From S2P Require Import RoaringRunSets.
From S2P Require Import RoaringRunContainer.
From S2P Require Import RoaringConvert.
From S2P Require Import RoaringConvertFacts.
From S2P Require Import RoaringMixed.
From S2P Require Import RoaringMixedAndnot.
From S2P Require Import RoaringMixedInter.
From S2P Require Import RoaringMixedUnion.
From S2P Require Import RoaringMixedXor.
From S2P Require Import RoaringMixedRel.

Local Open Scope Z_scope.

(** The range as a set. *)
Definition range (s e : Z) : list Z := seqZ s (e - s).

Lemma elem_of_range s e x : x ∈ range s e <-> s <= x < e.
Proof. unfold range. rewrite elem_of_seqZ. lia. Qed.

Lemma range_strict s e : strict (range s e).
Proof. apply seqZ_strict. Qed.

(** ** Arrays *)

Lemma elem_of_take_lb a k x : strict a -> x ∈ take (Z.to_nat (lb a k)) a <-> x ∈ a /\ x < k.
Proof.
  intros Hs. pose proof (lb_range a k). split.
  - intros Hx. apply list_elem_of_lookup in Hx as [i Hi]. apply lookup_take_Some in Hi as [Hi Hlt].
    split; [by eapply list_elem_of_lookup_2 |].
    assert (rd a (Z.of_nat i) = Some x) as Hrd by (unfold rd; rewrite (proj2 (Z.leb_le _ _)) by lia; by rewrite Nat2Z.id).
    pose proof (lb_lookup a k _ x Hs Hrd). lia.
  - intros [Hx Hlt]. apply rd_lb_elem in Hx; [| done]. pose proof (lb_lookup a k _ x Hs Hx). pose proof (rd_bound _ _ _ Hx).
    apply list_elem_of_lookup. exists (Z.to_nat (lb a x)). apply lookup_take_Some. split; [| lia].
    unfold rd in Hx. by rewrite (proj2 (Z.leb_le _ _)) in Hx by lia.
Qed.

Lemma elem_of_drop_lb a k x : strict a -> x ∈ drop (Z.to_nat (lb a k)) a <-> x ∈ a /\ k <= x.
Proof.
  intros Hs. pose proof (elem_of_take_lb a k x Hs) as T. split.
  - intros Hx. assert (x ∈ a) as Ha by (rewrite <- (take_drop (Z.to_nat (lb a k)) a), elem_of_app; by right).
    split; [done |]. destruct (decide (x < k)) as [L |]; [| lia]. exfalso.
    assert (x ∈ take (Z.to_nat (lb a k)) a) as Ht by (by apply T).
    rewrite <- (take_drop (Z.to_nat (lb a k)) a) in Hs. apply strict_NoDup, NoDup_app in Hs as (_ & Hd & _). by apply (Hd x).
  - intros [Ha Hk]. rewrite <- (take_drop (Z.to_nat (lb a k)) a), elem_of_app in Ha. destruct Ha as [Ha |]; [| done].
    apply T in Ha. lia.
Qed.

(** The flipped array: what is before the range, the values of the range that
    are missing, what is after it. *)
Lemma xor_range_parts a s e : strict a -> s <= e ->
  xor_uint16 a (range s e) = take (Z.to_nat (lb a s)) a ++ minus (range s e) a ++ drop (Z.to_nat (lb a e)) a.
Proof.
  intros Hs He. apply strict_ext.
  - apply xor_strict; [done | apply range_strict].
  - apply strict_app; [by apply strict_take | apply strict_app |].
    + apply strict_filter, range_strict.
    + by apply strict_drop.
    + intros x y [Hx _]%elem_of_minus [_ Hy]%elem_of_drop_lb; [| done]. apply elem_of_range in Hx. lia.
    + intros x y [_ Hx]%elem_of_take_lb; [| done]. rewrite elem_of_app, elem_of_minus, elem_of_range, elem_of_drop_lb by done.
      intros [[? _] | [_ ?]]; lia.
  - intros x. rewrite elem_of_xor by (done || apply range_strict).
    rewrite !elem_of_app, elem_of_minus, elem_of_take_lb, elem_of_drop_lb, !elem_of_range by done.
    abstract_members. lia.
Qed.

Lemma zlen_minus_inter a b : zlen (minus a b) + zlen (inter a b) = zlen a.
Proof.
  induction a as [|x a IH]; [done |]. rewrite minus_cons, inter_cons_if, zlen_cons. case_decide; rewrite zlen_cons; lia.
Qed.

Lemma zlen_xor_range a s e : strict a -> s <= e ->
  zlen (xor_uint16 a (range s e)) = zlen a + (e - s) - 2 * (lb a e - lb a s).
Proof.
  intros Hs He. pose proof (lb_range a s). pose proof (lb_range a e). pose proof (lb_mono a s e He).
  rewrite xor_range_parts, !zlen_app, zlen_take, zlen_drop by (done || lia).
  pose proof (zlen_minus_inter (range s e) a) as M. pose proof (count_in_inter a s (e - s) Hs) as C.
  replace (s + (e - s)) with e in C by lia. rewrite count_in_lb in C by done. fold (range s e) in C.
  assert (zlen (range s e) = e - s) by (apply zlen_seqZ; lia). lia.
Qed.

Lemma flip_loop_spec a k : sorted16 a -> forall s p last, 0 <= s -> s + Z.of_nat k <= 65536 -> p = lb a s ->
  last = lb a (s + Z.of_nat k) - 1 ->
  flip_loop (seqZ s (Z.of_nat k)) a p last = Some (minus (seqZ s (Z.of_nat k)) a).
Proof.
  intros [Hs Hr]. induction k as [|k IH]; intros s p last H0 Hk Hp Hlast; [done |].
  rewrite seqZ_cons by lia. replace (Z.pred (Z.of_nat (S k))) with (Z.of_nat k) by lia.
  replace (s + Z.of_nat (S k)) with (Z.succ s + Z.of_nat k) in * by lia. cbn [flip_loop]. rewrite minus_cons.
  pose proof (lb_succ a s Hs) as Hsucc. change (s + 1) with (Z.succ s) in Hsucc.
  pose proof (lb_mono a (Z.succ s) (Z.succ s + Z.of_nat k) ltac:(lia)). pose proof (lb_range a (Z.succ s + Z.of_nat k)).
  pose proof (lb_range a s). rewrite u16_id by lia.
  destruct (decide (s ∈ a)) as [Hin | Hin].
  - rewrite (proj2 (Z.leb_le _ _)) by lia. rewrite Hp, rd_lb_elem by done. cbn [mbind option_bind].
    rewrite Z.eqb_refl. cbn [negb]. apply IH; lia.
  - destruct (Z.leb_spec p last).
    + destruct (rd_Some a p) as [x Hx]; [lia |]. rewrite Hx. cbn [mbind option_bind].
      destruct (Z.eqb_spec s x) as [<- | N]; cbn [negb]; [by apply rd_elem in Hx |].
      rewrite IH by lia. done.
    + rewrite IH by lia. done.
Qed.

Lemma search_start a s : strict a ->
  exists i, binarySearch a s = Some i /\ (if i <? 0 then - i - 1 else i) = lb a s.
Proof.
  intros Hs. rewrite binarySearch_spec by done. eexists. split; [done |]. pose proof (lb_range a s).
  case_decide; [rewrite (proj2 (Z.ltb_ge _ _)) by lia | rewrite (proj2 (Z.ltb_lt _ _)) by lia]; lia.
Qed.

Lemma search_last a e : strict a ->
  exists i, binarySearch a (e - 1) = Some i /\ (if i <? 0 then - i - 2 else i) = lb a e - 1.
Proof.
  intros Hs. rewrite binarySearch_spec by done. eexists. split; [done |]. pose proof (lb_range a (e - 1)).
  pose proof (lb_succ a (e - 1) Hs) as H1. replace (e - 1 + 1) with e in H1 by lia.
  case_decide; [rewrite (proj2 (Z.ltb_ge _ _)) by lia | rewrite (proj2 (Z.ltb_lt _ _)) by lia]; lia.
Qed.

Lemma xor_nil_r a : strict a -> xor_uint16 a [] = a.
Proof.
  intros Hs. apply strict_ext; [apply xor_strict; [done | constructor] | done |]. intros x.
  rewrite elem_of_xor by (done || constructor). split; [intros [[? _] | [?%elem_of_nil _]]; done | intros; left; split; [done | apply not_elem_of_nil]].
Qed.

Lemma sorted16_xor_range a s e : sorted16 a -> 0 <= s <= e -> e <= 65536 -> sorted16 (xor_uint16 a (range s e)).
Proof. intros Ha Hs He. apply sorted16_xor; [done |]. apply sorted16_seqZ; lia. Qed.

Lemma range_empty s e : e <= s -> range s e = [].
Proof. intros H. unfold range. apply seqZ_nil. lia. Qed.

Lemma array_clone_spec a : array_ok a -> array_result (array_container_clone a) (ac_array a).
Proof. intros Ha. apply store_array_ok; [by apply array_ok_sorted | apply Ha]. Qed.

Lemma array_negation_range_spec a s e : array_ok a -> sized (Array a) -> 0 <= s -> e <= 65536 ->
  container_result (array_container_negation_range a s e) (xor_uint16 (ac_array a) (range s e)).
Proof.
  intros Ha Hsz H0 He. pose proof (array_ok_sorted _ Ha) as Sa. pose proof Sa as [Ss _]. unfold array_container_negation_range.
  destruct (Z.leb_spec e s).
  { rewrite range_empty, xor_nil_r by done. apply array_container_result; [by apply array_clone_spec | done]. }
  rewrite !u16_id by lia. destruct (search_start (ac_array a) s Ss) as (i & -> & Hi). cbn [mbind option_bind]. rewrite Hi.
  destruct (search_last (ac_array a) e Ss) as (j & -> & Hj). cbn [mbind option_bind]. rewrite Hj. clear Hi Hj i j.
  cbv zeta. unfold array_container_cardinality.
  pose proof (zlen_xor_range (ac_array a) s e Ss ltac:(lia)) as Hcard. pose proof (sorted16_xor_range _ s e Sa ltac:(lia) He) as Sx.
  replace (zlen (ac_array a) + (e - s - (lb (ac_array a) e - 1 - lb (ac_array a) s + 1) - (lb (ac_array a) e - 1 - lb (ac_array a) s + 1)))
    with (zlen (xor_uint16 (ac_array a) (range s e))) by lia.
  destruct (Z.ltb_spec DEFAULT_MAX_SIZE (zlen (xor_uint16 (ac_array a) (range s e)))) as [L | L].
  - destruct (from_array_words a Ha) as (b & -> & [[Lb Wb] _] & E). cbn [mbind option_bind].
    destruct (flip_range_result (bc_array b) s e Wb) as (ws & -> & L1 & W1 & E1); [lia | lia |]. cbn [mbind option_bind].
    fold (bc_elems b) (range s e) in E1. rewrite E in E1. eexists. split; [done |].
    cbn [container_ok sized container_elems]. unfold bc_elems. cbn [bc_array]. rewrite E1. split; [| done]. by apply words_bitset_ok; [| lia |].
  - destruct (Z.eqb_spec (zlen (xor_uint16 (ac_array a) (range s e))) 0) as [Hz | Hz].
    + apply Z.eqb_eq, zlen_zero in Hz. rewrite Hz. eexists. split; [done |]. split; [| done]. by constructor; [constructor | constructor | cbn].
    + replace (e - s) with (Z.of_nat (Z.to_nat (e - s))) by lia.
      rewrite flip_loop_spec by (done || lia || (f_equal; f_equal; lia)). cbn [mbind option_bind].
      rewrite Z2Nat.id by lia. fold (range s e). replace (lb (ac_array a) e - 1 + 1) with (lb (ac_array a) e) by lia.
      rewrite <- xor_range_parts by (done || lia). by apply store_created.
Qed.

Lemma full_words n : elems (replicate n ones64) = range 0 (64 * Z.of_nat n).
Proof.
  apply strict_ext; [apply elems_strict | apply range_strict |]. intros x. rewrite elem_of_elems, elem_of_range.
  unfold zlen. rewrite length_replicate. split; [by intros [? _] |]. intros Hx. split; [done |].
  rewrite (bit_rd _ _ ones64).
  - pose proof (Z.mod_pos_bound x 64 ltac:(lia)). rewrite testbit_ones64 by lia. lia.
  - unfold rd. rewrite (proj2 (Z.leb_le _ _)) by div64. apply lookup_replicate. split; [done |]. div64.
Qed.

Lemma set_all_full dst : exists b, bitset_container_set_all dst = b /\ bc_cardinality b = 65536 /\ bitset_ok b /\ bc_elems b = range 0 65536.
Proof.
  exists (mk_bitset 65536 (replicate 1024 ones64)). split; [reflexivity |]. split; [done |].
  pose proof (full_words 1024) as E. change (64 * Z.of_nat 1024) with 65536 in E. split; [| exact E].
  assert (zlen (range 0 65536) = 65536) as Z by (unfold range; by rewrite zlen_seqZ by lia).
  rewrite <- Z at 1. apply words_bitset_ok; [| | exact E].
  - apply Forall_replicate. unfold in_u, ones64. lia.
  - unfold zlen. by rewrite length_replicate.
Qed.

Lemma array_negation_spec a dst : array_ok a ->
  bitset_result (array_container_negation a dst) (minus (range 0 65536) (ac_array a)).
Proof.
  intros Ha. unfold array_container_negation. cbv zeta.
  destruct (set_all_full dst) as (b & -> & C & O & E).
  destruct (clear_list_ok b (ac_array a) O (array_ok_sorted _ Ha)) as (ws & c & Ec & O' & _ & E'). rewrite C in Ec.
  change (u64 65536) with (2 ^ 16) in Ec. rewrite Ec. cbn [mbind option_bind]. eexists. split; [done |]. split; [done |].
  unfold bc_elems at 1. cbn [bc_array]. by rewrite E', E.
Qed.

(** ** Bitsets *)

Lemma bitset_negation_range_spec b s e : bitset_wf b -> 0 <= s <= e -> e <= 65536 ->
  container_result (bitset_container_negation_range b s e) (xor_uint16 (bc_elems b) (range s e)).
Proof.
  intros [Hl Hw] Hs He. unfold bitset_container_negation_range, bitset_container_clone. cbn [bc_array].
  destruct (flip_range_result (bc_array b) s e Hw) as (ws & -> & L1 & W1 & E1); [lia | lia |]. cbn [mbind option_bind].
  apply recount_sized, recount_spec; [done | lia | done].
Qed.

(** ** Runs *)

Lemma runs_before_spec l s : runs_ok l -> let '(a, b) := runs_before l s in
  l = a ++ b /\ Forall (fun r => r_value r < s) a /\ starts_from s b.
Proof.
  induction l as [|r l IH]; intros Hl; cbn [runs_before].
  - split; [done |]. split; constructor.
  - pose proof (runs_ok_starts _ _ Hl) as Hs. apply runs_ok_cons in Hl as (_ & _ & Hl). destruct (Z.ltb_spec (r_value r) s).
    + specialize (IH Hl). destruct (runs_before l s) as [a b]. destruct IH as (-> & A & B). split; [done |]. split; [by constructor | done].
    + split; [done |]. split; [constructor |]. apply starts_from_cons. split; [done |]. by eapply starts_from_mono.
Qed.

(** The state after the runs before the range: they are the output, the range
    and the other runs are to come. *)
Lemma negation_inv a b s n : runs_ok (a ++ b) -> Forall (fun r => r_value r < s) a -> starts_from s b -> 0 <= s -> 0 <= n -> s + n <= 65535 ->
  exists e, xor_inv a 0 e [mk_rle s n] b.
Proof.
  intros H Ha Hb H0 Hn Hsn. pose proof H as [Oa Ob]%runs_ok_app_inv.
  assert (runs_touch [mk_rle s n]) as T.
  { apply runs_touch_cons. split; [unfold run_wf, r_max; cbn; lia |]. split; [constructor | apply runs_touch_nil]. }
  destruct a as [|r a _] using rev_ind.
  - exists 0. constructor; [apply runs_ok_nil | done | by apply runs_ok_touch | intros d0 r Hd; by destruct d0 | |].
    + constructor; [cbn; lia | constructor].
    + eapply Forall_impl; [exact Hb | cbn; lia].
  - rewrite <- app_assoc in H. cbn [app] in H. apply runs_ok_mid in H as (_ & (R1 & R2 & R3) & _ & _ & Hr).
    apply Forall_app in Ha as [_ [Hrs _]%Forall_cons]. exists (r_max r + 1).
    constructor; [done | done | by apply runs_ok_touch | | constructor; [cbn; lia | constructor] | eapply starts_after_mono; [exact Hr | lia]].
    intros d0 r0 [_ <-]%app_inj_tail. split; [lia |]. split; [constructor; [cbn; lia | constructor] |].
    eapply Forall_impl; [exact Hr |]. unfold r_max. cbn. lia.
Qed.

Lemma run_negation_loop l s n cap : runs_ok l -> 0 <= s -> 0 <= n -> s + n <= 65535 -> zlen l < cap ->
  let '(a, b) := runs_before l s in
  exists d1 d2, run_container_smart_append_exclusive (mk_run cap a) s n = Some (mk_run cap d1) /\ zlen d1 <= zlen a + 1 /\
    append_exclusive_all b (mk_run cap d1) = Some (mk_run cap d2) /\ runs_ok d2 /\ zlen d2 <= cap /\
    expand d2 = xor_uint16 (expand l) (range s (s + n + 1)) /\ exists e1 e2, xor_inv d1 e1 e2 b [].
Proof.
  intros Hl H0 Hn Hsn Hcap. pose proof (runs_before_spec l s Hl) as B. destruct (runs_before l s) as [a b]. destruct B as (-> & Ha & Hb).
  rewrite zlen_app in Hcap. pose proof (zlen_nonneg b). pose proof (zlen_nonneg a).
  destruct (negation_inv a b s n Hl Ha Hb H0 Hn Hsn) as (e & I).
  destruct (smart_append_spec cap a 0 e (mk_rle s n) [] b I Hb ltac:(lia)) as (d1 & E1 & I1 & Z1 & X1). cbn [r_value r_length] in *.
  apply xor_inv_sym in I1. destruct (append_exclusive_all_spec b cap d1 _ _ I1) as (d2 & E2 & O2 & Z2 & X2); [lia |].
  exists d1, d2. split; [done |]. split; [done |]. split; [done |]. split; [done |]. split; [done |]. split; [| by eauto].
  pose proof (expand_strict _ Hl). apply strict_ext; [by apply expand_strict | apply xor_strict; [done | apply range_strict] |].
  intros z. rewrite X2, X1, elem_of_xor, elem_of_range, elem_of_expand_app by (done || apply range_strict).
  assert (z ∈ expand a -> z ∈ expand b -> False) as Hd.
  { intros Hz1 Hz2. rewrite expand_app in H2. pose proof (strict_app_lt _ _ z z H2 Hz1 Hz2). lia. }
  revert Hd. unfold r_max. cbn [r_value r_length]. abstract_members. lia.
Qed.

Lemma run_negation_range_spec r s e : run_ok r -> 0 <= s -> e <= 65536 ->
  container_result (run_container_negation_range r s e) (xor_uint16 (rc_elems r) (range s e)).
Proof.
  intros [Or Hroom] H0 He. unfold run_container_negation_range. destruct (Z.leb_spec e s).
  { rewrite range_empty, xor_nil_r by (done || by apply expand_strict). by apply run_clone_result. }
  pose proof (run_negation_loop (rc_runs r) s (e - s - 1) (n_runs r + 1) Or) as L.
  pose proof (runs_before_spec (rc_runs r) s Or) as B. destruct (runs_before (rc_runs r) s) as [a b]. destruct B as (Ea & _ & _).
  unfold n_runs in *. destruct L as (d1 & d2 & E1 & _ & E2 & O2 & Z2 & X & _); [lia.. |].
  cbv zeta. unfold run_container_create_given_capacity. rewrite push_all_spec.
  2: { change (zlen []) with 0. rewrite Ea, zlen_app. pose proof (zlen_nonneg b). lia. }
  cbn [mbind option_bind app]. rewrite !u16_id by lia. rewrite E1. cbn [mbind option_bind]. rewrite E2. cbn [mbind option_bind].
  replace (s + (e - s - 1) + 1) with e in X by lia. unfold rc_elems. rewrite <- X. by apply convert_run_to_efficient_spec.
Qed.

(** *** In place

    A call writes at most one run more than it finds, so it never reaches the
    runs that have not been read, apart from the one that is buffered. *)

Lemma length_removelast {A} (l : list A) : (length (removelast l) <= length l)%nat.
Proof. induction l as [|x [|y l] IH]; cbn in *; lia. Qed.

Lemma push_run_length c r c' : push_run c r = Some c' -> length (rc_runs c') = S (length (rc_runs c)) /\ rc_capacity c' = rc_capacity c.
Proof. unfold push_run. destruct (_ <? _); [| done]. intros [= <-]. cbn. rewrite length_app. cbn. split; [lia | done]. Qed.

Lemma put_last_length c r c' : put_last c r = Some c' -> length (rc_runs c') = length (rc_runs c) /\ rc_capacity c' = rc_capacity c.
Proof.
  unfold put_last, set_run. destruct (_ && _); [| done]. cbn. intros [= <-]. cbn. by rewrite length_insert.
Qed.

Lemma smart_append_length c s n c' : run_container_smart_append_exclusive c s n = Some c' ->
  (length (rc_runs c') <= S (length (rc_runs c)))%nat /\ rc_capacity c' = rc_capacity c.
Proof.
  unfold run_container_smart_append_exclusive. destruct (last (rc_runs c)) as [r |];
    [| by intros [-> ->]%push_run_length].
  destruct (_ <? s); [by intros [-> ->]%push_run_length |].
  destruct (_ =? s); [intros [-> ->]%put_last_length; split; [lia | done] |].
  destruct (s =? _).
  - destruct (_ <? _); [intros [-> ->]%put_last_length; split; [lia | done] |].
    destruct (_ <? _); [intros [-> ->]%put_last_length; split; [lia | done] |].
    intros [= <-]. cbn. pose proof (length_removelast (rc_runs c)). split; [lia | done].
  - destruct (put_last c _) as [c1 |] eqn:E; [| done]. cbn [mbind option_bind]. apply put_last_length in E as [E1 E2].
    destruct (_ <? _); [intros [-> ->]%push_run_length; split; [lia | done] |].
    destruct (_ <? _); [intros [-> ->]%push_run_length; split; [lia | done] |].
    intros [= <-]. split; [lia | done].
Qed.

Lemma smart_append_buf_spec mem n s len d : (n <= length mem)%nat ->
  run_container_smart_append_exclusive (mk_run (zlen mem) (take n mem)) s len = Some (mk_run (zlen mem) d) ->
  zlen d <= zlen mem ->
  smart_append_buf mem n s len = Some (d ++ drop (length d) mem, length d) /\ (length d <= S n)%nat /\
    length (d ++ drop (length d) mem) = length mem.
Proof.
  intros Hn E Hd. unfold smart_append_buf. rewrite E. cbn [mbind option_bind rc_runs]. split; [done |].
  apply smart_append_length in E as [E _]. cbn [rc_runs] in E. rewrite length_take in E. split; [lia |].
  rewrite length_app, length_drop. unfold zlen in Hd. lia.
Qed.

(** [rest] is what has not been appended; its first run is buffered, and the
    others are still in place. *)
Lemma negation_buf_spec rest : forall mem k n buffered d e1 e2 l, (n <= S k)%nat -> (k + length rest <= length mem)%nat ->
  match rest with [] => True | r :: t => buffered = r /\ take (length t) (drop (S k) mem) = t end ->
  take n mem = d -> (n <= length mem)%nat -> xor_inv d e1 e2 rest [] -> zlen d + zlen rest <= zlen mem ->
  append_exclusive_all rest (mk_run (zlen mem) d) = Some (mk_run (zlen mem) l) ->
  exists mem', negation_buf (length rest) mem k n buffered (k + length rest) = Some (mem', length l) /\ take (length l) mem' = l.
Proof.
  induction rest as [|r rest IH]; intros mem k n buffered d e1 e2 l Hn Hk Hb Hd Hnm I Hz E.
  - cbn [append_exclusive_all] in E. injection E as <-. exists mem. cbn [negation_buf length]. rewrite <- Hd.
    rewrite length_take. replace (n `min` length mem)%nat with n by lia. done.
  - destruct Hb as [-> Hrest]. cbn [append_exclusive_all] in E. rewrite zlen_cons in Hz. pose proof (zlen_nonneg rest).
    destruct (smart_append_spec (zlen mem) d e1 e2 r rest [] I) as (d1 & E1 & I1 & Z1 & _); [constructor | lia |].
    rewrite E1 in E. cbn [mbind option_bind] in E. cbn [length] in *. cbn [negation_buf].
    assert (exists next, (if decide (k + 1 < k + S (length rest))%nat then mem !! (k + 1)%nat else Some (mk_rle 0 0)) = Some next /\
      match rest with [] => True | r' :: t => next = r' /\ take (length t) (drop (S (S k)) mem) = t end) as (next & -> & Hnext).
    { destruct rest as [|r' t]; [rewrite decide_False by (cbn; lia); by eexists |]. cbn [length] in *. rewrite decide_True by lia.
      destruct (drop (S k) mem) as [|x u] eqn:Ed; [done |]. cbn [take] in Hrest. injection Hrest as -> Hu.
      exists r'. split; [by rewrite <- (Nat.add_0_r (k + 1)), <- lookup_drop, Nat.add_1_r, Ed |]. split; [done |].
      replace (drop (S (S k)) mem) with (drop 1 (drop (S k) mem)) by (rewrite drop_drop; f_equal; lia). by rewrite Ed. }
    cbn [mbind option_bind].
    destruct (smart_append_buf_spec mem n (r_value r) (r_length r) d1) as (-> & Hd1 & Hlen); [done | by rewrite Hd | lia |].
    cbn [mbind option_bind]. rewrite Nat.add_1_r. replace (k + S (length rest))%nat with (S k + length rest)%nat by lia.
    assert (zlen (d1 ++ drop (length d1) mem) = zlen mem) as Hzl by (unfold zlen; by rewrite Hlen).
    apply (IH _ _ _ _ d1 (r_max r + 1) e2 l); [lia | lia | | by rewrite take_app_length | rewrite Hlen; unfold zlen in *; lia | done | lia | by rewrite Hzl].
    destruct rest as [|r' t]; [done |]. destruct Hnext as [-> Ht]. split; [done |].
    rewrite drop_app_ge, drop_drop by lia. replace (length d1 + (S (S k) - length d1))%nat with (S (S k)) by lia. done.
Qed.

Lemma run_negation_range_inplace_spec r s e : run_ok r -> 0 <= s -> e <= 65536 -> n_runs r < rc_capacity r ->
  container_result (run_container_negation_range_inplace r s e) (xor_uint16 (rc_elems r) (range s e)).
Proof.
  intros [Or Hroom] H0 He Hcap. unfold run_container_negation_range_inplace. destruct (Z.leb_spec e s).
  { rewrite range_empty, xor_nil_r by (done || by apply expand_strict). by exists (Run r). }
  unfold negation_fits. rewrite (proj2 (Z.eqb_neq _ _)) by lia. cbn [negb mbind option_bind].
  unfold n_runs in *. pose proof (run_negation_loop (rc_runs r) s (e - s - 1) (rc_capacity r) Or) as L.
  pose proof (runs_before_spec (rc_runs r) s Or) as B. destruct (runs_before (rc_runs r) s) as [a b]. destruct B as (Ea & _ & _).
  destruct L as (d1 & d2 & E1 & Z1 & E2 & O2 & Z2 & X & e1 & e2 & I); [lia.. |]. cbn [fst].
  set (mem := rc_runs r ++ replicate _ _).
  assert (zlen mem = rc_capacity r) as Hmem.
  { unfold mem, zlen in *. rewrite length_app, length_replicate. lia. }
  assert (length mem = Z.to_nat (rc_capacity r)) as Hmem' by (unfold zlen in Hmem; lia).
  assert (length (rc_runs r) = length a + length b)%nat as Hab by (by rewrite Ea, length_app).
  assert (take (length a) mem = a) as Hta by (unfold mem; rewrite Ea, <- app_assoc; by rewrite take_app_length).
  assert (exists buffered, (if decide (length a < length (rc_runs r))%nat then mem !! length a else Some (mk_rle 0 0)) = Some buffered /\
    match b with [] => True | r' :: t => buffered = r' end) as (buffered & -> & Hbuf).
  { destruct b as [|r' t]; [rewrite decide_False by (cbn in *; lia); by eexists |]. rewrite decide_True by (cbn in *; lia).
    exists r'. split; [| done]. unfold mem. rewrite Ea, <- app_assoc. cbn [app]. by rewrite list_lookup_middle. }
  cbn [mbind option_bind]. rewrite !u16_id by lia. rewrite <- Hmem in E1, E2. unfold zlen in Hroom.
  destruct (smart_append_buf_spec mem (length a) s (e - s - 1) d1) as (-> & Hd1 & Hlen);
    [lia | by rewrite Hta | pose proof (zlen_nonneg b); unfold zlen in *; lia |].
  cbn [mbind option_bind]. replace (length (rc_runs r) - length a)%nat with (length b) by lia. rewrite Hab.
  assert (zlen (d1 ++ drop (length d1) mem) = zlen mem) as Hzl by (unfold zlen; by rewrite Hlen).
  destruct (negation_buf_spec b (d1 ++ drop (length d1) mem) (length a) (length d1) buffered d1 e1 e2 d2) as (mem' & -> & T).
  - done.
  - unfold zlen in *. lia.
  - destruct b as [|r' t]; [done |]. split; [done |]. rewrite drop_app_ge, drop_drop by lia.
    replace (length d1 + (S (length a) - length d1))%nat with (S (length a)) by lia.
    unfold mem. rewrite Ea. rewrite <- !app_assoc. cbn [app].
    rewrite (cons_middle r' a). rewrite app_assoc, drop_app_ge by (rewrite length_app; cbn; lia).
    rewrite length_app. cbn [length]. replace (S (length a) - (length a + 1))%nat with 0%nat by lia. rewrite drop_0. by rewrite take_app_length.
  - by rewrite take_app_length.
  - unfold zlen in *. lia.
  - done.
  - rewrite Hzl, Hmem. unfold zlen in *. lia.
  - by rewrite Hzl.
  - cbn [mbind option_bind]. rewrite T. replace (s + (e - s - 1) + 1) with e in X by lia. unfold rc_elems. rewrite <- X.
    by apply convert_run_to_efficient_spec.
Qed.
