(* ===== verification/RoaringContainer.v ===== *)
(** * Roaring bitmaps: operations on containers of any type

    [containers.h] of the amalgamation [src/include/datastruct/roaring.h], with
    the functions of [containers.c] in [src/src/datastruct/roaring.c].  A
    [void*] with its type code is a [container_t]; a [switch] over the type
    codes is a [match].  The functions get their arguments after
    [container_unwrap_shared].

    A function that returns [NULL] returns [None] inside of the option for
    undefined behaviour. *)

From stdpp Require Import base list list_numbers numbers option sorting.
From Stdlib Require Import ZArith Lia.
From S2P Require Import Prelude.
From S2P Require Import RoaringArrays.
From S2P Require Import RoaringInplace.
From S2P Require Import RoaringArrayContainer.
From S2P Require Import RoaringBitset.
From S2P Require Import RoaringRun.
From S2P Require Import RoaringConvert.
From S2P Require Import RoaringMixed.

Local Open Scope Z_scope.

Definition as_array (o : option array_container_t) : option container_t := a ← o; Some (Array a).
Definition as_bitset (o : option bitset_container_t) : option container_t := b ← o; Some (Bitset b).
Definition as_run (o : option run_container_t) : option container_t := r ← o; Some (Run r).

(** [result = run_container_create(); ...; convert_run_to_efficient_container] *)
Definition efficient (o : option run_container_t) : option container_t :=
  r ← o; convert_run_to_efficient_container r.

(** ** One container *)

Definition container_clone (c : container_t) : option container_t :=
  match c with
  | Bitset b => Some (Bitset (bitset_container_clone b))
  | Array a => as_array (array_container_clone a)
  | Run r => Some (Run (run_container_clone r))
  end.

Definition container_to_bitset (c : container_t) : option bitset_container_t :=
  match c with
  | Bitset b => Some b
  | Array a => bitset_container_from_array a
  | Run r => bitset_container_from_run r
  end.

Definition container_get_cardinality (c : container_t) : Z :=
  match c with
  | Bitset b => bitset_container_cardinality b
  | Array a => array_container_cardinality a
  | Run r => run_container_cardinality r
  end.

Definition container_is_full (c : container_t) : option bool :=
  match c with
  | Bitset b => Some (bitset_container_cardinality b =? 2 ^ 16)
  | Array a => Some (array_container_cardinality a =? 2 ^ 16)
  | Run r => run_container_is_full r
  end.

Definition container_shrink_to_fit (c : container_t) : Z * container_t :=
  match c with
  | Bitset b => (0, Bitset b)
  | Array a => let '(n, a) := array_container_shrink_to_fit a in (n, Array a)
  | Run r => let '(n, r) := run_container_shrink_to_fit r in (n, Run r)
  end.

(** The arithmetic is that of [uint32_t]. *)
Definition container_range_of_ones (range_start range_end : Z) : option container_t :=
  let cardinality := u32 (range_end - range_start + 1) in
  if cardinality <=? 2 then as_array (array_container_create_range range_start range_end)
  else as_run (run_container_create_range range_start range_end).

Definition container_from_range (min max step : Z) : option (option container_t) :=
  if step =? 0 then Some None
  else if step =? 1 then c ← container_range_of_ones min max; Some (Some c)
  else
    let size := i32 (u32 (max - min + step - 1) / step) in
    if size <=? DEFAULT_MAX_SIZE then
      a ← array_container_add_from_range (array_container_create_given_capacity size) min max step;
      Some (Some (Array a))
    else
      b ← bitset_container_add_from_range bitset_container_create min max step;
      Some (Some (Bitset b)).

Definition container_repair_after_lazy (c : container_t) : option container_t :=
  match c with
  | Bitset b => b ← recount (bc_array b); bitset_or_array b
  | Array a => Some (Array a)
  | Run r => convert_run_to_efficient_container_and_free r
  end.

Definition container_write (c : container_t) : list Z :=
  match c with
  | Bitset b => bitset_container_write b
  | Array a => array_container_write a
  | Run r => run_container_write r
  end.

Definition container_size_in_bytes (c : container_t) : Z :=
  match c with
  | Bitset b => bitset_container_size_in_bytes b
  | Array a => array_container_size_in_bytes a
  | Run r => run_container_size_in_bytes r
  end.

Definition container_nonzero_cardinality (c : container_t) : option bool :=
  match c with
  | Bitset b => bitset_container_const_nonzero_cardinality b
  | Array a => Some (array_container_nonzero_cardinality a)
  | Run r => Some (run_container_nonzero_cardinality r)
  end.

Definition container_to_uint32_array (c : container_t) (base : Z) : option (list Z) :=
  match c with
  | Bitset b => bitset_container_to_uint32_array b base
  | Array a => Some (array_container_to_uint32_array a base)
  | Run r => Some (run_container_to_uint32_array r base)
  end.

Definition container_add (c : container_t) (val : Z) : option container_t :=
  match c with
  | Bitset b => as_bitset (bitset_container_set b val)
  | Array ac =>
    '(rc, ac) ← array_container_try_add ac val DEFAULT_MAX_SIZE;
    if negb (rc =? -1) then Some (Array ac)
    else
      bitset ← bitset_container_from_array ac;
      '(_, bitset) ← bitset_container_add bitset val;
      Some (Bitset bitset)
  | Run r => '(_, r) ← run_container_add r val; Some (Run r)
  end.

Definition container_remove (c : container_t) (val : Z) : option container_t :=
  match c with
  | Bitset b =>
    '(removed, b) ← bitset_container_remove b val;
    if removed && (bitset_container_cardinality b <=? DEFAULT_MAX_SIZE)
    then as_array (array_container_from_bitset b)
    else Some (Bitset b)
  | Array a => '(_, a) ← array_container_remove a val; Some (Array a)
  | Run r => '(_, r) ← run_container_remove r val; Some (Run r)
  end.

Definition container_contains (c : container_t) (val : Z) : option bool :=
  match c with
  | Bitset b => bitset_container_get b val
  | Array a => array_container_contains a val
  | Run r => run_container_contains r val
  end.

Definition container_contains_range (c : container_t) (range_start range_end : Z) : option bool :=
  match c with
  | Bitset b => bitset_container_get_range b range_start range_end
  | Array a => array_container_contains_range a range_start range_end
  | Run r => run_container_contains_range r range_start range_end
  end.

Definition container_serialize (c : container_t) : list Z :=
  match c with
  | Bitset b => bitset_container_serialize b
  | Array a => array_container_serialize a
  | Run r => run_container_serialize r
  end.

Definition container_serialization_len (c : container_t) : Z :=
  match c with
  | Bitset b => bitset_container_serialization_len
  | Array a => array_container_serialization_len a
  | Run r => run_container_serialization_len r
  end.

Definition container_deserialize (typecode : Z) (buf : list Z) : option container_t :=
  if typecode =? BITSET_CONTAINER_TYPE_CODE then as_bitset (bitset_container_deserialize buf)
  else if typecode =? ARRAY_CONTAINER_TYPE_CODE then as_array (array_container_deserialize buf)
  else if typecode =? RUN_CONTAINER_TYPE_CODE then as_run (run_container_deserialize buf)
  else None.

(** ** Two containers *)

Definition container_equals (c1 c2 : container_t) : option bool :=
  match c1, c2 with
  | Bitset b1, Bitset b2 => Some (bitset_container_equals b1 b2)
  | Bitset b1, Run r2 => run_container_equals_bitset r2 b1
  | Run r1, Bitset b2 => run_container_equals_bitset r1 b2
  | Bitset b1, Array a2 => array_container_equal_bitset a2 b1
  | Array a1, Bitset b2 => array_container_equal_bitset a1 b2
  | Array a1, Run r2 => run_container_equals_array r2 a1
  | Run r1, Array a2 => run_container_equals_array r1 a2
  | Array a1, Array a2 => Some (array_container_equals a1 a2)
  | Run r1, Run r2 => Some (run_container_equals r1 r2)
  end.

(** A bitset is never a subset of an array: by construction it is larger. *)
Definition container_is_subset (c1 c2 : container_t) : option bool :=
  match c1, c2 with
  | Bitset b1, Bitset b2 => Some (bitset_container_is_subset b1 b2)
  | Bitset b1, Run r2 => bitset_container_is_subset_run b1 r2
  | Run r1, Bitset b2 => run_container_is_subset_bitset r1 b2
  | Bitset b1, Array a2 => Some false
  | Array a1, Bitset b2 => array_container_is_subset_bitset a1 b2
  | Array a1, Run r2 => Some (array_container_is_subset_run a1 r2)
  | Run r1, Array a2 => run_container_is_subset_array r1 a2
  | Array a1, Array a2 => Some (array_container_is_subset a1 a2)
  | Run r1, Run r2 => Some (run_container_is_subset r1 r2)
  end.

Definition container_and (c1 c2 : container_t) : option container_t :=
  match c1, c2 with
  | Bitset b1, Bitset b2 => bitset_bitset_container_intersection b1 b2
  | Array a1, Array a2 => as_array (array_container_intersection a1 a2 array_container_create)
  | Run r1, Run r2 => efficient (run_container_intersection r1 r2 run_container_create)
  | Bitset b1, Array a2 => as_array (array_bitset_container_intersection a2 b1 array_container_create)
  | Array a1, Bitset b2 => as_array (array_bitset_container_intersection a1 b2 array_container_create)
  | Bitset b1, Run r2 => run_bitset_container_intersection r2 b1
  | Run r1, Bitset b2 => run_bitset_container_intersection r1 b2
  | Array a1, Run r2 => as_array (array_run_container_intersection a1 r2 array_container_create)
  | Run r1, Array a2 => as_array (array_run_container_intersection a2 r1 array_container_create)
  end.

Definition container_and_cardinality (c1 c2 : container_t) : option Z :=
  match c1, c2 with
  | Bitset b1, Bitset b2 => bitset_container_and_justcard b1 b2
  | Array a1, Array a2 => array_container_intersection_cardinality a1 a2
  | Run r1, Run r2 => run_container_intersection_cardinality r1 r2
  | Bitset b1, Array a2 => array_bitset_container_intersection_cardinality a2 b1
  | Array a1, Bitset b2 => array_bitset_container_intersection_cardinality a1 b2
  | Bitset b1, Run r2 => run_bitset_container_intersection_cardinality r2 b1
  | Run r1, Bitset b2 => run_bitset_container_intersection_cardinality r1 b2
  | Array a1, Run r2 => array_run_container_intersection_cardinality a1 r2
  | Run r1, Array a2 => array_run_container_intersection_cardinality a2 r1
  end.

Definition container_intersect (c1 c2 : container_t) : option bool :=
  match c1, c2 with
  | Bitset b1, Bitset b2 => Some (bitset_container_intersect b1 b2)
  | Array a1, Array a2 => array_container_intersect a1 a2
  | Run r1, Run r2 => run_container_intersect r1 r2
  | Bitset b1, Array a2 => array_bitset_container_intersect a2 b1
  | Array a1, Bitset b2 => array_bitset_container_intersect a1 b2
  | Bitset b1, Run r2 => run_bitset_container_intersect r2 b1
  | Run r1, Bitset b2 => run_bitset_container_intersect r1 b2
  | Array a1, Run r2 => array_run_container_intersect a1 r2
  | Run r1, Array a2 => array_run_container_intersect a2 r1
  end.

Definition container_iand (c1 c2 : container_t) : option container_t :=
  match c1, c2 with
  | Bitset b1, Bitset b2 => bitset_bitset_container_intersection_inplace b1 b2
  | Array a1, Array a2 => as_array (array_container_intersection_inplace a1 a2)
  | Run r1, Run r2 => efficient (run_container_intersection r1 r2 run_container_create)
  | Bitset b1, Array a2 => as_array (array_bitset_container_intersection a2 b1 array_container_create)
  | Array a1, Bitset b2 => as_array (array_bitset_container_intersection_inplace a1 b2)
  | Bitset b1, Run r2 => run_bitset_container_intersection_inplace r2 b1
  | Run r1, Bitset b2 => run_bitset_container_intersection r1 b2
  | Array a1, Run r2 => as_array (array_run_container_intersection a1 r2 array_container_create)
  | Run r1, Array a2 => as_array (array_run_container_intersection a2 r1 array_container_create)
  end.

Definition copy_run (src : run_container_t) : container_t := Run (run_container_copy src run_container_create).

Definition container_or (c1 c2 : container_t) : option container_t :=
  match c1, c2 with
  | Bitset b1, Bitset b2 => as_bitset (bitset_container_or b1 b2)
  | Array a1, Array a2 => array_array_container_union a1 a2
  | Run r1, Run r2 => efficient (run_container_union r1 r2 run_container_create)
  | Bitset b1, Array a2 => as_bitset (array_bitset_container_union a2 b1)
  | Array a1, Bitset b2 => as_bitset (array_bitset_container_union a1 b2)
  | Bitset b1, Run r2 =>
    full ← run_container_is_full r2;
    if full : bool then Some (copy_run r2) else as_bitset (run_bitset_container_union r2 b1)
  | Run r1, Bitset b2 =>
    full ← run_container_is_full r1;
    if full : bool then Some (copy_run r1) else as_bitset (run_bitset_container_union r1 b2)
  | Array a1, Run r2 => efficient (array_run_container_union a1 r2 run_container_create)
  | Run r1, Array a2 => efficient (array_run_container_union a2 r1 run_container_create)
  end.

Definition container_lazy_or (c1 c2 : container_t) : option container_t :=
  match c1, c2 with
  | Bitset b1, Bitset b2 => Some (Bitset (bitset_container_or_nocard b1 b2))
  | Array a1, Array a2 => array_array_container_lazy_union a1 a2
  | Run r1, Run r2 => efficient (run_container_union r1 r2 run_container_create)
  | Bitset b1, Array a2 => as_bitset (array_bitset_container_lazy_union a2 b1)
  | Array a1, Bitset b2 => as_bitset (array_bitset_container_lazy_union a1 b2)
  | Bitset b1, Run r2 =>
    full ← run_container_is_full r2;
    if full : bool then Some (copy_run r2) else as_bitset (run_bitset_container_lazy_union r2 b1)
  | Run r1, Bitset b2 =>
    full ← run_container_is_full r1;
    if full : bool then Some (copy_run r1) else as_bitset (run_bitset_container_lazy_union r1 b2)
  | Array a1, Run r2 => as_run (array_run_container_union a1 r2 run_container_create)
  | Run r1, Array a2 => as_run (array_run_container_union a2 r1 run_container_create)
  end.

(** [OR_BITSET_CONVERSION_TO_FULL] and [LAZY_OR_BITSET_CONVERSION_TO_FULL] are
    defined: a full bitset becomes a run. *)
Definition or_to_full (b1 b2 : bitset_container_t) : option container_t :=
  b ← bitset_container_or b1 b2;
  if bc_cardinality b =? 2 ^ 16 then as_run (run_container_create_range 0 (2 ^ 16))
  else Some (Bitset b).

Definition container_ior (c1 c2 : container_t) : option container_t :=
  match c1, c2 with
  | Bitset b1, Bitset b2 => or_to_full b1 b2
  | Array a1, Array a2 => array_array_container_inplace_union a1 a2
  | Run r1, Run r2 => efficient (run_container_union_inplace r1 r2)
  | Bitset b1, Array a2 => as_bitset (array_bitset_container_union a2 b1)
  | Array a1, Bitset b2 => as_bitset (array_bitset_container_union a1 b2)
  | Bitset b1, Run r2 =>
    full ← run_container_is_full r2;
    if full : bool then Some (copy_run r2) else as_bitset (run_bitset_container_union r2 b1)
  | Run r1, Bitset b2 =>
    full ← run_container_is_full r1;
    if full : bool then Some (Run r1) else as_bitset (run_bitset_container_union r1 b2)
  | Array a1, Run r2 => efficient (array_run_container_union a1 r2 run_container_create)
  | Run r1, Array a2 => efficient (array_run_container_inplace_union a2 r1)
  end.

Definition container_lazy_ior (c1 c2 : container_t) : option container_t :=
  match c1, c2 with
  | Bitset b1, Bitset b2 => or_to_full b1 b2
  | Array a1, Array a2 => array_array_container_lazy_inplace_union a1 a2
  | Run r1, Run r2 => efficient (run_container_union_inplace r1 r2)
  | Bitset b1, Array a2 => as_bitset (array_bitset_container_lazy_union a2 b1)
  | Array a1, Bitset b2 => as_bitset (array_bitset_container_lazy_union a1 b2)
  | Bitset b1, Run r2 =>
    full ← run_container_is_full r2;
    if full : bool then Some (copy_run r2) else as_bitset (run_bitset_container_lazy_union r2 b1)
  | Run r1, Bitset b2 =>
    full ← run_container_is_full r1;
    if full : bool then Some (Run r1) else as_bitset (run_bitset_container_lazy_union r1 b2)
  | Array a1, Run r2 => as_run (array_run_container_union a1 r2 run_container_create)
  | Run r1, Array a2 => as_run (array_run_container_inplace_union a2 r1)
  end.

Definition container_xor (c1 c2 : container_t) : option container_t :=
  match c1, c2 with
  | Bitset b1, Bitset b2 => bitset_bitset_container_xor b1 b2
  | Array a1, Array a2 => array_array_container_xor a1 a2
  | Run r1, Run r2 => run_run_container_xor r1 r2
  | Bitset b1, Array a2 => array_bitset_container_xor a2 b1
  | Array a1, Bitset b2 => array_bitset_container_xor a1 b2
  | Bitset b1, Run r2 => run_bitset_container_xor r2 b1
  | Run r1, Bitset b2 => run_bitset_container_xor r1 b2
  | Array a1, Run r2 => array_run_container_xor a1 r2
  | Run r1, Array a2 => array_run_container_xor a2 r1
  end.

Definition container_lazy_xor (c1 c2 : container_t) : option container_t :=
  match c1, c2 with
  | Bitset b1, Bitset b2 => Some (Bitset (bitset_container_xor_nocard b1 b2))
  | Array a1, Array a2 => array_array_container_lazy_xor a1 a2
  | Run r1, Run r2 => run_run_container_xor r1 r2
  | Bitset b1, Array a2 => as_bitset (array_bitset_container_lazy_xor a2 b1)
  | Array a1, Bitset b2 => as_bitset (array_bitset_container_lazy_xor a1 b2)
  | Bitset b1, Run r2 => as_bitset (run_bitset_container_lazy_xor r2 b1)
  | Run r1, Bitset b2 => as_bitset (run_bitset_container_lazy_xor r1 b2)
  | Array a1, Run r2 => as_run (array_run_container_lazy_xor a1 r2 run_container_create)
  | Run r1, Array a2 => as_run (array_run_container_lazy_xor a2 r1 run_container_create)
  end.

Definition container_ixor (c1 c2 : container_t) : option container_t :=
  match c1, c2 with
  | Bitset b1, Bitset b2 => bitset_bitset_container_ixor b1 b2
  | Array a1, Array a2 => array_array_container_ixor a1 a2
  | Run r1, Run r2 => run_run_container_ixor r1 r2
  | Bitset b1, Array a2 => bitset_array_container_ixor b1 a2
  | Array a1, Bitset b2 => array_bitset_container_ixor a1 b2
  | Bitset b1, Run r2 => bitset_run_container_ixor b1 r2
  | Run r1, Bitset b2 => run_bitset_container_ixor r1 b2
  | Array a1, Run r2 => array_run_container_ixor a1 r2
  | Run r1, Array a2 => run_array_container_ixor r1 a2
  end.

(** A bitset without a known cardinality is counted first. *)
Definition container_lazy_ixor (c1 c2 : container_t) : option container_t :=
  match c1, c2 with
  | Bitset b1, Bitset b2 => Some (Bitset (bitset_container_xor_nocard b1 b2))
  | Bitset b1, _ =>
    b1 ← (if bc_cardinality b1 =? BITSET_UNKNOWN_CARDINALITY then recount (bc_array b1) else Some b1);
    container_ixor (Bitset b1) c2
  | _, _ => container_ixor c1 c2
  end.

Definition container_andnot (c1 c2 : container_t) : option container_t :=
  match c1, c2 with
  | Bitset b1, Bitset b2 => bitset_bitset_container_andnot b1 b2
  | Array a1, Array a2 => as_array (array_array_container_andnot a1 a2 array_container_create)
  | Run r1, Run r2 =>
    full ← run_container_is_full r2;
    if full : bool then Some (Array array_container_create) else run_run_container_andnot r1 r2
  | Bitset b1, Array a2 => bitset_array_container_andnot b1 a2
  | Array a1, Bitset b2 => as_array (array_bitset_container_andnot a1 b2 array_container_create)
  | Bitset b1, Run r2 =>
    full ← run_container_is_full r2;
    if full : bool then Some (Array array_container_create) else bitset_run_container_andnot b1 r2
  | Run r1, Bitset b2 => run_bitset_container_andnot r1 b2
  | Array a1, Run r2 =>
    full ← run_container_is_full r2;
    if full : bool then Some (Array array_container_create)
    else as_array (array_run_container_andnot a1 r2 array_container_create)
  | Run r1, Array a2 => run_array_container_andnot r1 a2
  end.

Definition container_iandnot (c1 c2 : container_t) : option container_t :=
  match c1, c2 with
  | Bitset b1, Bitset b2 => bitset_bitset_container_iandnot b1 b2
  | Array a1, Array a2 => as_array (array_array_container_iandnot a1 a2)
  | Run r1, Run r2 => run_run_container_iandnot r1 r2
  | Bitset b1, Array a2 => bitset_array_container_iandnot b1 a2
  | Array a1, Bitset b2 => as_array (array_bitset_container_iandnot a1 b2)
  | Bitset b1, Run r2 => bitset_run_container_iandnot b1 r2
  | Run r1, Bitset b2 => run_bitset_container_iandnot r1 b2
  | Array a1, Run r2 => as_array (array_run_container_iandnot a1 r2)
  | Run r1, Array a2 => run_array_container_iandnot r1 a2
  end.

(** ** Iteration, negation, ranks, ranges *)

Definition container_iterate {S} (c : container_t) (base : Z) (iterator : Z -> S -> bool * S) (ptr : S) :
    option (bool * S) :=
  match c with
  | Bitset b => bitset_container_iterate b base iterator ptr
  | Array a => Some (array_container_iterate a base iterator ptr)
  | Run r => Some (run_container_iterate r base iterator ptr)
  end.

Definition container_iterate64 {S} (c : container_t) (base : Z) (iterator : Z -> S -> bool * S)
    (high_bits : Z) (ptr : S) : option (bool * S) :=
  match c with
  | Bitset b => bitset_container_iterate64 b base iterator high_bits ptr
  | Array a => Some (array_container_iterate64 a base iterator high_bits ptr)
  | Run r => Some (run_container_iterate64 r base iterator high_bits ptr)
  end.

Definition container_not (c : container_t) : option container_t :=
  match c with
  | Bitset b => bitset_container_negation b
  | Array a => as_bitset (array_container_negation a bitset_container_create)
  | Run r => run_container_negation r
  end.

Definition container_not_range (c : container_t) (range_start range_end : Z) : option container_t :=
  match c with
  | Bitset b => bitset_container_negation_range b range_start range_end
  | Array a => array_container_negation_range a range_start range_end
  | Run r => run_container_negation_range r range_start range_end
  end.

Definition container_inot (c : container_t) : option container_t :=
  match c with
  | Bitset b => bitset_container_negation_inplace b
  | Array a => as_bitset (array_container_negation a bitset_container_create)
  | Run r => run_container_negation_inplace r
  end.

Definition container_inot_range (c : container_t) (range_start range_end : Z) : option container_t :=
  match c with
  | Bitset b => bitset_container_negation_range_inplace b range_start range_end
  | Array a => array_container_negation_range_inplace a range_start range_end
  | Run r => run_container_negation_range_inplace r range_start range_end
  end.

(** The element of the rank, or the rank of the first element behind. *)
Definition container_select (c : container_t) (start_rank rank : Z) : option (Z + Z) :=
  match c with
  | Bitset b => bitset_container_select b start_rank rank
  | Array a => array_container_select a start_rank rank
  | Run r => Some (run_container_select r start_rank rank)
  end.

Definition container_maximum (c : container_t) : option Z :=
  match c with
  | Bitset b => bitset_container_maximum b
  | Array a => array_container_maximum a
  | Run r => run_container_maximum r
  end.

Definition container_minimum (c : container_t) : option Z :=
  match c with
  | Bitset b => Some (bitset_container_minimum b)
  | Array a => array_container_minimum a
  | Run r => run_container_minimum r
  end.

Definition container_rank (c : container_t) (x : Z) : option Z :=
  match c with
  | Bitset b => bitset_container_rank b x
  | Array a => array_container_rank a x
  | Run r => Some (run_container_rank r x)
  end.

Definition container_add_range (c : container_t) (min max : Z) : option container_t :=
  match c with
  | Bitset bitset =>
    common ← bitset_lenrange_cardinality (bc_array bitset) min (max - min);
    let union_cardinality := bc_cardinality bitset + (max - min + 1) - common in
    if union_cardinality =? 0x10000 then as_run (run_container_create_range 0 0x10000)
    else
      words ← bitset_set_lenrange (bc_array bitset) min (max - min);
      Some (Bitset (mk_bitset union_cardinality words))
  | Array array =>
    nvals_greater ← count_greater (ac_array array) max;
    nvals_less ← count_less (take (Z.to_nat (array_container_cardinality array - nvals_greater)) (ac_array array)) min;
    let union_cardinality := nvals_less + (max - min + 1) + nvals_greater in
    if union_cardinality =? 0x10000 then as_run (run_container_create_range 0 0x10000)
    else if union_cardinality <=? DEFAULT_MAX_SIZE then
      as_array (array_container_add_range_nvals array min max nvals_less nvals_greater)
    else
      bitset ← bitset_container_from_array array;
      words ← bitset_set_lenrange (bc_array bitset) min (max - min);
      Some (Bitset (mk_bitset union_cardinality words))
  | Run run =>
    nruns_greater ← rle16_count_greater (rc_runs run) max;
    nruns_less ← rle16_count_less (take (Z.to_nat (n_runs run - nruns_greater)) (rc_runs run)) min;
    let run_size_bytes := (nruns_less + 1 + nruns_greater) * 4 in
    let bitset_size_bytes := BITSET_CONTAINER_SIZE_IN_WORDS * 8 in
    if run_size_bytes <=? bitset_size_bytes then
      as_run (run_container_add_range_nruns run min max nruns_less nruns_greater)
    else as_bitset (bitset_container_from_run_range run min max)
  end.

(** [None] inside is the [NULL] of an empty result. *)
Definition container_remove_range (c : container_t) (min max : Z) : option (option container_t) :=
  match c with
  | Bitset bitset =>
    common ← bitset_lenrange_cardinality (bc_array bitset) min (max - min);
    let result_cardinality := bc_cardinality bitset - common in
    if result_cardinality =? 0 then Some None
    else
      words ← bitset_reset_range (bc_array bitset) min (max + 1);
      let bitset := mk_bitset result_cardinality words in
      if result_cardinality <? DEFAULT_MAX_SIZE
      then a ← array_container_from_bitset bitset; Some (Some (Array a))
      else Some (Some (Bitset bitset))
  | Array array =>
    nvals_greater ← count_greater (ac_array array) max;
    nvals_less ← count_less (take (Z.to_nat (array_container_cardinality array - nvals_greater)) (ac_array array)) min;
    let result_cardinality := nvals_less + nvals_greater in
    if result_cardinality =? 0 then Some None
    else
      a ← array_container_remove_range array nvals_less (array_container_cardinality array - result_cardinality);
      Some (Some (Array a))
  | Run run =>
    if n_runs run =? 0 then Some None
    else
      lo ← run_container_minimum run;
      hi ← run_container_maximum run;
      if (min <=? lo) && (hi <=? max) then Some None
      else
        run ← run_container_remove_range run min max;
        if run_container_serialized_size_in_bytes (n_runs run) <=? bitset_container_serialized_size_in_bytes
        then Some (Some (Run run))
        else b ← bitset_container_from_run run; Some (Some (Bitset b))
  end.
