(* ===== verification/RoaringContainerFacts.v ===== *)
(** * Roaring bitmaps: containers as sets

    What the operations of [RoaringContainer] compute, for containers of every
    type: the set operations, the queries, the updates, and the lazy
    operations with the repair that ends them.  [ContainerOp] is the interface
    the bitmap level uses. *)

From stdpp Require Import base list list_numbers numbers option sorting.
From Stdlib Require Import ZArith Lia ZifyBool.
From S2P Require Import Prelude.
From S2P Require Import RoaringArrays.
From S2P Require Import RoaringInplace.
From S2P Require Import RoaringArrayContainer.
From S2P Require Import RoaringArrayFacts.
From S2P Require Import RoaringBitset.
From S2P Require Import RoaringBitsetFacts.
From S2P Require Import RoaringBitsetOps.
From S2P Require Import RoaringBitsetContainer.
From S2P Require Import RoaringRun.
From S2P Require Import RoaringRunFacts.
From S2P Require Import RoaringRunOps.
From S2P Require Import RoaringRunRange.
From S2P Require Import RoaringRunSets.
From S2P Require Import RoaringRunContainer.
From S2P Require Import RoaringConvert.
From S2P Require Import RoaringConvertFacts.
From S2P Require Import RoaringMixed.
From S2P Require Import RoaringMixedAndnot.
From S2P Require Import RoaringMixedInter.
From S2P Require Import RoaringMixedUnion.
From S2P Require Import RoaringMixedXor.
From S2P Require Import RoaringMixedRel.
From S2P Require Import RoaringMixedNeg.
From S2P Require Import RoaringContainer.

Local Open Scope Z_scope.

(** A container as a bitmap stores it: well formed, of the type its
    cardinality asks for, and not empty. *)
Record valid (c : container_t) : Prop := {
  v_ok : container_ok c;
  v_sized : sized c;
  v_ne : container_elems c <> [];
}.

Lemma run_nonempty r : rc_elems r <> [] -> rc_runs r <> [].
Proof. intros H E. apply H. unfold rc_elems. by rewrite E. Qed.

Lemma valid_run r : valid (Run r) -> run_ok r /\ rc_runs r <> [].
Proof. intros [H _ N]. split; [done | by apply run_nonempty]. Qed.

(** The interface of the binary operations: the set of the result is a
    function of the sets of the arguments. *)
Class ContainerOp (op : container_t -> container_t -> option container_t) (f : list Z -> list Z -> list Z) : Prop :=
  container_op : forall c1 c2, valid c1 -> valid c2 ->
    container_result (op c1 c2) (f (container_elems c1) (container_elems c2)).

(** ** Results *)

Lemma as_array_result o l : array_result o l -> zlen l <= DEFAULT_MAX_SIZE -> container_result (as_array o) l.
Proof. apply array_container_result. Qed.

Lemma as_bitset_result o l : bitset_result o l -> DEFAULT_MAX_SIZE < zlen l -> container_result (as_bitset o) l.
Proof.
  intros (b & -> & O & E) Hl. exists (Bitset b). split; [done |]. split; [done |]. cbn. rewrite E. done.
Qed.

Lemma as_run_result o l : run_result o l -> container_result (as_run o) l.
Proof. intros (r & -> & O & E). exists (Run r). split; [done |]. split; [done |]. split; [done |]. done. Qed.

Lemma efficient_result o l : run_result o l -> container_result (efficient o) l.
Proof. intros (r & -> & O & <-). cbn [efficient mbind option_bind]. by apply convert_run_to_efficient_spec. Qed.

Lemma copy_run_result r : run_ok r -> container_result (Some (copy_run r)) (rc_elems r).
Proof. intros H. apply (as_run_result (Some _)). by apply run_copy_result. Qed.

Lemma zlen_union_l a b : strict a -> strict b -> zlen a <= zlen (union_loop a b).
Proof.
  intros Ha Hb. apply strict_subset_length; [done | by apply union_loop_strict |].
  intros x Hx. apply elem_of_union_loop. by left.
Qed.

Lemma zlen_union_r a b : strict a -> strict b -> zlen b <= zlen (union_loop a b).
Proof. intros Ha Hb. rewrite union_loop_comm by done. by apply zlen_union_l. Qed.

Lemma zlen_inter_l a b : zlen (inter a b) <= zlen a.
Proof. apply zlen_filter_le. Qed.

Lemma inter_swap a b : strict a -> strict b -> inter a b = inter b a.
Proof. apply inter_comm. Qed.

(** Case analysis on the types of two valid containers, with the facts about
    each of them that the lemmas ask for. *)
Ltac open_container H :=
  lazymatch type of H with
  | valid (Bitset ?b) => pose proof (v_ok _ H : bitset_ok b); pose proof (bo_wf b (v_ok _ H));
      pose proof (v_sized _ H : DEFAULT_MAX_SIZE < zlen (bc_elems b)); pose proof (bc_elems_strict b);
      pose proof (bitset_ok_lazy b (v_ok _ H))
  | valid (Array ?a) => pose proof (v_ok _ H : array_ok a); pose proof (v_sized _ H : zlen (ac_array a) <= DEFAULT_MAX_SIZE);
      pose proof (ao_strict a (v_ok _ H)); pose proof (v_ne _ H : ac_array a <> [])
  | valid (Run ?r) => pose proof (proj1 (valid_run r H)); pose proof (proj2 (valid_run r H));
      pose proof (expand_strict _ (ro_runs r (v_ok _ H)) : strict (rc_elems r))
  end.

Ltac both_containers := intros [?b1 | ?a1 | ?r1] [?b2 | ?a2 | ?r2] V1 V2; open_container V1; open_container V2;
  cbn [container_elems] in *.

(** ** Set operations *)

#[export] Instance and_op : ContainerOp container_and inter.
Proof.
  both_containers; cbn [container_and].
  - by apply bitset_bitset_intersection_spec.
  - rewrite inter_swap by done. apply as_array_result; [by apply array_bitset_intersection_spec |].
    pose proof (zlen_inter_l (ac_array a2) (bc_elems b1)). lia.
  - rewrite inter_swap by done. by apply run_bitset_intersection_spec.
  - apply as_array_result; [by apply array_bitset_intersection_spec |]. pose proof (zlen_inter_l (ac_array a1) (bc_elems b2)). lia.
  - apply as_array_result; [by apply array_intersection_spec |]. pose proof (zlen_inter_l (ac_array a1) (ac_array a2)). lia.
  - apply as_array_result; [by apply array_run_intersection_spec |]. pose proof (zlen_inter_l (ac_array a1) (rc_elems r2)). lia.
  - by apply run_bitset_intersection_spec.
  - rewrite inter_swap by done. apply as_array_result; [by apply array_run_intersection_spec |].
    pose proof (zlen_inter_l (ac_array a2) (rc_elems r1)). lia.
  - by apply efficient_result, run_intersection_spec.
Qed.

#[export] Instance iand_op : ContainerOp container_iand inter.
Proof.
  both_containers; cbn [container_iand].
  - by apply bitset_bitset_intersection_spec.
  - rewrite inter_swap by done. apply as_array_result; [by apply array_bitset_intersection_spec |].
    pose proof (zlen_inter_l (ac_array a2) (bc_elems b1)). lia.
  - rewrite inter_swap by done. by apply run_bitset_intersection_spec.
  - apply as_array_result; [by apply array_bitset_intersection_inplace_spec |]. pose proof (zlen_inter_l (ac_array a1) (bc_elems b2)). lia.
  - apply as_array_result; [by apply array_intersection_inplace_spec |]. pose proof (zlen_inter_l (ac_array a1) (ac_array a2)). lia.
  - apply as_array_result; [by apply array_run_intersection_spec |]. pose proof (zlen_inter_l (ac_array a1) (rc_elems r2)). lia.
  - by apply run_bitset_intersection_spec.
  - rewrite inter_swap by done. apply as_array_result; [by apply array_run_intersection_spec |].
    pose proof (zlen_inter_l (ac_array a2) (rc_elems r1)). lia.
  - by apply efficient_result, run_intersection_spec.
Qed.

(** A full run container is the result, anything else goes through a bitset. *)
Lemma run_bitset_or r b c : run_ok r -> rc_runs r <> [] -> bitset_ok b -> DEFAULT_MAX_SIZE < zlen (bc_elems b) ->
  container_result (Some c) (rc_elems r) ->
  container_result (full ← run_container_is_full r; if full : bool then Some c else as_bitset (run_bitset_container_union r b))
    (union_loop (rc_elems r) (bc_elems b)).
Proof.
  intros Hr Hne Hb Hs Hc. rewrite run_is_full_spec by done. cbn [mbind option_bind].
  pose proof (expand_strict _ (ro_runs _ Hr) : strict (rc_elems r)). pose proof (bc_elems_strict b). case_bool_decide as F.
  - rewrite union_full_l; [done | done | done |]. intros x. apply bc_elems_range, Hb.
  - apply as_bitset_result; [apply run_bitset_union_spec; [done | apply Hb] |].
    pose proof (zlen_union_r (rc_elems r) (bc_elems b) ltac:(done) ltac:(done)). lia.
Qed.

Lemma array_bitset_or a b : array_ok a -> bitset_ok b -> DEFAULT_MAX_SIZE < zlen (bc_elems b) ->
  container_result (as_bitset (array_bitset_container_union a b)) (union_loop (ac_array a) (bc_elems b)).
Proof.
  intros Ha Hb Hs. apply as_bitset_result; [by apply array_bitset_union_spec |].
  pose proof (zlen_union_r (ac_array a) (bc_elems b) (ao_strict _ Ha) (bc_elems_strict b)). lia.
Qed.

Lemma array_run_or a r : array_ok a -> run_ok r -> ac_array a <> [] -> rc_runs r <> [] ->
  container_result (efficient (array_run_container_union a r run_container_create)) (union_loop (ac_array a) (rc_elems r)).
Proof. intros. apply efficient_result. by apply array_run_union_spec. Qed.

Lemma or_result b1 b2 : bitset_ok b1 -> bitset_ok b2 -> exists b, bitset_container_or b1 b2 = Some b /\ bitset_ok b /\
  bc_elems b = union_loop (bc_elems b1) (bc_elems b2).
Proof. intros H1 H2. apply (bitset_fn_spec _ _ word_op_lor); [apply H1 | apply H2]. Qed.

#[export] Instance or_op : ContainerOp container_or union_loop.
Proof.
  both_containers; cbn [container_or].
  - apply as_bitset_result; [by apply or_result |]. pose proof (zlen_union_l (bc_elems b1) (bc_elems b2) ltac:(done) ltac:(done)). lia.
  - rewrite union_loop_comm by done. by apply array_bitset_or.
  - rewrite union_loop_comm by done. by apply run_bitset_or; try done; apply copy_run_result.
  - by apply array_bitset_or.
  - by apply array_array_union_spec.
  - by apply array_run_or.
  - by apply run_bitset_or; try done; apply copy_run_result.
  - rewrite union_loop_comm by done. by apply array_run_or.
  - by apply efficient_result, run_union_spec.
Qed.

Lemma full_by_length l : sorted16 l -> zlen l = 65536 -> l = seqZ 0 65536.
Proof.
  intros [Hs Hr] Hz. apply strict_subset_eq; [done | apply seqZ_strict | | rewrite zlen_seqZ; lia].
  intros x Hx. rewrite Forall_forall in Hr. specialize (Hr x Hx). unfold in_u in Hr. apply elem_of_seqZ. lia.
Qed.

Lemma or_to_full_result b1 b2 : bitset_ok b1 -> bitset_ok b2 -> DEFAULT_MAX_SIZE < zlen (bc_elems b1) ->
  container_result (or_to_full b1 b2) (union_loop (bc_elems b1) (bc_elems b2)).
Proof.
  intros H1 H2 Hs. unfold or_to_full. destruct (or_result b1 b2 H1 H2) as (b & -> & O & E). cbn [mbind option_bind].
  rewrite bc_card_elems by done. destruct (Z.eqb_spec (zlen (bc_elems b)) (2 ^ 16)) as [Hz | Hz].
  - rewrite <- E, (full_by_length (bc_elems b)) by (done || apply bc_elems_sorted, O).
    apply as_run_result. apply (run_create_range_spec 0 65536); lia.
  - apply (as_bitset_result (Some b)); [by exists b |].
    pose proof (zlen_union_l (bc_elems b1) (bc_elems b2) (bc_elems_strict b1) (bc_elems_strict b2)). lia.
Qed.

#[export] Instance ior_op : ContainerOp container_ior union_loop.
Proof.
  both_containers; cbn [container_ior].
  - by apply or_to_full_result.
  - rewrite union_loop_comm by done. by apply array_bitset_or.
  - rewrite union_loop_comm by done. by apply run_bitset_or; try done; apply copy_run_result.
  - by apply array_bitset_or.
  - by apply array_array_inplace_union_spec.
  - by apply array_run_or.
  - apply run_bitset_or; try done. by exists (Run r1).
  - rewrite union_loop_comm by done. by apply efficient_result, array_run_inplace_union_spec.
  - by apply efficient_result, run_union_inplace_spec.
Qed.

#[export] Instance xor_op : ContainerOp container_xor xor_uint16.
Proof.
  both_containers; cbn [container_xor].
  - by apply bitset_bitset_xor_spec.
  - rewrite xor_comm by done. by apply array_bitset_xor_spec.
  - rewrite xor_comm by done. by apply run_bitset_xor_spec.
  - by apply array_bitset_xor_spec.
  - by apply array_array_xor_spec.
  - by apply array_run_xor_spec.
  - by apply run_bitset_xor_spec.
  - rewrite xor_comm by done. by apply array_run_xor_spec.
  - by apply run_run_xor_spec.
Qed.

#[export] Instance ixor_op : ContainerOp container_ixor xor_uint16.
Proof.
  both_containers; cbn [container_ixor].
  - by apply bitset_bitset_xor_spec.
  - by apply bitset_array_ixor_spec.
  - unfold bitset_run_container_ixor. rewrite xor_comm by done. by apply run_bitset_xor_spec.
  - by apply array_bitset_xor_spec.
  - by apply array_array_xor_spec.
  - by apply array_run_xor_spec.
  - by apply run_bitset_xor_spec.
  - unfold run_array_container_ixor. rewrite xor_comm by done. by apply array_run_xor_spec.
  - by apply run_run_xor_spec.
Qed.

Lemma minus_full l r : sorted16 l -> expand (rc_runs r) = seqZ 0 65536 -> minus l (rc_elems r) = [].
Proof.
  intros [Hs Hr] F. apply strict_ext; [by apply strict_filter | constructor |]. intros x. rewrite elem_of_minus.
  split; [| by intros ?%elem_of_nil]. intros [Hx N]. destruct N. unfold rc_elems. rewrite F. apply elem_of_seqZ.
  rewrite Forall_forall in Hr. specialize (Hr x Hx). unfold in_u in Hr. lia.
Qed.

(** Without the values of a full run container nothing is left. *)
Lemma unless_full r l o : run_ok r -> rc_runs r <> [] -> sorted16 l -> container_result o (minus l (rc_elems r)) ->
  container_result (full ← run_container_is_full r; if full : bool then Some (Array array_container_create) else o)
    (minus l (rc_elems r)).
Proof.
  intros Hr Hne Hs Ho. rewrite run_is_full_spec by done. cbn [mbind option_bind]. case_bool_decide as F; [| done].
  rewrite minus_full by done. exists (Array array_container_create). split; [done |].
  split; [by constructor; [constructor | constructor | cbn] | done].
Qed.

#[export] Instance andnot_op : ContainerOp container_andnot minus.
Proof.
  both_containers; cbn [container_andnot].
  - by apply bitset_bitset_andnot_spec.
  - by apply bitset_array_andnot_spec.
  - apply unless_full; [done | done | by apply bc_elems_sorted |]. by apply bitset_run_andnot_spec.
  - apply as_array_result; [by apply array_bitset_andnot_spec |]. pose proof (zlen_minus_le (ac_array a1) (bc_elems b2)). lia.
  - apply as_array_result; [by apply array_andnot_spec |]. pose proof (zlen_minus_le (ac_array a1) (ac_array a2)). lia.
  - apply unless_full; [done | done | by apply array_ok_sorted |].
    apply as_array_result; [by apply array_run_andnot_spec |]. pose proof (zlen_minus_le (ac_array a1) (rc_elems r2)). lia.
  - by apply run_bitset_andnot_spec.
  - by apply run_array_andnot_spec.
  - apply unless_full; [done | done | by apply expand_sorted, ro_runs |]. by apply run_run_andnot_spec.
Qed.

#[export] Instance iandnot_op : ContainerOp container_iandnot minus.
Proof.
  both_containers; cbn [container_iandnot].
  - by apply bitset_bitset_andnot_spec.
  - by apply bitset_array_andnot_spec.
  - by apply bitset_run_andnot_spec.
  - apply as_array_result; [by apply array_bitset_iandnot_spec |]. pose proof (zlen_minus_le (ac_array a1) (bc_elems b2)). lia.
  - apply as_array_result; [by apply array_andnot_inplace_spec |]. pose proof (zlen_minus_le (ac_array a1) (ac_array a2)). lia.
  - apply as_array_result; [by apply array_run_iandnot_spec |]. pose proof (zlen_minus_le (ac_array a1) (rc_elems r2)). lia.
  - by apply run_bitset_andnot_spec.
  - by apply run_array_andnot_spec.
  - by apply run_run_andnot_spec.
Qed.

(** ** Lazy operations and repair *)

(** An argument of a lazy operation: the result of other such operations. *)
Record lazy_valid (c : container_t) : Prop := {
  lv_lazy : container_lazy c;
  lv_ne : container_elems c <> [];
}.

Lemma valid_lazy c : valid c -> lazy_valid c.
Proof. intros [O S N]. split; [by apply container_ok_lazy | done]. Qed.

Lemma repair_spec c : container_lazy c -> container_result (container_repair_after_lazy c) (container_elems c).
Proof.
  destruct c as [b | a | r]; cbn [container_lazy container_repair_after_lazy container_elems].
  - intros [[L W] _]. by apply recount_sized, recount_spec.
  - intros [O S]. by exists (Array a).
  - apply convert_run_to_efficient_spec.
Qed.

Lemma repair_result o l : lazy_container_result o l -> container_result (c ← o; container_repair_after_lazy c) l.
Proof. intros (c & -> & L & <-). cbn [mbind option_bind]. by apply repair_spec. Qed.

Lemma as_bitset_lazy o l : lazy_result o l -> lazy_container_result (as_bitset o) l.
Proof. apply lazy_bitset_container. Qed.

Lemma as_run_lazy o l : run_result o l -> lazy_container_result (as_run o) l.
Proof. intros H. by apply container_result_lazy, as_run_result. Qed.

Lemma efficient_lazy o l : run_result o l -> lazy_container_result (efficient o) l.
Proof. intros H. by apply container_result_lazy, efficient_result. Qed.

Lemma run_bitset_lazy_or r b c : run_ok r -> rc_runs r <> [] -> bitset_wf b ->
  lazy_container_result (Some c) (rc_elems r) ->
  lazy_container_result (full ← run_container_is_full r; if full : bool then Some c else as_bitset (run_bitset_container_lazy_union r b))
    (union_loop (rc_elems r) (bc_elems b)).
Proof.
  intros Hr Hne Hb Hc. rewrite run_is_full_spec by done. cbn [mbind option_bind]. case_bool_decide as F.
  - rewrite union_full_l; [done | apply bc_elems_strict | done |]. intros x. by apply bc_elems_range.
  - apply as_bitset_lazy. by apply run_bitset_lazy_union_spec.
Qed.

Lemma nocard_lazy op f b1 b2 : word_op op f -> bitset_wf b1 -> bitset_wf b2 ->
  lazy_container_result (Some (Bitset (bitset_container_fn_nocard op b1 b2))) (f (bc_elems b1) (bc_elems b2)).
Proof.
  intros Hop H1 H2. destruct (bitset_fn_nocard_spec op f Hop b1 b2 H1 H2) as (W & C & E).
  eexists. split; [done |]. split; [| done]. split; [done | by left].
Qed.

Ltac open_lazy H :=
  lazymatch type of H with
  | lazy_valid (Bitset ?b) => pose proof (lv_lazy _ H : bitset_lazy b); pose proof (proj1 (lv_lazy _ H) : bitset_wf b);
      pose proof (bc_elems_strict b)
  | lazy_valid (Array ?a) => pose proof (proj1 (lv_lazy _ H) : array_ok a);
      pose proof (proj2 (lv_lazy _ H) : zlen (ac_array a) <= DEFAULT_MAX_SIZE);
      pose proof (ao_strict a (proj1 (lv_lazy _ H))); pose proof (lv_ne _ H : ac_array a <> [])
  | lazy_valid (Run ?r) => pose proof (lv_lazy _ H : run_ok r); pose proof (run_nonempty r (lv_ne _ H));
      pose proof (expand_strict _ (ro_runs r (lv_lazy _ H)) : strict (rc_elems r))
  end.

Ltac lazy_containers := intros [?b1 | ?a1 | ?r1] [?b2 | ?a2 | ?r2] V1 V2; open_lazy V1; open_lazy V2;
  cbn [container_elems] in *.

Lemma lazy_or_spec c1 c2 : lazy_valid c1 -> lazy_valid c2 ->
  lazy_container_result (container_lazy_or c1 c2) (union_loop (container_elems c1) (container_elems c2)).
Proof.
  revert c1 c2. lazy_containers; cbn [container_lazy_or].
  - by apply (nocard_lazy _ _ _ _ word_op_lor).
  - rewrite union_loop_comm by done. by apply as_bitset_lazy, array_bitset_lazy_union_spec.
  - rewrite union_loop_comm by done. apply run_bitset_lazy_or; try done. by apply container_result_lazy, copy_run_result.
  - by apply as_bitset_lazy, array_bitset_lazy_union_spec.
  - by apply array_array_lazy_union_spec.
  - by apply as_run_lazy, array_run_union_spec.
  - apply run_bitset_lazy_or; try done. by apply container_result_lazy, copy_run_result.
  - rewrite union_loop_comm by done. by apply as_run_lazy, array_run_union_spec.
  - by apply efficient_lazy, run_union_spec.
Qed.

Lemma or_to_full_lazy b1 b2 : bitset_wf b1 -> bitset_wf b2 ->
  lazy_container_result (or_to_full b1 b2) (union_loop (bc_elems b1) (bc_elems b2)).
Proof.
  intros H1 H2. unfold or_to_full. destruct (bitset_fn_spec _ _ word_op_lor b1 b2 H1 H2) as (b & E0 & O & E).
  unfold bitset_container_or. rewrite E0. cbn [mbind option_bind]. fold (bc_elems b) (bc_elems b1) (bc_elems b2) in E.
  rewrite bc_card_elems by done. destruct (Z.eqb_spec (zlen (bc_elems b)) (2 ^ 16)) as [Hz | Hz].
  - rewrite <- E, (full_by_length (bc_elems b)) by (done || apply bc_elems_sorted, O).
    apply as_run_lazy. apply (run_create_range_spec 0 65536); lia.
  - exists (Bitset b). split; [done |]. split; [by apply bitset_ok_lazy | done].
Qed.

Lemma lazy_ior_spec c1 c2 : lazy_valid c1 -> lazy_valid c2 ->
  lazy_container_result (container_lazy_ior c1 c2) (union_loop (container_elems c1) (container_elems c2)).
Proof.
  revert c1 c2. lazy_containers; cbn [container_lazy_ior].
  - by apply or_to_full_lazy.
  - rewrite union_loop_comm by done. by apply as_bitset_lazy, array_bitset_lazy_union_spec.
  - rewrite union_loop_comm by done. apply run_bitset_lazy_or; try done. by apply container_result_lazy, copy_run_result.
  - by apply as_bitset_lazy, array_bitset_lazy_union_spec.
  - by apply array_array_lazy_inplace_union_spec.
  - by apply as_run_lazy, array_run_union_spec.
  - apply run_bitset_lazy_or; try done. by exists (Run r1).
  - rewrite union_loop_comm by done. by apply as_run_lazy, array_run_inplace_union_spec.
  - by apply efficient_lazy, run_union_inplace_spec.
Qed.

Lemma lazy_xor_spec c1 c2 : lazy_valid c1 -> lazy_valid c2 ->
  lazy_container_result (container_lazy_xor c1 c2) (xor_uint16 (container_elems c1) (container_elems c2)).
Proof.
  revert c1 c2. lazy_containers; cbn [container_lazy_xor].
  - by apply (nocard_lazy _ _ _ _ word_op_lxor).
  - rewrite xor_comm by done. by apply as_bitset_lazy, array_bitset_lazy_xor_spec.
  - rewrite xor_comm by done. by apply as_bitset_lazy, run_bitset_lazy_xor_spec.
  - by apply as_bitset_lazy, array_bitset_lazy_xor_spec.
  - by apply array_array_lazy_xor_spec.
  - by apply as_run_lazy, array_run_lazy_xor_spec.
  - by apply as_bitset_lazy, run_bitset_lazy_xor_spec.
  - rewrite xor_comm by done. by apply as_run_lazy, array_run_lazy_xor_spec.
  - by apply container_result_lazy, run_run_xor_spec.
Qed.

(** The first argument may have an unknown cardinality, the second may not. *)
Lemma lazy_ixor_spec c1 c2 : lazy_valid c1 -> valid c2 ->
  lazy_container_result (container_lazy_ixor c1 c2) (xor_uint16 (container_elems c1) (container_elems c2)).
Proof.
  revert c1 c2. intros [b1 | a1 | r1] [b2 | a2 | r2] V1 V2; open_lazy V1; open_container V2; cbn [container_elems container_lazy_ixor] in *.
  1: by apply (nocard_lazy _ _ _ _ word_op_lxor).
  1-2: assert (exists b, (if bc_cardinality b1 =? BITSET_UNKNOWN_CARDINALITY then recount (bc_array b1) else Some b1) = Some b /\
      bitset_ok b /\ bc_elems b = bc_elems b1) as (b & -> & O & <-)
    by (destruct (Z.eqb_spec (bc_cardinality b1) BITSET_UNKNOWN_CARDINALITY) as [U | U];
        [apply recount_spec; [apply H0 | apply H0 | done] | destruct H as [_ [| ?]]; [done |]; by exists b1]).
  all: cbn [mbind option_bind container_ixor]; apply container_result_lazy.
  - by apply bitset_array_ixor_spec.
  - unfold bitset_run_container_ixor. pose proof (bc_elems_strict b). rewrite xor_comm by done. apply run_bitset_xor_spec; [done | apply O].
  - by apply array_bitset_xor_spec.
  - by apply array_array_xor_spec.
  - by apply array_run_xor_spec.
  - by apply run_bitset_xor_spec.
  - unfold run_array_container_ixor. rewrite xor_comm by done. by apply array_run_xor_spec.
  - by apply run_run_xor_spec.
Qed.
