(* ===== verification/RoaringContainerOps.v ===== *)
(** * Roaring bitmaps: queries and updates of containers

    The queries of [RoaringContainer] answer from the set of the container,
    whatever its type, and the updates return containers of the updated set. *)
From stdpp Require Import base list list_numbers numbers option sorting.
From Stdlib Require Import ZArith Lia ZifyBool.
From S2P Require Import Prelude.
From S2P Require Import RoaringArrays.
From S2P Require Import RoaringInplace.
From S2P Require Import RoaringArrayContainer.
From S2P Require Import RoaringArrayFacts.
From S2P Require Import RoaringBitset.
From S2P Require Import RoaringBitsetFacts.
From S2P Require Import RoaringBitsetOps.
From S2P Require Import RoaringBitsetContainer.
From S2P Require Import RoaringRun.
From S2P Require Import RoaringRunFacts.
From S2P Require Import RoaringRunOps.
From S2P Require Import RoaringRunRange.
From S2P Require Import RoaringRunSets.
From S2P Require Import RoaringRunContainer.
From S2P Require Import RoaringConvert.
From S2P Require Import RoaringConvertFacts.
From S2P Require Import RoaringMixed.
From S2P Require Import RoaringMixedAndnot.
From S2P Require Import RoaringMixedInter.
From S2P Require Import RoaringMixedUnion.
From S2P Require Import RoaringMixedXor.
From S2P Require Import RoaringMixedRel.
From S2P Require Import RoaringMixedNeg.
From S2P Require Import RoaringContainer.
From S2P Require Import RoaringContainerFacts.

Local Open Scope Z_scope.

(** ** Queries *)

Lemma cardinality_spec c : container_ok c -> container_get_cardinality c = zlen (container_elems c).
Proof. destruct c; cbn; intros H; [by apply bc_card_elems | done | by apply run_cardinality_spec]. Qed.

Lemma contains_spec c x : container_ok c -> in_u 16 x ->
  container_contains c x = Some (bool_decide (x ∈ container_elems c)).
Proof.
  destruct c; cbn; intros H Hx; [apply bitset_get_spec; [apply H | done] | by apply array_contains_spec | by apply run_contains_spec].
Qed.

Lemma contains_range_spec c s e : container_ok c -> 0 <= s < e -> e <= 65536 ->
  exists v, container_contains_range c s e = Some v /\ (v = true <-> forall x, s <= x < e -> x ∈ container_elems c).
Proof.
  destruct c; cbn; intros H Hs He;
    [apply bitset_get_range_spec; [apply H | done | done] | by apply array_contains_range_spec | by apply run_contains_range_spec].
Qed.

Lemma rank_spec c x : container_ok c -> in_u 16 x -> container_rank c x = Some (lb (container_elems c) (x + 1)).
Proof.
  destruct c; cbn; intros H Hx; [apply bitset_rank_spec; [apply H | done] | by apply array_rank_spec | f_equal; by apply run_rank_spec].
Qed.

Lemma select_spec c start rank : container_ok c -> 0 <= start <= rank -> rank < 2 ^ 31 ->
  let card := zlen (container_elems c) in
  container_select c start rank =
    if start + card <=? rank then Some (inl (start + card))
    else v ← rd (container_elems c) (rank - start); Some (inr v).
Proof.
  destruct c; cbn; intros H Hs Hr; [by apply bitset_select_spec | apply array_select_spec; [done | done | lia | lia] |].
  apply run_select_loop_spec; [apply H | done | done].
Qed.

Lemma nonzero_spec c : container_ok c -> container_nonzero_cardinality c = Some (bool_decide (container_elems c <> [])).
Proof.
  destruct c as [b | a | r]; cbn; intros H.
  - unfold bitset_container_const_nonzero_cardinality. rewrite bitset_empty_spec by by apply bitset_ok_lazy. cbn [mbind option_bind].
    by rewrite zlen_zero_iff, bool_decide_not.
  - f_equal. unfold array_container_nonzero_cardinality, array_container_cardinality. destruct (ac_array a); [done |].
    rewrite zlen_cons. pose proof (zlen_nonneg l). case_bool_decide; [lia | done].
  - f_equal. unfold run_container_nonzero_cardinality, n_runs, rc_elems. pose proof (run_values_ne (rc_runs r) (ro_runs _ H)) as N.
    destruct (rc_runs r) as [|x l]; [done |]. rewrite zlen_cons. pose proof (zlen_nonneg l).
    rewrite bool_decide_eq_true_2; [lia |]. intros E. by specialize (N E).
Qed.

(** A bitset of the right size has a value in the second word. *)
Lemma sized_bitset_high b : DEFAULT_MAX_SIZE < zlen (bc_elems b) -> exists y, y ∈ bc_elems b /\ 64 <= y.
Proof.
  intros Hz. destruct (decide (Forall (fun y => y < 64) (bc_elems b))) as [F | F].
  - exfalso. unfold DEFAULT_MAX_SIZE in Hz. assert (zlen (bc_elems b) <= 64 - 0); [| lia].
    apply strict_length_bound; [apply bc_elems_strict | | lia]. intros y Hy. rewrite Forall_forall in F. specialize (F y Hy).
    apply elems_range in Hy. lia.
  - apply not_Forall_Exists in F; [| intros y; apply _]. apply Exists_exists in F as (y & Hy & Hn). exists y. cbn in Hn. split; [done | lia].
Qed.

Lemma extremes_spec c : valid c ->
  exists lo hi, container_minimum c = Some lo /\ container_maximum c = Some hi /\ lo ∈ container_elems c /\ hi ∈ container_elems c /\
    forall x, x ∈ container_elems c -> lo <= x <= hi.
Proof.
  intros V. pose proof (container_strict c (v_ok _ V)) as Hs. destruct c as [b | a | r]; open_container V; cbn [container_elems container_minimum container_maximum] in *.
  - destruct (bitset_minimum_spec b ltac:(done) (v_ne _ V)) as [L1 L2].
    destruct (bitset_maximum_spec b ltac:(done) (sized_bitset_high b ltac:(done))) as (hi & -> & U1 & U2).
    eexists _, hi. split; [done |]. split; [done |]. split; [done |]. split; [done |]. intros x Hx. split; [by apply L2 | by apply U2].
  - destruct (ac_array a) as [|y t] eqn:E; [done |]. rewrite <- E in *.
    assert (y ∈ ac_array a) as Hy by (rewrite E; constructor).
    destruct (array_minimum_spec a y ltac:(done) Hy) as (lo & E1 & L1 & _). destruct (array_maximum_spec a y ltac:(done) Hy) as (hi & E2 & U1 & _).
    exists lo, hi. split; [done |]. split; [done |]. split; [done |]. split; [done |]. intros x Hx.
    destruct (array_minimum_spec a x ltac:(done) Hx) as (lo' & E1' & _ & ?). destruct (array_maximum_spec a x ltac:(done) Hx) as (hi' & E2' & _ & ?).
    rewrite E1 in E1'. rewrite E2 in E2'. simplify_eq. done.
  - unfold rc_elems in *. destruct (expand (rc_runs r)) as [|y t] eqn:E; [by apply run_values_ne in E; [| apply H] |]. rewrite <- E in *.
    assert (y ∈ expand (rc_runs r)) as Hy by (rewrite E; constructor).
    destruct (run_minimum_spec r y ltac:(done) Hy) as (lo & E1 & L1 & _). destruct (run_maximum_spec r y ltac:(done) Hy) as (hi & E2 & U1 & _).
    exists lo, hi. split; [done |]. split; [done |]. split; [done |]. split; [done |]. intros x Hx.
    destruct (run_minimum_spec r x ltac:(done) Hx) as (lo' & E1' & _ & ?). destruct (run_maximum_spec r x ltac:(done) Hx) as (hi' & E2' & _ & ?).
    rewrite E1 in E1'. rewrite E2 in E2'. simplify_eq. done.
Qed.

Lemma and_cardinality_spec c1 c2 : valid c1 -> valid c2 ->
  container_and_cardinality c1 c2 = Some (zlen (inter (container_elems c1) (container_elems c2))).
Proof.
  revert c1 c2. both_containers; cbn [container_and_cardinality].
  - by apply (bitset_fn_justcard_spec _ _ word_op_land).
  - rewrite inter_swap by done. by apply array_bitset_intersection_cardinality_spec.
  - rewrite inter_swap by done. by apply run_bitset_intersection_cardinality_spec.
  - by apply array_bitset_intersection_cardinality_spec.
  - by apply array_intersection_cardinality_spec.
  - by apply array_run_intersection_cardinality_spec.
  - by apply run_bitset_intersection_cardinality_spec.
  - rewrite inter_swap by done. by apply array_run_intersection_cardinality_spec.
  - by apply run_intersection_cardinality_spec.
Qed.

Lemma intersect_spec c1 c2 : valid c1 -> valid c2 ->
  container_intersect c1 c2 = Some (bool_decide (inter (container_elems c1) (container_elems c2) <> [])).
Proof.
  revert c1 c2. both_containers; cbn [container_intersect].
  - f_equal. by apply bitset_intersect_spec.
  - rewrite inter_swap by done. by apply array_bitset_intersect_spec.
  - rewrite inter_swap by done. by apply run_bitset_intersect_spec.
  - by apply array_bitset_intersect_spec.
  - by apply array_intersect_spec.
  - by apply array_run_intersect_spec.
  - by apply run_bitset_intersect_spec.
  - rewrite inter_swap by done. by apply array_run_intersect_spec.
  - by apply run_intersect_spec.
Qed.

Lemma decide_swap {A} `{EqDecision A} (x y : A) : bool_decide (x = y) = bool_decide (y = x).
Proof. apply bool_decide_ext. split; congruence. Qed.

Lemma equals_spec c1 c2 : valid c1 -> valid c2 ->
  container_equals c1 c2 = Some (bool_decide (container_elems c1 = container_elems c2)).
Proof.
  revert c1 c2. both_containers; cbn [container_equals].
  - f_equal. by apply bitset_equals_spec.
  - rewrite decide_swap. by apply array_equal_bitset_spec.
  - rewrite decide_swap. by apply run_equals_bitset_spec.
  - by apply array_equal_bitset_spec.
  - f_equal. by apply array_equals_spec.
  - rewrite decide_swap. by apply run_equals_array_spec.
  - by apply run_equals_bitset_spec.
  - by apply run_equals_array_spec.
  - f_equal. by apply run_equals_spec.
Qed.

(** The values of [c1] are not above those of [c2]: then a run container is
    never looked for behind the end of an array. *)
Definition bounded_by (l1 l2 : list Z) : Prop := exists y, y ∈ l2 /\ forall x, x ∈ l1 -> x <= y.

Lemma is_subset_spec c1 c2 : valid c1 -> valid c2 -> bounded_by (container_elems c1) (container_elems c2) ->
  subset_result (container_is_subset c1 c2) (container_elems c1) (container_elems c2).
Proof.
  revert c1 c2. both_containers; cbn [container_is_subset]; intros (y & Hy & Hb).
  - eexists. split; [done |]. by apply bitset_is_subset_spec.
  - apply subset_too_large; [done | done | lia].
  - by apply bitset_subset_run_spec.
  - by apply array_subset_bitset_spec.
  - eexists. split; [done |]. by apply array_is_subset_spec.
  - by apply array_subset_run_spec.
  - by apply run_subset_bitset_spec.
  - by eapply run_subset_array_spec.
  - eexists. split; [done |]. by apply run_is_subset_spec.
Qed.

(** ** Updates *)

Lemma strict_one x : strict [x].
Proof. apply strict_cons. split; constructor. Qed.

Lemma zlen_add a x : strict a -> zlen (union_loop a [x]) = zlen a + (if decide (x ∈ a) then 0 else 1).
Proof.
  intros Hs. case_decide as D.
  - replace (union_loop a [x]) with a; [lia |]. apply strict_ext; [done | apply union_loop_strict; [done | apply strict_one] |].
    intros y. rewrite elem_of_union_loop, list_elem_of_singleton. split; [by left | intros [? | ->]; done].
  - rewrite <- insert_at_union by done. pose proof (lb_range a x). unfold insert_at. rewrite zlen_app, zlen_cons, zlen_take, zlen_drop by lia. lia.
Qed.

Lemma add_spec c x : container_ok c -> sized c -> in_u 16 x ->
  container_result (container_add c x) (union_loop (container_elems c) [x]).
Proof.
  destruct c as [b | a | r]; cbn [container_ok sized container_elems container_add]; intros H Hs Hx.
  - apply as_bitset_result; [by apply bitset_set_spec |]. rewrite zlen_add by apply bc_elems_strict. case_decide; lia.
  - pose proof (ao_strict _ H) as Hst.
    destruct (array_try_add_spec a x DEFAULT_MAX_SIZE H Hx) as (rc & a' & -> & O & E). cbn [mbind option_bind].
    pose proof (zlen_add (ac_array a) x Hst) as Z. case_decide as D; [| destruct (Z.ltb_spec (zlen (ac_array a)) DEFAULT_MAX_SIZE)].
    + destruct E as [-> ->]. exists (Array a). split; [done |]. split; [done |]. split; [done |]. cbn.
      apply strict_ext; [done | apply union_loop_strict; [done | apply strict_one] |].
      intros y. rewrite elem_of_union_loop, list_elem_of_singleton. split; [by left | intros [? | ->]; done].
    + destruct E as [-> E]. exists (Array a'). split; [done |]. split; [done |]. cbn. rewrite E. split; [lia | done].
    + destruct E as [-> ->]. cbn [Z.eqb negb]. destruct (from_array_words a H) as (b & -> & Ob & Eb). cbn [mbind option_bind].
      destruct (bitset_add_spec b x Ob Hx) as (b' & -> & Ob' & Eb'). cbn [mbind option_bind].
      apply (as_bitset_result (Some b')); [exists b'; by rewrite Eb', Eb | lia].
  - destruct (run_add_spec r x H Hx) as (r' & -> & O & E). cbn [mbind option_bind]. by exists (Run r').
Qed.

Lemma remove_spec c x : container_ok c -> sized c -> in_u 16 x ->
  container_result (container_remove c x) (minus (container_elems c) [x]).
Proof.
  destruct c as [b | a | r]; cbn [container_ok sized container_elems container_remove]; intros H Hs Hx.
  - destruct (bitset_remove_spec b x H Hx) as (b' & -> & O & E). cbn [mbind option_bind]. unfold bitset_container_cardinality.
    rewrite bc_card_elems by done. destruct (Z.leb_spec (zlen (bc_elems b')) DEFAULT_MAX_SIZE) as [L | L].
    + case_bool_decide as D; cbn [andb].
      * rewrite <- E. apply as_array_result; [by apply array_from_bitset_spec | done].
      * exfalso. rewrite E in L. rewrite zlen_minus_one in L by apply bc_elems_strict. rewrite decide_False in L by done. lia.
    + rewrite andb_false_r. rewrite <- E. apply (as_bitset_result (Some b')); [by exists b' | done].
  - destruct (array_remove_spec a x H) as (a' & -> & O & E). cbn [mbind option_bind]. rewrite <- E.
    apply (as_array_result (Some a')); [by exists a' |]. rewrite E. pose proof (zlen_minus_le (ac_array a) [x]). lia.
  - destruct (run_remove_spec r x H Hx) as (r' & -> & O & E). cbn [mbind option_bind]. by exists (Run r').
Qed.

(** The range updates keep a container well formed, but may leave a bitset
    with few values. *)
Definition set_result (o : option container_t) (l : list Z) : Prop :=
  exists c, o = Some c /\ container_ok c /\ container_elems c = l.

Lemma container_result_set o l : container_result o l -> set_result o l.
Proof. intros (c & -> & O & _ & E). by exists c. Qed.

Lemma zlen_union_range a m x : sorted16 a -> 0 <= m <= x -> x <= 65535 ->
  zlen (union_loop a (seqZ m (x + 1 - m))) = zlen a + (x - m + 1) - count_in a m (x + 1).
Proof.
  intros [Hst Hb] Hm Hx. rewrite union_range by (done || lia). rewrite !zlen_app, zlen_seqZ by lia.
  pose proof (lb_range a m). pose proof (lb_range a (x + 1)).
  rewrite zlen_take, zlen_drop by lia. rewrite count_in_lb by lia. lia.
Qed.

Lemma sorted16_union_range a m x : sorted16 a -> 0 <= m <= x -> x <= 65535 -> sorted16 (union_loop a (seqZ m (x + 1 - m))).
Proof. intros Ha Hm Hx. apply sorted16_union; [done |]. apply sorted16_seqZ; lia. Qed.

Lemma full_run_result l : sorted16 l -> zlen l = 65536 ->
  container_result (as_run (run_container_create_range 0 0x10000)) l.
Proof. intros Hs Hz. rewrite (full_by_length l) by done. apply as_run_result. apply (run_create_range_spec 0 65536); lia. Qed.

(** The words with the range set, as a container. *)
Lemma set_range_bitset ws l m x : words_ok ws -> zlen ws = 1024 -> elems ws = l -> 0 <= m <= x -> x <= 65535 ->
  set_result (words ← bitset_set_lenrange ws m (x - m);
              Some (Bitset (mk_bitset (zlen (union_loop l (seqZ m (x + 1 - m)))) words))) (union_loop l (seqZ m (x + 1 - m))).
Proof.
  intros Hw Hl E Hm Hx. destruct (set_lenrange_result ws m (x - m)) as (ws' & -> & L' & W' & E'); [done | lia.. |]. cbn [mbind option_bind].
  replace (x - m + 1) with (x + 1 - m) in E' by lia. rewrite E in E'. eexists. split; [done |]. split; [| exact E'].
  apply words_bitset_ok; [done | lia | exact E'].
Qed.

Lemma add_range_spec c m x : container_ok c -> 0 <= m <= x -> x <= 65535 ->
  set_result (container_add_range c m x) (union_loop (container_elems c) (seqZ m (x + 1 - m))).
Proof.
  intros H Hm Hx. pose proof (container_sorted c H) as Hs. destruct c as [b | a | r]; cbn [container_elems container_add_range container_ok] in *.
  - destruct H as [[L W] Hc]. rewrite bitset_lenrange_cardinality_spec by (done || lia). cbn [mbind option_bind].
    fold (bc_elems b). replace (m + (x - m) + 1) with (x + 1) by lia. rewrite bc_card_elems by (by constructor).
    cbv zeta. rewrite <- zlen_union_range by done. case_match eqn:E.
    + apply Z.eqb_eq in E. apply container_result_set, full_run_result; [by apply sorted16_union_range | done].
    + by apply set_range_bitset.
  - pose proof (ao_strict _ H) as Hst. rewrite count_greater_spec by done. cbn [mbind option_bind].
    pose proof (lb_range (ac_array a) (x + 1)). unfold array_container_cardinality.
    replace (zlen (ac_array a) - (zlen (ac_array a) - lb (ac_array a) (x + 1))) with (lb (ac_array a) (x + 1)) by lia.
    rewrite count_less_spec by (by apply strict_sublists). cbn [mbind option_bind]. rewrite lb_take_upper by (done || lia). cbv zeta.
    pose proof (zlen_union_range (ac_array a) m x Hs Hm Hx) as Z. rewrite count_in_lb in Z by lia.
    replace (lb (ac_array a) m + (x - m + 1) + (zlen (ac_array a) - lb (ac_array a) (x + 1)))
      with (zlen (union_loop (ac_array a) (seqZ m (x + 1 - m)))) by lia. case_match eqn:E; [| case_match eqn:E2].
    + apply Z.eqb_eq in E. apply container_result_set, full_run_result; [by apply sorted16_union_range | done].
    + apply Z.leb_le in E2. apply container_result_set, as_array_result; [by apply array_add_range_nvals_spec | done].
    + destruct (from_array_words a H) as (b & -> & [[L W] _] & Eb). cbn [mbind option_bind]. by apply set_range_bitset.
  - destruct (run_add_range_spec r m x H Hm Hx) as (r' & E & O & Er). unfold run_container_add_range in E. rewrite !u16_id in E by lia.
    destruct (rle16_count_greater (rc_runs r) x) as [ng |]; [| done]. cbn [mbind option_bind] in *.
    destruct (rle16_count_less _ m) as [nl |]; [| done]. cbn [mbind option_bind] in *. case_match.
    + rewrite E. cbn [as_run mbind option_bind]. by exists (Run r').
    + destruct (from_run_range_spec r m x H Hm Hx) as (b & -> & Ob & Eb). by exists (Bitset b).
Qed.

(** What is left of [l]; [NULL] stands for nothing. *)
Definition remove_result (o : option (option container_t)) (l : list Z) : Prop :=
  exists oc, o = Some oc /\
    match oc with
    | None => l = []
    | Some c => container_ok c /\ container_elems c = l /\ l <> []
    end.

Lemma zlen_minus_range a m x : strict a -> zlen (minus a (seqZ m (x + 1 - m))) = zlen a - count_in a m (x + 1).
Proof.
  intros Hs. pose proof (zlen_minus_inter a (seqZ m (x + 1 - m))). unfold count_in.
  replace (filter (fun y => m <= y < x + 1) a) with (inter a (seqZ m (x + 1 - m))); [lia |].
  apply filter_ext_in. intros y _. rewrite elem_of_seqZ. lia.
Qed.

Lemma zlen_ne {A} (l : list A) : zlen l <> 0 -> l <> [].
Proof. intros H ->. by apply H. Qed.

Lemma remove_range_spec c m x : container_ok c -> 0 <= m <= x -> x <= 65535 ->
  remove_result (container_remove_range c m x) (minus (container_elems c) (seqZ m (x + 1 - m))).
Proof.
  intros H Hm Hx. pose proof (container_sorted c H) as [Hs _]. destruct c as [b | a | r]; cbn [container_elems container_remove_range container_ok] in *.
  - pose proof H as [[L W] Hc]. rewrite bitset_lenrange_cardinality_spec by (done || lia). cbn [mbind option_bind].
    fold (bc_elems b). replace (m + (x - m) + 1) with (x + 1) by lia. rewrite bc_card_elems by done. cbv zeta.
    rewrite <- zlen_minus_range by done. case_match eqn:Z; [exists None; split; [done |]; by apply zlen_zero |]. apply Z.eqb_neq in Z.
    destruct (reset_range_result (bc_array b) m (x + 1)) as (ws & -> & L1 & W1 & E1); [done | lia.. |]. cbn [mbind option_bind].
    fold (bc_elems b) in E1.
    assert (bitset_ok (mk_bitset (zlen (minus (bc_elems b) (seqZ m (x + 1 - m)))) ws)) as Ob by (apply words_bitset_ok; [done | lia | done]).
    case_match.
    + destruct (array_from_bitset_spec _ Ob) as (a & -> & Ea & Oa). cbn [mbind option_bind]. eexists. split; [done |]. split; [done |].
      cbn [container_elems]. rewrite Ea. split; [exact E1 | by apply zlen_ne].
    + eexists. split; [done |]. split; [done |]. split; [exact E1 | by apply zlen_ne].
  - rewrite count_greater_spec by done. cbn [mbind option_bind].
    pose proof (lb_range (ac_array a) (x + 1)). unfold array_container_cardinality.
    replace (zlen (ac_array a) - (zlen (ac_array a) - lb (ac_array a) (x + 1))) with (lb (ac_array a) (x + 1)) by lia.
    rewrite count_less_spec by (by apply strict_sublists). cbn [mbind option_bind]. rewrite lb_take_upper by (done || lia). cbv zeta.
    pose proof (zlen_minus_range (ac_array a) m x Hs) as Z. rewrite count_in_lb in Z by lia.
    case_match eqn:E; [apply Z.eqb_eq in E; exists None; split; [done |]; apply zlen_zero; lia |]. apply Z.eqb_neq in E.
    replace (zlen (ac_array a) - (lb (ac_array a) m + (zlen (ac_array a) - lb (ac_array a) (x + 1))))
      with (lb (ac_array a) (x + 1) - lb (ac_array a) m) by lia.
    destruct (array_remove_range_spec a m x H ltac:(lia)) as (a' & -> & Ea & Oa). cbn [mbind option_bind].
    eexists. split; [done |]. split; [done |]. split; [exact Ea | apply zlen_ne; lia].
  - unfold rc_elems in *. pose proof (ro_runs _ H) as Or. destruct (Z.eqb_spec (n_runs r) 0) as [Hz | Hz].
    { exists None. split; [done |]. unfold n_runs in Hz. apply Z.eqb_eq, zlen_zero in Hz. by rewrite Hz. }
    destruct (expand (rc_runs r)) as [|y t] eqn:Ey; [apply run_values_ne in Ey; [| done]; unfold n_runs in Hz; by rewrite Ey in Hz |]. rewrite <- Ey in *.
    assert (y ∈ expand (rc_runs r)) as Hy by (rewrite Ey; constructor).
    destruct (run_minimum_spec r y H Hy) as (lo & E1 & L1 & _). destruct (run_maximum_spec r y H Hy) as (hi & E2 & U1 & _).
    rewrite E1, E2. cbn [mbind option_bind].
    assert (forall z, z ∈ expand (rc_runs r) -> lo <= z <= hi) as Hb.
    { intros z Hz'. destruct (run_minimum_spec r z H Hz') as (lo' & E1' & _ & ?). destruct (run_maximum_spec r z H Hz') as (hi' & E2' & _ & ?).
      rewrite E1 in E1'. rewrite E2 in E2'. simplify_eq. done. }
    destruct ((m <=? lo) && (hi <=? x)) eqn:Eall.
    { exists None. split; [done |]. apply strict_ext; [by apply strict_filter | constructor |]. intros z. rewrite elem_of_minus, elem_of_seqZ.
      split; [| by intros ?%elem_of_nil]. intros [Hz' N]. specialize (Hb z Hz'). lia. }
    assert (minus (expand (rc_runs r)) (seqZ m (x + 1 - m)) <> []) as Hne.
    { destruct (Z.leb_spec m lo).
      - apply (elem_of_not_nil hi), elem_of_minus. split; [done |]. rewrite elem_of_seqZ. lia.
      - apply (elem_of_not_nil lo), elem_of_minus. split; [done |]. rewrite elem_of_seqZ. lia. }
    destruct (run_remove_range_spec r m x H Hm Hx) as (r' & -> & O & Er). cbn [mbind option_bind]. case_match.
    + eexists. split; [done |]. split; [done |]. split; [exact Er | done].
    + destruct (bitset_from_run_spec r' O) as (b & -> & Ob & Eb). cbn [mbind option_bind]. eexists. split; [done |]. split; [done |].
      split; [| done]. cbn [container_elems]. rewrite Eb. exact Er.
Qed.

Lemma not_range_spec c s e : container_ok c -> sized c -> 0 <= s <= e -> e <= 65536 ->
  container_result (container_not_range c s e) (xor_uint16 (container_elems c) (range s e)).
Proof.
  destruct c as [b | a | r]; cbn; intros H Hs H0 He.
  - apply bitset_negation_range_spec; [apply H | done | done].
  - apply array_negation_range_spec; [done | done | lia | done].
  - apply run_negation_range_spec; [done | lia | done].
Qed.

Lemma xor_full l : sorted16 l -> xor_uint16 l (range 0 65536) = minus (range 0 65536) l.
Proof.
  intros [Hs Hr]. apply strict_ext; [apply xor_strict; [done | apply range_strict] | apply strict_filter, range_strict |].
  intros x. rewrite elem_of_xor, elem_of_minus, elem_of_range by (done || apply range_strict).
  rewrite Forall_forall in Hr. specialize (Hr x). unfold in_u in Hr. revert Hr. abstract_members. lia.
Qed.

Lemma not_spec c : container_ok c -> sized c ->
  container_result (container_not c) (minus (range 0 65536) (container_elems c)).
Proof.
  intros H Hs. pose proof (container_sorted c H) as S. rewrite <- xor_full by done.
  destruct c as [b | a | r]; cbn [container_not container_elems container_ok sized] in *.
  - apply bitset_negation_range_spec; [apply H | lia | lia].
  - rewrite xor_full by done. apply as_bitset_result; [by apply array_negation_spec |].
    pose proof (zlen_minus_inter (range 0 65536) (ac_array a)) as Z. assert (zlen (range 0 65536) = 65536) by (unfold range; by rewrite zlen_seqZ).
    pose proof (zlen_inter_le (range 0 65536) (ac_array a) (range_strict _ _) (proj1 S)). unfold DEFAULT_MAX_SIZE in *. lia.
  - apply run_negation_range_spec; [done | lia | lia].
Qed.
