(* ===== verification/RoaringContainerSets.v ===== *)
(** * Roaring bitmaps: what the container layer promises

    The theorems the bitmap level relies on: the set operations, the queries,
    the updates and the lazy operations on containers of every type, and the
    places where a container the code can produce breaks them. *)

From stdpp Require Import base list list_numbers numbers option sorting.
From Stdlib Require Import ZArith Lia ZifyBool.
From S2P Require Import Prelude.
From S2P Require Import RoaringArrays.
From S2P Require Import RoaringInplace.
From S2P Require Import RoaringArrayContainer.
From S2P Require Import RoaringArrayFacts.
From S2P Require Import RoaringBitset.
From S2P Require Import RoaringBitsetFacts.
From S2P Require Import RoaringBitsetOps.
From S2P Require Import RoaringBitsetContainer.
From S2P Require Import RoaringRun.
From S2P Require Import RoaringRunFacts.
From S2P Require Import RoaringRunOps.
From S2P Require Import RoaringRunRange.
From S2P Require Import RoaringRunSets.
From S2P Require Import RoaringRunContainer.
From S2P Require Import RoaringConvert.
From S2P Require Import RoaringConvertFacts.
From S2P Require Import RoaringMixed.
From S2P Require Import RoaringMixedAndnot.
From S2P Require Import RoaringMixedInter.
From S2P Require Import RoaringMixedUnion.
From S2P Require Import RoaringMixedXor.
From S2P Require Import RoaringMixedRel.
From S2P Require Import RoaringMixedNeg.
From S2P Require Import RoaringContainer.

From S2P Require Import RoaringContainerFacts.
From S2P Require Import RoaringContainerOps.

Local Open Scope Z_scope.

Lemma demo_valid_array1 : valid (Array demo_array1).
Proof. constructor; [exact (proj1 demo_arrays_ok) | cbv; discriminate | discriminate]. Qed.

Lemma demo_valid_run2 : valid (Run demo_run2).
Proof. constructor; [exact (proj2 demo_runs_ok) | exact I |]. vm_compute. discriminate. Qed.

(** [op] returns a container with the values [f] gives for those of the
    arguments. *)
Definition implements (op : container_t -> container_t -> option container_t) (f : list Z -> list Z -> list Z)
    (c1 c2 : container_t) : Prop :=
  container_result (op c1 c2) (f (container_elems c1) (container_elems c2)).

(** A lazy operation and the repair of its result. *)
Definition repaired (op : container_t -> container_t -> option container_t) (c1 c2 : container_t) : option container_t :=
  c ← op c1 c2; container_repair_after_lazy c.

Definition count_upto (l : list Z) (x : Z) : Z := zlen (filter (fun y => y <= x) l).

Definition complement (l : list Z) : list Z := minus (range 0 65536) l.

Definition values_left (b : bitset_container_t) (m x : Z) : list Z := minus (bc_elems b) (range m (x + 1)).

(** C35: the set operations on containers.  For containers as a bitmap stores
    them, of any two of the three types, [container_and], [container_or],
    [container_xor], [container_andnot] and their in-place forms run without
    undefined behaviour and return a well-formed container, of a type that fits
    its cardinality, with the intersection, union, symmetric difference and
    difference of the values. *)
Theorem container_set_operations c1 c2 : valid c1 -> valid c2 ->
  implements container_and inter c1 c2 /\ implements container_iand inter c1 c2 /\
  implements container_or union_loop c1 c2 /\ implements container_ior union_loop c1 c2 /\
  implements container_xor xor_uint16 c1 c2 /\ implements container_ixor xor_uint16 c1 c2 /\
  implements container_andnot minus c1 c2 /\ implements container_iandnot minus c1 c2.
Proof. intros H1 H2. repeat split_and; by apply container_op. Qed.

Lemma container_set_operations_witness :
  exists c, container_andnot (Array demo_array1) (Run demo_run2) = Some c /\ container_elems c = [70; 4000; 65535].
Proof.
  destruct (container_set_operations _ _ demo_valid_array1 demo_valid_run2) as (_ & _ & _ & _ & _ & _ & (c & E & _ & _ & Ec) & _).
  exists c. split; [exact E |]. rewrite Ec. vm_compute. reflexivity.
Defined.

(** C36: the queries on containers.  [container_get_cardinality], [_contains],
    [_contains_range], [_rank], [_select], [_minimum] and [_maximum] answer
    about the sorted list of the values; [container_and_cardinality],
    [_intersect] and [_equals] about the two sets, and [container_is_subset]
    decides inclusion when the second container reaches as far as the first. *)
Theorem container_queries c : valid c ->
  let l := container_elems c in
  container_get_cardinality c = zlen l /\
  (forall x, in_u 16 x ->
     container_contains c x = Some (bool_decide (x ∈ l)) /\
     container_rank c x = Some (count_upto l x)) /\
  (forall s e, 0 <= s < e -> e <= 65536 ->
     exists v, container_contains_range c s e = Some v /\ (v = true <-> forall x, s <= x < e -> x ∈ l)) /\
  (forall start rank, 0 <= start <= rank -> rank < 2 ^ 31 ->
     container_select c start rank =
       if start + zlen l <=? rank then Some (inl (start + zlen l)) else v ← rd l (rank - start); Some (inr v)) /\
  (exists lo hi, container_minimum c = Some lo /\ container_maximum c = Some hi /\ lo ∈ l /\ hi ∈ l /\
     forall x, x ∈ l -> lo <= x <= hi) /\
  (forall d, valid d ->
     let m := container_elems d in
     container_and_cardinality c d = Some (zlen (inter l m)) /\
     container_intersect c d = Some (bool_decide (inter l m <> [])) /\
     container_equals c d = Some (bool_decide (l = m)) /\
     (bounded_by l m -> subset_result (container_is_subset c d) l m)).
Proof.
  intros V l. pose proof (v_ok _ V) as O. split; [by apply cardinality_spec |]. split.
  { intros x Hx. split; [by apply contains_spec |]. rewrite rank_spec by done. unfold lb, count_upto. do 2 f_equal. apply filter_ext_in. intros. lia. }
  split; [intros; by apply contains_range_spec |]. split; [intros; by apply select_spec |]. split; [by apply extremes_spec |].
  intros d Vd m. split; [by apply and_cardinality_spec |]. split; [by apply intersect_spec |].
  split; [by apply equals_spec | by apply is_subset_spec].
Qed.

Lemma container_queries_witness :
  container_rank (Array demo_array1) 70 = Some 4 /\ container_and_cardinality (Array demo_array1) (Run demo_run2) = Some 3.
Proof.
  destruct (container_queries _ demo_valid_array1) as (_ & Hr & _ & _ & _ & H2).
  destruct (H2 _ demo_valid_run2) as [Hc _]. split.
  - destruct (Hr 70 ltac:(split; lia)) as [_ ->]. vm_compute. reflexivity.
  - rewrite Hc. vm_compute. reflexivity.
Defined.

(** C37: the updates of containers.  [container_add], [container_remove],
    [container_not] and [container_not_range] return a container of the type
    its cardinality asks for; [container_add_range] and
    [container_remove_range] one with the right values; where the latter leaves
    nothing it returns [NULL], and only then. *)
Theorem container_updates c : valid c ->
  let l := container_elems c in
  (forall x, in_u 16 x ->
     container_result (container_add c x) (union_loop l [x]) /\ container_result (container_remove c x) (minus l [x])) /\
  container_result (container_not c) (complement l) /\
  (forall s e, 0 <= s <= e -> e <= 65536 -> container_result (container_not_range c s e) (xor_uint16 l (range s e))) /\
  (forall m x, 0 <= m <= x -> x <= 65535 ->
     set_result (container_add_range c m x) (union_loop l (range m (x + 1))) /\
     remove_result (container_remove_range c m x) (minus l (range m (x + 1)))).
Proof.
  intros [O S _] l. split; [| split; [by apply not_spec |]].
  { intros x Hx. split; [by apply add_spec | by apply remove_spec]. }
  split; [intros; by apply not_range_spec |]. intros m x Hm Hx. split; [by apply add_range_spec | by apply remove_range_spec].
Qed.

Lemma container_updates_witness :
  exists c, container_remove (Array demo_array1) 5 = Some c /\ container_elems c = [1; 9; 70; 4000; 65535].
Proof.
  destruct (container_updates _ demo_valid_array1) as (H & _). destruct (H 5 ltac:(split; lia)) as [_ (c & E & _ & _ & Ec)].
  exists c. split; [exact E |]. rewrite Ec. vm_compute. reflexivity.
Defined.

(** C38: lazy operations.  A lazy union or symmetric difference, which may
    leave the cardinality of a bitset unknown, followed by
    [container_repair_after_lazy] returns a container with the same values as
    the eager operation; the results of lazy operations, not repaired, may be
    the arguments of further lazy unions. *)
Theorem lazy_operations_equivalent c1 c2 : lazy_valid c1 -> valid c2 ->
  implements (repaired container_lazy_or) union_loop c1 c2 /\
  implements (repaired container_lazy_ior) union_loop c1 c2 /\
  implements (repaired container_lazy_xor) xor_uint16 c1 c2 /\
  implements (repaired container_lazy_ixor) xor_uint16 c1 c2 /\
  (exists c, container_lazy_ior c1 c2 = Some c /\ lazy_valid c).
Proof.
  intros H1 H2. pose proof (valid_lazy _ H2) as L2.
  split; [by apply repair_result, lazy_or_spec |]. split; [by apply repair_result, lazy_ior_spec |].
  split; [by apply repair_result, lazy_xor_spec |]. split; [by apply repair_result, lazy_ixor_spec |].
  destruct (lazy_ior_spec c1 c2 H1 L2) as (c & E & L & Ec). exists c. split; [done |]. constructor; [done |].
  rewrite Ec. destruct (container_elems c1) as [|x t] eqn:E1; [by destruct (lv_ne _ H1) |].
  apply (elem_of_not_nil x), elem_of_union_loop. left. constructor.
Qed.

Lemma lazy_operations_equivalent_witness :
  exists c, repaired container_lazy_xor (Array demo_array1) (Run demo_run2) = Some c /\
    container_get_cardinality c = 64.
Proof.
  destruct (lazy_operations_equivalent _ _ (valid_lazy _ demo_valid_array1) demo_valid_run2) as (_ & _ & (c & E & O & _ & Ec) & _).
  exists c. split; [exact E |]. rewrite cardinality_spec by exact O. rewrite Ec. vm_compute. reflexivity.
Defined.

(** A range removal that leaves 4096 values.  [container_remove_range]
    converts a bitset to an array below [DEFAULT_MAX_SIZE] values only, the
    other operations at [DEFAULT_MAX_SIZE] too; the bitset of 4096 values it
    leaves is equal, for [container_equals], to an array with the same values,
    but [container_is_subset] says that it is no subset of it. *)
Theorem remove_range_leaves_bitset b m x arr : bitset_ok b -> 0 <= m <= x -> x <= 65535 ->
  array_ok arr -> ac_array arr = values_left b m x -> zlen (ac_array arr) = DEFAULT_MAX_SIZE ->
  exists b', container_remove_range (Bitset b) m x = Some (Some (Bitset b')) /\ bitset_ok b' /\
    container_equals (Bitset b') (Array arr) = Some true /\ container_is_subset (Bitset b') (Array arr) = Some false.
Proof.
  intros H Hm Hx Ha E Z. cbn [container_remove_range]. pose proof H as [[L W] Hc].
  rewrite bitset_lenrange_cardinality_spec by (done || lia). cbn [mbind option_bind].
  fold (bc_elems b). replace (m + (x - m) + 1) with (x + 1) by lia. rewrite bc_card_elems by done. cbv zeta.
  rewrite <- zlen_minus_range by apply bc_elems_strict. unfold values_left, range in E. rewrite <- E, Z. cbn [Z.eqb DEFAULT_MAX_SIZE].
  destruct (reset_range_result (bc_array b) m (x + 1)) as (ws & -> & L1 & W1 & E1); [done | lia.. |]. cbn [mbind option_bind].
  fold (bc_elems b) in E1. rewrite <- E in E1. rewrite Z.ltb_irrefl.
  assert (bitset_ok (mk_bitset DEFAULT_MAX_SIZE ws)) as Ob by (rewrite <- Z; apply words_bitset_ok; [done | lia | done]).
  eexists. split; [done |]. split; [done |]. split; [| done]. cbn [container_equals].
  rewrite array_equal_bitset_spec by (by apply bitset_ok_lazy). f_equal. apply bool_decide_eq_true. by rewrite <- E1.
Qed.

(** The values below 4160. *)
Definition demo_bitset : bitset_container_t := mk_bitset 4160 (replicate 65 ones64 ++ replicate 959 0).

Lemma demo_bitset_elems : bc_elems demo_bitset = range 0 4160.
Proof.
  apply strict_ext; [apply elems_strict | apply range_strict |]. intros x. unfold bc_elems, demo_bitset. cbn [bc_array].
  rewrite elem_of_elems, elem_of_range. unfold zlen. rewrite length_app, !length_replicate.
  destruct (decide (0 <= x < 65536)) as [Hx | Hx]; [| lia]. pose proof (Z.mod_pos_bound x 64 ltac:(lia)).
  destruct (decide (x < 4160)) as [H1 | H1].
  - rewrite (bit_rd _ _ ones64); [rewrite testbit_ones64 by lia; lia |]. unfold rd. rewrite (proj2 (Z.leb_le _ _)) by div64.
    apply lookup_app_l_Some, lookup_replicate. split; [done | div64].
  - rewrite (bit_rd _ _ 0); [rewrite Z.testbit_0_l; split; [intros [_ ?]; done | lia] |]. unfold rd. rewrite (proj2 (Z.leb_le _ _)) by div64.
    rewrite lookup_app_r by (rewrite length_replicate; div64). rewrite length_replicate. apply lookup_replicate. split; [done | div64].
Qed.

Lemma bitset_ok_intro b : zlen (bc_array b) = 1024 -> words_ok (bc_array b) -> bc_cardinality b = zlen (bc_elems b) -> bitset_ok b.
Proof. intros L W E. split; [by split | exact E]. Qed.

Lemma demo_bitset_ok : bitset_ok demo_bitset.
Proof.
  apply bitset_ok_intro.
  - unfold demo_bitset, zlen. cbn [bc_array]. by rewrite length_app, !length_replicate.
  - unfold demo_bitset. cbn [bc_array]. apply Forall_app. split; apply Forall_replicate; unfold in_u, ones64; lia.
  - rewrite demo_bitset_elems. unfold range. by rewrite zlen_seqZ.
Qed.

Lemma range_array_ok s e : 0 <= s <= e -> e <= 65536 -> array_ok (mk_array (e - s) (range s e)).
Proof.
  intros Hs He. constructor; cbn [ac_array ac_capacity].
  - apply range_strict.
  - apply Forall_forall. intros x Hx%elem_of_range. unfold in_u. lia.
  - unfold range. rewrite zlen_seqZ; lia.
Qed.

Lemma remove_range_leaves_bitset_witness :
  exists b', container_remove_range (Bitset demo_bitset) 4096 4159 = Some (Some (Bitset b')) /\
    container_is_subset (Bitset b') (Array (mk_array 4096 (range 0 4096))) = Some false.
Proof.
  destruct (remove_range_leaves_bitset demo_bitset 4096 4159 (mk_array 4096 (range 0 4096)) demo_bitset_ok)
    as (b' & E1 & _ & _ & E2); [lia | lia | apply (range_array_ok 0 4096); lia | | by vm_compute | by exists b'].
  unfold values_left. rewrite demo_bitset_elems. apply strict_ext; [apply range_strict | apply strict_filter, range_strict |].
  intros x. cbn [ac_array]. rewrite elem_of_minus, !elem_of_range. lia.
Defined.
