(* ===== verification/RoaringShared.v ===== *)
(** * Roaring bitmaps: shared containers and the key array

    The reference-counted containers of [containers.h] and [containers.c], and
    [roaring_array.c]: the sorted array of keys with a container for each.

    A [void*] with its type code is a [typed] pointer: [Plain c] is a container
    that only this pointer refers to, [Counted l] points to the shared
    container [l] of the [heap].  A type code that does not fit what the
    pointer points to makes every use of the pair undefined.  The three
    parallel arrays of a [roaring_array_t] are one list of slots of length
    [size]; the memory behind it counts in [ra_allocation_size] only.  The
    memory of plain containers is not tracked: freeing one has no effect. *)

From stdpp Require Import base list list_numbers numbers option sorting gmap.
From Stdlib Require Import ZArith Lia.
From S2P Require Import Prelude.
From S2P Require Import RoaringArrays.
From S2P Require Import RoaringArrayContainer.
From S2P Require Import RoaringBitset.
From S2P Require Import RoaringRun.
From S2P Require Import RoaringConvert.
From S2P Require Import RoaringContainer.

Local Open Scope Z_scope.

Definition SHARED_CONTAINER_TYPE_CODE : Z := 4.

(** [container] with its [typecode], and the [counter]. *)
Record shared_container_t := mk_shared { sc_container : container_t; sc_counter : Z }.

Abbreviation heap := (gmap positive shared_container_t).

Inductive pointer :=
| Plain (c : container_t)
| Counted (l : positive).

(** A [void*] and its [uint8_t typecode]. *)
Definition typed : Type := pointer * Z.

Definition plain (c : container_t) : typed := (Plain c, type_code c).
Definition shared (l : positive) : typed := (Counted l, SHARED_CONTAINER_TYPE_CODE).

(** ** Reference counts *)

Definition container_unwrap_shared (h : heap) (t : typed) : option container_t :=
  let '(candidate_shared_container, type) := t in
  if type =? SHARED_CONTAINER_TYPE_CODE then
    match candidate_shared_container with
    | Counted l => sc ← h !! l; Some (sc_container sc)
    | Plain _ => None
    end
  else
    match candidate_shared_container with
    | Counted _ => None
    | Plain c => if type =? type_code c then Some c else None
    end.

Definition get_container_type (h : heap) (t : typed) : option Z :=
  let '(container, type) := t in
  if type =? SHARED_CONTAINER_TYPE_CODE then
    match container with
    | Counted l => sc ← h !! l; Some (type_code (sc_container sc))
    | Plain _ => None
    end
  else Some type.

(** The new shared container has two owners: the copy and the original, which
    the caller replaces by the pointer returned. *)
Definition get_copy_of_container (h : heap) (t : typed) (copy_on_write : bool) : option (typed * heap) :=
  let '(container, typecode) := t in
  if copy_on_write then
    if typecode =? SHARED_CONTAINER_TYPE_CODE then
      match container with
      | Counted l =>
        sc ← h !! l;
        Some (t, <[l := mk_shared (sc_container sc) (u32 (sc_counter sc + 1))]> h)
      | Plain _ => None
      end
    else
      c ← container_unwrap_shared h t;
      let l := fresh (dom h) in
      Some (shared l, <[l := mk_shared c 2]> h)
  else
    actualcontainer ← container_unwrap_shared h t;
    c ← container_clone actualcontainer;
    Some (plain c, h).

Definition shared_container_extract_copy (h : heap) (l : positive) : option (container_t * heap) :=
  container ← h !! l;
  if sc_counter container <=? 0 then None
  else
    let counter := sc_counter container - 1 in
    if counter =? 0 then Some (sc_container container, delete l h)
    else
      answer ← container_clone (sc_container container);
      Some (answer, <[l := mk_shared (sc_container container) counter]> h).

Definition shared_container_free (h : heap) (l : positive) : option heap :=
  container ← h !! l;
  if sc_counter container <=? 0 then None
  else
    let counter := sc_counter container - 1 in
    if counter =? 0 then Some (delete l h)
    else Some (<[l := mk_shared (sc_container container) counter]> h).

Definition container_free (h : heap) (t : typed) : option heap :=
  let '(container, typecode) := t in
  if typecode =? SHARED_CONTAINER_TYPE_CODE then
    match container with
    | Counted l => shared_container_free h l
    | Plain _ => None
    end
  else
    match container with
    | Counted _ => None
    | Plain c => if typecode =? type_code c then Some h else None
    end.

Definition get_writable_copy_if_shared (h : heap) (t : typed) : option (container_t * heap) :=
  let '(candidate_shared_container, type) := t in
  if type =? SHARED_CONTAINER_TYPE_CODE then
    match candidate_shared_container with
    | Counted l => shared_container_extract_copy h l
    | Plain _ => None
    end
  else
    match candidate_shared_container with
    | Counted _ => None
    | Plain c => if type =? type_code c then Some (c, h) else None
    end.

(** ** The key array *)

Record slot := mk_slot { s_key : Z; s_typed : typed }.

Record roaring_array_t := mk_ra {
  ra_slots : list slot;
  ra_allocation_size : Z;
  ra_flags : Z;
}.

Definition MAX_CONTAINERS : Z := 65536.
Definition ROARING_FLAG_COW : Z := 1.
Definition ROARING_FLAG_FROZEN : Z := 2.

Definition ra_size (ra : roaring_array_t) : Z := zlen (ra_slots ra).
Definition ra_keys (ra : roaring_array_t) : list Z := s_key <$> ra_slots ra.

(** [ra->size] slots, which have to be inside the allocation. *)
Definition set_slots (ra : roaring_array_t) (slots : list slot) : option roaring_array_t :=
  if zlen slots <=? ra_allocation_size ra then Some (mk_ra slots (ra_allocation_size ra) (ra_flags ra)) else None.

Definition ra_init : roaring_array_t := mk_ra [] 0 0.

(** The slots are copied to the new memory: [size] of them have to fit. *)
Definition realloc_array (ra : roaring_array_t) (new_capacity : Z) : option roaring_array_t :=
  if ra_size ra <=? new_capacity then Some (mk_ra (ra_slots ra) new_capacity (ra_flags ra)) else None.

(** [None] inside: the function returns [false]. *)
Definition ra_init_with_capacity (cap : Z) : option roaring_array_t :=
  if INT32_MAX <? cap then None
  else if 0 <? cap then Some (mk_ra [] cap 0)
  else Some ra_init.

Definition ra_shrink_to_fit (ra : roaring_array_t) : option (Z * roaring_array_t) :=
  let savings := (ra_allocation_size ra - ra_size ra) * (2 + 8 + 1) in
  ra ← realloc_array ra (ra_size ra);
  Some (savings, ra).

Definition extend_array (ra : roaring_array_t) (k : Z) : option roaring_array_t :=
  let desired_size := ra_size ra + k in
  if MAX_CONTAINERS <? desired_size then None
  else if ra_allocation_size ra <? desired_size then
    let new_capacity :=
      if ra_size ra <? 1024 then 2 * desired_size else Z.quot (5 * desired_size) 4 in
    let new_capacity := if MAX_CONTAINERS <? new_capacity then MAX_CONTAINERS else new_capacity in
    realloc_array ra new_capacity
  else Some ra.

Definition ra_get_index (ra : roaring_array_t) (x : Z) : option Z :=
  if ra_size ra =? 0 then Some (ra_size ra - 1)
  else
    last_key ← rd (ra_keys ra) (ra_size ra - 1);
    if last_key =? x then Some (ra_size ra - 1)
    else binarySearch (ra_keys ra) x.

Definition ra_get_container_at_index (ra : roaring_array_t) (i : Z) : option typed :=
  s ← rd (ra_slots ra) i; Some (s_typed s).

Definition ra_get_key_at_index (ra : roaring_array_t) (i : Z) : option Z :=
  s ← rd (ra_slots ra) i; Some (s_key s).

Definition ra_replace_key_and_container_at_index (ra : roaring_array_t) (i key : Z) (t : typed) :
    option roaring_array_t :=
  if (0 <=? i) && (i <? ra_size ra)
  then Some (mk_ra (<[Z.to_nat i := mk_slot key t]> (ra_slots ra)) (ra_allocation_size ra) (ra_flags ra))
  else None.

Definition ra_set_container_at_index (ra : roaring_array_t) (i : Z) (t : typed) : option roaring_array_t :=
  key ← ra_get_key_at_index ra i;
  ra_replace_key_and_container_at_index ra i key t.

Definition ra_unshare_container_at_index (h : heap) (ra : roaring_array_t) (i : Z) :
    option (roaring_array_t * heap) :=
  t ← ra_get_container_at_index ra i;
  '(c, h) ← get_writable_copy_if_shared h t;
  ra ← ra_set_container_at_index ra i (plain c);
  Some (ra, h).

Definition ra_advance_until (ra : roaring_array_t) (x pos : Z) : option Z :=
  advanceUntil (ra_keys ra) pos x.

Definition ra_get_container (ra : roaring_array_t) (x : Z) : option (option typed) :=
  i ← binarySearch (ra_keys ra) x;
  if i <? 0 then Some None
  else t ← ra_get_container_at_index ra i; Some (Some t).

(** A copy, if it is shared, of the container with key [x]; the array keeps the
    pointer it had. *)
Definition ra_get_writable_container_at_index (h : heap) (ra : roaring_array_t) (i : Z) :
    option (container_t * heap) :=
  t ← ra_get_container_at_index ra i;
  get_writable_copy_if_shared h t.

Definition ra_get_writable_container (h : heap) (ra : roaring_array_t) (x : Z) :
    option (option container_t * heap) :=
  i ← binarySearch (ra_keys ra) x;
  if i <? 0 then Some (None, h)
  else '(c, h) ← ra_get_writable_container_at_index h ra i; Some (Some c, h).

(** ** Appending and moving slots *)

Definition ra_append (ra : roaring_array_t) (key : Z) (t : typed) : option roaring_array_t :=
  ra ← extend_array ra 1;
  set_slots ra (ra_slots ra ++ [mk_slot key t]).

(** The body of the copying loops: slot [i] of [sa] goes to the end of [ra].
    Without [copy_on_write] the clone of a shared container gets the type code
    of a shared container. *)
Definition append_copy (h : heap) (ra sa : roaring_array_t) (i : Z) (copy_on_write : bool) :
    option (roaring_array_t * roaring_array_t * heap) :=
  s ← rd (ra_slots sa) i;
  if copy_on_write then
    '(t, h) ← get_copy_of_container h (s_typed s) copy_on_write;
    sa ← ra_set_container_at_index sa i t;
    ra ← set_slots ra (ra_slots ra ++ [mk_slot (s_key s) t]);
    Some (ra, sa, h)
  else
    actualcontainer ← container_unwrap_shared h (s_typed s);
    c ← container_clone actualcontainer;
    ra ← set_slots ra (ra_slots ra ++ [mk_slot (s_key s) (Plain c, snd (s_typed s))]);
    Some (ra, sa, h).

Definition ra_append_copy (h : heap) (ra sa : roaring_array_t) (index : Z) (copy_on_write : bool) :
    option (roaring_array_t * roaring_array_t * heap) :=
  ra ← extend_array ra 1;
  append_copy h ra sa index copy_on_write.

Fixpoint append_copies (n : nat) (h : heap) (ra sa : roaring_array_t) (i : Z) (copy_on_write : bool) :
    option (roaring_array_t * roaring_array_t * heap) :=
  match n with
  | O => Some (ra, sa, h)
  | S n =>
    '(ra, sa, h) ← append_copy h ra sa i copy_on_write;
    append_copies n h ra sa (i + 1) copy_on_write
  end.

Definition ra_append_copy_range (h : heap) (ra sa : roaring_array_t) (start_index end_index : Z)
    (copy_on_write : bool) : option (roaring_array_t * roaring_array_t * heap) :=
  ra ← extend_array ra (end_index - start_index);
  append_copies (Z.to_nat (end_index - start_index)) h ra sa start_index copy_on_write.

(** [ra_append_range] has the same body. *)
Definition ra_append_range := ra_append_copy_range.

Fixpoint append_until (fuel : nat) (h : heap) (ra sa : roaring_array_t) (i stopping_key : Z)
    (copy_on_write : bool) : option (roaring_array_t * roaring_array_t * heap) :=
  match fuel with
  | O => None
  | S fuel =>
    if i <? ra_size sa then
      key ← ra_get_key_at_index sa i;
      if stopping_key <=? key then Some (ra, sa, h)
      else
        '(ra, sa, h) ← ra_append_copy h ra sa i copy_on_write;
        append_until fuel h ra sa (i + 1) stopping_key copy_on_write
    else Some (ra, sa, h)
  end.

Definition ra_append_copies_until (h : heap) (ra sa : roaring_array_t) (stopping_key : Z)
    (copy_on_write : bool) : option (roaring_array_t * roaring_array_t * heap) :=
  append_until (S (length (ra_slots sa))) h ra sa 0 stopping_key copy_on_write.

Definition ra_append_copies_after (h : heap) (ra sa : roaring_array_t) (before_start : Z)
    (copy_on_write : bool) : option (roaring_array_t * roaring_array_t * heap) :=
  start_location ← ra_get_index sa before_start;
  let start_location :=
    if 0 <=? start_location then start_location + 1 else - start_location - 1 in
  ra_append_copy_range h ra sa start_location (ra_size sa) copy_on_write.

Definition ra_append_move_range (ra sa : roaring_array_t) (start_index end_index : Z) :
    option roaring_array_t :=
  ra ← extend_array ra (end_index - start_index);
  let moved := take (Z.to_nat (end_index - start_index)) (drop (Z.to_nat start_index) (ra_slots sa)) in
  if zlen moved =? end_index - start_index then set_slots ra (ra_slots ra ++ moved) else None.

Definition ra_insert_new_key_value_at (ra : roaring_array_t) (i key : Z) (t : typed) :
    option roaring_array_t :=
  ra ← extend_array ra 1;
  if (0 <=? i) && (i <=? ra_size ra)
  then set_slots ra (take (Z.to_nat i) (ra_slots ra) ++ mk_slot key t :: drop (Z.to_nat i) (ra_slots ra))
  else None.

Definition ra_downsize (ra : roaring_array_t) (new_length : Z) : option roaring_array_t :=
  if new_length <=? ra_size ra
  then Some (mk_ra (take (Z.to_nat new_length) (ra_slots ra)) (ra_allocation_size ra) (ra_flags ra))
  else None.

Definition ra_remove_at_index (ra : roaring_array_t) (i : Z) : option roaring_array_t :=
  if (0 <=? i) && (i <? ra_size ra)
  then Some (mk_ra (take (Z.to_nat i) (ra_slots ra) ++ drop (Z.to_nat (i + 1)) (ra_slots ra))
               (ra_allocation_size ra) (ra_flags ra))
  else None.

Definition ra_remove_at_index_and_free (h : heap) (ra : roaring_array_t) (i : Z) :
    option (roaring_array_t * heap) :=
  t ← ra_get_container_at_index ra i;
  h ← container_free h t;
  ra ← ra_remove_at_index ra i;
  Some (ra, h).

(** Slots [begin] to [end] over those from [new_begin] on. *)
Definition ra_copy_range (ra : roaring_array_t) (begin_ end_ new_begin : Z) : option roaring_array_t :=
  if (0 <=? new_begin) && (new_begin <? begin_) && (begin_ <=? end_) && (end_ <=? ra_size ra) then
    let moved := take (Z.to_nat (end_ - begin_)) (drop (Z.to_nat begin_) (ra_slots ra)) in
    Some (mk_ra (take (Z.to_nat new_begin) (ra_slots ra) ++ moved ++
                 drop (Z.to_nat (new_begin + (end_ - begin_))) (ra_slots ra))
            (ra_allocation_size ra) (ra_flags ra))
  else None.

(** A slot with what happens to be in memory: no type code is 0. *)
Definition junk_slot : slot := mk_slot 0 (Plain (Array array_container_create), 0).

(** The last [count] slots are moved by [distance]; on the way up they leave
    slots behind that the caller replaces. *)
Definition ra_shift_tail (ra : roaring_array_t) (count distance : Z) : option roaring_array_t :=
  ra ← (if 0 <? distance then extend_array ra distance else Some ra);
  let srcpos := ra_size ra - count in
  let dstpos := srcpos + distance in
  if (0 <=? count) && (0 <=? srcpos) && (0 <=? dstpos) then
    set_slots ra (take (Z.to_nat dstpos) (take (Z.to_nat srcpos) (ra_slots ra) ++ replicate (Z.to_nat distance) junk_slot)
                    ++ drop (Z.to_nat srcpos) (ra_slots ra))
  else None.

Fixpoint free_slots (h : heap) (slots : list slot) : option heap :=
  match slots with
  | [] => Some h
  | s :: slots => h ← container_free h (s_typed s); free_slots h slots
  end.

(** Everything skipped over is freed. *)
Fixpoint advance_freeing (fuel : nat) (h : heap) (ra : roaring_array_t) (x pos : Z) : option (Z * heap) :=
  match fuel with
  | O => None
  | S fuel =>
    if pos <? ra_size ra then
      s ← rd (ra_slots ra) pos;
      if s_key s <? x then h ← container_free h (s_typed s); advance_freeing fuel h ra x (pos + 1)
      else Some (pos, h)
    else Some (pos, h)
  end.

Definition ra_advance_until_freeing (h : heap) (ra : roaring_array_t) (x pos : Z) : option (Z * heap) :=
  advance_freeing (S (length (ra_slots ra))) h ra x pos.

Definition ra_clear_containers (h : heap) (ra : roaring_array_t) : option heap :=
  free_slots h (ra_slots ra).

Definition ra_clear_without_containers (ra : roaring_array_t) : roaring_array_t :=
  mk_ra [] 0 (ra_flags ra).

Definition ra_clear (h : heap) (ra : roaring_array_t) : option (roaring_array_t * heap) :=
  h ← ra_clear_containers h ra;
  Some (ra_clear_without_containers ra, h).

Definition ra_reset (h : heap) (ra : roaring_array_t) : option (roaring_array_t * heap) :=
  h ← ra_clear_containers h ra;
  '(_, ra) ← ra_shrink_to_fit (mk_ra [] (ra_allocation_size ra) (ra_flags ra));
  Some (ra, h).

(** Every container of [source] shared, or cloned with the type code it has in
    [source]. *)
Fixpoint share_slots (h : heap) (slots : list slot) : option (list slot * heap) :=
  match slots with
  | [] => Some ([], h)
  | s :: slots =>
    '(t, h) ← get_copy_of_container h (s_typed s) true;
    '(slots, h) ← share_slots h slots;
    Some (mk_slot (s_key s) t :: slots, h)
  end.

Fixpoint clone_slots (h : heap) (slots : list slot) : option (list slot) :=
  match slots with
  | [] => Some []
  | s :: slots =>
    actualcontainer ← container_unwrap_shared h (s_typed s);
    c ← container_clone actualcontainer;
    slots ← clone_slots h slots;
    Some (mk_slot (s_key s) (Plain c, snd (s_typed s)) :: slots)
  end.

(** The slots of [source] into the memory of [dest]; with [copy_on_write] both
    hold the same pointers. *)
Definition copy_slots (h : heap) (source dest : roaring_array_t) (copy_on_write : bool) :
    option (roaring_array_t * roaring_array_t * heap) :=
  if copy_on_write then
    '(slots, h) ← share_slots h (ra_slots source);
    dest ← set_slots dest slots;
    Some (mk_ra slots (ra_allocation_size source) (ra_flags source), dest, h)
  else
    slots ← clone_slots h (ra_slots source);
    dest ← set_slots dest slots;
    Some (source, dest, h).

(** Returns [source] and the copy. *)
Definition ra_copy (h : heap) (source : roaring_array_t) (copy_on_write : bool) :
    option (roaring_array_t * roaring_array_t * heap) :=
  dest ← ra_init_with_capacity (ra_size source);
  copy_slots h source dest copy_on_write.

Definition ra_overwrite (h : heap) (source dest : roaring_array_t) (copy_on_write : bool) :
    option (roaring_array_t * roaring_array_t * heap) :=
  h ← ra_clear_containers h dest;
  dest ← (if ra_allocation_size dest <? ra_size source then realloc_array dest (ra_size source) else Some dest);
  copy_slots h source dest copy_on_write.
