(* ===== verification/RoaringSharedFacts.v ===== *)
(** * Roaring bitmaps: reference counts and the key array, facts

    [counted h L]: the counters of the heap are the numbers of references in
    [L], and nothing else is alive.  Every operation on a typed pointer is
    specified for the references of the pointer and a rest [L] that belongs to
    anybody else, whose containers it leaves as they are ([same_on]). *)

From stdpp Require Import base list list_numbers numbers option sorting gmap.
From Stdlib Require Import ZArith Lia ZifyBool.
From S2P Require Import Prelude.
From S2P Require Import RoaringArrays.
From S2P Require Import RoaringArrayContainer.
From S2P Require Import RoaringArrayFacts.
From S2P Require Import RoaringBitset.
From S2P Require Import RoaringBitsetFacts.
From S2P Require Import RoaringBitsetOps.
From S2P Require Import RoaringBitsetContainer.
From S2P Require Import RoaringRun.
From S2P Require Import RoaringRunFacts.
From S2P Require Import RoaringRunSets.
From S2P Require Import RoaringRunContainer.
From S2P Require Import RoaringConvert.
From S2P Require Import RoaringConvertFacts.
From S2P Require Import RoaringMixedAndnot.
From S2P Require Import RoaringMixedUnion.
From S2P Require Import RoaringMixedNeg.
From S2P Require Import RoaringContainer.
From S2P Require Import RoaringContainerFacts.
From S2P Require Import RoaringContainerOps.
From S2P Require Import RoaringShared.

Local Open Scope Z_scope.

(** ** Results *)

(** [o] is defined and its value satisfies [Q]. *)
Definition post {A} (o : option A) (Q : A -> Prop) : Prop := exists a, o = Some a /\ Q a.

Lemma post_ret {A} (a : A) (Q : A -> Prop) : Q a -> post (Some a) Q.
Proof. intros H. by exists a. Qed.

Lemma post_bind {A B} (o : option A) (k : A -> option B) (P : A -> Prop) (Q : B -> Prop) :
  post o P -> (forall a, P a -> post (k a) Q) -> post (o ≫= k) Q.
Proof. intros (a & -> & Ha) Hk. by apply Hk. Qed.

Lemma post_mono {A} (o : option A) (P Q : A -> Prop) : post o P -> (forall a, P a -> Q a) -> post o Q.
Proof. intros (a & -> & Ha) HPQ. exists a. auto. Qed.

(** ** References *)

Definition refs (t : typed) : list positive := match fst t with Plain _ => [] | Counted l => [l] end.
Definition slot_refs (slots : list slot) : list positive := slots ≫= fun s => refs (s_typed s).

Definition occ (l : positive) (L : list positive) : Z := zlen (filter (l =.) L).

Lemma occ_app l L1 L2 : occ l (L1 ++ L2) = occ l L1 + occ l L2.
Proof. unfold occ. by rewrite filter_app, zlen_app. Qed.

Lemma occ_cons l k L : occ l (k :: L) = (if decide (l = k) then 1 else 0) + occ l L.
Proof. unfold occ. rewrite filter_cons. case_decide; [rewrite zlen_cons |]; lia. Qed.

Lemma occ_nil l : occ l [] = 0.
Proof. done. Qed.

Lemma occ_nonneg l L : 0 <= occ l L.
Proof. apply zlen_nonneg. Qed.

Lemma occ_elem l L : l ∈ L <-> 0 < occ l L.
Proof.
  induction L as [|k L IH]; [rewrite elem_of_nil, occ_nil; lia |]. rewrite elem_of_cons, occ_cons, IH.
  pose proof (occ_nonneg l L). case_decide; intuition lia.
Qed.

Lemma occ_le l L : occ l L <= zlen L.
Proof. unfold occ, zlen. pose proof (length_filter (l =.) L). lia. Qed.

#[export] Instance occ_perm l : Proper ((≡ₚ) ==> (=)) (occ l).
Proof. intros L1 L2 H. unfold occ, zlen. by rewrite H. Qed.

Definition counted (h : heap) (L : list positive) : Prop :=
  forall l, match h !! l with
            | Some sc => sc_counter sc = occ l L /\ 0 < occ l L
            | None => occ l L = 0
            end.

#[export] Instance counted_perm h : Proper ((≡ₚ) ==> iff) (counted h).
Proof.
  intros L1 L2 H. split; intros C l; specialize (C l); [rewrite <- (occ_perm l _ _ H) | rewrite (occ_perm l _ _ H)]; exact C.
Qed.

(** The containers behind the references of [L] are the same in both heaps. *)
Definition same_on (L : list positive) (h h' : heap) : Prop :=
  forall l, l ∈ L -> sc_container <$> h' !! l = sc_container <$> h !! l.

Lemma same_on_refl L h : same_on L h h.
Proof. by intros l _. Qed.

Lemma same_on_trans L h1 h2 h3 : same_on L h1 h2 -> same_on L h2 h3 -> same_on L h1 h3.
Proof. intros H12 H23 l Hl. rewrite H23 by done. by apply H12. Qed.

Lemma same_on_sub L L' h h' : L' ⊆ L -> same_on L h h' -> same_on L' h h'.
Proof. intros Hs H l Hl. by apply H, Hs. Qed.

#[export] Instance same_on_perm : Proper ((≡ₚ) ==> (=) ==> (=) ==> iff) same_on.
Proof. intros L1 L2 H ? ? -> ? ? ->. unfold same_on. by setoid_rewrite H. Qed.

Lemma counted_lookup h L l : counted h L -> l ∈ L -> exists sc, h !! l = Some sc /\ sc_counter sc = occ l L /\ 0 < occ l L.
Proof. intros H Hl%occ_elem. specialize (H l). destruct (h !! l) as [sc |]; [by exists sc | lia]. Qed.

Lemma counted_absent h L l : counted h L -> h !! l = None -> l ∉ L.
Proof. intros H E Hl. destruct (counted_lookup _ _ _ H Hl) as (sc & E' & _). congruence. Qed.

(** ** Typed pointers *)

(** [t] points, directly or through the heap, to the container [c]. *)
Definition points (h : heap) (t : typed) (c : container_t) : Prop :=
  match fst t with
  | Plain c' => c' = c /\ snd t = type_code c
  | Counted l => snd t = SHARED_CONTAINER_TYPE_CODE /\ exists n, h !! l = Some (mk_shared c n)
  end.

Lemma type_code_not_shared c : (type_code c =? SHARED_CONTAINER_TYPE_CODE) = false.
Proof. by destruct c. Qed.

Lemma points_plain h c : points h (plain c) c.
Proof. done. Qed.

Lemma unwrap_points h t c : container_unwrap_shared h t = Some c <-> points h t c.
Proof.
  destruct t as [[c' | l] ty]; unfold points; cbn [fst snd container_unwrap_shared].
  - split.
    + case_match eqn:E; [done |]. case_match eqn:E2; [| done]. intros [= ->]. split; [done | lia].
    + intros [-> ->]. by rewrite type_code_not_shared, Z.eqb_refl.
  - split.
    + case_match eqn:E; [| done]. intros ([c0 n] & Eh & [= <-])%bind_Some. split; [lia | by exists n].
    + intros (-> & n & ->). reflexivity.
Qed.

Lemma points_same L h h' t c : same_on L h h' -> refs t ⊆ L -> points h t c -> points h' t c.
Proof.
  destruct t as [[c' | l] ty]; unfold points, refs; cbn; [done |]. intros Hs Hr (-> & n & E). split; [done |].
  specialize (Hs l ltac:(apply Hr; constructor)). rewrite E in Hs. cbn in Hs. destruct (h' !! l) as [[c0 n'] |]; [| done].
  cbn in Hs. exists n'. congruence.
Qed.

Lemma points_inj h t c1 c2 : points h t c1 -> points h t c2 -> c1 = c2.
Proof. rewrite <- !unwrap_points. congruence. Qed.

Lemma container_type_points h t c : points h t c -> get_container_type h t = Some (type_code c).
Proof.
  destruct t as [[c' | l] ty]; unfold points; cbn; [intros [-> ->]; by rewrite type_code_not_shared |].
  intros (-> & n & E). by rewrite Z.eqb_refl, E.
Qed.

(** ** Changes of the counters *)

Lemma counted_incr h L l c n : counted h L -> h !! l = Some (mk_shared c n) ->
  counted (<[l := mk_shared c (n + 1)]> h) (l :: L) /\ same_on L h (<[l := mk_shared c (n + 1)]> h).
Proof.
  intros H E. pose proof (H l) as Hl. rewrite E in Hl. cbn in Hl. split.
  - intros k. rewrite occ_cons. destruct (decide (k = l)) as [-> | Hk].
    + rewrite lookup_insert_eq. cbn. lia.
    + rewrite lookup_insert_ne by done. specialize (H k). destruct (h !! k); [| lia]. by rewrite Z.add_0_l.
  - intros k _. destruct (decide (k = l)) as [-> | Hk]; [by rewrite lookup_insert_eq, E | by rewrite lookup_insert_ne].
Qed.

Lemma counted_new h L l c : counted h L -> h !! l = None ->
  counted (<[l := mk_shared c 2]> h) (l :: l :: L) /\ same_on L h (<[l := mk_shared c 2]> h).
Proof.
  intros H E. pose proof (H l) as Hl. rewrite E in Hl. split.
  - intros k. rewrite !occ_cons. destruct (decide (k = l)) as [-> | Hk].
    + rewrite lookup_insert_eq. cbn. lia.
    + rewrite lookup_insert_ne by done. specialize (H k). destruct (h !! k); [| lia]. by rewrite !Z.add_0_l.
  - intros k Hk. rewrite lookup_insert_ne; [done |]. intros ->. by apply (counted_absent _ _ _ H E).
Qed.

Lemma counted_decr h L l c n : counted h (l :: L) -> h !! l = Some (mk_shared c n) -> n - 1 <> 0 ->
  counted (<[l := mk_shared c (n - 1)]> h) L /\ same_on L h (<[l := mk_shared c (n - 1)]> h).
Proof.
  intros H E Hn. pose proof (H l) as Hl. rewrite E, occ_cons, decide_True in Hl by done. cbn in Hl. split.
  - intros k. destruct (decide (k = l)) as [-> | Hk].
    + rewrite lookup_insert_eq. cbn. pose proof (occ_nonneg l L). lia.
    + rewrite lookup_insert_ne by done. specialize (H k). rewrite occ_cons, decide_False in H by done.
      destruct (h !! k); by rewrite Z.add_0_l in H.
  - intros k _. destruct (decide (k = l)) as [-> | Hk]; [by rewrite lookup_insert_eq, E | by rewrite lookup_insert_ne].
Qed.

Lemma counted_last h L l c n : counted h (l :: L) -> h !! l = Some (mk_shared c n) -> n - 1 = 0 ->
  counted (delete l h) L /\ same_on L h (delete l h).
Proof.
  intros H E Hn. pose proof (H l) as Hl. rewrite E, occ_cons, decide_True in Hl by done. cbn in Hl.
  assert (occ l L = 0) as H0 by lia. split.
  - intros k. destruct (decide (k = l)) as [-> | Hk]; [by rewrite lookup_delete_eq |].
    rewrite lookup_delete_ne by done. specialize (H k). rewrite occ_cons, decide_False in H by done.
    destruct (h !! k); by rewrite Z.add_0_l in H.
  - intros k Hk. rewrite lookup_delete_ne; [done |]. intros ->. apply occ_elem in Hk. lia.
Qed.

(** ** Copies of containers *)

Lemma clone_spec c : container_ok c ->
  exists c', container_clone c = Some c' /\ container_ok c' /\ type_code c' = type_code c /\ container_elems c' = container_elems c.
Proof.
  destruct c as [b | a | r]; cbn [container_ok container_clone container_elems]; intros H.
  - exists (Bitset b). destruct b. done.
  - destruct (array_clone_spec a H) as (a' & -> & E & O). by exists (Array a').
  - exists (Run r). destruct r. done.
Qed.

Lemma same_type_sized c c' : type_code c' = type_code c -> container_elems c' = container_elems c -> sized c -> sized c'.
Proof. destruct c, c'; cbn; try done; intros _ E; unfold DEFAULT_MAX_SIZE; rewrite E; done. Qed.

Lemma clone_valid c : valid c ->
  exists c', container_clone c = Some c' /\ valid c' /\ container_elems c' = container_elems c.
Proof.
  intros [O S N]. destruct (clone_spec c O) as (c' & E & O' & T & El). exists c'. split; [done |]. split; [| done].
  constructor; [done | by eapply same_type_sized | by rewrite El].
Qed.

(** ** The operations on typed pointers *)

(** The pointer that stays with the owner after a copy has been taken. *)
Definition kept (cow : bool) (t t' : typed) : typed := if cow then t' else t.

Lemma get_copy_spec h t c cow L : counted h (refs t ++ L) -> points h t c -> valid c -> zlen L + 2 < 2 ^ 32 ->
  post (get_copy_of_container h t cow) (fun '(t', h') =>
    (exists c', points h' t' c' /\ valid c' /\ container_elems c' = container_elems c) /\
    points h' (kept cow t t') c /\
    counted h' (refs t' ++ refs (kept cow t t') ++ L) /\ same_on L h h' /\ (cow = false -> refs t' = [])).
Proof.
  intros HC HP HV HL. unfold get_copy_of_container. destruct t as [p ty]. destruct cow; cbn [kept].
  - destruct p as [c0 | l]; unfold points in HP; cbn [fst snd] in HP.
    + destruct HP as [-> ->]. rewrite type_code_not_shared.
      rewrite (proj2 (unwrap_points h (Plain c, type_code c) c)) by done. cbn [mbind option_bind].
      pose proof (is_fresh (dom h)) as Hf%not_elem_of_dom. set (l := fresh (dom h)) in *. apply post_ret.
      destruct (counted_new h L l c HC Hf) as [HC' HS]. assert (points (<[l:=mk_shared c 2]> h) (shared l) c) as HP'.
      { split; [done |]. exists 2. by rewrite lookup_insert_eq. }
      split; [by exists c |]. done.
    + destruct HP as (-> & n & E). rewrite Z.eqb_refl, E. cbn [mbind option_bind sc_container sc_counter]. apply post_ret.
      unfold refs in HC. cbn [fst app] in HC. pose proof (HC l) as Hl. rewrite E in Hl. cbn [sc_counter] in Hl. pose proof (occ_le l (l :: L)).
      rewrite zlen_cons in *. assert (u32 (n + 1) = n + 1) as -> by (apply uwrap_id; unfold in_u; lia).
      destruct (counted_incr h _ l c n HC E) as [HC' HS]. assert (points (<[l:=mk_shared c (n + 1)]> h) (Counted l, SHARED_CONTAINER_TYPE_CODE) c) as HP'.
      { split; [done |]. exists (n + 1). by rewrite lookup_insert_eq. }
      split; [by exists c |]. split; [done |]. split; [done |]. split; [| done]. eapply same_on_sub; [| exact HS]. intros k Hk. by constructor.
  - rewrite (proj2 (unwrap_points _ _ _) HP). cbn [mbind option_bind]. destruct (clone_valid c HV) as (c' & -> & V' & E').
    cbn [mbind option_bind]. apply post_ret. split; [by exists c' |]. split; [done |]. split; [exact HC |]. split; [apply same_on_refl | done].
Qed.

Lemma free_spec h t c L : counted h (refs t ++ L) -> points h t c ->
  post (container_free h t) (fun h' => counted h' L /\ same_on L h h').
Proof.
  intros HC HP. destruct t as [[c0 | l] ty]; unfold points in HP; cbn [fst snd container_free] in *.
  - destruct HP as [-> ->]. rewrite type_code_not_shared, Z.eqb_refl. apply post_ret. split; [exact HC | apply same_on_refl].
  - destruct HP as (-> & n & E). rewrite Z.eqb_refl. unfold shared_container_free. rewrite E. cbn [mbind option_bind sc_counter sc_container].
    pose proof (HC l) as Hl. rewrite E in Hl. cbn in Hl. rewrite (proj2 (Z.leb_gt _ _)) by lia.
    destruct (Z.eqb_spec (n - 1) 0); apply post_ret; [by eapply counted_last | by eapply counted_decr].
Qed.

Lemma writable_spec h t c L : counted h (refs t ++ L) -> points h t c -> container_ok c ->
  post (get_writable_copy_if_shared h t) (fun '(c', h') =>
    (container_ok c' /\ type_code c' = type_code c /\ container_elems c' = container_elems c) /\ counted h' L /\ same_on L h h').
Proof.
  intros HC HP HO. destruct t as [[c0 | l] ty]; unfold points in HP; cbn [fst snd get_writable_copy_if_shared] in *.
  - destruct HP as [-> ->]. rewrite type_code_not_shared, Z.eqb_refl. apply post_ret. split; [done |]. split; [exact HC | apply same_on_refl].
  - destruct HP as (-> & n & E). rewrite Z.eqb_refl. unfold shared_container_extract_copy. rewrite E. cbn [mbind option_bind sc_counter sc_container].
    pose proof (HC l) as Hl. rewrite E in Hl. cbn in Hl. rewrite (proj2 (Z.leb_gt _ _)) by lia.
    destruct (Z.eqb_spec (n - 1) 0).
    + apply post_ret. split; [done |]. by eapply counted_last.
    + destruct (clone_spec c HO) as (c' & -> & O' & T' & E'). cbn [mbind option_bind]. apply post_ret. split; [done |]. by eapply counted_decr.
Qed.

(** A writable copy of a container a bitmap holds is such a container. *)
Lemma writable_valid h t c L : counted h (refs t ++ L) -> points h t c -> valid c ->
  post (get_writable_copy_if_shared h t) (fun '(c', h') =>
    (valid c' /\ container_elems c' = container_elems c) /\ counted h' L /\ same_on L h h').
Proof.
  intros HC HP [O S N]. eapply post_mono; [by apply writable_spec |]. intros [c' h'] ((O' & T' & E') & H). split; [| exact H].
  split; [| done]. constructor; [done | by eapply same_type_sized | by rewrite E'].
Qed.
