(* ===== verification/RoaringBitmap.v ===== *)
(** * Roaring bitmaps

    [roaring.c] of the amalgamation: sets of 32-bit values, as an array of
    16-bit keys with a container for the low halves of the values of each key.
    A function takes and returns the heap of shared containers, and returns
    the arguments it changes: with copy-on-write, also the arguments declared
    [const].  Two arguments are two different bitmaps. *)

From stdpp Require Import base list list_numbers numbers option sorting gmap.
From Stdlib Require Import ZArith Lia.
From S2P Require Import Prelude.
From S2P Require Import RoaringArrays.
From S2P Require Import RoaringArrayContainer.
From S2P Require Import RoaringBitset.
From S2P Require Import RoaringRun.
From S2P Require Import RoaringConvert.
From S2P Require Import RoaringContainer.
From S2P Require Import RoaringShared.

Local Open Scope Z_scope.

(** The only member is [high_low_container]. *)
Definition roaring_bitmap_t : Type := roaring_array_t.

Definition is_cow (r : roaring_bitmap_t) : bool := negb (Z.land (ra_flags r) ROARING_FLAG_COW =? 0).
Definition is_frozen (r : roaring_bitmap_t) : bool := negb (Z.land (ra_flags r) ROARING_FLAG_FROZEN =? 0).

Definition roaring_bitmap_set_copy_on_write (r : roaring_bitmap_t) (cow : bool) : roaring_bitmap_t :=
  mk_ra (ra_slots r) (ra_allocation_size r)
    (if cow then Z.lor (ra_flags r) ROARING_FLAG_COW
     else Z.land (ra_flags r) (u8 (Z.lnot ROARING_FLAG_COW))).

Definition high16 (val : Z) : Z := Z.shiftr val 16.
Definition low16 (val : Z) : Z := Z.land val 65535.

Definition roaring_bitmap_create : roaring_bitmap_t := ra_init.

(** [None]: the function returns [NULL]. *)
Definition roaring_bitmap_create_with_capacity (cap : Z) : option roaring_bitmap_t := ra_init_with_capacity cap.

(** The container at index [i], shared or not. *)
Definition container_at (h : heap) (r : roaring_bitmap_t) (i : Z) : option container_t :=
  t ← ra_get_container_at_index r i;
  container_unwrap_shared h t.

(** ** Single values *)

(** Also returns the index of the container touched; [containerptr] is the
    container there. *)
Definition containerptr_roaring_bitmap_add (h : heap) (r : roaring_bitmap_t) (val : Z) :
    option (Z * roaring_bitmap_t * heap) :=
  let hb := high16 val in
  i ← ra_get_index r hb;
  if 0 <=? i then
    '(r, h) ← ra_unshare_container_at_index h r i;
    container ← container_at h r i;
    container2 ← container_add container (low16 val);
    r ← ra_set_container_at_index r i (plain container2);
    Some (i, r, h)
  else
    container ← container_add (Array array_container_create) (low16 val);
    r ← ra_insert_new_key_value_at r (- i - 1) hb (plain container);
    Some (- i - 1, r, h).

Definition roaring_bitmap_add (h : heap) (r : roaring_bitmap_t) (val : Z) : option (roaring_bitmap_t * heap) :=
  let hb := high16 val in
  i ← ra_get_index r hb;
  if 0 <=? i then
    '(r, h) ← ra_unshare_container_at_index h r i;
    container ← container_at h r i;
    container2 ← container_add container (low16 val);
    r ← ra_set_container_at_index r i (plain container2);
    Some (r, h)
  else
    container ← container_add (Array array_container_create) (low16 val);
    r ← ra_insert_new_key_value_at r (- i - 1) hb (plain container);
    Some (r, h).

(** A container of another type stands for another pointer: the type changes
    only when a value is added. *)
Definition roaring_bitmap_add_checked (h : heap) (r : roaring_bitmap_t) (val : Z) :
    option (bool * roaring_bitmap_t * heap) :=
  let hb := high16 val in
  i ← ra_get_index r hb;
  if 0 <=? i then
    '(r, h) ← ra_unshare_container_at_index h r i;
    container ← container_at h r i;
    let oldCardinality := container_get_cardinality container in
    container2 ← container_add container (low16 val);
    r ← ra_set_container_at_index r i (plain container2);
    if negb (type_code container2 =? type_code container) then Some (true, r, h)
    else
      let newCardinality := container_get_cardinality container2 in
      Some (negb (oldCardinality =? newCardinality), r, h)
  else
    container ← container_add (Array array_container_create) (low16 val);
    r ← ra_insert_new_key_value_at r (- i - 1) hb (plain container);
    Some (true, r, h).

Definition roaring_bitmap_remove (h : heap) (r : roaring_bitmap_t) (val : Z) : option (roaring_bitmap_t * heap) :=
  let hb := high16 val in
  i ← ra_get_index r hb;
  if 0 <=? i then
    '(r, h) ← ra_unshare_container_at_index h r i;
    container ← container_at h r i;
    container2 ← container_remove container (low16 val);
    r ← ra_set_container_at_index r i (plain container2);
    if negb (container_get_cardinality container2 =? 0) then Some (r, h)
    else ra_remove_at_index_and_free h r i
  else Some (r, h).

Definition roaring_bitmap_remove_checked (h : heap) (r : roaring_bitmap_t) (val : Z) :
    option (bool * roaring_bitmap_t * heap) :=
  let hb := high16 val in
  i ← ra_get_index r hb;
  if 0 <=? i then
    '(r, h) ← ra_unshare_container_at_index h r i;
    container ← container_at h r i;
    let oldCardinality := container_get_cardinality container in
    container2 ← container_remove container (low16 val);
    r ← ra_set_container_at_index r i (plain container2);
    let newCardinality := container_get_cardinality container2 in
    '(r, h) ← (if negb (newCardinality =? 0) then Some (r, h) else ra_remove_at_index_and_free h r i);
    Some (negb (oldCardinality =? newCardinality), r, h)
  else Some (false, r, h).

Definition roaring_bitmap_contains (h : heap) (r : roaring_bitmap_t) (val : Z) : option bool :=
  let hb := high16 val in
  i ← ra_get_index r hb;
  if i <? 0 then Some false
  else
    container ← container_at h r i;
    container_contains container (low16 val).

(** ** Many values *)

(** [prev] is the last value, [containerindex] the index of its container. *)
Fixpoint add_many_loop (h : heap) (r : roaring_bitmap_t) (vals : list Z) (prev containerindex : Z) :
    option (roaring_bitmap_t * heap) :=
  match vals with
  | [] => Some (r, h)
  | val :: vals =>
    if high16 (Z.lxor prev val) =? 0 then
      container ← container_at h r containerindex;
      container2 ← container_add container (low16 val);
      r ← ra_set_container_at_index r containerindex (plain container2);
      add_many_loop h r vals val containerindex
    else
      '(containerindex, r, h) ← containerptr_roaring_bitmap_add h r val;
      add_many_loop h r vals val containerindex
  end.

Definition roaring_bitmap_add_many (h : heap) (r : roaring_bitmap_t) (vals : list Z) :
    option (roaring_bitmap_t * heap) :=
  match vals with
  | [] => Some (r, h)
  | val :: vals =>
    '(containerindex, r, h) ← containerptr_roaring_bitmap_add h r val;
    add_many_loop h r vals val containerindex
  end.

Definition roaring_bitmap_of_ptr (h : heap) (vals : list Z) : option (roaring_bitmap_t * heap) :=
  roaring_bitmap_add_many h roaring_bitmap_create vals.

Fixpoint add_each (h : heap) (r : roaring_bitmap_t) (vals : list Z) : option (roaring_bitmap_t * heap) :=
  match vals with
  | [] => Some (r, h)
  | val :: vals => '(r, h) ← roaring_bitmap_add h r val; add_each h r vals
  end.

Definition roaring_bitmap_of (h : heap) (vals : list Z) : option (roaring_bitmap_t * heap) :=
  add_each h roaring_bitmap_create vals.

(** [container_remove] takes its own copy of a shared container, and gives up
    the reference for it; the caller then frees the pointer it had, which is
    another one exactly when the container was shared or its type changes. *)
Fixpoint remove_many_loop (h : heap) (r : roaring_bitmap_t) (vals : list Z) (pos : Z) :
    option (roaring_bitmap_t * heap) :=
  match vals with
  | [] => Some (r, h)
  | val :: vals =>
    let key := high16 val in
    pos ← (if pos <? 0 then ra_get_index r key
           else k ← ra_get_key_at_index r pos; if negb (key =? k) then ra_get_index r key else Some pos);
    if 0 <=? pos then
      t ← ra_get_container_at_index r pos;
      '(container, h) ← get_writable_copy_if_shared h t;
      new_container ← container_remove container (low16 val);
      h ← (if snd t =? type_code new_container then Some h else container_free h t);
      r ← ra_replace_key_and_container_at_index r pos key (plain new_container);
      nonzero ← container_nonzero_cardinality new_container;
      if nonzero : bool then remove_many_loop h r vals pos
      else
        h ← container_free h (plain new_container);
        r ← ra_remove_at_index r pos;
        remove_many_loop h r vals (-1)
    else remove_many_loop h r vals pos
  end.

Definition roaring_bitmap_remove_many (h : heap) (r : roaring_bitmap_t) (vals : list Z) :
    option (roaring_bitmap_t * heap) :=
  if (zlen vals =? 0) || (ra_size r =? 0) then Some (r, h)
  else remove_many_loop h r vals (-1).

(** ** Ranges *)

Definition minimum_uint64 (a b : Z) : Z := if a <? b then a else b.

(** [for(uint32_t value = min; value < max; value += step)] *)
Fixpoint from_range_sparse (fuel : nat) (h : heap) (answer : roaring_bitmap_t) (value max step : Z) :
    option (roaring_bitmap_t * heap) :=
  match fuel with
  | O => None
  | S fuel =>
    if value <? max then
      '(answer, h) ← roaring_bitmap_add h answer value;
      from_range_sparse fuel h answer (u32 (value + step)) max step
    else Some (answer, h)
  end.

Fixpoint from_range_loop (fuel : nat) (answer : roaring_bitmap_t) (min_tmp max step : Z) :
    option roaring_bitmap_t :=
  match fuel with
  | O => None
  | S fuel =>
    let key := Z.shiftr (u32 min_tmp) 16 in
    let container_min := Z.land min_tmp 65535 in
    let container_max := u32 (minimum_uint64 (u64 (max - u32 (Z.shiftl key 16))) (2 ^ 16)) in
    container ← container_from_range container_min container_max (u16 step);
    container ← container;
    answer ← ra_append answer key (plain container);
    let gap := u32 (container_max - container_min + step - 1) in
    let min_tmp := u64 (min_tmp + (gap - gap mod step)) in
    if min_tmp <? max then from_range_loop fuel answer min_tmp max step else Some answer
  end.

(** [None] inside: the function returns [NULL].  There are at most [2 ^ 16]
    keys, and at most [2 ^ 16] values of a step of [2 ^ 16] or more. *)
Definition roaring_bitmap_from_range (h : heap) (min max step : Z) :
    option (option roaring_bitmap_t * heap) :=
  let max := if 2 ^ 32 <=? max then 2 ^ 32 else max in
  if step =? 0 then Some (None, h)
  else if max <=? min then Some (None, h)
  else if 2 ^ 16 <=? step then
    '(answer, h) ← from_range_sparse (S (Z.to_nat (2 ^ 16))) h roaring_bitmap_create (u32 min) max step;
    Some (Some answer, h)
  else
    answer ← from_range_loop (Z.to_nat (2 ^ 16)) roaring_bitmap_create min max step;
    Some (Some answer, h).

Definition range_bounds (min max key : Z) : Z * Z :=
  (if high16 min =? key then low16 min else 0, if high16 max =? key then low16 max else 65535).

(** From [max_key] down to [min_key]; [n] is the number of keys left. *)
Fixpoint add_range_loop (n : nat) (h : heap) (ra : roaring_bitmap_t) (min max key src dst : Z) :
    option (roaring_bitmap_t * heap) :=
  match n with
  | O => Some (ra, h)
  | S n =>
    let '(container_min, container_max) := range_bounds min max key in
    at_src ← (if 0 <=? src then k ← ra_get_key_at_index ra src; Some (k =? key) else Some false);
    '(new_container, src, ra, h) ←
      (if at_src : bool then
         '(ra, h) ← ra_unshare_container_at_index h ra src;
         container ← container_at h ra src;
         new_container ← container_add_range container container_min container_max;
         Some (new_container, src - 1, ra, h)
       else
         new_container ← container_from_range container_min (container_max + 1) 1;
         new_container ← new_container;
         Some (new_container, src, ra, h));
    ra ← ra_replace_key_and_container_at_index ra dst key (plain new_container);
    add_range_loop n h ra min max (key - 1) src (dst - 1)
  end.

Definition roaring_bitmap_add_range_closed (h : heap) (ra : roaring_bitmap_t) (min max : Z) :
    option (roaring_bitmap_t * heap) :=
  if max <? min then Some (ra, h)
  else
    let min_key := high16 min in
    let max_key := high16 max in
    let num_required_containers := max_key - min_key + 1 in
    suffix_length ← count_greater (ra_keys ra) max_key;
    prefix_length ← count_less (take (Z.to_nat (ra_size ra - suffix_length)) (ra_keys ra)) min_key;
    let common_length := ra_size ra - prefix_length - suffix_length in
    ra ← (if common_length <? num_required_containers
          then ra_shift_tail ra suffix_length (num_required_containers - common_length)
          else Some ra);
    let src := prefix_length + common_length - 1 in
    let dst := ra_size ra - suffix_length - 1 in
    add_range_loop (Z.to_nat num_required_containers) h ra min max max_key src dst.

Fixpoint remove_range_loop (fuel : nat) (h : heap) (ra : roaring_bitmap_t) (min max src dst : Z) :
    option (Z * Z * roaring_bitmap_t * heap) :=
  match fuel with
  | O => None
  | S fuel =>
    in_range ← (if src <? ra_size ra then k ← ra_get_key_at_index ra src; Some (k <=? high16 max) else Some false);
    if in_range : bool then
      key ← ra_get_key_at_index ra src;
      let '(container_min, container_max) := range_bounds min max key in
      '(ra, h) ← ra_unshare_container_at_index h ra src;
      container ← container_at h ra src;
      new_container ← container_remove_range container container_min container_max;
      match new_container with
      | Some new_container =>
        ra ← ra_replace_key_and_container_at_index ra dst key (plain new_container);
        remove_range_loop fuel h ra min max (src + 1) (dst + 1)
      | None => remove_range_loop fuel h ra min max (src + 1) dst
      end
    else Some (src, dst, ra, h)
  end.

Definition roaring_bitmap_remove_range_closed (h : heap) (ra : roaring_bitmap_t) (min max : Z) :
    option (roaring_bitmap_t * heap) :=
  if max <? min then Some (ra, h)
  else
    src ← count_less (ra_keys ra) (high16 min);
    '(src, dst, ra, h) ← remove_range_loop (S (length (ra_slots ra))) h ra min max src src;
    if dst <? src then
      ra ← ra_shift_tail ra (ra_size ra - src) (dst - src);
      Some (ra, h)
    else Some (ra, h).

Definition roaring_bitmap_add_range (h : heap) (ra : roaring_bitmap_t) (min max : Z) :
    option (roaring_bitmap_t * heap) :=
  if max =? min then Some (ra, h)
  else roaring_bitmap_add_range_closed h ra (u32 min) (u32 (max - 1)).

Definition roaring_bitmap_remove_range (h : heap) (ra : roaring_bitmap_t) (min max : Z) :
    option (roaring_bitmap_t * heap) :=
  if max =? min then Some (ra, h)
  else roaring_bitmap_remove_range_closed h ra (u32 min) (u32 (max - 1)).

(** ** Copies *)

(** Returns the argument and the copy. *)
Definition roaring_bitmap_copy (h : heap) (r : roaring_bitmap_t) :
    option (roaring_bitmap_t * roaring_bitmap_t * heap) :=
  '(r', ans, h) ← ra_copy h r (is_cow r);
  Some (r', roaring_bitmap_set_copy_on_write ans (is_cow r), h).

(** Returns [src] and [dest]. *)
Definition roaring_bitmap_overwrite (h : heap) (dest src : roaring_bitmap_t) :
    option (roaring_bitmap_t * roaring_bitmap_t * heap) :=
  ra_overwrite h src dest (is_cow src).

Definition roaring_bitmap_free (h : heap) (r : roaring_bitmap_t) : option heap :=
  if negb (is_frozen r) then '(_, h) ← ra_clear h r; Some h else Some h.

Definition roaring_bitmap_clear (h : heap) (r : roaring_bitmap_t) : option (roaring_bitmap_t * heap) :=
  ra_reset h r.

(** ** Set operations *)

(** A container that has become empty is not kept. *)
Definition append_nonzero (h : heap) (answer : roaring_bitmap_t) (key : Z) (c : container_t) :
    option (roaring_bitmap_t * heap) :=
  nonzero ← container_nonzero_cardinality c;
  if nonzero : bool then answer ← ra_append answer key (plain c); Some (answer, h)
  else h ← container_free h (plain c); Some (answer, h).

Fixpoint and_loop (fuel : nat) (h : heap) (x1 x2 answer : roaring_bitmap_t) (pos1 pos2 : Z) :
    option (roaring_bitmap_t * heap) :=
  match fuel with
  | O => None
  | S fuel =>
    if (pos1 <? ra_size x1) && (pos2 <? ra_size x2) then
      s1 ← ra_get_key_at_index x1 pos1;
      s2 ← ra_get_key_at_index x2 pos2;
      if s1 =? s2 then
        c1 ← container_at h x1 pos1;
        c2 ← container_at h x2 pos2;
        c ← container_and c1 c2;
        '(answer, h) ← append_nonzero h answer s1 c;
        and_loop fuel h x1 x2 answer (pos1 + 1) (pos2 + 1)
      else if s1 <? s2 then
        pos1 ← ra_advance_until x1 s2 pos1;
        and_loop fuel h x1 x2 answer pos1 pos2
      else
        pos2 ← ra_advance_until x2 s1 pos2;
        and_loop fuel h x1 x2 answer pos1 pos2
    else Some (answer, h)
  end.

Definition merge_fuel (x1 x2 : roaring_bitmap_t) : nat := S (length (ra_slots x1) + length (ra_slots x2)).

Definition roaring_bitmap_and (h : heap) (x1 x2 : roaring_bitmap_t) : option (roaring_bitmap_t * heap) :=
  let length1 := ra_size x1 in
  let length2 := ra_size x2 in
  let neededcap := if length2 <? length1 then length2 else length1 in
  answer ← roaring_bitmap_create_with_capacity neededcap;
  let answer := roaring_bitmap_set_copy_on_write answer (is_cow x1 && is_cow x2) in
  and_loop (merge_fuel x1 x2) h x1 x2 answer 0 0.

(** [get_copy_of_container] for slot [pos] of [x], which with copy-on-write
    gets the shared pointer as well. *)
Definition copy_out (h : heap) (x : roaring_bitmap_t) (pos : Z) : option (typed * roaring_bitmap_t * heap) :=
  t ← ra_get_container_at_index x pos;
  '(c, h) ← get_copy_of_container h t (is_cow x);
  x ← (if is_cow x then ra_set_container_at_index x pos c else Some x);
  Some (c, x, h).

(** The loop of [roaring_bitmap_or], [roaring_bitmap_xor] and their lazy forms
    ([op] combines the containers of a common key, with [drop_empty] an empty
    result is not kept).  [s1] and [s2] are the keys at [pos1] and [pos2];
    the loop ends when one of the bitmaps is used up. *)
Fixpoint merge_loop (op : heap -> typed -> typed -> option container_t) (drop_empty : bool)
    (fuel : nat) (h : heap) (x1 x2 answer : roaring_bitmap_t) (pos1 pos2 : Z) :
    option (Z * Z * roaring_bitmap_t * roaring_bitmap_t * roaring_bitmap_t * heap) :=
  match fuel with
  | O => None
  | S fuel =>
    if (pos1 =? ra_size x1) || (pos2 =? ra_size x2) then Some (pos1, pos2, x1, x2, answer, h)
    else
      s1 ← ra_get_key_at_index x1 pos1;
      s2 ← ra_get_key_at_index x2 pos2;
      if s1 =? s2 then
        t1 ← ra_get_container_at_index x1 pos1;
        t2 ← ra_get_container_at_index x2 pos2;
        c ← op h t1 t2;
        '(answer, h) ← (if drop_empty then append_nonzero h answer s1 c
                        else answer ← ra_append answer s1 (plain c); Some (answer, h));
        merge_loop op drop_empty fuel h x1 x2 answer (pos1 + 1) (pos2 + 1)
      else if s1 <? s2 then
        '(c1, x1, h) ← copy_out h x1 pos1;
        answer ← ra_append answer s1 c1;
        merge_loop op drop_empty fuel h x1 x2 answer (pos1 + 1) pos2
      else
        '(c2, x2, h) ← copy_out h x2 pos2;
        answer ← ra_append answer s2 c2;
        merge_loop op drop_empty fuel h x1 x2 answer pos1 (pos2 + 1)
  end.

(** Returns [x1], [x2] and the answer. *)
Definition merge_bitmaps (op : heap -> typed -> typed -> option container_t) (drop_empty : bool)
    (h : heap) (x1 x2 : roaring_bitmap_t) :
    option (roaring_bitmap_t * roaring_bitmap_t * roaring_bitmap_t * heap) :=
  let length1 := ra_size x1 in
  let length2 := ra_size x2 in
  if length1 =? 0 then '(x2, answer, h) ← roaring_bitmap_copy h x2; Some (x1, x2, answer, h)
  else if length2 =? 0 then '(x1, answer, h) ← roaring_bitmap_copy h x1; Some (x1, x2, answer, h)
  else
    answer ← roaring_bitmap_create_with_capacity (length1 + length2);
    let answer := roaring_bitmap_set_copy_on_write answer (is_cow x1 && is_cow x2) in
    '(pos1, pos2, x1, x2, answer, h) ← merge_loop op drop_empty (merge_fuel x1 x2) h x1 x2 answer 0 0;
    if pos1 =? length1 then
      '(answer, x2, h) ← ra_append_copy_range h answer x2 pos2 length2 (is_cow x2);
      Some (x1, x2, answer, h)
    else
      '(answer, x1, h) ← ra_append_copy_range h answer x1 pos1 length1 (is_cow x1);
      Some (x1, x2, answer, h).

(** Both containers unwrapped, as the operations of [containers.h] do. *)
Definition unwrapped (op : container_t -> container_t -> option container_t) (h : heap) (t1 t2 : typed) :
    option container_t :=
  c1 ← container_unwrap_shared h t1;
  c2 ← container_unwrap_shared h t2;
  op c1 c2.

Definition roaring_bitmap_or := merge_bitmaps (unwrapped container_or) false.
Definition roaring_bitmap_xor := merge_bitmaps (unwrapped container_xor) true.

(** With [bitsetconversion], the first of two containers that are not bitsets
    is converted, and the second added to it. *)
Definition lazy_or_pair (bitsetconversion : bool) (h : heap) (t1 t2 : typed) : option container_t :=
  type1 ← get_container_type h t1;
  type2 ← get_container_type h t2;
  if bitsetconversion && negb (type1 =? BITSET_CONTAINER_TYPE_CODE) && negb (type2 =? BITSET_CONTAINER_TYPE_CODE) then
    c1 ← container_unwrap_shared h t1;
    newc1 ← container_to_bitset c1;
    c2 ← container_unwrap_shared h t2;
    container_lazy_ior (Bitset newc1) c2
  else unwrapped container_lazy_or h t1 t2.

Definition roaring_bitmap_lazy_or (bitsetconversion : bool) := merge_bitmaps (lazy_or_pair bitsetconversion) false.
Definition roaring_bitmap_lazy_xor := merge_bitmaps (unwrapped container_lazy_xor) true.

(** The loop of the in-place forms.  [op] combines the containers of a common
    key into what takes the place of the first; [None] removes its slot.
    [pos1] reaches [length1], the number of slots of [x1]. *)
Fixpoint inplace_loop (op : heap -> typed -> typed -> option (option typed * heap))
    (fuel : nat) (h : heap) (x1 x2 : roaring_bitmap_t) (pos1 pos2 : Z) :
    option (Z * Z * roaring_bitmap_t * roaring_bitmap_t * heap) :=
  match fuel with
  | O => None
  | S fuel =>
    if (pos1 =? ra_size x1) || (pos2 =? ra_size x2) then Some (pos1, pos2, x1, x2, h)
    else
      s1 ← ra_get_key_at_index x1 pos1;
      s2 ← ra_get_key_at_index x2 pos2;
      if s1 =? s2 then
        t1 ← ra_get_container_at_index x1 pos1;
        t2 ← ra_get_container_at_index x2 pos2;
        '(result, h) ← op h t1 t2;
        match result with
        | Some c =>
          x1 ← ra_set_container_at_index x1 pos1 c;
          inplace_loop op fuel h x1 x2 (pos1 + 1) (pos2 + 1)
        | None =>
          x1 ← ra_remove_at_index x1 pos1;
          inplace_loop op fuel h x1 x2 pos1 (pos2 + 1)
        end
      else if s1 <? s2 then inplace_loop op fuel h x1 x2 (pos1 + 1) pos2
      else
        '(c2, x2, h) ← copy_out h x2 pos2;
        x1 ← ra_insert_new_key_value_at x1 pos1 s2 c2;
        inplace_loop op fuel h x1 x2 (pos1 + 1) (pos2 + 1)
  end.

(** Returns [x1] and [x2]. *)
Definition merge_inplace (op : heap -> typed -> typed -> option (option typed * heap))
    (h : heap) (x1 x2 : roaring_bitmap_t) : option (roaring_bitmap_t * roaring_bitmap_t * heap) :=
  if ra_size x2 =? 0 then Some (x1, x2, h)
  else if ra_size x1 =? 0 then '(x2, x1, h) ← roaring_bitmap_overwrite h x1 x2; Some (x1, x2, h)
  else
    '(pos1, pos2, x1, x2, h) ← inplace_loop op (merge_fuel x1 x2) h x1 x2 0 0;
    if pos1 =? ra_size x1 then
      '(x1, x2, h) ← ra_append_copy_range h x1 x2 pos2 (ra_size x2) (is_cow x2);
      Some (x1, x2, h)
    else Some (x1, x2, h).

(** A full container stays as it is. *)
Definition or_inplace_pair (h : heap) (t1 t2 : typed) : option (option typed * heap) :=
  c1 ← container_unwrap_shared h t1;
  full ← container_is_full c1;
  if full : bool then Some (Some t1, h)
  else
    '(c1, h) ← get_writable_copy_if_shared h t1;
    c2 ← container_unwrap_shared h t2;
    c ← container_ior c1 c2;
    Some (Some (plain c), h).

Definition roaring_bitmap_or_inplace := merge_inplace or_inplace_pair.

Definition nonzero_result (h : heap) (c : container_t) : option (option typed * heap) :=
  nonzero ← container_nonzero_cardinality c;
  if nonzero : bool then Some (Some (plain c), h)
  else h ← container_free h (plain c); Some (None, h).

Definition xor_inplace_pair (op : container_t -> container_t -> option container_t) (h : heap) (t1 t2 : typed) :
    option (option typed * heap) :=
  '(c1, h) ← get_writable_copy_if_shared h t1;
  c2 ← container_unwrap_shared h t2;
  c ← op c1 c2;
  nonzero_result h c.

Definition roaring_bitmap_xor_inplace := merge_inplace (xor_inplace_pair container_ixor).
Definition roaring_bitmap_lazy_xor_inplace := merge_inplace (xor_inplace_pair container_lazy_ixor).

(** With [bitsetconversion] a container that is no bitset becomes one. *)
Definition lazy_or_inplace_pair (bitsetconversion : bool) (h : heap) (t1 t2 : typed) :
    option (option typed * heap) :=
  c1 ← container_unwrap_shared h t1;
  full ← container_is_full c1;
  if full : bool then Some (Some t1, h)
  else
    type1 ← get_container_type h t1;
    '(c1, h) ←
      (if negb bitsetconversion || (type1 =? BITSET_CONTAINER_TYPE_CODE) then get_writable_copy_if_shared h t1
       else
         b ← container_to_bitset c1;
         h ← container_free h t1;
         Some (Bitset b, h));
    c2 ← container_unwrap_shared h t2;
    c ← container_lazy_ior c1 c2;
    Some (Some (plain c), h).

Definition roaring_bitmap_lazy_or_inplace (bitsetconversion : bool) := merge_inplace (lazy_or_inplace_pair bitsetconversion).

Fixpoint repair_slots (h : heap) (slots : list slot) : option (list slot * heap) :=
  match slots with
  | [] => Some ([], h)
  | s :: slots =>
    '(container, h) ← get_writable_copy_if_shared h (s_typed s);
    newcontainer ← container_repair_after_lazy container;
    '(slots, h) ← repair_slots h slots;
    Some (mk_slot (s_key s) (plain newcontainer) :: slots, h)
  end.

Definition roaring_bitmap_repair_after_lazy (h : heap) (ra : roaring_bitmap_t) : option (roaring_bitmap_t * heap) :=
  '(slots, h) ← repair_slots h (ra_slots ra);
  Some (mk_ra slots (ra_allocation_size ra) (ra_flags ra), h).

(** [intersection_size] slots have been kept so far; they are below [pos1]. *)
Fixpoint and_inplace_loop (fuel : nat) (h : heap) (x1 x2 : roaring_bitmap_t) (pos1 pos2 intersection_size : Z) :
    option (Z * Z * roaring_bitmap_t * heap) :=
  match fuel with
  | O => None
  | S fuel =>
    if (pos1 <? ra_size x1) && (pos2 <? ra_size x2) then
      s1 ← ra_get_key_at_index x1 pos1;
      s2 ← ra_get_key_at_index x2 pos2;
      if s1 =? s2 then
        t1 ← ra_get_container_at_index x1 pos1;
        '(c1, h) ← get_writable_copy_if_shared h t1;
        c2 ← container_at h x2 pos2;
        c ← container_iand c1 c2;
        nonzero ← container_nonzero_cardinality c;
        if nonzero : bool then
          x1 ← ra_replace_key_and_container_at_index x1 intersection_size s1 (plain c);
          and_inplace_loop fuel h x1 x2 (pos1 + 1) (pos2 + 1) (intersection_size + 1)
        else
          h ← container_free h (plain c);
          and_inplace_loop fuel h x1 x2 (pos1 + 1) (pos2 + 1) intersection_size
      else if s1 <? s2 then
        '(pos1, h) ← ra_advance_until_freeing h x1 s2 pos1;
        and_inplace_loop fuel h x1 x2 pos1 pos2 intersection_size
      else
        pos2 ← ra_advance_until x2 s1 pos2;
        and_inplace_loop fuel h x1 x2 pos1 pos2 intersection_size
    else Some (pos1, intersection_size, x1, h)
  end.

Definition roaring_bitmap_and_inplace (h : heap) (x1 x2 : roaring_bitmap_t) : option (roaring_bitmap_t * heap) :=
  '(pos1, intersection_size, x1, h) ← and_inplace_loop (merge_fuel x1 x2) h x1 x2 0 0 0;
  h ← free_slots h (drop (Z.to_nat pos1) (ra_slots x1));
  x1 ← ra_downsize x1 intersection_size;
  Some (x1, h).

Fixpoint andnot_loop (fuel : nat) (h : heap) (x1 x2 answer : roaring_bitmap_t) (pos1 pos2 : Z) :
    option (Z * Z * roaring_bitmap_t * roaring_bitmap_t * heap) :=
  match fuel with
  | O => None
  | S fuel =>
    if (pos1 =? ra_size x1) || (pos2 =? ra_size x2) then Some (pos1, pos2, x1, answer, h)
    else
      s1 ← ra_get_key_at_index x1 pos1;
      s2 ← ra_get_key_at_index x2 pos2;
      if s1 =? s2 then
        c1 ← container_at h x1 pos1;
        c2 ← container_at h x2 pos2;
        c ← container_andnot c1 c2;
        '(answer, h) ← append_nonzero h answer s1 c;
        andnot_loop fuel h x1 x2 answer (pos1 + 1) (pos2 + 1)
      else if s1 <? s2 then
        next_pos1 ← ra_advance_until x1 s2 pos1;
        '(answer, x1, h) ← ra_append_copy_range h answer x1 pos1 next_pos1 (is_cow x1);
        andnot_loop fuel h x1 x2 answer next_pos1 pos2
      else
        pos2 ← ra_advance_until x2 s1 pos2;
        andnot_loop fuel h x1 x2 answer pos1 pos2
  end.

(** Returns [x1] and the answer. *)
Definition roaring_bitmap_andnot (h : heap) (x1 x2 : roaring_bitmap_t) :
    option (roaring_bitmap_t * roaring_bitmap_t * heap) :=
  let length1 := ra_size x1 in
  let length2 := ra_size x2 in
  if length1 =? 0 then
    Some (x1, roaring_bitmap_set_copy_on_write roaring_bitmap_create (is_cow x1 && is_cow x2), h)
  else if length2 =? 0 then roaring_bitmap_copy h x1
  else
    answer ← roaring_bitmap_create_with_capacity length1;
    let answer := roaring_bitmap_set_copy_on_write answer (is_cow x1 && is_cow x2) in
    '(pos1, pos2, x1, answer, h) ← andnot_loop (merge_fuel x1 x2) h x1 x2 answer 0 0;
    if pos2 =? length2 then
      '(answer, x1, h) ← ra_append_copy_range h answer x1 pos1 length1 (is_cow x1);
      Some (x1, answer, h)
    else Some (x1, answer, h).

Fixpoint andnot_inplace_loop (fuel : nat) (h : heap) (x1 x2 : roaring_bitmap_t) (pos1 pos2 intersection_size : Z) :
    option (Z * Z * roaring_bitmap_t * heap) :=
  match fuel with
  | O => None
  | S fuel =>
    if (pos1 =? ra_size x1) || (pos2 =? ra_size x2) then Some (pos1, intersection_size, x1, h)
    else
      s1 ← ra_get_key_at_index x1 pos1;
      s2 ← ra_get_key_at_index x2 pos2;
      if s1 =? s2 then
        t1 ← ra_get_container_at_index x1 pos1;
        '(c1, h) ← get_writable_copy_if_shared h t1;
        c2 ← container_at h x2 pos2;
        c ← container_iandnot c1 c2;
        nonzero ← container_nonzero_cardinality c;
        if nonzero : bool then
          x1 ← ra_replace_key_and_container_at_index x1 intersection_size s1 (plain c);
          andnot_inplace_loop fuel h x1 x2 (pos1 + 1) (pos2 + 1) (intersection_size + 1)
        else
          h ← container_free h (plain c);
          andnot_inplace_loop fuel h x1 x2 (pos1 + 1) (pos2 + 1) intersection_size
      else if s1 <? s2 then
        x1 ← (if negb (pos1 =? intersection_size) then
                t1 ← ra_get_container_at_index x1 pos1;
                ra_replace_key_and_container_at_index x1 intersection_size s1 t1
              else Some x1);
        andnot_inplace_loop fuel h x1 x2 (pos1 + 1) pos2 (intersection_size + 1)
      else
        pos2 ← ra_advance_until x2 s1 pos2;
        andnot_inplace_loop fuel h x1 x2 pos1 pos2 intersection_size
  end.

Definition roaring_bitmap_andnot_inplace (h : heap) (x1 x2 : roaring_bitmap_t) : option (roaring_bitmap_t * heap) :=
  if ra_size x2 =? 0 then Some (x1, h)
  else if ra_size x1 =? 0 then roaring_bitmap_clear h x1
  else
    '(pos1, intersection_size, x1, h) ← andnot_inplace_loop (merge_fuel x1 x2) h x1 x2 0 0 0;
    let length1 := ra_size x1 in
    '(x1, intersection_size) ←
      (if pos1 <? length1 then
         x1 ← (if intersection_size <? pos1 then ra_copy_range x1 pos1 length1 intersection_size else Some x1);
         Some (x1, intersection_size + (length1 - pos1))
       else Some (x1, intersection_size));
    x1 ← ra_downsize x1 intersection_size;
    Some (x1, h).

(** [LAZY_OR_BITSET_CONVERSION] is true: the bitmaps [x] come back as they are
    left. *)
Fixpoint or_inplace_all (h : heap) (answer : roaring_bitmap_t) (x : list roaring_bitmap_t) :
    option (roaring_bitmap_t * list roaring_bitmap_t * heap) :=
  match x with
  | [] => Some (answer, [], h)
  | xi :: x =>
    '(answer, xi, h) ← roaring_bitmap_lazy_or_inplace true h answer xi;
    '(answer, x, h) ← or_inplace_all h answer x;
    Some (answer, xi :: x, h)
  end.

Definition roaring_bitmap_or_many (h : heap) (x : list roaring_bitmap_t) :
    option (roaring_bitmap_t * list roaring_bitmap_t * heap) :=
  match x with
  | [] => Some (roaring_bitmap_create, [], h)
  | [x0] => '(x0, answer, h) ← roaring_bitmap_copy h x0; Some (answer, [x0], h)
  | x0 :: x1 :: x =>
    '(x0, x1, answer, h) ← roaring_bitmap_lazy_or true h x0 x1;
    '(answer, x, h) ← or_inplace_all h answer x;
    '(answer, h) ← roaring_bitmap_repair_after_lazy h answer;
    Some (answer, x0 :: x1 :: x, h)
  end.

Fixpoint xor_inplace_all (h : heap) (answer : roaring_bitmap_t) (x : list roaring_bitmap_t) :
    option (roaring_bitmap_t * list roaring_bitmap_t * heap) :=
  match x with
  | [] => Some (answer, [], h)
  | xi :: x =>
    '(answer, xi, h) ← roaring_bitmap_lazy_xor_inplace h answer xi;
    '(answer, x, h) ← xor_inplace_all h answer x;
    Some (answer, xi :: x, h)
  end.

Definition roaring_bitmap_xor_many (h : heap) (x : list roaring_bitmap_t) :
    option (roaring_bitmap_t * list roaring_bitmap_t * heap) :=
  match x with
  | [] => Some (roaring_bitmap_create, [], h)
  | [x0] => '(x0, answer, h) ← roaring_bitmap_copy h x0; Some (answer, [x0], h)
  | x0 :: x1 :: x =>
    '(x0, x1, answer, h) ← roaring_bitmap_lazy_xor h x0 x1;
    '(answer, x, h) ← xor_inplace_all h answer x;
    '(answer, h) ← roaring_bitmap_repair_after_lazy h answer;
    Some (answer, x0 :: x1 :: x, h)
  end.
