(* ===== verification/RoaringBitmapRead.v ===== *)
(** * Roaring bitmaps: queries, conversions and flips

    The functions of [roaring.c] that read bitmaps, the ones that change the
    representation of containers but not the values, and the negations of
    ranges. *)

From stdpp Require Import base list list_numbers numbers option sorting gmap.
From Stdlib Require Import ZArith Lia.
From S2P Require Import Prelude.
From S2P Require Import RoaringArrays.
From S2P Require Import RoaringArrayContainer.
From S2P Require Import RoaringBitset.
From S2P Require Import RoaringRun.
From S2P Require Import RoaringConvert.
From S2P Require Import RoaringContainer.
From S2P Require Import RoaringShared.
From S2P Require Import RoaringBitmap.

Local Open Scope Z_scope.

Definition UINT32_MAX : Z := 2 ^ 32 - 1.

(** ** One bitmap *)

Fixpoint sum_cardinalities (h : heap) (slots : list slot) (card : Z) : option Z :=
  match slots with
  | [] => Some card
  | s :: slots =>
    c ← container_unwrap_shared h (s_typed s);
    sum_cardinalities h slots (u64 (card + container_get_cardinality c))
  end.

Definition roaring_bitmap_get_cardinality (h : heap) (ra : roaring_bitmap_t) : option Z :=
  sum_cardinalities h (ra_slots ra) 0.

(** The containers after the first, up to the one of [maxhb]. *)
Fixpoint range_cardinality_loop (h : heap) (slots : list slot) (maxhb low_end card : Z) : option Z :=
  match slots with
  | [] => Some card
  | s :: slots =>
    if s_key s <? maxhb then
      c ← container_unwrap_shared h (s_typed s);
      range_cardinality_loop h slots maxhb low_end (u64 (card + container_get_cardinality c))
    else if s_key s =? maxhb then
      c ← container_unwrap_shared h (s_typed s);
      n ← container_rank c low_end;
      Some (u64 (card + n))
    else Some card
  end.

Definition roaring_bitmap_range_cardinality (h : heap) (ra : roaring_bitmap_t) (range_start range_end : Z) :
    option Z :=
  let range_end := if UINT32_MAX <? range_end then UINT32_MAX + 1 else range_end in
  if range_end <=? range_start then Some 0
  else
    let range_end := range_end - 1 in
    let minhb := u16 (high16 range_start) in
    let maxhb := u16 (high16 range_end) in
    i ← ra_get_index ra minhb;
    '(i, card) ←
      (if 0 <=? i then
         c ← container_at h ra i;
         card ← (if minhb =? maxhb then container_rank c (low16 range_end)
                 else Some (container_get_cardinality c));
         card ← (if negb (low16 range_start =? 0)
                 then n ← container_rank c (low16 range_start - 1); Some (u64 (card - n))
                 else Some card);
         Some (i + 1, card)
       else Some (- i - 1, 0));
    range_cardinality_loop h (drop (Z.to_nat i) (ra_slots ra)) maxhb (low16 range_end) card.

Definition roaring_bitmap_is_empty (ra : roaring_bitmap_t) : bool := ra_size ra =? 0.

Fixpoint slots_to_array (h : heap) (slots : list slot) : option (list Z) :=
  match slots with
  | [] => Some []
  | s :: slots =>
    c ← container_unwrap_shared h (s_typed s);
    l ← container_to_uint32_array c (Z.shiftl (s_key s) 16);
    rest ← slots_to_array h slots;
    Some (l ++ rest)
  end.

Definition ra_to_uint32_array (h : heap) (ra : roaring_array_t) : option (list Z) := slots_to_array h (ra_slots ra).

Definition roaring_bitmap_to_uint32_array (h : heap) (ra : roaring_bitmap_t) : option (list Z) :=
  ra_to_uint32_array h ra.

(** [ctr] values are before the container, [ans] holds the values taken so far
    ([dtr] of them), [first_skip] the number of these that are not wanted.  The
    loop overwrites the type code of every slot it looks at by the type of the
    container behind it. *)
Fixpoint range_array_loop (h : heap) (before slots : list slot) (offset limit ctr : Z) (first_skip : option Z)
    (ans : list Z) : option (list slot * option Z * list Z) :=
  match slots with
  | [] => Some (before, first_skip, ans)
  | s :: slots =>
    container ← container_unwrap_shared h (s_typed s);
    let s := mk_slot (s_key s) (fst (s_typed s), type_code container) in
    let t_limit := container_get_cardinality container in
    '(first_skip, ans) ←
      (if (offset <=? u64 (ctr + t_limit - 1)) && (ctr <? u64 (offset + limit)) then
         let first_skip := match first_skip with Some k => k | None => u64 (offset - ctr) end in
         l ← container_to_uint32_array container (Z.shiftl (s_key s) 16);
         Some (Some first_skip, ans ++ l)
       else Some (first_skip, ans));
    let ctr := u64 (ctr + t_limit) in
    if limit <=? u64 (zlen ans - default 0 first_skip)
    then Some (before ++ s :: slots, first_skip, ans)
    else range_array_loop h (before ++ [s]) slots offset limit ctr first_skip ans
  end.

(** Returns the bitmap, which is changed, and what is stored to [ans]; behind
    the last value [ans] is filled with zeros. *)
Definition ra_range_uint32_array (h : heap) (ra : roaring_array_t) (offset limit : Z) :
    option (roaring_array_t * list Z) :=
  '(slots, first_skip, ans) ← range_array_loop h [] (ra_slots ra) offset limit 0 None [];
  let ra := mk_ra slots (ra_allocation_size ra) (ra_flags ra) in
  match first_skip with
  | None => Some (ra, [])
  | Some first_skip =>
    Some (ra, take (Z.to_nat limit) (drop (Z.to_nat first_skip) ans ++ replicate (Z.to_nat limit) 0))
  end.

Definition roaring_bitmap_range_uint32_array := ra_range_uint32_array.

Fixpoint bitmap_rank_loop (h : heap) (slots : list slot) (x size : Z) : option Z :=
  match slots with
  | [] => Some size
  | s :: slots =>
    let xhigh := high16 x in
    if s_key s <? xhigh then
      c ← container_unwrap_shared h (s_typed s);
      bitmap_rank_loop h slots x (u64 (size + container_get_cardinality c))
    else if xhigh =? s_key s then
      c ← container_unwrap_shared h (s_typed s);
      n ← container_rank c (low16 x);
      Some (u64 (size + n))
    else Some size
  end.

Definition roaring_bitmap_rank (h : heap) (bm : roaring_bitmap_t) (x : Z) : option Z :=
  bitmap_rank_loop h (ra_slots bm) x 0.

Definition roaring_bitmap_minimum (h : heap) (bm : roaring_bitmap_t) : option Z :=
  if 0 <? ra_size bm then
    c ← container_at h bm 0;
    key ← ra_get_key_at_index bm 0;
    lowvalue ← container_minimum c;
    Some (Z.lor lowvalue (Z.shiftl key 16))
  else Some UINT32_MAX.

Definition roaring_bitmap_maximum (h : heap) (bm : roaring_bitmap_t) : option Z :=
  if 0 <? ra_size bm then
    c ← container_at h bm (ra_size bm - 1);
    key ← ra_get_key_at_index bm (ra_size bm - 1);
    lowvalue ← container_maximum c;
    Some (Z.lor lowvalue (Z.shiftl key 16))
  else Some 0.

(** [None] inside: the function returns [false]. *)
Fixpoint bitmap_select_loop (h : heap) (slots : list slot) (start_rank rank : Z) : option (option Z) :=
  match slots with
  | [] => Some None
  | s :: slots =>
    c ← container_unwrap_shared h (s_typed s);
    r ← container_select c start_rank rank;
    match r with
    | inl start_rank => bitmap_select_loop h slots start_rank rank
    | inr element => Some (Some (Z.lor element (Z.shiftl (s_key s) 16)))
    end
  end.

Definition roaring_bitmap_select (h : heap) (bm : roaring_bitmap_t) (rank : Z) : option (option Z) :=
  bitmap_select_loop h (ra_slots bm) 0 rank.

Fixpoint all_full (h : heap) (slots : list slot) : option bool :=
  match slots with
  | [] => Some true
  | s :: slots =>
    c ← container_unwrap_shared h (s_typed s);
    full ← container_is_full c;
    if full : bool then all_full h slots else Some false
  end.

Definition roaring_bitmap_contains_range (h : heap) (r : roaring_bitmap_t) (range_start range_end : Z) :
    option bool :=
  let range_end := if 2 ^ 32 <=? range_end then 2 ^ 32 else range_end in
  if range_end <=? range_start then Some true
  else if range_end - range_start =? 1 then roaring_bitmap_contains h r (u32 range_start)
  else
    let hb_rs := u16 (high16 range_start) in
    let hb_re := u16 (high16 (range_end - 1)) in
    let span := hb_re - hb_rs in
    let hlc_sz := ra_size r in
    if hlc_sz <? span + 1 then Some false
    else
      is_ ← ra_get_index r hb_rs;
      ie ← ra_get_index r hb_re;
      let ie := if ie <? 0 then - ie - 1 else ie in
      if (is_ <? 0) || negb (ie - is_ =? span) then Some false
      else
        let lb_rs := low16 range_start in
        let lb_re := low16 (range_end - 1) + 1 in
        container ← container_at h r is_;
        if hb_rs =? hb_re then container_contains_range container lb_rs lb_re
        else
          first ← container_contains_range container lb_rs (2 ^ 16);
          if negb first then Some false
          else
            container ← container_at h r ie;
            last ← container_contains_range container 0 lb_re;
            if negb last then Some false
            else all_full h (take (Z.to_nat (ie - is_ - 1)) (drop (Z.to_nat (is_ + 1)) (ra_slots r))).

(** The iterator stops when it returns [false]. *)
Fixpoint iterate_slots {S} (h : heap) (slots : list slot) (iterator : Z -> S -> bool * S) (ptr : S) : option (bool * S) :=
  match slots with
  | [] => Some (true, ptr)
  | s :: slots =>
    c ← container_unwrap_shared h (s_typed s);
    '(go_on, ptr) ← container_iterate c (Z.shiftl (s_key s) 16) iterator ptr;
    if go_on : bool then iterate_slots h slots iterator ptr else Some (false, ptr)
  end.

Definition roaring_iterate {S} (h : heap) (ra : roaring_bitmap_t) (iterator : Z -> S -> bool * S) (ptr : S) :
    option (bool * S) :=
  iterate_slots h (ra_slots ra) iterator ptr.

Fixpoint iterate64_slots {S} (h : heap) (slots : list slot) (iterator : Z -> S -> bool * S) (high_bits : Z) (ptr : S) :
    option (bool * S) :=
  match slots with
  | [] => Some (true, ptr)
  | s :: slots =>
    c ← container_unwrap_shared h (s_typed s);
    '(go_on, ptr) ← container_iterate64 c (Z.shiftl (s_key s) 16) iterator high_bits ptr;
    if go_on : bool then iterate64_slots h slots iterator high_bits ptr else Some (false, ptr)
  end.

Definition roaring_iterate64 {S} (h : heap) (ra : roaring_bitmap_t) (iterator : Z -> S -> bool * S) (high_bits : Z)
    (ptr : S) : option (bool * S) :=
  iterate64_slots h (ra_slots ra) iterator high_bits ptr.

(** ** Two bitmaps *)

Fixpoint equal_containers (h : heap) (slots1 slots2 : list slot) : option bool :=
  match slots1, slots2 with
  | s1 :: slots1, s2 :: slots2 =>
    c1 ← container_unwrap_shared h (s_typed s1);
    c2 ← container_unwrap_shared h (s_typed s2);
    areequal ← container_equals c1 c2;
    if areequal : bool then equal_containers h slots1 slots2 else Some false
  | _, _ => Some true
  end.

Definition roaring_bitmap_equals (h : heap) (ra1 ra2 : roaring_bitmap_t) : option bool :=
  if negb (ra_size ra1 =? ra_size ra2) then Some false
  else if negb (bool_decide (ra_keys ra1 = ra_keys ra2)) then Some false
  else equal_containers h (ra_slots ra1) (ra_slots ra2).

Fixpoint bitmap_subset_loop (fuel : nat) (h : heap) (ra1 ra2 : roaring_bitmap_t) (pos1 pos2 : Z) : option bool :=
  match fuel with
  | O => None
  | S fuel =>
    if (pos1 <? ra_size ra1) && (pos2 <? ra_size ra2) then
      s1 ← ra_get_key_at_index ra1 pos1;
      s2 ← ra_get_key_at_index ra2 pos2;
      if s1 =? s2 then
        c1 ← container_at h ra1 pos1;
        c2 ← container_at h ra2 pos2;
        subset ← container_is_subset c1 c2;
        if negb subset then Some false
        else bitmap_subset_loop fuel h ra1 ra2 (pos1 + 1) (pos2 + 1)
      else if s1 <? s2 then Some false
      else
        pos2 ← ra_advance_until ra2 s1 pos2;
        bitmap_subset_loop fuel h ra1 ra2 pos1 pos2
    else Some (pos1 =? ra_size ra1)
  end.

Definition roaring_bitmap_is_subset (h : heap) (ra1 ra2 : roaring_bitmap_t) : option bool :=
  bitmap_subset_loop (merge_fuel ra1 ra2) h ra1 ra2 0 0.

Definition roaring_bitmap_is_strict_subset (h : heap) (ra1 ra2 : roaring_bitmap_t) : option bool :=
  card2 ← roaring_bitmap_get_cardinality h ra2;
  card1 ← roaring_bitmap_get_cardinality h ra1;
  if card1 <? card2 then roaring_bitmap_is_subset h ra1 ra2 else Some false.

Fixpoint intersect_keys_loop (fuel : nat) (h : heap) (x1 x2 : roaring_bitmap_t) (pos1 pos2 : Z) : option bool :=
  match fuel with
  | O => None
  | S fuel =>
    if (pos1 <? ra_size x1) && (pos2 <? ra_size x2) then
      s1 ← ra_get_key_at_index x1 pos1;
      s2 ← ra_get_key_at_index x2 pos2;
      if s1 =? s2 then
        c1 ← container_at h x1 pos1;
        c2 ← container_at h x2 pos2;
        b ← container_intersect c1 c2;
        if b : bool then Some true
        else intersect_keys_loop fuel h x1 x2 (pos1 + 1) (pos2 + 1)
      else if s1 <? s2 then
        pos1 ← ra_advance_until x1 s2 pos1;
        intersect_keys_loop fuel h x1 x2 pos1 pos2
      else
        pos2 ← ra_advance_until x2 s1 pos2;
        intersect_keys_loop fuel h x1 x2 pos1 pos2
    else Some false
  end.

Definition roaring_bitmap_intersect (h : heap) (x1 x2 : roaring_bitmap_t) : option bool :=
  intersect_keys_loop (merge_fuel x1 x2) h x1 x2 0 0.

Fixpoint and_cardinality_loop (fuel : nat) (h : heap) (x1 x2 : roaring_bitmap_t) (pos1 pos2 answer : Z) : option Z :=
  match fuel with
  | O => None
  | S fuel =>
    if (pos1 <? ra_size x1) && (pos2 <? ra_size x2) then
      s1 ← ra_get_key_at_index x1 pos1;
      s2 ← ra_get_key_at_index x2 pos2;
      if s1 =? s2 then
        c1 ← container_at h x1 pos1;
        c2 ← container_at h x2 pos2;
        n ← container_and_cardinality c1 c2;
        and_cardinality_loop fuel h x1 x2 (pos1 + 1) (pos2 + 1) (u64 (answer + n))
      else if s1 <? s2 then
        pos1 ← ra_advance_until x1 s2 pos1;
        and_cardinality_loop fuel h x1 x2 pos1 pos2 answer
      else
        pos2 ← ra_advance_until x2 s1 pos2;
        and_cardinality_loop fuel h x1 x2 pos1 pos2 answer
    else Some answer
  end.

Definition roaring_bitmap_and_cardinality (h : heap) (x1 x2 : roaring_bitmap_t) : option Z :=
  and_cardinality_loop (merge_fuel x1 x2) h x1 x2 0 0 0.

Definition roaring_bitmap_or_cardinality (h : heap) (x1 x2 : roaring_bitmap_t) : option Z :=
  c1 ← roaring_bitmap_get_cardinality h x1;
  c2 ← roaring_bitmap_get_cardinality h x2;
  inter ← roaring_bitmap_and_cardinality h x1 x2;
  Some (u64 (c1 + c2 - inter)).

Definition roaring_bitmap_andnot_cardinality (h : heap) (x1 x2 : roaring_bitmap_t) : option Z :=
  c1 ← roaring_bitmap_get_cardinality h x1;
  inter ← roaring_bitmap_and_cardinality h x1 x2;
  Some (u64 (c1 - inter)).

Definition roaring_bitmap_xor_cardinality (h : heap) (x1 x2 : roaring_bitmap_t) : option Z :=
  c1 ← roaring_bitmap_get_cardinality h x1;
  c2 ← roaring_bitmap_get_cardinality h x2;
  inter ← roaring_bitmap_and_cardinality h x1 x2;
  Some (u64 (c1 + c2 - 2 * inter)).

(** ** Changes of representation *)

Fixpoint run_optimize_slots (h : heap) (slots : list slot) : option (bool * list slot * heap) :=
  match slots with
  | [] => Some (false, [], h)
  | s :: slots =>
    '(c, h) ← get_writable_copy_if_shared h (s_typed s);
    c1 ← convert_run_optimize c;
    '(answer, slots, h) ← run_optimize_slots h slots;
    Some ((type_code c1 =? RUN_CONTAINER_TYPE_CODE) || answer, mk_slot (s_key s) (plain c1) :: slots, h)
  end.

Definition roaring_bitmap_run_optimize (h : heap) (r : roaring_bitmap_t) : option (bool * roaring_bitmap_t * heap) :=
  '(answer, slots, h) ← run_optimize_slots h (ra_slots r);
  Some (answer, mk_ra slots (ra_allocation_size r) (ra_flags r), h).

(** The container behind a shared pointer is shrunk in place. *)
Definition shrink_typed (h : heap) (t : typed) : option (Z * typed * heap) :=
  c ← container_unwrap_shared h t;
  let '(n, c') := container_shrink_to_fit c in
  match fst t with
  | Plain _ => Some (n, plain c', h)
  | Counted l => sc ← h !! l; Some (n, t, <[l := mk_shared c' (sc_counter sc)]> h)
  end.

Fixpoint shrink_slots (h : heap) (slots : list slot) : option (Z * list slot * heap) :=
  match slots with
  | [] => Some (0, [], h)
  | s :: slots =>
    '(n, t, h) ← shrink_typed h (s_typed s);
    '(answer, slots, h) ← shrink_slots h slots;
    Some (n + answer, mk_slot (s_key s) t :: slots, h)
  end.

Definition roaring_bitmap_shrink_to_fit (h : heap) (r : roaring_bitmap_t) : option (Z * roaring_bitmap_t * heap) :=
  '(answer, slots, h) ← shrink_slots h (ra_slots r);
  '(n, r) ← ra_shrink_to_fit (mk_ra slots (ra_allocation_size r) (ra_flags r));
  Some (answer + n, r, h).

(** [convert_to_bitset_or_array_container] frees the run container it gets.  A
    shared one is freed once more when this was the last reference; otherwise
    the other references are left without it. *)
Definition remove_run (h : heap) (t : typed) : option (bool * typed * heap) :=
  type ← get_container_type h t;
  if type =? RUN_CONTAINER_TYPE_CODE then
    c ← container_unwrap_shared h t;
    match c with
    | Run truec =>
      c1 ← convert_to_bitset_or_array_container truec (run_container_cardinality truec);
      match fst t with
      | Plain _ => Some (true, plain c1, h)
      | Counted l =>
        sc ← h !! l;
        if sc_counter sc - 1 =? 0 then None else Some (true, plain c1, delete l h)
      end
    | _ => None
    end
  else Some (false, t, h).

Fixpoint remove_runs (h : heap) (slots : list slot) : option (bool * list slot * heap) :=
  match slots with
  | [] => Some (false, [], h)
  | s :: slots =>
    '(changed, t, h) ← remove_run h (s_typed s);
    '(answer, slots, h) ← remove_runs h slots;
    Some (changed || answer, mk_slot (s_key s) t :: slots, h)
  end.

Definition roaring_bitmap_remove_run_compression (h : heap) (r : roaring_bitmap_t) :
    option (bool * roaring_bitmap_t * heap) :=
  '(answer, slots, h) ← remove_runs h (ra_slots r);
  Some (answer, mk_ra slots (ra_allocation_size r) (ra_flags r), h).

(** ** Negation of a range *)

Definition insert_flipped_container (h : heap) (ans_arr x1_arr : roaring_array_t) (hb lb_start lb_end : Z) :
    option (roaring_array_t * heap) :=
  i ← ra_get_index x1_arr hb;
  j ← ra_get_index ans_arr hb;
  if 0 <=? i then
    container_to_flip ← container_at h x1_arr i;
    flipped_container ← container_not_range container_to_flip lb_start (lb_end + 1);
    if negb (container_get_cardinality flipped_container =? 0) then
      ans_arr ← ra_insert_new_key_value_at ans_arr (- j - 1) hb (plain flipped_container);
      Some (ans_arr, h)
    else h ← container_free h (plain flipped_container); Some (ans_arr, h)
  else
    flipped_container ← container_range_of_ones lb_start (lb_end + 1);
    ans_arr ← ra_insert_new_key_value_at ans_arr (- j - 1) hb (plain flipped_container);
    Some (ans_arr, h).

Definition insert_fully_flipped_container (h : heap) (ans_arr x1_arr : roaring_array_t) (hb : Z) :
    option (roaring_array_t * heap) :=
  i ← ra_get_index x1_arr hb;
  j ← ra_get_index ans_arr hb;
  if 0 <=? i then
    container_to_flip ← container_at h x1_arr i;
    flipped_container ← container_not container_to_flip;
    if negb (container_get_cardinality flipped_container =? 0) then
      ans_arr ← ra_insert_new_key_value_at ans_arr (- j - 1) hb (plain flipped_container);
      Some (ans_arr, h)
    else h ← container_free h (plain flipped_container); Some (ans_arr, h)
  else
    flipped_container ← container_range_of_ones 0 65536;
    ans_arr ← ra_insert_new_key_value_at ans_arr (- j - 1) hb (plain flipped_container);
    Some (ans_arr, h).

(** The result of an in-place negation takes the place of slot [i]. *)
Definition put_flipped (h : heap) (x1_arr : roaring_array_t) (i : Z) (flipped_container : container_t) :
    option (roaring_array_t * heap) :=
  if negb (container_get_cardinality flipped_container =? 0) then
    x1_arr ← ra_set_container_at_index x1_arr i (plain flipped_container);
    Some (x1_arr, h)
  else
    h ← container_free h (plain flipped_container);
    x1_arr ← ra_remove_at_index x1_arr i;
    Some (x1_arr, h).

Definition inplace_flip_container (h : heap) (x1_arr : roaring_array_t) (hb lb_start lb_end : Z) :
    option (roaring_array_t * heap) :=
  i ← ra_get_index x1_arr hb;
  if 0 <=? i then
    t ← ra_get_container_at_index x1_arr i;
    '(container_to_flip, h) ← get_writable_copy_if_shared h t;
    flipped_container ← container_inot_range container_to_flip lb_start (lb_end + 1);
    put_flipped h x1_arr i flipped_container
  else
    flipped_container ← container_range_of_ones lb_start (lb_end + 1);
    x1_arr ← ra_insert_new_key_value_at x1_arr (- i - 1) hb (plain flipped_container);
    Some (x1_arr, h).

Definition inplace_fully_flip_container (h : heap) (x1_arr : roaring_array_t) (hb : Z) :
    option (roaring_array_t * heap) :=
  i ← ra_get_index x1_arr hb;
  if 0 <=? i then
    t ← ra_get_container_at_index x1_arr i;
    '(container_to_flip, h) ← get_writable_copy_if_shared h t;
    flipped_container ← container_inot container_to_flip;
    put_flipped h x1_arr i flipped_container
  else
    flipped_container ← container_range_of_ones 0 65536;
    x1_arr ← ra_insert_new_key_value_at x1_arr (- i - 1) hb (plain flipped_container);
    Some (x1_arr, h).

(** The containers of a range of keys: [one] flips part of a container, [all] a
    whole one; [n] counts the keys that are flipped as a whole. *)
Fixpoint flip_keys {A} (all : A -> Z -> option A) (n : nat) (a : A) (hb : Z) : option A :=
  match n with
  | O => Some a
  | S n => a ← all a hb; flip_keys all n a (hb + 1)
  end.

Definition flip_range {A} (one : A -> Z -> Z -> Z -> option A) (all : A -> Z -> option A) (a : A)
    (hb_start lb_start hb_end lb_end : Z) : option A :=
  if hb_start =? hb_end then one a hb_start lb_start lb_end
  else
    '(a, hb_start) ← (if 0 <? lb_start then a ← one a hb_start lb_start 65535; Some (a, hb_start + 1)
                      else Some (a, hb_start));
    let hb_end := if negb (lb_end =? 65535) then hb_end - 1 else hb_end in
    a ← flip_keys all (Z.to_nat (hb_end + 1 - hb_start)) a hb_start;
    if negb (lb_end =? 65535) then one a (hb_end + 1) 0 lb_end else Some a.

(** Returns [x1] and the answer. *)
Definition roaring_bitmap_flip (h : heap) (x1 : roaring_bitmap_t) (range_start range_end : Z) :
    option (roaring_bitmap_t * roaring_bitmap_t * heap) :=
  if range_end <=? range_start then roaring_bitmap_copy h x1
  else
    let range_end := if 2 ^ 32 <=? range_end then 2 ^ 32 else range_end in
    let ans := roaring_bitmap_set_copy_on_write roaring_bitmap_create (is_cow x1) in
    let hb_start := u16 (high16 range_start) in
    let lb_start := u16 range_start in
    let hb_end := u16 (high16 (range_end - 1)) in
    let lb_end := u16 (range_end - 1) in
    '(ans, x1, h) ← ra_append_copies_until h ans x1 hb_start (is_cow x1);
    '(ans, h) ← flip_range (fun '(ans, h) hb s e => insert_flipped_container h ans x1 hb s e)
                  (fun '(ans, h) hb => insert_fully_flipped_container h ans x1 hb)
                  (ans, h) hb_start lb_start hb_end lb_end;
    '(ans, x1, h) ← ra_append_copies_after h ans x1 hb_end (is_cow x1);
    Some (x1, ans, h).

Definition roaring_bitmap_flip_inplace (h : heap) (x1 : roaring_bitmap_t) (range_start range_end : Z) :
    option (roaring_bitmap_t * heap) :=
  if range_end <=? range_start then Some (x1, h)
  else
    let range_end := if 2 ^ 32 <=? range_end then 2 ^ 32 else range_end in
    let hb_start := u16 (high16 range_start) in
    let lb_start := u16 range_start in
    let hb_end := u16 (high16 (range_end - 1)) in
    let lb_end := u16 (range_end - 1) in
    flip_range (fun '(x1, h) hb s e => inplace_flip_container h x1 hb s e)
      (fun '(x1, h) hb => inplace_fully_flip_container h x1 hb)
      (x1, h) hb_start lb_start hb_end lb_end.
