(* ===== verification/RoaringBitmapFacts.v ===== *)
(** * Roaring bitmaps: the key array as a map

    The content of a bitmap is a list of entries, a key and the low halves of
    the values with that key.  This file holds what the functions of
    [roaring_array.c] do to the entries and to the references of a bitmap. *)

From stdpp Require Import base list list_numbers numbers option sorting gmap.
From Stdlib Require Import ZArith Lia ZifyBool.
From S2P Require Import Prelude.
From S2P Require Import RoaringArrays.
From S2P Require Import RoaringArrayContainer.
From S2P Require Import RoaringArrayFacts.
From S2P Require Import RoaringBitset.
From S2P Require Import RoaringBitsetFacts.
From S2P Require Import RoaringBitsetOps.
From S2P Require Import RoaringBitsetContainer.
From S2P Require Import RoaringRun.
From S2P Require Import RoaringRunFacts.
From S2P Require Import RoaringRunSets.
From S2P Require Import RoaringRunContainer.
From S2P Require Import RoaringConvert.
From S2P Require Import RoaringConvertFacts.
From S2P Require Import RoaringMixedAndnot.
From S2P Require Import RoaringMixedUnion.
From S2P Require Import RoaringMixedNeg.
From S2P Require Import RoaringContainer.
From S2P Require Import RoaringContainerFacts.
From S2P Require Import RoaringContainerOps.
From S2P Require Import RoaringShared.

From S2P Require Import RoaringSharedFacts.
From S2P Require Import RoaringBitmap.

Local Open Scope Z_scope.

(** ** Entries *)

Definition entry : Type := Z * list Z.

(** The values with key [k]. *)
Fixpoint at_key (m : list entry) (k : Z) : list Z :=
  match m with
  | [] => []
  | (k', l) :: m => if k' =? k then l else at_key m k
  end.

(** The 32-bit values. *)
Definition values (m : list entry) : list Z := m ≫= fun '(k, l) => (fun x => k * 65536 + x) <$> l.

Definition keys (m : list entry) : list Z := fst <$> m.

Record entries_ok (m : list entry) : Prop := {
  eo_keys : strict (keys m);
  eo_range : Forall (in_u 16) (keys m);
  eo_values : Forall (fun e => sorted16 (snd e) /\ snd e <> []) m;
}.

Lemma at_key_app m1 m2 k : at_key (m1 ++ m2) k = if decide (k ∈ keys m1) then at_key m1 k else at_key m2 k.
Proof.
  induction m1 as [|[k' l] m1 IH]; [done |]. cbn [app at_key keys fmap list_fmap fst]. destruct (Z.eqb_spec k' k) as [-> | Hk].
  - rewrite decide_True by constructor. done.
  - rewrite IH. destruct (decide (k ∈ keys m1)) as [Hin | Hin].
    + by rewrite decide_True by (by constructor).
    + rewrite decide_False; [done |]. rewrite elem_of_cons. intros [? | ?]; [lia | done].
Qed.

Lemma at_key_absent m k : k ∉ keys m -> at_key m k = [].
Proof.
  induction m as [|[k' l] m IH]; [done |]. cbn. rewrite elem_of_cons. intros H. rewrite (proj2 (Z.eqb_neq _ _)) by (intros ->; tauto).
  apply IH. tauto.
Qed.

Lemma at_key_elem m k l : strict (keys m) -> (k, l) ∈ m -> at_key m k = l.
Proof.
  induction m as [|[k' l'] m IH]; [by intros _ ?%elem_of_nil |]. cbn. intros [Hs Hf]%StronglySorted_inv Hin.
  rewrite elem_of_cons in Hin. destruct Hin as [[= -> ->] | Hin]; [by rewrite Z.eqb_refl |].
  rewrite Forall_forall in Hf. assert (k' < k) by (apply Hf; apply list_elem_of_fmap; by exists (k, l)).
  rewrite (proj2 (Z.eqb_neq _ _)) by lia. by apply IH.
Qed.

Lemma elem_of_values m x : entries_ok m -> x ∈ values m <-> x mod 65536 ∈ at_key m (x / 65536).
Proof.
  intros [Hk _ Hv]. unfold values. rewrite list_elem_of_bind. split.
  - intros ([k l] & Hx & Hin). apply list_elem_of_fmap in Hx as (y & -> & Hy). rewrite Forall_forall in Hv.
    destruct (Hv _ Hin) as [[_ Hr] _]. rewrite Forall_forall in Hr. specialize (Hr y Hy). unfold in_u in Hr. cbn [snd] in Hr.
    replace ((k * 65536 + y) / 65536) with k by (apply Z.div_unique with y; lia).
    replace ((k * 65536 + y) mod 65536) with y by (apply Z.mod_unique with k; lia).
    by rewrite (at_key_elem _ _ _ Hk Hin).
  - intros Hx. destruct (decide (x / 65536 ∈ keys m)) as [Hin | Hin]; [| rewrite at_key_absent in Hx by done; by apply elem_of_nil in Hx].
    apply list_elem_of_fmap in Hin as ([k l] & E & Hin). cbn [fst] in E. exists (k, l). split; [| done].
    rewrite E, (at_key_elem _ _ _ Hk Hin) in Hx. apply list_elem_of_fmap. exists (x mod 65536). split; [| done].
    rewrite <- E. pose proof (Z.div_mod x 65536). lia.
Qed.

Lemma strict_app_inv a b : strict (a ++ b) -> strict a /\ strict b /\ forall x y, x ∈ a -> y ∈ b -> x < y.
Proof.
  intros H. split; [by eapply StronglySorted_app_1_l |]. split; [by eapply StronglySorted_app_1_r |].
  intros x y Hx Hy. by eapply (StronglySorted_app_1_elem_of Z.lt a b).
Qed.

Lemma entries_ok_app m1 m2 : entries_ok (m1 ++ m2) -> entries_ok m1 /\ entries_ok m2 /\
  forall k1 k2, k1 ∈ keys m1 -> k2 ∈ keys m2 -> k1 < k2.
Proof.
  intros [Hk Hr Hv]. unfold keys in *. rewrite fmap_app in *. apply Forall_app in Hr as [Hr1 Hr2]. apply Forall_app in Hv as [Hv1 Hv2].
  apply strict_app_inv in Hk as (Hs1 & Hs2 & Hlt). split; [by constructor |]. split; [by constructor |]. auto.
Qed.

Lemma zlen_map_keys m : zlen (keys m) = zlen m.
Proof. unfold keys, zlen. by rewrite length_fmap. Qed.

Lemma zlen_keys m : entries_ok m -> zlen m <= 65536.
Proof. intros [Hk Hr _]. rewrite <- zlen_map_keys. by apply sorted16_length. Qed.

(** ** Slots *)

Definition slot_holds (h : heap) (s : slot) (e : entry) : Prop :=
  s_key s = fst e /\ exists c, points h (s_typed s) c /\ valid c /\ container_elems c = snd e.

Definition holds (h : heap) (slots : list slot) (m : list entry) : Prop := Forall2 (slot_holds h) slots m.

Lemma slot_refs_app a b : slot_refs (a ++ b) = slot_refs a ++ slot_refs b.
Proof. apply bind_app. Qed.

Lemma slot_refs_cons s a : slot_refs (s :: a) = refs (s_typed s) ++ slot_refs a.
Proof. done. Qed.

Lemma slot_refs_plain k c a : slot_refs (mk_slot k (plain c) :: a) = slot_refs a.
Proof. done. Qed.

Lemma slot_holds_same L h h' s e : same_on L h h' -> refs (s_typed s) ⊆ L -> slot_holds h s e -> slot_holds h' s e.
Proof. intros Hs Hr (Hk & c & Hp & H). split; [done |]. exists c. split; [by eapply points_same | done]. Qed.

Lemma holds_same L h h' slots m : same_on L h h' -> slot_refs slots ⊆ L -> holds h slots m -> holds h' slots m.
Proof.
  intros Hs. unfold holds. intros Hr H. induction H as [|s e slots m He _ IH]; constructor.
  - eapply slot_holds_same; [done | | done]. intros k Hk. apply Hr. rewrite slot_refs_cons, elem_of_app. by left.
  - apply IH. intros k Hk. apply Hr. rewrite slot_refs_cons, elem_of_app. by right.
Qed.

Lemma holds_keys h slots m : holds h slots m -> s_key <$> slots = keys m.
Proof. intros H. induction H as [|s e slots m [Hk _] _ IH]; [done |]. cbn. by rewrite Hk, IH. Qed.

Lemma holds_length h slots m : holds h slots m -> zlen slots = zlen m.
Proof. intros H. unfold zlen. by rewrite (Forall2_length _ _ _ H). Qed.

Lemma holds_app_inv h a b m : holds h (a ++ b) m -> exists ma mb, m = ma ++ mb /\ holds h a ma /\ holds h b mb.
Proof. intros H. apply Forall2_app_inv_l in H as (ma & mb & H1 & H2 & ->). by exists ma, mb. Qed.

Lemma holds_cons_inv h s b m : holds h (s :: b) m -> exists e mb, m = e :: mb /\ slot_holds h s e /\ holds h b mb.
Proof. intros H. apply Forall2_cons_inv_l in H as (e & mb & H1 & H2 & ->). by exists e, mb. Qed.

Lemma holds_nil_inv h m : holds h [] m -> m = [].
Proof. by intros ->%Forall2_nil_inv_l. Qed.

Lemma holds_values h slots m : holds h slots m -> Forall (fun e => sorted16 (snd e) /\ snd e <> []) m.
Proof.
  intros H. induction H as [|s e slots m (_ & c & _ & V & E) _ IH]; constructor; [| done].
  rewrite <- E. split; [by apply container_sorted, V | apply V].
Qed.

(** ** Bitmaps *)

(** In the heap [h] the bitmap [x] has the entries [m]. *)
Record bm (h : heap) (x : roaring_bitmap_t) (m : list entry) : Prop := {
  bm_holds : holds h (ra_slots x) m;
  bm_keys : strict (keys m);
  bm_range : Forall (in_u 16) (keys m);
  bm_room : ra_size x <= ra_allocation_size x;
}.

Definition bm_refs (x : roaring_bitmap_t) : list positive := slot_refs (ra_slots x).

Lemma bm_entries h x m : bm h x m -> entries_ok m.
Proof. intros [H K R _]. constructor; [done | done | by eapply holds_values]. Qed.

Lemma bm_same L h h' x m : same_on L h h' -> bm_refs x ⊆ L -> bm h x m -> bm h' x m.
Proof. intros Hs Hr [H K R M]. constructor; [by eapply holds_same | done..]. Qed.

Lemma bm_size h x m : bm h x m -> ra_size x = zlen m /\ zlen m <= 65536.
Proof. intros H. split; [by eapply holds_length, bm_holds | by eapply zlen_keys, bm_entries]. Qed.

Lemma bm_ra_keys h x m : bm h x m -> ra_keys x = keys m.
Proof. intros H. by eapply holds_keys, bm_holds. Qed.

(** Memory and flags are those of [x], apart from what an operation says. *)
Definition with_slots (x : roaring_bitmap_t) (slots : list slot) (x' : roaring_bitmap_t) : Prop :=
  ra_slots x' = slots /\ ra_flags x' = ra_flags x /\ zlen slots <= ra_allocation_size x'.

Lemma bm_with_slots h x x' slots m : with_slots x slots x' -> holds h slots m -> strict (keys m) -> Forall (in_u 16) (keys m) -> bm h x' m.
Proof. intros (<- & _ & R) H K Hr. constructor; done. Qed.

Lemma insert_at_zlen {A} (a : list A) s b v : <[Z.to_nat (zlen a) := v]> (a ++ s :: b) = a ++ v :: b.
Proof. unfold zlen. rewrite Nat2Z.id. rewrite insert_app_r_alt by lia. by rewrite Nat.sub_diag. Qed.

Lemma take_zlen {A} (a b : list A) : take (Z.to_nat (zlen a)) (a ++ b) = a.
Proof. unfold zlen. rewrite Nat2Z.id. apply take_app_length. Qed.

Lemma drop_zlen {A} (a b : list A) : drop (Z.to_nat (zlen a)) (a ++ b) = b.
Proof. unfold zlen. rewrite Nat2Z.id. apply drop_app_length. Qed.

Lemma drop_zlen_S {A} (a b : list A) s : drop (Z.to_nat (zlen a + 1)) (a ++ s :: b) = b.
Proof.
  replace (zlen a + 1) with (zlen (a ++ [s])) by (rewrite zlen_app; done).
  replace (a ++ s :: b) with ((a ++ [s]) ++ b) by (by rewrite <- app_assoc). apply drop_zlen.
Qed.

Section Middle.

Context (x : roaring_bitmap_t) (a : list slot) (s : slot) (b : list slot) (Hx : ra_slots x = a ++ s :: b).

Lemma key_middle : ra_get_key_at_index x (zlen a) = Some (s_key s).
Proof. unfold ra_get_key_at_index. by rewrite Hx, rd_at. Qed.

Lemma container_middle : ra_get_container_at_index x (zlen a) = Some (s_typed s).
Proof. unfold ra_get_container_at_index. by rewrite Hx, rd_at. Qed.

Lemma replace_middle k t : ra_size x <= ra_allocation_size x ->
  post (ra_replace_key_and_container_at_index x (zlen a) k t) (with_slots x (a ++ mk_slot k t :: b)).
Proof.
  intros R. unfold ra_replace_key_and_container_at_index, ra_size in *. rewrite Hx in *. rewrite zlen_app, zlen_cons in *.
  pose proof (zlen_nonneg a). pose proof (zlen_nonneg b). rewrite (proj2 (Z.leb_le _ _)), (proj2 (Z.ltb_lt _ _)) by lia. cbn [andb].
  apply post_ret. rewrite insert_at_zlen. split; [done |]. split; [done |]. cbn [ra_allocation_size]. rewrite zlen_app, zlen_cons. lia.
Qed.

Lemma set_middle t : ra_size x <= ra_allocation_size x ->
  post (ra_set_container_at_index x (zlen a) t) (with_slots x (a ++ mk_slot (s_key s) t :: b)).
Proof. intros R. unfold ra_set_container_at_index. rewrite key_middle. cbn [mbind option_bind]. by apply replace_middle. Qed.

Lemma remove_middle : ra_size x <= ra_allocation_size x -> post (ra_remove_at_index x (zlen a)) (with_slots x (a ++ b)).
Proof.
  intros R. unfold ra_remove_at_index, ra_size in *. rewrite Hx in *. rewrite zlen_app, zlen_cons in *.
  pose proof (zlen_nonneg a). pose proof (zlen_nonneg b). rewrite (proj2 (Z.leb_le _ _)), (proj2 (Z.ltb_lt _ _)) by lia. cbn [andb].
  apply post_ret. rewrite take_zlen, drop_zlen_S. split; [done |]. split; [done |]. cbn [ra_allocation_size]. rewrite zlen_app. lia.
Qed.

Lemma container_at_middle h c : points h (s_typed s) c -> container_at h x (zlen a) = Some c.
Proof. intros H. unfold container_at. rewrite container_middle. cbn [mbind option_bind]. by apply unwrap_points. Qed.

End Middle.

(** ** Growing the array *)

Lemma extend_spec x k : 0 <= k -> ra_size x + k <= MAX_CONTAINERS -> ra_size x <= ra_allocation_size x ->
  post (extend_array x k) (fun x' => ra_slots x' = ra_slots x /\ ra_flags x' = ra_flags x /\ ra_size x + k <= ra_allocation_size x').
Proof.
  intros Hk Hm Hr. unfold extend_array. pose proof (zlen_nonneg (ra_slots x)) as Hn. fold (ra_size x) in Hn.
  rewrite (proj2 (Z.ltb_ge _ _)) by lia. destruct (Z.ltb_spec (ra_allocation_size x) (ra_size x + k)) as [Ha | Ha]; [| apply post_ret; auto].
  assert (ra_size x + k <= (if ra_size x <? 1024 then 2 * (ra_size x + k) else Z.quot (5 * (ra_size x + k)) 4)) as Hc.
  { destruct (ra_size x <? 1024); [lia |]. rewrite Z.quot_div_nonneg by lia. apply Z.div_le_lower_bound; lia. }
  unfold realloc_array. rewrite (proj2 (Z.leb_le _ _)).
  - apply post_ret. split; [done |]. split; [done |]. cbn [ra_allocation_size]. destruct (Z.ltb_spec MAX_CONTAINERS (if ra_size x <? 1024 then 2 * (ra_size x + k) else Z.quot (5 * (ra_size x + k)) 4)); lia.
  - destruct (Z.ltb_spec MAX_CONTAINERS (if ra_size x <? 1024 then 2 * (ra_size x + k) else Z.quot (5 * (ra_size x + k)) 4)); lia.
Qed.

Lemma set_slots_spec x slots : zlen slots <= ra_allocation_size x -> post (set_slots x slots) (with_slots x slots).
Proof. intros H. unfold set_slots. rewrite (proj2 (Z.leb_le _ _)) by done. by apply post_ret. Qed.

Lemma ra_append_spec x k t : ra_size x + 1 <= MAX_CONTAINERS -> ra_size x <= ra_allocation_size x ->
  post (ra_append x k t) (with_slots x (ra_slots x ++ [mk_slot k t])).
Proof.
  intros Hm Hr. unfold ra_append. eapply post_bind; [by apply (extend_spec x 1) |]. intros x' (E & F & R). rewrite E.
  eapply post_mono; [apply set_slots_spec; rewrite zlen_app; change (zlen [mk_slot k t]) with 1; unfold ra_size in *; lia |].
  intros x'' (E' & F' & R'). split; [done |]. split; [congruence | done].
Qed.

Lemma insert_slot_spec x a b k t : ra_slots x = a ++ b -> ra_size x + 1 <= MAX_CONTAINERS -> ra_size x <= ra_allocation_size x ->
  post (ra_insert_new_key_value_at x (zlen a) k t) (with_slots x (a ++ mk_slot k t :: b)).
Proof.
  intros Hx Hm Hr. unfold ra_insert_new_key_value_at. eapply post_bind; [by apply (extend_spec x 1) |]. intros x' (E & F & R).
  unfold ra_size in *. rewrite E. rewrite Hx in *. rewrite zlen_app in *. pose proof (zlen_nonneg a). pose proof (zlen_nonneg b).
  rewrite (proj2 (Z.leb_le 0 _)), (proj2 (Z.leb_le (zlen a) _)) by lia. cbn [andb]. rewrite take_zlen, drop_zlen.
  eapply post_mono; [apply set_slots_spec; rewrite zlen_app, zlen_cons; lia |].
  intros x'' (E' & F' & R'). split; [done |]. split; [congruence | done].
Qed.

(** ** Searching keys *)

Lemma get_index_spec h x m k : bm h x m ->
  ra_get_index x k = Some (if decide (k ∈ keys m) then lb (keys m) k else - (lb (keys m) k + 1)).
Proof.
  intros H. unfold ra_get_index. destruct (bm_size _ _ _ H) as [Hz _]. rewrite (bm_ra_keys _ _ _ H). pose proof (bm_keys _ _ _ H) as Hs.
  pose proof (zlen_map_keys m) as Hl.
  destruct (Z.eqb_spec (ra_size x) 0) as [H0 | H0].
  { assert (m = []) as -> by (apply zlen_zero, Z.eqb_eq; lia). rewrite H0, decide_False by apply not_elem_of_nil. done. }
  destruct (rd_Some (keys m) (ra_size x - 1)) as [v Hv]; [pose proof (zlen_nonneg m); lia |]. rewrite Hv. cbn [mbind option_bind].
  destruct (Z.eqb_spec v k) as [-> | Hk]; [| by apply binarySearch_spec].
  rewrite decide_True by (by eapply rd_elem). f_equal. symmetry. by apply lb_at.
Qed.

(** The split of the slots at the place of key [k]. *)
Lemma split_at h x m k : bm h x m -> exists a b ma mb, ra_slots x = a ++ b /\ m = ma ++ mb /\ holds h a ma /\ holds h b mb /\
  zlen a = lb (keys m) k /\ Forall (fun k' => k' < k) (keys ma) /\ Forall (fun k' => k <= k') (keys mb).
Proof.
  intros H. pose proof (bm_holds _ _ _ H) as Hh. pose proof (lb_range (keys m) k) as Hl.
  pose proof (zlen_map_keys m) as Hz.
  set (n := Z.to_nat (lb (keys m) k)). exists (take n (ra_slots x)), (drop n (ra_slots x)), (take n m), (drop n m).
  split; [by rewrite take_drop |]. split; [by rewrite take_drop |]. split; [by apply Forall2_take |]. split; [by apply Forall2_drop |].
  split; [subst n; apply zlen_take; pose proof (holds_length _ _ _ Hh); lia |].
  unfold keys. rewrite fmap_take, fmap_drop. pose proof (bm_keys _ _ _ H). split; [by apply lb_take | by apply lb_drop_ge].
Qed.

(** ** References of the slots *)

Lemma refs_middle a s b L : slot_refs (a ++ s :: b) ++ L ≡ₚ refs (s_typed s) ++ slot_refs a ++ slot_refs b ++ L.
Proof.
  rewrite slot_refs_app, slot_refs_cons, <- !app_assoc. rewrite !app_assoc. do 2 f_equiv. apply Permutation_app_comm.
Qed.

Lemma zlen_perm {A} (l1 l2 : list A) : l1 ≡ₚ l2 -> zlen l1 = zlen l2.
Proof. intros H. unfold zlen. by rewrite H. Qed.

Lemma refs_one k t : slot_refs [mk_slot k t] = refs t.
Proof. unfold slot_refs. cbn. by rewrite app_nil_r. Qed.

Lemma same_middle h h' a b ma mb L : same_on (slot_refs a ++ slot_refs b ++ L) h h' ->
  holds h a ma -> holds h b mb -> holds h' a ma /\ holds h' b mb /\ same_on L h h'.
Proof.
  intros Hs Ha Hb. split; [| split].
  - eapply holds_same; [exact Hs | | done]. intros k Hk. apply elem_of_app. by left.
  - eapply holds_same; [exact Hs | | done]. intros k Hk. rewrite !elem_of_app. auto.
  - eapply same_on_sub; [| exact Hs]. intros k Hk. rewrite !elem_of_app. auto.
Qed.

(** ** Copies of slots *)

Section CopySlot.

Context (h : heap) (x : roaring_bitmap_t) (a : list slot) (s : slot) (b : list slot) (e : entry) (L : list positive).
Context (Hx : ra_slots x = a ++ s :: b) (Hs : slot_holds h s e) (Hc : counted h (bm_refs x ++ L)).
Context (Hl : zlen (bm_refs x ++ L) + 2 < 2 ^ 32) (Hr : ra_size x <= ra_allocation_size x).

(** What [get_copy_of_container] leaves for the slot and its copy. *)
Lemma copy_slot_spec cow :
  post (get_copy_of_container h (s_typed s) cow) (fun '(t, h') =>
    let s' := mk_slot (s_key s) (kept cow (s_typed s) t) in
    slot_holds h' s' e /\ slot_holds h' (mk_slot (fst e) t) e /\
    counted h' (refs t ++ slot_refs (a ++ s' :: b) ++ L) /\ same_on (slot_refs a ++ slot_refs b ++ L) h h' /\ (cow = false -> refs t = [])).
Proof.
  destruct Hs as (Hk & c & Hp & V & Ee). unfold bm_refs in Hc, Hl. rewrite Hx in Hc, Hl.
  rewrite refs_middle in Hc. rewrite (zlen_perm _ _ (refs_middle a s b L)), zlen_app in Hl.
  eapply post_mono; [apply (get_copy_spec h (s_typed s) c cow (slot_refs a ++ slot_refs b ++ L)); try done; pose proof (zlen_nonneg (refs (s_typed s))); lia |].
  intros [t h'] ((c' & Hp' & V' & E') & Hp0 & HC & HS & HT). split; [split; [done |]; by exists c |].
  split; [split; [done |]; exists c'; by rewrite E' |]. split; [| done]. rewrite refs_middle. exact HC.
Qed.

Lemma copy_out_spec :
  post (copy_out h x (zlen a)) (fun '(t, x', h') => exists s', with_slots x (a ++ s' :: b) x' /\
    slot_holds h' s' e /\ slot_holds h' (mk_slot (fst e) t) e /\
    counted h' (refs t ++ bm_refs x' ++ L) /\ same_on (slot_refs a ++ slot_refs b ++ L) h h' /\ (is_cow x = false -> refs t = [] /\ x' = x)).
Proof.
  unfold copy_out. rewrite (container_middle x a s b Hx). cbn [mbind option_bind].
  eapply post_bind; [apply (copy_slot_spec (is_cow x)) |]. intros [t h'] (H1 & H2 & H3 & H4 & H5). destruct (is_cow x); cbn [kept] in *.
  - eapply post_bind; [by apply (set_middle x a s b Hx) |]. intros x' W. apply post_ret. eexists. split; [exact W |].
    split; [done |]. split; [done |]. split; [| split; done]. unfold bm_refs. by rewrite (proj1 W).
  - apply post_ret. exists s. destruct s as [k ts]. cbn [s_key s_typed] in *. split; [split; [done |]; split; [done | by rewrite <- Hx] |].
    split; [done |]. split; [done |]. split; [unfold bm_refs; by rewrite Hx |]. split; [done |]. intros E. split; [by apply H5 | done].
Qed.

(** With copy-on-write, or for a container that is not shared. *)
Lemma append_copy_spec (ra : roaring_bitmap_t) cow : (cow = false -> refs (s_typed s) = []) -> ra_size ra + 1 <= ra_allocation_size ra ->
  post (append_copy h ra x (zlen a) cow) (fun '(ra', x', h') => exists s' t, with_slots x (a ++ s' :: b) x' /\
    ra_slots ra' = ra_slots ra ++ [mk_slot (fst e) t] /\ ra_flags ra' = ra_flags ra /\ ra_allocation_size ra' = ra_allocation_size ra /\
    slot_holds h' s' e /\ slot_holds h' (mk_slot (fst e) t) e /\
    counted h' (refs t ++ bm_refs x' ++ L) /\ same_on (slot_refs a ++ slot_refs b ++ L) h h' /\ (cow = false -> refs t = [] /\ x' = x)).
Proof.
  intros Hcow Hra. unfold append_copy. rewrite Hx, rd_at. cbn [mbind option_bind]. destruct Hs as (Hk & c & Hp & V & Ee).
  assert (forall t, post (set_slots ra (ra_slots ra ++ [mk_slot (s_key s) t])) (fun ra' => ra_slots ra' = ra_slots ra ++ [mk_slot (fst e) t] /\
    ra_flags ra' = ra_flags ra /\ ra_allocation_size ra' = ra_allocation_size ra)) as Hset.
  { intros t. unfold set_slots. rewrite (proj2 (Z.leb_le _ _)); [by apply post_ret; rewrite Hk |]. rewrite zlen_app. change (zlen [mk_slot (s_key s) t]) with 1. done. }
  destruct cow.
  - eapply post_bind; [apply (copy_slot_spec true) |]. intros [t h'] (H1 & H2 & H3 & H4 & _).
    eapply post_bind; [by apply (set_middle x a s b Hx) |]. intros x' W. eapply post_bind; [apply Hset |]. intros ra' (R1 & R2 & R3).
    apply post_ret. eexists _, t. do 6 (split; [done |]). split; [| split; done]. unfold bm_refs. by rewrite (proj1 W).
  - specialize (Hcow eq_refl). rewrite (proj2 (unwrap_points _ _ _) Hp). cbn [mbind option_bind].
    destruct (clone_spec c (v_ok _ V)) as (c' & -> & O' & T' & E'). cbn [mbind option_bind]. eapply post_bind; [apply Hset |].
    intros ra' (R1 & R2 & R3). apply post_ret. exists s, (Plain c', snd (s_typed s)).
    assert (snd (s_typed s) = type_code c) as Ht.
    { destruct s as [k [[c0 | l] ty]]; [| done]. destruct Hp as [-> ->]. done. }
    rewrite Ht in *.
    split; [split; [done |]; split; [done | by rewrite <- Hx] |]. do 3 (split; [done |]). split; [by split; [| exists c] |].
    split; [split; [done |]; exists c'; split; [by split | split; [| by rewrite E']] |].
    { constructor; [done | by eapply same_type_sized; [| | apply V] | rewrite E'; apply V]. }
    split; [exact Hc |]. split; [apply same_on_refl | done].
Qed.

End CopySlot.

(** Room for [n] more copies of references. *)
Definition space (L : list positive) (n : Z) : Prop := zlen L + 2 * n < 2 ^ 32.

Lemma zlen_refs t : 0 <= zlen (refs t) <= 1.
Proof. unfold refs, zlen. destruct (fst t); simpl; lia. Qed.

Lemma space_step x x' a s s' b t L n : ra_slots x = a ++ s :: b -> with_slots x (a ++ s' :: b) x' ->
  space (bm_refs x ++ L) (n + 1) -> space (bm_refs x' ++ refs t ++ L) n.
Proof.
  intros Hx (Hx' & _) H. unfold space, bm_refs in *. rewrite Hx, (zlen_perm _ _ (refs_middle a s b L)) in H.
  rewrite Hx', (zlen_perm _ _ (refs_middle a s' b (refs t ++ L))). rewrite !zlen_app in *.
  pose proof (zlen_refs (s_typed s)). pose proof (zlen_refs (s_typed s')). pose proof (zlen_refs t). lia.
Qed.

Lemma append_copies_spec cow r : forall me h ra x a z L, ra_slots x = a ++ r ++ z -> holds h r me -> (cow = false -> slot_refs r = []) ->
  counted h (bm_refs x ++ L) -> space (bm_refs x ++ L) (zlen r) -> ra_size x <= ra_allocation_size x -> ra_size ra + zlen r <= ra_allocation_size ra ->
  post (append_copies (length r) h ra x (zlen a) cow) (fun '(ra', x', h') => exists r' r'', with_slots x (a ++ r'' ++ z) x' /\
    with_slots ra (ra_slots ra ++ r') ra' /\ holds h' r' me /\ holds h' r'' me /\
    counted h' (slot_refs r' ++ bm_refs x' ++ L) /\ same_on (slot_refs a ++ slot_refs z ++ L) h h' /\ (cow = false -> slot_refs r' = [] /\ x' = x)).
Proof.
  induction r as [|s r IH]; intros me h ra x a z L Hx Hh Hcow Hc Hl Hr Hra.
  - apply holds_nil_inv in Hh as ->. apply post_ret. exists [], []. rewrite app_nil_r. split; [split; [done |]; split; [done | by rewrite <- Hx] |].
    split; [split; [done |]; split; [done |]; change (zlen []) with 0 in Hra; unfold ra_size in Hra; lia |].
    split; [constructor |]. split; [constructor |]. split; [exact Hc |]. split; [apply same_on_refl | done].
  - apply holds_cons_inv in Hh as (e & mb & -> & He & Hb). rewrite zlen_cons in *. cbn [app] in Hx. cbn [length append_copies].
    eapply post_bind.
    { apply (append_copy_spec h x a s (r ++ z) e L Hx He Hc ltac:(unfold space in Hl; pose proof (zlen_nonneg r); lia) Hr ra cow).
      - intros E. specialize (Hcow E). rewrite slot_refs_cons in Hcow. apply app_eq_nil in Hcow as [? ?]. done.
      - pose proof (zlen_nonneg r). lia. }
    intros [[ra1 x1] h1] (s' & t & W & R1 & R2 & R3 & S1 & S2 & C1 & M1 & T1). pose proof (space_step x x1 a s s' (r ++ z) t L (zlen r) Hx W ltac:(unfold space in Hl |- *; lia)) as Hl1.
    rewrite slot_refs_app in M1.
    assert (holds h1 r mb) as Hb1 by (eapply holds_same; [exact M1 | | done]; intros k Hk; rewrite !elem_of_app; auto).
    assert (ra_slots x1 = (a ++ [s']) ++ r ++ z) as Hx1 by (rewrite <- app_assoc; apply W).
    replace (zlen a + 1) with (zlen (a ++ [s'])) by (rewrite zlen_app; done).
    eapply post_mono; [apply (IH mb h1 ra1 x1 (a ++ [s']) z (refs t ++ L) Hx1 Hb1) |].
    + intros E. specialize (Hcow E). rewrite slot_refs_cons in Hcow. apply app_eq_nil in Hcow as [? ?]. done.
    + eapply counted_perm; [| exact C1]. rewrite !app_assoc. f_equiv. apply Permutation_app_comm.
    + done.
    + unfold ra_size. by rewrite (proj1 W); apply W.
    + unfold ra_size. rewrite R1, R3, zlen_app. change (zlen [_]) with 1. unfold ra_size in Hra. lia.
    + intros [[ra' x'] h'] (r' & r'' & W' & WR & H1 & H2 & C2 & M2 & T2). exists (mk_slot (fst e) t :: r'), (s' :: r'').
      assert (same_on (refs t ++ refs (s_typed s') ++ slot_refs a ++ slot_refs z ++ L) h1 h') as M3.
      { eapply same_on_sub; [| exact M2]. rewrite slot_refs_app, slot_refs_cons. intros k. rewrite !elem_of_app. tauto. }
      split; [| split; [| split; [| split; [| split; [| split]]]]].
      * destruct W as (_ & F & _). destruct W' as (E' & F' & R'). rewrite <- app_assoc in *. split; [done |]. split; [congruence | done].
      * destruct WR as (E' & F' & R'). rewrite R1, <- app_assoc in *. split; [done |]. split; [congruence | done].
      * constructor; [| done]. eapply slot_holds_same; [exact M3 | | done]. intros k Hk. rewrite elem_of_app. by left.
      * constructor; [| done]. eapply slot_holds_same; [exact M3 | | done]. intros k Hk. rewrite !elem_of_app. auto.
      * rewrite slot_refs_cons. cbn [s_typed]. eapply counted_perm; [| exact C2]. rewrite <- app_assoc.
        rewrite !app_assoc. f_equiv. rewrite <- !app_assoc. rewrite (Permutation_app_comm (refs t)). by rewrite <- !app_assoc.
      * eapply same_on_trans; [eapply same_on_sub; [| exact M1] | eapply same_on_sub; [| exact M3]]; intros k; rewrite !elem_of_app; tauto.
      * intros E. destruct (T1 E) as [T1a ->], (T2 E) as [T2a ->]. by rewrite slot_refs_cons, T2a, app_nil_r.
Qed.

Lemma append_copy_range_spec cow h ra x a r z me L : ra_slots x = a ++ r ++ z -> holds h r me -> (cow = false -> slot_refs r = []) ->
  counted h (bm_refs x ++ L) -> space (bm_refs x ++ L) (zlen r) -> ra_size x <= ra_allocation_size x ->
  ra_size ra + zlen r <= MAX_CONTAINERS -> ra_size ra <= ra_allocation_size ra ->
  post (ra_append_copy_range h ra x (zlen a) (zlen a + zlen r) cow) (fun '(ra', x', h') => exists r' r'', with_slots x (a ++ r'' ++ z) x' /\
    with_slots ra (ra_slots ra ++ r') ra' /\ holds h' r' me /\ holds h' r'' me /\
    counted h' (slot_refs r' ++ bm_refs x' ++ L) /\ same_on (slot_refs a ++ slot_refs z ++ L) h h' /\ (cow = false -> slot_refs r' = [] /\ x' = x)).
Proof.
  intros Hx Hh Hcow Hc Hl Hr Hm Hra. unfold ra_append_copy_range. replace (zlen a + zlen r - zlen a) with (zlen r) by lia.
  eapply post_bind; [apply (extend_spec ra (zlen r)); [apply zlen_nonneg | done | done] |]. intros ra1 (E1 & F1 & R1).
  replace (Z.to_nat (zlen r)) with (length r) by (unfold zlen; lia).
  eapply post_mono; [by apply (append_copies_spec cow r me h ra1 x a z L); try done; unfold ra_size in *; rewrite E1 |].
  intros [[ra' x'] h'] (r' & r'' & W' & WR & H). exists r', r''. split; [done |]. split; [| done].
  destruct WR as (E' & F' & R'). rewrite E1 in *. split; [done |]. split; [congruence | done].
Qed.

(** ** One slot *)

Lemma at_put ma k l mb k' : k ∉ keys ma -> at_key (ma ++ (k, l) :: mb) k' = if decide (k' = k) then l else at_key (ma ++ mb) k'.
Proof.
  intros H. rewrite !at_key_app. cbn [at_key]. destruct (decide (k' = k)) as [-> | Hk].
  - by rewrite decide_False, Z.eqb_refl by done.
  - by rewrite (proj2 (Z.eqb_neq _ _)) by lia.
Qed.

Lemma keys_middle ma e mb : keys (ma ++ e :: mb) = keys ma ++ fst e :: keys mb.
Proof. unfold keys. by rewrite fmap_app. Qed.

Lemma keys_app ma mb : keys (ma ++ mb) = keys ma ++ keys mb.
Proof. unfold keys. by rewrite fmap_app. Qed.

(** The slot of key [k], or the place for it. *)
Lemma locate h x m k : bm h x m ->
  (exists a s b ma l mb, ra_slots x = a ++ s :: b /\ m = ma ++ (k, l) :: mb /\ holds h a ma /\ slot_holds h s (k, l) /\ holds h b mb /\
     ra_get_index x k = Some (zlen a) /\ at_key m k = l /\ k ∉ keys ma) \/
  (exists a b ma mb, ra_slots x = a ++ b /\ m = ma ++ mb /\ holds h a ma /\ holds h b mb /\
     ra_get_index x k = Some (- (zlen a + 1)) /\ (at_key m k = []) /\ (k ∉ keys m) /\ strict (keys ma ++ k :: keys mb)).
Proof.
  intros H. rewrite (get_index_spec _ _ _ k H). destruct (split_at h x m k H) as (a & b & ma & mb & Hx & -> & Ha & Hb & Hz & Hlo & Hhi).
  pose proof (bm_keys _ _ _ H) as Hs. rewrite keys_app in *. rewrite Forall_forall in Hlo, Hhi.
  assert (k ∉ keys ma) as Hna by (intros Hin; specialize (Hlo k Hin); cbn in Hlo; lia).
  destruct (decide (k ∈ (keys ma ++ keys mb))) as [Hin | Hin].
  - left. rewrite elem_of_app in Hin. destruct Hin as [? | Hin]; [done |]. rewrite <- Hz.
    destruct mb as [|[k0 l] mb]; [by apply elem_of_nil in Hin |].
    assert (k0 = k) as ->.
    { change (keys ((k0, l) :: mb)) with (k0 :: keys mb) in *. specialize (Hhi k0 ltac:(constructor)). cbn in Hhi.
      apply strict_app_inv in Hs as (_ & Hs & _). apply StronglySorted_inv in Hs as [_ Hf]. rewrite Forall_forall in Hf.
      rewrite elem_of_cons in Hin. destruct Hin as [-> | Hin]; [done |]. specialize (Hf k Hin). lia. }
    apply Forall2_cons_inv_r in Hb as (s & b' & Hb1 & Hb2 & ->). exists a, s, b', ma, l, mb. do 6 (split; [done |]). split; [| done].
    rewrite at_put by done. by rewrite decide_True.
  - right. rewrite <- Hz. exists a, b, ma, mb. do 5 (split; [done |]). split; [apply at_key_absent; by rewrite keys_app |].
    split; [done |]. apply strict_app_inv in Hs as (Hs1 & Hs2 & Hlt). rewrite elem_of_app in Hin.
    apply strict_app; [done | constructor; [done |] |].
    + apply Forall_forall. intros y Hy. specialize (Hhi y Hy). cbn in Hhi. destruct (decide (y = k)) as [-> | ?]; [tauto | lia].
    + intros y1 y2 Hy1 Hy2. specialize (Hlo y1 Hy1). cbn in Hlo. rewrite elem_of_cons in Hy2. destruct Hy2 as [-> | Hy2]; [done |]. by apply Hlt.
Qed.

(** From [x] with entries [m] to [x'] with the values [l] at key [k] and no
    other change; [L] are the references of everybody else. *)
Definition updated (L : list positive) (h : heap) (x : roaring_bitmap_t) (m : list entry) (k : Z) (l : list Z)
    (x' : roaring_bitmap_t) (h' : heap) : Prop :=
  exists m', bm h' x' m' /\ (forall k', at_key m' k' = if decide (k' = k) then l else at_key m k') /\
    counted h' (bm_refs x' ++ L) /\ same_on L h h' /\ ra_flags x' = ra_flags x.

Lemma unshare_middle h x a s b e L : ra_slots x = a ++ s :: b -> slot_holds h s e -> counted h (bm_refs x ++ L) -> ra_size x <= ra_allocation_size x ->
  post (ra_unshare_container_at_index h x (zlen a)) (fun '(x', h') => exists c, with_slots x (a ++ mk_slot (s_key s) (plain c) :: b) x' /\
    valid c /\ container_elems c = snd e /\ counted h' (bm_refs x' ++ L) /\ same_on (slot_refs a ++ slot_refs b ++ L) h h').
Proof.
  intros Hx (Hk & c & Hp & V & Ee) Hc Hr. unfold ra_unshare_container_at_index. rewrite (container_middle x a s b Hx). cbn [mbind option_bind].
  unfold bm_refs in Hc. rewrite Hx, refs_middle in Hc. eapply post_bind; [by eapply writable_valid |]. intros [c' h'] ((V' & E') & C' & S').
  eapply post_bind; [by apply (set_middle x a s b Hx) |]. intros x' W. apply post_ret. exists c'. split; [done |]. split; [done |].
  split; [congruence |]. split; [| done]. unfold bm_refs. rewrite (proj1 W), refs_middle. exact C'.
Qed.

Section OneSlot.

Context (h : heap) (x : roaring_bitmap_t) (m : list entry) (L : list positive) (Hb : bm h x m).
Context (a : list slot) (s : slot) (b : list slot) (ma : list entry) (k : Z) (l : list Z) (mb : list entry).
Context (Hx : ra_slots x = a ++ s :: b) (Hm : m = ma ++ (k, l) :: mb) (Ha : holds h a ma) (Hs : slot_holds h s (k, l)) (Hbb : holds h b mb).
Context (Hna : k ∉ keys ma).

(** A plain container [c] in place of the slot. *)
Lemma put_updated h' x' c : with_slots x (a ++ mk_slot k (plain c) :: b) x' -> valid c ->
  counted h' (slot_refs a ++ slot_refs b ++ L) -> same_on (slot_refs a ++ slot_refs b ++ L) h h' ->
  updated L h x m k (container_elems c) x' h'.
Proof.
  intros W V C S. destruct (same_middle _ _ _ _ _ _ _ S Ha Hbb) as (Ha' & Hb' & SL).
  pose proof (bm_keys _ _ _ Hb) as Hk. pose proof (bm_range _ _ _ Hb) as Hrg. rewrite Hm, keys_middle in Hk, Hrg.
  exists (ma ++ (k, container_elems c) :: mb). split; [| split; [| split; [| split; [done | apply W]]]].
  - eapply bm_with_slots; [exact W | | by rewrite keys_middle | by rewrite keys_middle]. apply Forall2_app; [done |]. constructor; [| done].
    split; [done |]. by exists c.
  - intros k'. rewrite Hm, !at_put by done. by case_decide.
  - unfold bm_refs. rewrite (proj1 W), refs_middle. exact C.
Qed.

(** The slot is removed. *)
Lemma drop_updated h' x' : with_slots x (a ++ b) x' ->
  counted h' (slot_refs a ++ slot_refs b ++ L) -> same_on (slot_refs a ++ slot_refs b ++ L) h h' -> updated L h x m k [] x' h'.
Proof.
  intros W C S. destruct (same_middle _ _ _ _ _ _ _ S Ha Hbb) as (Ha' & Hb' & SL).
  pose proof (bm_keys _ _ _ Hb) as Hk. pose proof (bm_range _ _ _ Hb) as Hrg. rewrite Hm, keys_middle in Hk, Hrg.
  apply strict_app_inv in Hk as (K1 & K2 & Hlt). apply StronglySorted_inv in K2 as [K2 Kf]. cbn [fst] in *.
  exists (ma ++ mb). split; [| split; [| split; [| split; [done | apply W]]]].
  - eapply bm_with_slots; [exact W | by apply Forall2_app | |]; rewrite keys_app.
    + apply strict_app; [done | done |]. intros y1 y2 H1 H2. apply Hlt; [done |]. by constructor.
    + apply Forall_app in Hrg as [R1 R2]. inversion R2. by apply Forall_app.
  - intros k'. rewrite Hm, at_put by done. destruct (decide (k' = k)) as [-> | ?]; [| done].
    apply at_key_absent. rewrite keys_app, elem_of_app. intros [? | Hin]; [done |]. rewrite Forall_forall in Kf. specialize (Kf k Hin). lia.
  - unfold bm_refs. rewrite (proj1 W), slot_refs_app, <- app_assoc. exact C.
Qed.

End OneSlot.

(** A new slot with a plain container. *)
Lemma insert_updated h x m L a b ma mb k x' c : bm h x m -> counted h (bm_refs x ++ L) -> ra_slots x = a ++ b -> m = ma ++ mb ->
  holds h a ma -> holds h b mb -> k ∉ keys m -> strict (keys ma ++ k :: keys mb) -> in_u 16 k ->
  with_slots x (a ++ mk_slot k (plain c) :: b) x' -> valid c -> updated L h x m k (container_elems c) x' h.
Proof.
  intros Hb C Hx Hm Ha Hbb Hn Hs Hk W V. pose proof (bm_range _ _ _ Hb) as Hrg. rewrite Hm, keys_app in Hrg, Hn. apply Forall_app in Hrg as [R1 R2].
  exists (ma ++ (k, container_elems c) :: mb). split; [| split; [| split; [| split; [apply same_on_refl | apply W]]]].
  - eapply bm_with_slots; [exact W | | by rewrite keys_middle | rewrite keys_middle; apply Forall_app; split; [done | by constructor]].
    apply Forall2_app; [done |]. constructor; [| done]. split; [done |]. by exists c.
  - intros k'. rewrite Hm, at_put by (rewrite elem_of_app in Hn; tauto). done.
  - unfold bm_refs in *. rewrite (proj1 W), refs_middle. rewrite Hx, slot_refs_app, <- app_assoc in C. exact C.
Qed.

(** ** An example: two bitmaps that share a container *)

Definition pair_heap : heap := {[ 1%positive := mk_shared (Array (mk_array 4 [5])) 2 ]}.
Definition pair_bitmap : roaring_bitmap_t := mk_ra [mk_slot 0 (shared 1)] 4 ROARING_FLAG_COW.
Definition pair_entries : list entry := [(0, [5])].

Lemma pair_bm : bm pair_heap pair_bitmap pair_entries.
Proof.
  constructor; [| cbn; do 2 constructor | cbn; by repeat constructor | done]. constructor; [| constructor]. split; [done |]. exists (Array (mk_array 4 [5])).
  split; [split; [done |]; by exists 2 |]. split; [| done]. constructor; [| done | done]. by constructor; cbn; repeat constructor.
Qed.

Lemma pair_counted : counted pair_heap (bm_refs pair_bitmap ++ bm_refs pair_bitmap).
Proof.
  intros l. unfold pair_heap. destruct (decide (l = 1%positive)) as [-> | Hl]; [by rewrite lookup_singleton_eq |].
  rewrite lookup_singleton_ne by done. change (bm_refs pair_bitmap) with [1%positive]. cbn [app]. by rewrite !occ_cons, decide_False, occ_nil by done.
Qed.
