(* ===== verification/RoaringBitmapPoint.v ===== *)
(** * Roaring bitmaps: single values

    Adding, removing and looking up values; the heap stays consistent and the
    containers of other bitmaps are left as they are, shared or not. *)

From stdpp Require Import base list list_numbers numbers option sorting gmap.
From Stdlib Require Import ZArith Lia ZifyBool.
From S2P Require Import Prelude.
From S2P Require Import RoaringArrays.
From S2P Require Import RoaringArrayContainer.
From S2P Require Import RoaringArrayFacts.
From S2P Require Import RoaringBitset.
From S2P Require Import RoaringBitsetFacts.
From S2P Require Import RoaringBitsetOps.
From S2P Require Import RoaringBitsetContainer.
From S2P Require Import RoaringRun.
From S2P Require Import RoaringRunFacts.
From S2P Require Import RoaringRunSets.
From S2P Require Import RoaringRunContainer.
From S2P Require Import RoaringConvert.
From S2P Require Import RoaringConvertFacts.
From S2P Require Import RoaringMixedAndnot.
From S2P Require Import RoaringMixedUnion.
From S2P Require Import RoaringMixedNeg.
From S2P Require Import RoaringContainer.
From S2P Require Import RoaringContainerFacts.
From S2P Require Import RoaringContainerOps.
From S2P Require Import RoaringShared.

From S2P Require Import RoaringSharedFacts.
From S2P Require Import RoaringBitmap.

From S2P Require Import RoaringBitmapFacts.

Local Open Scope Z_scope.

Lemma high16_div v : high16 v = v / 65536.
Proof. unfold high16. by rewrite Z.shiftr_div_pow2. Qed.

Lemma low16_mod v : low16 v = v mod 65536.
Proof. unfold low16. change 65535 with (Z.ones 16). by rewrite Z.land_ones. Qed.

Lemma high16_range v : in_u 32 v -> in_u 16 (high16 v).
Proof. unfold in_u. rewrite high16_div. intros H. split; [apply Z.div_pos; lia | apply Z.div_lt_upper_bound; lia]. Qed.

Lemma low16_range v : in_u 16 (low16 v).
Proof. unfold in_u. rewrite low16_mod. pose proof (Z.mod_pos_bound v 65536). lia. Qed.

(** A new array container with one value. *)
Lemma new_container_spec v : in_u 16 v -> exists c, container_add (Array array_container_create) v = Some c /\ valid c /\ container_elems c = [v].
Proof.
  intros Hv. destruct (add_spec (Array array_container_create) v) as (c & E & O & S & El); [by constructor; [constructor | constructor |] | done | done |].
  cbn [container_elems ac_array array_container_create union_loop] in El. exists c. split; [done |]. assert (container_elems c = [v]) as El' by done.
  split; [| done]. constructor; [done | done | by rewrite El'].
Qed.

Lemma union_nonempty l x : union_loop l [x] <> [].
Proof. intros E. apply (not_elem_of_nil x). rewrite <- E, elem_of_union_loop, list_elem_of_singleton. by right. Qed.

Lemma add_valid c x : valid c -> in_u 16 x -> exists c', container_add c x = Some c' /\ valid c' /\ container_elems c' = union_loop (container_elems c) [x].
Proof.
  intros [O S _] Hx. destruct (add_spec c x O S Hx) as (c' & E & O' & S' & El). exists c'. split; [done |]. split; [| done].
  constructor; [done | done |]. rewrite El. apply union_nonempty.
Qed.

Section Update.

Context (h : heap) (x : roaring_bitmap_t) (m : list entry) (L : list positive) (val : Z).
Context (Hb : bm h x m) (Hc : counted h (bm_refs x ++ L)) (Hv : in_u 32 val).

Lemma room_for_key : high16 val ∉ keys m -> ra_size x + 1 <= MAX_CONTAINERS.
Proof.
  intros Hn. destruct (locate h x m (high16 val) Hb) as [(a & s & b & ma & l & mb & _ & -> & _) | (a & b & ma & mb & Hx & -> & Ha & Hbb & _ & _ & _ & Hs)].
  - exfalso. apply Hn. rewrite keys_middle, elem_of_app. right. constructor.
  - pose proof (bm_range _ _ _ Hb) as Hrg. rewrite keys_app in Hrg. apply Forall_app in Hrg as [R1 R2].
    assert (zlen (keys ma ++ high16 val :: keys mb) <= 65536) as H.
    { apply sorted16_length. split; [done |]. apply Forall_app. split; [done |]. constructor; [by apply high16_range | done]. }
    rewrite zlen_app, zlen_cons, !zlen_map_keys in H. unfold ra_size. rewrite Hx, zlen_app, (holds_length _ _ _ Ha), (holds_length _ _ _ Hbb).
    unfold MAX_CONTAINERS. lia.
Qed.

(** The common part of the functions that add a value: the index of the
    container, and what becomes of the bitmap. *)
Lemma containerptr_add_spec :
  post (containerptr_roaring_bitmap_add h x val) (fun '(i, x', h') =>
    updated L h x m (high16 val) (union_loop (at_key m (high16 val)) [low16 val]) x' h' /\
    exists a c b, ra_slots x' = a ++ mk_slot (high16 val) (plain c) :: b /\ i = zlen a).
Proof.
  pose proof (low16_range val) as Hlow. pose proof (high16_range val Hv) as Hhigh. pose proof (bm_room _ _ _ Hb) as Hr.
  unfold containerptr_roaring_bitmap_add. cbv zeta.
  destruct (locate h x m (high16 val) Hb) as [(a & s & b & ma & l & mb & Hx & Hm & Ha & Hs & Hbb & Ei & El & Hna) | (a & b & ma & mb & Hx & Hm & Ha & Hbb & Ei & El & Hn & Hst)];
    rewrite Ei, El; cbn [mbind option_bind].
  - pose proof (zlen_nonneg a). rewrite (proj2 (Z.leb_le _ _)) by done.
    eapply post_bind; [by apply (unshare_middle h x a s b (high16 val, l) L) |]. intros [x1 h1] (c & W & V & Ec & C1 & S1).
    rewrite (proj1 Hs) in W. cbn [fst snd] in *. rewrite (container_at_middle x1 a _ b (proj1 W) h1 c) by done. cbn [mbind option_bind].
    destruct (add_valid c (low16 val) V Hlow) as (c' & -> & V' & Ec'). cbn [mbind option_bind].
    eapply post_bind; [apply (set_middle x1 a _ b (proj1 W)); unfold ra_size; rewrite (proj1 W); apply W |]. intros x2 W2. apply post_ret. split.
    + rewrite Ec in Ec'. rewrite <- Ec'. eapply put_updated; try done.
      * destruct W as (_ & F & _), W2 as (E2 & F2 & R2). split; [done |]. split; [congruence | done].
      * unfold bm_refs in C1. rewrite (proj1 W), refs_middle in C1. exact C1.
    + exists a, c', b. split; [apply W2 | done].
  - pose proof (zlen_nonneg a). rewrite (proj2 (Z.leb_gt _ _)) by lia. destruct (new_container_spec (low16 val) Hlow) as (c & -> & V & Ec).
    cbn [mbind option_bind]. replace (- - (zlen a + 1) - 1) with (zlen a) by lia.
    eapply post_bind; [apply (insert_slot_spec x a b); [done | by apply room_for_key | done] |]. intros x' W. apply post_ret. split.
    + change (union_loop [] [low16 val]) with [low16 val]. rewrite <- Ec. by eapply insert_updated.
    + exists a, c, b. split; [apply W | done].
Qed.

Lemma bitmap_add_spec :
  post (roaring_bitmap_add h x val) (fun '(x', h') => updated L h x m (high16 val) (union_loop (at_key m (high16 val)) [low16 val]) x' h').
Proof.
  pose proof containerptr_add_spec as ([[i x'] h'] & E & U & _). exists (x', h'). split; [| done]. revert E.
  unfold containerptr_roaring_bitmap_add, roaring_bitmap_add. cbv zeta. destruct (ra_get_index x (high16 val)) as [j |]; [| done]. cbn [mbind option_bind].
  destruct (0 <=? j).
  - destruct (ra_unshare_container_at_index h x j) as [[x1 h1] |]; [| done]. cbn [mbind option_bind].
    destruct (container_at h1 x1 j) as [c |]; [| done]. cbn [mbind option_bind]. destruct (container_add c _) as [c' |]; [| done]. cbn [mbind option_bind].
    destruct (ra_set_container_at_index x1 j _) as [x2 |]; [| done]. cbn [mbind option_bind]. by intros [= _ <- <-].
  - destruct (container_add _ _) as [c' |]; [| done]. cbn [mbind option_bind].
    destruct (ra_insert_new_key_value_at x _ _ _) as [x2 |]; [| done]. cbn [mbind option_bind]. by intros [= _ <- <-].
Qed.

Lemma zlen_union_same l v : strict l -> (zlen l =? zlen (union_loop l [v])) = bool_decide (v ∈ l).
Proof. intros Hs. rewrite zlen_add by done. case_decide; [rewrite bool_decide_eq_true_2 by done | rewrite bool_decide_eq_false_2 by done]; lia. Qed.

(** A container changes its type only when the value is new. *)
Lemma add_type_change c v c' : valid c -> valid c' -> container_elems c' = container_elems c -> container_add c v = Some c' -> type_code c' = type_code c.
Proof.
  intros [O S _] [O' S' _] E. destruct c as [b | ar | r], c' as [b' | ar' | r']; cbn in S, S', E |- *; unfold DEFAULT_MAX_SIZE in *; try done;
    try (rewrite E in S'; intros; lia).
  - by intros (? & _ & [=])%bind_Some.
  - intros ([rc ac] & _ & H)%bind_Some. destruct (negb (rc =? -1)); [done |]. apply bind_Some in H as (? & _ & H). apply bind_Some in H as ([? ?] & _ & [=]).
  - by intros ([? ?] & _ & [=])%bind_Some.
  - by intros ([? ?] & _ & [=])%bind_Some.
Qed.

Lemma bitmap_add_checked_spec :
  post (roaring_bitmap_add_checked h x val) (fun '(r, x', h') =>
    r = bool_decide (low16 val ∉ at_key m (high16 val)) /\
    updated L h x m (high16 val) (union_loop (at_key m (high16 val)) [low16 val]) x' h').
Proof.
  pose proof (low16_range val) as Hlow. pose proof (high16_range val Hv) as Hhigh. pose proof (bm_room _ _ _ Hb) as Hr.
  unfold roaring_bitmap_add_checked. cbv zeta.
  destruct (locate h x m (high16 val) Hb) as [(a & s & b & ma & l & mb & Hx & Hm & Ha & Hs & Hbb & Ei & El & Hna) | (a & b & ma & mb & Hx & Hm & Ha & Hbb & Ei & El & Hn & Hst)];
    rewrite Ei, El; cbn [mbind option_bind].
  - pose proof (zlen_nonneg a). rewrite (proj2 (Z.leb_le _ _)) by done.
    eapply post_bind; [by apply (unshare_middle h x a s b (high16 val, l) L) |]. intros [x1 h1] (c & W & V & Ec & C1 & S1).
    rewrite (proj1 Hs) in W. cbn [fst snd] in *. rewrite (container_at_middle x1 a _ b (proj1 W) h1 c) by done. cbn [mbind option_bind].
    destruct (add_valid c (low16 val) V Hlow) as (c' & Ea & V' & Ec'). rewrite Ea. cbn [mbind option_bind].
    eapply post_bind; [apply (set_middle x1 a _ b (proj1 W)); unfold ra_size; rewrite (proj1 W); apply W |]. intros x2 W2.
    assert (updated L h x m (high16 val) (union_loop l [low16 val]) x2 h1) as U.
    { rewrite Ec in Ec'. rewrite <- Ec'. eapply put_updated; try done.
      - destruct W as (_ & F & _), W2 as (E2 & F2 & R2). split; [done |]. split; [congruence | done].
      - unfold bm_refs in C1. rewrite (proj1 W), refs_middle in C1. exact C1. }
    pose proof (container_strict c (v_ok _ V)) as Hst. rewrite !cardinality_spec by (apply V || apply V'). rewrite Ec', Ec in *.
    destruct (Z.eqb_spec (type_code c') (type_code c)) as [Ht | Ht]; cbn [negb].
    + apply post_ret. split; [| done]. rewrite zlen_union_same by done. by rewrite bool_decide_not.
    + apply post_ret. split; [| done]. symmetry. apply bool_decide_eq_true. intros Hin. apply Ht. apply (add_type_change c (low16 val) c'); try done.
      rewrite Ec', Ec. apply strict_ext; [apply union_loop_strict; [done | apply strict_one] | done |].
      intros y. rewrite elem_of_union_loop, list_elem_of_singleton. split; [intros [? | ->]; done | by left].
  - pose proof (zlen_nonneg a). rewrite (proj2 (Z.leb_gt _ _)) by lia. destruct (new_container_spec (low16 val) Hlow) as (c & -> & V & Ec).
    cbn [mbind option_bind]. replace (- - (zlen a + 1) - 1) with (zlen a) by lia.
    eapply post_bind; [apply (insert_slot_spec x a b); [done | by apply room_for_key | done] |]. intros x' W. apply post_ret. split.
    + symmetry. apply bool_decide_eq_true, not_elem_of_nil.
    + change (union_loop [] [low16 val]) with [low16 val]. rewrite <- Ec. by eapply insert_updated.
Qed.

(** The container at index [zlen a] without the value, kept or removed. *)
Lemma remove_at_spec a s b ma l mb : ra_slots x = a ++ s :: b -> m = ma ++ (high16 val, l) :: mb -> holds h a ma ->
  slot_holds h s (high16 val, l) -> holds h b mb -> high16 val ∉ keys ma ->
  forall x1 h1 c, with_slots x (a ++ mk_slot (high16 val) (plain c) :: b) x1 -> valid c -> container_elems c = l ->
  counted h1 (bm_refs x1 ++ L) -> same_on (slot_refs a ++ slot_refs b ++ L) h h1 ->
  exists c', container_remove c (low16 val) = Some c' /\ container_get_cardinality c' = zlen (minus l [low16 val]) /\
    post (ra_set_container_at_index x1 (zlen a) (plain c')) (fun x2 =>
      post (if negb (container_get_cardinality c' =? 0) then Some (x2, h1) else ra_remove_at_index_and_free h1 x2 (zlen a))
        (fun '(x', h') => updated L h x m (high16 val) (minus l [low16 val]) x' h')).
Proof.
  intros Hx Hm Ha Hs Hbb Hna x1 h1 c W V Ec C1 S1. pose proof (low16_range val) as Hlow.
  destruct (remove_spec c (low16 val) (v_ok _ V) (v_sized _ V) Hlow) as (c' & Er & O' & S' & Ec'). exists c'. split; [done |]. rewrite Ec in Ec'.
  split; [by rewrite cardinality_spec, Ec' |].
  eapply post_mono; [apply (set_middle x1 a _ b (proj1 W)); unfold ra_size; rewrite (proj1 W); apply W |]. intros x2 W2. cbn [s_key] in W2.
  assert (with_slots x (a ++ mk_slot (high16 val) (plain c') :: b) x2) as W3.
  { destruct W as (_ & F & _), W2 as (E2 & F2 & R2). split; [done |]. split; [congruence | done]. }
  unfold bm_refs in C1. rewrite (proj1 W), refs_middle in C1. cbn [s_typed plain refs fst app] in C1.
  rewrite cardinality_spec, Ec' by done. destruct (Z.eqb_spec (zlen (minus l [low16 val])) 0) as [Hz | Hz]; cbn [negb].
  - unfold ra_remove_at_index_and_free. rewrite (container_middle x2 a _ b (proj1 W2)). cbn [mbind option_bind s_typed].
    eapply post_bind; [apply (free_spec h1 (plain c') c' (slot_refs a ++ slot_refs b ++ L)); [exact C1 | done] |]. intros h2 [C2 S2].
    eapply post_bind; [apply (remove_middle x2 a _ b (proj1 W2)); unfold ra_size; rewrite (proj1 W2); apply W2 |]. intros x3 W4. apply post_ret.
    apply Z.eqb_eq, zlen_zero in Hz. rewrite Hz. eapply drop_updated; try done; [| by eapply same_on_trans].
    destruct W3 as (_ & F & _), W4 as (E4 & F4 & R4). split; [done |]. split; [congruence | done].
  - apply post_ret. rewrite <- Ec'. eapply put_updated; try done. constructor; [done | done |]. rewrite Ec'. by apply zlen_ne.
Qed.

Lemma minus_one_absent l v : v ∉ l -> minus l [v] = l.
Proof.
  intros Hn. induction l as [|y l IH]; [done |]. rewrite elem_of_cons in Hn. rewrite minus_cons, decide_False, IH by (rewrite ?list_elem_of_singleton; tauto || (intros ->; tauto)). done.
Qed.

Lemma bitmap_remove_checked_spec :
  post (roaring_bitmap_remove_checked h x val) (fun '(r, x', h') =>
    r = bool_decide (low16 val ∈ at_key m (high16 val)) /\
    updated L h x m (high16 val) (minus (at_key m (high16 val)) [low16 val]) x' h').
Proof.
  unfold roaring_bitmap_remove_checked. cbv zeta. pose proof (bm_room _ _ _ Hb) as Hr.
  destruct (locate h x m (high16 val) Hb) as [(a & s & b & ma & l & mb & Hx & Hm & Ha & Hs & Hbb & Ei & El & Hna) | (a & b & ma & mb & Hx & Hm & Ha & Hbb & Ei & El & Hn & Hst)];
    rewrite Ei, El; cbn [mbind option_bind]; pose proof (zlen_nonneg a).
  - rewrite (proj2 (Z.leb_le _ _)) by done.
    eapply post_bind; [by apply (unshare_middle h x a s b (high16 val, l) L) |]. intros [x1 h1] (c & W & V & Ec & C1 & S1).
    rewrite (proj1 Hs) in W. cbn [fst snd] in *. rewrite (container_at_middle x1 a _ b (proj1 W) h1 c) by done. cbn [mbind option_bind].
    destruct (remove_at_spec a s b ma l mb Hx Hm Ha Hs Hbb Hna x1 h1 c W V Ec C1 S1) as (c' & -> & Ecard & P). cbn [mbind option_bind].
    eapply post_bind; [exact P |]. intros x2 P2. cbv beta in P2. eapply post_bind; [exact P2 |]. intros [x' h'] U. apply post_ret. split; [| done].
    pose proof (container_strict c (v_ok _ V)) as Hst. rewrite cardinality_spec by apply V. rewrite Ecard, Ec. rewrite Ec in Hst.
    rewrite zlen_minus_one by done. case_decide; [rewrite bool_decide_eq_true_2 by done | rewrite bool_decide_eq_false_2 by done]; lia.
  - rewrite (proj2 (Z.leb_gt _ _)) by lia. apply post_ret. split; [symmetry; apply bool_decide_eq_false, not_elem_of_nil |].
    exists m. split; [done |]. split; [intros k'; case_decide; by subst |]. split; [done |]. split; [apply same_on_refl | done].
Qed.

Lemma bitmap_remove_spec :
  post (roaring_bitmap_remove h x val) (fun '(x', h') => updated L h x m (high16 val) (minus (at_key m (high16 val)) [low16 val]) x' h').
Proof.
  pose proof bitmap_remove_checked_spec as ([[i x'] h'] & E & _ & U). exists (x', h'). split; [| done]. revert E.
  unfold roaring_bitmap_remove_checked, roaring_bitmap_remove. cbv zeta. destruct (ra_get_index x (high16 val)) as [j |]; [| done]. cbn [mbind option_bind].
  destruct (0 <=? j); [| congruence].
  destruct (ra_unshare_container_at_index h x j) as [[x1 h1] |]; [| done]. cbn [mbind option_bind].
  destruct (container_at h1 x1 j) as [c |]; [| done]. cbn [mbind option_bind]. destruct (container_remove c _) as [c' |]; [| done]. cbn [mbind option_bind].
  destruct (ra_set_container_at_index x1 j _) as [x2 |]; [| done]. cbn [mbind option_bind].
  destruct (negb (container_get_cardinality c' =? 0)); cbn [mbind option_bind]; [by intros [= _ <- <-] |].
  destruct (ra_remove_at_index_and_free h1 x2 j) as [[x3 h3] |]; [| done]. cbn [mbind option_bind]. by intros [= _ <- <-].
Qed.

End Update.

Lemma bitmap_contains_spec h x m val : bm h x m -> in_u 32 val -> roaring_bitmap_contains h x val = Some (bool_decide (val ∈ values m)).
Proof.
  intros Hb Hv. unfold roaring_bitmap_contains. cbv zeta.
  assert (bool_decide (val ∈ values m) = bool_decide (low16 val ∈ at_key m (high16 val))) as ->.
  { apply bool_decide_ext. rewrite low16_mod, high16_div. apply elem_of_values. by eapply bm_entries. }
  destruct (locate h x m (high16 val) Hb) as [(a & s & b & ma & l & mb & Hx & Hm & Ha & Hs & Hbb & Ei & El & Hna) | (a & b & ma & mb & Hx & Hm & Ha & Hbb & Ei & El & Hn & Hst)];
    rewrite Ei, El; cbn [mbind option_bind]; pose proof (zlen_nonneg a).
  - rewrite (proj2 (Z.ltb_ge _ _)) by done. destruct Hs as (Hk & c & Hp & V & Ec). rewrite (container_at_middle x a s b Hx h c Hp). cbn [mbind option_bind].
    rewrite contains_spec by (apply V || apply low16_range). by rewrite Ec.
  - rewrite (proj2 (Z.ltb_lt _ _)) by lia. by rewrite bool_decide_eq_false_2 by apply not_elem_of_nil.
Qed.

(** ** Sets of values *)

(** [x'] holds the values that satisfy [P]; the others keep what they have. *)
Definition becomes (L : list positive) (h : heap) (P : Z -> Prop) (x' : roaring_bitmap_t) (h' : heap) : Prop :=
  exists m', bm h' x' m' /\ (forall y, y ∈ values m' <-> P y) /\ counted h' (bm_refs x' ++ L) /\ same_on L h h'.

Lemma elem_of_bm h x m y : bm h x m -> y ∈ values m <-> low16 y ∈ at_key m (high16 y).
Proof. intros H. rewrite low16_mod, high16_div. by eapply elem_of_values, bm_entries. Qed.

Lemma high_low_inj y z : high16 y = high16 z -> low16 y = low16 z -> y = z.
Proof. rewrite !high16_div, !low16_mod. intros H1 H2. rewrite (Z.div_mod y 65536), (Z.div_mod z 65536) by lia. congruence. Qed.

Lemma updated_values L h x m k l x' h' (P : Z -> Prop) : bm h x m -> updated L h x m k l x' h' ->
  (forall y, P y <-> if decide (high16 y = k) then low16 y ∈ l else y ∈ values m) -> becomes L h P x' h'.
Proof.
  intros Hb (m' & Hm' & Ha & C & S & _) HP. exists m'. split; [done |]. split; [| done]. intros y. rewrite (elem_of_bm _ _ _ y Hm'), Ha, HP.
  case_decide; [done |]. symmetry. by eapply elem_of_bm.
Qed.

Lemma updated_add L h x m v x' h' : bm h x m -> updated L h x m (high16 v) (union_loop (at_key m (high16 v)) [low16 v]) x' h' ->
  becomes L h (fun y => y = v \/ y ∈ values m) x' h'.
Proof.
  intros Hb U. eapply updated_values; [done | exact U |]. intros y. cbv beta. rewrite (elem_of_bm _ _ _ y Hb). case_decide as D.
  - rewrite elem_of_union_loop, list_elem_of_singleton, D. split.
    + intros [-> | ?]; [by right | by left].
    + intros [? | ?]; [by right | left; by apply high_low_inj].
  - rewrite <- (elem_of_bm _ _ _ y Hb). split; [by intros [-> | ?] | by right].
Qed.

Lemma updated_remove L h x m v x' h' : bm h x m -> updated L h x m (high16 v) (minus (at_key m (high16 v)) [low16 v]) x' h' ->
  becomes L h (fun y => y <> v /\ y ∈ values m) x' h'.
Proof.
  intros Hb U. eapply updated_values; [done | exact U |]. intros y. cbv beta. rewrite (elem_of_bm _ _ _ y Hb). case_decide as D.
  - rewrite elem_of_minus, list_elem_of_singleton, D. split.
    + intros [N H]. split; [done |]. intros E. apply N. by apply high_low_inj.
    + intros [H N]. split; [| done]. intros ->. done.
  - rewrite <- (elem_of_bm _ _ _ y Hb). split; [by intros [_ ?] |]. intros H. split; [by intros -> | done].
Qed.

Lemma high16_same u v : in_u 32 u -> in_u 32 v -> high16 (Z.lxor u v) = 0 -> high16 u = high16 v.
Proof. intros _ _. unfold high16. rewrite Z.shiftr_lxor. apply Z.lxor_eq. Qed.

(** The entries on both sides of a slot. *)
Lemma bm_middle h x m a s b : bm h x m -> ra_slots x = a ++ s :: b -> exists ma l mb, m = ma ++ (s_key s, l) :: mb /\
  holds h a ma /\ slot_holds h s (s_key s, l) /\ holds h b mb /\ (s_key s ∉ keys ma) /\ at_key m (s_key s) = l.
Proof.
  intros Hb Hx. pose proof (bm_holds _ _ _ Hb) as Hh. rewrite Hx in Hh. apply holds_app_inv in Hh as (ma & mb & -> & Ha & Hh).
  apply holds_cons_inv in Hh as ([k l] & mb' & -> & Hs & Hb'). pose proof (proj1 Hs) as Hk. cbn [fst] in Hk. subst k.
  assert (s_key s ∉ keys ma) as Hn.
  { intros Hin. pose proof (bm_keys _ _ _ Hb) as Hst. rewrite keys_middle in Hst. apply strict_app_inv in Hst as (_ & _ & Hlt).
    specialize (Hlt _ (s_key s) Hin ltac:(constructor)). lia. }
  exists ma, l, mb'. do 5 (split; [done |]). rewrite at_put by done. by rewrite decide_True.
Qed.

Lemma becomes_trans L h h1 h2 x1 m1 x2 (P Q : Z -> Prop) : bm h1 x1 m1 -> same_on L h h1 -> becomes L h1 Q x2 h2 ->
  (forall y, Q y <-> P y) -> becomes L h P x2 h2.
Proof. intros _ S (m & Hm & Hv & C & S2) HPQ. exists m. split; [done |]. split; [intros y; by rewrite Hv, HPQ |]. split; [done | by eapply same_on_trans]. Qed.

Lemma add_many_loop_spec L vals : forall h x m prev a c b, bm h x m -> counted h (bm_refs x ++ L) -> in_u 32 prev -> Forall (in_u 32) vals ->
  ra_slots x = a ++ mk_slot (high16 prev) (plain c) :: b ->
  post (add_many_loop h x vals prev (zlen a)) (fun '(x', h') => becomes L h (fun y => y ∈ vals \/ y ∈ values m) x' h').
Proof.
  induction vals as [|v vals IH]; intros h x m prev a c b Hb Hc Hp Hvs Hx.
  - apply post_ret. exists m. split; [done |]. split; [intros y; rewrite elem_of_nil; tauto |]. split; [done | apply same_on_refl].
  - apply Forall_cons in Hvs as [Hv Hvs]. cbn [add_many_loop].
    assert (forall x1 h1 a1 c1 b1, updated L h x m (high16 v) (union_loop (at_key m (high16 v)) [low16 v]) x1 h1 ->
      ra_slots x1 = a1 ++ mk_slot (high16 v) (plain c1) :: b1 ->
      post (add_many_loop h1 x1 vals v (zlen a1)) (fun '(x', h') => becomes L h (fun y => y ∈ v :: vals \/ y ∈ values m) x' h')) as Hnext.
    { intros x1 h1 a1 c1 b1 U E1. destruct (updated_add L h x m v x1 h1 Hb U) as (m1 & Hm1 & Hv1 & C1 & S1).
      eapply post_mono; [apply (IH h1 x1 m1 v a1 c1 b1); done |]. intros [x' h'] B. eapply becomes_trans; [exact Hm1 | done | exact B |].
      intros y. cbv beta. rewrite Hv1, elem_of_cons. tauto. }
    destruct (Z.eqb_spec (high16 (Z.lxor prev v)) 0) as [He | He].
    + apply high16_same in He; [| done | done]. destruct (bm_middle h x m a _ b Hb Hx) as (ma & l & mb & Hm & Ha & Hs & Hbb & Hna & Hat). cbn [s_key] in *.
      destruct Hs as (Hk & c0 & Hpt & V & Ec). pose proof (points_inj _ _ _ _ (points_plain h c) Hpt) as <-. cbn [snd] in Ec.
      rewrite (container_at_middle x a _ b Hx h c) by done. cbn [mbind option_bind].
      destruct (add_valid c (low16 v) V (low16_range v)) as (c' & -> & V' & Ec'). cbn [mbind option_bind].
      eapply post_bind; [apply (set_middle x a _ b Hx), (bm_room _ _ _ Hb) |]. intros x1 W. cbn [s_key] in W.
      apply (Hnext x1 h a c' b); [| rewrite (proj1 W); by rewrite He].
      rewrite <- He, Hat, <- Ec, <- Ec'. eapply (put_updated h x m L Hb a b ma (high16 prev) l mb); try done.
      unfold bm_refs in Hc. rewrite Hx, refs_middle in Hc. exact Hc.
    + eapply post_bind; [by apply (containerptr_add_spec h x m L v) |]. intros [[i x1] h1] (U & a1 & c1 & b1 & E1 & ->). by eapply Hnext.
Qed.

Lemma add_many_spec L h x m vals : bm h x m -> counted h (bm_refs x ++ L) -> Forall (in_u 32) vals ->
  post (roaring_bitmap_add_many h x vals) (fun '(x', h') => becomes L h (fun y => y ∈ vals \/ y ∈ values m) x' h').
Proof.
  intros Hb Hc Hvs. destruct vals as [|v vals].
  - apply post_ret. exists m. split; [done |]. split; [intros y; rewrite elem_of_nil; tauto |]. split; [done | apply same_on_refl].
  - apply Forall_cons in Hvs as [Hv Hvs]. cbn [roaring_bitmap_add_many]. eapply post_bind; [by apply (containerptr_add_spec h x m L v) |].
    intros [[i x1] h1] (U & a1 & c1 & b1 & E1 & ->). destruct (updated_add L h x m v x1 h1 Hb U) as (m1 & Hm1 & Hv1 & C1 & S1).
    eapply post_mono; [apply (add_many_loop_spec L vals h1 x1 m1 v a1 c1 b1); done |]. intros [x' h'] B. eapply becomes_trans; [exact Hm1 | done | exact B |].
    intros y. cbv beta. rewrite Hv1, elem_of_cons. tauto.
Qed.

Lemma create_bm h : bm h roaring_bitmap_create [].
Proof. constructor; cbn; constructor || done. Qed.

Lemma of_ptr_spec L h vals : counted h L -> Forall (in_u 32) vals ->
  post (roaring_bitmap_of_ptr h vals) (fun '(x', h') => becomes L h (fun y => y ∈ vals) x' h').
Proof.
  intros Hc Hvs. eapply post_mono; [apply (add_many_spec L h roaring_bitmap_create [] vals); [apply create_bm | done | done] |].
  intros [x' h'] B. eapply becomes_trans; [apply (create_bm h) | apply same_on_refl | exact B |]. intros y. cbv beta. cbn [values mbind list_bind]. rewrite elem_of_nil. tauto.
Qed.

(** ** The claim *)

(** C39: on a bitmap with entries [m] whose containers may be shared with
    others, [roaring_bitmap_contains] decides membership, and
    [roaring_bitmap_add], [roaring_bitmap_remove], their checked forms and
    [roaring_bitmap_add_many] run to the end (no shared container is freed
    twice or used after its release, no write leaves its memory; the memory of
    containers that are not shared is not tracked), leave exactly the
    values asked for in a well-formed bitmap, tell whether they changed it,
    keep every reference counter equal to the number of references, and leave
    the containers behind the references [L] of other bitmaps as they are. *)
Theorem bitmap_point_operations L h x m val vals : bm h x m -> counted h (bm_refs x ++ L) -> in_u 32 val -> Forall (in_u 32) vals ->
  roaring_bitmap_contains h x val = Some (bool_decide (val ∈ values m)) /\
  post (roaring_bitmap_add h x val) (fun '(x', h') => becomes L h (fun y => y = val \/ y ∈ values m) x' h') /\
  post (roaring_bitmap_add_checked h x val) (fun '(r, x', h') =>
    r = bool_decide (val ∉ values m) /\ becomes L h (fun y => y = val \/ y ∈ values m) x' h') /\
  post (roaring_bitmap_remove h x val) (fun '(x', h') => becomes L h (fun y => y <> val /\ y ∈ values m) x' h') /\
  post (roaring_bitmap_remove_checked h x val) (fun '(r, x', h') =>
    r = bool_decide (val ∈ values m) /\ becomes L h (fun y => y <> val /\ y ∈ values m) x' h') /\
  post (roaring_bitmap_add_many h x vals) (fun '(x', h') => becomes L h (fun y => y ∈ vals \/ y ∈ values m) x' h').
Proof.
  intros Hb Hc Hv Hvs. split; [by apply bitmap_contains_spec |]. split; [| split; [| split; [| split]]].
  - eapply post_mono; [by apply (bitmap_add_spec h x m L val) |]. intros [x' h'] U. by eapply updated_add.
  - eapply post_mono; [by apply (bitmap_add_checked_spec h x m L val) |]. intros [[r x'] h'] [-> U]. split; [| by eapply updated_add].
    apply bool_decide_ext. by rewrite (elem_of_bm h x m val Hb).
  - eapply post_mono; [by apply (bitmap_remove_spec h x m L val) |]. intros [x' h'] U. by eapply updated_remove.
  - eapply post_mono; [by apply (bitmap_remove_checked_spec h x m L val) |]. intros [[r x'] h'] [-> U]. split; [| by eapply updated_remove].
    apply bool_decide_ext. by rewrite (elem_of_bm h x m val Hb).
  - by apply add_many_spec.
Qed.

Lemma bitmap_point_operations_witness :
  post (roaring_bitmap_add pair_heap pair_bitmap 65541) (fun '(x', h') =>
    becomes (bm_refs pair_bitmap) pair_heap (fun y => y = 65541 \/ y ∈ values pair_entries) x' h') /\
  roaring_bitmap_contains pair_heap pair_bitmap 5 = Some true.
Proof.
  split.
  - apply (bitmap_point_operations (bm_refs pair_bitmap) pair_heap pair_bitmap pair_entries 65541 [] pair_bm pair_counted); [done | constructor].
  - apply (bitmap_point_operations (bm_refs pair_bitmap) pair_heap pair_bitmap pair_entries 5 [] pair_bm pair_counted); [done | constructor].
Defined.
