(* ===== verification/RoaringBitmapMerge.v ===== *)
(** * Roaring bitmaps: entries in step

    What the loops over two bitmaps share: the entries of both are walked in
    the order of their keys, containers are copied, combined and appended, and
    the content of the result is described key by key. *)

From stdpp Require Import base list list_numbers numbers option sorting gmap.
From Stdlib Require Import ZArith Lia ZifyBool.
From S2P Require Import Prelude.
From S2P Require Import RoaringArrays.
From S2P Require Import RoaringArrayContainer.
From S2P Require Import RoaringArrayFacts.
From S2P Require Import RoaringBitset.
From S2P Require Import RoaringBitsetFacts.
From S2P Require Import RoaringBitsetOps.
From S2P Require Import RoaringBitsetContainer.
From S2P Require Import RoaringRun.
From S2P Require Import RoaringRunFacts.
From S2P Require Import RoaringRunSets.
From S2P Require Import RoaringRunContainer.
From S2P Require Import RoaringConvert.
From S2P Require Import RoaringConvertFacts.
From S2P Require Import RoaringMixedAndnot.
From S2P Require Import RoaringMixedUnion.
From S2P Require Import RoaringMixedNeg.
From S2P Require Import RoaringContainer.
From S2P Require Import RoaringContainerFacts.
From S2P Require Import RoaringContainerOps.
From S2P Require Import RoaringShared.

From S2P Require Import RoaringSharedFacts.
From S2P Require Import RoaringBitmap.

From S2P Require Import RoaringBitmapFacts.

From S2P Require Import RoaringBitmapPoint.

Local Open Scope Z_scope.

(** ** Entries of two maps *)

(** [P] says for a value whether it is in the result, from whether it is in
    the first and in the second argument. *)
Definition merged (P : Prop -> Prop -> Prop) (m1 m2 m : list entry) : Prop :=
  forall k y, y ∈ at_key m k <-> P (y ∈ at_key m1 k) (y ∈ at_key m2 k).

(** The entry of a key, if there is one. *)
Definition one (k : Z) (l : list Z) : list entry := match l with [] => [] | _ => [(k, l)] end.

Lemma at_one k l m k' : k ∉ keys m -> at_key (one k l ++ m) k' = if k =? k' then l else at_key m k'.
Proof.
  intros H. destruct l as [|y l]; cbn [one app at_key]; [| done]. destruct (Z.eqb_spec k k') as [<- | ?]; [by apply at_key_absent | done].
Qed.

Lemma keys_one k l : keys (one k l) ⊆ [k].
Proof. destruct l; cbn; [apply list_subseteq_nil | done]. Qed.

Lemma not_in_later k m : Forall (fun k' => k < k') (keys m) -> k ∉ keys m.
Proof. rewrite Forall_forall. intros H Hin. specialize (H k Hin). lia. Qed.

Section Merged.

Context (P : Prop -> Prop -> Prop).

Lemma merged_both k l1 l2 l m1 m2 m : k ∉ keys m -> (forall y, y ∈ l <-> P (y ∈ l1) (y ∈ l2)) -> merged P m1 m2 m ->
  merged P ((k, l1) :: m1) ((k, l2) :: m2) (one k l ++ m).
Proof. intros Hk Hl Hm k' y. rewrite at_one by done. cbn [at_key]. destruct (k =? k'); [apply Hl | apply Hm]. Qed.

(** An entry of one side only, kept or left out. *)
Lemma merged_left_keep k l m1 m2 m : k ∉ keys m2 -> (forall y : Z, P (y ∈ l) (y ∈ []) <-> y ∈ l) -> merged P m1 m2 m ->
  merged P ((k, l) :: m1) m2 ((k, l) :: m).
Proof.
  intros Hk HP Hm k' y. cbn [at_key]. destruct (Z.eqb_spec k k') as [<- | ?]; [| apply Hm]. rewrite (at_key_absent m2) by done. by rewrite HP.
Qed.

Lemma merged_left_drop k l m1 m2 m : k ∉ keys m1 -> k ∉ keys m2 -> (forall l y, y ∈ [] <-> P (y ∈ (l : list Z)) (y ∈ [])) -> merged P m1 m2 m ->
  merged P ((k, l) :: m1) m2 m.
Proof.
  intros Hk1 Hk2 HP Hm k' y. cbn [at_key]. destruct (Z.eqb_spec k k') as [<- | ?]; [| apply Hm].
  rewrite (Hm k y), (at_key_absent m1), (at_key_absent m2) by done. by rewrite <- !HP.
Qed.

Lemma merged_swap m1 m2 m : merged (fun A B => P B A) m1 m2 m <-> merged P m2 m1 m.
Proof. done. Qed.

End Merged.

(** ** A bitmap at one of its entries *)

Lemma keys_strict_cons e r : strict (keys (e :: r)) -> Forall (fun k' => fst e < k') (keys r) /\ strict (keys r).
Proof. intros [H1 H2]%StronglySorted_inv. split; [done | done]. Qed.

Section AtEntry.

Context (h : heap) (x : roaring_bitmap_t) (d : list entry) (e : entry) (r : list entry) (Hb : bm h x (d ++ e :: r)).

Lemma bm_split : exists a s b, ra_slots x = a ++ s :: b /\ zlen d = zlen a /\ holds h a d /\ slot_holds h s e /\ holds h b r.
Proof.
  pose proof (bm_holds _ _ _ Hb) as H. apply Forall2_app_inv_r in H as (a & b & Ha & H & Hx). apply Forall2_cons_inv_r in H as (s & b' & Hs & Hbb & ->).
  exists a, s, b'. split; [done |]. split; [symmetry; by eapply holds_length | done].
Qed.

Lemma entry_key : ra_get_key_at_index x (zlen d) = Some (fst e).
Proof. destruct bm_split as (a & s & b & Hx & -> & _ & [Hk _] & _). rewrite (key_middle x a s b Hx). by rewrite Hk. Qed.

Lemma entry_typed : exists t c, ra_get_container_at_index x (zlen d) = Some t /\ points h t c /\ valid c /\ container_elems c = snd e.
Proof.
  destruct bm_split as (a & s & b & Hx & -> & _ & (_ & c & H) & _). rewrite (container_middle x a s b Hx). by exists (s_typed s), c.
Qed.

Lemma entry_container : exists c, container_at h x (zlen d) = Some c /\ valid c /\ container_elems c = snd e.
Proof.
  destruct bm_split as (a & s & b & Hx & -> & _ & (_ & c & H & V) & _). rewrite (container_at_middle x a s b Hx h c H). by exists c.
Qed.

Lemma entry_below : zlen d < ra_size x.
Proof. destruct (bm_size _ _ _ Hb) as [-> _]. rewrite zlen_app, zlen_cons. pose proof (zlen_nonneg r). lia. Qed.

Lemma entry_later : Forall (fun k => fst e < k) (keys r).
Proof. pose proof (bm_keys _ _ _ Hb) as H. rewrite keys_app in H. apply strict_app_inv in H as (_ & H & _). by apply keys_strict_cons in H as [H _]. Qed.

Lemma entry_copy_out L : counted h (bm_refs x ++ L) -> space (bm_refs x ++ L) 1 ->
  post (copy_out h x (zlen d)) (fun '(t, x', h') => bm h' x' (d ++ e :: r) /\ slot_holds h' (mk_slot (fst e) t) e /\
    counted h' (refs t ++ bm_refs x' ++ L) /\ same_on L h h' /\ ra_flags x' = ra_flags x /\ (is_cow x = false -> refs t = [] /\ x' = x) /\
    zlen (refs t ++ bm_refs x') <= zlen (bm_refs x) + 2).
Proof.
  intros Hc Hl. destruct bm_split as (a & s & b & Hx & -> & Ha & Hs & Hbb).
  eapply post_mono; [apply (copy_out_spec h x a s b e L Hx Hs Hc ltac:(unfold space in Hl; lia)), (bm_room _ _ _ Hb) |].
  intros [[t x'] h'] (s' & W & S1 & S2 & C & M & T). destruct (same_middle _ _ _ _ _ _ _ M Ha Hbb) as (Ha' & Hb' & ML).
  pose proof (bm_keys _ _ _ Hb). pose proof (bm_range _ _ _ Hb). split; [| split; [| split; [| split; [| split; [| split]]]]]; try done; [| apply W |].
  - eapply bm_with_slots; [exact W | | done | done]. apply Forall2_app; [done |]. by constructor.
  - unfold bm_refs. rewrite (proj1 W), Hx, !slot_refs_app, !slot_refs_cons, !zlen_app.
    pose proof (zlen_refs t). pose proof (zlen_refs (s_typed s)). pose proof (zlen_refs (s_typed s')). lia.
Qed.

(** The index of the first entry from here on whose key is at least [k]. *)
Lemma entry_advance k : fst e < k -> exists p q, r = p ++ q /\ ra_advance_until x k (zlen d) = Some (zlen (d ++ e :: p)) /\
  Forall (fun k' => k' < k) (keys p) /\ Forall (fun k' => k <= k') (keys q).
Proof.
  intros Hk. destruct (split_at h x (d ++ e :: r) k Hb) as (a & b & ma & mb & Hx & Hm & Ha & Hbb & Hz & Hlo & Hhi).
  assert (exists p, ma = d ++ e :: p /\ r = p ++ mb) as (p & -> & ->).
  { assert (~ Exists (fun e' => e' = e) mb) as Hne.
    { rewrite Exists_exists. intros (e' & Hin & ->). rewrite Forall_forall in Hhi. specialize (Hhi (fst e)). cbv beta in Hhi.
      assert (fst e ∈ keys mb) as Hin' by (apply list_elem_of_fmap; by exists e). specialize (Hhi Hin'). lia. }
    apply app_eq_inv in Hm as [(l & _ & Hm) | (l & Hd & Hm)].
    - destruct Hne. rewrite Hm. apply Exists_app. right. by constructor.
    - destruct l as [|e' p]; [destruct Hne; cbn in Hm; rewrite <- Hm; by constructor |]. injection Hm as <- ->. by exists p. }
  exists p, mb. split; [done |]. rewrite keys_middle in Hlo. apply Forall_app in Hlo as [_ Hlo]. apply Forall_cons in Hlo as [_ Hlo]. split; [| done].
  unfold ra_advance_until. rewrite (bm_ra_keys _ _ _ Hb), advanceUntil_spec by (apply (bm_keys _ _ _ Hb) || (pose proof (zlen_nonneg d); lia)).
  rewrite <- Hz, (holds_length _ _ _ Ha), zlen_app, zlen_cons. pose proof (zlen_nonneg p). f_equal. lia.
Qed.

End AtEntry.

(** ** Appending entries *)

Lemma keys_snoc m k l : keys (m ++ [(k, l)]) = keys m ++ [k].
Proof. apply keys_app. Qed.

Lemma snoc_room h x m k : bm h x m -> Forall (fun k' => k' < k) (keys m) -> in_u 16 k -> ra_size x + 1 <= MAX_CONTAINERS /\
  strict (keys m ++ [k]) /\ Forall (in_u 16) (keys m ++ [k]).
Proof.
  intros Hb Hlt Hk. assert (strict (keys m ++ [k])) as Hs.
  { apply strict_app; [apply (bm_keys _ _ _ Hb) | repeat constructor |]. intros y1 y2 H1 ->%list_elem_of_singleton. rewrite Forall_forall in Hlt. by apply Hlt. }
  assert (Forall (in_u 16) (keys m ++ [k])) as Hr by (apply Forall_app; split; [apply (bm_range _ _ _ Hb) | by constructor]).
  split; [| done]. destruct (bm_size _ _ _ Hb) as [-> _]. pose proof (sorted16_length _ (conj Hs Hr)) as H.
  rewrite zlen_app, zlen_map_keys in H. exact H.
Qed.

Lemma append_bm h x m k t l : bm h x m -> Forall (fun k' => k' < k) (keys m) -> in_u 16 k -> slot_holds h (mk_slot k t) (k, l) ->
  post (ra_append x k t) (fun x' => bm h x' (m ++ [(k, l)]) /\ bm_refs x' = bm_refs x ++ refs t /\ ra_flags x' = ra_flags x).
Proof.
  intros Hb Hlt Hk Hs. destruct (snoc_room h x m k Hb Hlt Hk) as (Hm & K & R).
  eapply post_mono; [apply ra_append_spec; [done | apply (bm_room _ _ _ Hb)] |]. intros x' W. split; [| split; [| apply W]].
  - eapply bm_with_slots; [exact W | | by rewrite keys_snoc | by rewrite keys_snoc].
    apply Forall2_app; [apply (bm_holds _ _ _ Hb) | by repeat constructor; apply Hs].
  - unfold bm_refs. rewrite (proj1 W), slot_refs_app. by rewrite refs_one.
Qed.

Lemma append_nonzero_bm h x m k c : bm h x m -> Forall (fun k' => k' < k) (keys m) -> in_u 16 k -> container_ok c -> sized c ->
  post (append_nonzero h x k c) (fun '(x', h') => h' = h /\ bm h x' (m ++ one k (container_elems c)) /\
    bm_refs x' = bm_refs x /\ ra_flags x' = ra_flags x).
Proof.
  intros Hb Hlt Hk O S. unfold append_nonzero. rewrite nonzero_spec by done. cbn [mbind option_bind]. case_bool_decide as D.
  - eapply post_bind; [apply (append_bm h x m k (plain c) (container_elems c)); try done; split; [done |]; exists c; by split; [| split] |].
    intros x' (B & Er & F). apply post_ret. split; [done |]. rewrite Er, app_nil_r. split; [| done]. by destruct (container_elems c).
  - unfold container_free, plain. rewrite type_code_not_shared, Z.eqb_refl. cbn [mbind option_bind]. apply post_ret.
    split; [done |]. rewrite D. cbn [one]. by rewrite app_nil_r.
Qed.

(** ** Two bitmaps and the answer *)

(** Without the copy-on-write flag a bitmap has no shared containers. *)
Definition tidy (x : roaring_bitmap_t) : Prop := is_cow x = false -> bm_refs x = [].

Lemma is_cow_flags x x' : ra_flags x' = ra_flags x -> is_cow x' = is_cow x.
Proof. unfold is_cow. by intros ->. Qed.

(** [x1] and [x2] with entries [m1] and [m2], the answer so far with [acc],
    and room for [n] more references. *)
Record merging (L : list positive) (h : heap) (x1 x2 ans : roaring_bitmap_t) (m1 m2 acc : list entry) (n : Z) : Prop := {
  mg_1 : bm h x1 m1;
  mg_2 : bm h x2 m2;
  mg_a : bm h ans acc;
  mg_counted : counted h (bm_refs ans ++ bm_refs x1 ++ bm_refs x2 ++ L);
  mg_space : space (bm_refs ans ++ bm_refs x1 ++ bm_refs x2 ++ L) n;
  mg_t1 : tidy x1;
  mg_t2 : tidy x2;
  mg_ta : is_cow x1 = is_cow x2 -> is_cow x1 = false -> bm_refs ans = [];
}.

Lemma app_swap {A} (a b c : list A) : a ++ b ++ c ≡ₚ b ++ a ++ c.
Proof. rewrite !app_assoc. f_equiv. apply Permutation_app_comm. Qed.

#[export] Instance space_perm n : Proper ((≡ₚ) ==> iff) (fun L => space L n).
Proof. intros L1 L2 H. unfold space. by rewrite (zlen_perm _ _ H). Qed.

Lemma merging_swap L h x1 x2 ans m1 m2 acc n : merging L h x1 x2 ans m1 m2 acc n -> merging L h x2 x1 ans m2 m1 acc n.
Proof.
  intros [? ? ? C S ? ? T]. constructor; try done.
  - rewrite (app_swap (bm_refs x2)). exact C.
  - unfold space in *. rewrite !zlen_app in *. lia.
  - intros E E'. apply T; congruence.
Qed.

Lemma merging_less L h x1 x2 ans m1 m2 acc n n' : n' <= n -> merging L h x1 x2 ans m1 m2 acc n -> merging L h x1 x2 ans m1 m2 acc n'.
Proof. intros Hn [? ? ? C S ? ? T]. constructor; try done. unfold space in *. lia. Qed.

(** A container of [x1] copied to the end of the answer. *)
Lemma copy_step L h x1 x2 ans d e r m2 acc n : merging L h x1 x2 ans (d ++ e :: r) m2 acc (n + 1) -> 0 <= n ->
  Forall (fun k => k < fst e) (keys acc) ->
  post (copy_out h x1 (zlen d)) (fun '(t, x1', h') => is_cow x1' = is_cow x1 /\ post (ra_append ans (fst e) t) (fun ans' =>
    merging L h' x1' x2 ans' (d ++ e :: r) m2 (acc ++ [e]) n /\ same_on L h h' /\ ra_flags ans' = ra_flags ans)).
Proof.
  intros [H1 H2 Ha C S T1 T2 TA] Hn Hlt. rewrite app_swap in C.
  assert (space (bm_refs x1 ++ bm_refs ans ++ bm_refs x2 ++ L) 1) as S' by (unfold space in *; rewrite !zlen_app in *; lia).
  eapply post_mono; [apply (entry_copy_out h x1 d e r H1 _ C S') |]. intros [[t x1'] h'] (B & Hs & C' & M & F & T & Z).
  split; [by apply is_cow_flags |].
  assert (bm h' x2 m2) as H2' by (eapply bm_same; [exact M | | done]; intros k Hk; rewrite !elem_of_app; auto).
  assert (bm h' ans acc) as Ha' by (eapply bm_same; [exact M | | done]; intros k Hk; rewrite !elem_of_app; auto).
  assert (in_u 16 (fst e)) as Hk.
  { pose proof (bm_range _ _ _ H1) as R. rewrite keys_middle in R. apply Forall_app in R as [_ R]. by inversion R. }
  destruct e as [k l]. cbn [fst] in *. eapply post_mono; [by apply (append_bm h' ans acc k t l) |]. intros ans' (B' & Er & F').
  split; [| split; [eapply same_on_sub; [| exact M]; intros j Hj; rewrite !elem_of_app; auto | done]].
  pose proof (is_cow_flags _ _ F) as Fc.
  constructor; try done.
  - rewrite Er, <- app_assoc. eapply counted_perm; [| exact C']. rewrite app_swap. f_equiv. by rewrite app_swap.
  - unfold space in *. rewrite Er. rewrite !zlen_app in *. lia.
  - intros E. rewrite Fc in E. destruct (T E) as [_ ->]. by apply T1.
  - rewrite Fc. intros E E'. destruct (T E') as [Et _]. by rewrite Er, Et, app_nil_r, TA.
Qed.

(** A combined container at the end of the answer. *)
Lemma both_step (drop_empty : bool) L h x1 x2 ans m1 m2 acc n k c : merging L h x1 x2 ans m1 m2 acc n ->
  Forall (fun k' => k' < k) (keys acc) -> in_u 16 k -> container_ok c -> sized c -> (drop_empty = false -> container_elems c <> []) ->
  post (if drop_empty then append_nonzero h ans k c else answer ← ra_append ans k (plain c); Some (answer, h)) (fun '(ans', h') =>
    h' = h /\ merging L h x1 x2 ans' m1 m2 (acc ++ one k (container_elems c)) n /\ ra_flags ans' = ra_flags ans).
Proof.
  intros [H1 H2 Ha C S T1 T2 TA] Hlt Hk O Z N.
  assert (forall ans', bm h ans' (acc ++ one k (container_elems c)) -> bm_refs ans' = bm_refs ans ->
    merging L h x1 x2 ans' m1 m2 (acc ++ one k (container_elems c)) n) as Hend.
  { intros ans' B E. constructor; rewrite ?E; done. }
  destruct drop_empty.
  - eapply post_mono; [by apply (append_nonzero_bm h ans acc k c) |]. intros [ans' h'] (-> & B & E & F). auto.
  - specialize (N eq_refl).
    eapply post_bind; [apply (append_bm h ans acc k (plain c) (container_elems c)); try done; split; [done |]; exists c; by split; [| split] |].
    intros x' (B & Er & F). apply post_ret. split; [done |]. rewrite app_nil_r in Er. split; [| done]. apply Hend; [| done]. by destruct (container_elems c).
Qed.

(** ** The loop over both bitmaps *)

(** What the loop needs of the operation on containers. *)
Class MergeOp (op : heap -> typed -> typed -> option container_t) (drop_empty : bool) (P : Prop -> Prop -> Prop) : Prop := {
  merge_op : forall h t1 t2 c1 c2, points h t1 c1 -> points h t2 c2 -> valid c1 -> valid c2 ->
    exists c, op h t1 t2 = Some c /\ container_ok c /\ sized c /\
      (forall y, y ∈ container_elems c <-> P (y ∈ container_elems c1) (y ∈ container_elems c2)) /\
      (drop_empty = false -> container_elems c <> []);
  merge_left : forall (l : list Z) y, P (y ∈ l) (y ∈ []) <-> y ∈ l;
  merge_right : forall (l : list Z) y, P (y ∈ []) (y ∈ l) <-> y ∈ l;
}.

Definition ahead (acc m : list entry) : Prop := forall k k', k ∈ keys acc -> k' ∈ keys m -> k < k'.

Lemma ahead_cons acc e m : ahead acc (e :: m) -> Forall (fun k => k < fst e) (keys acc) /\ ahead acc m.
Proof.
  intros H. split; [apply Forall_forall; intros k Hk; apply H; [done | constructor] |]. intros k k' Hk Hk'. apply H; [done |]. by constructor.
Qed.

Lemma ahead_snoc acc n k m : ahead acc m -> keys n ⊆ [k] -> Forall (fun k' => k < k') (keys m) -> ahead (acc ++ n) m.
Proof.
  intros H Hn Hm j j'. rewrite keys_app, elem_of_app. intros [Hj | Hj] Hj'; [by apply H |]. apply Hn, list_elem_of_singleton in Hj as ->.
  rewrite Forall_forall in Hm. by apply Hm.
Qed.

Lemma cons_snoc {A} (d : list A) e r : d ++ e :: r = (d ++ [e]) ++ r.
Proof. by rewrite <- app_assoc. Qed.

Lemma zlen_next {A} (d : list A) e : zlen d + 1 = zlen (d ++ [e]).
Proof. rewrite zlen_app. done. Qed.

(** Where the loop stops: one of the bitmaps is used up, and the entries still
    to be copied come after those of the answer. *)
Record merge_end (P : Prop -> Prop -> Prop) (L : list positive) (h0 : heap) (f : Z) (f1 f2 : bool) (m1 m2 acc : list entry) (mm1 mm2 : list entry)
    (p1 p2 : Z) (x1 x2 ans : roaring_bitmap_t) (h : heap) (d1' m1' d2' m2' n : list entry) : Prop := {
  me_1 : mm1 = d1' ++ m1';
  me_2 : mm2 = d2' ++ m2';
  me_p1 : p1 = zlen d1';
  me_p2 : p2 = zlen d2';
  me_end : m1' = [] \/ m2' = [];
  me_state : merging L h x1 x2 ans mm1 mm2 (acc ++ n) (zlen m1' + zlen m2');
  me_merged : merged P m1 m2 (n ++ m1' ++ m2');
  me_keys : keys (n ++ m1' ++ m2') ⊆ keys m1 ++ keys m2;
  me_ahead : ahead (acc ++ n) (m1' ++ m2');
  me_same : same_on L h0 h;
  me_flags : ra_flags ans = f;
  me_cow1 : is_cow x1 = f1;
  me_cow2 : is_cow x2 = f2;
}.

Section MergeLoop.

Context (op : heap -> typed -> typed -> option container_t) (drop_empty : bool) (P : Prop -> Prop -> Prop) `{!MergeOp op drop_empty P}.

(** One step and then the rest. *)
Lemma merge_end_step L h0 h1 f f1 f2 m1 m2 r1 r2 acc s mm1 mm2 p1 p2 x1 x2 ans h d1' m1' d2' m2' n :
  same_on L h0 h1 -> keys r1 ⊆ keys m1 -> keys r2 ⊆ keys m2 -> keys s ⊆ keys m1 ++ keys m2 ->
  (forall m, keys m ⊆ keys r1 ++ keys r2 -> merged P r1 r2 m -> merged P m1 m2 (s ++ m)) ->
  merge_end P L h1 f f1 f2 r1 r2 (acc ++ s) mm1 mm2 p1 p2 x1 x2 ans h d1' m1' d2' m2' n ->
  merge_end P L h0 f f1 f2 m1 m2 acc mm1 mm2 p1 p2 x1 x2 ans h d1' m1' d2' m2' (s ++ n).
Proof.
  intros HS K1 K2 Ks Hm [E1 E2 P1 P2 E St M K A SS F F1 F2]. rewrite <- app_assoc in St, A. constructor; try done.
  - rewrite <- app_assoc. by apply Hm.
  - rewrite <- app_assoc, keys_app. intros k. rewrite elem_of_app. intros [Hk | Hk]; [by apply Ks |].
    apply K in Hk. rewrite elem_of_app in *. destruct Hk; [left; by apply K1 | right; by apply K2].
  - by eapply same_on_trans.
Qed.

Lemma merge_loop_spec fuel : forall L h x1 x2 ans d1 m1 d2 m2 acc, (length m1 + length m2 < fuel)%nat ->
  merging L h x1 x2 ans (d1 ++ m1) (d2 ++ m2) acc (zlen m1 + zlen m2) -> ahead acc m1 -> ahead acc m2 ->
  post (merge_loop op drop_empty fuel h x1 x2 ans (zlen d1) (zlen d2)) (fun '(p1, p2, x1', x2', ans', h') =>
    exists d1' m1' d2' m2' n, merge_end P L h (ra_flags ans) (is_cow x1) (is_cow x2) m1 m2 acc (d1 ++ m1) (d2 ++ m2) p1 p2 x1' x2' ans' h' d1' m1' d2' m2' n).
Proof.
  induction fuel as [|fuel IH]; intros L h x1 x2 ans d1 m1 d2 m2 acc Hf Hg A1 A2; [lia |]. cbn [merge_loop].
  destruct (bm_size _ _ _ (mg_1 _ _ _ _ _ _ _ _ _ Hg)) as [Z1 _]. destruct (bm_size _ _ _ (mg_2 _ _ _ _ _ _ _ _ _ Hg)) as [Z2 _]. rewrite zlen_app in Z1, Z2.
  destruct m1 as [|[k1 l1] r1].
  { rewrite (proj2 (Z.eqb_eq _ _)) by (rewrite Z1; change (zlen []) with 0; lia). apply post_ret. exists d1, [], d2, m2, [].
    rewrite app_nil_r in Hg. constructor; rewrite ?app_nil_r; cbn [app]; try done; try (by left); try apply same_on_refl. intros k y. by rewrite merge_right. }
  destruct m2 as [|[k2 l2] r2].
  { rewrite (proj2 (Z.eqb_eq (zlen d2) _)), orb_true_r by (rewrite Z2; change (zlen []) with 0; lia). apply post_ret. exists d1, ((k1, l1) :: r1), d2, [], [].
    rewrite app_nil_r in Hg. constructor; rewrite ?app_nil_r; cbn [app]; try done; try (by right); try apply same_on_refl. intros k y. by rewrite merge_left. }
  rewrite !zlen_cons in *. pose proof (zlen_nonneg r1). pose proof (zlen_nonneg r2). cbn [length] in Hf.
  rewrite (proj2 (Z.eqb_neq (zlen d1) _)), (proj2 (Z.eqb_neq (zlen d2) _)) by lia. cbn [orb].
  pose proof (mg_1 _ _ _ _ _ _ _ _ _ Hg) as B1. pose proof (mg_2 _ _ _ _ _ _ _ _ _ Hg) as B2.
  rewrite (entry_key h x1 d1 _ r1 B1), (entry_key h x2 d2 _ r2 B2). cbn [mbind option_bind fst].
  pose proof (entry_later h x1 d1 _ r1 B1) as F1. pose proof (entry_later h x2 d2 _ r2 B2) as F2. cbn [fst] in F1, F2.
  destruct (ahead_cons _ _ _ A1) as [K1 A1']. destruct (ahead_cons _ _ _ A2) as [K2 A2']. cbn [fst] in K1, K2.
  destruct (Z.eqb_spec k1 k2) as [<- | Hne]; [| destruct (Z.ltb_spec k1 k2) as [Hlt | Hlt]].
  - destruct (entry_typed h x1 d1 _ r1 B1) as (t1 & c1 & -> & P1 & V1 & E1). destruct (entry_typed h x2 d2 _ r2 B2) as (t2 & c2 & -> & P2 & V2 & E2).
    cbn [mbind option_bind]. destruct (merge_op h t1 t2 c1 c2 P1 P2 V1 V2) as (c & -> & O & S & El & N). cbn [mbind option_bind].
    rewrite E1, E2 in El. cbn [snd] in El.
    assert (in_u 16 k1) as Hk by (pose proof (bm_range _ _ _ B1) as R; rewrite keys_middle in R; apply Forall_app in R as [_ R]; by inversion R).
    eapply post_bind; [by apply (both_step drop_empty L h x1 x2 ans _ _ acc _ k1 c Hg) |]. intros [ans' h'] (-> & Hg' & Ff).
    rewrite (zlen_next d1 (k1, l1)), (zlen_next d2 (k1, l2)). rewrite (cons_snoc d1), (cons_snoc d2) in Hg'. rewrite <- Ff.
    eapply post_mono; [apply (IH L h x1 x2 ans' (d1 ++ [(k1, l1)]) r1 (d2 ++ [(k1, l2)]) r2 (acc ++ one k1 (container_elems c))); [lia | eapply merging_less; [| exact Hg']; lia | eapply ahead_snoc; try done; apply keys_one..] |].
    intros [[[[[p1 p2] x1'] x2'] ans2] h2] (d1' & m1' & d2' & m2' & n & En). rewrite <- !cons_snoc in En. eexists d1', m1', d2', m2', _.
    eapply merge_end_step; [apply same_on_refl | | | | | exact En].
    + intros k Hin. by constructor.
    + intros k Hin. by constructor.
    + intros k ->%keys_one%list_elem_of_singleton. constructor.
    + intros m Hk' Hm. apply merged_both; [| done | done]. intros Hin%Hk'. rewrite elem_of_app in Hin.
      destruct Hin as [Hin | Hin]; by apply not_in_later in Hin.
  - eapply post_bind.
    { apply (copy_step L h x1 x2 ans d1 (k1, l1) r1 (d2 ++ (k2, l2) :: r2) acc (zlen r1 + zlen ((k2, l2) :: r2))); [| apply Z.add_nonneg_nonneg; apply zlen_nonneg | done].
      eapply merging_less; [| exact Hg]. rewrite zlen_cons. unfold entry in *. lia. }
    intros [[t x1'] h1] [Fc P1]. cbn [fst] in P1. eapply post_bind; [exact P1 |]. intros ans' (Hg' & S1 & Ff).
    rewrite (zlen_next d1 (k1, l1)). rewrite (cons_snoc d1) in Hg'. rewrite <- Ff, <- Fc.
    eapply post_mono; [apply (IH L h1 x1' x2 ans' (d1 ++ [(k1, l1)]) r1 d2 ((k2, l2) :: r2) (acc ++ [(k1, l1)])); [cbn [length]; lia | exact Hg' | |] |].
    + eapply (ahead_snoc _ _ k1); done.
    + eapply (ahead_snoc _ _ k1); [done | done |]. constructor; [done |]. eapply Forall_impl; [exact F2 |]. cbn. lia.
    + intros [[[[[p1 p2] x1''] x2'] ans2] h2] (d1' & m1' & d2' & m2' & n & En). rewrite <- !cons_snoc in En. eexists d1', m1', d2', m2', _.
      eapply (merge_end_step _ _ h1 _ _ _ _ _ r1 _ _ [(k1, l1)]); [done | | | | | exact En].
      * intros k Hin. by constructor.
      * done.
      * intros k ->%list_elem_of_singleton. constructor.
      * intros m Hk' Hm. apply (merged_left_keep P k1 l1); [| intros y; apply merge_left | done]. apply not_in_later. constructor; [done |].
        eapply Forall_impl; [exact F2 |]. cbn. lia.
  - eapply post_bind.
    { apply (copy_step L h x2 x1 ans d2 (k2, l2) r2 (d1 ++ (k1, l1) :: r1) acc (zlen ((k1, l1) :: r1) + zlen r2)); [| apply Z.add_nonneg_nonneg; apply zlen_nonneg | done].
      apply merging_swap. eapply merging_less; [| exact Hg]. rewrite zlen_cons. unfold entry in *. lia. }
    intros [[t x2'] h1] [Fc P1]. cbn [fst] in P1. eapply post_bind; [exact P1 |]. intros ans' (Hg' & S1 & Ff). apply merging_swap in Hg'.
    rewrite (zlen_next d2 (k2, l2)). rewrite (cons_snoc d2) in Hg'. rewrite <- Ff, <- Fc.
    eapply post_mono; [apply (IH L h1 x1 x2' ans' d1 ((k1, l1) :: r1) (d2 ++ [(k2, l2)]) r2 (acc ++ [(k2, l2)])); [cbn [length]; lia | exact Hg' | |] |].
    + eapply (ahead_snoc _ _ k2); [done | done |]. constructor; [cbn; lia |]. eapply Forall_impl; [exact F1 |]. cbn. lia.
    + eapply (ahead_snoc _ _ k2); done.
    + intros [[[[[p1 p2] x1''] x2''] ans2] h2] (d1' & m1' & d2' & m2' & n & En). rewrite <- !cons_snoc in En. eexists d1', m1', d2', m2', _.
      eapply (merge_end_step _ _ h1 _ _ _ _ _ _ r2 _ [(k2, l2)]); [done | | | | | exact En].
      * done.
      * intros k Hin. by constructor.
      * intros k ->%list_elem_of_singleton. apply elem_of_app. right. constructor.
      * intros m Hk' Hm. apply (merged_left_keep (fun A B => P B A) k2 l2); [| intros y; apply merge_right | done].
        apply not_in_later. constructor; [cbn; lia |]. eapply Forall_impl; [exact F1 |]. cbn. lia.
Qed.

End MergeLoop.
