(* ===== verification/RoaringBitmapSets.v ===== *)
(** * Roaring bitmaps: copies and set operations

    Copies, with and without copy-on-write, the release of a bitmap, and the
    operations on two bitmaps; a claim about each of the operations says which
    values the result holds, that the arguments keep theirs, and that the
    counters of the shared containers are right at the end. *)

From stdpp Require Import base list list_numbers numbers option sorting gmap.
From Stdlib Require Import ZArith Lia ZifyBool.
From S2P Require Import Prelude.
From S2P Require Import RoaringArrays.
From S2P Require Import RoaringArrayContainer.
From S2P Require Import RoaringArrayFacts.
From S2P Require Import RoaringBitset.
From S2P Require Import RoaringBitsetFacts.
From S2P Require Import RoaringBitsetOps.
From S2P Require Import RoaringBitsetContainer.
From S2P Require Import RoaringRun.
From S2P Require Import RoaringRunFacts.
From S2P Require Import RoaringRunSets.
From S2P Require Import RoaringRunContainer.
From S2P Require Import RoaringConvert.
From S2P Require Import RoaringConvertFacts.
From S2P Require Import RoaringMixedAndnot.
From S2P Require Import RoaringMixedUnion.
From S2P Require Import RoaringMixedNeg.
From S2P Require Import RoaringContainer.
From S2P Require Import RoaringContainerFacts.
From S2P Require Import RoaringContainerOps.
From S2P Require Import RoaringShared.

From S2P Require Import RoaringSharedFacts.
From S2P Require Import RoaringBitmap.

From S2P Require Import RoaringBitmapFacts.

From S2P Require Import RoaringBitmapPoint.

From S2P Require Import RoaringBitmapMerge.

Local Open Scope Z_scope.

(** ** Flags *)

Lemma is_cow_set x cow : is_cow (roaring_bitmap_set_copy_on_write x cow) = cow.
Proof.
  unfold is_cow, roaring_bitmap_set_copy_on_write. cbn [ra_flags]. destruct cow.
  - rewrite Z.land_lor_distr_l. change (Z.land ROARING_FLAG_COW ROARING_FLAG_COW) with 1. destruct (Z.eqb_spec (Z.lor (Z.land (ra_flags x) ROARING_FLAG_COW) 1) 0) as [H | H]; [| done].
    apply Z.lor_eq_0_iff in H as [_ H]. done.
  - rewrite <- Z.land_assoc. change (Z.land (u8 (Z.lnot ROARING_FLAG_COW)) ROARING_FLAG_COW) with 0. by rewrite Z.land_0_r.
Qed.

Lemma set_cow_bm h x m cow : bm h x m -> bm h (roaring_bitmap_set_copy_on_write x cow) m.
Proof. intros [H K R M]. by constructor. Qed.

(** ** Copies *)

Lemma pairs_perm {A} (a b c : list A) : b ++ b ++ a ++ a ++ c ≡ₚ a ++ b ++ a ++ b ++ c.
Proof. rewrite (app_swap b a (a ++ c)), (app_swap b a (b ++ a ++ c)). do 2 f_equiv. apply app_swap. Qed.

Lemma share_slots_spec slots : forall m h L, holds h slots m -> counted h (slot_refs slots ++ L) -> space (slot_refs slots ++ L) (zlen slots) ->
  post (share_slots h slots) (fun '(slots', h') => holds h' slots' m /\ counted h' (slot_refs slots' ++ slot_refs slots' ++ L) /\ same_on L h h').
Proof.
  induction slots as [|s slots IH]; intros m h L Hh Hc Hs.
  - apply holds_nil_inv in Hh as ->. apply post_ret. split; [constructor |]. split; [exact Hc | apply same_on_refl].
  - apply holds_cons_inv in Hh as (e & mb & -> & (Hk & c & Hp & V & Ee) & Hb). rewrite slot_refs_cons, <- app_assoc in Hc, Hs. cbn [share_slots].
    unfold space in Hs. rewrite zlen_cons, !zlen_app in Hs. pose proof (zlen_nonneg (refs (s_typed s))). pose proof (zlen_nonneg slots).
    eapply post_bind; [apply (get_copy_spec h (s_typed s) c true (slot_refs slots ++ L)); try done; rewrite zlen_app; lia |].
    intros [t h1] ((c1 & Hp1 & V1 & E1) & Hp2 & C1 & S1 & _). cbn [kept] in *. pose proof (points_inj _ _ _ _ Hp1 Hp2) as ->.
    pose proof (zlen_refs t).
    eapply post_bind; [apply (IH mb h1 (refs t ++ refs t ++ L)) |].
    + eapply holds_same; [exact S1 | | done]. intros k Hin. apply elem_of_app. by left.
    + eapply counted_perm; [| exact C1]. rewrite app_swap. f_equiv. by rewrite app_swap.
    + unfold space. rewrite !zlen_app. lia.
    + intros [slots' h2] (H2 & C2 & S2). apply post_ret. split; [| split].
      * constructor; [| done]. split; [done |]. exists c. split; [| done]. eapply points_same; [exact S2 | | exact Hp1]. intros k Hin. rewrite !elem_of_app. auto.
      * rewrite slot_refs_cons. cbn [s_typed]. eapply counted_perm; [| exact C2]. rewrite <- !app_assoc.
        symmetry. apply pairs_perm.
      * eapply same_on_trans; [eapply same_on_sub; [| exact S1] | eapply same_on_sub; [| exact S2]]; intros k; rewrite !elem_of_app; tauto.
Qed.

Lemma clone_slots_spec h slots : forall m, holds h slots m -> slot_refs slots = [] ->
  post (clone_slots h slots) (fun slots' => holds h slots' m /\ slot_refs slots' = []).
Proof.
  induction slots as [|s slots IH]; intros m Hh Hr.
  - apply holds_nil_inv in Hh as ->. apply post_ret. split; [constructor | done].
  - apply holds_cons_inv in Hh as (e & mb & -> & (Hk & c & Hp & V & Ee) & Hb). rewrite slot_refs_cons in Hr. apply app_eq_nil in Hr as [Hr1 Hr2]. cbn [clone_slots].
    rewrite (proj2 (unwrap_points _ _ _) Hp). cbn [mbind option_bind]. destruct (clone_spec c (v_ok _ V)) as (c' & -> & O' & T' & E'). cbn [mbind option_bind].
    eapply post_bind; [by apply IH |]. intros slots' (H' & R'). apply post_ret. split; [| by rewrite slot_refs_cons, R'].
    constructor; [| done]. split; [done |]. exists c'. split; [| split; [| congruence]].
    + destruct s as [k [[c0 | l] ty]]; [| done]. destruct Hp as [-> Hty]. cbn [snd s_typed] in *. split; [done |]. cbn [snd]. congruence.
    + constructor; [done | by eapply same_type_sized; [| | apply V] | rewrite E'; apply V].
Qed.

(** Two bitmaps with the same entries: [r] after the copy, and the copy. *)
Lemma copy_spec L h r m : bm h r m -> tidy r -> counted h (bm_refs r ++ L) -> space (bm_refs r ++ L) (zlen m) ->
  post (roaring_bitmap_copy h r) (fun '(r', ans, h') => bm h' r' m /\ bm h' ans m /\ counted h' (bm_refs ans ++ bm_refs r' ++ L) /\ same_on L h h' /\
    ra_flags r' = ra_flags r /\ is_cow ans = is_cow r /\ tidy r' /\ tidy ans).
Proof.
  intros Hb Ht Hc Hs. destruct (bm_size _ _ _ Hb) as [Hz Hmax]. pose proof (bm_holds _ _ _ Hb) as Hh. pose proof (bm_keys _ _ _ Hb). pose proof (bm_range _ _ _ Hb).
  pose proof (bm_room _ _ _ Hb) as Hroom. unfold roaring_bitmap_copy, ra_copy.
  assert (exists d, ra_init_with_capacity (ra_size r) = Some d /\ ra_slots d = [] /\ ra_size r <= ra_allocation_size d) as (dest & -> & Hd & Hcap).
  { unfold ra_init_with_capacity. rewrite (proj2 (Z.ltb_ge _ _)) by (unfold INT32_MAX; lia). destruct (Z.ltb_spec 0 (ra_size r)); eexists; split; done. }
  cbn [mbind option_bind]. unfold copy_slots. destruct (is_cow r) eqn:Ec.
  - unfold bm_refs in Hc, Hs. rewrite <- (holds_length _ _ _ Hh) in Hs.
    eapply post_bind; [eapply post_bind; [by apply (share_slots_spec (ra_slots r) m h L) |] |].
    + intros [slots h'] (Hh' & C' & S'). pose proof (holds_length _ _ _ Hh') as Hz'.
      eapply post_bind; [apply (set_slots_spec dest slots); lia |]. intros dest' W. apply (post_ret _ (fun '(r', d', h') => exists slots,
        r' = mk_ra slots (ra_allocation_size r) (ra_flags r) /\ with_slots dest slots d' /\ holds h' slots m /\ counted h' (slot_refs slots ++ slot_refs slots ++ L) /\ same_on L h h')).
      by exists slots.
    + intros [[r' d'] h'] (slots & -> & W & Hh' & C' & S'). apply post_ret. pose proof (holds_length _ _ _ Hh') as Hz'.
      split; [| split; [| split; [| split; [done | split; [done | split; [apply is_cow_set | split]]]]]].
      * constructor; try done. unfold ra_size. cbn [ra_slots ra_allocation_size]. unfold ra_size in *. lia.
      * apply set_cow_bm. by eapply bm_with_slots.
      * unfold bm_refs. cbn [ra_slots roaring_bitmap_set_copy_on_write]. by rewrite (proj1 W).
      * unfold tidy, is_cow in *. cbn [ra_flags]. rewrite Ec. done.
      * unfold tidy. by rewrite is_cow_set.
  - pose proof (Ht Ec) as Hrefs. eapply post_bind; [eapply post_bind; [by apply (clone_slots_spec h (ra_slots r) m) |] |].
    + intros slots (Hh' & R'). pose proof (holds_length _ _ _ Hh') as Hz'.
      eapply post_bind; [apply (set_slots_spec dest slots); lia |]. intros dest' W. apply (post_ret _ (fun '(r', d', h') => r' = r /\ h' = h /\ exists slots,
        with_slots dest slots d' /\ holds h' slots m /\ slot_refs slots = [])). split; [done |]. split; [done |]. by exists slots.
    + intros [[r' d'] h'] (-> & -> & slots & W & Hh' & R'). apply post_ret.
      split; [done | split; [| split; [| split; [apply same_on_refl | split; [done | split; [apply is_cow_set | split; [done |]]]]]]].
      * apply set_cow_bm. by eapply bm_with_slots.
      * unfold bm_refs at 1. cbn [ra_slots roaring_bitmap_set_copy_on_write]. by rewrite (proj1 W), R'.
      * intros _. unfold bm_refs. cbn [ra_slots roaring_bitmap_set_copy_on_write]. by rewrite (proj1 W), R'.
Qed.

Lemma free_slots_spec slots : forall m h L, holds h slots m -> counted h (slot_refs slots ++ L) ->
  post (free_slots h slots) (fun h' => counted h' L /\ same_on L h h').
Proof.
  induction slots as [|s slots IH]; intros m h L Hh Hc.
  - apply post_ret. split; [exact Hc | apply same_on_refl].
  - apply holds_cons_inv in Hh as (e & mb & -> & (Hk & c & Hp & V & Ee) & Hb). rewrite slot_refs_cons, <- app_assoc in Hc. cbn [free_slots].
    eapply post_bind; [by eapply free_spec |]. intros h1 (C1 & S1).
    eapply post_mono; [apply (IH mb h1 L); [| done] |].
    + eapply holds_same; [exact S1 | | done]. intros k Hin. apply elem_of_app. by left.
    + intros h2 (C2 & S2). split; [done |]. eapply same_on_trans; [eapply same_on_sub; [| exact S1] | done]. intros k Hin. apply elem_of_app. by right.
Qed.

Lemma bitmap_free_spec L h r m : bm h r m -> is_frozen r = false -> counted h (bm_refs r ++ L) ->
  post (roaring_bitmap_free h r) (fun h' => counted h' L /\ same_on L h h').
Proof.
  intros Hb Hf Hc. unfold roaring_bitmap_free, ra_clear, ra_clear_containers. rewrite Hf. cbn [negb].
  destruct (free_slots_spec (ra_slots r) m h L (bm_holds _ _ _ Hb) Hc) as (h' & -> & C & S). cbn [mbind option_bind]. by apply post_ret.
Qed.

(** ** The end of the merges *)

Lemma ahead_bm acc r h x d z : entries_ok acc -> bm h x (d ++ r ++ z) -> ahead acc r -> strict (keys (acc ++ r)) /\ Forall (in_u 16) (keys (acc ++ r)) /\ zlen acc + zlen r <= MAX_CONTAINERS.
Proof.
  intros [K1 R1 _] Hb Ha. pose proof (bm_keys _ _ _ Hb) as K. pose proof (bm_range _ _ _ Hb) as R. rewrite !keys_app in *.
  apply strict_app_inv in K as (_ & K & _). apply strict_app_inv in K as (K & _ & _). apply Forall_app in R as [_ R]. apply Forall_app in R as [R _].
  assert (strict (keys acc ++ keys r)) as Ks by (by apply strict_app). assert (Forall (in_u 16) (keys acc ++ keys r)) as Rs by (by apply Forall_app).
  split; [done |]. split; [done |]. pose proof (sorted16_length _ (conj Ks Rs)) as H. rewrite zlen_app, !zlen_map_keys in H. exact H.
Qed.

Lemma zlen_slot_refs slots : zlen (slot_refs slots) <= zlen slots.
Proof.
  induction slots as [|s slots IH]; [done |]. rewrite slot_refs_cons, zlen_app, zlen_cons. pose proof (zlen_refs (s_typed s)). lia.
Qed.

(** Some entries of [x2], at the end of the answer. *)
Lemma append_range L h x1 x2 ans m1 d2 r2 z2 acc n : merging L h x1 x2 ans m1 (d2 ++ r2 ++ z2) acc (zlen r2 + n) -> 0 <= n -> ahead acc r2 ->
  post (ra_append_copy_range h ans x2 (zlen d2) (zlen d2 + zlen r2) (is_cow x2)) (fun '(ans', x2', h') =>
    merging L h' x1 x2' ans' m1 (d2 ++ r2 ++ z2) (acc ++ r2) n /\ same_on L h h' /\ is_cow x2' = is_cow x2 /\ ra_flags ans' = ra_flags ans).
Proof.
  intros [H1 H2 Ha C S T1 T2 TA] Hn Hah. pose proof (bm_holds _ _ _ H2) as Hh. apply Forall2_app_inv_r in Hh as (a & b & Hd & Hr & Hx).
  apply Forall2_app_inv_r in Hr as (r & z & Hr & Hz & ->).
  destruct (ahead_bm acc r2 h x2 d2 z2 (bm_entries _ _ _ Ha) H2 Hah) as (Ks & Rs & Hmax).
  rewrite <- (holds_length _ _ _ Hd), <- (holds_length _ _ _ Hr) in *. destruct (bm_size _ _ _ Ha) as [Hza _].
  assert (bm_refs ans ++ bm_refs x1 ++ bm_refs x2 ++ L ≡ₚ bm_refs x2 ++ bm_refs ans ++ bm_refs x1 ++ L) as Hp.
  { rewrite (app_swap (bm_refs x1)). apply app_swap. }
  rewrite Hp in C. assert (space (bm_refs x2 ++ bm_refs ans ++ bm_refs x1 ++ L) (zlen r)) as S'.
  { unfold space in *. rewrite <- (zlen_perm _ _ Hp). lia. }
  eapply post_mono; [apply (append_copy_range_spec (is_cow x2) h ans x2 a r z r2 (bm_refs ans ++ bm_refs x1 ++ L)) |].
  - done.
  - done.
  - intros E. specialize (T2 E). unfold bm_refs in T2. rewrite Hx, !slot_refs_app in T2. apply app_eq_nil in T2 as [_ T2]. by apply app_eq_nil in T2 as [T2 _].
  - done.
  - done.
  - apply (bm_room _ _ _ H2).
  - by rewrite Hza.
  - apply (bm_room _ _ _ Ha).
  - intros [[ans' x2'] h'] (r' & r'' & W & WA & Hr1 & Hr2 & C' & M' & T).
    pose proof (bm_keys _ _ _ H2). pose proof (bm_range _ _ _ H2).
    assert (holds h' (ra_slots ans) acc) as Hans.
    { eapply holds_same; [exact M' | | apply (bm_holds _ _ _ Ha)]. intros k Hk. rewrite !elem_of_app. auto. }
    assert (bm_refs ans' = bm_refs ans ++ slot_refs r') as Er by (unfold bm_refs; by rewrite (proj1 WA), slot_refs_app).
    split; [| split; [eapply same_on_sub; [| exact M']; intros k Hk; rewrite !elem_of_app; auto | split; [apply is_cow_flags, W | apply WA]]].
    constructor.
    + eapply bm_same; [exact M' | | done]. intros k Hk. rewrite !elem_of_app. auto.
    + eapply bm_with_slots; [exact W | | done | done]. apply Forall2_app; [| apply Forall2_app; [done |]]; (eapply holds_same; [exact M' | | done]; intros k Hk; rewrite !elem_of_app; auto).
    + eapply bm_with_slots; [exact WA | | done | done]. by apply Forall2_app.
    + rewrite Er, <- app_assoc. eapply counted_perm; [| exact C']. rewrite app_swap. f_equiv. rewrite (app_swap (bm_refs x1)). by rewrite (app_swap (bm_refs ans)).
    + unfold space in *. rewrite Er. unfold bm_refs in *. rewrite (proj1 W). rewrite Hx in S. rewrite !slot_refs_app, !zlen_app in *.
      pose proof (zlen_slot_refs r'). pose proof (zlen_slot_refs r''). pose proof (zlen_nonneg (slot_refs r)).
      rewrite (holds_length _ _ _ Hr1), <- (holds_length _ _ _ Hr) in *. rewrite (holds_length _ _ _ Hr2), <- (holds_length _ _ _ Hr) in *. lia.
    + done.
    + intros E. rewrite (is_cow_flags _ _ (proj1 (proj2 W))) in E. destruct (T E) as [_ ->]. by apply T2.
    + rewrite (is_cow_flags _ _ (proj1 (proj2 W))). intros E E'. rewrite Er, TA by done. rewrite E in E'. destruct (T E') as [-> _]. done.
Qed.

(** The entries of [x2] that are left. *)
Lemma append_rest L h x1 x2 ans m1 d2 r2 acc : merging L h x1 x2 ans m1 (d2 ++ r2) acc (zlen r2) -> ahead acc r2 ->
  post (ra_append_copy_range h ans x2 (zlen d2) (zlen d2 + zlen r2) (is_cow x2)) (fun '(ans', x2', h') =>
    merging L h' x1 x2' ans' m1 (d2 ++ r2) (acc ++ r2) 0 /\ same_on L h h' /\ is_cow x2' = is_cow x2 /\ ra_flags ans' = ra_flags ans).
Proof.
  intros G. pose proof (append_range L h x1 x2 ans m1 d2 r2 [] acc 0) as H. rewrite app_nil_r in H. apply H; [| done]. eapply merging_less; [| exact G]. lia.
Qed.

(** ** Union and symmetric difference *)

(** [x1] and [x2] still have the entries [m1] and [m2], and the values of the
    answer are those of which [P] holds. *)
Definition combined (P : Prop -> Prop -> Prop) (L : list positive) (h : heap) (m1 m2 : list entry)
    (x1 x2 ans : roaring_bitmap_t) (h' : heap) : Prop :=
  exists m, bm h' x1 m1 /\ bm h' x2 m2 /\ bm h' ans m /\ (forall y, y ∈ values m <-> P (y ∈ values m1) (y ∈ values m2)) /\
    counted h' (bm_refs ans ++ bm_refs x1 ++ bm_refs x2 ++ L) /\ same_on L h h' /\ tidy x1 /\ tidy x2 /\ (is_cow x1 = is_cow x2 -> tidy ans).

Lemma merged_values P h x1 x2 x m1 m2 m : Proper (iff ==> iff ==> iff) P -> bm h x1 m1 -> bm h x2 m2 -> bm h x m -> merged P m1 m2 m ->
  forall y, y ∈ values m <-> P (y ∈ values m1) (y ∈ values m2).
Proof.
  intros HP H1 H2 H Hm y. rewrite (elem_of_bm _ _ _ y H), (Hm (high16 y) (low16 y)). apply HP; symmetry; by eapply elem_of_bm.
Qed.

Lemma combined_end P L h0 h x1 x2 ans m1 m2 m n : Proper (iff ==> iff ==> iff) P -> merging L h x1 x2 ans m1 m2 m n -> same_on L h0 h ->
  is_cow ans = is_cow x1 && is_cow x2 -> merged P m1 m2 m -> combined P L h0 m1 m2 x1 x2 ans h.
Proof.
  intros HP [H1 H2 Ha C S T1 T2 TA] HS Hf Hm. exists m. do 3 (split; [done |]). split; [by eapply merged_values |]. split; [done |]. split; [done |].
  split; [done |]. split; [done |]. intros E. unfold tidy. rewrite Hf, <- E, andb_diag. auto.
Qed.

Section MergeBitmaps.

Context (op : heap -> typed -> typed -> option container_t) (drop_empty : bool) (P : Prop -> Prop -> Prop) `{!MergeOp op drop_empty P}.
Context `{!Proper (iff ==> iff ==> iff) P}.

Lemma merge_bitmaps_spec L h x1 x2 m1 m2 : bm h x1 m1 -> bm h x2 m2 -> tidy x1 -> tidy x2 -> counted h (bm_refs x1 ++ bm_refs x2 ++ L) ->
  space (bm_refs x1 ++ bm_refs x2 ++ L) (zlen m1 + zlen m2) ->
  post (merge_bitmaps op drop_empty h x1 x2) (fun '(x1', x2', ans, h') => combined P L h m1 m2 x1' x2' ans h').
Proof.
  intros H1 H2 T1 T2 C S. unfold merge_bitmaps. destruct (bm_size _ _ _ H1) as [Z1 M1]. destruct (bm_size _ _ _ H2) as [Z2 M2].
  pose proof (zlen_nonneg m1). pose proof (zlen_nonneg m2). rewrite Z1, Z2.
  destruct (Z.eqb_spec (zlen m1) 0) as [E1 | E1]; [| destruct (Z.eqb_spec (zlen m2) 0) as [E2 | E2]].
  - assert (m1 = []) as -> by (apply zlen_zero, Z.eqb_eq; done). rewrite app_swap in C. eapply post_bind.
    { apply (copy_spec (bm_refs x1 ++ L) h x2 m2); try done. unfold space in *. rewrite !zlen_app in *. lia. }
    intros [[x2' ans] h'] (B2 & BA & C' & S' & F2 & FA & T2' & TA). apply post_ret. exists m2.
    assert (bm h' x1 []) as B1 by (eapply bm_same; [exact S' | | done]; intros k Hk; apply elem_of_app; by left).
    do 3 (split; [done |]). split; [eapply merged_values; try done; intros k y; symmetry; apply merge_right |].
    split; [by rewrite (app_swap (bm_refs x1)) |]. split; [eapply same_on_sub; [| exact S']; intros k Hk; apply elem_of_app; by right |]. done.
  - assert (m2 = []) as -> by (apply zlen_zero, Z.eqb_eq; done). eapply post_bind.
    { apply (copy_spec (bm_refs x2 ++ L) h x1 m1); try done. unfold space in *. rewrite !zlen_app in *. lia. }
    intros [[x1' ans] h'] (B1 & BA & C' & S' & F1 & FA & T1' & TA). apply post_ret. exists m1.
    assert (bm h' x2 []) as B2 by (eapply bm_same; [exact S' | | done]; intros k Hk; apply elem_of_app; by left).
    do 3 (split; [done |]). split; [eapply merged_values; try done; intros k y; symmetry; apply merge_left |].
    split; [done |]. split; [eapply same_on_sub; [| exact S']; intros k Hk; apply elem_of_app; by right |]. done.
  - unfold roaring_bitmap_create_with_capacity, ra_init_with_capacity. rewrite (proj2 (Z.ltb_ge _ _)), (proj2 (Z.ltb_lt _ _)) by (unfold INT32_MAX; lia).
    cbn [mbind option_bind]. set (ans := roaring_bitmap_set_copy_on_write _ _).
    assert (merging L h x1 x2 ans ([] ++ m1) ([] ++ m2) [] (zlen m1 + zlen m2)) as Hg.
    { constructor; try done. constructor; cbn; try constructor. change (ra_size ans) with 0. lia. }
    eapply post_bind; [apply (merge_loop_spec op drop_empty P _ L h x1 x2 ans [] m1 [] m2 []) |].
    + unfold merge_fuel. rewrite (Forall2_length _ _ _ (bm_holds _ _ _ H1)), (Forall2_length _ _ _ (bm_holds _ _ _ H2)). lia.
    + exact Hg.
    + by intros k k' ?%elem_of_nil.
    + by intros k k' ?%elem_of_nil.
    + intros [[[[[p1 p2] x1'] x2'] ans'] h'] (d1 & r1 & d2 & r2 & n & [Q1 Q2 -> -> E G M _ A S' F F1 F2]). cbn [app] in *.
      assert (is_cow ans' = is_cow x1 && is_cow x2) as Fa by (rewrite (is_cow_flags _ _ F); apply is_cow_set).
      assert (zlen m1 = zlen d1 + zlen r1) as Zd1 by (rewrite Q1; apply zlen_app). assert (zlen m2 = zlen d2 + zlen r2) as Zd2 by (rewrite Q2; apply zlen_app).
      destruct (Z.eqb_spec (zlen d1) (zlen m1)) as [E' | E'].
      * assert (r1 = []) as -> by (apply zlen_zero, Z.eqb_eq; lia). rewrite Zd2. rewrite Q2 in G. cbn [app] in *.
        eapply post_bind; [apply (append_rest L h' x1' x2' ans' m1 d2 r2 n); [exact G | done] |]. intros [[ans2 x2''] h2] (G2 & S2 & Fc & Ff). apply post_ret.
        eapply combined_end; [done | rewrite Q2; exact G2 | by eapply same_on_trans | | done].
        rewrite (is_cow_flags _ _ Ff), Fa. congruence.
      * destruct E as [-> | ->]; [change (zlen []) with 0 in Zd1; lia |]. rewrite app_nil_r in *. rewrite Zd1. rewrite Q1 in G. apply merging_swap in G.
        eapply post_bind; [apply (append_rest L h' x2' x1' ans' m2 d1 r1 n); [eapply merging_less; [| exact G]; change (zlen []) with 0; lia | done] |].
        intros [[ans2 x1''] h2] (G2 & S2 & Fc & Ff). apply post_ret. apply merging_swap in G2.
        eapply combined_end; [done | rewrite Q1; exact G2 | by eapply same_on_trans | | done].
        rewrite (is_cow_flags _ _ Ff), Fa. congruence.
Qed.

End MergeBitmaps.

(** ** Intersection and difference *)

Definition entry_ahead (k : Z) (m : list entry) : Prop := Forall (fun k' => k <= k') (keys m).

(** Entries of one side that meet none of the other side and are left out. *)
Lemma merged_skip P s q m2 n k : Proper (iff ==> iff ==> iff) P -> (forall A, ~ P A False) -> strict (keys (s ++ q)) ->
  Forall (fun k' => k' < k) (keys s) -> entry_ahead k m2 -> merged P q m2 n -> merged P (s ++ q) m2 n.
Proof.
  intros HP HF Hs Hlt Hge Hm k' y. rewrite at_key_app. destruct (decide (k' ∈ keys s)) as [Hin | Hin]; [| apply Hm].
  rewrite keys_app in Hs. apply strict_app_inv in Hs as (_ & _ & Hsq). unfold entry_ahead in Hge. rewrite Forall_forall in Hlt, Hge. specialize (Hlt k' Hin). cbv beta in Hlt.
  assert (at_key m2 k' = []) as E2 by (apply at_key_absent; intros Hin2; specialize (Hge k' Hin2); cbv beta in Hge; lia).
  assert (forall X : Prop, P X (y ∈ at_key m2 k') <-> False) as HX by (intros X; rewrite E2, elem_of_nil; split; [apply HF | done]).
  by rewrite (Hm k' y), !HX.
Qed.

(** The same entries, kept. *)
Lemma merged_keep P s q m2 n k : Proper (iff ==> iff ==> iff) P -> (forall A, P A False <-> A) -> Forall (fun k' => k' < k) (keys s) -> entry_ahead k m2 ->
  merged P q m2 n -> merged P (s ++ q) m2 (s ++ n).
Proof.
  intros HP HF Hlt Hge Hm k' y. rewrite !at_key_app. destruct (decide (k' ∈ keys s)) as [Hin | Hin]; [| apply Hm].
  unfold entry_ahead in Hge. rewrite Forall_forall in Hlt, Hge. specialize (Hlt k' Hin). cbv beta in Hlt.
  assert (at_key m2 k' = []) as -> by (apply at_key_absent; intros Hin2; specialize (Hge k' Hin2); cbv beta in Hge; lia). by rewrite elem_of_nil, HF.
Qed.

Lemma entry_ahead_cons k l k' r : k' <= k -> Forall (fun j => k < j) (keys r) -> entry_ahead k' ((k, l) :: r).
Proof. intros H F. constructor; [done |]. eapply Forall_impl; [exact F |]. cbn. lia. Qed.

Lemma ahead_app acc s q : ahead acc (s ++ q) -> ahead acc q /\ ahead acc s.
Proof. intros H. split; intros k k' Hk Hk'; apply H; [done | | done |]; rewrite keys_app, elem_of_app; auto. Qed.

Lemma suffix_strict h x d m : bm h x (d ++ m) -> strict (keys m).
Proof. intros H. pose proof (bm_keys _ _ _ H) as K. rewrite keys_app in K. by apply strict_app_inv in K as (_ & K & _). Qed.

(** What the loops need of the operation on containers. *)
Definition pair_spec (op : container_t -> container_t -> option container_t) (P : Prop -> Prop -> Prop) : Prop :=
  forall c1 c2, valid c1 -> valid c2 -> exists c, op c1 c2 = Some c /\ container_ok c /\ sized c /\
    forall y, y ∈ container_elems c <-> P (y ∈ container_elems c1) (y ∈ container_elems c2).

Lemma and_pair : pair_spec container_and and.
Proof.
  intros c1 c2 V1 V2. destruct (and_op c1 c2 V1 V2) as (c & E & O & S & El). exists c. do 3 (split; [done |]). intros y. rewrite El. apply elem_of_inter.
Qed.

Definition and_not (A B : Prop) : Prop := A /\ ~ B.

#[export] Instance and_not_proper : Proper (iff ==> iff ==> iff) and_not.
Proof. intros A A' H B B' H'. unfold and_not. by rewrite H, H'. Qed.

Lemma andnot_pair : pair_spec container_andnot and_not.
Proof.
  intros c1 c2 V1 V2. destruct (andnot_op c1 c2 V1 V2) as (c & E & O & S & El). exists c. do 3 (split; [done |]). intros y. rewrite El. apply elem_of_minus.
Qed.

Lemma and_loop_spec fuel : forall L h x1 x2 ans d1 m1 d2 m2 acc n, (length m1 + length m2 < fuel)%nat ->
  merging L h x1 x2 ans (d1 ++ m1) (d2 ++ m2) acc n -> ahead acc m1 -> ahead acc m2 ->
  post (and_loop fuel h x1 x2 ans (zlen d1) (zlen d2)) (fun '(ans', h') => h' = h /\ ra_flags ans' = ra_flags ans /\
    exists s, merging L h x1 x2 ans' (d1 ++ m1) (d2 ++ m2) (acc ++ s) n /\ merged and m1 m2 s /\ keys s ⊆ keys m1).
Proof.
  induction fuel as [|fuel IH]; intros L h x1 x2 ans d1 m1 d2 m2 acc n Hf Hg A1 A2; [lia |]. cbn [and_loop].
  pose proof (mg_1 _ _ _ _ _ _ _ _ _ Hg) as B1. pose proof (mg_2 _ _ _ _ _ _ _ _ _ Hg) as B2.
  destruct (bm_size _ _ _ B1) as [Z1 _]. destruct (bm_size _ _ _ B2) as [Z2 _]. rewrite zlen_app in Z1, Z2.
  assert (forall b1 b2 : Prop, (m1 = [] \/ m2 = []) -> merged and m1 m2 []) as Hnil.
  { intros _ _ [-> | ->] k y; cbn [at_key]; rewrite !elem_of_nil; tauto. }
  destruct m1 as [|[k1 l1] r1].
  { rewrite (proj2 (Z.ltb_ge _ _)) by (rewrite Z1; change (zlen []) with 0; lia). cbn [andb]. apply post_ret. split; [done |]. split; [done |]. exists [].
    rewrite (app_nil_r acc). split; [done |]. split; [apply (Hnil True True); by left | done]. }
  destruct m2 as [|[k2 l2] r2].
  { rewrite (proj2 (Z.ltb_ge (zlen d2) _)), andb_false_r by (rewrite Z2; change (zlen []) with 0; lia). apply post_ret. split; [done |]. split; [done |]. exists [].
    rewrite (app_nil_r acc). split; [done |]. split; [apply (Hnil True True); by right | apply list_subseteq_nil]. }
  rewrite !zlen_cons in *. pose proof (zlen_nonneg r1). pose proof (zlen_nonneg r2). cbn [length] in Hf.
  rewrite (proj2 (Z.ltb_lt (zlen d1) _)), (proj2 (Z.ltb_lt (zlen d2) _)) by lia. cbn [andb].
  rewrite (entry_key h x1 d1 _ r1 B1), (entry_key h x2 d2 _ r2 B2). cbn [mbind option_bind fst].
  pose proof (entry_later h x1 d1 _ r1 B1) as F1. pose proof (entry_later h x2 d2 _ r2 B2) as F2. cbn [fst] in F1, F2.
  destruct (ahead_cons _ _ _ A1) as [K1 A1']. destruct (ahead_cons _ _ _ A2) as [K2 A2']. cbn [fst] in K1, K2.
  destruct (Z.eqb_spec k1 k2) as [<- | Hne]; [| destruct (Z.ltb_spec k1 k2) as [Hlt | Hlt]].
  - destruct (entry_container h x1 d1 _ r1 B1) as (c1 & -> & V1 & E1). destruct (entry_container h x2 d2 _ r2 B2) as (c2 & -> & V2 & E2).
    cbn [mbind option_bind]. destruct (and_pair c1 c2 V1 V2) as (c & -> & O & S & El). cbn [mbind option_bind]. rewrite E1, E2 in El. cbn [snd] in El.
    assert (in_u 16 k1) as Hk by (pose proof (bm_range _ _ _ B1) as R; rewrite keys_middle in R; apply Forall_app in R as [_ R]; by inversion R).
    eapply post_bind; [by apply (both_step true L h x1 x2 ans _ _ acc _ k1 c Hg) |]. intros [ans' h'] (-> & Hg' & Ff).
    rewrite (zlen_next d1 (k1, l1)), (zlen_next d2 (k1, l2)). rewrite (cons_snoc d1), (cons_snoc d2) in Hg'.
    eapply post_mono; [apply (IH L h x1 x2 ans' (d1 ++ [(k1, l1)]) r1 (d2 ++ [(k1, l2)]) r2 (acc ++ one k1 (container_elems c)) n); [lia | done | eapply ahead_snoc; try done; apply keys_one..] |].
    intros [ans2 h2] (-> & Ff2 & s & Hg2 & M & K). split; [done |]. split; [congruence |]. exists (one k1 (container_elems c) ++ s).
    rewrite <- !cons_snoc, <- app_assoc in Hg2. split; [done |]. split.
    + apply merged_both; [| done | done]. intros Hin%K. by apply not_in_later in Hin.
    + rewrite keys_app. intros k. rewrite elem_of_app. intros [Hk'%keys_one | Hk'%K]; [apply list_elem_of_singleton in Hk' as ->; constructor | by constructor].
  - destruct (entry_advance h x1 d1 _ r1 B1 k2 Hlt) as (p & q & -> & -> & Hp & Hq). cbn [mbind option_bind].
    rewrite length_app in Hf. rewrite app_comm_cons, (app_assoc d1) in Hg. rewrite app_comm_cons in A1. destruct (ahead_app _ _ _ A1) as [A1q _].
    eapply post_mono; [apply (IH L h x1 x2 ans (d1 ++ (k1, l1) :: p) q d2 ((k2, l2) :: r2) acc n); [cbn [length]; lia | done | done | done] |].
    intros [ans' h'] (-> & Ff & s & Hg' & M & K). split; [done |]. split; [done |]. exists s. rewrite <- app_assoc in Hg'. split; [done |]. split.
    + rewrite app_comm_cons. eapply (merged_skip _ _ _ _ _ k2); [apply _ | tauto | | | | done].
      * by eapply suffix_strict.
      * by constructor.
      * by apply entry_ahead_cons.
    + etrans; [exact K |]. rewrite app_comm_cons, keys_app. intros k Hk. apply elem_of_app. by right.
  - destruct (entry_advance h x2 d2 _ r2 B2 k1 ltac:(cbn; lia)) as (p & q & -> & -> & Hp & Hq). cbn [mbind option_bind].
    rewrite length_app in Hf. rewrite app_comm_cons, (app_assoc d2) in Hg. rewrite app_comm_cons in A2. destruct (ahead_app _ _ _ A2) as [A2q _].
    eapply post_mono; [apply (IH L h x1 x2 ans d1 ((k1, l1) :: r1) (d2 ++ (k2, l2) :: p) q acc n); [cbn [length]; lia | done | done | done] |].
    intros [ans' h'] (-> & Ff & s & Hg' & M & K). split; [done |]. split; [done |]. exists s. rewrite <- app_assoc in Hg'. split; [done |]. split; [| done].
    rewrite app_comm_cons. eapply (merged_skip (fun A B => and B A) _ _ _ _ k1); [intros A A' HA B B' HB; by rewrite HA, HB | tauto | | | | done].
    + by eapply suffix_strict.
    + constructor; [cbn; lia | done].
    + by apply entry_ahead_cons.
Qed.

Lemma andnot_loop_spec fuel : forall L h x1 x2 ans d1 m1 d2 m2 acc, (length m1 + length m2 < fuel)%nat ->
  merging L h x1 x2 ans (d1 ++ m1) (d2 ++ m2) acc (zlen m1) -> ahead acc m1 ->
  post (andnot_loop fuel h x1 x2 ans (zlen d1) (zlen d2)) (fun '(p1, p2, x1', ans', h') => exists d1' r1 s,
    d1 ++ m1 = d1' ++ r1 /\ p1 = zlen d1' /\ (p2 = ra_size x2 \/ r1 = []) /\ merging L h' x1' x2 ans' (d1 ++ m1) (d2 ++ m2) (acc ++ s) (zlen r1) /\
    merged and_not m1 m2 (s ++ r1) /\ keys (s ++ r1) ⊆ keys m1 /\ ahead (acc ++ s) r1 /\ same_on L h h' /\ is_cow x1' = is_cow x1 /\ ra_flags ans' = ra_flags ans).
Proof.
  induction fuel as [|fuel IH]; intros L h x1 x2 ans d1 m1 d2 m2 acc Hf Hg A1; [lia |]. cbn [andnot_loop].
  pose proof (mg_1 _ _ _ _ _ _ _ _ _ Hg) as B1. pose proof (mg_2 _ _ _ _ _ _ _ _ _ Hg) as B2.
  destruct (bm_size _ _ _ B1) as [Z1 _]. destruct (bm_size _ _ _ B2) as [Z2 _]. rewrite zlen_app in Z1, Z2.
  assert (m1 = [] \/ m2 = [] -> merged and_not m1 m2 m1) as Hend.
  { unfold and_not. intros [-> | ->] k y; cbn [at_key]; rewrite !elem_of_nil; tauto. }
  destruct m1 as [|[k1 l1] r1].
  { rewrite (proj2 (Z.eqb_eq _ _)) by (rewrite Z1; change (zlen []) with 0; lia). apply post_ret. exists d1, [], [].
    rewrite (app_nil_r acc). do 2 (split; [done |]). split; [by right |]. split; [done |]. split; [apply Hend; by left |]. do 2 (split; [done |]). split; [apply same_on_refl | done]. }
  destruct m2 as [|[k2 l2] r2].
  { rewrite (proj2 (Z.eqb_eq (zlen d2) _)), orb_true_r by (rewrite Z2; change (zlen []) with 0; lia). apply post_ret. exists d1, ((k1, l1) :: r1), [].
    rewrite (app_nil_r acc). do 2 (split; [done |]). split; [left; rewrite Z2; change (zlen []) with 0; lia |]. split; [done |]. split; [apply Hend; by right |].
    do 2 (split; [done |]). split; [apply same_on_refl | done]. }
  rewrite !zlen_cons in *. pose proof (zlen_nonneg r1). pose proof (zlen_nonneg r2). cbn [length] in Hf.
  rewrite (proj2 (Z.eqb_neq (zlen d1) _)), (proj2 (Z.eqb_neq (zlen d2) _)) by lia. cbn [orb].
  rewrite (entry_key h x1 d1 _ r1 B1), (entry_key h x2 d2 _ r2 B2). cbn [mbind option_bind fst].
  pose proof (entry_later h x1 d1 _ r1 B1) as F1. pose proof (entry_later h x2 d2 _ r2 B2) as F2. cbn [fst] in F1, F2.
  destruct (ahead_cons _ _ _ A1) as [K1 A1']. cbn [fst] in K1.
  destruct (Z.eqb_spec k1 k2) as [<- | Hne]; [| destruct (Z.ltb_spec k1 k2) as [Hlt | Hlt]].
  - destruct (entry_container h x1 d1 _ r1 B1) as (c1 & -> & V1 & E1). destruct (entry_container h x2 d2 _ r2 B2) as (c2 & -> & V2 & E2).
    cbn [mbind option_bind]. destruct (andnot_pair c1 c2 V1 V2) as (c & -> & O & S & El). cbn [mbind option_bind]. rewrite E1, E2 in El. cbn [snd] in El.
    assert (in_u 16 k1) as Hk by (pose proof (bm_range _ _ _ B1) as R; rewrite keys_middle in R; apply Forall_app in R as [_ R]; by inversion R).
    eapply post_bind; [by apply (both_step true L h x1 x2 ans _ _ acc _ k1 c Hg) |]. intros [ans' h'] (-> & Hg' & Ff).
    rewrite (zlen_next d1 (k1, l1)), (zlen_next d2 (k1, l2)). rewrite (cons_snoc d1), (cons_snoc d2) in Hg'.
    eapply post_mono; [apply (IH L h x1 x2 ans' (d1 ++ [(k1, l1)]) r1 (d2 ++ [(k1, l2)]) r2 (acc ++ one k1 (container_elems c))); [lia | eapply merging_less; [| exact Hg']; lia | eapply ahead_snoc; try done; apply keys_one] |].
    intros [[[[p1 p2] x1'] ans2] h2] (d1' & q & s & Q & P1 & E & Hg2 & M & K & A & SS & Fc & Fa). exists d1', q, (one k1 (container_elems c) ++ s).
    rewrite <- !cons_snoc in Q. rewrite <- (cons_snoc d1), <- (cons_snoc d2), <- (app_assoc acc) in Hg2. rewrite <- app_assoc in A. do 4 (split; [done |]). rewrite <- app_assoc. split; [| split].
    + apply merged_both; [| done | done]. intros Hin%K. by apply not_in_later in Hin.
    + rewrite keys_app. intros k. rewrite elem_of_app. intros [Hk'%keys_one | Hk'%K]; [apply list_elem_of_singleton in Hk' as ->; constructor | by constructor].
    + do 3 (split; [done |]). congruence.
  - destruct (entry_advance h x1 d1 _ r1 B1 k2 Hlt) as (p & q & -> & -> & Hp & Hq). cbn [mbind option_bind].
    rewrite length_app in Hf. rewrite app_comm_cons in Hg, A1. destruct (ahead_app _ _ _ A1) as [A1q A1p].
    rewrite zlen_app. apply merging_swap in Hg.
    eapply post_bind; [apply (append_range L h x2 x1 ans (d2 ++ (k2, l2) :: r2) d1 ((k1, l1) :: p) q acc (zlen q)); [eapply merging_less; [| exact Hg] | apply zlen_nonneg | done] |].
    { rewrite zlen_app, zlen_cons. lia. }
    intros [[ans1 x1'] h1] (Hg' & S1 & Fc1 & Fa1). apply merging_swap in Hg'. rewrite <- (zlen_app d1). rewrite (app_assoc d1) in Hg'.
    eapply post_mono; [apply (IH L h1 x1' x2 ans1 (d1 ++ (k1, l1) :: p) q d2 ((k2, l2) :: r2) (acc ++ (k1, l1) :: p)); [cbn [length]; lia | done |] |].
    { intros k k'. rewrite keys_app, elem_of_app. intros [Hk | Hk] Hk'; [by apply A1q |].
      pose proof (suffix_strict _ _ _ _ B1) as Hs. rewrite app_comm_cons, keys_app in Hs. apply strict_app_inv in Hs as (_ & _ & Hs). by apply Hs. }
    intros [[[[p1 p2] x1''] ans2] h2] (d1' & q' & s & Q & P1 & E & Hg2 & M & K & A & SS & Fc & Fa). exists d1', q', (((k1, l1) :: p) ++ s).
    rewrite <- !app_assoc in Hg2. rewrite <- app_assoc in Q, A. do 4 (split; [done |]). rewrite <- app_assoc. split; [| split].
    + rewrite app_comm_cons. eapply (merged_keep _ _ _ _ _ k2); [apply _ | unfold and_not; tauto | | | done]; [by constructor | by apply entry_ahead_cons].
    + rewrite app_comm_cons, !keys_app in *. intros k. rewrite !elem_of_app. intros [? | Hk]; [by left | right]. apply K. rewrite elem_of_app. tauto.
    + split; [done |]. split; [by eapply same_on_trans |]. split; congruence.
  - destruct (entry_advance h x2 d2 _ r2 B2 k1 ltac:(cbn; lia)) as (p & q & -> & -> & Hp & Hq). cbn [mbind option_bind].
    rewrite length_app in Hf. rewrite app_comm_cons, (app_assoc d2) in Hg.
    eapply post_mono; [apply (IH L h x1 x2 ans d1 ((k1, l1) :: r1) (d2 ++ (k2, l2) :: p) q acc); [cbn [length]; lia | rewrite zlen_cons; done | done] |].
    intros [[[[p1 p2] x1''] ans2] h2] (d1' & q' & s & Q & P1 & E & Hg2 & M & K & A & SS & Fc & Fa). exists d1', q', s.
    rewrite <- (app_assoc d2) in Hg2. do 4 (split; [done |]). split; [| done].
    rewrite app_comm_cons. eapply (merged_skip (fun A B => and_not B A) _ _ _ _ k1); [intros A0 A' HA B B' HB; by rewrite HA, HB | unfold and_not; tauto | | | | done].
    + by eapply suffix_strict.
    + constructor; [cbn; lia | done].
    + by apply entry_ahead_cons.
Qed.

(** ** The operations on bitmaps *)

Definition xor_prop (A B : Prop) : Prop := (A /\ ~ B) \/ (B /\ ~ A).

#[export] Instance xor_prop_proper : Proper (iff ==> iff ==> iff) xor_prop.
Proof. intros A A' H B B' H'. unfold xor_prop. by rewrite H, H'. Qed.

Lemma unwrapped_spec op h t1 t2 c1 c2 : points h t1 c1 -> points h t2 c2 -> unwrapped op h t1 t2 = op c1 c2.
Proof. intros H1%unwrap_points H2%unwrap_points. unfold unwrapped. by rewrite H1, H2. Qed.

#[export] Instance or_merge : MergeOp (unwrapped container_or) false or.
Proof.
  split; [| intros l y; rewrite elem_of_nil; tauto..]. intros h t1 t2 c1 c2 P1 P2 V1 V2. rewrite (unwrapped_spec _ _ _ _ _ _ P1 P2).
  destruct (or_op c1 c2 V1 V2) as (c & E & O & S & El). exists c. do 3 (split; [done |]). split; [intros y; rewrite El; apply elem_of_union_loop |].
  intros _. rewrite El. destruct (container_elems c1) as [|x t] eqn:E1; [by destruct (v_ne _ V1) |].
  apply (elem_of_not_nil x), elem_of_union_loop. left. constructor.
Qed.

#[export] Instance xor_merge : MergeOp (unwrapped container_xor) true xor_prop.
Proof.
  split; [| intros l y; unfold xor_prop; rewrite elem_of_nil; tauto..]. intros h t1 t2 c1 c2 P1 P2 V1 V2. rewrite (unwrapped_spec _ _ _ _ _ _ P1 P2).
  destruct (xor_op c1 c2 V1 V2) as (c & E & O & S & El). exists c. do 3 (split; [done |]). split; [| done].
  intros y. rewrite El. apply elem_of_xor; by apply container_strict, v_ok.
Qed.

Section TwoBitmaps.

Context (L : list positive) (h : heap) (x1 x2 : roaring_bitmap_t) (m1 m2 : list entry).
Context (H1 : bm h x1 m1) (H2 : bm h x2 m2) (T1 : tidy x1) (T2 : tidy x2) (C : counted h (bm_refs x1 ++ bm_refs x2 ++ L)).
Context (S : space (bm_refs x1 ++ bm_refs x2 ++ L) (zlen m1 + zlen m2)).

(** An empty answer. *)
Lemma merging_start cap n : 0 <= cap -> 0 <= n -> n <= zlen m1 + zlen m2 ->
  merging L h x1 x2 (roaring_bitmap_set_copy_on_write (mk_ra [] cap 0) (is_cow x1 && is_cow x2)) ([] ++ m1) ([] ++ m2) [] n.
Proof. intros Hc Hn Hle. constructor; try done; [constructor; cbn; try constructor; done | unfold space in *; cbn [app]; cbn; lia]. Qed.

Lemma created cap : 0 <= cap <= 65536 -> exists cap', roaring_bitmap_create_with_capacity cap = Some (mk_ra [] cap' 0) /\ 0 <= cap'.
Proof.
  intros Hc. unfold roaring_bitmap_create_with_capacity, ra_init_with_capacity. rewrite (proj2 (Z.ltb_ge _ _)) by (unfold INT32_MAX; lia).
  destruct (Z.ltb_spec 0 cap); [exists cap | exists 0]; split; (done || lia).
Qed.

Lemma bitmap_and_spec : post (roaring_bitmap_and h x1 x2) (fun '(ans, h') => combined and L h m1 m2 x1 x2 ans h').
Proof.
  unfold roaring_bitmap_and. destruct (bm_size _ _ _ H1) as [Z1 M1]. destruct (bm_size _ _ _ H2) as [Z2 M2]. pose proof (zlen_nonneg m1). pose proof (zlen_nonneg m2).
  destruct (created (if ra_size x2 <? ra_size x1 then ra_size x2 else ra_size x1)) as (cap & -> & Hcap); [destruct (ra_size x2 <? ra_size x1); lia |]. cbn [mbind option_bind].
  eapply post_mono; [apply (and_loop_spec _ L h x1 x2 _ [] m1 [] m2 [] 0) |].
  - unfold merge_fuel. rewrite (Forall2_length _ _ _ (bm_holds _ _ _ H1)), (Forall2_length _ _ _ (bm_holds _ _ _ H2)). lia.
  - apply merging_start; lia.
  - by intros k k' ?%elem_of_nil.
  - by intros k k' ?%elem_of_nil.
  - intros [ans h'] (-> & F & s & G & M & _). cbn [app] in *. eapply combined_end; [apply _ | exact G | apply same_on_refl | | done].
    rewrite (is_cow_flags _ _ F). apply is_cow_set.
Qed.

Lemma bitmap_andnot_spec : post (roaring_bitmap_andnot h x1 x2) (fun '(x1', ans, h') => combined and_not L h m1 m2 x1' x2 ans h').
Proof.
  unfold roaring_bitmap_andnot. destruct (bm_size _ _ _ H1) as [Z1 M1]. destruct (bm_size _ _ _ H2) as [Z2 M2]. pose proof (zlen_nonneg m1). pose proof (zlen_nonneg m2).
  rewrite Z1, Z2. destruct (Z.eqb_spec (zlen m1) 0) as [E1 | E1]; [| destruct (Z.eqb_spec (zlen m2) 0) as [E2 | E2]].
  - assert (m1 = []) as Em by (apply zlen_zero, Z.eqb_eq; done). apply post_ret. eapply (combined_end _ L h h _ _ _ m1 m2 [] 0); [apply _ | apply merging_start; lia | apply same_on_refl | apply is_cow_set |].
    rewrite Em. intros k y. unfold and_not. cbn [at_key]. rewrite elem_of_nil. tauto.
  - assert (m2 = []) as Em by (apply zlen_zero, Z.eqb_eq; done). eapply post_mono.
    { apply (copy_spec (bm_refs x2 ++ L) h x1 m1); try done. unfold space in *. lia. }
    intros [[x1' ans] h'] (B1 & BA & C' & S' & F1 & FA & T1' & TA). exists m1.
    assert (bm h' x2 m2) as B2 by (eapply bm_same; [exact S' | | done]; intros k Hk; apply elem_of_app; by left).
    do 3 (split; [done |]). split; [intros y; rewrite Em; unfold and_not; cbn [values mbind list_bind]; rewrite elem_of_nil; tauto |].
    split; [done |]. split; [eapply same_on_sub; [| exact S']; intros k Hk; apply elem_of_app; by right |]. done.
  - destruct (created (zlen m1)) as (cap & -> & Hcap); [lia |]. cbn [mbind option_bind].
    eapply post_bind; [apply (andnot_loop_spec _ L h x1 x2 _ [] m1 [] m2 []) |].
    + unfold merge_fuel. rewrite (Forall2_length _ _ _ (bm_holds _ _ _ H1)), (Forall2_length _ _ _ (bm_holds _ _ _ H2)). lia.
    + apply merging_start; lia.
    + by intros k k' ?%elem_of_nil.
    + intros [[[[p1 p2] x1'] ans] h'] (d & r & s & Q & -> & E & G & M & _ & A & SS & Fc & Ff). cbn [app] in *.
      assert (is_cow ans = is_cow x1 && is_cow x2) as Fa by (rewrite (is_cow_flags _ _ Ff); apply is_cow_set). rewrite Z2 in E.
      destruct (Z.eqb_spec p2 (zlen m2)) as [E' | E'].
      * assert (zlen m1 = zlen d + zlen r) as -> by (rewrite Q; apply zlen_app). rewrite Q in G. apply merging_swap in G.
        eapply post_bind; [apply (append_rest L h' x2 x1' ans m2 d r s); done |]. intros [[ans2 x1''] h2] (G2 & S2 & Fc2 & Ff2). apply post_ret. apply merging_swap in G2.
        eapply combined_end; [apply _ | rewrite Q; exact G2 | by eapply same_on_trans | | done]. rewrite (is_cow_flags _ _ Ff2), Fa. congruence.
      * destruct E as [? | ->]; [done |]. rewrite app_nil_r in M. apply post_ret. eapply combined_end; [apply _ | exact G | done | by rewrite Fa, Fc | done].
Qed.

End TwoBitmaps.

(** ** The claim *)

(** C40: on two well-formed bitmaps whose containers may be shared (with each
    other and with others), where a bitmap without the copy-on-write flag has
    no shared containers, [roaring_bitmap_and], [roaring_bitmap_or],
    [roaring_bitmap_xor] and [roaring_bitmap_andnot] run to the end and return
    a well-formed bitmap with exactly the values of the intersection, union,
    symmetric difference and difference; both arguments keep their values,
    every reference counter is the number of references, and the containers
    behind the references [L] of other bitmaps are as they were.  When both
    arguments have the same copy-on-write flag the result again has no shared
    container unless it has the flag. *)
Theorem bitmap_set_operations L h x1 x2 m1 m2 : bm h x1 m1 -> bm h x2 m2 -> tidy x1 -> tidy x2 ->
  counted h (bm_refs x1 ++ bm_refs x2 ++ L) -> space (bm_refs x1 ++ bm_refs x2 ++ L) (zlen m1 + zlen m2) ->
  post (roaring_bitmap_and h x1 x2) (fun '(ans, h') => combined and L h m1 m2 x1 x2 ans h') /\
  post (roaring_bitmap_or h x1 x2) (fun '(x1', x2', ans, h') => combined or L h m1 m2 x1' x2' ans h') /\
  post (roaring_bitmap_xor h x1 x2) (fun '(x1', x2', ans, h') => combined xor_prop L h m1 m2 x1' x2' ans h') /\
  post (roaring_bitmap_andnot h x1 x2) (fun '(x1', ans, h') => combined and_not L h m1 m2 x1' x2 ans h').
Proof.
  intros H1 H2 T1 T2 C S. split; [by apply bitmap_and_spec |]. split; [by apply (merge_bitmaps_spec _ _ or) |].
  split; [by apply (merge_bitmaps_spec _ _ xor_prop) | by apply bitmap_andnot_spec].
Qed.

Lemma bitmap_set_operations_witness :
  post (roaring_bitmap_xor pair_heap pair_bitmap pair_bitmap) (fun '(x1', x2', ans, h') =>
    combined xor_prop [] pair_heap pair_entries pair_entries x1' x2' ans h').
Proof.
  apply (bitmap_set_operations [] pair_heap pair_bitmap pair_bitmap pair_entries pair_entries pair_bm pair_bm); [done | done | | done].
  rewrite app_nil_r. apply pair_counted.
Defined.
