(* ===== verification/TimerFacts.v ===== *)
(** * Timers: the manager as a map of pending timers

    The abstract manager is a finite map from timers to their deadlines,
    periods and callbacks; the set of the source is the list of its keys in
    the order of deadlines. *)

From stdpp Require Import base list list_numbers numbers option sorting gmap fin_maps.
From Stdlib Require Import ZArith Lia.
From S2P Require Import Prelude.
From S2P Require Import Timer.

Local Open Scope Z_scope.

(** ** Ordered sets *)

Section SetFacts.

Context (lt : positive -> positive -> bool).

Definition ascending (l : list positive) : Prop := StronglySorted (fun a b => lt a b = true) l.

Class TotalOrder : Prop := {
  lt_irrefl : forall a, lt a a = false;
  lt_trans : forall a b c, lt a b = true -> lt b c = true -> lt a c = true;
  lt_total : forall a b, a <> b -> lt a b = false -> lt b a = true;
}.

Context {order : TotalOrder}.

Lemma lt_antisym a b : lt a b = true -> lt b a = false.
Proof. intros H. destruct (lt b a) eqn:E; [| done]. pose proof (lt_trans _ _ _ H E). by rewrite lt_irrefl in *. Qed.

Lemma lower_bound_split a l1 l2 : Forall (fun b => lt b a = true) l1 -> match l2 with [] => True | b :: _ => lt b a = false end ->
  set_lower_bound lt a (l1 ++ l2) = length l1.
Proof. induction 1 as [|b l1 Hb _ IH]; cbn; [destruct l2 as [|c l2]; [done | cbn; by intros ->] |]. intros H2. by rewrite Hb, IH. Qed.

(** Where [a] is or would be. *)
Lemma ascending_split a l : ascending l -> exists l1 l2, l = l1 ++ l2 /\ Forall (fun b => lt b a = true) l1 /\
  (Forall (fun b => lt a b = true) l2 \/ exists r, l2 = a :: r /\ Forall (fun b => lt a b = true) r).
Proof.
  induction 1 as [|b l Hl IH Hb]; [exists [], []; auto |]. destruct (lt b a) eqn:E.
  - destruct IH as (l1 & l2 & -> & H1 & H2). exists (b :: l1), l2. split; [done |]. split; [by constructor | done].
  - exists [], (b :: l). split; [done |]. split; [constructor |]. destruct (decide (b = a)) as [-> | Hne]; [right; by exists l |]. left.
    assert (lt a b = true) as Hab by (by apply lt_total). constructor; [done |]. eapply Forall_impl; [exact Hb |]. cbn. intros c Hc. by eapply lt_trans.
Qed.

Lemma ascending_app l1 l2 : ascending l1 -> ascending l2 -> (forall a b, a ∈ l1 -> b ∈ l2 -> lt a b = true) -> ascending (l1 ++ l2).
Proof.
  intros H1 H2 H. induction H1 as [|a l1 H1 IH Ha]; [done |]. cbn. constructor.
  - apply IH. intros x y Hx Hy. apply H; [by constructor | done].
  - apply Forall_app. split; [done |]. apply Forall_forall. intros b Hb. apply H; [constructor | done].
Qed.

Lemma ascending_app_inv l1 l2 : ascending (l1 ++ l2) -> ascending l1 /\ ascending l2 /\ forall a b, a ∈ l1 -> b ∈ l2 -> lt a b = true.
Proof.
  intros H. split; [by eapply StronglySorted_app_1_l |]. split; [by eapply StronglySorted_app_1_r |].
  intros x y Hx Hy. by eapply (StronglySorted_app_1_elem_of (fun a b => lt a b = true) l1 l2).
Qed.

Lemma ascending_NoDup l : ascending l -> NoDup l.
Proof.
  induction 1 as [|a l _ IH Ha]; [constructor |]. constructor; [| done]. intros Hin. rewrite Forall_forall in Ha. specialize (Ha a Hin). cbn in Ha.
  by rewrite lt_irrefl in Ha.
Qed.

(** Two ascending lists with the same elements are the same. *)
Lemma ascending_unique l1 l2 : ascending l1 -> ascending l2 -> (forall a, a ∈ l1 <-> a ∈ l2) -> l1 = l2.
Proof.
  intros H1. revert l2. induction H1 as [|a l1 H1 IH Ha]; intros l2 H2 He.
  - destruct l2 as [|b l2]; [done |]. exfalso. apply (not_elem_of_nil b), He. constructor.
  - destruct l2 as [|b l2]; [exfalso; apply (not_elem_of_nil a), He; constructor |]. apply StronglySorted_inv in H2 as [H2 Hb].
    rewrite Forall_forall in Ha, Hb.
    assert (a = b) as <-.
    { destruct (decide (a = b)) as [| Hne]; [done |]. exfalso.
      assert (a ∈ l2) as Ha2 by (assert (a ∈ b :: l2) as Hin by (apply He; constructor); apply elem_of_cons in Hin as [| ?]; done).
      assert (b ∈ l1) as Hb1 by (assert (b ∈ a :: l1) as Hin by (apply He; constructor); apply elem_of_cons in Hin as [? | ?]; [by subst | done]).
      pose proof (lt_antisym _ _ (Ha b Hb1)) as E. by rewrite (Hb a Ha2) in E. }
    f_equal. apply IH; [done |]. intros c. specialize (He c). rewrite !elem_of_cons in He. split; intros Hc.
    + destruct (proj1 He (or_intror Hc)) as [-> | ?]; [| done]. specialize (Ha a Hc). cbn in Ha. by rewrite lt_irrefl in Ha.
    + destruct (proj2 He (or_intror Hc)) as [-> | ?]; [| done]. specialize (Hb a Hc). cbn in Hb. by rewrite lt_irrefl in Hb.
Qed.

Lemma set_find_in a l : ascending l -> a ∈ l -> exists l1 l2, l = l1 ++ a :: l2 /\ set_find lt a l = Some (length l1) /\ delete (length l1) l = l1 ++ l2.
Proof.
  intros Hl Hin. destruct (ascending_split a l Hl) as (l1 & l2 & -> & H1 & [H2 | (r & -> & H2)]).
  - exfalso. rewrite Forall_forall in H1, H2. apply elem_of_app in Hin as [Hin | Hin]; [specialize (H1 a Hin) | specialize (H2 a Hin)]; cbn in *; by rewrite lt_irrefl in *.
  - exists l1, r. split; [done |]. split; [| by rewrite delete_middle]. unfold set_find. rewrite lower_bound_split; [| done | apply lt_irrefl].
    rewrite list_lookup_middle by done. by rewrite lt_irrefl.
Qed.

Lemma set_find_out a l : ascending l -> a ∉ l -> set_find lt a l = None /\ exists l1 l2, l = l1 ++ l2 /\
  Forall (fun b => lt b a = true) l1 /\ Forall (fun b => lt a b = true) l2 /\ set_insert lt a l = (length l1, l1 ++ a :: l2) /\ ascending (l1 ++ a :: l2).
Proof.
  intros Hl Hn. destruct (ascending_split a l Hl) as (l1 & l2 & -> & H1 & [H2 | (r & -> & H2)]).
  - assert (set_lower_bound lt a (l1 ++ l2) = length l1) as E.
    { apply lower_bound_split; [done |]. destruct l2 as [|b l2]; [done |]. apply Forall_cons in H2 as [H2 _]. by apply lt_antisym. }
    assert (set_find lt a (l1 ++ l2) = None) as Ef.
    { unfold set_find. rewrite E. rewrite lookup_app_r, Nat.sub_diag by done. destruct l2 as [|b l2]; [done |]. cbn. apply Forall_cons in H2 as [H2 _]. by rewrite H2. }
    split; [done |]. exists l1, l2. split; [done |]. split; [done |]. split; [done |]. split.
    + unfold set_insert. rewrite Ef, E. by rewrite take_app_length, drop_app_length.
    + apply ascending_app_inv in Hl as (A1 & A2 & A12). rewrite Forall_forall in H1. apply ascending_app; [done | by constructor |].
      intros x y Hx Hy. apply elem_of_cons in Hy as [-> | Hy]; [by apply H1 | by apply A12].
  - exfalso. apply Hn, elem_of_app. right. constructor.
Qed.

End SetFacts.

Section TimerFacts.

Context {F W : Type}.
Abbreviation Timer := (@Timer.Timer F W).
Abbreviation TimerManager := (@Timer.TimerManager F W).
Abbreviation callback := (@Timer.callback F W).
Implicit Types st : gmap positive Timer.
Implicit Types s : TimerManager.

#[export] Instance timer_order st : TotalOrder (timer_lt st).
Proof.
  unfold timer_lt, Comparator. constructor.
  - intros a. rewrite Z.ltb_irrefl. apply Pos.ltb_irrefl.
  - intros a b c. destruct (Z.ltb_spec (t_next (deref st a)) (t_next (deref st b))), (Z.ltb_spec (t_next (deref st b)) (t_next (deref st a))),
      (Z.ltb_spec (t_next (deref st b)) (t_next (deref st c))), (Z.ltb_spec (t_next (deref st c)) (t_next (deref st b))),
      (Z.ltb_spec (t_next (deref st a)) (t_next (deref st c))), (Z.ltb_spec (t_next (deref st c)) (t_next (deref st a))); try done; try lia.
    rewrite !Pos.ltb_lt. apply Pos.lt_trans.
  - intros a b Hab. destruct (Z.ltb_spec (t_next (deref st a)) (t_next (deref st b))), (Z.ltb_spec (t_next (deref st b)) (t_next (deref st a))); try done; try lia.
    rewrite Pos.ltb_ge, Pos.ltb_lt. intros H'. apply Pos.le_lteq in H' as [? | ->]; done.
Qed.

Lemma timer_lt_next st a b : timer_lt st a b = true -> t_next (deref st a) <= t_next (deref st b).
Proof. unfold timer_lt, Comparator. destruct (Z.ltb_spec (t_next (deref st a)) (t_next (deref st b))), (Z.ltb_spec (t_next (deref st b)) (t_next (deref st a))); (done || lia). Qed.

Lemma timer_lt_not_next st a b : timer_lt st a b = false -> t_next (deref st b) <= t_next (deref st a).
Proof. unfold timer_lt, Comparator. destruct (Z.ltb_spec (t_next (deref st a)) (t_next (deref st b))), (Z.ltb_spec (t_next (deref st b)) (t_next (deref st a))); (done || lia). Qed.

Lemma timer_lt_ext st st' a b : st !! a = st' !! a -> st !! b = st' !! b -> timer_lt st a b = timer_lt st' a b.
Proof. unfold timer_lt, Comparator, deref. by intros -> ->. Qed.

Lemma ascending_ext st st' l : (forall a, a ∈ l -> st !! a = st' !! a) -> ascending (timer_lt st) l -> ascending (timer_lt st') l.
Proof.
  intros He H. induction H as [|a l Hl IH Ha]; [constructor |]. constructor.
  - apply IH. intros b Hb. apply He. by constructor.
  - rewrite Forall_forall in *. intros b Hb. rewrite <- (timer_lt_ext st); [by apply Ha | apply He; constructor | apply He; by constructor].
Qed.

Lemma ascending_insert_out st a t l : a ∉ l -> ascending (timer_lt st) l -> ascending (timer_lt (<[a := t]> st)) l.
Proof. intros Hn. apply ascending_ext. intros b Hb. rewrite lookup_insert_ne; [done |]. by intros ->. Qed.

Lemma deref_lookup st a t : st !! a = Some t -> deref st a = t.
Proof. unfold deref. by intros ->. Qed.

(** ** Timers in the order of their deadlines *)

Definition before_eq st (a b : positive) : Prop := timer_lt st b a = false.

#[export] Instance before_eq_dec st a b : Decision (before_eq st a b).
Proof. unfold before_eq. apply _. Defined.

Definition by_deadline st : list positive := merge_sort (before_eq st) (elements (dom st)).

Lemma by_deadline_elem st a : a ∈ by_deadline st <-> is_Some (st !! a).
Proof. unfold by_deadline. rewrite merge_sort_Permutation, elem_of_elements. apply elem_of_dom. Qed.

Lemma by_deadline_ascending st : ascending (timer_lt st) (by_deadline st).
Proof.
  assert (NoDup (by_deadline st)) as Hn by (unfold by_deadline; rewrite merge_sort_Permutation; apply NoDup_elements).
  assert (StronglySorted (before_eq st) (by_deadline st)) as Hs.
  { apply StronglySorted_merge_sort.
    - intros a b c Hab Hbc. unfold before_eq in *. destruct (timer_lt st c a) eqn:E; [| done]. destruct (decide (a = b)) as [-> | Hne]; [congruence |].
      pose proof (lt_total _ _ _ (not_eq_sym Hne) Hab) as Hab'. pose proof (lt_trans _ _ _ _ E Hab') as Hcb. congruence.
    - intros a b. unfold before_eq. destruct (timer_lt st b a) eqn:E; [right; by apply (lt_antisym (timer_lt st)) | by left]. }
  revert Hn. induction Hs as [|a l Hl IH Ha]; [constructor |]. intros Hn. apply NoDup_cons in Hn as [Hna Hn]. constructor; [by apply IH |].
  rewrite Forall_forall in *. intros b Hb. apply (lt_total (timer_lt st) b a); [by intros -> | by apply Ha].
Qed.

Lemma by_deadline_unique st l : ascending (timer_lt st) l -> (forall a, a ∈ l <-> is_Some (st !! a)) -> l = by_deadline st.
Proof. intros H He. apply (ascending_unique (timer_lt st)); [done | apply by_deadline_ascending |]. intros a. by rewrite He, by_deadline_elem. Qed.

(** ** The abstract manager *)

Definition waiting (t : Timer) : Prop := t_callback t <> None.

#[export] Instance waiting_dec t : Decision (waiting t).
Proof. unfold waiting. destruct (t_callback t); [left | right]; congruence. Defined.

(** The timers with a callback. *)
Definition pending st : gmap positive Timer := filter (fun '(_, t) => waiting t) st.

Record Pending := mk_Pending {
  p_store : gmap positive Timer;
  p_tickled : bool;
  p_previousTime : Z;
}.

Definition p_put (st : gmap positive Timer) (p : Pending) : Pending := mk_Pending st (p_tickled p) (p_previousTime p).

(** [a] has come in: is it the first, with nobody notified so far? *)
Definition p_notify (a : positive) (p : Pending) : bool * Pending :=
  let front := bool_decide (head (by_deadline (pending (p_store p))) = Some a) && negb (p_tickled p) in
  (front, mk_Pending (p_store p) (p_tickled p || front) (p_previousTime p)).

Definition p_addTimer (now ms : Z) (cb : callback) (recurring : bool) (a : positive) (p : Pending) : bool * Pending :=
  p_notify a (p_put (<[a := new_Timer now ms (Some cb) recurring]> (p_store p)) p).

Definition p_change (a : positive) (f : Timer -> Timer) (p : Pending) : bool * Pending :=
  let t := deref (p_store p) a in
  if decide (waiting t) then (true, p_put (<[a := f t]> (p_store p)) p) else (false, p).

Definition p_cancel (a : positive) : Pending -> bool * Pending := p_change a (with_callback None).
Definition p_refresh (now : Z) (a : positive) : Pending -> bool * Pending := p_change a (fun t => with_next (u64 (now + t_ms t)) t).

Definition p_reset (now ms : Z) (fromNow : bool) (a : positive) (p : Pending) : bool * bool * Pending :=
  if (ms =? t_ms (deref (p_store p) a)) && negb fromNow then (true, false, p)
  else
    let start t := if fromNow then now else u64 (t_next t - t_ms t) in
    let '(found, p) := p_change a (fun t => with_next (u64 (start t + ms)) (with_ms ms t)) p in
    if found then let '(front, p) := p_notify a p in (true, front, p) else (false, false, p).

Definition p_first (st : gmap positive Timer) : option Z := (fun a => t_next (deref st a)) <$> head (by_deadline (pending st)).

Definition p_getNextTimer (now : Z) (p : Pending) : Z * Pending :=
  (match p_first (p_store p) with None => NO_TIMER | Some next => if next <=? now then 0 else u64 (next - now) end, mk_Pending (p_store p) false (p_previousTime p)).

Definition due (rollover : bool) (now : Z) (t : Timer) : Prop := waiting t /\ (rollover = true \/ t_next t <= now).

#[export] Instance due_dec rollover now t : Decision (due rollover now t).
Proof. unfold due. apply _. Defined.

Definition after (now : Z) (t : Timer) : Timer :=
  if t_recurring t then with_next (u64 (now + t_ms t)) t else with_callback None t.

(** More than an hour back. *)
Definition p_rollover (now : Z) (p : Pending) : bool :=
  (now <? p_previousTime p) && (now <? u64 (p_previousTime p - 3600000)).

Definition p_listExpired (now : Z) (p : Pending) : list (option callback) * Pending :=
  if decide (pending (p_store p) = ∅) then ([], p)
  else
    let rollover := p_rollover now p in
    let expired := by_deadline (filter (fun '(_, t) => due rollover now t) (p_store p)) in
    ((fun a => t_callback (deref (p_store p) a)) <$> expired,
     mk_Pending ((fun t => if decide (due rollover now t) then after now t else t) <$> p_store p) (p_tickled p) now).

(** The manager [s] holds the timers of [p], in order. *)
Record represents s (p : Pending) : Prop := {
  rp_store : p_store p = tm_store s;
  rp_timers : tm_timers s = by_deadline (pending (tm_store s));
  rp_tickled : p_tickled p = tm_tickled s;
  rp_previous : p_previousTime p = tm_previousTime s;
}.

Lemma pending_lookup st a t : pending st !! a = Some t <-> st !! a = Some t /\ waiting t.
Proof. unfold pending. by rewrite map_lookup_filter_Some. Qed.

Lemma timers_elem st a : a ∈ by_deadline (pending st) <-> waiting (deref st a).
Proof.
  rewrite by_deadline_elem. split.
  - intros [t [Ht Hw]%pending_lookup]. by rewrite (deref_lookup _ _ _ Ht).
  - unfold deref. destruct (st !! a) as [t |] eqn:E; [| done]. intros Hw. exists t. by apply pending_lookup.
Qed.

Lemma timers_ascending st : ascending (timer_lt st) (by_deadline (pending st)).
Proof.
  eapply ascending_ext; [| apply by_deadline_ascending]. intros a [t Ht]%by_deadline_elem. rewrite Ht. symmetry. by apply pending_lookup in Ht as [-> _].
Qed.

Lemma timers_unique st l : ascending (timer_lt st) l -> (forall a, a ∈ l <-> waiting (deref st a)) -> l = by_deadline (pending st).
Proof. intros H He. apply (ascending_unique (timer_lt st)); [done | apply timers_ascending |]. intros a. by rewrite He, timers_elem. Qed.

Lemma deref_insert st a t b : deref (<[a := t]> st) b = if decide (b = a) then t else deref st b.
Proof. unfold deref. case_decide; [subst; by rewrite lookup_insert_eq | by rewrite lookup_insert_ne]. Qed.

(** ** The operations on the set *)

Lemma erase_waiting st st' a : waiting (deref st a) -> (forall b, t_next (deref st' b) = t_next (deref st b)) -> exists i,
  set_find (timer_lt st') a (by_deadline (pending st)) = Some i /\ let l := delete i (by_deadline (pending st)) in
  ascending (timer_lt st) l /\ forall b, b ∈ l <-> b <> a /\ waiting (deref st b).
Proof.
  intros Hw Hn. assert (ascending (timer_lt st') (by_deadline (pending st))) as Ha'.
  { pose proof (timers_ascending st) as Ha. induction Ha as [|b l _ IH Hb]; constructor; [done |]. eapply Forall_impl; [exact Hb |]. cbn. intros c.
    unfold timer_lt, Comparator. by rewrite !Hn. }
  destruct (set_find_in (timer_lt st') a _ Ha') as (l1 & l2 & El & Ef & Ed); [by apply timers_elem |]. exists (length l1). split; [done |]. cbv zeta. rewrite Ed.
  pose proof (timers_ascending st) as Ha. rewrite El in Ha. destruct (ascending_app_inv (timer_lt st) _ _ Ha) as (A1 & A2 & A12).
  apply StronglySorted_inv in A2 as [A2 A3]. rewrite Forall_forall in A3.
  split; [apply ascending_app; [done | done |]; intros x y Hx Hy; apply A12; [done | by constructor] |].
  intros b. rewrite <- timers_elem, El, !elem_of_app, elem_of_cons. split.
  - intros [Hb | Hb]; (split; [| tauto]); intros ->; [pose proof (A12 a a Hb ltac:(constructor)) as Hi | pose proof (A3 a Hb) as Hi]; by rewrite (lt_irrefl (timer_lt st)) in Hi.
  - tauto.
Qed.

Lemma insert_waiting st a l : ascending (timer_lt st) l -> (forall b, b ∈ l <-> b <> a /\ waiting (deref st b)) -> waiting (deref st a) -> exists i,
  set_insert (timer_lt st) a l = (i, by_deadline (pending st)) /\ (i =? 0)%nat = bool_decide (head (by_deadline (pending st)) = Some a).
Proof.
  intros Ha He Hw. destruct (set_find_out (timer_lt st) a l Ha) as (_ & l1 & l2 & -> & H1 & H2 & -> & A); [rewrite He; tauto |].
  exists (length l1). assert (l1 ++ a :: l2 = by_deadline (pending st)) as E.
  { apply timers_unique; [done |]. intros b. specialize (He b). rewrite elem_of_app in He. rewrite elem_of_app, elem_of_cons.
    destruct (decide (b = a)) as [-> | Hb]; tauto. }
  rewrite <- E. split; [done |]. destruct l1 as [|c l1]; cbn; [by rewrite bool_decide_true |]. rewrite bool_decide_false; [done |]. intros [= ->].
  apply Forall_cons in H1 as [H1 _]. by rewrite (lt_irrefl (timer_lt st)) in H1.
Qed.

(** ** Each operation does what the abstract one does *)

Lemma notify_represents st s p a : tm_store s = st -> p_store p = st -> p_tickled p = tm_tickled s -> p_previousTime p = tm_previousTime s ->
  ascending (timer_lt st) (tm_timers s) -> (forall b, b ∈ tm_timers s <-> b <> a /\ waiting (deref st b)) -> waiting (deref st a) ->
  fst (addTimer_locked a s) = fst (p_notify a p) /\ represents (snd (addTimer_locked a s)) (snd (p_notify a p)).
Proof.
  intros Es Ep Et Ev Ha He Hw. destruct (insert_waiting st a (tm_timers s) Ha He Hw) as (i & Ei & E0). unfold addTimer_locked, p_notify.
  rewrite Es, Ei, Ep, Et, E0. cbn [fst snd]. split; [done |]. destruct (bool_decide _ && negb (tm_tickled s)) eqn:E.
  - constructor; cbn; rewrite ?Es; try done. by rewrite orb_true_r.
  - constructor; cbn; rewrite ?Es; try done. by rewrite orb_false_r.
Qed.

Lemma addTimer_represents now ms cb recurring a s p : represents s p -> tm_store s !! a = None ->
  fst (addTimer now ms (Some cb) recurring a s) = fst (p_addTimer now ms cb recurring a p) /\
  represents (snd (addTimer now ms (Some cb) recurring a s)) (snd (p_addTimer now ms cb recurring a p)).
Proof.
  intros [E1 E2 E3 E4] Hf. unfold addTimer, p_addTimer. eapply notify_represents; cbn; try done; [by rewrite E1 | | |].
  - rewrite E2. apply ascending_insert_out; [| apply timers_ascending]. rewrite timers_elem. unfold deref. rewrite Hf. intros Hw. by apply Hw.
  - intros b. rewrite E2, timers_elem, deref_insert. case_decide as Hb; [| tauto]. subst b. unfold deref. rewrite Hf. split; [intros Hw; by destruct Hw | tauto].
  - rewrite deref_insert, decide_True by done. done.
Qed.

(** A waiting timer is taken out, changed and left out or put back. *)
Lemma change_waiting st a t : waiting (deref st a) -> let l := delete (default 0%nat (set_find (timer_lt st) a (by_deadline (pending st)))) (by_deadline (pending st)) in
  ascending (timer_lt (<[a := t]> st)) l /\ forall b, b ∈ l <-> b <> a /\ waiting (deref (<[a := t]> st) b).
Proof.
  intros Hw. destruct (erase_waiting st st a Hw) as (i & -> & Ha & He); [done |]. change (default 0%nat (Some i)) with i. cbv zeta in *. split.
  - apply ascending_insert_out; [| done]. rewrite He. tauto.
  - intros b. rewrite He, deref_insert. case_decide; tauto.
Qed.

Lemma cancel_represents a s p : represents s p ->
  fst (cancel a s) = fst (p_cancel a p) /\ represents (snd (cancel a s)) (snd (p_cancel a p)).
Proof.
  intros [E1 E2 E3 E4]. unfold cancel, p_cancel, p_change. rewrite E1. destruct (t_callback (deref (tm_store s) a)) as [cb |] eqn:Ec.
  - assert (waiting (deref (tm_store s) a)) as Hw by (unfold waiting; by rewrite Ec). rewrite decide_True by done. cbn [fst snd]. split; [done |].
    set (st' := <[a := with_callback None (deref (tm_store s) a)]> (tm_store s)).
    assert (forall b, t_next (deref st' b) = t_next (deref (tm_store s) b)) as Hn by (intros b; unfold st'; rewrite deref_insert; case_decide; by subst).
    destruct (erase_waiting (tm_store s) st' a Hw Hn) as (i & Ef & Ha & He). cbn in Ha, He. constructor; cbn; try done. rewrite E2. fold st'. rewrite Ef. apply timers_unique.
    + apply ascending_insert_out; [| done]. rewrite He. tauto.
    + intros b. rewrite He. unfold st'. rewrite deref_insert. case_decide as Hb; [| tauto]. split; [tauto |]. intros Hc. by destruct Hc.
  - rewrite decide_False by (unfold waiting; rewrite Ec; tauto). done.
Qed.

Lemma waiting_callback (t : Timer) cb : t_callback t = Some cb -> waiting t.
Proof. unfold waiting. by intros ->. Qed.

Lemma refresh_represents now a s p : represents s p ->
  fst (refresh now a s) = fst (p_refresh now a p) /\ represents (snd (refresh now a s)) (snd (p_refresh now a p)).
Proof.
  intros [E1 E2 E3 E4]. unfold refresh, p_refresh, p_change. rewrite E1. destruct (t_callback (deref (tm_store s) a)) as [cb |] eqn:Ec.
  - pose proof (waiting_callback _ _ Ec) as Hw. rewrite decide_True by done.
    set (t' := with_next (u64 (now + t_ms (deref (tm_store s) a))) (deref (tm_store s) a)).
    destruct (change_waiting (tm_store s) a t' Hw) as [Ha He]. destruct (erase_waiting (tm_store s) (tm_store s) a Hw) as (i & Ef & _); [done |].
    rewrite Ef in Ha, He. change (default 0%nat (Some i)) with i in Ha, He. rewrite E2, Ef. cbn [fst snd]. split; [done |].
    destruct (insert_waiting _ a _ Ha He) as (j & Ej & _); [by rewrite deref_insert, decide_True |]. constructor; cbn; try done. by rewrite Ej.
  - rewrite decide_False by (unfold waiting; rewrite Ec; tauto). done.
Qed.

Lemma reset_represents now ms fromNow a s p : represents s p ->
  fst (reset now ms fromNow a s) = fst (p_reset now ms fromNow a p) /\ represents (snd (reset now ms fromNow a s)) (snd (p_reset now ms fromNow a p)).
Proof.
  intros H. pose proof H as [E1 E2 E3 E4]. unfold reset, p_reset, p_change. rewrite E1. destruct ((ms =? _) && negb fromNow); [done |].
  destruct (t_callback (deref (tm_store s) a)) as [cb |] eqn:Ec.
  - pose proof (waiting_callback _ _ Ec) as Hw. rewrite decide_True by done.
    set (t' := with_next _ _). destruct (change_waiting (tm_store s) a t' Hw) as [Ha He]. destruct (erase_waiting (tm_store s) (tm_store s) a Hw) as (i & Ef & _); [done |].
    rewrite Ef in Ha, He. change (default 0%nat (Some i)) with i in Ha, He. rewrite E2, Ef.
    pose proof (notify_represents (<[a := t']> (tm_store s)) (set_store (<[a := t']> (tm_store s)) (set_timers (delete i (by_deadline (pending (tm_store s)))) s))
      (p_put (<[a := t']> (tm_store s)) p) a eq_refl eq_refl E3 E4 Ha He) as [N1 N2]; [by rewrite deref_insert, decide_True |].
    cbn [tm_store set_timers] in *. destruct (addTimer_locked a _) as [f1 s1], (p_notify a _) as [f2 p2]. cbn [fst snd] in *. by subst f2.
  - rewrite decide_False by (unfold waiting; rewrite Ec; tauto). done.
Qed.

Lemma getNextTimer_represents now s p : represents s p ->
  fst (getNextTimer now s) = fst (p_getNextTimer now p) /\ represents (snd (getNextTimer now s)) (snd (p_getNextTimer now p)).
Proof.
  intros [E1 E2 E3 E4]. unfold getNextTimer, p_getNextTimer, p_first. cbn [tm_timers set_tickled tm_store]. rewrite E1, E2.
  destruct (by_deadline (pending (tm_store s))) as [|a l] eqn:E; cbn; (split; [done |]); constructor; cbn; try done; by rewrite E2.
Qed.

(** *** Expired timers *)

Lemma lower_bound_any (lt : positive -> positive -> bool) a l : exists l1 l2, l = l1 ++ l2 /\ set_lower_bound lt a l = length l1 /\
  Forall (fun b => lt b a = true) l1 /\ match l2 with [] => True | b :: _ => lt b a = false end.
Proof.
  induction l as [|b l IH]; [by exists [], [] |]. cbn. destruct (lt b a) eqn:E; [| by exists [], (b :: l)].
  destruct IH as (l1 & l2 & -> & -> & H1 & H2). exists (b :: l1), l2. split; [done |]. split; [done |]. split; [by constructor | done].
Qed.

Lemma skip_equal_split st now l : ascending (timer_lt st) l -> Forall (fun a => now <= t_next (deref st a)) l -> exists l1 l2, l = l1 ++ l2 /\
  skip_equal st now l = length l1 /\ Forall (fun a => t_next (deref st a) = now) l1 /\ Forall (fun a => now < t_next (deref st a)) l2.
Proof.
  induction 1 as [|a l _ IH Ha]; intros H; [exists [], []; auto |]. apply Forall_cons in H as [H1 H2]. cbn. destruct (Z.eqb_spec (t_next (deref st a)) now) as [E | E].
  - destruct (IH H2) as (l1 & l2 & -> & -> & F1 & F2). exists (a :: l1), l2. split; [done |]. split; [done |]. split; [by constructor | done].
  - exists [], (a :: l). split; [done |]. split; [done |]. split; [constructor |]. constructor; [lia |]. eapply Forall_impl; [exact Ha |]. cbn. intros b Hb%timer_lt_next. lia.
Qed.

(** The timers up to [now] are those before the place the loop has reached,
    whatever the address of the sentinel. *)
Lemma expired_split st now sentinel l : ascending (timer_lt st) l -> (sentinel ∉ l) ->
  let i := set_lower_bound (timer_lt (<[sentinel := Timer_at now]> st)) sentinel l in
  exists l1 l2, l = l1 ++ l2 /\ (i + skip_equal st now (drop i l))%nat = length l1 /\
    Forall (fun a => t_next (deref st a) <= now) l1 /\ Forall (fun a => now < t_next (deref st a)) l2.
Proof.
  intros Ha Hs. cbv zeta. destruct (lower_bound_any (timer_lt (<[sentinel := Timer_at now]> st)) sentinel l) as (l1 & l2 & -> & -> & H1 & H2).
  assert (deref (<[sentinel := Timer_at now]> st) sentinel = Timer_at now) as Es by (by rewrite deref_insert, decide_True).
  assert (forall b, b ∈ (l1 ++ l2) -> deref (<[sentinel := Timer_at now]> st) b = deref st b) as Eb.
  { intros b Hb. rewrite deref_insert, decide_False; [done |]. by intros ->. }
  destruct (ascending_app_inv (timer_lt st) _ _ Ha) as (_ & A2 & _). rewrite drop_app_length.
  destruct (skip_equal_split st now l2 A2) as (m1 & m2 & -> & -> & M1 & M2).
  - destruct l2 as [|b l2]; [constructor |]. apply timer_lt_not_next in H2. rewrite Es, Eb in H2 by (apply elem_of_app; right; constructor). cbn in H2.
    apply StronglySorted_inv in A2 as [_ A2]. constructor; [done |]. eapply Forall_impl; [exact A2 |]. cbn. intros c Hc%timer_lt_next. lia.
  - exists (l1 ++ m1), m2. split; [by rewrite app_assoc |]. split; [by rewrite length_app |]. split; [| done]. apply Forall_app. split.
    + rewrite Forall_forall in H1 |- *. intros b Hb. specialize (H1 b Hb). cbn in H1. apply timer_lt_next in H1. rewrite Es, Eb in H1; [done |]. apply elem_of_app. by left.
    + eapply Forall_impl; [exact M1 |]. cbn. lia.
Qed.

Lemma fire_spec now expired : forall s, NoDup expired -> Forall (fun a => is_Some (tm_store s !! a) /\ waiting (deref (tm_store s) a)) expired ->
  ascending (timer_lt (tm_store s)) (tm_timers s) -> (forall a, a ∈ expired -> a ∉ tm_timers s) ->
  let '(callbacks, s') := fire now expired s in
  callbacks = (fun a => t_callback (deref (tm_store s) a)) <$> expired /\
  (forall a, tm_store s' !! a = if decide (a ∈ expired) then after now <$> tm_store s !! a else tm_store s !! a) /\
  ascending (timer_lt (tm_store s')) (tm_timers s') /\
  (forall a, a ∈ tm_timers s' <-> a ∈ tm_timers s \/ (a ∈ expired /\ t_recurring (deref (tm_store s) a) = true)) /\
  tm_tickled s' = tm_tickled s /\ tm_previousTime s' = tm_previousTime s.
Proof.
  induction expired as [|a expired IH]; intros s Hn Hf Ha Hd.
  - cbn. split; [done |]. split; [intros a; rewrite decide_False by apply not_elem_of_nil; done |]. split; [done |].
    split; [intros a; rewrite elem_of_nil; tauto | done].
  - apply NoDup_cons in Hn as [Hna Hn]. apply Forall_cons in Hf as [[[t Ht] Hw] Hf]. cbn [fire]. rewrite (deref_lookup _ _ _ Ht) in *.
    assert (a ∉ tm_timers s) as Hda by (apply Hd; constructor).
    set (s1 := if t_recurring t then _ else _).
    assert (tm_store s1 = <[a := after now t]> (tm_store s)) as E1 by (unfold s1, after; by destruct (t_recurring t)).
    assert (ascending (timer_lt (tm_store s1)) (tm_timers s1) /\ (forall b, b ∈ tm_timers s1 <-> b ∈ tm_timers s \/ (b = a /\ t_recurring t = true)) /\
      tm_tickled s1 = tm_tickled s /\ tm_previousTime s1 = tm_previousTime s) as (A1 & M1 & F1 & F2).
    { rewrite E1. unfold s1, after. destruct (t_recurring t) eqn:Er; cbn.
      - pose proof (ascending_insert_out (tm_store s) a (with_next (u64 (now + t_ms t)) t) _ Hda Ha) as Ha'.
        destruct (set_find_out _ a (tm_timers s) Ha' Hda) as (_ & l1 & l2 & El & _ & _ & -> & A). cbn. split; [done |]. split; [| done].
        intros b. rewrite El, !elem_of_app, elem_of_cons. intuition.
      - split; [by apply ascending_insert_out |]. split; [| done]. intros b. split; [auto | intros [? | [_ ?]]; done]. }
    assert (forall b, b ∈ expired -> tm_store s1 !! b = tm_store s !! b) as Eb.
    { intros b Hb. rewrite E1, lookup_insert_ne; [done |]. by intros ->. }
    specialize (IH s1 Hn). destruct (fire now expired s1) as [callbacks s'].
    destruct IH as (C & S & A & M & G1 & G2).
    + rewrite Forall_forall in Hf |- *. intros b Hb. unfold deref. rewrite Eb by done. by apply Hf.
    + done.
    + intros b Hb. rewrite M1. intros [Hin | [-> _]]; [| done]. apply (Hd b); [by constructor | done].
    + split; [| split; [| split; [done | split; [| split; congruence]]]].
      * cbn. rewrite (deref_lookup _ _ _ Ht). f_equal. rewrite C. apply list_fmap_ext. intros i b Hb. unfold deref. rewrite Eb; [done |]. by eapply list_elem_of_lookup_2.
      * intros b. rewrite S. destruct (decide (b ∈ expired)) as [Hb | Hb].
        -- rewrite decide_True by (by constructor). by rewrite Eb.
        -- rewrite E1. destruct (decide (b = a)) as [-> | Hba]; [rewrite lookup_insert_eq, decide_True by constructor; by rewrite Ht |].
           rewrite lookup_insert_ne by done. rewrite decide_False; [done |]. rewrite elem_of_cons. tauto.
      * intros b. rewrite M, M1, elem_of_cons. destruct (decide (b = a)) as [-> | Hba].
        -- rewrite (deref_lookup _ _ _ Ht). tauto.
        -- destruct (decide (b ∈ expired)) as [Hb | Hb]; [| tauto]. unfold deref. rewrite Eb by done. tauto.
Qed.

Lemma due_elem rollover now st a : a ∈ by_deadline (filter (fun '(_, t) => due rollover now t) st) <-> due rollover now (deref st a).
Proof.
  rewrite by_deadline_elem. split.
  - intros [t [Ht Hw]%map_lookup_filter_Some]. by rewrite (deref_lookup _ _ _ Ht).
  - unfold deref. destruct (st !! a) as [t |] eqn:E; [| by intros [? _]]. intros Hw. exists t. by apply map_lookup_filter_Some.
Qed.

Lemma due_ascending rollover now st : ascending (timer_lt st) (by_deadline (filter (fun '(_, t) => due rollover now t) st)).
Proof.
  eapply ascending_ext; [| apply by_deadline_ascending]. intros a [t Ht]%by_deadline_elem. rewrite Ht. symmetry. by apply map_lookup_filter_Some in Ht as [-> _].
Qed.

(** The timers are split into those that are due and the rest. *)
Lemma fire_represents rollover now s p l1 l2 : p_store p = tm_store s -> p_tickled p = tm_tickled s -> tm_previousTime s = now ->
  by_deadline (pending (tm_store s)) = l1 ++ l2 ->
  (forall a, a ∈ l1 -> due rollover now (deref (tm_store s) a)) -> (forall a, a ∈ l2 -> ~ due rollover now (deref (tm_store s) a)) ->
  let r := fire now l1 (set_timers l2 s) in
  fst r = (fun a => t_callback (deref (p_store p) a)) <$> by_deadline (filter (fun '(_, t) => due rollover now t) (p_store p)) /\
  represents (snd r) (mk_Pending ((fun t => if decide (due rollover now t) then after now t else t) <$> p_store p) (p_tickled p) now).
Proof.
  intros E1 E3 E4 El H1 H2. pose proof (timers_ascending (tm_store s)) as Ha. rewrite El in Ha. pose proof (ascending_NoDup _ _ Ha) as Hn. apply NoDup_app in Hn as (N1 & N12 & N2).
  destruct (ascending_app_inv _ _ _ Ha) as (A1 & A2 & A12).
  assert (forall a, waiting (deref (tm_store s) a) <-> a ∈ l1 \/ a ∈ l2) as Hw by (intros a; by rewrite <- timers_elem, El, elem_of_app).
  assert (l1 = by_deadline (filter (fun '(_, t) => due rollover now t) (tm_store s))) as El1.
  { apply (ascending_unique (timer_lt (tm_store s))); [done | apply due_ascending |]. intros a. rewrite due_elem. split; [apply H1 |].
    intros Hd. destruct (proj1 (Hw a) (proj1 Hd)) as [? | Hin]; [done |]. by destruct (H2 a Hin). }
  assert (forall a, is_Some (tm_store s !! a) \/ ~ waiting (deref (tm_store s) a)) as Hin.
  { intros a. unfold deref. destruct (tm_store s !! a) as [t |]; [left; by exists t | right; intros Hc; by apply Hc]. }
  cbv zeta. pose proof (fire_spec now l1 (set_timers l2 s) N1) as Hfire. destruct (fire now l1 (set_timers l2 s)) as [cbs s'].
  destruct Hfire as (C & S & A & M & G1 & G2); cbn [tm_store tm_timers set_timers tm_tickled tm_previousTime] in *; [| done | done |].
  { apply Forall_forall. intros a Ha1. assert (waiting (deref (tm_store s) a)) by (apply Hw; by left). split; [destruct (Hin a); done | done]. }
  assert (forall a, tm_store s' !! a = (fun t => if decide (due rollover now t) then after now t else t) <$> tm_store s !! a) as Hst.
  { intros a. rewrite S. destruct (tm_store s !! a) as [t |] eqn:Et; [| by case_decide]. cbn. pose proof (due_elem rollover now (tm_store s) a) as Hd. rewrite <- El1, (deref_lookup _ _ _ Et) in Hd.
    destruct (decide (a ∈ l1)) as [Ha1 | Ha1]; cbn; [by rewrite decide_True by (by apply Hd) | rewrite decide_False; [done |]; tauto]. }
  cbn [fst snd]. rewrite E1. split; [by rewrite <- El1 |]. constructor; cbn; [| | congruence | congruence].
  - apply map_eq. intros a. by rewrite lookup_fmap, Hst.
  - apply timers_unique; [done |]. intros a. rewrite M. unfold deref. rewrite Hst. specialize (Hw a). pose proof (due_elem rollover now (tm_store s) a) as Hd. rewrite <- El1 in Hd.
    unfold deref in Hw, Hd |- *. destruct (tm_store s !! a) as [t |] eqn:Et; cbn [fmap option_fmap option_map from_option] in *;
      [| assert (~ waiting (@Timer_at F W 0)) by (intros Hc; by apply Hc); tauto].
    assert (a ∈ l1 -> a ∉ l2) as N by apply N12. destruct (decide (due rollover now t)) as [D | D]; cbn.
    + assert (a ∈ l1) by tauto. assert (a ∉ l2) by auto. unfold after. destruct (t_recurring t); cbn; [unfold waiting in *; cbn; tauto |].
      split; [intros [? | [_ ?]]; done |]. intros Hc. by destruct Hc.
    + assert (a ∉ l1) by tauto. tauto.
Qed.

Lemma listExpiredCb_represents now sentinel s p : represents s p -> tm_store s !! sentinel = None ->
  fst (listExpiredCb now sentinel s) = fst (p_listExpired now p) /\ represents (snd (listExpiredCb now sentinel s)) (snd (p_listExpired now p)).
Proof.
  intros H Hs. pose proof H as [E1 E2 E3 E4]. unfold listExpiredCb, p_listExpired. rewrite E1, E2.
  assert (sentinel ∉ by_deadline (pending (tm_store s))) as Hn by (rewrite timers_elem; unfold deref; rewrite Hs; intros Hc; by apply Hc).
  destruct (by_deadline (pending (tm_store s))) as [|first rest] eqn:El.
  { rewrite decide_True; [done |]. apply map_eq. intros a. rewrite lookup_empty. destruct (pending (tm_store s) !! a) eqn:Ea; [| done].
    exfalso. apply (not_elem_of_nil a). rewrite <- El. apply by_deadline_elem. by eexists. }
  rewrite decide_False.
  2: { intros E. assert (first ∈ by_deadline (pending (tm_store s))) as Hf by (rewrite El; constructor). rewrite E in Hf. apply by_deadline_elem in Hf as [t Ht]. by rewrite lookup_empty in Ht. }
  unfold detectClockRollover, p_rollover. rewrite E4. change (60 * 60 * 1000) with 3600000. set (rollover := (now <? _) && _).
  cbn [tm_store tm_timers set_previousTime]. rewrite E2.
  pose proof (timers_ascending (tm_store s)) as Ha. rewrite El in Ha.
  assert (forall a, a ∈ first :: rest -> waiting (deref (tm_store s) a)) as Hw by (intros a; by rewrite <- El, timers_elem).
  destruct (negb rollover && (now <? t_next (deref (tm_store s) first))) eqn:Eearly.
  - apply andb_true_iff in Eearly as [Er Et]. apply Z.ltb_lt in Et. destruct rollover; [done |].
    replace (set_previousTime now s) with (set_timers (first :: rest) (set_previousTime now s)) by (by rewrite <- E2).
    pose proof (fire_represents false now (set_previousTime now s) p [] (first :: rest) E1 E3 eq_refl El) as HF. cbn [fire fst snd] in HF |- *. rewrite E1 in HF. apply HF.
    + intros a Hin%elem_of_nil. done.
    + intros a Hin [_ [? | Hle]]; [done |]. cbn [tm_store set_previousTime] in Hle. apply elem_of_cons in Hin as [-> | Hin]; [lia |]. apply StronglySorted_inv in Ha as [_ Ha]. rewrite Forall_forall in Ha.
      specialize (Ha a Hin). apply timer_lt_next in Ha. lia.
  - destruct rollover.
    + rewrite drop_all. cbn [skip_equal]. rewrite Nat.add_0_r, drop_all, firstn_all.
      pose proof (fire_represents true now (set_previousTime now s) p (first :: rest) [] E1 E3 eq_refl) as HF. rewrite E1 in HF. apply HF; [by rewrite app_nil_r | |].
      * intros a Hin. split; [by apply Hw | by left].
      * intros a Hin%elem_of_nil. done.
    + destruct (expired_split (tm_store s) now sentinel (first :: rest) Ha Hn) as (l1 & l2 & El2 & -> & F1 & F2). rewrite El2 in *. rewrite take_app_length, drop_app_length.
      rewrite Forall_forall in F1, F2. pose proof (fire_represents false now (set_previousTime now s) p l1 l2 E1 E3 eq_refl El) as HF. rewrite E1 in HF. apply HF.
      * intros a Hin. split; [apply Hw, elem_of_app; by left | right; by apply F1].
      * intros a Hin [_ [? | Hle]]; [done |]. cbn [tm_store set_previousTime] in Hle. specialize (F2 a Hin). cbn in F2. lia.
Qed.

Lemma hasTimer_represents s p : represents s p -> hasTimer s = bool_decide (pending (p_store p) <> ∅).
Proof.
  intros [E1 E2 _ _]. unfold hasTimer. rewrite E1, E2. destruct (by_deadline (pending (tm_store s))) as [|a l] eqn:El.
  - rewrite bool_decide_false; [done |]. intros Hne. apply Hne. apply map_eq. intros a. rewrite lookup_empty. destruct (pending (tm_store s) !! a) eqn:Ea; [| done].
    exfalso. apply (not_elem_of_nil a). rewrite <- El. apply by_deadline_elem. by eexists.
  - rewrite bool_decide_true; [done |]. intros E. assert (a ∈ by_deadline (pending (tm_store s))) as Hf by (rewrite El; constructor).
    rewrite E in Hf. apply by_deadline_elem in Hf as [t Ht]. by rewrite lookup_empty in Ht.
Qed.

End TimerFacts.
