(* ===== verification/TimerClaims.v ===== *)
(** * Timers: sequences of calls

    Calls on a [TimerManager], in any order and at any time, and what they
    amount to: the refinement of the abstract manager, the firing of timers
    and the wake-up of the event loop. *)

From stdpp Require Import base list list_numbers numbers option sorting gmap fin_maps.
From Stdlib Require Import ZArith Lia.
From S2P Require Import Prelude.
From S2P Require Import Timer.
From S2P Require Import TimerFacts.

Local Open Scope Z_scope.

Section Calls.

Context {F W : Type}.
Abbreviation Timer := (@Timer.Timer F W).
Abbreviation TimerManager := (@Timer.TimerManager F W).
Abbreviation callback := (@Timer.callback F W).
Abbreviation Pending := (@TimerFacts.Pending F W).
Implicit Types s : TimerManager.
Implicit Types p : Pending.

Inductive call :=
| AddTimer (now ms : Z) (f : F) (recurring : bool) (a : positive)
| AddConditionTimer (now ms : Z) (f : F) (weakCondition : W) (recurring : bool) (a : positive)
| Cancel (a : positive)
| Refresh (now : Z) (a : positive)
| Reset (now ms : Z) (fromNow : bool) (a : positive)
| GetNextTimer (now : Z)
| ListExpiredCb (now : Z) (sentinel : positive)
| HasTimer.

(** What a call returns; [front]: [onTimerInsertedAtFront] has been called. *)
Inductive answer :=
| Added (front : bool)
| Result (r : bool)
| Replaced (r front : bool)
| Wait (ms : Z)
| Callbacks (l : list (option callback)).

Definition answering {A B} (f : A -> answer) (r : A * B) : answer * B := (f (fst r), snd r).

Definition exec (c : call) (s : TimerManager) : answer * TimerManager :=
  match c with
  | AddTimer now ms f recurring a => answering Added (addTimer now ms (Some (Function f)) recurring a s)
  | AddConditionTimer now ms f w recurring a => answering Added (addConditionTimer now ms f w recurring a s)
  | Cancel a => answering Result (cancel a s)
  | Refresh now a => answering Result (refresh now a s)
  | Reset now ms fromNow a => answering (fun '(r, front) => Replaced r front) (reset now ms fromNow a s)
  | GetNextTimer now => answering Wait (getNextTimer now s)
  | ListExpiredCb now sentinel => answering Callbacks (listExpiredCb now sentinel s)
  | HasTimer => (Result (hasTimer s), s)
  end.

Definition p_exec (c : call) (p : Pending) : answer * Pending :=
  match c with
  | AddTimer now ms f recurring a => answering Added (p_addTimer now ms (Function f) recurring a p)
  | AddConditionTimer now ms f w recurring a => answering Added (p_addTimer now ms (OnTimer w f) recurring a p)
  | Cancel a => answering Result (p_cancel a p)
  | Refresh now a => answering Result (p_refresh now a p)
  | Reset now ms fromNow a => answering (fun '(r, front) => Replaced r front) (p_reset now ms fromNow a p)
  | GetNextTimer now => answering Wait (p_getNextTimer now p)
  | ListExpiredCb now _ => answering Callbacks (p_listExpired now p)
  | HasTimer => (Result (bool_decide (pending (p_store p) <> ∅)), p)
  end.

Fixpoint run {S} (step : call -> S -> answer * S) (cs : list call) (s : S) : list answer * S :=
  match cs with
  | [] => ([], s)
  | c :: cs =>
    let '(r, s) := step c s in
    let '(rs, s) := run step cs s in
    (r :: rs, s)
  end.

(** The address [new] returns is not that of an object in use. *)
Definition allocates (c : call) : option positive :=
  match c with
  | AddTimer _ _ _ _ a | AddConditionTimer _ _ _ _ _ a => Some a
  | ListExpiredCb _ sentinel => Some sentinel
  | _ => None
  end.

Definition fresh_for (c : call) (st : gmap positive Timer) : Prop :=
  match allocates c with Some a => st !! a = None | None => True end.

Fixpoint allocated (cs : list call) (s : TimerManager) : Prop :=
  match cs with
  | [] => True
  | c :: cs => fresh_for c (tm_store s) /\ allocated cs (snd (exec c s))
  end.

Lemma exec_represents c s p : represents s p -> fresh_for c (tm_store s) ->
  fst (exec c s) = fst (p_exec c p) /\ represents (snd (exec c s)) (snd (p_exec c p)).
Proof.
  intros H Hf. destruct c; cbn in *.
  - destruct (addTimer_represents now ms (Function f) recurring a s p H Hf) as [-> ?]. done.
  - destruct (addTimer_represents now ms (OnTimer weakCondition f) recurring a s p H Hf) as [E ?]. unfold addConditionTimer. rewrite E. done.
  - destruct (cancel_represents a s p H) as [-> ?]. done.
  - destruct (refresh_represents now a s p H) as [-> ?]. done.
  - destruct (reset_represents now ms fromNow a s p H) as [-> ?]. done.
  - destruct (getNextTimer_represents now s p H) as [-> ?]. done.
  - destruct (listExpiredCb_represents now sentinel s p H Hf) as [-> ?]. done.
  - rewrite (hasTimer_represents s p H). done.
Qed.

Lemma run_represents cs : forall s p, represents s p -> allocated cs s ->
  fst (run exec cs s) = fst (run p_exec cs p) /\ represents (snd (run exec cs s)) (snd (run p_exec cs p)).
Proof.
  induction cs as [|c cs IH]; intros s p H Ha; [done |]. destruct Ha as [Hf Ha]. cbn [run]. destruct (exec_represents c s p H Hf) as [E R].
  destruct (exec c s) as [r1 s1], (p_exec c p) as [r2 p2]. cbn [fst snd] in *. subst r2. destruct (IH s1 p2 R Ha) as [E' R'].
  destruct (run exec cs s1) as [rs1 s1'], (run p_exec cs p2) as [rs2 p2']. cbn [fst snd] in *. by subst rs2.
Qed.

Definition new_Pending (now : Z) : Pending := mk_Pending ∅ false now.

Lemma new_represents now : represents (new_TimerManager now) (new_Pending now).
Proof. done. Qed.

(** C14: a [TimerManager] answers every sequence of calls (adding plain and
    condition timers, cancel, refresh, reset, asking for the next deadline,
    collecting the expired callbacks), at any clock readings and whatever
    addresses the objects get, as the map of pending timers does: the set
    ordered by deadline and address always holds exactly the timers with a
    callback, [find] and [lower_bound] find them although the sentinel of
    [listExpiredCb] takes an arbitrary place among equal deadlines, callbacks
    come in the order of their deadlines, and [onTimerInsertedAtFront] is
    called exactly when the new timer is the first and nobody has been
    notified since the last [getNextTimer]. *)
Theorem TimerManager_refines_pending now cs : allocated cs (new_TimerManager now) ->
  fst (run exec cs (new_TimerManager now)) = fst (run p_exec cs (new_Pending now)) /\
  represents (snd (run exec cs (new_TimerManager now))) (snd (run p_exec cs (new_Pending now))).
Proof. intros H. by apply run_represents; [apply new_represents |]. Qed.

(** ** A timer's life *)

Definition manager_ok s : Prop := tm_timers s = by_deadline (pending (tm_store s)).

Definition abstraction s : Pending := mk_Pending (tm_store s) (tm_tickled s) (tm_previousTime s).

Lemma ok_represents s : manager_ok s -> represents s (abstraction s).
Proof. intros H. by constructor. Qed.

(** The call cancels, refreshes or resets timer [a]. *)
Definition touches (a : positive) (c : call) : Prop :=
  match c with
  | Cancel b | Refresh _ b | Reset _ _ _ b => b = a
  | _ => False
  end.

(** The clock reading of a call. *)
Definition call_time (c : call) : option Z :=
  match c with
  | AddTimer now _ _ _ _ | AddConditionTimer now _ _ _ _ _ | Refresh now _ | Reset now _ _ _ | GetNextTimer now | ListExpiredCb now _ => Some now
  | _ => None
  end.

(** The clock does not run backwards. *)
Fixpoint forward (t : Z) (cs : list call) : Prop :=
  match cs with
  | [] => True
  | c :: cs => t <= default t (call_time c) /\ forward (default t (call_time c)) cs
  end.

Definition before_deadline (d : Z) (c : call) : Prop := match c with ListExpiredCb now _ => now < d | _ => True end.

Lemma p_change_other a b f p : b <> a -> p_store (snd (p_change b f p)) !! a = p_store p !! a.
Proof. intros Hne. unfold p_change. case_decide; cbn; [by rewrite lookup_insert_ne | done]. Qed.

Lemma p_previous_forward c p t : p_previousTime p <= t -> t <= default t (call_time c) -> p_previousTime (snd (p_exec c p)) <= default t (call_time c).
Proof.
  intros H1 H2. assert (forall a f, p_previousTime (snd (p_change a f p)) = p_previousTime p) as Hc by (intros a f; unfold p_change; by case_decide).
  destruct c; cbn in *; unfold p_cancel, p_refresh; try lia; try (rewrite Hc; lia).
  - unfold p_reset. destruct ((ms =? _) && _); cbn; [lia |]. specialize (Hc a (fun t0 => with_next (u64 ((if fromNow then now else u64 (t_next t0 - t_ms t0)) + ms)) (with_ms ms t0))).
    destruct (p_change _ _ p) as [[|] p']; cbn in *; lia.
  - unfold p_listExpired. case_decide; cbn; lia.
Qed.

Lemma no_rollover now p : p_previousTime p <= now -> p_rollover now p = false.
Proof. intros H. unfold p_rollover. destruct (Z.ltb_spec now (p_previousTime p)); [lia | done]. Qed.

(** A call that does not touch a waiting timer and comes before its deadline
    leaves it as it is. *)
Lemma p_exec_keeps c p a t : p_store p !! a = Some t -> ~ touches a c -> fresh_for c (p_store p) -> before_deadline (t_next t) c ->
  p_previousTime p <= default (p_previousTime p) (call_time c) -> p_store (snd (p_exec c p)) !! a = Some t.
Proof.
  intros Ha Ht Hf Hb Hp. assert (forall b, fresh_for c (p_store p) -> allocates c = Some b -> b <> a) as Hne.
  { intros b. unfold fresh_for. intros Hn E ->. rewrite E in Hn. congruence. }
  destruct c; cbn in *.
  - rewrite lookup_insert_ne; [done |]. by apply Hne.
  - rewrite lookup_insert_ne; [done |]. by apply Hne.
  - unfold p_cancel. by rewrite p_change_other.
  - unfold p_refresh. by rewrite p_change_other.
  - unfold p_reset. destruct ((ms =? _) && _); [done |]. pose proof (p_change_other a a0 (fun t0 => with_next (u64 ((if fromNow then now else u64 (t_next t0 - t_ms t0)) + ms)) (with_ms ms t0)) p Ht) as Hc.
    destruct (p_change _ _ p) as [[|] p']; cbn in *; congruence.
  - done.
  - unfold p_listExpired. case_decide; cbn; [done |]. rewrite no_rollover by done. rewrite lookup_fmap, Ha. cbn. rewrite decide_False; [done |].
    intros [_ [? | ?]]; [done | lia].
  - done.
Qed.

(** A timer without a callback never gets one. *)
Lemma p_exec_done c p a : is_Some (p_store p !! a) -> t_callback (deref (p_store p) a) = None -> fresh_for c (p_store p) ->
  is_Some (p_store (snd (p_exec c p)) !! a) /\ t_callback (deref (p_store (snd (p_exec c p))) a) = None.
Proof.
  intros [t Ht] Hn Hf. rewrite (deref_lookup _ _ _ Ht) in Hn.
  assert (forall b f, p_store (snd (p_change b f p)) !! a = Some t) as Hc.
  { intros b f. unfold p_change. case_decide as D; cbn; [| done]. destruct (decide (b = a)) as [-> | Hb]; [| by rewrite lookup_insert_ne].
    rewrite (deref_lookup _ _ _ Ht) in D. by destruct D. }
  assert (forall b u, fresh_for c (p_store p) -> allocates c = Some b -> <[b := u]> (p_store p) !! a = Some t) as Hi.
  { intros b u. unfold fresh_for. intros Hb E. rewrite E in Hb. rewrite lookup_insert_ne; [done |]. intros ->. congruence. }
  assert (forall st : gmap positive Timer, st !! a = Some t -> is_Some (st !! a) /\ t_callback (deref st a) = None) as Hend.
  { intros st E. rewrite E, (deref_lookup _ _ _ E). by split; [eexists |]. }
  destruct c; cbn in *; unfold p_cancel, p_refresh; try (by apply Hend); try (apply Hend; by apply Hi); try (apply Hend, Hc).
  - apply Hend. unfold p_reset. destruct ((ms =? _) && _); [done |]. specialize (Hc a0 (fun t0 => with_next (u64 ((if fromNow then now else u64 (t_next t0 - t_ms t0)) + ms)) (with_ms ms t0))).
    destruct (p_change _ _ p) as [[|] p']; cbn in *; congruence.
  - apply Hend. unfold p_listExpired. case_decide; cbn; [done |]. rewrite lookup_fmap, Ht. cbn. rewrite decide_False; [done |]. intros [Hw _]. by apply Hw.
Qed.

(** *** Whose callback is collected *)

(** Among the timers other than [a], none has the callback [cb]. *)
Definition no_other (a : positive) (cb : callback) (st : gmap positive Timer) : Prop :=
  map_Forall (fun b t => b <> a -> t_callback t <> Some cb) st.

(** The call adds a timer with the callback [cb]. *)
Definition adds (cb : callback) (c : call) : Prop :=
  match c with
  | AddTimer _ _ f _ _ => Function f = cb
  | AddConditionTimer _ _ f w _ _ => OnTimer w f = cb
  | _ => False
  end.

(** The answer hands out the callback [cb]. *)
Definition collects (cb : callback) (r : answer) : Prop := match r with Callbacks l => (Some cb ∈ l) | _ => False end.

(** The callback [cb] occurs in [l] exactly once. *)
Definition once (cb : callback) (l : list (option callback)) : Prop := exists l1 l2, l = l1 ++ (Some cb :: l2) /\ (Some cb ∉ l1) /\ (Some cb ∉ l2).

Lemma no_other_deref a cb st b : no_other a cb st -> b <> a -> t_callback (deref st b) <> Some cb.
Proof. intros H Hb. unfold deref. destruct (st !! b) as [t |] eqn:E; [by apply (H b t) | done]. Qed.

Lemma p_change_no_other a cb b f p : (forall t, t_callback (f t) = t_callback t \/ t_callback (f t) = None) -> no_other a cb (p_store p) ->
  no_other a cb (p_store (snd (p_change b f p))).
Proof.
  intros Hf H. unfold p_change. case_decide; cbn; [| done]. apply map_Forall_insert_2; [| done]. intros Hb.
  destruct (Hf (deref (p_store p) b)) as [-> | ->]; [by apply no_other_deref with a | done].
Qed.

Lemma p_exec_no_other c p a cb : ~ adds cb c -> no_other a cb (p_store p) -> no_other a cb (p_store (snd (p_exec c p))).
Proof.
  intros Hc H. destruct c; cbn in *; try done.
  - apply map_Forall_insert_2; [| done]. cbn. congruence.
  - apply map_Forall_insert_2; [| done]. cbn. congruence.
  - apply p_change_no_other; [| done]. intros t. by right.
  - apply p_change_no_other; [| done]. intros t. by left.
  - unfold p_reset. destruct ((ms =? _) && _); [done |].
    pose proof (p_change_no_other a cb a0 (fun t => with_next (u64 ((if fromNow then now else u64 (t_next t - t_ms t)) + ms)) (with_ms ms t)) p) as Hch.
    specialize (Hch ltac:(intros t; by left) H). destruct (p_change _ _ p) as [[|] p']; done.
  - unfold p_listExpired. case_decide; cbn; [done |]. intros b t. rewrite lookup_fmap. destruct (p_store p !! b) as [t0 |] eqn:E; [| done]. cbn. intros [= <-] Hb.
    specialize (H b t0 E Hb). case_decide; [| done]. unfold after. by destruct (t_recurring t0).
Qed.

(** Only a [listExpiredCb] for which [a] is due hands out its callback. *)
Lemma p_exec_silent c p a cb : no_other a cb (p_store p) ->
  (forall now sentinel, c = ListExpiredCb now sentinel -> ~ due (p_rollover now p) now (deref (p_store p) a)) -> ~ collects cb (fst (p_exec c p)).
Proof.
  intros H Hd. destruct c; cbn; try tauto; [destruct (p_reset now ms fromNow a0 p) as [[] ?]; cbn; tauto |]. unfold p_listExpired. case_decide; cbn; [apply not_elem_of_nil |]. rewrite list_elem_of_fmap. intros (b & E & Hb).
  apply due_elem in Hb. destruct (decide (b = a)) as [-> | Hne]; [by apply (Hd now sentinel) |]. by apply (no_other_deref a cb (p_store p) b).
Qed.

Lemma p_listExpired_once now p a cb : no_other a cb (p_store p) -> t_callback (deref (p_store p) a) = Some cb -> due (p_rollover now p) now (deref (p_store p) a) ->
  pending (p_store p) <> ∅ -> once cb (fst (p_listExpired now p)).
Proof.
  intros H Hcb Hd Hne. unfold p_listExpired. rewrite decide_False by done. cbn. apply due_elem in Hd.
  set (l := by_deadline _) in *. assert (NoDup l) as Hnd by (eapply ascending_NoDup, by_deadline_ascending; apply _).
  apply list_elem_of_split in Hd as (l1 & l2 & El). rewrite El in Hnd |- *. apply NoDup_app in Hnd as (_ & H1 & H2). apply NoDup_cons in H2 as [H2 _].
  exists ((fun a => t_callback (deref (p_store p) a)) <$> l1), ((fun a => t_callback (deref (p_store p) a)) <$> l2). rewrite fmap_app, fmap_cons, Hcb. split; [done |].
  split; intros (b & E & Hb)%list_elem_of_fmap; (apply (no_other_deref a cb (p_store p) b); [done | | done]); intros ->; [by apply (H1 a Hb), list_elem_of_here | done].
Qed.

Lemma represents_ok s p : represents s p -> manager_ok s /\ p = abstraction s.
Proof. intros [E1 E2 E3 E4]. split; [done |]. destruct p. cbn in *. by subst. Qed.

Lemma exec_ok c s : manager_ok s -> fresh_for c (tm_store s) -> manager_ok (snd (exec c s)) /\ abstraction (snd (exec c s)) = snd (p_exec c (abstraction s)) /\
  fst (exec c s) = fst (p_exec c (abstraction s)).
Proof.
  intros H Hf. destruct (exec_represents c s (abstraction s) (ok_represents s H) Hf) as [E R]. apply represents_ok in R as [R1 R2]. done.
Qed.

Lemma allocated_app l1 : forall l2 s, allocated (l1 ++ l2) s -> allocated l1 s /\ allocated l2 (snd (run exec l1 s)).
Proof.
  induction l1 as [|c l1 IH]; intros l2 s Hs; [done |]. destruct Hs as [Hs1 Hs2]. cbn [run allocated]. destruct (exec c s) as [r s1]. cbn [snd] in *.
  specialize (IH _ _ Hs2). destruct (run exec l1 s1). cbn in *. tauto.
Qed.

(** The time up to which the clock has got, from [t]. *)
Fixpoint last_time (t : Z) (cs : list call) : Z :=
  match cs with
  | [] => t
  | c :: cs => last_time (default t (call_time c)) cs
  end.

Lemma run_keeps cs : forall t s a tm cb, manager_ok s -> tm_store s !! a = Some tm -> Forall (fun c => ~ touches a c /\ before_deadline (t_next tm) c) cs ->
  tm_previousTime s <= t -> forward t cs -> allocated cs s -> let s' := snd (run exec cs s) in
  manager_ok s' /\ tm_store s' !! a = Some tm /\ tm_previousTime s' <= last_time t cs /\
  (no_other a cb (tm_store s) -> Forall (fun c => ~ adds cb c) cs -> no_other a cb (tm_store s') /\ Forall (fun r => ~ collects cb r) (fst (run exec cs s))).
Proof.
  induction cs as [|c cs IH]; intros t s a tm cb Hok Ha Hc Ht Hfw Hal; [done |]. apply Forall_cons in Hc as [[Hc1 Hc2] Hc]. destruct Hfw as [Hf1 Hf2], Hal as [Hal1 Hal2].
  assert (tm_previousTime s <= default (tm_previousTime s) (call_time c)) as Hp0 by (destruct (call_time c); cbn in *; lia).
  pose proof (p_exec_no_other c (abstraction s) a cb) as Hno. pose proof (p_exec_silent c (abstraction s) a cb) as Hsi.
  destruct (exec_ok c s Hok Hal1) as (Hok' & Ab & Er). rewrite <- Er in Hsi. rewrite <- Ab in Hno. cbn [run last_time]. destruct (exec c s) as [r s1]. cbn [fst snd] in *.
  assert (tm_store s1 !! a = Some tm) as Ha1 by (change (tm_store s1) with (p_store (abstraction s1)); rewrite Ab; by apply p_exec_keeps).
  assert (tm_previousTime s1 <= default t (call_time c)) as Hp1.
  { change (tm_previousTime s1) with (p_previousTime (abstraction s1)). rewrite Ab. by apply p_previous_forward. }
  specialize (IH (default t (call_time c)) s1 a tm cb Hok' Ha1 Hc Hp1 Hf2 Hal2). destruct (run exec cs s1) as [rs s2]. cbn [fst snd] in *.
  destruct IH as (IH1 & IH2 & IH3 & IH4). split_and!; try done. intros Hn [Had1 Had]%Forall_cons. destruct (IH4 (Hno Had1 Hn) Had) as [IH5 IH6]. split; [done |]. constructor; [| done].
  apply Hsi; [done |]. intros now sentinel ->. cbn in *. rewrite no_rollover by (cbn; lia). rewrite (deref_lookup _ _ _ Ha). intros [_ [? | ?]]; [done | lia].
Qed.

Lemma run_done cs : forall s a cb, manager_ok s -> is_Some (tm_store s !! a) -> t_callback (deref (tm_store s) a) = None -> allocated cs s ->
  t_callback (deref (tm_store (snd (run exec cs s))) a) = None /\
  (no_other a cb (tm_store s) -> Forall (fun c => ~ adds cb c) cs -> Forall (fun r => ~ collects cb r) (fst (run exec cs s))).
Proof.
  induction cs as [|c cs IH]; intros s a cb Hok Hin Hn Hal; [done |]. destruct Hal as [Hal1 Hal2].
  pose proof (p_exec_no_other c (abstraction s) a cb) as Hno. pose proof (p_exec_silent c (abstraction s) a cb) as Hsi.
  destruct (exec_ok c s Hok Hal1) as (Hok' & Ab & Er). rewrite <- Er in Hsi. rewrite <- Ab in Hno. cbn [run]. destruct (exec c s) as [r s1]. cbn [fst snd] in *.
  destruct (p_exec_done c (abstraction s) a Hin Hn Hal1) as [Hin1 Hn1]. rewrite <- Ab in Hin1, Hn1. specialize (IH s1 a cb Hok' Hin1 Hn1 Hal2).
  destruct (run exec cs s1) as [rs s2]. cbn [fst snd] in *. destruct IH as [IH1 IH2]. split; [done |]. intros Ho [Had1 Had]%Forall_cons.
  constructor; [| by apply IH2; [apply Hno |]]. apply Hsi; [done |]. intros now sentinel _ [Hw _]. by apply Hw.
Qed.

(** C15: a timer that nobody cancels, refreshes or resets is still waiting
    with the same deadline as long as the event loop asks before that
    deadline; the first [listExpiredCb] at or after the deadline (no clock
    running backwards) collects its callback; it then waits again, for its
    period from that moment, when it recurs, and otherwise is never pending
    again whatever is called afterwards.  When its callback is that of no
    other timer, no answer to a call before the deadline hands the callback
    out, the answer at the deadline holds it exactly once, and, for a timer
    that does not recur, no answer to any later call holds it. *)
Theorem timers_fire s a t cb cs start now sentinel cs' : manager_ok s -> tm_store s !! a = Some t -> t_callback t = Some cb ->
  tm_previousTime s <= start -> forward start cs -> last_time start cs <= now -> Forall (fun c => ~ touches a c /\ before_deadline (t_next t) c) cs ->
  t_next t <= now -> allocated (cs ++ ListExpiredCb now sentinel :: cs') s ->
  let '(early, s1) := run exec cs s in
  let '(callbacks, s2) := listExpiredCb now sentinel s1 in
  let '(late, s3) := run exec cs' s2 in
  tm_store s1 !! a = Some t /\ Some cb ∈ callbacks /\
  (if t_recurring t then tm_store s2 !! a = Some (with_next (u64 (now + t_ms t)) t) else t_callback (deref (tm_store s3) a) = None) /\
  (no_other a cb (tm_store s) -> Forall (fun c => ~ adds cb c) (cs ++ cs') ->
   Forall (fun r => ~ collects cb r) early /\ once cb callbacks /\ (t_recurring t = false -> Forall (fun r => ~ collects cb r) late)).
Proof.
  intros Hok Ha Hcb Hst Hfw Hlast Hcs Hnow Hal.
  destruct (allocated_app _ _ _ Hal) as [Hal1 Hal2]. destruct (run_keeps cs start s a t cb Hok Ha Hcs Hst Hfw Hal1) as (Hok1 & Ha1 & Hp1 & Hq1).
  destruct (run exec cs s) as [early s1]. cbn [fst snd] in *.
  destruct Hal2 as [Hf Hal2]. destruct (exec_ok (ListExpiredCb now sentinel) s1 Hok1 Hf) as (Hok2 & Ab & Er). cbn [exec] in *. unfold answering in *. cbn [fst snd] in *.
  destruct (listExpiredCb now sentinel s1) as [cbs s2]. cbn [fst snd] in *. injection Er as ->.
  pose proof (deref_lookup _ _ _ Ha1) as Hd1. assert (due (p_rollover now (abstraction s1)) now t) as Hdue by (split; [unfold waiting; by rewrite Hcb | by right]).
  assert (pending (tm_store s1) <> ∅) as Hne.
  { intros E. assert (pending (tm_store s1) !! a = Some t) as Hp by (apply pending_lookup; split; [done | by apply Hdue]). by rewrite E, lookup_empty in Hp. }
  assert (tm_store s2 !! a = Some (after now t)) as Ha2.
  { change (tm_store s2) with (p_store (abstraction s2)). rewrite Ab. cbn. unfold p_listExpired. rewrite decide_False by done. cbn. rewrite lookup_fmap, Ha1. cbn. by rewrite decide_True. }
  assert (t_recurring t = false -> is_Some (tm_store s2 !! a) /\ t_callback (deref (tm_store s2) a) = None) as Hoff.
  { intros E. rewrite Ha2, (deref_lookup _ _ _ Ha2). unfold after. rewrite E. split; [by eexists | done]. }
  pose proof (fun E => run_done cs' s2 a cb Hok2 (proj1 (Hoff E)) (proj2 (Hoff E)) Hal2) as Hd. destruct (run exec cs' s2) as [late s3]. cbn [fst snd] in *. split; [done |]. split_and!.
  - unfold p_listExpired. cbn [p_store abstraction]. rewrite decide_False by done. cbn. apply list_elem_of_fmap. exists a. rewrite Hd1. split; [done |]. apply due_elem. by rewrite Hd1.
  - unfold after in Ha2. destruct (t_recurring t); [done |]. by apply Hd.
  - intros Ho [Hc1 Hc2]%Forall_app. destruct (Hq1 Ho Hc1) as [Ho1 He]. split; [done |]. split; [apply p_listExpired_once with a; cbn; by rewrite ?Hd1 |].
    intros E. apply (Hd E); [| done]. pose proof (p_exec_no_other (ListExpiredCb now sentinel) (abstraction s1) a cb (fun x => x) Ho1) as H2. by rewrite <- Ab in H2.
Qed.

(** ** The event loop *)

(** Clock readings and periods below [2^63], so that deadlines do not wrap. *)
Definition in_bounds (c : call) : Prop :=
  (forall t, call_time c = Some t -> 0 <= t < 2 ^ 63) /\
  match c with AddTimer _ ms _ _ _ | AddConditionTimer _ ms _ _ _ _ | Reset _ ms _ _ => 0 <= ms < 2 ^ 63 | _ => True end.

(** Every waiting timer has been started between 0 and [clock]. *)
Definition timely (clock : Z) (t : Timer) : Prop :=
  waiting t -> 0 <= t_ms t < 2 ^ 63 /\ 0 <= t_next t - t_ms t <= clock.

Definition all_timely (clock : Z) p : Prop := 0 <= clock < 2 ^ 63 /\ map_Forall (fun _ => timely clock) (p_store p).

Definition none_before (d : Z) (st : gmap positive Timer) : Prop := map_Forall (fun _ t => waiting t -> d <= t_next t) st.

Lemma timely_later clock clock' (t : Timer) : clock <= clock' -> timely clock t -> timely clock' t.
Proof. intros H Ht Hw. specialize (Ht Hw). lia. Qed.

Lemma u64_small x : 0 <= x < 2 ^ 64 -> u64 x = x.
Proof. apply uwrap_id. Qed.

Lemma started_timely (now ms : Z) (t : Timer) : 0 <= now < 2 ^ 63 -> 0 <= ms < 2 ^ 63 -> t_ms t = ms -> t_next t = u64 (now + ms) -> timely now t.
Proof. intros H1 H2 E1 E2 _. rewrite E1, E2, u64_small by lia. lia. Qed.

Lemma deref_timely clock p a : all_timely clock p -> timely clock (deref (p_store p) a).
Proof. intros [_ H]. unfold deref. destruct (p_store p !! a) as [t |] eqn:E; [by apply (H a t) | intros Hw; by destruct Hw]. Qed.

(** The timer after a reset. *)
Definition reset_timer (now ms : Z) (fromNow : bool) (t : Timer) : Timer :=
  with_next (u64 ((if fromNow then now else u64 (t_next t - t_ms t)) + ms)) (with_ms ms t).

Lemma reset_timely now ms fromNow (t : Timer) : 0 <= now < 2 ^ 63 -> 0 <= ms < 2 ^ 63 -> timely now t -> timely now (reset_timer now ms fromNow t).
Proof.
  intros H1 H2 Ht Hw. specialize (Ht Hw). unfold reset_timer. cbn. destruct fromNow; [rewrite u64_small by lia; lia |].
  rewrite (u64_small (t_next t - t_ms t)) by lia. rewrite u64_small by lia. lia.
Qed.

(** What a call does to one timer. *)
Lemma p_exec_timely clock c p : all_timely clock p -> in_bounds c -> clock <= default clock (call_time c) ->
  all_timely (default clock (call_time c)) (snd (p_exec c p)).
Proof.
  intros Hall [Hb1 Hb2] Hle. pose proof Hall as [Hc Ht].
  assert (0 <= default clock (call_time c) < 2 ^ 63) as Hnow by (destruct (call_time c) eqn:E; cbn; [by apply Hb1 | done]).
  assert (map_Forall (fun _ => timely (default clock (call_time c))) (p_store p)) as Ht'.
  { intros a t Hat. eapply timely_later; [exact Hle |]. by apply (Ht a). }
  assert (forall a f, (forall t, timely (default clock (call_time c)) t -> timely (default clock (call_time c)) (f t)) ->
    map_Forall (fun _ => timely (default clock (call_time c))) (p_store (snd (p_change a f p)))) as Hch.
  { intros a f Hf. unfold p_change. case_decide; cbn; [| done]. apply map_Forall_insert_2; [| done]. apply Hf. eapply timely_later; [exact Hle |]. by apply deref_timely. }
  split; [done |]. destruct c; cbn [p_exec answering snd call_time default from_option id] in *; try done.
  - cbn. apply map_Forall_insert_2; [| done]. by apply (started_timely now ms).
  - cbn. apply map_Forall_insert_2; [| done]. by apply (started_timely now ms).
  - apply Hch. intros t _ Hw. by destruct Hw.
  - apply Hch. intros t Htt Hw. specialize (Htt Hw). apply (started_timely now (t_ms t)); (done || lia).
  - unfold p_reset. destruct ((ms =? _) && _); [done |]. specialize (Hch a (reset_timer now ms fromNow) ltac:(intros; by apply reset_timely)). unfold reset_timer in Hch.
    destruct (p_change _ _ p) as [[|] p']; cbn in *; done.
  - unfold p_listExpired. case_decide; cbn; [done |]. intros a t. rewrite lookup_fmap. destruct (p_store p !! a) as [t0 |] eqn:E; [| done]. cbn. intros [= <-].
    specialize (Ht' a t0 E). cbn in Ht'. destruct (decide (due _ now t0)) as [D | D]; [| done]. unfold after. destruct (t_recurring t0); [| intros Hw; by destruct Hw].
    specialize (Ht' (proj1 D)). apply (started_timely now (t_ms t0)); (done || lia).
Qed.

(** Somebody has been notified. *)
Definition notified (r : answer) : Prop := match r with Added true | Replaced _ true => True | _ => False end.

Lemma first_none_before d p a t : p_tickled p = false -> p_store p !! a = Some t -> waiting t -> t_next t < d ->
  map_Forall (fun b t' => b <> a -> waiting t' -> d <= t_next t') (p_store p) -> fst (p_notify a p) = true.
Proof.
  intros Htick Ha Hw Hd Hall. unfold p_notify. cbn. rewrite Htick, andb_true_r. apply bool_decide_eq_true.
  pose proof (timers_ascending (p_store p)) as Hasc. assert (a ∈ by_deadline (pending (p_store p))) as Hin by (apply timers_elem; by rewrite (deref_lookup _ _ _ Ha)).
  destruct (by_deadline (pending (p_store p))) as [|b l] eqn:El; [by apply elem_of_nil in Hin |]. cbn. f_equal.
  destruct (decide (b = a)) as [| Hb]; [done |]. exfalso. apply elem_of_cons in Hin as [| Hin]; [done |].
  apply StronglySorted_inv in Hasc as [_ Hf]. rewrite Forall_forall in Hf. specialize (Hf a Hin). apply timer_lt_next in Hf. rewrite (deref_lookup _ _ _ Ha) in Hf.
  assert (waiting (deref (p_store p) b)) as Hwb by (apply timers_elem; rewrite El; constructor).
  unfold deref in Hwb, Hf. destruct (p_store p !! b) as [t' |] eqn:Eb; [| by destruct Hwb]. specialize (Hall b t' Eb Hb Hwb). cbn in *. lia.
Qed.

(** Without a notification the deadlines stay at [d] or later. *)
Lemma p_exec_quiet clock d c p : all_timely clock p -> in_bounds c -> clock <= default clock (call_time c) -> (forall now, c <> GetNextTimer now) ->
  p_tickled p = false -> none_before d (p_store p) ->
  notified (fst (p_exec c p)) \/ (p_tickled (snd (p_exec c p)) = false /\ none_before d (p_store (snd (p_exec c p)))).
Proof.
  intros Hall [Hb1 Hb2] Hle Hng Htick Hnb.
  assert (forall a (t : Timer) p', p_tickled p' = false -> p_store p' = <[a := t]> (p_store p) -> waiting t ->
    fst (p_notify a p') = true \/ (p_tickled (snd (p_notify a p')) = false /\ none_before d (p_store (snd (p_notify a p'))))) as Hnot.
  { intros a t p' Ht' E Hw. destruct (fst (p_notify a p')) eqn:En; [by left | right]. split; [unfold p_notify in *; cbn in *; by rewrite En, Ht' |].
    cbn. rewrite E. apply map_Forall_insert_2; [| done]. intros _. destruct (decide (d <= t_next t)) as [| Hd]; [done |]. exfalso.
    rewrite (first_none_before d p' a t) in En; [done | done | by rewrite E, lookup_insert_eq | done | lia |]. rewrite E. intros b t' Hb Hba. rewrite lookup_insert_ne in Hb by done. by apply (Hnb b). }
  assert (forall a f, (forall t, t_next t <= t_next (f t) \/ ~ waiting (f t)) -> p_tickled (snd (p_change a f p)) = false /\ none_before d (p_store (snd (p_change a f p)))) as Hch.
  { intros a f Hf. unfold p_change. case_decide as Hw; cbn; [| done]. split; [done |]. apply map_Forall_insert_2; [| done]. intros Hw'. destruct (Hf (deref (p_store p) a)) as [Hm | ?]; [| done].
    unfold deref in Hw, Hm |- *. destruct (p_store p !! a) as [t |] eqn:E; [| by destruct Hw]. specialize (Hnb a t E Hw). cbn in *. lia. }
  destruct c; cbn [p_exec answering fst snd] in *; try (by right); try (by destruct (Hng now)).
  - destruct (Hnot a (new_Timer now ms (Some (Function f)) recurring) (p_put (<[a := new_Timer now ms (Some (Function f)) recurring]> (p_store p)) p) Htick eq_refl) as [E | E]; [done | | by right].
    left. unfold p_addTimer. by rewrite E.
  - destruct (Hnot a (new_Timer now ms (Some (OnTimer weakCondition f)) recurring) (p_put (<[a := new_Timer now ms (Some (OnTimer weakCondition f)) recurring]> (p_store p)) p) Htick eq_refl) as [E | E]; [done | | by right].
    left. unfold p_addTimer. by rewrite E.
  - right. apply Hch. intros t. right. intros Hw. by destruct Hw.
  - right. unfold p_refresh, p_change. case_decide as Hw; cbn; [| done]. split; [done |]. apply map_Forall_insert_2; [| done]. intros _.
    pose proof (deref_timely clock p a Hall Hw) as (Hm & Hs). specialize (Hb1 now eq_refl). cbn in *. rewrite u64_small by lia.
    unfold deref in Hw, Hs |- *. destruct (p_store p !! a) as [t |] eqn:E; [| by destruct Hw]. specialize (Hnb a t E Hw). cbn in *. lia.
  - unfold p_reset. destruct ((ms =? _) && _); [by right |]. unfold p_change. case_decide as Hw; cbn; [| by right].
    destruct (Hnot a (reset_timer now ms fromNow (deref (p_store p) a)) (p_put (<[a := reset_timer now ms fromNow (deref (p_store p) a)]> (p_store p)) p) Htick eq_refl Hw) as [E | E]; [left | right; exact E].
    unfold reset_timer in E. cbn in E |- *. by rewrite E.
  - right. unfold p_listExpired. case_decide; cbn; [done |]. split; [done |]. intros a t. rewrite lookup_fmap. destruct (p_store p !! a) as [t0 |] eqn:E; [| done]. cbn. intros [= <-] Hw.
    destruct (decide (due _ now t0)) as [D | D]; [| by apply (Hnb a)]. unfold after in *. destruct (t_recurring t0); [| by destruct Hw]. cbn.
    destruct Hall as [_ Hall]. destruct (Hall a t0 E (proj1 D)) as (Hm & Hs). specialize (Hb1 now eq_refl). cbn in Hle. rewrite u64_small by lia.
    specialize (Hnb a t0 E (proj1 D)). cbn in Hnb. lia.
Qed.

Lemma run_timely cs : forall clock s, manager_ok s -> all_timely clock (abstraction s) -> Forall in_bounds cs -> forward clock cs -> allocated cs s ->
  let s' := snd (run exec cs s) in manager_ok s' /\ all_timely (last_time clock cs) (abstraction s').
Proof.
  induction cs as [|c cs IH]; intros clock s Hok Hall Hb Hf Hal; [done |]. apply Forall_cons in Hb as [Hb1 Hb]. destruct Hf as [Hf1 Hf], Hal as [Hal1 Hal].
  destruct (exec_ok c s Hok Hal1) as (Hok' & Ab & _). pose proof (p_exec_timely clock c (abstraction s) Hall Hb1 Hf1) as Hall1. rewrite <- Ab in Hall1.
  cbn [run last_time]. destruct (exec c s) as [r s1]. cbn [snd] in *. specialize (IH _ s1 Hok' Hall1 Hb Hf Hal). by destruct (run exec cs s1).
Qed.

Lemma run_quiet d cs : forall clock s, manager_ok s -> all_timely clock (abstraction s) -> Forall in_bounds cs -> forward clock cs -> allocated cs s ->
  Forall (fun c => forall now, c <> GetNextTimer now) cs -> tm_tickled s = false -> none_before d (tm_store s) ->
  let r := run exec cs s in manager_ok (snd r) /\ (Exists notified (fst r) \/ none_before d (tm_store (snd r))).
Proof.
  induction cs as [|c cs IH]; intros clock s Hok Hall Hb Hf Hal Hng Ht Hn; [by split; [| right] |]. apply Forall_cons in Hb as [Hb1 Hb], Hng as [Hng1 Hng]. destruct Hf as [Hf1 Hf], Hal as [Hal1 Hal].
  destruct (exec_ok c s Hok Hal1) as (Hok' & Ab & Er). pose proof (p_exec_timely clock c (abstraction s) Hall Hb1 Hf1) as Hall1. rewrite <- Ab in Hall1.
  pose proof (p_exec_quiet clock d c (abstraction s) Hall Hb1 Hf1 Hng1 Ht Hn) as Hq. rewrite <- Ab, <- Er in Hq.
  cbn [run]. destruct (exec c s) as [r s1]. cbn [fst snd] in *. destruct Hq as [Hq | [Hq1 Hq2]].
  - destruct (run_timely cs _ s1 Hok' Hall1 Hb Hf Hal) as [Hok2 _]. destruct (run exec cs s1). cbn in *. split; [done |]. left. by constructor.
  - specialize (IH _ s1 Hok' Hall1 Hb Hf Hal Hng Hq1 Hq2). destruct (run exec cs s1). cbn in *. destruct IH as [IH1 [IH2 | IH2]]; (split; [done |]); [left; by constructor 2 | by right].
Qed.

(** C16: no wake-up of the event loop is lost.  Let [w] be what [getNextTimer]
    answers at [now], after any calls; while the loop sleeps for [w] other
    threads add, cancel, refresh, reset and collect timers, with clock readings
    that do not run backwards and no 64-bit overflow.  Then [w] is 0, or
    [onTimerInsertedAtFront] has been called, or no pending timer is due before
    [now + w]: the loop does not sleep past a deadline without having been
    notified. *)
Theorem timers_wake_the_loop start cs0 now cs : 0 <= start < 2 ^ 63 -> Forall in_bounds (cs0 ++ GetNextTimer now :: cs) ->
  forward start (cs0 ++ GetNextTimer now :: cs) -> allocated (cs0 ++ GetNextTimer now :: cs) (new_TimerManager start) ->
  Forall (fun c => forall t, c <> GetNextTimer t) cs ->
  let '(w, s1) := getNextTimer now (snd (run exec cs0 (new_TimerManager start))) in
  let '(answers, s2) := run exec cs s1 in
  w = 0 \/ Exists notified answers \/ forall a, a ∈ tm_timers s2 -> now + w <= t_next (deref (tm_store s2) a).
Proof.
  intros Hs Hb Hf Hal Hng. apply allocated_app in Hal as [Hal0 [_ Hal]]. apply Forall_app in Hb as [Hb0 Hb]. apply Forall_cons in Hb as [Hbg Hb].
  assert (forall l1 l2 t, forward t (l1 ++ l2) -> forward t l1 /\ forward (last_time t l1) l2) as Hfapp.
  { induction l1 as [|c l1 IH]; intros l2 t H; [done |]. destruct H as [H1 H2]. cbn. apply IH in H2. tauto. }
  apply Hfapp in Hf as [Hf0 [Hfg Hf]]. cbn [call_time default from_option] in Hfg, Hf. unfold id in Hfg, Hf.
  destruct (run_timely cs0 start (new_TimerManager start)) as [Hok Hall]; try done.
  set (s := snd (run exec cs0 (new_TimerManager start))) in *. destruct (exec_ok (GetNextTimer now) s Hok I) as (Hok1 & Ab & Er).
  pose proof (p_exec_timely _ (GetNextTimer now) (abstraction s) Hall Hbg Hfg) as Hall1. rewrite <- Ab in Hall1. cbn [exec] in *. unfold answering in *. cbn [fst snd call_time default from_option] in *. unfold id in Hall1.
  destruct (getNextTimer now s) as [w s1]. cbn [fst snd] in *. injection Er as Ew.
  assert (tm_store s1 = tm_store s /\ tm_tickled s1 = false) as [Es Et] by (apply (f_equal p_store) in Ab as Ab1; apply (f_equal p_tickled) in Ab as Ab2; done).
  destruct (decide (w = 0)) as [H0 | H0]; [destruct (run exec cs s1); by left |].
  assert (none_before (now + w) (tm_store s1)) as Hnb.
  { rewrite Es. intros a t Ha Hw. unfold p_first in Ew. pose proof (timers_ascending (tm_store s)) as Hasc. cbn [p_store abstraction] in Ew.
    assert (a ∈ by_deadline (pending (tm_store s))) as Hin by (apply timers_elem; by rewrite (deref_lookup _ _ _ Ha)).
    destruct (by_deadline (pending (tm_store s))) as [|b l] eqn:El; [by apply elem_of_nil in Hin |]. cbn in Ew.
    assert (t_next (deref (tm_store s) b) <= t_next t) as Hbt.
    { rewrite <- (deref_lookup _ _ _ Ha). apply elem_of_cons in Hin as [-> | Hin]; [done |]. apply StronglySorted_inv in Hasc as [_ Hasc]. rewrite Forall_forall in Hasc. by apply timer_lt_next, Hasc. }
    assert (waiting (deref (tm_store s) b)) as Hwb by (apply timers_elem; rewrite El; constructor).
    pose proof (deref_timely _ (abstraction s) b Hall Hwb) as (Hm & Hst). destruct Hall as [Hcl _]. cbn in Hm, Hst. destruct (Z.leb_spec (t_next (deref (tm_store s) b)) now); [done |].
    destruct (proj1 Hbg now eq_refl). rewrite u64_small in Ew by lia. lia. }
  pose proof (run_quiet (now + w) cs now s1 Hok1 Hall1 Hb Hf Hal Hng Et Hnb) as Hq. destruct (run exec cs s1) as [answers s2]. cbn [fst snd] in *.
  destruct Hq as [Hok2 [Hq | Hq]]; [right; by left |]. right. right. intros a Hin. rewrite Hok2 in Hin. apply timers_elem in Hin.
  unfold deref in Hin |- *. destruct (tm_store s2 !! a) as [t |] eqn:E; [by apply (Hq a t E) | by destruct Hin].
Qed.

End Calls.

Definition sample_calls : list (@call nat unit) :=
  [AddTimer 100 50 1%nat false 7; AddTimer 100 20 2%nat true 9; AddConditionTimer 100 50 3%nat tt false 3; GetNextTimer 105;
   ListExpiredCb 120 5; Reset 121 10 true 7; Refresh 122 3; ListExpiredCb 150 8; Cancel 3; HasTimer].

Lemma TimerManager_refines_pending_witness :
  fst (run exec sample_calls (new_TimerManager 0)) =
    [Added true; Added false; Added false; Wait 15; Callbacks [Some (Function 2%nat)]; Replaced true true; Result true;
     Callbacks [Some (Function 1%nat); Some (Function 2%nat)]; Result true; Result true] /\
  fst (run exec sample_calls (new_TimerManager 0)) = fst (run p_exec sample_calls (new_Pending 0)).
Proof.
  split; [vm_compute; reflexivity |]. apply (TimerManager_refines_pending 0 sample_calls). vm_compute. repeat split.
Defined.

Definition one_timer : @TimerManager nat unit := snd (addTimer 100 50 (Some (Function 1%nat)) false 7 (new_TimerManager 0)).

Lemma timers_fire_witness :
  let '(early, s1) := run exec [ListExpiredCb 120 2; Cancel 4] one_timer in
  let '(callbacks, s2) := listExpiredCb 151 2 s1 in
  let '(late, s3) := run exec [Refresh 160 7; AddTimer 160 10 8%nat false 9; ListExpiredCb 300 2] s2 in
  t_callback (deref (tm_store s3) 7) = None /\ Forall (fun r => ~ collects (Function 1%nat) r) early /\ once (Function 1%nat) callbacks /\
  Forall (fun r => ~ collects (Function 1%nat) r) late.
Proof.
  assert (~ touches 7 (@ListExpiredCb nat unit 120 2) /\ ~ touches 7 (@Cancel nat unit 4)) as [Hu1 Hu2] by (split; intros H; by inversion H).
  pose proof (timers_fire one_timer 7 (mk_Timer false 50 150 (Some (Function 1%nat)) false) (Function 1%nat) [ListExpiredCb 120 2; Cancel 4] 100 151 2
    [Refresh 160 7; AddTimer 160 10 8%nat false 9; ListExpiredCb 300 2] eq_refl eq_refl eq_refl) as H.
  revert H. destruct (run exec [ListExpiredCb 120 2; Cancel 4] one_timer) as [early s1]. destruct (listExpiredCb 151 2 s1) as [callbacks s2].
  destruct (run exec _ s2) as [late s3]. intros H. destruct H as (_ & _ & H1 & H2); [cbn; lia.. | | cbn; lia | vm_compute; repeat split |].
  - repeat constructor; done.
  - split; [exact H1 |]. destruct H2 as (H2 & H3 & H4).
    + intros b t Hb Hne. exfalso. apply Hne. unfold one_timer in Hb. cbn in Hb. by apply lookup_singleton_Some in Hb as [<- _].
    + repeat constructor; by cbn.
    + split; [exact H2 |]. split; [exact H3 | by apply H4].
Defined.

Lemma timers_wake_the_loop_witness :
  let '(w, s1) := getNextTimer 105 (snd (run exec (take 3 sample_calls) (new_TimerManager 0))) in
  let '(answers, s2) := run exec [Cancel 9; AddTimer 106 100 4%nat false 2; AddTimer 107 1 5%nat false 1] s1 in
  w = 0 \/ Exists notified answers \/ forall a, a ∈ tm_timers s2 -> 105 + w <= t_next (deref (tm_store s2) a).
Proof.
  apply (timers_wake_the_loop 0 (take 3 sample_calls) 105 [Cancel 9; AddTimer 106 100 4%nat false 2; AddTimer 107 1 5%nat false 1]).
  - lia.
  - unfold sample_calls. cbn [take app]. repeat first [apply Forall_nil_2 | apply Forall_cons_2]; (split; cbn; [intros ? E | lia || done]); first [discriminate E | injection E as <-; lia].
  - cbn. unfold id. lia.
  - vm_compute. repeat split.
  - repeat constructor; intros ? [=].
Defined.
