(* ===== verification/Scheduler.v ===== *)
(** * Fibers and the scheduler

    [src/src/fiber.cpp], [src/include/fiber.h], [src/src/scheduler.cpp] and
    [src/include/scheduler.h].  A [Fiber] is a state and a callback; what its
    callback does (schedule, yield, return, throw) is up to the program and so
    an action of its own here.  [Scheduler::run] is the loop of every worker
    thread: its critical sections and its accesses to shared fields are the
    steps of a thread, and the steps of the threads interleave freely.

    An assertion ([AZZATO_ASSERT]) that fails stops the program: [Abort]. *)

From stdpp Require Import base list list_numbers numbers option gmap.
From Stdlib Require Import ZArith Lia.
From S2P Require Import Prelude.

Local Open Scope Z_scope.

Section Scheduler.

(** Callbacks. *)
Context {F : Type}.

(** ** [Fiber] *)

Inductive FiberState := Init | Holding | Execute | Terminate | Ready | Exception.

#[export] Instance FiberState_eq_dec : EqDecision FiberState.
Proof. solve_decision. Defined.

Record Fiber := mk_Fiber {
  f_state : FiberState;
  f_callback : option F;
  f_stack : bool;
}.

(** [Fiber(callback)], and [Fiber()] for the main fiber of a thread. *)
Definition new_Fiber (callback : option F) : Fiber := mk_Fiber Init callback true.
Definition main_Fiber : Fiber := mk_Fiber Execute None false.

Definition set_state (st : FiberState) (f : Fiber) : Fiber := mk_Fiber st (f_callback f) (f_stack f).

Definition finished (st : FiberState) : bool := bool_decide (st = Terminate) || bool_decide (st = Exception).

(** [Fiber::reset]; [None]: an assertion fails. *)
Definition Fiber_reset (callback : option F) (f : Fiber) : option Fiber :=
  if f_stack f && (finished (f_state f) || bool_decide (f_state f = Init)) then Some (mk_Fiber Init callback true) else None.

(** [Fiber::swapIn], up to the change of context. *)
Definition Fiber_swapIn (f : Fiber) : option Fiber :=
  if bool_decide (f_state f = Execute) then None else Some (set_state Execute f).

(** [Fiber::yieldToReady] and [Fiber::yieldToHold], up to [swapOut]. *)
Definition Fiber_yieldToReady (f : Fiber) : option Fiber :=
  if bool_decide (f_state f = Execute) then Some (set_state Ready f) else None.
Definition Fiber_yieldToHold (f : Fiber) : option Fiber :=
  if bool_decide (f_state f = Execute) then Some (set_state Holding f) else None.

(** The end of [Fiber::mainFunc]: the callback has returned or thrown. *)
Definition Fiber_returned (f : Fiber) : Fiber := mk_Fiber Terminate None (f_stack f).
Definition Fiber_threw (f : Fiber) : Fiber := set_state Exception f.

(** ** [Scheduler] *)

Record FiberAndThread := mk_ft {
  ft_fiber : option positive;
  ft_callback : option F;
  ft_thread : Z;
}.

Definition scheduleLock (ft : FiberAndThread) (fibers : list FiberAndThread) : bool * list FiberAndThread :=
  (match fibers with [] => true | _ => false end, fibers ++ [ft]).

(** The body of [schedule(begin, end)]. *)
Fixpoint scheduleAll (fts : list FiberAndThread) (fibers : list FiberAndThread) : bool * list FiberAndThread :=
  match fts with
  | [] => (false, fibers)
  | ft :: fts =>
    let '(b1, fibers) := scheduleLock ft fibers in
    let '(b2, fibers) := scheduleAll fts fibers in
    (b1 || b2, fibers)
  end.

(** The search of [run] under the lock, for the thread [tid]: what it takes
    out, what is left, and [tickle_me].  [None]: an assertion fails. *)
Fixpoint pick (tid : Z) (state : positive -> FiberState) (fibers : list FiberAndThread) :
    option (option FiberAndThread * list FiberAndThread * bool) :=
  match fibers with
  | [] => Some (None, [], false)
  | it :: fibers =>
    if negb (ft_thread it =? -1) && negb (ft_thread it =? tid) then
      '(r, rest, _) ← pick tid state fibers; Some (r, it :: rest, true)
    else
      match ft_fiber it, ft_callback it with
      | None, None => None
      | Some f, _ =>
        if bool_decide (state f = Execute) then
          '(r, rest, tickle_me) ← pick tid state fibers; Some (r, it :: rest, tickle_me)
        else Some (Some it, fibers, match fibers with [] => false | _ => true end)
      | None, Some _ => Some (Some it, fibers, match fibers with [] => false | _ => true end)
      end
  end.

(** *** Threads *)

(** Why a fiber runs: a scheduled fiber, the fiber for callbacks, or the idle
    fiber. *)
Inductive role := Task | Cb | Idle.

#[export] Instance role_eq_dec : EqDecision role.
Proof. solve_decision. Defined.

(** Where a thread is in [run]. *)
Inductive pc :=
| Top                              (* before the critical section *)
| Picked (ft : option FiberAndThread)
| InFiber (r : role) (f : positive)   (* in the code of fiber [f] *)
| Leaving (r : role) (f : positive)   (* [f] has set its state, the context is not switched yet *)
| Back (r : role) (f : positive)      (* after [swapIn] *)
| Accounted (r : role) (f : positive) (* after the counter has been decremented *)
| Stopped.

Record thread := mk_thread {
  th_pc : pc;
  th_cb_fiber : option positive;
  th_idle_fiber : positive;
}.

Record world := mk_world {
  w_fibers : list FiberAndThread;
  w_objects : gmap positive Fiber;
  w_threads : gmap Z thread;
  w_activeThreadCount : Z;
  w_idleThreadCount : Z;
  w_stopping : bool;
  w_autoStop : bool;
}.

Definition put_queue (q : list FiberAndThread) (w : world) : world :=
  mk_world q (w_objects w) (w_threads w) (w_activeThreadCount w) (w_idleThreadCount w) (w_stopping w) (w_autoStop w).
Definition put_object (f : positive) (o : Fiber) (w : world) : world :=
  mk_world (w_fibers w) (<[f := o]> (w_objects w)) (w_threads w) (w_activeThreadCount w) (w_idleThreadCount w) (w_stopping w) (w_autoStop w).
Definition put_thread (t : Z) (th : thread) (w : world) : world :=
  mk_world (w_fibers w) (w_objects w) (<[t := th]> (w_threads w)) (w_activeThreadCount w) (w_idleThreadCount w) (w_stopping w) (w_autoStop w).
Definition add_active (d : Z) (w : world) : world :=
  mk_world (w_fibers w) (w_objects w) (w_threads w) (u64 (w_activeThreadCount w + d)) (w_idleThreadCount w) (w_stopping w) (w_autoStop w).
Definition add_idle (d : Z) (w : world) : world :=
  mk_world (w_fibers w) (w_objects w) (w_threads w) (w_activeThreadCount w) (u64 (w_idleThreadCount w + d)) (w_stopping w) (w_autoStop w).

Definition at_pc (p : pc) (th : thread) : thread := mk_thread p (th_cb_fiber th) (th_idle_fiber th).

Definition object (w : world) (f : positive) : Fiber := default main_Fiber (w_objects w !! f).
Definition state_of (w : world) (f : positive) : FiberState := f_state (object w f).

(** [Scheduler::stopping] *)
Definition is_stopping (w : world) : bool :=
  w_autoStop w && w_stopping w && match w_fibers w with [] => true | _ => false end && (w_activeThreadCount w =? 0).

Inductive outcome :=
| Next (w : world)
| Disabled      (* the thread is not at this point *)
| Abort.        (* an assertion fails *)

Definition or_abort {A} (o : option A) (k : A -> outcome) : outcome := match o with Some a => k a | None => Abort end.

(** The critical section. *)
Definition run_pick (t : Z) (th : thread) (w : world) : outcome :=
  or_abort (pick t (state_of w) (w_fibers w)) (fun '(r, rest, _) =>
    let w := put_queue rest w in
    let w := match r with Some _ => add_active 1 w | None => w end in
    Next (put_thread t (at_pc (Picked r) th) w)).

(** [swapIn] of fiber [f]. *)
Definition enter (t : Z) (th : thread) (r : role) (f : positive) (w : world) : outcome :=
  or_abort (Fiber_swapIn (object w f)) (fun o => Next (put_thread t (at_pc (InFiber r f) th) (put_object f o w))).

(** After the critical section; [fresh_fiber] is the address of the [Fiber] that
    [run] creates for a callback when it has none to reuse. *)
Definition run_dispatch (t : Z) (th : thread) (ft : option FiberAndThread) (fresh_fiber : positive) (w : world) : outcome :=
  let idle :=
    match ft with
    | Some _ => Next (put_thread t (at_pc Top th) (add_active (-1) w))
    | None =>
      if bool_decide (state_of w (th_idle_fiber th) = Terminate) then Next (put_thread t (at_pc Stopped th) w)
      else enter t th Idle (th_idle_fiber th) (add_idle 1 w)
    end in
  let call :=
    match ft ≫= ft_callback with
    | Some cb =>
      match th_cb_fiber th with
      | Some f => or_abort (Fiber_reset (Some cb) (object w f)) (fun o => enter t th Cb f (put_object f o w))
      | None =>
        let th := mk_thread (th_pc th) (Some fresh_fiber) (th_idle_fiber th) in
        enter t th Cb fresh_fiber (put_object fresh_fiber (new_Fiber (Some cb)) w)
      end
    | None => idle
    end in
  match ft ≫= ft_fiber with
  | Some f => if finished (state_of w f) then call else enter t th Task f w
  | None => call
  end.

(** [--_activeThreadCount], or [--_idleThreadCount] for the idle fiber. *)
Definition run_account (t : Z) (th : thread) (r : role) (f : positive) (w : world) : outcome :=
  Next (put_thread t (at_pc (Accounted r f) th) (if bool_decide (r = Idle) then add_idle (-1) w else add_active (-1) w)).

Definition push (ft : FiberAndThread) (w : world) : world := put_queue (snd (scheduleLock ft (w_fibers w))) w.

(** What [run] does with a fiber that has come back. *)
Definition run_after (t : Z) (th : thread) (r : role) (f : positive) (w : world) : outcome :=
  let st := state_of w f in
  let hold := put_object f (set_state Holding (object w f)) in
  let without_cb := mk_thread Top None (th_idle_fiber th) in
  match r with
  | Task =>
    let w := if bool_decide (st = Ready) then push (mk_ft (Some f) None (-1)) w else if finished st then w else hold w in
    Next (put_thread t (at_pc Top th) w)
  | Cb =>
    if bool_decide (st = Ready) then Next (put_thread t without_cb (push (mk_ft (Some f) None (-1)) w))
    else if finished st then
      or_abort (Fiber_reset None (object w f)) (fun o => Next (put_thread t (at_pc Top th) (put_object f o w)))
    else Next (put_thread t without_cb (hold w))
  | Idle => Next (put_thread t (at_pc Top th) (if finished st then w else hold w))
  end.

(** *** Actions *)

(** What the code of a fiber may do. *)
Inductive deed :=
| Schedule (ft : FiberAndThread)
| YieldToReady
| YieldToHold
| Return
| Throw.

Inductive action :=
| DoPick (t : Z)
| DoDispatch (t : Z) (fresh_fiber : positive)
| DoDeed (t : Z) (d : deed)
| DoIdle (t : Z)
| DoSwapOut (t : Z)
| DoAccount (t : Z)
| DoAfter (t : Z)
| NewFiber (fresh_fiber : positive) (callback : F)
| ScheduleOutside (ft : FiberAndThread)
| DoStop.

Definition fiber_deed (t : Z) (th : thread) (r : role) (f : positive) (d : deed) (w : world) : outcome :=
  let leave o := Next (put_thread t (at_pc (Leaving r f) th) (put_object f o w)) in
  match d with
  | Schedule ft => Next (push ft w)
  | YieldToReady => or_abort (Fiber_yieldToReady (object w f)) leave
  | YieldToHold => or_abort (Fiber_yieldToHold (object w f)) leave
  | Return => leave (Fiber_returned (object w f))
  | Throw => leave (Fiber_threw (object w f))
  end.

(** [Scheduler::idle]: another round, or the end. *)
Definition idle_deed (w : world) : deed := if is_stopping w then Return else YieldToHold.

Definition with_thread (t : Z) (w : world) (k : thread -> outcome) : outcome :=
  match w_threads w !! t with Some th => k th | None => Disabled end.

(** An address where no [Fiber] has been created yet. *)
Definition unused (f : positive) (w : world) : bool := match w_objects w !! f with None => true | Some _ => false end.

Definition step (a : action) (w : world) : outcome :=
  match a with
  | DoPick t => with_thread t w (fun th => match th_pc th with Top => run_pick t th w | _ => Disabled end)
  | DoDispatch t fresh => with_thread t w (fun th => 
      match th_pc th with Picked ft => if unused fresh w then run_dispatch t th ft fresh w else Disabled | _ => Disabled end)
  | DoDeed t d => with_thread t w (fun th =>
      match th_pc th with InFiber Task f => fiber_deed t th Task f d w | InFiber Cb f => fiber_deed t th Cb f d w | _ => Disabled end)
  | DoIdle t => with_thread t w (fun th => match th_pc th with InFiber Idle f => fiber_deed t th Idle f (idle_deed w) w | _ => Disabled end)
  | DoSwapOut t => with_thread t w (fun th => match th_pc th with Leaving r f => Next (put_thread t (at_pc (Back r f) th) w) | _ => Disabled end)
  | DoAccount t => with_thread t w (fun th => match th_pc th with Back r f => run_account t th r f w | _ => Disabled end)
  | DoAfter t => with_thread t w (fun th => match th_pc th with Accounted r f => run_after t th r f w | _ => Disabled end)
  | NewFiber fresh callback => if unused fresh w then Next (put_object fresh (new_Fiber (Some callback)) w) else Disabled
  | ScheduleOutside ft => Next (push ft w)
  | DoStop => Next (mk_world (w_fibers w) (w_objects w) (w_threads w) (w_activeThreadCount w) (w_idleThreadCount w) true true)
  end.

Fixpoint steps (l : list action) (w : world) : outcome :=
  match l with
  | [] => Next w
  | a :: l => match step a w with Next w => steps l w | o => o end
  end.

(** [Scheduler::switchTo] in the code of fiber [f] on thread [t], past its early
    return. *)
Definition switchTo (t : Z) (f : positive) (thread : Z) : list action :=
  [DoDeed t (Schedule (mk_ft (Some f) None thread)); DoDeed t YieldToHold].

(** After [start()]: [n] threads, thread [i] with the idle fiber [i + 1]. *)
Fixpoint worker_threads (n : nat) : list (Z * thread) :=
  match n with
  | O => []
  | S n => worker_threads n ++ [(Z.of_nat n, mk_thread Top None (Pos.of_nat (S n)))]
  end.

Definition started (n : nat) : world :=
  mk_world [] (list_to_map ((fun '(_, th) => (th_idle_fiber th, new_Fiber None)) <$> worker_threads n))
    (list_to_map (worker_threads n)) 0 0 false false.

End Scheduler.
