(* ===== verification/SchedulerFacts.v ===== *)
(** * The scheduler: counters and tasks

    The critical section of [run] takes the first entry its thread may run;
    the counters are exact, so that [stopping] tells the truth; and every
    callback that is scheduled is started once. *)

From stdpp Require Import base list list_numbers numbers option gmap fin_maps.
From Stdlib Require Import ZArith Lia.
From S2P Require Import Prelude.
From S2P Require Import Scheduler.

Local Open Scope Z_scope.

Section SchedulerFacts.

Context {F : Type}.
Abbreviation FiberAndThread := (@Scheduler.FiberAndThread F).
Abbreviation world := (@Scheduler.world F).
Abbreviation thread := (@Scheduler.thread F).
Abbreviation pc := (@Scheduler.pc F).
Abbreviation action := (@Scheduler.action F).
Abbreviation outcome := (@Scheduler.outcome F).
Implicit Types w : world.

(** ** The search for work *)

(** An entry thread [tid] may take now. *)
Definition eligible (tid : Z) (state : positive -> FiberState) (it : FiberAndThread) : bool :=
  ((ft_thread it =? -1) || (ft_thread it =? tid)) &&
  match ft_fiber it with Some f => negb (bool_decide (state f = Execute)) | None => true end.

Definition has_work (it : FiberAndThread) : Prop := ft_fiber it <> None \/ ft_callback it <> None.

(** The first eligible entry is taken out, the others stay in order. *)
Lemma pick_spec tid state q : Forall has_work q ->
  (exists q1 it q2, q = q1 ++ it :: q2 /\ Forall (fun i => eligible tid state i = false) q1 /\ eligible tid state it = true /\
     exists b, pick tid state q = Some (Some it, q1 ++ q2, b)) \/
  (Forall (fun i => eligible tid state i = false) q /\ exists b, pick tid state q = Some (None, q, b)).
Proof.
  induction 1 as [|i q Hi _ IH]; [right; split; [constructor | by eexists] |]. cbn [pick]. unfold eligible in *.
  destruct (negb (ft_thread i =? -1) && negb (ft_thread i =? tid)) eqn:Ef.
  { rewrite <- negb_orb in Ef. apply negb_true_iff in Ef. destruct IH as [(q1 & it & q2 & -> & H1 & H2 & b & ->) | (H1 & b & ->)]; [left | right].
    - exists (i :: q1), it, q2. split; [done |]. split; [constructor; [by rewrite Ef | done] |]. split; [done |]. by eexists.
    - split; [constructor; [by rewrite Ef | done] |]. by eexists. }
  rewrite <- negb_orb in Ef. apply negb_false_iff in Ef. destruct (ft_fiber i) as [f |] eqn:Efi.
  - case_bool_decide as Es.
    + destruct IH as [(q1 & it & q2 & -> & H1 & H2 & b & ->) | (H1 & b & ->)]; [left | right].
      * exists (i :: q1), it, q2. split; [done |]. split; [constructor; [| done] |]; [by rewrite Ef, Efi, bool_decide_true |]. split; [done |]. by eexists.
      * split; [constructor; [by rewrite Ef, Efi, bool_decide_true | done] |]. by eexists.
    + left. exists [], i, q. split; [done |]. split; [constructor |]. split; [by rewrite Ef, Efi, bool_decide_false |]. by eexists.
  - destruct (ft_callback i) as [cb |] eqn:Ec; [| destruct Hi as [Hi | Hi]; by rewrite ?Efi, ?Ec in Hi].
    left. exists [], i, q. split; [done |]. split; [constructor |]. split; [by rewrite Ef, Efi |]. by eexists.
Qed.

(** ** Counters *)

Definition busy (p : pc) : bool :=
  match p with
  | Picked (Some _) => true
  | InFiber r _ | Leaving r _ | Back r _ => negb (bool_decide (r = Idle))
  | _ => false
  end.

Definition idling (p : pc) : bool :=
  match p with
  | InFiber r _ | Leaving r _ | Back r _ => bool_decide (r = Idle)
  | _ => false
  end.

Definition count (P : pc -> bool) (ths : gmap Z thread) : Z := Z.of_nat (size (filter (fun '(_, th) => P (th_pc th) = true) ths)).

Lemma count_insert P ths t th th' : ths !! t = Some th ->
  count P (<[t := th']> ths) = count P ths + Z.b2z (P (th_pc th')) - Z.b2z (P (th_pc th)).
Proof.
  intros H. unfold count. assert (forall th0, size (filter (fun '(_, th) => P (th_pc th) = true) (<[t := th0]> (delete t ths))) =
    ((if P (th_pc th0) then 1 else 0) + size (filter (fun '(_, th) => P (th_pc th) = true) (delete t ths)))%nat) as Hs.
  { intros th0. destruct (P (th_pc th0)) eqn:E.
    - rewrite map_filter_insert_True by done. rewrite map_size_insert_None; [done |]. apply map_lookup_filter_None. left. apply lookup_delete_eq.
    - rewrite map_filter_insert_False by congruence. by rewrite delete_delete_eq. }
  rewrite <- (insert_delete_id ths t th H) at 2. rewrite <- insert_delete_eq. rewrite !Hs. destruct (P (th_pc th)), (P (th_pc th')); cbn; lia.
Qed.

Lemma count_bound P ths : 0 <= count P ths <= Z.of_nat (size ths).
Proof. unfold count. pose proof (map_size_filter (fun '(_, th) => P (th_pc th) = true) ths). lia. Qed.

Record counted_ok w : Prop := {
  co_active : w_activeThreadCount w = count busy (w_threads w);
  co_idle : w_idleThreadCount w = count idling (w_threads w);
  co_few : Z.of_nat (size (w_threads w)) < 2 ^ 63;
}.

Lemma size_insert_same (ths : gmap Z thread) t th th' : ths !! t = Some th -> size (<[t := th']> ths) = size ths.
Proof. intros H. by rewrite map_size_insert_Some by (by eexists). Qed.

(** A step of thread [t] that moves the counters with its place in [run]. *)
Lemma move_counted w w' t th th' : counted_ok w -> w_threads w !! t = Some th -> w_threads w' = <[t := th']> (w_threads w) ->
  w_activeThreadCount w' = u64 (w_activeThreadCount w + Z.b2z (busy (th_pc th')) - Z.b2z (busy (th_pc th))) ->
  w_idleThreadCount w' = u64 (w_idleThreadCount w + Z.b2z (idling (th_pc th')) - Z.b2z (idling (th_pc th))) -> counted_ok w'.
Proof.
  intros [C1 C2 C3] Ht E E1 E2. pose proof (size_insert_same (w_threads w) t th th' Ht) as Hz.
  constructor; rewrite E; [| | by rewrite Hz].
  - rewrite (count_insert busy _ t th th' Ht), E1, C1. apply uwrap_id. pose proof (count_bound busy (<[t := th']> (w_threads w))) as B. rewrite (count_insert busy _ t th th' Ht), Hz in B.
    unfold in_u. lia.
  - rewrite (count_insert idling _ t th th' Ht), E2, C2. apply uwrap_id. pose proof (count_bound idling (<[t := th']> (w_threads w))) as B. rewrite (count_insert idling _ t th th' Ht), Hz in B.
    unfold in_u. lia.
Qed.

Lemma u64_id_count w P : counted_ok w -> u64 (count P (w_threads w)) = count P (w_threads w).
Proof. intros [_ _ C]. apply uwrap_id. pose proof (count_bound P (w_threads w)). unfold in_u. lia. Qed.

(** The state components a step of a thread leaves alone. *)
Lemma idle_same w : counted_ok w -> w_idleThreadCount w = u64 (w_idleThreadCount w).
Proof. intros H. rewrite (co_idle _ H). symmetry. by apply u64_id_count. Qed.

Lemma active_same w : counted_ok w -> w_activeThreadCount w = u64 (w_activeThreadCount w).
Proof. intros H. rewrite (co_active _ H). symmetry. by apply u64_id_count. Qed.

Ltac same_count H :=
  cbn; rewrite ?Z.add_0_r, ?Z.sub_0_r; first [reflexivity | by apply idle_same | by apply active_same | f_equal; lia].

Ltac moved H t th := eapply (move_counted _ _ t th _ H); [eassumption | reflexivity | ..].

Lemma enter_counted w t th r f w1 w' : counted_ok w -> w_threads w !! t = Some th -> w_threads w1 = w_threads w ->
  busy (th_pc th) = negb (bool_decide (r = Idle)) -> idling (th_pc th) = false ->
  w_activeThreadCount w1 = w_activeThreadCount w -> w_idleThreadCount w1 = u64 (w_idleThreadCount w + Z.b2z (bool_decide (r = Idle))) ->
  forall th', th_idle_fiber th' = th_idle_fiber th -> enter t th' r f w1 = Next w' -> counted_ok w'.
Proof.
  intros H Ht E1 Hb Hi Ea Ei th' _. unfold enter, or_abort. destruct (Fiber_swapIn _) as [o |]; [| done]. intros [= <-].
  eapply (move_counted w _ t th (at_pc (InFiber r f) th') H Ht); cbn; [by rewrite E1 | |].
  - rewrite Ea, Hb. replace (w_activeThreadCount w + _ - _) with (w_activeThreadCount w) by lia. by apply active_same.
  - rewrite Ei, Hi. by rewrite Z.sub_0_r.
Qed.

Lemma dispatch_counted w t th ft fresh w' : counted_ok w -> w_threads w !! t = Some th -> th_pc th = Picked ft ->
  run_dispatch t th ft fresh w = Next w' -> counted_ok w'.
Proof.
  intros H Ht Hpc. unfold run_dispatch.
  assert (forall r f w1 th', r <> Idle -> ft <> None -> w_threads w1 = w_threads w -> w_activeThreadCount w1 = w_activeThreadCount w -> w_idleThreadCount w1 = w_idleThreadCount w ->
    th_idle_fiber th' = th_idle_fiber th -> enter t th' r f w1 = Next w' -> counted_ok w') as Hent.
  { intros r f w1 th' Hr Hft E1 E2 E3 E4. eapply (enter_counted w t th r f w1 w' H Ht E1); try done.
    - rewrite Hpc, bool_decide_false by done. by destruct ft.
    - by rewrite Hpc.
    - rewrite E3, bool_decide_false by done. cbn. rewrite Z.add_0_r. by apply idle_same. }
  assert (match ft with
          | Some _ => Next (put_thread t (at_pc Top th) (add_active (-1) w))
          | None => if bool_decide (state_of w (th_idle_fiber th) = Terminate) then Next (put_thread t (at_pc Stopped th) w)
                    else enter t th Idle (th_idle_fiber th) (add_idle 1 w)
          end = Next w' -> counted_ok w') as Hidle.
  { destruct ft as [ft |].
    - intros [= <-]. moved H t th; rewrite Hpc; same_count H.
    - case_bool_decide; [intros [= <-]; moved H t th; rewrite Hpc; same_count H |].
      eapply (enter_counted w t th Idle _ _ w' H Ht); try done; by rewrite Hpc. }
  assert (match ft ≫= ft_callback with
          | Some cb =>
            match th_cb_fiber th with
            | Some f => or_abort (Fiber_reset (Some cb) (object w f)) (fun o => enter t th Cb f (put_object f o w))
            | None => enter t (mk_thread (th_pc th) (Some fresh) (th_idle_fiber th)) Cb fresh (put_object fresh (new_Fiber (Some cb)) w)
            end
          | None => match ft with
                    | Some _ => Next (put_thread t (at_pc Top th) (add_active (-1) w))
                    | None => if bool_decide (state_of w (th_idle_fiber th) = Terminate) then Next (put_thread t (at_pc Stopped th) w)
                              else enter t th Idle (th_idle_fiber th) (add_idle 1 w)
                    end
          end = Next w' -> counted_ok w') as Hcall.
  { destruct ft as [ft |]; cbn [mbind option_bind] in *; [| exact Hidle]. destruct (ft_callback ft) as [cb |]; [| exact Hidle].
    destruct (th_cb_fiber th) as [f |]; [destruct (Fiber_reset _ _) as [o |]; [cbn [or_abort] | done] |]; by apply Hent. }
  destruct ft as [ft |]; cbn [mbind option_bind] in *; [| exact Hcall]. destruct (ft_fiber ft) as [f |]; [| exact Hcall].
  destruct (finished (state_of w f)); [exact Hcall | by apply Hent].
Qed.

Lemma deed_counted w t th r f d w' : counted_ok w -> w_threads w !! t = Some th -> th_pc th = InFiber r f -> fiber_deed t th r f d w = Next w' -> counted_ok w'.
Proof.
  intros H Ht Hpc. assert (forall o, Next (put_thread t (at_pc (Leaving r f) th) (put_object f o w)) = Next w' -> counted_ok w') as Hl.
  { intros o [= <-]. moved H t th; rewrite Hpc; cbn; rewrite Z.add_simpl_r; [by apply active_same | by apply idle_same]. }
  unfold fiber_deed. destruct d; [intros [= <-]; by destruct H | destruct (Fiber_yieldToReady _); [apply Hl | done] | destruct (Fiber_yieldToHold _); [apply Hl | done] | apply Hl..].
Qed.

Lemma after_counted w t th r f w' : counted_ok w -> w_threads w !! t = Some th -> th_pc th = Accounted r f -> run_after t th r f w = Next w' -> counted_ok w'.
Proof.
  intros H Ht Hpc. assert (forall w1 th', w_threads w1 = w_threads w -> w_activeThreadCount w1 = w_activeThreadCount w -> w_idleThreadCount w1 = w_idleThreadCount w ->
    th_pc th' = Top -> Next (put_thread t th' w1) = Next w' -> counted_ok w') as Hl.
  { intros w1 th' E1 E2 E3 E4 [= <-]. eapply (move_counted w _ t th th' H Ht); cbn; rewrite ?E1, ?E2, ?E3, ?E4, ?Hpc; cbn; rewrite ?Z.add_0_r, ?Z.sub_0_r; [done | by apply active_same | by apply idle_same]. }
  unfold run_after. destruct r.
  - apply Hl; try done; by destruct (bool_decide (state_of w f = Ready)), (finished (state_of w f)).
  - destruct (bool_decide (state_of w f = Ready)); [by apply Hl |]. destruct (finished _); [| by apply Hl]. destruct (Fiber_reset _ _); [by apply Hl | done].
  - apply Hl; try done; by destruct (finished (state_of w f)).
Qed.

Lemma step_counted a w w' : counted_ok w -> step a w = Next w' -> counted_ok w'.
Proof.
  intros H. destruct a as [t | t fresh | t d | t | t | t | t | fresh cb | ft |]; cbn [step]; unfold with_thread; try (destruct (w_threads w !! t) as [th |] eqn:Ht; [| done]).
  - destruct (th_pc th) eqn:Hpc; try done. unfold run_pick, or_abort. destruct (pick _ _ _) as [[[[it |] rest] b] |]; [| | done]; intros [= <-].
    + moved H t th; rewrite Hpc; same_count H.
    + moved H t th; rewrite Hpc; same_count H.
  - destruct (th_pc th) eqn:Hpc; try done. destruct (unused fresh w); [| done]. by eapply dispatch_counted.
  - destruct (th_pc th) as [| | [] f | | | |] eqn:Hpc; try done; by eapply deed_counted.
  - destruct (th_pc th) as [| | [] f | | | |] eqn:Hpc; try done; by eapply deed_counted.
  - destruct (th_pc th) as [| | | r f | | |] eqn:Hpc; try done. intros [= <-]. moved H t th; rewrite Hpc; cbn; rewrite Z.add_simpl_r; [by apply active_same | by apply idle_same].
  - destruct (th_pc th) as [| | | | r f | |] eqn:Hpc; try done. unfold run_account. intros [= <-]. case_bool_decide as Er.
    + moved H t th; rewrite Hpc; cbn; rewrite ?bool_decide_true by done; same_count H.
    + moved H t th; rewrite Hpc; cbn; rewrite ?bool_decide_false by done; same_count H.
  - destruct (th_pc th) eqn:Hpc; try done. by eapply after_counted.
  - destruct (unused fresh w); [| done]. intros [= <-]. by destruct H.
  - intros [= <-]. by destruct H.
  - intros [= <-]. by destruct H.
Qed.

Lemma steps_counted l : forall w w', counted_ok w -> steps l w = Next w' -> counted_ok w'.
Proof.
  induction l as [|a l IH]; intros w w' H; [by intros [= <-] |]. cbn. destruct (step a w) as [w1 | |] eqn:E; try done. apply IH. by eapply step_counted.
Qed.

(** ** The first state *)

Lemma count_none P (ths : gmap Z thread) : map_Forall (fun _ th => P (th_pc th) = false) ths -> count P ths = 0.
Proof.
  intros H. unfold count. replace (filter (fun '(_, th) => P (th_pc th) = true) ths) with (∅ : gmap Z thread); [done |]. symmetry.
  apply map_empty. intros t. apply map_lookup_filter_None. right. intros th Ht. specialize (H t th Ht). cbn in H. congruence.
Qed.

Lemma worker_threads_spec n : forall t th, (t, th) ∈ worker_threads (F := F) n -> 0 <= t < Z.of_nat n /\ th = mk_thread Top None (Pos.of_nat (S (Z.to_nat t))).
Proof.
  induction n as [|n IH]; intros t th; cbn; [intros H; by apply elem_of_nil in H |]. rewrite elem_of_app, list_elem_of_singleton. intros [H | [= -> ->]].
  - destruct (IH t th H) as [? ->]. split; [lia | done].
  - split; [lia |]. by rewrite Nat2Z.id.
Qed.

Lemma worker_threads_length n : length (worker_threads (F := F) n) = n.
Proof. induction n as [|n IH]; [done |]. cbn. rewrite length_app, IH. cbn. lia. Qed.

Lemma started_lookup n t th : w_threads (started (F := F) n) !! t = Some th -> 0 <= t < Z.of_nat n /\ th = mk_thread Top None (Pos.of_nat (S (Z.to_nat t))).
Proof. cbn. intros H%elem_of_list_to_map_2. by apply worker_threads_spec. Qed.

Lemma size_list_to_map (l : list (Z * thread)) : (size (list_to_map l : gmap Z thread) <= length l)%nat.
Proof.
  induction l as [|[t th] l IH]; [done |]. cbn. destruct ((list_to_map l : gmap Z thread) !! t) eqn:E.
  - rewrite map_size_insert_Some by (by eexists). lia.
  - rewrite map_size_insert_None by done. lia.
Qed.

Lemma started_counted n : Z.of_nat n < 2 ^ 63 -> counted_ok (started n).
Proof.
  intros Hn. constructor.
  - symmetry. apply count_none. intros t th H. by apply started_lookup in H as [_ ->].
  - symmetry. apply count_none. intros t th H. by apply started_lookup in H as [_ ->].
  - cbn. pose proof (size_list_to_map (worker_threads n)) as H. rewrite worker_threads_length in H. lia.
Qed.

Lemma stopping_iff w : counted_ok w -> is_stopping w = true <->
  w_autoStop w = true /\ w_stopping w = true /\ w_fibers w = [] /\ map_Forall (fun _ th => busy (th_pc th) = false) (w_threads w).
Proof.
  intros H. unfold is_stopping. rewrite !andb_true_iff, Z.eqb_eq, (co_active _ H).
  assert (count busy (w_threads w) = 0 <-> map_Forall (fun _ th => busy (th_pc th) = false) (w_threads w)) as Hc.
  { split; [| apply count_none]. intros E t th Ht. destruct (busy (th_pc th)) eqn:Eb; [| done]. exfalso.
    unfold count in E. assert (filter (fun '(_, th0) => busy (th_pc th0) = true) (w_threads w) !! t = Some th) as Hf by (by apply map_lookup_filter_Some).
    assert (size (filter (fun '(_, th0) => busy (th_pc th0) = true) (w_threads w)) = 0%nat) as E0 by lia. apply map_size_empty_inv in E0. by rewrite E0, lookup_empty in Hf. }
  rewrite Hc. destruct (w_fibers w) as [|ft q]; [tauto |]. split; [by intros [[_ ?] _] | by intros (_ & _ & ? & _)].
Qed.

(** C17: in every state that any interleaving of any number of worker threads
    (below [2^63]) can reach, [_activeThreadCount] is the number of threads
    between taking a task and having come back from it, [_idleThreadCount] the
    number of threads in their idle fiber, and so [stopping] answers true
    exactly when both stop flags are set, the queue is empty and no thread has
    a task in hand. *)
Theorem scheduler_counters n l w : Z.of_nat n < 2 ^ 63 -> steps l (started n) = Next w ->
  w_activeThreadCount w = count busy (w_threads w) /\ w_idleThreadCount w = count idling (w_threads w) /\
  (is_stopping w = true <->
    w_autoStop w = true /\ w_stopping w = true /\ w_fibers w = [] /\ map_Forall (fun _ th => busy (th_pc th) = false) (w_threads w)).
Proof.
  intros Hn Hl. pose proof (steps_counted l _ _ (started_counted n Hn) Hl) as H. split; [apply H |]. split; [apply H |]. by apply stopping_iff.
Qed.

(** ** Every callback is started once *)

(** A scheduled callback with the thread it is meant for ([-1]: any). *)
Definition work (ft : FiberAndThread) : list (Z * F) :=
  match ft_fiber ft, ft_callback ft with None, Some cb => [(ft_thread ft, cb)] | _, _ => [] end.

Definition queued w : list (Z * F) := w_fibers w ≫= work.
Definition in_hand (th : thread) : list (Z * F) := match th_pc th with Picked (Some ft) => work ft | _ => [] end.
Definition picked w : list (Z * F) := map_to_list (w_threads w) ≫= fun '(_, th) => in_hand th.

Definition scheduled_by (a : action) : list (Z * F) :=
  match a with ScheduleOutside ft | DoDeed _ (Schedule ft) => work ft | _ => [] end.

(** The callbacks a step starts, with the thread that runs them. *)
Definition started_by (a : action) w : list (Z * (Z * F)) :=
  match a with
  | DoDispatch t _ => match w_threads w !! t with Some th => pair t <$> in_hand th | None => [] end
  | _ => []
  end.

Fixpoint started_in (l : list action) w : list (Z * (Z * F)) :=
  match l with
  | [] => []
  | a :: l => started_by a w ++ match step a w with Next w' => started_in l w' | _ => [] end
  end.

Lemma picked_insert w t th th' : w_threads w !! t = Some th ->
  exists r, picked w ≡ₚ in_hand th ++ r /\ (map_to_list (<[t := th']> (w_threads w)) ≫= fun '(_, th) => in_hand th) ≡ₚ in_hand th' ++ r.
Proof.
  intros H. exists (map_to_list (delete t (w_threads w)) ≫= fun '(_, th) => in_hand th). unfold picked. split.
  - rewrite <- (insert_delete_id (w_threads w) t th H) at 1. rewrite map_to_list_insert by apply lookup_delete_eq. done.
  - rewrite <- insert_delete_eq. rewrite map_to_list_insert by apply lookup_delete_eq. done.
Qed.

(** Where a piece of work may be, before and after a step of thread [t]. *)
Lemma moved_work w w' t th th' : w_threads w !! t = Some th -> w_threads w' = <[t := th']> (w_threads w) ->
  queued w ++ in_hand th ≡ₚ queued w' ++ in_hand th' -> picked w ++ queued w ≡ₚ picked w' ++ queued w'.
Proof.
  intros Ht E Hq. destruct (picked_insert w t th th' Ht) as (r & H1 & H2). unfold picked at 2. rewrite E, H1, H2.
  rewrite (Permutation_app_comm (in_hand th ++ r)), (Permutation_app_comm (in_hand th' ++ r)), !app_assoc. by rewrite Hq.
Qed.

Lemma pick_takes tid state q : forall r rest b, pick tid state q = Some (r, rest, b) ->
  q ≡ₚ option_list r ++ rest /\ forall it, r = Some it -> eligible tid state it = true.
Proof.
  induction q as [|i q IH]; intros r rest b; cbn [pick]; [by intros [= <- <- <-] |].
  destruct (negb (ft_thread i =? -1) && negb (ft_thread i =? tid)) eqn:Ef.
  { destruct (pick tid state q) as [[[r' rest'] b'] |]; [| done]. cbn [mbind option_bind]. intros [= <- <- <-]. destruct (IH _ _ _ eq_refl) as [E He].
    split; [| done]. rewrite E. apply Permutation_middle. }
  rewrite <- negb_orb in Ef. apply negb_false_iff in Ef.
  assert (forall it, Some i = Some it -> match ft_fiber it with Some f => negb (bool_decide (state f = Execute)) | None => true end = true -> eligible tid state it = true) as He.
  { intros it [= <-] Hs. unfold eligible. by rewrite Ef. }
  destruct (ft_fiber i) as [f |] eqn:Efi.
  - destruct (bool_decide (state f = Execute)) eqn:Es.
    + destruct (pick tid state q) as [[[r' rest'] b'] |]; [| done]. cbn [mbind option_bind]. intros [= <- <- <-]. destruct (IH _ _ _ eq_refl) as [E He'].
      split; [| done]. rewrite E. apply Permutation_middle.
    + intros [= <- <- <-]. split; [done |]. intros it E. apply He; [done |]. injection E as <-. by rewrite Efi, Es.
  - destruct (ft_callback i); [| done]. intros [= <- <- <-]. split; [done |]. intros it E. apply He; [done |]. injection E as <-. by rewrite Efi.
Qed.

Lemma queued_push ft w : queued (push ft w) = queued w ++ work ft.
Proof. unfold queued, push, scheduleLock. cbn. rewrite bind_app. cbn. by rewrite app_nil_r. Qed.

Lemma dispatch_work w t th ft fresh w' : w_threads w !! t = Some th -> th_pc th = Picked ft -> run_dispatch t th ft fresh w = Next w' ->
  exists th', w_threads w' = <[t := th']> (w_threads w) /\ in_hand th' = [] /\ w_fibers w' = w_fibers w.
Proof.
  intros Ht Hpc. unfold run_dispatch.
  assert (forall th0 r f w1, w_threads w1 = w_threads w -> w_fibers w1 = w_fibers w -> enter t th0 r f w1 = Next w' ->
    exists th', w_threads w' = <[t := th']> (w_threads w) /\ in_hand th' = [] /\ w_fibers w' = w_fibers w) as Hent.
  { intros th0 r f w1 E1 E2. unfold enter. destruct (Fiber_swapIn _); [| done]. intros [= <-]. eexists. cbn. by rewrite E1, E2. }
  destruct (ft ≫= ft_fiber) as [f |]; [destruct (finished _); [| by apply Hent] |].
  all: destruct (ft ≫= ft_callback) as [cb |]; [destruct (th_cb_fiber th) as [g |]; [destruct (Fiber_reset _ _); [cbn [or_abort] | done] |]; by apply Hent |].
  all: destruct ft as [ft |]; [intros [= <-]; by eexists |]; case_bool_decide; [intros [= <-]; by eexists | by apply Hent].
Qed.

Lemma step_work a w w' : step a w = Next w' ->
  scheduled_by a ++ picked w ++ queued w ≡ₚ (snd <$> started_by a w) ++ picked w' ++ queued w'.
Proof.
  assert (forall t th th' w', w_threads w !! t = Some th -> w_threads w' = <[t := th']> (w_threads w) -> in_hand th = [] -> in_hand th' = [] ->
    queued w' ≡ₚ queued w -> picked w ++ queued w ≡ₚ picked w' ++ queued w') as Hmove.
  { intros t th th' w1 Ht E H1 H2 Hq. eapply moved_work; [exact Ht | exact E |]. by rewrite H1, H2, Hq. }
  assert (forall t th r f d w', w_threads w !! t = Some th -> th_pc th = InFiber r f -> fiber_deed t th r f d w = Next w' ->
    (match d with Schedule ft => work ft | _ => [] end) ++ picked w ++ queued w ≡ₚ picked w' ++ queued w') as Hdeed.
  { intros t th r f d w1 Ht Hpc. assert (in_hand th = []) as Hh by (unfold in_hand; by rewrite Hpc).
    assert (forall o, Next (put_thread t (at_pc (Leaving r f) th) (put_object f o w)) = Next w1 -> picked w ++ queued w ≡ₚ picked w1 ++ queued w1) as Hl.
    { intros o [= <-]. by eapply Hmove. }
    unfold fiber_deed. destruct d; [intros [= <-] | destruct (Fiber_yieldToReady _); [apply Hl | done] | destruct (Fiber_yieldToHold _); [apply Hl | done] | apply Hl..].
    rewrite queued_push. change (picked (push ft w)) with (picked w). rewrite Permutation_app_comm. by rewrite <- app_assoc. }
  destruct a as [t | t fresh | t d | t | t | t | t | fresh cb | ft |]; cbn [step scheduled_by started_by]; unfold with_thread; try (destruct (w_threads w !! t) as [th |] eqn:Ht; [| done]).
  - destruct (th_pc th) eqn:Hpc; try done. unfold run_pick, or_abort. destruct (pick _ _ _) as [[[r rest] b] |] eqn:Ep; [| done]. intros [= <-]. cbn [app fmap list_fmap].
    destruct (pick_takes _ _ _ _ _ _ Ep) as [Eq _]. assert (in_hand th = []) as Hh by (unfold in_hand; by rewrite Hpc).
    eapply (moved_work _ _ t th (at_pc (Picked r) th) Ht); [by destruct r |]. rewrite Hh, app_nil_r. unfold queued. rewrite Eq. rewrite bind_app.
    destruct r as [it |]; cbn; [rewrite app_nil_r; apply Permutation_app_comm | by rewrite app_nil_r].
  - destruct (th_pc th) as [| ft0 | | | | |] eqn:Hpc; try done. destruct (unused fresh w); [| done]. intros Hd. destruct (dispatch_work w t th ft0 fresh w' Ht Hpc Hd) as (th' & E & Hh & Eq). cbn [app].
    destruct (picked_insert w t th th' Ht) as (r & H1 & H2). unfold picked at 2, queued. rewrite E, Eq, H1, H2, Hh. cbn [app].
    rewrite <- list_fmap_compose. assert ((snd ∘ pair t) <$> in_hand th = in_hand th) as -> by (by apply list_fmap_id). by rewrite <- app_assoc.
  - cbn [fmap list_fmap app]. destruct (th_pc th) as [| | [] f | | | |] eqn:Hpc; try done; intros Hd; specialize (Hdeed t th _ f d w' Ht Hpc Hd); by destruct d.
  - cbn [fmap list_fmap app]. destruct (th_pc th) as [| | [] f | | | |] eqn:Hpc; try done. intros Hd. specialize (Hdeed t th _ f (idle_deed w) w' Ht Hpc Hd). unfold idle_deed in *. by destruct (is_stopping w).
  - cbn [fmap list_fmap app]. destruct (th_pc th) as [| | | r f | | |] eqn:Hpc; try done. intros [= <-]. eapply Hmove; try done. unfold in_hand. by rewrite Hpc.
  - cbn [fmap list_fmap app]. destruct (th_pc th) as [| | | | r f | |] eqn:Hpc; try done. unfold run_account. intros [= <-]. eapply (Hmove t th (at_pc (Accounted r f) th)); try done; [by case_bool_decide | unfold in_hand; by rewrite Hpc | by case_bool_decide].
  - cbn [fmap list_fmap app]. destruct (th_pc th) as [| | | | | r f |] eqn:Hpc; try done. assert (in_hand th = []) as Hh by (unfold in_hand; by rewrite Hpc).
    assert (forall w1 th', w_threads w1 = w_threads w -> queued w1 ≡ₚ queued w -> in_hand th' = [] -> Next (put_thread t th' w1) = Next w' -> picked w ++ queued w ≡ₚ picked w' ++ queued w') as Hl.
    { intros w1 th' E1 E2 Hh' [= <-]. eapply (Hmove t th th'); try done. cbn. by rewrite E1. }
    assert (queued (push (mk_ft (Some f) None (-1)) w) = queued w) as Hp by (rewrite queued_push; apply app_nil_r).
    unfold run_after. destruct r.
    + destruct (bool_decide (state_of w f = Ready)); [apply Hl; by rewrite ?Hp |]. destruct (finished (state_of w f)); by apply Hl.
    + destruct (bool_decide (state_of w f = Ready)); [apply Hl; by rewrite ?Hp |]. destruct (finished (state_of w f)); [| by apply Hl]. destruct (Fiber_reset _ _); [by apply Hl | done].
    + destruct (finished (state_of w f)); by apply Hl.
  - destruct (unused fresh w); [| done]. by intros [= <-].
  - cbn [fmap list_fmap app]. intros [= <-]. rewrite queued_push. change (picked (push ft w)) with (picked w). rewrite Permutation_app_comm. by rewrite <- app_assoc.
  - intros [= <-]. done.
Qed.

(** A thread only takes what it may run. *)
Definition pins_ok w : Prop := map_Forall (fun t th => forall ft, th_pc th = Picked (Some ft) -> ft_thread ft = -1 \/ ft_thread ft = t) (w_threads w).

(** A step changes the place of one thread at most. *)
Lemma step_threads a w w' : step a w = Next w' -> w_threads w' = w_threads w \/
  exists t th th', w_threads w !! t = Some th /\ w_threads w' = <[t := th']> (w_threads w) /\
    (forall ft, th_pc th' = Picked (Some ft) -> eligible t (state_of w) ft = true).
Proof.
  assert (forall t th, w_threads w !! t = Some th -> forall w1 th', w_threads w1 = w_threads w -> (forall ft, th_pc th' = Picked (Some ft) -> eligible t (state_of w) ft = true) ->
    Next (put_thread t th' w1) = Next w' -> w_threads w' = w_threads w \/ exists t th th', w_threads w !! t = Some th /\ w_threads w' = <[t := th']> (w_threads w) /\
    (forall ft, th_pc th' = Picked (Some ft) -> eligible t (state_of w) ft = true)) as Hput.
  { intros t th Ht w1 th' E He [= <-]. right. exists t, th, th'. split; [done |]. cbn. by rewrite E. }
  assert (forall t th r f d, w_threads w !! t = Some th -> fiber_deed t th r f d w = Next w' -> w_threads w' = w_threads w \/ exists t th th', w_threads w !! t = Some th /\
    w_threads w' = <[t := th']> (w_threads w) /\ (forall ft, th_pc th' = Picked (Some ft) -> eligible t (state_of w) ft = true)) as Hdeed.
  { intros t th r f d Ht. unfold fiber_deed. destruct d; [intros [= <-]; by left | destruct (Fiber_yieldToReady _); [| done] | destruct (Fiber_yieldToHold _); [| done] | |]; by apply (Hput t th). }
  destruct a as [t | t fresh | t d | t | t | t | t | fresh cb | ft |]; cbn [step]; unfold with_thread; try (destruct (w_threads w !! t) as [th |] eqn:Ht; [| done]).
  - destruct (th_pc th) eqn:Hpc; try done. unfold run_pick, or_abort. destruct (pick _ _ _) as [[[r rest] b] |] eqn:Ep; [| done]. apply (Hput t th Ht); [by destruct r |].
    intros ft [= ->]. by eapply pick_takes.
  - destruct (th_pc th) as [| ft0 | | | | |] eqn:Hpc; try done. destruct (unused fresh w); [| done]. intros Hd. destruct (dispatch_work w t th ft0 fresh w' Ht Hpc Hd) as (th' & E & Hh & _). right. exists t, th, th'. split; [done |]. split; [done |].
    intros ft Hft. exfalso. revert Hd. unfold run_dispatch. assert (forall th0 r f w1, w_threads w1 = w_threads w -> enter t th0 r f w1 = Next w' -> False) as Hent.
    { intros th0 r f w1 E1. unfold enter. destruct (Fiber_swapIn _); [| done]. intros [= <-]. cbn in E. rewrite E1 in E. apply (f_equal (lookup t)) in E. rewrite !lookup_insert_eq in E. injection E as <-. done. }
    assert (forall p, th_pc (at_pc p th) <> Picked (Some ft) -> forall w1, w_threads w1 = w_threads w -> Next (put_thread t (at_pc p th) w1) = Next w' -> False) as Hmv.
    { intros p Hp w1 E1 [= <-]. cbn in E. rewrite E1 in E. apply (f_equal (lookup t)) in E. rewrite !lookup_insert_eq in E. injection E as <-. done. }
    destruct (ft0 ≫= ft_fiber) as [f |]; [destruct (finished _); [| by apply Hent] |].
    all: destruct (ft0 ≫= ft_callback) as [cb |]; [destruct (th_cb_fiber th) as [g |]; [destruct (Fiber_reset _ _); [cbn [or_abort] | done] |]; by apply Hent |].
    all: destruct ft0 as [ft0 |]; [by apply Hmv |]; case_bool_decide; [by apply Hmv | by apply Hent].
  - destruct (th_pc th) as [| | [] f | | | |] eqn:Hpc; try done; by apply (Hdeed t th).
  - destruct (th_pc th) as [| | [] f | | | |] eqn:Hpc; try done; by apply (Hdeed t th).
  - destruct (th_pc th) as [| | | r f | | |] eqn:Hpc; try done. by apply (Hput t th).
  - destruct (th_pc th) as [| | | | r f | |] eqn:Hpc; try done. unfold run_account. apply (Hput t th Ht); [by case_bool_decide | done].
  - destruct (th_pc th) as [| | | | | r f |] eqn:Hpc; try done. unfold run_after. destruct r.
    + apply (Hput t th Ht); [by destruct (bool_decide (state_of w f = Ready)), (finished (state_of w f)) | done].
    + destruct (bool_decide (state_of w f = Ready)); [by apply (Hput t th Ht) |]. destruct (finished (state_of w f)); [| by apply (Hput t th Ht)]. destruct (Fiber_reset _ _); [by apply (Hput t th Ht) | done].
    + apply (Hput t th Ht); [by destruct (finished (state_of w f)) | done].
  - destruct (unused fresh w); [| done]. intros [= <-]. by left.
  - intros [= <-]. by left.
  - intros [= <-]. by left.
Qed.

Lemma step_pins a w w' : pins_ok w -> step a w = Next w' -> pins_ok w'.
Proof.
  intros H Hs. destruct (step_threads a w w' Hs) as [E | (t & th & th' & Ht & E & He)]; unfold pins_ok; rewrite E; [done |].
  apply map_Forall_insert_2; [| done]. intros ft Hft. specialize (He ft Hft). unfold eligible in He. apply andb_true_iff in He as [He _]. apply orb_true_iff in He. lia.
Qed.

Lemma started_by_pins a w : pins_ok w -> Forall (fun '(t, (pin, _)) => pin = -1 \/ pin = t) (started_by a w).
Proof.
  intros H. destruct a as [| t fresh | | | | | | | |]; try constructor. cbn. destruct (w_threads w !! t) as [th |] eqn:Ht; [| constructor].
  unfold in_hand. destruct (th_pc th) as [| [ft |] | | | | |] eqn:Hpc; try constructor. unfold work. destruct (ft_fiber ft); [constructor |]. destruct (ft_callback ft); [| constructor].
  constructor; [| constructor]. by apply (H t th Ht).
Qed.

Lemma perm_across {A} (a s p t q : list A) : a ++ p ≡ₚ t ++ q -> (a ++ s) ++ p ≡ₚ t ++ s ++ q.
Proof. intros H. rewrite (Permutation_app_comm a s), <- app_assoc, H, !app_assoc. by rewrite (Permutation_app_comm s t). Qed.

Lemma steps_work l : forall w w', pins_ok w -> steps l w = Next w' ->
  (l ≫= scheduled_by) ++ picked w ++ queued w ≡ₚ (snd <$> started_in l w) ++ picked w' ++ queued w' /\
  Forall (fun '(t, (pin, _)) => pin = -1 \/ pin = t) (started_in l w).
Proof.
  induction l as [|a l IH]; intros w w' Hp; [intros [= <-]; done |]. cbn [steps started_in mbind list_bind]. destruct (step a w) as [w1 | |] eqn:E; try done. intros Hl.
  destruct (IH w1 w' (step_pins a w w1 Hp E) Hl) as [H1 H2]. split; [| apply Forall_app; split; [by apply started_by_pins | done]].
  rewrite fmap_app, <- (app_assoc (snd <$> _)), <- H1. by apply perm_across, step_work.
Qed.

Lemma started_pins n : pins_ok (started n).
Proof. intros t th H ft. apply started_lookup in H as [_ ->]. done. Qed.

Lemma started_work n : picked (started n) ++ queued (started n) = [].
Proof.
  assert (Forall (fun _ => False) (picked (started n))) as H.
  { apply Forall_bind, Forall_forall. intros [t th] Ht%elem_of_map_to_list. apply started_lookup in Ht as [_ ->]. constructor. }
  unfold queued. cbn. rewrite app_nil_r. destruct (picked (started n)); [done | by inversion H].
Qed.

(** A callback that is started runs in the thread's own fiber, in state
    [Execute], and nothing else does. *)
Lemma dispatch_runs w t th ft cb fresh w' : ft_fiber ft = None -> ft_callback ft = Some cb -> run_dispatch t th (Some ft) fresh w = Next w' ->
  exists f, w_threads w' !! t = Some (mk_thread (InFiber Cb f) (Some f) (th_idle_fiber th)) /\ w_objects w' !! f = Some (mk_Fiber Execute (Some cb) true).
Proof.
  intros Ef Ec. unfold run_dispatch. cbn [mbind option_bind]. rewrite Ef, Ec. unfold enter. destruct (th_cb_fiber th) as [f |] eqn:Ecb.
  - unfold Fiber_reset. destruct (_ && _); [| done]. cbn [or_abort]. unfold object, put_object. cbn. rewrite lookup_insert_eq. cbn. intros [= <-]. exists f. cbn. rewrite !lookup_insert_eq. unfold at_pc. by rewrite Ecb.
  - unfold object, put_object. cbn. rewrite lookup_insert_eq. cbn. intros [= <-]. exists fresh. cbn. by rewrite !lookup_insert_eq.
Qed.

Lemma step_runs a w w' t pin cb : step a w = Next w' -> (t, (pin, cb)) ∈ started_by a w ->
  exists f idle, w_threads w' !! t = Some (mk_thread (InFiber Cb f) (Some f) idle) /\ w_objects w' !! f = Some (mk_Fiber Execute (Some cb) true).
Proof.
  destruct a as [| t' fresh | | | | | | | |]; cbn [started_by]; try (intros _ H; by apply elem_of_nil in H). cbn [step]. unfold with_thread.
  destruct (w_threads w !! t') as [th |]; [| done]. unfold in_hand. destruct (th_pc th) as [| [ft |] | | | | |]; try (intros _ H; by apply elem_of_nil in H).
  destruct (unused fresh w); [| done]. unfold work. destruct (ft_fiber ft) eqn:Ef; [intros _ H; by apply elem_of_nil in H |]. destruct (ft_callback ft) as [cb' |] eqn:Ec; [| intros _ H; by apply elem_of_nil in H].
  cbn. intros Hd Hin. apply list_elem_of_singleton in Hin as [= -> -> ->]. destruct (dispatch_runs _ _ _ _ _ _ _ Ef Ec Hd) as (f & H1 & H2). by eauto.
Qed.

(** C18: in every run of the worker threads, the callbacks given to [schedule]
    are, as a multiset, the ones that have been started, the ones a thread has
    taken and the ones still queued: none is lost, none is started twice.  A
    callback meant for a thread is started by that thread only, and starting
    it means that the thread is in its callback fiber, which holds this very
    callback and is in state [Execute]. *)
Theorem callbacks_start_once n l w : steps l (started n) = Next w ->
  (l ≫= scheduled_by) ≡ₚ (snd <$> started_in l (started n)) ++ picked w ++ queued w /\
  Forall (fun '(t, (pin, _)) => pin = -1 \/ pin = t) (started_in l (started n)) /\
  (forall a w' t pin cb, step a w = Next w' -> (t, (pin, cb)) ∈ started_by a w ->
    exists f idle, w_threads w' !! t = Some (mk_thread (InFiber Cb f) (Some f) idle) /\ w_objects w' !! f = Some (mk_Fiber Execute (Some cb) true)).
Proof.
  intros Hl. destruct (steps_work l _ _ (started_pins n) Hl) as [H1 H2]. rewrite started_work, app_nil_r in H1.
  split; [done |]. split; [done |]. intros a w' t pin cb. apply step_runs.
Qed.

End SchedulerFacts.

(** Two threads; one callback for any thread, one for thread 1. *)
Definition two_threads_run : list (action (F := Z)) :=
  [ScheduleOutside (mk_ft None (Some 7) (-1)); ScheduleOutside (mk_ft None (Some 8) 1); DoPick 0; DoDispatch 0 10; DoPick 1; DoDispatch 1 11;
   DoDeed 0 Return; DoSwapOut 0; DoAccount 0].

Lemma scheduler_counters_witness : exists w, steps two_threads_run (started 2) = Next w /\ w_activeThreadCount w = 1 /\ w_activeThreadCount w = count busy (w_threads w) /\ is_stopping w = false.
Proof.
  destruct (steps two_threads_run (started 2)) as [w | |] eqn:E; [| vm_compute in E; discriminate..]. exists w. split; [done |].
  destruct (scheduler_counters 2 two_threads_run w ltac:(lia) E) as (H1 & _ & _). vm_compute in E. injection E as <-. by vm_compute.
Defined.

Lemma callbacks_start_once_witness : exists w, steps two_threads_run (started 2) = Next w /\
  snd <$> started_in two_threads_run (started 2) = [(-1, 7); (1, 8)] /\ (two_threads_run ≫= scheduled_by) ≡ₚ (snd <$> started_in two_threads_run (started 2)) ++ picked w ++ queued w.
Proof.
  destruct (steps two_threads_run (started 2)) as [w | |] eqn:E; [| vm_compute in E; discriminate..]. exists w. split; [done |].
  destruct (callbacks_start_once 2 two_threads_run w E) as (H1 & _ & _). split; [by vm_compute | exact H1].
Defined.
