(* ===== verification/SchedulerSafety.v ===== *)
(** * The scheduler: who runs a fiber

    A fiber belongs to one place at a time: the queue, the hand of a thread,
    or the thread that runs it.  When a fiber is only scheduled while it
    belongs to nobody, no assertion of [Fiber] or [run] fails and no fiber
    runs on two threads; a fiber that is scheduled while it still runs (what
    [switchTo] does) can run on two threads at once. *)

From stdpp Require Import base list list_numbers numbers option gmap fin_maps.
From Stdlib Require Import ZArith Lia.
From S2P Require Import Prelude.
From S2P Require Import Scheduler.
From S2P Require Import SchedulerFacts.

Local Open Scope Z_scope.

Section SchedulerSafety.

Context {F : Type}.
Abbreviation FiberAndThread := (@Scheduler.FiberAndThread F).
Abbreviation world := (@Scheduler.world F).
Abbreviation thread := (@Scheduler.thread F).
Abbreviation pc := (@Scheduler.pc F).
Abbreviation action := (@Scheduler.action F).
Abbreviation outcome := (@Scheduler.outcome F).
Abbreviation objects := (gmap positive (@Scheduler.Fiber F)).
Implicit Types w : world.

(** ** Ownership *)

Definition running (p : pc) : option (role * positive) :=
  match p with InFiber r f | Leaving r f | Back r f | Accounted r f => Some (r, f) | _ => None end.

(** The fiber of a task that a thread has taken or runs. *)
Definition task_fiber (p : pc) : list positive :=
  match p with
  | Picked (Some ft) => option_list (ft_fiber ft)
  | _ => match running p with Some (Task, f) => [f] | _ => [] end
  end.

Definition th_own (th : thread) : list positive := task_fiber (th_pc th) ++ option_list (th_cb_fiber th) ++ [th_idle_fiber th].

Definition q_own (q : list FiberAndThread) : list positive := q ≫= fun ft => option_list (ft_fiber ft).
Definition ths_own (ths : gmap Z thread) : list positive := map_to_list ths ≫= fun '(_, th) => th_own th.
Definition owned w : list positive := q_own (w_fibers w) ++ ths_own (w_threads w).

(** A fiber that can be entered or looked at by [run]. *)
Definition at_rest (objs : objects) (f : positive) : Prop := exists o, objs !! f = Some o /\ f_stack o = true /\ f_state o <> Execute.
Definition in_state (objs : objects) (P : FiberState -> bool) (f : positive) : Prop := exists o, objs !! f = Some o /\ f_stack o = true /\ P (f_state o) = true.

Definition is_Init (st : FiberState) : bool := bool_decide (st = Init).
Definition is_Execute (st : FiberState) : bool := bool_decide (st = Execute).
Definition resting (st : FiberState) : bool := negb (is_Execute st).
(** What a fiber leaves behind: [Ready], [Holding], [Terminate] or [Exception]. *)
Definition left_behind (st : FiberState) : bool := negb (is_Execute st || is_Init st).

(** A fiber in one of these states belongs to somebody. *)
Definition claimed (st : FiberState) : bool := bool_decide (st = Ready) || is_Execute st.

Definition pc_state (p : pc) : FiberState -> bool := match p with InFiber _ _ => is_Execute | Leaving _ _ | Back _ _ | Accounted _ _ => left_behind | _ => resting end.

(** The fiber of role [r] that thread [th] has at hand. *)
Definition role_fiber (th : thread) (r : role) (f : positive) : Prop :=
  match r with Task => True | Cb => th_cb_fiber th = Some f | Idle => th_idle_fiber th = f end.

(** An entry of the queue: there is something to do, and the fiber rests. *)
Definition entry_ok (objs : objects) (ft : FiberAndThread) : Prop := has_work ft /\ forall f, ft_fiber ft = Some f -> in_state objs resting f.

Record thread_ok (objs : objects) (th : thread) : Prop := {
  to_running : forall r f, running (th_pc th) = Some (r, f) -> role_fiber th r f /\ in_state objs (pc_state (th_pc th)) f;
  to_taken : forall ft, th_pc th = Picked (Some ft) -> entry_ok objs ft;
  to_cb : forall f, th_cb_fiber th = Some f -> running (th_pc th) = Some (Cb, f) \/ in_state objs is_Init f;
  to_idle : running (th_pc th) = Some (Idle, th_idle_fiber th) \/ in_state objs resting (th_idle_fiber th);
}.

Record safe w : Prop := {
  sf_once : NoDup (owned w);
  sf_queue : Forall (entry_ok (w_objects w)) (w_fibers w);
  sf_threads : map_Forall (fun _ th => thread_ok (w_objects w) th) (w_threads w);
  sf_stack : map_Forall (fun _ o => f_stack o = true) (w_objects w);
  sf_ready : forall f, in_state (w_objects w) claimed f -> f ∈ owned w;
}.

(** ** Frame *)

Lemma in_state_frame objs objs' P f : objs' !! f = objs !! f -> in_state objs P f -> in_state objs' P f.
Proof. intros E. unfold in_state. by rewrite E. Qed.

Lemma in_state_weaken objs (P Q : FiberState -> bool) f : (forall st, P st = true -> Q st = true) -> in_state objs P f -> in_state objs Q f.
Proof. intros H (o & E & Hs & Hp). exists o. auto. Qed.

Lemma th_own_idle th : th_idle_fiber th ∈ th_own th.
Proof. unfold th_own. rewrite !elem_of_app, list_elem_of_singleton. auto. Qed.

Lemma th_own_cb th f : th_cb_fiber th = Some f -> f ∈ th_own th.
Proof. intros E. unfold th_own. rewrite E, !elem_of_app. cbn. rewrite list_elem_of_singleton. auto. Qed.

Lemma th_own_taken th ft f : th_pc th = Picked (Some ft) -> ft_fiber ft = Some f -> f ∈ th_own th.
Proof. intros E Ef. unfold th_own. rewrite E. cbn. rewrite Ef. cbn. rewrite elem_of_cons. by left. Qed.

Lemma running_own th r f : running (th_pc th) = Some (r, f) -> role_fiber th r f -> f ∈ th_own th.
Proof.
  intros E Hr. destruct r; cbn in Hr; [| by apply th_own_cb | subst; apply th_own_idle].
  unfold th_own, task_fiber. destruct (th_pc th) as [| | ? ? | ? ? | ? ? | ? ? |]; cbn in E; simplify_eq; cbn; rewrite elem_of_cons; by left.
Qed.

Lemma entry_ok_frame objs objs' ft : (forall f, ft_fiber ft = Some f -> objs' !! f = objs !! f) -> entry_ok objs ft -> entry_ok objs' ft.
Proof. intros E [Hw Hs]. split; [done |]. intros f Hf. eapply in_state_frame; [by apply E | by apply Hs]. Qed.

Lemma thread_ok_frame objs objs' th : (forall f, f ∈ th_own th -> objs' !! f = objs !! f) -> thread_ok objs th -> thread_ok objs' th.
Proof.
  intros E [H1 H2 H3 H4]. constructor.
  - intros r f Hr. destruct (H1 r f Hr) as [Hf Hs]. split; [done |]. eapply in_state_frame; [| exact Hs]. by eapply E, running_own.
  - intros ft Hp. eapply entry_ok_frame; [| by apply H2]. intros f Hf. by eapply E, th_own_taken.
  - intros f Hf. destruct (H3 f Hf); [by left | right]. eapply in_state_frame; [by apply E, th_own_cb | done].
  - destruct H4; [by left | right]. eapply in_state_frame; [by apply E, th_own_idle | done].
Qed.

(** ** A step of one thread *)

Lemma q_own_elem q f : f ∈ q_own q <-> exists ft, ft ∈ q /\ ft_fiber ft = Some f.
Proof.
  unfold q_own. rewrite list_elem_of_bind. split; intros (ft & H1 & H2); exists ft.
  - split; [done |]. destruct (ft_fiber ft); cbn in H1; [apply list_elem_of_singleton in H1 as ->; done | by apply elem_of_nil in H1].
  - rewrite H2. split; [by apply list_elem_of_singleton | done].
Qed.

Lemma ths_own_elem ths f : f ∈ ths_own ths <-> exists t th, ths !! t = Some th /\ f ∈ th_own th.
Proof.
  unfold ths_own. rewrite list_elem_of_bind. split.
  - intros ([t th] & H1 & H2%elem_of_map_to_list). eauto.
  - intros (t & th & H1 & H2). exists (t, th). split; [done |]. by apply elem_of_map_to_list.
Qed.

Lemma ths_own_insert ths t th th' : ths !! t = Some th ->
  ths_own ths ≡ₚ th_own th ++ ths_own (delete t ths) /\ ths_own (<[t := th']> ths) ≡ₚ th_own th' ++ ths_own (delete t ths).
Proof.
  intros H. unfold ths_own. split.
  - rewrite <- (insert_delete_id ths t th H) at 1. rewrite map_to_list_insert by apply lookup_delete_eq. done.
  - rewrite <- insert_delete_eq. rewrite map_to_list_insert by apply lookup_delete_eq. done.
Qed.

Lemma NoDup_sub {A} (l k : list A) : l ⊆+ k -> NoDup k -> NoDup l.
Proof. intros [m ->]%submseteq_Permutation. by intros [? _]%NoDup_app. Qed.

(** Thread [t] may take fibers from the queue, put its own there, let go of
    them, and get [new] ones that are nobody's; it changes its own and the new
    ones only. *)
Lemma thread_step w w' t th th' new : safe w -> w_threads w !! t = Some th -> w_threads w' = <[t := th']> (w_threads w) ->
  NoDup new -> (forall f, f ∈ new -> f ∉ owned w) ->
  q_own (w_fibers w') ++ th_own th' ⊆+ new ++ q_own (w_fibers w) ++ th_own th ->
  (forall f, f ∉ new ++ th_own th -> w_objects w' !! f = w_objects w !! f) ->
  thread_ok (w_objects w') th' -> Forall (entry_ok (w_objects w')) (w_fibers w') -> map_Forall (fun _ o => f_stack o = true) (w_objects w') ->
  (forall f, f ∈ new ++ q_own (w_fibers w) ++ th_own th -> in_state (w_objects w') claimed f -> f ∈ q_own (w_fibers w') ++ th_own th') ->
  safe w'.
Proof.
  intros [S1 S2 S3 S4 S5] Ht E Hn Hnew Hsub Hobj Hth Hq Hst Hr. destruct (ths_own_insert (w_threads w) t th th' Ht) as [P1 P2]. set (rest := ths_own (delete t (w_threads w))) in *.
  assert (owned w ≡ₚ (q_own (w_fibers w) ++ th_own th) ++ rest) as O1 by (unfold owned; by rewrite P1, app_assoc).
  assert (owned w' ≡ₚ (q_own (w_fibers w') ++ th_own th') ++ rest) as O2 by (unfold owned; by rewrite E, P2, app_assoc).
  assert (NoDup ((new ++ q_own (w_fibers w) ++ th_own th) ++ rest)) as Hnd.
  { rewrite <- app_assoc, <- O1. apply NoDup_app. done. }
  constructor; [| done | | done |].
  - rewrite O2. eapply NoDup_sub; [| exact Hnd]. by apply submseteq_app.
  - rewrite E, <- insert_delete_eq. apply map_Forall_insert_2; [done |]. intros t' th0 Ht'. apply thread_ok_frame with (objs := w_objects w).
    + intros f Hf. apply Hobj. intros Hin. apply NoDup_app in Hnd as (_ & Hnd & _). apply (Hnd f).
      * rewrite !elem_of_app in *. tauto.
      * apply ths_own_elem. eauto.
    + apply (S3 t'). by apply lookup_delete_Some in Ht' as [_ ?].
  - intros f Hf. rewrite O2, elem_of_app. destruct (decide (f ∈ new ++ q_own (w_fibers w) ++ th_own th)) as [Hin | Hin]; [left; by apply Hr |]. right.
    assert (f ∈ owned w) as Ho. { apply S5. eapply in_state_frame; [| exact Hf]. symmetry. apply Hobj. rewrite !elem_of_app in *. tauto. }
    rewrite O1 in Ho. rewrite !elem_of_app in *. tauto.
Qed.

(** ** What holds of every state and step *)

Lemma in_state_object w P f : in_state (w_objects w) P f <-> exists o, w_objects w !! f = Some o /\ object w f = o /\ f_stack o = true /\ P (f_state o) = true.
Proof. unfold in_state, object. split; intros (o & E & H); exists o; [rewrite E; auto | tauto]. Qed.

Lemma thread_own_state objs th f : thread_ok objs th -> f ∈ th_own th -> exists o, objs !! f = Some o /\ f_stack o = true.
Proof.
  intros [H1 H2 H3 H4]. unfold th_own. rewrite !elem_of_app, list_elem_of_singleton.
  assert (forall P, in_state objs P f -> exists o, objs !! f = Some o /\ f_stack o = true) as Hs by (intros P (o & ? & ? & _); eauto).
  intros [H | [H | ->]].
  - unfold task_fiber in H. destruct (th_pc th) as [| [ft |] | [] g | [] g | [] g | [] g |] eqn:Hp; try (by apply elem_of_nil in H).
    { destruct (ft_fiber ft) eqn:Ef; [| by apply elem_of_nil in H]. apply list_elem_of_singleton in H as ->. eapply Hs. by eapply H2. }
    all: apply list_elem_of_singleton in H as ->; eapply Hs; by apply (H1 Task g).
  - destruct (th_cb_fiber th) as [g |] eqn:E; [| by apply elem_of_nil in H]. apply list_elem_of_singleton in H as ->. destruct (H3 g eq_refl) as [Hr | Hi]; [| by eapply Hs].
    eapply Hs. by eapply H1.
  - destruct H4 as [Hr | Hi]; [| by eapply Hs]. eapply Hs. by eapply H1.
Qed.

Lemma owned_object w f : safe w -> f ∈ owned w -> exists o, w_objects w !! f = Some o /\ f_stack o = true.
Proof.
  intros H. unfold owned. rewrite elem_of_app. intros [(ft & Hin & Ef)%q_own_elem | (t & th & Ht & Hin)%ths_own_elem].
  - pose proof (sf_queue _ H) as Hq. rewrite Forall_forall in Hq. destruct (Hq ft Hin) as [_ Hs]. destruct (Hs f Ef) as (o & ? & ? & _). eauto.
  - eapply thread_own_state; [by apply (sf_threads _ H t) | done].
Qed.

Lemma safe_disjoint w t th f : safe w -> w_threads w !! t = Some th -> f ∈ th_own th -> f ∉ q_own (w_fibers w).
Proof.
  intros H Ht Hf Hq. pose proof (sf_once _ H) as Hn. apply NoDup_app in Hn as (_ & Hn & _). apply (Hn f Hq). apply ths_own_elem. eauto.
Qed.

Lemma th_own_NoDup w t th : safe w -> w_threads w !! t = Some th -> NoDup (th_own th).
Proof.
  intros H Ht. pose proof (sf_once _ H) as Hn. apply NoDup_app in Hn as (_ & _ & Hn). destruct (ths_own_insert (w_threads w) t th th Ht) as [P _].
  rewrite P in Hn. by apply NoDup_app in Hn as (? & _ & _).
Qed.

(** The fiber that runs is not the thread's fiber of another role. *)
Lemma own_distinct th r f : NoDup (th_own th) -> running (th_pc th) = Some (r, f) -> role_fiber th r f ->
  (r <> Cb -> th_cb_fiber th <> Some f) /\ (r <> Idle -> th_idle_fiber th <> f).
Proof.
  unfold th_own. intros [Hn1 [Hn2 Hn3]]%NoDup_app Hr Hrole. apply NoDup_app in Hn3 as (_ & Hn3 & _).
  assert (forall g, th_cb_fiber th = Some g -> g ∈ option_list (th_cb_fiber th)) as Hc by (intros g ->; by apply list_elem_of_singleton).
  assert (r = Task -> f ∈ task_fiber (th_pc th)) as Ht.
  { intros ->. unfold task_fiber. destruct (th_pc th); cbn in Hr; simplify_eq; cbn; by apply list_elem_of_singleton. }
  destruct r; cbn in Hrole; split; intros Hne; try done.
  - intros E. apply (Hn2 f); [by apply Ht |]. apply elem_of_app. left. by apply Hc.
  - intros E. apply (Hn2 f); [by apply Ht |]. apply elem_of_app. right. by apply list_elem_of_singleton.
  - intros E. apply (Hn3 f); [by apply Hc | by apply list_elem_of_singleton].
  - subst f. intros E. apply (Hn3 (th_idle_fiber th)); [by apply Hc | by apply list_elem_of_singleton].
Qed.

(** No assertion fails, and the next state is safe again. *)
Definition good (o : outcome) : Prop := match o with Next w' => safe w' | Disabled => True | Abort => False end.

Lemma new_not_owned w f : safe w -> unused f w = true -> f ∉ owned w.
Proof. intros H Hu Hf. destruct (owned_object w f H Hf) as (o & E & _). unfold unused in Hu. by rewrite E in Hu. Qed.

(** *** Entering a fiber *)

Lemma enter_good w w1 t th ft th1 r f o new : safe w -> w_threads w !! t = Some th -> th_pc th = Picked ft ->
  w_threads w1 = w_threads w -> w_fibers w1 = w_fibers w -> (forall g, g <> f -> w_objects w1 !! g = w_objects w !! g) ->
  w_objects w1 !! f = Some o -> f_stack o = true -> f_state o <> Execute ->
  NoDup new -> (forall g, g ∈ new -> g = f /\ g ∉ owned w) -> f ∈ new ++ th_own th ->
  let th' := at_pc (InFiber r f) th1 in
  th_own th' ⊆+ new ++ th_own th -> role_fiber th1 r f -> th_idle_fiber th1 = th_idle_fiber th ->
  (r = Cb \/ th_cb_fiber th1 = th_cb_fiber th) ->
  (forall g, g ∈ th_own th -> g ∈ th_own th' \/ ~ in_state (w_objects w) claimed g) ->
  good (enter t th1 r f w1).
Proof.
  intros H Ht Hpc E1 E2 E3 Eo Hst Hex Hn Hnew Hf th' Hsub Hrole Hidle Hcb Hdrop. unfold enter, Fiber_swapIn. unfold object. rewrite Eo. change (default main_Fiber (Some o)) with o. rewrite bool_decide_false by done. cbn [or_abort good].
  assert (f ∉ q_own (w_fibers w)) as Hfq.
  { apply elem_of_app in Hf as [Hf | Hf]; [| by eapply safe_disjoint]. destruct (Hnew f Hf) as [_ Hno]. unfold owned in Hno. rewrite elem_of_app in Hno. tauto. }
  pose proof (sf_threads _ H t th Ht) as [T1 T2 T3 T4]. rewrite Hpc in T3, T4. cbn in T3, T4.
  assert (NoDup (th_own th')) as Hnd.
  { eapply NoDup_sub; [exact Hsub |]. apply NoDup_app. split; [done |]. split; [| by eapply th_own_NoDup]. intros g Hg Hg'. destruct (Hnew g Hg) as [_ Hno]. apply Hno.
    unfold owned. rewrite elem_of_app. right. apply ths_own_elem. eauto. }
  assert (forall P g, g <> f -> in_state (w_objects w) P g -> in_state (<[f := set_state Execute o]> (w_objects w1)) P g) as Hfr.
  { intros P g Hg. apply in_state_frame. by rewrite lookup_insert_ne, E3 by done. }
  destruct (own_distinct th' r f Hnd eq_refl Hrole) as [Hd1 Hd2]. cbn in Hd1, Hd2.
  eapply (thread_step w _ t th th' new H Ht); cbn [put_thread put_object w_threads w_fibers w_objects]; [by rewrite E1 | done | by apply Hnew | | | | | |].
  - rewrite E2, (Permutation_app_comm (q_own _)), (Permutation_app_comm (q_own (w_fibers w))), app_assoc. by apply submseteq_skips_r.
  - intros g Hg. rewrite lookup_insert_ne by (intros ->; done). apply E3. by intros ->.
  - constructor; cbn.
    + intros r' f' [= <- <-]. split; [done |]. exists (set_state Execute o). by rewrite lookup_insert_eq.
    + done.
    + intros g Hg. destruct (decide (r = Cb)) as [-> | Hr]; [left; cbn in Hrole; congruence |]. destruct Hcb as [-> | Hcb]; [done |]. right.
      destruct (T3 g) as [? | Hi]; [congruence | done |]. apply Hfr; [| done]. intros ->. by apply Hd1.
    + destruct (decide (r = Idle)) as [-> | Hr]; [left; cbn in Hrole; congruence |]. right. rewrite Hidle. destruct T4 as [? | Hi]; [done |]. apply Hfr; [| done].
      intros E. apply Hd2; [done | congruence].
  - rewrite E2. apply Forall_forall. intros fte Hin. pose proof (sf_queue _ H) as Hq. rewrite Forall_forall in Hq. eapply entry_ok_frame; [| by apply Hq].
    intros g Hg. assert (g <> f) by (intros ->; apply Hfq, q_own_elem; eauto). by rewrite lookup_insert_ne, E3.
  - intros g og. destruct (decide (g = f)) as [-> | Hg]; [rewrite lookup_insert_eq; by intros [= <-] |]. rewrite lookup_insert_ne, E3 by done. apply (sf_stack _ H).
  - intros g Hg Hc. rewrite E2. rewrite !elem_of_app in Hg. rewrite elem_of_app. destruct Hg as [Hg | [Hg | Hg]]; [| by left |]; right.
    + destruct (Hnew g Hg) as [-> _]. by apply (running_own th' r f).
    + destruct (Hdrop g Hg) as [? | Hno]; [done |]. destruct (decide (g = f)) as [-> | Hgf]; [by apply (running_own th' r f) |]. exfalso. apply Hno.
      eapply in_state_frame; [| exact Hc]. by rewrite lookup_insert_ne, E3.
Qed.

(** *** Other steps of a thread *)

Lemma move_good w w' t th th' : safe w -> w_threads w !! t = Some th -> w_threads w' = <[t := th']> (w_threads w) -> w_fibers w' = w_fibers w ->
  th_own th' ⊆+ th_own th -> (forall f, f ∉ th_own th -> w_objects w' !! f = w_objects w !! f) -> thread_ok (w_objects w') th' ->
  map_Forall (fun _ o => f_stack o = true) (w_objects w') ->
  (forall f, f ∈ th_own th -> in_state (w_objects w') claimed f -> f ∈ th_own th') -> safe w'.
Proof.
  intros H Ht E Eq Hsub Hobj Hth Hst Hc. apply (thread_step w w' t th th' []); try done.
  - constructor.
  - intros f Hf. by apply elem_of_nil in Hf.
  - rewrite Eq. cbn. by apply submseteq_skips_l.
  - rewrite Eq. apply Forall_forall. intros ft Hin. pose proof (sf_queue _ H) as Hq. rewrite Forall_forall in Hq. eapply entry_ok_frame; [| by apply Hq].
    intros f Hf. apply Hobj. intros Hf'. eapply safe_disjoint; [done | done | exact Hf' |]. apply q_own_elem. eauto.
  - intros f. cbn. rewrite Eq, !elem_of_app. intros [Hf | Hf] Hs; [by left | right; by apply Hc].
Qed.

Lemma not_claimed_finished w f : finished (state_of w f) = true -> ~ in_state (w_objects w) claimed f.
Proof.
  intros Hf (o & E & _ & Hc). unfold state_of, object in Hf. rewrite E in Hf. cbn in Hf. unfold finished, claimed, is_Execute in *.
  destruct (f_state o); by vm_compute in Hf, Hc.
Qed.

Lemma idle_good w t th ft : safe w -> w_threads w !! t = Some th -> th_pc th = Picked ft -> (forall f, (ft ≫= ft_fiber) = Some f -> finished (state_of w f) = true) ->
  good (match ft with
        | Some _ => Next (put_thread t (at_pc Top th) (add_active (-1) w))
        | None => if bool_decide (state_of w (th_idle_fiber th) = Terminate) then Next (put_thread t (at_pc Stopped th) w)
                  else enter t th Idle (th_idle_fiber th) (add_idle 1 w)
        end).
Proof.
  intros H Ht Hpc Hfin. pose proof (sf_threads _ H t th Ht) as [T1 T2 T3 T4]. rewrite Hpc in T3, T4. cbn in T3, T4. assert (in_state (w_objects w) resting (th_idle_fiber th)) as Hi by (by destruct T4).
  assert (forall p w1, running p = None -> task_fiber p = [] -> (forall ft', p <> Picked ft') -> w_threads w1 = w_threads w -> w_fibers w1 = w_fibers w -> w_objects w1 = w_objects w -> safe (put_thread t (at_pc p th) w1)) as Hm.
  { intros p w1 Hr Htf Hnp E1 E2 E3. apply (move_good w _ t th (at_pc p th)); cbn [put_thread w_threads w_fibers w_objects]; rewrite ?E1, ?E3; try done.
    - unfold th_own. cbn. rewrite Htf. cbn. by apply submseteq_inserts_l.
    - constructor; cbn; rewrite ?Hr; [done | intros fte Hp; by apply Hnp in Hp | | by right]. intros f Hf. right. by destruct (T3 f Hf).
    - apply H.
    - intros f. unfold th_own. cbn. rewrite Htf, Hpc, elem_of_app. intros [Hf | Hf]; [| done]. intros Hc. exfalso. revert Hc. destruct ft as [ft |]; cbn in Hf; [| by apply elem_of_nil in Hf].
      destruct (ft_fiber ft) as [g |] eqn:Ef; [| by apply elem_of_nil in Hf]. apply list_elem_of_singleton in Hf as ->. apply not_claimed_finished, Hfin. by cbn. }
  destruct ft as [ft |]; [by apply Hm |]. case_bool_decide; [by apply Hm |]. destruct Hi as (o & Eo & Hst & Hrest).
  eapply (enter_good w _ t th None th Idle _ o [] H Ht Hpc); cbn; try done.
  - unfold resting in Hrest. apply negb_true_iff, bool_decide_eq_false in Hrest. done.
  - constructor.
  - intros g Hg. by apply elem_of_nil in Hg.
  - apply th_own_idle.
  - unfold th_own. by rewrite Hpc.
  - by right.
  - intros g Hg. left. unfold th_own in *. by rewrite Hpc in Hg.
Qed.

Lemma resting_not_Execute st : resting st = true -> st <> Execute.
Proof. intros H ->. by vm_compute in H. Qed.

Lemma dispatch_good w t th ft fresh : safe w -> w_threads w !! t = Some th -> th_pc th = Picked ft -> unused fresh w = true -> good (run_dispatch t th ft fresh w).
Proof.
  intros H Ht Hpc Hu. pose proof (sf_threads _ H t th Ht) as [T1 T2 T3 T4]. unfold run_dispatch.
  assert ((forall f, (ft ≫= ft_fiber) = Some f -> finished (state_of w f) = true) -> good
    (match ft ≫= ft_callback with
     | Some cb =>
       match th_cb_fiber th with
       | Some f => or_abort (Fiber_reset (Some cb) (object w f)) (fun o => enter t th Cb f (put_object f o w))
       | None => enter t (mk_thread (th_pc th) (Some fresh) (th_idle_fiber th)) Cb fresh (put_object fresh (new_Fiber (Some cb)) w)
       end
     | None => match ft with
               | Some _ => Next (put_thread t (at_pc Top th) (add_active (-1) w))
               | None => if bool_decide (state_of w (th_idle_fiber th) = Terminate) then Next (put_thread t (at_pc Stopped th) w)
                         else enter t th Idle (th_idle_fiber th) (add_idle 1 w)
               end
     end)) as Hcall.
  { intros Hfin. destruct (ft ≫= ft_callback) as [cb |]; [| by apply idle_good].
    assert (forall g, g ∈ task_fiber (th_pc th) -> ~ in_state (w_objects w) claimed g) as Hdrop.
    { intros g Hg. rewrite Hpc in Hg. destruct ft as [ft |]; [| by apply elem_of_nil in Hg]. cbn in Hg. destruct (ft_fiber ft) eqn:Ef; [| by apply elem_of_nil in Hg].
      apply list_elem_of_singleton in Hg as ->. by apply not_claimed_finished, Hfin. }
    destruct (th_cb_fiber th) as [f |] eqn:Ecb.
    - destruct (T3 f eq_refl) as [Hr | (o & Eo & Hst & Hi)]; [by rewrite Hpc in Hr |]. unfold object. rewrite Eo. change (default main_Fiber (Some o)) with o. unfold Fiber_reset. rewrite Hst.
      unfold is_Init in Hi. rewrite Hi, orb_true_r. cbn [andb or_abort].
      eapply (enter_good w _ t th ft th Cb f (mk_Fiber Init (Some cb) true) [] H Ht Hpc); cbn; try done.
      + intros g Hg. by rewrite lookup_insert_ne.
      + by rewrite lookup_insert_eq.
      + constructor.
      + intros g Hg. by apply elem_of_nil in Hg.
      + by apply th_own_cb.
      + unfold th_own. cbn. by apply submseteq_inserts_l.
      + by left.
      + intros g. unfold th_own. cbn. rewrite elem_of_app. intros [Hg | Hg]; [right; by apply Hdrop | by left].
    - eapply (enter_good w _ t th ft _ Cb fresh (new_Fiber (Some cb)) [fresh] H Ht Hpc); cbn; try done.
      + intros g Hg. by rewrite lookup_insert_ne.
      + by rewrite lookup_insert_eq.
      + apply NoDup_singleton.
      + intros g ->%list_elem_of_singleton. split; [done |]. by apply new_not_owned.
      + rewrite elem_of_cons. by left.
      + unfold th_own. cbn. rewrite Ecb. cbn. apply submseteq_skip. by apply submseteq_inserts_l.
      + by left.
      + intros g. unfold th_own. cbn. rewrite Ecb, elem_of_app. cbn. intros [Hg | Hg]; [right; by apply Hdrop | left]. rewrite elem_of_cons. by right. }
  destruct ft as [ft |]; cbn [mbind option_bind] in *; [| by apply Hcall]. destruct (ft_fiber ft) as [f |] eqn:Ef; [| by apply Hcall].
  destruct (finished (state_of w f)) eqn:Efin; [apply Hcall; by intros ? [= <-] |]. destruct (T2 ft Hpc) as [_ Hs]. destruct (Hs f Ef) as (o & Eo & Hst & Hrest).
  eapply (enter_good w w t th _ th Task f o [] H Ht Hpc); cbn; try done.
  - by apply resting_not_Execute.
  - constructor.
  - intros g Hg. by apply elem_of_nil in Hg.
  - by eapply th_own_taken.
  - unfold th_own. rewrite Hpc. cbn. by rewrite Ef.
  - by right.
  - intros g Hg. left. unfold th_own in *. rewrite Hpc in Hg. cbn in *. by rewrite Ef in Hg.
Qed.

(** The fiber that runs leaves its code in state [st]. *)
Lemma leave_good w t th r f o : safe w -> w_threads w !! t = Some th -> th_pc th = InFiber r f -> f_stack o = true -> left_behind (f_state o) = true ->
  safe (put_thread t (at_pc (Leaving r f) th) (put_object f o w)).
Proof.
  intros H Ht Hpc Hst Hl. pose proof (sf_threads _ H t th Ht) as [T1 T2 T3 T4]. rewrite Hpc in T1, T3, T4. destruct (T1 r f eq_refl) as [Hrole Hs].
  assert (f ∈ th_own th) as Hf by (eapply running_own; [by rewrite Hpc | done]).
  assert (th_own (at_pc (Leaving r f) th) = th_own th) as Eown by (unfold th_own; cbn; by rewrite Hpc).
  destruct (own_distinct th r f (th_own_NoDup w t th H Ht)) as [Hd1 Hd2]; [by rewrite Hpc | done |].
  apply (move_good w _ t th (at_pc (Leaving r f) th)); try done.
  - by rewrite Eown.
  - intros g Hg. cbn. by rewrite lookup_insert_ne by (intros ->; done).
  - constructor; cbn.
    + intros r' f' [= <- <-]. split; [done |]. exists o. by rewrite lookup_insert_eq.
    + done.
    + intros g Hg. destruct (decide (r = Cb)) as [-> | Hr]; [left; cbn in Hrole; congruence |]. destruct (T3 g Hg) as [Hc | Hi]; [cbn in Hc; congruence |].
      right. eapply in_state_frame; [| exact Hi]. rewrite lookup_insert_ne; [done |]. intros ->. by apply Hd1.
    + destruct (decide (r = Idle)) as [-> | Hr]; [left; cbn in Hrole; congruence |]. destruct T4 as [Hc | Hi]; [cbn in Hc; congruence |].
      right. eapply in_state_frame; [| exact Hi]. rewrite lookup_insert_ne; [done |]. intros E. by apply Hd2.
  - cbn. apply map_Forall_insert_2; [done | apply H].
  - intros g Hg _. by rewrite Eown.
Qed.

(** On the way out a thread moves its place only. *)
Lemma pass_good w w1 t th r f p : safe w -> w_threads w !! t = Some th -> running (th_pc th) = Some (r, f) -> running p = Some (r, f) -> pc_state p = pc_state (th_pc th) ->
  w_threads w1 = w_threads w -> w_fibers w1 = w_fibers w -> w_objects w1 = w_objects w -> safe (put_thread t (at_pc p th) w1).
Proof.
  intros H Ht Hr Hp Hps E1 E2 E3. pose proof (sf_threads _ H t th Ht) as [T1 T2 T3 T4].
  assert (task_fiber p = task_fiber (th_pc th)) as Etf.
  { unfold task_fiber. destruct p as [| ? | ? ? | ? ? | ? ? | ? ? |], (th_pc th) as [| ? | ? ? | ? ? | ? ? | ? ? |]; cbn in Hp, Hr; by simplify_eq. }
  assert (th_own (at_pc p th) = th_own th) as Eown by (unfold th_own; cbn; by rewrite Etf).
  apply (move_good w _ t th (at_pc p th)); cbn [put_thread w_threads w_fibers w_objects]; rewrite ?E1, ?E3; try done.
  - by rewrite Eown.
  - constructor; cbn; rewrite ?Hp, ?Hps; rewrite ?Hr in *; [done | | done | done]. intros ft ->. by cbn in Hp.
  - apply H.
  - intros g Hg _. by rewrite Eown.
Qed.

(** Back at the top of the loop. *)
Lemma back_ok objs objs' th r f cb : thread_ok objs th -> NoDup (th_own th) -> th_pc th = Accounted r f -> (forall g, g <> f -> objs' !! g = objs !! g) ->
  in_state objs' resting f -> (if decide (r = Cb) then cb = None \/ (cb = Some f /\ in_state objs' is_Init f) else cb = th_cb_fiber th) ->
  thread_ok objs' (mk_thread Top cb (th_idle_fiber th)).
Proof.
  intros [T1 T2 T3 T4] Hn Hpc Hfr Hf Hcb. rewrite Hpc in T1, T3, T4. destruct (T1 r f eq_refl) as [Hrole _]. destruct (own_distinct th r f Hn) as [Hd1 Hd2]; [by rewrite Hpc | done |].
  constructor; cbn; try done.
  - intros g ->. right. destruct (decide (r = Cb)) as [-> | Hr]; [by destruct Hcb as [? | [[= ->] ?]] |]. destruct (T3 g (eq_sym Hcb)) as [Hc | Hi]; [cbn in Hc; congruence |].
    eapply in_state_frame; [| exact Hi]. apply Hfr. intros ->. by apply Hd1.
  - right. destruct (decide (th_idle_fiber th = f)) as [E | Hne]; [by rewrite E |]. destruct T4 as [Hc | Hi]; [cbn in Hc; congruence |]. eapply in_state_frame; [by apply Hfr | done].
Qed.

(** The fiber is put back into the queue by the thread that ran it. *)
Lemma requeue_good w t th r f cb : safe w -> w_threads w !! t = Some th -> th_pc th = Accounted r f -> state_of w f = Ready ->
  th_own th ≡ₚ f :: th_own (mk_thread Top cb (th_idle_fiber th)) -> (if decide (r = Cb) then cb = None else cb = th_cb_fiber th) ->
  safe (put_thread t (mk_thread Top cb (th_idle_fiber th)) (push (mk_ft (Some f) None (-1)) w)).
Proof.
  intros H Ht Hpc Hst Hown Hcb. pose proof (sf_threads _ H t th Ht) as Hth. destruct (to_running _ _ Hth r f) as [Hrole (o & Eo & Hs & Hl)]; [by rewrite Hpc |].
  assert (f_state o = Ready) as Er by (unfold state_of, object in Hst; by rewrite Eo in Hst).
  assert (in_state (w_objects w) resting f) as Hrest by (exists o; by rewrite Er).
  set (th' := mk_thread Top cb (th_idle_fiber th)) in *.
  assert (q_own (w_fibers (push (mk_ft (Some f) None (-1)) w)) ++ th_own th' ≡ₚ q_own (w_fibers w) ++ th_own th) as Hp.
  { unfold q_own. cbn. rewrite bind_app. cbn. by rewrite Hown, <- app_assoc. }
  apply (thread_step w _ t th th' []); try done; cbn [put_thread w_fibers w_objects w_threads].
  - constructor.
  - intros g Hg. by apply elem_of_nil in Hg.
  - by rewrite Hp.
  - apply (back_ok (w_objects w) _ th r f cb Hth (th_own_NoDup w t th H Ht) Hpc); try done. destruct (decide (r = Cb)); [by left | done].
  - apply Forall_app. split; [apply H |]. constructor; [| constructor]. split; [by left |]. by intros g [= <-].
  - apply H.
  - intros g Hg _. by rewrite Hp.
Qed.

(** It is let go, in a state that is nobody's. *)
Lemma release_good w w1 t th r f cb o : safe w -> w_threads w !! t = Some th -> th_pc th = Accounted r f ->
  w_threads w1 = w_threads w -> w_fibers w1 = w_fibers w -> (forall g, g <> f -> w_objects w1 !! g = w_objects w !! g) ->
  w_objects w1 !! f = Some o -> f_stack o = true -> claimed (f_state o) = false ->
  (if decide (r = Cb) then cb = None \/ (cb = Some f /\ f_state o = Init) else cb = th_cb_fiber th) ->
  safe (put_thread t (mk_thread Top cb (th_idle_fiber th)) w1).
Proof.
  intros H Ht Hpc E1 E2 E3 Eo Hs Hc Hcb. pose proof (sf_threads _ H t th Ht) as Hth. destruct (to_running _ _ Hth r f) as [Hrole _]; [by rewrite Hpc |].
  assert (f ∈ th_own th) as Hf by (eapply running_own; [by rewrite Hpc | done]).
  assert (resting (f_state o) = true) as Hrest. { unfold claimed in Hc. apply orb_false_iff in Hc as [_ Hc]. unfold resting. by rewrite Hc. }
  assert (th_own (mk_thread Top cb (th_idle_fiber th)) ⊆+ th_own th) as Hsub.
  { unfold th_own. cbn. apply submseteq_inserts_l. destruct (decide (r = Cb)) as [-> | Hr]; [| by rewrite Hcb]. cbn in Hrole. rewrite Hrole. destruct Hcb as [-> | [-> _]]; [by apply submseteq_cons | done]. }
  apply (move_good w _ t th (mk_thread Top cb (th_idle_fiber th))); cbn [put_thread w_threads w_fibers w_objects]; rewrite ?E1; try done.
  - intros g Hg. apply E3. by intros ->.
  - apply (back_ok (w_objects w) _ th r f cb Hth (th_own_NoDup w t th H Ht) Hpc); try done; [by exists o |]. destruct (decide (r = Cb)); [| done]. destruct Hcb as [-> | [-> Hi]]; [by left | right]. split; [done |]. exists o. by rewrite Hi.
  - intros g og. destruct (decide (g = f)) as [-> | Hg]; [rewrite Eo; by intros [= <-] |]. rewrite E3 by done. apply (sf_stack _ H).
  - intros g Hg (o' & Eo' & _ & Hc'). destruct (decide (g = f)) as [-> | Hne]; [congruence |].
    revert Hg. unfold th_own. rewrite Hpc. cbn. rewrite !elem_of_app. intros [Hg | [Hg | Hg]]; [| | by right].
    + destruct r; [| by apply elem_of_nil in Hg..]. by apply list_elem_of_singleton in Hg.
    + left. destruct (decide (r = Cb)) as [-> | Hr]; [| by rewrite Hcb]. cbn in Hrole. rewrite Hrole in Hg. by apply list_elem_of_singleton in Hg.
Qed.

Lemma left_behind_cases st : left_behind st = true -> st = Ready \/ (st <> Ready /\ finished st = true) \/ (st = Holding).
Proof. destruct st; intros H; try (by vm_compute in H); auto. Qed.

Lemma after_good w t th r f : safe w -> w_threads w !! t = Some th -> th_pc th = Accounted r f -> good (run_after t th r f w).
Proof.
  intros H Ht Hpc. pose proof (sf_threads _ H t th Ht) as Hth. destruct (to_running _ _ Hth r f) as [Hrole (o & Eo & Hs & Hl)]; [by rewrite Hpc |]. rewrite Hpc in Hl. cbn in Hl.
  assert (object w f = o) as Ef by (unfold object; by rewrite Eo). assert (state_of w f = f_state o) as Est by (unfold state_of; by rewrite Ef).
  assert (at_pc Top th = mk_thread Top (th_cb_fiber th) (th_idle_fiber th)) as Eat by done.
  assert (forall cb, (if decide (r = Cb) then cb = None else cb = th_cb_fiber th) -> safe (put_thread t (mk_thread Top cb (th_idle_fiber th)) (put_object f (set_state Holding o) w))) as Hhold.
  { intros cb Hcb. apply (release_good w _ t th r f cb (set_state Holding o)); try done; cbn.
    - intros g Hg. by rewrite lookup_insert_ne.
    - by rewrite lookup_insert_eq.
    - destruct (decide (r = Cb)); [by left | done]. }
  assert (r <> Cb -> finished (f_state o) = true -> safe (put_thread t (at_pc Top th) w)) as Hfin.
  { intros Hr Hf. rewrite Eat. apply (release_good w w t th r f (th_cb_fiber th) o); try done; [by destruct (f_state o) |]. by rewrite decide_False. }
  unfold run_after. rewrite Est, Ef. destruct (left_behind_cases _ Hl) as [Er | [[Hnr Hf] | Eh]].
  - rewrite Er. destruct r; cbn [bool_decide decide]; rewrite ?bool_decide_true by done.
    + cbn. rewrite Eat. apply (requeue_good w t th Task f); try done; [congruence |]. unfold th_own. by rewrite Hpc.
    + cbn in Hrole. apply (requeue_good w t th Cb f); try done; [congruence |]. unfold th_own. rewrite Hpc, Hrole. done.
    + cbn. rewrite Eat. by apply Hhold.
  - assert (bool_decide (f_state o = Ready) = false) as -> by (by apply bool_decide_false). rewrite Hf. destruct r; cbn [good]; [by apply Hfin | | by apply Hfin].
    unfold Fiber_reset. rewrite Hs, Hf. cbn. rewrite Eat. apply (release_good w _ t th Cb f (th_cb_fiber th) (mk_Fiber Init None true)); try done; cbn.
    + intros g Hg. by rewrite lookup_insert_ne.
    + by rewrite lookup_insert_eq.
    + right. by split.
  - rewrite Eh. destruct r; cbn; rewrite ?Eat; by apply Hhold.
Qed.

(** *** Taking from the queue and scheduling *)

Lemma pick_good w t th : safe w -> w_threads w !! t = Some th -> th_pc th = Top -> good (run_pick t th w).
Proof.
  intros H Ht Hpc. unfold run_pick. assert (Forall has_work (w_fibers w)) as Hw by (eapply Forall_impl; [apply (sf_queue _ H) | by intros ? [? _]]).
  pose proof (sf_threads _ H t th Ht) as [T1 T2 T3 T4]. rewrite Hpc in T3, T4. cbn in T3, T4.
  destruct (pick t (state_of w) (w_fibers w)) as [[[r rest] b] |] eqn:Ep; [cbn [or_abort good] | by destruct (pick_spec t (state_of w) _ Hw) as [(? & ? & ? & _ & _ & _ & ? & E) | (_ & ? & E)]; rewrite E in Ep].
  destruct (pick_takes _ _ _ _ _ _ Ep) as [Hperm _].
  assert (q_own rest ++ th_own (at_pc (Picked r) th) ≡ₚ q_own (w_fibers w) ++ th_own th) as Hown.
  { unfold q_own. rewrite Hperm, bind_app. unfold th_own. rewrite Hpc. cbn [at_pc th_pc task_fiber running app th_cb_fiber th_idle_fiber].
    destruct r as [ft |]; cbn; [| done]. rewrite app_nil_r, app_assoc. by rewrite (Permutation_app_comm (rest ≫= _)). }
  pose proof (sf_queue _ H) as Hq. rewrite Hperm in Hq. apply Forall_app in Hq as [Hr Hrest]. set (w1 := match r with Some _ => add_active 1 (put_queue rest w) | None => put_queue rest w end).
  assert (w_threads w1 = w_threads w /\ w_fibers w1 = rest /\ w_objects w1 = w_objects w) as (E1 & E2 & E3) by (by destruct r).
  apply (thread_step w _ t th (at_pc (Picked r) th) [] H Ht); cbn [put_thread w_threads w_fibers w_objects]; rewrite ?E1, ?E2, ?E3; try done.
  - constructor.
  - intros f Hf. by apply elem_of_nil in Hf.
  - by rewrite Hown.
  - constructor; cbn; [done | | done | done]. intros ft [= ->]. cbn in Hr. by inversion Hr.
  - apply H.
  - intros f Hf _. by rewrite Hown.
Qed.

(** A fiber may be scheduled when it is nobody's; a callback at any time, if
    there is one. *)
Definition may_schedule (ft : FiberAndThread) w : bool :=
  match ft_fiber ft with
  | Some f => negb (unused f w) && bool_decide (f ∉ owned w)
  | None => match ft_callback ft with Some _ => true | None => false end
  end.

Lemma push_good ft w : safe w -> may_schedule ft w = true -> safe (push ft w).
Proof.
  intros H Hm. assert (entry_ok (w_objects w) ft /\ NoDup (option_list (ft_fiber ft)) /\ forall f, f ∈ option_list (ft_fiber ft) -> f ∉ owned w) as (He & Hn & Hno).
  { unfold may_schedule in Hm. unfold entry_ok, has_work. destruct (ft_fiber ft) as [f |].
    - apply andb_true_iff in Hm as [Hu Hno%bool_decide_eq_true]. unfold unused in Hu. destruct (w_objects w !! f) as [o |] eqn:Eo; [| done].
      split; [split; [by left |] | split; [apply NoDup_singleton |]; by intros g ->%list_elem_of_singleton]. intros g [= <-]. exists o. split; [done |]. split; [by apply (sf_stack _ H f) |].
      unfold resting. destruct (is_Execute (f_state o)) eqn:Ee; [| done]. exfalso. apply Hno, (sf_ready _ H). exists o. split; [done |]. split; [by apply (sf_stack _ H f) |]. unfold claimed. by rewrite Ee, orb_true_r.
    - destruct (ft_callback ft); [| done]. split; [split; [by right | done] |]. split; [constructor |]. intros g Hg. by apply elem_of_nil in Hg. }
  assert (owned (push ft w) ≡ₚ option_list (ft_fiber ft) ++ owned w) as Hp.
  { unfold owned, q_own, push. cbn. rewrite bind_app. cbn. rewrite app_nil_r, <- app_assoc, !app_assoc. by rewrite (Permutation_app_comm (w_fibers w ≫= _)). }
  constructor; cbn [push put_queue w_objects w_threads w_fibers scheduleLock snd]; try apply H.
  - rewrite Hp. apply NoDup_app. split; [done |]. split; [done | apply H].
  - apply Forall_app. split; [apply H | by constructor].
  - intros f Hf. rewrite Hp. apply elem_of_app. right. by apply (sf_ready _ H).
Qed.

Lemma new_good f cb w : safe w -> unused f w = true -> safe (put_object f (new_Fiber (Some cb)) w).
Proof.
  intros H Hu. pose proof (new_not_owned w f H Hu) as Hno. change (owned w) with (q_own (w_fibers w) ++ ths_own (w_threads w)) in Hno. rewrite elem_of_app in Hno.
  constructor; cbn [put_object w_objects w_fibers w_threads]; [apply H | | | |].
  - apply Forall_forall. intros ft Hin. pose proof (sf_queue _ H) as Hq. rewrite Forall_forall in Hq. eapply entry_ok_frame; [| by apply Hq].
    intros g Hg. rewrite lookup_insert_ne; [done |]. intros <-. apply Hno. left. apply q_own_elem. eauto.
  - intros t th Ht. eapply thread_ok_frame; [| by apply (sf_threads _ H t)]. intros g Hg. rewrite lookup_insert_ne; [done |]. intros <-. apply Hno. right. apply ths_own_elem. eauto.
  - apply map_Forall_insert_2; [done | apply H].
  - intros g (o & Eo & Hs & Hc). destruct (decide (f = g)) as [<- | Hne]; [rewrite lookup_insert_eq in Eo; injection Eo as <-; by vm_compute in Hc |].
    rewrite lookup_insert_ne in Eo by done. apply (sf_ready _ H). by exists o.
Qed.

(** ** Runs *)

Definition disciplined_by (a : action) w : bool :=
  match a with ScheduleOutside ft | DoDeed _ (Schedule ft) => may_schedule ft w | _ => true end.

Fixpoint disciplined (l : list action) w : bool :=
  match l with
  | [] => true
  | a :: l => disciplined_by a w && match step a w with Next w' => disciplined l w' | _ => true end
  end.

Lemma deed_good w t th r f d : safe w -> w_threads w !! t = Some th -> th_pc th = InFiber r f ->
  (match d with Schedule ft => may_schedule ft w | _ => true end) = true -> good (fiber_deed t th r f d w).
Proof.
  intros H Ht Hpc Hm. destruct (to_running _ _ (sf_threads _ H t th Ht) r f) as [_ (o & Eo & Hs & He)]; [by rewrite Hpc |]. rewrite Hpc in He. cbn in He.
  assert (object w f = o) as Ef by (unfold object; by rewrite Eo). unfold is_Execute in He.
  unfold fiber_deed, Fiber_yieldToReady, Fiber_yieldToHold. rewrite Ef, He.
  destruct d; cbn [or_abort good]; [by apply push_good | apply leave_good; done..].
Qed.

Lemma step_good a w : safe w -> disciplined_by a w = true -> good (step a w).
Proof.
  intros H Hd. destruct a as [t | t fresh | t d | t | t | t | t | fresh cb | ft |]; cbn [step disciplined_by] in *; unfold with_thread; try (destruct (w_threads w !! t) as [th |] eqn:Ht; [| done]).
  - destruct (th_pc th) eqn:Hpc; try done. by apply pick_good.
  - destruct (th_pc th) eqn:Hpc; try done. destruct (unused fresh w) eqn:Hu; [by apply dispatch_good | done].
  - destruct (th_pc th) as [| | [] f | | | |] eqn:Hpc; try done; by apply deed_good.
  - destruct (th_pc th) as [| | [] f | | | |] eqn:Hpc; try done. apply deed_good; try done. unfold idle_deed. by destruct (is_stopping w).
  - destruct (th_pc th) as [| | | r f | | |] eqn:Hpc; try done. apply (pass_good w w t th r f); by rewrite ?Hpc.
  - destruct (th_pc th) as [| | | | r f | |] eqn:Hpc; try done. cbn. apply (pass_good w _ t th r f); rewrite ?Hpc; try done; by case_bool_decide.
  - destruct (th_pc th) as [| | | | | r f |] eqn:Hpc; try done. by apply after_good.
  - destruct (unused fresh w) eqn:Hu; [by apply new_good | done].
  - by apply push_good.
  - destruct H as [S1 S2 S3 S4 S5]. by constructor.
Qed.

Lemma steps_good l : forall w, safe w -> disciplined l w = true -> good (steps l w).
Proof.
  induction l as [|a l IH]; intros w H Hd; [done |]. cbn in *. apply andb_true_iff in Hd as [Ha Hl]. pose proof (step_good a w H Ha) as Hg.
  destruct (step a w) as [w' | |]; [by apply IH | done | done].
Qed.

Lemma worker_own n : (worker_threads n ≫= fun '(_, th) => th_own th) = (fun i => Pos.of_nat (S i)) <$> seq 0 n.
Proof. induction n as [|n IH]; [done |]. rewrite seq_S, fmap_app. cbn [worker_threads]. rewrite bind_app, IH. done. Qed.

Lemma worker_ids n : (worker_threads (F := F) n).*1 = Z.of_nat <$> seq 0 n.
Proof. induction n as [|n IH]; [done |]. rewrite seq_S. cbn [worker_threads]. by rewrite !fmap_app, IH. Qed.

Lemma started_objects n f o : w_objects (started (F := F) n) !! f = Some o -> o = new_Fiber None.
Proof. cbn. intros H%elem_of_list_to_map_2. by apply list_elem_of_fmap in H as ([t th] & [= -> ->] & _). Qed.

Lemma started_idle n t th : w_threads (started (F := F) n) !! t = Some th -> w_objects (started (F := F) n) !! th_idle_fiber th = Some (new_Fiber None).
Proof.
  cbn. intros H%elem_of_list_to_map_2. apply elem_of_list_to_map_1'.
  - intros o Ho. apply list_elem_of_fmap in Ho as ([t' th'] & [= _ Eo] & _). by rewrite Eo.
  - apply list_elem_of_fmap. by exists (t, th).
Qed.

Lemma started_safe n : safe (started n).
Proof.
  constructor.
  - unfold owned, ths_own. cbn [started w_fibers w_threads q_own mbind list_bind app]. rewrite map_to_list_to_map by (rewrite worker_ids; apply NoDup_fmap_2_strong; [intros i j _ _; lia | apply NoDup_seq]).
    rewrite worker_own. apply NoDup_fmap_2_strong; [intros i j _ _; lia | apply NoDup_seq].
  - constructor.
  - intros t th Ht. pose proof (started_idle n t th Ht) as Hi. apply started_lookup in Ht as [_ ->]. constructor; cbn [th_pc th_cb_fiber th_idle_fiber running]; try done.
    right. exists (new_Fiber None). done.
  - intros f o Ho. by apply started_objects in Ho as ->.
  - intros f (o & Ho & _ & Hc). by apply started_objects in Ho as ->.
Qed.

(** Who runs a fiber in a safe state. *)
Lemma safe_runs w : safe w ->
  (forall t1 t2 th1 th2 r1 r2 f, w_threads w !! t1 = Some th1 -> w_threads w !! t2 = Some th2 ->
     running (th_pc th1) = Some (r1, f) -> running (th_pc th2) = Some (r2, f) -> t1 = t2) /\
  (forall t th r f, w_threads w !! t = Some th -> th_pc th = InFiber r f -> state_of w f = Execute).
Proof.
  intros H. split.
  - intros t1 t2 th1 th2 r1 r2 f H1 H2 R1 R2. destruct (decide (t1 = t2)) as [| Hne]; [done |]. exfalso.
    destruct (to_running _ _ (sf_threads _ H t1 th1 H1) r1 f R1) as [O1 _]. destruct (to_running _ _ (sf_threads _ H t2 th2 H2) r2 f R2) as [O2 _].
    pose proof (sf_once _ H) as Hn. apply NoDup_app in Hn as (_ & _ & Hn). destruct (ths_own_insert (w_threads w) t1 th1 th1 H1) as [P _]. rewrite P in Hn. apply NoDup_app in Hn as (_ & Hn & _).
    apply (Hn f); [by eapply running_own |]. apply ths_own_elem. exists t2, th2. split; [by rewrite lookup_delete_ne | by eapply running_own].
  - intros t th r f Ht Hpc. destruct (to_running _ _ (sf_threads _ H t th Ht) r f) as [_ (o & Eo & _ & He)]; [by rewrite Hpc |]. rewrite Hpc in He. cbn in He.
    apply bool_decide_eq_true in He. unfold state_of, object. by rewrite Eo.
Qed.

(** C19: when a fiber is scheduled only while no thread runs it, no thread has
    taken it and it is not in the queue (and a callback only if there is one),
    then whatever the threads do in whatever order, no assertion of [run],
    [reset], [swapIn] or the yields fails; no fiber is run by two threads, from
    [swapIn] to the end of its round of the loop; a fiber that runs is in state
    [Execute]; and a fiber that yielded to [Ready] is in the queue or with a
    thread, so it runs again. *)
Theorem fibers_run_once n l : disciplined l (started n) = true ->
  steps l (started n) <> Abort /\
  forall w, steps l (started n) = Next w ->
    (forall t1 t2 th1 th2 r1 r2 f, w_threads w !! t1 = Some th1 -> w_threads w !! t2 = Some th2 ->
       running (th_pc th1) = Some (r1, f) -> running (th_pc th2) = Some (r2, f) -> t1 = t2) /\
    (forall t th r f, w_threads w !! t = Some th -> th_pc th = InFiber r f -> state_of w f = Execute) /\
    (forall f, state_of w f = Ready -> (exists ft, ft ∈ w_fibers w /\ ft_fiber ft = Some f) \/ exists t th, w_threads w !! t = Some th /\ f ∈ th_own th).
Proof.
  intros Hd. pose proof (steps_good l _ (started_safe n) Hd) as Hg. destruct (steps l (started n)) as [w' | |]; [| done | done]. split; [done |]. intros w [= <-]. cbn in Hg.
  destruct (safe_runs w' Hg) as [H1 H2]. split; [exact H1 |]. split; [exact H2 |]. intros f Hf. rewrite <- q_own_elem, <- ths_own_elem, <- elem_of_app. apply (sf_ready _ Hg).
  unfold state_of, object in Hf. destruct (w_objects w' !! f) as [o |] eqn:Eo; [| done]. exists o. split; [done |]. split; [by apply (sf_stack _ Hg f) |]. cbn in Hf. by rewrite Hf.
Qed.

(** C20: [switchTo] schedules the running fiber before it has left its thread,
    and then another thread may take it: here thread 1 is in the fiber while
    thread 0 has not switched out of it.  Thread 0 then marks the fiber
    [Holding] although thread 1 runs it, and the fiber's next yield fails its
    assertion. *)
Theorem switchTo_runs_fiber_twice (cb : F) :
  let start := [ScheduleOutside (mk_ft None (Some cb) 0); DoPick 0; DoDispatch 0 10] in
  let late := [DoSwapOut 0; DoAccount 0; DoAfter 0] in
  exists w, steps (start ++ switchTo 0 10 1 ++ [DoPick 1; DoDispatch 1 11]) (started 2) = Next w /\
    (w_threads w !! 0 ≫= running ∘ th_pc) = Some (Cb, 10%positive) /\ (w_threads w !! 1 ≫= running ∘ th_pc) = Some (Task, 10%positive) /\
    (exists w', steps late w = Next w' /\ (th_pc <$> w_threads w' !! 1) = Some (InFiber Task 10%positive) /\ state_of w' 10 = Holding) /\
    steps (late ++ [DoDeed 1 YieldToHold]) w = Abort.
Proof.
  intros start late. eexists. split; [vm_compute; reflexivity |]. split; [vm_compute; reflexivity |]. split; [vm_compute; reflexivity |].
  split; [eexists; split; [vm_compute; reflexivity | split; vm_compute; reflexivity] | vm_compute; reflexivity].
Qed.

End SchedulerSafety.

(** A fiber that yields to [Ready] on one thread and goes on on another. *)
Definition hand_over : list (action (F := Z)) :=
  [NewFiber 20 5; ScheduleOutside (mk_ft (Some 20%positive) None (-1)); DoPick 0; DoDispatch 0 10; DoDeed 0 YieldToReady; DoSwapOut 0; DoAccount 0; DoAfter 0;
   DoPick 1; DoDispatch 1 10; DoDeed 1 (Schedule (mk_ft None (Some 6) (-1))); DoPick 0; DoDispatch 0 11].

Lemma fibers_run_once_witness : exists w, steps hand_over (started 2) = Next w /\ (th_pc <$> w_threads w !! 1) = Some (InFiber Task 20%positive) /\ state_of w 20 = Execute.
Proof.
  destruct (fibers_run_once 2 hand_over) as [_ H]; [by vm_compute |]. destruct (steps hand_over (started 2)) as [w | |] eqn:E; [| vm_compute in E; discriminate..]. exists w. split; [done |].
  destruct (H w eq_refl) as (_ & H2 & _). assert (w_threads w !! 1 = Some (mk_thread (InFiber Task 20) None 2)) as Ht by (vm_compute in E; injection E as <-; by vm_compute).
  split; [by rewrite Ht |]. by apply (H2 1 _ Task 20%positive Ht).
Defined.
