(* ===== verification/IOManager.v ===== *)
(** * The IO manager

    [src/src/iomanager.cpp] and [src/include/iomanager.h]: which fibers and
    callbacks wait for which events of which file descriptors, on top of
    [epoll].  [epoll] itself is the kernel's: a class of what it promises.

    [FdContext] objects are named by addresses, because [epoll] gives the
    address back with an event; [_fdContexts] is a vector of addresses.  What
    [schedule] is called with is collected in a list of tasks, each with the
    scheduler it is for; a failed assertion, a null scheduler or an index out
    of range is [None]. *)

From stdpp Require Import base list list_numbers numbers option gmap fin_maps.
From Stdlib Require Import ZArith Lia.
From S2P Require Import Prelude.
From S2P Require Import Scheduler.
From S2P Require Import Timer.

Local Open Scope Z_scope.

(** ** [epoll] *)

Inductive EpollCtlOp := EPOLL_CTL_ADD | EPOLL_CTL_MOD | EPOLL_CTL_DEL.

Definition EPOLLIN : Z := 0x1.
Definition EPOLLOUT : Z := 0x4.
Definition EPOLLERR : Z := 0x8.
Definition EPOLLHUP : Z := 0x10.
Definition EPOLLET : Z := 2 ^ 31.

(** [epoll_ctl(op, fd, {events, ptr})]: the new state of the kernel, and whether
    it returned 0. *)
Class EpollOps (K : Type) := {
  epoll_ctl : EpollCtlOp -> Z -> Z -> nat -> K -> K * bool;
  interest : K -> gmap Z (Z * nat);
}.

(** The interest list, as the manual page of [epoll_ctl] describes it: a call
    that fails changes nothing; [ADD] fails for a descriptor that is registered
    ([EEXIST]), [MOD] and [DEL] for one that is not ([ENOENT]). *)
Class Epoll (K : Type) `{EpollOps K} : Prop := {
  ctl_fails op fd ev p k k' : epoll_ctl op fd ev p k = (k', false) -> interest k' = interest k;
  ctl_add fd ev p k k' : epoll_ctl EPOLL_CTL_ADD fd ev p k = (k', true) ->
    interest k !! fd = None /\ interest k' = <[fd := (ev, p)]> (interest k);
  ctl_mod fd ev p k k' : epoll_ctl EPOLL_CTL_MOD fd ev p k = (k', true) ->
    is_Some (interest k !! fd) /\ interest k' = <[fd := (ev, p)]> (interest k);
  ctl_del fd ev p k k' : epoll_ctl EPOLL_CTL_DEL fd ev p k = (k', true) ->
    is_Some (interest k !! fd) /\ interest k' = delete fd (interest k);
}.

Section IOManager.

Context {F K : Type} `{EpollOps K}.
Abbreviation FiberAndThread := (@Scheduler.FiberAndThread F).

(** ** [FdContext] *)

Definition None_ : Z := 0x0.
Definition Read : Z := 0x1.
Definition Write : Z := 0x4.

Record EventContext := mk_EventContext {
  ec_scheduler : option Z;
  ec_fiber : option positive;
  ec_callback : option F;
}.

Record FdContext := mk_FdContext {
  fc_fd : Z;
  fc_read : EventContext;
  fc_write : EventContext;
  fc_events : Z;
}.

Definition empty_EventContext : EventContext := mk_EventContext None None None.
Definition new_FdContext (fd : Z) : FdContext := mk_FdContext fd empty_EventContext empty_EventContext 0.

(** [getContext] returns a reference: reading and writing through it. *)
Definition getContext (event : Z) (c : FdContext) : option EventContext :=
  if event =? Read then Some (fc_read c) else if event =? Write then Some (fc_write c) else None.
Definition put_context (event : Z) (ctx : EventContext) (c : FdContext) : FdContext :=
  if event =? Read then mk_FdContext (fc_fd c) ctx (fc_write c) (fc_events c)
  else mk_FdContext (fc_fd c) (fc_read c) ctx (fc_events c).
Definition put_events (events : Z) (c : FdContext) : FdContext := mk_FdContext (fc_fd c) (fc_read c) (fc_write c) events.

Definition resetContext (event : Z) (c : FdContext) : FdContext := put_context event empty_EventContext c.

(** What a scheduler is given. *)
Definition task : Type := Z * FiberAndThread.

Definition has (events event : Z) : bool := negb (Z.land events event =? 0).

(** [triggerEvent] *)
Definition triggerEvent (event : Z) (c : FdContext) : option (FdContext * task) :=
  if has (fc_events c) event then
    let c := put_events (Z.ldiff (fc_events c) event) c in
    ctx ← getContext event c;
    scheduler ← ec_scheduler ctx;
    let ft := match ec_callback ctx with Some cb => mk_ft None (Some cb) (-1) | None => mk_ft (ec_fiber ctx) None (-1) end in
    Some (resetContext event c, (scheduler, ft))
  else None.

(** ** [IOManager] *)

Record IOManager := mk_IOManager {
  io_store : list FdContext;
  io_fdContexts : list nat;
  io_pendingEventCount : Z;
  io_kernel : K;
}.

Definition put_store (s : list FdContext) (m : IOManager) : IOManager := mk_IOManager s (io_fdContexts m) (io_pendingEventCount m) (io_kernel m).
Definition put_kernel (k : K) (m : IOManager) : IOManager := mk_IOManager (io_store m) (io_fdContexts m) (io_pendingEventCount m) k.
Definition count_events (d : Z) (m : IOManager) : IOManager := mk_IOManager (io_store m) (io_fdContexts m) (u64 (io_pendingEventCount m + d)) (io_kernel m).
Definition put_ctx (p : nat) (c : FdContext) (m : IOManager) : IOManager := put_store (<[p := c]> (io_store m)) m.

(** The loop of [contextResize] over the null pointers behind the old ones. *)
Fixpoint new_contexts (i : nat) (n : nat) (store : list FdContext) : list FdContext * list nat :=
  match n with
  | O => (store, [])
  | S n =>
    let '(store', ps) := new_contexts (S i) n (store ++ [new_FdContext (Z.of_nat i)]) in
    (store', length store :: ps)
  end.

Definition contextResize (size : nat) (m : IOManager) : IOManager :=
  let kept := take size (io_fdContexts m) in
  let '(store, ps) := new_contexts (length kept) (size - length kept) (io_store m) in
  mk_IOManager store (kept ++ ps) (io_pendingEventCount m) (io_kernel m).

(** [_fdContexts[fd]]; [None]: out of range. *)
Definition context_at (fd : Z) (m : IOManager) : option nat := if fd <? 0 then None else io_fdContexts m !! Z.to_nat fd.

Definition size_exceeds (fd : Z) (m : IOManager) : bool := fd <? i32 (Z.of_nat (length (io_fdContexts m))).

(** The three critical sections of [addEvent].  The first: the context, if
    there is one. *)
Definition addEvent_lookup (fd : Z) (m : IOManager) : option (option nat) :=
  if size_exceeds fd m then Some <$> context_at fd m else Some None.

(** The second, when there is none; [fd * 1.5] is exact in [double]. *)
Definition addEvent_resize (fd : Z) (m : IOManager) : option (nat * IOManager) :=
  let m := contextResize (Z.to_nat (fd * 3 / 2)) m in
  p ← context_at fd m; Some (p, m).

(** The third; [scheduler] is [Scheduler::getThis()], [fiber] is
    [Fiber::getThis()] with its state. *)
Definition addEvent_register (p : nat) (fd event : Z) (callback : option F) (scheduler : option Z) (fiber : positive * FiberState)
    (m : IOManager) : option (Z * IOManager) :=
  c ← io_store m !! p;
  if has (fc_events c) event then None
  else
    let op := if negb (fc_events c =? 0) then EPOLL_CTL_MOD else EPOLL_CTL_ADD in
    let '(k, ok) := epoll_ctl op fd (Z.lor (Z.lor EPOLLET (fc_events c)) event) p (io_kernel m) in
    let m := put_kernel k m in
    if negb ok then Some (-1, m)
    else
      let m := count_events 1 m in
      let c := put_events (Z.lor (fc_events c) event) c in
      ctx ← getContext event c;
      match ctx with
      | mk_EventContext None None None =>
        match callback with
        | Some cb => Some (0, put_ctx p (put_context event (mk_EventContext scheduler None (Some cb)) c) m)
        | None =>
          if bool_decide (snd fiber = Execute) then Some (0, put_ctx p (put_context event (mk_EventContext scheduler (Some (fst fiber)) None) c) m)
          else None
        end
      | _ => None
      end.

Definition addEvent (fd event : Z) (callback : option F) (scheduler : option Z) (fiber : positive * FiberState) (m : IOManager) :
    option (Z * IOManager) :=
  p ← addEvent_lookup fd m;
  match p with
  | Some p => addEvent_register p fd event callback scheduler fiber m
  | None => '(p, m) ← addEvent_resize fd m; addEvent_register p fd event callback scheduler fiber m
  end.

(** What [delEvent] and [cancelEvent] share: the context and the new events,
    unless the call has to return false. *)
Definition remove_event (fd event : Z) (m : IOManager) (k : nat -> FdContext -> Z -> IOManager -> option (bool * IOManager * list task)) :
    option (bool * IOManager * list task) :=
  if negb (size_exceeds fd m) then Some (false, m, [])
  else
    p ← context_at fd m;
    c ← io_store m !! p;
    if negb (has (fc_events c) event) then Some (false, m, [])
    else
      let new_events := Z.ldiff (fc_events c) event in
      let op := if negb (new_events =? 0) then EPOLL_CTL_MOD else EPOLL_CTL_DEL in
      let '(kernel, ok) := epoll_ctl op fd (Z.lor EPOLLET new_events) p (io_kernel m) in
      let m := put_kernel kernel m in
      if negb ok then Some (false, m, []) else k p c new_events m.

Definition delEvent (fd event : Z) (m : IOManager) : option (bool * IOManager * list task) :=
  remove_event fd event m (fun p c new_events m =>
    let m := count_events (-1) m in
    let c := put_events new_events c in
    _ ← getContext event c;
    Some (true, put_ctx p (resetContext event c) m, [])).

Definition cancelEvent (fd event : Z) (m : IOManager) : option (bool * IOManager * list task) :=
  remove_event fd event m (fun p c _ m =>
    '(c, t) ← triggerEvent event c;
    Some (true, count_events (-1) (put_ctx p c m), [t])).

(** [if(events & event) { triggerEvent(event); --_pendingEventCount; }] *)
Definition trigger_if (cond : bool) (event : Z) (p : nat) (m : IOManager) : option (IOManager * list task) :=
  if cond then
    c ← io_store m !! p;
    '(c, t) ← triggerEvent event c;
    Some (count_events (-1) (put_ctx p c m), [t])
  else Some (m, []).

Definition events_of (p : nat) (m : IOManager) : Z := default 0 (fc_events <$> io_store m !! p).

Definition cancelAll (fd : Z) (m : IOManager) : option (bool * IOManager * list task) :=
  if negb (size_exceeds fd m) then Some (false, m, [])
  else
    p ← context_at fd m;
    c ← io_store m !! p;
    if fc_events c =? 0 then Some (false, m, [])
    else
      let '(k, ok) := epoll_ctl EPOLL_CTL_DEL fd 0 p (io_kernel m) in
      let m := put_kernel k m in
      if negb ok then Some (false, m, [])
      else
        '(m, t1) ← trigger_if (has (events_of p m) Read) Read p m;
        '(m, t2) ← trigger_if (has (events_of p m) Write) Write p m;
        if events_of p m =? 0 then Some (true, m, t1 ++ t2) else None.

(** ** The event loop *)

(** [stopping(timeout)] *)
Definition io_stopping (next_timeout : Z) (m : IOManager) (w : Scheduler.world (F := F)) : bool :=
  (next_timeout =? NO_TIMER) && (io_pendingEventCount m =? 0) && is_stopping w.

Definition MAX_TIMEOUT : Z := 3000.

(** The value of [next_timeout] that is passed to [epoll_wait], as an [int]; on
    [EINTR] it is computed again from the clipped value. *)
Definition clip_timeout (next_timeout : Z) : Z :=
  if negb (next_timeout =? NO_TIMER) then (if MAX_TIMEOUT <? i32 next_timeout then MAX_TIMEOUT else next_timeout) else MAX_TIMEOUT.

Fixpoint wait_timeout (interrupted : nat) (next_timeout : Z) : Z :=
  let next_timeout := clip_timeout next_timeout in
  match interrupted with O => i32 next_timeout | S n => wait_timeout n next_timeout end.

(** An entry [epoll_wait] has filled in: the pipe, or a context with events. *)
Inductive epoll_event :=
| TickleEvent
| FdEvent (ptr : nat) (events : Z).

(** The body of the loop over the events. *)
Definition handle_event (e : epoll_event) (m : IOManager) : option (IOManager * list task) :=
  match e with
  | TickleEvent => Some (m, [])
  | FdEvent p events =>
    c ← io_store m !! p;
    let events := if has events (Z.lor EPOLLERR EPOLLHUP) then Z.lor events (Z.land (Z.lor EPOLLIN EPOLLOUT) (fc_events c)) else events in
    let real_events := Z.lor (if has events EPOLLIN then Read else None_) (if has events EPOLLOUT then Write else None_) in
    if Z.land (fc_events c) real_events =? None_ then Some (m, [])
    else
      let left_events := Z.ldiff (fc_events c) real_events in
      let op := if negb (left_events =? 0) then EPOLL_CTL_MOD else EPOLL_CTL_DEL in
      let '(k, ok) := epoll_ctl op (fc_fd c) (Z.lor EPOLLET left_events) p (io_kernel m) in
      let m := put_kernel k m in
      if negb ok then Some (m, [])
      else
        '(m, t1) ← trigger_if (has real_events Read) Read p m;
        '(m, t2) ← trigger_if (has real_events Write) Write p m;
        Some (m, t1 ++ t2)
  end.

Fixpoint handle_events (es : list epoll_event) (m : IOManager) : option (IOManager * list task) :=
  match es with
  | [] => Some (m, [])
  | e :: es =>
    '(m, t1) ← handle_event e m;
    '(m, t2) ← handle_events es m;
    Some (m, t1 ++ t2)
  end.

(** The constructor, from the kernel's state after it has registered the pipe. *)
Definition new_IOManager (k : K) : IOManager := contextResize 32 (mk_IOManager [] [] 0 k).

End IOManager.
