(* ===== verification/IOManagerFacts.v ===== *)
(** * The IO manager as a map of waiters

    [addEvent], [delEvent], [cancelEvent], [cancelAll] and the events of the
    loop act as a map from (descriptor, event) to the fiber or callback that
    waits; the kernel's interest list mirrors the map.  The operations on the
    map ([w_addEvent], [w_removeEvent], [w_cancelAll], [w_handleEvent]) ask the
    same kernel: a call is refused exactly when [epoll_ctl] fails. *)

From stdpp Require Import base list list_numbers numbers option gmap fin_maps.
From Stdlib Require Import ZArith Lia.
From S2P Require Import Prelude.
From S2P Require Import Scheduler.
From S2P Require Import Timer.
From S2P Require Import IOManager.

Local Open Scope Z_scope.

Section IOManagerFacts.

Context {F K : Type} `{Epoll K}.
Abbreviation FiberAndThread := (@Scheduler.FiberAndThread F).
Abbreviation EventContext := (@IOManager.EventContext F).
Abbreviation FdContext := (@IOManager.FdContext F).
Abbreviation IOManager := (@IOManager.IOManager F K).
Abbreviation task := (@IOManager.task F).
Implicit Types m : IOManager.

(** ** One context *)

Definition task_of (ctx : EventContext) : option task :=
  match ctx with
  | mk_EventContext (Some s) None (Some cb) => Some (s, mk_ft None (Some cb) (-1))
  | mk_EventContext (Some s) (Some f) None => Some (s, mk_ft (Some f) None (-1))
  | _ => None
  end.

Definition ctx_waits (c : FdContext) (event : Z) : option task := getContext event c ≫= task_of.

Definition is_event (event : Z) : Prop := event = Read \/ event = Write.

Definition mask {A} (r w : option A) : Z := Z.lor (match r with Some _ => Read | None => 0 end) (match w with Some _ => Write | None => 0 end).

Definition half_ok (ctx : EventContext) : Prop := ctx = empty_EventContext \/ is_Some (task_of ctx).

Record ctx_ok (c : FdContext) : Prop := {
  cx_read : half_ok (fc_read c);
  cx_write : half_ok (fc_write c);
  cx_events : fc_events c = mask (ctx_waits c Read) (ctx_waits c Write);
}.

Lemma half_empty ctx : half_ok ctx -> task_of ctx = None -> ctx = empty_EventContext.
Proof. intros [? | [t ?]] E; [done | congruence]. Qed.

Lemma half_shape ctx t : task_of ctx = Some t -> exists s, ec_scheduler ctx = Some s /\
  t = (s, match ec_callback ctx with Some cb => mk_ft None (Some cb) (-1) | None => mk_ft (ec_fiber ctx) None (-1) end).
Proof. destruct ctx as [[s |] [f |] [cb |]]; cbn; intros E; simplify_eq; by exists s. Qed.

Lemma waits_put c event event' ctx : is_event event -> is_event event' ->
  ctx_waits (put_context event ctx c) event' = if event' =? event then task_of ctx else ctx_waits c event'.
Proof. intros [-> | ->] [-> | ->]; done. Qed.

Lemma waits_put_events c e event : ctx_waits (put_events e c) event = ctx_waits c event.
Proof. done. Qed.

Lemma has_waits c event : ctx_ok c -> is_event event -> has (fc_events c) event = match ctx_waits c event with Some _ => true | None => false end.
Proof. intros [_ _ ->]. intros [-> | ->]; destruct (ctx_waits c Read), (ctx_waits c Write); done. Qed.

(** One half of a context is replaced, and the event bits with it. *)
Lemma ctx_ok_put c event ctx e : ctx_ok c -> is_event event -> half_ok ctx ->
  e = (match task_of ctx with Some _ => Z.lor (fc_events c) event | None => Z.ldiff (fc_events c) event end) ->
  ctx_ok (put_context event ctx (put_events e c)).
Proof.
  intros [H1 H2 H3] He Hc ->. destruct He as [-> | ->]; constructor; cbn; try done.
  - unfold ctx_waits in *. cbn in *. rewrite H3. destruct (task_of ctx), (task_of (fc_read c)), (task_of (fc_write c)); done.
  - unfold ctx_waits in *. cbn in *. rewrite H3. destruct (task_of ctx), (task_of (fc_read c)), (task_of (fc_write c)); done.
Qed.

Definition cleared (event : Z) (c : FdContext) : FdContext := resetContext event (put_events (Z.ldiff (fc_events c) event) c).

Lemma cleared_ok c event : ctx_ok c -> is_event event -> ctx_ok (cleared event c).
Proof. intros Hc He. apply (ctx_ok_put c event); [done | done | by left | done]. Qed.

Lemma cleared_waits c event event' : is_event event -> is_event event' -> ctx_waits (cleared event c) event' = if event' =? event then None else ctx_waits c event'.
Proof. intros He He'. unfold cleared, resetContext. rewrite waits_put by done. by rewrite waits_put_events. Qed.

Lemma cleared_fd c event : fc_fd (cleared event c) = fc_fd c.
Proof. unfold cleared, resetContext, put_context. by case_match. Qed.

Lemma trigger_spec c event t : ctx_ok c -> is_event event -> ctx_waits c event = Some t -> triggerEvent event c = Some (cleared event c, t).
Proof.
  intros Hc He Ht. unfold triggerEvent. rewrite has_waits, Ht by done. destruct He as [-> | ->]; cbn; unfold ctx_waits in Ht; cbn in Ht;
    destruct (half_shape _ _ Ht) as (s & Es & ->); rewrite Es; done.
Qed.

(** ** The manager *)

Definition waits m (k : Z * Z) : option task :=
  if fst k <? 0 then None else io_store m !! Z.to_nat (fst k) ≫= fun c => if decide (is_event (snd k)) then ctx_waits c (snd k) else None.

Definition registered (k0 : K) m (fd : Z) : option (Z * nat) :=
  match (if fd <? 0 then None else io_store m !! Z.to_nat fd) with
  | Some c => if fc_events c =? 0 then interest k0 !! fd else Some (Z.lor EPOLLET (fc_events c), Z.to_nat fd)
  | None => interest k0 !! fd
  end.

(** Manager [m] represents the map [A] of waiters; [k0] is the kernel's state
    before any of them came (the pipe is registered there). *)
Record represents (k0 : K) m (A : gmap (Z * Z) task) : Prop := {
  rp_vec : io_fdContexts m = seq 0 (length (io_store m));
  rp_len : 32 <= Z.of_nat (length (io_store m)) < 2 ^ 31;
  rp_ctx : forall i c, io_store m !! i = Some c -> ctx_ok c /\ fc_fd c = Z.of_nat i;
  rp_waits : forall k, A !! k = waits m k;
  rp_count : io_pendingEventCount m = u64 (Z.of_nat (size A));
  rp_interest : forall fd, interest (io_kernel m) !! fd = registered k0 m fd;
  rp_mine : forall i c, io_store m !! i = Some c -> fc_events c <> 0 -> interest k0 !! Z.of_nat i = None;
}.

Lemma waits_at m p c event : io_store m !! p = Some c -> is_event event -> waits m (Z.of_nat p, event) = ctx_waits c event.
Proof. intros E He. unfold waits. cbn. destruct (Z.ltb_spec (Z.of_nat p) 0); [lia |]. rewrite Nat2Z.id, E. cbn. by rewrite decide_True. Qed.

Lemma registered_at k0 m p c : io_store m !! p = Some c ->
  registered k0 m (Z.of_nat p) = if fc_events c =? 0 then interest k0 !! Z.of_nat p else Some (Z.lor EPOLLET (fc_events c), p).
Proof. intros E. unfold registered. destruct (Z.ltb_spec (Z.of_nat p) 0); [lia |]. by rewrite Nat2Z.id, E. Qed.

Lemma store_other p fd m c' m' : io_store m' = <[p := c']> (io_store m) -> fd <> Z.of_nat p -> 0 <= fd -> io_store m' !! Z.to_nat fd = io_store m !! Z.to_nat fd.
Proof. intros -> Hne Hfd. rewrite list_lookup_insert_ne; [done | lia]. Qed.

(** The context of one descriptor changes, with the map and the kernel. *)
Lemma update_represents k0 m m' A A' p c c' : represents k0 m A -> io_store m !! p = Some c ->
  io_store m' = <[p := c']> (io_store m) -> io_fdContexts m' = io_fdContexts m -> ctx_ok c' -> fc_fd c' = fc_fd c ->
  (forall event, is_event event -> A' !! (Z.of_nat p, event) = ctx_waits c' event) ->
  (forall fd event, fd <> Z.of_nat p \/ ~ is_event event -> A' !! (fd, event) = A !! (fd, event)) ->
  io_pendingEventCount m' = u64 (Z.of_nat (size A')) ->
  interest k0 !! Z.of_nat p = None ->
  interest (io_kernel m') = (if fc_events c' =? 0 then delete (Z.of_nat p) (interest (io_kernel m)) else <[Z.of_nat p := (Z.lor EPOLLET (fc_events c'), p)]> (interest (io_kernel m))) ->
  represents k0 m' A'.
Proof.
  intros [R1 R2 R3 R4 R5 R6 R7] Hc Es Ev Hok Hfd HA HA' Hcnt Hk0 Hk.
  assert (p < length (io_store m))%nat as Hp by (by eapply lookup_lt_Some).
  assert (io_store m' !! p = Some c') as Hc' by (rewrite Es; by apply list_lookup_insert_eq).
  constructor.
  - by rewrite Ev, Es, length_insert.
  - by rewrite Es, length_insert.
  - intros i ci Hi. rewrite Es in Hi. apply list_lookup_insert_Some in Hi as [(-> & -> & _) | (_ & Hi)]; [| by apply R3]. split; [done |]. rewrite Hfd. by apply R3.
  - intros [fd event]. destruct (decide (fd = Z.of_nat p)) as [-> | Hne].
    + destruct (decide (is_event event)) as [He | He]; [by rewrite (waits_at m' p c'), HA |]. rewrite HA', R4 by tauto. unfold waits. cbn. destruct (_ <? _); [done |]. rewrite Nat2Z.id, Hc, Hc'. cbn. by rewrite !decide_False.
    + rewrite HA', R4 by tauto. unfold waits. cbn. destruct (Z.ltb_spec fd 0); [done |]. by rewrite (store_other p fd m c' m').
  - done.
  - intros fd. rewrite Hk. destruct (decide (fd = Z.of_nat p)) as [-> | Hne].
    + rewrite (registered_at k0 m' p c' Hc'). destruct (fc_events c' =? 0); [by rewrite lookup_delete_eq | by rewrite lookup_insert_eq].
    + transitivity (interest (io_kernel m) !! fd); [destruct (fc_events c' =? 0); [by rewrite lookup_delete_ne | by rewrite lookup_insert_ne] |].
      rewrite R6. unfold registered. destruct (Z.ltb_spec fd 0); [done |]. by rewrite (store_other p fd m c' m').
  - intros i ci Hi Hne. rewrite Es in Hi. apply list_lookup_insert_Some in Hi as [(-> & -> & _) | (_ & Hi)]; [done | by eapply R7].
Qed.

(** ** Calls to [epoll_ctl] *)

Lemma failed_represents k0 m A op fd ev p k : represents k0 m A -> epoll_ctl op fd ev p (io_kernel m) = (k, false) -> represents k0 (put_kernel k m) A.
Proof. intros [R1 R2 R3 R4 R5 R6 R7] Hk. constructor; try done. intros fd'. cbn. rewrite (ctl_fails _ _ _ _ _ _ Hk). apply R6. Qed.

(** Leaving [e] of the events of a context. *)
Lemma shrink_ctl k0 m A p c e k : represents k0 m A -> io_store m !! p = Some c -> fc_events c <> 0 ->
  epoll_ctl (if negb (e =? 0) then EPOLL_CTL_MOD else EPOLL_CTL_DEL) (Z.of_nat p) (Z.lor EPOLLET e) p (io_kernel m) = (k, true) ->
  interest k = if e =? 0 then delete (Z.of_nat p) (interest (io_kernel m)) else <[Z.of_nat p := (Z.lor EPOLLET e, p)]> (interest (io_kernel m)).
Proof. intros R Hc Hne Hk. destruct (e =? 0); cbn in Hk; [by apply ctl_del in Hk as [_ ?] | by apply ctl_mod in Hk as [_ ?]]. Qed.

(** Adding [e] to them. *)
Lemma grow_ctl k0 m A p c e k : represents k0 m A -> io_store m !! p = Some c -> e <> 0 -> (fc_events c = 0 \/ fc_events c <> 0) ->
  epoll_ctl (if negb (fc_events c =? 0) then EPOLL_CTL_MOD else EPOLL_CTL_ADD) (Z.of_nat p) (Z.lor EPOLLET e) p (io_kernel m) = (k, true) ->
  interest k0 !! Z.of_nat p = None /\ interest k = <[Z.of_nat p := (Z.lor EPOLLET e, p)]> (interest (io_kernel m)).
Proof.
  intros R Hc Hne _ Hk. destruct (Z.eqb_spec (fc_events c) 0) as [E | E]; cbn in Hk.
  - apply ctl_add in Hk as [Hno Hk]. split; [| done]. rewrite (rp_interest _ _ _ R), (registered_at k0 m p c Hc), E in Hno. done.
  - apply ctl_mod in Hk as [_ Hk]. split; [| done]. by eapply (rp_mine _ _ _ R).
Qed.

(** ** Operations *)

Lemma count_sub (m : IOManager) (A A' : gmap (Z * Z) task) : io_pendingEventCount m = u64 (Z.of_nat (size A)) -> size A = S (size A') ->
  io_pendingEventCount (count_events (-1) m) = u64 (Z.of_nat (size A')).
Proof. intros E Hs. cbn. rewrite E, Hs. unfold u64, uwrap. rewrite Zplus_mod_idemp_l. f_equal. lia. Qed.

Lemma count_add (m : IOManager) (A A' : gmap (Z * Z) task) : io_pendingEventCount m = u64 (Z.of_nat (size A)) -> size A' = S (size A) ->
  io_pendingEventCount (count_events 1 m) = u64 (Z.of_nat (size A')).
Proof. intros E Hs. cbn. rewrite E, Hs. unfold u64, uwrap. rewrite Zplus_mod_idemp_l. f_equal. lia. Qed.

Lemma size_delete_waiting (A : gmap (Z * Z) task) k t : A !! k = Some t -> size A = S (size (delete k A)).
Proof. intros E. rewrite <- (insert_delete_id A k t E) at 1. apply map_size_insert_None, lookup_delete_eq. Qed.

Lemma waiting_mine k0 m A p c event t : represents k0 m A -> io_store m !! p = Some c -> is_event event -> ctx_waits c event = Some t ->
  fc_events c <> 0 /\ interest k0 !! Z.of_nat p = None.
Proof.
  intros R Hc He Ht. destruct (rp_ctx _ _ _ R p c Hc) as [Hok _]. assert (fc_events c <> 0) as Hne.
  { intros E. pose proof (has_waits c event Hok He) as Hh. rewrite Ht, E in Hh. by destruct He as [-> | ->]. }
  split; [done |]. by eapply (rp_mine _ _ _ R).
Qed.

(** One waiter is taken out, whatever becomes of it; the kernel may be told
    about this event only now. *)
Lemma clear_represents k0 m m' A p c event t : represents k0 m A -> io_store m !! p = Some c -> is_event event -> ctx_waits c event = Some t ->
  io_store m' = <[p := cleared event c]> (io_store m) -> io_fdContexts m' = io_fdContexts m -> io_pendingEventCount m' = io_pendingEventCount (count_events (-1) m) ->
  interest (io_kernel m') = (if Z.ldiff (fc_events c) event =? 0 then delete (Z.of_nat p) (interest (io_kernel m))
                             else <[Z.of_nat p := (Z.lor EPOLLET (Z.ldiff (fc_events c) event), p)]> (interest (io_kernel m))) ->
  represents k0 m' (delete (Z.of_nat p, event) A).
Proof.
  intros R Hc He Ht Es Ev Hn Hk. destruct (waiting_mine k0 m A p c event t R Hc He Ht) as [Hne Hk0]. destruct (rp_ctx _ _ _ R p c Hc) as [Hok Hfd].
  assert (fc_events (cleared event c) = Z.ldiff (fc_events c) event) as Ee by (by destruct He as [-> | ->]).
  assert (A !! (Z.of_nat p, event) = Some t) as HA by (by rewrite (rp_waits _ _ _ R), (waits_at m p c)).
  apply (update_represents k0 m m' A _ p c (cleared event c)); try done.
  - by apply cleared_ok.
  - apply cleared_fd.
  - intros event' He'. rewrite cleared_waits by done. destruct (Z.eqb_spec event' event) as [-> | Hd]; [by rewrite lookup_delete_eq |].
    rewrite lookup_delete_ne by congruence. by rewrite (rp_waits _ _ _ R), (waits_at m p c).
  - intros fd event' Hd. rewrite lookup_delete_ne; [done |]. intros [= <- <-]. tauto.
  - rewrite Hn. eapply count_sub; [apply (rp_count _ _ _ R) | by eapply size_delete_waiting].
  - by rewrite Ee.
Qed.

(** *** Taking out one or both waiters of a descriptor *)

Definition clear_if (b : bool) (event : Z) (c : FdContext) : FdContext := if b then cleared event c else c.
Definition clear_both (br bw : bool) (c : FdContext) : FdContext := clear_if bw Write (clear_if br Read c).
Definition take_if (b : bool) (t : option task) : list task := if b then option_list t else [].
Definition delete_if (b : bool) (k : Z * Z) (A : gmap (Z * Z) task) : gmap (Z * Z) task := if b then delete k A else A.
Definition delete_both (br bw : bool) (fd : Z) (A : gmap (Z * Z) task) : gmap (Z * Z) task := delete_if bw (fd, Write) (delete_if br (fd, Read) A).

(** [m'] is [m] with context [c] at [p] and [n] events less. *)
Definition changed (m m' : IOManager) (p : nat) (c : FdContext) (n : Z) : Prop :=
  io_store m' = <[p := c]> (io_store m) /\ io_fdContexts m' = io_fdContexts m /\ io_kernel m' = io_kernel m /\ io_pendingEventCount m' = u64 (io_pendingEventCount m - n).

Definition implies_waiting (b : bool) (t : option task) : Prop := b = true -> is_Some t.

Lemma trigger_if_spec b event p m c : io_store m !! p = Some c -> ctx_ok c -> is_event event -> implies_waiting b (ctx_waits c event) -> io_pendingEventCount m = u64 (io_pendingEventCount m) ->
  exists m', trigger_if b event p m = Some (m', take_if b (ctx_waits c event)) /\ changed m m' p (clear_if b event c) (Z.b2z b).
Proof.
  intros Hc Hok He Hw Hn. unfold trigger_if. destruct b; cbn [clear_if take_if].
  - destruct (Hw eq_refl) as [t Ht]. rewrite Hc. cbn [mbind option_bind]. rewrite (trigger_spec c event t Hok He Ht), Ht. cbn. eexists. by split.
  - exists m. split; [done |]. unfold changed. rewrite list_insert_id by done. cbn. by rewrite Z.sub_0_r.
Qed.

Lemma clear_if_ok b event c : ctx_ok c -> is_event event -> ctx_ok (clear_if b event c).
Proof. intros. destruct b; [by apply cleared_ok | done]. Qed.

Lemma clear_both_waits br bw c : ctx_waits (clear_both br bw c) Read = (if br then None else ctx_waits c Read) /\ ctx_waits (clear_both br bw c) Write = (if bw then None else ctx_waits c Write).
Proof.
  unfold clear_both, clear_if. split; destruct br, bw; rewrite ?cleared_waits; try done; unfold is_event; auto.
Qed.

Lemma trigger_both br bw p m c : io_store m !! p = Some c -> ctx_ok c -> implies_waiting br (ctx_waits c Read) -> implies_waiting bw (ctx_waits c Write) ->
  io_pendingEventCount m = u64 (io_pendingEventCount m) ->
  exists m1 m2, trigger_if br Read p m = Some (m1, take_if br (ctx_waits c Read)) /\ io_store m1 !! p = Some (clear_if br Read c) /\
    trigger_if bw Write p m1 = Some (m2, take_if bw (ctx_waits c Write)) /\ changed m m2 p (clear_both br bw c) (Z.b2z br + Z.b2z bw).
Proof.
  intros Hc Hok Hr Hw Hn. assert (p < length (io_store m))%nat as Hp by (by eapply lookup_lt_Some).
  destruct (trigger_if_spec br Read p m c Hc Hok (or_introl eq_refl) Hr Hn) as (m1 & E1 & (S1 & V1 & K1 & N1)).
  assert (io_store m1 !! p = Some (clear_if br Read c)) as Hc1 by (rewrite S1; by apply list_lookup_insert_eq).
  assert (ctx_waits (clear_if br Read c) Write = ctx_waits c Write) as Ew by (destruct (clear_both_waits br false c) as [_ E]; exact E).
  destruct (trigger_if_spec bw Write p m1 (clear_if br Read c) Hc1) as (m2 & E2 & (S2 & V2 & K2 & N2)).
  - apply clear_if_ok; [done | by left].
  - by right.
  - by rewrite Ew.
  - rewrite N1. unfold u64, uwrap. by rewrite Zmod_mod.
  - rewrite Ew in E2. exists m1, m2. split; [done |]. split; [done |]. split; [done |]. unfold changed. rewrite S2, V2, K2, N2, S1, V1, K1, N1.
    split; [apply list_insert_insert_eq |]. split; [done |]. split; [done |]. unfold u64, uwrap. rewrite Zminus_mod_idemp_l. f_equal. lia.
Qed.

Lemma size_delete_both (br bw : bool) (fd : Z) (A : gmap (Z * Z) task) : implies_waiting br (A !! (fd, Read)) -> implies_waiting bw (A !! (fd, Write)) ->
  Z.of_nat (size (delete_both br bw fd A)) = Z.of_nat (size A) - (Z.b2z br + Z.b2z bw).
Proof.
  intros Hr Hw. unfold delete_both, delete_if. destruct br.
  - destruct (Hr eq_refl) as [t Ht]. rewrite (size_delete_waiting A _ t Ht). destruct bw; [| cbn; lia].
    destruct (Hw eq_refl) as [t' Ht']. rewrite (size_delete_waiting (delete (fd, Read) A) (fd, Write) t') by (by rewrite lookup_delete_ne). cbn. lia.
  - destruct bw; [| cbn; lia]. destruct (Hw eq_refl) as [t' Ht']. rewrite (size_delete_waiting A (fd, Write) t') by done. cbn. lia.
Qed.

Lemma delete_both_lookup (br bw : bool) (fd : Z) (A : gmap (Z * Z) task) : delete_both br bw fd A !! (fd, Read) = (if br then None else A !! (fd, Read)) /\ delete_both br bw fd A !! (fd, Write) = (if bw then None else A !! (fd, Write)).
Proof.
  unfold delete_both, delete_if. split; destruct br, bw; rewrite ?lookup_delete_eq; try done; rewrite ?lookup_delete_ne by done; by rewrite ?lookup_delete_eq.
Qed.

Lemma delete_both_other (br bw : bool) (fd fd' event : Z) (A : gmap (Z * Z) task) : fd' <> fd \/ ~ is_event event -> delete_both br bw fd A !! (fd', event) = A !! (fd', event).
Proof.
  intros Hd. assert ((fd, Read) <> (fd', event) /\ (fd, Write) <> (fd', event)) as [D1 D2] by (split; intros [= <- <-]; unfold is_event in Hd; tauto).
  unfold delete_both, delete_if. destruct br, bw; by rewrite ?lookup_delete_ne.
Qed.

Lemma clear_both_events br bw c : ctx_ok c -> fc_events (clear_both br bw c) = Z.ldiff (fc_events c) (Z.lor (if br then Read else 0) (if bw then Write else 0)).
Proof. intros [_ _ E]. destruct br, bw; cbn; rewrite E; destruct (ctx_waits c Read), (ctx_waits c Write); done. Qed.

Lemma clear_both_fd br bw c : fc_fd (clear_both br bw c) = fc_fd c.
Proof. destruct br, bw; cbn; by rewrite ?cleared_fd. Qed.

Lemma both_represents k0 m k m' A p c br bw : represents k0 m A -> io_store m !! p = Some c -> fc_events c <> 0 ->
  implies_waiting br (ctx_waits c Read) -> implies_waiting bw (ctx_waits c Write) -> changed (put_kernel k m) m' p (clear_both br bw c) (Z.b2z br + Z.b2z bw) ->
  interest k = (if fc_events (clear_both br bw c) =? 0 then delete (Z.of_nat p) (interest (io_kernel m))
                else <[Z.of_nat p := (Z.lor EPOLLET (fc_events (clear_both br bw c)), p)]> (interest (io_kernel m))) ->
  represents k0 m' (delete_both br bw (Z.of_nat p) A).
Proof.
  intros R Hc Hne Hr Hw (S1 & V1 & K1 & N1) Hk. destruct (rp_ctx _ _ _ R p c Hc) as [Hok Hfd].
  assert (forall event, is_event event -> A !! (Z.of_nat p, event) = ctx_waits c event) as HA by (intros event He; by rewrite (rp_waits _ _ _ R), (waits_at m p c)).
  apply (update_represents k0 m m' A _ p c (clear_both br bw c)); try done.
  - apply clear_if_ok; [apply clear_if_ok; [done | by left] | by right].
  - apply clear_both_fd.
  - destruct (clear_both_waits br bw c) as [W1 W2], (delete_both_lookup br bw (Z.of_nat p) A) as [D1 D2]. intros event [-> | ->].
    + rewrite D1, W1, HA by (by left). done.
    + rewrite D2, W2, HA by (by right). done.
  - intros fd event Hd. by apply delete_both_other.
  - rewrite N1. cbn. rewrite (rp_count _ _ _ R), size_delete_both by (rewrite HA; unfold is_event; auto). unfold u64, uwrap. by rewrite Zminus_mod_idemp_l.
  - by eapply (rp_mine _ _ _ R).
  - by rewrite K1.
Qed.

(** *** Finding the context *)

Lemma size_exceeds_spec k0 m A fd : represents k0 m A -> size_exceeds fd m = (fd <? Z.of_nat (length (io_store m))).
Proof.
  intros R. unfold size_exceeds. rewrite (rp_vec _ _ _ R), length_seq. f_equal. apply swrap_id; [| lia]. pose proof (rp_len _ _ _ R). unfold in_s. lia.
Qed.

Lemma context_at_spec k0 m A fd : represents k0 m A -> 0 <= fd < Z.of_nat (length (io_store m)) ->
  context_at fd m = Some (Z.to_nat fd) /\ exists c, io_store m !! Z.to_nat fd = Some c.
Proof.
  intros R Hfd. split; [| apply lookup_lt_is_Some_2; lia]. unfold context_at. destruct (Z.ltb_spec fd 0); [lia |]. rewrite (rp_vec _ _ _ R). apply lookup_seq. lia.
Qed.

Lemma new_contexts_spec n : forall i (store : list FdContext),
  new_contexts i n store = (store ++ ((fun j => new_FdContext (Z.of_nat j)) <$> seq i n), seq (length store) n).
Proof.
  induction n as [|n IH]; intros i store; cbn [new_contexts seq fmap list_fmap]; [by rewrite app_nil_r |].
  rewrite IH. rewrite length_app. cbn. rewrite <- app_assoc, Nat.add_1_r. done.
Qed.

Lemma new_FdContext_ok fd : ctx_ok (new_FdContext fd).
Proof. constructor; [by left | by left | done]. Qed.

Lemma resize_represents k0 m A size : represents k0 m A -> Z.of_nat (length (io_store m)) <= Z.of_nat size < 2 ^ 31 ->
  represents k0 (contextResize size m) A /\ length (io_store (contextResize size m)) = size.
Proof.
  intros R Hs. destruct R as [R1 R2 R3 R4 R5 R6 R7]. unfold contextResize. rewrite take_ge by (rewrite R1, length_seq; lia). rewrite R1, length_seq, new_contexts_spec. set (len := length (io_store m)) in *.
  assert (forall i, ((io_store m ++ ((fun j => new_FdContext (Z.of_nat j)) <$> seq len (size - len))) : list FdContext) !! i =
    if (i <? len)%nat then io_store m !! i else if (i <? size)%nat then Some (new_FdContext (Z.of_nat i)) else None) as Hl.
  { intros i. destruct (Nat.ltb_spec i len); [by rewrite lookup_app_l |]. rewrite lookup_app_r, list_lookup_fmap by lia. fold len. destruct (Nat.ltb_spec i size).
    - rewrite lookup_seq_lt by lia. cbn. do 3 f_equal. lia.
    - by rewrite lookup_seq_ge by lia. }
  split; [| cbn; rewrite length_app, length_fmap, length_seq; lia]. constructor; cbn [io_store io_fdContexts io_pendingEventCount io_kernel].
  - rewrite length_app, length_fmap, length_seq. fold len. by rewrite seq_app.
  - rewrite length_app, length_fmap, length_seq. lia.
  - intros i c. rewrite Hl. destruct (_ <? _)%nat; [apply R3 |]. destruct (_ <? _)%nat; [| done]. intros [= <-]. split; [apply new_FdContext_ok | done].
  - intros [fd event]. rewrite R4. unfold waits. cbn [fst snd io_store]. destruct (Z.ltb_spec fd 0); [done |]. rewrite Hl. destruct (Nat.ltb_spec (Z.to_nat fd) len); [done |].
    rewrite lookup_ge_None_2 by lia. destruct (_ <? _)%nat; [| done]. cbn. destruct (decide (is_event event)) as [[-> | ->] |]; done.
  - done.
  - intros fd. rewrite R6. unfold registered. cbn [io_store]. destruct (Z.ltb_spec fd 0); [done |]. rewrite Hl. destruct (Nat.ltb_spec (Z.to_nat fd) len); [done |].
    rewrite lookup_ge_None_2 by lia. by destruct (_ <? _)%nat.
  - intros i c. rewrite Hl. destruct (_ <? _)%nat; [apply R7 |]. destruct (_ <? _)%nat; [| done]. by intros [= <-].
Qed.

(** ** The operations on the map of waiters *)

Implicit Types (A : gmap (Z * Z) task) (kernel : K).

Definition waiting_tasks (br bw : bool) (fd : Z) A : list task := take_if br (A !! (fd, Read)) ++ take_if bw (A !! (fd, Write)).

Definition some {X} (o : option X) : bool := match o with Some _ => true | None => false end.

(** The events of a descriptor somebody waits for. *)
Definition waited (fd : Z) A : Z := mask (A !! (fd, Read)) (A !! (fd, Write)).

(** The kernel is told what is still waited for on [fd]. *)
Definition leave (fd : Z) A kernel : K * bool :=
  epoll_ctl (if negb (waited fd A =? 0) then EPOLL_CTL_MOD else EPOLL_CTL_DEL) fd (Z.lor EPOLLET (waited fd A)) (Z.to_nat fd) kernel.

(** What a call of [addEvent] asks to be scheduled. *)
Definition asked (callback : option F) (scheduler : Z) (fiber : positive * FiberState) : task :=
  (scheduler, match callback with Some cb => mk_ft None (Some cb) (-1) | None => mk_ft (Some (fst fiber)) None (-1) end).

(** [addEvent]: the waiter is entered, unless the kernel refuses the event. *)
Definition w_addEvent (fd event : Z) (t : task) A kernel : Z * gmap (Z * Z) task * K :=
  let op := if negb (waited fd A =? 0) then EPOLL_CTL_MOD else EPOLL_CTL_ADD in
  let '(kernel, ok) := epoll_ctl op fd (Z.lor EPOLLET (Z.lor (waited fd A) event)) (Z.to_nat fd) kernel in
  if ok then (0, <[(fd, event) := t]> A, kernel) else (-1, A, kernel).

(** [delEvent] and [cancelEvent]: the waiter, if there is one, is taken out,
    unless the kernel refuses to leave the event out. *)
Definition w_removeEvent (fd event : Z) A kernel : option task * gmap (Z * Z) task * K :=
  match A !! (fd, event) with
  | None => (None, A, kernel)
  | Some t =>
    let '(kernel, ok) := leave fd (delete (fd, event) A) kernel in
    if ok then (Some t, delete (fd, event) A, kernel) else (None, A, kernel)
  end.

(** [cancelAll]: both waiters. *)
Definition w_cancelAll (fd : Z) A kernel : bool * list task * gmap (Z * Z) task * K :=
  if waited fd A =? 0 then (false, [], A, kernel)
  else
    let '(kernel, ok) := epoll_ctl EPOLL_CTL_DEL fd 0 (Z.to_nat fd) kernel in
    if ok then (true, waiting_tasks true true fd A, delete (fd, Write) (delete (fd, Read) A), kernel) else (false, [], A, kernel).

(** The events of an entry that concern a waiter for [event]. *)
Definition reports (events event : Z) (w : option task) : bool := has events event || (has events (Z.lor EPOLLERR EPOLLHUP) && some w).

(** An entry of [epoll_wait]: the waiters it concerns are taken out and
    scheduled, both of them on an error, unless the kernel refuses to leave
    their events out. *)
Definition w_handleEvent (fd events : Z) A kernel : list task * gmap (Z * Z) task * K :=
  let br := reports events EPOLLIN (A !! (fd, Read)) in
  let bw := reports events EPOLLOUT (A !! (fd, Write)) in
  if br || bw then
    let '(kernel, ok) := leave fd (delete_both br bw fd A) kernel in
    if ok then (waiting_tasks br bw fd A, delete_both br bw fd A, kernel) else ([], A, kernel)
  else ([], A, kernel).

(** *** The map in a manager *)

Lemma lookup_ctx k0 m A fd c event : represents k0 m A -> 0 <= fd -> io_store m !! Z.to_nat fd = Some c -> is_event event -> A !! (fd, event) = ctx_waits c event.
Proof. intros R Hfd Hc He. rewrite (rp_waits _ _ _ R). rewrite <- (Z2Nat.id fd) by done. by apply waits_at. Qed.

Lemma waited_ctx k0 m A fd c : represents k0 m A -> 0 <= fd -> io_store m !! Z.to_nat fd = Some c -> waited fd A = fc_events c.
Proof.
  intros R Hfd Hc. destruct (rp_ctx _ _ _ R _ c Hc) as [Hok _]. unfold waited. rewrite !(lookup_ctx k0 m A fd c) by (done || unfold is_event; auto).
  by rewrite (cx_events _ Hok).
Qed.

Lemma waited_both k0 m A fd c br bw : represents k0 m A -> 0 <= fd -> io_store m !! Z.to_nat fd = Some c ->
  waited fd (delete_both br bw fd A) = Z.ldiff (fc_events c) (Z.lor (if br then Read else 0) (if bw then Write else 0)).
Proof.
  intros R Hfd Hc. destruct (rp_ctx _ _ _ R _ c Hc) as [Hok _]. unfold waited. destruct (delete_both_lookup br bw fd A) as [-> ->].
  rewrite !(lookup_ctx k0 m A fd c), (cx_events _ Hok) by (done || unfold is_event; auto). destruct br, bw, (ctx_waits c Read), (ctx_waits c Write); done.
Qed.

Lemma waited_delete k0 m A fd c event : represents k0 m A -> 0 <= fd -> io_store m !! Z.to_nat fd = Some c -> is_event event ->
  waited fd (delete (fd, event) A) = Z.ldiff (fc_events c) event.
Proof. intros R Hfd Hc [-> | ->]; [apply (waited_both k0 m A fd c true false) | apply (waited_both k0 m A fd c false true)]; done. Qed.

Lemma lookup_beyond k0 m A fd event : represents k0 m A -> Z.of_nat (length (io_store m)) <= fd -> A !! (fd, event) = None.
Proof. intros R Hfd. rewrite (rp_waits _ _ _ R). unfold waits. cbn. destruct (fd <? 0); [done |]. by rewrite lookup_ge_None_2 by lia. Qed.

(** *** [addEvent] *)

Lemma register_spec k0 m A p event callback s fiber : represents k0 m A -> (p < length (io_store m))%nat -> is_event event -> A !! (Z.of_nat p, event) = None ->
  callback <> None \/ snd fiber = Execute ->
  let '(r, A', kernel) := w_addEvent (Z.of_nat p) event (asked callback s fiber) A (io_kernel m) in
  exists m', addEvent_register p (Z.of_nat p) event callback (Some s) fiber m = Some (r, m') /\ represents k0 m' A' /\ io_kernel m' = kernel.
Proof.
  intros R Hp He Hno Hf. apply lookup_lt_is_Some_2 in Hp as [c Hc]. destruct (rp_ctx _ _ _ R p c Hc) as [Hok Hfd].
  assert (ctx_waits c event = None) as Hw by (by rewrite <- (waits_at m p c), <- (rp_waits _ _ _ R)).
  unfold addEvent_register, w_addEvent. rewrite Hc. cbn [mbind option_bind]. rewrite has_waits, Hw by done. rewrite <- Z.lor_assoc.
  rewrite (waited_ctx k0 m A (Z.of_nat p) c) by (rewrite ?Nat2Z.id; done || lia). rewrite Nat2Z.id.
  destruct (epoll_ctl _ _ _ _ _) as [k [|]] eqn:Hk; cbn [negb]; [| exists (put_kernel k m); split; [done |]; split; [by eapply failed_represents | done]].
  assert (Z.lor (fc_events c) event <> 0) as Hne by (rewrite (cx_events _ Hok); destruct He as [-> | ->]; destruct (ctx_waits c Read), (ctx_waits c Write); done).
  destruct (grow_ctl k0 m A p c _ k R Hc Hne ltac:(lia) Hk) as [Hk0 Hi].
  set (ctx' := match callback with Some cb => mk_EventContext (Some s) None (Some cb) | None => mk_EventContext (Some s) (Some (fst fiber)) None end).
  assert (task_of ctx' = Some (asked callback s fiber)) as Ht by (unfold ctx', asked; by destruct callback).
  set (c' := put_context event ctx' (put_events (Z.lor (fc_events c) event) c)).
  set (m' := put_ctx p c' (count_events 1 (put_kernel k m))).
  exists m'. split.
  - assert (getContext event (put_events (Z.lor (fc_events c) event) c) = Some empty_EventContext) as Hg.
    { unfold ctx_waits in Hw. destruct He as [-> | ->]; cbn in *; f_equal; apply half_empty; (apply Hok || done). }
    rewrite Hg. cbn [mbind option_bind empty_EventContext]. unfold m', c', ctx'. destruct callback; [done |]. rewrite bool_decide_true by (by destruct Hf). done.
  - assert (ctx_ok c') as Hok' by (apply ctx_ok_put; [done | done | right; rewrite Ht; by eexists | by rewrite Ht]).
    split; [| done]. apply (update_represents k0 m m' A _ p c c'); try done.
    + unfold c', put_context. by destruct (event =? Read).
    + intros event' He'. unfold c'. rewrite waits_put, waits_put_events by done. destruct (Z.eqb_spec event' event) as [-> | Hd]; [by rewrite lookup_insert_eq |].
      rewrite lookup_insert_ne by congruence. by rewrite (rp_waits _ _ _ R), (waits_at m p c).
    + intros fd event' Hd. rewrite lookup_insert_ne; [done |]. intros [= <- <-]. tauto.
    + apply (count_add m A); [apply R | by rewrite map_size_insert_None].
    + assert (fc_events c' = Z.lor (fc_events c) event) as Ee by (unfold c'; by destruct He as [-> | ->]). rewrite Ee. destruct (Z.eqb_spec (Z.lor (fc_events c) event) 0); [done |]. done.
Qed.

Lemma addEvent_spec k0 m A fd event callback s fiber : represents k0 m A -> 0 <= fd < 2 ^ 30 -> is_event event -> A !! (fd, event) = None ->
  callback <> None \/ snd fiber = Execute ->
  let '(r, A', kernel) := w_addEvent fd event (asked callback s fiber) A (io_kernel m) in
  exists m', addEvent fd event callback (Some s) fiber m = Some (r, m') /\ represents k0 m' A' /\ io_kernel m' = kernel.
Proof.
  intros R Hfd He Hno Hf. unfold addEvent, addEvent_lookup. rewrite (size_exceeds_spec k0 m A fd R). destruct (Z.ltb_spec fd (Z.of_nat (length (io_store m)))).
  - destruct (context_at_spec k0 m A fd R ltac:(lia)) as [-> _]. cbn [fmap option_fmap option_map mbind option_bind].
    pose proof (register_spec k0 m A (Z.to_nat fd) event callback s fiber R) as Hr. rewrite Z2Nat.id in Hr by lia. apply Hr; (done || lia).
  - cbn [mbind option_bind]. unfold addEvent_resize. pose proof (rp_len _ _ _ R). assert (fd < fd * 3 / 2 < 2 ^ 31) as Hsz by (Z.to_euclidean_division_equations; lia).
    destruct (resize_represents k0 m A (Z.to_nat (fd * 3 / 2)) R) as [R' Hl]; [rewrite Z2Nat.id by lia; lia |].
    assert (io_kernel (contextResize (Z.to_nat (fd * 3 / 2)) m) = io_kernel m) as Ek by (unfold contextResize; by destruct (new_contexts _ _ _)).
    set (m1 := contextResize _ m) in *. rewrite <- Ek.
    destruct (context_at_spec k0 m1 A fd R') as [-> _]; [lia |]. cbn [mbind option_bind].
    pose proof (register_spec k0 m1 A (Z.to_nat fd) event callback s fiber R') as Hr. rewrite Z2Nat.id in Hr by lia. apply Hr; (done || lia).
Qed.

(** *** [delEvent], [cancelEvent], [cancelAll] *)

(** The part that is common to [delEvent] and [cancelEvent]; [k] is what they
    do with the context when the kernel has agreed. *)
Lemma remove_event_spec k0 m A fd event (ts : task -> list task) k : represents k0 m A -> 0 <= fd -> is_event event ->
  (forall c t kernel, ctx_ok c -> ctx_waits c event = Some t -> exists m', k (Z.to_nat fd) c (Z.ldiff (fc_events c) event) (put_kernel kernel m) = Some (true, m', ts t) /\
     io_store m' = <[Z.to_nat fd := cleared event c]> (io_store m) /\ io_fdContexts m' = io_fdContexts m /\
     io_pendingEventCount m' = io_pendingEventCount (count_events (-1) m) /\ io_kernel m' = kernel) ->
  let '(t, A', kernel) := w_removeEvent fd event A (io_kernel m) in
  exists m', remove_event fd event m k = Some (some t, m', default [] (ts <$> t)) /\ represents k0 m' A' /\ io_kernel m' = kernel.
Proof.
  intros R Hfd He Hgo. unfold remove_event, w_removeEvent. rewrite (size_exceeds_spec k0 m A fd R).
  destruct (Z.ltb_spec fd (Z.of_nat (length (io_store m)))); cbn [negb]; [| rewrite (lookup_beyond k0 m A) by done; by exists m].
  destruct (context_at_spec k0 m A fd R ltac:(lia)) as [-> [c Hc]]. cbn [mbind option_bind]. rewrite Hc. cbn [mbind option_bind]. destruct (rp_ctx _ _ _ R _ c Hc) as [Hok _].
  rewrite has_waits, (lookup_ctx k0 m A fd c) by done. destruct (ctx_waits c event) as [t |] eqn:Ht; cbn [negb]; [| by exists m].
  assert (Z.of_nat (Z.to_nat fd) = fd) as Efd by lia. destruct (waiting_mine k0 m A _ c event t R Hc He Ht) as [Hne _].
  unfold leave. rewrite (waited_delete k0 m A fd c) by done.
  destruct (epoll_ctl _ _ _ _ _) as [kernel [|]] eqn:Hk; cbn [negb]; [| exists (put_kernel kernel m); split; [done |]; split; [by eapply failed_represents | done]].
  destruct (Hgo c t kernel Hok Ht) as (m' & Em & E1 & E2 & E3 & E4). exists m'. split; [done |]. split; [| done].
  rewrite <- Efd. apply (clear_represents k0 m m' A (Z.to_nat fd) c event t); try done. rewrite E4. eapply shrink_ctl; [exact R | exact Hc | done |]. by rewrite Efd.
Qed.

Lemma delEvent_spec k0 m A fd event : represents k0 m A -> 0 <= fd -> is_event event ->
  let '(t, A', kernel) := w_removeEvent fd event A (io_kernel m) in
  exists m', delEvent fd event m = Some (some t, m', []) /\ represents k0 m' A' /\ io_kernel m' = kernel.
Proof.
  intros R Hfd He. unfold delEvent. match goal with |- context [remove_event _ _ _ ?k] => pose proof (remove_event_spec k0 m A fd event (fun _ => []) k R Hfd He) as H1 end.
  destruct (w_removeEvent fd event A (io_kernel m)) as [[t A'] kernel]. destruct H1 as (m' & E & R').
  - intros c t' kernel' _ _. exists (put_ctx (Z.to_nat fd) (cleared event c) (count_events (-1) (put_kernel kernel' m))). split; [by destruct He as [-> | ->] | done].
  - exists m'. rewrite E. by destruct t.
Qed.

Lemma cancelEvent_spec k0 m A fd event : represents k0 m A -> 0 <= fd -> is_event event ->
  let '(t, A', kernel) := w_removeEvent fd event A (io_kernel m) in
  exists m', cancelEvent fd event m = Some (some t, m', option_list t) /\ represents k0 m' A' /\ io_kernel m' = kernel.
Proof.
  intros R Hfd He. unfold cancelEvent. match goal with |- context [remove_event _ _ _ ?k] => pose proof (remove_event_spec k0 m A fd event (fun t => [t]) k R Hfd He) as H1 end.
  destruct (w_removeEvent fd event A (io_kernel m)) as [[t A'] kernel]. destruct H1 as (m' & E & R').
  - intros c t' kernel' Hok Ht. eexists. split; [rewrite (trigger_spec c event t') by done; reflexivity |]. done.
  - exists m'. rewrite E. by destruct t.
Qed.

Lemma pending_u64 k0 m A : represents k0 m A -> io_pendingEventCount m = u64 (io_pendingEventCount m).
Proof. intros R. rewrite (rp_count _ _ _ R). unfold u64, uwrap. by rewrite Zmod_mod. Qed.

Lemma cancelAll_spec k0 m A fd : represents k0 m A -> 0 <= fd ->
  let '(r, ts, A', kernel) := w_cancelAll fd A (io_kernel m) in
  exists m', cancelAll fd m = Some (r, m', ts) /\ represents k0 m' A' /\ io_kernel m' = kernel.
Proof.
  intros R Hfd. unfold cancelAll, w_cancelAll. rewrite (size_exceeds_spec k0 m A fd R).
  destruct (Z.ltb_spec fd (Z.of_nat (length (io_store m)))); cbn [negb]; [| unfold waited; rewrite !(lookup_beyond k0 m A) by done; by exists m].
  destruct (context_at_spec k0 m A fd R ltac:(lia)) as [-> [c Hc]]. cbn [mbind option_bind]. rewrite Hc. cbn [mbind option_bind]. destruct (rp_ctx _ _ _ R _ c Hc) as [Hok _].
  rewrite (waited_ctx k0 m A fd c) by done. destruct (Z.eqb_spec (fc_events c) 0) as [|Hne]; [by exists m |].
  destruct (epoll_ctl _ _ _ _ _) as [k [|]] eqn:Hk; cbn [negb]; [| exists (put_kernel k m); split; [done |]; split; [by eapply failed_represents | done]].
  assert (Z.of_nat (Z.to_nat fd) = fd) as Efd by lia. assert (forall event, is_event event -> A !! (fd, event) = ctx_waits c event) as HA by (intros event He; by eapply lookup_ctx).
  set (br := some (ctx_waits c Read)). set (bw := some (ctx_waits c Write)). set (p := Z.to_nat fd) in *.
  assert (implies_waiting br (ctx_waits c Read)) as Ir by (unfold br; destruct (ctx_waits c Read); [by eexists | done]).
  assert (implies_waiting bw (ctx_waits c Write)) as Iw by (unfold bw; destruct (ctx_waits c Write); [by eexists | done]).
  destruct (trigger_both br bw p (put_kernel k m) c Hc Hok Ir Iw (pending_u64 k0 m A R)) as (m1 & m2 & E1 & Hc1 & E2 & C2).
  assert (has (events_of p (put_kernel k m)) Read = br) as -> by (unfold events_of; cbn; rewrite Hc; by apply has_waits; [| left]).
  rewrite E1. cbn [mbind option_bind].
  assert (has (events_of p m1) Write = bw) as ->.
  { unfold events_of. rewrite Hc1. cbn [fmap option_fmap option_map from_option id]. rewrite has_waits; [| apply clear_if_ok; [done | by left] | by right].
    destruct (clear_both_waits br false c) as [_ E]. unfold clear_both in E. cbn [clear_if] in E. by rewrite E. }
  rewrite E2. cbn [mbind option_bind]. assert (fc_events (clear_both br bw c) = 0) as Ez.
  { rewrite clear_both_events, (cx_events _ Hok) by done. unfold br, bw. by destruct (ctx_waits c Read), (ctx_waits c Write). }
  assert (events_of p m2 = 0) as ->.
  { destruct C2 as (S2 & _). unfold events_of. rewrite S2, list_lookup_insert_eq by (cbn; lia). exact Ez. }
  exists m2. split; [| split; [| by destruct C2 as (_ & _ & -> & _)]].
  - do 2 f_equal. unfold waiting_tasks. rewrite !HA by (unfold is_event; auto). unfold br, bw. by destruct (ctx_waits c Read), (ctx_waits c Write).
  - assert (represents k0 m2 (delete_both br bw fd A)) as R2.
    { rewrite <- Efd. apply (both_represents k0 m k m2 A p c br bw); try done. rewrite Ez, Efd. cbn. by apply ctl_del in Hk as [_ ?]. }
    replace (delete (fd, Write) (delete (fd, Read) A)) with (delete_both br bw fd A); [done |]. unfold delete_both, delete_if.
    assert (br = false -> A !! (fd, Read) = None) as Dr by (unfold br; rewrite HA by (by left); by destruct (ctx_waits c Read)).
    assert (bw = false -> A !! (fd, Write) = None) as Dw by (unfold bw; rewrite HA by (by right); by destruct (ctx_waits c Write)).
    destruct br; [| rewrite (delete_id A (fd, Read)) by auto]; (destruct bw; [done |]); symmetry; apply delete_id; rewrite ?lookup_delete_ne by done; auto.
Qed.

(** *** Events of the loop *)

Lemma has_lor a b e : has (Z.lor a b) e = has a e || has b e.
Proof.
  unfold has. rewrite Z.land_lor_distr_l. destruct (Z.eqb_spec (Z.land a e) 0) as [-> | Ha]; [by rewrite Z.lor_0_l |]. cbn [negb orb]. apply negb_true_iff, Z.eqb_neq.
  rewrite Z.lor_eq_0_iff. tauto.
Qed.

(** What [epoll_wait] may report when nothing has changed since: events that
    are waited for. *)
Definition reported (events fd : Z) (A : gmap (Z * Z) task) : Prop :=
  implies_waiting (has events EPOLLIN) (A !! (fd, Read)) /\ implies_waiting (has events EPOLLOUT) (A !! (fd, Write)).

Lemma handle_event_spec k0 m A p events : represents k0 m A -> (p < length (io_store m))%nat -> reported events (Z.of_nat p) A ->
  let '(ts, A', kernel) := w_handleEvent (Z.of_nat p) events A (io_kernel m) in
  exists m', handle_event (FdEvent p events) m = Some (m', ts) /\ represents k0 m' A' /\ io_kernel m' = kernel.
Proof.
  intros R Hp [Hr Hw]. apply lookup_lt_is_Some_2 in Hp as [c Hc]. destruct (rp_ctx _ _ _ R p c Hc) as [Hok Hfd].
  assert (forall event, is_event event -> A !! (Z.of_nat p, event) = ctx_waits c event) as HA by (intros event He; by rewrite (rp_waits _ _ _ R), (waits_at m _ c)).
  rewrite HA in Hr, Hw by (unfold is_event; auto). unfold w_handleEvent, reports. rewrite !HA by (unfold is_event; auto).
  unfold handle_event. rewrite Hc. cbn [mbind option_bind].
  set (events' := if has events (Z.lor EPOLLERR EPOLLHUP) then _ else events).
  assert (has events' EPOLLIN = has events EPOLLIN || (has events (Z.lor EPOLLERR EPOLLHUP) && some (ctx_waits c Read))) as ->.
  { unfold events'. destruct (has events (Z.lor EPOLLERR EPOLLHUP)); [| by rewrite orb_false_r]. rewrite has_lor. f_equal. rewrite (cx_events _ Hok). by destruct (ctx_waits c Read), (ctx_waits c Write). }
  assert (has events' EPOLLOUT = has events EPOLLOUT || (has events (Z.lor EPOLLERR EPOLLHUP) && some (ctx_waits c Write))) as ->.
  { unfold events'. destruct (has events (Z.lor EPOLLERR EPOLLHUP)); [| by rewrite orb_false_r]. rewrite has_lor. f_equal. rewrite (cx_events _ Hok). by destruct (ctx_waits c Read), (ctx_waits c Write). }
  clear events'. set (br := has events EPOLLIN || _). set (bw := has events EPOLLOUT || _).
  assert (implies_waiting br (ctx_waits c Read)) as Ir.
  { unfold br. intros E. apply orb_true_iff in E as [E | E]; [by apply Hr |]. apply andb_true_iff in E as [_ E]. destruct (ctx_waits c Read); [by eexists | done]. }
  assert (implies_waiting bw (ctx_waits c Write)) as Iw.
  { unfold bw. intros E. apply orb_true_iff in E as [E | E]; [by apply Hw |]. apply andb_true_iff in E as [_ E]. destruct (ctx_waits c Write); [by eexists | done]. }
  clearbody br bw. set (real := Z.lor _ _). assert (real = Z.lor (if br then Read else 0) (if bw then Write else 0)) as Er by done.
  assert ((Z.land (fc_events c) real =? None_) = negb (br || bw)) as ->.
  { rewrite Er, (cx_events _ Hok). unfold implies_waiting in *. destruct br; [destruct Ir as [t ->]; [done |] |]; (destruct bw; [destruct Iw as [t' ->]; [done |] |]);
      destruct (ctx_waits c Read), (ctx_waits c Write); done. }
  destruct (br || bw) eqn:Hb; cbn [negb]; [| by exists m]. assert (fc_events c <> 0) as Hev.
  { apply orb_true_iff in Hb as [-> | ->]; [destruct (Ir eq_refl) as [t Ht]; by apply (waiting_mine k0 m A p c Read t); [| | left |] |
      destruct (Iw eq_refl) as [t Ht]; by apply (waiting_mine k0 m A p c Write t); [| | right |]]. }
  unfold leave. rewrite Hfd, (waited_both k0 m A (Z.of_nat p) c br bw), <- Er by (rewrite ?Nat2Z.id; done || lia). rewrite Nat2Z.id.
  destruct (epoll_ctl _ _ _ _ _) as [k [|]] eqn:Hk; cbn [negb]; [| exists (put_kernel k m); split; [done |]; split; [by eapply failed_represents | done]].
  destruct (trigger_both br bw p (put_kernel k m) c Hc Hok Ir Iw (pending_u64 k0 m A R)) as (m1 & m2 & E1 & _ & E2 & C2).
  assert (has real Read = br /\ has real Write = bw) as [-> ->] by (rewrite Er; by destruct br, bw). rewrite E1. cbn [mbind option_bind]. rewrite E2. cbn [mbind option_bind].
  exists m2. split; [unfold waiting_tasks; by rewrite !HA by (unfold is_event; auto) |]. split; [| by destruct C2 as (_ & _ & -> & _)].
  apply (both_represents k0 m k m2 A p c br bw); try done. rewrite clear_both_events, <- Er by done. by eapply shrink_ctl.
Qed.

End IOManagerFacts.
