(* ===== verification/IOManagerClaims.v ===== *)
(** * Claims about the IO manager

    Any sequence of calls acts on a map of waiters, which the counter and the
    kernel's interest list follow; the time the loop sleeps; and two orders of
    steps of several threads in which the manager fails. *)

From stdpp Require Import base list list_numbers numbers option gmap fin_maps fin_sets.
From Stdlib Require Import ZArith Lia.
From S2P Require Import Prelude.
From S2P Require Import Scheduler.
From S2P Require Import Timer.
From S2P Require Import IOManager.
From S2P Require Import IOManagerFacts.

Local Open Scope Z_scope.

(** ** Sequences of calls *)

Section Calls.

Context {F K : Type} `{EpollOps K}.
Abbreviation IOManager := (@IOManager.IOManager F K).
Abbreviation task := (@IOManager.task F).
Implicit Types m : IOManager.

Inductive io_call :=
| AddEvent (fd event : Z) (callback : option F) (scheduler : option Z) (fiber : positive * FiberState)
| DelEvent (fd event : Z)
| CancelEvent (fd event : Z)
| CancelAll (fd : Z)
| HandleEvent (e : epoll_event).

(** The result (a [bool] as 0 or 1), the state and what was scheduled. *)
Definition io_exec (c : io_call) m : option (Z * IOManager * list task) :=
  match c with
  | AddEvent fd event callback scheduler fiber => '(r, m) ← addEvent fd event callback scheduler fiber m; Some (r, m, [])
  | DelEvent fd event => '(r, m, ts) ← delEvent fd event m; Some (Z.b2z r, m, ts)
  | CancelEvent fd event => '(r, m, ts) ← cancelEvent fd event m; Some (Z.b2z r, m, ts)
  | CancelAll fd => '(r, m, ts) ← cancelAll fd m; Some (Z.b2z r, m, ts)
  | HandleEvent e => '(m, ts) ← handle_event e m; Some (0, m, ts)
  end.

Fixpoint io_run (cs : list io_call) m : option (list (Z * list task) * IOManager) :=
  match cs with
  | [] => Some ([], m)
  | c :: cs =>
    '(r, m, ts) ← io_exec c m;
    '(rs, m) ← io_run cs m;
    Some ((r, ts) :: rs, m)
  end.

(** What a caller has to respect: a descriptor below [2^30], one event at a
    time, no second waiter for an event, a scheduler and a running fiber; and
    [epoll_wait] reports what is waited for. *)
Definition io_allowed (c : io_call) m : Prop :=
  match c with
  | AddEvent fd event callback scheduler fiber =>
    0 <= fd < 2 ^ 30 /\ is_event event /\ waits m (fd, event) = None /\ is_Some scheduler /\ (callback <> None \/ snd fiber = Execute)
  | DelEvent fd event | CancelEvent fd event => 0 <= fd /\ is_event event
  | CancelAll fd => 0 <= fd
  | HandleEvent TickleEvent => True
  | HandleEvent (FdEvent p events) =>
    (p < length (io_store m))%nat /\ implies_waiting (has events EPOLLIN) (waits m (Z.of_nat p, Read)) /\
    implies_waiting (has events EPOLLOUT) (waits m (Z.of_nat p, Write))
  end.

Fixpoint io_allowed_run (cs : list io_call) m : Prop :=
  match cs with
  | [] => True
  | c :: cs => io_allowed c m /\ match io_exec c m with Some (_, m', _) => io_allowed_run cs m' | None => True end
  end.

(** ** The map of waiters *)

(** The same call on the map of waiters and the kernel. *)
Definition w_exec (c : io_call) (A : gmap (Z * Z) task) (kernel : K) : Z * list task * gmap (Z * Z) task * K :=
  match c with
  | AddEvent fd event callback scheduler fiber =>
    let '(r, A, kernel) := w_addEvent fd event (asked callback (default 0 scheduler) fiber) A kernel in (r, [], A, kernel)
  | DelEvent fd event => let '(t, A, kernel) := w_removeEvent fd event A kernel in (Z.b2z (some t), [], A, kernel)
  | CancelEvent fd event => let '(t, A, kernel) := w_removeEvent fd event A kernel in (Z.b2z (some t), option_list t, A, kernel)
  | CancelAll fd => let '(r, ts, A, kernel) := w_cancelAll fd A kernel in (Z.b2z r, ts, A, kernel)
  | HandleEvent TickleEvent => (0, [], A, kernel)
  | HandleEvent (FdEvent p events) => let '(ts, A, kernel) := w_handleEvent (Z.of_nat p) events A kernel in (0, ts, A, kernel)
  end.

Fixpoint w_run (cs : list io_call) (A : gmap (Z * Z) task) (kernel : K) : list (Z * list task) * gmap (Z * Z) task * K :=
  match cs with
  | [] => ([], A, kernel)
  | c :: cs =>
    let '(r, ts, A, kernel) := w_exec c A kernel in
    let '(rs, A, kernel) := w_run cs A kernel in
    ((r, ts) :: rs, A, kernel)
  end.

Lemma exec_answers `{!Epoll K} k0 c m A : represents k0 m A -> io_allowed c m ->
  let '(r, ts, A', kernel) := w_exec c A (io_kernel m) in
  exists m', io_exec c m = Some (r, m', ts) /\ represents k0 m' A' /\ io_kernel m' = kernel.
Proof.
  intros R Ha. destruct c as [fd event callback scheduler fiber | fd event | fd event | fd | [| p events]]; cbn [io_exec io_allowed w_exec] in *.
  - destruct Ha as (Hfd & He & Hw & [s ->] & Hf). cbn [default from_option id]. rewrite <- (rp_waits _ _ _ R) in Hw.
    pose proof (addEvent_spec k0 m A fd event callback s fiber R Hfd He Hw Hf) as Hs. destruct (w_addEvent _ _ _ _ _) as [[r A'] kernel]. destruct Hs as (m' & -> & R'). by exists m'.
  - destruct Ha as [Hfd He]. pose proof (delEvent_spec k0 m A fd event R Hfd He) as Hs. destruct (w_removeEvent _ _ _ _) as [[t A'] kernel]. destruct Hs as (m' & -> & R'). by exists m'.
  - destruct Ha as [Hfd He]. pose proof (cancelEvent_spec k0 m A fd event R Hfd He) as Hs. destruct (w_removeEvent _ _ _ _) as [[t A'] kernel]. destruct Hs as (m' & -> & R'). by exists m'.
  - pose proof (cancelAll_spec k0 m A fd R Ha) as Hs. destruct (w_cancelAll _ _ _) as [[[r ts] A'] kernel]. destruct Hs as (m' & -> & R'). by exists m'.
  - by exists m.
  - destruct Ha as (Hp & Hr & Hw). pose proof (handle_event_spec k0 m A p events R Hp) as Hs. destruct (w_handleEvent _ _ _ _) as [[ts A'] kernel].
    destruct Hs as (m' & -> & R'); [unfold reported; by rewrite !(rp_waits _ _ _ R) |]. by exists m'.
Qed.

Lemma run_answers `{!Epoll K} k0 cs : forall m A, represents k0 m A -> io_allowed_run cs m ->
  let '(rs, A', kernel) := w_run cs A (io_kernel m) in
  exists m', io_run cs m = Some (rs, m') /\ represents k0 m' A' /\ io_kernel m' = kernel.
Proof.
  induction cs as [|c cs IH]; intros m A R Ha; [by exists m |]. destruct Ha as [Ha Has]. cbn [w_run io_run]. pose proof (exec_answers k0 c m A R Ha) as Hc.
  destruct (w_exec c A (io_kernel m)) as [[[r ts] A1] k1]. destruct Hc as (m1 & E & R1 & <-). rewrite E in Has |- *. cbn [mbind option_bind].
  specialize (IH m1 A1 R1 Has). destruct (w_run cs A1 (io_kernel m1)) as [[rs A2] k2]. destruct IH as (m2 & -> & R2). by exists m2.
Qed.

Lemma new_represents_empty (k0 : K) : represents k0 (new_IOManager k0) (∅ : gmap (Z * Z) task).
Proof.
  unfold new_IOManager, contextResize. rewrite new_contexts_spec. cbn [take length io_fdContexts io_store app Nat.sub].
  assert (forall i (c : FdContext (F := F)), ((fun j => new_FdContext (Z.of_nat j)) <$> seq 0 32) !! i = Some c -> c = new_FdContext (Z.of_nat i)) as Hl.
  { intros i c Hi. apply list_lookup_fmap_Some in Hi as (j & -> & Hj). apply lookup_seq in Hj as [-> _]. done. }
  constructor; cbn [io_store io_fdContexts io_pendingEventCount io_kernel]; try done.
  - intros i c Hi. apply Hl in Hi as ->. split; [apply new_FdContext_ok | done].
  - intros [fd event]. rewrite lookup_empty. unfold waits. cbn [fst snd io_store]. destruct (fd <? 0); [done |]. destruct (_ !! Z.to_nat fd) as [c |] eqn:E; [| done].
    apply Hl in E as ->. cbn. destruct (decide (is_event event)) as [[-> | ->] |]; done.
  - intros fd. unfold registered. cbn [io_store]. destruct (fd <? 0); [done |]. destruct (_ !! Z.to_nat fd) as [c |] eqn:E; [| done]. by apply Hl in E as ->.
  - intros i c Hi. by apply Hl in Hi as ->.
Qed.

Lemma length_pairs {X Y} (f g : X -> Y) (l : list X) : length (l ≫= fun i => [f i; g i]) = (length l * 2)%nat.
Proof. induction l as [|x l IH]; [done |]. cbn. f_equal. f_equal. exact IH. Qed.

(** There are at most two waiters per descriptor, so the counter does not wrap. *)
Lemma waiters_bound k0 m A : represents k0 m A -> Z.of_nat (size A) < 2 ^ 33.
Proof.
  intros R. set (keys := seq 0 (length (io_store m)) ≫= fun i => [(Z.of_nat i, Read); (Z.of_nat i, Write)]).
  assert ((map_to_list A).*1 ⊆+ keys) as Hsub.
  { apply NoDup_submseteq; [apply NoDup_fst_map_to_list |]. intros [fd event] Hin. apply list_elem_of_fmap in Hin as ([[fd' event'] t] & [= <- <-] & Ht%elem_of_map_to_list). cbn in *.
    rewrite (rp_waits _ _ _ R) in Ht. unfold waits in Ht. cbn in Ht. destruct (Z.ltb_spec fd 0); [done |].
    destruct (io_store m !! Z.to_nat fd) as [c |] eqn:Ec; [| done]. cbn in Ht. apply lookup_lt_Some in Ec. unfold keys. apply list_elem_of_bind. exists (Z.to_nat fd). split; [| apply elem_of_seq; lia].
    rewrite Z2Nat.id by lia. destruct (decide (is_event event)) as [[-> | ->] |]; [| | done]; rewrite !elem_of_cons; auto. }
  apply submseteq_length in Hsub. rewrite length_fmap, length_map_to_list in Hsub. pose proof (rp_len _ _ _ R).
  assert (length keys = length (io_store m) * 2)%nat as Hlen; [| lia].
  unfold keys. by rewrite length_pairs, length_seq.
Qed.

(** C21: the IO manager is a map of waiters.  For any kernel that keeps its
    promises, any sequence of calls that respects their contracts runs without
    a failed assertion, and each call answers, schedules and asks the kernel as
    the map does: [addEvent] enters a waiter and returns 0, [delEvent] drops it
    unscheduled, [cancelEvent] and [cancelAll] schedule it and drop it, an
    event of the loop schedules exactly the waiters it concerns, both of them
    on an error; a call on a waiter that is there is refused, and changes
    nothing, only when the one [epoll_ctl] it makes fails.  At the end the
    manager's waiters are the map's,
    [_pendingEventCount] is their number, the kernel's interest list
    has every descriptor with a waiter, with exactly the events waited for and
    the address of its context, and no other but those of before; and the loop
    stops exactly when there is no timer, no waiter, and the scheduler stops. *)
Theorem IOManager_refines_waiters `{!Epoll K} k0 cs : io_allowed_run cs (new_IOManager k0) ->
  let '(rs, A, kernel) := w_run cs ∅ k0 in
  exists m, io_run cs (new_IOManager k0) = Some (rs, m) /\ io_kernel m = kernel /\ (forall k, waits m k = A !! k) /\
    io_pendingEventCount m = Z.of_nat (size A) /\
    (forall fd, interest kernel !! fd = if waited fd A =? 0 then interest k0 !! fd else Some (Z.lor EPOLLET (waited fd A), Z.to_nat fd)) /\
    (forall timeout w, io_stopping timeout m w = true <-> timeout = NO_TIMER /\ A = ∅ /\ is_stopping w = true).
Proof.
  intros Ha. pose proof (run_answers k0 cs _ _ (new_represents_empty k0) Ha) as Hr. change (io_kernel (new_IOManager k0)) with k0 in Hr.
  destruct (w_run cs ∅ k0) as [[rs A] kernel]. destruct Hr as (m & E & R & <-). exists m. split; [done |]. split; [done |].
  split; [intros k; by rewrite (rp_waits _ _ _ R) |]. assert (io_pendingEventCount m = Z.of_nat (size A)) as Hn.
  { rewrite (rp_count _ _ _ R). apply uwrap_id. pose proof (waiters_bound k0 m A R). unfold in_u. lia. }
  split; [done |]. split.
  - intros fd. unfold waited. rewrite (rp_interest _ _ _ R), !(rp_waits _ _ _ R). unfold registered, waits. cbn [fst snd]. destruct (fd <? 0); [done |].
    destruct (io_store m !! Z.to_nat fd) as [c |] eqn:Ec; [| done]. cbn [mbind option_bind]. rewrite !decide_True by (unfold is_event; auto).
    by rewrite (cx_events c) by (by apply (rp_ctx _ _ _ R _ c Ec)).
  - intros timeout w. unfold io_stopping. rewrite !andb_true_iff, !Z.eqb_eq, Hn. assert (Z.of_nat (size A) = 0 <-> A = ∅) as <-; [| tauto].
    rewrite <- (map_size_empty_iff A). lia.
Qed.

End Calls.

(** ** How long the loop sleeps *)

(** [epoll_wait] returns after at most [limit] milliseconds; with a negative
    timeout it waits until there is an event. *)
Definition sleeps_at_most (limit timeout : Z) : Prop := 0 <= timeout <= limit.
Definition sleeps_unbounded (timeout : Z) : Prop := timeout < 0.

(** C22: what the loop passes to [epoll_wait], however often it is interrupted:
    with a timer due within [2^31] milliseconds at most [MAX_TIMEOUT], never
    negative and never later than the timer; without a timer [MAX_TIMEOUT].
    But for a timer due between [2^31] and [2^32] milliseconds from now (24.8
    to 49.7 days) the conversion to [int] is negative, and [epoll_wait] then
    waits without a limit. *)
Theorem wait_timeout_bounds n t :
  (0 <= t < 2 ^ 31 -> sleeps_at_most (Z.min MAX_TIMEOUT t) (wait_timeout n t)) /\
  wait_timeout n NO_TIMER = MAX_TIMEOUT /\
  (2 ^ 31 <= t < 2 ^ 32 -> sleeps_unbounded (wait_timeout n t)).
Proof.
  assert (forall t, 0 <= t < 2 ^ 31 -> i32 t = t) as Hi by (intros u Hu; apply swrap_id; [unfold in_s; lia | lia]).
  assert (forall n t, 0 <= t < 2 ^ 31 -> wait_timeout n t = Z.min MAX_TIMEOUT t) as Hw.
  { induction n0 as [|n0 IH]; intros u Hu; cbn [wait_timeout]; unfold clip_timeout; (destruct (Z.eqb_spec u NO_TIMER) as [-> |]; [unfold NO_TIMER in Hu; lia |]); cbn [negb]; rewrite (Hi u Hu);
      unfold MAX_TIMEOUT in *; destruct (Z.ltb_spec 3000 u); rewrite ?Hi, ?IH; lia. }
  split; [intros Ht; unfold sleeps_at_most; rewrite Hw by done; unfold MAX_TIMEOUT; lia |]. split.
  - destruct n as [|n]; [done |]. change (wait_timeout n MAX_TIMEOUT = MAX_TIMEOUT). by rewrite Hw.
  - intros Ht. assert (i32 t = t - 2 ^ 32) as Et by (unfold i32, swrap; rewrite (Z.mod_eq _ (2 ^ 32)) by lia; assert ((t + 2 ^ (32 - 1)) / 2 ^ 32 = 1) as -> by (Z.to_euclidean_division_equations; lia); lia).
    assert (clip_timeout t = t) as Ec. { unfold clip_timeout. destruct (Z.eqb_spec t NO_TIMER) as [-> |]; [unfold NO_TIMER in Ht; lia |]. cbn [negb]. rewrite Et. unfold MAX_TIMEOUT. destruct (Z.ltb_spec 3000 (t - 2 ^ 32)); [lia | done]. }
    induction n as [|n IH]; unfold sleeps_unbounded in *; cbn [wait_timeout]; rewrite Ec; [lia | done].
Qed.

(** ** A kernel *)

Definition interest_list : Type := gmap Z (Z * nat).

#[export] Instance interest_list_ops : EpollOps interest_list := {
  epoll_ctl op fd ev p k :=
    match op, (k : gmap Z (Z * nat)) !! fd with
    | EPOLL_CTL_ADD, None | EPOLL_CTL_MOD, Some _ => (<[fd := (ev, p)]> k, true)
    | EPOLL_CTL_DEL, Some _ => (delete fd k, true)
    | _, _ => (k, false)
    end;
  interest k := k;
}.

#[export] Instance interest_list_epoll : Epoll interest_list.
Proof.
  constructor.
  - intros op fd ev p k k'. cbn. destruct op, (_ !! fd); by intros [= <-].
  - intros fd ev p k k'. cbn. destruct (_ !! fd); by intros [= <-].
  - intros fd ev p k k'. cbn. destruct (_ !! fd) eqn:E; intros [= <-]. split; [by eexists | done].
  - intros fd ev p k k'. cbn. destruct (_ !! fd) eqn:E; intros [= <-]. split; [by eexists | done].
Qed.

(** ** Orders of steps that fail *)

Section Races.

Context {F : Type}.

(** C23: two races.  First: an event that [delEvent] has removed after
    [epoll_wait] reported it makes the loop's assertion fail, when the
    descriptor still has its other event: the loop does not leave out what is
    no longer waited for.  Second: two threads that both find [_fdContexts]
    too short; the one with the smaller descriptor resizes last and cuts off
    the other's context: its waiter is still counted and registered with the
    kernel, but can be neither deleted, nor cancelled, nor waited for again. *)
Theorem IOManager_races (cb1 cb2 : F) (fiber : positive * FiberState) :
  let m0 := new_IOManager (∅ : interest_list) in
  let both := Z.lor EPOLLIN EPOLLOUT in
  (exists rs m1 m2, io_run [AddEvent 5 Read (Some cb1) (Some 0) fiber; AddEvent 5 Write (Some cb2) (Some 0) fiber] m0 = Some (rs, m1) /\
     io_allowed (HandleEvent (FdEvent 5 both)) m1 /\ io_exec (DelEvent 5 Write) m1 = Some (1, m2, []) /\ handle_event (FdEvent 5 both) m2 = None) /\
  (exists p1 m1 m2 p2 m3, addEvent_lookup 100 m0 = Some None /\ addEvent_lookup 40 m0 = Some None /\
     addEvent_resize 100 m0 = Some (p1, m1) /\ addEvent_register p1 100 Read (Some cb1) (Some 0) fiber m1 = Some (0, m2) /\
     addEvent_resize 40 m2 = Some (p2, m3) /\
     io_pendingEventCount m3 = 1 /\ interest (io_kernel m3) !! 100 = Some (Z.lor EPOLLET EPOLLIN, p1) /\
     delEvent 100 Read m3 = Some (false, m3, []) /\ cancelEvent 100 Read m3 = Some (false, m3, []) /\ cancelAll 100 m3 = Some (false, m3, []) /\
     fst <$> addEvent 100 Write (Some cb2) (Some 0) fiber m3 = Some (-1)).
Proof.
  intros m0 both. split.
  - eexists _, _, _. split; [vm_compute; reflexivity |]. split; [split; [vm_compute; lia |]; split; intros _; eexists; vm_compute; reflexivity |].
    split; [vm_compute; reflexivity |]. vm_compute. reflexivity.
  - eexists _, _, _, _, _. do 10 (split; [vm_compute; reflexivity |]). vm_compute. reflexivity.
Qed.

End Races.

(** A descriptor with a reader and a writer; an error wakes both. *)
Definition sample_io : list (io_call (F := Z)) :=
  [AddEvent 40 Read (Some 7) (Some 0) (3%positive, Execute); AddEvent 40 Write None (Some 0) (3%positive, Execute);
   AddEvent 2 Read (Some 8) (Some 0) (3%positive, Execute); HandleEvent (FdEvent 40 EPOLLERR); DelEvent 40 Read].

Lemma IOManager_refines_waiters_witness : exists rs m A kernel,
  io_run sample_io (new_IOManager (∅ : interest_list)) = Some (rs, m) /\ w_run sample_io ∅ (∅ : interest_list) = (rs, A, kernel) /\
  io_pendingEventCount m = 1 /\ io_pendingEventCount m = Z.of_nat (size A) /\
  rs = [(0, []); (0, []); (0, []); (0, [(0, mk_ft None (Some 7) (-1)); (0, mk_ft (Some 3%positive) None (-1))]); (0, [])].
Proof.
  pose proof (IOManager_refines_waiters (∅ : interest_list) sample_io) as Hs. destruct (w_run sample_io ∅ (∅ : interest_list)) as [[rs A] kernel].
  destruct Hs as (m & E & _ & _ & Hn & _).
  - vm_compute. repeat match goal with
      | |- _ /\ _ => split
      | |- ex _ => by eexists
      | |- _ = _ => reflexivity
      | |- _ \/ _ => first [left; reflexivity | right; reflexivity | left; discriminate]
      | |- (_ <= _)%nat => lia
      | |- True => exact I
      | |- _ -> _ => discriminate
      end.
  - exists rs, m, A, kernel. split; [done |]. split; [done |]. vm_compute in E. injection E as <- <-. split; [done |]. split; [done |]. done.
Defined.
