(* ===== verification/Connection.v ===== *)
(** * A connected socket behind a [Stream]

    [SocketStream::read] and [write] of a plain buffer, and the loops
    [Stream::readFixSize] and [writeFixSize] over them.  What the kernel does is
    part of the connection: the bytes the peer has sent and will send, and for
    each call of [recv] and [send] how many bytes it moves at most, or the value
    it fails with. *)

From stdpp Require Import base list numbers option.
From Stdlib Require Import ZArith Lia.
From S2P Require Import Prelude.

Local Open Scope Z_scope.

Record Conn := mk_Conn {
  c_open : bool;
  c_in : list Z;
  c_recvs : nat -> Z;
  c_nrecv : nat;
  c_out : list Z;
  c_sends : nat -> Z;
  c_nsend : nat;
}.

Definition put_in (l : list Z) (c : Conn) : Conn := mk_Conn (c_open c) l (c_recvs c) (c_nrecv c + 1) (c_out c) (c_sends c) (c_nsend c).
Definition put_out (l : list Z) (c : Conn) : Conn := mk_Conn (c_open c) (c_in c) (c_recvs c) (c_nrecv c) l (c_sends c) (c_nsend c + 1).

(** [recv]: no bytes and 0 at the end of the stream. *)
Definition recv (len : nat) : M Conn (Z * list Z) := fun c =>
  let v := c_recvs c (c_nrecv c) in
  if v <=? 0 then Ret (v, []) (put_in (c_in c) c)
  else
    let bs := take (Nat.min len (Z.to_nat v)) (c_in c) in
    Ret (Z.of_nat (length bs), bs) (put_in (drop (length bs) (c_in c)) c).

Definition send (bs : list Z) : M Conn Z := fun c =>
  let v := c_sends c (c_nsend c) in
  if v <=? 0 then Ret v (put_out (c_out c) c)
  else
    let bs' := take (Z.to_nat v) bs in
    Ret (Z.of_nat (length bs')) (put_out (c_out c ++ bs') c).

Definition conn_read (len : nat) : M Conn (Z * list Z) :=
  c ← get; if c_open c then recv len else mret (-1, []).

Definition conn_write (bs : list Z) : M Conn Z :=
  c ← get; if c_open c then send bs else mret (-1).

Definition conn_close : M Conn unit :=
  modify (fun c => mk_Conn false (c_in c) (c_recvs c) (c_nrecv c) (c_out c) (c_sends c) (c_nsend c)).

(** [readFixSize(void*, size_t)]: the value it returns and the bytes stored at
    [buffer] so far; [left] is an [int64_t].  A round moves a byte or ends. *)
Fixpoint read_loop (fuel : nat) (length0 left : Z) : M Conn (Z * list Z) :=
  if left <=? 0 then mret (i32 length0, [])
  else
    match fuel with
    | O => undef Diverges
    | S fuel =>
      '(len, bs) ← conn_read (Z.to_nat left);
      if len <=? 0 then mret (i32 len, [])
      else '(r, bs') ← read_loop fuel length0 (left - len); mret (r, bs ++ bs')
    end.

Definition conn_readFixSize (length0 : Z) : M Conn (Z * list Z) := fun c => read_loop (length (c_in c) + 1) length0 (i64 length0) c.

(** [writeFixSize(const void*, size_t)]. *)
Fixpoint write_loop (fuel : nat) (length0 : Z) (bs : list Z) : M Conn Z :=
  match bs with
  | [] => mret (i32 length0)
  | _ =>
    match fuel with
    | O => undef Diverges
    | S fuel =>
      len ← conn_write bs;
      if len <=? 0 then mret (i32 len) else write_loop fuel length0 (drop (Z.to_nat len) bs)
    end
  end.

Definition conn_writeFixSize (bs : list Z) : M Conn Z := write_loop (length bs) (Z.of_nat (length bs)) bs.

(** ** What the loops do *)

(** Calls of [recv] and [send] that move no byte fail; these never do. *)
Record steady (c : Conn) : Prop := {
  st_open : c_open c = true;
  st_recvs : forall n, 0 < c_recvs c n;
  st_sends : forall n, 0 < c_sends c n;
}.

(** [c'] is [c] after [bs] was read and [out] written. *)
Record moved (c : Conn) (bs out : list Z) (c' : Conn) : Prop := {
  mv_open : c_open c' = c_open c;
  mv_in : c_in c = bs ++ c_in c';
  mv_out : c_out c' = c_out c ++ out;
  mv_recvs : c_recvs c' = c_recvs c;
  mv_sends : c_sends c' = c_sends c;
}.

Lemma moved_refl c : moved c [] [] c.
Proof. split; try done. by rewrite app_nil_r. Qed.

Lemma moved_trans c bs out c' bs' out' c'' : moved c bs out c' -> moved c' bs' out' c'' -> moved c (bs ++ bs') (out ++ out') c''.
Proof. intros [H1 H2 H3 H4 H5] [K1 K2 K3 K4 K5]. split; try congruence; [by rewrite H2, K2, app_assoc | by rewrite K3, H3, app_assoc]. Qed.

Lemma moved_steady c bs out c' : moved c bs out c' -> steady c -> steady c'.
Proof. intros [H1 H2 H3 H4 H5] [K1 K2 K3]. split; congruence. Qed.

Lemma conn_read_loop_spec fuel length0 left c bs rest : steady c -> c_in c = bs ++ rest -> left = Z.of_nat (length bs) -> (length bs <= fuel)%nat ->
  exists c', read_loop fuel length0 left c = Ret (i32 length0, bs) c' /\ moved c bs [] c' /\ c_in c' = rest.
Proof.
  revert left c bs. induction fuel as [|fuel IH]; intros left c bs H Hin -> Hf.
  - destruct bs; [| cbn in Hf; lia]. exists c. split; [done |]. split; [apply moved_refl | done].
  - cbn [read_loop]. destruct bs as [|b bs]; [exists c; split; [done |]; split; [apply moved_refl | done] |]. destruct (Z.leb_spec (Z.of_nat (length (b :: bs))) 0); [cbn [length] in *; lia |].
    unfold conn_read. unfold mbind at 1, M_bind at 1. unfold mbind at 1, M_bind at 1. cbn [get]. rewrite (st_open _ H). unfold recv. pose proof (st_recvs _ H (c_nrecv c)) as Hv. destruct (Z.leb_spec (c_recvs c (c_nrecv c)) 0); [lia |].
    rewrite Nat2Z.id, Hin. set (k := Nat.min (length (b :: bs)) (Z.to_nat (c_recvs c (c_nrecv c)))). assert (1 <= k <= length (b :: bs))%nat as Hk by (unfold k; cbn [length]; lia).
    rewrite take_app_le by lia. rewrite length_take, Nat.min_l by lia. destruct (Z.leb_spec (Z.of_nat k) 0); [lia |]. rewrite drop_app_le by lia.
    destruct (IH (Z.of_nat (length (b :: bs)) - Z.of_nat k) (put_in (drop k (b :: bs) ++ rest) c) (drop k (b :: bs))) as (c' & E & Hm & Hr).
    + by destruct H.
    + done.
    + rewrite length_drop. lia.
    + rewrite length_drop. cbn [length] in *. lia.
    + unfold mbind, M_bind. rewrite E. unfold mret, M_ret. rewrite take_drop. exists c'. split; [done |]. split; [| done]. destruct Hm as [M1 M2 M3 M4 M5]. split; try done. by rewrite Hin, Hr.
Qed.

Lemma conn_readFixSize_spec length0 c bs rest : steady c -> c_in c = bs ++ rest -> length0 = Z.of_nat (length bs) -> length0 < 2 ^ 31 ->
  exists c', conn_readFixSize length0 c = Ret (length0, bs) c' /\ moved c bs [] c' /\ c_in c' = rest.
Proof.
  intros H Hin -> Hl. unfold conn_readFixSize. unfold i64. rewrite swrap_id by (unfold in_s; lia). destruct (conn_read_loop_spec (length (c_in c) + 1) (Z.of_nat (length bs)) (Z.of_nat (length bs)) c bs rest H Hin eq_refl) as (c' & E & Hm & Hr); [rewrite Hin, length_app; lia |].
  exists c'. rewrite E. unfold i32. by rewrite swrap_id by (unfold in_s; lia).
Qed.

Lemma conn_write_loop_spec fuel length0 bs c : steady c -> (length bs <= fuel)%nat -> exists c', write_loop fuel length0 bs c = Ret (i32 length0) c' /\ moved c [] bs c'.
Proof.
  revert bs c. induction fuel as [|fuel IH]; intros bs c H Hf; cbn [write_loop]; destruct bs as [|b bs]; try (exists c; split; [done | apply moved_refl]); [cbn in Hf; lia |].
  unfold conn_write. unfold mbind at 1, M_bind at 1. unfold mbind at 1, M_bind at 1. cbn [get]. rewrite (st_open _ H). unfold send. pose proof (st_sends _ H (c_nsend c)) as Hv. destruct (Z.leb_spec (c_sends c (c_nsend c)) 0); [lia |].
  set (k := Z.to_nat (c_sends c (c_nsend c))). assert (1 <= k)%nat as Hk by (unfold k; lia). rewrite length_take. destruct (Z.leb_spec (Z.of_nat (Nat.min k (length (b :: bs)))) 0); [cbn [length] in *; lia |].
  destruct (IH (drop (Z.to_nat (Z.of_nat (Nat.min k (length (b :: bs))))) (b :: bs)) (put_out (c_out c ++ take k (b :: bs)) c)) as (c' & -> & [M1 M2 M3 M4 M5]).
  - by destruct H.
  - rewrite length_drop. cbn [length] in *. lia.
  - exists c'. split; [done |]. split; try done. rewrite M3. cbn [put_out c_out]. rewrite <- app_assoc. f_equal. rewrite Nat2Z.id. destruct (decide (k <= length (b :: bs))%nat); [rewrite Nat.min_l by lia; apply take_drop |].
    rewrite Nat.min_r, firstn_all2, drop_all by lia. apply app_nil_r.
Qed.

Lemma conn_writeFixSize_spec bs c : steady c -> Z.of_nat (length bs) < 2 ^ 31 -> exists c', conn_writeFixSize bs c = Ret (Z.of_nat (length bs)) c' /\ moved c [] bs c'.
Proof.
  intros H Hl. destruct (conn_write_loop_spec (length bs) (Z.of_nat (length bs)) bs c H) as (c' & E & Hm); [lia |]. exists c'. unfold conn_writeFixSize. rewrite E. unfold i32. by rewrite swrap_id by (unfold in_s; lia).
Qed.
