(* ===== verification/ZlibStream.v ===== *)
(** * Compression streams

    [src/include/streams/zlib_stream.h] and [src/src/streams/zlib_stream.cpp]:
    a stream that compresses or expands what is written to it into a list of
    buffers.  The functions of zlib are the class [Zlib]; what its manual says
    of them is the class [ZlibSpec]. *)

From stdpp Require Import base list numbers option.
From Stdlib Require Import ZArith Lia.
From S2P Require Import Prelude.
From S2P Require Import ByteArray.
From S2P Require Import ByteArrayIO.
From S2P Require Import ByteCodec.

Local Open Scope Z_scope.

Definition Z_OK : Z := 0.
Definition Z_STREAM_END : Z := 1.
Definition Z_STREAM_ERROR : Z := -2.

(** [deflate] and [inflate] get the stream, whether the call is to finish it,
    the bytes at [next_in] and the room at [next_out]; they return their code,
    the stream, the bytes they left at [next_in] and the bytes they wrote.
    [z_rounds] bounds the number of bytes that calls with this input can write:
    the fuel of the loops. *)
Class Zlib := {
  z_stream : Type;
  deflateInit2 : Z -> Z -> Z -> Z -> Z * z_stream;
  inflateInit2 : Z -> Z * z_stream;
  deflate : z_stream -> bool -> list Z -> nat -> Z * z_stream * list Z * list Z;
  inflate : z_stream -> bool -> list Z -> nat -> Z * z_stream * list Z * list Z;
  deflateEnd : z_stream -> z_stream;
  inflateEnd : z_stream -> z_stream;
  z_rounds : bool -> z_stream -> bool -> list Z -> nat;
}.

(** An operation on another object than the one a method runs on. *)
Definition on_object {T S A} (m : M S A) (s : S) : M T (A * S) := fun t =>
  match m s with
  | Ret a s' => Ret (a, s') t
  | Throw e _ => Throw e t
  | Undef u => Undef u
  end.

Inductive Type_ := Zlib_ | Deflate | Gzip.

Section Stream.
Context `{Zlib}.

(** A buffer is its first [iov_len] bytes; each has room for [_buffSize]. *)
Record ZlibStream := mk_Zlib {
  zs_zstream : z_stream;
  zs_buffSize : nat;
  zs_encode : bool;
  zs_buffs : list (list Z);
}.

(** ** Construction *)

Definition window_bits (type : Type_) (windowBits : Z) : Z :=
  match type with
  | Deflate => - windowBits
  | Gzip => windowBits + 16
  | Zlib_ => windowBits
  end.

(** [init]: the code, and the stream when it is set up. *)
Definition init {T} (encode : bool) (type : Type_) (level windowBits memLevel strategy : Z) : M T (Z * z_stream) :=
  if negb ((0 <=? level) && (level <=? 9) || (level =? -1)) then undef AssertFail
  else if negb ((8 <=? windowBits) && (windowBits <=? 15)) then undef AssertFail
  else if negb ((1 <=? memLevel) && (memLevel <=? 9)) then undef AssertFail
  else
    let windowBits := window_bits type windowBits in
    mret (if encode then deflateInit2 level windowBits memLevel strategy else inflateInit2 windowBits).

Definition create {T} (encode : bool) (buffSize : nat) (type : Type_) (level windowBits memLevel strategy : Z) : M T (option ZlibStream) :=
  '(rt, z) ← init encode type level windowBits memLevel strategy;
  mret (if rt =? Z_OK then Some (mk_Zlib z buffSize encode []) else None).

Definition createGzip {T} (encode : bool) (buffSize : nat) : M T (option ZlibStream) := create encode buffSize Gzip (-1) 15 8 0.
Definition createZlib {T} (encode : bool) (buffSize : nat) : M T (option ZlibStream) := create encode buffSize Zlib_ (-1) 15 8 0.
Definition createDeflate {T} (encode : bool) (buffSize : nat) : M T (option ZlibStream) := create encode buffSize Deflate (-1) 15 8 0.

(** ** Writing *)

Definition z_call (enc : bool) : z_stream -> bool -> list Z -> nat -> Z * z_stream * list Z * list Z := if enc then deflate else inflate.
Definition z_end (enc : bool) : z_stream -> z_stream := if enc then deflateEnd else inflateEnd.

(** The buffers with the one to write to at the end. *)
Definition with_room (buffSize : nat) (buffs : list (list Z)) : list (list Z) * list Z :=
  match list.last buffs with
  | Some b => if (length b =? buffSize)%nat then (buffs, []) else (take (length buffs - 1) buffs, b)
  | None => (buffs, [])
  end.

(** The inner loop of [encode] and [decode]: [avail_out == 0] repeats it. *)
Fixpoint drain (fuel : nat) (finish : bool) (next_in : list Z) : M ZlibStream Z :=
  match fuel with
  | O => undef Diverges
  | S fuel =>
    s ← get;
    let '(full, ivc) := with_room (zs_buffSize s) (zs_buffs s) in
    let avail_out := (zs_buffSize s - length ivc)%nat in
    let '(ret, z, next_in, out) := z_call (zs_encode s) (zs_zstream s) finish next_in avail_out in
    if ret =? Z_STREAM_ERROR then
      put (mk_Zlib z (zs_buffSize s) (zs_encode s) (full ++ [ivc]));; mret ret
    else
      put (mk_Zlib z (zs_buffSize s) (zs_encode s) (full ++ [ivc ++ out]));;
      if (length out =? avail_out)%nat then drain fuel finish next_in else mret Z_OK
  end.

Definition drain_all (finish : bool) (next_in : list Z) : M ZlibStream Z := fun s =>
  drain (z_rounds (zs_encode s) (zs_zstream s) finish next_in + 1) finish next_in s.

(** [encode] and [decode], which differ in the functions of zlib they call:
    [finish] belongs to the last of the blocks.  [avail_in] is an [uInt], so
    only the first [iov_len mod 2^32] bytes of a block are seen. *)
Definition avail_in (b : list Z) : list Z := take (Z.to_nat (u32 (Z.of_nat (length b)))) b.

Fixpoint code (v : list (list Z)) (finish : bool) : M ZlibStream Z :=
  match v with
  | [] => mret Z_OK
  | b :: v =>
    let flush := finish && bool_decide (v = []) in
    ret ← drain_all flush (avail_in b);
    if ret =? Z_STREAM_ERROR then mret ret
    else if flush then
      modify (fun s => mk_Zlib (z_end (zs_encode s) (zs_zstream s)) (zs_buffSize s) (zs_encode s) (zs_buffs s));; mret Z_OK
    else code v finish
  end.

(** [write(const void*, size_t)] *)
Definition zs_write (buffer : list Z) : M ZlibStream Z := code [buffer] false.

(** [write(ByteArray::ptr, -1)]: [getReadBuffers] clamps the length to the read
    size. *)
Definition zs_write_ba (ba : ByteArray) : M ZlibStream Z :=
  '(_, vs, ba) ← on_object (getReadBuffers (Z.to_nat (getReadSize ba))) ba;
  code (map (fun v => gather (ba_nodes ba) [v]) vs) false.

Definition flush : M ZlibStream Z := code [[]] true.

(** ** Results *)

Definition getResult (s : ZlibStream) : list Z := concat (zs_buffs s).

Fixpoint write_buffs (buffs : list (list Z)) : M ByteArray unit :=
  match buffs with
  | [] => mret tt
  | b :: buffs => ByteArray_write b;; write_buffs buffs
  end.

Definition getByteArray {T} (s : ZlibStream) : M T ByteArray :=
  '(_, ba) ← on_object (write_buffs (zs_buffs s)) (new_ByteArray 4096); mret ba.

End Stream.

(** ** What the manual of zlib says

    The parameters of [deflateInit2] and [inflateInit2] whose meaning the manual
    gives for all three formats (a window of 8 bits is not supported by
    [deflate]). *)
Definition zlib_params (level windowBits memLevel strategy : Z) : Prop :=
  -1 <= level <= 9 /\ 9 <= windowBits <= 15 /\ 1 <= memLevel <= 9 /\ 0 <= strategy <= 4.

(** As long as there is memory:
    - [deflateInit2] and [inflateInit2] with valid parameters return [Z_OK] and
      set up a stream that is ready for any call;
    - a call on a stream that is ready writes at most as much as there is room
      for and does not return [Z_STREAM_ERROR]; the stream remains ready, but
      for [deflate] with [Z_FINISH];
    - [deflate] with [Z_FINISH] returns [Z_STREAM_END] when there was enough
      room; otherwise it fills the room and has to be called again with
      [Z_FINISH] ([z_finishing]) and with nothing else;
    - after [deflate] has returned [Z_STREAM_END] nothing is promised of further
      calls: the manual allows only [deflateReset] and [deflateEnd];
    - what calls with one input can write is bounded. *)
Class ZlibSpec `{Zlib} := {
  z_ready : bool -> z_stream -> Prop;
  z_finishing : z_stream -> Prop;
  z_init : forall type level windowBits memLevel strategy, zlib_params level windowBits memLevel strategy ->
    (exists st, deflateInit2 level (window_bits type windowBits) memLevel strategy = (Z_OK, st) /\ z_ready true st) /\
    (exists st, inflateInit2 (window_bits type windowBits) = (Z_OK, st) /\ z_ready false st);
  z_step : forall enc st fin inp avail, z_ready enc st \/ (enc = true /\ fin = true /\ z_finishing st) -> (0 < avail)%nat ->
    exists ret st' inp' out, z_call enc st fin inp avail = (ret, st', inp', out) /\ ret <> Z_STREAM_ERROR /\ (length out <= avail)%nat /\
      (length out + z_rounds enc st' fin inp' <= z_rounds enc st fin inp)%nat /\
      if enc && fin then ret = Z_STREAM_END \/ (length out = avail /\ z_finishing st') else z_ready enc st';
}.

Section Spec.
Context `{ZlibSpec}.

(** The stream may be called. *)
Definition z_callable (enc : bool) (st : z_stream) (fin : bool) : Prop := z_ready enc st \/ (enc = true /\ fin = true /\ z_finishing st).

(** [fed enc fin st inp out st']: the calls on one input, each on what the one
    before has left and with any room, until one leaves room or, for
    [deflate] with [Z_FINISH], returns [Z_STREAM_END]; they write [out]. *)
Inductive fed (enc fin : bool) : z_stream -> list Z -> list Z -> z_stream -> Prop :=
| fed_last st inp avail ret st' inp' out : z_callable enc st fin -> (0 < avail)%nat -> z_call enc st fin inp avail = (ret, st', inp', out) ->
    (length out < avail)%nat \/ (enc && fin = true /\ ret = Z_STREAM_END) -> fed enc fin st inp out st'
| fed_more st inp avail ret st1 inp1 out1 out2 st' : z_callable enc st fin -> (0 < avail)%nat -> z_call enc st fin inp avail = (ret, st1, inp1, out1) ->
    length out1 = avail -> fed enc fin st1 inp1 out2 st' -> fed enc fin st inp (out1 ++ out2) st'.

(** One input after the other, without finishing. *)
Inductive feeds (enc : bool) : z_stream -> list (list Z) -> list Z -> z_stream -> Prop :=
| feeds_nil st : feeds enc st [] [] st
| feeds_cons st b v out1 st1 out2 st2 : fed enc false st b out1 st1 -> feeds enc st1 v out2 st2 -> feeds enc st (b :: v) (out1 ++ out2) st2.

(** What a stream makes of the blocks [v] when it is finished after them. *)
Definition made (enc : bool) (st : z_stream) (v : list (list Z)) (out : list Z) : Prop :=
  exists out1 st1 out2 st2, feeds enc st v out1 st1 /\ fed enc true st1 [] out2 st2 /\ out = out1 ++ out2.

Lemma feeds_app enc st v out1 st1 w out2 st2 : feeds enc st v out1 st1 -> feeds enc st1 w out2 st2 -> feeds enc st (v ++ w) (out1 ++ out2) st2.
Proof. induction 1 as [|st b v o1 st' o2 st'' Hb Hv IH]; [done |]. intros Hw. rewrite <- app_assoc. cbn. econstructor; [done | by apply IH]. Qed.

(** ** The buffers *)

(** All buffers but the last are full, and none has more than its room. *)
Definition packed (n : nat) (buffs : list (list Z)) : Prop :=
  exists full rest, buffs = full ++ rest /\ Forall (fun b => length b = n) full /\ Forall (fun b => length b <= n)%nat rest /\ (length rest <= 1)%nat.

Lemma packed_room n buffs : packed n buffs -> Forall (fun b => length b <= n)%nat buffs.
Proof. intros (full & rest & -> & Hf & Hr & _). apply Forall_app. split; [| done]. eapply Forall_impl; [| exact Hf]. cbn. lia. Qed.

Lemma packed_snoc n full b : Forall (fun b => length b = n) full -> (length b <= n)%nat -> packed n (full ++ [b]).
Proof. intros Hf Hb. exists full, [b]. split; [done |]. split; [done |]. split; [by constructor | done]. Qed.

Lemma length_full n (full : list (list Z)) : Forall (fun b => length b = n) full -> length (concat full) = (length full * n)%nat.
Proof. induction 1 as [|b full Hb _ IH]; [done |]. cbn [concat]. rewrite length_app, IH, Hb. cbn. lia. Qed.

Lemma with_room_spec n buffs : (0 < n)%nat -> packed n buffs ->
  exists full ivc, with_room n buffs = (full, ivc) /\ concat full ++ ivc = concat buffs /\ (length ivc < n)%nat /\ Forall (fun b => length b = n) full.
Proof.
  intros Hn (full & rest & -> & Hf & Hr & Hl). unfold with_room. destruct rest as [|b [|? ?]]; [| | cbn in Hl; lia].
  - rewrite app_nil_r. destruct full as [|b l _] using rev_ind; [by exists [], [] |]. rewrite list.last_snoc. apply Forall_app in Hf as Hb. destruct Hb as [_ Hb]. apply list.Forall_cons_1 in Hb as [Hb _].
    rewrite Hb, Nat.eqb_refl. exists (l ++ [b]), []. by rewrite app_nil_r.
  - rewrite list.last_snoc. apply list.Forall_cons_1 in Hr as [Hb _]. destruct (Nat.eqb_spec (length b) n).
    + exists (full ++ [b]), []. rewrite app_nil_r. split; [done |]. split; [done |]. split; [done |]. apply Forall_app. split; [done |]. by constructor.
    + exists full, b. rewrite length_app. cbn [length]. rewrite take_app_length' by lia. split; [done |]. split; [by rewrite concat_app; cbn; rewrite app_nil_r |]. split; [lia | done].
Qed.

Record stream_ok (s : ZlibStream) : Prop := {
  so_ready : z_ready (zs_encode s) (zs_zstream s);
  so_room : (0 < zs_buffSize s)%nat;
  so_buffs : packed (zs_buffSize s) (zs_buffs s);
}.

(** [s'] is [s] after [out] was written to its buffers. *)
Record coded (s : ZlibStream) (out : list Z) (s' : ZlibStream) : Prop := {
  co_size : zs_buffSize s' = zs_buffSize s;
  co_encode : zs_encode s' = zs_encode s;
  co_buffs : packed (zs_buffSize s) (zs_buffs s');
  co_result : getResult s' = getResult s ++ out;
}.

Lemma coded_app s out s' out' s'' : coded s out s' -> coded s' out' s'' -> coded s (out ++ out') s''.
Proof. intros [C1 C2 C3 C4] [D1 D2 D3 D4]. split; try congruence. by rewrite D4, C4, app_assoc. Qed.

Lemma coded_nil s : stream_ok s -> coded s [] s.
Proof. intros Hs. split; [done | done | apply Hs | by rewrite app_nil_r]. Qed.

(** The buffers after one call: full, when the call has filled its room. *)
Lemma call_coded s full ivc out st : with_room (zs_buffSize s) (zs_buffs s) = (full, ivc) -> concat full ++ ivc = concat (zs_buffs s) ->
  (length ivc < zs_buffSize s)%nat -> Forall (fun b => length b = zs_buffSize s) full -> (length out <= zs_buffSize s - length ivc)%nat ->
  let s1 := mk_Zlib st (zs_buffSize s) (zs_encode s) (full ++ [ivc ++ out]) in
  coded s out s1 /\ (length out = (zs_buffSize s - length ivc)%nat -> (length (getResult s ++ out) mod zs_buffSize s = 0)%nat).
Proof.
  intros _ Ec Hi Hf Ho s1. assert (getResult s1 = getResult s ++ out) as Er.
  { unfold getResult. cbn [s1 zs_buffs]. rewrite concat_app. cbn. by rewrite app_nil_r, app_assoc, Ec. }
  split; [split; [done | done | | done]; apply packed_snoc; [done |]; rewrite length_app; lia |].
  intros E. rewrite <- Er. unfold getResult. cbn [s1 zs_buffs]. rewrite concat_app, length_app, (length_full _ _ Hf). cbn. rewrite app_nil_r, length_app, E.
  replace (length full * zs_buffSize s + (length ivc + (zs_buffSize s - length ivc)))%nat with (S (length full) * zs_buffSize s)%nat by (cbn; lia). apply Nat.Div0.mod_mul.
Qed.

(** ** The loops *)

(** The inner loop makes calls as [fed] describes them, and returns, unless the
    finished stream fills its last buffer. *)
Lemma drain_spec fuel fin : forall inp s, z_callable (zs_encode s) (zs_zstream s) fin -> (0 < zs_buffSize s)%nat -> packed (zs_buffSize s) (zs_buffs s) ->
  (z_rounds (zs_encode s) (zs_zstream s) fin inp < fuel)%nat ->
  exists out st', fed (zs_encode s) fin (zs_zstream s) inp out st' /\ (zs_encode s && fin = false -> z_ready (zs_encode s) st') /\
    ((zs_encode s && fin = true -> (length (getResult s ++ out) mod zs_buffSize s <> 0)%nat) ->
     exists s', drain fuel fin inp s = Ret Z_OK s' /\ coded s out s' /\ zs_zstream s' = st').
Proof.
  induction fuel as [|fuel IH]; intros inp s Hc Hn Hb Hf; [lia |]. cbn [drain]. erewrite bind_Ret by done. destruct (with_room_spec _ _ Hn Hb) as (full & ivc & Er & Ec & Hi & Hfull). rewrite Er.
  destruct (z_step (zs_encode s) (zs_zstream s) fin inp (zs_buffSize s - length ivc) Hc) as (ret & st1 & inp1 & out1 & E & Hret & Ho & Hro & Hnext); [lia |]. rewrite E, (proj2 (Z.eqb_neq _ _) Hret).
  set (s1 := mk_Zlib st1 (zs_buffSize s) (zs_encode s) (full ++ [ivc ++ out1])). destruct (call_coded s full ivc out1 st1 Er Ec Hi Hfull Ho) as [C1 Hmod]. fold s1 in C1.
  assert ((length out1 < zs_buffSize s - length ivc)%nat \/ (zs_encode s && fin = true /\ ret = Z_STREAM_END) -> fed (zs_encode s) fin (zs_zstream s) inp out1 st1) as Hlast by (intros; eapply (fed_last _ _ _ _ (zs_buffSize s - length ivc)); eauto; lia).
  destruct (decide (zs_encode s && fin = true /\ ret = Z_STREAM_END)) as [He | He].
  - exists out1, st1. split; [by apply Hlast; right |]. split; [destruct He; congruence |]. intros Hnz. erewrite bind_Ret by done.
    destruct (Nat.eqb_spec (length out1) (zs_buffSize s - length ivc)) as [Hx | Hx]; [by destruct (Hnz (proj1 He)); apply Hmod |]. by exists s1.
  - assert ((length out1 = (zs_buffSize s - length ivc)%nat -> z_callable (zs_encode s) st1 fin) /\ (zs_encode s && fin = true -> length out1 = (zs_buffSize s - length ivc)%nat) /\ (zs_encode s && fin = false -> z_ready (zs_encode s) st1)) as (N1 & N2 & N3).
    { unfold z_callable. destruct (zs_encode s) eqn:Eenc, fin; cbn [andb] in *; try (by split_and!; auto). destruct Hnext as [Hnext | [Hx Hy]]; [by destruct He |]. split_and!; auto. done. }
    destruct (Nat.eqb_spec (length out1) (zs_buffSize s - length ivc)) as [Hx | Hx].
    + destruct (IH inp1 s1) as (out2 & st' & F2 & R2 & D2); [by apply N1 | done | apply (co_buffs _ _ _ C1) | cbn [s1 zs_encode zs_zstream]; lia |]. cbn [s1 zs_encode zs_zstream zs_buffSize] in *.
      exists (out1 ++ out2), st'. split; [eapply (fed_more _ _ _ _ (zs_buffSize s - length ivc)); eauto; lia |]. split; [done |]. intros Hnz. erewrite bind_Ret by done.
      destruct D2 as (s2 & E2 & C2 & Z2); [by rewrite (co_result _ _ _ C1), <- app_assoc |]. exists s2. split; [exact E2 |]. split; [by eapply coded_app | done].
    + exists out1, st1. split; [apply Hlast; left; lia |]. split; [done |]. intros _. erewrite bind_Ret by done. by exists s1.
Qed.

(** Writing: the buffers get what zlib makes of the blocks. *)
Lemma code_spec v : forall s, stream_ok s ->
  exists out s', code v false s = Ret Z_OK s' /\ coded s out s' /\ feeds (zs_encode s) (zs_zstream s) (map avail_in v) out (zs_zstream s') /\ stream_ok s'.
Proof.
  induction v as [|b v IH]; intros s Hs; cbn [code map]; [exists [], s; split; [done |]; split; [by apply coded_nil |]; split; [constructor | done] |].
  cbn [andb]. destruct (drain_spec (z_rounds (zs_encode s) (zs_zstream s) false (avail_in b) + 1) false (avail_in b) s) as (out1 & st1 & F1 & R1 & D1); [left; apply Hs | apply Hs | apply Hs | lia |].
  rewrite andb_false_r in R1, D1. destruct D1 as (s1 & E1 & C1 & Z1); [done |]. erewrite bind_Ret by exact E1. change (Z_OK =? Z_STREAM_ERROR) with false. cbn iota.
  assert (stream_ok s1) as Hs1 by (split; rewrite ?(co_size _ _ _ C1), ?(co_encode _ _ _ C1), ?Z1; [auto | apply Hs | apply (co_buffs _ _ _ C1)]).
  destruct (IH s1 Hs1) as (out2 & s2 & E2 & C2 & F2 & H2). exists (out1 ++ out2), s2. split; [exact E2 |]. split; [by eapply coded_app |]. split; [| done].
  rewrite (co_encode _ _ _ C1), Z1 in F2. by econstructor.
Qed.

Lemma flush_spec s : stream_ok s -> exists out st', fed (zs_encode s) true (zs_zstream s) [] out st' /\
  ((zs_encode s = true -> (length (getResult s ++ out) mod zs_buffSize s <> 0)%nat) -> exists s', flush s = Ret Z_OK s' /\ coded s out s').
Proof.
  intros Hs. destruct (drain_spec (z_rounds (zs_encode s) (zs_zstream s) true [] + 1) true [] s) as (out & st' & F & _ & D); [left; apply Hs | apply Hs | apply Hs | lia |]. rewrite andb_true_r in D.
  exists out, st'. split; [done |]. intros Hnz. destruct (D Hnz) as (s1 & E1 & C1 & Z1). unfold flush. cbn [code]. rewrite bool_decide_eq_true_2 by done. cbn [andb]. change (avail_in []) with (@nil Z).
  erewrite bind_Ret by exact E1. change (Z_OK =? Z_STREAM_ERROR) with false. cbn iota. eexists. split; [done |]. by destruct C1.
Qed.

(** Blocks written and the stream finished. *)
Lemma code_flush v s : stream_ok s -> getResult s = [] -> exists out s1, code v false s = Ret Z_OK s1 /\ stream_ok s1 /\ made (zs_encode s) (zs_zstream s) (map avail_in v) out /\
  ((zs_encode s = true -> (length out mod zs_buffSize s <> 0)%nat) ->
   exists s2, flush s1 = Ret Z_OK s2 /\ coded s out s2).
Proof.
  intros Hs Hz. destruct (code_spec v s Hs) as (out1 & s1 & E1 & C1 & F1 & Hs1). destruct (flush_spec s1 Hs1) as (out2 & st2 & F2 & D2). rewrite (co_encode _ _ _ C1) in F2, D2. rewrite (co_size _ _ _ C1), (co_result _ _ _ C1), Hz in D2. cbn [app] in D2.
  exists (out1 ++ out2), s1. split; [done |]. split; [done |]. split; [by exists out1, (zs_zstream s1), out2, st2 |]. intros Hnz. destruct (D2 Hnz) as (s2 & E2 & C2). exists s2. split; [done |]. by eapply coded_app.
Qed.

(** ** Blocks of a buffer *)

Lemma avail_in_small b : Z.of_nat (length b) < 2 ^ 32 -> avail_in b = b.
Proof. intros Hb. unfold avail_in. apply take_ge. unfold u32. rewrite uwrap_id by (unfold in_u; lia). lia. Qed.

Lemma map_avail_in v : Forall (fun b => Z.of_nat (length b) < 2 ^ 32) v -> map avail_in v = v.
Proof. induction 1 as [|b v Hb _ IH]; [done |]. cbn. by rewrite avail_in_small, IH. Qed.

(** The blocks of an unread buffer are its bytes. *)
Lemma gather_blocks nodes vs : concat (map (fun v => gather nodes [v]) vs) = gather nodes vs.
Proof. induction vs as [|v vs IH]; [done |]. cbn [map concat]. rewrite IH. cbn [gather]. by rewrite app_nil_r. Qed.

Lemma block_in_node ba v : wf ba -> (length (gather (ba_nodes ba) [v]) <= ba_baseSize ba)%nat.
Proof.
  intros Hw. cbn [gather]. rewrite app_nil_r, length_take, length_drop. destruct (ba_nodes ba !! iov_node v) as [b |] eqn:E; cbn; [| lia].
  pose proof (wf_uniform _ Hw) as Hu. pose proof (Forall_lookup_1 _ _ _ _ Hu E) as Hb. cbn in Hb. lia.
Qed.

Lemma length_block (b : list Z) v : b ∈ v -> (length b <= length (concat v))%nat.
Proof. induction 1 as [b v | b c v _ IH]; cbn [concat]; rewrite length_app; lia. Qed.

Lemma zs_write_ba_spec ba s : wf ba -> Z.of_nat (ba_baseSize ba) < 2 ^ 32 \/ Z.of_nat (length (remaining ba)) < 2 ^ 32 ->
  exists v, concat v = remaining ba /\ map avail_in v = v /\ zs_write_ba ba s = code v false s.
Proof.
  intros Hw Hsm. destruct (getReadBuffers_spec ba (Z.to_nat (getReadSize ba)) Hw) as (vs & E & Hg).
  assert (concat (map (fun v => gather (ba_nodes ba) [v]) vs) = remaining ba) as Ec.
  { rewrite gather_blocks, Hg. apply take_ge. rewrite getReadSize_wf by done. unfold remaining. rewrite length_drop, length_data by done. lia. }
  eexists. split; [exact Ec |]. split.
  - apply map_avail_in, Forall_forall. intros b Hb. destruct Hsm as [Hsm | Hsm]; [| apply list_elem_of_In, length_block in Hb; rewrite Ec in Hb; lia].
    apply in_map_iff in Hb as (v & <- & _). pose proof (block_in_node ba v Hw). lia.
  - unfold zs_write_ba. by erewrite bind_Ret by (unfold on_object; rewrite E; reflexivity).
Qed.

(** [getByteArray]: the bytes of the buffers, with the cursor behind them. *)
Lemma write_buffs_spec buffs ba : wf ba -> fits (length (concat buffs)) ba -> exists ba', write_buffs buffs ba = Ret tt ba' /\ written ba (concat buffs) ba'.
Proof.
  revert ba. induction buffs as [|b buffs IH]; intros ba Hw Hf; cbn [write_buffs concat] in *.
  - exists ba. split; [done |]. pose proof (wf_position _ Hw). split; cbn; try done; try lia. by rewrite splice_nil.
  - rewrite length_app in Hf. destruct (ByteArray_write_spec ba b Hw) as (ba1 & E1 & W1); [eapply fits_le, Hf; lia |]. erewrite bind_Ret by exact E1.
    destruct (IH ba1 (written_wf _ _ _ W1) (fits_app _ _ _ _ W1 Hf)) as (ba2 & E2 & W2). exists ba2. split; [exact E2 | by eapply written_app].
Qed.

Lemma new_fits n : Z.of_nat n < 2 ^ 63 -> fits n (new_ByteArray 4096).
Proof. intros Hn. unfold fits. cbn [new_ByteArray ba_capacity ba_position ba_baseSize]. lia. Qed.

Lemma getByteArray_spec {T} s (t : T) : Z.of_nat (length (getResult s)) < 2 ^ 63 ->
  exists ba, getByteArray s t = Ret ba t /\ wf ba /\ data ba = getResult s /\ ba_position ba = length (getResult s) /\ ba_baseSize ba = 4096%nat.
Proof.
  intros Hn. assert (wf (new_ByteArray 4096)) as Hw by (apply new_ByteArray_wf; lia). destruct (write_buffs_spec (zs_buffs s) _ Hw (new_fits _ Hn)) as (ba & E & [W1 W2 W3 W4 W5 W6 W7]).
  exists ba. split; [unfold getByteArray; erewrite bind_Ret by (unfold on_object; rewrite E; reflexivity); done |]. split; [done |]. split; [| by split].
  rewrite W7. cbn [new_ByteArray ba_position]. unfold data. cbn [ba_size new_ByteArray]. rewrite take_0. unfold splice. cbn. by rewrite drop_nil, app_nil_r.
Qed.

End Spec.

(** ** What a compression stream gives back

    Over a zlib as its manual describes it, the bytes written to a compressing
    stream come back from an expanding one, whatever the sizes of the writes
    and of the buffers. *)

(** Compressed bytes, cut into any blocks, expand to what was compressed, with
    the same format and size of the window. *)
Class ZlibLossless `{ZlibSpec} : Prop :=
  z_lossless : forall type level windowBits memLevel strategy v w out, zlib_params level windowBits memLevel strategy ->
    made true (snd (deflateInit2 level (window_bits type windowBits) memLevel strategy)) v (concat w) ->
    made false (snd (inflateInit2 (window_bits type windowBits))) w out -> out = concat v.

Section Create.
Context `{ZlibSpec}.

(** The stream [create] sets up. *)
Definition z_start (enc : bool) (type : Type_) (level windowBits memLevel strategy : Z) : z_stream :=
  snd (if enc then deflateInit2 level (window_bits type windowBits) memLevel strategy else inflateInit2 (window_bits type windowBits)).

Lemma create_spec {T} (enc : bool) n type level windowBits memLevel strategy (t : T) : zlib_params level windowBits memLevel strategy -> (0 < n)%nat ->
  let s := mk_Zlib (z_start enc type level windowBits memLevel strategy) n enc [] in
  create enc n type level windowBits memLevel strategy t = Ret (Some s) t /\ stream_ok s.
Proof.
  intros Hp Hn s. destruct (z_init type _ _ _ _ Hp) as [(st1 & E1 & R1) (st2 & E2 & R2)]. destruct Hp as (P1 & P2 & P3 & P4). split.
  - unfold create, init. destruct ((0 <=? level) && (level <=? 9) || (level =? -1)) eqn:G1; [| lia]. destruct ((8 <=? windowBits) && (windowBits <=? 15)) eqn:G2; [| lia].
    destruct ((1 <=? memLevel) && (memLevel <=? 9)) eqn:G3; [| lia]. cbn [negb]. unfold s, z_start. destruct enc; (erewrite bind_Ret by done); cbn beta; [rewrite E1 | rewrite E2]; done.
  - split; [unfold s, z_start; destruct enc; cbn; [by rewrite E1 | by rewrite E2] | done | exists [], []; split_and!; by first [constructor | cbn; lia]].
Qed.

Fixpoint zs_writes (l : list (list Z)) : M ZlibStream Z :=
  match l with
  | [] => mret Z_OK
  | b :: l => ret ← zs_write b; if ret =? Z_OK then zs_writes l else mret ret
  end.

(** One call after the other is one call with all the blocks. *)
Lemma zs_writes_code l : forall s, stream_ok s -> zs_writes l s = code l false s.
Proof.
  induction l as [|b l IH]; intros s Hs; [done |]. cbn [zs_writes]. destruct (code_spec [b] s Hs) as (out & s1 & E1 & _ & _ & Hs1). erewrite bind_Ret by exact E1. change (Z_OK =? Z_OK) with true. cbn iota. rewrite (IH s1 Hs1).
  cbn [code andb] in E1 |- *. unfold mbind, M_bind in *. destruct (drain_all false (avail_in b) s) as [ret s' | |]; [| done | done]. destruct (ret =? Z_STREAM_ERROR) eqn:Er; [| by injection E1 as ->].
  injection E1 as -> _. done.
Qed.

End Create.

Section Claims.
Context `{ZlibLossless}.

(** C28: compressing and expanding.  Any bytes written in any number of calls to
    a stream of any of the three formats, with any valid parameters and any
    buffer size, flushed and
    collected with [getByteArray], and written to an expanding stream of the
    same format with buffers of another size, come back unchanged, but for
    blocks of 2^32 bytes and more, of which only the first [length mod 2^32]
    bytes are compressed; every call
    returns [Z_OK] and no buffer gets more bytes than it has room for.  This is
    so unless the compressed bytes fill whole buffers exactly: then [encode]
    calls [deflate] after the end of the stream, of which the manual of zlib
    promises nothing. *)
Theorem zlib_stream_roundtrip type level windowBits memLevel strategy n m (l : list (list Z)) : zlib_params level windowBits memLevel strategy -> (0 < n)%nat -> (0 < m)%nat ->
  (forall out, made true (z_start true type level windowBits memLevel strategy) (map avail_in l) out -> (length out mod n <> 0)%nat) ->
  exists s0 s1 s2, create true n type level windowBits memLevel strategy tt = Ret (Some s0) tt /\ zs_writes l s0 = Ret Z_OK s1 /\ flush s1 = Ret Z_OK s2 /\ Forall (fun b => length b <= n)%nat (zs_buffs s2) /\
    (Z.of_nat (length (getResult s2)) < 2 ^ 63 ->
     exists ba ba0 d0 d1 d2, getByteArray s2 tt = Ret ba tt /\ setPosition 0 ba = Ret tt ba0 /\ create false m type level windowBits memLevel strategy tt = Ret (Some d0) tt /\
       zs_write_ba ba0 d0 = Ret Z_OK d1 /\ flush d1 = Ret Z_OK d2 /\ Forall (fun b => length b <= m)%nat (zs_buffs d2) /\
       getResult d2 = concat (map avail_in l) /\ (Forall (fun b => Z.of_nat (length b) < 2 ^ 32) l -> getResult d2 = concat l)).
Proof.
  intros Hp Hn Hm Hfull. destruct (create_spec true n type _ _ _ _ tt Hp Hn) as [E0 S0]. destruct (code_flush l _ S0 eq_refl) as (out & s1 & E1 & S1 & Hmade & D1). cbn [zs_encode zs_zstream zs_buffSize] in *.
  destruct D1 as (s2 & E2 & C2); [intros _; by apply Hfull |]. eexists _, s1, s2. split; [exact E0 |]. split; [by rewrite zs_writes_code |]. split; [exact E2 |]. split; [apply packed_room, (co_buffs _ _ _ C2) |]. intros Hlen.
  destruct (getByteArray_spec s2 tt Hlen) as (ba & E3 & Hw & Ed & _ & Hbase). destruct (setPosition_spec ba 0 Hw) as [E4 Hw0]; [lia |]. destruct (create_spec false m type _ _ _ _ tt Hp Hm) as [E5 D0].
  destruct (zs_write_ba_spec (seek 0 ba) (mk_Zlib (z_start false type level windowBits memLevel strategy) m false []) Hw0) as (w & Ew & Ea & E6); [left; cbn; rewrite Hbase; lia |].
  destruct (code_flush w _ D0 eq_refl) as (out' & d1 & E7 & _ & Hmade' & D1). cbn [zs_encode zs_zstream zs_buffSize] in *. destruct D1 as (d2 & E8 & C8); [done |].
  eexists ba, (seek 0 ba), _, d1, d2. split; [exact E3 |]. split; [exact E4 |]. split; [exact E5 |]. split; [by rewrite E6 |]. split; [exact E8 |]. split; [apply packed_room, (co_buffs _ _ _ C8) |].
  assert (getResult d2 = concat (map avail_in l)) as Er; [| split; [done |]; intros Hsm; by rewrite map_avail_in in Er].
  rewrite (co_result _ _ _ C8). cbn. rewrite Ea in Hmade'. eapply z_lossless; [exact Hp | | exact Hmade']. rewrite Ew. unfold remaining. cbn [seek ba_position]. rewrite drop_0. change (data (seek 0 ba)) with (data ba). rewrite Ed, (co_result _ _ _ C2). exact Hmade.
Qed.

End Claims.

(** ** A zlib that flips the bits of each byte

    It keeps to what the manual promises and no more: invalid parameters, a call
    of [deflate] without [Z_FINISH] after one with it, and any call after
    [Z_STREAM_END] give [Z_STREAM_ERROR]. *)

Inductive flip_phase := Open | Finishing | Ended.

Definition flip_bytes : list Z -> list Z := map (Z.lxor 255).

Definition flip_window (windowBits : Z) : bool :=
  ((8 <=? windowBits) && (windowBits <=? 15)) || ((-15 <=? windowBits) && (windowBits <=? -8)) || ((24 <=? windowBits) && (windowBits <=? 31)).

Definition flip_start (valid : bool) : Z * (flip_phase * list Z) := if valid then (Z_OK, (Open, [])) else (Z_STREAM_ERROR, (Ended, [])).

Definition flip_deflate (st : flip_phase * list Z) (fin : bool) (inp : list Z) (avail : nat) : Z * (flip_phase * list Z) * list Z * list Z :=
  let all := snd st ++ flip_bytes inp in
  match fst st, fin with
  | Open, false => (Z_OK, (Open, drop avail all), [], take avail all)
  | Open, true | Finishing, true =>
    if (length all <=? avail)%nat then (Z_STREAM_END, (Ended, []), [], all) else (Z_OK, (Finishing, drop avail all), [], take avail all)
  | _, _ => (Z_STREAM_ERROR, st, inp, [])
  end.

Definition flip_inflate (st : flip_phase * list Z) (fin : bool) (inp : list Z) (avail : nat) : Z * (flip_phase * list Z) * list Z * list Z :=
  let all := snd st ++ flip_bytes inp in (Z_OK, (fst st, drop avail all), [], take avail all).

#[export] Instance flip_zlib : Zlib := {|
  z_stream := flip_phase * list Z;
  deflateInit2 := fun level windowBits memLevel strategy =>
    flip_start ((-1 <=? level) && (level <=? 9) && flip_window windowBits && (1 <=? memLevel) && (memLevel <=? 9) && (0 <=? strategy) && (strategy <=? 4));
  inflateInit2 := fun windowBits => flip_start (flip_window windowBits);
  deflate := flip_deflate;
  inflate := flip_inflate;
  deflateEnd := fun st => st;
  inflateEnd := fun st => st;
  z_rounds := fun _ st _ inp => (length (snd st) + length inp)%nat;
|}.

Lemma flip_init type level windowBits memLevel strategy : zlib_params level windowBits memLevel strategy ->
  deflateInit2 level (window_bits type windowBits) memLevel strategy = (Z_OK, (Open, [])) /\ inflateInit2 (window_bits type windowBits) = (Z_OK, (Open, [])).
Proof.
  intros (P1 & P2 & P3 & P4). cbn. unfold flip_window. assert (forall b : bool, b = true -> flip_start b = (Z_OK, (Open, []))) as Hs by (by intros b ->). split; apply Hs; destruct type; cbn [window_bits]; lia.
Qed.

#[export] Program Instance flip_spec : ZlibSpec := {|
  z_ready := fun enc st => enc = true -> fst (st : flip_phase * list Z) = Open;
  z_finishing := fun st => fst (st : flip_phase * list Z) = Finishing;
|}.
Next Obligation. intros type level windowBits memLevel strategy Hp. destruct (flip_init type _ _ _ _ Hp) as [-> ->]. split; by exists (Open, []). Qed.
Next Obligation.
  intros [|] [ph p] fin inp avail Hc Ha; cbn [z_call deflate inflate flip_zlib z_rounds fst snd andb]; unfold flip_deflate, flip_inflate; cbn [fst snd]; set (all := p ++ flip_bytes inp);
    assert (length all = (length p + length inp)%nat) as El by (unfold all, flip_bytes; by rewrite length_app, length_map).
  - cbn in Hc. destruct fin.
    + assert (ph <> Ended) as Hne by (destruct Hc as [Hc | (_ & _ & Hc)]; [by rewrite Hc | by rewrite Hc]). destruct (Nat.leb_spec (length all) avail).
      * exists Z_STREAM_END, (Ended, []), [], all. destruct ph; [| | done]; (split; [done |]; split; [done |]; cbn; split; [lia |]; split; [lia |]; by left).
      * exists Z_OK, (Finishing, drop avail all), [], (take avail all). destruct ph; [| | done]; (split; [done |]; split; [done |]; cbn; rewrite length_take, length_drop; split; [lia |]; split; [lia |]; right; split; [lia | done]).
    + destruct Hc as [Hc | (_ & ? & _)]; [| done]. rewrite (Hc eq_refl). eexists _, _, _, _. split; [done |]. split; [done |]. cbn. rewrite length_take, length_drop. split; [lia |]. split; [lia | done].
  - eexists _, _, _, _. split; [done |]. split; [done |]. cbn. rewrite length_take, length_drop. split; [lia |]. split; [lia | done].
Qed.

Lemma flip_fed enc fin st inp out st' : fed enc fin st inp out st' -> out = snd (st : flip_phase * list Z) ++ flip_bytes inp /\ snd (st' : flip_phase * list Z) = [].
Proof.
  induction 1 as [st inp avail ret st' inp' out Hc Ha E Hl | st inp avail ret st1 inp1 out1 out2 st' Hc Ha E Hl _ IH]; destruct st as [ph p]; cbn [snd]; set (all := p ++ flip_bytes inp); unfold z_callable in Hc; cbn in Hc.
  - assert (take avail all = all -> drop avail all = []) as Hd by (intros Ht; rewrite <- Ht; apply drop_ge; rewrite length_take; lia).
    assert ((length (take avail all) < avail)%nat -> take avail all = all) as Ht by (rewrite length_take; intros; apply take_ge; lia).
    destruct enc; cbn in E; [unfold flip_deflate in E | unfold flip_inflate in E]; cbn [fst snd] in E; fold all in E.
    + destruct Hc as [Hc | (_ & -> & Hc)]; [rewrite (Hc eq_refl) in E; destruct fin | rewrite Hc in E]; [destruct (Nat.leb_spec (length all) avail) | | destruct (Nat.leb_spec (length all) avail)];
        injection E as <- <- <- <-; try done; (destruct Hl as [Hl | [Hl ?]]; [| done]); [rewrite length_take in Hl; lia | by rewrite Hd; auto | rewrite length_take in Hl; lia].
    + injection E as <- <- <- <-. destruct Hl as [Hl | [Hl ?]]; [by rewrite Hd; auto | done].
  - assert (inp1 = [] /\ out1 ++ snd (st1 : flip_phase * list Z) = all) as [-> Eq].
    { destruct enc; cbn in E; [unfold flip_deflate in E | unfold flip_inflate in E]; cbn [fst snd] in E; fold all in E; [| injection E as <- <- <- <-; cbn; by rewrite take_drop].
      destruct Hc as [Hc | (_ & -> & Hc)]; [rewrite (Hc eq_refl) in E; destruct fin | rewrite Hc in E]; [destruct (Nat.leb_spec (length all) avail) | | destruct (Nat.leb_spec (length all) avail)];
        injection E as <- <- <- <-; cbn; by rewrite ?take_drop, ?app_nil_r. }
    destruct IH as [-> ->]. split; [| done]. cbn. by rewrite app_nil_r.
Qed.

Lemma flip_made enc v out : made enc (Open, []) v out -> out = flip_bytes (concat v).
Proof.
  assert (forall st out1 st1, snd (st : flip_phase * list Z) = [] -> feeds enc st v out1 st1 -> out1 = flip_bytes (concat v) /\ snd (st1 : flip_phase * list Z) = []) as Hf.
  { intros st out1 st1 Hst Hv. induction Hv as [st | st b v o1 st' o2 st'' Hb _ IH]; [done |]. apply flip_fed in Hb as [-> Hb]. destruct (IH Hb) as [-> ?]. split; [| done]. cbn [concat]. unfold flip_bytes. by rewrite Hst, map_app. }
  intros (o1 & st1 & o2 & st2 & F1 & F2 & ->). apply Hf in F1 as [-> E]; [| done]. apply flip_fed in F2 as [-> _]. rewrite E. cbn. by rewrite app_nil_r.
Qed.

Lemma flip_flip l : flip_bytes (flip_bytes l) = l.
Proof. unfold flip_bytes. rewrite map_map, <- map_id. apply map_ext. intros b. by rewrite <- Z.lxor_assoc, Z.lxor_nilpotent, Z.lxor_0_l. Qed.

#[export] Instance flip_lossless : ZlibLossless.
Proof.
  intros type level windowBits memLevel strategy v w out Hp. destruct (flip_init type _ _ _ _ Hp) as [-> ->]. cbn [snd]. intros H1%flip_made H2%flip_made. by rewrite H2, H1, flip_flip.
Qed.

Lemma zlib_stream_roundtrip_witness : exists s0 s1 s2 : ZlibStream,
  create true 4 Gzip (-1) 15 8 0 tt = Ret (Some s0) tt /\ zs_writes [[1; 2; 3]; []; [250; 251; 252; 253; 254; 255]] s0 = Ret Z_OK s1 /\ flush s1 = Ret Z_OK s2 /\ zs_buffs s2 = [[254; 253; 252; 5]; [4; 3; 2; 1]; [0]] /\
  exists (ba ba0 : ByteArray) (d0 d1 d2 : ZlibStream), getByteArray s2 tt = Ret ba tt /\ setPosition 0 ba = Ret tt ba0 /\ create false 2 Gzip (-1) 15 8 0 tt = Ret (Some d0) tt /\ zs_write_ba ba0 d0 = Ret Z_OK d1 /\ flush d1 = Ret Z_OK d2 /\
    getResult d2 = [1; 2; 3; 250; 251; 252; 253; 254; 255].
Proof.
  destruct (zlib_stream_roundtrip Gzip (-1) 15 8 0 4 2 [[1; 2; 3]; []; [250; 251; 252; 253; 254; 255]]) as (s0 & s1 & s2 & E0 & E1 & E2 & _ & R).
  - unfold zlib_params. lia.
  - lia.
  - lia.
  - intros out Hout. change (z_start _ _ _ _ _ _) with ((Open, []) : flip_phase * list Z) in Hout. apply flip_made in Hout as ->. vm_compute. discriminate.
  - exists s0, s1, s2. do 3 (split; [done |]). assert (zs_buffs s2 = [[254; 253; 252; 5]; [4; 3; 2; 1]; [0]]) as Eb.
    { vm_compute in E0. injection E0 as <-. vm_compute in E1. injection E1 as <-. vm_compute in E2. by injection E2 as <-. }
    split; [exact Eb |]. destruct R as (ba & ba0 & d0 & d1 & d2 & F1 & F2 & F3 & F4 & F5 & _ & _ & F6); [unfold getResult; rewrite Eb; reflexivity |]. exists ba, ba0, d0, d1, d2. do 5 (split; [done |]).
    apply F6. repeat constructor.
Defined.
