(* ===== verification/RockProtocol.v ===== *)
(** * The Rock protocol

    [src/include/protocol.h], [src/src/protocol.cpp],
    [src/include/rock/rock_protocol.h] and [src/src/rock/rock_protocol.cpp]:
    requests, responses and notifications with a body, their fields in a
    [ByteArray], and [RockMessageDecoder], which puts them on a [Stream] behind
    a header, compressed when they are long.  Built on the byte buffer and its
    codecs, on the connection and on the compression streams. *)

From stdpp Require Import base list numbers option.
From Stdlib Require Import ZArith Lia.
From S2P Require Import Prelude.
From S2P Require Import ByteArray.
From S2P Require Import ByteCodec.
From S2P Require Import ByteArrayIO.
From S2P Require Import Connection.
From S2P Require Import ZlibStream.

Local Open Scope Z_scope.

(** [Stream::readFixSize] and [writeFixSize] of a [ByteArray] over the
    connection of a [SocketStream]. *)
Definition stream_read (len : nat) (ba : ByteArray) : M Conn (Z * ByteArray) :=
  c ← get;
  if c_open c then
    '(_, vs, ba) ← on_object (getWriteBuffers len) ba;
    '(rt, payload) ← recv len;
    let ba := set_nodes (scatter (ba_nodes ba) vs payload) ba in
    if 0 <? rt then '(_, ba) ← on_object (setPosition (ba_position ba + Z.to_nat rt)) ba; mret (rt, ba)
    else mret (rt, ba)
  else mret (-1, ba).

Definition stream_write (len : nat) (ba : ByteArray) : M Conn (Z * ByteArray) :=
  c ← get;
  if c_open c then
    '(_, vs, ba) ← on_object (getReadBuffers len) ba;
    rt ← send (gather (ba_nodes ba) vs);
    if 0 <? rt then '(_, ba) ← on_object (setPosition (ba_position ba + Z.to_nat rt)) ba; mret (rt, ba)
    else mret (rt, ba)
  else mret (-1, ba).

Fixpoint stream_read_loop (fuel : nat) (length0 left : Z) (ba : ByteArray) : M Conn (Z * ByteArray) :=
  if left <=? 0 then mret (i32 length0, ba)
  else
    match fuel with
    | O => undef Diverges
    | S fuel =>
      '(len, ba) ← stream_read (Z.to_nat left) ba;
      if len <=? 0 then mret (i32 len, ba) else stream_read_loop fuel length0 (left - len) ba
    end.

Definition stream_readFixSize (length0 : Z) (ba : ByteArray) : M Conn (Z * ByteArray) := fun c =>
  stream_read_loop (length (c_in c) + 1) length0 (i64 length0) ba c.

Fixpoint stream_write_loop (fuel : nat) (length0 left : Z) (ba : ByteArray) : M Conn (Z * ByteArray) :=
  if left <=? 0 then mret (i32 length0, ba)
  else
    match fuel with
    | O => undef Diverges
    | S fuel =>
      '(len, ba) ← stream_write (Z.to_nat left) ba;
      if len <=? 0 then mret (i32 len, ba) else stream_write_loop fuel length0 (left - len) ba
    end.

Definition stream_writeFixSize (length0 : Z) (ba : ByteArray) : M Conn (Z * ByteArray) :=
  stream_write_loop (Z.to_nat (i64 length0)) length0 (i64 length0) ba.

(** ** Messages *)

Inductive Message :=
| RockRequest (sn cmd : Z) (body : list Z)
| RockResponse (sn cmd result : Z) (resultStr body : list Z)
| RockNotify (notify : Z) (body : list Z).

(** [enum MessageType] *)
Definition getType (msg : Message) : Z :=
  match msg with
  | RockRequest _ _ _ => 1
  | RockResponse _ _ _ _ _ => 2
  | RockNotify _ _ => 3
  end.

(** [RockRequest::createResponse]: a response to [sn] and [cmd], with the
    defaults of [Response::Response]. *)
Definition unhandle : list Z := [117; 110; 104; 97; 110; 100; 108; 101].

Definition createResponse (msg : Message) : option Message :=
  match msg with
  | RockRequest sn cmd _ => Some (RockResponse sn cmd 404 unhandle [])
  | _ => None
  end.

Section Protocol.
Context `{Zlib} (host : endian).

Definition Body_serialize (body : list Z) : M ByteArray bool := write_string host Varint body;; mret true.
Definition Body_parse : M ByteArray (list Z) := read_string host Varint.

Definition Request_serialize (sn cmd : Z) : M ByteArray bool :=
  write_int host uint32_t sn;; write_int host uint32_t cmd;; mret true.

Definition Request_parse : M ByteArray (Z * Z) :=
  setPosition 0;; sn ← read_int host uint32_t; cmd ← read_int host uint32_t; mret (sn, cmd).

Definition Response_serialize (sn cmd result : Z) (resultStr : list Z) : M ByteArray bool :=
  write_int host uint32_t sn;; write_int host uint32_t cmd;; write_int host uint32_t result;;
  write_string host Varint resultStr;; mret true.

Definition Response_parse : M ByteArray (Z * Z * Z * list Z) :=
  setPosition 0;; sn ← read_int host uint32_t; cmd ← read_int host uint32_t; result ← read_int host uint32_t;
  resultStr ← read_string host Varint; mret (sn, cmd, result, resultStr).

Definition Notify_serialize (notify : Z) : M ByteArray bool := write_int host uint32_t notify;; mret true.

Definition Notify_parse : M ByteArray Z := setPosition 0;; read_int host uint32_t.

(** The three classes: the fields of the base class, then the body; an
    exception makes the result false. *)
Definition RockRequest_serialize (sn cmd : Z) (body : list Z) : M ByteArray bool :=
  try_catch (v ← Request_serialize sn cmd; v' ← Body_serialize body; mret (v && v')) (mret false).

Definition RockResponse_serialize (sn cmd result : Z) (resultStr body : list Z) : M ByteArray bool :=
  try_catch (v ← Response_serialize sn cmd result resultStr; v' ← Body_serialize body; mret (v && v')) (mret false).

Definition RockNotify_serialize (notify : Z) (body : list Z) : M ByteArray bool :=
  try_catch (v ← Notify_serialize notify; v' ← Body_serialize body; mret (v && v')) (mret false).

(** The virtual method. *)
Definition serializeToByteArray (msg : Message) : M ByteArray bool :=
  match msg with
  | RockRequest sn cmd body => RockRequest_serialize sn cmd body
  | RockResponse sn cmd result resultStr body => RockResponse_serialize sn cmd result resultStr body
  | RockNotify notify body => RockNotify_serialize notify body
  end.

(** Parsing into a new message of each class; [None]: false. *)
Definition RockRequest_parse : M ByteArray (option Message) :=
  try_catch ('(sn, cmd) ← Request_parse; body ← Body_parse; mret (Some (RockRequest sn cmd body))) (mret None).

Definition RockResponse_parse : M ByteArray (option Message) :=
  try_catch ('(sn, cmd, result, resultStr) ← Response_parse; body ← Body_parse; mret (Some (RockResponse sn cmd result resultStr body))) (mret None).

Definition RockNotify_parse : M ByteArray (option Message) :=
  try_catch (notify ← Notify_parse; body ← Body_parse; mret (Some (RockNotify notify body))) (mret None).

Definition parseFromByteArray (type : Z) : M ByteArray (option Message) :=
  if type =? 1 then RockRequest_parse else if type =? 2 then RockResponse_parse else RockNotify_parse.

(** [Message::toByteArray]; [None]: [nullptr]. *)
Definition toByteArray {T} (msg : Message) : M T (option ByteArray) :=
  '(v, ba) ← on_object (serializeToByteArray msg) (new_ByteArray 4096);
  mret (if v : bool then Some ba else None).

(** ** The decoder *)

Definition magic : list Z := [171; 205].

(** The eight bytes of [RockMsgHeader], the length in network order. *)
Definition header_bytes (flag len : Z) : list Z := magic ++ [1; flag] ++ mem_of BIG_ENDIAN 4 (u32 len).

(** The gzip stream of [len] bytes and what comes out of it; [inl]: the code
    [parseFrom] and [serializeTo] test. *)
Definition gzip_through (encode : bool) (ba : ByteArray) : M Conn (Z + ByteArray) :=
  zstream ← createGzip encode 4096;
  match zstream with
  | None => undef NullDeref
  | Some zs =>
    '(rt, zs) ← on_object (zs_write_ba ba) zs;
    if negb (rt =? Z_OK) then mret (inl (-1))
    else
      '(rt, zs) ← on_object flush zs;
      if negb (rt =? Z_OK) then mret (inl (-2))
      else ba ← getByteArray zs; mret (inr ba)
  end.

Definition parse_body (ba : ByteArray) : M Conn (option Message) :=
  '(type, ba) ← on_object (read_int host uint8_t) ba;
  if (type =? 1) || (type =? 2) || (type =? 3) then '(msg, _) ← on_object (parseFromByteArray type) ba; mret msg
  else mret None.

(** [RockMessageDecoder::parseFrom]; [None]: [nullptr]. *)
Definition parseFrom (max_length : Z) : M Conn (option Message) :=
  try_catch
    ('(rt, header) ← conn_readFixSize 8;
     if rt <=? 0 then mret None
     else if negb (bool_decide (take 2 header = magic)) then mret None
     else if negb (default 0 (header !! 2%nat) =? 1) then mret None
     else
       let len := i32 (of_mem BIG_ENDIAN (drop 4 header)) in
       if max_length <=? u32 len then mret None
       else
         '(rt, ba) ← stream_readFixSize (u64 len) (new_ByteArray 4096);
         if rt <=? 0 then mret None
         else
           '(_, ba) ← on_object (setPosition 0) ba;
           if Z.odd (default 0 (header !! 3%nat)) then
             r ← gzip_through false ba;
             match r with
             | inl _ => mret None
             | inr ba => parse_body ba
             end
           else parse_body ba)
    (mret None).

(** [RockMessageDecoder::serializeTo]. *)
Definition serializeTo (gzip_min_length : Z) (msg : Message) : M Conn Z :=
  ba ← toByteArray msg;
  match ba with
  | None => undef NullDeref
  | Some ba =>
    '(_, ba) ← on_object (setPosition 0) ba;
    let length := i32 (Z.of_nat (ba_size ba)) in
    r ← (if gzip_min_length <=? u32 length then
           r ← gzip_through true ba;
           mret (match r with
                 | inl e => inl e
                 | inr ba => inr (ba, 1, i32 (Z.of_nat (ba_size ba)))
                 end)
         else mret (inr (ba, 0, length)));
    match r with
    | inl e => mret e
    | inr (ba, flag, length) =>
      rt ← conn_writeFixSize (header_bytes flag length);
      if rt <=? 0 then mret (-3)
      else
        '(rt, ba) ← stream_writeFixSize (getReadSize ba) ba;
        if rt <=? 0 then mret (-4) else mret (i32 (8 + Z.of_nat (ba_size ba)))
    end
  end.

End Protocol.
