(* ===== verification/RockClaims.v ===== *)
(** * What crosses a connection in the Rock protocol

    A message is a list of typed fields; the loops that move a [ByteArray] over
    the connection move exactly its bytes; the claims on the decoder follow. *)

From stdpp Require Import base list numbers option.
From Stdlib Require Import ZArith Lia.
From S2P Require Import Prelude.
From S2P Require Import ByteArray.
From S2P Require Import ByteCodec.
From S2P Require Import ByteArrayIO.
From S2P Require Import Connection.
From S2P Require Import ZlibStream.
From S2P Require Import RockProtocol.

Local Open Scope Z_scope.

(** ** Messages as fields *)

Definition num (v : Z) : shape * value := (SInt uint32_t, VInt v).
Definition str (bs : list Z) : shape * value := (SString Varint, VStr bs).

Definition fields_of (msg : Message) : list (shape * value) :=
  match msg with
  | RockRequest sn cmd body => [num sn; num cmd; str body]
  | RockResponse sn cmd result resultStr body => [num sn; num cmd; num result; str resultStr; str body]
  | RockNotify notify body => [num notify; str body]
  end.

Definition first_field (msg : Message) : Z :=
  match msg with
  | RockRequest sn _ _ | RockResponse sn _ _ _ _ => sn
  | RockNotify notify _ => notify
  end.

(** The fields fit their types, the whole message the address space. *)
Definition msg_ok (msg : Message) : Prop :=
  match msg with
  | RockRequest sn cmd body => in_u 32 sn /\ in_u 32 cmd
  | RockResponse sn cmd result resultStr body => in_u 32 sn /\ in_u 32 cmd /\ in_u 32 result
  | RockNotify notify body => in_u 32 notify
  end.

(** The bytes of a message in network order. *)
Definition wire (msg : Message) : list Z := enc_fields BIG_ENDIAN (fields_of msg).

Definition shapes (type : Z) : list shape :=
  if type =? 1 then [SInt uint32_t; SInt uint32_t; SString Varint]
  else if type =? 2 then [SInt uint32_t; SInt uint32_t; SInt uint32_t; SString Varint; SString Varint]
  else [SInt uint32_t; SString Varint].

Definition build (vs : list value) : option Message :=
  match vs with
  | [VInt sn; VInt cmd; VStr body] => Some (RockRequest sn cmd body)
  | [VInt sn; VInt cmd; VInt result; VStr resultStr; VStr body] => Some (RockResponse sn cmd result resultStr body)
  | [VInt notify; VStr body] => Some (RockNotify notify body)
  | _ => None
  end.

Lemma serialize_fields host msg ba : serializeToByteArray host msg ba = try_catch (write_fields host (fields_of msg);; mret true) (mret false) ba.
Proof.
  destruct msg; cbn [serializeToByteArray fields_of write_fields write_field num str]; unfold RockRequest_serialize, RockResponse_serialize, RockNotify_serialize, try_catch, Request_serialize, Response_serialize, Notify_serialize, Body_serialize, mbind, M_bind, mret, M_ret; repeat (case_match; simplify_eq/=; try done).
Qed.

Lemma parse_fields host type ba : type = 1 \/ type = 2 \/ type = 3 ->
  parseFromByteArray host type ba = try_catch (setPosition 0;; vs ← read_fields host (shapes type); mret (build vs)) (mret None) ba.
Proof.
  intros [-> | [-> | ->]]; unfold parseFromByteArray, shapes; cbn [Z.eqb Pos.eqb read_fields read_field]; unfold RockRequest_parse, RockResponse_parse, RockNotify_parse, try_catch, Request_parse, Response_parse, Notify_parse, Body_parse, mbind, M_bind, mret, M_ret; repeat (case_match; simplify_eq/=; try congruence).
Qed.

Lemma shapes_of msg : shapes (getType msg) = map fst (fields_of msg).
Proof. by destruct msg. Qed.

Lemma build_of msg : build (map snd (fields_of msg)) = Some msg.
Proof. by destruct msg. Qed.

Lemma type_cases msg : getType msg = 1 \/ getType msg = 2 \/ getType msg = 3.
Proof. destruct msg; cbn; lia. Qed.

Lemma num_ok v : in_u 32 v -> ok_field (num v).
Proof. intros Hv. split; [by right; right; left | exact Hv]. Qed.

Lemma str_wire e bs : (length bs <= length (enc_field e (str bs)))%nat.
Proof. cbn [enc_field str]. unfold enc_string. rewrite length_app. lia. Qed.

Lemma wire_ok msg : msg_ok msg -> Z.of_nat (length (wire msg)) < 2 ^ 63 -> Forall ok_field (fields_of msg).
Proof.
  intros Hm Hl. assert (forall bs, str bs ∈ fields_of msg -> ok_field (str bs)) as Hs.
  { intros bs Hb. cbn. apply list_elem_of_split in Hb as (l1 & l2 & E). unfold wire, enc_fields in Hl. rewrite E, map_app, concat_app, length_app in Hl. cbn [map concat] in Hl. rewrite length_app in Hl. pose proof (str_wire BIG_ENDIAN bs). lia. }
  destruct msg; cbn [fields_of msg_ok] in *; repeat (apply list.Forall_cons_2 || apply list.Forall_nil_2); first [apply num_ok; tauto | apply Hs; clear; rewrite !elem_of_cons; naive_solver].
Qed.

(** The first byte on the wire is the top byte of the first field. *)
Lemma wire_first msg : msg_ok msg -> exists l, wire msg = first_field msg / 2 ^ 24 :: l.
Proof.
  intros Hm. assert (forall v, in_u 32 v -> enc_field BIG_ENDIAN (num v) = [v / 2 ^ 24; v / 2 ^ 16 mod 256; v / 2 ^ 8 mod 256; v mod 256]) as E.
  { intros v Hv. cbn [enc_field num enc_int mem_of]. unfold enc_int, to_storage, mem_of. rewrite uwrap_id by exact Hv. cbn [it_size uint32_t le_split rev app]. unfold in_u in Hv. rewrite !Z.div_div by lia. cbn. rewrite (Z.mod_small (v / 16777216)) by (split; [apply Z.div_pos; lia | apply Z.div_lt_upper_bound; lia]). done. }
  unfold wire, enc_fields. destruct msg; cbn [fields_of map concat first_field msg_ok] in *; (rewrite E by tauto); by eexists.
Qed.

(** ** Buffers over a connection *)

Lemma recv_steady (len : nat) c bs rest : steady c -> c_in c = bs ++ rest -> (0 < len)%nat -> (len <= length bs)%nat ->
  exists (k : nat) c', (0 < k <= len)%nat /\ recv len c = Ret (Z.of_nat k, take k bs) c' /\ moved c (take k bs) [] c' /\ c_in c' = drop k bs ++ rest.
Proof.
  intros Hc Hin Hl Hb. pose proof (st_recvs _ Hc (c_nrecv c)) as Hv. exists (Nat.min len (Z.to_nat (c_recvs c (c_nrecv c)))). eexists. split; [lia |]. unfold recv. rewrite (proj2 (Z.leb_gt _ _)) by lia. rewrite Hin.
  rewrite take_app_le by lia. rewrite length_take, Nat.min_l by lia. split; [reflexivity |]. cbn [put_in c_in]. rewrite drop_app_le by lia. split; [| done]. split; try done; cbn; [by rewrite Hin, app_assoc, take_drop | by rewrite app_nil_r].
Qed.

Lemma stream_read_eq len ba c rt payload c' ba' : c_open c = true -> recv len c = Ret (rt, payload) c' -> SocketStream_read true len rt payload ba = Ret rt ba' -> stream_read len ba c = Ret (rt, ba') c'.
Proof.
  intros Ho Er. unfold stream_read, SocketStream_read, on_object, mbind, M_bind, mret, M_ret, get, modify. rewrite Ho. destruct (getWriteBuffers len ba) as [[n vs] ba1 | |]; [| done | done]. cbn [snd]. rewrite Er.
  destruct (0 <? rt); [| by intros [= <-]]. by destruct (setPosition _ _) as [[] ba2 | |]; intros [= <-].
Qed.

Lemma stream_read_loop_spec fuel length0 left ba c bs rest : steady c -> c_in c = bs ++ rest -> left = Z.of_nat (length bs) -> (length bs <= fuel)%nat -> wf ba -> fits (length bs) ba ->
  exists c' ba', stream_read_loop fuel length0 left ba c = Ret (i32 length0, ba') c' /\ moved c bs [] c' /\ c_in c' = rest /\ received ba (length bs) bs ba'.
Proof.
  revert left ba c bs. induction fuel as [|fuel IH]; intros left ba c bs Hc Hin -> Hf Hw Hfit.
  all: destruct bs as [|b bs']; [exists c, ba; split; [done |]; split; [apply moved_refl |]; split; [done |]; split; cbn; try done; try lia; by rewrite splice_nil |]; set (bs := b :: bs') in *.
  - cbn in Hf. lia.
  - cbn [stream_read_loop]. assert (0 < length bs)%nat by (cbn; lia). destruct (Z.leb_spec (Z.of_nat (length bs)) 0); [lia |]. rewrite Nat2Z.id. destruct (recv_steady (length bs) c bs rest Hc Hin) as (k & c1 & Hk & Er & M1 & Hin1); [lia | lia |].
    destruct (SocketStream_read_spec ba (length bs) (Z.of_nat k) (take k bs) Hw Hfit) as (ba1 & E1 & [R1 R2 R3 R4 R5 R6]); [lia | rewrite length_take; lia | lia |]. rewrite length_take in R4. erewrite bind_Ret by (eapply stream_read_eq; [apply Hc | exact Er | exact E1]).
    cbn beta iota. destruct (Z.leb_spec (Z.of_nat k) 0); [lia |]. destruct (IH (Z.of_nat (length bs) - Z.of_nat k) ba1 c1 (drop k bs)) as (c2 & ba2 & E2 & M2 & Hin2 & [V1 V2 V3 V4 V5 V6]).
    + by eapply moved_steady.
    + done.
    + rewrite length_drop. lia.
    + rewrite length_drop. lia.
    + done.
    + unfold fits in *. rewrite length_drop. lia.
    + exists c2, ba2. split; [exact E2 |]. pose proof (moved_trans _ _ _ _ _ _ _ M1 M2) as Mv. rewrite take_drop in Mv. split; [done |]. split; [done |]. rewrite length_drop in *.
      split; try congruence; try lia. rewrite V6, R4, R6. rewrite Nat.min_l by lia. pose proof (splice_splice (data ba) (take k bs) (drop k bs) (ba_position ba)) as E. rewrite length_take, Nat.min_l, take_drop in E by lia. apply E. rewrite length_data by done. apply Hw.
Qed.

(** A message body arrives in a new buffer. *)
Lemma stream_readFixSize_spec c bs rest : steady c -> c_in c = bs ++ rest -> Z.of_nat (length bs) < 2 ^ 31 ->
  exists c' ba, stream_readFixSize (Z.of_nat (length bs)) (new_ByteArray 4096) c = Ret (Z.of_nat (length bs), ba) c' /\ moved c bs [] c' /\ c_in c' = rest /\ wf ba /\ data ba = bs /\ ba_endian ba = BIG_ENDIAN.
Proof.
  intros Hc Hin Hl. unfold stream_readFixSize, i64. rewrite swrap_id by (unfold in_s; lia). destruct (stream_read_loop_spec (length (c_in c) + 1) (Z.of_nat (length bs)) (Z.of_nat (length bs)) (new_ByteArray 4096) c bs rest Hc Hin eq_refl) as (c' & ba & E & Mv & Hr & [R1 R2 R3 R4 R5 R6]).
  - rewrite Hin, length_app. lia.
  - apply new_ByteArray_wf; lia.
  - apply new_fits. lia.
  - exists c', ba. rewrite E. unfold i32. rewrite swrap_id by (unfold in_s; lia). do 4 (split; [done |]). split; [| done]. rewrite R6. cbn [new_ByteArray ba_position]. unfold data. cbn [ba_size new_ByteArray]. rewrite take_0. unfold splice. cbn. by rewrite drop_nil, app_nil_r.
Qed.

Lemma send_steady bs c : steady c -> bs <> [] -> exists (k : nat) c', (0 < k <= length bs)%nat /\ send bs c = Ret (Z.of_nat k) c' /\ moved c [] (take k bs) c'.
Proof.
  intros Hc Hb. pose proof (st_sends _ Hc (c_nsend c)) as Hv. assert (0 < length bs)%nat by (destruct bs; [done | cbn; lia]). exists (Nat.min (Z.to_nat (c_sends c (c_nsend c))) (length bs)). eexists. split; [lia |]. unfold send. rewrite (proj2 (Z.leb_gt _ _)) by lia.
  rewrite length_take. split; [reflexivity |]. split; try done. cbn. f_equal. destruct (Nat.min_spec (Z.to_nat (c_sends c (c_nsend c))) (length bs)) as [[_ ->] | [Hle ->]]; [done |]. by rewrite !firstn_all2 by lia.
Qed.

Lemma stream_write_loop_spec fuel length0 ba c : steady c -> wf ba -> (length (remaining ba) <= fuel)%nat ->
  exists c', stream_write_loop fuel length0 (Z.of_nat (length (remaining ba))) ba c = Ret (i32 length0, seek (ba_size ba) ba) c' /\ moved c [] (remaining ba) c'.
Proof.
  revert ba c. induction fuel as [|fuel IH]; intros ba c Hc Hw Hf; pose proof (wf_position _ Hw) as Hp; assert (length (remaining ba) = (ba_size ba - ba_position ba)%nat) as Hr by (unfold remaining; by rewrite length_drop, length_data).
  all: destruct (decide (remaining ba = [])) as [E0 | E0]; [exists c; rewrite E0 in *; cbn [length] in Hr; split; [| apply moved_refl]; replace (ba_size ba) with (ba_position ba) by lia; assert (seek (ba_position ba) ba = ba) as -> by (unfold seek; rewrite <- (wf_cursor _ Hw); by destruct ba); done |].
  all: assert (0 < length (remaining ba))%nat by (destruct (remaining ba); [done | cbn; lia]).
  { lia. }
  cbn [stream_write_loop]. destruct (Z.leb_spec (Z.of_nat (length (remaining ba))) 0); [lia |]. rewrite Nat2Z.id. destruct (getReadBuffers_spec ba (length (remaining ba)) Hw) as (vs & Eg & Hg). rewrite firstn_all in Hg. destruct (send_steady (remaining ba) c Hc E0) as (k & c1 & Hk & Es & M1).
  destruct (setPosition_spec ba (ba_position ba + k) Hw) as [Ep Hw1]; [lia |].
  assert (stream_write (length (remaining ba)) ba c = Ret (Z.of_nat k, seek (ba_position ba + k) ba) c1) as Ew.
  { unfold stream_write. erewrite bind_Ret by done. rewrite (st_open _ Hc). erewrite bind_Ret by (unfold on_object; rewrite Eg; reflexivity). cbn beta iota. rewrite Hg. erewrite bind_Ret by exact Es. destruct (Z.ltb_spec 0 (Z.of_nat k)); [| lia]. rewrite Nat2Z.id. erewrite bind_Ret by (unfold on_object; rewrite Ep; reflexivity). done. }
  erewrite bind_Ret by exact Ew. cbn beta iota. destruct (Z.leb_spec (Z.of_nat k) 0); [lia |]. pose proof (remaining_seek ba (take k (remaining ba)) (drop k (remaining ba)) (eq_sym (take_drop k (remaining ba)))) as Ek. rewrite length_take, Nat.min_l in Ek by lia.
  destruct (IH (seek (ba_position ba + k) ba) c1) as (c2 & E2 & M2).
  - by eapply moved_steady.
  - done.
  - rewrite Ek, length_drop. lia.
  - rewrite Ek in E2, M2. rewrite length_drop in E2. replace (Z.of_nat (length (remaining ba)) - Z.of_nat k) with (Z.of_nat (length (remaining ba) - k)) by lia. exists c2. split; [rewrite E2, seek_seek; done |]. pose proof (moved_trans _ _ _ _ _ _ _ M1 M2) as Mv. by rewrite take_drop in Mv.
Qed.

(** The unread bytes of a buffer go to the peer. *)
Lemma stream_writeFixSize_spec ba c : steady c -> wf ba -> Z.of_nat (length (remaining ba)) < 2 ^ 31 ->
  exists c', stream_writeFixSize (getReadSize ba) ba c = Ret (Z.of_nat (length (remaining ba)), seek (ba_size ba) ba) c' /\ moved c [] (remaining ba) c'.
Proof.
  intros Hc Hw Hl. assert (getReadSize ba = Z.of_nat (length (remaining ba))) as -> by (rewrite getReadSize_wf by done; unfold remaining; by rewrite length_drop, length_data). unfold stream_writeFixSize, i64. rewrite swrap_id by (unfold in_s; lia). rewrite Nat2Z.id.
  destruct (stream_write_loop_spec (length (remaining ba)) (Z.of_nat (length (remaining ba))) ba c Hc Hw) as (c' & E & Mv); [lia |]. exists c'. rewrite E. unfold i32. by rewrite swrap_id by (unfold in_s; lia).
Qed.

(** ** Serializing and parsing *)


Lemma on_object_Ret {T S A} (m : M S A) s a s' (t : T) : m s = Ret a s' -> on_object m s t = Ret (a, s') t.
Proof. unfold on_object. by intros ->. Qed.

Lemma on_object_Throw {T S A} (m : M S A) s e s' (t : T) : m s = Throw e s' -> on_object m s t = Throw e t.
Proof. unfold on_object. by intros ->. Qed.

Lemma toByteArray_spec {T} host msg (t : T) : msg_ok msg -> Z.of_nat (length (wire msg)) < 2 ^ 63 ->
  exists ba, toByteArray host msg t = Ret (Some ba) t /\ wf ba /\ data ba = wire msg /\ ba_endian ba = BIG_ENDIAN.
Proof.
  intros Hm Hl. assert (wf (new_ByteArray 4096)) as Hw by (apply new_ByteArray_wf; lia). destruct (write_fields_spec host (fields_of msg) (new_ByteArray 4096) (wire_ok msg Hm Hl) Hw (new_fits _ Hl)) as (ba & E & [W1 W2 W3 W4 W5 W6 W7]).
  exists ba. split; [| split; [done | split; [| done]]].
  - unfold toByteArray. erewrite bind_Ret by (apply on_object_Ret; rewrite serialize_fields; unfold try_catch; erewrite bind_Ret by exact E; reflexivity). done.
  - rewrite W7. cbn [new_ByteArray ba_position]. unfold data. cbn [ba_size new_ByteArray]. rewrite take_0. unfold splice. cbn. by rewrite drop_nil, app_nil_r.
Qed.

Section Parsing.
Context (host : endian) (msg : Message) (ba : ByteArray).
Hypotheses (Hm : msg_ok msg) (Hl : Z.of_nat (length (wire msg)) < 2 ^ 63) (Hw : wf ba) (Hd : data ba = wire msg) (He : ba_endian ba = BIG_ENDIAN).

Lemma at_start : setPosition 0 ba = Ret tt (seek 0 ba) /\ wf (seek 0 ba) /\ remaining (seek 0 ba) = wire msg.
Proof. destruct (setPosition_spec ba 0 Hw) as [E Hs]; [lia |]. split; [done |]. split; [done |]. unfold remaining. cbn [seek ba_position]. by rewrite drop_0. Qed.

(** [setPosition(0)] and the fields of the class give the message back. *)
Lemma parse_message : exists ba', parseFromByteArray host (getType msg) ba = Ret (Some msg) ba'.
Proof.
  destruct at_start as (E0 & Hs & Hr). rewrite parse_fields by apply type_cases. unfold try_catch. erewrite bind_Ret by exact E0. rewrite shapes_of. pose proof (read_fields_spec host (fields_of msg) (seek 0 ba) [] (wire_ok msg Hm Hl) Hs) as R. cbn [seek ba_endian] in R. rewrite He, app_nil_r in R.
  erewrite bind_Ret by exact (R Hr). rewrite build_of. by eexists.
Qed.

Lemma top_byte : in_u 8 (first_field msg / 2 ^ 24).
Proof. assert (in_u 32 (first_field msg)) as [H1 H2] by (clear - Hm; destruct msg; cbn in *; tauto). split; [apply Z.div_pos; lia | apply Z.div_lt_upper_bound; lia]. Qed.

(** The type the decoder reads is the top byte of the first field. *)
Lemma read_type : exists ba', read_int host uint8_t (seek 0 ba) = Ret (first_field msg / 2 ^ 24) ba' /\ wf ba' /\ data ba' = wire msg /\ ba_endian ba' = BIG_ENDIAN.
Proof.
  destruct at_start as (E0 & Hs & Hr). destruct (wire_first msg Hm) as [l E]. assert (enc_int uint8_t BIG_ENDIAN (first_field msg / 2 ^ 24) = [first_field msg / 2 ^ 24]) as Ei.
  { unfold enc_int, to_storage, mem_of. rewrite uwrap_id by exact top_byte. cbn [it_size uint8_t le_split rev app]. rewrite Z.mod_small by apply top_byte. done. }
  eexists. split; [apply (codec_rd (Codec := int_codec host uint8_t) (first_field msg / 2 ^ 24) (seek 0 ba) l) |].
  - split; [by left | apply top_byte].
  - done.
  - cbn [seek ba_endian]. rewrite He, Ei, Hr, E. done.
  - cbn [seek ba_endian ba_position]. rewrite He, Ei, seek_seek. split; [| split; [exact Hd | done]]. apply seek_wf; [done |]. pose proof (length_data _ Hw) as Hn. rewrite Hd, E in Hn. cbn [length] in *. lia.
Qed.
End Parsing.

Lemma parse_body_spec host msg ba c : msg_ok msg -> Z.of_nat (length (wire msg)) < 2 ^ 63 -> wf ba -> data ba = wire msg -> ba_endian ba = BIG_ENDIAN ->
  (first_field msg / 2 ^ 24 = getType msg -> parse_body host (seek 0 ba) c = Ret (Some msg) c) /\
  (~ (1 <= first_field msg / 2 ^ 24 <= 3) -> parse_body host (seek 0 ba) c = Ret None c).
Proof.
  intros Hm Hl Hw Hd He. destruct (read_type host msg ba Hm Hw Hd He) as (ba1 & E1 & Hw1 & Hd1 & He1). unfold parse_body. split; intros Ht; (erewrite bind_Ret by (apply on_object_Ret; exact E1)); cbn beta iota.
  - rewrite Ht. assert (((getType msg =? 1) || (getType msg =? 2) || (getType msg =? 3)) = true) as -> by (by destruct msg). destruct (parse_message host msg ba1 Hm Hl Hw1 Hd1 He1) as [ba2 E2]. by erewrite bind_Ret by (apply on_object_Ret; exact E2).
  - destruct (Z.eqb_spec (first_field msg / 2 ^ 24) 1); [lia |]. destruct (Z.eqb_spec (first_field msg / 2 ^ 24) 2); [lia |]. destruct (Z.eqb_spec (first_field msg / 2 ^ 24) 3); [lia |]. done.
Qed.

(** ** The decoder on a header and a body *)

Lemma header_length flag n : length (header_bytes flag n) = 8%nat.
Proof. unfold header_bytes. rewrite !length_app, length_mem_of. done. Qed.

Section Decoding.
Context `{Zlib} (host : endian).

(** What [parseFrom] does with the body, by the flag of the header. *)
Definition after_body (flag : Z) (ba : ByteArray) : M Conn (option Message) :=
  try_catch
    (if Z.odd flag then r ← gzip_through false ba; match r with inl _ => mret None | inr ba => parse_body host ba end
     else parse_body host ba)
    (mret None).

Lemma parse_header max flag body d rest : steady d -> c_in d = header_bytes flag (Z.of_nat (length body)) ++ body ++ rest -> body <> [] -> Z.of_nat (length body) < max -> max <= 2 ^ 31 ->
  exists d' ba, parseFrom host max d = after_body flag (seek 0 ba) d' /\ moved d (header_bytes flag (Z.of_nat (length body)) ++ body) [] d' /\ c_in d' = rest /\ wf ba /\ data ba = body /\ ba_endian ba = BIG_ENDIAN.
Proof.
  intros Hd Hin Hne Hl Hmax. set (n := Z.of_nat (length body)) in *. assert (0 < n) by (unfold n; destruct body; [done | cbn; lia]).
  destruct (conn_readFixSize_spec 8 d (header_bytes flag n) (body ++ rest) Hd Hin) as (d1 & E1 & M1 & Hin1); [by rewrite header_length | lia |].
  destruct (stream_readFixSize_spec d1 body rest (moved_steady _ _ _ _ M1 Hd) Hin1) as (d2 & ba & E2 & M2 & Hin2 & Hw & Hdat & He); [fold n; lia |]. destruct (setPosition_spec ba 0 Hw) as [E3 _]; [lia |].
  exists d2, ba. split; [| split; [exact (moved_trans _ _ _ _ _ _ _ M1 M2) | done]]. unfold parseFrom, after_body, try_catch. erewrite bind_Ret by exact E1. cbn beta iota. change (8 <=? 0) with false. cbn iota.
  change (take 2 (header_bytes flag n)) with magic. rewrite bool_decide_eq_true_2 by done. change (default 0 (header_bytes flag n !! 2%nat)) with 1. change (default 0 (header_bytes flag n !! 3%nat)) with flag. change (drop 4 (header_bytes flag n)) with (mem_of BIG_ENDIAN 4 (u32 n)). cbn [negb Z.eqb Pos.eqb].
  rewrite of_mem_of by (apply uwrap_range; lia). assert (u32 n = n) as En by (apply uwrap_id; unfold in_u; lia). assert (i32 n = n) as Ei by (apply swrap_id; unfold in_s; lia). assert (u64 n = n) as Eu by (apply uwrap_id; unfold in_u; lia). rewrite En, Ei, En, Eu.
  destruct (Z.leb_spec max n); [lia |]. erewrite bind_Ret by exact E2. cbn beta iota. fold n. destruct (Z.leb_spec n 0); [lia |]. by erewrite bind_Ret by (apply on_object_Ret; exact E3).
Qed.

(** ** Sending *)

Lemma serialize_small min msg c : msg_ok msg -> steady c -> Z.of_nat (length (wire msg)) < min -> min <= 2 ^ 31 - 8 -> 
  exists c', serializeTo host min msg c = Ret (8 + Z.of_nat (length (wire msg))) c' /\ moved c [] (header_bytes 0 (Z.of_nat (length (wire msg))) ++ wire msg) c'.
Proof.
  intros Hm Hc Hl Hmin. destruct (toByteArray_spec host msg c Hm) as (ba & E1 & Hw & Hd & He); [lia |]. destruct (setPosition_spec ba 0 Hw) as [E2 Hw0]; [lia |]. pose proof (length_data _ Hw) as Hs. rewrite Hd in Hs. set (n := Z.of_nat (length (wire msg))) in *.
  unfold serializeTo. erewrite bind_Ret by exact E1. cbn beta iota. erewrite bind_Ret by (apply on_object_Ret; exact E2). cbn beta iota zeta. change (ba_size (seek 0 ba)) with (ba_size ba). rewrite <- Hs. fold n. assert (i32 n = n) as Ei by (apply swrap_id; unfold in_s, n in *; lia). assert (u32 n = n) as En by (apply uwrap_id; unfold in_u, n in *; lia).
  rewrite Ei, En. destruct (Z.leb_spec min n); [lia |]. erewrite bind_Ret by done. cbn beta iota. destruct (conn_writeFixSize_spec (header_bytes 0 n) c Hc) as (c1 & E3 & M1); [by rewrite header_length |]. erewrite bind_Ret by exact E3. rewrite header_length. change (Z.of_nat 8 <=? 0) with false. cbn iota.
  assert (remaining (seek 0 ba) = wire msg) as Hr by (unfold remaining; cbn [seek ba_position]; by rewrite drop_0). destruct (stream_writeFixSize_spec (seek 0 ba) c1 (moved_steady _ _ _ _ M1 Hc) Hw0) as (c2 & E4 & M2); [rewrite Hr; fold n; lia |].
  erewrite bind_Ret by exact E4. cbn beta iota. rewrite Hr. fold n. destruct (wire_first msg Hm) as [l Ew]. assert (0 < n) by (unfold n; rewrite Ew; cbn; lia). destruct (Z.leb_spec n 0); [lia |]. cbn [seek ba_size]. rewrite <- Hs. fold n. exists c2. split; [f_equal; apply swrap_id; unfold in_s; lia |].
  rewrite Hr in M2. exact (moved_trans _ _ _ _ _ _ _ M1 M2).
Qed.

End Decoding.

(** The byte the decoder takes for the type of a message. *)
Definition taken_type (msg : Message) : Z := first_field msg / 2 ^ 24.

(** C26: messages below the limit of compression.  [serializeTo] succeeds and
    sends the header and the fields of the message, however [send] splits them.
    It sends no type: the decoder of the peer takes the top byte of the first
    field (the serial number, or the number of the notification) for it.  The
    message arrives as it was sent when that byte is its type, and is refused
    when the byte is no type; so every message with a first field below 2^24
    is refused.  Either way exactly the bytes of the message are consumed. *)
Theorem rock_messages `{Zlib} host min max msg c d rest : msg_ok msg -> steady c -> steady d -> Z.of_nat (length (wire msg)) < min -> min <= 2 ^ 31 - 8 -> Z.of_nat (length (wire msg)) < max -> max <= 2 ^ 31 ->
  exists c' bytes, serializeTo host min msg c = Ret (8 + Z.of_nat (length (wire msg))) c' /\ c_out c' = c_out c ++ bytes /\
    (c_in d = bytes ++ rest -> exists d', c_in d' = rest /\
       (taken_type msg = getType msg -> parseFrom host max d = Ret (Some msg) d') /\
       (~ (1 <= taken_type msg <= 3) -> parseFrom host max d = Ret None d')).
Proof.
  intros Hm Hc Hd Hmin Hmin' Hmax Hmax'. destruct (serialize_small host min msg c Hm Hc Hmin Hmin') as (c' & E & M1). eexists c', _. split; [exact E |]. split; [apply (mv_out _ _ _ _ M1) |]. intros Hin. rewrite <- app_assoc in Hin.
  assert (wire msg <> []) as Hne by (destruct (wire_first msg Hm) as [l ->]; done). destruct (parse_header host max 0 (wire msg) d rest Hd Hin Hne Hmax Hmax') as (d' & ba & Ep & M2 & Hr & Hw & Hdat & He).
  destruct (parse_body_spec host msg ba d' Hm ltac:(lia) Hw Hdat He) as [P1 P2]. exists d'. split; [done |]. rewrite Ep. unfold after_body, try_catch. cbn [Z.odd]. split; intros Ht; [by rewrite P1 | by rewrite P2].
Qed.

(** A request with a serial number whose top byte is 1, and one without. *)
Lemma rock_messages_witness :
  exists c' bytes, serializeTo LITTLE_ENDIAN 4096 (RockRequest (2 ^ 24 + 5) 7 [104; 105]) (mk_Conn true [] (fun _ => 3) 0 [] (fun _ => 3) 0) = Ret 19 c' /\ c_out c' = [] ++ bytes /\
    (c_in (mk_Conn true ([171; 205; 1; 0; 0; 0; 0; 11; 1; 0; 0; 5; 0; 0; 0; 7; 2; 104; 105] ++ [9]) (fun _ => 2) 0 [] (fun _ => 2) 0) = bytes ++ [9] -> exists d', c_in d' = [9] /\
       parseFrom LITTLE_ENDIAN 65536 (mk_Conn true ([171; 205; 1; 0; 0; 0; 0; 11; 1; 0; 0; 5; 0; 0; 0; 7; 2; 104; 105] ++ [9]) (fun _ => 2) 0 [] (fun _ => 2) 0) = Ret (Some (RockRequest (2 ^ 24 + 5) 7 [104; 105])) d').
Proof.
  destruct (rock_messages LITTLE_ENDIAN 4096 65536 (RockRequest (2 ^ 24 + 5) 7 [104; 105]) (mk_Conn true [] (fun _ => 3) 0 [] (fun _ => 3) 0) (mk_Conn true ([171; 205; 1; 0; 0; 0; 0; 11; 1; 0; 0; 5; 0; 0; 0; 7; 2; 104; 105] ++ [9]) (fun _ => 2) 0 [] (fun _ => 2) 0) [9])
    as (c' & bytes & E & Eo & R); [vm_compute; intuition congruence | by split | by split | vm_compute; reflexivity | vm_compute; discriminate | vm_compute; reflexivity | vm_compute; discriminate |].
  exists c', bytes. split; [exact E |]. split; [exact Eo |]. intros Hin. destruct (R Hin) as (d' & Hr & P & _). exists d'. split; [exact Hr |]. apply P. reflexivity.
Defined.

(** ** Compressed messages *)

Section Long.
Context `{ZlibSpec} (host : endian).

Definition gzip_start (enc : bool) : z_stream := z_start enc Gzip (-1) 15 8 0.

(** What the gzip stream makes of [bs], in whatever blocks, fits the memory,
    and, when it is compressed, does not fill the buffers of the stream
    exactly (then [deflate] would be called after the end of its stream). *)
Definition gzip_fits (enc : bool) (bs : list Z) : Prop := forall v out, concat v = bs -> made enc (gzip_start enc) v out ->
  Z.of_nat (length out) < 2 ^ 63 /\ (enc = true -> (length out mod 4096 <> 0)%nat).

(** The buffer of [getByteArray] has its cursor at the end. *)
Lemma gzip_through_spec enc ba c : wf ba -> Z.of_nat (length (remaining ba)) < 2 ^ 32 -> gzip_fits enc (remaining ba) ->
  exists ba', gzip_through enc ba c = Ret (inr ba') c /\ wf ba' /\ ba_position ba' = ba_size ba'.
Proof.
  intros Hw Hsm Hf. destruct (create_spec enc 4096 Gzip (-1) 15 8 0 c) as [E0 S0]; [unfold zlib_params; lia | lia |]. fold (gzip_start enc) in E0, S0. set (zs := mk_Zlib _ _ enc []) in *.
  destruct (zs_write_ba_spec ba zs Hw) as (v & Ev & Ea & E1); [by right |]. destruct (code_flush v zs S0 eq_refl) as (out & s1 & Ec & _ & Hmade & D). rewrite Ea in Hmade. rewrite Ec in E1. destruct (Hf v out Ev Hmade) as [Hlen Hfull].
  destruct (D Hfull) as (s2 & E2 & C). assert (getResult s2 = out) as Er by (by rewrite (co_result _ _ _ C)).
  destruct (getByteArray_spec s2 c) as (ba' & E3 & Hw' & Hd & Hp & _); [by rewrite Er |]. exists ba'. split; [| split; [done |]].
  - unfold gzip_through, createGzip. erewrite bind_Ret by exact E0. cbn beta iota. erewrite bind_Ret by (apply on_object_Ret; exact E1). cbn beta iota. change (negb (Z_OK =? Z_OK)) with false. cbn iota. erewrite bind_Ret by (apply on_object_Ret; exact E2). cbn beta iota. change (negb (Z_OK =? Z_OK)) with false. cbn iota. by erewrite bind_Ret by exact E3.
  - by rewrite Hp, <- (length_data _ Hw'), Hd.
Qed.

(** C27: messages that are compressed.  [getByteArray] leaves the cursor of its
    buffer at the end.  [serializeTo] of a message that is not below the limit
    of compression therefore sends a header without a body and returns -4;
    [parseFrom] refuses every compressed message, whatever its body expands to,
    after it has consumed it.  Of zlib only what its manual says is used; the
    compressed bytes are assumed not to fill the 4096-byte buffers of the
    stream exactly. *)
Theorem rock_long_messages :
  (forall min msg c, msg_ok msg -> steady c -> min <= Z.of_nat (length (wire msg)) -> Z.of_nat (length (wire msg)) < 2 ^ 31 -> gzip_fits true (wire msg) ->
     exists c' n, serializeTo host min msg c = Ret (-4) c' /\ c_out c' = c_out c ++ header_bytes 1 n) /\
  (forall max flag body d rest, steady d -> Z.odd flag = true -> body <> [] -> Z.of_nat (length body) < max -> max <= 2 ^ 31 -> gzip_fits false body ->
     c_in d = header_bytes flag (Z.of_nat (length body)) ++ body ++ rest -> exists d', parseFrom host max d = Ret None d' /\ c_in d' = rest).
Proof.
  split.
  - intros min msg c Hm Hc Hmin Hl Hf. destruct (toByteArray_spec host msg c Hm) as (ba & E1 & Hw & Hd & He); [lia |]. destruct (setPosition_spec ba 0 Hw) as [E2 Hw0]; [lia |]. pose proof (length_data _ Hw) as Hs. rewrite Hd in Hs. set (n := Z.of_nat (length (wire msg))) in *.
    assert (remaining (seek 0 ba) = wire msg) as Hr by (unfold remaining; cbn [seek ba_position]; by rewrite drop_0). destruct (gzip_through_spec true (seek 0 ba) c Hw0) as (ba' & E3 & Hw' & Hp); [rewrite Hr; fold n; lia | by rewrite Hr |].
    unfold serializeTo. erewrite bind_Ret by exact E1. cbn beta iota. erewrite bind_Ret by (apply on_object_Ret; exact E2). cbn beta iota zeta. change (ba_size (seek 0 ba)) with (ba_size ba). rewrite <- Hs. fold n. assert (i32 n = n) as Ei by (apply swrap_id; unfold in_s, n in *; lia). assert (u32 n = n) as En by (apply uwrap_id; unfold in_u, n in *; lia).
    rewrite Ei, En. destruct (Z.leb_spec min n); [| lia]. erewrite bind_Ret by (erewrite bind_Ret by exact E3; reflexivity). cbn beta iota. set (k := i32 _). destruct (conn_writeFixSize_spec (header_bytes 1 k) c Hc) as (c1 & E4 & M1); [by rewrite header_length |]. erewrite bind_Ret by exact E4. rewrite header_length. change (Z.of_nat 8 <=? 0) with false. cbn iota.
    exists c1, k. split; [| apply (mv_out _ _ _ _ M1)]. rewrite getReadSize_wf, Hp, Nat.sub_diag by done. done.
  - intros max flag body d rest Hd Hflag Hne Hl Hmax Hf Hin. destruct (parse_header host max flag body d rest Hd Hin Hne Hl Hmax) as (d' & ba & Ep & M1 & Hr & Hw & Hdat & He). exists d'. split; [| done]. rewrite Ep. unfold after_body, try_catch. rewrite Hflag.
    destruct (setPosition_spec ba 0 Hw) as [_ Hw0]; [lia |]. assert (remaining (seek 0 ba) = body) as Hrem by (unfold remaining; cbn [seek ba_position]; by rewrite drop_0). destruct (gzip_through_spec false (seek 0 ba) d' Hw0) as (ba' & E3 & Hw' & Hp); [rewrite Hrem; lia | by rewrite Hrem |].
    erewrite bind_Ret by exact E3. cbn beta iota. unfold parse_body. erewrite bind_Throw; [done |]. eapply on_object_Throw. unfold read_int. eapply bind_Throw. apply ByteArray_read_short; [done |]. cbn. lia.
Qed.

End Long.

Lemma flip_fits enc bs : Z.of_nat (length bs) < 2 ^ 63 -> (length bs mod 4096 <> 0)%nat -> gzip_fits enc bs.
Proof.
  intros Hl Hm v out <- Hout. assert (out = flip_bytes (concat v)) as -> by (destruct enc; [by apply (flip_made true v out) | by apply (flip_made false v out)]). unfold flip_bytes. by rewrite length_map.
Qed.

Lemma rock_long_messages_witness :
  (exists c' n, serializeTo LITTLE_ENDIAN 10 (RockRequest 5 7 [104; 105]) (mk_Conn true [] (fun _ => 3) 0 [] (fun _ => 3) 0) = Ret (-4) c' /\ c_out c' = [] ++ header_bytes 1 n) /\
  (exists d', parseFrom LITTLE_ENDIAN 65536 (mk_Conn true (header_bytes 1 3 ++ [1; 2; 3] ++ [9]) (fun _ => 2) 0 [] (fun _ => 2) 0) = Ret None d' /\ c_in d' = [9]).
Proof.
  destruct (rock_long_messages LITTLE_ENDIAN) as [S R]. split.
  - apply (S 10 (RockRequest 5 7 [104; 105]) (mk_Conn true [] (fun _ => 3) 0 [] (fun _ => 3) 0)); [vm_compute; intuition congruence | by split | vm_compute; discriminate | vm_compute; reflexivity | apply flip_fits; [vm_compute; reflexivity | vm_compute; discriminate]].
  - apply (R 65536 1 [1; 2; 3] (mk_Conn true (header_bytes 1 3 ++ [1; 2; 3] ++ [9]) (fun _ => 2) 0 [] (fun _ => 2) 0) [9]); [by split | reflexivity | done | vm_compute; reflexivity | vm_compute; discriminate | apply flip_fits; [vm_compute; reflexivity | vm_compute; discriminate] | reflexivity].
Defined.
