(* ===== verification/TextCodecs.v ===== *)
(** * Text encodings and string helpers

    [base64encode], [base64decode], the hexadecimal strings, [split] and
    [replace] of [src/src/utils/hash_util.cpp], and [urlEncode], [urlDecode] and
    the [trim] functions of [src/src/utils/util.cpp].  A string is the list of
    its bytes. *)

From stdpp Require Import base list list_numbers numbers option sorting.
From Stdlib Require Import ZArith Lia Ascii String.
From S2P Require Import Prelude.

Local Open Scope Z_scope.

(** A string literal of the source. *)
Definition text (s : string) : list Z := map (fun a => Z.of_N (N_of_ascii a)) (list_ascii_of_string s).

Definition char_at (s : list Z) (i : Z) : Z := default 0 (s !! Z.to_nat i).

(** ** Base 64 *)

Definition base64 : list Z := text "ABCDEFGHIJKLMNOPQRSTUVWXYZabcdefghijklmnopqrstuvwxyz0123456789+/".

(** One round of [base64encode] on the next, at most three, bytes. *)
Definition encode_group (grp : list Z) : list Z :=
  let padding := (3 - List.length grp)%nat in
  let packed := foldl (fun packed b => Z.lor (u32 (Z.shiftl packed 8)) b) 0 grp in
  let packed := Nat.iter padding (fun packed => u32 (Z.shiftl packed 8)) packed in
  [char_at base64 (Z.shiftr packed 18); char_at base64 (Z.land (Z.shiftr packed 12) 63)] ++
  (if (padding =? 2)%nat then [] else [char_at base64 (Z.land (Z.shiftr packed 6) 63)]) ++
  (if (padding =? 0)%nat then [char_at base64 (Z.land packed 63)] else []) ++
  replicate padding 61.

Fixpoint encode_loop (fuel : nat) (data : list Z) : list Z :=
  match fuel, data with
  | S fuel, _ :: _ => encode_group (take 3 data) ++ encode_loop fuel (drop 3 data)
  | _, _ => []
  end.

Definition base64encode (data : list Z) : list Z := encode_loop (List.length data) data.

(** The value of a character; [None]: invalid. *)
Definition base64_value (c : Z) : option Z :=
  if (65 <=? c) && (c <=? 90) then Some (c - 65)
  else if (97 <=? c) && (c <=? 122) then Some (c - 97 + 26)
  else if (48 <=? c) && (c <=? 57) then Some (c - 48 + 52)
  else if c =? 43 then Some 62
  else if c =? 47 then Some 63
  else None.

(** The inner loop of [base64decode]: [n] characters to go.  The number it did
    not get, [padding], [packed] and the rest; [None]: it returns an empty
    string. *)
Fixpoint decode_group (n : nat) (padding packed : Z) (src : list Z) : option (nat * Z * Z * list Z) :=
  match n, src with
  | S n, c :: src =>
    if c =? 61 then decode_group n (padding + 1) (Z.shiftl packed 6) src
    else if 0 <? padding then None
    else val ← base64_value c; decode_group n padding (Z.lor (Z.shiftl packed 6) val) src
  | _, _ => Some (n, padding, packed, src)
  end.

(** What is stored at [writeBuf] after a group. *)
Definition group_bytes (padding packed : Z) : list Z :=
  [Z.land (Z.shiftr packed 16) 255] ++ (if padding =? 2 then [] else [Z.land (Z.shiftr packed 8) 255]) ++ (if padding =? 0 then [Z.land packed 255] else []).

(** [room]: what is left of the buffer of [src.size() * 3 / 4] bytes. *)
Fixpoint decode_loop (fuel : nat) (room : nat) (src : list Z) : outcome unit (option (list Z)) :=
  match src with
  | [] => Ret (Some []) tt
  | _ =>
    match fuel with
    | O => Undef Diverges
    | S fuel =>
      match decode_group 4 0 0 src with
      | None => Ret None tt
      | Some (missing, padding, packed, rest) =>
        if negb (missing =? 0)%nat then Ret None tt
        else if (0 <? padding) && negb (bool_decide (rest = [])) then Ret None tt
        else if 2 <? padding then Ret None tt
        else
          let bytes := group_bytes padding packed in
          if (room <? List.length bytes)%nat then Undef BadIndex
          else
            match decode_loop fuel (room - List.length bytes) rest with
            | Ret (Some l) _ => Ret (Some (bytes ++ l)) tt
            | o => o
            end
      end
    end
  end.

Definition base64decode (src : list Z) : outcome unit (list Z) :=
  match decode_loop (List.length src) (List.length src * 3 / 4) src with
  | Ret o _ => Ret (default [] o) tt
  | Throw e _ => Throw e tt
  | Undef u => Undef u
  end.

(** ** Hexadecimal strings *)

Definition hex_char (c : Z) : Z := if 9 <? c then c + 97 - 10 else c + 48.

Definition hexstring_from_data (data : list Z) : list Z :=
  data ≫= (fun b => [hex_char (Z.land (Z.shiftr b 4) 15); hex_char (Z.land b 15)]).

Definition hex_value (c : Z) : option Z :=
  if (97 <=? c) && (c <=? 102) then Some (c - 97 + 10)
  else if (65 <=? c) && (c <=? 70) then Some (c - 65 + 10)
  else if (48 <=? c) && (c <=? 57) then Some (c - 48)
  else None.

(** The loop over pairs of characters; [None]: [std::invalid_argument]. *)
Fixpoint hex_loop (hexstring : list Z) : option (list Z) :=
  match hexstring with
  | a :: b :: rest => hi ← hex_value a; lo ← hex_value b; l ← hex_loop rest; Some (Z.lor (u8 (Z.shiftl hi 4)) lo :: l)
  | _ => Some []
  end.

Definition data_from_hexstring (hexstring : list Z) : outcome unit (list Z) :=
  if negb (List.length hexstring mod 2 =? 0)%nat then Throw LogicError tt
  else match hex_loop hexstring with Some l => Ret l tt | None => Throw LogicError tt end.

(** ** URLs *)

Definition uriChars : list Z :=
  [
    0; 0; 0; 0; 0; 0; 0; 0; 0; 0; 0; 0; 0; 0; 0; 0; 0; 0; 0; 0; 0; 0; 0; 0; 0; 0; 0; 0; 0; 0; 0; 0;
    0; 0; 0; 0; 0; 0; 0; 0; 0; 0; 0; 0; 0; 1; 1; 0; 1; 1; 1; 1; 1; 1; 1; 1; 1; 1; 0; 0; 0; 1; 0; 0;
    0; 1; 1; 1; 1; 1; 1; 1; 1; 1; 1; 1; 1; 1; 1; 1; 1; 1; 1; 1; 1; 1; 1; 1; 1; 1; 1; 0; 0; 0; 0; 1;
    0; 1; 1; 1; 1; 1; 1; 1; 1; 1; 1; 1; 1; 1; 1; 1; 1; 1; 1; 1; 1; 1; 1; 1; 1; 1; 1; 0; 0; 0; 1; 0;
    0; 0; 0; 0; 0; 0; 0; 0; 0; 0; 0; 0; 0; 0; 0; 0; 0; 0; 0; 0; 0; 0; 0; 0; 0; 0; 0; 0; 0; 0; 0; 0;
    0; 0; 0; 0; 0; 0; 0; 0; 0; 0; 0; 0; 0; 0; 0; 0; 0; 0; 0; 0; 0; 0; 0; 0; 0; 0; 0; 0; 0; 0; 0; 0;
    0; 0; 0; 0; 0; 0; 0; 0; 0; 0; 0; 0; 0; 0; 0; 0; 0; 0; 0; 0; 0; 0; 0; 0; 0; 0; 0; 0; 0; 0; 0; 0;
    0; 0; 0; 0; 0; 0; 0; 0; 0; 0; 0; 0; 0; 0; 0; 0; 0; 0; 0; 0; 0; 0; 0; 0; 0; 0; 0; 0; 0; 0; 0; 0].

Definition xdigitChars : list Z :=
  [
    0; 0; 0; 0; 0; 0; 0; 0; 0; 0; 0; 0; 0; 0; 0; 0; 0; 0; 0; 0; 0; 0; 0; 0; 0; 0; 0; 0; 0; 0; 0; 0;
    0; 0; 0; 0; 0; 0; 0; 0; 0; 0; 0; 0; 0; 0; 0; 0; 0; 1; 2; 3; 4; 5; 6; 7; 8; 9; 0; 0; 0; 0; 0; 0;
    0; 10; 11; 12; 13; 14; 15; 0; 0; 0; 0; 0; 0; 0; 0; 0; 0; 0; 0; 0; 0; 0; 0; 0; 0; 0; 0; 0; 0; 0; 0; 0;
    0; 10; 11; 12; 13; 14; 15; 0; 0; 0; 0; 0; 0; 0; 0; 0; 0; 0; 0; 0; 0; 0; 0; 0; 0; 0; 0; 0; 0; 0; 0; 0;
    0; 0; 0; 0; 0; 0; 0; 0; 0; 0; 0; 0; 0; 0; 0; 0; 0; 0; 0; 0; 0; 0; 0; 0; 0; 0; 0; 0; 0; 0; 0; 0;
    0; 0; 0; 0; 0; 0; 0; 0; 0; 0; 0; 0; 0; 0; 0; 0; 0; 0; 0; 0; 0; 0; 0; 0; 0; 0; 0; 0; 0; 0; 0; 0;
    0; 0; 0; 0; 0; 0; 0; 0; 0; 0; 0; 0; 0; 0; 0; 0; 0; 0; 0; 0; 0; 0; 0; 0; 0; 0; 0; 0; 0; 0; 0; 0;
    0; 0; 0; 0; 0; 0; 0; 0; 0; 0; 0; 0; 0; 0; 0; 0; 0; 0; 0; 0; 0; 0; 0; 0; 0; 0; 0; 0; 0; 0; 0; 0].

(** [*c]: a byte that is not below 128 is a negative [char]. *)
Definition isxdigit (c : Z) : bool := bool_decide (is_Some (hex_value c)).

Definition hexdigits : list Z := text "0123456789ABCDEF".

(** What [urlEncode] appends for a reserved character. *)
Definition escape (space_as_plus : bool) (c : Z) : list Z :=
  if (c =? 32) && space_as_plus then [43] else [37; char_at hexdigits (Z.shiftr c 4); char_at hexdigits (Z.land c 15)].

(** [ss] is allocated at the first reserved character, with the characters
    [seen] so far. *)
Fixpoint url_encode_loop (space_as_plus : bool) (seen : list Z) (ss : option (list Z)) (str : list Z) : option (list Z) :=
  match str with
  | [] => ss
  | c :: rest =>
    let ss :=
      if char_at uriChars c =? 0 then Some (default seen ss ++ escape space_as_plus c)
      else match ss with Some out => Some (out ++ [c]) | None => None end in
    url_encode_loop space_as_plus (seen ++ [c]) ss rest
  end.

Definition urlEncode (str : list Z) (space_as_plus : bool) : list Z := default str (url_encode_loop space_as_plus [] None str).

Fixpoint url_decode_loop (space_as_plus : bool) (seen : list Z) (ss : option (list Z)) (str : list Z) : option (list Z) :=
  match str with
  | [] => ss
  | c :: rest =>
    if (c =? 43) && space_as_plus then url_decode_loop space_as_plus (seen ++ [c]) (Some (default seen ss ++ [32])) rest
    else
      match rest with
      | a :: b :: rest' =>
        if (c =? 37) && isxdigit a && isxdigit b then
          url_decode_loop space_as_plus (seen ++ [c; a; b]) (Some (default seen ss ++ [Z.lor (Z.shiftl (char_at xdigitChars a) 4) (char_at xdigitChars b)])) rest'
        else url_decode_loop space_as_plus (seen ++ [c]) (match ss with Some out => Some (out ++ [c]) | None => None end) rest
      | _ => url_decode_loop space_as_plus (seen ++ [c]) (match ss with Some out => Some (out ++ [c]) | None => None end) rest
      end
  end.

Definition urlDecode (str : list Z) (space_as_plus : bool) : list Z := default str (url_decode_loop space_as_plus [] None str).

(** ** Pieces of strings *)

(** [find] and [find_first_of]: the first character with [p]. *)
Definition find_char (p : Z -> bool) (s : list Z) : option nat := fst <$> list_find (fun c => p c = true) s.

(** [str.find(pat, pos)]: the first place, from [pos] on, where [pat] stands. *)
Fixpoint find_sub (pat s : list Z) : option nat :=
  if bool_decide (take (List.length pat) s = pat) then Some 0%nat
  else match s with [] => None | _ :: s => S <$> find_sub pat s end.

Definition find_from (pat s : list Z) (pos : nat) : option nat :=
  if (List.length s <? pos)%nat then None else (fun k => (pos + k)%nat) <$> find_sub pat (drop pos s).

(** The [replace] functions: the loop of the two that put in a string, and that
    of the one that puts in a character. *)
Fixpoint replace_loop (fuel : nat) (find replaceWith str : list Z) (index : option nat) : outcome unit (list Z) :=
  match index with
  | None => Ret str tt
  | Some i =>
    match fuel with
    | O => Undef Diverges
    | S fuel =>
      let str := take i str ++ replaceWith ++ drop (i + List.length find) str in
      replace_loop fuel find replaceWith str (find_from find str (i + List.length replaceWith))
    end
  end.

Fixpoint replace_chars_loop (fuel : nat) (find replaceWith : Z) (str : list Z) (index : option nat) : outcome unit (list Z) :=
  match index with
  | None => Ret str tt
  | Some i =>
    match fuel with
    | O => Undef Diverges
    | S fuel => let str := <[i := replaceWith]> str in replace_chars_loop fuel find replaceWith str (find_from [find] str (i + 1))
    end
  end.

Definition replace (fuel : nat) (str find replaceWith : list Z) : outcome unit (list Z) := replace_loop fuel find replaceWith str (find_from find str 0).
Definition replace_char (fuel : nat) (str : list Z) (find : Z) (replaceWith : list Z) : outcome unit (list Z) := replace_loop fuel [find] replaceWith str (find_from [find] str 0).
Definition replace_chars (fuel : nat) (str : list Z) (find replaceWith : Z) : outcome unit (list Z) := replace_chars_loop fuel find replaceWith str (find_from [find] str 0).

(** [split]; [p] tells the delimiters. *)
Fixpoint split_loop (fuel : nat) (p : Z -> bool) (max : Z) (s : list Z) : list (list Z) :=
  match fuel, find_char p s with
  | S fuel, Some k =>
    let max := u64 (max - 1) in
    take k s :: (if max =? 1 then [drop (k + 1) s] else split_loop fuel p max (drop (k + 1) s))
  | _, _ => [s]
  end.

Definition split (p : Z -> bool) (str : list Z) (max : Z) : list (list Z) :=
  match str with
  | [] => []
  | _ => split_loop (List.length str) p max str
  end.

Definition member (delimit : list Z) (c : Z) : bool := bool_decide (c ∈ delimit).

(** [find_first_not_of] and [find_last_not_of]. *)
Definition first_not_of (delimit s : list Z) : option nat := find_char (fun c => negb (member delimit c)) s.
Definition last_not_of (delimit s : list Z) : option nat := (fun k => (List.length s - 1 - k)%nat) <$> first_not_of delimit (rev s).

Definition substr (s : list Z) (pos len : nat) : list Z := take len (drop pos s).

Definition trim (delimit str : list Z) : list Z :=
  match first_not_of delimit str, last_not_of delimit str with
  | Some b, Some e => substr str b (e - b + 1)
  | _, _ => []
  end.

Definition trimLeft (delimit str : list Z) : list Z :=
  match first_not_of delimit str with
  | Some b => drop b str
  | None => []
  end.

Definition trimRight (delimit str : list Z) : list Z :=
  match last_not_of delimit str with
  | Some e => substr str 0 e
  | None => []
  end.

(** ** The encodings are inverted *)

Definition bytes (s : list Z) : Prop := Forall (fun c => 0 <= c < 256) s.

(** A property of bytes, or of smaller numbers, that holds by computation. *)
Lemma below_ind (n : Z) (P : Z -> bool) : forallb P (seqZ 0 n) = true -> forall c, 0 <= c < n -> P c = true.
Proof. intros H c Hc. apply (proj1 (forallb_forall P (seqZ 0 n)) H). apply list_elem_of_In, elem_of_seqZ. lia. Qed.

Lemma shift_add x v n : 0 <= n -> 0 <= v < 2 ^ n -> Z.lor (Z.shiftl x n) v = x * 2 ^ n + v.
Proof. intros Hn Hv. rewrite Z.shiftl_mul_pow2 by done. by apply lor_add. Qed.

Lemma land_low x n : 0 <= n -> Z.land x (2 ^ n - 1) = x mod 2 ^ n.
Proof. intros Hn. rewrite <- Z.land_ones by done. f_equal. rewrite Z.ones_equiv. lia. Qed.

Lemma base64_char v : 0 <= v < 64 -> base64_value (char_at base64 v) = Some v /\ char_at base64 v <> 61.
Proof.
  intros Hv. assert (forallb (fun v => match base64_value (char_at base64 v) with Some w => (w =? v) && negb (char_at base64 v =? 61) | None => false end) (seqZ 0 64) = true) as H by (vm_compute; reflexivity).
  pose proof (below_ind _ _ H v Hv) as E. cbn beta in E. destruct (base64_value (char_at base64 v)) as [w |]; [| done]. apply andb_true_iff in E as [E1 E2]. apply Z.eqb_eq in E1 as ->. split; [done |]. by apply negb_true_iff, Z.eqb_neq in E2.
Qed.

(** A character of the alphabet, in a group. *)
Lemma decode_char n packed v src : 0 <= v < 64 -> 0 <= packed -> decode_group (S n) 0 packed (char_at base64 v :: src) = decode_group n 0 (packed * 64 + v) src.
Proof.
  intros Hv Hp. destruct (base64_char v Hv) as [E Hne]. cbn [decode_group]. rewrite (proj2 (Z.eqb_neq _ _) Hne). cbn [Z.ltb Z.compare]. rewrite E. cbn [mbind option_bind]. by rewrite shift_add by lia.
Qed.

Lemma decode_pad n padding packed src : decode_group (S n) padding packed (61 :: src) = decode_group n (padding + 1) (packed * 64) src.
Proof. cbn [decode_group Z.eqb Pos.eqb]. by rewrite Z.shiftl_mul_pow2 by lia. Qed.

Definition sextets (p : Z) : Z * Z * Z * Z := (p / 2 ^ 18, p / 2 ^ 12 mod 64, p / 2 ^ 6 mod 64, p mod 64).

Lemma sextets_of p : 0 <= p < 2 ^ 24 ->
  (Z.shiftr p 18, Z.land (Z.shiftr p 12) 63, Z.land (Z.shiftr p 6) 63, Z.land p 63) = sextets p /\
  (0 <= p / 2 ^ 18 < 64 /\ 0 <= p / 2 ^ 12 mod 64 < 64 /\ 0 <= p / 2 ^ 6 mod 64 < 64 /\ 0 <= p mod 64 < 64).
Proof.
  intros Hp. split.
  - unfold sextets. rewrite !Z.shiftr_div_pow2 by lia. change 63 with (2 ^ 6 - 1). by rewrite !land_low by lia.
  - split; [| split; [| split]]; try (apply Z.mod_pos_bound; lia). split; [apply Z.div_pos; lia | apply Z.div_lt_upper_bound; lia].
Qed.

Lemma group_bytes_of padding p : 0 <= p < 2 ^ 24 ->
  group_bytes padding p = [p / 2 ^ 16] ++ (if padding =? 2 then [] else [p / 2 ^ 8 mod 256]) ++ (if padding =? 0 then [p mod 256] else []).
Proof.
  intros Hp. unfold group_bytes. rewrite !Z.shiftr_div_pow2 by lia. change 255 with (2 ^ 8 - 1). rewrite !land_low by lia. rewrite (Z.mod_small (p / 2 ^ 16)) by (split; [apply Z.div_pos; lia | apply Z.div_lt_upper_bound; lia]). done.
Qed.

Ltac euclid := change (2 ^ 24) with 16777216 in *; change (2 ^ 18) with 262144 in *; change (2 ^ 16) with 65536 in *; change (2 ^ 12) with 4096 in *; change (2 ^ 8) with 256 in *; change (2 ^ 6) with 64 in *; Z.to_euclidean_division_equations; lia.

(** The packed bits are those that were encoded, and give the bytes. *)
Ltac finish :=
  match goal with Ep : ?p = _ |- group_bytes _ ?x = _ => replace x with p by euclid; clearbody p; rewrite Ep end;
  rewrite group_bytes_of by lia; cbn [Nat.sub]; change (Z.of_nat 0) with 0; change (Z.of_nat 1) with 1; change (Z.of_nat 2) with 2; cbn [app Z.eqb Pos.eqb]; repeat f_equal; euclid.

Lemma group_roundtrip grp rest : bytes grp -> (1 <= List.length grp <= 3)%nat ->
  exists packed, decode_group 4 0 0 (encode_group grp ++ rest) = Some (0%nat, Z.of_nat (3 - List.length grp), packed, rest) /\ group_bytes (Z.of_nat (3 - List.length grp)) packed = grp.
Proof.
  assert (forall x v, 0 <= x < 2 ^ 16 -> 0 <= v < 256 -> Z.lor (u32 (Z.shiftl x 8)) v = x * 2 ^ 8 + v) as Hor by (intros x v Hx Hv; unfold u32; rewrite uwrap_id by (unfold in_u; rewrite Z.shiftl_mul_pow2 by lia; lia); by apply shift_add; lia).
  assert (forall x, 0 <= x < 2 ^ 16 -> u32 (Z.shiftl x 8) = x * 2 ^ 8) as Hsh by (intros x Hx; unfold u32; rewrite uwrap_id by (unfold in_u; rewrite Z.shiftl_mul_pow2 by lia; lia); by rewrite Z.shiftl_mul_pow2 by lia).
  intros Hb Hl. destruct grp as [|a [|b [|c [|? ?]]]]; cbn [List.length] in Hl; try lia; unfold bytes in Hb; rewrite !list.Forall_cons in Hb; unfold encode_group; cbn [List.length Nat.sub foldl Nat.iter nat_rect Nat.eqb replicate].
  - destruct Hb as [Ha _]. rewrite Hor by lia. set (p := u32 (Z.shiftl (u32 (Z.shiftl (0 * 2 ^ 8 + a) 8)) 8)). assert (p = a * 2 ^ 16) as Ep by (unfold p; rewrite (Hsh (0 * 2 ^ 8 + a)) by lia; rewrite Hsh; lia). destruct (sextets_of p) as [E (R1 & R2 & R3 & R4)]; [lia |]. injection E as -> -> _ _. cbn [app].
    rewrite !decode_char, !decode_pad by lia. eexists. split; [reflexivity |]. finish.
  - destruct Hb as (Ha & Hb & _). rewrite (Hor 0), Hor by lia. set (p := u32 (Z.shiftl ((0 * 2 ^ 8 + a) * 2 ^ 8 + b) 8)). assert (p = a * 2 ^ 16 + b * 2 ^ 8) as Ep by (unfold p; rewrite Hsh; lia). destruct (sextets_of p) as [E (R1 & R2 & R3 & R4)]; [lia |]. injection E as -> -> -> _. cbn [app].
    rewrite !decode_char, !decode_pad by lia. eexists. split; [reflexivity |]. finish.
  - destruct Hb as (Ha & Hb & Hc & _). rewrite (Hor 0), (Hor (0 * 2 ^ 8 + a)), Hor by lia. set (p := ((0 * 2 ^ 8 + a) * 2 ^ 8 + b) * 2 ^ 8 + c). assert (p = a * 2 ^ 16 + b * 2 ^ 8 + c) as Ep by (unfold p; lia). destruct (sextets_of p) as [E (R1 & R2 & R3 & R4)]; [lia |]. injection E as -> -> -> ->. cbn [app].
    rewrite !decode_char by lia. eexists. split; [reflexivity |]. finish.
Qed.

Lemma decode_group_length n padding packed src m padding' packed' rest : decode_group n padding packed src = Some (m, padding', packed', rest) -> (m <= n)%nat /\ List.length src = (n - m + List.length rest)%nat.
Proof.
  revert padding packed src. induction n as [|n IH]; intros padding packed src; [by intros [= <- <- <- <-]; cbn |]. destruct src as [|c src]; [intros [= <- <- <- <-]; cbn; lia |]. cbn [decode_group List.length].
  destruct (c =? 61); [intros H; apply IH in H; lia |]. destruct (0 <? padding); [done |]. destruct (base64_value c) as [v |]; cbn; [| done]. intros H. apply IH in H. lia.
Qed.

Lemma group_bytes_length padding packed : (List.length (group_bytes padding packed) <= 3)%nat.
Proof. unfold group_bytes. by destruct (padding =? 2), (padding =? 0); cbn; lia. Qed.

Lemma four_more n : ((4 + n) * 3 / 4 = 3 + n * 3 / 4)%nat.
Proof. replace ((4 + n) * 3)%nat with (n * 3 + 3 * 4)%nat by lia. rewrite Nat.div_add; lia. Qed.

(** The buffer of [base64decode] is large enough on every input. *)
Lemma decode_loop_total fuel room src : (List.length src <= fuel)%nat -> (List.length src * 3 / 4 <= room)%nat -> exists o, decode_loop fuel room src = Ret o tt.
Proof.
  revert room src. induction fuel as [|fuel IH]; intros room src Hf Hr; cbn [decode_loop]; destruct src as [|c0 src0] eqn:Es; try (by eexists); [cbn in Hf; lia |]. rewrite <- Es in *. clear Es c0 src0. destruct (decode_group 4 0 0 src) as [[[[m padding] packed] rest] |] eqn:E; [| by eexists].
  destruct (Nat.eqb_spec m 0) as [-> |]; cbn [negb]; [| by eexists]. destruct ((0 <? padding) && _); [by eexists |]. destruct (2 <? padding); [by eexists |]. apply decode_group_length in E as [_ E]. pose proof (group_bytes_length padding packed) as Hb.
  destruct (Nat.ltb_spec room (List.length (group_bytes padding packed))); [exfalso; rewrite E in Hr; cbn [Nat.sub] in Hr; rewrite four_more in Hr; lia |]. destruct (IH (room - List.length (group_bytes padding packed))%nat rest) as [o ->]; [lia | rewrite E in Hr; cbn [Nat.sub] in Hr; rewrite four_more in Hr; lia |]. destruct o; by eexists.
Qed.

Lemma encode_group_length grp : (1 <= List.length grp <= 3)%nat -> List.length (encode_group grp) = 4%nat.
Proof. intros Hl. by destruct grp as [|a [|b [|c [|? ?]]]]; cbn [List.length] in Hl; try lia. Qed.

Lemma decode_encode n fuel room data : bytes data -> (List.length data <= n)%nat -> (List.length (encode_loop n data) <= fuel)%nat -> (List.length (encode_loop n data) * 3 / 4 <= room)%nat ->
  decode_loop fuel room (encode_loop n data) = Ret (Some data) tt.
Proof.
  revert fuel room data. induction n as [|n IH]; intros fuel room data Hb Hl Hf Hr; destruct data as [|x l]; try (by destruct fuel); [cbn in Hl; lia |]. set (data := x :: l) in *. change (encode_loop (S n) data) with (encode_group (take 3 data) ++ encode_loop n (drop 3 data)) in *.
  assert (1 <= List.length (take 3 data) <= 3)%nat as Hg by (unfold data; rewrite length_take; cbn [List.length]; lia). assert (bytes (take 3 data)) as Hb1 by (by apply Forall_take). assert (bytes (drop 3 data)) as Hb2 by (by apply Forall_drop).
  destruct (group_roundtrip (take 3 data) (encode_loop n (drop 3 data)) Hb1 Hg) as (packed & E & Eg). rewrite length_app, encode_group_length in Hf, Hr by done. rewrite four_more in Hr. destruct fuel as [|fuel]; [lia |]. cbn [decode_loop].
  destruct (encode_group (take 3 data) ++ encode_loop n (drop 3 data)) as [|c0 src0] eqn:Es; [by apply (f_equal List.length) in Es; rewrite length_app, encode_group_length in Es by done |]. rewrite <- Es in E |- *. clear Es c0 src0. rewrite E. cbn [Nat.eqb negb].
  assert ((0 <? Z.of_nat (3 - List.length (take 3 data))) && negb (bool_decide (encode_loop n (drop 3 data) = [])) = false) as ->.
  { destruct (decide (List.length data <= 3)%nat) as [H3 | H3]; [rewrite drop_ge by done; by destruct n; rewrite andb_false_r |]. rewrite length_take, Nat.min_l by lia. done. }
  destruct (Z.ltb_spec 2 (Z.of_nat (3 - List.length (take 3 data)))); [lia |]. rewrite Eg. destruct (Nat.ltb_spec room (List.length (take 3 data))); [lia |].
  rewrite IH; [by rewrite take_drop | done | rewrite length_drop; unfold data in *; cbn [List.length] in *; lia | lia | lia].
Qed.

Lemma base64_inverse data : bytes data -> base64decode (base64encode data) = Ret data tt.
Proof. intros Hb. unfold base64decode, base64encode. by rewrite decode_encode. Qed.

Lemma hex_byte b : 0 <= b < 256 ->
  exists hi lo, hex_value (hex_char (Z.land (Z.shiftr b 4) 15)) = Some hi /\ hex_value (hex_char (Z.land b 15)) = Some lo /\ Z.lor (u8 (Z.shiftl hi 4)) lo = b.
Proof.
  intros Hb. pose proof (below_ind 256 (fun b => match hex_value (hex_char (Z.land (Z.shiftr b 4) 15)), hex_value (hex_char (Z.land b 15)) with Some hi, Some lo => Z.lor (u8 (Z.shiftl hi 4)) lo =? b | _, _ => false end)) as H.
  specialize (H ltac:(vm_compute; reflexivity) b Hb). cbn beta in H. destruct (hex_value _) as [hi |]; [| done]. destruct (hex_value _) as [lo |]; [| done]. exists hi, lo. by apply Z.eqb_eq in H.
Qed.

Lemma hex_loop_inverse data : bytes data -> hex_loop (hexstring_from_data data) = Some data.
Proof.
  induction 1 as [|b data Hb _ IH]; [done |]. destruct (hex_byte b Hb) as (hi & lo & E1 & E2 & E3). unfold hexstring_from_data in *. cbn [mbind list_bind app hex_loop]. rewrite E1, E2. cbn [mbind option_bind]. by rewrite IH, E3.
Qed.

Lemma hexstring_length data : List.length (hexstring_from_data data) = (2 * List.length data)%nat.
Proof. induction data as [|b data IH]; [done |]. unfold hexstring_from_data in *. cbn [mbind list_bind app List.length]. lia. Qed.

Lemma hex_inverse data : bytes data -> data_from_hexstring (hexstring_from_data data) = Ret data tt.
Proof. intros Hb. unfold data_from_hexstring. by rewrite hexstring_length, Nat.mul_comm, Nat.Div0.mod_mul, hex_loop_inverse. Qed.

(** *** URLs against a reference, character by character *)

Definition url_char (space_as_plus : bool) (c : Z) : list Z := if char_at uriChars c =? 0 then escape space_as_plus c else [c].

Fixpoint decoded (space_as_plus : bool) (str : list Z) : list Z :=
  match str with
  | [] => []
  | c :: rest =>
    if (c =? 43) && space_as_plus then 32 :: decoded space_as_plus rest
    else
      match rest with
      | a :: b :: rest' => if (c =? 37) && isxdigit a && isxdigit b then Z.lor (Z.shiftl (char_at xdigitChars a) 4) (char_at xdigitChars b) :: decoded space_as_plus rest' else c :: decoded space_as_plus rest
      | _ => c :: decoded space_as_plus rest
      end
  end.

Lemma url_encode_spec plus seen ss str : default (seen ++ str) (url_encode_loop plus seen ss str) = default seen ss ++ (str ≫= url_char plus).
Proof.
  revert seen ss. induction str as [|c str IH]; intros seen ss; cbn [url_encode_loop mbind list_bind]; [by rewrite !app_nil_r; destruct ss |].
  rewrite (cons_middle c seen str), (app_assoc seen [c] str), IH. unfold url_char at 2. destruct (char_at uriChars c =? 0); destruct ss; cbn [from_option id]; by rewrite <- app_assoc.
Qed.

Lemma url_decode_spec plus n : forall seen ss str, (List.length str <= n)%nat -> default (seen ++ str) (url_decode_loop plus seen ss str) = default seen ss ++ decoded plus str.
Proof.
  induction n as [|n IH]; intros seen ss [|c rest] Hl; cbn [List.length] in Hl; try lia; try (by cbn; rewrite !app_nil_r; destruct ss).
  assert (forall ss', default (seen ++ c :: rest) (url_decode_loop plus (seen ++ [c]) ss' rest) = default (seen ++ [c]) ss' ++ decoded plus rest) as IH1 by (intros ss'; rewrite (cons_middle c seen rest), (app_assoc seen [c] rest); apply IH; lia).
  assert (default (seen ++ [c]) (match ss with Some out => Some (out ++ [c]) | None => None end) = default seen ss ++ [c]) as Ek by (by destruct ss).
  cbn [url_decode_loop decoded]. destruct ((c =? 43) && plus); [rewrite IH1; cbn [from_option id]; by rewrite <- app_assoc |].
  destruct rest as [|a [|b rest]]; try (rewrite IH1, Ek; by rewrite <- app_assoc). destruct ((c =? 37) && isxdigit a && isxdigit b); [| rewrite IH1, Ek; by rewrite <- app_assoc].
  change (seen ++ c :: a :: b :: rest) with (seen ++ [c; a; b] ++ rest). rewrite (app_assoc seen), IH by (cbn in Hl; lia). cbn [from_option id]. by rewrite <- app_assoc.
Qed.

Lemma urlEncode_spec plus str : urlEncode str plus = str ≫= url_char plus.
Proof. unfold urlEncode. exact (url_encode_spec plus [] None str). Qed.

Lemma urlDecode_spec plus str : urlDecode str plus = decoded plus str.
Proof. unfold urlDecode. exact (url_decode_spec plus _ [] None str (Nat.le_refl _)). Qed.

Lemma url_escaped c : 0 <= c < 256 -> exists a b, (char_at hexdigits (Z.shiftr c 4), char_at hexdigits (Z.land c 15)) = (a, b) /\ isxdigit a = true /\ isxdigit b = true /\ Z.lor (Z.shiftl (char_at xdigitChars a) 4) (char_at xdigitChars b) = c.
Proof.
  intros Hc. pose proof (below_ind 256 (fun c => let a := char_at hexdigits (Z.shiftr c 4) in let b := char_at hexdigits (Z.land c 15) in isxdigit a && isxdigit b && (Z.lor (Z.shiftl (char_at xdigitChars a) 4) (char_at xdigitChars b) =? c))) as H.
  specialize (H ltac:(vm_compute; reflexivity) c Hc). cbn beta zeta in H. apply andb_true_iff in H as [H H3]. apply andb_true_iff in H as [H1 H2]. apply Z.eqb_eq in H3. by eexists _, _.
Qed.

Lemma url_unreserved c : 0 <= c < 256 -> (char_at uriChars c =? 0) = false -> c <> 43 /\ c <> 37.
Proof. intros Hc H. split; intros ->; by vm_compute in H. Qed.

Lemma decoded_char plus c l : 0 <= c < 256 -> decoded plus (url_char plus c ++ l) = c :: decoded plus l.
Proof.
  intros Hc. unfold url_char. destruct (char_at uriChars c =? 0) eqn:E.
  - unfold escape. destruct (Z.eqb_spec c 32) as [-> | Hne]; cbn [andb]; [destruct plus; [done |] |].
    all: destruct (url_escaped _ Hc) as (a & b & [= -> ->] & Ha & Hb & Eo); cbn [app decoded]; cbn [Z.eqb Pos.eqb andb]; by rewrite Ha, Hb, Eo.
  - destruct (url_unreserved c Hc E) as [H1 H2]. cbn [app decoded]. apply Z.eqb_neq in H1, H2. rewrite H1, H2. cbn [andb]. by destruct l as [|? [|? ?]].
Qed.

Lemma url_inverse plus str : bytes str -> urlDecode (urlEncode str plus) plus = str.
Proof. rewrite urlDecode_spec, urlEncode_spec. induction 1 as [|c str Hc _ IH]; [done |]. cbn [mbind list_bind]. by rewrite decoded_char, IH. Qed.

(** ** Searches *)

Definition free (p : Z -> bool) (s : list Z) : Prop := Forall (fun c => p c = false) s.

Lemma find_char_here (p : Z -> bool) pre c rest : free p pre -> p c = true -> find_char p (pre ++ c :: rest) = Some (List.length pre).
Proof.
  unfold find_char, free. intros Hp Hc. induction Hp as [|x pre Hx _ IH]; cbn [app list_find List.length].
  - by rewrite decide_True.
  - rewrite decide_False by congruence. destruct (list_find _ (pre ++ c :: rest)) as [[k y] |]; [| done]. cbn in IH |- *. by simplify_eq.
Qed.

Lemma find_char_none (p : Z -> bool) s : free p s -> find_char p s = None.
Proof. unfold find_char, free. induction 1 as [|x s Hx _ IH]; [done |]. cbn [list_find]. rewrite decide_False by congruence. by destruct (list_find _ s). Qed.

(** What a search says of the string. *)
Lemma find_char_cases (p : Z -> bool) s : (free p s /\ find_char p s = None) \/ (exists pre c rest, s = pre ++ c :: rest /\ free p pre /\ p c = true /\ find_char p s = Some (List.length pre)).
Proof.
  assert (free p s \/ exists pre c rest, s = pre ++ c :: rest /\ free p pre /\ p c = true) as [H | (pre & c & rest & -> & H1 & H2)].
  - induction s as [|x s IH]; [left; constructor |]. destruct (p x) eqn:E; [right; exists [], x, s; split; [done | split; [constructor | done]] |].
    destruct IH as [H | (pre & c & rest & -> & H1 & H2)]; [left; by constructor | right; exists (x :: pre), c, rest; split; [done | split; [by constructor | done]]].
  - left. split; [done | by apply find_char_none].
  - right. exists pre, c, rest. by rewrite find_char_here.
Qed.

(** *** [split] *)

(** [l] are pieces of [s], in order, ended by delimiters that are left out. *)
Inductive pieces_of (p : Z -> bool) : list (list Z) -> list Z -> Prop :=
  | last_piece s : pieces_of p [s] s
  | next_piece x d l s : free p x -> p d = true -> pieces_of p l s -> pieces_of p (x :: l) (x ++ d :: s).

(** The number of pieces [max] stands for: 0 and 1 wrap. *)
Definition piece_limit (max : Z) : Z := if 2 <=? max then max else max + 2 ^ 64.

Lemma pieces_length p l s : pieces_of p l s -> (List.length l <= S (List.length s))%nat.
Proof. induction 1 as [|x d l s Hx Hd _ IH]; cbn [List.length]; [lia |]. rewrite length_app. cbn [List.length]. lia. Qed.

Lemma max_next max : in_u 64 max -> max <> 0 -> u64 (max - 1) = max - 1.
Proof. unfold in_u. intros Hm Hn. unfold u64. rewrite uwrap_id; unfold in_u; lia. Qed.

Lemma limit_next max : in_u 64 max -> u64 (max - 1) <> 1 -> in_u 64 (u64 (max - 1)) /\ piece_limit (u64 (max - 1)) = piece_limit max - 1.
Proof.
  unfold in_u, piece_limit. intros Hm Hn. destruct (decide (max = 0)) as [-> |]; [by split; vm_compute |]. rewrite max_next in * by (done || by unfold in_u). split; [lia |]. destruct (Z.leb_spec 2 (max - 1)), (Z.leb_spec 2 max); lia.
Qed.

Lemma split_loop_spec fuel p max s : in_u 64 max -> (List.length s <= fuel)%nat ->
  pieces_of p (split_loop fuel p max s) s /\ Z.of_nat (List.length (split_loop fuel p max s)) <= piece_limit max /\ (Z.of_nat (List.length (split_loop fuel p max s)) < piece_limit max -> Forall (free p) (split_loop fuel p max s)).
Proof.
  assert (forall m, in_u 64 m -> 2 <= piece_limit m) as Hlim by (intros m Hm; unfold piece_limit, in_u in *; destruct (Z.leb_spec 2 m); lia).
  revert max s. induction fuel as [|fuel IH]; intros max s Hm Hf; pose proof (Hlim max Hm) as H2; (destruct (find_char_cases p s) as [[Hs E] | (x & d & r & -> & Hx & Hd & E)]; [destruct s; cbn [split_loop]; rewrite ?E; (split; [apply last_piece | split; [cbn; lia | intros _; by apply Forall_singleton]]) |]); [rewrite length_app in Hf; cbn in Hf; lia |].
  cbn [split_loop]. rewrite E, take_app_length, drop_app. rewrite drop_ge by lia. replace (List.length x + 1 - List.length x)%nat with 1%nat by lia. change (drop 1 (d :: r)) with r. cbn [app]. rewrite length_app in Hf. cbn [List.length] in Hf.
  destruct (Z.eqb_spec (u64 (max - 1)) 1) as [E1 | Hn].
  - assert (max = 2) as -> by (destruct (decide (max = 0)) as [-> |]; [done | rewrite max_next in E1 by done; lia]). split; [by repeat constructor |]. split; cbn; unfold piece_limit; cbn; lia.
  - destruct (limit_next max Hm Hn) as [Hm' Hl]. destruct (IH (u64 (max - 1)) r Hm' ltac:(lia)) as (P1 & P2 & P3). split; [by constructor |]. cbn [List.length]. split; [lia |]. intros Hlt. constructor; [done | apply P3; lia].
Qed.

(** *** [trim] *)

Lemma free_rev p s : free p s -> free p (rev s).
Proof. unfold free. rewrite !Forall_forall. intros H x Hx. apply H. by apply list_elem_of_In, in_rev, list_elem_of_In. Qed.

Definition kept (delimit : list Z) (c : Z) : bool := negb (member delimit c).

Lemma first_kept delimit pre c rest : free (kept delimit) pre -> kept delimit c = true -> first_not_of delimit (pre ++ c :: rest) = Some (List.length pre).
Proof. apply find_char_here. Qed.

Lemma last_kept delimit pre c post : free (kept delimit) post -> kept delimit c = true -> last_not_of delimit (pre ++ c :: post) = Some (List.length pre).
Proof.
  intros Hp Hc. unfold last_not_of. rewrite rev_app_distr. cbn [rev]. rewrite <- app_assoc. cbn [app]. rewrite first_kept; [| by apply free_rev | done]. cbn. f_equal. rewrite length_app, length_rev. cbn [List.length]. lia.
Qed.

Lemma none_kept delimit s : free (kept delimit) s -> first_not_of delimit s = None /\ last_not_of delimit s = None.
Proof. intros H. unfold last_not_of. split; [by apply find_char_none |]. unfold first_not_of. by rewrite find_char_none by (by apply free_rev). Qed.

(** *** [replace] *)

Lemma find_sub_here pat s k : find_sub pat s = Some k -> s = take k s ++ pat ++ drop (k + List.length pat) s /\ (k + List.length pat <= List.length s)%nat.
Proof.
  revert k. induction s as [|c s IH]; intros k; cbn [find_sub]; case_bool_decide as E.
  1, 3: intros [= <-]; apply (f_equal List.length) in E as El; rewrite length_take in El; split; [| lia]; cbn [Nat.add app take]; etransitivity; [symmetry; apply (take_drop (List.length pat)) | by rewrite E].
  - done.
  - destruct (find_sub pat s) as [k' |] eqn:Ef; [| done]. intros [= <-]. destruct (IH k' eq_refl) as [Es Hl]. cbn [List.length]. split; [| lia]. cbn [Nat.add take drop app]. f_equal. exact Es.
Qed.

Lemma find_after pat head s : find_from pat (head ++ s) (List.length head) = (fun k => (List.length head + k)%nat) <$> find_sub pat s.
Proof. unfold find_from. rewrite length_app, drop_app_length. destruct (Nat.ltb_spec (List.length head + List.length s) (List.length head)); [lia | done]. Qed.

(** The leftmost occurrences of [pat], one after the other, give way to [w]. *)
Inductive rewritten (pat w : list Z) : list Z -> list Z -> Prop :=
  | rewritten_none s : find_sub pat s = None -> rewritten pat w s s
  | rewritten_next a s s' : find_sub pat (a ++ pat ++ s) = Some (List.length a) -> rewritten pat w s s' -> rewritten pat w (a ++ pat ++ s) (a ++ w ++ s').

Lemma take_past {A} (l k : list A) n : take (List.length l + n) (l ++ k) = l ++ take n k.
Proof. rewrite take_app. rewrite take_ge by lia. do 2 f_equal. lia. Qed.

Lemma drop_past {A} (l k : list A) n : drop (List.length l + n) (l ++ k) = drop n k.
Proof. rewrite drop_app. rewrite drop_ge by lia. cbn [app]. f_equal. lia. Qed.

Lemma replace_loop_spec fuel pat w head s : pat <> [] -> (List.length s <= fuel)%nat ->
  exists r, replace_loop fuel pat w (head ++ s) (find_from pat (head ++ s) (List.length head)) = Ret (head ++ r) tt /\ rewritten pat w s r.
Proof.
  intros Hp. assert (0 < List.length pat)%nat as Hl by (destruct pat; [done | cbn; lia]). revert head s. induction fuel as [|fuel IH]; intros head s Hf; rewrite find_after; destruct (find_sub pat s) as [k |] eqn:E; cbn [fmap option_fmap option_map replace_loop]; try (exists s; split; [done | by apply rewritten_none]); destruct (find_sub_here _ _ _ E) as [Es Hk]; [lia |].
  set (a := take k s) in *. set (t := drop (k + List.length pat) s) in *. assert (List.length a = k) as Ea by (unfold a; rewrite length_take; lia).
  replace (take (List.length head + k) (head ++ s)) with (head ++ a) by (by rewrite take_past). replace (drop (List.length head + k + List.length pat) (head ++ s)) with t by (by rewrite <- Nat.add_assoc, drop_past).
  destruct (IH (head ++ a ++ w) t) as (r & Er & Hr); [unfold t; rewrite length_drop; lia |]. rewrite !length_app, Ea in Er. rewrite <- !app_assoc in Er. rewrite <- !app_assoc, <- Nat.add_assoc, Er. exists (a ++ w ++ r). split; [done |]. rewrite Es at 1. constructor; [| done]. by rewrite <- Es, E, Ea.
Qed.

(** With an empty string to find, [replace] never ends. *)
Lemma replace_empty fuel w head s : replace_loop fuel [] w (head ++ s) (find_from [] (head ++ s) (List.length head)) = Undef Diverges.
Proof.
  assert (forall s, find_sub [] s = Some 0%nat) as E by (by intros [|]). revert head. induction fuel as [|fuel IH]; intros head; rewrite find_after, E; cbn [fmap option_fmap option_map replace_loop]; [done |].
  rewrite take_past, Nat.add_0_r. cbn [List.length take]. rewrite Nat.add_0_r, drop_app_length, app_nil_r. specialize (IH (head ++ w)). rewrite length_app in IH. by rewrite <- !app_assoc in IH.
Qed.

Lemma find_sub_char find s : find_sub [find] s = find_char (fun c => c =? find) s.
Proof.
  unfold find_char. induction s as [|c s IH]; [done |]. cbn [find_sub list_find List.length take]. destruct (Z.eqb_spec c find) as [-> | Hne].
  - rewrite bool_decide_eq_true_2 by done. by rewrite decide_True by done.
  - rewrite bool_decide_eq_false_2 by (intros [=]; congruence). rewrite decide_False by done. rewrite IH. by destruct (list_find _ s) as [[? ?] |].
Qed.

(** For a character, that is each place where it stands. *)
Lemma rewritten_char find w s r : rewritten [find] w s r -> r = s ≫= (fun c => if c =? find then w else [c]).
Proof.
  assert (forall a, free (fun c => c =? find) a -> (a ≫= (fun c => if c =? find then w else [c])) = a) as Hfree by (induction 1 as [|c a Hc _ IHa]; [done | cbn [mbind list_bind]; by rewrite Hc, IHa]).
  assert (forall a b, free (fun c => c =? find) a -> find_char (fun c => c =? find) (a ++ find :: b) = Some (List.length a)) as Hat by (intros; apply find_char_here; [done | apply Z.eqb_refl]).
  induction 1 as [s E | a s s' E _ IH].
  - rewrite find_sub_char in E. destruct (find_char_cases (fun c => c =? find) s) as [[H _] | (? & ? & ? & _ & _ & _ & E')]; [by rewrite Hfree | congruence].
  - rewrite find_sub_char in E. rewrite bind_app. cbn [app mbind list_bind]. rewrite Z.eqb_refl, <- IH, Hfree; [done |].
    destruct (find_char_cases (fun c => c =? find) (a ++ [find] ++ s)) as [[_ E'] | (x & d & t & Es & Hx & Hd & E')]; [congruence |]. rewrite E in E'. injection E' as E'. by apply app_inj_1 in Es as [-> _].
Qed.

(** Putting in a character at an index is putting in the string of it. *)
Lemma replace_chars_string fuel find c str index : (forall i, index = Some i -> (i < List.length str)%nat) -> replace_chars_loop fuel find c str index = replace_loop fuel [find] [c] str index.
Proof.
  revert str index. induction fuel as [|fuel IH]; intros str [i |] Hi; cbn [replace_chars_loop replace_loop]; try done. specialize (Hi i eq_refl). cbn [List.length]. rewrite insert_take_drop, Nat.add_1_r by done. cbn [app]. apply IH.
  intros j. unfold find_from. case_match eqn:El; [done |]. apply Nat.ltb_ge in El. destruct (find_sub _ _) as [k |] eqn:E; [| done]. intros [= <-]. apply find_sub_here in E as [_ E]. rewrite length_drop in E. cbn [List.length] in E. lia.
Qed.

Lemma split_spec p str max : Z.of_nat (List.length str) < 2 ^ 64 - 1 -> in_u 64 max -> str <> [] ->
  pieces_of p (split p str max) str /\ (2 <= max -> Z.of_nat (List.length (split p str max)) <= max) /\
  (max < 2 \/ Z.of_nat (List.length (split p str max)) < max -> Forall (free p) (split p str max)).
Proof.
  intros Hl Hm Hn. assert (split p str max = split_loop (List.length str) p max str) as -> by (by destruct str). destruct (split_loop_spec (List.length str) p max str Hm (Nat.le_refl _)) as (P1 & P2 & P3).
  pose proof (pieces_length _ _ _ P1) as Hc. unfold piece_limit, in_u in *. split; [done |]. split; [intros H2; destruct (Z.leb_spec 2 max); lia |]. intros H. apply P3. destruct (Z.leb_spec 2 max); lia.
Qed.

Lemma replace_char_spec c w str : replace_char (List.length str) str c w = Ret (str ≫= (fun x => if x =? c then w else [x])) tt.
Proof. destruct (replace_loop_spec (List.length str) [c] w [] str) as (r & E & Hr); [done | done |]. apply rewritten_char in Hr as ->. exact E. Qed.

Lemma replace_chars_spec c d str : replace_chars (List.length str) str c d = Ret ((fun x => if x =? c then d else x) <$> str) tt.
Proof.
  unfold replace_chars. rewrite replace_chars_string.
  - pose proof (replace_char_spec c [d] str) as E. unfold replace_char in E. rewrite E. f_equal. clear E. induction str as [|x str IH]; [done |]. cbn [mbind list_bind fmap list_fmap]. rewrite IH. by destruct (x =? c).
  - intros i. pose proof (find_after [c] [] str) as Ef. cbn [app List.length] in Ef. rewrite Ef. clear Ef. destruct (find_sub [c] str) as [k |] eqn:E; [| done]. intros [= <-]. apply find_sub_here in E as [_ E]. cbn [List.length] in *. lia.
Qed.

Lemma trim_spec delimit pre x post a z : free (kept delimit) pre -> free (kept delimit) post -> head x = Some a -> kept delimit a = true -> last x = Some z -> kept delimit z = true ->
  trim delimit (pre ++ x ++ post) = x /\ trimLeft delimit (pre ++ x ++ post) = x ++ post /\ trimRight delimit (pre ++ x ++ post) = pre ++ removelast x.
Proof.
  intros Hpre Hpost Ha Hka Hz Hkz. apply last_Some in Hz as [y ->]. assert (exists t, y ++ [z] = a :: t) as [t Et] by (destruct y; cbn in Ha |- *; simplify_eq; by eexists).
  assert (first_not_of delimit (pre ++ (y ++ [z]) ++ post) = Some (List.length pre)) as E1 by (rewrite Et; by apply first_kept).
  assert (last_not_of delimit (pre ++ (y ++ [z]) ++ post) = Some (List.length pre + List.length y)%nat) as E2 by (rewrite <- (app_assoc y), app_assoc; cbn [app]; rewrite <- length_app; by apply last_kept).
  unfold trim, trimLeft, trimRight, substr. rewrite E1, E2, drop_app_length, removelast_last. split; [| split; [done |]].
  - replace (List.length pre + List.length y - List.length pre + 1)%nat with (List.length (y ++ [z])) by (rewrite length_app; cbn; lia). apply take_app_length.
  - rewrite drop_0, <- (app_assoc y), app_assoc, <- length_app. apply take_app_length.
Qed.

(** ** Claims *)

(** C32: encoding and decoding are inverse: base 64, hexadecimal strings and URLs,
    with spaces as plus signs or not, of every string of bytes.  [base64decode]
    returns on every input, malformed or not, and stays in its buffer; an odd
    number of hexadecimal digits is refused. *)
Theorem text_roundtrips (s : list Z) (plus : bool) : bytes s ->
  base64decode (base64encode s) = Ret s tt /\
  data_from_hexstring (hexstring_from_data s) = Ret s tt /\
  urlDecode (urlEncode s plus) plus = s /\
  (exists out, base64decode s = Ret out tt) /\
  ((List.length s mod 2)%nat <> 0%nat -> data_from_hexstring s = Throw LogicError tt).
Proof.
  intros Hb. split; [by apply base64_inverse |]. split; [by apply hex_inverse |]. split; [by apply url_inverse |]. split.
  - unfold base64decode. destruct (decode_loop_total (List.length s) (List.length s * 3 / 4) s) as [o ->]; [done | done |]. by eexists.
  - intros Ho. unfold data_from_hexstring. by rewrite (proj2 (Nat.eqb_neq _ _) Ho).
Qed.

Lemma text_roundtrips_witness : base64decode (base64encode [0; 255; 32; 37]) = Ret [0; 255; 32; 37] tt /\ urlDecode (urlEncode [0; 255; 32; 37] true) true = [0; 255; 32; 37].
Proof.
  assert (bytes [0; 255; 32; 37]) as Hb by (unfold bytes; rewrite !list.Forall_cons; repeat split; try lia; constructor).
  destruct (text_roundtrips _ true Hb) as (H1 & _ & H3 & _). by split.
Defined.

(** C33: the loops over strings end and do what their names say: [split] gives the
    pieces between delimiters, no more than [max] of them when [max] is at least
    two, and the only piece that may hold a delimiter is the last of exactly
    [max]; with [max] 0, and with [max] 1, there is no limit.  [replace] puts
    the new text in place of each occurrence, leftmost first, in at most as
    many rounds as there are characters, and never ends when the text to find
    is empty.  [trim] and [trimLeft] keep the text between the delimiters, and
    [trimRight] loses the last character to be kept. *)
Theorem string_loops (str : list Z) : Z.of_nat (List.length str) < 2 ^ 64 - 1 ->
  (forall p max, in_u 64 max -> str <> [] ->
    pieces_of p (split p str max) str /\ (2 <= max -> Z.of_nat (List.length (split p str max)) <= max) /\
    (max < 2 \/ Z.of_nat (List.length (split p str max)) < max -> Forall (free p) (split p str max))) /\
  (forall find w, find <> [] -> exists r, replace (List.length str) str find w = Ret r tt /\ rewritten find w str r) /\
  (forall w fuel, replace fuel str [] w = Undef Diverges) /\
  (forall c w, replace_char (List.length str) str c w = Ret (str ≫= (fun x => if x =? c then w else [x])) tt) /\
  (forall c d, replace_chars (List.length str) str c d = Ret ((fun x => if x =? c then d else x) <$> str) tt) /\
  (forall delimit pre x post, str = pre ++ x ++ post -> free (kept delimit) pre -> free (kept delimit) post ->
    (exists a, head x = Some a /\ kept delimit a = true) -> (exists z, last x = Some z /\ kept delimit z = true) ->
    trim delimit str = x /\ trimLeft delimit str = x ++ post /\ trimRight delimit str = pre ++ removelast x).
Proof.
  intros Hl. split; [| split; [| split; [| split; [| split]]]].
  - intros p max. by apply split_spec.
  - intros find w Hf. by apply (replace_loop_spec _ find w [] str).
  - intros w fuel. exact (replace_empty fuel w [] str).
  - intros c w. apply replace_char_spec.
  - intros c d. apply replace_chars_spec.
  - intros delimit pre x post -> Hpre Hpost (a & Ha & Hka) (z & Hz & Hkz). by apply (trim_spec delimit pre x post a z).
Qed.

Lemma string_loops_witness : split (fun c => c =? 44) (text "a,b,c") 2 = [text "a"; text "b,c"] /\ pieces_of (fun c => c =? 44) [text "a"; text "b,c"] (text "a,b,c") /\ trimRight (text " ") (text "ab ") = text "a".
Proof.
  destruct (string_loops (text "a,b,c") ltac:(vm_compute; reflexivity)) as (H1 & _). destruct (H1 (fun c => c =? 44) 2 ltac:(done) ltac:(done)) as [H _]. split; [by vm_compute |]. split; [exact H | by vm_compute].
Defined.
