(* ===== verification/Addresses.v ===== *)
(** * Socket addresses

    [Address], [IPv4Address], [IPv6Address], [UnixAddress] and [UnknownAddress]
    of [src/include/address.h] and [src/src/address.cpp]: networks and masks,
    comparison, printing, the parts of a host name, and addresses made from the
    memory of a [sockaddr].  Integers in a [sockaddr] are in network byte order;
    [host] is the byte order of the machine.  [getaddrinfo] is a parameter. *)

From stdpp Require Import base list list_numbers numbers option.
From Stdlib Require Import ZArith Lia String.
From S2P Require Import Prelude.
From S2P Require Import ByteArray.
From S2P Require Import ByteCodec.
From S2P Require Import SortedVec.
From S2P Require Import TextCodecs.

Local Open Scope Z_scope.

(** ** Data *)

Definition AF_UNIX : Z := 1.
Definition AF_INET : Z := 2.
Definition AF_INET6 : Z := 10.

Record sockaddr_in := mkIn { sin_family : Z; sin_port : Z; s_addr : Z; sin_zero : list Z }.
Record sockaddr_in6 := mkIn6 { sin6_family : Z; sin6_port : Z; sin6_flowinfo : Z; s6_addr : list Z; sin6_scope_id : Z }.
Record sockaddr_un := mkUn { sun_family : Z; sun_path : list Z; un_length : Z }.

Inductive Address :=
| IPv4Address (addr : sockaddr_in)
| IPv6Address (addr : sockaddr_in6)
| UnixAddress (addr : sockaddr_un)
| UnknownAddress (addr : list Z).

Definition byteswapOnLittleEndian (host : endian) (n : nat) (v : Z) : Z :=
  match host with LITTLE_ENDIAN => byteswap n v | BIG_ENDIAN => v end.

(** ** Masks *)

(** [createMask<uint32_t>] and [createMask<uint8_t>]: [1] is an [int]. *)
Definition createMask (width bits : Z) : outcome unit Z :=
  let k := u64 (width - bits) in
  if 31 <? k then Undef BadShift
  else
    let shifted := swrap 32 (Z.shiftl 1 k) in
    if shifted - 1 <? - 2 ^ 31 then Undef SignedOverflow else Ret (uwrap width (shifted - 1)) tt.

(** [countBytes]: the loop clears the lowest bit. *)
Fixpoint countBytes (fuel : nat) (value : Z) : option Z :=
  if value =? 0 then Some 0
  else match fuel with O => None | S fuel => Z.succ <$> countBytes fuel (Z.land value (value - 1)) end.

(** What a mask is used for; an undefined shift is passed on. *)
Definition with_mask {A} (width bits : Z) (k : Z -> outcome unit A) : outcome unit A :=
  match createMask width bits with
  | Ret m _ => k m
  | Throw e _ => Throw e tt
  | Undef u => Undef u
  end.

(** ** IPv4 *)

Section host.
Context (host : endian).

Definition new_IPv4Address (address port : Z) : sockaddr_in :=
  mkIn AF_INET (byteswapOnLittleEndian host 2 port) (byteswapOnLittleEndian host 4 address) (replicate 8 0).

Definition getPort4 (a : sockaddr_in) : Z := byteswapOnLittleEndian host 2 (sin_port a).
Definition setPort4 (value : Z) (a : sockaddr_in) : sockaddr_in := mkIn (sin_family a) (byteswapOnLittleEndian host 2 value) (s_addr a) (sin_zero a).

Definition with_s_addr (v : Z) (a : sockaddr_in) : sockaddr_in := mkIn (sin_family a) (sin_port a) v (sin_zero a).

Definition broadcastAddress4 (prefixLen : Z) (a : sockaddr_in) : outcome unit (option sockaddr_in) :=
  if 32 <? prefixLen then Ret None tt
  else with_mask 32 prefixLen (fun m => Ret (Some (with_s_addr (Z.lor (s_addr a) (byteswapOnLittleEndian host 4 m)) a)) tt).

Definition networkAddress4 (prefixLen : Z) (a : sockaddr_in) : outcome unit (option sockaddr_in) :=
  if 32 <? prefixLen then Ret None tt
  else with_mask 32 prefixLen (fun m => Ret (Some (with_s_addr (Z.land (s_addr a) (byteswapOnLittleEndian host 4 m)) a)) tt).

Definition subnetMask4 (prefixLen : Z) : outcome unit sockaddr_in :=
  with_mask 32 prefixLen (fun m => Ret (mkIn AF_INET 0 (u32 (Z.lnot (byteswapOnLittleEndian host 4 m))) (replicate 8 0)) tt).

(** ** IPv6 *)

Definition new_IPv6Address (address : list Z) (port : Z) : sockaddr_in6 := mkIn6 AF_INET6 (byteswapOnLittleEndian host 2 port) 0 address 0.
Definition any_IPv6Address : sockaddr_in6 := mkIn6 AF_INET6 0 0 (replicate 16 0) 0.

Definition getPort6 (a : sockaddr_in6) : Z := byteswapOnLittleEndian host 2 (sin6_port a).
Definition setPort6 (value : Z) (a : sockaddr_in6) : sockaddr_in6 := mkIn6 (sin6_family a) (byteswapOnLittleEndian host 2 value) (sin6_flowinfo a) (s6_addr a) (sin6_scope_id a).

Definition with_s6_addr (l : list Z) (a : sockaddr_in6) : sockaddr_in6 := mkIn6 (sin6_family a) (sin6_port a) (sin6_flowinfo a) l (sin6_scope_id a).

(** [for(int i = from; i < 16; ++i) s6_addr[i] = v] *)
Definition fill (v : Z) (from count : nat) (l : list Z) : list Z := foldl (fun l i => <[i := v]> l) l (seq from count).

(** The byte of the prefix: [s6_addr[prefixLen / 8]], which there is not from
    128 on. *)
Definition at_prefix {A} (prefixLen : Z) (l : list Z) (k : nat -> Z -> Z -> outcome unit A) : outcome unit A :=
  let i := Z.to_nat (prefixLen / 8) in
  match l !! i with
  | None => Undef BadIndex
  | Some b => with_mask 8 (prefixLen mod 8) (fun m => k i b m)
  end.

Definition broadcastAddress6 (prefixLen : Z) (a : sockaddr_in6) : outcome unit sockaddr_in6 :=
  at_prefix prefixLen (s6_addr a) (fun i b m => Ret (with_s6_addr (fill 255 (i + 1) (16 - (i + 1)) (<[i := Z.lor b m]> (s6_addr a))) a) tt).

Definition networkAddress6 (prefixLen : Z) (a : sockaddr_in6) : outcome unit sockaddr_in6 :=
  at_prefix prefixLen (s6_addr a) (fun i b m => Ret (with_s6_addr (fill 0 (i + 1) (16 - (i + 1)) (<[i := Z.land b m]> (s6_addr a))) a) tt).

Definition subnetMask6 (prefixLen : Z) : outcome unit sockaddr_in6 :=
  at_prefix prefixLen (replicate 16 0) (fun i b m => Ret (with_s6_addr (fill 255 0 i (<[i := u8 (Z.lnot m)]> (replicate 16 0))) any_IPv6Address) tt).

(** The prefix length of an interface, from its netmask. *)
Definition prefix_len4 (netmask : Z) : option Z := countBytes 32 netmask.
Definition prefix_len6 (netmask : list Z) : option Z :=
  foldl (fun n b => n ← n; c ← countBytes 8 b; Some (u32 (n + c))) (Some 0) netmask.

(** ** Text *)

(** [os << n] and [os << std::hex << n]. *)
Fixpoint digits (fuel : nat) (base n : Z) (acc : list Z) : list Z :=
  let acc := hex_char (n mod base) :: acc in
  match fuel with
  | S fuel => if n / base =? 0 then acc else digits fuel base (n / base) acc
  | O => acc
  end.

Definition print_num (base n : Z) : list Z := digits (Z.to_nat (Z.log2 n)) base n [].

Definition insert4 (a : sockaddr_in) : list Z :=
  let addr := byteswapOnLittleEndian host 4 (s_addr a) in
  print_num 10 (Z.land (Z.shiftr addr 24) 255) ++ text "." ++ print_num 10 (Z.land (Z.shiftr addr 16) 255) ++ text "." ++
  print_num 10 (Z.land (Z.shiftr addr 8) 255) ++ text "." ++ print_num 10 (Z.land addr 255) ++
  text ":" ++ print_num 10 (byteswapOnLittleEndian host 2 (sin_port a)).

(** The address as [uint16_t[8]]. *)
Fixpoint groups_of (l : list Z) : list Z :=
  match l with
  | a :: b :: l => of_mem host [a; b] :: groups_of l
  | _ => []
  end.

(** The loop over the groups; [prev] is [addr[i - 1]], none for [i = 0]. *)
Fixpoint insert_loop (prev : option Z) (usedZeros : bool) (addr : list Z) : list Z * bool :=
  match addr with
  | [] => ([], usedZeros)
  | g :: addr =>
    if (g =? 0) && negb usedZeros then insert_loop (Some g) usedZeros addr
    else
      let gap := bool_decide (prev = Some 0) && negb usedZeros in
      let '(out, used) := insert_loop (Some g) (gap || usedZeros) addr in
      ((if gap then text ":" else []) ++ (match prev with Some _ => text ":" | None => [] end) ++ print_num 16 (byteswapOnLittleEndian host 2 g) ++ out, used)
  end.

Definition insert6 (a : sockaddr_in6) : list Z :=
  let addr := groups_of (s6_addr a) in
  let '(out, usedZeros) := insert_loop None false addr in
  text "[" ++ out ++ (if negb usedZeros && bool_decide (addr !! 7%nat = Some 0) then text "::" else []) ++ text "]:" ++ print_num 10 (byteswapOnLittleEndian host 2 (sin6_port a)).
End host.

(** ** Unix domain *)

(** [offsetof(sockaddr_un, sun_path)] and [sizeof(sun_path)]. *)
Definition path_offset : Z := 2.
Definition path_size : Z := 108.

Definition any_UnixAddress : sockaddr_un := mkUn AF_UNIX (replicate 108 0) (path_offset + (path_size - 1)).

Definition new_UnixAddress (path : list Z) : outcome unit sockaddr_un :=
  let length := u32 (Z.of_nat (List.length path) + 1) in
  let length := if bool_decide (head path = Some 0) then u32 (length - 1) else length in
  if path_size <? length then Throw LogicError tt
  else
    let bytes := take (Z.to_nat length) (path ++ [0]) in
    Ret (mkUn AF_UNIX (bytes ++ replicate (108 - List.length bytes) 0) (length + path_offset)) tt.

Definition setAddrLen (value : Z) (a : sockaddr_un) : sockaddr_un := mkUn (sun_family a) (sun_path a) (u32 value).

(** [std::string(s, n)] and [os << s], for [s] in an array. *)
Definition string_of (l : list Z) (n : Z) : outcome unit (list Z) :=
  if Z.of_nat (List.length l) <? n then Undef BadIndex else Ret (take (Z.to_nat n) l) tt.
Definition c_string (l : list Z) : outcome unit (list Z) :=
  match find_char (fun c => c =? 0) l with Some k => Ret (take k l) tt | None => Undef BadIndex end.

Definition getPath (a : sockaddr_un) : outcome unit (list Z) :=
  if (path_offset <? un_length a) && bool_decide (head (sun_path a) = Some 0) then
    match string_of (tail (sun_path a)) (un_length a - path_offset - 1) with Ret l _ => Ret ([92; 48] ++ l) tt | o => o end
  else c_string (sun_path a).

(** ** Any address *)

Section memory.
Context (host : endian).

(** The memory of the [sockaddr], and how much of it counts. *)
Definition getAddr (a : Address) : list Z :=
  match a with
  | IPv4Address a => mem_of host 2 (sin_family a) ++ mem_of host 2 (sin_port a) ++ mem_of host 4 (s_addr a) ++ sin_zero a
  | IPv6Address a => mem_of host 2 (sin6_family a) ++ mem_of host 2 (sin6_port a) ++ mem_of host 4 (sin6_flowinfo a) ++ s6_addr a ++ mem_of host 4 (sin6_scope_id a)
  | UnixAddress a => mem_of host 2 (sun_family a) ++ sun_path a
  | UnknownAddress a => a
  end.

Definition getAddrLen (a : Address) : Z :=
  match a with
  | IPv4Address _ => 16
  | IPv6Address _ => 28
  | UnixAddress a => un_length a
  | UnknownAddress _ => 16
  end.

(** [memcmp]: the sign of the difference at the first byte that differs. *)
Fixpoint memcmp (n : nat) (a b : list Z) : outcome unit Z :=
  match n with
  | O => Ret 0 tt
  | S n =>
    match a, b with
    | x :: a, y :: b => match memcmp n a b with Ret r _ => Ret (if x <? y then -1 else if y <? x then 1 else r) tt | o => o end
    | _, _ => Undef BadIndex
    end
  end.

Definition addr_lt (a b : Address) : outcome unit bool :=
  match memcmp (Z.to_nat (Z.min (getAddrLen a) (getAddrLen b))) (getAddr a) (getAddr b) with
  | Ret result _ => Ret (if result <? 0 then true else if 0 <? result then false else getAddrLen a <? getAddrLen b) tt
  | Throw e _ => Throw e tt
  | Undef u => Undef u
  end.

Definition addr_eq (a b : Address) : outcome unit bool :=
  if negb (getAddrLen a =? getAddrLen b) then Ret false tt
  else
    match memcmp (Z.to_nat (getAddrLen a)) (getAddr a) (getAddr b) with
    | Ret result _ => Ret (result =? 0) tt
    | Throw e _ => Throw e tt
    | Undef u => Undef u
    end.

Definition field (mem : list Z) (from size : nat) : Z := of_mem host (take size (drop from mem)).

(** [Address::create]: the family says how much of the memory is read. *)
Definition Address_create (mem : list Z) : outcome unit Address :=
  let need n (a : Address) := if (List.length mem <? n)%nat then Undef BadIndex else Ret a tt in
  let family := field mem 0 2 in
  if family =? AF_INET then need 16%nat (IPv4Address (mkIn family (field mem 2 2) (field mem 4 4) (take 8 (drop 8 mem))))
  else if family =? AF_INET6 then need 28%nat (IPv6Address (mkIn6 family (field mem 2 2) (field mem 4 4) (take 16 (drop 8 mem)) (field mem 24 4)))
  else need 16%nat (UnknownAddress (take 16 mem)).

(** ** Host names *)

(** [Address::lookup] up to [getaddrinfo]: the node and the service. *)
Definition host_parts (name : list Z) : list Z * option (list Z) :=
  let '(node, service) :=
    match name with
    | 91 :: rest =>
      match find_char (fun c => c =? 93) rest with
      | Some k => (take k rest, match drop (k + 1) rest with 58 :: s => Some s | _ => None end)
      | None => ([], None)
      end
    | _ => ([], None)
    end in
  let '(node, service) :=
    if bool_decide (node = []) then
      match find_char (fun c => c =? 58) name with
      | Some k =>
        let after := drop (k + 1) name in
        if bool_decide (is_Some (find_char (fun c => c =? 58) after)) then (node, Some (58 :: after)) else (take k name, Some after)
      | None => (node, None)
      end
    else (node, service) in
  (if bool_decide (node = []) then name else node, service).

Context (getaddrinfo : list Z -> option (list Z) -> Z * Z * Z -> option (list (list Z))).

Fixpoint create_all (results : list (list Z)) : outcome unit (list Address) :=
  match results with
  | [] => Ret [] tt
  | r :: results =>
    match Address_create r with
    | Ret a _ => match create_all results with Ret l _ => Ret (a :: l) tt | o => o end
    | Throw e _ => Throw e tt
    | Undef u => Undef u
    end
  end.

(** The result, and what is appended to the vector. *)
Definition lookup (name : list Z) (hints : Z * Z * Z) : outcome unit (bool * list Address) :=
  let '(node, service) := host_parts name in
  match getaddrinfo node service hints with
  | None => Ret (false, []) tt
  | Some results => match create_all results with Ret l _ => Ret (negb (bool_decide (l = [])), l) tt | Throw e _ => Throw e tt | Undef u => Undef u end
  end.

Definition is_IP (a : Address) : bool := match a with IPv4Address _ | IPv6Address _ => true | _ => false end.

Definition lookupAny (name : list Z) (hints : Z * Z * Z) : outcome unit (option Address) :=
  match lookup name hints with
  | Ret (true, l) _ => match l with a :: _ => Ret (Some a) tt | [] => Undef BadIndex end
  | Ret (false, _) _ => Ret None tt
  | Throw e _ => Throw e tt
  | Undef u => Undef u
  end.

Definition lookupAnyIPAddress (name : list Z) (hints : Z * Z * Z) : outcome unit (option Address) :=
  match lookup name hints with
  | Ret (true, l) _ => Ret (List.find is_IP l) tt
  | Ret (false, _) _ => Ret None tt
  | Throw e _ => Throw e tt
  | Undef u => Undef u
  end.
End memory.

(** ** Bits and bytes *)

Lemma rev_zip {A B C} (g : A -> B -> C) la lb : List.length la = List.length lb -> rev (zip_with g la lb) = zip_with g (rev la) (rev lb).
Proof.
  revert lb. induction la as [|a la IH]; intros [|b lb] Hl; try done. cbn [zip_with rev]. rewrite IH by (cbn in Hl; lia). rewrite zip_with_app; [done |]. rewrite !length_rev. cbn in Hl. lia.
Qed.

Section bitwise.
Context (op : Z -> Z -> Z) (f : bool -> bool -> bool).
Context (op_bits : forall a b i, 0 <= i -> Z.testbit (op a b) i = f (Z.testbit a i) (Z.testbit b i)) (f_false : f false false = false).

Lemma cons_bits b x i : in_u 8 b -> 0 <= i -> Z.testbit (b + 256 * x) i = if i <? 8 then Z.testbit b i else Z.testbit x (i - 8).
Proof.
  intros Hb Hi. replace (b + 256 * x) with (x * 2 ^ 8 + b) by lia. rewrite <- lor_add, Z.lor_spec by (done || lia). destruct (Z.ltb_spec i 8).
  - by rewrite Z.mul_pow2_bits_low.
  - by rewrite (in_u_testbit 8 b), orb_false_r, Z.mul_pow2_bits by (done || lia).
Qed.

Lemma combine_op la lb : List.length la = List.length lb -> Forall (in_u 8) la -> Forall (in_u 8) lb -> (forall a b, in_u 8 a -> in_u 8 b -> in_u 8 (op a b)) -> le_combine (zip_with op la lb) = op (le_combine la) (le_combine lb).
Proof.
  revert lb. induction la as [|a la IH]; intros [|b lb] Hl Ha Hb Hop; try done; cbn [zip_with le_combine].
  - apply Z.bits_inj'. intros i Hi. by rewrite op_bits, Z.testbit_0_l, f_false.
  - apply list.Forall_cons in Ha as [Ha Hla]. apply list.Forall_cons in Hb as [Hb Hlb]. rewrite IH by (try done; cbn in Hl; lia). apply Z.bits_inj'. intros i Hi. rewrite op_bits, !cons_bits by (done || by apply Hop). destruct (Z.ltb_spec i 8); by rewrite op_bits by lia.
Qed.

Lemma split_op n a b : le_split n (op a b) = zip_with op (le_split n a) (le_split n b).
Proof.
  revert a b. induction n as [|n IH]; intros a b; [done |]. cbn [le_split zip_with]. change 256 with (2 ^ 8). f_equal.
  - apply Z.bits_inj'. intros i Hi. rewrite op_bits by done. destruct (decide (i < 8)).
    + by rewrite !Z.mod_pow2_bits_low, op_bits by lia.
    + by rewrite !Z.mod_pow2_bits_high, f_false by lia.
  - rewrite <- IH. f_equal. apply Z.bits_inj'. intros i Hi. by rewrite op_bits, !Z.div_pow2_bits, op_bits by lia.
Qed.

Lemma byteswap_op n a b : (forall a b, in_u 8 a -> in_u 8 b -> in_u 8 (op a b)) -> byteswap n (op a b) = op (byteswap n a) (byteswap n b).
Proof.
  intros Hop. unfold byteswap. rewrite split_op, <- combine_op.
  - f_equal. apply rev_zip. by rewrite !length_le_split.
  - by rewrite !length_rev, !length_le_split.
  - apply Forall_rev, le_split_bytes.
  - apply Forall_rev, le_split_bytes.
  - done.
Qed.
End bitwise.

(** ** Networks, bit by bit *)

Section bits.
Context (host : endian).

(** Bit [i] of an address, from the first one on. *)
Definition bit4 (a : sockaddr_in) (i : Z) : bool := Z.testbit (byteswapOnLittleEndian host 4 (s_addr a)) (31 - i).
Definition bit6 (a : sockaddr_in6) (i : Z) : bool := match s6_addr a !! Z.to_nat (i / 8) with Some b => Z.testbit b (7 - i mod 8) | None => false end.

Lemma mask32 p : 2 <= p <= 32 -> createMask 32 p = Ret (2 ^ (32 - p) - 1) tt.
Proof.
  intros Hp. pose proof (below_ind 33 (fun p => match createMask 32 p with Ret m _ => m =? 2 ^ (32 - p) - 1 | _ => p <? 2 end)) as H. specialize (H ltac:(vm_compute; reflexivity) p ltac:(lia)). cbn beta in H.
  destruct (createMask 32 p) as [m [] | |]; [by apply Z.eqb_eq in H as -> | |]; apply Z.ltb_lt in H; lia.
Qed.

Lemma mask8 r : 0 <= r < 8 -> createMask 8 r = Ret (2 ^ (8 - r) - 1) tt.
Proof.
  intros Hr. pose proof (below_ind 8 (fun r => match createMask 8 r with Ret m _ => m =? 2 ^ (8 - r) - 1 | _ => false end)) as H. specialize (H ltac:(vm_compute; reflexivity) r Hr). cbn beta in H.
  destruct (createMask 8 r) as [m [] | |]; [by apply Z.eqb_eq in H as -> | done | done].
Qed.

Lemma mask_bit k j : 0 <= k -> 0 <= j -> Z.testbit (2 ^ k - 1) j = (j <? k).
Proof.
  intros Hk Hj. replace (2 ^ k - 1) with (Z.ones k) by (rewrite Z.ones_equiv; lia). destruct (Z.ltb_spec j k); [by apply Z.ones_spec_low | by apply Z.ones_spec_high].
Qed.

Lemma swap_bits op f n a m : (forall a b i, 0 <= i -> Z.testbit (op a b) i = f (Z.testbit a i) (Z.testbit b i)) -> f false false = false -> (forall a b, in_u 8 a -> in_u 8 b -> in_u 8 (op a b)) -> in_u (8 * Z.of_nat n) m ->
  byteswapOnLittleEndian host n (op a (byteswapOnLittleEndian host n m)) = op (byteswapOnLittleEndian host n a) m.
Proof. intros H1 H2 H3 Hm. destruct host; cbn [byteswapOnLittleEndian]; [| done]. by rewrite (byteswap_op op f) by done; rewrite byteswap_invol. Qed.

Lemma swap_lor a m : in_u 32 m -> byteswapOnLittleEndian host 4 (Z.lor a (byteswapOnLittleEndian host 4 m)) = Z.lor (byteswapOnLittleEndian host 4 a) m.
Proof. intros Hm. apply (swap_bits Z.lor orb); [intros; apply Z.lor_spec | done | intros; by apply in_u_lor | done]. Qed.

Lemma swap_land a m : in_u 32 m -> byteswapOnLittleEndian host 4 (Z.land a (byteswapOnLittleEndian host 4 m)) = Z.land (byteswapOnLittleEndian host 4 a) m.
Proof. intros Hm. apply (swap_bits Z.land andb); [intros; apply Z.land_spec | done | intros x y Hx [Hy _]; by apply in_u_land | done]. Qed.

Lemma mask_range k : 0 <= k <= 32 -> in_u 32 (2 ^ k - 1).
Proof. intros Hk. pose proof (Z.pow_pos_nonneg 2 k). pose proof (Z.pow_le_mono_r 2 k 32). unfold in_u. lia. Qed.

Lemma broadcast4_bits p a : 2 <= p <= 32 -> exists a', broadcastAddress4 host p a = Ret (Some a') tt /\ forall i, 0 <= i < 32 -> bit4 a' i = (p <=? i) || bit4 a i.
Proof.
  intros Hp. unfold broadcastAddress4, with_mask. rewrite (proj2 (Z.ltb_ge 32 p)), mask32 by lia. eexists. split; [done |]. intros i Hi. unfold bit4. cbn [s_addr with_s_addr].
  rewrite swap_lor by (apply mask_range; lia). rewrite Z.lor_spec, mask_bit, orb_comm by lia. f_equal. destruct (Z.ltb_spec (31 - i) (32 - p)), (Z.leb_spec p i); lia || done.
Qed.

Lemma network4_bits p a : 2 <= p <= 32 -> exists a', networkAddress4 host p a = Ret (Some a') tt /\ forall i, 0 <= i < 32 -> bit4 a' i = (p <=? i) && bit4 a i.
Proof.
  intros Hp. unfold networkAddress4, with_mask. rewrite (proj2 (Z.ltb_ge 32 p)), mask32 by lia. eexists. split; [done |]. intros i Hi. unfold bit4. cbn [s_addr with_s_addr].
  rewrite swap_land by (apply mask_range; lia). rewrite Z.land_spec, mask_bit, andb_comm by lia. f_equal. destruct (Z.ltb_spec (31 - i) (32 - p)), (Z.leb_spec p i); lia || done.
Qed.

(** The netmask of a prefix, and the prefix of a netmask. *)
Definition subnet4_ok (p : Z) : bool :=
  match subnetMask4 host p with
  | Ret a _ => forallb (fun i => Bool.eqb (bit4 a i) (i <? p)) (seqZ 0 32) && bool_decide (prefix_len4 (s_addr a) = Some p)
  | _ => p <? 2
  end.

Definition subnet6_ok (p : Z) : bool :=
  match subnetMask6 p with
  | Ret a _ => forallb (fun i => Bool.eqb (bit6 a i) (i <? p)) (seqZ 0 128) && bool_decide (prefix_len6 (s6_addr a) = Some p)
  | _ => false
  end.

Lemma subnet6_bits p : 0 <= p < 128 -> exists a, subnetMask6 p = Ret a tt /\ (forall i, 0 <= i < 128 -> bit6 a i = (i <? p)) /\ prefix_len6 (s6_addr a) = Some p.
Proof.
  intros Hp. assert (subnet6_ok p = true) as H by (apply (below_ind 128 subnet6_ok); [vm_compute; reflexivity | lia]). unfold subnet6_ok in H. destruct (subnetMask6 p) as [a [] | |]; try done.
  apply andb_true_iff in H as [H1 H2]. apply bool_decide_eq_true in H2. exists a. split; [done |]. split; [| done]. intros i Hi. apply eqb_prop. exact (below_ind 128 _ H1 i Hi).
Qed.

Lemma fill_lookup v from n l i : fill v from n l !! i = if ((from <=? i) && (i <? from + n))%nat then (fun _ => v) <$> l !! i else l !! i.
Proof.
  unfold fill. revert from l. induction n as [|n IH]; intros from l; cbn [seq foldl].
  - destruct (Nat.leb_spec from i), (Nat.ltb_spec i (from + 0)); done || lia.
  - rewrite IH. destruct (Nat.leb_spec (S from) i), (Nat.ltb_spec i (S from + n)), (Nat.leb_spec from i), (Nat.ltb_spec i (from + S n)); cbn [andb]; try lia; try (by rewrite list_lookup_insert_ne by lia).
    assert (i = from) as -> by lia. destruct (l !! from) eqn:E; [by rewrite list_lookup_insert_eq by (by eapply lookup_lt_Some) | cbn; apply lookup_ge_None in E; apply lookup_ge_None; by rewrite length_insert].
Qed.
End bits.

Lemma subnet4_bits host p : 2 <= p <= 32 -> exists a, subnetMask4 host p = Ret a tt /\ (forall i, 0 <= i < 32 -> bit4 host a i = (i <? p)) /\ prefix_len4 (s_addr a) = Some p.
Proof.
  intros Hp. assert (subnet4_ok host p = true) as H by (apply (below_ind 33 (subnet4_ok host)); [destruct host; vm_compute; reflexivity | lia]). unfold subnet4_ok in H. destruct (subnetMask4 host p) as [a [] | |]; try (apply Z.ltb_lt in H; lia).
  apply andb_true_iff in H as [H1 H2]. apply bool_decide_eq_true in H2. exists a. split; [done |]. split; [| done]. intros i Hi. apply eqb_prop. exact (below_ind 32 _ H1 i Hi).
Qed.

Lemma at_prefix_in {A} p l (k : nat -> Z -> Z -> outcome unit A) b : 0 <= p -> l !! Z.to_nat (p / 8) = Some b -> at_prefix p l k = k (Z.to_nat (p / 8)) b (2 ^ (8 - p mod 8) - 1).
Proof. intros Hp E. unfold at_prefix, with_mask. rewrite E, mask8; [done |]. apply Z.mod_pos_bound. lia. Qed.

Lemma at_prefix_out {A} p l (k : nat -> Z -> Z -> outcome unit A) : 128 <= p -> List.length l = 16%nat -> at_prefix p l k = Undef BadIndex.
Proof. intros Hp Hl. unfold at_prefix. rewrite lookup_ge_None_2; [done |]. rewrite Hl. pose proof (Z.div_le_mono 128 p 8 ltac:(lia) Hp). change (128 / 8) with 16 in H. lia. Qed.

(** Bit [i] after the byte of the prefix has become [c] and the rest [v]. *)
Lemma prefix_bits a p v c b i : List.length (s6_addr a) = 16%nat -> 0 <= p < 128 -> 0 <= i < 128 -> s6_addr a !! Z.to_nat (p / 8) = Some b ->
  bit6 (with_s6_addr (fill v (Z.to_nat (p / 8) + 1) (16 - (Z.to_nat (p / 8) + 1)) (<[Z.to_nat (p / 8) := c]> (s6_addr a))) a) i =
  if i / 8 <? p / 8 then bit6 a i else if p / 8 <? i / 8 then Z.testbit v (7 - i mod 8) else Z.testbit c (7 - i mod 8).
Proof.
  intros Hl Hp Hi Eb. unfold bit6. cbn [s6_addr with_s6_addr]. rewrite fill_lookup. assert (0 <= p / 8 < 16) by (split; [apply Z.div_pos | apply Z.div_lt_upper_bound]; lia). assert (0 <= i / 8 < 16) by (split; [apply Z.div_pos | apply Z.div_lt_upper_bound]; lia).
  destruct (lookup_lt_is_Some_2 (s6_addr a) (Z.to_nat (i / 8)) ltac:(lia)) as [x Ex].
  destruct (Nat.leb_spec (Z.to_nat (p / 8) + 1) (Z.to_nat (i / 8))), (Nat.ltb_spec (Z.to_nat (i / 8)) (Z.to_nat (p / 8) + 1 + (16 - (Z.to_nat (p / 8) + 1)))); try lia; cbn [andb].
  - rewrite list_lookup_insert_ne, Ex by lia. cbn. by rewrite (proj2 (Z.ltb_ge _ _)), (proj2 (Z.ltb_lt _ _)) by lia.
  - destruct (Z.ltb_spec (i / 8) (p / 8)); [by rewrite list_lookup_insert_ne by lia |]. rewrite (proj2 (Z.ltb_ge _ _)) by lia. replace (i / 8) with (p / 8) in * by lia. by rewrite list_lookup_insert_eq by lia.
Qed.

Lemma prefix_order p i : 0 <= p -> 0 <= i -> (p <=? i) = if i / 8 <? p / 8 then false else if p / 8 <? i / 8 then true else 7 - i mod 8 <? 8 - p mod 8.
Proof. intros Hp Hi. destruct (Z.leb_spec p i), (Z.ltb_spec (i / 8) (p / 8)), (Z.ltb_spec (p / 8) (i / 8)), (Z.ltb_spec (7 - i mod 8) (8 - p mod 8)); done || (exfalso; Z.to_euclidean_division_equations; lia). Qed.

Section v6.
Context (a : sockaddr_in6) (p : Z) (Hl : List.length (s6_addr a) = 16%nat) (Hp : 0 <= p < 128).

Lemma prefix_byte : exists b, s6_addr a !! Z.to_nat (p / 8) = Some b.
Proof. apply lookup_lt_is_Some_2. rewrite Hl. assert (p / 8 < 16) by (apply Z.div_lt_upper_bound; lia). lia. Qed.

Lemma broadcast6_bits : exists a', broadcastAddress6 p a = Ret a' tt /\ forall i, 0 <= i < 128 -> bit6 a' i = (p <=? i) || bit6 a i.
Proof.
  destruct prefix_byte as [b Eb]. unfold broadcastAddress6. rewrite (at_prefix_in p _ _ b) by (done || lia). eexists. split; [done |]. intros i Hi. rewrite (prefix_bits a p _ _ b i) by done. rewrite prefix_order by lia.
  assert (0 <= i mod 8 < 8) by (apply Z.mod_pos_bound; lia). assert (0 <= p mod 8 < 8) by (apply Z.mod_pos_bound; lia). destruct (Z.ltb_spec (i / 8) (p / 8)); [done |]. destruct (Z.ltb_spec (p / 8) (i / 8)).
  - change 255 with (2 ^ 8 - 1). rewrite mask_bit by lia. by rewrite (proj2 (Z.ltb_lt _ _)) by lia.
  - rewrite Z.lor_spec, mask_bit by lia. unfold bit6. replace (i / 8) with (p / 8) by lia. rewrite Eb. apply orb_comm.
Qed.

Lemma network6_bits : exists a', networkAddress6 p a = Ret a' tt /\ forall i, 0 <= i < 128 -> bit6 a' i = if i / 8 <? p / 8 then bit6 a i else if p / 8 <? i / 8 then false else (p <=? i) && bit6 a i.
Proof.
  destruct prefix_byte as [b Eb]. unfold networkAddress6. rewrite (at_prefix_in p _ _ b) by (done || lia). eexists. split; [done |]. intros i Hi. rewrite (prefix_bits a p _ _ b i) by done. rewrite prefix_order by lia.
  assert (0 <= i mod 8 < 8) by (apply Z.mod_pos_bound; lia). assert (0 <= p mod 8 < 8) by (apply Z.mod_pos_bound; lia). destruct (Z.ltb_spec (i / 8) (p / 8)); [done |]. destruct (Z.ltb_spec (p / 8) (i / 8)); [apply Z.testbit_0_l |].
  rewrite Z.land_spec, mask_bit by lia. unfold bit6. replace (i / 8) with (p / 8) by lia. rewrite Eb. apply andb_comm.
Qed.
End v6.

(** ** Comparison *)

(** What counts of an address. *)
Definition key (host : endian) (a : Address) : list Z := take (Z.to_nat (getAddrLen a)) (getAddr host a).

(** The length is not more than the memory there is. *)
Definition whole (host : endian) (a : Address) : Prop := 0 <= getAddrLen a <= Z.of_nat (List.length (getAddr host a)).

Lemma memcmp_lex n a b la lb : (n <= la)%nat -> (n <= lb)%nat -> (la <= List.length a)%nat -> (lb <= List.length b)%nat -> n = Nat.min la lb ->
  exists r, memcmp n a b = Ret r tt /\ lex_ltb (take la a) (take lb b) = (if r <? 0 then true else if 0 <? r then false else (la <? lb)%nat) /\ (r = 0 <-> take n a = take n b).
Proof.
  revert a b la lb. induction n as [|n IH]; intros a b la lb H1 H2 H3 H4 Hn; cbn [memcmp].
  - exists 0. split; [done |]. split; [| done]. destruct la as [|la], lb as [|lb]; try lia; destruct a, b; cbn in *; lia || done.
  - destruct a as [|x a]; [cbn in H3; lia |]. destruct b as [|y b]; [cbn in H4; lia |]. destruct la as [|la]; [lia |]. destruct lb as [|lb]; [lia |]. destruct (IH a b la lb) as (r & E & El & Ez); [lia | lia | cbn in H3; lia | cbn in H4; lia | lia |]. rewrite E. eexists. split; [done |]. cbn [take lex_ltb]. cbn [ltb Z_StrictOrd].
    destruct (Z.ltb_spec x y), (Z.ltb_spec y x); try lia; cbn [orb andb negb].
    + split; [done |]. split; [done | intros [=]; lia].
    + split; [done |]. split; [done | intros [=]; lia].
    + rewrite El. assert (x = y) as -> by lia. split; [done |]. rewrite Ez. split; [by intros -> | by intros [=]].
Qed.

Lemma lt_keys host a b : whole host a -> whole host b -> addr_lt host a b = Ret (lex_ltb (key host a) (key host b)) tt.
Proof.
  unfold whole. intros Ha Hb. unfold addr_lt, key. destruct (memcmp_lex (Z.to_nat (Z.min (getAddrLen a) (getAddrLen b))) (getAddr host a) (getAddr host b) (Z.to_nat (getAddrLen a)) (Z.to_nat (getAddrLen b))) as (r & -> & -> & _); [lia | lia | lia | lia | lia |].
  do 2 f_equal. destruct (r <? 0), (0 <? r); try done. destruct (Z.ltb_spec (getAddrLen a) (getAddrLen b)), (Nat.ltb_spec (Z.to_nat (getAddrLen a)) (Z.to_nat (getAddrLen b))); lia || done.
Qed.

Lemma eq_keys host a b : whole host a -> whole host b -> addr_eq host a b = Ret (bool_decide (key host a = key host b)) tt.
Proof.
  unfold whole. intros Ha Hb. unfold addr_eq, key. destruct (Z.eqb_spec (getAddrLen a) (getAddrLen b)) as [E | Hne]; cbn [negb].
  - destruct (memcmp_lex (Z.to_nat (getAddrLen a)) (getAddr host a) (getAddr host b) (Z.to_nat (getAddrLen a)) (Z.to_nat (getAddrLen b))) as (r & -> & _ & Ez); [lia | lia | lia | lia | lia |]. rewrite <- E. f_equal. apply eq_bool_prop_intro. rewrite bool_decide_spec, <- Ez. destruct (Z.eqb_spec r 0); cbn; tauto.
  - f_equal. symmetry. apply bool_decide_eq_false. intros E%(f_equal List.length). rewrite !length_take in E. lia.
Qed.

(** ** An address and its memory *)

(** Addresses as [Address_create] makes them. *)
Definition made (host : endian) (a : Address) : Prop :=
  match a with
  | IPv4Address a => sin_family a = AF_INET /\ in_u 16 (sin_port a) /\ in_u 32 (s_addr a) /\ List.length (sin_zero a) = 8%nat
  | IPv6Address a => sin6_family a = AF_INET6 /\ in_u 16 (sin6_port a) /\ in_u 32 (sin6_flowinfo a) /\ List.length (s6_addr a) = 16%nat /\ in_u 32 (sin6_scope_id a)
  | UnixAddress _ => False
  | UnknownAddress a => List.length a = 16%nat /\ field host a 0 2 <> AF_INET /\ field host a 0 2 <> AF_INET6
  end.

Lemma create_roundtrip host a : made host a -> Address_create host (getAddr host a) = Ret a tt.
Proof.
  assert (forall v, in_u 16 v -> of_mem host (mem_of host 2 v) = v) as H2 by (intros v Hv; by apply of_mem_of). assert (forall v, in_u 32 v -> of_mem host (mem_of host 4 v) = v) as H4 by (intros v Hv; by apply of_mem_of).
  assert (forall n v l, take n (mem_of host n v ++ l) = mem_of host n v) as Ht by (intros n v l; apply take_app_length'; symmetry; apply length_mem_of). assert (forall n v l k, drop (n + k) (mem_of host n v ++ l) = drop k l) as Hd by (intros n v l k; rewrite <- (length_mem_of host n v) at 1; apply drop_past).
  assert (forall n v l, drop n (mem_of host n v ++ l) = l) as Hd0 by (intros n v l; rewrite <- (Nat.add_0_r n) at 1; apply Hd).
  destruct a as [[f p s z] | [f p fl s sc] | a | a]; cbn [made getAddr]; cbn [sin_family sin_port s_addr sin_zero sin6_family sin6_port sin6_flowinfo s6_addr sin6_scope_id]; [| | done |].
  - intros (-> & Hp & Hs & Hz). unfold Address_create, field. rewrite drop_0, Ht, H2 by done. cbn [Z.eqb Pos.eqb AF_INET]. rewrite !length_app, !length_mem_of, Hz. cbn [Nat.add Nat.ltb Nat.leb].
    rewrite (Hd0 2%nat), Ht, (Hd 2%nat _ _ 2%nat), (Hd 2%nat _ _ 6%nat), (Hd0 2%nat), (Hd 2%nat _ _ 4%nat), (Hd0 4%nat), Ht, H2, H4, take_ge by (done || lia). done.
  - intros (-> & Hp & Hf & Hs & Hc). unfold Address_create, field. rewrite drop_0, Ht, H2 by done. cbn [Z.eqb Pos.eqb AF_INET AF_INET6]. rewrite !length_app, !length_mem_of, Hs. cbn [Nat.add Nat.ltb Nat.leb].
    rewrite (Hd0 2%nat), Ht, (Hd 2%nat _ _ 2%nat), (Hd 2%nat _ _ 6%nat), (Hd 2%nat _ _ 22%nat), (Hd0 2%nat), (Hd 2%nat _ _ 4%nat), (Hd 2%nat _ _ 20%nat), (Hd0 4%nat), (Hd 4%nat _ _ 16%nat), Ht, H2, H4 by done.
    rewrite (take_app_length' s), (drop_app_length' s) by done. rewrite take_ge by (by rewrite length_mem_of). by rewrite H4.
  - intros (Hl & N1 & N2). unfold Address_create. apply Z.eqb_neq in N1, N2. rewrite N1, N2, Hl, take_ge by lia. done.
Qed.

(** ** Paths *)

Lemma path_roundtrip path a : new_UnixAddress path = Ret a tt -> Z.of_nat (List.length path) < 2 ^ 32 - 1 -> path <> [] -> 0 ∉ path -> getPath a = Ret path tt /\ (List.length path <= 107)%nat /\ Z.of_nat (List.length (sun_path a)) = path_size /\ un_length a <= 2 + path_size.
Proof.
  intros E Hn Hne H0. unfold new_UnixAddress in E. rewrite bool_decide_eq_false_2 in E by (destruct path as [|c path]; [done | intros [= ->]; apply H0, list_elem_of_here]).
  assert (u32 (Z.of_nat (List.length path) + 1) = Z.of_nat (List.length path) + 1) as Eu by (unfold u32; rewrite uwrap_id; unfold in_u; lia). rewrite Eu in E. destruct (Z.ltb_spec path_size (Z.of_nat (List.length path) + 1)) as [|Hs]; [done |]. injection E as <-. unfold path_size in *.
  rewrite take_ge by (rewrite length_app; cbn; lia). cbn [sun_path un_length]. split; [| split; [lia | split; [rewrite !length_app, length_replicate; cbn; lia | unfold path_offset; lia]]].
  unfold getPath. cbn [sun_path un_length]. destruct path as [|c path]; [done |].
  rewrite (bool_decide_eq_false_2 (head _ = Some 0)) by (cbn; intros [= ->]; apply H0, list_elem_of_here). rewrite andb_false_r. unfold c_string. rewrite <- app_assoc. cbn [app]. change (c :: path ++ 0 :: ?l) with ((c :: path) ++ 0 :: l). rewrite find_char_here.
  - by rewrite take_app_length.
  - unfold free. apply Forall_forall. intros x Hx. apply Z.eqb_neq. intros ->. by apply H0, list_elem_of_In.
  - done.
Qed.

(** ** Parts of a host name *)

(** No colon; with or without brackets; [n : s]; more than one colon. *)
Definition plain (c : Z) (l : list Z) : Prop := free (fun x => x =? c) l.

Lemma parts_bracket a s : a <> [] -> plain 93 a -> host_parts (91 :: a ++ 93 :: s) = (a, match s with 58 :: service => Some service | _ => None end).
Proof.
  intros Hne Ha. unfold host_parts. rewrite find_char_here by done. rewrite take_app_length, Nat.add_1_r. replace (drop (S (List.length a)) (a ++ 93 :: s)) with s by (rewrite <- Nat.add_1_r, drop_past; done). by rewrite !bool_decide_eq_false_2.
Qed.

Lemma parts_tail name : head name <> Some 91 -> host_parts name =
  let '(node, service) :=
    match find_char (fun c => c =? 58) name with
    | Some k => let after := drop (k + 1) name in if bool_decide (is_Some (find_char (fun c => c =? 58) after)) then ([], Some (58 :: after)) else (take k name, Some after)
    | None => ([], None)
    end in (if bool_decide (node = []) then name else node, service).
Proof.
  intros Hh. unfold host_parts. destruct name as [|c name]; [done |].
  assert (match c :: name with 91 :: rest => match find_char (fun c => c =? 93) rest with Some k => (take k rest, match drop (k + 1) rest with 58 :: s => Some s | _ => None end) | None => ([], None) end | _ => ([], None) end = (@nil Z, @None (list Z))) as ->; [| done].
  destruct (decide (c = 91)) as [-> | Hc]; [done |]. by repeat (case_match; try done).
Qed.

Lemma parts_plain name : head name <> Some 91 -> plain 58 name -> host_parts name = (name, None).
Proof. intros Hh Hn. rewrite parts_tail, find_char_none by done. by rewrite bool_decide_eq_true_2. Qed.

Lemma parts_port n s : head (n ++ 58 :: s) <> Some 91 -> plain 58 n -> plain 58 s -> host_parts (n ++ 58 :: s) = (if bool_decide (n = []) then 58 :: s else n, Some s).
Proof.
  intros Hh Hn Hs. rewrite parts_tail, find_char_here by done. replace (drop (List.length n + 1) (n ++ 58 :: s)) with s by (by rewrite drop_past). cbn zeta. rewrite (find_char_none _ s Hs), bool_decide_eq_false_2 by (by intros [? ?]). rewrite take_app_length. by destruct n.
Qed.

Lemma parts_colons n s : head (n ++ 58 :: s) <> Some 91 -> plain 58 n -> 58 ∈ s -> host_parts (n ++ 58 :: s) = (n ++ 58 :: s, Some (58 :: s)).
Proof.
  intros Hh Hn Hs. rewrite parts_tail, find_char_here by done. replace (drop (List.length n + 1) (n ++ 58 :: s)) with s by (by rewrite drop_past). cbn zeta. rewrite (bool_decide_eq_true_2 (is_Some _)); [by rewrite bool_decide_eq_true_2 |].
  destruct (find_char_cases (fun c => c =? 58) s) as [[H _] | (? & ? & ? & _ & _ & _ & ->)]; [| by eexists]. unfold free in H. rewrite Forall_forall in H. specialize (H 58 (proj1 (list_elem_of_In _ _) Hs)). done.
Qed.

(** ** Printing *)

Section print.
Context (host : endian).

Definition group_text (g : Z) : list Z := print_num 16 (byteswapOnLittleEndian host 2 g).
Definition joined (l : list Z) : list Z := match l with [] => [] | g :: l => group_text g ++ (l ≫= (fun g => 58 :: group_text g)) end.

Lemma loop_used prev l : insert_loop host (Some prev) true l = (l ≫= (fun g => 58 :: group_text g), true).
Proof. revert prev. induction l as [|g l IH]; intros prev; [done |]. cbn [insert_loop]. rewrite andb_false_r. cbn [negb]. rewrite andb_false_r. cbn [orb]. by rewrite IH. Qed.

Lemma loop_zeros prev n post : insert_loop host prev false (replicate (S n) 0 ++ post) = insert_loop host (Some 0) false post.
Proof. revert prev. induction n as [|n IH]; intros prev; [done |]. change (replicate (S (S n)) 0 ++ post) with (0 :: replicate (S n) 0 ++ post). cbn [insert_loop]. apply IH. Qed.

Lemma loop_more x pre l : x <> 0 -> Forall (fun g => g <> 0) pre ->
  insert_loop host (Some x) false (pre ++ l) = let '(out, used) := insert_loop host (Some (default x (list.last pre))) false l in ((pre ≫= (fun g => 58 :: group_text g)) ++ out, used).
Proof.
  intros Hx Hp. revert x Hx. induction Hp as [|g pre Hg _ IH]; intros x Hx; [cbn; by destruct (insert_loop host (Some x) false l) |].
  cbn [app insert_loop]. apply Z.eqb_neq in Hg as Hg'. rewrite Hg'. cbn [andb]. rewrite bool_decide_eq_false_2 by congruence. cbn [andb orb]. rewrite IH by done. rewrite list.last_cons. replace (default x (match list.last pre with Some y => Some y | None => Some g end)) with (default g (list.last pre)) by (by destruct (list.last pre)).
  destruct (insert_loop host (Some (default g (list.last pre))) false l) as [out used]. cbn [mbind list_bind]. change (text ":") with [58]. f_equal. unfold group_text. cbn [app]. by rewrite <- app_assoc.
Qed.

(** The first run of zero groups is left out. *)
Lemma insert6_gap a pre n post : groups_of host (s6_addr a) = pre ++ replicate (S n) 0 ++ post -> List.length (s6_addr a) = 16%nat -> Forall (fun g => g <> 0) pre -> head post <> Some 0 ->
  insert6 host a = text "[" ++ joined pre ++ text "::" ++ joined post ++ text "]:" ++ print_num 10 (getPort6 host a).
Proof.
  intros E Hl Hp Hh. assert (List.length (groups_of host (s6_addr a)) = 8%nat) as H8 by (destruct a as [f p fl s sc]; cbn [s6_addr] in *; do 16 (destruct s as [|? s]; [done |]); by destruct s).
  unfold insert6, getPort6. rewrite E in *. assert (exists prev, insert_loop host None false (pre ++ replicate (S n) 0 ++ post) = let '(out, used) := insert_loop host prev false (replicate (S n) 0 ++ post) in (joined pre ++ out, used)) as [prev ->].
  { destruct pre as [|g pre]; [exists None; cbn [app joined]; by destruct (insert_loop host None false _) |]. apply list.Forall_cons in Hp as [Hg Hp]. exists (Some (default g (list.last pre))). cbn [app insert_loop]. apply Z.eqb_neq in Hg as Hg'. rewrite Hg'. cbn [andb]. rewrite bool_decide_eq_false_2 by done. cbn [andb orb]. rewrite loop_more by done.
    destruct (insert_loop host (Some (default g (list.last pre))) false _) as [out used]. cbn [joined app]. unfold group_text. by rewrite <- app_assoc. }
  rewrite loop_zeros. destruct post as [|g post]; cbn [insert_loop].
  - rewrite bool_decide_eq_true_2; [cbn [joined]; rewrite app_nil_r; done |]. rewrite !length_app, length_replicate in H8. cbn [List.length] in H8. rewrite app_nil_r, lookup_app_r, lookup_replicate by lia. split; [done | lia].
  - assert (g <> 0) as Hg by (intros ->; done). apply Z.eqb_neq in Hg. rewrite Hg. cbn [andb negb]. rewrite bool_decide_eq_true_2 by done. cbn [andb orb]. rewrite loop_used. cbn [joined negb andb]. change (text "::") with (text ":" ++ text ":"). unfold group_text. by rewrite <- !app_assoc.
Qed.

Lemma insert6_full a : List.length (s6_addr a) = 16%nat -> Forall (fun g => g <> 0) (groups_of host (s6_addr a)) -> insert6 host a = text "[" ++ joined (groups_of host (s6_addr a)) ++ text "]:" ++ print_num 10 (getPort6 host a).
Proof.
  intros Hl Hp. unfold insert6, getPort6. rewrite (bool_decide_eq_false_2 (_ !! 7%nat = Some 0)) by (intros E; rewrite Forall_lookup in Hp; by apply Hp in E).
  destruct (groups_of host (s6_addr a)) as [|g l]; [done |]. apply list.Forall_cons in Hp as [Hg Hp]. cbn [insert_loop]. apply Z.eqb_neq in Hg as Hg'. rewrite Hg'. cbn [andb]. rewrite bool_decide_eq_false_2 by done. cbn [andb orb].
  rewrite <- (app_nil_r l) at 1. rewrite loop_more by done. cbn [insert_loop joined]. rewrite app_nil_r, andb_false_r. unfold group_text. done.
Qed.
End print.

(** ** Counting *)

Fixpoint pos_ones (p : positive) : nat := match p with xH => 1 | xO p => pos_ones p | xI p => S (pos_ones p) end.
Definition ones_in (v : Z) : nat := match v with Zpos p => pos_ones p | _ => 0 end.

Lemma drop_lowest p : 0 <= Z.land (Zpos p) (Zpos p - 1) /\ S (ones_in (Z.land (Zpos p) (Zpos p - 1))) = pos_ones p.
Proof.
  induction p as [p IH | p IH |]; [| | done].
  - replace (Zpos p~1 - 1) with (Zpos p~0) by lia. assert (Z.land (Zpos p~1) (Zpos p~0) = Zpos p~0) as ->; [| by cbn]. change (Zpos p~0) with (2 * Zpos p). change (Zpos p~1) with (2 * Zpos p + 1). apply Z.bits_inj'. intros i Hi. rewrite Z.land_spec. destruct (decide (i = 0)) as [-> |].
    + by rewrite Z.testbit_even_0, andb_false_r.
    + replace i with (Z.succ (i - 1)) by lia. rewrite Z.testbit_odd_succ, Z.testbit_even_succ by lia. apply andb_diag.
  - assert (Z.land (Zpos p~0) (Zpos p~0 - 1) = 2 * Z.land (Zpos p) (Zpos p - 1)) as ->.
    { change (Zpos p~0) with (2 * Zpos p). replace (2 * Zpos p - 1) with (2 * (Zpos p - 1) + 1) by lia. apply Z.bits_inj'. intros i Hi. rewrite Z.land_spec. destruct (decide (i = 0)) as [-> |]; [by rewrite !Z.testbit_even_0 |].
      replace i with (Z.succ (i - 1)) by lia. by rewrite Z.testbit_odd_succ, !Z.testbit_even_succ, Z.land_spec by lia. }
    destruct IH as [H0 IH]. split; [lia |]. cbn [pos_ones]. rewrite <- IH. by destruct (Z.land (Zpos p) (Zpos p - 1)).
Qed.

Lemma countBytes_spec fuel v : 0 <= v -> (ones_in v <= fuel)%nat -> countBytes fuel v = Some (Z.of_nat (ones_in v)).
Proof.
  revert v. induction fuel as [|fuel IH]; intros v Hv Hf; destruct v as [|p|p]; try lia; try done; destruct (drop_lowest p) as [H0 E]; cbn [ones_in] in Hf; [lia |].
  cbn [countBytes Z.eqb]. rewrite IH by (done || lia). cbn. f_equal. rewrite <- E. lia.
Qed.

Lemma ones_bound (n : nat) v : in_u (Z.of_nat n) v -> (ones_in v <= n)%nat.
Proof.
  intros [Hv Hn]. destruct v as [|p|p]; cbn [ones_in]; try lia. revert n Hn. induction p as [p IH | p IH |]; intros n Hn; cbn [pos_ones]; (destruct n as [|n]; [cbn in Hn; lia |]); rewrite Nat2Z.inj_succ, Z.pow_succ_r in Hn by lia; [specialize (IH ltac:(lia) n ltac:(lia)) | specialize (IH ltac:(lia) n ltac:(lia)) |]; lia.
Qed.

(** ** Claims *)

(** C34: networks of an address with a prefix of [p] bits, bit by bit.  The
    broadcast address has the bits from [p] on set, and the netmask the bits
    before [p], from which an interface's prefix length is counted again.  The
    network address of IPv4 keeps the bits from [p] on and clears those before,
    and that of IPv6 does this in the byte that holds bit [p].  IPv4 prefixes of
    0 and 1 are undefined (a shift by 32 bits and an overflow), those above 32
    are refused or, for the netmask, undefined; IPv6 prefixes from 128 on go
    beyond the address. *)
Theorem networks (host : endian) (a4 : sockaddr_in) (a6 : sockaddr_in6) (p : Z) : in_u 32 p -> List.length (s6_addr a6) = 16%nat ->
  (2 <= p <= 32 -> exists b n m,
    broadcastAddress4 host p a4 = Ret (Some b) tt /\ networkAddress4 host p a4 = Ret (Some n) tt /\ subnetMask4 host p = Ret m tt /\ prefix_len4 (s_addr m) = Some p /\
    forall i, 0 <= i < 32 -> bit4 host b i = (p <=? i) || bit4 host a4 i /\ bit4 host n i = (p <=? i) && bit4 host a4 i /\ bit4 host m i = (i <? p)) /\
  (p < 2 -> exists u, broadcastAddress4 host p a4 = Undef u /\ networkAddress4 host p a4 = Undef u /\ subnetMask4 host p = Undef u) /\
  (32 < p -> broadcastAddress4 host p a4 = Ret None tt /\ networkAddress4 host p a4 = Ret None tt /\ subnetMask4 host p = Undef BadShift) /\
  (p < 128 -> exists b n m,
    broadcastAddress6 p a6 = Ret b tt /\ networkAddress6 p a6 = Ret n tt /\ subnetMask6 p = Ret m tt /\ prefix_len6 (s6_addr m) = Some p /\
    forall i, 0 <= i < 128 -> bit6 b i = (p <=? i) || bit6 a6 i /\ bit6 n i = (if i / 8 <? p / 8 then bit6 a6 i else if p / 8 <? i / 8 then false else (p <=? i) && bit6 a6 i) /\ bit6 m i = (i <? p)) /\
  (128 <= p -> broadcastAddress6 p a6 = Undef BadIndex /\ networkAddress6 p a6 = Undef BadIndex /\ subnetMask6 p = Undef BadIndex) /\
  (forall netmask, in_u 32 netmask -> prefix_len4 netmask = Some (Z.of_nat (ones_in netmask))).
Proof.
  intros Hp Hl. split; [| split; [| split; [| split; [| split]]]].
  - intros H. destruct (broadcast4_bits host p a4 H) as (b & Eb & Hb). destruct (network4_bits host p a4 H) as (n & En & Hn). destruct (subnet4_bits host p H) as (m & Em & Hm & Hc). exists b, n, m. repeat (split; [done |]). intros i Hi. split; [by apply Hb | split; [by apply Hn | by apply Hm]].
  - intros H. destruct Hp as [Hp _]. assert (p = 0 \/ p = 1) as [-> | ->] by lia; by eexists.
  - intros H. unfold broadcastAddress4, networkAddress4, subnetMask4, with_mask, createMask. rewrite (proj2 (Z.ltb_lt 32 p) H). assert (u64 (32 - p) = 32 - p + 2 ^ 64) as -> by (unfold u64, uwrap, in_u in *; symmetry; apply Z.mod_unique with (-1); lia). unfold in_u in Hp. by rewrite (proj2 (Z.ltb_lt 31 _)) by lia.
  - intros H. assert (0 <= p < 128) as H' by (destruct Hp; lia). destruct (broadcast6_bits a6 p Hl H') as (b & Eb & Hb). destruct (network6_bits a6 p Hl H') as (n & En & Hn). destruct (subnet6_bits p H') as (m & Em & Hm & Hc). exists b, n, m. repeat (split; [done |]). intros i Hi. split; [by apply Hb | split; [by apply Hn | by apply Hm]].
  - intros H. unfold broadcastAddress6, networkAddress6, subnetMask6. by rewrite !at_prefix_out.
  - intros netmask Hn. apply countBytes_spec; [by destruct Hn | by apply (ones_bound 32)].
Qed.

Lemma networks_witness : in_u 32 24 /\ exists n, networkAddress4 LITTLE_ENDIAN 24 (new_IPv4Address LITTLE_ENDIAN 3232235777 80) = Ret (Some n) tt /\ bit4 LITTLE_ENDIAN n 0 = false /\ bit4 LITTLE_ENDIAN n 31 = true.
Proof.
  split; [done |]. destruct (networks LITTLE_ENDIAN (new_IPv4Address LITTLE_ENDIAN 3232235777 80) any_IPv6Address 24 ltac:(done) ltac:(done)) as [H _]. destruct (H ltac:(lia)) as (b & n & m & _ & En & _ & _ & Hbits). exists n. split; [done |].
  destruct (Hbits 0 ltac:(lia)) as (_ & -> & _). destruct (Hbits 31 ltac:(lia)) as (_ & -> & _). by vm_compute.
Defined.

(** Addresses as values: [operator<] and [operator==] are the lexicographic order
    and the equality of the bytes that count, so they agree with each other and
    make a strict total order; an address is made again from its memory; the
    text of an IPv6 address leaves out exactly the first run of zero groups. *)
Theorem addresses_as_values (host : endian) :
  (forall a b, whole host a -> whole host b -> addr_lt host a b = Ret (lex_ltb (key host a) (key host b)) tt /\ addr_eq host a b = Ret (bool_decide (key host a = key host b)) tt) /\
  (forall a, made host a -> Address_create host (getAddr host a) = Ret a tt) /\
  (forall a pre n post, groups_of host (s6_addr a) = pre ++ replicate (S n) 0 ++ post -> List.length (s6_addr a) = 16%nat -> Forall (fun g => g <> 0) pre -> head post <> Some 0 ->
    insert6 host a = text "[" ++ joined host pre ++ text "::" ++ joined host post ++ text "]:" ++ print_num 10 (getPort6 host a)).
Proof.
  split; [| split].
  - intros a b Ha Hb. split; [by apply lt_keys | by apply eq_keys].
  - intros a. apply create_roundtrip.
  - intros a pre n post. apply insert6_gap.
Qed.

(** The parts of a host name, [[node]:service], [node:service] and [node].  A
    name with more colons and without brackets, an IPv6 address, keeps its tail
    from the first colon on as the service; of [:service] the node is the whole
    name. *)
Theorem host_names :
  (forall a s, a <> [] -> plain 93 a -> host_parts (91 :: a ++ 93 :: s) = (a, match s with 58 :: service => Some service | _ => None end)) /\
  (forall name, head name <> Some 91 -> plain 58 name -> host_parts name = (name, None)) /\
  (forall n s, head (n ++ 58 :: s) <> Some 91 -> plain 58 n -> plain 58 s -> host_parts (n ++ 58 :: s) = (if bool_decide (n = []) then 58 :: s else n, Some s)) /\
  (forall n s, head (n ++ 58 :: s) <> Some 91 -> plain 58 n -> 58 ∈ s -> host_parts (n ++ 58 :: s) = (n ++ 58 :: s, Some (58 :: s))).
Proof. split; [apply parts_bracket | split; [apply parts_plain | split; [apply parts_port | apply parts_colons]]]. Qed.
