(* ===== verification/FloatBounds.v ===== *)
(** * Bounds of floating-point results

    [SpecFloat] of the standard library defines the operations of IEEE 754 with
    rounding to nearest on numbers [m * 2^e].  Here: an operation whose exact
    result is at most [c * 2^k], with [c] below [2^prec], gives a finite number
    that is at most [c * 2^k]; and integers below [2^prec] are represented
    exactly.  The weights of the load balancer are bounded with it. *)

From stdpp Require Import base list numbers option.
From Stdlib Require Import ZArith Lia SpecFloat.
From S2P Require Import Prelude.

Local Open Scope Z_scope.

(** ** Numbers of the form [m * 2^e] *)

(** [m * 2^e <= c * 2^k] *)
Definition le_bnd (m e c k : Z) : Prop := m * 2 ^ (e - Z.min e k) <= c * 2 ^ (k - Z.min e k).

Lemma pow_split a b : 0 <= b <= a -> 2 ^ a = 2 ^ (a - b) * 2 ^ b.
Proof. intros H. rewrite <- Z.pow_add_r by lia. f_equal. lia. Qed.

Lemma le_bnd_at j m e c k : j <= e -> j <= k -> le_bnd m e c k <-> m * 2 ^ (e - j) <= c * 2 ^ (k - j).
Proof.
  intros He Hk. unfold le_bnd. set (i := Z.min e k). assert (j <= i) by lia. rewrite (pow_split (e - j) (i - j)), (pow_split (k - j) (i - j)) by lia.
  replace (e - j - (i - j)) with (e - i) by lia. replace (k - j - (i - j)) with (k - i) by lia. pose proof (Z.pow_pos_nonneg 2 (i - j)). nia.
Qed.

Lemma digits_bounds p : 2 ^ (Z.pos (digits2_pos p) - 1) <= Z.pos p < 2 ^ Z.pos (digits2_pos p).
Proof.
  assert (forall q, 2 ^ Z.pos (Pos.succ q) = 2 * 2 ^ Z.pos q /\ 2 ^ (Z.pos (Pos.succ q) - 1) = 2 * 2 ^ (Z.pos q - 1)) as Hs.
  { intros q. rewrite Pos2Z.inj_succ. split; [by rewrite Z.pow_succ_r by lia |]. rewrite <- Z.pow_succ_r by lia. f_equal. lia. }
  induction p as [p IH | p IH |]; cbn [digits2_pos]; [destruct (Hs (digits2_pos p)) as [-> ->]; lia | destruct (Hs (digits2_pos p)) as [-> ->]; lia | done].
Qed.

Lemma Zdigits2_bounds m : 0 < m -> 2 ^ (Zdigits2 m - 1) <= m < 2 ^ Zdigits2 m.
Proof. destruct m as [|p|p]; [lia | intros _; apply digits_bounds | lia]. Qed.

Lemma Zdigits2_nonneg m : 0 <= Zdigits2 m.
Proof. by destruct m. Qed.

Lemma Zdigits2_unique m d : 2 ^ (d - 1) <= m < 2 ^ d -> 0 < d -> Zdigits2 m = d.
Proof.
  intros Hm Hd. assert (0 < m) as Hpos by (pose proof (Z.pow_pos_nonneg 2 (d - 1)); lia). destruct (Zdigits2_bounds m Hpos) as [B1 B2]. pose proof (Zdigits2_nonneg m).
  assert (Zdigits2 m - 1 < d) by (apply (Z.pow_lt_mono_r_iff 2); lia). assert (d - 1 < Zdigits2 m) by (apply (Z.pow_lt_mono_r_iff 2); lia). lia.
Qed.

Lemma Zdigits2_shift m n : 0 < m -> 0 <= n -> Zdigits2 (m * 2 ^ n) = Zdigits2 m + n.
Proof.
  intros Hm Hn. destruct (Zdigits2_bounds m Hm) as [B1 B2]. pose proof (Z.pow_pos_nonneg 2 n). assert (0 < Zdigits2 m) by (destruct m; cbn; lia). apply Zdigits2_unique; [| lia].
  replace (Zdigits2 m + n - 1) with (Zdigits2 m - 1 + n) by lia. rewrite !Z.pow_add_r by lia. nia.
Qed.

(** The operations on integers as [SpecFloat] names them. *)
Ltac std_int :=
  change IntDef.Z.add with Z.add in *; change IntDef.Z.sub with Z.sub in *; change IntDef.Z.opp with Z.opp in *; change IntDef.Z.mul with Z.mul in *;
  change IntDef.Z.min with Z.min in *; change IntDef.Z.max with Z.max in *; change IntDef.Z.shiftl with Z.shiftl in *; change IntDef.Z.div_eucl with Z.div_eucl in *.

(** *** Shifting *)

(** The least integer that is not below what the record stands for. *)
Definition ceil (r : shr_record) : Z := shr_m r + (if shr_r r || shr_s r then 1 else 0).

Lemma shr_1_spec r : 0 <= shr_m r -> shr_m (shr_1 r) = shr_m r / 2 /\ ceil (shr_1 r) = (ceil r + 1) / 2.
Proof.
  unfold ceil. destruct r as [m br bs]. cbn [shr_m shr_r shr_s]. intros Hm. destruct m as [|[p|p|]|p]; [| | | | lia]; destruct br, bs; cbn -[Z.div Z.add Z.mul]; (split; Z.to_euclidean_division_equations; lia).
Qed.

Lemma iter_shr p : forall r, 0 <= shr_m r -> shr_m (iter_pos shr_1 p r) = shr_m r / 2 ^ Z.pos p /\ forall b, ceil r <= b * 2 ^ Z.pos p -> ceil (iter_pos shr_1 p r) <= b.
Proof.
  induction p as [p IH | p IH |]; intros r Hr; cbn [iter_pos].
  - destruct (shr_1_spec r Hr) as [E1 C1]. destruct (IH (shr_1 r)) as [E2 C2]; [rewrite E1; apply Z.div_pos; lia |]. destruct (IH (iter_pos shr_1 p (shr_1 r))) as [E3 C3]; [rewrite E2, E1; apply Z.div_pos; [apply Z.div_pos; lia | lia] |].
    assert (2 ^ Z.pos p~1 = 2 * (2 ^ Z.pos p * 2 ^ Z.pos p)) as Ep by (rewrite Pos2Z.inj_xI, Z.add_1_r, Z.pow_succ_r, <- Z.pow_add_r by lia; do 2 f_equal; lia). split.
    + rewrite E3, E2, E1, !Z.div_div by lia. f_equal. rewrite Ep. ring.
    + intros b Hb. apply C3, C2. rewrite C1. rewrite Ep in Hb. set (x := b * 2 ^ Z.pos p * 2 ^ Z.pos p). assert (ceil r <= 2 * x) by (unfold x; lia). Z.to_euclidean_division_equations. lia.
  - destruct (IH r Hr) as [E2 C2]. destruct (IH (iter_pos shr_1 p r)) as [E3 C3]; [rewrite E2; apply Z.div_pos; lia |].
    assert (2 ^ Z.pos p~0 = 2 ^ Z.pos p * 2 ^ Z.pos p) as Ep by (rewrite Pos2Z.inj_xO, <- Z.pow_add_r by lia; f_equal; lia). split.
    + rewrite E3, E2, Z.div_div by lia. f_equal. rewrite Ep. ring.
    + intros b Hb. apply C3, C2. lia.
  - destruct (shr_1_spec r Hr) as [E1 C1]. split; [done |]. intros b Hb. rewrite C1. Z.to_euclidean_division_equations. lia.
Qed.

Lemma shr_spec r e n : 0 <= shr_m r ->
  let '(r', e') := shr r e n in e' = e + Z.max 0 n /\ shr_m r' = shr_m r / 2 ^ Z.max 0 n /\ (forall b, ceil r <= b * 2 ^ Z.max 0 n -> ceil r' <= b) /\ (n <= 0 -> r' = r).
Proof.
  intros Hr. destruct (Z.leb_spec n 0) as [Hn | Hn].
  - assert (shr r e n = (r, e)) as -> by (by destruct n). rewrite Z.max_l, Z.pow_0_r, Z.div_1_r by done. split_and!; try done; [lia | intros b; lia].
  - destruct n as [|p|p]; [lia | | lia]. rewrite Z.max_r by lia. destruct (iter_shr p r Hr) as [E C]. cbn [shr]. split_and!; try done.
Qed.

Definition exact (l : location) : bool := match l with loc_Exact => true | _ => false end.
Definition up (m : Z) (l : location) : Z := m + (if exact l then 0 else 1).

Lemma record_of_loc m l : shr_m (shr_record_of_loc m l) = m /\ ceil (shr_record_of_loc m l) = up m l.
Proof. unfold ceil, up. destruct l as [|[| |]]; done. Qed.

Lemma rne_bounds r : shr_m r <= round_nearest_even (shr_m r) (loc_of_shr_record r) <= ceil r.
Proof. unfold ceil. destruct r as [m [|] [|]]; cbn -[Z.add]; try lia. destruct (Z.even m); lia. Qed.

(** ** Rounding *)

Section Bounds.
Context (prec emax : Z) (Hprec : 0 < prec) (Hemax : 2 * prec + 3 <= emax).

(** The number between [m] and [up m l], times [2^e], is at most [c * 2^k]. *)
Definition bounded_by (m : Z) (l : location) (e c k : Z) : Prop := if e <=? k then up m l <= c * 2 ^ (k - e) else exact l = true /\ m * 2 ^ (e - k) <= c.

Lemma bounded_exact m e c k : bounded_by m loc_Exact e c k <-> le_bnd m e c k.
Proof.
  unfold bounded_by, up. cbn [exact]. rewrite Z.add_0_r. destruct (Z.leb_spec e k).
  - rewrite (le_bnd_at e) by lia. rewrite Z.sub_diag, Z.mul_1_r. done.
  - rewrite (le_bnd_at k) by lia. rewrite Z.sub_diag, Z.mul_1_r. tauto.
Qed.

(** Where the exponent goes. *)
Lemma fexp_bound m l e c k : 0 <= m -> 0 < c < 2 ^ prec -> 0 <= k -> bounded_by m l e c k ->
  (e <= k -> fexp prec emax (Zdigits2 m + e) <= k) /\ (k < e -> fexp prec emax (Zdigits2 m + e) <= e /\ (m = 0 \/ e < k + prec)).
Proof.
  intros Hm Hc Hk Hb. unfold fexp, emin, bounded_by in *. destruct (decide (m = 0)) as [-> | Hne].
  - cbn [Zdigits2]. destruct (Z.leb_spec e k); lia.
  - destruct (Zdigits2_bounds m ltac:(lia)) as [Hd _]. pose proof (Zdigits2_nonneg m). assert (0 < Zdigits2 m) by (destruct m; cbn; lia). destruct (Z.leb_spec e k).
    + assert (m < 2 ^ prec * 2 ^ (k - e)) as Hlt by (unfold up in Hb; destruct (exact l); pose proof (Z.pow_pos_nonneg 2 (k - e)); nia).
      rewrite <- Z.pow_add_r in Hlt by lia. assert (Zdigits2 m - 1 < prec + (k - e)) by (apply (Z.pow_lt_mono_r_iff 2); lia). lia.
    + destruct Hb as [_ Hb]. assert (2 ^ (Zdigits2 m - 1 + (e - k)) < 2 ^ prec) as Hlt by (rewrite Z.pow_add_r by lia; pose proof (Z.pow_pos_nonneg 2 (e - k)); nia).
      apply Z.pow_lt_mono_r_iff in Hlt; lia.
Qed.

(** One shift to the format. *)
Lemma shr_fexp_spec m l e c k : 0 <= m -> 0 < c < 2 ^ prec -> 0 <= k -> k + 2 * prec <= emax -> bounded_by m l e c k ->
  let '(r, e') := shr_fexp prec emax m e l in
  0 <= shr_m r <= m /\ shr_m r < 2 ^ prec /\ (forall x, shr_m r <= x <= ceil r -> bounded_by x loc_Exact e' c k) /\ (m = 0 \/ e' <= emax - prec).
Proof.
  intros Hm Hc Hk Hke Hb. destruct (fexp_bound m l e c k Hm Hc Hk Hb) as [Hf He]. unfold shr_fexp. destruct (record_of_loc m l) as [Er Ec].
  set (n := fexp prec emax (Zdigits2 m + e) - e). pose proof (shr_spec (shr_record_of_loc m l) e n ltac:(lia)) as Hs. destruct (shr _ e n) as [r e']. rewrite Er, Ec in Hs. destruct Hs as (Ee & Em & Hceil & Hid).
  pose proof (Z.pow_pos_nonneg 2 (Z.max 0 n)) as Hp. split_and!.
  - rewrite Em. apply Z.div_pos; lia.
  - rewrite Em. apply Z.div_le_upper_bound; nia.
  - rewrite Em. apply Z.div_lt_upper_bound; [lia |]. destruct (decide (m = 0)) as [-> | Hne]; [lia |]. destruct (Zdigits2_bounds m ltac:(lia)) as [_ Hd]. pose proof (Zdigits2_nonneg m).
    eapply Z.lt_le_trans; [exact Hd |]. rewrite <- Z.pow_add_r by lia. apply Z.pow_le_mono_r; [lia |]. unfold n, fexp. lia.
  - intros x Hx. apply bounded_exact. unfold bounded_by in Hb. destruct (Z.leb_spec e k) as [Hek | Hek].
    + assert (e' <= k) as He' by lia. apply (le_bnd_at e'); [lia | lia |]. rewrite Z.sub_diag, Z.mul_1_r. etransitivity; [apply Hx |]. apply Hceil. etransitivity; [exact Hb |].
      rewrite <- Z.mul_assoc, <- Z.pow_add_r by lia. replace (k - e' + Z.max 0 n) with (k - e) by lia. lia.
    + destruct Hb as [Hx' Hb]. rewrite Hid in Hx by lia. assert (e' = e) as -> by lia. rewrite Ec, Er in Hx. unfold up in Hx. rewrite Hx' in Hx. apply (le_bnd_at k); [lia | lia |]. rewrite Z.sub_diag, Z.mul_1_r. replace x with m by lia. done.
  - destruct (decide (m = 0)); [by left |]. right. unfold fexp, emin in *. lia.
Qed.

(** A result that is at most [c * 2^k]. *)
Definition small (c k : Z) (x : spec_float) : Prop :=
  match x with
  | S754_zero _ => True
  | S754_finite _ m e => Z.pos m < 2 ^ prec /\ le_bnd (Z.pos m) e c k
  | _ => False
  end.

Definition nonneg (x : spec_float) : Prop := match x with S754_finite s _ _ => s = false | _ => True end.

Lemma round_aux_small s m e l c k : 0 <= m -> 0 < c < 2 ^ prec -> 0 <= k -> k + 2 * prec <= emax -> bounded_by m l e c k ->
  small c k (binary_round_aux prec emax s m e l) /\ (s = false -> nonneg (binary_round_aux prec emax s m e l)).
Proof.
  intros Hm Hc Hk Hke Hb. unfold binary_round_aux. pose proof (shr_fexp_spec m l e c k Hm Hc Hk Hke Hb) as H1. destruct (shr_fexp prec emax m e l) as [r1 e1]. destruct H1 as (Hr1 & _ & Hb1 & _).
  pose proof (rne_bounds r1) as Hx. set (x := round_nearest_even _ _) in *. pose proof (shr_fexp_spec x loc_Exact e1 c k ltac:(lia) Hc Hk Hke (Hb1 x Hx)) as H2. destruct (shr_fexp prec emax x e1 loc_Exact) as [r2 e2].
  destruct H2 as (Hr2 & Hd2 & Hb2 & He2). destruct (shr_m r2) as [|p|p] eqn:Ep; [done | | lia]. destruct (Z.leb_spec e2 (emax - prec)) as [Hle | Hgt].
  - split; [| done]. split; [lia |]. apply bounded_exact, Hb2. rewrite <- Ep. pose proof (rne_bounds r2). lia.
  - exfalso. destruct He2 as [He2 | He2]; lia.
Qed.

(** *** Exact alignment *)

Lemma iter_xO m d : Z.pos (Pos.iter xO m d) = Z.pos m * 2 ^ Z.pos d.
Proof.
  induction d as [|d IH] using Pos.peano_ind; [cbn; lia |]. rewrite Pos.iter_succ, Pos2Z.inj_succ, Z.pow_succ_r by lia. rewrite Pos2Z.inj_xO, IH. lia.
Qed.

Lemma shl_align_spec m e e' : let '(m1, e1) := shl_align m e e' in e1 = Z.min e e' /\ Z.pos m1 = Z.pos m * 2 ^ (e - e1).
Proof.
  unfold shl_align. destruct (e' - e) as [|d|d] eqn:E.
  - split; [lia |]. rewrite Z.sub_diag. lia.
  - split; [lia |]. rewrite Z.sub_diag. lia.
  - split; [lia |]. rewrite iter_xO. do 2 f_equal. lia.
Qed.

Lemma le_bnd_shift m e e1 c k : e1 <= e -> le_bnd (m * 2 ^ (e - e1)) e1 c k <-> le_bnd m e c k.
Proof.
  intros He. rewrite (le_bnd_at (Z.min e1 k) _ e1), (le_bnd_at (Z.min e1 k) _ e) by lia. rewrite <- Z.mul_assoc, <- Z.pow_add_r by lia.
  by replace (e - e1 + (e1 - Z.min e1 k)) with (e - Z.min e1 k) by lia.
Qed.

Definition format_ok (c k : Z) : Prop := 0 < c < 2 ^ prec /\ 0 <= k /\ k + 2 * prec <= emax.

Lemma round_small s m e c k : format_ok c k -> le_bnd (Z.pos m) e c k -> small c k (binary_round prec emax s m e) /\ (s = false -> nonneg (binary_round prec emax s m e)).
Proof.
  intros (Hc & Hk & Hke) Hb. unfold binary_round. pose proof (shl_align_spec m e (fexp prec emax (Z.pos (digits2_pos m) + e))) as Hs. destruct (shl_align _ _ _) as [m1 e1]. destruct Hs as [E1 E2].
  apply round_aux_small; try done. rewrite E2. apply bounded_exact, le_bnd_shift; [lia | done].
Qed.

Lemma normalize_small m e z c k : format_ok c k -> le_bnd (Z.abs m) e c k -> small c k (binary_normalize prec emax m e z) /\ (0 <= m -> nonneg (binary_normalize prec emax m e z)).
Proof.
  intros Hf Hb. destruct m as [|p|p]; [done | |]; cbn [binary_normalize].
  - destruct (round_small false p e c k Hf Hb) as [H1 H2]. split; [done |]. intros _. by apply H2.
  - destruct (round_small true p e c k Hf Hb) as [H1 H2]. split; [done | lia].
Qed.

(** *** The operations *)

Lemma le_bnd_weaken m e c k c' k' : 0 <= k -> 0 <= k' -> c * 2 ^ k <= c' * 2 ^ k' -> le_bnd m e c k -> le_bnd m e c' k'.
Proof.
  intros Hk Hk' Hc. set (j := Z.min e 0). rewrite (le_bnd_at j _ _ c k), (le_bnd_at j _ _ c' k') by lia. intros H. etransitivity; [exact H |].
  replace (k - j) with (k + - j) by lia. replace (k' - j) with (k' + - j) by lia. rewrite !Z.pow_add_r by lia. pose proof (Z.pow_pos_nonneg 2 (- j)). nia.
Qed.

Lemma small_weaken c k c' k' x : 0 <= k -> 0 <= k' -> c * 2 ^ k <= c' * 2 ^ k' -> small c k x -> small c' k' x.
Proof. intros H1 H2 H3. destruct x; cbn; try done. intros [Hm Hb]. split; [done |]. by apply (le_bnd_weaken _ _ c k). Qed.

Lemma le_bnd_mul m1 e1 c1 m2 e2 c2 : 0 <= m1 -> 0 <= m2 -> le_bnd m1 e1 c1 0 -> le_bnd m2 e2 c2 0 -> le_bnd (m1 * m2) (e1 + e2) (c1 * c2) 0.
Proof.
  intros H1 H2. unfold le_bnd at 1 2. intros B1 B2. set (j1 := Z.min e1 0) in *. set (j2 := Z.min e2 0) in *. apply (le_bnd_at (j1 + j2)); [lia | lia |].
  replace (e1 + e2 - (j1 + j2)) with ((e1 - j1) + (e2 - j2)) by lia. replace (0 - (j1 + j2)) with ((0 - j1) + (0 - j2)) by lia. rewrite !Z.pow_add_r by lia.
  pose proof (Z.pow_pos_nonneg 2 (e1 - j1)). pose proof (Z.pow_pos_nonneg 2 (e2 - j2)). transitivity ((m1 * 2 ^ (e1 - j1)) * (m2 * 2 ^ (e2 - j2))); [lia |].
  transitivity ((c1 * 2 ^ (0 - j1)) * (c2 * 2 ^ (0 - j2))); [| lia]. apply Z.mul_le_mono_nonneg; nia.
Qed.

Lemma SFmul_small x y c1 c2 c k : small c1 0 x -> small c2 0 y -> c1 * c2 <= c * 2 ^ k -> format_ok c k ->
  small c k (SFmul prec emax x y) /\ (nonneg x -> nonneg y -> nonneg (SFmul prec emax x y)).
Proof.
  intros Hx Hy Hc (Hf1 & Hf2 & Hf3). destruct x as [sx | | | sx mx ex], y as [sy | | | sy my ey]; try done. destruct Hx as [_ Hx], Hy as [_ Hy]. cbn [SFmul].
  destruct (round_aux_small (xorb sx sy) (Z.pos (mx * my)) (ex + ey) loc_Exact c k) as [R1 R2]; try done.
  - apply bounded_exact. apply (le_bnd_weaken _ _ (c1 * c2) 0); [lia | lia | lia |]. rewrite Pos2Z.inj_mul. by apply le_bnd_mul.
  - split; [done |]. cbn. intros -> ->. by apply R2.
Qed.

Lemma aligned m e ez c k : le_bnd (Z.pos m) e c k -> ez <= e -> le_bnd (Z.pos (fst (shl_align m e ez))) ez c k.
Proof.
  intros Hb He. pose proof (shl_align_spec m e ez) as Hs. destruct (shl_align m e ez) as [m1 e1]. destruct Hs as [E1 E]. cbn [fst]. rewrite E, E1. rewrite Z.min_r by lia. by apply le_bnd_shift.
Qed.

Lemma le_bnd_le m m' e c k : m <= m' -> le_bnd m' e c k -> le_bnd m e c k.
Proof. unfold le_bnd. intros Hm H. pose proof (Z.pow_pos_nonneg 2 (e - Z.min e k)). nia. Qed.

Lemma le_bnd_add a b e c1 c2 k : le_bnd a e c1 k -> le_bnd b e c2 k -> le_bnd (a + b) e (c1 + c2) k.
Proof. unfold le_bnd. lia. Qed.

Lemma SFadd_small x y c1 c2 : small c1 0 x -> small c2 0 y -> 0 <= c1 -> 0 <= c2 -> format_ok (c1 + c2) 0 -> small (c1 + c2) 0 (SFadd prec emax x y).
Proof.
  intros Hx Hy H1 H2 Hf. assert (forall z, small c1 0 z -> small (c1 + c2) 0 z) as W1 by (intros z; apply small_weaken; rewrite ?Z.pow_0_r; lia). assert (forall z, small c2 0 z -> small (c1 + c2) 0 z) as W2 by (intros z; apply small_weaken; rewrite ?Z.pow_0_r; lia).
  destruct x as [sx | | | sx mx ex], y as [sy | | | sy my ey]; try done; [by destruct sx, sy | by apply W2 | by apply W1 |]. destruct Hx as [_ Hx], Hy as [_ Hy]. cbn [SFadd]. std_int. apply normalize_small; [done |].
  apply (aligned _ _ (Z.min ex ey)) in Hx, Hy; [| lia | lia]. eapply le_bnd_le, le_bnd_add; [| exact Hx | exact Hy]. unfold cond_Zopp. destruct sx, sy; lia.
Qed.

(** Of two numbers that are not negative, the difference is not above the
    greater one. *)
Lemma SFsub_small x y c : small c 0 x -> small c 0 y -> nonneg x -> nonneg y -> format_ok c 0 -> small c 0 (SFsub prec emax x y).
Proof.
  intros Hx Hy Nx Ny Hf. destruct x as [sx | | | sx mx ex], y as [sy | | | sy my ey]; try done; [by destruct sx, sy |]. cbn in Nx, Ny. subst. destruct Hx as [_ Hx], Hy as [_ Hy]. cbn [SFsub cond_Zopp]. std_int. apply normalize_small; [done |].
  apply (aligned _ _ (Z.min ex ey)) in Hx, Hy; [| lia | lia]. destruct (Z.le_ge_cases (Z.pos (fst (shl_align mx ex (Z.min ex ey)))) (Z.pos (fst (shl_align my ey (Z.min ex ey))))); [eapply le_bnd_le, Hy | eapply le_bnd_le, Hx]; lia.
Qed.

(** [n <= y] for a positive integer. *)
Definition at_least (n : Z) (y : spec_float) : Prop :=
  match y with
  | S754_finite false m e => 0 < n /\ n * 2 ^ (0 - Z.min e 0) <= Z.pos m * 2 ^ (e - Z.min e 0)
  | _ => False
  end.

Lemma at_least_at j n m e : j <= e -> j <= 0 -> n * 2 ^ (0 - Z.min e 0) <= Z.pos m * 2 ^ (e - Z.min e 0) -> n * 2 ^ (0 - j) <= Z.pos m * 2 ^ (e - j).
Proof.
  intros He Hj H. set (i := Z.min e 0) in *. rewrite (pow_split (0 - j) (i - j)), (pow_split (e - j) (i - j)) by lia. replace (0 - j - (i - j)) with (0 - i) by lia. replace (e - j - (i - j)) with (e - i) by lia.
  pose proof (Z.pow_pos_nonneg 2 (i - j)). nia.
Qed.

Lemma location_exact n r : 0 < n -> 0 <= r < n -> exact (new_location n r) = (r =? 0).
Proof. intros Hn Hr. unfold new_location, new_location_even, new_location_odd. destruct (Z.even n); by destruct (r =? 0). Qed.

Lemma SFdiv_small x y a n c : small a 0 x -> nonneg x -> at_least n y -> a <= c * n -> format_ok c 0 -> small c 0 (SFdiv prec emax x y) /\ nonneg (SFdiv prec emax x y).
Proof.
  intros Hx Nx Hy Ha (Hf1 & Hf2 & Hf3). destruct x as [sx | | | sx mx ex], y as [sy | | | [|] my ey]; try done. cbn in Nx. subst sx. destruct Hx as [_ Hx], Hy as [Hn Hy]. cbn [SFdiv].
  assert (forall j, j <= ex -> j <= ey -> j <= 0 -> Z.pos mx * 2 ^ (ex - j) <= c * (Z.pos my * 2 ^ (ey - j))) as Hq.
  { intros j J1 J2 J3. apply (le_bnd_at j) in Hx; [| done | done]. apply (at_least_at j) in Hy; [| done | done]. pose proof (Z.pow_pos_nonneg 2 (0 - j)). nia. }
  unfold SFdiv_core_binary. std_int. set (d1 := Zdigits2 (Z.pos mx)). set (d2 := Zdigits2 (Z.pos my)). set (e' := Z.min (fexp prec emax (d1 + ex - (d2 + ey))) (ex - ey)).
  assert (fexp prec emax (d1 + ex - (d2 + ey)) <= 0) as Hfe.
  { destruct (Zdigits2_bounds (Z.pos mx) eq_refl) as [D1 _], (Zdigits2_bounds (Z.pos my) eq_refl) as [_ D2]. fold d1 in D1. fold d2 in D2. assert (0 < d1 /\ 0 < d2) as [P1 P2] by done.
    set (j := Z.min 0 (Z.min ex ey)). specialize (Hq j ltac:(lia) ltac:(lia) ltac:(lia)). assert (2 ^ (d1 - 1 + (ex - j)) < 2 ^ (prec + d2 + (ey - j))) as Hlt.
    { rewrite !Z.pow_add_r by lia. pose proof (Z.pow_pos_nonneg 2 (ex - j)). pose proof (Z.pow_pos_nonneg 2 (ey - j)). apply Z.le_lt_trans with (Z.pos mx * 2 ^ (ex - j)); [nia |]. apply Z.le_lt_trans with (c * (Z.pos my * 2 ^ (ey - j))); [done |].
      rewrite <- Z.mul_assoc. apply Z.mul_lt_mono_nonneg; nia. }
    apply Z.pow_lt_mono_r_iff in Hlt; [| lia | lia]. unfold fexp, emin. lia. }
  set (s := ex - ey - e'). assert (0 <= s) as Hs by lia. assert (match s with Z.pos _ => Z.shiftl (Z.pos mx) s | 0 => Z.pos mx | Z.neg _ => 0 end = Z.pos mx * 2 ^ s) as ->.
  { destruct s as [|p|p]; [lia | by rewrite Z.shiftl_mul_pow2 | lia]. }
  pose proof (Z_div_mod (Z.pos mx * 2 ^ s) (Z.pos my) ltac:(lia)) as Hdm. destruct (Z.div_eucl (Z.pos mx * 2 ^ s) (Z.pos my)) as [q r]. destruct Hdm as [Eq Hr].
  pose proof (Z.pow_pos_nonneg 2 s ltac:(lia) Hs) as Hps. assert (0 <= q) as Hq0 by nia. cbn [xorb]. destruct (round_aux_small false q e' (new_location (Z.pos my) r) c 0) as [R1 R2]; try done; [| by split; [| apply R2]].
  unfold bounded_by, up. rewrite location_exact by lia. destruct (Z.leb_spec e' 0); [| lia]. set (j := Z.min 0 (Z.min ex ey)). specialize (Hq j ltac:(lia) ltac:(lia) ltac:(lia)).
  assert (Z.pos mx * 2 ^ s <= c * 2 ^ (0 - e') * Z.pos my) as Hb.
  { apply (Z.mul_le_mono_pos_r _ _ (2 ^ (ey - j))); [apply Z.pow_pos_nonneg; lia |]. rewrite <- Z.mul_assoc, <- Z.pow_add_r by lia. replace (s + (ey - j)) with ((ex - j) + (0 - e')) by lia. rewrite Z.pow_add_r by lia. pose proof (Z.pow_pos_nonneg 2 (0 - e')). nia. }
  destruct (Z.eqb_spec r 0); nia.
Qed.

(** *** Integers *)

Lemma round_exact s m e : Z.pos (digits2_pos m) <= prec -> emin prec emax <= e <= emax - prec -> exists m1 e1, binary_round prec emax s m e = S754_finite s m1 e1 /\ emin prec emax <= e1 <= e /\ Z.pos m1 = Z.pos m * 2 ^ (e - e1) /\ Z.pos m1 < 2 ^ prec.
Proof.
  intros Hd He. unfold binary_round. pose proof (shl_align_spec m e (fexp prec emax (Z.pos (digits2_pos m) + e))) as Hs. destruct (shl_align _ _ _) as [m1 e1]. destruct Hs as [E1 E2].
  assert (fexp prec emax (Z.pos (digits2_pos m) + e) <= e) as Hf by (unfold fexp; lia). rewrite Z.min_r in E1 by done. assert (Zdigits2 (Z.pos m1) + e1 = Z.pos (digits2_pos m) + e) as Ed.
  { rewrite E2, Zdigits2_shift by lia. cbn [Zdigits2]. lia. }
  assert (forall l, shr_fexp prec emax (Z.pos m1) e1 l = (shr_record_of_loc (Z.pos m1) l, e1)) as Hsh.
  { intros l. unfold shr_fexp. std_int. rewrite Ed, <- E1, Z.sub_diag. done. }
  unfold binary_round_aux. rewrite Hsh. cbn [shr_record_of_loc shr_m loc_of_shr_record round_nearest_even]. rewrite Hsh. cbn [shr_record_of_loc shr_m]. destruct (Z.leb_spec e1 (emax - prec)); [| unfold fexp in *; lia].
  exists m1, e1. split; [done |]. split; [unfold fexp in *; lia |]. split; [done |]. destruct (digits_bounds m1) as [_ Hb]. eapply Z.lt_le_trans; [exact Hb |]. apply Z.pow_le_mono_r; [lia |]. cbn [Zdigits2] in Ed. unfold fexp in *. lia.
Qed.

Lemma digits_le m d : 0 <= d -> Z.pos m < 2 ^ d -> Z.pos (digits2_pos m) <= d.
Proof. intros Hd Hm. destruct (digits_bounds m) as [B _]. assert (Z.pos (digits2_pos m) - 1 < d) by (apply (Z.pow_lt_mono_r_iff 2); lia). lia. Qed.

(** The number of an integer of the format. *)
Lemma of_Z_exact n z : 0 < n < 2 ^ prec -> at_least n (binary_normalize prec emax n 0 z) /\ exists m e, binary_normalize prec emax n 0 z = S754_finite false m e /\ Z.pos m < 2 ^ prec /\ emin prec emax <= e <= 0.
Proof.
  intros Hn. destruct n as [|p|p]; [lia | | lia]. cbn [binary_normalize]. destruct (round_exact false p 0) as (m1 & e1 & E & He & Em & Hm); [apply digits_le; lia | unfold emin; lia |]. rewrite E. split; [| by exists m1, e1].
  split; [done |]. rewrite Em, Z.min_l by lia. rewrite <- Z.mul_assoc, <- Z.pow_add_r by lia. apply Z.mul_le_mono_nonneg_l; [lia |]. apply Z.pow_le_mono_r; lia.
Qed.

Lemma le_bnd_int n : le_bnd n 0 n 0.
Proof. unfold le_bnd. lia. Qed.

Lemma of_Z_le n c z : Z.abs n <= c -> 0 < c < 2 ^ prec -> small c 0 (binary_normalize prec emax n 0 z) /\ (0 <= n -> nonneg (binary_normalize prec emax n 0 z)).
Proof. intros Hn Hc. apply normalize_small; [split; [done | lia] |]. eapply le_bnd_le; [exact Hn | apply le_bnd_int]. Qed.

(** From one format to another. *)
Lemma round_at_least n m e : at_least n (S754_finite false m e) -> Z.pos m < 2 ^ prec -> emin prec emax <= e <= emax - prec -> at_least n (binary_round prec emax false m e).
Proof.
  intros [Hn Hy] Hm He. destruct (round_exact false m e) as (m1 & e1 & -> & He1 & Em & _); [apply digits_le; lia | done |]. split; [done |]. apply (at_least_at (Z.min e1 0)) in Hy; [| lia | lia].
  rewrite Em, <- Z.mul_assoc, <- Z.pow_add_r by lia. by replace (e - e1 + (e1 - Z.min e1 0)) with (e - Z.min e1 0) by lia.
Qed.

End Bounds.
