(* ===== verification/LoadBalance.v ===== *)
(** * Load balancing

    [src/include/streams/load_balance.h] and [src/src/streams/load_balance.cpp]:
    the counters of an item by the second, the balancers that choose an item by
    turns or by weight, and the services that follow what is discovered.  Which
    streams are connected, the counters of the items at that time (other threads
    update them), the clock and [rand()] are arguments of the calls; the order
    in which an [unordered_map] is walked is the parameter [walk].  The weight
    of a fair item is computed in [float] and [double] as the code does it, with
    the operations of [SpecFloat] (IEEE 754, rounding to nearest). *)

From stdpp Require Import base list list_numbers numbers option gmap sorting.
From Stdlib Require Import ZArith Lia SpecFloat.
From S2P Require Import Prelude.

Local Open Scope Z_scope.

(** ** Counters *)

Record HolderStats := mk_Stats {
  hs_usedTime : Z;
  hs_total : Z;
  hs_doing : Z;
  hs_timeouts : Z;
  hs_oks : Z;
  hs_errs : Z;
}.

Definition cleared : HolderStats := mk_Stats 0 0 0 0 0 0.

(** [incUsedTime] to [incErrs]: [Atomic::addFetch] on a [uint32_t]. *)
Inductive counter := UsedTime | Total | Doing | Timeouts | Oks | Errs.

Definition inc (f : counter) (v : Z) (h : HolderStats) : HolderStats :=
  let '(mk_Stats used total doing timeouts oks errs) := h in
  match f with
  | UsedTime => mk_Stats (u32 (used + v)) total doing timeouts oks errs
  | Total => mk_Stats used (u32 (total + v)) doing timeouts oks errs
  | Doing => mk_Stats used total (u32 (doing + v)) timeouts oks errs
  | Timeouts => mk_Stats used total doing (u32 (timeouts + v)) oks errs
  | Oks => mk_Stats used total doing timeouts (u32 (oks + v)) errs
  | Errs => mk_Stats used total doing timeouts oks (u32 (errs + v))
  end.

Definition decDoing (v : Z) (h : HolderStats) : HolderStats :=
  mk_Stats (hs_usedTime h) (hs_total h) (u32 (hs_doing h - v)) (hs_timeouts h) (hs_oks h) (hs_errs h).

(** [rt.f += i.f] for the six counters. *)
Definition add_stats (rt i : HolderStats) : HolderStats :=
  mk_Stats (u32 (hs_usedTime rt + hs_usedTime i)) (u32 (hs_total rt + hs_total i)) (u32 (hs_doing rt + hs_doing i))
    (u32 (hs_timeouts rt + hs_timeouts i)) (u32 (hs_oks rt + hs_oks i)) (u32 (hs_errs rt + hs_errs i)).

Record HolderStatsSet := mk_Set {
  ss_last : Z;
  ss_stats : list HolderStats;
}.

Definition new_HolderStatsSet (size : nat) : HolderStatsSet := mk_Set 0 (replicate size cleared).

(** The index of a second, [t % _stats.size()]. *)
Definition slot (size : nat) (t : Z) : nat := Z.to_nat (t mod Z.of_nat size).

(** The loop of [init]; [n] is [_stats.size() - i]. *)
Fixpoint clear_loop (n : nat) (t now : Z) (stats : list HolderStats) : list HolderStats :=
  match n with
  | O => stats
  | S n => if t <=? now then clear_loop n (u32 (t + 1)) now (<[slot (length stats) t := cleared]> stats) else stats
  end.

Definition stats_init (now : Z) (s : HolderStatsSet) : HolderStatsSet :=
  if ss_last s <? now then mk_Set now (clear_loop (length (ss_stats s)) (u32 (ss_last s + 1)) now (ss_stats s)) else s.

(** [get]: the counters it returns a reference to, by their index. *)
Definition stats_get (now : Z) : M HolderStatsSet nat :=
  modify (stats_init now);;
  s ← get;
  if (length (ss_stats s) =? 0)%nat then undef DivByZero else mret (slot (length (ss_stats s)) now).

(** What a caller does with the reference. *)
Definition on_slot (k : nat) (f : HolderStats -> HolderStats) : M HolderStatsSet unit :=
  modify (fun s => mk_Set (ss_last s) (alter f k (ss_stats s))).

(** The counters [getWeight] adds up the weights of, the youngest first. *)
Definition weight_terms (now : Z) : M HolderStatsSet (list HolderStats) :=
  modify (stats_init now);;
  s ← get;
  mret (map (fun i => default cleared (ss_stats s !! slot (length (ss_stats s)) (u64 (now - Z.of_nat i)))) (seq 1 (length (ss_stats s) - 1))).

Definition getTotal (s : HolderStatsSet) : HolderStats := foldl add_stats cleared (ss_stats s).

(** ** Floating-point numbers *)

Definition float_of_int (n : Z) : spec_float := binary_normalize 24 128 n 0 false.
Definition double_of_int (n : Z) : spec_float := binary_normalize 53 1024 n 0 false.

Definition to_float (x : spec_float) : spec_float := match x with S754_finite s m e => binary_round 24 128 s m e | _ => x end.
Definition to_double (x : spec_float) : spec_float := match x with S754_finite s m e => binary_round 53 1024 s m e | _ => x end.

Definition fadd : spec_float -> spec_float -> spec_float := SFadd 24 128.
Definition fsub : spec_float -> spec_float -> spec_float := SFsub 24 128.
Definition fmul : spec_float -> spec_float -> spec_float := SFmul 24 128.
Definition fdiv : spec_float -> spec_float -> spec_float := SFdiv 24 128.
Definition dsub : spec_float -> spec_float -> spec_float := SFsub 53 1024.
Definition dmul : spec_float -> spec_float -> spec_float := SFmul 53 1024.
Definition ddiv : spec_float -> spec_float -> spec_float := SFdiv 53 1024.

(** The conversion of a [float] to [int32_t], towards zero; [None]: the number
    does not fit, which is undefined behaviour. *)
Definition int_of_float (x : spec_float) : option Z :=
  match x with
  | S754_zero _ => Some 0
  | S754_finite s m e =>
    let v := cond_Zopp s (Z.shiftl (Z.pos m) e) in
    if (- 2 ^ 31 <=? v) && (v <? 2 ^ 31) then Some v else None
  | _ => None
  end.

(** [std::min] *)
Definition std_min (a b : spec_float) : spec_float := if SFltb b a then b else a.

(** [HolderStats::getWeight]: [_total + 20], [_usedTime + 1] and [1 * _doing]
    are [uint32_t]; the quotient with [_doing] is a [float], the others are
    [double]. *)
Definition HolderStats_getWeight (rate : spec_float) (h : HolderStats) : spec_float :=
  let base := float_of_int (u32 (hs_total h + 20)) in
  let d := double_of_int in
  let speed := std_min (dmul (ddiv (dmul (d (hs_oks h)) (d 1)) (d (u32 (hs_usedTime h + 1)))) (d 2)) (d 50) in
  let timeouts := dsub (d 1) (ddiv (dmul (d 4) (d (hs_timeouts h))) (to_double base)) in
  let doing := fsub (float_of_int 1) (fdiv (float_of_int (u32 (1 * hs_doing h))) base) in
  let errs := dsub (d 1) (ddiv (dmul (d 10) (d (hs_errs h))) (to_double base)) in
  to_float (dmul (dmul (dmul (dmul speed timeouts) (to_double doing)) errs) (to_double rate)).

(** [1 - 0.1 * i], as a [float]. *)
Definition rate_at (i : nat) : spec_float :=
  let d := double_of_int in to_float (dsub (d 1) (dmul (ddiv (d 1) (d 10)) (d (Z.of_nat i)))).

(** [HolderStatsSet::getWeight] *)
Definition HolderStatsSet_getWeight (now : Z) : M HolderStatsSet spec_float :=
  terms ← weight_terms now;
  mret (foldl (fun v '(i, h) => fadd v (HolderStats_getWeight (rate_at i) h)) (float_of_int 0) (zip (seq 1 (length terms)) terms)).

(** ** Items *)

Record LoadBalanceItem := mk_Item {
  it_id : Z;
  it_stream : option nat;
  it_weight : Z;
  it_fair : bool;
}.

(** [_stream && _stream->isConnected()] *)
Definition isValid (conn : nat -> bool) (it : LoadBalanceItem) : bool :=
  match it_stream it with
  | Some s => conn s
  | None => false
  end.

(** What a call finds: the streams that are connected, the counters of the
    items and the time in seconds. *)
Record Env := mk_Env {
  e_conn : nat -> bool;
  e_stats : LoadBalanceItem -> HolderStatsSet;
  e_now : Z;
}.

(** [_weight * _stats.getWeight()] as an [int32_t].  That the seconds that have
    passed are cleared on the way is not written back: every later call clears
    them again. *)
Definition fair_value (env : Env) (it : LoadBalanceItem) : option Z :=
  match HolderStatsSet_getWeight (e_now env) (e_stats env it) with
  | Ret w _ => int_of_float (fmul (float_of_int (it_weight it)) w)
  | _ => None
  end.

(** [getWeight] of the two classes of items. *)
Definition item_weight {T} (env : Env) (it : LoadBalanceItem) : M T Z :=
  if it_fair it then
    match fair_value env it with
    | None => undef BadConversion
    | Some v =>
      match it_stream it with
      | None => undef NullDeref
      | Some s => mret (if e_conn env s then (if 1 <? v then v else 1) else 1)
      end
    end
  else mret (it_weight it).

(** ** Balancers *)

Inductive Balancing := ROUNDROBIN | WEIGHT | FAIR.

(** [lb_weighted]: a [WeightLoadBalance], otherwise a [RoundRobinLoadBalance]. *)
Record LoadBalance := mk_LB {
  lb_weighted : bool;
  lb_datas : gmap Z LoadBalanceItem;
  lb_items : list LoadBalanceItem;
  lb_weights : list Z;
  lb_lastInitTime : Z;
}.

Definition new_LoadBalance (weighted : bool) : LoadBalance := mk_LB weighted ∅ [] [] 0.

Definition set_datas (d : gmap Z LoadBalanceItem) (b : LoadBalance) : LoadBalance := mk_LB (lb_weighted b) d (lb_items b) (lb_weights b) (lb_lastInitTime b).

(** The running sums of the weights. *)
Fixpoint sums {T} (env : Env) (total : Z) (items : list LoadBalanceItem) : M T (list Z) :=
  match items with
  | [] => mret []
  | it :: items => w ← item_weight env it; ws ← sums env (total + w) items; mret (total + w :: ws)
  end.

(** [std::upper_bound] for a [uint64_t]: the first element above it.  The
    elements are compared as [uint64_t]; the range has to be partitioned. *)
Fixpoint first_above (dis : Z) (ws : list Z) : nat :=
  match ws with
  | [] => 0
  | w :: ws => if dis <? u64 w then 0 else S (first_above dis ws)
  end.

Definition upper_bound (dis : Z) (ws : list Z) : option nat :=
  let k := first_above dis ws in
  if forallb (fun w => dis <? u64 w) (drop k ws) then Some k else None.

(** The items from [start] on, once round; the first that is valid. *)
Fixpoint next_valid (conn : nat -> bool) (items : list LoadBalanceItem) (start i : nat) (n : nat) : option LoadBalanceItem :=
  match n with
  | O => None
  | S n =>
    match items !! ((start + i) mod length items)%nat with
    | Some h => if isValid conn h then Some h else next_valid conn items start (S i) n
    | None => None
    end
  end.

Section Balancer.
Context (walk : gmap Z LoadBalanceItem -> list LoadBalanceItem).

Definition initNolock (env : Env) : M LoadBalance unit :=
  b ← get;
  let items := filter (fun it => isValid (e_conn env) it = true) (walk (lb_datas b)) in
  if lb_weighted b then
    ws ← sums env 0 items;
    put (mk_LB true (lb_datas b) items ws (lb_lastInitTime b))
  else put (mk_LB false (lb_datas b) items (lb_weights b) (lb_lastInitTime b)).

Definition lb_getById (id : Z) (b : LoadBalance) : option LoadBalanceItem := lb_datas b !! id.

Definition lb_add (env : Env) (v : LoadBalanceItem) : M LoadBalance unit :=
  modify (fun b => set_datas (<[it_id v := v]> (lb_datas b)) b);; initNolock env.

Definition lb_del (env : Env) (v : LoadBalanceItem) : M LoadBalance unit :=
  modify (fun b => set_datas (delete (it_id v) (lb_datas b)) b);; initNolock env.

Definition lb_set (env : Env) (vs : list LoadBalanceItem) : M LoadBalance unit :=
  modify (fun b => set_datas (foldl (fun d v => <[it_id v := v]> d) ∅ vs) b);; initNolock env.

(** [update]: the removed items are handed back through [dels]. *)
Definition lb_update (env : Env) (adds : gmap Z LoadBalanceItem) (dels : gset Z) : M LoadBalance (gmap Z (option LoadBalanceItem)) :=
  b ← get;
  let removed := set_to_map (fun id => (id, lb_datas b !! id)) dels in
  put (set_datas (adds ∪ filter (fun '(id, _) => id ∉ dels) (lb_datas b)) b);;
  initNolock env;;
  mret removed.

Definition checkInit (env : Env) (ts : Z) : M LoadBalance unit :=
  b ← get;
  if 500 <? u64 (ts - lb_lastInitTime b) then
    initNolock env;;
    modify (fun b => mk_LB (lb_weighted b) (lb_datas b) (lb_items b) (lb_weights b) ts)
  else mret tt.

(** [v == (uint64_t)-1 ? rand() : v] *)
Definition pick_number (v rnd : Z) : Z := if v =? 2 ^ 64 - 1 then rnd else v.

Definition getIdx (v rnd : Z) : M LoadBalance Z :=
  b ← get;
  match list.last (lb_weights b) with
  | None => mret (-1)
  | Some total =>
    if u64 total =? 0 then undef DivByZero
    else
      match upper_bound (pick_number v rnd mod u64 total) (lb_weights b) with
      | None => undef BadIndex
      | Some k => if (k =? length (lb_weights b))%nat then undef AssertFail else mret (i32 (Z.of_nat k))
      end
  end.

Definition lb_get (env : Env) (ts v rnd : Z) : M LoadBalance (option LoadBalanceItem) :=
  checkInit env ts;;
  b ← get;
  if lb_weighted b then
    idx ← getIdx v rnd;
    if idx =? -1 then mret None
    else mret (next_valid (e_conn env) (lb_items b) (Z.to_nat idx) 0 (length (lb_items b)))
  else
    match lb_items b with
    | [] => mret None
    | _ => mret (next_valid (e_conn env) (lb_items b) (Z.to_nat (u32 (pick_number v rnd mod Z.of_nat (length (lb_items b))))) 0 (length (lb_items b)))
    end.

End Balancer.

(** ** Services *)

(** [createLoadBalance] and [createLoadBalanceItem] *)
Definition createLoadBalance (type : Balancing) : LoadBalance :=
  match type with
  | ROUNDROBIN => new_LoadBalance false
  | WEIGHT | FAIR => new_LoadBalance true
  end.

Definition createLoadBalanceItem (type : Balancing) (id : Z) (stream : nat) (weight : Z) : LoadBalanceItem :=
  mk_Item id (Some stream) weight (match type with FAIR => true | _ => false end).

(** The balancers and the configured types, by domain and service. *)
Record SDLoadBalance := mk_SD {
  sd_datas : gmap (Z * Z) LoadBalance;
  sd_types : gmap (Z * Z) Balancing;
}.

Section Service.
Context (walk : gmap Z LoadBalanceItem -> list LoadBalanceItem) {Info : Type}.

Definition sd_getType (key : Z * Z) (s : SDLoadBalance) : Balancing := default FAIR (sd_types s !! key).

Definition sd_get (key : Z * Z) (auto_create : bool) : M SDLoadBalance (option LoadBalance) :=
  s ← get;
  match sd_datas s !! key with
  | Some lb => mret (Some lb)
  | None =>
    if auto_create then
      let lb := createLoadBalance (sd_getType key s) in
      put (mk_SD (<[key := lb]> (sd_datas s)) (sd_types s));; mret (Some lb)
    else mret None
  end.

(** [onServiceChange]: [cb] makes the stream of a new instance, or fails; the
    answer is the streams that are closed. *)
Definition onServiceChange (env : Env) (cb : Info -> option nat) (key : Z * Z) (old_value new_value : gmap Z Info) : M SDLoadBalance (gmap Z nat) :=
  s ← get;
  let type := sd_getType key s in
  lb ← sd_get key true;
  match lb with
  | None => undef NullDeref
  | Some lb =>
    let del_infos := dom old_value ∖ dom new_value in
    let add_values := new_value ∖ old_value in
    let add_infos := map_imap (fun id info => stream ← cb info; Some (createLoadBalanceItem type id stream 10000)) add_values in
    match lb_update walk env add_infos del_infos lb with
    | Ret removed lb =>
      modify (fun s => mk_SD (<[key := lb]> (sd_datas s)) (sd_types s));;
      mret (omap (fun o => it ← o; it_stream it) removed)
    | Throw e _ => throw e
    | Undef u => undef u
    end
  end.

End Service.
