(* ===== verification/LoadBalanceClaims.v ===== *)
(** * What the load balancers promise *)

From stdpp Require Import base list list_numbers numbers option gmap sorting.
From Stdlib Require Import ZArith Lia Permutation SpecFloat.
From S2P Require Import Prelude.
From S2P Require Import FloatBounds.
From S2P Require Import LoadBalance.

Local Open Scope Z_scope.

(** ** Counters by the second *)

Lemma slot_lt (n : nat) t : (0 < n)%nat -> (slot n t < n)%nat.
Proof. intros Hn. unfold slot. pose proof (Z.mod_pos_bound t (Z.of_nat n)). lia. Qed.

Lemma slot_inj n t t' : (0 < n)%nat -> Z.abs (t - t') < Z.of_nat n -> slot n t = slot n t' -> t = t'.
Proof.
  intros Hn Hd E. unfold slot in E. pose proof (Z.mod_pos_bound t (Z.of_nat n)). pose proof (Z.mod_pos_bound t' (Z.of_nat n)). apply Z2Nat.inj in E; [| lia | lia]. 
  pose proof (Z.div_mod t (Z.of_nat n) ltac:(lia)). pose proof (Z.div_mod t' (Z.of_nat n) ltac:(lia)). assert (Z.of_nat n * (t / Z.of_nat n - t' / Z.of_nat n) = t - t') by lia. assert (t / Z.of_nat n - t' / Z.of_nat n = 0) by nia. lia.
Qed.

Lemma clear_loop_kept n t now stats k : stats !! k = Some cleared -> clear_loop n t now stats !! k = Some cleared.
Proof.
  revert t stats. induction n as [|n IH]; intros t stats Hk; cbn [clear_loop]; [done |]. destruct (t <=? now); [| done]. apply IH. destruct (decide (slot (length stats) t = k)) as [-> |]; [apply list_lookup_insert_eq; by eapply lookup_lt_Some | by rewrite list_lookup_insert_ne].
Qed.

(** The slots of the seconds from [t] to [now], at most [n] of them, are
    cleared, the others are kept. *)
Lemma clear_loop_spec n t now stats : 0 <= t -> now < 2 ^ 32 - 1 -> (0 < length stats)%nat ->
  length (clear_loop n t now stats) = length stats /\
  (forall x, t <= x <= now -> x < t + Z.of_nat n -> clear_loop n t now stats !! slot (length stats) x = Some cleared) /\
  (forall k, (forall x, t <= x <= now -> x < t + Z.of_nat n -> slot (length stats) x <> k) -> clear_loop n t now stats !! k = stats !! k).
Proof.
  revert t stats. induction n as [|n IH]; intros t stats Ht Hnow Hl; cbn [clear_loop]; [split; [done |]; split; [lia | done] |].
  destruct (Z.leb_spec t now); [| split; [done |]; split; [lia | done]]. assert (u32 (t + 1) = t + 1) as -> by (apply uwrap_id; unfold in_u; lia).
  pose proof (slot_lt (length stats) t Hl) as Hs. destruct (IH (t + 1) (<[slot (length stats) t := cleared]> stats)) as (E1 & E2 & E3); [lia | lia | by rewrite length_insert |]. rewrite length_insert in *. split; [done |]. split.
  - intros x Hx Hn. destruct (decide (x = t)) as [-> |]; [| apply E2; lia]. apply clear_loop_kept. by apply list_lookup_insert_eq.
  - intros k Hk. rewrite E3 by (intros x ? ?; apply Hk; lia). rewrite list_lookup_insert_ne; [done |]. apply Hk; lia.
Qed.

(** The slots of the last [size] seconds hold the counters of these seconds. *)
Record window (hist : Z -> HolderStats) (s : HolderStatsSet) : Prop := {
  wi_size : (0 < length (ss_stats s))%nat;
  wi_last : 0 <= ss_last s < 2 ^ 32 - 1;
  wi_slots : forall t, ss_last s - Z.of_nat (length (ss_stats s)) < t <= ss_last s -> ss_stats s !! slot (length (ss_stats s)) t = Some (hist t);
  wi_later : forall t, ss_last s < t -> hist t = cleared;
}.

Lemma init_window hist s now : window hist s -> 0 <= now < 2 ^ 32 - 1 ->
  window hist (stats_init now s) /\ ss_last (stats_init now s) = Z.max (ss_last s) now /\ length (ss_stats (stats_init now s)) = length (ss_stats s).
Proof.
  intros [W1 W2 W3 W4] Hn. unfold stats_init. destruct (Z.ltb_spec (ss_last s) now) as [Hlt |]; [| split; [done | split; [lia | done]]]. assert (u32 (ss_last s + 1) = ss_last s + 1) as -> by (apply uwrap_id; unfold in_u; lia).
  set (n := length (ss_stats s)) in *. destruct (clear_loop_spec n (ss_last s + 1) now (ss_stats s)) as (E1 & E2 & E3); [lia | lia | done |]. fold n in E1, E2, E3. cbn [ss_last ss_stats]. split; [| split; [lia | done]]. split; cbn [ss_last ss_stats]; rewrite ?E1.
  - done.
  - lia.
  - intros t Ht. destruct (Z.le_gt_cases t (ss_last s)).
    + rewrite E3; [apply W3; lia |]. intros x Hx Hx' E. apply slot_inj in E; lia.
    + rewrite W4 by lia. set (x := ss_last s + 1 + (t - ss_last s - 1) mod Z.of_nat n). pose proof (Z.mod_pos_bound (t - ss_last s - 1) (Z.of_nat n) ltac:(lia)). assert (x <= t) by (unfold x; pose proof (Z.mod_le (t - ss_last s - 1) (Z.of_nat n)); lia).
      replace (slot n t) with (slot n x); [apply E2; unfold x in *; lia |]. unfold slot, x. f_equal. rewrite Zplus_mod_idemp_r. f_equal. lia.
  - intros t Ht. apply W4. lia.
Qed.

(** [get(now)] and an update of the counters it returns. *)
Definition record_at (now : Z) (f : HolderStats -> HolderStats) : M HolderStatsSet unit :=
  k ← stats_get now; on_slot k f.

Definition at_second (now : Z) (f : HolderStats -> HolderStats) (hist : Z -> HolderStats) (t : Z) : HolderStats :=
  if t =? now then f (hist t) else hist t.

Lemma stats_get_spec hist s now : window hist s -> 0 <= now < 2 ^ 32 - 1 -> stats_get now s = Ret (slot (length (ss_stats s)) now) (stats_init now s).
Proof.
  intros W Hn. destruct (init_window hist s now W Hn) as (_ & _ & El). unfold stats_get. erewrite bind_Ret by done. erewrite bind_Ret by done. rewrite El. pose proof (wi_size _ _ W). by destruct (Nat.eqb_spec (length (ss_stats s)) 0); [lia |].
Qed.

Lemma record_at_spec hist s now f : window hist s -> 0 <= now < 2 ^ 32 - 1 -> ss_last s - Z.of_nat (length (ss_stats s)) < now ->
  exists s', record_at now f s = Ret tt s' /\ window (at_second now f hist) s' /\ ss_last s' = Z.max (ss_last s) now /\ length (ss_stats s') = length (ss_stats s).
Proof.
  intros W Hn Hw. destruct (init_window hist s now W Hn) as ([W1 W2 W3 W4] & El & En). unfold record_at. erewrite bind_Ret by (by eapply stats_get_spec). eexists. split; [done |]. cbn [ss_last ss_stats]. rewrite length_alter. split; [| done].
  set (s1 := stats_init now s) in *. split; cbn [ss_last ss_stats]; rewrite ?length_alter.
  - done.
  - done.
  - intros t Ht. unfold at_second. destruct (Z.eqb_spec t now) as [-> | Hne].
    + rewrite <- En, list_lookup_alter_eq, W3 by lia. done.
    + rewrite list_lookup_alter_ne; [by apply W3 |]. intros E. rewrite <- En in E. apply slot_inj in E; [lia | done | lia].
  - intros t Ht. unfold at_second. destruct (Z.eqb_spec t now); [lia | by apply W4].
Qed.

Definition event : Type := Z * (HolderStats -> HolderStats).

Fixpoint record_all (evs : list event) : M HolderStatsSet unit :=
  match evs with
  | [] => mret tt
  | (now, f) :: evs => record_at now f;; record_all evs
  end.

(** The counters of second [t] when every event had its own. *)
Definition hist_of (evs : list event) (t : Z) : HolderStats := foldl (fun h e => if t =? fst e then snd e h else h) cleared evs.

(** No event is older than the window when it arrives. *)
Fixpoint timely (size : nat) (last : Z) (evs : list event) : Prop :=
  match evs with
  | [] => True
  | (now, _) :: evs => 0 <= now < 2 ^ 32 - 1 /\ last - Z.of_nat size < now /\ timely size (Z.max last now) evs
  end.

Lemma record_all_spec evs hist s : window hist s -> timely (length (ss_stats s)) (ss_last s) evs ->
  exists s', record_all evs s = Ret tt s' /\ window (fun t => foldl (fun h e => if t =? fst e then snd e h else h) (hist t) evs) s' /\ length (ss_stats s') = length (ss_stats s).
Proof.
  revert hist s. induction evs as [|[now f] evs IH]; intros hist s W Ht; cbn [record_all timely] in *; [by exists s |]. destruct Ht as (Hn & Hw & Ht). destruct (record_at_spec hist s now f W Hn Hw) as (s1 & E1 & W1 & El & En). rewrite <- El, <- En in Ht.
  destruct (IH _ s1 W1 Ht) as (s2 & E2 & W2 & En2). exists s2. split; [by erewrite bind_Ret by exact E1 |]. split; [exact W2 | congruence].
Qed.

Lemma new_window size : (0 < size)%nat -> window (fun _ => cleared) (new_HolderStatsSet size).
Proof. intros Hs. split; cbn [new_HolderStatsSet ss_last ss_stats]; rewrite ?length_replicate; [done | lia | | done]. intros t _. apply lookup_replicate_2. by apply slot_lt. Qed.

Lemma add_stats_swap a x y : add_stats (add_stats a x) y = add_stats (add_stats a y) x.
Proof. unfold add_stats; cbn. f_equal; unfold u32, uwrap; rewrite !Zplus_mod_idemp_l; f_equal; lia. Qed.

Lemma add_stats_perm l l' : l ≡ₚ l' -> forall a, foldl add_stats a l = foldl add_stats a l'.
Proof. induction 1; intros a; cbn; [done | auto | by rewrite add_stats_swap | congruence]. Qed.

(** The slots are those of the last seconds, in some order. *)
Lemma window_slots hist s : window hist s -> ss_stats s ≡ₚ map (fun i => hist (ss_last s - Z.of_nat i)) (seq 0 (length (ss_stats s))).
Proof.
  intros [W1 W2 W3 W4]. set (n := length (ss_stats s)) in *. assert (map (fun i => slot n (ss_last s - Z.of_nat i)) (seq 0 n) ≡ₚ seq 0 n) as Hp.
  { apply Permutation.NoDup_Permutation_bis.
    - apply NoDup_ListNoDup, NoDup_fmap_2_strong; [| apply NoDup_seq]. intros i j Hi Hj E. apply elem_of_seq in Hi, Hj. apply slot_inj in E; lia.
    - by rewrite length_map, !length_seq.
    - intros k Hk. apply in_map_iff in Hk as (i & <- & _). apply in_seq. pose proof (slot_lt n (ss_last s - Z.of_nat i) W1). lia. }
  assert (ss_stats s = map (fun k => default cleared (ss_stats s !! k)) (seq 0 n)) as E.
  { apply list_eq. intros k. change (map ?f ?l) with (f <$> l). rewrite list_lookup_fmap. destruct (decide (k < n)%nat) as [Hk | Hk].
    - rewrite lookup_seq_lt by done. cbn. destruct (lookup_lt_is_Some_2 (ss_stats s) k Hk) as [h ->]. done.
    - rewrite lookup_seq_ge by lia. apply lookup_ge_None_2. fold n. lia. }
  rewrite E at 1. etransitivity; [apply Permutation_map; symmetry; exact Hp |]. rewrite map_map. erewrite map_ext_in; [reflexivity |]. intros i Hi. cbn beta. apply in_seq in Hi. rewrite W3 by lia. done.
Qed.

(** C30: the counters of an item.  Record any updates at any seconds, none older
    than the window of [size] seconds when it arrives: the slot of each of the
    last [size] seconds holds exactly the updates of that second; [getTotal] is
    their sum; [getWeight] looks at the [size - 1] seconds before the present
    one.  But an update through a reference that was kept until its slot was
    given to a later second lands there: a request that takes [size] seconds or
    more makes [_doing] wrap to 2^32 - 1. *)
Theorem stats_by_second (size : nat) : (0 < size)%nat ->
  (forall evs, timely size 0 evs -> exists s, record_all evs (new_HolderStatsSet size) = Ret tt s /\
     (forall t, ss_last s - Z.of_nat size < t <= ss_last s -> ss_stats s !! slot size t = Some (hist_of evs t)) /\
     getTotal s = foldl add_stats cleared (map (fun i => hist_of evs (ss_last s - Z.of_nat i)) (seq 0 size)) /\
     (forall now, ss_last s <= now < 2 ^ 32 - 1 -> Z.of_nat size <= now -> exists s', weight_terms now s = Ret (map (fun i => hist_of evs (now - Z.of_nat i)) (seq 1 (size - 1))) s')) /\
  (forall now now', 0 <= now -> now + Z.of_nat size <= now' -> now' < 2 ^ 32 - 1 ->
     exists s h, (k ← stats_get now; on_slot k (inc Doing 1);; stats_get now';; on_slot k (decDoing 1)) (new_HolderStatsSet size) = Ret tt s /\ ss_stats s !! slot size now = Some h /\ hs_doing h = 2 ^ 32 - 1).
Proof.
  intros Hs. split.
  - intros evs Ht. destruct (record_all_spec evs _ _ (new_window size Hs)) as (s & E & W & El); [cbn [new_HolderStatsSet ss_stats ss_last]; by rewrite length_replicate |]. change (length (ss_stats (new_HolderStatsSet size))) with (length (replicate size cleared)) in El. rewrite length_replicate in El. change (window (hist_of evs) s) in W.
    exists s. split; [done |]. split; [rewrite <- El; apply (wi_slots _ _ W) |]. split; [unfold getTotal; rewrite <- El; apply add_stats_perm; by apply window_slots |].
    intros now Hn Hbig. pose proof (wi_last _ _ W). destruct (init_window _ s now W) as (W' & El' & En'); [lia |]. eexists. unfold weight_terms. do 2 (erewrite bind_Ret by done). rewrite En', El. unfold mret, M_ret. f_equal. apply map_ext_in. intros i Hi. apply in_seq in Hi.
    assert (u64 (now - Z.of_nat i) = now - Z.of_nat i) as -> by (apply uwrap_id; unfold in_u; lia). pose proof (wi_slots _ _ W' (now - Z.of_nat i)) as Hw. rewrite En', El', El in Hw. rewrite Hw by lia. done.
  - intros now now' H0 Hn Hn'. pose proof (new_window size Hs) as W0. destruct (record_at_spec _ _ now (inc Doing 1) W0) as (s1 & E1 & W1 & El1 & En1); [lia | cbn [new_HolderStatsSet ss_last ss_stats]; rewrite length_replicate; lia |]. change (length (ss_stats (new_HolderStatsSet size))) with (length (replicate size cleared)) in En1. rewrite length_replicate in En1. cbn [new_HolderStatsSet ss_last] in El1.
    destruct (init_window _ s1 now' W1) as (W2 & El2 & En2); [lia |].
    assert (slot size now = slot (length (ss_stats (new_HolderStatsSet size))) now) as Ek by (cbn [new_HolderStatsSet ss_stats]; by rewrite length_replicate). unfold record_at in E1. erewrite bind_Ret in E1 by (apply (stats_get_spec _ _ now W0); lia). rewrite <- Ek in E1.
    set (x := now' - (now' - now) mod Z.of_nat size). assert (slot size x = slot size now) as Ex by (unfold slot, x; rewrite Zminus_mod_idemp_r; do 2 f_equal; lia).
    assert (now' - Z.of_nat size < x <= now' /\ now < x) as [Hx1 Hx2] by (unfold x; pose proof (Z.mod_pos_bound (now' - now) (Z.of_nat size) ltac:(lia)); lia).
    eexists _, _. split.
    { erewrite bind_Ret by (apply (stats_get_spec _ _ now W0); lia). rewrite <- Ek. erewrite bind_Ret by exact E1. erewrite bind_Ret by (apply (stats_get_spec _ _ now' W1); lia). reflexivity. }
    cbn [ss_stats]. rewrite list_lookup_alter_eq. pose proof (wi_slots _ _ W2 x) as Hx. rewrite En2, En1, Ex in Hx. rewrite Hx by lia. split; [reflexivity |]. rewrite (wi_later _ _ W1) by lia. done.
Qed.

Definition sample_events : list event := [(10, inc Total 1); (12, inc Oks 7); (10, inc Total 5)].

Lemma stats_by_second_witness :
  (exists s, record_all sample_events (new_HolderStatsSet 3) = Ret tt s /\ (forall t, ss_last s - 3 < t <= ss_last s -> ss_stats s !! slot 3 t = Some (hist_of sample_events t)) /\ hs_total (hist_of sample_events 10) = 6) /\
  (exists s h, (k ← stats_get 10; on_slot k (inc Doing 1);; stats_get 13;; on_slot k (decDoing 1)) (new_HolderStatsSet 3) = Ret tt s /\ ss_stats s !! slot 3 10 = Some h /\ hs_doing h = 4294967295).
Proof.
  destruct (stats_by_second 3 ltac:(lia)) as [H1 H2]. split.
  - destruct (H1 sample_events) as (s & E & Hs & _); [cbn; lia |]. exists s. split; [exact E |]. split; [exact Hs | reflexivity].
  - apply (H2 10 13); lia.
Defined.

(** ** The weight of a fair item *)

(** Counters as they are when each request is counted once: no more timeouts,
    errors and requests under way than requests, and fewer than [2^24 - 20]
    requests in a second. *)
Record sane (h : HolderStats) : Prop := {
  sn_used : 0 <= hs_usedTime h < 2 ^ 32 - 1;
  sn_total : 0 <= hs_total h < 2 ^ 24 - 20;
  sn_doing : 0 <= hs_doing h <= hs_total h;
  sn_timeouts : 0 <= hs_timeouts h <= hs_total h;
  sn_oks : 0 <= hs_oks h < 2 ^ 32;
  sn_errs : 0 <= hs_errs h <= hs_total h;
}.

Lemma cleared_sane : sane cleared.
Proof. split; cbn; lia. Qed.

Lemma double_small n c : 0 <= n <= c -> 0 < c < 2 ^ 53 -> small 53 c 0 (double_of_int n) /\ nonneg (double_of_int n).
Proof. intros Hn Hc. destruct (of_Z_le 53 1024 ltac:(lia) ltac:(lia) n c false) as [H1 H2]; [lia | done |]. split; [done |]. apply H2. lia. Qed.

Lemma float_small n c : Z.abs n <= c -> 0 < c < 2 ^ 24 -> small 24 c 0 (float_of_int n) /\ (0 <= n -> nonneg (float_of_int n)).
Proof. intros Hn Hc. by apply (of_Z_le 24 128 ltac:(lia) ltac:(lia)). Qed.

Lemma format_53 c : 0 < c < 2 ^ 53 -> format_ok 53 1024 c 0.
Proof. intros Hc. unfold format_ok. lia. Qed.

Lemma dmul_small x y c1 c2 c : small 53 c1 0 x -> small 53 c2 0 y -> c1 * c2 <= c -> 0 < c < 2 ^ 53 -> small 53 c 0 (dmul x y) /\ (nonneg x -> nonneg y -> nonneg (dmul x y)).
Proof. intros Hx Hy Hc Hf. exact (SFmul_small 53 1024 ltac:(lia) ltac:(lia) x y c1 c2 c 0 Hx Hy ltac:(rewrite Z.pow_0_r; lia) (format_53 c Hf)). Qed.

(** [1 - x / y] for a quotient of at most [c]. *)
Lemma rest_small x y a n c : small 53 a 0 x -> nonneg x -> at_least n y -> a <= c * n -> 0 < c < 2 ^ 53 -> small 53 c 0 (dsub (double_of_int 1) (ddiv x y)).
Proof.
  intros Hx Nx Hy Ha Hc. destruct (SFdiv_small 53 1024 ltac:(lia) ltac:(lia) x y a n c Hx Nx Hy Ha (format_53 c Hc)) as [D1 D2]. destruct (double_small 1 c) as [S1 S2]; [lia | done |].
  by apply (SFsub_small 53 1024); try lia; try done; apply format_53.
Qed.

Lemma to_double_small c x : 0 < c < 2 ^ 53 -> small 24 c 0 x -> small 53 c 0 (to_double x).
Proof. intros Hc. destruct x as [| | | s m e]; try done. intros [_ Hb]. apply (round_small 53 1024 ltac:(lia) ltac:(lia)); [by apply format_53 | done]. Qed.

Lemma to_float_small c x : 0 < c < 2 ^ 24 -> small 53 c 0 x -> small 24 c 0 (to_float x).
Proof. intros Hc. destruct x as [| | | s m e]; try done. intros [_ Hb]. apply (round_small 24 128 ltac:(lia) ltac:(lia)); [unfold format_ok; lia | done]. Qed.

Lemma SFltb_false p e m e' : SFltb (S754_finite false p e) (S754_finite false m e') = false -> e' < e \/ (e' = e /\ Z.pos m <= Z.pos p).
Proof.
  unfold SFltb, SFcompare. change IntDef.Z.compare with Z.compare. change (Pos.compare_cont Eq p m) with (Pos.compare p m).
  destruct (Z.compare_spec e e') as [-> | |]; [| done | by left]. destruct (Pos.compare_spec p m); [right; split; [done | lia] | done | right; split; [done | lia]].
Qed.

(** [std::min] with 50 is at most 50. *)
Lemma min_50 x c : small 53 c 0 x -> nonneg x -> small 53 50 0 (std_min x (double_of_int 50)).
Proof.
  intros Hx Nx. unfold std_min. destruct (SFltb (double_of_int 50) x) eqn:E; [apply double_small; lia |].
  destruct x as [| | | s m e]; try done. cbn in Nx. subst s. destruct Hx as [Hm _]. split; [done |].
  change (double_of_int 50) with (S754_finite false 7036874417766400 (-47)) in E. apply SFltb_false in E as [He | [-> Hle]].
  - apply (le_bnd_at e); [lia | lia |]. rewrite Z.sub_diag, Z.mul_1_r. assert (2 ^ 48 <= 2 ^ (0 - e)) by (apply Z.pow_le_mono_r; lia). lia.
  - apply (le_bnd_at (-47)); [lia | lia |]. rewrite Z.sub_diag, Z.mul_1_r. change (50 * 2 ^ (0 - -47)) with 7036874417766400. done.
Qed.

Lemma base_at_least n : 0 < n < 2 ^ 24 -> at_least n (float_of_int n) /\ at_least n (to_double (float_of_int n)).
Proof.
  intros Hn. destruct (of_Z_exact 24 128 ltac:(lia) ltac:(lia) n false Hn) as (Hl & m & e & E & Hm & He). split; [done |]. unfold float_of_int in *. rewrite E in Hl |- *. cbn [to_double].
  apply (round_at_least 53 1024 ltac:(lia) ltac:(lia)); [done | lia |]. unfold emin in *. std_int. lia.
Qed.

(** The weight of sane counters is at most 50 * 4 * 1 * 10. *)
Lemma weight_small rate h : sane h -> small 24 1 0 rate -> small 24 2000 0 (HolderStats_getWeight rate h).
Proof.
  intros [S1 S2 S3 S4 S5 S6] Hrate. unfold HolderStats_getWeight. assert (u32 (hs_total h + 20) = hs_total h + 20) as -> by (apply uwrap_id; unfold in_u; lia).
  assert (u32 (hs_usedTime h + 1) = hs_usedTime h + 1) as -> by (apply uwrap_id; unfold in_u; lia). assert (u32 (1 * hs_doing h) = hs_doing h) as -> by (rewrite Z.mul_1_l; apply uwrap_id; unfold in_u; lia).
  destruct (base_at_least (hs_total h + 20) ltac:(lia)) as [Bf Bd]. set (base := float_of_int (hs_total h + 20)) in *.
  destruct (double_small (hs_oks h) (2 ^ 32)) as [O1 O2]; [lia | lia |]. destruct (double_small 1 1) as [I1 I2]; [lia | lia |]. destruct (double_small 2 2) as [T1 T2]; [lia | lia |].
  destruct (dmul_small _ _ _ _ (2 ^ 32) O1 I1) as [P1 P2]; [lia | lia |]. destruct (of_Z_exact 53 1024 ltac:(lia) ltac:(lia) (hs_usedTime h + 1) false) as [U1 _]; [lia |].
  destruct (SFdiv_small 53 1024 ltac:(lia) ltac:(lia) _ _ _ _ (2 ^ 32) P1 (P2 O2 I2) U1) as [Q1 Q2]; [lia | by apply format_53 |]. destruct (dmul_small _ _ _ _ (2 ^ 33) Q1 T1) as [V1 V2]; [lia | lia |].
  pose proof (min_50 _ _ V1 (V2 Q2 T2)) as Hspeed. set (speed := std_min _ _) in *. clearbody speed.
  assert (small 53 4 0 (dsub (double_of_int 1) (ddiv (dmul (double_of_int 4) (double_of_int (hs_timeouts h))) (to_double base)))) as Htime.
  { destruct (double_small 4 4) as [A1 A2]; [lia | lia |]. destruct (double_small (hs_timeouts h) (hs_total h + 20)) as [B1 B2]; [lia | lia |]. destruct (dmul_small _ _ _ _ (4 * (hs_total h + 20)) A1 B1) as [C1 C2]; [lia | lia |].
    apply (rest_small _ _ _ _ _ C1 (C2 A2 B2) Bd); lia. }
  assert (small 53 10 0 (dsub (double_of_int 1) (ddiv (dmul (double_of_int 10) (double_of_int (hs_errs h))) (to_double base)))) as Herrs.
  { destruct (double_small 10 10) as [A1 A2]; [lia | lia |]. destruct (double_small (hs_errs h) (hs_total h + 20)) as [B1 B2]; [lia | lia |]. destruct (dmul_small _ _ _ _ (10 * (hs_total h + 20)) A1 B1) as [C1 C2]; [lia | lia |].
    apply (rest_small _ _ _ _ _ C1 (C2 A2 B2) Bd); lia. }
  assert (small 24 1 0 (fsub (float_of_int 1) (fdiv (float_of_int (hs_doing h)) base))) as Hdoing.
  { destruct (float_small (hs_doing h) (hs_total h + 20)) as [A1 A2]; [lia | lia |]. destruct (float_small 1 1) as [B1 B2]; [lia | lia |].
    destruct (SFdiv_small 24 128 ltac:(lia) ltac:(lia) _ _ _ _ 1 A1 (A2 ltac:(lia)) Bf) as [C1 C2]; [lia | unfold format_ok; lia |]. apply (SFsub_small 24 128); try done; try lia; try (apply B2; lia); unfold format_ok; lia. }
  apply to_float_small; [lia |]. apply (dmul_small _ _ 2000 1); [| by apply to_double_small | lia | lia]. apply (dmul_small _ _ 200 10); [| done | lia | lia]. apply (dmul_small _ _ 200 1); [| by apply to_double_small | lia | lia]. by apply (dmul_small _ _ 50 4).
Qed.

Lemma fadd_small x y c1 c2 : small 24 c1 0 x -> small 24 c2 0 y -> 0 <= c1 -> 0 <= c2 -> 0 < c1 + c2 < 2 ^ 24 -> small 24 (c1 + c2) 0 (fadd x y).
Proof. intros Hx Hy H1 H2 H. by apply (SFadd_small 24 128); try lia; try done; unfold format_ok; lia. Qed.

Lemma rates_small : Forall (fun i => small 24 1 0 (rate_at i)) [1; 2; 3; 4]%nat.
Proof. rewrite !list.Forall_cons. split_and!; [..| constructor]; vm_compute; (split; [reflexivity | discriminate]). Qed.

Lemma int_of_small x : small 24 8000 17 x -> exists v, int_of_float x = Some v /\ Z.abs v <= 8000 * 2 ^ 17.
Proof.
  destruct x as [s | | | s m e]; try done; [by exists 0 |]. intros [_ Hb]. assert (0 <= Z.shiftl (Z.pos m) e <= 8000 * 2 ^ 17) as Hv.
  { split; [apply Z.shiftl_nonneg; lia |]. destruct (Z.le_gt_cases 0 e) as [He | He].
    - rewrite Z.shiftl_mul_pow2 by done. apply (le_bnd_at 0) in Hb; [| lia | lia]. rewrite !Z.sub_0_r in Hb. done.
    - rewrite Z.shiftl_div_pow2 by lia. apply (le_bnd_at e) in Hb; [| lia | lia]. apply Z.div_le_upper_bound; [apply Z.pow_pos_nonneg; lia |].
      rewrite Z.sub_diag, Z.mul_1_r in Hb. replace (17 - e) with (17 + - e) in Hb by lia. rewrite Z.pow_add_r in Hb by lia. lia. }
  unfold int_of_float, cond_Zopp. std_int. set (v := Z.shiftl (Z.pos m) e) in *. exists (if s then - v else v). split; [| destruct s; lia].
  destruct ((- 2 ^ 31 <=? (if s then - v else v)) && ((if s then - v else v) <? 2 ^ 31)) eqn:E; [done |]. destruct s; lia.
Qed.

Lemma clear_loop_sane n : forall t now stats, Forall sane stats -> Forall sane (clear_loop n t now stats).
Proof. induction n as [|n IH]; intros t now stats Hs; cbn [clear_loop]; [done |]. destruct (t <=? now); [| done]. apply IH. apply Forall_insert; [done | apply cleared_sane]. Qed.

Lemma stats_init_sane now st : Forall sane (ss_stats st) -> Forall sane (ss_stats (stats_init now st)).
Proof. intros Hs. unfold stats_init. destruct (ss_last st <? now); [by apply clear_loop_sane | done]. Qed.

Lemma clear_loop_length n : forall t now stats, length (clear_loop n t now stats) = length stats.
Proof. induction n as [|n IH]; intros t now stats; cbn [clear_loop]; [done |]. destruct (t <=? now); [| done]. by rewrite IH, length_insert. Qed.

Lemma stats_init_length now st : length (ss_stats (stats_init now st)) = length (ss_stats st).
Proof. unfold stats_init. destruct (ss_last st <? now); [apply clear_loop_length | done]. Qed.

(** The sum over the four seconds before the present one. *)
Lemma set_weight_small now st : Forall sane (ss_stats st) -> length (ss_stats st) = 5%nat -> exists w, HolderStatsSet_getWeight now st = Ret w (stats_init now st) /\ small 24 8000 0 w.
Proof.
  intros Hs Hl. set (at_ := fun i : nat => default cleared (ss_stats (stats_init now st) !! slot 5 (u64 (now - Z.of_nat i)))).
  assert (forall i, sane (at_ i)) as Hat. { intros i. unfold at_. destruct (_ !! _) as [h |] eqn:E; [| apply cleared_sane]. eapply Forall_lookup_1; [by apply stats_init_sane | exact E]. }
  assert (weight_terms now st = Ret [at_ 1; at_ 2; at_ 3; at_ 4]%nat (stats_init now st)) as Ew.
  { unfold weight_terms. do 2 (erewrite bind_Ret by done). rewrite stats_init_length, Hl. done. }
  eexists. split; [unfold HolderStatsSet_getWeight; by erewrite bind_Ret by exact Ew |]. cbn [length seq zip zip_with foldl]. pose proof rates_small as Hr. rewrite !list.Forall_cons in Hr. destruct Hr as (R1 & R2 & R3 & R4 & _).
  pose proof (weight_small _ _ (Hat 1%nat) R1) as W1. pose proof (weight_small _ _ (Hat 2%nat) R2) as W2. pose proof (weight_small _ _ (Hat 3%nat) R3) as W3. pose proof (weight_small _ _ (Hat 4%nat) R4) as W4.
  apply (fadd_small _ _ 6000 2000); [| exact W4 | lia | lia | lia]. apply (fadd_small _ _ 4000 2000); [| exact W3 | lia | lia | lia]. apply (fadd_small _ _ 2000 2000); [| exact W2 | lia | lia | lia]. apply (fadd_small _ _ 0 2000); [exact I | exact W1 | lia | lia | lia].
Qed.

(** With sane counters the weight fits an [int]. *)
Lemma fair_value_sane env it : Forall sane (ss_stats (e_stats env it)) -> length (ss_stats (e_stats env it)) = 5%nat -> Z.abs (it_weight it) <= 2 ^ 17 ->
  exists v, fair_value env it = Some v /\ Z.abs v <= 8000 * 2 ^ 17.
Proof.
  intros Hs Hl Hw. destruct (set_weight_small (e_now env) (e_stats env it) Hs Hl) as (w & E & Hsm). unfold fair_value. rewrite E. apply int_of_small. destruct (float_small (it_weight it) (2 ^ 17)) as [F1 _]; [done | lia |].
  apply (SFmul_small 24 128 ltac:(lia) ltac:(lia) _ _ _ _ 8000 17 F1 Hsm); [lia | unfold format_ok; lia].
Qed.

(** The counters of an item with a request that took five seconds: [_doing] is
    taken down in a slot that has been given to a later second. *)
Definition slow_stats : HolderStatsSet :=
  match (k ← stats_get 10; on_slot k (inc Doing 1);; k' ← stats_get 15; on_slot k (decDoing 1);; on_slot k' (inc Total 1);; on_slot k' (inc Oks 1)) (new_HolderStatsSet 5) with
  | Ret _ s => s
  | _ => new_HolderStatsSet 5
  end.

(** ** Choosing an item *)

(** The weights of the items when the sums were made. *)
Fixpoint running (total : Z) (per : list Z) : list Z :=
  match per with
  | [] => []
  | w :: per => total + w :: running (total + w) per
  end.

Definition sum_list (l : list Z) : Z := foldr Z.add 0 l.

(** The weight an item is to have: its own, or, for a fair item, what its
    counters give, but at least 1. *)
Definition share (env : Env) (it : LoadBalanceItem) : Z := if it_fair it then Z.max 1 (default 1 (fair_value env it)) else it_weight it.

(** The items a balancer is given: a fixed weight is a positive [int]; what the
    counters of a fair item give fits an [int]. *)
Definition item_ok (env : Env) (it : LoadBalanceItem) : Prop := if it_fair it then is_Some (fair_value env it) else 0 < it_weight it < 2 ^ 31.

Lemma fair_value_int env it v : fair_value env it = Some v -> v < 2 ^ 31.
Proof.
  unfold fair_value, int_of_float. destruct (HolderStatsSet_getWeight _ _) as [w ? | |]; [| done | done]. destruct (fmul _ w) as [z | z | | z m e]; try done; [by intros [= <-] |]. case_match eqn:E; [| done]. intros [= <-]. lia.
Qed.

Lemma item_weight_ok {T} env it (t : T) : item_ok env it -> isValid (e_conn env) it = true -> item_weight env it t = Ret (share env it) t /\ 0 < share env it < 2 ^ 31.
Proof.
  unfold item_ok, isValid, item_weight, share. destruct (it_fair it); [| done]. intros [v E] Hv. pose proof (fair_value_int env it v E). rewrite E. destruct (it_stream it) as [s |]; [| done]. rewrite Hv. cbn [default from_option]. unfold id.
  split; [| lia]. destruct (Z.ltb_spec 1 v); unfold mret, M_ret; f_equal; lia.
Qed.

Lemma sums_running {T} env items (t : T) : Forall (item_ok env) items -> Forall (fun it => isValid (e_conn env) it = true) items ->
  forall total, sums env total items t = Ret (running total (map (share env) items)) t /\ Forall (fun w => 0 < w < 2 ^ 31) (map (share env) items).
Proof.
  intros Ho. induction Ho as [|it items Ho1 Ho IH]; intros Hv total; [split; [done | constructor] |]. apply list.Forall_cons_1 in Hv as [Hv1 Hv]. destruct (item_weight_ok env it t Ho1 Hv1) as [E Hw]. destruct (IH Hv (total + share env it)) as [Es Hp].
  cbn [sums map running]. erewrite bind_Ret by exact E. erewrite bind_Ret by exact Es. split; [done | by constructor].
Qed.

(** What the counters of a fair item give does not fit an [int]. *)
Definition overflows (env : Env) (it : LoadBalanceItem) : Prop := it_fair it = true /\ fair_value env it = None.

Lemma sums_overflow {T} env items (t : T) : Forall (fun it => isValid (e_conn env) it = true) items -> Exists (overflows env) items -> forall total, sums env total items t = Undef BadConversion.
Proof.
  intros Hv. induction Hv as [|it items Hv1 Hv IH]; intros Hex total; [by apply Exists_nil in Hex |]. cbn [sums].
  assert (item_weight env it t = Undef BadConversion \/ (~ overflows env it /\ exists w, item_weight env it t = Ret w t)) as [E | [Hno [w E]]].
  { unfold item_weight, overflows, isValid in *. destruct (it_fair it); [| right; split; [by intros [] | by eexists]]. destruct (fair_value env it); [| by left]. right. split; [by intros [] |]. destruct (it_stream it); [by eexists | done]. }
  - by rewrite bind_Undef with (u := BadConversion).
  - erewrite bind_Ret by exact E. apply Exists_cons in Hex as [Hex | Hex]; [by destruct Hno |]. by rewrite bind_Undef with (u := BadConversion) by (by apply IH).
Qed.

Lemma running_last total per w : list.last (running total (per ++ [w])) = Some (total + sum_list (per ++ [w])).
Proof. revert total. induction per as [|x per IH]; intros total; cbn; [f_equal; lia |]. specialize (IH (total + x)). destruct per; cbn in *; rewrite IH; f_equal; unfold sum_list; cbn; lia. Qed.

Lemma running_length total per : length (running total per) = length per.
Proof. revert total. induction per as [|x per IH]; intros total; cbn; [done | by rewrite IH]. Qed.

Lemma sum_bound per : Forall (fun w => 0 < w < 2 ^ 31) per -> 0 <= sum_list per <= Z.of_nat (length per) * 2 ^ 31.
Proof. induction 1 as [|w per Hw _ IH]; unfold sum_list in *; cbn [foldr length]; lia. Qed.

Lemma running_above per dis t : Forall (fun w => 0 < w < 2 ^ 31) per -> 0 <= t -> t + Z.of_nat (length per) * 2 ^ 31 < 2 ^ 63 -> dis < t -> Forall (fun x => (dis <? u64 x) = true) (running t per).
Proof.
  intros Hp. revert t. induction Hp as [|y per Hy Hp IH]; intros t H0 Hb Hlt; cbn [running length] in *; constructor; [unfold u64; rewrite uwrap_id by (unfold in_u; lia); apply Z.ltb_lt; lia |]. apply IH; lia.
Qed.

(** [upper_bound] on the sums: the item whose share [dis] falls into. *)
Lemma running_bound per total dis (i : nat) w : Forall (fun w => 0 < w < 2 ^ 31) per -> 0 <= total -> total + Z.of_nat (length per) * 2 ^ 31 < 2 ^ 63 -> 0 <= dis ->
  per !! i = Some w -> total + sum_list (take i per) <= dis < total + sum_list (take i per) + w -> upper_bound dis (running total per) = Some i.
Proof.
  intros Hp Ht Hb Hd Hi Hr. assert (first_above dis (running total per) = i /\ Forall (fun x => (dis <? u64 x) = true) (drop i (running total per))) as [E F].
  { revert total i Ht Hb Hi Hr. induction Hp as [|x per Hx Hp IH]; intros total i Ht Hb Hi Hr; [done |]. cbn [running first_above length] in *. assert (u64 (total + x) = total + x) as Eu by (apply uwrap_id; unfold in_u; lia). rewrite Eu. destruct i as [|i]; cbn [take] in Hr.
    - cbn in Hi, Hr. injection Hi as ->. destruct (Z.ltb_spec dis (total + w)); [| lia]. split; [done |]. rewrite drop_0. constructor; [rewrite Eu; by apply Z.ltb_lt |]. apply running_above; [done | lia | lia | done].
    - cbn in Hi. unfold sum_list in *. cbn [foldr] in Hr. pose proof (sum_bound (take i per) (Forall_take _ _ _ Hp)) as Ht'. unfold sum_list in Ht'. destruct (Z.ltb_spec dis (total + x)); [lia |]. cbn [drop]. destruct (IH (total + x) i) as [E F]; [lia | lia | done | lia |]. split; [by rewrite E | done]. }
  unfold upper_bound. rewrite E. assert (forallb (fun w => dis <? u64 w) (drop i (running total per)) = true) as -> by (apply forallb_forall; intros y Hy; apply list_elem_of_In in Hy; by apply (proj1 (list.Forall_forall _ _) F)). done.
Qed.

Lemma next_valid_Some conn items start i n it : next_valid conn items start i n = Some it -> it ∈ items /\ isValid conn it = true.
Proof.
  revert i. induction n as [|n IH]; intros i; cbn [next_valid]; [done |]. destruct (items !! _) as [h |] eqn:E; [| done]. destruct (isValid conn h) eqn:Ev; [| apply IH]. intros [= <-]. split; [by eapply list_elem_of_lookup_2 | done].
Qed.

Lemma next_valid_None conn items start i n : items <> [] -> next_valid conn items start i n = None ->
  forall k h, (i <= k < i + n)%nat -> items !! ((start + k) mod length items)%nat = Some h -> isValid conn h = false.
Proof.
  intros Hne. assert (length items <> 0%nat) as Hl by (by destruct items). revert i. induction n as [|n IH]; intros i Hn k h Hk Eh; [lia |]. cbn [next_valid] in Hn. destruct (lookup_lt_is_Some_2 items ((start + i) mod length items)) as [h' E]; [by apply Nat.mod_upper_bound |]. rewrite E in Hn.
  destruct (isValid conn h') eqn:Ev; [done |]. destruct (decide (k = i)) as [-> |]; [congruence |]. apply (IH (S i) Hn k); [lia | done].
Qed.

(** Once round, every item is looked at. *)
Lemma next_valid_all conn items start : (start < length items)%nat -> next_valid conn items start 0 (length items) = None -> forall it, it ∈ items -> isValid conn it = false.
Proof.
  intros Hs Hn it Hit. apply list_elem_of_lookup_1 in Hit as [j Hj]. pose proof (lookup_lt_Some _ _ _ Hj) as Hjl. assert (items <> []) as Hne by (intros ->; cbn in *; lia).
  destruct (Nat.le_gt_cases start j).
  - apply (next_valid_None _ _ _ _ _ Hne Hn (j - start)%nat); [lia |]. replace (start + (j - start))%nat with j by lia. by rewrite Nat.mod_small.
  - apply (next_valid_None _ _ _ _ _ Hne Hn (length items + j - start)%nat); [lia |]. replace (start + (length items + j - start))%nat with (j + 1 * length items)%nat by lia. by rewrite Nat.Div0.mod_add, Nat.mod_small.
Qed.

Lemma next_valid_first conn items start it : items !! start = Some it -> isValid conn it = true -> next_valid conn items start 0 (length items) = Some it.
Proof.
  intros Hi Hv. pose proof (lookup_lt_Some _ _ _ Hi) as Hl. destruct (length items) as [|n] eqn:El; [lia |]. cbn [next_valid]. rewrite Nat.add_0_r, El, Nat.mod_small, Hi, Hv by lia. done.
Qed.

Section Choice.
Context (walk : gmap Z LoadBalanceItem -> list LoadBalanceItem).
Hypothesis walk_spec : forall m, walk m ≡ₚ (map_to_list m).*2.

(** [per]: the weights of the items at the last refresh. *)
Definition weighed (b : LoadBalance) (per : list Z) : Prop := lb_weights b = running 0 per /\ length per = length (lb_items b) /\ Forall (fun w => 0 < w < 2 ^ 31) per.

Record lb_ok (per : list Z) (b : LoadBalance) : Prop := {
  lo_items : Z.of_nat (length (lb_items b)) < 2 ^ 31;
  lo_weights : lb_weighted b = true -> weighed b per;
}.

(** The items of a map that are valid now. *)
Definition valid_items (conn : nat -> bool) (d : gmap Z LoadBalanceItem) : list LoadBalanceItem := filter (fun it => isValid conn it = true) (map_to_list d).*2.

(** The balancer has just been refreshed: it has the items that are valid, with
    their weights. *)
Definition fresh (env : Env) (b : LoadBalance) (per : list Z) : Prop := lb_items b ≡ₚ valid_items (e_conn env) (lb_datas b) /\ per = map (share env) (lb_items b).

Lemma initNolock_spec env b : map_Forall (fun _ it => item_ok env it) (lb_datas b) -> Z.of_nat (size (lb_datas b)) < 2 ^ 31 ->
  exists per b', initNolock walk env b = Ret tt b' /\ lb_ok per b' /\ fresh env b' per /\ lb_datas b' = lb_datas b /\ lb_weighted b' = lb_weighted b /\ lb_lastInitTime b' = lb_lastInitTime b.
Proof.
  intros Hd Hs. set (items := filter (fun it => isValid (e_conn env) it = true) (walk (lb_datas b))). assert (items ≡ₚ valid_items (e_conn env) (lb_datas b)) as Hp by (unfold items, valid_items; by rewrite walk_spec).
  assert (Forall (fun it => isValid (e_conn env) it = true) items) as Hv by (apply list.Forall_forall; intros it Hit; by apply list_elem_of_filter in Hit as [? _]).
  assert (Forall (item_ok env) items) as Ho.
  { apply list.Forall_forall. intros it Hit. apply list_elem_of_filter in Hit as [_ Hit]. rewrite walk_spec in Hit. apply list_elem_of_fmap in Hit as ([id it'] & -> & Hit). apply elem_of_map_to_list in Hit. by apply (Hd id). }
  assert (Z.of_nat (length items) < 2 ^ 31) as Hl.
  { rewrite Hp. unfold valid_items. pose proof (length_filter (fun it => isValid (e_conn env) it = true) (map_to_list (lb_datas b)).*2) as Hf. rewrite length_fmap, length_map_to_list in Hf. lia. }
  exists (map (share env) items). unfold initNolock. erewrite bind_Ret by done. fold items. destruct (sums_running env items b Ho Hv 0) as [E Hpos]. destruct (lb_weighted b) eqn:Ew.
  - erewrite bind_Ret by exact E. eexists. split; [done |]. split; [| by rewrite ?Ew]. split; cbn; [done |]. intros _. split; [done |]. by rewrite length_map.
  - eexists. split; [done |]. split; [by split | done].
Qed.

(** Some share holds every number below the sum. *)
Lemma share_exists per dis : Forall (fun w => 0 < w < 2 ^ 31) per -> 0 <= dis < sum_list per -> exists i w, per !! i = Some w /\ sum_list (take i per) <= dis < sum_list (take i per) + w.
Proof.
  intros Hp. revert dis. induction Hp as [|x per Hx Hp IH]; intros dis Hd; unfold sum_list in *; cbn [foldr] in Hd; [lia |]. destruct (Z.lt_ge_cases dis x); [exists 0%nat, x; cbn; split; [done | lia] |].
  destruct (IH (dis - x)) as (i & w & Hi & Hr); [lia |]. exists (S i), w. cbn. split; [done | lia].
Qed.

Lemma getIdx_spec b per v rnd : weighed b per -> Z.of_nat (length (lb_items b)) < 2 ^ 31 -> 0 <= pick_number v rnd -> per <> [] ->
  exists i w, per !! i = Some w /\ sum_list (take i per) <= pick_number v rnd mod sum_list per < sum_list (take i per) + w /\ getIdx v rnd b = Ret (Z.of_nat i) b.
Proof.
  intros (Ew & El & Hp) Hn Hv Hne. pose proof (sum_bound per Hp) as Hs. assert (0 < sum_list per) as Hpos by (destruct Hp as [|x per Hx Hp]; [done |]; pose proof (sum_bound per Hp); unfold sum_list in *; cbn [foldr]; lia).
  pose proof (Z.mod_pos_bound (pick_number v rnd) (sum_list per) Hpos) as Hm. destruct (share_exists per _ Hp Hm) as (i & w & Hi & Hr). exists i, w. split; [done |]. split; [done |]. pose proof (lookup_lt_Some _ _ _ Hi) as Hil.
  assert (list.last (lb_weights b) = Some (sum_list per)) as Elast by (rewrite Ew; destruct per as [|x l _] using rev_ind; [done | by rewrite running_last]).
  unfold getIdx. erewrite bind_Ret by done. rewrite Elast. assert (u64 (sum_list per) = sum_list per) as -> by (apply uwrap_id; unfold in_u; lia). destruct (Z.eqb_spec (sum_list per) 0); [lia |].
  rewrite Ew, (running_bound per 0 _ i w) by (done || lia). rewrite running_length. destruct (Nat.eqb_spec i (length per)); [lia |]. unfold mret, M_ret, i32. by rewrite swrap_id by (unfold in_s; lia).
Qed.

(** What [get] may answer. *)
Definition answer_ok (conn : nat -> bool) (v rnd : Z) (per : list Z) (b : LoadBalance) (r : option LoadBalanceItem) : Prop :=
  match r with
  | Some it => it ∈ lb_items b /\ isValid conn it = true
  | None => forall it, it ∈ lb_items b -> isValid conn it = false
  end /\
  (lb_weighted b = true -> forall i it w, lb_items b !! i = Some it -> per !! i = Some w -> isValid conn it = true ->
       sum_list (take i per) <= pick_number v rnd mod sum_list per < sum_list (take i per) + w -> r = Some it).

Lemma choose_spec conn v rnd per b : lb_ok per b -> 0 <= pick_number v rnd ->
  exists r, (if lb_weighted b then
      idx ← getIdx v rnd; if idx =? -1 then mret None else mret (next_valid conn (lb_items b) (Z.to_nat idx) 0 (length (lb_items b)))
    else match lb_items b with [] => mret None | _ => mret (next_valid conn (lb_items b) (Z.to_nat (u32 (pick_number v rnd mod Z.of_nat (length (lb_items b))))) 0 (length (lb_items b))) end) b = Ret r b /\ answer_ok conn v rnd per b r.
Proof.
  intros [L3 L4] Hv. destruct (lb_weighted b) eqn:Ew.
  - pose proof (L4 eq_refl) as Hper. destruct (decide (per = [])) as [-> | Hne].
    + exists None. pose proof Hper as (E & El & _). cbn in El. split; [unfold getIdx; unfold mbind at 1, M_bind at 1; erewrite bind_Ret by done; rewrite E; done |]. assert (lb_items b = []) as En by (by destruct (lb_items b)). split; [rewrite En; by intros it Hit%not_elem_of_nil |]. intros _. by intros i it w _ Hi.
    + destruct (getIdx_spec b per v rnd Hper L3 Hv Hne) as (i & w & Hi & Hr & E). pose proof Hper as (_ & El & Hp). pose proof (lookup_lt_Some _ _ _ Hi) as Hil. eexists. split; [erewrite bind_Ret by exact E; destruct (Z.eqb_spec (Z.of_nat i) (-1)); [lia |]; rewrite Nat2Z.id; reflexivity |]. split.
      * destruct (next_valid conn (lb_items b) i 0 (length (lb_items b))) as [it |] eqn:En; [by eapply next_valid_Some | by apply (next_valid_all _ _ i); [lia |]].
      * intros _ i' it w' Hit Hi' Hvalid Hr'. assert (i' = i) as ->; [| by apply next_valid_first]. pose proof (sum_bound (take i per) (Forall_take _ _ _ Hp)). 
        pose proof (running_bound per 0 (pick_number v rnd mod sum_list per) i w Hp ltac:(lia) ltac:(lia) ltac:(lia) Hi ltac:(lia)) as R1.
        pose proof (running_bound per 0 (pick_number v rnd mod sum_list per) i' w' Hp ltac:(lia) ltac:(lia) ltac:(lia) Hi' ltac:(lia)) as R2. congruence.
  - destruct (lb_items b) as [|it0 items] eqn:Ei; [exists None; split; [done |]; split; [rewrite Ei; by intros it Hit%not_elem_of_nil | by rewrite Ew] |]. rewrite <- Ei. eexists. split; [reflexivity |]. split; [| by rewrite Ew].
    set (start := Z.to_nat _). assert (start < length (lb_items b))%nat as Hst.
    { unfold start. assert (0 < Z.of_nat (length (lb_items b))) by (rewrite Ei; cbn; lia). pose proof (Z.mod_pos_bound (pick_number v rnd) (Z.of_nat (length (lb_items b))) ltac:(lia)). rewrite <- Ei in L3. unfold u32. rewrite uwrap_id by (unfold in_u; lia). lia. }
    destruct (next_valid conn (lb_items b) start 0 (length (lb_items b))) as [it |] eqn:En; [by eapply next_valid_Some | by apply (next_valid_all _ _ start)].
Qed.

(** ** Every sequence of calls *)

Inductive lb_call :=
| CAdd (it : LoadBalanceItem)
| CDel (it : LoadBalanceItem)
| CSet (vs : list LoadBalanceItem)
| CUpdate (adds : gmap Z LoadBalanceItem) (dels : gset Z)
| CGet (ts v rnd : Z).

Definition do_call (env : Env) (c : lb_call) : M LoadBalance (option LoadBalanceItem) :=
  match c with
  | CAdd it => lb_add walk env it;; mret None
  | CDel it => lb_del walk env it;; mret None
  | CSet vs => lb_set walk env vs;; mret None
  | CUpdate adds dels => lb_update walk env adds dels;; mret None
  | CGet ts v rnd => lb_get walk env ts v rnd
  end.

Definition datas_after (c : lb_call) (d : gmap Z LoadBalanceItem) : gmap Z LoadBalanceItem :=
  match c with
  | CAdd it => <[it_id it := it]> d
  | CDel it => delete (it_id it) d
  | CSet vs => foldl (fun d v => <[it_id v := v]> d) ∅ vs
  | CUpdate adds dels => adds ∪ filter (fun '(id, _) => id ∉ dels) d
  | CGet _ _ _ => d
  end.

Definition call_ok (env : Env) (c : lb_call) (d : gmap Z LoadBalanceItem) : Prop :=
  map_Forall (fun _ it => item_ok env it) (datas_after c d) /\ Z.of_nat (size (datas_after c d)) < 2 ^ 31 /\
  match c with CGet _ v rnd => 0 <= v /\ 0 <= rnd | _ => True end.

(** The items a balancer chooses from, and their weights, are those of the last
    change or refresh; [get] refreshes them after 500 ms. *)
Definition refreshed (env : Env) (c : lb_call) (b : LoadBalance) (per : list Z) (b' : LoadBalance) (per' : list Z) : Prop :=
  match c with
  | CGet ts _ _ => if 500 <? u64 (ts - lb_lastInitTime b) then fresh env b' per' /\ lb_lastInitTime b' = ts else b' = b /\ per' = per
  | _ => fresh env b' per'
  end.

Lemma call_spec env c b per : lb_ok per b -> call_ok env c (lb_datas b) ->
  exists r b' per', do_call env c b = Ret r b' /\ lb_ok per' b' /\ lb_weighted b' = lb_weighted b /\ lb_datas b' = datas_after c (lb_datas b) /\ refreshed env c b per b' per' /\
    match c with CGet _ v rnd => answer_ok (e_conn env) v rnd per' b' r | _ => r = None end.
Proof.
  intros Hb (Hd & Hs & Hc).
  assert (forall b1, lb_datas b1 = datas_after c (lb_datas b) -> exists per' b', initNolock walk env b1 = Ret tt b' /\ lb_ok per' b' /\ fresh env b' per' /\ lb_datas b' = datas_after c (lb_datas b) /\ lb_weighted b' = lb_weighted b1 /\ lb_lastInitTime b' = lb_lastInitTime b1) as Hinit.
  { intros b1 E. destruct (initNolock_spec env b1) as (per' & b' & R); [by rewrite E | by rewrite E |]. rewrite E in R. by exists per', b'. }
  destruct (Hinit (set_datas (datas_after c (lb_datas b)) b) eq_refl) as (per' & b' & E1 & R1 & R2 & R3 & R4 & R5). destruct c as [it | it | vs | adds dels | ts v rnd]; cbn [do_call].
  1-4: unfold lb_add, lb_del, lb_set, lb_update; exists None, b', per'.
  - split; [erewrite bind_Ret by (erewrite bind_Ret by reflexivity; exact E1); done | done].
  - split; [erewrite bind_Ret by (erewrite bind_Ret by reflexivity; exact E1); done | done].
  - split; [erewrite bind_Ret by (erewrite bind_Ret by reflexivity; exact E1); done | done].
  - split; [| done]. erewrite bind_Ret; [reflexivity |]. erewrite bind_Ret by reflexivity. cbn beta zeta. erewrite bind_Ret by reflexivity. by erewrite bind_Ret by exact E1.
  - unfold lb_get, checkInit. assert (0 <= pick_number v rnd) as Hp by (unfold pick_number; destruct (v =? 2 ^ 64 - 1); lia). cbn [refreshed]. destruct (500 <? u64 (ts - lb_lastInitTime b)) eqn:Et.
    + clear per' b' E1 R1 R2 R3 R4 R5. destruct (Hinit b eq_refl) as (per' & b1 & E1 & [O1 O2] & R2 & R3 & R4 & R5). set (b2 := mk_LB (lb_weighted b1) (lb_datas b1) (lb_items b1) (lb_weights b1) ts). assert (lb_ok per' b2) as O by (by split). destruct (choose_spec (e_conn env) v rnd per' b2 O Hp) as (r & E & A). exists r, b2, per'.
      split; [| done]. erewrite bind_Ret by (erewrite bind_Ret by reflexivity; rewrite Et; erewrite bind_Ret by exact E1; reflexivity). fold b2. erewrite bind_Ret by reflexivity. exact E.
    + destruct (choose_spec (e_conn env) v rnd per b Hb Hp) as (r & E & A). exists r, b, per. split; [| done]. erewrite bind_Ret by (erewrite bind_Ret by reflexivity; rewrite Et; reflexivity). erewrite bind_Ret by reflexivity. exact E.
Qed.

(** The call makes the list of items anew. *)
Definition refreshes (c : lb_call) (b : LoadBalance) : Prop := match c with CGet ts _ _ => 500 < u64 (ts - lb_lastInitTime b) | _ => True end.

Lemma init_overflow env b : lb_weighted b = true -> (exists id it, lb_datas b !! id = Some it /\ isValid (e_conn env) it = true /\ overflows env it) -> initNolock walk env b = Undef BadConversion.
Proof.
  intros Hw (id & it & Hit & Hv & Ho). unfold initNolock. erewrite bind_Ret by done. rewrite Hw. apply bind_Undef. apply sums_overflow.
  - apply list.Forall_forall. intros it' Hit'. by apply list_elem_of_filter in Hit' as [? _].
  - apply Exists_exists. exists it. split; [| done]. apply list_elem_of_filter. split; [done |]. rewrite walk_spec. apply list_elem_of_fmap. exists (id, it). split; [done |]. by apply elem_of_map_to_list.
Qed.

Lemma call_overflow env c b : lb_weighted b = true -> refreshes c b -> (exists id it, datas_after c (lb_datas b) !! id = Some it /\ isValid (e_conn env) it = true /\ overflows env it) -> do_call env c b = Undef BadConversion.
Proof.
  intros Hw Hr Hex. pose proof (init_overflow env (set_datas (datas_after c (lb_datas b)) b) Hw Hex) as E. destruct c as [it | it | vs | adds dels | ts v rnd]; cbn [do_call datas_after] in *.
  - apply bind_Undef. unfold lb_add. by erewrite bind_Ret by done.
  - apply bind_Undef. unfold lb_del. by erewrite bind_Ret by done.
  - apply bind_Undef. unfold lb_set. by erewrite bind_Ret by done.
  - apply bind_Undef. unfold lb_update. do 2 (erewrite bind_Ret by done). by apply bind_Undef.
  - cbn in Hr. unfold lb_get, checkInit. apply bind_Undef. erewrite bind_Ret by done. destruct (Z.ltb_spec 500 (u64 (ts - lb_lastInitTime b))); [| lia]. apply bind_Undef. by apply init_overflow.
Qed.

Lemma new_ok weighted : lb_ok [] (new_LoadBalance weighted).
Proof. split; cbn; [lia |]. intros _. by repeat split; constructor. Qed.

(** C29: the balancers.  From an empty balancer of either kind, every call whose
    items have a positive fixed weight, or counters whose weight fits an [int],
    runs without undefined behaviour and without a failed assertion, and changes
    the map of items as it says; a change or a refresh (every 500 ms) takes the
    items that are valid, each with its weight: the fixed one, or what the
    counters give, at least 1 ([share]).  [get] answers an item that is valid
    now, and nothing only when no item it may choose from is valid; a weighted
    balancer answers, for each number that falls into the share of an item of
    the interval of all weights, that item if it is valid, so that each item
    gets as many of the numbers as its weight.  The map is walked in any order.
    The weight of a fair item, computed in [float] and [double], fits an [int]
    when its counters are sane and [_weight] is at most 2^17.  But a refresh
    with an item whose weight does not fit is undefined behaviour, and this is
    reached by a request that takes five seconds, after which [_doing] has
    wrapped. *)
Theorem balancer_calls : (forall weighted, lb_ok [] (new_LoadBalance weighted)) /\
  (forall env c b per, lb_ok per b -> call_ok env c (lb_datas b) -> exists r b' per', do_call env c b = Ret r b' /\ lb_ok per' b' /\ lb_weighted b' = lb_weighted b /\ lb_datas b' = datas_after c (lb_datas b) /\ refreshed env c b per b' per' /\
     match c with CGet _ v rnd => answer_ok (e_conn env) v rnd per' b' r | _ => r = None end) /\
  (forall env it, it_fair it = true -> Forall sane (ss_stats (e_stats env it)) -> length (ss_stats (e_stats env it)) = 5%nat -> Z.abs (it_weight it) <= 2 ^ 17 -> item_ok env it) /\
  (forall env c b, lb_weighted b = true -> refreshes c b -> (exists id it, datas_after c (lb_datas b) !! id = Some it /\ isValid (e_conn env) it = true /\ overflows env it) -> do_call env c b = Undef BadConversion) /\
  (forall conn id stream, overflows (mk_Env conn (fun _ => slow_stats) 16) (createLoadBalanceItem FAIR id stream 10000)).
Proof.
  split; [apply new_ok |]. split; [apply call_spec |]. split; [| split; [apply call_overflow |]].
  - intros env it Hf Hs Hl Hw. unfold item_ok. rewrite Hf. destruct (fair_value_sane env it Hs Hl Hw) as (v & E & _). by exists v.
  - intros conn id stream. split; [done |]. vm_compute. reflexivity.
Qed.

(** ** Services that come and go *)

Context {Info : Type}.

(** The balancer [onServiceChange] works on. *)
Definition service (key : Z * Z) (s : SDLoadBalance) : LoadBalance := default (createLoadBalance (sd_getType key s)) (sd_datas s !! key).

(** The item of an instance that appeared. *)
Definition new_item (cb : Info -> option nat) (key : Z * Z) (s : SDLoadBalance) (old_value new_value : gmap Z Info) (id : Z) : option LoadBalanceItem :=
  info ← (new_value ∖ old_value) !! id; stream ← cb info; Some (createLoadBalanceItem (sd_getType key s) id stream 10000).

Lemma sd_get_create key s : exists s', sd_get key true s = Ret (Some (service key s)) s' /\ sd_types s' = sd_types s /\ forall lb, <[key := lb]> (sd_datas s') = <[key := lb]> (sd_datas s).
Proof.
  unfold sd_get, service. unfold mbind at 1, M_bind at 1, get. destruct (sd_datas s !! key) as [lb |] eqn:E; cbn [default]; [by exists s |]. eexists. split; [reflexivity |]. split; [done |]. intros lb. cbn. by rewrite insert_insert_eq.
Qed.

(** C31: services.  [onServiceChange] takes the instances that are gone out of the
    balancer of the service and closes their streams, puts in an item for each
    new instance whose stream could be made, and keeps the others; the balancer
    keeps its invariant and has been refreshed, when the weights of its items
    fit an [int].  When it had the instances of the old value and all
    streams can be made, it has those of the new value. *)
Theorem services_follow env (cb : Info -> option nat) key (old_value new_value : gmap Z Info) s per : lb_ok per (service key s) -> map_Forall (fun _ it => item_ok env it) (lb_datas (service key s)) ->
  (forall id stream, item_ok env (createLoadBalanceItem (sd_getType key s) id stream 10000)) -> Z.of_nat (size (lb_datas (service key s)) + size new_value) < 2 ^ 31 ->
  exists closed s' lb' per', onServiceChange walk env cb key old_value new_value s = Ret closed s' /\ sd_datas s' = <[key := lb']> (sd_datas s) /\ lb_ok per' lb' /\ fresh env lb' per' /\
    (forall id, lb_datas lb' !! id = match new_item cb key s old_value new_value id with
                                    | Some it => Some it
                                    | None => if decide (id ∈ dom old_value ∖ dom new_value) then None else lb_datas (service key s) !! id
                                    end) /\
    (forall id, closed !! id = if decide (id ∈ dom old_value ∖ dom new_value) then lb_datas (service key s) !! id ≫= it_stream else None) /\
    ((forall id, is_Some (lb_datas (service key s) !! id) <-> is_Some (old_value !! id)) -> (forall id info, new_value !! id = Some info -> is_Some (cb info)) ->
     forall id, is_Some (lb_datas lb' !! id) <-> is_Some (new_value !! id)).
Proof.
  intros Hok Hold Hnew Hsize. destruct (sd_get_create key s) as (s1 & E1 & Et & Es). set (lb := service key s) in *.
  set (adds := map_imap (fun id info => stream ← cb info; Some (createLoadBalanceItem (sd_getType key s) id stream 10000)) (new_value ∖ old_value)). set (dels := dom old_value ∖ dom new_value).
  assert (forall id, adds !! id = new_item cb key s old_value new_value id) as Hadds by (intros id; unfold adds, new_item; by rewrite map_lookup_imap).
  set (d := adds ∪ filter (fun '(id, _) => id ∉ dels) (lb_datas lb)).
  assert (forall id, d !! id = match new_item cb key s old_value new_value id with Some it => Some it | None => if decide (id ∈ dels) then None else lb_datas lb !! id end) as Hdat.
  { intros id. unfold d. rewrite lookup_union, Hadds, map_lookup_filter. destruct (new_item cb key s old_value new_value id) as [it |]; [by destruct (lb_datas lb !! id); cbn; [destruct (guard _) |] |]. rewrite (left_id_L None _). destruct (lb_datas lb !! id) as [it |]; cbn; [| by destruct (decide (id ∈ dels))].
    destruct (decide (id ∈ dels)); case_guard; done. }
  assert (map_Forall (fun _ it => item_ok env it) d) as Hd1.
  { intros id it. rewrite Hdat. destruct (new_item cb key s old_value new_value id) as [it' |] eqn:En; [| destruct (decide (id ∈ dels)); [done | apply (Hold id)]]. intros [= <-]. unfold new_item in En. apply bind_Some in En as (info & _ & En). apply bind_Some in En as (stream & _ & [= <-]). apply Hnew. }
  assert (Z.of_nat (size d) < 2 ^ 31) as Hd2.
  { assert (dom d ⊆ dom new_value ∪ dom (lb_datas lb)) as Hsub.
    { intros id Hid. apply elem_of_dom in Hid as [it Hit]. rewrite Hdat in Hit. apply elem_of_union. rewrite !elem_of_dom. unfold new_item in Hit. rewrite lookup_difference in Hit. destruct (old_value !! id), (new_value !! id); cbn in Hit; eauto; destruct (decide (id ∈ dels)); eauto; done. }
    apply subseteq_size in Hsub. rewrite size_union_alt in Hsub. assert (size (dom (lb_datas lb) ∖ dom new_value) <= size (dom (lb_datas lb)))%nat by (apply subseteq_size, subseteq_difference_l; done). rewrite !size_dom in *. lia. }
  destruct (initNolock_spec env (set_datas d lb) Hd1 Hd2) as (per' & lb' & E2 & O & Hfr & R2 & _). eexists _, _, lb', per'. split; [| split; [| split; [exact O | split; [exact Hfr |]]]].
  - unfold onServiceChange. erewrite bind_Ret by reflexivity. erewrite bind_Ret by exact E1. cbn beta iota zeta. fold adds dels. assert (lb_update walk env adds dels lb = Ret (set_to_map (fun id => (id, lb_datas lb !! id)) dels) lb') as ->; [| erewrite bind_Ret by reflexivity; reflexivity].
    unfold lb_update. erewrite bind_Ret by reflexivity. cbn beta zeta. fold d. erewrite bind_Ret by reflexivity. by erewrite bind_Ret by exact E2.
  - cbn. apply Es.
  - rewrite R2. change (lb_datas (set_datas d lb)) with d. split; [exact Hdat |]. split.
    + intros id. rewrite lookup_omap. destruct (decide (id ∈ dels)) as [Hid | Hid].
      * assert (set_to_map (fun id => (id, lb_datas lb !! id)) dels !! id = Some (lb_datas lb !! id)) as -> by (apply lookup_set_to_map; [done | by exists id]). done.
      * assert ((set_to_map (fun id => (id, lb_datas lb !! id)) dels : gmap Z (option LoadBalanceItem)) !! id = None) as ->; [| done]. apply eq_None_not_Some. intros [o Ho]. apply lookup_set_to_map in Ho as (x & Hx & [= <- _]); done.
    + intros Hinst Hcb id. rewrite Hdat. unfold new_item. rewrite lookup_difference. specialize (Hinst id). specialize (Hcb id). assert (id ∈ dels <-> is_Some (old_value !! id) /\ ~ is_Some (new_value !! id)) as Hid by (unfold dels; by rewrite elem_of_difference, !elem_of_dom).
      clear - Hinst Hcb Hid. destruct (old_value !! id) as [o |], (new_value !! id) as [i |]; cbn; destruct (decide (id ∈ dels)) as [Hin | Hin]; try (apply Hid in Hin as [? Hn]); try done.
      * rewrite Hinst. by split; eauto.
      * destruct Hin. apply Hid. split; [by eauto |]. by intros [].
      * destruct (Hcb i eq_refl) as [stream ->]. cbn. by split; eauto.
Qed.

End Choice.

(** ** Instances *)

Definition plain_walk (m : gmap Z LoadBalanceItem) : list LoadBalanceItem := (map_to_list m).*2.

(** A fixed weight of 20, and counters that give 37748. *)
Definition sample_item : LoadBalanceItem := mk_Item 7 (Some 3%nat) 20 false.
Definition sample_fair : LoadBalanceItem := mk_Item 8 (Some 4%nat) 10000 true.
Definition sample_stats : HolderStatsSet := mk_Set 100 (replicate 5 (mk_Stats 5 10 2 1 7 1)).
Definition sample_env : Env := mk_Env (fun _ => true) (fun _ => sample_stats) 100.

Example sample_shares : map (share sample_env) [sample_item; sample_fair] = [20; 37748].
Proof. vm_compute. reflexivity. Qed.

Lemma balancer_calls_witness : exists b r b' per, do_call plain_walk sample_env (CSet [sample_item; sample_fair]) (new_LoadBalance true) = Ret None b /\
  do_call plain_walk sample_env (CGet 1000 25 0) b = Ret r b' /\ answer_ok (fun _ => true) 25 0 per b' r /\ per = [20; 37748] /\ r = Some sample_fair /\
  do_call plain_walk (mk_Env (fun _ => true) (fun _ => slow_stats) 16) (CAdd (createLoadBalanceItem FAIR 8 4 10000)) (new_LoadBalance true) = Undef BadConversion.
Proof.
  destruct (balancer_calls plain_walk (fun m => reflexivity _)) as (H0 & H1 & H2 & H3 & H4).
  assert (forall c, datas_after c ∅ = <[8 := sample_fair]> (<[7 := sample_item]> ∅) -> map_Forall (fun _ it => item_ok sample_env it) (datas_after c ∅)) as Hitems.
  { intros c ->. apply map_Forall_insert_2; [| apply map_Forall_insert_2; [| apply map_Forall_empty]].
    - apply H2; [reflexivity | | reflexivity | vm_compute; discriminate]. vm_compute. repeat constructor; cbn; lia.
    - split; reflexivity. }
  destruct (H1 sample_env (CSet [sample_item; sample_fair]) (new_LoadBalance true) [] (H0 true)) as (r0 & b & per0 & E & O & _ & Ed & _ & ->).
  { split; [by apply Hitems | split; [reflexivity | exact I]]. }
  destruct (H1 sample_env (CGet 1000 25 0) b per0 O) as (r & b' & per & E' & O' & _ & _ & R & A).
  { rewrite Ed. split; [by apply Hitems | split; [reflexivity | lia]]. }
  exists b, r, b', per. split; [exact E |]. split; [exact E' |]. split; [exact A |]. vm_compute in E. injection E as <-. vm_compute in E'. injection E' as <- <-. destruct R as [[_ ->] _].
  split; [vm_compute; reflexivity |]. split; [reflexivity |].
  apply H3; [reflexivity | exact I |]. eexists 8, _. split; [apply lookup_insert_eq |]. split; [reflexivity |]. apply H4.
Defined.

Definition calm : Env := mk_Env (fun _ => true) (fun _ => new_HolderStatsSet 5) 100.

Lemma services_follow_witness : exists closed s' lb', onServiceChange plain_walk calm (fun i : nat => Some i) (1, 2) ∅ {[5 := 9%nat]} (mk_SD ∅ ∅) = Ret closed s' /\ sd_datas s' = {[(1, 2) := lb']} /\ is_Some (lb_datas lb' !! 5) /\ lb_datas lb' !! 6 = None.
Proof.
  destruct (services_follow plain_walk (fun m => reflexivity _) calm (fun i : nat => Some i) (1, 2) ∅ {[5 := 9%nat]} (mk_SD ∅ ∅) []) as (closed & s' & lb' & per & E & Es & _ & _ & Hd & _).
  - split; [reflexivity |]. intros _. by repeat split; constructor.
  - apply map_Forall_empty.
  - intros id stream. cbn. eexists. vm_compute. reflexivity.
  - reflexivity.
  - exists closed, s', lb'. split; [exact E |]. split; [exact Es |]. rewrite !Hd. split; [by eexists | reflexivity].
Defined.
