(* ===== verification/WebSocket.v ===== *)
(** * WebSocket frames

    [src/include/http/ws_session.h] and [src/src/http/ws_session.cpp]:
    [wsRecvMessage], [wsSendMessage], [wsPing] and [wsPong], over the connection
    of [Connection].  A message is its opcode and its bytes. *)

From stdpp Require Import base list numbers option.
From Stdlib Require Import ZArith Lia.
From S2P Require Import Prelude.
From S2P Require Import ByteArray.
From S2P Require Import ByteCodec.
From S2P Require Import Connection.

Local Open Scope Z_scope.

Definition op_Continue : Z := 0.
Definition op_TextFrame : Z := 1.
Definition op_BinFrame : Z := 2.
Definition op_Close : Z := 8.
Definition op_Ping : Z := 9.
Definition op_Pong : Z := 10.

Record WSFrameHead := mk_Head {
  wh_opcode : Z;
  wh_rsv3 : bool;
  wh_rsv2 : bool;
  wh_rsv1 : bool;
  wh_fin : bool;
  wh_payload : Z;
  wh_mask : bool;
}.

(** The packed bit fields: two bytes, the first field in the low bits. *)
Definition head_of (bs : list Z) : WSFrameHead :=
  let b0 := default 0 (bs !! 0%nat) in
  let b1 := default 0 (bs !! 1%nat) in
  mk_Head (b0 mod 16) (Z.testbit b0 4) (Z.testbit b0 5) (Z.testbit b0 6) (Z.testbit b0 7) (b1 mod 128) (Z.testbit b1 7).

Definition bytes_of (h : WSFrameHead) : list Z :=
  [wh_opcode h + 16 * Z.b2z (wh_rsv3 h) + 32 * Z.b2z (wh_rsv2 h) + 64 * Z.b2z (wh_rsv1 h) + 128 * Z.b2z (wh_fin h);
   wh_payload h + 128 * Z.b2z (wh_mask h)].

Record WSFrameMessage := mk_Message { wm_opcode : Z; wm_data : list Z }.

(** ** Control frames *)

Definition control (opcode : Z) : WSFrameHead := mk_Head opcode false false false true 0 false.

Definition ws_control (opcode : Z) : M Conn Z :=
  v ← conn_writeFixSize (bytes_of (control opcode));
  if v <=? 0 then conn_close;; mret v else mret v.

Definition wsPing : M Conn Z := ws_control op_Ping.
Definition wsPong : M Conn Z := ws_control op_Pong.

(** ** Receiving *)

(** The length of the payload; [None]: the connection failed. *)
Definition read_length (h : WSFrameHead) : M Conn (option Z) :=
  if wh_payload h =? 126 then
    '(r, bs) ← conn_readFixSize 2; mret (if r <=? 0 then None else Some (of_mem BIG_ENDIAN bs))
  else if wh_payload h =? 127 then
    '(r, bs) ← conn_readFixSize 8; mret (if r <=? 0 then None else Some (of_mem BIG_ENDIAN bs))
  else mret (Some (wh_payload h)).

Definition read_mask (h : WSFrameHead) : M Conn (option (list Z)) :=
  if wh_mask h then
    '(r, bs) ← conn_readFixSize 4; mret (if r <=? 0 then None else Some bs)
  else mret (Some [0; 0; 0; 0]).

(** [x[i] ^= mask[i % 4]] *)
Definition xor_mask (mask bs : list Z) : list Z := imap (fun i b => Z.lxor b (default 0 (mask !! (i mod 4)%nat))) bs.

(** [data.resize(n)] *)
Definition resize_data (n : nat) (data : list Z) : list Z := take n data ++ replicate (n - length data) 0.

Definition ws_fail {A} : M Conn (option A) := conn_close;; mret None.

(** The payload of a data frame, appended to [data], whose first
    [currentLength] bytes are in use.  [None]: the connection failed. *)
Definition read_payload (maxSize : Z) (h : WSFrameHead) (data : list Z) (currentLength : Z) : M Conn (option (list Z * Z)) :=
  length ← read_length h;
  match length with
  | None => mret None
  | Some length =>
    if maxSize <=? u64 (u64 currentLength + length) then mret None
    else
      mask ← read_mask h;
      match mask with
      | None => mret None
      | Some mask =>
        let size := u64 (u64 currentLength + length) in
        let data := resize_data (Z.to_nat size) data in
        (* [&data[currentLength]] *)
        if size <? currentLength then undef BadIndex
        else
          '(r, bs) ← conn_readFixSize length;
          if r <=? 0 then mret None
          else
            let cur := Z.to_nat currentLength in
            let data := splice data cur bs in
            let data := if wh_mask h then splice data cur (xor_mask mask (take (Z.to_nat length) (drop cur data))) else data in
            let next := currentLength + i32 length in
            if (next <? - 2 ^ 31) || (2 ^ 31 <=? next) then undef SignedOverflow else mret (Some (data, next))
      end
  end.

Definition is_data (opcode : Z) : bool := (opcode =? op_Continue) || (opcode =? op_TextFrame) || (opcode =? op_BinFrame).

Fixpoint recv_loop (fuel : nat) (maxSize : Z) (client : bool) (opcode : Z) (data : list Z) (currentLength : Z) : M Conn (option WSFrameMessage) :=
  match fuel with
  | O => undef Diverges
  | S fuel =>
    '(r, hd) ← conn_readFixSize 2;
    if r <=? 0 then ws_fail
    else
      let h := head_of hd in
      if wh_opcode h =? op_Ping then
        v ← wsPong;
        if v <=? 0 then ws_fail else recv_loop fuel maxSize client opcode data currentLength
      else if wh_opcode h =? op_Pong then recv_loop fuel maxSize client opcode data currentLength
      else if is_data (wh_opcode h) then
        if negb client && negb (wh_mask h) then ws_fail
        else
          p ← read_payload maxSize h data currentLength;
          match p with
          | None => ws_fail
          | Some (data, currentLength) =>
            let opcode := if (opcode =? 0) && negb (wh_opcode h =? op_Continue) then wh_opcode h else opcode in
            if wh_fin h then mret (Some (mk_Message opcode data)) else recv_loop fuel maxSize client opcode data currentLength
          end
      else recv_loop fuel maxSize client opcode data currentLength
  end.

Definition wsRecvMessage (maxSize : Z) (client : bool) : M Conn (option WSFrameMessage) := fun c => recv_loop (length (c_in c) + 1) maxSize client 0 [] 0 c.

(** ** Sending *)

Definition send_head (client fin : bool) (opcode size : Z) : WSFrameHead :=
  mk_Head (opcode mod 16) false false false fin (if size <? 126 then size else if size <? 65536 then 126 else 127) client.

Definition send_fail (data : list Z) : M Conn (Z * list Z) := conn_close;; mret (-1, data).

(** [mask]: the bytes of [std::rand()].  The result comes with the bytes of the
    message object afterwards, which are masked in place. *)
Definition wsSendMessage (client fin : bool) (mask : list Z) (msg : WSFrameMessage) : M Conn (Z * list Z) :=
  let data := wm_data msg in
  let size := Z.of_nat (length data) in
  let h := send_head client fin (wm_opcode msg) size in
  v ← conn_writeFixSize (bytes_of h);
  if v <=? 0 then send_fail data
  else
    v ← (if wh_payload h =? 126 then conn_writeFixSize (mem_of BIG_ENDIAN 2 size)
         else if wh_payload h =? 127 then conn_writeFixSize (mem_of BIG_ENDIAN 8 size)
         else mret 1);
    if v <=? 0 then send_fail data
    else
      let data := if client then xor_mask mask data else data in
      v ← (if client then conn_writeFixSize mask else mret 1);
      if v <=? 0 then send_fail data
      else
        v ← conn_writeFixSize data;
        if v <=? 0 then send_fail data else mret (i32 (size + 2), data).
