(* ===== verification/WebSocketFacts.v ===== *)
(** * Frames on the wire

    What [wsSendMessage] writes, and how [wsRecvMessage] reads a sequence of
    frames, however the connection splits them. *)

From stdpp Require Import base list numbers option.
From Stdlib Require Import ZArith Lia.
From S2P Require Import Prelude.
From S2P Require Import ByteArray.
From S2P Require Import ByteCodec.
From S2P Require Import Connection.
From S2P Require Import WebSocket.

Local Open Scope Z_scope.

(** ** Frames *)

Record frame := mk_frame {
  f_fin : bool;
  f_opcode : Z;
  f_mask : option (list Z);
  f_payload : list Z;
}.

Definition f_size (f : frame) : Z := Z.of_nat (length (f_payload f)).
Definition f_head (f : frame) : WSFrameHead := send_head (bool_decide (is_Some (f_mask f))) (f_fin f) (f_opcode f) (f_size f).

Definition length_bytes (n : Z) : list Z := if n <? 126 then [] else if n <? 65536 then mem_of BIG_ENDIAN 2 n else mem_of BIG_ENDIAN 8 n.

Definition masked (m : option (list Z)) (bs : list Z) : list Z := match m with Some mask => xor_mask mask bs | None => bs end.

Definition frame_bytes (f : frame) : list Z :=
  bytes_of (f_head f) ++ length_bytes (f_size f) ++ default [] (f_mask f) ++ masked (f_mask f) (f_payload f).

(** A frame that carries part of a message. *)
Record frame_ok (f : frame) : Prop := {
  fo_opcode : is_data (f_opcode f) = true;
  fo_mask : forall m, f_mask f = Some m -> length m = 4%nat;
  fo_some : 0 < f_size f;
}.

Lemma xor_mask_length mask bs : length (xor_mask mask bs) = length bs.
Proof. apply length_imap. Qed.

Lemma xor_mask_invol mask bs : xor_mask mask (xor_mask mask bs) = bs.
Proof.
  apply list_eq. intros i. unfold xor_mask. rewrite !list_lookup_imap. destruct (bs !! i) as [b |]; [| done]. cbn. by rewrite Z.lxor_assoc, Z.lxor_nilpotent, Z.lxor_0_r.
Qed.

Lemma masked_length m bs : length (masked m bs) = length bs.
Proof. destruct m; [apply xor_mask_length | done]. Qed.

Lemma high_bits a k n j : 0 <= a < 2 ^ n -> 0 <= n -> 0 <= j -> Z.testbit (a + 2 ^ n * k) (n + j) = Z.testbit k j.
Proof.
  intros Ha Hn Hj. rewrite (Z.add_comm n j), <- Z.div_pow2_bits by lia. rewrite (Z.mul_comm (2 ^ n)), Z.div_add, Z.div_small by (try lia; apply Z.pow_nonzero; lia). done.
Qed.

Lemma head_roundtrip h : 0 <= wh_opcode h < 16 -> 0 <= wh_payload h < 128 -> head_of (bytes_of h) = h.
Proof.
  intros Ho Hp. destruct h as [op r3 r2 r1 fin pl mask]. cbn [wh_opcode wh_payload] in *. unfold head_of, bytes_of. cbn [wh_opcode wh_rsv3 wh_rsv2 wh_rsv1 wh_fin wh_payload wh_mask lookup list_lookup]. unfold default, id.
  set (k := Z.b2z r3 + 2 * Z.b2z r2 + 4 * Z.b2z r1 + 8 * Z.b2z fin). replace (op + 16 * Z.b2z r3 + 32 * Z.b2z r2 + 64 * Z.b2z r1 + 128 * Z.b2z fin) with (op + 2 ^ 4 * k) by (unfold k; lia).
  pose proof (fun j Hj => high_bits op k 4 j Ho ltac:(lia) Hj) as Hop. pose proof (high_bits pl (Z.b2z mask) 7 0 Hp ltac:(lia) ltac:(lia)) as Hpl. change 128 with (2 ^ 7). change (7 + 0) with 7 in Hpl. rewrite Hpl.
  rewrite (Hop 0 ltac:(lia) : Z.testbit _ 4 = _), (Hop 1 ltac:(lia) : Z.testbit _ 5 = _), (Hop 2 ltac:(lia) : Z.testbit _ 6 = _), (Hop 3 ltac:(lia) : Z.testbit _ 7 = _).
  assert ((op + 2 ^ 4 * k) mod 16 = op) as -> by (rewrite (Z.mul_comm (2 ^ 4)); change (2 ^ 4) with 16; rewrite Z_mod_plus_full; apply Z.mod_small; lia).
  assert ((pl + 2 ^ 7 * Z.b2z mask) mod 2 ^ 7 = pl) as -> by (rewrite (Z.mul_comm (2 ^ 7)), Z_mod_plus_full; apply Z.mod_small; lia).
  by destruct r3, r2, r1, fin, mask.
Qed.

Lemma data_opcode f : frame_ok f -> 0 <= f_opcode f < 16 /\ f_opcode f mod 16 = f_opcode f.
Proof.
  intros H. pose proof (fo_opcode _ H) as Ho. unfold is_data, op_Continue, op_TextFrame, op_BinFrame in Ho. destruct (Z.eqb_spec (f_opcode f) 0) as [-> |]; [done |]. destruct (Z.eqb_spec (f_opcode f) 1) as [-> |]; [done |]. destruct (Z.eqb_spec (f_opcode f) 2) as [-> |]; done.
Qed.

Lemma head_payload f : frame_ok f -> 0 <= wh_payload (f_head f) < 128.
Proof. intros H. pose proof (fo_some _ H). unfold f_head, send_head. cbn [wh_payload]. destruct (Z.ltb_spec (f_size f) 126), (Z.ltb_spec (f_size f) 65536); lia. Qed.

Lemma head_of_frame f : frame_ok f -> head_of (bytes_of (f_head f)) = f_head f.
Proof. intros H. destruct (data_opcode f H) as [Ho Hm]. apply head_roundtrip; [cbn; lia | by apply head_payload]. Qed.

(** ** Sending *)

Lemma control_spec opcode c : steady c -> exists c', ws_control opcode c = Ret 2 c' /\ moved c [] (bytes_of (control opcode)) c'.
Proof.
  intros H. destruct (conn_writeFixSize_spec (bytes_of (control opcode)) c H) as (c' & E & Hm); [done |]. exists c'. unfold ws_control. erewrite bind_Ret by exact E. done.
Qed.

Lemma send_length f c : steady c -> frame_ok f -> exists v c', 0 < v /\ moved c [] (length_bytes (f_size f)) c' /\
  (if wh_payload (f_head f) =? 126 then conn_writeFixSize (mem_of BIG_ENDIAN 2 (f_size f)) else if wh_payload (f_head f) =? 127 then conn_writeFixSize (mem_of BIG_ENDIAN 8 (f_size f)) else mret 1) c = Ret v c'.
Proof.
  intros H Hok. pose proof (fo_some _ Hok). unfold f_head, send_head, length_bytes. cbn [wh_payload]. destruct (Z.ltb_spec (f_size f) 126); [| destruct (Z.ltb_spec (f_size f) 65536)].
  - destruct (Z.eqb_spec (f_size f) 126), (Z.eqb_spec (f_size f) 127); try lia. exists 1, c. split; [lia |]. split; [apply moved_refl | done].
  - cbn [Z.eqb Pos.eqb]. destruct (conn_writeFixSize_spec (mem_of BIG_ENDIAN 2 (f_size f)) c H) as (c' & E & Hm); [by rewrite length_mem_of |]. rewrite E, length_mem_of. by exists 2, c'.
  - cbn [Z.eqb Pos.eqb]. destruct (conn_writeFixSize_spec (mem_of BIG_ENDIAN 8 (f_size f)) c H) as (c' & E & Hm); [by rewrite length_mem_of |]. rewrite E, length_mem_of. by exists 8, c'.
Qed.

Lemma wsSendMessage_spec (client fin : bool) mask msg c : let f := mk_frame fin (wm_opcode msg) (if client then Some mask else None) (wm_data msg) in
  steady c -> frame_ok f -> f_size f < 2 ^ 31 ->
  exists c', wsSendMessage client fin mask msg c = Ret (i32 (f_size f + 2), masked (f_mask f) (wm_data msg)) c' /\ moved c [] (frame_bytes f) c'.
Proof.
  intros f H Hok Hs. pose proof (fo_some _ Hok) as Hpos. unfold wsSendMessage. change (Z.of_nat (length (wm_data msg))) with (f_size f). assert (send_head client fin (wm_opcode msg) (f_size f) = f_head f) as -> by (by destruct client).
  destruct (conn_writeFixSize_spec (bytes_of (f_head f)) c H) as (c1 & E1 & M1); [done |]. pose proof (moved_steady _ _ _ _ M1 H) as H1. erewrite bind_Ret by exact E1. change (Z.of_nat (length (bytes_of (f_head f))) <=? 0) with false. cbn iota.
  destruct (send_length f c1 H1 Hok) as (v & c2 & Hv & M2 & E2). pose proof (moved_steady _ _ _ _ M2 H1) as H2. erewrite bind_Ret by exact E2. destruct (Z.leb_spec v 0); [lia |].
  assert (exists v c3, 0 < v /\ moved c2 [] (default [] (f_mask f)) c3 /\ (if client then conn_writeFixSize mask else mret 1) c2 = Ret v c3) as (v3 & c3 & Hv3 & M3 & E3).
  { unfold f. cbn [f_mask]. destruct client; [| exists 1, c2; split; [lia |]; split; [apply moved_refl | done]]. pose proof (fo_mask _ Hok mask eq_refl) as Hl. destruct (conn_writeFixSize_spec mask c2 H2) as (c3 & E & M); [rewrite Hl; lia |]. rewrite Hl in E. exists 4, c3. split; [lia |]. done. }
  pose proof (moved_steady _ _ _ _ M3 H2) as H3. erewrite bind_Ret by exact E3. destruct (Z.leb_spec v3 0); [lia |]. assert ((if client then xor_mask mask (wm_data msg) else wm_data msg) = masked (f_mask f) (wm_data msg)) as -> by (by destruct client).
  destruct (conn_writeFixSize_spec (masked (f_mask f) (wm_data msg)) c3 H3) as (c4 & E4 & M4); [rewrite masked_length; exact Hs |]. erewrite bind_Ret by exact E4. rewrite masked_length. change (Z.of_nat (length (wm_data msg))) with (f_size f). destruct (Z.leb_spec (f_size f) 0); [lia |].
  exists c4. split; [done |]. exact (moved_trans _ _ _ _ _ _ _ M1 (moved_trans _ _ _ _ _ _ _ M2 (moved_trans _ _ _ _ _ _ _ M3 M4))).
Qed.

(** ** Receiving *)

Lemma read_length_spec f c rest : steady c -> frame_ok f -> f_size f < 2 ^ 63 -> c_in c = length_bytes (f_size f) ++ rest ->
  exists c', read_length (f_head f) c = Ret (Some (f_size f)) c' /\ moved c (length_bytes (f_size f)) [] c' /\ c_in c' = rest.
Proof.
  intros H Hok Hs Hin. pose proof (fo_some _ Hok). unfold read_length, length_bytes, f_head, send_head in *. cbn [wh_payload]. destruct (Z.ltb_spec (f_size f) 126); [| destruct (Z.ltb_spec (f_size f) 65536)].
  - destruct (Z.eqb_spec (f_size f) 126), (Z.eqb_spec (f_size f) 127); try lia. exists c. split; [done |]. split; [apply moved_refl | done].
  - cbn [Z.eqb Pos.eqb]. destruct (conn_readFixSize_spec 2 c _ rest H Hin) as (c' & E & Hm & Hr); [by rewrite length_mem_of | lia |]. erewrite bind_Ret by exact E. cbn [Z.leb Z.compare]. rewrite of_mem_of by (unfold in_u; change (8 * Z.of_nat 2) with 16; lia). by exists c'.
  - cbn [Z.eqb Pos.eqb]. destruct (conn_readFixSize_spec 8 c _ rest H Hin) as (c' & E & Hm & Hr); [by rewrite length_mem_of | lia |]. erewrite bind_Ret by exact E. cbn [Z.leb Z.compare]. rewrite of_mem_of by (unfold in_u; change (8 * Z.of_nat 8) with 64; lia). by exists c'.
Qed.

Lemma read_mask_spec f c rest : steady c -> frame_ok f -> c_in c = default [] (f_mask f) ++ rest ->
  exists c', read_mask (f_head f) c = Ret (Some (default [0; 0; 0; 0] (f_mask f))) c' /\ moved c (default [] (f_mask f)) [] c' /\ c_in c' = rest.
Proof.
  intros H Hok Hin. unfold read_mask, f_head, send_head. cbn [wh_mask]. destruct (f_mask f) as [m |] eqn:E.
  - rewrite bool_decide_true by eauto. cbn [default] in *. destruct (conn_readFixSize_spec 4 c m rest H Hin) as (c' & E' & Hm & Hr); [by rewrite (fo_mask _ Hok m E) | lia |]. erewrite bind_Ret by exact E'. by exists c'.
  - rewrite bool_decide_false by (by intros []). exists c. split; [done |]. split; [apply moved_refl | done].
Qed.

Lemma append_payload (data bs : list Z) : splice (resize_data (length data + length bs) data) (length data) bs = data ++ bs.
Proof.
  unfold splice, resize_data. rewrite (firstn_all2 data) by lia. rewrite take_app_length. rewrite drop_app_ge by lia. replace (length data + length bs - length data)%nat with (length bs) by lia. rewrite drop_replicate. replace (length bs - length bs)%nat with 0%nat by lia. cbn. by rewrite app_nil_r.
Qed.

Lemma read_payload_spec maxSize f data c rest : steady c -> frame_ok f -> Z.of_nat (length data) + f_size f < maxSize -> maxSize <= 2 ^ 31 ->
  c_in c = (length_bytes (f_size f) ++ default [] (f_mask f) ++ masked (f_mask f) (f_payload f)) ++ rest ->
  exists c', read_payload maxSize (f_head f) data (Z.of_nat (length data)) c = Ret (Some (data ++ f_payload f, Z.of_nat (length data) + f_size f)) c' /\
    moved c (length_bytes (f_size f) ++ default [] (f_mask f) ++ masked (f_mask f) (f_payload f)) [] c' /\ c_in c' = rest.
Proof.
  intros H Hok Hs Hmax Hin. rewrite <- !app_assoc in Hin. pose proof (fo_some _ Hok) as Hpos. unfold read_payload. destruct (read_length_spec f c _ H Hok ltac:(lia) Hin) as (c1 & E1 & M1 & R1). erewrite bind_Ret by exact E1. cbn iota.
  pose proof (moved_steady _ _ _ _ M1 H) as H1. assert (u64 (u64 (Z.of_nat (length data)) + f_size f) = Z.of_nat (length data) + f_size f) as -> by (unfold u64; rewrite !uwrap_id; unfold in_u; rewrite ?uwrap_id; unfold in_u; lia).
  destruct (Z.leb_spec maxSize (Z.of_nat (length data) + f_size f)); [lia |]. destruct (read_mask_spec f c1 _ H1 Hok R1) as (c2 & E2 & M2 & R2). erewrite bind_Ret by exact E2. cbn iota. pose proof (moved_steady _ _ _ _ M2 H1) as H2.
  destruct (Z.ltb_spec (Z.of_nat (length data) + f_size f) (Z.of_nat (length data))); [lia |].
  destruct (conn_readFixSize_spec (f_size f) c2 _ rest H2 R2) as (c3 & E3 & M3 & R3); [by rewrite masked_length | lia |]. erewrite bind_Ret by exact E3. cbn beta iota. destruct (Z.leb_spec (f_size f) 0); [lia |].
  assert (i32 (f_size f) = f_size f) as -> by (unfold i32; rewrite swrap_id by (unfold in_s; lia); done). destruct (Z.ltb_spec (Z.of_nat (length data) + f_size f) (- 2 ^ 31)); [lia |]. destruct (Z.leb_spec (2 ^ 31) (Z.of_nat (length data) + f_size f)); [lia |]. cbn [orb].
  exists c3. split; [| split; [exact (moved_trans _ _ _ _ _ _ _ M1 (moved_trans _ _ _ _ _ _ _ M2 M3)) | done]]. unfold mret, M_ret. do 3 f_equal. rewrite Nat2Z.id. unfold f_size. replace (Z.to_nat (Z.of_nat (length data) + Z.of_nat (length (f_payload f)))) with (length data + length (f_payload f))%nat by lia.
  rewrite <- (masked_length (f_mask f) (f_payload f)), append_payload, Nat2Z.id, masked_length. unfold f_head, send_head. cbn [wh_mask]. rewrite drop_app_length, firstn_all2 by (rewrite masked_length; lia). destruct (f_mask f) as [m |]; cbn [default masked].
  - rewrite bool_decide_true by eauto. rewrite xor_mask_invol. unfold splice. rewrite take_app_length, skipn_all2; [by rewrite app_nil_r |]. rewrite length_app, xor_mask_length. lia.
  - rewrite bool_decide_false by (by intros []). done.
Qed.

(** ** Sequences of frames *)

Inductive event :=
| Part (f : frame)
| PingFrame
| PongFrame.

Definition event_bytes (e : event) : list Z :=
  match e with
  | Part f => frame_bytes f
  | PingFrame => bytes_of (control op_Ping)
  | PongFrame => bytes_of (control op_Pong)
  end.

Definition wire (es : list event) : list Z := es ≫= event_bytes.

(** The answers to the pings. *)
Definition pongs (es : list event) : list Z := es ≫= (fun e => match e with PingFrame => bytes_of (control op_Pong) | _ => [] end).

Definition parts (es : list event) : list Z := es ≫= (fun e => match e with Part f => f_payload f | _ => [] end).

(** The first opcode that is not [Continue]. *)
Definition next_opcode (opcode : Z) (f : frame) : Z := if (opcode =? 0) && negb (f_opcode f =? op_Continue) then f_opcode f else opcode.
Definition opcode_after (opcode : Z) (es : list event) : Z := foldl (fun op e => match e with Part f => next_opcode op f | _ => op end) opcode es.

(** What a peer in the other role sends: the frames of clients are masked. *)
Definition frame_for (client : bool) (f : frame) : Prop := frame_ok f /\ (client = false -> is_Some (f_mask f)).
Definition event_for (client : bool) (e : event) : Prop := match e with Part f => frame_for client f /\ f_fin f = false | _ => True end.

Lemma event_bytes_length e : (2 <= length (event_bytes e))%nat.
Proof. destruct e; cbn [event_bytes]; [unfold frame_bytes; rewrite length_app; cbn; lia | done | done]. Qed.

Lemma wire_length es : (length es <= length (wire es))%nat.
Proof. induction es as [|e es IH]; [done |]. unfold wire in *. rewrite bind_cons, length_app. pose proof (event_bytes_length e). cbn. lia. Qed.

Lemma control_head op : 0 <= op < 16 -> head_of (bytes_of (control op)) = control op.
Proof. intros H. by apply head_roundtrip; cbn. Qed.

(** The head of the next frame. *)
Lemma read_head h c rest : steady c -> c_in c = bytes_of h ++ rest -> exists c', conn_readFixSize 2 c = Ret (2, bytes_of h) c' /\ moved c (bytes_of h) [] c' /\ c_in c' = rest.
Proof. intros H Hin. by apply (conn_readFixSize_spec 2 c (bytes_of h) rest H Hin). Qed.

Section Loop.

Context (maxSize : Z) (client : bool) (Hmax : maxSize <= 2 ^ 31).

(** A data frame: up to the next round, or the message. *)
Lemma recv_part fuel opcode data f c rest : steady c -> frame_for client f -> Z.of_nat (length data) + f_size f < maxSize -> c_in c = frame_bytes f ++ rest ->
  exists c', moved c (frame_bytes f) [] c' /\ c_in c' = rest /\
    recv_loop (S fuel) maxSize client opcode data (Z.of_nat (length data)) c =
      (if f_fin f then Ret (Some (mk_Message (next_opcode opcode f) (data ++ f_payload f))) c'
       else recv_loop fuel maxSize client (next_opcode opcode f) (data ++ f_payload f) (Z.of_nat (length (data ++ f_payload f))) c').
Proof.
  intros H [Hok Hmask] Hs Hin. unfold frame_bytes in Hin. rewrite <- app_assoc in Hin. destruct (read_head (f_head f) c _ H Hin) as (c1 & E1 & M1 & R1). pose proof (moved_steady _ _ _ _ M1 H) as H1.
  destruct (read_payload_spec maxSize f data c1 rest H1 Hok Hs Hmax R1) as (c2 & E2 & M2 & R2). exists c2. split; [exact (moved_trans _ _ _ _ _ _ _ M1 M2) |]. split; [done |]. cbn [recv_loop]. erewrite bind_Ret by exact E1. cbn beta iota. cbn [Z.leb Z.compare].
  rewrite (head_of_frame f Hok). destruct (data_opcode f Hok) as [_ Ho]. assert (wh_opcode (f_head f) = f_opcode f) as -> by (cbn; done). pose proof (fo_opcode _ Hok) as Hd. assert ((f_opcode f =? op_Ping) = false /\ (f_opcode f =? op_Pong) = false) as [-> ->].
  { unfold is_data, op_Continue, op_TextFrame, op_BinFrame, op_Ping, op_Pong in *. destruct (Z.eqb_spec (f_opcode f) 9) as [E |]; [by rewrite E in Hd |]. destruct (Z.eqb_spec (f_opcode f) 10) as [E |]; [by rewrite E in Hd | done]. }
  rewrite Hd. assert (negb client && negb (wh_mask (f_head f)) = false) as ->.
  { destruct client; [done |]. cbn [negb andb f_head send_head wh_mask]. by rewrite bool_decide_true by (apply Hmask; done). }
  erewrite bind_Ret by exact E2. cbn beta iota. fold (next_opcode opcode f). change (wh_fin (f_head f)) with (f_fin f). destruct (f_fin f); [done |]. rewrite length_app, Nat2Z.inj_add. done.
Qed.

Lemma recv_pong fuel opcode data cur c rest : steady c -> c_in c = bytes_of (control op_Pong) ++ rest ->
  exists c', moved c (bytes_of (control op_Pong)) [] c' /\ c_in c' = rest /\ recv_loop (S fuel) maxSize client opcode data cur c = recv_loop fuel maxSize client opcode data cur c'.
Proof.
  intros H Hin. destruct (read_head _ c rest H Hin) as (c1 & E1 & M1 & R1). exists c1. split; [done |]. split; [done |]. cbn [recv_loop]. erewrite bind_Ret by exact E1. cbn beta iota. by rewrite (control_head op_Pong) by (unfold op_Pong; lia).
Qed.

Lemma recv_ping fuel opcode data cur c rest : steady c -> c_in c = bytes_of (control op_Ping) ++ rest ->
  exists c', moved c (bytes_of (control op_Ping)) (bytes_of (control op_Pong)) c' /\ c_in c' = rest /\ recv_loop (S fuel) maxSize client opcode data cur c = recv_loop fuel maxSize client opcode data cur c'.
Proof.
  intros H Hin. destruct (read_head _ c rest H Hin) as (c1 & E1 & M1 & R1). destruct (control_spec op_Pong c1 (moved_steady _ _ _ _ M1 H)) as (c2 & E2 & M2). exists c2. pose proof (moved_trans _ _ _ _ _ _ _ M1 M2) as M. rewrite app_nil_r in M. split; [done |].
  split; [pose proof (mv_in _ _ _ _ M2) as E; rewrite <- R1; by rewrite E |]. cbn [recv_loop]. erewrite bind_Ret by exact E1. cbn beta iota. rewrite (control_head op_Ping) by (unfold op_Ping; lia). change (2 <=? 0) with false. cbn iota. change (wh_opcode (control op_Ping) =? op_Ping) with true. cbn iota.
  erewrite bind_Ret by exact E2. done.
Qed.

Lemma recv_loop_spec es f fuel opcode data c rest : steady c -> Forall (event_for client) es -> frame_for client f -> f_fin f = true ->
  Z.of_nat (length (data ++ parts es)) + f_size f < maxSize -> c_in c = wire es ++ frame_bytes f ++ rest -> (length es < fuel)%nat ->
  exists c', recv_loop fuel maxSize client opcode data (Z.of_nat (length data)) c = Ret (Some (mk_Message (next_opcode (opcode_after opcode es) f) (data ++ parts es ++ f_payload f))) c' /\
    moved c (wire es ++ frame_bytes f) (pongs es) c' /\ c_in c' = rest.
Proof.
  intros H Hes Hf Hfin. revert fuel opcode data c H. induction Hes as [|e es He Hes IH]; intros fuel opcode data c H Hs Hin Hfu; (destruct fuel as [|fuel]; [lia |]).
  - cbn [parts wire app mbind list_bind] in *. rewrite app_nil_r in Hs. destruct (recv_part fuel opcode data f c rest H Hf Hs Hin) as (c' & M & R & ->). rewrite Hfin. by exists c'.
  - unfold wire in Hin. rewrite bind_cons in Hin. fold (wire es) in Hin. rewrite <- app_assoc in Hin. cbn [length] in Hfu. unfold wire, pongs, parts in *. rewrite !bind_cons. rewrite bind_cons in Hs. fold (wire es) (pongs es) (parts es) in *. rewrite !length_app, !Nat2Z.inj_add in Hs. cbn [opcode_after foldl]. destruct e as [g | |].
    + destruct He as [Hg Hgf]. destruct (recv_part fuel opcode data g c _ H Hg ltac:(unfold f_size in *; lia) Hin) as (c1 & M1 & R1 & ->). rewrite Hgf.
      destruct (IH fuel (next_opcode opcode g) (data ++ f_payload g) c1 (moved_steady _ _ _ _ M1 H)) as (c2 & E2 & M2 & R2); [rewrite !length_app, !Nat2Z.inj_add; lia | done | lia |].
      exists c2. rewrite E2, <- !app_assoc. split; [done |]. split; [| done]. pose proof (moved_trans _ _ _ _ _ _ _ M1 M2) as M. rewrite <- ?app_assoc in *. exact M.
    + destruct (recv_ping fuel opcode data (Z.of_nat (length data)) c _ H Hin) as (c1 & M1 & R1 & ->). destruct (IH fuel opcode data c1 (moved_steady _ _ _ _ M1 H)) as (c2 & E2 & M2 & R2); [rewrite !length_app, !Nat2Z.inj_add; cbn in *; lia | done | lia |].
      exists c2. rewrite E2. split; [done |]. split; [| done]. pose proof (moved_trans _ _ _ _ _ _ _ M1 M2) as M. rewrite <- ?app_assoc in *. exact M.
    + destruct (recv_pong fuel opcode data (Z.of_nat (length data)) c _ H Hin) as (c1 & M1 & R1 & ->). destruct (IH fuel opcode data c1 (moved_steady _ _ _ _ M1 H)) as (c2 & E2 & M2 & R2); [rewrite !length_app, !Nat2Z.inj_add; cbn in *; lia | done | lia |].
      exists c2. rewrite E2. split; [done |]. split; [| done]. pose proof (moved_trans _ _ _ _ _ _ _ M1 M2) as M. rewrite <- ?app_assoc in *. exact M.
Qed.

End Loop.

Lemma wsRecvMessage_spec maxSize client es f c rest : steady c -> maxSize <= 2 ^ 31 -> Forall (event_for client) es -> frame_for client f -> f_fin f = true ->
  Z.of_nat (length (parts es)) + f_size f < maxSize -> c_in c = wire es ++ frame_bytes f ++ rest ->
  exists c', wsRecvMessage maxSize client c = Ret (Some (mk_Message (opcode_after 0 (es ++ [Part f])) (parts (es ++ [Part f])))) c' /\
    moved c (wire (es ++ [Part f])) (pongs es) c' /\ c_in c' = rest.
Proof.
  intros H Hmax Hes Hf Hfin Hs Hin. unfold wsRecvMessage. destruct (recv_loop_spec maxSize client Hmax es f (length (c_in c) + 1) 0 [] c rest H Hes Hf Hfin Hs Hin) as (c' & E & M & R).
  { rewrite Hin, length_app. pose proof (wire_length es). lia. }
  exists c'. change (Z.of_nat (length [])) with 0 in E. rewrite E. unfold opcode_after, parts, wire in *. rewrite foldl_app, !bind_app. cbn [foldl mbind list_bind event_bytes]. rewrite !app_nil_r. done.
Qed.
