(* ===== verification/WebSocketClaims.v ===== *)
(** * What the WebSocket functions promise

    Whatever bytes arrive and however the calls fail, [wsRecvMessage] ends; a
    message sent in parts by one side is received whole by the other; and the
    inputs that are not handled. *)

From stdpp Require Import base list numbers option.
From Stdlib Require Import ZArith Lia.
From S2P Require Import Prelude.
From S2P Require Import ByteArray.
From S2P Require Import ByteCodec.
From S2P Require Import Connection.
From S2P Require Import WebSocket.
From S2P Require Import WebSocketFacts.

Local Open Scope Z_scope.

(** ** Receiving from any peer *)

(** The calls return [int]s, the peer sends bytes. *)
Record sane (c : Conn) : Prop := {
  sa_recvs : forall n, in_s 32 (c_recvs c n);
  sa_sends : forall n, in_s 32 (c_sends c n);
  sa_bytes : Forall (in_u 8) (c_in c);
}.

Lemma moved_sane c bs out c' : moved c bs out c' -> sane c -> sane c' /\ Forall (in_u 8) bs.
Proof.
  intros [H1 H2 H3 H4 H5] [K1 K2 K3]. rewrite H2 in K3. apply Forall_app in K3 as [K3 K4]. split; [| done]. split; [by rewrite H4 | by rewrite H5 | done].
Qed.

Lemma i32_small v : in_s 32 v -> i32 v = v.
Proof. intros H. by apply swrap_id. Qed.

Lemma take_rest (n : nat) (l : list Z) : l = take n l ++ drop (length (take n l)) l.
Proof. rewrite <- (take_drop n l) at 1. f_equal. rewrite length_take. destruct (decide (n <= length l)%nat); [by rewrite Nat.min_l by lia |]. by rewrite Nat.min_r, drop_all, skipn_all2 by lia. Qed.

Lemma conn_read_loop_total fuel length0 left c : sane c -> (length (c_in c) < fuel)%nat ->
  exists r bs c', read_loop fuel length0 left c = Ret (r, bs) c' /\ moved c bs [] c' /\ (r <= 0 \/ (r = i32 length0 /\ Z.of_nat (length bs) = Z.max 0 left)).
Proof.
  revert left c. induction fuel as [|fuel IH]; intros left c H Hf; [lia |]. cbn [read_loop]. destruct (Z.leb_spec left 0).
  - eexists _, [], c. split; [done |]. split; [apply moved_refl |]. right. split; [done |]. cbn. lia.
  - unfold conn_read. unfold mbind at 1, M_bind at 1. unfold mbind at 1, M_bind at 1. cbn [get]. destruct (c_open c) eqn:Eo; [| eexists _, [], c; split; [done |]; split; [apply moved_refl | by left]].
    unfold recv. pose proof (sa_recvs _ H (c_nrecv c)) as Hv. destruct (Z.leb_spec (c_recvs c (c_nrecv c)) 0) as [Hle |].
    + destruct (Z.leb_spec (c_recvs c (c_nrecv c)) 0); [| lia]. eexists _, [], _. split; [done |]. split; [by split; rewrite ?app_nil_r | left; by rewrite i32_small].
    + set (bs := take _ (c_in c)). assert (moved c bs [] (put_in (drop (length bs) (c_in c)) c)) as M.
      { split; try done; [apply take_rest | by rewrite app_nil_r]. }
      destruct (Z.leb_spec (Z.of_nat (length bs)) 0).
      * eexists _, [], _. split; [done |]. destruct bs as [|x bs']; [| cbn [length] in *; lia]. split; [exact M |]. left. done.
      * destruct (IH (left - Z.of_nat (length bs)) (put_in (drop (length bs) (c_in c)) c)) as (r & bs' & c' & E & M' & Hr).
        -- exact (proj1 (moved_sane _ _ _ _ M H)).
        -- cbn. rewrite length_drop. assert (length bs <= length (c_in c))%nat by (unfold bs; rewrite length_take; lia). lia.
        -- assert (Z.of_nat (length bs) <= left) by (unfold bs; rewrite length_take; lia). unfold mbind, M_bind. rewrite E. eexists _, _, c'. split; [done |]. split; [exact (moved_trans _ _ _ _ _ _ _ M M') |]. destruct Hr as [? | [? ?]]; [by left | right]. split; [done |]. rewrite length_app. lia.
Qed.

Lemma conn_readFixSize_total len c : sane c -> exists r bs c', conn_readFixSize len c = Ret (r, bs) c' /\ moved c bs [] c' /\ (r <= 0 \/ (r = i32 len /\ Z.of_nat (length bs) = Z.max 0 (i64 len))).
Proof. intros H. apply conn_read_loop_total; [done | lia]. Qed.

(** With a length that fits an [int]. *)
Lemma conn_readFixSize_exact len c : sane c -> 0 <= len < 2 ^ 31 -> exists r bs c', conn_readFixSize len c = Ret (r, bs) c' /\ moved c bs [] c' /\ sane c' /\ Forall (in_u 8) bs /\ (0 < r -> Z.of_nat (length bs) = len /\ 0 < len).
Proof.
  intros H Hl. destruct (conn_readFixSize_total len c H) as (r & bs & c' & E & M & Hr). exists r, bs, c'. split; [done |]. split; [done |]. destruct (moved_sane _ _ _ _ M H). split; [done |]. split; [done |]. intros Hpos. unfold i64, i32 in Hr. rewrite !swrap_id in Hr by (unfold in_s; lia). lia.
Qed.

Lemma conn_write_loop_total fuel length0 bs c : sane c -> (length bs <= fuel)%nat -> exists r out c', write_loop fuel length0 bs c = Ret r c' /\ moved c [] out c'.
Proof.
  revert bs c. induction fuel as [|fuel IH]; intros bs c H Hf; cbn [write_loop]; destruct bs as [|b bs]; try (eexists _, [], c; split; [done | apply moved_refl]); [cbn in Hf; lia |].
  unfold conn_write. unfold mbind at 1, M_bind at 1. unfold mbind at 1, M_bind at 1. cbn [get]. destruct (c_open c) eqn:Eo; [| eexists _, [], c; split; [done | apply moved_refl]].
  unfold send. destruct (Z.leb_spec (c_sends c (c_nsend c)) 0) as [Hle |]; [destruct (Z.leb_spec (c_sends c (c_nsend c)) 0); [| lia]; eexists _, [], _; split; [done | by split; rewrite ?app_nil_r] |].
  set (k := Z.to_nat (c_sends c (c_nsend c))). assert (1 <= k)%nat by (unfold k; lia). set (out := take k (b :: bs)). assert (moved c [] out (put_out (c_out c ++ out) c)) as M by (by split). assert (1 <= length out)%nat as Ho by (unfold out; rewrite length_take; cbn [length]; lia).
  destruct (Z.leb_spec (Z.of_nat (length out)) 0); [lia |]. destruct (IH (drop (Z.to_nat (Z.of_nat (length out))) (b :: bs)) (put_out (c_out c ++ out) c)) as (r & out' & c' & E & M').
  - exact (proj1 (moved_sane _ _ _ _ M H)).
  - rewrite length_drop. cbn [length] in *. lia.
  - rewrite E. eexists _, _, c'. split; [done |]. exact (moved_trans _ _ _ _ _ _ _ M M').
Qed.

(** ** One round *)

Definition same_kind (c c' : Conn) : Prop := exists bs out, moved c bs out c'.

Lemma same_kind_trans c c' c'' : same_kind c c' -> same_kind c' c'' -> same_kind c c''.
Proof. intros (b1 & o1 & M1) (b2 & o2 & M2). eexists _, _. exact (moved_trans _ _ _ _ _ _ _ M1 M2). Qed.

Lemma same_kind_sane c c' : same_kind c c' -> sane c -> sane c'.
Proof. intros (bs & out & M) H. by apply (moved_sane _ _ _ _ M). Qed.

Lemma same_kind_length c c' : same_kind c c' -> (length (c_in c') <= length (c_in c))%nat.
Proof. intros (bs & out & M). rewrite (mv_in _ _ _ _ M), length_app. lia. Qed.

Lemma be_bound bs n : Forall (in_u 8) bs -> length bs = n -> 0 <= of_mem BIG_ENDIAN bs < 2 ^ (8 * Z.of_nat n).
Proof. intros H <-. unfold of_mem. pose proof (le_combine_bound (rev bs) (Forall_rev H)) as Hb. by rewrite length_rev in Hb. Qed.

Lemma read_length_total h c : sane c -> 0 <= wh_payload h < 128 -> exists o c', read_length h c = Ret o c' /\ same_kind c c' /\ (forall n, o = Some n -> 0 <= n < 2 ^ 64).
Proof.
  intros H Hp. unfold read_length. destruct (wh_payload h =? 126).
  - destruct (conn_readFixSize_exact 2 c H ltac:(lia)) as (r & bs & c' & E & M & _ & Hb & Hr). erewrite bind_Ret by exact E. cbn beta iota. eexists _, c'. split; [done |]. split; [by eexists _, _ |]. intros n. destruct (Z.leb_spec r 0); [done |]. intros [= <-]. destruct (Hr ltac:(lia)). pose proof (be_bound bs 2 Hb ltac:(lia)) as B. change (8 * Z.of_nat 2) with 16 in B. cbn [of_mem] in B. lia.
  - destruct (wh_payload h =? 127); [| eexists _, c; split; [done |]; split; [by eexists _, _; apply moved_refl | intros n [= <-]; lia]].
    destruct (conn_readFixSize_exact 8 c H ltac:(lia)) as (r & bs & c' & E & M & _ & Hb & Hr). erewrite bind_Ret by exact E. cbn beta iota. eexists _, c'. split; [done |]. split; [by eexists _, _ |]. intros n. destruct (Z.leb_spec r 0); [done |]. intros [= <-]. destruct (Hr ltac:(lia)). pose proof (be_bound bs 8 Hb ltac:(lia)) as B. exact B.
Qed.

Lemma read_mask_total h c : sane c -> exists o c', read_mask h c = Ret o c' /\ same_kind c c'.
Proof.
  intros H. unfold read_mask. destruct (wh_mask h); [| eexists _, c; split; [done |]; by eexists _, _; apply moved_refl]. destruct (conn_readFixSize_exact 4 c H ltac:(lia)) as (r & bs & c' & E & M & _). erewrite bind_Ret by exact E. eexists _, c'. split; [done |]. by eexists _, _.
Qed.

(** The payload: the connection fails, an index of [data] is wrong, or bytes are
    added below the limit. *)
Lemma read_payload_total maxSize h data c : sane c -> 0 <= wh_payload h < 128 -> maxSize <= 2 ^ 31 -> Z.of_nat (length data) < 2 ^ 31 ->
  read_payload maxSize h data (Z.of_nat (length data)) c = Undef BadIndex \/
  exists o c', read_payload maxSize h data (Z.of_nat (length data)) c = Ret o c' /\ same_kind c c' /\
    (forall data' n, o = Some (data', n) -> n = Z.of_nat (length data') /\ Z.of_nat (length data) < n < maxSize).
Proof.
  intros H Hp Hmax Hd. unfold read_payload. destruct (read_length_total h c H Hp) as (o & c1 & E1 & K1 & Hn). erewrite bind_Ret by exact E1. destruct o as [n |]; [| right; eexists _, c1; split; [done |]; split; [done |]; by intros]. specialize (Hn n eq_refl).
  assert (u64 (Z.of_nat (length data)) = Z.of_nat (length data)) as -> by (unfold u64; apply uwrap_id; unfold in_u; lia). destruct (Z.leb_spec maxSize (u64 (Z.of_nat (length data) + n))) as [| Hsz]; [right; eexists _, c1; split; [done |]; split; [done |]; by intros |].
  pose proof (same_kind_sane _ _ K1 H) as H1. destruct (read_mask_total h c1 H1) as (m & c2 & E2 & K2). erewrite bind_Ret by exact E2. pose proof (same_kind_trans _ _ _ K1 K2) as K12. destruct m as [m |]; [| right; eexists _, c2; split; [done |]; split; [done |]; by intros]. pose proof (same_kind_sane _ _ K2 H1) as H2.
  destruct (Z.ltb_spec (u64 (Z.of_nat (length data) + n)) (Z.of_nat (length data))) as [| Hge]; [by left |]. right.
  assert (u64 (Z.of_nat (length data) + n) = Z.of_nat (length data) + n) as Eu.
  { unfold u64, uwrap in *. destruct (decide (Z.of_nat (length data) + n < 2 ^ 64)); [apply Z.mod_small; lia |]. assert ((Z.of_nat (length data) + n) mod 2 ^ 64 = Z.of_nat (length data) + n - 2 ^ 64) as Em by (symmetry; apply (Z.mod_unique_pos _ _ 1); lia). lia. }
  rewrite Eu in *. destruct (conn_readFixSize_exact n c2 H2 ltac:(lia)) as (r & bs & c3 & E3 & M3 & _ & _ & Hr). erewrite bind_Ret by exact E3. cbn beta iota. assert (same_kind c c3) as K3 by (eapply same_kind_trans; [exact K12 | by eexists _, _]).
  destruct (Z.leb_spec r 0); [eexists _, c3; split; [done |]; split; [done |]; by intros |]. destruct (Hr ltac:(lia)) as [Hl Hpos]. unfold i32. rewrite swrap_id by (unfold in_s; lia).
  destruct (Z.ltb_spec (Z.of_nat (length data) + n) (- 2 ^ 31)), (Z.leb_spec (2 ^ 31) (Z.of_nat (length data) + n)); try lia. cbn [orb]. eexists _, c3. split; [done |]. split; [done |]. intros data' n' [= <- <-]. split; [| lia].
  rewrite Nat2Z.id. replace (Z.to_nat (Z.of_nat (length data) + n)) with (length data + length bs)%nat by lia. rewrite append_payload. replace (Z.to_nat n) with (length bs) by lia. rewrite drop_app_length, firstn_all2 by lia.
  destruct (wh_mask h); [rewrite length_splice by (rewrite length_app, xor_mask_length; lia) |]; rewrite length_app; lia.
Qed.

Lemma wsPong_total c : sane c -> exists v c', wsPong c = Ret v c' /\ (c_in c' = c_in c /\ sane c') /\ (0 < v -> same_kind c c').
Proof.
  intros H. unfold wsPong, ws_control, conn_writeFixSize. destruct (conn_write_loop_total (length (bytes_of (control op_Pong))) (Z.of_nat (length (bytes_of (control op_Pong)))) (bytes_of (control op_Pong)) c H) as (v & out & c' & E & M); [done |]. erewrite bind_Ret by exact E. pose proof (mv_in _ _ _ _ M) as Hin. cbn in Hin. pose proof (proj1 (moved_sane _ _ _ _ M H)) as H'.
  destruct (Z.leb_spec v 0); [| exists v, c'; split; [done |]; split; [done | by eexists _, _]]. eexists v, _. split; [done |]. split; [split; [done | by destruct H'] | lia].
Qed.

(** The outcome of a call: a message below the limit with the connection as
    before, nothing with the connection closed, or the bad index. *)
Definition ends (maxSize : Z) (c : Conn) (o : outcome Conn (option WSFrameMessage)) : Prop :=
  (exists m c', o = Ret (Some m) c' /\ 0 < Z.of_nat (length (wm_data m)) < maxSize /\ same_kind c c') \/ (exists c', o = Ret None c' /\ c_open c' = false) \/ o = Undef BadIndex.

Lemma ends_more maxSize c c' o : same_kind c c' -> ends maxSize c' o -> ends maxSize c o.
Proof. intros K [(m & c2 & -> & Hm & K') | [? | ?]]; [| by right; left | by right; right]. left. exists m, c2. split; [done |]. split; [done |]. by eapply same_kind_trans. Qed.

Lemma recv_loop_total maxSize client fuel opcode data c : sane c -> maxSize <= 2 ^ 31 -> Z.of_nat (length data) < 2 ^ 31 -> (length (c_in c) < fuel)%nat ->
  ends maxSize c (recv_loop fuel maxSize client opcode data (Z.of_nat (length data)) c).
Proof.
  intros H Hmax. revert opcode data c H. induction fuel as [|fuel IH]; intros opcode data c H Hd Hf; [lia |]. cbn [recv_loop]. destruct (conn_readFixSize_exact 2 c H ltac:(lia)) as (r & hd & c1 & E1 & M1 & H1 & _ & Hr). erewrite bind_Ret by exact E1. cbn beta iota.
  destruct (Z.leb_spec r 0); [right; left; by eexists |]. destruct (Hr ltac:(lia)) as [Hl _]. assert (same_kind c c1) as K1 by (by eexists _, _). assert (length (c_in c1) < fuel)%nat as Hf1 by (rewrite (mv_in _ _ _ _ M1), length_app in Hf; lia).
  destruct (wh_opcode (head_of hd) =? op_Ping).
  { destruct (wsPong_total c1 H1) as (v & c2 & E2 & [Hin H2] & K2). erewrite bind_Ret by exact E2. destruct (Z.leb_spec v 0); [right; left; by eexists |]. eapply ends_more; [eapply same_kind_trans; [exact K1 | apply K2; lia] |]. apply IH; [done | done | by rewrite Hin]. }
  destruct (wh_opcode (head_of hd) =? op_Pong); [eapply ends_more; [exact K1 |]; by apply IH |]. destruct (is_data (wh_opcode (head_of hd))); [| eapply ends_more; [exact K1 |]; by apply IH]. destruct (negb client && negb (wh_mask (head_of hd))); [right; left; by eexists |].
  assert (0 <= wh_payload (head_of hd) < 128) as Hp by (apply Z.mod_pos_bound; lia). destruct (read_payload_total maxSize (head_of hd) data c1 H1 Hp Hmax Hd) as [E2 | (o & c2 & E2 & K2 & Ho)]; [right; right; by erewrite bind_Undef by exact E2 |].
  erewrite bind_Ret by exact E2. destruct o as [[data' n] |]; [| right; left; by eexists]. destruct (Ho data' n eq_refl) as [-> Hn]. eapply ends_more; [eapply same_kind_trans; [exact K1 | exact K2] |].
  destruct (wh_fin (head_of hd)); [left; eexists _, c2; split; [done |]; cbn; split; [lia | by eexists _, _; apply moved_refl] |]. apply IH; [by eapply same_kind_sane | lia |]. pose proof (same_kind_length _ _ K2). lia.
Qed.

(** C25: receiving ends.  For every sequence of bytes a peer can send, every way
    the calls of [recv] and [send] split or fail, and every limit up to 2^31,
    [wsRecvMessage] leaves its loop: it returns a message of at least one byte
    and less than the limit, or closes the connection and returns nothing, or
    indexes [data] behind its end, which only the wrap-around of the check of
    the limit leads to.  No other undefined behaviour occurs. *)
Theorem ws_receive_ends maxSize client c : sane c -> maxSize <= 2 ^ 31 -> ends maxSize c (wsRecvMessage maxSize client c).
Proof. intros H Hm. unfold wsRecvMessage. change 0 with (Z.of_nat (length (@nil Z))) at 2. apply recv_loop_total; [done | done | cbn; lia | lia]. Qed.

Lemma ws_receive_ends_witness : ends 1000 (mk_Conn true [129; 133; 7; 7; 7; 7; 1; 2] (fun _ => 2) 0 [] (fun _ => -1) 0) (wsRecvMessage 1000 false (mk_Conn true [129; 133; 7; 7; 7; 7; 1; 2] (fun _ => 2) 0 [] (fun _ => -1) 0)).
Proof. apply ws_receive_ends; [| lia]. split; [intros n; vm_compute; intuition congruence | intros n; vm_compute; intuition congruence | repeat constructor; vm_compute; intuition congruence]. Defined.


(** ** Messages in parts *)

(** What one side does while it sends a message: a part, with the mask it
    draws, or a control frame of its own. *)
Inductive sending :=
| SendPart (mask data : list Z)
| SendPing
| SendPong.

(** The parts before the last one, then the last one; the first part carries
    the opcode. *)
Fixpoint send_all (client : bool) (opcode : Z) (l : list sending) (mask data : list Z) : M Conn bool :=
  match l with
  | [] => '(v, _) ← wsSendMessage client true mask (mk_Message opcode data); mret (0 <? v)
  | SendPart mask' data' :: l =>
    '(v, _) ← wsSendMessage client false mask' (mk_Message opcode data');
    if v <=? 0 then mret false else send_all client op_Continue l mask data
  | SendPing :: l => v ← wsPing; if v <=? 0 then mret false else send_all client opcode l mask data
  | SendPong :: l => v ← wsPong; if v <=? 0 then mret false else send_all client opcode l mask data
  end.

Definition data_of (l : list sending) : list Z := l ≫= (fun s => match s with SendPart _ data => data | _ => [] end).
Definition answers (l : list sending) : list Z := l ≫= (fun s => match s with SendPing => bytes_of (control op_Pong) | _ => [] end).

Definition part_ok (mask data : list Z) : Prop := length mask = 4%nat /\ data <> [].
Definition sending_ok (s : sending) : Prop := match s with SendPart mask data => part_ok mask data | _ => True end.

(** The frames of [send_all]. *)
Fixpoint events_of (client : bool) (opcode : Z) (l : list sending) : list event :=
  match l with
  | [] => []
  | SendPart mask data :: l => Part (mk_frame false opcode (if client then Some mask else None) data) :: events_of client op_Continue l
  | SendPing :: l => PingFrame :: events_of client opcode l
  | SendPong :: l => PongFrame :: events_of client opcode l
  end.

Definition last_opcode (opcode : Z) (l : list sending) : Z := foldl (fun op s => match s with SendPart _ _ => op_Continue | _ => op end) opcode l.

Definition last_frame (client : bool) (opcode : Z) (l : list sending) (mask data : list Z) : frame := mk_frame true (last_opcode opcode l) (if client then Some mask else None) data.

Lemma frame_for_peer (client fin : bool) opcode mask data : is_data opcode = true -> part_ok mask data -> frame_for (negb client) (mk_frame fin opcode (if client then Some mask else None) data).
Proof.
  intros Ho [Hl Hd]. split; [split; [done | | unfold f_size; cbn; destruct data; [done | cbn; lia]] |]; cbn; destruct client; cbn; [by intros m [= <-] | done | by eexists | done].
Qed.

Lemma send_all_spec (client : bool) opcode l mask data c : steady c -> is_data opcode = true -> Forall sending_ok l -> part_ok mask data -> Z.of_nat (length (data_of l ++ data)) < 2 ^ 31 - 2 ->
  exists c', send_all client opcode l mask data c = Ret true c' /\ moved c [] (wire (events_of client opcode l) ++ frame_bytes (last_frame client opcode l mask data)) c'.
Proof.
  intros H Ho Hl Hp Hs. revert opcode c H Ho. induction Hl as [|s l Hs' Hl IH]; intros opcode c H Ho; cbn [send_all events_of].
  - destruct (frame_for_peer client true opcode mask data Ho Hp) as [Hok _]. pose proof (fo_some _ Hok) as Hpos. unfold f_size in Hpos. cbn in Hs, Hpos. destruct (wsSendMessage_spec client true mask (mk_Message opcode data) c H Hok) as (c' & E & M); [unfold f_size; cbn; lia |]. erewrite bind_Ret by exact E. exists c'. split; [| exact M].
    unfold mret, M_ret, f_size. cbn. unfold i32. rewrite swrap_id by (unfold in_s; lia). destruct (Z.ltb_spec 0 (Z.of_nat (length data) + 2)); [done | lia].
  - unfold data_of in Hs. rewrite bind_cons in Hs. fold (data_of l) in Hs. rewrite <- app_assoc, length_app in Hs. destruct s as [m d | |].
    + destruct (frame_for_peer client false opcode m d Ho Hs') as [Hok _]. pose proof (fo_some _ Hok) as Hpos. unfold f_size in Hpos. cbn in Hpos. destruct (wsSendMessage_spec client false m (mk_Message opcode d) c H Hok) as (c1 & E & M1); [unfold f_size; cbn; lia |]. erewrite bind_Ret by exact E. cbn beta iota.
      unfold f_size. cbn [f_payload wm_data]. unfold i32. rewrite swrap_id by (unfold in_s; lia). destruct (Z.leb_spec (Z.of_nat (length d) + 2) 0); [lia |]. destruct (IH ltac:(lia) op_Continue c1 (moved_steady _ _ _ _ M1 H) eq_refl) as (c2 & E2 & M2). exists c2. split; [done |].
      unfold wire. rewrite bind_cons, <- app_assoc. exact (moved_trans _ _ _ _ _ _ _ M1 M2).
    + destruct (control_spec op_Ping c H) as (c1 & E & M1). erewrite bind_Ret by exact E. destruct (IH ltac:(cbn in Hs; lia) opcode c1 (moved_steady _ _ _ _ M1 H) Ho) as (c2 & E2 & M2). exists c2. split; [done |]. unfold wire. rewrite bind_cons, <- app_assoc. exact (moved_trans _ _ _ _ _ _ _ M1 M2).
    + destruct (control_spec op_Pong c H) as (c1 & E & M1). erewrite bind_Ret by exact E. destruct (IH ltac:(cbn in Hs; lia) opcode c1 (moved_steady _ _ _ _ M1 H) Ho) as (c2 & E2 & M2). exists c2. split; [done |]. unfold wire. rewrite bind_cons, <- app_assoc. exact (moved_trans _ _ _ _ _ _ _ M1 M2).
Qed.

Lemma last_opcode_ok opcode l : is_data opcode = true -> is_data (last_opcode opcode l) = true.
Proof. revert opcode. induction l as [|s l IH]; intros opcode Ho; [done |]. cbn [last_opcode foldl]. apply IH. by destruct s. Qed.

Lemma events_ok (client : bool) opcode l : is_data opcode = true -> Forall sending_ok l -> Forall (event_for (negb client)) (events_of client opcode l).
Proof.
  intros Ho Hl. revert opcode Ho. induction Hl as [|s l Hs Hl IH]; intros opcode Ho; [constructor |]. destruct s as [m d | |]; cbn [events_of]; (constructor; [| by apply IH]); [| done | done]. split; [by apply frame_for_peer | done].
Qed.

Lemma events_data client opcode l : parts (events_of client opcode l) = data_of l /\ pongs (events_of client opcode l) = answers l.
Proof.
  revert opcode. induction l as [|s l IH]; intros opcode; [done |]. unfold parts, pongs, data_of, answers in *. destruct s as [m d | |]; cbn [events_of]; rewrite !bind_cons; destruct (IH op_Continue), (IH opcode); split; cbn [f_payload]; congruence.
Qed.

(** The receiver's opcode is that of the first part. *)
Lemma opcode_kept op l client c0 : op <> 0 -> opcode_after op (events_of client c0 l) = op.
Proof.
  intros Hop. revert c0. induction l as [|s l IH]; intros c0; [done |]. unfold opcode_after in *. destruct s as [m d | |]; cbn [events_of foldl]; [| apply IH | apply IH]. unfold next_opcode. destruct (Z.eqb_spec op 0); [done |]. apply IH.
Qed.

Lemma opcode_received client opcode l mask data : opcode <> 0 -> opcode_after 0 (events_of client opcode l ++ [Part (last_frame client opcode l mask data)]) = opcode.
Proof.
  intros Hop. unfold opcode_after. rewrite foldl_app. fold (opcode_after 0 (events_of client opcode l)). cbn [foldl]. unfold last_frame. induction l as [|s l IH].
  - cbn. unfold next_opcode, op_Continue. cbn [f_opcode]. destruct (Z.eqb_spec opcode 0); [done | done].
  - destruct s as [m d | |]; cbn [events_of opcode_after foldl last_opcode]; [| exact IH | exact IH]. assert (next_opcode 0 (mk_frame false opcode (if client then Some m else None) d) = opcode) as -> by (unfold next_opcode, op_Continue; cbn [f_opcode]; by destruct (Z.eqb_spec opcode 0)).
    fold (opcode_after opcode (events_of client op_Continue l)). rewrite opcode_kept by done. unfold next_opcode. by destruct (Z.eqb_spec opcode 0).
Qed.

(** C24: a message crosses the connection.  One side sends a text or binary
    message in any number of parts, with pings and pongs of its own between
    them; the calls of [send] and [recv] split the bytes in any way.  Every call
    succeeds; the other side, in the other role, receives the opcode of the
    first part and the bytes of all parts, whatever masks were drawn, answers
    each ping, and leaves the bytes that follow. *)
Theorem ws_message_roundtrip maxSize (client : bool) opcode l mask data c d rest : steady c -> steady d -> opcode = op_TextFrame \/ opcode = op_BinFrame -> Forall sending_ok l -> part_ok mask data ->
  Z.of_nat (length (data_of l ++ data)) < maxSize -> maxSize <= 2 ^ 31 - 2 ->
  exists c' bytes, send_all client opcode l mask data c = Ret true c' /\ c_out c' = c_out c ++ bytes /\
    (c_in d = bytes ++ rest -> exists d', wsRecvMessage maxSize (negb client) d = Ret (Some (mk_Message opcode (data_of l ++ data))) d' /\ c_in d' = rest /\ c_out d' = c_out d ++ answers l).
Proof.
  intros Hc Hd Hop Hl Hp Hs Hmax. assert (is_data opcode = true /\ opcode <> 0) as [Ho Hne] by (by destruct Hop as [-> | ->]). destruct (send_all_spec client opcode l mask data c Hc Ho Hl Hp ltac:(lia)) as (c' & E & M).
  eexists c', _. split; [exact E |]. split; [apply (mv_out _ _ _ _ M) |]. intros Hin. destruct (events_data client opcode l) as [Ep Ea]. rewrite <- app_assoc in Hin.
  destruct (wsRecvMessage_spec maxSize (negb client) (events_of client opcode l) (last_frame client opcode l mask data) d rest Hd ltac:(lia) (events_ok client opcode l Ho Hl)) as (d' & E' & M' & R'); [| done | | done |].
  - apply frame_for_peer; [by apply last_opcode_ok | done].
  - rewrite Ep. rewrite length_app in Hs. unfold f_size. cbn [last_frame f_payload]. lia.
  - exists d'. split; [| split; [done | rewrite (mv_out _ _ _ _ M'), Ea; done]]. rewrite E'. rewrite opcode_received by done. unfold parts. rewrite bind_app. fold (parts (events_of client opcode l)). rewrite Ep. cbn. by rewrite app_nil_r.
Qed.

(** A connection that moves [n] bytes per call. *)
Definition conn_by (n : Z) (input : list Z) : Conn := mk_Conn true input (fun _ => n) 0 [] (fun _ => n) 0.

Lemma conn_by_steady n input : 0 < n -> steady (conn_by n input).
Proof. intros H. by split. Qed.

Lemma ws_message_roundtrip_witness :
  exists c' bytes, send_all true op_TextFrame [SendPart [1; 2; 3; 4] [72; 101]; SendPing] [9; 8; 7; 6] [108; 108; 111] (conn_by 3 []) = Ret true c' /\ c_out c' = [] ++ bytes /\
    (c_in (conn_by 1 bytes) = bytes ++ [] -> exists d', wsRecvMessage 1000 false (conn_by 1 bytes) = Ret (Some (mk_Message op_TextFrame [72; 101; 108; 108; 111])) d' /\ c_in d' = [] /\ c_out d' = [] ++ [138; 0]).
Proof.
  destruct (ws_message_roundtrip 1000 true op_TextFrame [SendPart [1; 2; 3; 4] [72; 101]; SendPing] [9; 8; 7; 6] [108; 108; 111] (conn_by 3 []) (conn_by 1 [1; 130; 1; 2; 3; 4; 73; 103; 137; 0; 128; 131; 9; 8; 7; 6; 101; 100; 104]) []) as (c' & bytes & E & Eo & R).
  - by apply conn_by_steady.
  - by apply conn_by_steady.
  - by left.
  - repeat constructor; done.
  - by split.
  - done.
  - done.
  - exists c', bytes. split; [exact E |]. split; [exact Eo |]. vm_compute in E. injection E as <-. cbn in Eo. subst bytes. intros _. exact (R eq_refl).
Defined.

(** ** Inputs that are not handled *)

(** The frame of a server: one byte of the text [b]. *)
Definition one_byte (fin : bool) (opcode b : Z) : list Z := frame_bytes (mk_frame fin opcode None [b]).

Definition result {A} (o : outcome Conn A) : option A := match o with Ret a _ => Some a | _ => None end.
Definition output {A} (o : outcome Conn A) : list Z := match o with Ret _ c | Throw _ c => c_out c | Undef _ => [] end.

(** What is not handled.  Sending a message without bytes fails and closes
    the connection after its head was written.  A ping that carries a byte is
    answered, and its byte is taken for the next frame, which swallows the head
    of the message behind it.  A close frame is skipped.  A part with a length
    that wraps the check of the limit makes the code index [data] behind its
    end.  A client masks the message object in place: sending it again sends
    other bytes. *)
Theorem ws_unhandled :
  (forall (client fin : bool) opcode mask c, steady c -> length mask = 4%nat -> exists c', wsSendMessage client fin mask (mk_Message opcode []) c = Ret (-1, []) c' /\ c_open c' = false) /\
  (result (wsRecvMessage 1000 true (conn_by 9 ([137; 1; 65] ++ one_byte true op_TextFrame 66))) = Some None /\
    output (wsRecvMessage 1000 true (conn_by 9 ([137; 1; 65] ++ one_byte true op_TextFrame 66))) = [138; 0]) /\
  result (wsRecvMessage 1000 true (conn_by 9 ([136; 0] ++ one_byte true op_TextFrame 66))) = Some (Some (mk_Message op_TextFrame [66])) /\
  wsRecvMessage 1000 true (conn_by 9 (one_byte false op_TextFrame 66 ++ [128; 127; 255; 255; 255; 255; 255; 255; 255; 255])) = Undef BadIndex /\
  (result (wsSendMessage true true [1; 1; 1; 1] (mk_Message op_TextFrame [66]) (conn_by 9 [])) = Some (3, [67]) /\
    result (wsRecvMessage 1000 false (conn_by 9 (output (wsSendMessage true true [2; 2; 2; 2] (mk_Message op_TextFrame [67]) (conn_by 9 []))))) = Some (Some (mk_Message op_TextFrame [67]))).
Proof.
  split.
  { intros client fin opcode mask c H Hm. unfold wsSendMessage. cbn [wm_data wm_opcode length]. destruct (conn_writeFixSize_spec (bytes_of (send_head client fin opcode (Z.of_nat 0))) c H) as (c1 & E1 & M1); [done |]. pose proof (moved_steady _ _ _ _ M1 H) as H1. erewrite bind_Ret by exact E1.
    change (Z.of_nat (length (bytes_of (send_head client fin opcode (Z.of_nat 0)))) <=? 0) with false. cbn iota. erewrite bind_Ret by done. cbn beta. change (1 <=? 0) with false. cbn iota. destruct client; [| by eexists].
    destruct (conn_writeFixSize_spec mask c1 H1) as (c2 & E2 & M2); [lia |]. erewrite bind_Ret by exact E2. rewrite Hm. change (Z.of_nat 4 <=? 0) with false. cbn iota. by eexists. }
  repeat split; vm_compute; reflexivity.
Qed.

Lemma ws_unhandled_witness : exists c', wsSendMessage true true [1; 2; 3; 4] (mk_Message op_BinFrame []) (conn_by 2 []) = Ret (-1, []) c' /\ c_open c' = false.
Proof. destruct ws_unhandled as [H _]. apply H; [by apply conn_by_steady | reflexivity]. Defined.
