(* ===== verification/Bitmap.v ===== *)
(** * Bitmap

    [src/include/datastruct/bitmap.h] and [src/src/datastruct/bitmap.cpp], with
    the default [BITMAP_TYPE_UINT16]: words of 16 bits carry 14 bits of the map
    each; in a compressed bitmap bit 15 marks a run, bit 14 its value and the
    low 14 bits a digit of its length.

    [_data] is a list of [_dataSize] words.  Loops that read it as an array of
    [uint64_t] do so here as well (four words, little-endian).  Reading or
    writing outside the array is [BadIndex]. *)

From stdpp Require Import base list list_numbers numbers option.
From Stdlib Require Import ZArith Lia.
From S2P Require Import Prelude.
From S2P Require Import ByteArray.
From S2P Require Import ByteCodec.

Local Open Scope Z_scope.

Definition VALUE_SIZE : Z := 14.
Definition COMPRESS_MASK : Z := 2 ^ 15.
Definition VALUE_MASK : Z := 2 ^ 14.
Definition COUNT_MASK : Z := 2 ^ 14 - 1.
Definition NOT_VALUE_MASK : Z := u16 (Z.lnot VALUE_MASK).
Definition U64_DIV_BASE : Z := 4.
Definition U64_VALUE_SIZE : Z := 56.

(** The tables [init] fills. *)
Definition POS (i : Z) : Z := u16 (Z.shiftl 1 i).
Definition NPOS (i : Z) : Z := u16 (Z.lnot (POS i)).
Definition MASK (i : Z) : Z := u16 (POS i - 1).

(** [bm_null]: [_data] is [NULL]; [malloc(0)] does not return it. *)
Record Bitmap := mk_Bitmap {
  bm_compress : bool;
  bm_size : Z;
  bm_data : list Z;
  bm_null : bool;
}.

Definition dataSize (b : Bitmap) : Z := Z.of_nat (length (bm_data b)).
Definition put_data (d : list Z) (b : Bitmap) : Bitmap := mk_Bitmap (bm_compress b) (bm_size b) d (bm_null b).

(** [ceil(size * 1.0 / VALUE_SIZE)] *)
Definition words_for (size : Z) : Z := (size + VALUE_SIZE - 1) / VALUE_SIZE.

(** [Bitmap(size, def)]: [memset] fills both bytes of each word with [def]. *)
Definition new_Bitmap (size def : Z) : Bitmap :=
  let n := Z.to_nat (words_for size) in
  mk_Bitmap false size (replicate n (def + 256 * def)) (bool_decide (n = 0%nat)).

(** [Bitmap()] and [Bitmap(const Bitmap&)] *)
Definition empty_Bitmap : Bitmap := mk_Bitmap true 0 [] true.
Definition copy_Bitmap (b : Bitmap) : Bitmap := mk_Bitmap (bm_compress b) (bm_size b) (bm_data b) false.

(** [operator=]; [same]: both are one object. *)
Definition Bitmap_assign (same : bool) (c b : Bitmap) : Bitmap :=
  if same then b else mk_Bitmap (bm_compress c) (bm_size c) (bm_data c) false.

(** ** The array *)

Definition at_index (d : list Z) (i : Z) : option Z := if i <? 0 then None else d !! Z.to_nat i.
Definition store (i : Z) (v : Z) (d : list Z) : option (list Z) := _ ← at_index d i; Some (<[Z.to_nat i := v]> d).

(** [((uint64_t* )_data)[i]] *)
Definition at_index64 (d : list Z) (i : Z) : option Z :=
  w0 ← at_index d (4 * i); w1 ← at_index d (4 * i + 1); w2 ← at_index d (4 * i + 2); w3 ← at_index d (4 * i + 3);
  Some (w0 + 2 ^ 16 * (w1 + 2 ^ 16 * (w2 + 2 ^ 16 * w3))).
Definition store64 (i : Z) (v : Z) (d : list Z) : option (list Z) :=
  d ← store (4 * i) (u16 v) d;
  d ← store (4 * i + 1) (u16 (Z.shiftr v 16)) d;
  d ← store (4 * i + 2) (u16 (Z.shiftr v 32)) d;
  store (4 * i + 3) (u16 (Z.shiftr v 48)) d.

(** [for(i = from; i < from + n; ++i)] *)
Fixpoint for_up {A} (n : nat) (i : Z) (body : Z -> A -> option A) (a : A) : option A :=
  match n with
  | O => Some a
  | S n => a ← body i a; for_up n (i + 1) body a
  end.

Definition for_range {A} (from to : Z) (body : Z -> A -> option A) (a : A) : option A := for_up (Z.to_nat (to - from)) from body a.

(** [x op= y] for words and for four words at once; [op64] differs from [op]
    only for the complement. *)
Definition combine (size : Z) (op op64 : Z -> Z -> Z) (d e : list Z) : option (list Z) :=
  let max_size := size / U64_VALUE_SIZE in
  d ← for_range 0 max_size (fun i d => x ← at_index64 d i; y ← at_index64 e i; store64 i (op64 x y) d) d;
  for_range (max_size * U64_DIV_BASE) (Z.of_nat (length d)) (fun i d => x ← at_index d i; y ← at_index e i; store i (op x y) d) d.

(** ** Single positions and ranges *)

Definition Bitmap_get (idx : Z) (b : Bitmap) : option bool :=
  w ← at_index (bm_data b) (idx / VALUE_SIZE);
  Some (negb (Z.land w (POS (idx mod VALUE_SIZE)) =? 0)).

Definition Bitmap_set (idx : Z) (v : bool) (b : Bitmap) : option Bitmap :=
  w ← at_index (bm_data b) (idx / VALUE_SIZE);
  let pos := idx mod VALUE_SIZE in
  d ← store (idx / VALUE_SIZE) (if v then Z.lor w (POS pos) else Z.land w (NPOS pos)) (bm_data b);
  Some (put_data d b).

(** [set(from, size, v)] and [get(from, size, v)]; the assertions want whole
    words. *)
Definition set_range (from size : Z) (v : bool) (d : list Z) : option (list Z) :=
  if size =? 0 then Some d
  else
    let to := u32 (from + size) in
    if (from mod VALUE_SIZE =? 0) && (to mod VALUE_SIZE =? 0) then
      for_range (from / VALUE_SIZE) (to / VALUE_SIZE) (fun i d => store i (if v then COUNT_MASK else 0) d) d
    else None.

Fixpoint get_loop (n : nat) (i : Z) (v : bool) (d : list Z) : option bool :=
  match n with
  | O => Some false
  | S n =>
    w ← at_index d i;
    if Bool.eqb v (negb (Z.land w COUNT_MASK =? 0)) then Some true else get_loop n (i + 1) v d
  end.

Definition get_range (from size : Z) (v : bool) (d : list Z) : option bool :=
  if size =? 0 then Some false
  else
    let to := u32 (from + size) in
    if (from mod VALUE_SIZE =? 0) && (to mod VALUE_SIZE =? 0) then
      get_loop (Z.to_nat (to / VALUE_SIZE - from / VALUE_SIZE)) (from / VALUE_SIZE) v d
    else None.

(** ** Reading a compressed bitmap *)

Definition is_run (w : Z) : bool := negb (Z.land w COMPRESS_MASK =? 0).
Definition run_value (w : Z) : bool := negb (Z.land w VALUE_MASK =? 0).

(** The further digits of a run length: the loop over [n].  A shift by 32 bits
    or more is undefined. *)
Fixpoint more_digits (v : bool) (k : Z) (count : Z) (ws : list Z) : option (Z * list Z) :=
  match ws with
  | [] => Some (count, [])
  | w :: ws' =>
    if is_run w && Bool.eqb v (run_value w) then
      if 32 <=? VALUE_SIZE * k then None
      else more_digits v (k + 1) (Z.lor (u32 (Z.shiftl (Z.land w COUNT_MASK) (VALUE_SIZE * k))) count) ws'
    else Some (count, ws)
  end.

(** The loop over the words of a compressed bitmap: [on_run] for a run with its
    position and length, [on_word] for a word of 14 bits; both say whether to
    go on. *)
Fixpoint decode {A} (fuel : nat) (on_run : Z -> Z -> bool -> A -> option (A * bool)) (on_word : Z -> Z -> A -> option (A * bool))
    (ws : list Z) (cur_pos : Z) (a : A) : option A :=
  match fuel, ws with
  | _, [] => Some a
  | O, _ => None
  | S fuel, w :: ws =>
    if is_run w then
      let v := run_value w in
      '(count, ws) ← more_digits v 1 (Z.land w COUNT_MASK) ws;
      '(a, go) ← on_run cur_pos count v a;
      if go : bool then decode fuel on_run on_word ws (u32 (cur_pos + count)) a else Some a
    else
      '(a, go) ← on_word cur_pos (Z.land w COUNT_MASK) a;
      if go : bool then decode fuel on_run on_word ws (u32 (cur_pos + VALUE_SIZE)) a else Some a
  end.

Definition decode_all {A} (on_run : Z -> Z -> bool -> A -> option (A * bool)) (on_word : Z -> Z -> A -> option (A * bool))
    (ws : list Z) (a : A) : option A := decode (length ws) on_run on_word ws 0 a.

Definition go {A} (o : option A) : option (A * bool) := a ← o; Some (a, true).

(** ** Operators *)

Definition lift {A} (b : Bitmap) (o : option A) (k : A -> outcome Bitmap unit) : outcome Bitmap unit :=
  match o with Some a => k a | None => Undef BadIndex end.

Definition Bitmap_and_assign (c : Bitmap) : M Bitmap unit := fun b =>
  if negb (bm_size b =? bm_size c) then Throw LogicError b
  else if negb (bm_compress b) && negb (bm_compress c) then
    lift b (combine (bm_size b) Z.land Z.land (bm_data b) (bm_data c)) (fun d => Ret tt (put_data d b))
  else if negb (Bool.eqb (bm_compress b) (bm_compress c)) then
    if bm_compress b then Throw LogicError b
    else
      lift b (decode_all
        (fun pos count v d => go (if v then Some d else set_range pos count false d))
        (fun pos w d => go (x ← at_index d (pos / VALUE_SIZE); store (pos / VALUE_SIZE) (Z.land x w) d))
        (bm_data c) (bm_data b)) (fun d => Ret tt (put_data d b))
  else Throw LogicError b.

Definition Bitmap_or_assign (c : Bitmap) : M Bitmap unit := fun b =>
  if negb (bm_size b =? bm_size c) then Throw LogicError b
  else if negb (bm_compress b) && negb (bm_compress c) then
    lift b (combine (bm_size b) Z.lor Z.lor (bm_data b) (bm_data c)) (fun d => Ret tt (put_data d b))
  else if negb (Bool.eqb (bm_compress b) (bm_compress c)) then
    if bm_compress b then Throw LogicError b
    else
      lift b (decode_all
        (fun pos count v d => go (if v then set_range pos count true d else Some d))
        (fun pos w d => go (x ← at_index d (pos / VALUE_SIZE); store (pos / VALUE_SIZE) (Z.lor x w) d))
        (bm_data c) (bm_data b)) (fun d => Ret tt (put_data d b))
  else Throw LogicError b.

(** [operator&] and [operator|]: on a copy. *)
Definition Bitmap_and (c b : Bitmap) : outcome Bitmap unit := Bitmap_and_assign c (copy_Bitmap b).
Definition Bitmap_or (c b : Bitmap) : outcome Bitmap unit := Bitmap_or_assign c (copy_Bitmap b).

(** [operator~], which changes the bitmap. *)
Definition Bitmap_not (b : Bitmap) : option Bitmap :=
  if negb (bm_compress b) then
    d ← combine (bm_size b) (fun x _ => u16 (Z.lnot x)) (fun x _ => u64 (Z.lnot x)) (bm_data b) (bm_data b);
    Some (put_data d b)
  else
    Some (put_data ((fun cur =>
      if is_run cur then (if run_value cur then Z.land cur NOT_VALUE_MASK else Z.lor cur VALUE_MASK)
      else Z.land (Z.lnot cur) COUNT_MASK) <$> bm_data b) b).

Definition Bitmap_eq (b c : Bitmap) : option bool :=
  if negb (Bool.eqb (bm_compress b) (bm_compress c)) || negb (bm_size b =? bm_size c) || negb (dataSize b =? dataSize c) then Some false
  else if negb (bool_decide (bm_data b = bm_data c)) then Some false
  else
    let left := bm_size b mod VALUE_SIZE in
    if negb (left =? 0) then
      x ← at_index (bm_data b) (dataSize b - 1); y ← at_index (bm_data c) (dataSize c - 1);
      Some (Z.land x (MASK left) =? Z.land y (MASK left))
    else Some true.

(** ** Compression *)

Definition count_bits (w : Z) : Z := Z.of_nat (length (filter (fun i => Z.testbit w i = true) (seqZ 0 64))).

(** [data[dst_cur_pos++] = w], in an array of [room] words. *)
Definition emit (room : nat) (w : Z) (dst : list Z) : option (list Z) :=
  if (length dst <? room)%nat then Some (dst ++ [u16 w]) else None.

(** [while(cur_count)]: the digits of a run length. *)
Fixpoint emit_digits (fuel : nat) (room : nat) (v : bool) (cur_count : Z) (dst : list Z) : option (list Z) :=
  if cur_count =? 0 then Some dst
  else
    match fuel with
    | O => None
    | S fuel =>
      dst ← emit room (Z.lor (if v then Z.lor COMPRESS_MASK VALUE_MASK else COMPRESS_MASK) (Z.land cur_count COUNT_MASK)) dst;
      emit_digits fuel room v (Z.shiftr cur_count VALUE_SIZE) dst
    end.

(** The words for the run so far. *)
Definition emit_run (room : nat) (v : bool) (cur_count : Z) (dst : list Z) : option (list Z) :=
  if 1 <? cur_count / VALUE_SIZE then emit_digits 5 room v cur_count dst
  else if negb (cur_count =? 0) then emit room (if v then COUNT_MASK else 0) dst
  else Some dst.

Fixpoint compress_loop (room : nat) (ws : list Z) (cur_value : bool) (cur_count : Z) (dst : list Z) : option (bool * Z * list Z) :=
  match ws with
  | [] => Some (cur_value, cur_count, dst)
  | cur :: ws =>
    let c := count_bits (Z.land cur COUNT_MASK) in
    if ((c =? 0) && negb cur_value) || ((c =? VALUE_SIZE) && cur_value) then
      compress_loop room ws cur_value (u64 (cur_count + VALUE_SIZE)) dst
    else if (1 <? cur_count / VALUE_SIZE) && negb (cur_count mod VALUE_SIZE =? 0) then None
    else
      dst ← emit_run room cur_value cur_count dst;
      if (c =? 0) || (c =? VALUE_SIZE) then compress_loop room ws (c =? VALUE_SIZE) VALUE_SIZE dst
      else dst ← emit room cur dst; compress_loop room ws cur_value 0 dst
  end.

Definition Bitmap_compress (b : Bitmap) : option Bitmap :=
  if bm_compress b then Some (copy_Bitmap b)
  else
    '(cur_value, cur_count, dst) ← compress_loop (length (bm_data b)) (bm_data b) false 0 [];
    dst ← (if 0 <? cur_count then emit_run (length (bm_data b)) cur_value cur_count dst else Some dst);
    Some (mk_Bitmap true (bm_size b) dst false).

Definition Bitmap_uncompress (c : Bitmap) : option Bitmap :=
  if negb (bm_compress c) then Some (copy_Bitmap c)
  else
    let b := new_Bitmap (bm_size c) 0 in
    d ← decode_all
      (fun pos count v d => go (set_range pos count v d))
      (fun pos w d => go (_ ← at_index d (pos / VALUE_SIZE); store (pos / VALUE_SIZE) w d))
      (bm_data c) (bm_data b);
    Some (put_data d b).

(** ** Queries *)

Definition Bitmap_any (b : Bitmap) : option bool :=
  if bm_null b then Some false
  else if negb (bm_compress b) then
    if dataSize b =? 0 then None
    else if existsb (fun w => negb (w =? 0)) (take (length (bm_data b) - 1) (bm_data b)) then Some true
    else
      w ← at_index (bm_data b) (dataSize b - 1);
      Some (negb (Z.land w (MASK (bm_size b mod VALUE_SIZE)) =? 0))
  else
    (* [uint8_t cur = _data[i]] *)
    Some (existsb (fun w => let cur := u8 w in if is_run cur then run_value cur else negb (cur =? 0)) (bm_data b)).

Definition Bitmap_resize (size : Z) (v : bool) : M Bitmap unit := fun b =>
  if bm_compress b then Throw LogicError b
  else
    let len := words_for size in
    if dataSize b <? len then
      let new_data := bm_data b ++ replicate (Z.to_nat (len - dataSize b)) (if v then 0xFFFF else 0) in
      let left := bm_size b mod VALUE_SIZE in
      lift b (x ← at_index new_data (dataSize b - 1);
              store (dataSize b - 1) (if v then Z.lor x (MASK left) else Z.land x (MASK left)) new_data)
        (fun d => Ret tt (mk_Bitmap false size d false))
    else Ret tt (mk_Bitmap false size (take (Z.to_nat len) (bm_data b)) (bm_null b)).

(** One word: the positions of its bits, from bit [x] on, while [cur_pos] is
    below the size; with the next [cur_pos]. *)
Fixpoint scan_up (n : nat) (x : Z) (w size cur_pos : Z) : list Z * Z :=
  match n with
  | O => ([], cur_pos)
  | S n =>
    if cur_pos <? size then
      let '(ps, pos) := scan_up n (x + 1) w size (cur_pos + 1) in
      (if negb (Z.land w (POS x) =? 0) then cur_pos :: ps else ps, pos)
    else ([], cur_pos)
  end.

(** A word of zeros is skipped as a whole. *)
Definition scan_word (w size : Z) (acc : list Z * Z) : list Z * Z :=
  let '(ps, cur_pos) := acc in
  let '(ps', cur_pos) := scan_up 14 0 w size cur_pos in (ps ++ ps', cur_pos).

(** [listPosAsc] *)
Definition listPosAsc (b : Bitmap) : option (list Z) :=
  let max_size := bm_size b / U64_VALUE_SIZE in
  let d := bm_data b in
  acc ← for_range 0 max_size (fun i '(ps, cur_pos) =>
    tmp ← at_index64 d i;
    if tmp =? 0 then Some (ps, u32 (cur_pos + U64_VALUE_SIZE))
    else for_range 0 U64_DIV_BASE (fun n acc => w ← at_index d (i * U64_DIV_BASE + n); Some (scan_word w (bm_size b) acc)) (ps, cur_pos)) ([], 0);
  acc ← for_range (max_size * U64_DIV_BASE) (dataSize b) (fun i '(ps, cur_pos) =>
    w ← at_index d i;
    if w =? 0 then Some (ps, u32 (cur_pos + VALUE_SIZE)) else Some (scan_word w (bm_size b) (ps, cur_pos))) acc;
  Some (fst acc).

(** [foreach]: the same loops with a callback.  [visit_up] is one word; the
    flag says that the callback has returned false, which ends the walk. *)
Fixpoint visit_up {S} (cb : Z -> S -> bool * S) (n : nat) (x : Z) (w size cur_pos : Z) (s : S) : S * Z * bool :=
  match n with
  | O => (s, cur_pos, false)
  | Datatypes.S n =>
    if cur_pos <? size then
      if negb (Z.land w (POS x) =? 0) then
        let '(more, s) := cb cur_pos s in
        if more : bool then visit_up cb n (x + 1) w size (cur_pos + 1) s else (s, cur_pos, true)
      else visit_up cb n (x + 1) w size (cur_pos + 1) s
    else (s, cur_pos, false)
  end.

Definition unless_stopped {S} (acc : S * Z * bool) (k : S -> Z -> option (S * Z * bool)) : option (S * Z * bool) :=
  let '(s, cur_pos, stopped) := acc in if stopped : bool then Some acc else k s cur_pos.

Definition foreach {S} (cb : Z -> S -> bool * S) (b : Bitmap) (s : S) : option S :=
  let max_size := bm_size b / U64_VALUE_SIZE in
  let d := bm_data b in
  acc ← for_range 0 max_size (fun i acc => unless_stopped acc (fun s cur_pos =>
    tmp ← at_index64 d i;
    if tmp =? 0 then Some (s, u32 (cur_pos + U64_VALUE_SIZE), false)
    else for_range 0 U64_DIV_BASE (fun n acc => unless_stopped acc (fun s cur_pos =>
      w ← at_index d (i * U64_DIV_BASE + n); Some (visit_up cb 14 0 w (bm_size b) cur_pos s))) (s, cur_pos, false))) (s, 0, false);
  acc ← for_range (max_size * U64_DIV_BASE) (dataSize b) (fun i acc => unless_stopped acc (fun s cur_pos =>
    w ← at_index d i;
    if w =? 0 then Some (s, u32 (cur_pos + VALUE_SIZE), false) else Some (visit_up cb 14 0 w (bm_size b) cur_pos s))) acc;
  Some (fst (fst acc)).

(** Bits [n - 1] down to 0 of a word. *)
Fixpoint scan_down (n : nat) (w cur_pos : Z) : list Z * Z :=
  match n with
  | O => ([], cur_pos)
  | S n =>
    let '(ps, pos) := scan_down n w (u32 (cur_pos - 1)) in
    (if negb (Z.land w (POS (Z.of_nat n)) =? 0) then cur_pos :: ps else ps, pos)
  end.

Definition scan_word_down (n : nat) (w : Z) (acc : list Z * Z) : list Z * Z :=
  let '(ps, cur_pos) := acc in
  let '(ps', cur_pos) := scan_down n w cur_pos in (ps ++ ps', cur_pos).

(** [for(i = from; i >= to; --i)] *)
Fixpoint for_down {A} (n : nat) (i : Z) (body : Z -> A -> option A) (a : A) : option A :=
  match n with
  | O => Some a
  | S n => a ← body i a; for_down n (i - 1) body a
  end.

(** The positions in the order of [rforeach]. *)
Definition listPosDesc (b : Bitmap) : option (list Z) :=
  let max_size := bm_size b / U64_VALUE_SIZE in
  let d := bm_data b in
  let start := dataSize b - 1 in
  let rest := bm_size b mod VALUE_SIZE in
  acc ← (if negb (bm_size b mod U64_VALUE_SIZE =? 0) then
    for_down (Z.to_nat (start - max_size * U64_DIV_BASE + 1)) start (fun i '(ps, cur_pos) =>
      w ← at_index d i;
      if w =? 0 then
        Some (ps, u32 (cur_pos - (if (i =? start) && negb (rest =? 0) then rest else VALUE_SIZE)))
      else if (i =? start) && negb (rest =? 0) then
        Some (scan_word_down (Z.to_nat rest + 1) w (ps, u32 (cur_pos + 1)))
      else Some (scan_word_down 14 w (ps, cur_pos))) ([], u32 (bm_size b - 1))
    else Some ([], u32 (bm_size b - 1)));
  acc ← for_down (Z.to_nat max_size) (max_size - 1) (fun i '(ps, cur_pos) =>
    tmp ← at_index64 d i;
    if tmp =? 0 then Some (ps, u32 (cur_pos - U64_VALUE_SIZE))
    else for_range 0 U64_DIV_BASE (fun n acc => w ← at_index d ((i + 1) * U64_DIV_BASE - 1 - n); Some (scan_word_down 14 w acc)) (ps, cur_pos)) acc;
  Some (fst acc).

(** [rforeach]: [visit_down] is bits [n - 1] down to 0 of a word.  In a last
    word that is not full it starts at the bit behind the size. *)
Fixpoint visit_down {S} (cb : Z -> S -> bool * S) (n : nat) (w cur_pos : Z) (s : S) : S * Z * bool :=
  match n with
  | O => (s, cur_pos, false)
  | Datatypes.S n =>
    if negb (Z.land w (POS (Z.of_nat n)) =? 0) then
      let '(more, s) := cb cur_pos s in
      if more : bool then visit_down cb n w (u32 (cur_pos - 1)) s else (s, cur_pos, true)
    else visit_down cb n w (u32 (cur_pos - 1)) s
  end.

Definition rforeach {S} (cb : Z -> S -> bool * S) (b : Bitmap) (s : S) : option S :=
  let max_size := bm_size b / U64_VALUE_SIZE in
  let d := bm_data b in
  let start := dataSize b - 1 in
  let rest := bm_size b mod VALUE_SIZE in
  acc ← (if negb (bm_size b mod U64_VALUE_SIZE =? 0) then
    for_down (Z.to_nat (start - max_size * U64_DIV_BASE + 1)) start (fun i acc => unless_stopped acc (fun s cur_pos =>
      w ← at_index d i;
      if w =? 0 then
        Some (s, u32 (cur_pos - (if (i =? start) && negb (rest =? 0) then rest else VALUE_SIZE)), false)
      else if (i =? start) && negb (rest =? 0) then
        Some (visit_down cb (Z.to_nat rest + 1) w (u32 (cur_pos + 1)) s)
      else Some (visit_down cb 14 w cur_pos s))) (s, u32 (bm_size b - 1), false)
    else Some (s, u32 (bm_size b - 1), false));
  acc ← for_down (Z.to_nat max_size) (max_size - 1) (fun i acc => unless_stopped acc (fun s cur_pos =>
    tmp ← at_index64 d i;
    if tmp =? 0 then Some (s, u32 (cur_pos - U64_VALUE_SIZE), false)
    else for_range 0 U64_DIV_BASE (fun n acc => unless_stopped acc (fun s cur_pos =>
      w ← at_index d ((i + 1) * U64_DIV_BASE - 1 - n); Some (visit_down cb 14 w cur_pos s))) (s, cur_pos, false))) acc;
  Some (fst (fst acc)).

(** ** [cross] *)

Fixpoint cross_loop64 (n : nat) (i : Z) (d e : list Z) : option bool :=
  match n with
  | O => Some false
  | S n =>
    x ← at_index64 d i;
    if x =? 0 then cross_loop64 n (i + 1) d e
    else y ← at_index64 e i; if negb (Z.land x y =? 0) then Some true else cross_loop64 n (i + 1) d e
  end.

Fixpoint cross_loop (n : nat) (i : Z) (d e : list Z) : option bool :=
  match n with
  | O => Some false
  | S n =>
    x ← at_index d i; y ← at_index e i;
    if negb (Z.land x y =? 0) then Some true else cross_loop n (i + 1) d e
  end.

Definition normalCross (b c : Bitmap) : option bool :=
  let max_size := bm_size b / U64_VALUE_SIZE in
  r ← cross_loop64 (Z.to_nat max_size) 0 (bm_data b) (bm_data c);
  if r : bool then Some true
  else cross_loop (Z.to_nat (dataSize b - max_size * U64_DIV_BASE)) (max_size * U64_DIV_BASE) (bm_data b) (bm_data c).

Definition compressCross (b c : Bitmap) : option bool :=
  decode_all
    (fun pos count v (found : bool) => if v then r ← get_range pos count true (bm_data b); Some (r, negb r) else Some (found, true))
    (fun pos w (found : bool) => x ← at_index (bm_data b) (pos / VALUE_SIZE); if negb (Z.land x w =? 0) then Some (true, false) else Some (found, true))
    (bm_data c) false.

Definition Bitmap_cross (b c : Bitmap) : option bool :=
  if negb (bm_compress b) && bm_compress c then compressCross b c
  else if negb (bm_compress b) && negb (bm_compress c) then normalCross b c
  else Some false.

(** ** Iterators *)

(** Bits [x], [x + 1], ... of a word while the position is below [size]: the
    position reached, and whether the bit there is set. *)
Fixpoint seek_up (n : nat) (x : Z) (w size pos : Z) : Z * bool :=
  match n with
  | O => (pos, false)
  | S n =>
    if pos <? size then
      if negb (Z.land w (POS x) =? 0) then (pos, true) else seek_up n (x + 1) w size (pos + 1)
    else (pos, false)
  end.

Fixpoint next_loop (n : nat) (i : Z) (d : list Z) (size pos : Z) : option Z :=
  match n with
  | O => Some pos
  | S n =>
    if pos <? size then
      w ← at_index d i;
      if w =? 0 then next_loop n (i + 1) d size (pos + VALUE_SIZE)
      else let '(pos, found) := seek_up 14 0 w size pos in if found : bool then Some pos else next_loop n (i + 1) d size pos
    else Some pos
  end.

(** [iterator::next], from the position [_pos] to the next one. *)
Definition iterator_next (b : Bitmap) (pos : Z) : option Z :=
  let pos := pos + 1 in
  let size := i32 (bm_size b) in
  let left := pos mod VALUE_SIZE in
  '(pos, found) ← (if negb (left =? 0) then w ← at_index (bm_data b) (pos / VALUE_SIZE); Some (seek_up (Z.to_nat (VALUE_SIZE - left)) left w size pos)
                   else Some (pos, false));
  if found : bool then Some pos
  else next_loop (Z.to_nat (dataSize b - pos / VALUE_SIZE)) (pos / VALUE_SIZE) (bm_data b) size pos.

Definition iterator_begin (b : Bitmap) : option Z := iterator_next b (-1).

(** [operator!]: is there a position? *)
Definition iterator_valid (b : Bitmap) (pos : Z) : bool := negb ((i32 (bm_size b) <=? pos) || (pos <? 0)).

(** The loop [for(it = begin(); !it; it.next())]. *)
Fixpoint iterate (fuel : nat) (b : Bitmap) (pos : Z) : option (list Z) :=
  match fuel with
  | O => None
  | S fuel =>
    if iterator_valid b pos then
      next ← iterator_next b pos; ps ← iterate fuel b next; Some (pos :: ps)
    else Some []
  end.

(** Bits [n - 1] down to 0 of a word. *)
Fixpoint seek_down (n : nat) (w pos : Z) : Z * bool :=
  match n with
  | O => (pos, false)
  | S n =>
    if 0 <=? pos then
      if negb (Z.land w (POS (Z.of_nat n)) =? 0) then (pos, true) else seek_down n w (pos - 1)
    else (pos, false)
  end.

Fixpoint prev_loop (n : nat) (i : Z) (d : list Z) (pos : Z) : option Z :=
  match n with
  | O => Some pos
  | S n =>
    if 0 <=? pos then
      w ← at_index d i;
      if w =? 0 then prev_loop n (i - 1) d (pos - VALUE_SIZE)
      else let '(pos, found) := seek_down 14 w pos in if found : bool then Some pos else prev_loop n (i - 1) d pos
    else Some pos
  end.

(** [iterator_reverse::next] *)
Definition iterator_reverse_next (b : Bitmap) (pos : Z) : option Z :=
  if pos <=? 0 then Some (-1)
  else
    let pos := pos - 1 in
    let left := pos mod VALUE_SIZE in
    let i := pos / VALUE_SIZE in
    '(pos, found, i) ← (if negb (left =? VALUE_SIZE - 1) then
                          w ← at_index (bm_data b) i;
                          let '(pos, found) := seek_down (Z.to_nat (left + 1)) w pos in Some (pos, found, i - 1)
                        else Some (pos, false, i));
    if found : bool then Some pos else prev_loop (Z.to_nat (i + 1)) i (bm_data b) pos.

Definition iterator_rbegin (b : Bitmap) : option Z := iterator_reverse_next b (i32 (bm_size b)).

Fixpoint iterate_reverse (fuel : nat) (b : Bitmap) (pos : Z) : option (list Z) :=
  match fuel with
  | O => None
  | S fuel =>
    if iterator_valid b pos then
      next ← iterator_reverse_next b pos; ps ← iterate_reverse fuel b next; Some (pos :: ps)
    else Some []
  end.

(** ** [getCount] *)

Definition count64 (v : Z) : Z := count_bits (Z.land v 0xFFFFFFFF) + count_bits (Z.shiftr v 32).

Definition Bitmap_getCount (b : Bitmap) : option Z :=
  if negb (bm_compress b) then
    let d := bm_data b in
    let len := dataSize b / U64_DIV_BASE in
    count ← for_range 0 len (fun i count => tmp ← at_index64 d i; Some (u32 (count + count64 tmp))) 0;
    acc ← for_range (len * U64_DIV_BASE) (dataSize b) (fun i '(count, cur_pos) =>
      w ← at_index d i;
      if negb (w =? 0) then
        let '(ps, cur_pos) := scan_up 14 0 w (bm_size b) cur_pos in Some (u32 (count + Z.of_nat (length ps)), cur_pos)
      else Some (count, u32 (cur_pos + VALUE_SIZE))) (count, u32 (len * U64_VALUE_SIZE));
    Some (fst acc)
  else
    Some (foldr (fun w count =>
      u32 (count + (if is_run w then (if run_value w then Z.land w COUNT_MASK else 0) else count_bits w))) 0 (bm_data b)).

(** ** [writeTo] and [readFrom] *)

Definition words_bytes (host : endian) (d : list Z) : list Z := d ≫= mem_of host 2.

Fixpoint bytes_words (host : endian) (bs : list Z) : list Z :=
  match bs with
  | x :: y :: bs => of_mem host [x; y] :: bytes_words host bs
  | _ => []
  end.

Definition Bitmap_writeTo (host : endian) (b : Bitmap) : M ByteArray unit :=
  write_int host uint8_t (Z.b2z (bm_compress b));;
  write_int host uint32_t (bm_size b);;
  write_int host uint32_t (dataSize b);;
  ByteArray_write (words_bytes host (bm_data b)).

(** An exception ends [readFrom] with false and the fields read so far. *)
Definition reading {A} (m : M ByteArray A) (b : Bitmap) (k : A -> M ByteArray (bool * Bitmap)) : M ByteArray (bool * Bitmap) := fun s =>
  match m s with
  | Ret a s => k a s
  | Throw _ s => Ret (false, b) s
  | Undef u => Undef u
  end.

(** [uninit n]: what [malloc] has returned [n] words of. *)
Definition Bitmap_readFrom (host : endian) (uninit : nat -> list Z) (b : Bitmap) : M ByteArray (bool * Bitmap) :=
  reading (read_int host uint8_t) b (fun c =>
  let b := mk_Bitmap (negb (c =? 0)) (bm_size b) (bm_data b) (bm_null b) in
  reading (read_int host uint32_t) b (fun size =>
  let b := mk_Bitmap (bm_compress b) size (bm_data b) (bm_null b) in
  reading (read_int host uint32_t) b (fun n =>
  let b := mk_Bitmap (bm_compress b) (bm_size b) (uninit (Z.to_nat n)) false in
  reading (ByteArray_read (Z.to_nat (n * 2))) b (fun bs =>
  mret (true, put_data (bytes_words host bs) b))))).
