(* ===== verification/BitmapFacts.v ===== *)
(** * Plain bitmaps as sets of positions

    A bitmap is clean when its words carry 14 bits each and nothing behind its
    size; [elements] lists its positions. *)

From stdpp Require Import base list list_numbers numbers option sorting.
From Stdlib Require Import ZArith Lia.
From S2P Require Import Prelude.
From S2P Require Import Bitmap.

Local Open Scope Z_scope.

(** ** Words *)

Lemma split_testbit a b i : in_u 16 a -> 0 <= i -> Z.testbit (a + 2 ^ 16 * b) i = if i <? 16 then Z.testbit a i else Z.testbit b (i - 16).
Proof.
  intros [Ha1 Ha2] Hi. rewrite (Z.mul_comm (2 ^ 16)). destruct (Z.ltb_spec i 16).
  - rewrite <- (Z.mod_pow2_bits_low (a + b * 2 ^ 16) 16 i) by lia. rewrite Z_mod_plus_full, Z.mod_small by lia. done.
  - rewrite <- (Z.sub_add 16 i) at 1. rewrite <- Z.div_pow2_bits by lia. rewrite Z.div_add, Z.div_small by lia. done.
Qed.

(** An operation that acts bit by bit. *)
Class Bitwise (op : Z -> Z -> Z) := {
  on_bit : bool -> bool -> bool;
  bitwise_testbit a b i : 0 <= i -> Z.testbit (op a b) i = on_bit (Z.testbit a i) (Z.testbit b i);
  bitwise_ff : on_bit false false = false;
  bitwise_nonneg a b : 0 <= a -> 0 <= b -> 0 <= op a b;
}.

#[export] Instance land_bitwise : Bitwise Z.land.
Proof. refine {| on_bit := andb |}; [intros; apply Z.land_spec | done | intros; apply Z.land_nonneg; lia]. Defined.

#[export] Instance lor_bitwise : Bitwise Z.lor.
Proof. refine {| on_bit := orb |}; [intros; apply Z.lor_spec | done | intros; apply Z.lor_nonneg; lia]. Defined.

Lemma bitwise_in_u op `{!Bitwise op} w a b : 0 <= w -> in_u w a -> in_u w b -> in_u w (op a b).
Proof.
  intros Hw Ha Hb. apply in_u_bits; [done | apply bitwise_nonneg; [apply Ha | apply Hb] |]. intros i Hi.
  rewrite bitwise_testbit, (in_u_testbit w a), (in_u_testbit w b) by (done || lia). apply bitwise_ff.
Qed.

Lemma bitwise_split op `{!Bitwise op} a b c d : in_u 16 a -> in_u 16 c -> op (a + 2 ^ 16 * b) (c + 2 ^ 16 * d) = op a c + 2 ^ 16 * op b d.
Proof.
  intros Ha Hc. apply Z.bits_inj'. intros i Hi. rewrite bitwise_testbit, !split_testbit by (done || by apply bitwise_in_u). destruct (Z.ltb_spec i 16); by rewrite bitwise_testbit by lia.
Qed.

(** ** Arrays *)

Lemma at_index_lookup d i : 0 <= i -> at_index d i = d !! Z.to_nat i.
Proof. intros H. unfold at_index. destruct (Z.ltb_spec i 0); [lia | done]. Qed.

Lemma at_index_Some d i : 0 <= i < Z.of_nat (length d) -> exists w, at_index d i = Some w.
Proof. intros H. rewrite at_index_lookup by lia. apply lookup_lt_is_Some_2. lia. Qed.

Lemma at_index_range d i w : at_index d i = Some w -> 0 <= i < Z.of_nat (length d).
Proof. unfold at_index. destruct (Z.ltb_spec i 0); [done |]. intros Hl%lookup_lt_Some. lia. Qed.

Lemma at_index_Forall d i w (P : Z -> Prop) : Forall P d -> at_index d i = Some w -> P w.
Proof. unfold at_index. destruct (i <? 0); [done |]. intros Hf Hi. by eapply Forall_lookup_1 in Hf. Qed.

Lemma store_spec i v d : 0 <= i < Z.of_nat (length d) -> store i v d = Some (<[Z.to_nat i := v]> d).
Proof. intros H. unfold store. destruct (at_index_Some d i H) as [w ->]. done. Qed.

Lemma at_index_insert i j v d : 0 <= i < Z.of_nat (length d) -> at_index (<[Z.to_nat i := v]> d) j = if j =? i then Some v else at_index d j.
Proof.
  intros H. unfold at_index. destruct (Z.ltb_spec j 0); [destruct (Z.eqb_spec j i); [lia | done] |].
  destruct (Z.eqb_spec j i) as [-> | Hne]; [rewrite list_lookup_insert_eq by lia; done | rewrite list_lookup_insert_ne by lia; done].
Qed.

Lemma for_up_app {A} n1 n2 i (body : Z -> A -> option A) a : for_up (n1 + n2) i body a = for_up n1 i body a ≫= for_up n2 (i + Z.of_nat n1) body.
Proof.
  revert i a. induction n1 as [|n1 IH]; intros i a; cbn [for_up Nat.add].
  - cbn. by rewrite Z.add_0_r.
  - destruct (body i a) as [a' |]; [| done]. cbn [mbind option_bind]. rewrite IH. f_equal. replace (i + 1 + Z.of_nat n1) with (i + Z.of_nat (S n1)) by lia. done.
Qed.

Lemma for_range_split {A} from mid to (body : Z -> A -> option A) a : from <= mid <= to -> for_range from to body a = for_range from mid body a ≫= for_range mid to body.
Proof.
  intros H. unfold for_range. replace (Z.to_nat (to - from)) with (Z.to_nat (mid - from) + Z.to_nat (to - mid))%nat by lia. rewrite for_up_app.
  replace (from + Z.of_nat (Z.to_nat (mid - from))) with mid by lia. done.
Qed.

(** A loop with an invariant. *)
Lemma for_range_inv {A} (P : Z -> A -> Prop) from to (body : Z -> A -> option A) a : from <= to -> P from a ->
  (forall i a, from <= i < to -> P i a -> exists a', body i a = Some a' /\ P (i + 1) a') -> exists a', for_range from to body a = Some a' /\ P to a'.
Proof.
  intros Hft. unfold for_range. remember (Z.to_nat (to - from)) as n eqn:En. revert from a Hft En. induction n as [|n IH]; intros from a Hft En HP Hstep; cbn [for_up].
  - exists a. split; [done |]. replace to with from by lia. done.
  - destruct (Hstep from a) as (a1 & -> & HP1); [lia | done |]. cbn [mbind option_bind]. apply (IH (from + 1) a1); [lia | lia | done |]. intros i a' Hi. apply Hstep. lia.
Qed.

Lemma for_down_inv {A} (P : Z -> A -> Prop) from to (body : Z -> A -> option A) a : to <= from + 1 -> P (from + 1) a ->
  (forall i a, to <= i <= from -> P (i + 1) a -> exists a', body i a = Some a' /\ P i a') -> exists a', for_down (Z.to_nat (from - to + 1)) from body a = Some a' /\ P to a'.
Proof.
  intros Hft. remember (Z.to_nat (from - to + 1)) as n eqn:En. revert from a Hft En. induction n as [|n IH]; intros from a Hft En HP Hstep; cbn [for_down].
  - exists a. split; [done |]. replace to with (from + 1) by lia. done.
  - destruct (Hstep from a) as (a1 & -> & HP1); [lia | done |]. cbn [mbind option_bind]. apply (IH (from - 1) a1); [lia | lia | by rewrite Z.sub_add |]. intros i a' Hi. apply Hstep. lia.
Qed.

(** ** Four words at a time *)

Definition join4 (w0 w1 w2 w3 : Z) : Z := w0 + 2 ^ 16 * (w1 + 2 ^ 16 * (w2 + 2 ^ 16 * w3)).

Lemma at_index64_spec d i : 0 <= i -> 4 * i + 4 <= Z.of_nat (length d) ->
  exists w0 w1 w2 w3, at_index d (4 * i) = Some w0 /\ at_index d (4 * i + 1) = Some w1 /\ at_index d (4 * i + 2) = Some w2 /\ at_index d (4 * i + 3) = Some w3 /\
    at_index64 d i = Some (join4 w0 w1 w2 w3).
Proof.
  intros Hi Hl. destruct (at_index_Some d (4 * i)) as [w0 E0]; [lia |]. destruct (at_index_Some d (4 * i + 1)) as [w1 E1]; [lia |].
  destruct (at_index_Some d (4 * i + 2)) as [w2 E2]; [lia |]. destruct (at_index_Some d (4 * i + 3)) as [w3 E3]; [lia |].
  exists w0, w1, w2, w3. split_and!; try done. unfold at_index64. by rewrite E0, E1, E2, E3.
Qed.

Lemma join4_parts w0 w1 w2 w3 : in_u 16 w0 -> in_u 16 w1 -> in_u 16 w2 -> in_u 16 w3 ->
  u16 (join4 w0 w1 w2 w3) = w0 /\ u16 (Z.shiftr (join4 w0 w1 w2 w3) 16) = w1 /\ u16 (Z.shiftr (join4 w0 w1 w2 w3) 32) = w2 /\ u16 (Z.shiftr (join4 w0 w1 w2 w3) 48) = w3.
Proof.
  unfold in_u, u16, uwrap, join4. intros H0 H1 H2 H3. rewrite !Z.shiftr_div_pow2 by lia. split_and!; Z.to_euclidean_division_equations; lia.
Qed.

Lemma join4_zero w0 w1 w2 w3 : 0 <= w0 -> 0 <= w1 -> 0 <= w2 -> 0 <= w3 -> join4 w0 w1 w2 w3 = 0 <-> w0 = 0 /\ w1 = 0 /\ w2 = 0 /\ w3 = 0.
Proof. unfold join4. lia. Qed.

Lemma bitwise_join4 op `{!Bitwise op} a0 a1 a2 a3 b0 b1 b2 b3 : in_u 16 a0 -> in_u 16 a1 -> in_u 16 a2 -> in_u 16 b0 -> in_u 16 b1 -> in_u 16 b2 ->
  op (join4 a0 a1 a2 a3) (join4 b0 b1 b2 b3) = join4 (op a0 b0) (op a1 b1) (op a2 b2) (op a3 b3).
Proof. intros. unfold join4. by rewrite !bitwise_split. Qed.


Lemma store64_spec i w0 w1 w2 w3 d : 0 <= i -> 4 * i + 4 <= Z.of_nat (length d) -> in_u 16 w0 -> in_u 16 w1 -> in_u 16 w2 -> in_u 16 w3 ->
  exists d', store64 i (join4 w0 w1 w2 w3) d = Some d' /\ length d' = length d /\
    forall j, at_index d' j = if j =? 4 * i then Some w0 else if j =? 4 * i + 1 then Some w1 else if j =? 4 * i + 2 then Some w2 else if j =? 4 * i + 3 then Some w3 else at_index d j.
Proof.
  intros Hi Hl H0 H1 H2 H3. destruct (join4_parts w0 w1 w2 w3 H0 H1 H2 H3) as (E0 & E1 & E2 & E3). unfold store64. rewrite E0, E1, E2, E3.
  rewrite store_spec by lia. cbn [mbind option_bind]. rewrite store_spec by (rewrite length_insert; lia). cbn [mbind option_bind].
  rewrite store_spec by (rewrite !length_insert; lia). cbn [mbind option_bind]. rewrite store_spec by (rewrite !length_insert; lia).
  eexists. split; [done |]. split; [by rewrite !length_insert |]. intros j. rewrite !at_index_insert by (rewrite ?length_insert; lia).
  destruct (Z.eqb_spec j (4 * i + 3)), (Z.eqb_spec j (4 * i + 2)), (Z.eqb_spec j (4 * i + 1)), (Z.eqb_spec j (4 * i)); (done || lia).
Qed.

(** [d] up to [i], [e] from there. *)
Definition mixed (e d : list Z) (i : Z) (d' : list Z) : Prop :=
  length d' = length d /\ forall j, at_index d' j = if j <? i then at_index e j else at_index d j.

Lemma mixed_end e d d' : length e = length d -> mixed e d (Z.of_nat (length d)) d' -> d' = e.
Proof.
  intros Hl [Hl' H]. apply list_eq. intros i. specialize (H (Z.of_nat i)). rewrite !at_index_lookup, Nat2Z.id in H by lia.
  destruct (Z.ltb_spec (Z.of_nat i) (Z.of_nat (length d))); [done |]. rewrite !lookup_ge_None_2 by lia. done.
Qed.

Lemma at_index_zip op d e j x y : at_index d j = Some x -> at_index e j = Some y -> at_index (zip_with op d e) j = Some (op x y).
Proof. unfold at_index. destruct (j <? 0); [done |]. intros H1 H2. by rewrite lookup_zip_with, H1; cbn; rewrite H2. Qed.

Lemma mixed_rest e d i d' j : mixed e d i d' -> i <= j -> at_index d' j = at_index d j.
Proof. intros [_ H] Hj. rewrite H. destruct (Z.ltb_spec j i); [lia | done]. Qed.

Lemma mixed_step e d i k d' d'' : mixed e d i d' -> 0 <= k -> length d'' = length d' ->
  (forall j, at_index d'' j = if (i <=? j) && (j <? i + k) then at_index e j else at_index d' j) -> mixed e d (i + k) d''.
Proof.
  intros [Hl H] Hk Hl' H'. split; [lia |]. intros j. rewrite H', H. destruct (Z.leb_spec i j), (Z.ltb_spec j (i + k)), (Z.ltb_spec j i); (done || lia).
Qed.

Lemma mixed_start e d : mixed e d 0 d.
Proof. split; [done |]. intros j. destruct (Z.ltb_spec j 0); [| done]. unfold at_index. destruct (Z.ltb_spec j 0); [done | lia]. Qed.

Lemma combine_block op `{!Bitwise op} d e d' i : length e = length d -> Forall (in_u 16) d -> Forall (in_u 16) e -> 0 <= i -> 4 * i + 4 <= Z.of_nat (length d) ->
  mixed (zip_with op d e) d (4 * i) d' ->
  exists d'', (x ← at_index64 d' i; y ← at_index64 e i; store64 i (op x y) d') = Some d'' /\ mixed (zip_with op d e) d (4 * (i + 1)) d''.
Proof.
  intros Hl Hd He Hi H4 Hm. pose proof (proj1 Hm) as Hl'.
  destruct (at_index64_spec d' i) as (x0 & x1 & x2 & x3 & X0 & X1 & X2 & X3 & ->); [lia | lia |]. destruct (at_index64_spec e i) as (y0 & y1 & y2 & y3 & Y0 & Y1 & Y2 & Y3 & ->); [lia | lia |].
  rewrite (mixed_rest _ _ _ _ _ Hm) in X0 by lia. rewrite (mixed_rest _ _ _ _ _ Hm) in X1 by lia. rewrite (mixed_rest _ _ _ _ _ Hm) in X2 by lia. rewrite (mixed_rest _ _ _ _ _ Hm) in X3 by lia. pose proof (fun j w => at_index_Forall d j w _ Hd) as Fd. pose proof (fun j w => at_index_Forall e j w _ He) as Fe.
  cbn [mbind option_bind]. rewrite bitwise_join4 by eauto.
  destruct (store64_spec i (op x0 y0) (op x1 y1) (op x2 y2) (op x3 y3) d') as (d2 & -> & Hl2 & Hd2); [lia | lia | apply bitwise_in_u; eauto; lia..|].
  exists d2. split; [done |]. replace (4 * (i + 1)) with (4 * i + 4) by lia. apply (mixed_step _ _ _ _ d'); [done | lia | done |]. intros j. rewrite Hd2.
  destruct (Z.eqb_spec j (4 * i)) as [-> |]; [rewrite (at_index_zip op d e _ x0 y0) by done; by rewrite (proj2 (Z.leb_le _ _)), (proj2 (Z.ltb_lt _ _)) by lia |].
  destruct (Z.eqb_spec j (4 * i + 1)) as [-> |]; [rewrite (at_index_zip op d e _ x1 y1) by done; by rewrite (proj2 (Z.leb_le _ _)), (proj2 (Z.ltb_lt _ _)) by lia |].
  destruct (Z.eqb_spec j (4 * i + 2)) as [-> |]; [rewrite (at_index_zip op d e _ x2 y2) by done; by rewrite (proj2 (Z.leb_le _ _)), (proj2 (Z.ltb_lt _ _)) by lia |].
  destruct (Z.eqb_spec j (4 * i + 3)) as [-> |]; [rewrite (at_index_zip op d e _ x3 y3) by done; by rewrite (proj2 (Z.leb_le _ _)), (proj2 (Z.ltb_lt _ _)) by lia |].
  destruct (Z.leb_spec (4 * i) j), (Z.ltb_spec j (4 * i + 4)); (done || lia).
Qed.

Lemma combine_spec op `{!Bitwise op} size d e : length e = length d -> 0 <= size -> 4 * (size / 56) <= Z.of_nat (length d) -> Forall (in_u 16) d -> Forall (in_u 16) e ->
  combine size op op d e = Some (zip_with op d e).
Proof.
  intros Hl Hs H4 Hd He. unfold combine, U64_VALUE_SIZE, U64_DIV_BASE. assert (0 <= size / 56) as Hm by (apply Z.div_pos; lia).
  assert (length (zip_with op d e) = length d) as Hz by (rewrite length_zip_with; lia).
  destruct (for_range_inv (fun i d' => mixed (zip_with op d e) d (4 * i) d') 0 (size / 56)
    (fun i d => x ← at_index64 d i; y ← at_index64 e i; store64 i (op x y) d) d Hm (mixed_start _ _)) as (d1 & -> & H1).
  { intros i d' Hi Hd'. apply combine_block; (done || lia). }
  cbn [mbind option_bind]. rewrite (Z.mul_comm 4 (size / 56)) in H1. rewrite (proj1 H1).
  destruct (for_range_inv (fun i d' => mixed (zip_with op d e) d i d') (size / 56 * 4) (Z.of_nat (length d))
    (fun i d => x ← at_index d i; y ← at_index e i; store i (op x y) d) d1 ltac:(lia) H1) as (d2 & -> & H2); [| f_equal; by apply (mixed_end _ d)].
  intros i d' Hi Hd'. pose proof (proj1 Hd') as Hl'. destruct (at_index_Some d' i) as [x X]; [lia |]. destruct (at_index_Some e i) as [y Y]; [lia |]. rewrite X, Y. cbn [mbind option_bind]. rewrite store_spec by lia.
  rewrite (mixed_rest _ _ _ _ _ Hd') in X by lia. eexists. split; [done |]. apply (mixed_step _ _ _ _ d'); [done | lia | by rewrite length_insert |]. intros j. rewrite at_index_insert by lia.
  destruct (Z.eqb_spec j i) as [-> |]; [rewrite (at_index_zip op d e _ x y) by done; by rewrite (proj2 (Z.leb_le _ _)), (proj2 (Z.ltb_lt _ _)) by lia |].
  destruct (Z.leb_spec i j), (Z.ltb_spec j (i + 1)); (done || lia).
Qed.

(** ** Positions *)

Definition bits (d : list Z) (p : Z) : bool := match at_index d (p / VALUE_SIZE) with Some w => Z.testbit w (p mod VALUE_SIZE) | None => false end.

(** The size fits the [int32_t] of the iterators. *)
Record clean (b : Bitmap) : Prop := {
  cl_plain : bm_compress b = false;
  cl_size : 0 <= bm_size b < 2 ^ 31;
  cl_len : dataSize b = words_for (bm_size b);
  cl_words : Forall (in_u 14) (bm_data b);
  cl_tail : forall p, bm_size b <= p -> bits (bm_data b) p = false;
}.

Definition member (b : Bitmap) (p : Z) : bool := bits (bm_data b) p.
Definition elements (b : Bitmap) : list Z := filter (fun p => member b p = true) (seqZ 0 (bm_size b)).

Lemma in_u_14_16 d : Forall (in_u 14) d -> Forall (in_u 16) d.
Proof. intros H. eapply Forall_impl; [exact H |]. intros w [? ?]. unfold in_u. lia. Qed.

Lemma words_for_spec size : 0 <= size -> size <= 14 * words_for size < size + 14.
Proof. intros H. unfold words_for, VALUE_SIZE. Z.to_euclidean_division_equations. lia. Qed.

Lemma size_words b : clean b -> bm_size b <= 14 * dataSize b < bm_size b + 14.
Proof. intros H. rewrite (cl_len _ H). apply words_for_spec, H. Qed.

Lemma blocks_fit b : clean b -> 4 * (bm_size b / 56) <= dataSize b.
Proof. intros H. pose proof (size_words b H). pose proof (cl_size _ H). Z.to_euclidean_division_equations. lia. Qed.

Lemma word_split p : 0 <= p -> p = 14 * (p / 14) + p mod 14 /\ 0 <= p mod 14 < 14 /\ 0 <= p / 14.
Proof. intros H. Z.to_euclidean_division_equations. lia. Qed.

Lemma bits_at d i k w : at_index d i = Some w -> 0 <= k < 14 -> bits d (14 * i + k) = Z.testbit w k.
Proof.
  intros E Hk. pose proof (at_index_range _ _ _ E). unfold bits, VALUE_SIZE. replace ((14 * i + k) / 14) with i by (Z.to_euclidean_division_equations; lia).
  replace ((14 * i + k) mod 14) with k by (Z.to_euclidean_division_equations; lia). by rewrite E.
Qed.

Lemma word_of b p : clean b -> 0 <= p < bm_size b -> exists w, at_index (bm_data b) (p / 14) = Some w /\ in_u 14 w /\ member b p = Z.testbit w (p mod 14).
Proof.
  intros H Hp. destruct (at_index_Some (bm_data b) (p / 14)) as [w E].
  { pose proof (size_words b H). unfold dataSize in *. Z.to_euclidean_division_equations. lia. }
  exists w. split; [done |]. split; [eapply (at_index_Forall _ _ _ _ (cl_words _ H)); exact E |]. unfold member, bits, VALUE_SIZE. by rewrite E.
Qed.

Lemma POS_eq k : 0 <= k < 16 -> POS k = 2 ^ k.
Proof. intros H. unfold POS, u16. rewrite Z.shiftl_1_l. apply uwrap_id. split; [lia |]. apply Z.pow_lt_mono_r; lia. Qed.

Lemma test_POS w k : 0 <= k < 14 -> negb (Z.land w (POS k) =? 0) = Z.testbit w k.
Proof.
  intros H. rewrite POS_eq by lia. destruct (Z.testbit w k) eqn:E; [apply negb_true_iff, Z.eqb_neq | apply negb_false_iff, Z.eqb_eq].
  - intros E0. apply (f_equal (fun x => Z.testbit x k)) in E0. rewrite Z.land_spec, E, Z.pow2_bits_true, Z.testbit_0_l in E0 by lia. done.
  - apply Z.bits_inj'. intros i Hi. rewrite Z.land_spec, Z.pow2_bits_eqb, Z.testbit_0_l by lia. destruct (Z.eqb_spec k i) as [<- |]; [by rewrite E | apply andb_false_r].
Qed.

(** ** Single positions *)

Lemma Bitmap_get_spec b p : clean b -> 0 <= p < bm_size b -> Bitmap_get p b = Some (member b p).
Proof.
  intros H Hp. destruct (word_of b p H Hp) as (w & E & _ & Em). destruct (word_split p) as (_ & Hk & _); [lia |]. unfold Bitmap_get, VALUE_SIZE in *. rewrite E. cbn [mbind option_bind].
  by rewrite test_POS, Em.
Qed.

Lemma set_bit_testbit w k v i : in_u 14 w -> 0 <= k < 14 -> 0 <= i < 14 ->
  Z.testbit (if v : bool then Z.lor w (POS k) else Z.land w (NPOS k)) i = if i =? k then v else Z.testbit w i.
Proof.
  intros Hw Hk Hi. destruct v.
  - rewrite POS_eq, Z.lor_spec, Z.pow2_bits_eqb by lia. rewrite (Z.eqb_sym k i). destruct (i =? k); [apply orb_true_r | apply orb_false_r].
  - unfold NPOS, u16, uwrap. rewrite POS_eq, Z.land_spec, Z.mod_pow2_bits_low, Z.lnot_spec, Z.pow2_bits_eqb by lia. rewrite (Z.eqb_sym k i). destruct (i =? k); [apply andb_false_r | apply andb_true_r].
Qed.

Lemma set_bit_in_u w k (v : bool) : in_u 14 w -> 0 <= k < 14 -> in_u 14 (if v then Z.lor w (POS k) else Z.land w (NPOS k)).
Proof.
  intros Hw Hk. destruct v; [apply in_u_lor; [lia | done |]; rewrite POS_eq by lia; split; [lia | apply Z.pow_lt_mono_r; lia] | apply in_u_land; [lia | done |]].
  unfold NPOS, u16. apply uwrap_range. lia.
Qed.

Lemma bits_insert d i w p : 0 <= i < Z.of_nat (length d) -> 0 <= p -> bits (<[Z.to_nat i := w]> d) p = if p / 14 =? i then Z.testbit w (p mod 14) else bits d p.
Proof. intros Hi Hp. unfold bits, VALUE_SIZE. rewrite at_index_insert by done. by destruct (p / 14 =? i). Qed.

Lemma Bitmap_set_spec b p v : clean b -> 0 <= p < bm_size b ->
  exists b', Bitmap_set p v b = Some b' /\ clean b' /\ bm_size b' = bm_size b /\ forall q, 0 <= q -> member b' q = if q =? p then v else member b q.
Proof.
  intros H Hp. destruct (word_of b p H Hp) as (w & E & Hw & Em). destruct (word_split p) as (Ep & Hk & Hq); [lia |]. pose proof (at_index_range _ _ _ E) as Hr. unfold Bitmap_set, VALUE_SIZE. rewrite E. cbn [mbind option_bind].
  rewrite store_spec by lia. cbn [mbind option_bind]. eexists. split; [done |].
  assert (forall q, 0 <= q -> bits (<[Z.to_nat (p / 14) := if v then Z.lor w (POS (p mod 14)) else Z.land w (NPOS (p mod 14))]> (bm_data b)) q = if q =? p then v else bits (bm_data b) q) as Hb.
  { intros q Hq'. destruct (word_split q) as (Eq & Hk' & _); [lia |]. rewrite bits_insert by lia. destruct (Z.eqb_spec (q / 14) (p / 14)) as [Ed | Ed].
    - rewrite set_bit_testbit by lia || done. replace (bits (bm_data b) q) with (Z.testbit w (q mod 14)) by (unfold bits, VALUE_SIZE; by rewrite Ed, E).
      destruct (Z.eqb_spec (q mod 14) (p mod 14)), (Z.eqb_spec q p); (done || lia || congruence).
    - destruct (Z.eqb_spec q p) as [-> |]; [lia | done]. }
  split; [| split; [done |]; intros q Hq'; apply Hb; lia]. destruct H as [H1 H2 H3 H4 H5]. constructor; cbn; try done.
  - unfold dataSize in *. cbn. by rewrite length_insert.
  - apply Forall_insert; [done |]. by apply set_bit_in_u.
  - intros q Hq'. rewrite Hb by lia. destruct (Z.eqb_spec q p); [lia |]. by apply H5.
Qed.

(** ** Union and intersection *)

Lemma same_length b c : clean b -> clean c -> bm_size c = bm_size b -> length (bm_data c) = length (bm_data b).
Proof. intros Hb Hc Es. pose proof (cl_len _ Hb) as Lb. pose proof (cl_len _ Hc) as Lc. rewrite Es, <- Lb in Lc. unfold dataSize in Lc. lia. Qed.

Lemma bits_zip op `{!Bitwise op} d e p : length e = length d -> bits (zip_with op d e) p = on_bit (bits d p) (bits e p).
Proof.
  intros Hl. unfold bits, VALUE_SIZE, at_index. destruct (Z.ltb_spec (p / 14) 0); [by rewrite bitwise_ff |]. assert (0 <= p mod 14) by (apply Z.mod_pos_bound; lia).
  destruct (d !! Z.to_nat (p / 14)) as [x |] eqn:Ex.
  - destruct (e !! Z.to_nat (p / 14)) as [y |] eqn:Ey; [| apply lookup_ge_None_1 in Ey; apply lookup_lt_Some in Ex; lia]. rewrite lookup_zip_with, Ex. cbn. rewrite Ey. cbn. by apply bitwise_testbit.
  - rewrite lookup_zip_with, Ex. cbn. assert (e !! Z.to_nat (p / 14) = None) as -> by (apply lookup_ge_None_2; apply lookup_ge_None_1 in Ex; lia). by rewrite bitwise_ff.
Qed.

Lemma zip_clean op `{!Bitwise op} b c : clean b -> clean c -> bm_size c = bm_size b ->
  clean (put_data (zip_with op (bm_data b) (bm_data c)) b) /\
  forall p, member (put_data (zip_with op (bm_data b) (bm_data c)) b) p = on_bit (member b p) (member c p).
Proof.
  intros Hb Hc Es. assert (length (bm_data c) = length (bm_data b)) as Hl by (by apply same_length).
  split; [| intros p; by apply bits_zip]. destruct Hb as [B1 B2 B3 B4 B5]. constructor; cbn; try done.
  - unfold dataSize in *. cbn. rewrite length_zip_with. lia.
  - apply Forall_forall. intros w Hw. apply list_elem_of_lookup in Hw as [i Hi]. apply lookup_zip_with_Some in Hi as (x & y & -> & Hx & Hy). apply (bitwise_in_u op); [lia | |].
    + by eapply Forall_lookup_1 in B4.
    + pose proof (cl_words _ Hc) as C4. by eapply Forall_lookup_1 in C4.
  - intros p Hp. rewrite (bits_zip op) by done. rewrite B5 by done. rewrite (cl_tail _ Hc) by lia. apply bitwise_ff.
Qed.

Lemma combine_clean op `{!Bitwise op} b c : clean b -> clean c -> bm_size c = bm_size b ->
  combine (bm_size b) op op (bm_data b) (bm_data c) = Some (zip_with op (bm_data b) (bm_data c)).
Proof.
  intros Hb Hc Es. assert (length (bm_data c) = length (bm_data b)) as Hl by (by apply same_length).
  apply (combine_spec op); [done | apply Hb | by apply blocks_fit | apply in_u_14_16, Hb | apply in_u_14_16, Hc].
Qed.

Lemma and_assign_spec b c : clean b -> clean c -> bm_size c = bm_size b ->
  Bitmap_and_assign c b = Ret tt (put_data (zip_with Z.land (bm_data b) (bm_data c)) b).
Proof.
  intros Hb Hc Es. unfold Bitmap_and_assign. rewrite Es, Z.eqb_refl, (cl_plain _ Hb), (cl_plain _ Hc). cbn [negb andb]. by rewrite (combine_clean Z.land).
Qed.

Lemma or_assign_spec b c : clean b -> clean c -> bm_size c = bm_size b ->
  Bitmap_or_assign c b = Ret tt (put_data (zip_with Z.lor (bm_data b) (bm_data c)) b).
Proof.
  intros Hb Hc Es. unfold Bitmap_or_assign. rewrite Es, Z.eqb_refl, (cl_plain _ Hb), (cl_plain _ Hc). cbn [negb andb]. by rewrite (combine_clean Z.lor).
Qed.

(** ** [cross] *)

Definition meets (d e : list Z) (from to : Z) : Prop := exists j x y, from <= j < to /\ at_index d j = Some x /\ at_index e j = Some y /\ Z.land x y <> 0.

Lemma cross_loop_spec n i d e : 0 <= i -> i + Z.of_nat n <= Z.of_nat (length d) -> length e = length d ->
  exists r, cross_loop n i d e = Some r /\ (r = true <-> meets d e i (i + Z.of_nat n)).
Proof.
  intros Hi. revert i Hi. induction n as [|n IH]; intros i Hi Hn Hl; cbn [cross_loop].
  - exists false. split; [done |]. split; [done |]. intros (j & _ & _ & Hj & _). lia.
  - destruct (at_index_Some d i) as [x X]; [lia |]. destruct (at_index_Some e i) as [y Y]; [lia |]. rewrite X, Y. cbn [mbind option_bind]. destruct (Z.eqb_spec (Z.land x y) 0) as [E0 | E0]; cbn [negb].
    + destruct (IH (i + 1)) as (r & -> & Hr); [lia | lia | done |]. exists r. split; [done |]. rewrite Hr. split; intros (j & x' & y' & Hj & X' & Y' & Hne).
      * exists j, x', y'. split; [lia | done].
      * exists j, x', y'. split; [| done]. destruct (decide (j = i)) as [-> |]; [congruence | lia].
    + exists true. split; [done |]. split; [| done]. intros _. exists i, x, y. split; [lia | done].
Qed.

Lemma cross_loop64_spec n i d e : 0 <= i -> 4 * (i + Z.of_nat n) <= Z.of_nat (length d) -> length e = length d -> Forall (in_u 16) d -> Forall (in_u 16) e ->
  exists r, cross_loop64 n i d e = Some r /\ (r = true <-> meets d e (4 * i) (4 * (i + Z.of_nat n))).
Proof.
  intros Hi Hn Hl Hd He. revert i Hi Hn. induction n as [|n IH]; intros i Hi Hn; cbn [cross_loop64].
  - exists false. split; [done |]. split; [done |]. intros (j & _ & _ & Hj & _). lia.
  - destruct (at_index64_spec d i) as (x0 & x1 & x2 & x3 & X0 & X1 & X2 & X3 & ->); [lia | lia |]. destruct (at_index64_spec e i) as (y0 & y1 & y2 & y3 & Y0 & Y1 & Y2 & Y3 & ->); [lia | lia |].
    pose proof (fun j w => at_index_Forall d j w _ Hd) as Fd. pose proof (fun j w => at_index_Forall e j w _ He) as Fe.
    destruct (IH (i + 1)) as (r & Er & Hr); [lia | lia |]. cbn [mbind option_bind]. rewrite (bitwise_join4 Z.land) by eauto.
    assert (forall j x y, 4 * i <= j < 4 * i + 4 -> at_index d j = Some x -> at_index e j = Some y ->
      (j = 4 * i /\ x = x0 /\ y = y0) \/ (j = 4 * i + 1 /\ x = x1 /\ y = y1) \/ (j = 4 * i + 2 /\ x = x2 /\ y = y2) \/ (j = 4 * i + 3 /\ x = x3 /\ y = y3)) as Hcase.
    { intros j x y Hj Ex Ey. destruct (decide (j = 4 * i)) as [-> |]; [left; split; [done |]; split; congruence |]. right. destruct (decide (j = 4 * i + 1)) as [-> |]; [left; split; [done |]; split; congruence |]. right.
      destruct (decide (j = 4 * i + 2)) as [-> |]; [left; split; [done |]; split; congruence |]. right. assert (j = 4 * i + 3) as -> by lia. split; [done |]; split; congruence. }
    assert (forall x y j, 0 <= Z.land x y -> at_index d j = Some x -> at_index e j = Some y -> 4 * i <= j < 4 * i + 4 -> Z.land x y <> 0 -> meets d e (4 * i) (4 * (i + Z.of_nat (S n)))) as Hin.
    { intros x y j _ Ex Ey Hj Hne. exists j, x, y. split; [lia | done]. }
    pose proof (proj1 (Fd _ _ X0)). pose proof (proj1 (Fd _ _ X1)). pose proof (proj1 (Fd _ _ X2)). pose proof (proj1 (Fd _ _ X3)).
    assert (0 <= Z.land x0 y0 /\ 0 <= Z.land x1 y1 /\ 0 <= Z.land x2 y2 /\ 0 <= Z.land x3 y3) as (N0 & N1 & N2 & N3) by (split_and!; apply Z.land_nonneg; auto).
    assert (join4 (Z.land x0 y0) (Z.land x1 y1) (Z.land x2 y2) (Z.land x3 y3) = 0 -> meets d e (4 * i) (4 * (i + Z.of_nat (S n))) -> meets d e (4 * (i + 1)) (4 * (i + 1 + Z.of_nat n))) as Hskip.
    { intros (Z0 & Z1 & Z2 & Z3)%join4_zero (j & x & y & Hj & Ex & Ey & Hne); try done. exists j, x, y. split; [| done]. destruct (decide (j < 4 * i + 4)); [| lia].
      exfalso. destruct (Hcase j x y) as [(-> & -> & ->) | [(-> & -> & ->) | [(-> & -> & ->) | (-> & -> & ->)]]]; try done; lia. }
    assert (meets d e (4 * (i + 1)) (4 * (i + 1 + Z.of_nat n)) -> meets d e (4 * i) (4 * (i + Z.of_nat (S n)))) as Hlater by (intros (j & x & y & Hj & Hrest); exists j, x, y; split; [lia | done]).
    destruct (Z.eqb_spec (join4 x0 x1 x2 x3) 0) as [E0 | E0]; [| destruct (Z.eqb_spec (join4 (Z.land x0 y0) (Z.land x1 y1) (Z.land x2 y2) (Z.land x3 y3)) 0) as [E1 | E1]; cbn [negb]].
    + apply join4_zero in E0 as (-> & -> & -> & ->); [| done..]. rewrite Er. exists r. split; [done |]. rewrite Hr. split; [done |]. by apply Hskip.
    + rewrite Er. exists r. split; [done |]. rewrite Hr. split; [done | by apply Hskip].
    + exists true. split; [done |]. split; [| done]. intros _.
      destruct (decide (Z.land x0 y0 = 0)) as [Z0 | Z0]; [| by apply (Hin x0 y0 (4 * i)); try done; lia]. destruct (decide (Z.land x1 y1 = 0)) as [Z1 | Z1]; [| by apply (Hin x1 y1 (4 * i + 1)); try done; lia].
      destruct (decide (Z.land x2 y2 = 0)) as [Z2 | Z2]; [| by apply (Hin x2 y2 (4 * i + 2)); try done; lia]. destruct (decide (Z.land x3 y3 = 0)) as [Z3 | Z3]; [| by apply (Hin x3 y3 (4 * i + 3)); try done; lia].
      exfalso. apply E1. rewrite Z0, Z1, Z2, Z3. done.
Qed.

Lemma land_meets x y : in_u 14 x -> 0 <= y -> Z.land x y <> 0 <-> exists k, 0 <= k < 14 /\ Z.testbit x k = true /\ Z.testbit y k = true.
Proof.
  intros Hx Hy. split.
  - intros Hne. destruct (decide (Exists (fun k => Z.testbit x k && Z.testbit y k = true) (seqZ 0 14))) as [(k & Hk%elem_of_seqZ & E)%Exists_exists | Hno].
    + apply andb_true_iff in E as [? ?]. exists k. split; [lia | done].
    + exfalso. apply Hne. apply Z.bits_inj'. intros k Hk. rewrite Z.land_spec, Z.testbit_0_l. destruct (decide (k < 14)) as [Hlt |]; [| by rewrite (in_u_testbit 14 x) by (done || lia)].
      destruct (Z.testbit x k && Z.testbit y k) eqn:E; [| done]. exfalso. apply Hno, Exists_exists. exists k. split; [apply elem_of_seqZ; lia | done].
  - intros (k & Hk & H1 & H2) E0. apply (f_equal (fun z => Z.testbit z k)) in E0. rewrite Z.land_spec, H1, H2, Z.testbit_0_l in E0. done.
Qed.

Lemma meets_members b c : clean b -> clean c -> bm_size c = bm_size b ->
  meets (bm_data b) (bm_data c) 0 (dataSize b) <-> exists p, 0 <= p < bm_size b /\ member b p = true /\ member c p = true.
Proof.
  intros Hb Hc Es. pose proof (same_length b c Hb Hc Es) as Hl. split.
  - intros (j & x & y & Hj & Ex & Ey & Hne). pose proof (at_index_Forall _ _ _ _ (cl_words _ Hb) Ex) as Hx. pose proof (at_index_Forall _ _ _ _ (cl_words _ Hc) Ey) as [Hy _].
    apply land_meets in Hne as (k & Hk & H1 & H2); [| done | done]. rewrite <- (bits_at _ _ _ _ Ex) in H1 by done. rewrite <- (bits_at _ _ _ _ Ey) in H2 by done.
    exists (14 * j + k). split; [| done]. split; [lia |]. destruct (decide (bm_size b <= 14 * j + k)); [| lia]. by rewrite (cl_tail _ Hb) in H1 by done.
  - intros (p & Hp & H1 & H2). destruct (word_of b p Hb Hp) as (x & Ex & Hx & E1). destruct (word_of c p Hc) as (y & Ey & [Hy _] & E2); [lia |].
    exists (p / 14), x, y. pose proof (at_index_range _ _ _ Ex). unfold dataSize. split; [lia |]. split; [done |]. split; [done |]. apply land_meets; [done | done |]. exists (p mod 14).
    split; [apply Z.mod_pos_bound; lia |]. by rewrite <- E1, <- E2.
Qed.

Lemma meets_split d e a b c : a <= b <= c -> meets d e a c <-> meets d e a b \/ meets d e b c.
Proof.
  intros H. unfold meets. split.
  - intros (j & x & y & Hj & Hr). destruct (decide (j < b)); [left | right]; exists j, x, y; (split; [lia | done]).
  - intros [(j & x & y & Hj & Hr) | (j & x & y & Hj & Hr)]; exists j, x, y; (split; [lia | done]).
Qed.

Lemma normalCross_spec b c : clean b -> clean c -> bm_size c = bm_size b ->
  exists r, normalCross b c = Some r /\ (r = true <-> exists p, 0 <= p < bm_size b /\ member b p = true /\ member c p = true).
Proof.
  intros Hb Hc Es. pose proof (same_length b c Hb Hc Es) as Hl. pose proof (blocks_fit b Hb) as H4. pose proof (cl_size _ Hb) as Hs. assert (0 <= bm_size b / 56) as Hm by (apply Z.div_pos; lia).
  unfold normalCross, U64_VALUE_SIZE, U64_DIV_BASE. unfold dataSize in *.
  destruct (cross_loop64_spec (Z.to_nat (bm_size b / 56)) 0 (bm_data b) (bm_data c)) as (r & -> & Hr); [lia | lia | done | apply in_u_14_16, Hb | apply in_u_14_16, Hc |].
  replace (4 * (0 + Z.of_nat (Z.to_nat (bm_size b / 56)))) with (bm_size b / 56 * 4) in Hr by lia. rewrite Z.mul_0_r in Hr. cbn [mbind option_bind].
  pose proof (meets_members b c Hb Hc Es) as Hmm. unfold dataSize in Hmm. rewrite (meets_split _ _ 0 (bm_size b / 56 * 4)) in Hmm by lia. destruct r.
  - exists true. split; [done |]. split; [| done]. intros _. apply Hmm. left. by apply Hr.
  - destruct (cross_loop_spec (Z.to_nat (Z.of_nat (length (bm_data b)) - bm_size b / 56 * 4)) (bm_size b / 56 * 4) (bm_data b) (bm_data c)) as (r2 & -> & Hr2); [lia | lia | done |].
    exists r2. split; [done |]. rewrite Hr2. rewrite <- Hmm. replace (bm_size b / 56 * 4 + Z.of_nat (Z.to_nat (Z.of_nat (length (bm_data b)) - bm_size b / 56 * 4))) with (Z.of_nat (length (bm_data b))) by lia.
    split; [by right |]. intros [? | ?]; [| done]. by assert (false = true) by (by apply Hr).
Qed.

(** ** Enumeration *)

Lemma filter_agree {A} (P1 P2 : A -> Prop) `{!forall x, Decision (P1 x), !forall x, Decision (P2 x)} (l : list A) :
  (forall x, x ∈ l -> P1 x <-> P2 x) -> filter P1 l = filter P2 l.
Proof.
  induction l as [|x l IH]; intros Hag; [done |]. rewrite !filter_cons, IH by (intros y Hy; apply Hag; by constructor). specialize (Hag x (list_elem_of_here x l)).
  destruct (decide (P1 x)), (decide (P2 x)); (done || tauto).
Qed.

Definition upto (b : Bitmap) (m : Z) : list Z := filter (fun p => member b p = true) (seqZ 0 (Z.min m (bm_size b))).

Lemma upto_0 b m : m <= 0 -> upto b m = [].
Proof. intros H. unfold upto. rewrite seqZ_nil by lia. done. Qed.

Lemma upto_all b m : bm_size b <= m -> upto b m = elements b.
Proof. intros H. unfold upto, elements. by rewrite Z.min_r. Qed.

Lemma upto_app b m n : 0 <= m <= bm_size b -> 0 <= n -> upto b m ++ filter (fun p => member b p = true) (seqZ m (Z.min n (bm_size b - m))) = upto b (m + n).
Proof.
  intros Hm Hn. unfold upto. rewrite <- filter_app. f_equal. rewrite Z.min_l by lia. replace (Z.min (m + n) (bm_size b)) with (m + Z.min n (bm_size b - m)) by lia.
  by rewrite seqZ_app by lia.
Qed.

Lemma scan_up_spec n x w size pos : pos <= size -> 0 <= x -> x + Z.of_nat n <= 14 ->
  scan_up n x w size pos = (filter (fun p => Z.testbit w (x + (p - pos)) = true) (seqZ pos (Z.min (Z.of_nat n) (size - pos))), pos + Z.min (Z.of_nat n) (size - pos)).
Proof.
  revert x pos. induction n as [|n IH]; intros x pos Hp Hx Hn; cbn [scan_up].
  - rewrite seqZ_nil by lia. f_equal. lia.
  - destruct (Z.ltb_spec pos size) as [Hlt |]; [| rewrite seqZ_nil by lia; f_equal; lia]. rewrite IH by lia. rewrite (seqZ_cons pos) by lia. rewrite filter_cons.
    assert (filter (fun p => Z.testbit w (x + 1 + (p - (pos + 1))) = true) (seqZ (pos + 1) (Z.min (Z.of_nat n) (size - (pos + 1)))) =
            filter (fun p => Z.testbit w (x + (p - pos)) = true) (seqZ (Z.succ pos) (Z.pred (Z.min (Z.of_nat (S n)) (size - pos))))) as Ef.
    { replace (Z.pred (Z.min (Z.of_nat (S n)) (size - pos))) with (Z.min (Z.of_nat n) (size - (pos + 1))) by lia. change (Z.succ pos) with (pos + 1). apply list_filter_iff. intros p. replace (x + 1 + (p - (pos + 1))) with (x + (p - pos)) by lia. done. }
    rewrite test_POS by lia. rewrite Z.sub_diag, Z.add_0_r. rewrite Ef. f_equal; [| lia]. destruct (Z.testbit w x); [by rewrite decide_True | by rewrite decide_False].
Qed.

(** The word at index [j]. *)
Lemma scan_word_spec b j w : clean b -> at_index (bm_data b) j = Some w -> 14 * j <= bm_size b ->
  scan_word w (bm_size b) (upto b (14 * j), 14 * j) = (upto b (14 * (j + 1)), 14 * j + Z.min 14 (bm_size b - 14 * j)).
Proof.
  intros H E Hj. pose proof (at_index_range _ _ _ E). unfold scan_word. rewrite scan_up_spec by lia. change (Z.of_nat 14) with 14. f_equal. replace (14 * (j + 1)) with (14 * j + 14) by lia. rewrite <- upto_app by lia. f_equal.
  apply filter_agree. intros p Hp%elem_of_seqZ. unfold member. replace p with (14 * j + (0 + (p - 14 * j))) at 2 by lia. by rewrite (bits_at _ j _ w) by (done || lia).
Qed.

Lemma zero_word b j : clean b -> at_index (bm_data b) j = Some 0 -> 14 * j <= bm_size b -> upto b (14 * (j + 1)) = upto b (14 * j).
Proof.
  intros H E Hj. pose proof (at_index_range _ _ _ E). replace (14 * (j + 1)) with (14 * j + 14) by lia. rewrite <- upto_app by lia. rewrite <- (app_nil_r (upto b (14 * j))) at 2. f_equal.
  rewrite (filter_agree _ (fun _ => False)); [by induction (seqZ _ _) |]. intros p Hp%elem_of_seqZ. split; [| done]. unfold member. replace p with (14 * j + (p - 14 * j)) by lia.
  rewrite (bits_at _ j _ 0) by (done || lia). by rewrite Z.testbit_0_l.
Qed.

(** The state of the enumeration after [j] words. *)
Definition listed (b : Bitmap) (j : Z) (acc : list Z * Z) : Prop := fst acc = upto b (14 * j) /\ (14 * j <= bm_size b -> snd acc = 14 * j).

Lemma listed_scan b j w acc : clean b -> at_index (bm_data b) j = Some w -> listed b j acc -> listed b (j + 1) (scan_word w (bm_size b) acc).
Proof.
  intros H E [H1 H2]. destruct acc as [ps cur]. cbn [fst snd] in *. pose proof (at_index_range _ _ _ E) as Hr. pose proof (size_words b H) as Hs. unfold dataSize in Hs.
  assert (14 * j <= bm_size b) as Hj by lia. rewrite H1, (H2 Hj), scan_word_spec by done. split; [done |]. cbn. lia.
Qed.

Lemma listed_zero b j ps cur : clean b -> at_index (bm_data b) j = Some 0 -> listed b j (ps, cur) -> listed b (j + 1) (ps, u32 (cur + VALUE_SIZE)).
Proof.
  intros H E [H1 H2]. cbn [fst snd] in *. pose proof (at_index_range _ _ _ E) as Hr. pose proof (size_words b H) as Hs. pose proof (cl_size _ H). unfold dataSize in Hs.
  assert (14 * j <= bm_size b) as Hj by lia. split; cbn [fst snd]; [by rewrite zero_word |]. intros Hj'. rewrite (H2 Hj). unfold u32, VALUE_SIZE. rewrite uwrap_id; [lia |]. unfold in_u. lia.
Qed.

Lemma listPosAsc_spec b : clean b -> listPosAsc b = Some (elements b).
Proof.
  intros H. pose proof (blocks_fit b H) as H4. pose proof (cl_size _ H) as Hs. assert (0 <= bm_size b / 56) as Hm by (apply Z.div_pos; lia).
  unfold listPosAsc, U64_VALUE_SIZE, U64_DIV_BASE. unfold dataSize in *.
  edestruct (for_range_inv (fun i acc => listed b (4 * i) acc) 0 (bm_size b / 56)) as (acc & -> & Hacc); [done | | |].
  - split; [by rewrite upto_0 | done].
  - intros i [ps cur] Hi Hl. destruct (at_index64_spec (bm_data b) i) as (w0 & w1 & w2 & w3 & W0 & W1 & W2 & W3 & ->); [lia | lia |]. cbn [mbind option_bind].
    pose proof (fun j w => at_index_Forall _ j w _ (cl_words _ H)) as Fd. destruct (Z.eqb_spec (join4 w0 w1 w2 w3) 0) as [E0 | E0].
    + apply join4_zero in E0 as (-> & -> & -> & ->); [| by eapply Fd..]. eexists. split; [done |]. assert (14 * (4 * i) + 56 <= bm_size b) as Hin by (Z.to_euclidean_division_equations; lia). destruct Hl as [L1 L2]. cbn [fst snd] in *.
      split; cbn [fst snd].
      * replace (4 * (i + 1)) with (4 * i + 3 + 1) by lia. rewrite zero_word by (done || lia). replace (4 * i + 3) with (4 * i + 2 + 1) by lia. rewrite zero_word by (done || lia).
        replace (4 * i + 2) with (4 * i + 1 + 1) by lia. rewrite zero_word by (done || lia). by rewrite zero_word by (done || lia).
      * intros _. rewrite L2 by lia. unfold u32. rewrite uwrap_id; [lia |]. unfold in_u. lia.
    + edestruct (for_range_inv (fun n acc => listed b (4 * i + n) acc) 0 4) as (acc & -> & Hacc); [lia | by rewrite Z.add_0_r | | exists acc; split; [done |]; by replace (4 * (i + 1)) with (4 * i + 4) by lia].
      intros n acc Hn Hl'. rewrite (Z.mul_comm i 4). destruct (at_index_Some (bm_data b) (4 * i + n)) as [w W]; [lia |]. rewrite W. cbn [mbind option_bind]. eexists. split; [done |]. rewrite Z.add_assoc. by apply listed_scan.
  - cbn [mbind option_bind]. rewrite (Z.mul_comm 4) in Hacc. edestruct (for_range_inv (fun i acc => listed b i acc) (bm_size b / 56 * 4) (Z.of_nat (length (bm_data b)))) as (acc2 & -> & [Hacc2 _]); [lia | exact Hacc | |].
    + intros i [ps cur] Hi Hl. destruct (at_index_Some (bm_data b) i) as [w W]; [lia |]. rewrite W. cbn [mbind option_bind]. destruct (Z.eqb_spec w 0) as [-> |]; (eexists; split; [done |]); [by apply listed_zero | by apply listed_scan].
    + cbn [mbind option_bind]. rewrite Hacc2. f_equal. apply upto_all. pose proof (size_words b H). unfold dataSize in *. lia.
Qed.

(** ** Enumeration from the end *)

Definition downto (b : Bitmap) (m : Z) : list Z := reverse (filter (fun p => member b p = true) (seqZ m (bm_size b - m))).

Lemma downto_all b : downto b 0 = reverse (elements b).
Proof. unfold downto, elements. by rewrite Z.sub_0_r. Qed.

Lemma downto_app b m n : 0 <= n -> m + n <= bm_size b -> downto b (m + n) ++ reverse (filter (fun p => member b p = true) (seqZ m n)) = downto b m.
Proof.
  intros Hn Hm. unfold downto. rewrite <- reverse_app, <- filter_app. do 2 f_equal. replace (bm_size b - m) with (n + (bm_size b - (m + n))) by lia. by rewrite seqZ_app by lia.
Qed.

Lemma scan_down_spec n w pos : Z.of_nat n <= 14 -> Z.of_nat n <= pos + 1 < 2 ^ 32 ->
  scan_down n w pos = (reverse (filter (fun p => Z.testbit w (p - (pos + 1 - Z.of_nat n)) = true) (seqZ (pos + 1 - Z.of_nat n) (Z.of_nat n))), if (n =? 0)%nat then pos else u32 (pos - Z.of_nat n)).
Proof.
  revert pos. induction n as [|n IH]; intros pos Hn Hp; cbn [scan_down]; [done |]. assert (forall q, u32 (u32 (pos - 1) - q) = u32 (pos - 1 - q)) as Hu by (intros q; unfold u32, uwrap; by rewrite Zminus_mod_idemp_l).
  destruct (decide (n = 0%nat)) as [-> | Hn0].
  { cbn [scan_down]. change (Z.of_nat 1) with 1. rewrite Z.add_simpl_r. change (Z.of_nat 0) with 0. rewrite test_POS by lia. rewrite (seqZ_cons pos 1) by lia. rewrite (seqZ_nil (Z.succ pos)) by lia. rewrite filter_cons, Z.sub_diag. cbn [Nat.eqb].
    destruct (Z.testbit w 0); [by rewrite decide_True | by rewrite decide_False]. }
  assert (u32 (pos - 1) = pos - 1) as E1 by (apply uwrap_id; unfold in_u; lia). rewrite E1. rewrite IH by lia. rewrite test_POS by lia. destruct (Nat.eqb_spec n 0); [done |]. cbn [Nat.eqb].
  replace (pos - 1 + 1 - Z.of_nat n) with (pos + 1 - Z.of_nat (S n)) by lia. set (m := pos + 1 - Z.of_nat (S n)).
  f_equal; [| f_equal; lia]. replace (Z.of_nat (S n)) with (Z.of_nat n + 1) by lia. rewrite seqZ_app by lia. rewrite filter_app, reverse_app. replace (m + Z.of_nat n) with pos by lia.
  rewrite (seqZ_cons pos 1), (seqZ_nil (Z.succ pos)) by lia. rewrite filter_cons. replace (pos - m) with (Z.of_nat n) by lia.
  destruct (Z.testbit w (Z.of_nat n)); [by rewrite decide_True | by rewrite decide_False].
Qed.

(** The state after the words from [j] on. *)
Definition listed_down (b : Bitmap) (j : Z) (acc : list Z * Z) : Prop := fst acc = downto b (14 * j) /\ snd acc = u32 (14 * j - 1).

(** Bits [n - 1] to 0 of word [j], where the bits up to [n] are all of the bitmap. *)
Lemma listed_down_scan b j w ps n : clean b -> at_index (bm_data b) j = Some w -> ps = downto b (14 * j + Z.of_nat n) -> (0 < n)%nat -> Z.of_nat n <= 14 -> 14 * j + Z.of_nat n <= bm_size b ->
  listed_down b j (scan_word_down n w (ps, 14 * j + Z.of_nat n - 1)).
Proof.
  intros H E -> Hn Hn' Hs. pose proof (at_index_range _ _ _ E) as Hr. pose proof (cl_size _ H). unfold scan_word_down. rewrite scan_down_spec by lia. destruct (Nat.eqb_spec n 0); [lia |].
  split; cbn [fst snd]; [| f_equal; lia]. rewrite <- (downto_app b (14 * j) (Z.of_nat n)) by lia. do 2 f_equal. replace (14 * j + Z.of_nat n - 1 + 1 - Z.of_nat n) with (14 * j) by lia. apply filter_agree. intros p Hp%elem_of_seqZ.
  unfold member. replace p with (14 * j + (p - 14 * j)) at 2 by lia. by rewrite (bits_at _ j _ w) by (done || lia).
Qed.

Lemma downto_zero b j n : clean b -> at_index (bm_data b) j = Some 0 -> 0 <= n <= 14 -> 14 * j + n <= bm_size b -> downto b (14 * j + n) = downto b (14 * j).
Proof.
  intros H E Hn Hs. rewrite <- (downto_app b (14 * j) n) by lia. rewrite <- (app_nil_r (downto b (14 * j + n))) at 1. f_equal. rewrite (filter_agree _ (fun _ => False)); [by induction (seqZ _ _) |].
  intros p Hp%elem_of_seqZ. split; [| done]. unfold member. replace p with (14 * j + (p - 14 * j)) by lia. rewrite (bits_at _ j _ 0) by (done || lia). by rewrite Z.testbit_0_l.
Qed.

Lemma u32_sub x y : u32 (u32 x - y) = u32 (x - y).
Proof. apply Zminus_mod_idemp_l. Qed.

Lemma u32_small x : 0 <= x < 2 ^ 32 -> u32 x = x.
Proof. apply uwrap_id. Qed.

Lemma listed_down_word b j w acc : clean b -> at_index (bm_data b) j = Some w -> 14 * (j + 1) <= bm_size b -> listed_down b (j + 1) acc ->
  listed_down b j (scan_word_down 14 w acc).
Proof.
  intros H E Hs [H1 H2]. destruct acc as [ps cur]. cbn [fst snd] in *. pose proof (at_index_range _ _ _ E) as Hr. pose proof (cl_size _ H).
  rewrite H2, u32_small by lia. replace (14 * (j + 1) - 1) with (14 * j + Z.of_nat 14 - 1) by lia. apply listed_down_scan; try done; [| lia..]. rewrite H1. f_equal. lia.
Qed.

Lemma listed_down_zero b j ps cur : clean b -> at_index (bm_data b) j = Some 0 -> 14 * (j + 1) <= bm_size b -> listed_down b (j + 1) (ps, cur) ->
  listed_down b j (ps, u32 (cur - VALUE_SIZE)).
Proof.
  intros H E Hs [H1 H2]. cbn [fst snd] in *. pose proof (at_index_range _ _ _ E) as Hr. pose proof (cl_size _ H). split; cbn [fst snd].
  - rewrite H1. replace (14 * (j + 1)) with (14 * j + 14) by lia. by apply downto_zero; [| | lia | lia].
  - rewrite H2. unfold VALUE_SIZE. rewrite (u32_small (14 * (j + 1) - 1)) by lia. f_equal. lia.
Qed.

(** The last word, with the bits the size leaves. *)
Lemma last_word b w : clean b -> 0 < bm_size b -> at_index (bm_data b) (dataSize b - 1) = Some w ->
  listed_down b (dataSize b - 1)
    (if w =? 0 then ([], u32 (u32 (bm_size b - 1) - (if negb (bm_size b mod 14 =? 0) then bm_size b mod 14 else VALUE_SIZE)))
     else if negb (bm_size b mod 14 =? 0) then scan_word_down (Z.to_nat (bm_size b mod 14) + 1) w ([], u32 (u32 (bm_size b - 1) + 1))
     else scan_word_down 14 w ([], u32 (bm_size b - 1))).
Proof.
  intros H Hpos E. pose proof (cl_size _ H) as Hs. pose proof (size_words b H) as Hw. rewrite (u32_small (bm_size b - 1)) by lia. set (j := dataSize b - 1) in *. set (rest := bm_size b mod 14).
  assert (bm_size b = 14 * j + (if rest =? 0 then 14 else rest)) as Esz by (unfold rest; destruct (Z.eqb_spec (bm_size b mod 14) 0); Z.to_euclidean_division_equations; lia).
  assert (0 <= rest < 14) as Hrest by (unfold rest; apply Z.mod_pos_bound; lia). assert (downto b (bm_size b) = []) as Enil by (unfold downto; by rewrite Z.sub_diag).
  destruct (Z.eqb_spec w 0) as [-> | Hw0].
  - split; cbn [fst snd]; [| destruct (Z.eqb_spec rest 0); cbn [negb]; unfold VALUE_SIZE; f_equal; lia]. rewrite <- Enil. rewrite Esz at 1. destruct (Z.eqb_spec rest 0); apply downto_zero; (done || lia).
  - destruct (Z.eqb_spec rest 0) as [E0 | E0]; cbn [negb].
    + replace (bm_size b - 1) with (14 * j + Z.of_nat 14 - 1) by lia. apply listed_down_scan; try done; [| lia..]. rewrite <- Enil. f_equal. lia.
    + rewrite u32_small by lia. replace (bm_size b - 1 + 1) with (bm_size b) by lia. unfold scan_word_down. rewrite Nat.add_comm. cbn [Nat.add scan_down]. rewrite Z2Nat.id by lia. rewrite test_POS by lia.
      rewrite <- (bits_at _ j _ w) by (done || lia). replace (14 * j + rest) with (bm_size b) by lia. rewrite (cl_tail _ H) by lia. rewrite u32_small by lia.
      pose proof (listed_down_scan b j w [] (Z.to_nat rest) H E) as Hsc. unfold scan_word_down in Hsc. replace (14 * j + Z.of_nat (Z.to_nat rest) - 1) with (bm_size b - 1) in Hsc by lia.
      destruct (scan_down (Z.to_nat rest) w (bm_size b - 1)) as [ps cur]. apply Hsc; [| lia..]. rewrite <- Enil. f_equal. lia.
Qed.

Lemma tail_down b : clean b -> let max_size := bm_size b / 56 in let start := dataSize b - 1 in let rest := bm_size b mod 14 in
  exists acc, (if negb (bm_size b mod 56 =? 0) then
    for_down (Z.to_nat (start - max_size * 4 + 1)) start (fun i '(ps, cur_pos) =>
      w ← at_index (bm_data b) i;
      if w =? 0 then Some (ps, u32 (cur_pos - (if (i =? start) && negb (rest =? 0) then rest else VALUE_SIZE)))
      else if (i =? start) && negb (rest =? 0) then Some (scan_word_down (Z.to_nat rest + 1) w (ps, u32 (cur_pos + 1)))
      else Some (scan_word_down 14 w (ps, cur_pos))) ([], u32 (bm_size b - 1))
    else Some ([], u32 (bm_size b - 1))) = Some acc /\ listed_down b (4 * max_size) acc.
Proof.
  intros H max_size start rest. pose proof (blocks_fit b H) as H4. pose proof (cl_size _ H) as Hs. pose proof (size_words b H) as Hw. assert (0 <= max_size) as Hm by (apply Z.div_pos; lia). fold max_size in H4.
  destruct (Z.eqb_spec (bm_size b mod 56) 0) as [E56 | E56]; cbn [negb].
  - eexists. split; [done |]. assert (14 * (4 * max_size) = bm_size b) as Eb by (unfold max_size; Z.to_euclidean_division_equations; lia). split; cbn [fst snd]; rewrite Eb; [| done]. unfold downto. by rewrite Z.sub_diag.
  - assert (4 * max_size < dataSize b) as Hlt by (unfold max_size in *; Z.to_euclidean_division_equations; lia).
    edestruct (for_down_inv (fun j acc => if j =? dataSize b then acc = ([], u32 (bm_size b - 1)) else listed_down b j acc) start (max_size * 4)) as (acc & -> & Hacc).
    + unfold start. lia.
    + unfold start. rewrite Z.sub_add, Z.eqb_refl. done.
    + intros i [ps cur] Hi Hl. unfold start in *. destruct (at_index_Some (bm_data b) i) as [w W]; [unfold dataSize in *; lia |]. rewrite W. cbn [mbind option_bind].
      destruct (Z.eqb_spec i (dataSize b)); [lia |]. destruct (Z.eqb_spec (i + 1) (dataSize b)) as [El | El].
      * assert (i = dataSize b - 1) as -> by lia. injection Hl as -> ->. rewrite Z.eqb_refl. cbn [andb]. pose proof (last_word b w H ltac:(lia) W) as Hlast. fold rest in Hlast.
        destruct (w =? 0); [eexists; split; [done | exact Hlast] |]. destruct (negb (rest =? 0)); (eexists; split; [done | exact Hlast]).
      * destruct (Z.eqb_spec i (dataSize b - 1)); [lia |]. cbn [andb]. destruct (Z.eqb_spec w 0) as [-> |]; (eexists; split; [done |]).
        -- apply listed_down_zero; (done || lia).
        -- apply listed_down_word; (done || lia).
    + exists acc. split; [done |]. rewrite (Z.mul_comm 4). by destruct (Z.eqb_spec (max_size * 4) (dataSize b)); [lia |].
Qed.

Lemma listPosDesc_spec b : clean b -> listPosDesc b = Some (reverse (elements b)).
Proof.
  intros H. unfold listPosDesc. change U64_VALUE_SIZE with 56. change U64_DIV_BASE with 4. destruct (tail_down b H) as (acc & E & Hacc). change VALUE_SIZE with 14 in E |- *. rewrite E. cbn [mbind option_bind]. clear E.
  pose proof (blocks_fit b H) as H4. pose proof (cl_size _ H) as Hs. set (max_size := bm_size b / 56) in *. assert (0 <= max_size) as Hm by (apply Z.div_pos; lia).
  assert (14 * (4 * max_size) <= bm_size b) as Hfit by (unfold max_size; Z.to_euclidean_division_equations; lia). unfold dataSize in H4.
  replace (Z.to_nat max_size) with (Z.to_nat (max_size - 1 - 0 + 1)) by lia.
  edestruct (for_down_inv (fun i acc => listed_down b (4 * i) acc) (max_size - 1) 0) as (acc2 & -> & Hacc2); [lia | by replace (max_size - 1 + 1) with max_size by lia | |].
  - intros i [ps cur] Hi Hl. destruct (at_index64_spec (bm_data b) i) as (w0 & w1 & w2 & w3 & W0 & W1 & W2 & W3 & ->); [lia | lia |]. cbn [mbind option_bind].
    pose proof (fun j w => at_index_Forall _ j w _ (cl_words _ H)) as Fd. destruct (Z.eqb_spec (join4 w0 w1 w2 w3) 0) as [E0 | E0].
    + apply join4_zero in E0 as (-> & -> & -> & ->); [| by eapply Fd..]. eexists. split; [done |]. replace (4 * (i + 1)) with (4 * i + 3 + 1) in Hl by lia.
      apply listed_down_zero in Hl; [| done | done | lia]. replace (4 * i + 3) with (4 * i + 2 + 1) in Hl by lia. apply listed_down_zero in Hl; [| done | done | lia].
      replace (4 * i + 2) with (4 * i + 1 + 1) in Hl by lia. apply listed_down_zero in Hl; [| done | done | lia]. apply listed_down_zero in Hl; [| done | done | lia].
      replace (u32 (cur - 56)) with (u32 (u32 (u32 (u32 (cur - VALUE_SIZE) - VALUE_SIZE) - VALUE_SIZE) - VALUE_SIZE)); [done |].
      unfold VALUE_SIZE. rewrite (u32_sub (cur - 14)), (u32_sub (cur - 14 - 14)), (u32_sub (cur - 14 - 14 - 14)). f_equal. lia.
    + edestruct (for_range_inv (fun n acc => listed_down b (4 * (i + 1) - n) acc) 0 4) as (acc3 & -> & Hacc3); [lia | by rewrite Z.sub_0_r | | exists acc3; split; [done |]; by replace (4 * i) with (4 * (i + 1) - 4) by lia].
      intros n acc' Hn Hl'. rewrite (Z.mul_comm (i + 1) 4). destruct (at_index_Some (bm_data b) (4 * (i + 1) - 1 - n)) as [w W]; [lia |]. rewrite W. cbn [mbind option_bind]. eexists. split; [done |].
      replace (4 * (i + 1) - (n + 1)) with (4 * (i + 1) - 1 - n) by lia. apply listed_down_word; try done; [lia |]. by replace (4 * (i + 1) - 1 - n + 1) with (4 * (i + 1) - n) by lia.
  - cbn [mbind option_bind]. destruct Hacc2 as [-> _]. f_equal. apply downto_all.
Qed.
