(* ===== verification/BitmapIterators.v ===== *)
(** * The walks with a callback, iterators and counting

    [foreach] and [rforeach] call back for the positions in order until the
    callback returns false. *)

From stdpp Require Import base list list_numbers numbers option sorting.
From Stdlib Require Import ZArith Lia.
From S2P Require Import Prelude.
From S2P Require Import Bitmap.
From S2P Require Import BitmapFacts.

Local Open Scope Z_scope.

(** ** Calling back for each position until [false] *)

Fixpoint call_back {S} (cb : Z -> S -> bool * S) (ps : list Z) (s : S) : S * bool :=
  match ps with
  | [] => (s, false)
  | p :: ps => let '(more, s) := cb p s in if more : bool then call_back cb ps s else (s, true)
  end.

Section Visit.

Context {S : Type} (cb : Z -> S -> bool * S) (s0 : S).

Lemma call_back_app ps ps' s : call_back cb (ps ++ ps') s = let '(s', stopped) := call_back cb ps s in if stopped then (s', true) else call_back cb ps' s'.
Proof. revert s. induction ps as [|p ps IH]; intros s; [done |]. cbn [app call_back]. destruct (cb p s) as [[] s']; [apply IH | done]. Qed.

Lemma visit_up_spec n x w size cur s : let '(ps, cur1) := scan_up n x w size cur in let '(s', cur2, stopped) := visit_up cb n x w size cur s in
  call_back cb ps s = (s', stopped) /\ (stopped = false -> cur2 = cur1).
Proof.
  revert x cur s. induction n as [|n IH]; intros x cur s; cbn [scan_up visit_up]; [done |]. destruct (cur <? size); [| done]. specialize (IH (x + 1) (cur + 1)). destruct (scan_up n (x + 1) w size (cur + 1)) as [ps cur1].
  destruct (negb (Z.land w (POS x) =? 0)); [| apply IH]. cbn [call_back]. destruct (cb cur s) as [[] s']; [apply IH | done].
Qed.

Lemma visit_down_spec n w cur s : let '(ps, cur1) := scan_down n w cur in let '(s', cur2, stopped) := visit_down cb n w cur s in
  call_back cb ps s = (s', stopped) /\ (stopped = false -> cur2 = cur1).
Proof.
  revert cur s. induction n as [|n IH]; intros cur s; cbn [scan_down visit_down]; [done |]. specialize (IH (u32 (cur - 1))). destruct (scan_down n w (u32 (cur - 1))) as [ps cur1].
  destruct (negb (Z.land w (POS (Z.of_nat n)) =? 0)); [| apply IH]. cbn [call_back]. destruct (cb cur s) as [[] s']; [apply IH | done].
Qed.

(** ** Simulation

    The walk with a callback follows the walk that lists the positions. *)
Definition follows (a : list Z * Z) (acc : S * Z * bool) : Prop :=
  let '(s, cur, stopped) := acc in call_back cb (fst a) s0 = (s, stopped) /\ (stopped = false -> cur = snd a).

Definition simulates (f : list Z * Z -> option (list Z * Z)) (g : S * Z * bool -> option (S * Z * bool)) : Prop :=
  forall a a' acc, f a = Some a' -> follows a acc -> exists acc', g acc = Some acc' /\ follows a' acc'.

Definition grows (f : list Z * Z -> option (list Z * Z)) : Prop := forall a a', f a = Some a' -> fst a `prefix_of` fst a'.

Lemma stopped_follows a a' s cur : follows a (s, cur, true) -> fst a `prefix_of` fst a' -> follows a' (s, cur, true).
Proof. intros [H _] [ps E]. split; [| done]. rewrite E, call_back_app, H. done. Qed.

Lemma for_up_simulates n i f g : (forall i, simulates (f i) (g i)) -> simulates (for_up n i f) (for_up n i g).
Proof.
  intros H. revert i. induction n as [|n IH]; intros i a a' acc; cbn [for_up]; [intros <-%(inj Some); by exists acc |]. destruct (f i a) as [a1 |] eqn:E; [| done]. cbn [mbind option_bind]. intros E' Hf.
  destruct (H i _ _ _ E Hf) as (acc1 & -> & H1). by apply (IH (i + 1) a1 a' acc1).
Qed.

Lemma for_down_simulates n i f g : (forall i, simulates (f i) (g i)) -> simulates (for_down n i f) (for_down n i g).
Proof.
  intros H. revert i. induction n as [|n IH]; intros i a a' acc; cbn [for_down]; [intros <-%(inj Some); by exists acc |]. destruct (f i a) as [a1 |] eqn:E; [| done]. cbn [mbind option_bind]. intros E' Hf.
  destruct (H i _ _ _ E Hf) as (acc1 & -> & H1). by apply (IH (i - 1) a1 a' acc1).
Qed.

Lemma for_up_grows n i f : (forall i, grows (f i)) -> grows (for_up n i f).
Proof.
  intros H. revert i. induction n as [|n IH]; intros i a a'; cbn [for_up]; [by intros <-%(inj Some) |]. destruct (f i a) as [a1 |] eqn:E; [| done]. cbn [mbind option_bind]. intros E'. transitivity (fst a1); [by eapply H | by eapply IH].
Qed.

(** One round: nothing happens after a stop. *)
Lemma round_simulates f k : grows f -> (forall ps cur a' s, f (ps, cur) = Some a' -> call_back cb ps s0 = (s, false) -> exists acc', k s cur = Some acc' /\ follows a' acc') ->
  simulates f (fun acc => unless_stopped acc k).
Proof.
  intros Hg H [ps cur] a' [[s cur'] []] E [Hc Hcur]; cbn [unless_stopped fst snd] in *; [eexists; split; [done |]; apply (stopped_follows (ps, cur)); [by split | by apply (Hg (ps, cur))] |]. rewrite Hcur by done. by eapply H.
Qed.

Lemma follows_word ps (r : list Z * Z) s (v : S * Z * bool) : call_back cb ps s0 = (s, false) ->
  (let '(ps', cur1) := r in let '(s', cur2, stopped) := v in call_back cb ps' s = (s', stopped) /\ (stopped = false -> cur2 = cur1)) ->
  follows (let '(ps', cur') := r in (ps ++ ps', cur')) v.
Proof. destruct r as [ps' cur1], v as [[s' cur2] stopped]. intros Hc [H1 H2]. split; [| done]. cbn [fst]. by rewrite call_back_app, Hc. Qed.

Lemma scan_word_grows (o : option Z) (size : Z) : grows (fun a => w ← o; Some (scan_word w size a)).
Proof. intros [ps cur] a'. destruct o as [w |]; [| done]. cbn [mbind option_bind]. intros <-%(inj Some). unfold scan_word. destruct (scan_up 14 0 w size cur). cbn [fst]. by apply prefix_app_r. Qed.

Lemma scan_down_grows n (w cur : Z) ps : ps `prefix_of` fst (scan_word_down n w (ps, cur)).
Proof. unfold scan_word_down. destruct (scan_down n w cur). cbn [fst]. by apply prefix_app_r. Qed.

Lemma up_round (o : option Z) (size : Z) : simulates (fun a => w ← o; Some (scan_word w size a)) (fun acc => unless_stopped acc (fun s cur => w ← o; Some (visit_up cb 14 0 w size cur s))).
Proof.
  apply round_simulates; [apply scan_word_grows |]. intros ps cur a' s E Hc. destruct o as [w |]; [| done]. cbn [mbind option_bind] in *. apply (inj Some) in E as <-. eexists. split; [done |]. unfold scan_word. eapply follows_word; [done |]. apply visit_up_spec.
Qed.

Lemma down_round (o : option Z) : simulates (fun a => w ← o; Some (scan_word_down 14 w a)) (fun acc => unless_stopped acc (fun s cur => w ← o; Some (visit_down cb 14 w cur s))).
Proof.
  apply round_simulates; [intros [ps cur] a'; destruct o as [w |]; [| done]; cbn [mbind option_bind]; intros <-%(inj Some); apply scan_down_grows |].
  intros ps cur a' s E Hc. destruct o as [w |]; [| done]. cbn [mbind option_bind] in *. apply (inj Some) in E as <-. eexists. split; [done |]. unfold scan_word_down. eapply follows_word; [done |]. apply visit_down_spec.
Qed.

Lemma follows_skip ps s (cur' : Z) : call_back cb ps s0 = (s, false) -> follows (ps, cur') (s, cur', false).
Proof. by split. Qed.

Lemma for_range_simulates from to f g : (forall i, simulates (f i) (g i)) -> simulates (for_range from to f) (for_range from to g).
Proof. apply for_up_simulates. Qed.

Lemma block_up_round d size i :
  simulates (fun '(ps, cur_pos) => tmp ← at_index64 d i;
      if tmp =? 0 then Some (ps, u32 (cur_pos + U64_VALUE_SIZE)) else for_range 0 U64_DIV_BASE (fun n acc => w ← at_index d (i * U64_DIV_BASE + n); Some (scan_word w size acc)) (ps, cur_pos))
    (fun acc => unless_stopped acc (fun s cur_pos => tmp ← at_index64 d i;
      if tmp =? 0 then Some (s, u32 (cur_pos + U64_VALUE_SIZE), false)
      else for_range 0 U64_DIV_BASE (fun n acc => unless_stopped acc (fun s cur_pos => w ← at_index d (i * U64_DIV_BASE + n); Some (visit_up cb 14 0 w size cur_pos s))) (s, cur_pos, false))).
Proof.
  apply round_simulates.
  - intros [ps cur] a'. destruct (at_index64 d i) as [tmp |]; [| done]. cbn [mbind option_bind]. destruct (tmp =? 0); [by intros <-%(inj Some) |]. apply (for_up_grows _ _ _ (fun n => scan_word_grows (at_index d (i * U64_DIV_BASE + n)) size) (ps, cur)).
  - intros ps cur a' s E Hc. destruct (at_index64 d i) as [tmp |]; [| done]. cbn [mbind option_bind] in *. destruct (tmp =? 0); [apply (inj Some) in E as <-; eexists; split; [done |]; by apply follows_skip |].
    eapply (for_range_simulates _ _ _ _ (fun n => up_round (at_index d (i * U64_DIV_BASE + n)) size)); [exact E | by apply follows_skip].
Qed.

Lemma word_up_round d size i :
  simulates (fun '(ps, cur_pos) => w ← at_index d i; if w =? 0 then Some (ps, u32 (cur_pos + VALUE_SIZE)) else Some (scan_word w size (ps, cur_pos)))
    (fun acc => unless_stopped acc (fun s cur_pos => w ← at_index d i; if w =? 0 then Some (s, u32 (cur_pos + VALUE_SIZE), false) else Some (visit_up cb 14 0 w size cur_pos s))).
Proof.
  apply round_simulates.
  - intros [ps cur] a'. destruct (at_index d i) as [w |]; [| done]. cbn [mbind option_bind]. destruct (w =? 0); intros <-%(inj Some); [done |]. exact (scan_word_grows (Some w) size (ps, cur) _ eq_refl).
  - intros ps cur a' s E Hc. destruct (at_index d i) as [w |]; [| done]. cbn [mbind option_bind] in *. destruct (w =? 0); apply (inj Some) in E as <-; (eexists; split; [done |]); [by apply follows_skip |]. unfold scan_word. eapply follows_word; [done |]. apply visit_up_spec.
Qed.

Lemma foreach_listed b ps : listPosAsc b = Some ps -> foreach cb b s0 = Some (fst (call_back cb ps s0)).
Proof.
  unfold listPosAsc, foreach. intros E. destruct (for_range 0 _ _ ([], 0)) as [a1 |] eqn:E1; [| done]. cbn [mbind option_bind] in E. destruct (for_range _ (dataSize b) _ a1) as [a2 |] eqn:E2; [| done]. apply (inj Some) in E as <-.
  destruct (for_range_simulates _ _ _ _ (block_up_round (bm_data b) (bm_size b)) _ _ (s0, 0, false) E1) as (acc1 & -> & H1); [by split |]. cbn [mbind option_bind].
  destruct (for_range_simulates _ _ _ _ (word_up_round (bm_data b) (bm_size b)) _ _ _ E2 H1) as ([[s cur] stopped] & -> & [-> _]). done.
Qed.

Lemma block_down_round d i :
  simulates (fun '(ps, cur_pos) => tmp ← at_index64 d i;
      if tmp =? 0 then Some (ps, u32 (cur_pos - U64_VALUE_SIZE)) else for_range 0 U64_DIV_BASE (fun n acc => w ← at_index d ((i + 1) * U64_DIV_BASE - 1 - n); Some (scan_word_down 14 w acc)) (ps, cur_pos))
    (fun acc => unless_stopped acc (fun s cur_pos => tmp ← at_index64 d i;
      if tmp =? 0 then Some (s, u32 (cur_pos - U64_VALUE_SIZE), false)
      else for_range 0 U64_DIV_BASE (fun n acc => unless_stopped acc (fun s cur_pos => w ← at_index d ((i + 1) * U64_DIV_BASE - 1 - n); Some (visit_down cb 14 w cur_pos s))) (s, cur_pos, false))).
Proof.
  apply round_simulates.
  - intros [ps cur] a'. destruct (at_index64 d i) as [tmp |]; [| done]. cbn [mbind option_bind]. destruct (tmp =? 0); [by intros <-%(inj Some) |]. apply (for_up_grows 4 0 (fun n a => w ← at_index d ((i + 1) * U64_DIV_BASE - 1 - n); Some (scan_word_down 14 w a))).
    intros n [ps' cur'] a''. destruct (at_index d _) as [w |]; [| done]. cbn [mbind option_bind]. intros <-%(inj Some). apply scan_down_grows.
  - intros ps cur a' s E Hc. destruct (at_index64 d i) as [tmp |]; [| done]. cbn [mbind option_bind] in *. destruct (tmp =? 0); [apply (inj Some) in E as <-; eexists; split; [done |]; by apply follows_skip |].
    eapply (for_range_simulates _ _ _ _ (fun n => down_round (at_index d ((i + 1) * U64_DIV_BASE - 1 - n)))); [exact E | by apply follows_skip].
Qed.

Lemma word_down_round d start rest i :
  simulates (fun '(ps, cur_pos) => w ← at_index d i;
      if w =? 0 then Some (ps, u32 (cur_pos - (if (i =? start) && negb (rest =? 0) then rest else VALUE_SIZE)))
      else if (i =? start) && negb (rest =? 0) then Some (scan_word_down (Z.to_nat rest + 1) w (ps, u32 (cur_pos + 1))) else Some (scan_word_down 14 w (ps, cur_pos)))
    (fun acc => unless_stopped acc (fun s cur_pos => w ← at_index d i;
      if w =? 0 then Some (s, u32 (cur_pos - (if (i =? start) && negb (rest =? 0) then rest else VALUE_SIZE)), false)
      else if (i =? start) && negb (rest =? 0) then Some (visit_down cb (Z.to_nat rest + 1) w (u32 (cur_pos + 1)) s) else Some (visit_down cb 14 w cur_pos s))).
Proof.
  apply round_simulates.
  - intros [ps cur] a'. destruct (at_index d i) as [w |]; [| done]. cbn [mbind option_bind]. destruct (w =? 0); [by intros <-%(inj Some) |]. destruct ((i =? start) && negb (rest =? 0)); intros <-%(inj Some); apply scan_down_grows.
  - intros ps cur a' s E Hc. destruct (at_index d i) as [w |]; [| done]. cbn [mbind option_bind] in *. destruct (w =? 0); [apply (inj Some) in E as <-; eexists; split; [done |]; by apply follows_skip |].
    destruct ((i =? start) && negb (rest =? 0)); apply (inj Some) in E as <-; (eexists; split; [done |]); unfold scan_word_down; (eapply follows_word; [done |]); apply visit_down_spec.
Qed.

Lemma rforeach_listed b ps : listPosDesc b = Some ps -> rforeach cb b s0 = Some (fst (call_back cb ps s0)).
Proof.
  unfold listPosDesc, rforeach. intros E. match type of E with (?o ≫= _) = _ => destruct o as [a1 |] eqn:E1; [| done] end. cbn [mbind option_bind] in E. destruct (for_down _ _ _ a1) as [a2 |] eqn:E2; [| done]. apply (inj Some) in E as <-.
  match goal with |- (?o ≫= _) = _ => assert (exists acc1, o = Some acc1 /\ follows a1 acc1) as (acc1 & -> & H1) end.
  { destruct (negb (bm_size b mod U64_VALUE_SIZE =? 0)); [| apply (inj Some) in E1 as <-; eexists; split; [done | by split]].
    by apply (for_down_simulates _ _ _ _ (word_down_round (bm_data b) (dataSize b - 1) (bm_size b mod VALUE_SIZE)) _ _ (s0, u32 (bm_size b - 1), false) E1). }
  cbn [mbind option_bind]. destruct (for_down_simulates _ _ _ _ (block_down_round (bm_data b)) _ _ _ E2 H1) as ([[s cur] stopped] & -> & [-> _]). done.
Qed.

End Visit.

Lemma foreach_spec {S} (cb : Z -> S -> bool * S) b s : clean b -> foreach cb b s = Some (fst (call_back cb (elements b) s)).
Proof. intros H. by apply foreach_listed, listPosAsc_spec. Qed.

Lemma rforeach_spec {S} (cb : Z -> S -> bool * S) b s : clean b -> rforeach cb b s = Some (fst (call_back cb (reverse (elements b)) s)).
Proof. intros H. by apply rforeach_listed, listPosDesc_spec. Qed.

(** ** Iterators and counting on plain bitmaps *)


(** [p] is the first position from [from] on, or past the end. *)
Definition first_from (b : Bitmap) (from p : Z) : Prop :=
  from <= p /\ (p < bm_size b -> member b p = true) /\ forall q, from <= q < p -> q < bm_size b -> member b q = false.

Lemma seek_up_spec n x w size pos : pos <= size -> 0 <= x -> x + Z.of_nat n <= 14 ->
  let '(p, found) := seek_up n x w size pos in
  pos <= p /\ (forall q, pos <= q < p -> Z.testbit w (x + (q - pos)) = false) /\
  (if found : bool then p < size /\ p < pos + Z.of_nat n /\ Z.testbit w (x + (p - pos)) = true else p = Z.min (pos + Z.of_nat n) size).
Proof.
  revert x pos. induction n as [|n IH]; intros x pos Hp Hx Hn; cbn [seek_up]; [split; [lia |]; split; lia |].
  destruct (Z.ltb_spec pos size); [| split; [lia |]; split; [lia |]; lia]. rewrite test_POS by lia. destruct (Z.testbit w x) eqn:E.
  - split; [lia |]. split; [lia |]. split; [lia |]. split; [lia |]. by rewrite Z.sub_diag, Z.add_0_r.
  - specialize (IH (x + 1) (pos + 1) ltac:(lia) ltac:(lia) ltac:(lia)). destruct (seek_up n (x + 1) w size (pos + 1)) as [p found]. destruct IH as (H1 & H2 & H3). split; [lia |]. split.
    + intros q Hq. destruct (decide (q = pos)) as [-> |]; [by rewrite Z.sub_diag, Z.add_0_r |]. replace (x + (q - pos)) with (x + 1 + (q - (pos + 1))) by lia. apply H2. lia.
    + destruct found; [| lia]. destruct H3 as (? & ? & E'). split; [done |]. split; [lia |]. by replace (x + (p - pos)) with (x + 1 + (p - (pos + 1))) by lia.
Qed.

Lemma next_loop_spec b n i pos : clean b -> 0 <= i -> i + Z.of_nat n = dataSize b -> pos = 14 * i \/ bm_size b <= pos ->
  exists p, next_loop n i (bm_data b) (bm_size b) pos = Some p /\ first_from b pos p.
Proof.
  intros H. pose proof (size_words b H) as Hs. revert i pos. induction n as [|n IH]; intros i pos Hi Hn Hp; cbn [next_loop].
  - exists pos. split; [done |]. split; [lia |]. split; [lia |]. lia.
  - destruct (Z.ltb_spec pos (bm_size b)) as [Hlt | Hge]; [| exists pos; split; [done |]; split; [lia |]; split; lia]. destruct Hp as [-> | ?]; [| lia].
    destruct (at_index_Some (bm_data b) i) as [w W]; [unfold dataSize in *; lia |]. rewrite W. cbn [mbind option_bind].
    assert (forall q, 14 * i <= q < 14 * i + 14 -> member b q = Z.testbit w (0 + (q - 14 * i))) as Hm by (intros q Hq; unfold member; rewrite <- (bits_at _ i _ w) by (done || lia); f_equal; lia).
    destruct (Z.eqb_spec w 0) as [-> | Hw0].
    + destruct (IH (i + 1) (14 * i + VALUE_SIZE)) as (p & -> & P1 & P2 & P3); [lia | lia | unfold VALUE_SIZE; lia |]. unfold VALUE_SIZE in *. exists p. split; [done |]. split; [lia |]. split; [done |].
      intros q Hq Hq'. destruct (decide (q < 14 * i + 14)); [rewrite Hm by lia; apply Z.testbit_0_l | apply P3; lia].
    + pose proof (seek_up_spec 14 0 w (bm_size b) (14 * i) ltac:(lia) ltac:(lia) ltac:(lia)) as Hsk. destruct (seek_up 14 0 w (bm_size b) (14 * i)) as [p found]. destruct Hsk as (S1 & S2 & S3). destruct found.
      * destruct S3 as (S3 & S4 & S5). exists p. split; [done |]. split; [lia |]. split; [intros _; rewrite Hm by lia; done |]. intros q Hq Hq'. rewrite Hm by lia. by apply S2.
      * destruct (IH (i + 1) p) as (p' & -> & P1 & P2 & P3); [lia | lia | lia |]. exists p'. split; [done |]. split; [lia |]. split; [done |].
        intros q Hq Hq'. destruct (decide (q < p)); [| apply P3; lia]. rewrite Hm by lia. apply S2. lia.
Qed.

Lemma i32_size b : clean b -> i32 (bm_size b) = bm_size b.
Proof. intros H. pose proof (cl_size _ H). apply swrap_id; [unfold in_s; lia | lia]. Qed.

Lemma iterator_next_spec b pos : clean b -> -1 <= pos < bm_size b -> exists p, iterator_next b pos = Some p /\ first_from b (pos + 1) p.
Proof.
  intros H Hp. pose proof (size_words b H) as Hs. unfold iterator_next. rewrite (i32_size b H). unfold VALUE_SIZE. set (q := pos + 1). assert (0 <= q) as Hq by lia. destruct (word_split q Hq) as (Eq & Hk & Hd).
  destruct (Z.eqb_spec (q mod 14) 0) as [E0 | E0]; cbn [negb mbind option_bind].
  - apply next_loop_spec; [done | done | unfold dataSize in *; lia | lia].
  - destruct (at_index_Some (bm_data b) (q / 14)) as [w W]; [unfold dataSize in *; lia |]. rewrite W. cbn [mbind option_bind].
    assert (forall p, q <= p < 14 * (q / 14) + 14 -> member b p = Z.testbit w (q mod 14 + (p - q))) as Hm by (intros p Hp'; unfold member; rewrite <- (bits_at _ (q / 14) _ w) by (done || lia); f_equal; lia).
    pose proof (seek_up_spec (Z.to_nat (14 - q mod 14)) (q mod 14) w (bm_size b) q ltac:(lia) ltac:(lia) ltac:(lia)) as Hsk. destruct (seek_up _ _ w (bm_size b) q) as [p found]. destruct Hsk as (S1 & S2 & S3). destruct found.
    + destruct S3 as (S3 & S4 & S5). exists p. split; [done |]. split; [lia |]. split; [intros _; rewrite Hm by lia; done |]. intros p' Hp' _. rewrite Hm by lia. by apply S2.
    + destruct (decide (p < bm_size b)) as [Hlt | Hge].
      * assert (p = 14 * (q / 14 + 1)) as Ep by lia. assert (p / 14 = q / 14 + 1) as Ed by (rewrite Ep, Z.mul_comm; apply Z.div_mul; lia).
        destruct (next_loop_spec b (Z.to_nat (dataSize b - p / 14)) (p / 14) p H) as (p' & -> & P1 & P2 & P3); [lia | unfold dataSize in *; lia | lia |]. exists p'. split; [done |]. split; [lia |]. split; [done |].
        intros r Hr Hr'. destruct (decide (r < p)); [rewrite Hm by lia; apply S2; lia | apply P3; lia].
      * assert (p = bm_size b) as -> by lia. exists (bm_size b). split; [destruct (Z.to_nat (dataSize b - bm_size b / 14)); cbn [next_loop]; [done |]; destruct (Z.ltb_spec (bm_size b) (bm_size b)); [lia | done] |].
        split; [lia |]. split; [lia |]. intros r Hr Hr'. rewrite Hm by lia. apply S2. lia.
Qed.

(** The positions from [from] on. *)
Definition tail_from (b : Bitmap) (from : Z) : list Z := filter (fun p => member b p = true) (seqZ from (bm_size b - from)).

Lemma tail_first b from p : 0 <= from -> first_from b from p -> p < bm_size b -> tail_from b from = p :: tail_from b (p + 1).
Proof.
  intros Hf (H1 & H2 & H3) Hp. unfold tail_from. replace (bm_size b - from) with ((p - from) + (bm_size b - p)) by lia. rewrite seqZ_app by lia. rewrite filter_app.
  rewrite (filter_agree _ (fun _ => False) (seqZ from (p - from))). 2: { intros q Hq%elem_of_seqZ. rewrite H3 by lia. by split. }
  assert (forall l : list Z, filter (fun _ : Z => False) l = []) as -> by (by induction l). cbn [app]. replace (from + (p - from)) with p by lia. rewrite seqZ_cons by lia. rewrite filter_cons, decide_True by auto.
  do 3 f_equal; lia.
Qed.

Lemma tail_none b from p : first_from b from p -> bm_size b <= p -> tail_from b from = [].
Proof.
  intros (H1 & H2 & H3) Hp. unfold tail_from. rewrite (filter_agree _ (fun _ => False)); [by induction (seqZ _ _) |]. intros q Hq%elem_of_seqZ. rewrite H3 by lia. by split.
Qed.

Lemma iterate_spec fuel b from p : clean b -> 0 <= from -> first_from b from p -> bm_size b - p < Z.of_nat fuel -> (0 < fuel)%nat -> iterate fuel b p = Some (tail_from b from).
Proof.
  intros H. revert from p. induction fuel as [|fuel IH]; intros from p Hf Hp Hfu Hpos; [lia |]. cbn [iterate]. unfold iterator_valid. rewrite (i32_size b H). pose proof (proj1 Hp).
  destruct (Z.leb_spec (bm_size b) p); cbn [orb negb]; [by rewrite (tail_none b from p) |]. destruct (Z.ltb_spec p 0); [lia |]. cbn [orb negb].
  destruct (iterator_next_spec b p H) as (p' & -> & Hp'); [lia |]. cbn [mbind option_bind]. pose proof (proj1 Hp'). rewrite (IH (p + 1) p'); [| lia | done | lia | lia]. cbn [mbind option_bind]. by rewrite (tail_first b from p).
Qed.

Lemma iterator_spec b : clean b -> exists p, iterator_begin b = Some p /\ iterate (Z.to_nat (bm_size b) + 1) b p = Some (elements b).
Proof.
  intros H. pose proof (cl_size _ H). unfold iterator_begin. destruct (decide (bm_size b = 0)) as [E | E].
  - assert (bm_data b = []) as Ed by (pose proof (size_words b H) as Hw; unfold dataSize in Hw; apply nil_length_inv; lia).
    exists 0. unfold iterator_next. rewrite (i32_size b H). unfold dataSize. rewrite Ed, E. split; [done |]. change (Z.to_nat 0 + 1)%nat with 1%nat. cbn [iterate]. unfold iterator_valid, elements. by rewrite !E.
  - destruct (iterator_next_spec b (-1) H) as (p & -> & Hp); [lia |]. exists p. split; [done |]. pose proof (proj1 Hp). rewrite (iterate_spec _ b 0 p); [| done | lia | done | lia | lia]. unfold tail_from, elements. by rewrite Z.sub_0_r.
Qed.

(** ** The other direction *)

(** [p] is the last position below [to], or negative. *)
Definition last_below (b : Bitmap) (to p : Z) : Prop :=
  p < to /\ (0 <= p -> member b p = true) /\ forall q, p < q < to -> 0 <= q -> member b q = false.

Lemma seek_down_spec n w pos : Z.of_nat n <= 14 -> Z.of_nat n <= pos + 1 ->
  let '(p, found) := seek_down n w pos in
  p <= pos /\ (forall q, p < q <= pos -> Z.testbit w (q - (pos + 1 - Z.of_nat n)) = false) /\
  (if found : bool then 0 <= p /\ pos - Z.of_nat n < p /\ Z.testbit w (p - (pos + 1 - Z.of_nat n)) = true else p = pos - Z.of_nat n).
Proof.
  revert pos. induction n as [|n IH]; intros pos Hn Hp; cbn [seek_down]; [split; [lia |]; split; lia |].
  destruct (Z.leb_spec 0 pos); [| lia]. rewrite test_POS by lia. destruct (Z.testbit w (Z.of_nat n)) eqn:E.
  - split; [lia |]. split; [lia |]. split; [lia |]. split; [lia |]. by replace (pos - (pos + 1 - Z.of_nat (S n))) with (Z.of_nat n) by lia.
  - specialize (IH (pos - 1) ltac:(lia) ltac:(lia)). destruct (seek_down n w (pos - 1)) as [p found]. destruct IH as (H1 & H2 & H3). split; [lia |]. split.
    + intros q Hq. destruct (decide (q = pos)) as [-> |]; [by replace (pos - (pos + 1 - Z.of_nat (S n))) with (Z.of_nat n) by lia |].
      replace (q - (pos + 1 - Z.of_nat (S n))) with (q - (pos - 1 + 1 - Z.of_nat n)) by lia. apply H2. lia.
    + destruct found; [| lia]. destruct H3 as (? & ? & E'). split; [done |]. split; [lia |]. by replace (p - (pos + 1 - Z.of_nat (S n))) with (p - (pos - 1 + 1 - Z.of_nat n)) by lia.
Qed.

Lemma prev_loop_spec b n i pos : clean b -> i + 1 = Z.of_nat n -> i < dataSize b -> pos = 14 * i + 13 ->
  exists p, prev_loop n i (bm_data b) pos = Some p /\ last_below b (pos + 1) p.
Proof.
  intros H. revert i pos. induction n as [|n IH]; intros i pos Hn Hi ->; cbn [prev_loop].
  - exists (14 * i + 13). split; [done |]. split; [lia |]. split; [lia |]. lia.
  - destruct (Z.leb_spec 0 (14 * i + 13)); [| lia]. destruct (at_index_Some (bm_data b) i) as [w W]; [unfold dataSize in *; lia |]. rewrite W. cbn [mbind option_bind].
    assert (forall q, 14 * i <= q < 14 * i + 14 -> member b q = Z.testbit w (q - 14 * i)) as Hm by (intros q Hq; unfold member; rewrite <- (bits_at _ i _ w) by (done || lia); f_equal; lia).
    destruct (Z.eqb_spec w 0) as [-> | Hw0].
    + destruct (IH (i - 1) (14 * i + 13 - VALUE_SIZE)) as (p & -> & P1 & P2 & P3); [lia | lia | unfold VALUE_SIZE; lia |]. unfold VALUE_SIZE in *. exists p. split; [done |]. split; [lia |]. split; [done |].
      intros q Hq Hq'. destruct (decide (14 * i <= q)); [rewrite Hm by lia; apply Z.testbit_0_l | apply P3; lia].
    + pose proof (seek_down_spec 14 w (14 * i + 13) ltac:(lia) ltac:(lia)) as Hsk. destruct (seek_down 14 w (14 * i + 13)) as [p found]. replace (14 * i + 13 + 1 - Z.of_nat 14) with (14 * i) in Hsk by lia. destruct Hsk as (S1 & S2 & S3). destruct found.
      * destruct S3 as (S3 & S4 & S5). exists p. split; [done |]. split; [lia |]. split; [intros _; rewrite Hm by lia; done |]. intros q Hq Hq'. rewrite Hm by lia. apply S2. lia.
      * destruct (IH (i - 1) p) as (p' & -> & P1 & P2 & P3); [lia | lia | lia |]. exists p'. split; [done |]. split; [lia |]. split; [done |].
        intros q Hq Hq'. destruct (decide (q < p + 1)); [apply P3; lia |]. rewrite Hm by lia. apply S2. lia.
Qed.

Lemma iterator_reverse_next_spec b pos : clean b -> pos <= bm_size b -> exists p, iterator_reverse_next b pos = Some p /\ (if pos <=? 0 then p = -1 else last_below b pos p).
Proof.
  intros H Hp. pose proof (size_words b H) as Hs. unfold iterator_reverse_next. destruct (Z.leb_spec pos 0); [by eexists |]. unfold VALUE_SIZE. set (q := pos - 1). assert (0 <= q) as Hq by lia. destruct (word_split q Hq) as (Eq & Hk & Hd).
  replace pos with (q + 1) by lia. destruct (Z.eqb_spec (q mod 14) (14 - 1)) as [E0 | E0]; cbn [negb mbind option_bind].
  - apply prev_loop_spec; [done | lia | unfold dataSize in *; lia | lia].
  - destruct (at_index_Some (bm_data b) (q / 14)) as [w W]; [unfold dataSize in *; lia |]. rewrite W. cbn [mbind option_bind].
    assert (forall p, 14 * (q / 14) <= p <= q -> member b p = Z.testbit w (p - 14 * (q / 14))) as Hm by (intros p Hp'; unfold member; rewrite <- (bits_at _ (q / 14) _ w) by (done || lia); f_equal; lia).
    pose proof (seek_down_spec (Z.to_nat (q mod 14 + 1)) w q ltac:(lia) ltac:(lia)) as Hsk. destruct (seek_down _ w q) as [p found]. replace (q + 1 - Z.of_nat (Z.to_nat (q mod 14 + 1))) with (14 * (q / 14)) in Hsk by lia.
    destruct Hsk as (S1 & S2 & S3). destruct found; cbn [mbind option_bind].
    + destruct S3 as (S3 & S4 & S5). exists p. split; [done |]. split; [lia |]. split; [intros _; rewrite Hm by lia; done |]. intros p' Hp' _. rewrite Hm by lia. apply S2. lia.
    + destruct (prev_loop_spec b (Z.to_nat (q / 14 - 1 + 1)) (q / 14 - 1) p H) as (p' & -> & P1 & P2 & P3); [lia | unfold dataSize in *; lia | lia |]. exists p'. split; [done |]. split; [lia |]. split; [done |].
      intros r Hr Hr'. destruct (decide (r < p + 1)); [apply P3; lia |]. rewrite Hm by lia. apply S2. lia.
Qed.

(** The positions below [to], from the end. *)
Definition head_below (b : Bitmap) (to : Z) : list Z := reverse (filter (fun p => member b p = true) (seqZ 0 to)).

Lemma head_last b to p : last_below b to p -> 0 <= p -> head_below b to = p :: head_below b p.
Proof.
  intros (H1 & H2 & H3) Hp. unfold head_below. replace to with (p + (1 + (to - p - 1))) by lia. rewrite seqZ_app by lia. rewrite (seqZ_app (0 + p) 1 (to - p - 1)) by lia. rewrite !filter_app, !reverse_app.
  rewrite (filter_agree _ (fun _ => False) (seqZ (0 + p + 1) (to - p - 1))). 2: { intros q Hq%elem_of_seqZ. rewrite H3 by lia. by split. }
  assert (forall l : list Z, filter (fun _ : Z => False) l = []) as -> by (by induction l). rewrite (seqZ_cons (0 + p) 1), (seqZ_nil (Z.succ (0 + p))) by lia. rewrite filter_cons, Z.add_0_l, decide_True by auto. done.
Qed.

Lemma head_none b to p : last_below b to p -> p < 0 -> head_below b to = [].
Proof.
  intros (H1 & H2 & H3) Hp. unfold head_below. rewrite (filter_agree _ (fun _ => False)); [by induction (seqZ _ _) |]. intros q Hq%elem_of_seqZ. rewrite H3 by lia. by split.
Qed.

Lemma iterate_reverse_spec fuel b to p : clean b -> to <= bm_size b -> last_below b to p -> p + 1 < Z.of_nat fuel -> (0 < fuel)%nat -> iterate_reverse fuel b p = Some (head_below b to).
Proof.
  intros H. revert to p. induction fuel as [|fuel IH]; intros to p Ht Hp Hfu Hpos; [lia |]. cbn [iterate_reverse]. unfold iterator_valid. rewrite (i32_size b H). pose proof (proj1 Hp).
  destruct (Z.leb_spec (bm_size b) p); [lia |]. destruct (Z.ltb_spec p 0); cbn [orb negb]; [by rewrite (head_none b to p) |].
  destruct (iterator_reverse_next_spec b p H) as (p' & -> & Hp'); [lia |]. cbn [mbind option_bind]. rewrite (head_last b to p) by done. destruct (Z.leb_spec p 0).
  - assert (p = 0) as -> by lia. subst p'. destruct fuel as [|fuel]; [lia |]. cbn [iterate_reverse]. unfold iterator_valid. rewrite (i32_size b H). destruct (Z.leb_spec (bm_size b) (-1)); [lia |]. done.
  - pose proof (proj1 Hp'). rewrite (IH p p'); [done | lia | done | lia | lia].
Qed.

Lemma iterator_reverse_spec b : clean b -> exists p, iterator_rbegin b = Some p /\ iterate_reverse (Z.to_nat (bm_size b) + 1) b p = Some (reverse (elements b)).
Proof.
  intros H. pose proof (cl_size _ H). unfold iterator_rbegin. rewrite (i32_size b H). destruct (iterator_reverse_next_spec b (bm_size b) H) as (p & -> & Hp); [lia |]. exists p. split; [done |].
  destruct (Z.leb_spec (bm_size b) 0).
  - assert (bm_size b = 0) as E by lia. subst p. rewrite E. change (Z.to_nat 0 + 1)%nat with 1%nat. cbn [iterate_reverse]. unfold iterator_valid, elements. by rewrite !E.
  - pose proof (proj1 Hp). rewrite (iterate_reverse_spec _ b (bm_size b) p); [done | done | lia | done | lia | lia].
Qed.

(** ** Counting *)

Lemma length_filter_fmap {A B} (f : A -> B) (P : B -> Prop) `{!forall x, Decision (P x)} (l : list A) :
  length (filter P (f <$> l)) = length (filter (fun x => P (f x)) l).
Proof. induction l as [|x l IH]; [done |]. rewrite fmap_cons, !filter_cons. destruct (decide (P (f x))); cbn; by rewrite IH. Qed.

Lemma seqZ_shift m n d : seqZ (m + d) n = (fun x => x + d) <$> seqZ m n.
Proof.
  apply list_eq. intros i. rewrite list_lookup_fmap. destruct (decide (Z.of_nat i < n)).
  - rewrite !lookup_seqZ_lt by lia. cbn. f_equal. lia.
  - by rewrite !lookup_seqZ_ge by lia.
Qed.

Definition count_in (n w : Z) : Z := Z.of_nat (length (filter (fun i => Z.testbit w i = true) (seqZ 0 n))).

Lemma count_in_wide n m w : in_u n w -> 0 <= n <= m -> count_in m w = count_in n w.
Proof.
  intros Hw Hn. unfold count_in. replace m with (n + (m - n)) by lia. rewrite seqZ_app by lia. rewrite filter_app, length_app.
  rewrite (filter_agree _ (fun _ => False) (seqZ (0 + n) (m - n))); [assert (forall l : list Z, filter (fun _ : Z => False) l = []) as -> by (by induction l); cbn; lia |].
  intros i Hi%elem_of_seqZ. by rewrite (in_u_testbit n w) by (done || lia).
Qed.

Lemma count_bits_in w n : in_u n w -> 0 <= n <= 64 -> count_bits w = count_in n w.
Proof. intros Hw Hn. apply (count_in_wide n 64); (done || lia). Qed.

Lemma count_join a b : in_u 16 a -> in_u 16 b -> count_bits (a + 2 ^ 16 * b) = count_bits a + count_bits b.
Proof.
  intros Ha Hb. assert (in_u 32 (a + 2 ^ 16 * b)) as Hab by (unfold in_u in *; lia). rewrite (count_bits_in _ 32), (count_bits_in a 16), (count_bits_in b 16) by (done || lia).
  unfold count_in. change (seqZ 0 32) with (seqZ 0 (16 + 16)). rewrite seqZ_app by lia. rewrite filter_app, length_app, Nat2Z.inj_add. f_equal; f_equal.
  - f_equal. apply filter_agree. intros i Hi%elem_of_seqZ. rewrite split_testbit by (done || lia). by destruct (Z.ltb_spec i 16); [| lia].
  - rewrite (seqZ_shift 0 16 16), length_filter_fmap. f_equal. apply filter_agree. intros i Hi%elem_of_seqZ. rewrite split_testbit by (done || lia). destruct (Z.ltb_spec (i + 16) 16); [lia |]. by rewrite Z.add_simpl_r.
Qed.

Lemma count64_join w0 w1 w2 w3 : in_u 16 w0 -> in_u 16 w1 -> in_u 16 w2 -> in_u 16 w3 ->
  count64 (join4 w0 w1 w2 w3) = count_bits w0 + count_bits w1 + count_bits w2 + count_bits w3.
Proof.
  intros H0 H1 H2 H3. unfold count64. assert (Z.land (join4 w0 w1 w2 w3) 0xFFFFFFFF = w0 + 2 ^ 16 * w1) as ->.
  { change 0xFFFFFFFF with (Z.ones 32). rewrite Z.land_ones by lia. unfold join4, in_u in *. Z.to_euclidean_division_equations. lia. }
  assert (Z.shiftr (join4 w0 w1 w2 w3) 32 = w2 + 2 ^ 16 * w3) as ->.
  { rewrite Z.shiftr_div_pow2 by lia. unfold join4, in_u in *. Z.to_euclidean_division_equations. lia. }
  rewrite !count_join by done. lia.
Qed.

Definition counted (b : Bitmap) (j : Z) : Z := Z.of_nat (length (upto b (14 * j))).

Lemma counted_word b j w : clean b -> at_index (bm_data b) j = Some w -> counted b (j + 1) = counted b j + count_bits w.
Proof.
  intros H E. pose proof (at_index_range _ _ _ E) as Hr. pose proof (size_words b H) as Hs. unfold dataSize in Hs. unfold counted. replace (14 * (j + 1)) with (14 * j + 14) by lia.
  rewrite <- upto_app by lia. rewrite length_app, Nat2Z.inj_add. f_equal. rewrite (count_bits_in w 14) by (first [exact (at_index_Forall _ _ _ _ (cl_words _ H) E) | lia]). unfold count_in. f_equal.
  set (n := Z.min 14 (bm_size b - 14 * j)). assert (seqZ (14 * j) n = (fun x => x + 14 * j) <$> seqZ 0 n) as -> by apply (seqZ_shift 0 n (14 * j)). rewrite length_filter_fmap.
  assert (seqZ 0 14 = seqZ 0 n ++ seqZ (0 + n) (14 - n)) as -> by (rewrite <- seqZ_app by lia; f_equal; lia). rewrite filter_app, length_app.
  rewrite (filter_agree _ (fun _ => False) (seqZ (0 + n) (14 - n))).
  - assert (forall l : list Z, filter (fun _ : Z => False) l = []) as -> by (by induction l). cbn. rewrite Nat.add_0_r. f_equal. apply filter_agree. intros i Hi%elem_of_seqZ. unfold member.
    rewrite <- (bits_at _ j _ w) by (done || lia). by rewrite Z.add_comm.
  - intros i Hi%elem_of_seqZ. rewrite <- (bits_at _ j _ w) by (done || lia). rewrite (cl_tail _ H) by lia. by split.
Qed.

Lemma counted_bound b j : clean b -> 0 <= counted b j < 2 ^ 31.
Proof.
  intros H. pose proof (cl_size _ H). unfold counted, upto. set (l := seqZ 0 (Z.min (14 * j) (bm_size b))). assert (length (filter (fun p => member b p = true) l) <= length l)%nat as Hl by apply length_filter.
  unfold l in Hl at 2. rewrite length_seqZ in Hl. lia.
Qed.

Lemma getCount_spec b : clean b -> Bitmap_getCount b = Some (Z.of_nat (length (elements b))).
Proof.
  intros H. pose proof (cl_size _ H) as Hs. pose proof (size_words b H) as Hw. unfold Bitmap_getCount. rewrite (cl_plain _ H). cbn [negb]. change U64_DIV_BASE with 4. change U64_VALUE_SIZE with 56.
  set (len := dataSize b / 4). assert (0 <= 4 * len <= dataSize b) as Hlen by (unfold len, dataSize; Z.to_euclidean_division_equations; lia). unfold dataSize in Hlen.
  pose proof (fun j w => at_index_Forall _ j w _ (in_u_14_16 _ (cl_words _ H))) as Fd. assert (forall j, u32 (counted b j) = counted b j) as Hu by (intros j; apply u32_small; pose proof (counted_bound b j H); lia).
  edestruct (for_range_inv (fun i count => count = counted b (4 * i)) 0 len) as (count & -> & ->); [lia | unfold counted; by rewrite upto_0 | |].
  - intros i count Hi ->. destruct (at_index64_spec (bm_data b) i) as (w0 & w1 & w2 & w3 & W0 & W1 & W2 & W3 & ->); [lia | lia |]. cbn [mbind option_bind]. rewrite count64_join by eauto. eexists. split; [done |].
    replace (4 * (i + 1)) with (4 * i + 1 + 1 + 1 + 1) by lia. rewrite <- (Hu (4 * i + 1 + 1 + 1 + 1)). f_equal.
    rewrite (counted_word b (4 * i + 1 + 1 + 1) w3), (counted_word b (4 * i + 1 + 1) w2), (counted_word b (4 * i + 1) w1), (counted_word b (4 * i) w0); [lia | done | done | done | done | done | by replace (4 * i + 1 + 1) with (4 * i + 2) by lia | done | by replace (4 * i + 1 + 1 + 1) with (4 * i + 3) by lia].
  - cbn [mbind option_bind].
    edestruct (for_range_inv (fun i acc => fst acc = counted b i /\ (14 * i <= bm_size b -> snd acc = 14 * i)) (len * 4) (dataSize b)) as (acc & -> & Hacc & _); [unfold dataSize; lia | | |].
    + cbn [fst snd]. split; [f_equal; lia |]. intros. rewrite u32_small by lia. lia.
    + intros i [count cur] Hi [Hc Hcur]. cbn [fst snd] in *. subst count. destruct (at_index_Some (bm_data b) i) as [w W]; [unfold dataSize in *; lia |]. rewrite W. cbn [mbind option_bind]. pose proof (counted_word b i w H W) as Hcw.
      assert (14 * i <= bm_size b) as Hi' by lia. rewrite (Hcur Hi'). destruct (Z.eqb_spec w 0) as [-> | Hw0]; cbn [negb].
      * eexists. split; [done |]. cbn [fst snd]. split; [rewrite Hcw; unfold count_bits; rewrite (filter_agree _ (fun _ => False)); [assert (forall l : list Z, filter (fun _ : Z => False) l = []) as -> by (by induction l); cbn; lia | intros q _; by rewrite Z.testbit_0_l] |].
        intros. unfold VALUE_SIZE. rewrite u32_small by lia. lia.
      * rewrite scan_up_spec by lia. change (Z.of_nat 14) with 14. eexists. split; [done |]. cbn [fst snd]. split; [| lia]. rewrite <- (Hu (i + 1)). f_equal. rewrite Hcw. f_equal.
        unfold counted in Hcw. replace (14 * (i + 1)) with (14 * i + 14) in Hcw by lia. rewrite <- upto_app in Hcw by (pose proof (at_index_range _ _ _ W); lia). rewrite length_app in Hcw.
        replace (count_bits w) with (Z.of_nat (length (filter (fun p => member b p = true) (seqZ (14 * i) (Z.min 14 (bm_size b - 14 * i)))))) by lia. do 2 f_equal. apply filter_agree.
        intros p Hp%elem_of_seqZ. unfold member. replace p with (14 * i + (0 + (p - 14 * i))) at 2 by lia. by rewrite (bits_at _ i _ w) by (done || lia).
    + cbn [mbind option_bind]. f_equal. rewrite Hacc. unfold counted. rewrite upto_all by lia. done.
Qed.
