(* ===== verification/BitmapCompress.v ===== *)
(** * Compressed bitmaps

    The words of a compressed bitmap are read as a list of items, words and
    runs of equal words; [compress] writes the items of a plain bitmap and the
    loops over a compressed bitmap visit them in order. *)

From stdpp Require Import base list list_numbers numbers option.
From Stdlib Require Import ZArith Lia.
From S2P Require Import Prelude.
From S2P Require Import Bitmap.
From S2P Require Import BitmapFacts.
From S2P Require Import BitmapIterators.

Local Open Scope Z_scope.

(** ** Digits of a run length *)

(** A word whose bits all have the value [v]. *)
Definition whole (v : bool) : Z := if v then COUNT_MASK else 0.

Definition digit_word (v : bool) (x : Z) : Z := Z.lor (if v then Z.lor COMPRESS_MASK VALUE_MASK else COMPRESS_MASK) x.

Fixpoint digits (fuel : nat) (v : bool) (n : Z) : list Z :=
  match fuel with
  | O => []
  | S fuel => if n =? 0 then [] else digit_word v (n mod 2 ^ 14) :: digits fuel v (n / 2 ^ 14)
  end.

Lemma land_COUNT_MASK n : 0 <= n -> Z.land n COUNT_MASK = n mod 2 ^ 14.
Proof. intros H. change COUNT_MASK with (Z.ones 14). by rewrite Z.land_ones by lia. Qed.

Lemma land_high x k : in_u 14 x -> 14 <= k -> Z.land x (2 ^ k) = 0.
Proof.
  intros Hx Hk. apply Z.bits_inj'. intros i Hi. rewrite Z.land_spec, Z.testbit_0_l, Z.pow2_bits_eqb by lia. destruct (Z.eqb_spec k i) as [<- |]; [| apply andb_false_r].
  by rewrite (in_u_testbit 14 x) by (done || lia).
Qed.

Section DigitWord.

Context (v : bool) (x : Z) (Hx : in_u 14 x).

Lemma digit_is_run : is_run (digit_word v x) = true.
Proof. unfold is_run, digit_word. rewrite Z.land_lor_distr_l. unfold COMPRESS_MASK. rewrite (land_high x 15) by (done || lia). by destruct v. Qed.

Lemma digit_value : run_value (digit_word v x) = v.
Proof. unfold run_value, digit_word. rewrite Z.land_lor_distr_l. unfold VALUE_MASK. rewrite (land_high x 14) by (done || lia). by destruct v. Qed.

Lemma digit_count : Z.land (digit_word v x) COUNT_MASK = x.
Proof. unfold digit_word. destruct Hx. rewrite Z.land_lor_distr_l, (land_COUNT_MASK x), Z.mod_small by lia. by destruct v. Qed.

Lemma digit_in_u : in_u 16 (digit_word v x).
Proof. unfold digit_word. apply bitwise_in_u; [apply _ | lia | by destruct v | unfold in_u in *; lia]. Qed.

End DigitWord.

Lemma word_not_run w : in_u 14 w -> is_run w = false.
Proof. intros H. unfold is_run, COMPRESS_MASK. by rewrite land_high by (done || lia). Qed.

Lemma mod_in_u n : in_u 14 (n mod 2 ^ 14).
Proof. unfold in_u. pose proof (Z.mod_pos_bound n (2 ^ 14)). lia. Qed.

Lemma digits_length fuel v n : 0 <= n -> Z.of_nat (length (digits fuel v n)) <= n.
Proof.
  revert n. induction fuel as [|fuel IH]; intros n Hn; cbn [digits length]; [lia |]. destruct (Z.eqb_spec n 0); cbn [length]; [lia |].
  specialize (IH (n / 2 ^ 14)). Z.to_euclidean_division_equations. lia.
Qed.

Lemma run_digits_length fuel v k : 2 <= k -> Z.of_nat (length (digits fuel v (14 * k))) <= k.
Proof.
  intros Hk. destruct fuel as [|fuel]; cbn [digits length]; [lia |]. destruct (Z.eqb_spec (14 * k) 0); cbn [length]; [lia |].
  pose proof (digits_length fuel v (14 * k / 2 ^ 14)). Z.to_euclidean_division_equations. lia.
Qed.

Lemma emit_digits_spec fuel room v n dst : 0 <= n < 2 ^ (14 * Z.of_nat fuel) -> (length dst + length (digits fuel v n) <= room)%nat ->
  emit_digits fuel room v n dst = Some (dst ++ digits fuel v n).
Proof.
  revert n dst. induction fuel as [|fuel IH]; intros n dst Hn Hr; cbn [emit_digits digits] in *.
  - assert (n = 0) as -> by (change (2 ^ (14 * Z.of_nat 0)) with 1 in Hn; lia). by rewrite Z.eqb_refl, app_nil_r.
  - destruct (Z.eqb_spec n 0); [by rewrite app_nil_r |]. cbn [length] in Hr. unfold emit. destruct (Nat.ltb_spec (length dst) room); [| lia]. cbn [mbind option_bind].
    rewrite land_COUNT_MASK by lia. fold (digit_word v (n mod 2 ^ 14)). assert (u16 (digit_word v (n mod 2 ^ 14)) = digit_word v (n mod 2 ^ 14)) as ->.
    { pose proof (digit_in_u v _ (mod_in_u n)). unfold u16, uwrap, in_u in *. by rewrite Z.mod_small. }
    change VALUE_SIZE with 14. rewrite Z.shiftr_div_pow2, IH by (rewrite ?length_app; cbn [length]; first [lia | split; [apply Z.div_pos; lia | apply Z.div_lt_upper_bound; [lia |]; rewrite <- Z.pow_add_r by lia; replace (14 + 14 * Z.of_nat fuel) with (14 * Z.of_nat (S fuel)) by lia; lia]]).
    by rewrite <- app_assoc.
Qed.

(** What follows a run of value [v] is no digit of it. *)
Definition ends_run (v : bool) (ws : list Z) : Prop := match ws with [] => True | w :: _ => is_run w = true -> run_value w <> v end.

Lemma more_digits_end v k count ws : ends_run v ws -> more_digits v k count ws = Some (count, ws).
Proof. destruct ws as [|w ws]; [done |]. cbn. destruct (is_run w); [| done]. intros H. destruct (Bool.eqb v (run_value w)) eqn:E; [apply Bool.eqb_prop in E; by destruct H | done]. Qed.

Lemma more_digits_spec fuel v k count n ws : ends_run v ws -> 0 <= k -> 0 <= count < 2 ^ (14 * k) -> 0 <= n < 2 ^ (14 * Z.of_nat fuel) -> n * 2 ^ (14 * k) + count < 2 ^ 32 ->
  more_digits v k count (digits fuel v n ++ ws) = Some (n * 2 ^ (14 * k) + count, ws).
Proof.
  intros Hws. revert k count n. induction fuel as [|fuel IH]; intros k count n Hk Hc Hn Hb; cbn [digits].
  - assert (n = 0) as -> by (change (2 ^ (14 * Z.of_nat 0)) with 1 in Hn; lia). by apply more_digits_end.
  - destruct (Z.eqb_spec n 0) as [-> |]; [by apply more_digits_end |]. cbn [app more_digits]. pose proof (mod_in_u n) as Hm. rewrite digit_is_run, digit_value, digit_count, Bool.eqb_reflx by done. cbn [andb].
    change VALUE_SIZE with 14. assert (2 ^ (14 * k) < 2 ^ 32) as H32 by nia. apply Z.pow_lt_mono_r_iff in H32; [| lia | lia]. destruct (Z.leb_spec 32 (14 * k)); [lia |].
    set (p := 2 ^ (14 * k)) in *. assert (0 < p) as Hp by (apply Z.pow_pos_nonneg; lia). pose proof (Z.div_mod n (2 ^ 14) ltac:(lia)) as Edm. pose proof (Z.div_pos n (2 ^ 14) ltac:(lia) ltac:(lia)) as Hq. unfold in_u in Hm.
    rewrite Z.shiftl_mul_pow2 by lia. fold p. rewrite u32_small by nia. unfold p at 1. rewrite lor_add by (done || lia). fold p.
    assert (2 ^ (14 * (k + 1)) = 2 ^ 14 * p) as Ep by (unfold p; rewrite <- Z.pow_add_r by lia; f_equal; lia).
    rewrite IH; rewrite ?Ep; [f_equal; f_equal; nia | lia | nia | | nia]. split; [done |]. apply Z.div_lt_upper_bound; [lia |]. rewrite <- Z.pow_add_r by lia. replace (14 + 14 * Z.of_nat fuel) with (14 * Z.of_nat (S fuel)) by lia. lia.
Qed.

(** ** Items *)

Inductive item :=
| Word (w : Z)
| Run (v : bool) (k : Z).

Definition item_ok (it : item) : Prop := match it with Word w => in_u 14 w | Run v k => 2 <= k /\ 14 * k < 2 ^ 32 end.
Definition item_words (it : item) : list Z := match it with Word w => [w] | Run v k => replicate (Z.to_nat k) (whole v) end.
Definition item_code (it : item) : list Z := match it with Word w => [w] | Run v k => digits 5 v (14 * k) end.

Definition words (its : list item) : list Z := its ≫= item_words.
Definition codes (its : list item) : list Z := its ≫= item_code.

(** The item is no run of [v]. *)
Definition no_run (v : bool) (it : item) : Prop := match it with Word _ => True | Run v' _ => v' <> v end.

(** Two runs in sequence have different values. *)
Fixpoint separate (its : list item) : Prop :=
  match its with
  | [] => True
  | it :: its => match it, its with Run v _, it' :: _ => no_run v it' | _, _ => True end /\ separate its
  end.

Record items_ok (its : list item) : Prop := { io_items : Forall item_ok its; io_separate : separate its }.

Lemma items_ok_cons it its : items_ok (it :: its) -> item_ok it /\ items_ok its.
Proof. intros [H1 H2]. apply Forall_cons_1 in H1. destruct H1, H2. by repeat split. Qed.

Lemma separate_snoc its it : separate its -> match it with Run v _ => match list.last its with Some it' => no_run v it' | None => True end | Word _ => True end -> separate (its ++ [it]).
Proof.
  induction its as [|x its IH]; intros Hs Hl; [by destruct it |]. destruct Hs as [Hx Hs]. cbn [app separate]. split.
  - destruct its as [|y its]; cbn [app]; [| by destruct x]. destruct x as [|v k]; [done |]. destruct it as [|v' k']; [done |]. cbn in *. congruence.
  - apply IH; [done |]. destruct it; [done |]. destruct its; [done |]. exact Hl.
Qed.

Lemma run_words_length v k : 0 <= k -> Z.of_nat (length (item_words (Run v k))) = k.
Proof. intros H. cbn. rewrite length_replicate. lia. Qed.

Lemma run_code v k : 2 <= k -> digits 5 v (14 * k) = digit_word v (14 * k mod 2 ^ 14) :: digits 4 v (14 * k / 2 ^ 14).
Proof. intros H. cbn [digits]. destruct (Z.eqb_spec (14 * k) 0); [lia | done]. Qed.

Lemma codes_ends v its : items_ok its -> match its with it :: _ => no_run v it | [] => True end -> ends_run v (codes its).
Proof.
  intros H Hn. destruct its as [|[w | v' k] its]; [done | |]; apply items_ok_cons in H; destruct H as [H _]; cbn [codes mbind list_bind item_code].
  - cbn. by rewrite word_not_run.
  - destruct H. rewrite run_code by done. cbn. rewrite digit_value by apply mod_in_u. done.
Qed.

Lemma item_codes_length it : item_ok it -> (length (item_code it) <= length (item_words it))%nat.
Proof. destruct it as [w | v k]; [done |]. intros [H1 H2]. pose proof (run_digits_length 5 v k H1). pose proof (run_words_length v k ltac:(lia)). cbn [item_code]. lia. Qed.

Lemma codes_length its : Forall item_ok its -> (length (codes its) <= length (words its))%nat.
Proof.
  induction 1 as [|it its H _ IH]; [done |]. unfold codes, words in *. rewrite !bind_cons, !length_app. pose proof (item_codes_length it H). lia.
Qed.

(** ** Reading *)

Section Walk.

Context {A : Type} (on_run : Z -> Z -> bool -> A -> option (A * bool)) (on_word : Z -> Z -> A -> option (A * bool)).

(** The items in order, each with the index of its first word. *)
Fixpoint walk (its : list item) (j : Z) (a : A) : option A :=
  match its with
  | [] => Some a
  | Word w :: its => '(a, go) ← on_word (14 * j) w a; if go : bool then walk its (j + 1) a else Some a
  | Run v k :: its => '(a, go) ← on_run (14 * j) (14 * k) v a; if go : bool then walk its (j + k) a else Some a
  end.

Lemma decode_walk its j a fuel : items_ok its -> 0 <= j -> 14 * (j + Z.of_nat (length (words its))) < 2 ^ 32 -> (length (codes its) <= fuel)%nat ->
  decode fuel on_run on_word (codes its) (14 * j) a = walk its j a.
Proof.
  revert j a fuel. induction its as [|it its IH]; intros j a fuel Hok Hj Hb Hf; [by destruct fuel |]. pose proof (items_ok_cons _ _ Hok) as [Hit Hits].
  unfold codes, words in Hb, Hf. rewrite bind_cons, length_app in Hb, Hf. fold (codes its) in Hf. fold (words its) in Hb. unfold codes. rewrite bind_cons. fold (codes its). destruct it as [w | v k].
  - cbn [item_ok item_code item_words length] in *. destruct fuel as [|fuel]; [lia |]. cbn [decode app walk]. rewrite word_not_run, land_COUNT_MASK, Z.mod_small by (done || apply Hit).
    destruct (on_word (14 * j) w a) as [[a' []] |]; [| done..]. cbn [mbind option_bind]. rewrite u32_small by (unfold VALUE_SIZE; lia). replace (14 * j + VALUE_SIZE) with (14 * (j + 1)) by (unfold VALUE_SIZE; lia). apply IH; (done || lia).
  - destruct Hit as [Hk1 Hk2]. pose proof (run_words_length v k ltac:(lia)) as Hl. assert (ends_run v (codes its)) as He by (apply codes_ends; [done | by destruct Hok as [_ [Hs _]]; destruct its]).
    cbn [item_code] in *. rewrite run_code in Hf |- * by lia. cbn [length] in Hf. destruct fuel as [|fuel]; [lia |]. cbn [decode app walk]. pose proof (mod_in_u (14 * k)) as Hm. rewrite digit_is_run, digit_value, digit_count by done.
    rewrite more_digits_spec; [| done | lia | unfold in_u in Hm; lia | split; [apply Z.div_pos; lia | apply Z.div_lt_upper_bound; lia] | Z.to_euclidean_division_equations; lia]. cbn [mbind option_bind].
    replace (14 * k / 2 ^ 14 * 2 ^ (14 * 1) + (14 * k) mod 2 ^ 14) with (14 * k) by (Z.to_euclidean_division_equations; lia).
    destruct (on_run (14 * j) (14 * k) v a) as [[a' []] |]; [| done..]. cbn [mbind option_bind]. rewrite u32_small by lia. replace (14 * j + 14 * k) with (14 * (j + k)) by lia. apply IH; (done || lia).
Qed.

Lemma decode_all_walk its a : items_ok its -> 14 * Z.of_nat (length (words its)) < 2 ^ 32 -> decode_all on_run on_word (codes its) a = walk its 0 a.
Proof. intros H Hl. unfold decode_all. change 0 with (14 * 0) at 1. by apply decode_walk; [| lia | lia |]. Qed.

End Walk.

(** ** Writing *)

(** The run collected so far. *)
Definition flush (v : bool) (k : Z) : list item := if 1 <? k then [Run v k] else if k =? 0 then [] else [Word (whole v)].

Lemma whole_in_u v : in_u 14 (whole v).
Proof. destruct v; split; vm_compute; (done || congruence). Qed.

Lemma words_flush v k : 0 <= k -> words (flush v k) = replicate (Z.to_nat k) (whole v).
Proof.
  intros H. unfold flush. destruct (Z.ltb_spec 1 k); [apply app_nil_r |]. destruct (Z.eqb_spec k 0) as [-> |]; [done |]. by replace k with 1 by lia.
Qed.

Lemma emit_run_spec room v k dst : 0 <= k -> 14 * k < 2 ^ 32 -> (length dst + Z.to_nat k <= room)%nat -> emit_run room v (14 * k) dst = Some (dst ++ codes (flush v k)).
Proof.
  intros Hk Hb Hr. unfold emit_run, flush, VALUE_SIZE. rewrite (Z.mul_comm 14 k), Z.div_mul by lia. destruct (Z.ltb_spec 1 k).
  - rewrite Z.mul_comm, emit_digits_spec; [cbn; by rewrite app_nil_r | lia |]. pose proof (run_digits_length 5 v k ltac:(lia)). lia.
  - destruct (Z.eqb_spec (k * 14) 0), (Z.eqb_spec k 0); try lia; cbn [negb]; [by rewrite app_nil_r |]. unfold emit. destruct (Nat.ltb_spec (length dst) room); [| lia]. by destruct v.
Qed.

(** [its] written, and then [k] words of [v]. *)
Record pending (its : list item) (v : bool) (k : Z) : Prop := {
  pe_ok : items_ok its;
  pe_last : match list.last its with Some (Run v' _) => v' <> v /\ 0 < k | _ => True end;
}.

Lemma flush_ok its v k : pending its v k -> 0 <= k -> 14 * k < 2 ^ 32 -> items_ok (its ++ flush v k).
Proof.
  intros [[H1 H2] H3] Hk Hb. unfold flush. destruct (Z.ltb_spec 1 k); [| destruct (Z.eqb_spec k 0); [by rewrite app_nil_r |]]; (split; [apply Forall_app; split; [done |]; apply Forall_singleton | apply separate_snoc; [done |]]).
  - cbn. lia.
  - destruct (list.last its) as [[] |]; [done | apply H3 | done].
  - apply whole_in_u.
  - done.
Qed.

Lemma filter_never {A} (P : A -> Prop) `{!forall x, Decision (P x)} (l : list A) : length (filter P l) = 0%nat -> Forall (fun x => ~ P x) l.
Proof. induction l as [|x l IH]; [done |]. rewrite filter_cons. destruct (decide (P x)); cbn; [done |]. intros E. by constructor; [| apply IH]. Qed.

Lemma filter_full {A} (P : A -> Prop) `{!forall x, Decision (P x)} (l : list A) : length (filter P l) = length l -> Forall P l.
Proof.
  induction l as [|x l IH]; [done |]. rewrite filter_cons. pose proof (length_filter P l) as Hl. destruct (decide (P x)); cbn [length]; intros E; [constructor; [done |]; apply IH; lia | lia].
Qed.

Lemma count_whole w v : in_u 14 w -> count_bits w = (if v : bool then 14 else 0) <-> w = whole v.
Proof.
  intros Hw. split; [| intros ->; by destruct v]. rewrite (count_bits_in w 14) by (done || lia). unfold count_in. intros H. apply Z.bits_inj'. intros i Hi.
  assert (Z.testbit (whole v) i = v && (i <? 14)) as -> by (destruct v; [apply (Z.testbit_ones_nonneg 14); lia | apply Z.testbit_0_l]).
  destruct (Z.ltb_spec i 14); [| by rewrite (in_u_testbit 14 w), andb_false_r by (done || lia)]. rewrite andb_true_r. destruct v.
  - assert (length (filter (fun i => Z.testbit w i = true) (seqZ 0 14)) = length (seqZ 0 14)) as Hf%filter_full by (rewrite length_seqZ; lia). rewrite list.Forall_forall in Hf. apply Hf. apply elem_of_seqZ. lia.
  - assert (length (filter (fun i => Z.testbit w i = true) (seqZ 0 14)) = 0%nat) as Hf%filter_never by lia. rewrite list.Forall_forall in Hf. apply not_true_is_false, Hf. apply elem_of_seqZ. lia.
Qed.

Lemma words_app its its' : words (its ++ its') = words its ++ words its'.
Proof. apply bind_app. Qed.

Lemma codes_app its its' : codes (its ++ its') = codes its ++ codes its'.
Proof. apply bind_app. Qed.

Lemma flushed_length its v k : 0 <= k -> 14 * k < 2 ^ 32 -> (length (codes (its ++ flush v k)) <= length (codes its) + Z.to_nat k)%nat.
Proof.
  intros Hk Hb. rewrite codes_app, length_app. assert (length (codes (flush v k)) <= length (words (flush v k)))%nat as Hl by (apply codes_length; apply (flush_ok [] v k); [split; [split; [done | exact I] | exact I] | done | done]).
  rewrite words_flush, length_replicate in Hl by done. lia.
Qed.

(** After [emit_run], a run of the other value starts, or a word follows. *)
Lemma flushed_run its v k : pending its v k -> 0 <= k -> 14 * k < 2 ^ 32 -> pending (its ++ flush v k) (negb v) 1.
Proof.
  intros Hp Hk Hb. split; [by apply flush_ok |]. unfold flush. destruct (Z.ltb_spec 1 k); [rewrite last_snoc; by destruct v |]. destruct (Z.eqb_spec k 0) as [-> |]; [| by rewrite last_snoc].
  rewrite app_nil_r. pose proof (pe_last _ _ _ Hp) as Hl. destruct (list.last its) as [[] |]; [done | lia | done].
Qed.

Lemma flushed_word its v v' k w : pending its v k -> 0 <= k -> 14 * k < 2 ^ 32 -> in_u 14 w -> pending ((its ++ flush v k) ++ [Word w]) v' 0.
Proof.
  intros Hp Hk Hb Hw. pose proof (flush_ok its v k Hp Hk Hb) as [H1 H2]. split; [| by rewrite last_snoc]. split; [apply Forall_app; split; [done | by apply Forall_singleton] | by apply separate_snoc].
Qed.

Lemma compress_loop_spec room ws its v k : Forall (in_u 14) ws -> pending its v k -> 0 <= k -> 14 * (k + Z.of_nat (length ws)) < 2 ^ 32 -> (length (codes its) + Z.to_nat k + length ws <= room)%nat ->
  exists its' v' k', compress_loop room ws v (14 * k) (codes its) = Some (v', 14 * k', codes its') /\ pending its' v' k' /\ 0 <= k' /\ 14 * k' < 2 ^ 32 /\
    words (its' ++ flush v' k') = words (its ++ flush v k) ++ ws /\ (length (codes its') + Z.to_nat k' <= room)%nat.
Proof.
  intros Hws. revert its v k. induction Hws as [|w ws Hw Hws IH]; intros its v k Hp Hk Hb Hr; cbn [compress_loop length] in *.
  - exists its, v, k. rewrite app_nil_r. split_and!; (done || lia).
  - rewrite land_COUNT_MASK, Z.mod_small by apply Hw. change VALUE_SIZE with 14. pose proof (count_whole w false Hw) as Cf. pose proof (count_whole w true Hw) as Ct. cbn [whole] in Cf, Ct.
    assert (forall v', words (its ++ flush v k) ++ whole v' :: ws = words ((its ++ flush v k) ++ flush v' 1) ++ ws) as Happ by (intros v'; by rewrite (words_app (its ++ flush v k) (flush v' 1)), <- app_assoc).
    assert (words (its ++ flush v k) ++ [whole v] = words (its ++ flush v (k + 1))) as Hsame.
    { rewrite !words_app, !words_flush, <- app_assoc by lia. f_equal. replace (Z.to_nat (k + 1)) with (Z.to_nat k + 1)%nat by lia. by rewrite replicate_add. }
    pose proof (flushed_length its v k Hk ltac:(lia)) as Hfl. destruct (decide (w = whole v)) as [-> | Hnv].
    + rewrite (proj2 (count_whole (whole v) v (whole_in_u v)) eq_refl). assert (((if v then 14 else 0) =? 0) && negb v || ((if v then 14 else 0) =? 14) && v = true) as -> by (by destruct v).
      assert (u64 (14 * k + 14) = 14 * (k + 1)) as -> by (unfold u64, uwrap; rewrite Z.mod_small by lia; lia). destruct (IH its v (k + 1)) as (its' & v' & k' & -> & Hp' & Hk' & Hb' & E & Hr'); [| lia..|].
      * destruct Hp as [Hok Hl]. split; [done |]. destruct (list.last its) as [[] |]; [done | split; [apply Hl | lia] | done].
      * exists its', v', k'. split; [done |]. rewrite E, <- Hsame, <- app_assoc. split_and!; (done || lia).
    + assert ((count_bits w =? 0) && negb v || (count_bits w =? 14) && v = false) as ->.
      { destruct v; cbn [negb whole] in *; destruct (Z.eqb_spec (count_bits w) 0), (Z.eqb_spec (count_bits w) 14); try done; [tauto.. |]; tauto. }
      rewrite (Z.mul_comm 14 k), Z.div_mul, Z.mod_mul, (Z.mul_comm k 14) by lia. rewrite andb_false_r. rewrite emit_run_spec, <- codes_app by lia. cbn [mbind option_bind]. destruct (decide (w = whole (negb v))) as [-> | Hnn].
      * rewrite (proj2 (count_whole (whole (negb v)) (negb v) (whole_in_u _)) eq_refl). assert (((if negb v then 14 else 0) =? 0) || ((if negb v then 14 else 0) =? 14) = true) as -> by (by destruct v).
        assert (((if negb v then 14 else 0) =? 14) = negb v) as -> by (by destruct v). change 14 with (14 * 1) at 1. destruct (IH (its ++ flush v k) (negb v) 1) as (its' & v' & k' & -> & Hp' & Hk' & Hb' & E & Hr'); [apply flushed_run; (done || lia) | lia..|].
        exists its', v', k'. split; [done |]. rewrite E, <- Happ. split_and!; (done || lia).
      * assert ((count_bits w =? 0) || (count_bits w =? 14) = false) as ->.
        { destruct v; cbn [negb whole] in *; destruct (Z.eqb_spec (count_bits w) 0), (Z.eqb_spec (count_bits w) 14); tauto. }
        unfold emit. destruct (Nat.ltb_spec (length (codes (its ++ flush v k))) room); [| lia]. cbn [mbind option_bind]. assert (u16 w = w) as -> by (unfold u16, uwrap, in_u in *; by rewrite Z.mod_small by lia).
        destruct (IH ((its ++ flush v k) ++ [Word w]) v 0) as (its' & v' & k' & E0 & Hp' & Hk' & Hb' & E & Hr'); [apply flushed_word; (done || lia) | lia | lia | rewrite codes_app, length_app; cbn [length codes mbind list_bind item_code app]; lia |].
        rewrite codes_app in E0. exists its', v', k'. split; [exact E0 |]. rewrite E. split_and!; [done | done | lia | | lia]. unfold flush at 1. rewrite app_nil_r, (words_app _ [Word w]), <- app_assoc. done.
Qed.

Lemma compress_spec b : clean b -> exists its, items_ok its /\ words its = bm_data b /\ Bitmap_compress b = Some (mk_Bitmap true (bm_size b) (codes its) false).
Proof.
  intros H. pose proof (size_words b H) as Hs. pose proof (cl_size _ H). unfold Bitmap_compress. rewrite (cl_plain _ H).
  destruct (compress_loop_spec (length (bm_data b)) (bm_data b) [] false 0) as (its & v & k & E & Hp & Hk & Hb & Hw & Hr); [apply H | by repeat split | lia | unfold dataSize in Hs; lia | cbn; lia |].
  change (14 * 0) with 0 in E. change (codes []) with (@nil Z) in E. rewrite E. cbn [mbind option_bind]. exists (its ++ flush v k). split; [by apply flush_ok |]. split; [done |]. rewrite codes_app.
  destruct (Z.ltb_spec 0 (14 * k)); [by rewrite emit_run_spec by lia |]. replace k with 0 by lia. cbn. by rewrite app_nil_r.
Qed.

(** ** Operations between a plain and a compressed bitmap *)


Lemma div_14 j : 14 * j / VALUE_SIZE = j.
Proof. unfold VALUE_SIZE. rewrite Z.mul_comm. apply Z.div_mul. lia. Qed.

Lemma mod_14 j : 14 * j mod VALUE_SIZE = 0.
Proof. unfold VALUE_SIZE. rewrite Z.mul_comm. apply Z.mod_mul. lia. Qed.

Lemma set_range_spec j k v d : 0 <= j -> 0 < k -> j + k <= Z.of_nat (length d) -> 14 * (j + k) < 2 ^ 32 ->
  exists d', set_range (14 * j) (14 * k) v d = Some d' /\ length d' = length d /\ forall i, at_index d' i = if (j <=? i) && (i <? j + k) then Some (whole v) else at_index d i.
Proof.
  intros Hj Hk Hl Hb. unfold set_range. destruct (Z.eqb_spec (14 * k) 0); [lia |]. replace (14 * j + 14 * k) with (14 * (j + k)) by lia. rewrite u32_small, !mod_14, !div_14 by lia. cbn [andb Z.eqb].
  edestruct (for_range_inv (fun m d' => length d' = length d /\ forall i, at_index d' i = if (j <=? i) && (i <? m) then Some (whole v) else at_index d i) j (j + k)) as (d' & -> & Hl' & Hd'); [lia | | | by exists d'].
  - split; [done |]. intros i. destruct (Z.leb_spec j i), (Z.ltb_spec i j); (done || lia).
  - intros m d' Hm [Hl' Hd']. rewrite store_spec by lia. eexists. split; [done |]. split; [by rewrite length_insert |]. intros i. rewrite at_index_insert, Hd' by lia.
    destruct (Z.eqb_spec i m) as [-> |]; [destruct (Z.leb_spec j m), (Z.ltb_spec m (m + 1)); (done || lia) |]. destruct (Z.leb_spec j i), (Z.ltb_spec i m), (Z.ltb_spec i (m + 1)); (done || lia).
Qed.

Lemma get_loop_spec n i d : 0 <= i -> i + Z.of_nat n <= Z.of_nat (length d) -> Forall (in_u 14) d ->
  exists r, get_loop n i true d = Some r /\ (r = true <-> exists j x, i <= j < i + Z.of_nat n /\ at_index d j = Some x /\ x <> 0).
Proof.
  intros Hi Hn Hd. revert i Hi Hn. induction n as [|n IH]; intros i Hi Hn; cbn [get_loop].
  - exists false. split; [done |]. split; [done |]. intros (j & x & ? & _). lia.
  - destruct (at_index_Some d i) as [w W]; [lia |]. rewrite W. cbn [mbind option_bind]. pose proof (at_index_Forall _ _ _ _ Hd W) as Hw. rewrite land_COUNT_MASK, Z.mod_small by apply Hw. destruct (Z.eqb_spec w 0) as [-> |]; cbn [negb Bool.eqb].
    + destruct (IH (i + 1)) as (r & -> & Hr); [lia | lia |]. exists r. split; [done |]. rewrite Hr. split; intros (j & x & Hj & E & Hx); exists j, x; split_and!; try done; try lia. destruct (decide (j = i)); [congruence | lia].
    + exists true. split; [done |]. split; [| done]. intros _. exists i, w. split_and!; (done || lia).
Qed.

Lemma get_range_spec j k d : 0 <= j -> 0 < k -> j + k <= Z.of_nat (length d) -> 14 * (j + k) < 2 ^ 32 -> Forall (in_u 14) d ->
  exists r, get_range (14 * j) (14 * k) true d = Some r /\ (r = true <-> exists i x, j <= i < j + k /\ at_index d i = Some x /\ x <> 0).
Proof.
  intros Hj Hk Hl Hb Hd. unfold get_range. destruct (Z.eqb_spec (14 * k) 0); [lia |]. replace (14 * j + 14 * k) with (14 * (j + k)) by lia. rewrite u32_small, !mod_14, !div_14 by lia. cbn [andb Z.eqb].
  destruct (get_loop_spec (Z.to_nat (j + k - j)) j d) as (r & -> & Hr); [lia | lia | done |]. exists r. split; [done |]. rewrite Hr. replace (j + Z.of_nat (Z.to_nat (j + k - j))) with (j + k) by lia. done.
Qed.

(** ** Combining word by word *)

Lemma drop_run (l : list Z) j n (w : Z) tl i : 0 <= j -> drop (Z.to_nat j) l = replicate n w ++ tl -> j <= i < j + Z.of_nat n -> at_index l i = Some w.
Proof.
  intros Hj Hd Hi. rewrite at_index_lookup by lia. replace (Z.to_nat i) with (Z.to_nat j + Z.to_nat (i - j))%nat by lia. rewrite <- lookup_drop, Hd, lookup_app_l by (rewrite length_replicate; lia). apply lookup_replicate. lia.
Qed.

Lemma drop_more (l : list Z) j n (w : Z) tl : 0 <= j -> drop (Z.to_nat j) l = replicate n w ++ tl -> drop (Z.to_nat (j + Z.of_nat n)) l = tl.
Proof.
  intros Hj Hd. replace (Z.to_nat (j + Z.of_nat n)) with (Z.to_nat j + n)%nat by lia. rewrite <- drop_drop, Hd. apply drop_app_length'. by rewrite length_replicate.
Qed.

Section Combine.

Context (op : Z -> Z -> Z) (on_run : Z -> Z -> bool -> list Z -> option (list Z * bool)) (on_word : Z -> Z -> list Z -> option (list Z * bool)).
Context (d0 ws : list Z) (Hlen : length ws = length d0) (Hsize : 14 * Z.of_nat (length d0) < 2 ^ 32).

Hypothesis on_word_spec : forall j w d, 0 <= j < Z.of_nat (length d0) -> in_u 14 w -> mixed (zip_with op d0 ws) d0 j d ->
  exists x, at_index d0 j = Some x /\ on_word (14 * j) w d = Some (<[Z.to_nat j := op x w]> d, true).

Hypothesis on_run_spec : forall j k v d, 0 <= j -> 0 < k -> j + k <= Z.of_nat (length d0) -> mixed (zip_with op d0 ws) d0 j d ->
  exists d', on_run (14 * j) (14 * k) v d = Some (d', true) /\ length d' = length d /\
    forall i, at_index d' i = if (j <=? i) && (i <? j + k) then x ← at_index d0 i; Some (op x (whole v)) else at_index d i.

Lemma walk_combine its j d : items_ok its -> 0 <= j -> drop (Z.to_nat j) ws = words its -> mixed (zip_with op d0 ws) d0 j d -> walk on_run on_word its j d = Some (zip_with op d0 ws).
Proof.
  revert j d. induction its as [|it its IH]; intros j d Hok Hj Hw Hm; cbn [walk].
  - f_equal. apply (mixed_end _ d0); [rewrite length_zip_with; lia |]. destruct Hm as [Hl Hm]. split; [done |]. intros i. rewrite Hm. apply (f_equal length) in Hw. rewrite length_drop in Hw. cbn in Hw.
    destruct (Z.ltb_spec i j), (Z.ltb_spec i (Z.of_nat (length d0))); [done | | lia |]; rewrite !at_index_lookup by lia; rewrite !lookup_ge_None_2 by (rewrite ?length_zip_with; lia); done.
  - apply items_ok_cons in Hok as [Hit Hok]. unfold words in Hw. rewrite bind_cons in Hw. fold (words its) in Hw. pose proof (f_equal length Hw) as Hl. rewrite length_drop, length_app in Hl. destruct it as [w | v k].
    + cbn [item_words length] in *. destruct (on_word_spec j w d) as (x & X & ->); [lia | done | done |]. cbn [mbind option_bind]. pose proof (drop_run ws j 1 w _ j Hj Hw ltac:(lia)) as W. pose proof (drop_more ws j 1 w _ Hj Hw) as Hw'.
      apply IH; [done | lia | done |]. pose proof (proj1 Hm). apply (mixed_step _ _ _ _ d); [done | lia | by rewrite length_insert |]. intros i. rewrite at_index_insert by lia. destruct (Z.eqb_spec i j) as [-> |].
      * rewrite (proj2 (Z.leb_le j j)), (proj2 (Z.ltb_lt j (j + 1))) by lia. cbn [andb]. symmetry. by apply at_index_zip.
      * destruct (Z.leb_spec j i), (Z.ltb_spec i (j + 1)); (done || lia).
    + destruct Hit as [Hk1 Hk2]. cbn [item_words] in *. rewrite length_replicate in Hl. destruct (on_run_spec j k v d) as (d' & -> & Hl' & Hd'); [lia.. | done |]. cbn [mbind option_bind]. pose proof (fun i => drop_run ws j _ _ _ i Hj Hw) as W.
      pose proof (drop_more ws j _ _ _ Hj Hw) as Hw'. rewrite Z2Nat.id in W, Hw' by lia. apply IH; [done | lia | done |]. apply (mixed_step _ _ _ _ d); [done | lia | done |]. intros i. rewrite Hd'.
      destruct (Z.leb_spec j i), (Z.ltb_spec i (j + k)); cbn [andb]; [| done..]. destruct (at_index_Some d0 i) as [x X]; [lia |]. rewrite X. cbn [mbind option_bind]. symmetry. apply at_index_zip; [done |]. by apply W.
Qed.

Lemma decode_combine its : items_ok its -> words its = ws -> decode_all on_run on_word (codes its) d0 = Some (zip_with op d0 ws).
Proof.
  intros Hok Hw. rewrite decode_all_walk; [| done | rewrite Hw, Hlen; lia]. apply walk_combine; [done | lia | done | apply mixed_start].
Qed.

End Combine.

Lemma mixed_at e d j d' : mixed e d j d' -> at_index d' j = at_index d j.
Proof. intros H. apply (mixed_rest e d j); [done | lia]. Qed.

Lemma uncompress_spec size its : items_ok its -> 0 <= size < 2 ^ 31 -> Z.of_nat (length (words its)) = words_for size ->
  Bitmap_uncompress (mk_Bitmap true size (codes its) false) = Some (mk_Bitmap false size (words its) (bool_decide (length (words its) = 0%nat))).
Proof.
  intros Hok Hs Hl. pose proof (words_for_spec size ltac:(lia)) as Hw. unfold Bitmap_uncompress, new_Bitmap. cbn [negb bm_compress bm_size bm_data].
  set (d0 := replicate (Z.to_nat (words_for size)) (0 + 256 * 0)). assert (length (words its) = length d0) as Hd by (unfold d0; rewrite length_replicate; lia).
  rewrite (decode_combine (fun _ w => w) _ _ d0 (words its)); [| done | lia | | | done | done].
  - cbn [mbind option_bind]. f_equal. unfold put_data. cbn. f_equal; [| by rewrite <- Hl, Nat2Z.id]. apply list_eq. intros i. rewrite lookup_zip_with. destruct (words its !! i) as [w |] eqn:E; [| by destruct (d0 !! i)].
    pose proof (lookup_lt_Some _ _ _ E). destruct (lookup_lt_is_Some_2 d0 i) as [x ->]; [lia | done].
  - intros j w d Hj _ Hm. destruct (at_index_Some d0 j Hj) as [x X]. exists x. split; [done |]. pose proof (proj1 Hm). rewrite div_14, (mixed_at _ _ _ _ Hm), X. cbn [mbind option_bind]. by rewrite store_spec by lia.
  - intros j k v d Hj Hk Hjk Hm. pose proof (proj1 Hm). destruct (set_range_spec j k v d) as (d' & -> & Hl' & Hd'); [lia..|]. exists d'. split; [done |]. split; [done |]. intros i. rewrite Hd'.
    destruct (Z.leb_spec j i), (Z.ltb_spec i (j + k)); cbn [andb]; try done. by destruct (at_index_Some d0 i) as [x ->]; [lia |].
Qed.

(** ** [&=], [|=] and [cross] with a compressed bitmap *)

Section Compressed.

Context (b c : Bitmap) (its : list item).
Context (Hb : clean b) (Hc : clean c) (Hsz : bm_size c = bm_size b) (Hok : items_ok its) (Hw : words its = bm_data c).

Let c' := mk_Bitmap true (bm_size c) (codes its) false.

Lemma data_small : 14 * Z.of_nat (length (bm_data b)) < 2 ^ 32.
Proof. pose proof (size_words b Hb) as Hs. pose proof (cl_size _ Hb). unfold dataSize in Hs. lia. Qed.

Lemma run_kept (op : Z -> Z -> Z) v j k d e : mixed e (bm_data b) j d -> (forall x, in_u 14 x -> op x (whole v) = x) -> 0 <= j ->
  exists d', go (Some d) = Some (d', true) /\ length d' = length d /\
    forall i, at_index d' i = if (j <=? i) && (i <? j + k) then x ← at_index (bm_data b) i; Some (op x (whole v)) else at_index d i.
Proof.
  intros Hm Hop Hj. exists d. split; [done |]. split; [done |]. intros i. destruct (Z.leb_spec j i), (Z.ltb_spec i (j + k)); cbn [andb]; try done.
  rewrite (mixed_rest _ _ _ _ _ Hm) by lia. destruct (at_index (bm_data b) i) as [x |] eqn:X; [| done]. cbn [mbind option_bind]. by rewrite Hop by exact (at_index_Forall _ _ _ _ (cl_words _ Hb) X).
Qed.

Lemma run_set (op : Z -> Z -> Z) v j k d e : mixed e (bm_data b) j d -> (forall x, in_u 14 x -> op x (whole v) = whole v) -> 0 <= j -> 0 < k -> j + k <= Z.of_nat (length (bm_data b)) ->
  exists d', go (set_range (14 * j) (14 * k) v d) = Some (d', true) /\ length d' = length d /\
    forall i, at_index d' i = if (j <=? i) && (i <? j + k) then x ← at_index (bm_data b) i; Some (op x (whole v)) else at_index d i.
Proof.
  intros Hm Hop Hj Hk Hjk. pose proof (proj1 Hm). pose proof data_small. destruct (set_range_spec j k v d) as (d' & -> & Hl & Hd); [lia..|]. exists d'. split; [done |]. split; [done |]. intros i. rewrite Hd.
  destruct (Z.leb_spec j i), (Z.ltb_spec i (j + k)); cbn [andb]; try done. destruct (at_index_Some (bm_data b) i) as [x X]; [lia |]. rewrite X. cbn [mbind option_bind]. by rewrite Hop by exact (at_index_Forall _ _ _ _ (cl_words _ Hb) X).
Qed.

Lemma word_set (op : Z -> Z -> Z) j w d e : mixed e (bm_data b) j d -> 0 <= j < Z.of_nat (length (bm_data b)) ->
  exists x, at_index (bm_data b) j = Some x /\ go (x ← at_index d (14 * j / VALUE_SIZE); store (14 * j / VALUE_SIZE) (op x w) d) = Some (<[Z.to_nat j := op x w]> d, true).
Proof.
  intros Hm Hj. destruct (at_index_Some (bm_data b) j Hj) as [x X]. exists x. split; [done |]. pose proof (proj1 Hm). rewrite div_14, (mixed_at _ _ _ _ Hm), X. cbn [mbind option_bind]. by rewrite store_spec by lia.
Qed.

Lemma land_whole x : in_u 14 x -> Z.land x COUNT_MASK = x.
Proof. intros Hx. rewrite land_COUNT_MASK, Z.mod_small by apply Hx. done. Qed.

Lemma lor_whole x : in_u 14 x -> Z.lor x COUNT_MASK = COUNT_MASK.
Proof.
  intros Hx. apply Z.bits_inj'. intros i Hi. rewrite Z.lor_spec. change COUNT_MASK with (Z.ones 14). destruct (decide (i < 14)); [rewrite Z.ones_spec_low by lia; apply orb_true_r |]. by rewrite (in_u_testbit 14 x) by (done || lia).
Qed.

Lemma and_compressed : Bitmap_and_assign c' b = Bitmap_and_assign c b.
Proof.
  unfold Bitmap_and_assign, c'. cbn [bm_size bm_compress bm_data]. rewrite (cl_plain _ Hb), (cl_plain _ Hc), Hsz, Z.eqb_refl. cbn [negb andb Bool.eqb]. rewrite (combine_clean Z.land b c Hb Hc Hsz).
  rewrite (decode_combine Z.land _ _ (bm_data b) (bm_data c)); [done | by apply same_length | apply data_small | | | done | done].
  - intros j w d Hj _ Hm. by eapply word_set.
  - intros j k [] d Hj Hk Hjk Hm; [eapply run_kept; [done | apply land_whole | done] | eapply run_set; try done; intros; apply Z.land_0_r].
Qed.

Lemma or_compressed : Bitmap_or_assign c' b = Bitmap_or_assign c b.
Proof.
  unfold Bitmap_or_assign, c'. cbn [bm_size bm_compress bm_data]. rewrite (cl_plain _ Hb), (cl_plain _ Hc), Hsz, Z.eqb_refl. cbn [negb andb Bool.eqb]. rewrite (combine_clean Z.lor b c Hb Hc Hsz).
  rewrite (decode_combine Z.lor _ _ (bm_data b) (bm_data c)); [done | by apply same_length | apply data_small | | | done | done].
  - intros j w d Hj _ Hm. by eapply word_set.
  - intros j k [] d Hj Hk Hjk Hm; [eapply run_set; try done; apply lor_whole | eapply run_kept; [done | intros; apply Z.lor_0_r | done]].
Qed.

Lemma meets_word j x w : at_index (bm_data b) j = Some x -> at_index (bm_data c) j = Some w -> meets (bm_data b) (bm_data c) j (j + 1) <-> Z.land x w <> 0.
Proof.
  intros X W. split; [intros (i & y & z & Hi & Y & Z & Hm); assert (i = j) as -> by lia; congruence | intros Hm; exists j, x, w; split_and!; (done || lia)].
Qed.

Lemma meets_run (v : bool) j k : 0 <= j -> (forall i, j <= i < j + k -> at_index (bm_data c) i = Some (whole v)) ->
  meets (bm_data b) (bm_data c) j (j + k) <-> v = true /\ exists i x, j <= i < j + k /\ at_index (bm_data b) i = Some x /\ x <> 0.
Proof.
  intros Hj Hr. split.
  - intros (i & x & y & Hi & X & Y & Hm). rewrite (Hr i Hi) in Y. injection Y as <-. destruct v; cbn [whole] in Hm; [| by rewrite Z.land_0_r in Hm].
    rewrite land_whole in Hm by exact (at_index_Forall _ _ _ _ (cl_words _ Hb) X). split; [done |]. by exists i, x.
  - intros (-> & i & x & Hi & X & Hx). exists i, x, (whole true). split_and!; try done; [lia.. | by apply Hr |]. cbn [whole]. by rewrite land_whole by exact (at_index_Forall _ _ _ _ (cl_words _ Hb) X).
Qed.

Lemma walk_cross its' j : items_ok its' -> 0 <= j -> drop (Z.to_nat j) (bm_data c) = words its' ->
  exists r, walk (fun pos count v (found : bool) => if v then r ← get_range pos count true (bm_data b); Some (r, negb r) else Some (found, true))
    (fun pos w (found : bool) => x ← at_index (bm_data b) (pos / VALUE_SIZE); if negb (Z.land x w =? 0) then Some (true, false) else Some (found, true)) its' j false = Some r /\
    (r = true <-> meets (bm_data b) (bm_data c) j (Z.max j (Z.of_nat (length (bm_data b))))).
Proof.
  pose proof (same_length b c Hb Hc Hsz) as Hl. pose proof data_small as Hsm. clear its Hok Hw c'. revert j. induction its' as [|it its IH]; intros j Hok Hj Hw; cbn [walk].
  - exists false. split; [done |]. split; [done |]. intros (i & x & y & Hi & X & _). apply (f_equal length) in Hw. rewrite length_drop in Hw. cbn in Hw. lia.
  - apply items_ok_cons in Hok as [Hit Hok]. unfold words in Hw. rewrite bind_cons in Hw. fold (words its) in Hw. pose proof (f_equal length Hw) as Hlw. rewrite length_drop, length_app in Hlw. destruct it as [w | v k].
    + cbn [item_words length] in *. pose proof (drop_run (bm_data c) j 1 w _ j Hj Hw ltac:(lia)) as W. pose proof (drop_more (bm_data c) j 1 w _ Hj Hw) as Hw'. destruct (at_index_Some (bm_data b) j) as [x X]; [lia |]. rewrite div_14, X. cbn [mbind option_bind].
      destruct (IH (j + 1)) as (r & Er & Hr); [done | lia | done |]. pose proof (meets_split (bm_data b) (bm_data c) j (j + 1) (Z.of_nat (length (bm_data b))) ltac:(lia)) as Hsp. rewrite (meets_word j x w X W) in Hsp. rewrite !Z.max_r in * by lia. destruct (Z.eqb_spec (Z.land x w) 0) as [E | E]; cbn [negb].
      * exists r. split; [done |]. rewrite Hsp, Hr. tauto.
      * exists true. split; [done |]. rewrite Hsp. tauto.
    + destruct Hit as [Hk1 Hk2]. cbn [item_words] in *. rewrite length_replicate in Hlw. pose proof (fun i => drop_run (bm_data c) j _ _ _ i Hj Hw) as W. pose proof (drop_more (bm_data c) j _ _ _ Hj Hw) as Hw'. rewrite Z2Nat.id in W, Hw' by lia.
      destruct (IH (j + k)) as (r & Er & Hr); [done | lia | done |]. pose proof (meets_split (bm_data b) (bm_data c) j (j + k) (Z.of_nat (length (bm_data b))) ltac:(lia)) as Hsp. rewrite (meets_run v j k Hj W) in Hsp. rewrite !Z.max_r in * by lia. destruct v; cbn [mbind option_bind].
      * destruct (get_range_spec j k (bm_data b)) as (r' & -> & Hr'); [lia.. | apply Hb |]. cbn [mbind option_bind]. rewrite <- Hr' in Hsp. destruct r'; cbn [negb].
        -- exists true. split; [done |]. rewrite Hsp. tauto.
        -- exists r. split; [done |]. rewrite Hsp, Hr. split; [by right | intros [[_ ?] | ?]; done].
      * exists r. split; [done |]. rewrite Hsp, Hr. split; [by right | intros [[? _] | ?]; done].
Qed.

Lemma cross_compressed : Bitmap_cross b c' = Bitmap_cross b c.
Proof.
  unfold Bitmap_cross, compressCross, c'. cbn [bm_compress bm_data]. rewrite (cl_plain _ Hb), (cl_plain _ Hc). cbn [negb andb]. destruct (normalCross_spec b c Hb Hc Hsz) as (r & -> & Hr).
  pose proof (same_length b c Hb Hc Hsz) as Hl. rewrite decode_all_walk; [| done | rewrite Hw, Hl; pose proof data_small; lia].
  destruct (walk_cross its 0) as (r' & -> & Hr'); [done | lia | done |]. f_equal. pose proof (meets_members b c Hb Hc Hsz) as Hmm. unfold dataSize in Hmm. rewrite Z.max_r, Hmm, <- Hr in Hr' by lia. by apply eq_iff_eq_true.
Qed.

End Compressed.
