(* ===== verification/BitmapQueries.v ===== *)
(** * Complement and count of compressed bitmaps, [any], [resize] and the files *)

From stdpp Require Import base list list_numbers numbers option sorting.
From Stdlib Require Import ZArith Lia.
From S2P Require Import Prelude.
From S2P Require Import ByteArray.
From S2P Require Import ByteCodec.
From S2P Require Import Bitmap.
From S2P Require Import BitmapFacts.
From S2P Require Import BitmapIterators.
From S2P Require Import BitmapCompress.

Local Open Scope Z_scope.

(** ** [operator~] *)

Definition word_not (w : Z) : Z := Z.land (Z.lnot w) COUNT_MASK.
Definition item_not (it : item) : item := match it with Word w => Word (word_not w) | Run v k => Run (negb v) k end.

(** What [operator~] does with a word of a compressed bitmap. *)
Definition code_not (cur : Z) : Z := if is_run cur then (if run_value cur then Z.land cur NOT_VALUE_MASK else Z.lor cur VALUE_MASK) else word_not cur.

Lemma word_not_testbit w i : 0 <= i -> Z.testbit (word_not w) i = negb (Z.testbit w i) && (i <? 14).
Proof. intros Hi. unfold word_not. rewrite Z.land_spec, Z.lnot_spec by done. f_equal. apply (Z.testbit_ones_nonneg 14); lia. Qed.

Lemma word_not_in_u w : in_u 14 (word_not w).
Proof. apply in_u_bits; [lia | apply Z.land_nonneg; right; by vm_compute |]. intros i Hi. rewrite word_not_testbit by lia. destruct (Z.ltb_spec i 14); [lia | apply andb_false_r]. Qed.

Lemma land_NOT_VALUE x : in_u 14 x -> Z.land x NOT_VALUE_MASK = x.
Proof.
  intros Hx. change NOT_VALUE_MASK with (Z.lor COUNT_MASK (2 ^ 15)). rewrite Z.land_lor_distr_r, land_whole, (land_high x 15) by (done || lia). apply Z.lor_0_r.
Qed.

Lemma code_not_digit v x : in_u 14 x -> code_not (digit_word v x) = digit_word (negb v) x.
Proof.
  intros Hx. unfold code_not. rewrite digit_is_run, digit_value by done. unfold digit_word. destruct v; cbn [negb].
  - rewrite Z.land_lor_distr_l, (land_NOT_VALUE x) by done. done.
  - rewrite <- !Z.lor_assoc. f_equal. apply Z.lor_comm.
Qed.

Lemma code_not_digits fuel v n : code_not <$> digits fuel v n = digits fuel (negb v) n.
Proof.
  revert n. induction fuel as [|fuel IH]; intros n; [done |]. cbn [digits]. destruct (n =? 0); [done |]. rewrite fmap_cons, IH, code_not_digit by apply mod_in_u. done.
Qed.

Lemma code_not_codes its : Forall item_ok its -> code_not <$> codes its = codes (item_not <$> its).
Proof.
  induction 1 as [|it its Hit _ IH]; [done |]. unfold codes in *. rewrite fmap_cons, !bind_cons, fmap_app, IH. f_equal. destruct it as [w | v k]; cbn [item_code item_not]; [| apply code_not_digits].
  cbn. unfold code_not. by rewrite word_not_run.
Qed.

Lemma words_not its : Forall item_ok its -> words (item_not <$> its) = word_not <$> words its.
Proof.
  induction 1 as [|it its Hit _ IH]; [done |]. unfold words in *. rewrite fmap_cons, !bind_cons, fmap_app, IH. f_equal. destruct it as [w | v k]; [done |]. cbn [item_words item_not]. rewrite fmap_replicate. by destruct v.
Qed.

Lemma items_ok_not its : items_ok its -> items_ok (item_not <$> its).
Proof.
  intros [H1 H2]. split.
  - apply Forall_fmap. eapply list.Forall_impl; [exact H1 |]. intros [w | v k]; cbn; [intros _; apply word_not_in_u | done].
  - clear H1. induction its as [|it its IH]; [done |]. destruct H2 as [H2 H3]. split; [| by apply IH]. destruct it as [w | v k]; [done |]. destruct its as [|[w | v' k'] its]; [done | done |]. cbn in *. by destruct v, v'.
Qed.

Lemma bits_not d p : 0 <= p < 14 * Z.of_nat (length d) -> bits (word_not <$> d) p = negb (bits d p).
Proof.
  intros Hp. destruct (word_split p ltac:(lia)) as (E & Hk & Hd). unfold bits, VALUE_SIZE. rewrite !at_index_lookup, list_lookup_fmap by done. destruct (lookup_lt_is_Some_2 d (Z.to_nat (p / 14))) as [w ->]; [lia |]. cbn.
  rewrite word_not_testbit by lia. destruct (Z.ltb_spec (p mod 14) 14); [apply andb_true_r | lia].
Qed.

Lemma not_compressed b its : clean b -> items_ok its -> words its = bm_data b ->
  exists c' b', Bitmap_not (mk_Bitmap true (bm_size b) (codes its) false) = Some c' /\ Bitmap_uncompress c' = Some b' /\ bm_size b' = bm_size b /\ Forall (in_u 14) (bm_data b') /\ dataSize b' = dataSize b /\
    forall p, 0 <= p < bm_size b -> member b' p = negb (member b p).
Proof.
  intros H Hok Hw. pose proof (size_words b H) as Hs. pose proof (cl_len _ H) as Hl. unfold Bitmap_not. cbn [bm_compress negb bm_data]. eexists _, _. split; [done |]. unfold put_data. cbn [bm_compress bm_size bm_null]. fold code_not.
  change (fun cur => if is_run cur then if run_value cur then Z.land cur NOT_VALUE_MASK else Z.lor cur VALUE_MASK else Z.land (Z.lnot cur) COUNT_MASK) with code_not.
  rewrite code_not_codes by apply Hok. unfold dataSize in *. rewrite uncompress_spec; [| by apply items_ok_not | apply H | rewrite words_not, length_fmap, Hw by apply Hok; done]. split; [done |]. rewrite words_not, Hw by apply Hok. cbn [bm_data bm_size].
  split; [done |]. split; [apply Forall_fmap, Forall_true; intros; apply word_not_in_u |]. split; [by rewrite length_fmap |]. intros p Hp. apply bits_not. lia.
Qed.

(** ** [getCount] *)

Definition sum_bits (l : list Z) : Z := foldr (fun w n => count_bits w + n) 0 l.

Lemma sum_bits_app l1 l2 : sum_bits (l1 ++ l2) = sum_bits l1 + sum_bits l2.
Proof. unfold sum_bits. induction l1 as [|w l1 IH]; cbn; [done |]. rewrite IH. lia. Qed.

Lemma sum_bits_replicate n w : sum_bits (replicate n w) = Z.of_nat n * count_bits w.
Proof. unfold sum_bits. induction n as [|n IH]; [done |]. cbn [replicate foldr]. rewrite IH. lia. Qed.

Lemma count_bits_pos w : 0 <= count_bits w.
Proof. unfold count_bits. lia. Qed.

Lemma sum_bits_pos l : 0 <= sum_bits l.
Proof. unfold sum_bits. induction l as [|w l IH]; cbn; [lia |]. pose proof (count_bits_pos w). lia. Qed.

Lemma sum_bits_counted b n : clean b -> (n <= length (bm_data b))%nat -> sum_bits (take n (bm_data b)) = counted b (Z.of_nat n).
Proof.
  intros H. induction n as [|n IH]; intros Hn; [unfold counted; by rewrite upto_0 |]. destruct (lookup_lt_is_Some_2 (bm_data b) n) as [w W]; [lia |]. rewrite (take_S_r _ _ w W), sum_bits_app, IH by lia.
  replace (Z.of_nat (S n)) with (Z.of_nat n + 1) by lia. rewrite (counted_word b (Z.of_nat n) w H) by (by rewrite at_index_lookup, Nat2Z.id by lia). cbn. lia.
Qed.

Lemma sum_bits_elements b : clean b -> sum_bits (bm_data b) = Z.of_nat (length (elements b)).
Proof.
  intros H. pose proof (size_words b H) as Hs. unfold dataSize in Hs. pose proof (sum_bits_counted b (length (bm_data b)) H ltac:(lia)) as E. rewrite firstn_all in E. rewrite E. unfold counted. by rewrite upto_all by lia.
Qed.

(** What the loop adds for a word of a compressed bitmap. *)
Definition code_count (w : Z) : Z := if is_run w then (if run_value w then Z.land w COUNT_MASK else 0) else count_bits w.

Lemma fold_count l : foldr (fun w count => u32 (count + code_count w)) 0 l = u32 (foldr (fun w n => code_count w + n) 0 l).
Proof. induction l as [|w l IH]; [done |]. cbn. rewrite IH. unfold u32, uwrap. rewrite Zplus_mod_idemp_l. f_equal. lia. Qed.

(** A run of less than 2^14 positions has one digit. *)
Definition short_run (it : item) : Prop := match it with Word _ => True | Run _ k => 14 * k < 2 ^ 14 end.

Lemma code_count_items its : Forall item_ok its -> Forall short_run its -> foldr (fun w n => code_count w + n) 0 (codes its) = sum_bits (words its).
Proof.
  intros H. induction H as [|it its Hit _ IH]; intros Hsh; [done |]. apply Forall_cons_1 in Hsh as [Hit' Hsh]. unfold codes, words in *. rewrite !bind_cons, foldr_app, sum_bits_app, IH by done. destruct it as [w | v k]; cbn [item_code item_words].
  - cbn. unfold code_count. by rewrite word_not_run, Z.add_0_r by done.
  - destruct Hit as [Hk _]. cbn in Hit'. rewrite run_code, Z.mod_small, Z.div_small by lia. cbn [digits Z.eqb foldr app]. unfold code_count. assert (in_u 14 (14 * k)) by (unfold in_u; lia).
    rewrite digit_is_run, digit_value, digit_count, sum_bits_replicate by done. destruct v; [rewrite (proj2 (count_whole (whole true) true (whole_in_u true)) eq_refl) | rewrite (proj2 (count_whole (whole false) false (whole_in_u false)) eq_refl)]; lia.
Qed.

Lemma short_runs its : Forall item_ok its -> 14 * Z.of_nat (length (words its)) < 2 ^ 14 -> Forall short_run its.
Proof.
  induction 1 as [|it its Hit _ IH]; intros Hl; [done |]. unfold words in *. rewrite bind_cons, length_app in Hl. constructor; [| apply IH; lia]. destruct it as [w | v k]; [done |]. pose proof (run_words_length v k ltac:(cbn in Hit; lia)). cbn [short_run]. lia.
Qed.

Lemma getCount_compressed b its : clean b -> items_ok its -> words its = bm_data b -> bm_size b <= 2 ^ 14 - 14 ->
  Bitmap_getCount (mk_Bitmap true (bm_size b) (codes its) false) = Bitmap_getCount b.
Proof.
  intros H Hok Hw Hsm. pose proof (size_words b H) as Hs. unfold dataSize in Hs. rewrite (getCount_spec b H). unfold Bitmap_getCount. cbn [bm_compress negb bm_data]. f_equal. etransitivity; [apply fold_count |].
  rewrite code_count_items, Hw, sum_bits_elements; [| done | apply Hok | apply short_runs; [apply Hok | rewrite Hw; lia]]. apply u32_small. split; [lia |]. unfold elements. pose proof (length_filter (fun p => member b p = true) (seqZ 0 (bm_size b))) as Hl. rewrite length_seqZ in Hl. pose proof (cl_size _ H). lia.
Qed.

(** ** [any] *)

Lemma some_word b : clean b -> existsb (fun w => negb (w =? 0)) (bm_data b) = true <-> elements b <> [].
Proof.
  intros H. rewrite existsb_exists. transitivity (meets (bm_data b) (bm_data b) 0 (dataSize b)).
  - split.
    + intros (w & Hin & Hw). apply list_elem_of_In, list_elem_of_lookup in Hin as [i Hi]. exists (Z.of_nat i), w, w. pose proof (lookup_lt_Some _ _ _ Hi). unfold dataSize. split; [lia |]. rewrite at_index_lookup, Nat2Z.id, Z.land_diag by lia.
      split; [done |]. split; [done |]. by destruct (Z.eqb_spec w 0).
    + intros (j & x & y & Hj & X & Y & Hm). assert (y = x) as -> by congruence. rewrite Z.land_diag in Hm. exists x. split; [| by destruct (Z.eqb_spec x 0)]. rewrite at_index_lookup in X by lia. apply list_elem_of_In. by eapply list_elem_of_lookup_2.
  - rewrite (meets_members b b H H eq_refl). split.
    + intros (p & Hp & Hm & _) E. assert (p ∈ elements b) as Hin by (apply list_elem_of_filter; split; [done | apply elem_of_seqZ; lia]). rewrite E in Hin. by apply not_elem_of_nil in Hin.
    + intros Hne. destruct (elements b) as [|p ps] eqn:E; [done |]. assert (p ∈ elements b) as Hin by (rewrite E; left). apply list_elem_of_filter in Hin as [Hm Hp%elem_of_seqZ]. exists p. split; [lia | done].
Qed.

(** The bits of the last word are those the mask keeps. *)
Lemma last_masked b w : clean b -> at_index (bm_data b) (dataSize b - 1) = Some w -> bm_size b mod 14 <> 0 -> Z.land w (MASK (bm_size b mod 14)) = w.
Proof.
  intros H W Hmod. pose proof (size_words b H) as Hs. pose proof (cl_size _ H). assert (0 <= bm_size b mod 14 < 14) as Hm by (apply Z.mod_pos_bound; lia). set (rest := bm_size b mod 14) in *.
  assert (bm_size b = 14 * (dataSize b - 1) + rest) as Esz by (unfold rest in *; Z.to_euclidean_division_equations; lia). pose proof (at_index_Forall _ _ _ _ (cl_words _ H) W) as Hw.
  assert (MASK rest = Z.ones rest) as ->.
  { unfold MASK, POS, u16, uwrap. rewrite Z.shiftl_1_l. pose proof (Z.pow_lt_mono_r 2 rest 14 ltac:(lia) ltac:(lia) ltac:(lia)). pose proof (Z.pow_pos_nonneg 2 rest ltac:(lia) ltac:(lia)). rewrite (Z.mod_small (2 ^ rest)), Z.mod_small by lia. rewrite Z.ones_equiv. lia. }
  apply Z.bits_inj'. intros i Hi. rewrite Z.land_spec. destruct (decide (i < rest)); [by rewrite Z.ones_spec_low, andb_true_r by lia |]. rewrite Z.ones_spec_high, andb_false_r by lia. symmetry.
  destruct (decide (i < 14)); [| by apply (in_u_testbit 14 w); (done || lia)]. rewrite <- (bits_at _ _ _ w W) by lia. apply (cl_tail _ H). lia.
Qed.

Lemma any_spec b : clean b -> bm_null b = false -> bm_size b mod 14 <> 0 -> exists r, Bitmap_any b = Some r /\ (r = true <-> elements b <> []).
Proof.
  intros H Hnull Hmod. pose proof (size_words b H) as Hs. pose proof (cl_size _ H). unfold Bitmap_any. rewrite Hnull, (cl_plain _ H). cbn [negb]. assert (0 < bm_size b) as Hpos by (destruct (decide (bm_size b = 0)) as [E |]; [by rewrite E in Hmod | lia]).
  destruct (Z.eqb_spec (dataSize b) 0); [lia |]. pose proof (some_word b H) as Hsw. destruct (at_index_Some (bm_data b) (dataSize b - 1)) as [w W]; [unfold dataSize in *; lia |]. rewrite W. cbn [mbind option_bind]. unfold VALUE_SIZE. rewrite last_masked by done.
  assert (existsb (fun w => negb (w =? 0)) (bm_data b) = existsb (fun w => negb (w =? 0)) (take (length (bm_data b) - 1) (bm_data b)) || negb (w =? 0)) as E.
  { unfold dataSize in *. rewrite at_index_lookup in W by lia. replace (Z.to_nat (Z.of_nat (length (bm_data b)) - 1)) with (length (bm_data b) - 1)%nat in W by lia.
    rewrite <- (firstn_all (bm_data b)) at 1. replace (length (bm_data b)) with (S (length (bm_data b) - 1)) at 1 by lia. rewrite (take_S_r _ _ w W), existsb_app. cbn. by rewrite orb_false_r. }
  rewrite E in Hsw. exists (existsb (fun w => negb (w =? 0)) (take (length (bm_data b) - 1) (bm_data b)) || negb (w =? 0)). split; [by destruct (existsb _ (take _ _)) | exact Hsw].
Qed.

(** ** [resize] *)

Lemma bits_app d e p : 0 <= p -> bits (d ++ e) p = if p <? 14 * Z.of_nat (length d) then bits d p else bits e (p - 14 * Z.of_nat (length d)).
Proof.
  intros Hp. destruct (word_split p Hp) as (E & Hk & Hd). unfold bits, VALUE_SIZE. destruct (Z.ltb_spec p (14 * Z.of_nat (length d))).
  - rewrite !at_index_lookup, lookup_app_l by lia. done.
  - replace (p - 14 * Z.of_nat (length d)) with (p + - Z.of_nat (length d) * 14) by lia. rewrite Z.div_add, Z.mod_add by lia. rewrite !at_index_lookup, lookup_app_r by lia. replace (Z.to_nat (p / 14 + - Z.of_nat (length d))) with (Z.to_nat (p / 14) - length d)%nat by lia. done.
Qed.

Lemma bits_zeros n p : bits (replicate n 0) p = false.
Proof. unfold bits, at_index. destruct (p / VALUE_SIZE <? 0); [done |]. destruct (replicate n 0 !! _) as [w |] eqn:E; [| done]. apply lookup_replicate in E as [-> _]. apply Z.testbit_0_l. Qed.

Lemma resize_grow b n : clean b -> bm_size b mod 14 <> 0 -> bm_size b <= n < 2 ^ 31 ->
  exists b', Bitmap_resize n false b = Ret tt b' /\ clean b' /\ bm_size b' = n /\ elements b' = elements b.
Proof.
  intros H Hmod Hn. pose proof (size_words b H) as Hs. pose proof (cl_size _ H). pose proof (words_for_spec n ltac:(lia)) as Hwn. pose proof (cl_len _ H) as Hl. unfold Bitmap_resize. rewrite (cl_plain _ H).
  assert (forall b', bm_size b' = n -> (forall p, 0 <= p -> member b' p = member b p) -> elements b' = elements b) as Hel.
  { intros b' E Hm. unfold elements. rewrite E. replace n with (bm_size b + (n - bm_size b)) by lia. rewrite seqZ_app, filter_app by lia. rewrite (filter_agree _ (fun _ => False) (seqZ (0 + bm_size b) _)).
    - assert (forall l : list Z, filter (fun _ : Z => False) l = []) as -> by (by induction l). rewrite app_nil_r. apply filter_agree. intros p Hp%elem_of_seqZ. by rewrite Hm by lia.
    - intros p Hp%elem_of_seqZ. rewrite Hm by lia. unfold member. rewrite (cl_tail _ H) by lia. by split. }
  destruct (Z.ltb_spec (dataSize b) (words_for n)) as [Hlt | Hge].
  - assert (bm_size b <> 0) by (intros E; by rewrite E in Hmod). destruct (at_index_Some (bm_data b) (dataSize b - 1)) as [w W]; [unfold dataSize in *; lia |]. set (e := replicate (Z.to_nat (words_for n - dataSize b)) 0).
    unfold dataSize in *. assert (at_index (bm_data b ++ e) (Z.of_nat (length (bm_data b)) - 1) = Some w) as W' by (rewrite at_index_lookup in W |- * by lia; rewrite lookup_app_l by lia; done).
    rewrite W'. cbn [mbind option_bind]. unfold VALUE_SIZE. fold (dataSize b) in W |- *. rewrite (last_masked b w H W Hmod). rewrite store_spec by (unfold dataSize; rewrite length_app; lia). rewrite list_insert_id by (rewrite at_index_lookup in W' by lia; done). cbn [lift].
    eexists. split; [done |]. assert (forall p, 0 <= p -> bits (bm_data b ++ e) p = bits (bm_data b) p) as Hbits.
    { intros p Hp. rewrite bits_app by done. destruct (Z.ltb_spec p (14 * Z.of_nat (length (bm_data b)))); [done |]. unfold e. rewrite bits_zeros. symmetry. apply (cl_tail _ H). lia. }
    split; [| split; [done | by apply Hel]]. split; cbn; [done | lia | unfold dataSize, e in *; cbn; rewrite length_app, length_replicate; lia | apply Forall_app; split; [apply H | by apply Forall_replicate] |]. intros p Hp. rewrite Hbits by lia. apply (cl_tail _ H). lia.
  - assert (words_for n = dataSize b) as E by (unfold dataSize in *; lia). eexists. split; [done |]. assert (take (Z.to_nat (words_for n)) (bm_data b) = bm_data b) as -> by (rewrite E; unfold dataSize; rewrite Nat2Z.id; apply firstn_all).
    split; [| split; [done | by apply Hel]]. split; cbn; [done | lia | by rewrite E | apply H |]. intros p Hp. apply (cl_tail _ H). lia.
Qed.

(** ** Saving and loading bitmaps *)


(** What fits the fields of the file format. *)
Record savable (b : Bitmap) : Prop := {
  sv_size : in_u 32 (bm_size b);
  sv_count : dataSize b < 2 ^ 32;
  sv_words : Forall (in_u 16) (bm_data b);
  sv_some : bm_data b <> [];
}.

Definition enc_bitmap (host e : endian) (b : Bitmap) : list Z :=
  enc_int uint8_t e (Z.b2z (bm_compress b)) ++ enc_int uint32_t e (bm_size b) ++ enc_int uint32_t e (dataSize b) ++ words_bytes host (bm_data b).

Lemma words_bytes_length host d : length (words_bytes host d) = (2 * length d)%nat.
Proof. induction d as [|w d IH]; [done |]. unfold words_bytes in *. rewrite bind_cons, length_app, IH, length_mem_of. cbn. lia. Qed.

Lemma bytes_words_bytes host d : Forall (in_u 16) d -> bytes_words host (words_bytes host d) = d.
Proof.
  induction 1 as [|w d Hw _ IH]; [done |]. unfold words_bytes in *. rewrite bind_cons. pose proof (length_mem_of host 2 w) as Hl. pose proof (of_mem_of host 2 w Hw) as E. destruct (mem_of host 2 w) as [|x [|y [|z l]]]; try done.
  cbn [app bytes_words]. by rewrite E, IH.
Qed.

Section IO.

Context (host : endian) (b : Bitmap) (Hb : savable b).

Lemma u8_ok : valid_ty uint8_t /\ in_ty uint8_t (Z.b2z (bm_compress b)).
Proof. split; [by left |]. by destruct (bm_compress b). Qed.

Lemma u32_ok v : 0 <= v < 2 ^ 32 -> valid_ty uint32_t /\ in_ty uint32_t v.
Proof. intros Hv. split; [right; right; by left | exact Hv]. Qed.

Lemma count_ok : valid_ty uint32_t /\ in_ty uint32_t (dataSize b).
Proof. apply u32_ok. pose proof (sv_count _ Hb). unfold dataSize in *. lia. Qed.

Lemma Bitmap_writeTo_spec s : wf s -> fits (length (enc_bitmap host (ba_endian s) b)) s ->
  exists s', Bitmap_writeTo host b s = Ret tt s' /\ written s (enc_bitmap host (ba_endian s) b) s'.
Proof.
  intros H Hf. unfold enc_bitmap in *. rewrite length_app in Hf. unfold Bitmap_writeTo.
  destruct (codec_wr (Codec := int_codec host uint8_t) _ s u8_ok H) as (s1 & E1 & W1); [eapply fits_le, Hf; lia |]. erewrite bind_Ret by exact E1. pose proof (fits_app _ _ _ _ W1 Hf) as Hf1. rewrite length_app in Hf1.
  rewrite <- (written_endian _ _ _ W1) in Hf1. destruct (codec_wr (Codec := int_codec host uint32_t) _ s1 (u32_ok _ (sv_size _ Hb)) (written_wf _ _ _ W1)) as (s2 & E2 & W2); [eapply fits_le, Hf1; lia |].
  erewrite bind_Ret by exact E2. pose proof (fits_app _ _ _ _ W2 Hf1) as Hf2. rewrite length_app in Hf2. rewrite <- (written_endian _ _ _ W2) in Hf2.
  destruct (codec_wr (Codec := int_codec host uint32_t) _ s2 count_ok (written_wf _ _ _ W2)) as (s3 & E3 & W3); [eapply fits_le, Hf2; lia |]. erewrite bind_Ret by exact E3. pose proof (fits_app _ _ _ _ W3 Hf2) as Hf3.
  destruct (ByteArray_write_spec s3 (words_bytes host (bm_data b)) (written_wf _ _ _ W3) Hf3) as (s4 & E4 & W4). exists s4. split; [done |].
  pose proof (written_app _ _ _ _ _ (written_wf _ _ _ W2) W3 W4) as W34. rewrite (written_endian _ _ _ W2) in W34. pose proof (written_app _ _ _ _ _ (written_wf _ _ _ W1) W2 W34) as W24. rewrite (written_endian _ _ _ W1) in W24. by apply (written_app s _ s1).
Qed.

Lemma Bitmap_readFrom_spec uninit b0 s rest : wf s -> remaining s = enc_bitmap host (ba_endian s) b ++ rest ->
  Bitmap_readFrom host uninit b0 s = Ret (true, copy_Bitmap b) (seek (ba_position s + length (enc_bitmap host (ba_endian s) b)) s).
Proof.
  intros H Hr. unfold enc_bitmap in *. rewrite <- !app_assoc in Hr. unfold Bitmap_readFrom. set (e := ba_endian s) in *.
  pose proof (codec_rd (Codec := int_codec host uint8_t) _ s _ u8_ok H Hr) as R1. fold e in R1. pose proof (remaining_room _ _ _ H Hr) as H1. pose proof (remaining_seek _ _ _ Hr) as Hr1. apply (seek_wf s) in H1 as Hw1; [| done]. set (s1 := seek _ s) in R1, Hr1, Hw1.
  unfold reading at 1. rewrite R1.
  pose proof (codec_rd (Codec := int_codec host uint32_t) _ s1 _ (u32_ok _ (sv_size _ Hb)) Hw1 Hr1) as R2. change (ba_endian s1) with e in R2. pose proof (remaining_room _ _ _ Hw1 Hr1) as H2. pose proof (remaining_seek _ _ _ Hr1) as Hr2. apply (seek_wf s1) in H2 as Hw2; [| done]. set (s2 := seek _ s1) in R2, Hr2, Hw2.
  unfold reading at 1. rewrite R2.
  pose proof (codec_rd (Codec := int_codec host uint32_t) _ s2 _ count_ok Hw2 Hr2) as R3. change (ba_endian s2) with e in R3. pose proof (remaining_room _ _ _ Hw2 Hr2) as H3. pose proof (remaining_seek _ _ _ Hr2) as Hr3. apply (seek_wf s2) in H3 as Hw3; [| done]. set (s3 := seek _ s2) in R3, Hr3, Hw3.
  unfold reading at 1. rewrite R3. pose proof (words_bytes_length host (bm_data b)) as Hl.
  assert (words_bytes host (bm_data b) <> []) as Hne by (intros E; rewrite E in Hl; cbn in Hl; destruct (bm_data b) eqn:Ed; [by destruct (sv_some _ Hb) | cbn in Hl; lia]).
  pose proof (read_prefix s3 _ rest Hw3 Hne Hr3) as R4. unfold reading at 1. replace (Z.to_nat (dataSize b * 2)) with (length (words_bytes host (bm_data b))) by (unfold dataSize; lia). rewrite R4.
  unfold mret, M_ret. rewrite bytes_words_bytes by apply Hb. unfold put_data, copy_Bitmap. cbn [bm_compress bm_size bm_null]. f_equal.
  - do 2 f_equal. by destruct (bm_compress b).
  - unfold s3, s2, s1. rewrite !seek_seek. cbn [seek ba_position]. f_equal. rewrite !length_app. lia.
Qed.

End IO.
