(* ===== verification/BitmapClaims.v ===== *)
(** * What bitmaps promise

    A bitmap of a given size is a set of positions below it, whichever of its
    operands are compressed; compression, saving and loading lose nothing; and
    the calls that do not keep this promise. *)

From stdpp Require Import base list list_numbers numbers option sorting gmap.
From Stdlib Require Import ZArith Lia.
From S2P Require Import Prelude.
From S2P Require Import ByteArray.
From S2P Require Import ByteCodec.
From S2P Require Import Bitmap.
From S2P Require Import BitmapFacts.
From S2P Require Import BitmapIterators.
From S2P Require Import BitmapCompress.
From S2P Require Import BitmapQueries.

Local Open Scope Z_scope.

(** ** The abstract bitmap *)

Definition abs (b : Bitmap) : gset Z := list_to_set (elements b).

(** A set of positions below [n], in order. *)
Definition listing (n : Z) (X : gset Z) : list Z := filter (fun p => p ∈ X) (seqZ 0 n).

(** The right operand of [&=], [|=] and [cross]: a plain bitmap, or what
    [compress] makes of it. *)
Definition given (o : Bitmap * bool) : option Bitmap := if snd o then Bitmap_compress (fst o) else Some (fst o).

Inductive call :=
| CGet (p : Z)
| CSet (p : Z) (v : bool)
| CAnd (o : Bitmap * bool)
| COr (o : Bitmap * bool)
| CCross (o : Bitmap * bool)
| CForeach (k : nat)
| CRforeach (k : nat)
| CIterator
| CIteratorReverse
| CGetCount.

Inductive answer :=
| ADone
| ABool (r : bool)
| APositions (ps : list Z)
| ACount (n : Z).

Definition state_of (o : outcome Bitmap unit) : option (answer * Bitmap) := match o with Ret _ b => Some (ADone, b) | _ => None end.

(** The callback that collects [k] positions. *)
Definition collect (k : nat) (p : Z) (ps : list Z) : bool * list Z := ((length ps + 1 <? k)%nat, ps ++ [p]).

Definition do_call (cl : call) (b : Bitmap) : option (answer * Bitmap) :=
  match cl with
  | CGet p => r ← Bitmap_get p b; Some (ABool r, b)
  | CSet p v => b ← Bitmap_set p v b; Some (ADone, b)
  | CAnd o => c ← given o; state_of (Bitmap_and_assign c b)
  | COr o => c ← given o; state_of (Bitmap_or_assign c b)
  | CCross o => c ← given o; r ← Bitmap_cross b c; Some (ABool r, b)
  | CForeach k => ps ← foreach (collect k) b []; Some (APositions ps, b)
  | CRforeach k => ps ← rforeach (collect k) b []; Some (APositions ps, b)
  | CIterator => p ← iterator_begin b; ps ← iterate (Z.to_nat (bm_size b) + 1) b p; Some (APositions ps, b)
  | CIteratorReverse => p ← iterator_rbegin b; ps ← iterate_reverse (Z.to_nat (bm_size b) + 1) b p; Some (APositions ps, b)
  | CGetCount => n ← Bitmap_getCount b; Some (ACount n, b)
  end.

Definition set_call (n : Z) (cl : call) (X : gset Z) : answer * gset Z :=
  match cl with
  | CGet p => (ABool (bool_decide (p ∈ X)), X)
  | CSet p v => (ADone, if v then X ∪ {[p]} else X ∖ {[p]})
  | CAnd o => (ADone, X ∩ abs (fst o))
  | COr o => (ADone, X ∪ abs (fst o))
  | CCross o => (ABool (negb (bool_decide (X ## abs (fst o)))), X)
  | CForeach k => (APositions (take k (listing n X)), X)
  | CRforeach k => (APositions (take k (reverse (listing n X))), X)
  | CIterator => (APositions (listing n X), X)
  | CIteratorReverse => (APositions (reverse (listing n X)), X)
  | CGetCount => (ACount (Z.of_nat (size X)), X)
  end.

Fixpoint do_calls (cls : list call) (b : Bitmap) : option (list answer * Bitmap) :=
  match cls with
  | [] => Some ([], b)
  | cl :: cls => '(a, b) ← do_call cl b; '(l, b) ← do_calls cls b; Some (a :: l, b)
  end.

Fixpoint set_calls (n : Z) (cls : list call) (X : gset Z) : list answer * gset Z :=
  match cls with
  | [] => ([], X)
  | cl :: cls => let '(a, X) := set_call n cl X in let '(l, X) := set_calls n cls X in (a :: l, X)
  end.

(** Positions are below the size, operands are clean and of the same size, at
    least one position is collected. *)
Definition call_ok (n : Z) (cl : call) : Prop :=
  match cl with
  | CGet p | CSet p _ => 0 <= p < n
  | CAnd o | COr o | CCross o => clean (fst o) /\ bm_size (fst o) = n
  | CForeach k | CRforeach k => (0 < k)%nat
  | _ => True
  end.

Lemma elem_abs b p : p ∈ abs b <-> 0 <= p < bm_size b /\ member b p = true.
Proof. unfold abs, elements. rewrite elem_of_list_to_set, list_elem_of_filter, elem_of_seqZ, Z.add_0_l. tauto. Qed.

Lemma listing_abs b : listing (bm_size b) (abs b) = elements b.
Proof. unfold listing, elements. apply filter_agree. intros p Hp%elem_of_seqZ. rewrite elem_abs. split; [tauto | split; [lia | done]]. Qed.

Lemma abs_size b : size (abs b) = length (elements b).
Proof. unfold abs. apply size_list_to_set, NoDup_filter, NoDup_seqZ. Qed.

Lemma new_clean n : 0 <= n < 2 ^ 31 -> clean (new_Bitmap n 0) /\ abs (new_Bitmap n 0) = ∅.
Proof.
  intros Hn. assert (forall p, bits (bm_data (new_Bitmap n 0)) p = false) as Hz by (intros p; apply (bits_zeros (Z.to_nat (words_for n)))). pose proof (words_for_spec n ltac:(lia)). split.
  - split; [done | done | unfold dataSize; cbn; rewrite length_replicate; lia | apply Forall_replicate; by vm_compute | intros p _; apply Hz].
  - apply set_eq. intros p. rewrite elem_abs. unfold member. rewrite Hz. split; [by intros [_ ?] | by intros ?%not_elem_of_empty].
Qed.

Lemma collect_spec k ps acc : (length acc < k)%nat -> fst (call_back (collect k) ps acc) = acc ++ take (k - length acc) ps.
Proof.
  revert acc. induction ps as [|p ps IH]; intros acc Hl; cbn [call_back collect]; [by rewrite take_nil, app_nil_r |]. replace (k - length acc)%nat with (Datatypes.S (k - (length acc + 1)))%nat by lia. cbn [take].
  destruct (Nat.ltb_spec (length acc + 1) k); [rewrite IH by (rewrite length_app; cbn; lia); rewrite length_app, <- app_assoc; done |]. by replace (k - (length acc + 1))%nat with 0%nat by lia.
Qed.

Lemma given_cases o n : clean (fst o) -> exists c, given o = Some c /\ (forall b, clean b -> bm_size b = n -> bm_size (fst o) = n ->
  Bitmap_and_assign c b = Bitmap_and_assign (fst o) b /\ Bitmap_or_assign c b = Bitmap_or_assign (fst o) b /\ Bitmap_cross b c = Bitmap_cross b (fst o)).
Proof.
  intros H. destruct o as [c []]; cbn [fst snd given] in *; [| by exists c]. destruct (compress_spec c H) as (its & Hok & Hw & E). unfold given. cbn [fst snd]. rewrite E. eexists. split; [done |]. intros b Hb Hs Hs'.
  split; [apply and_compressed; (done || congruence) |]. split; [apply or_compressed; (done || congruence) | apply cross_compressed; (done || congruence)].
Qed.

Lemma zip_abs op `{!Bitwise op} b c : clean b -> clean c -> bm_size c = bm_size b -> clean (put_data (zip_with op (bm_data b) (bm_data c)) b) /\
  forall p, p ∈ abs (put_data (zip_with op (bm_data b) (bm_data c)) b) <-> 0 <= p < bm_size b /\ on_bit (member b p) (member c p) = true.
Proof. intros Hb Hc Es. destruct (zip_clean op b c Hb Hc Es) as [H1 H2]. split; [done |]. intros p. rewrite elem_abs, H2. done. Qed.

Lemma set_abs b p v : clean b -> 0 <= p < bm_size b -> exists b', Bitmap_set p v b = Some b' /\ clean b' /\ bm_size b' = bm_size b /\ abs b' = if v : bool then abs b ∪ {[p]} else abs b ∖ {[p]}.
Proof.
  intros H Hp. destruct (Bitmap_set_spec b p v H Hp) as (b' & E & H' & Hs & Hm). exists b'. split_and!; try done. apply set_eq. intros q. rewrite elem_abs, Hs. transitivity (if v then q ∈ abs b \/ q = p else q ∈ abs b /\ q <> p); [| destruct v; set_unfold; tauto].
  destruct (decide (0 <= q)) as [Hq |]; [| destruct v; rewrite elem_abs; lia]. rewrite (Hm q Hq). destruct (Z.eqb_spec q p) as [-> |], v; rewrite elem_abs; intuition congruence.
Qed.

Lemma cross_abs b c : clean b -> clean c -> bm_size c = bm_size b -> Bitmap_cross b c = Some (negb (bool_decide (abs b ## abs c))).
Proof.
  intros Hb Hc Es. unfold Bitmap_cross. rewrite (cl_plain _ Hb), (cl_plain _ Hc). cbn [negb andb]. destruct (normalCross_spec b c Hb Hc Es) as (r & -> & Hr). f_equal. apply eq_iff_eq_true. rewrite Hr. rewrite negb_true_iff, bool_decide_eq_false. split.
  - intros (p & Hp & H1 & H2) Hd. apply (Hd p); apply elem_abs; [done | by rewrite Es].
  - intros Hn. destruct (decide (Exists (fun p => p ∈ abs c) (elements b))) as [(p & Hin & Hpc)%Exists_exists | Hno].
    + apply list_elem_of_filter in Hin as [Hm Hp%elem_of_seqZ]. apply elem_abs in Hpc as [_ Hpc]. exists p. split; [lia | done].
    + destruct Hn. intros p Hpb Hpc. apply Hno, Exists_exists. exists p. split; [| done]. by apply elem_of_list_to_set in Hpb.
Qed.

Lemma call_refines n cl b : clean b -> bm_size b = n -> call_ok n cl -> exists a b', do_call cl b = Some (a, b') /\ clean b' /\ bm_size b' = n /\ set_call n cl (abs b) = (a, abs b').
Proof.
  intros H <- Hok. destruct cl as [p | p v | o | o | o | k | k | | |]; cbn [do_call set_call call_ok] in *.
  - rewrite Bitmap_get_spec by done. eexists _, _. split; [done |]. split_and!; try done. do 2 f_equal. apply eq_iff_eq_true. rewrite bool_decide_eq_true, elem_abs. tauto.
  - destruct (set_abs b p v H Hok) as (b' & -> & H' & Hs & Ha). eexists _, _. split; [done |]. by rewrite Ha.
  - destruct Hok as [Hc Hs]. destruct (given_cases o (bm_size b) Hc) as (c & -> & Hg). destruct (Hg b H eq_refl Hs) as (E & _ & _). cbn [mbind option_bind]. rewrite E, and_assign_spec by done. destruct (zip_abs Z.land b (fst o) H Hc Hs) as [H' Ha].
    eexists _, _. split; [done |]. split; [done |]. split; [done |]. f_equal. apply set_eq. intros p. rewrite Ha, elem_of_intersection, !elem_abs, Hs. cbn [on_bit land_bitwise]. rewrite andb_true_iff. tauto.
  - destruct Hok as [Hc Hs]. destruct (given_cases o (bm_size b) Hc) as (c & -> & Hg). destruct (Hg b H eq_refl Hs) as (_ & E & _). cbn [mbind option_bind]. rewrite E, or_assign_spec by done. destruct (zip_abs Z.lor b (fst o) H Hc Hs) as [H' Ha].
    eexists _, _. split; [done |]. split; [done |]. split; [done |]. f_equal. apply set_eq. intros p. rewrite Ha, elem_of_union, !elem_abs, Hs. cbn [on_bit lor_bitwise]. rewrite orb_true_iff. tauto.
  - destruct Hok as [Hc Hs]. destruct (given_cases o (bm_size b) Hc) as (c & -> & Hg). destruct (Hg b H eq_refl Hs) as (_ & _ & E). cbn [mbind option_bind]. rewrite E, cross_abs by done. by eexists _, _.
  - rewrite foreach_spec by done. cbn [mbind option_bind]. rewrite collect_spec, <- listing_abs, Nat.sub_0_r by done. by eexists _, _.
  - rewrite rforeach_spec by done. cbn [mbind option_bind]. rewrite collect_spec, <- listing_abs, Nat.sub_0_r by done. by eexists _, _.
  - destruct (iterator_spec b H) as (p & -> & E). cbn [mbind option_bind]. rewrite E, <- listing_abs. by eexists _, _.
  - destruct (iterator_reverse_spec b H) as (p & -> & E). cbn [mbind option_bind]. rewrite E, <- listing_abs. by eexists _, _.
  - rewrite getCount_spec, <- abs_size by done. by eexists _, _.
Qed.

Lemma calls_refine n cls b : clean b -> bm_size b = n -> Forall (call_ok n) cls -> exists l b', do_calls cls b = Some (l, b') /\ clean b' /\ bm_size b' = n /\ set_calls n cls (abs b) = (l, abs b').
Proof.
  intros H Hs Hok. revert b H Hs. induction Hok as [|cl cls Hcl _ IH]; intros b H Hs; cbn [do_calls set_calls]; [by eexists _, _ |]. destruct (call_refines n cl b H Hs Hcl) as (a & b1 & -> & H1 & Hs1 & ->). cbn [mbind option_bind].
  destruct (IH b1 H1 Hs1) as (l & b2 & -> & H2 & Hs2 & ->). by eexists _, _.
Qed.

(** C10: a bitmap is a set of positions.  From [Bitmap(n)], any sequence of
    [get], [set], [&=], [|=], [cross], [foreach], [rforeach], [getCount] and
    walks with both iterators, with positions below the size and operands of
    the same size that are plain or compressed, answers as the set of positions
    does: no access leaves the array, [foreach] and [rforeach] stop when the
    callback returns false, the walks end and list the positions in order, and
    the words stay clean. *)
Theorem Bitmap_refines_set n cls : 0 <= n < 2 ^ 31 -> Forall (call_ok n) cls ->
  exists l b, do_calls cls (new_Bitmap n 0) = Some (l, b) /\ set_calls n cls ∅ = (l, abs b) /\ clean b.
Proof.
  intros Hn Hok. destruct (new_clean n Hn) as [H Ha]. destruct (calls_refine n cls (new_Bitmap n 0) H eq_refl Hok) as (l & b & E & Hb & _ & Es). rewrite Ha in Es. by exists l, b.
Qed.

(** Positions 0, 1, 20 and 33 of 70. *)
Definition sample : Bitmap := mk_Bitmap false 70 [3; 64; 32; 0; 0] false.

Lemma sample_clean : clean sample.
Proof.
  split; [done | done | done | repeat constructor; by vm_compute |]. intros p Hp. unfold bits. rewrite at_index_lookup; [| apply Z.div_pos; cbn in Hp; [lia | done]].
  rewrite lookup_ge_None_2; [done |]. cbn in *. assert (5 <= p / VALUE_SIZE) by (apply Z.div_le_lower_bound; [done | unfold VALUE_SIZE; lia]). lia.
Qed.

Lemma Bitmap_refines_set_witness :
  exists l b, do_calls [CSet 20 true; CSet 69 true; COr (sample, true); CSet 1 false; CForeach 3; CCross (sample, false); CGetCount] (new_Bitmap 70 0) = Some (l, b) /\
    set_calls 70 [CSet 20 true; CSet 69 true; COr (sample, true); CSet 1 false; CForeach 3; CCross (sample, false); CGetCount] ∅ = (l, abs b) /\ clean b.
Proof. apply Bitmap_refines_set; [lia |]. repeat constructor; cbn; try lia; apply sample_clean. Defined.

(** ** Compression and files *)










(** ** Compressed operands *)

(** [c] is the compressed form of the clean bitmap [b]. *)
Definition compressed_form (b c : Bitmap) : Prop := clean b /\ Bitmap_compress b = Some c.

(** C12: computing with a compressed bitmap gives what the plain one gives:
    [&=], [|=] and [cross] with it as the right operand, [operator~] followed
    by [uncompress], and, for sizes up to 16370, [getCount]. *)
Theorem compressed_equivalence b c d : compressed_form b c -> clean d -> bm_size d = bm_size b ->
  Bitmap_and_assign c d = Bitmap_and_assign b d /\ Bitmap_or_assign c d = Bitmap_or_assign b d /\ Bitmap_cross d c = Bitmap_cross d b /\
  (bm_size b <= 16370 -> Bitmap_getCount c = Bitmap_getCount b) /\
  exists c' b', Bitmap_not c = Some c' /\ Bitmap_uncompress c' = Some b' /\ bm_size b' = bm_size b /\ forall p, 0 <= p < bm_size b -> member b' p = negb (member b p).
Proof.
  intros [Hb Hc] Hd Hs. destruct (compress_spec b Hb) as (its & Hok & Hw & E). assert (c = mk_Bitmap true (bm_size b) (codes its) false) as -> by congruence.
  split; [by apply and_compressed |]. split; [by apply or_compressed |]. split; [by apply cross_compressed |]. split; [intros Hsm; apply getCount_compressed; (done || lia) |].
  destruct (not_compressed b its Hb Hok Hw) as (c' & b' & E1 & E2 & Hs' & _ & _ & Hm). by exists c', b'.
Qed.

Lemma compressed_equivalence_witness :
  exists c, Bitmap_compress sample = Some c /\ Bitmap_or_assign c (new_Bitmap 70 0) = Bitmap_or_assign sample (new_Bitmap 70 0).
Proof.
  eexists. split; [vm_compute; reflexivity |]. apply (compressed_equivalence sample _ (new_Bitmap 70 0)); [split; [apply sample_clean | vm_compute; reflexivity] | apply new_clean; lia | reflexivity].
Defined.

(** ** Where the promise ends *)

(** All positions of [n] words. *)
Definition full (n : nat) : Bitmap := mk_Bitmap false (14 * Z.of_nat n) (replicate n COUNT_MASK) false.

(** C13: [any] and [resize] at word boundaries.  While the size is no multiple of
    14, [any] says whether a position is set, and [resize] to a larger size
    with false keeps the positions.  At a multiple of 14 [any] ignores the last
    word, and [resize] clears it.  [resize] with true sets the old positions of
    the last word instead of the new ones.  [any] of a compressed bitmap of
    zeros is true.  [getCount] of a compressed run of 16394 ones is 11.  After
    [operator~] a plain bitmap is compressed to words that [uncompress] takes
    for the digits of a run. *)
Theorem Bitmap_edges :
  (forall b, clean b -> bm_null b = false -> bm_size b mod 14 <> 0 ->
    (exists r, Bitmap_any b = Some r /\ (r = true <-> elements b <> [])) /\
    (forall n, bm_size b <= n < 2 ^ 31 -> exists b', Bitmap_resize n false b = Ret tt b' /\ clean b' /\ bm_size b' = n /\ elements b' = elements b)) /\
  (elements (full 1) = seqZ 0 14 /\ Bitmap_any (full 1) = Some false) /\
  (exists b', Bitmap_resize 15 false (full 1) = Ret tt b' /\ elements b' = []) /\
  (exists b', Bitmap_resize 20 true (new_Bitmap 10 0) = Ret tt b' /\ elements b' = seqZ 0 10 ++ seqZ 14 6) /\
  (exists c, Bitmap_compress (new_Bitmap 28 0) = Some c /\ Bitmap_any c = Some true) /\
  (exists c, Bitmap_compress (full 1171) = Some c /\ Bitmap_getCount c = Some 11) /\
  (exists b c, Bitmap_not (mk_Bitmap false 28 [1; 1] false) = Some b /\ Bitmap_compress b = Some c /\ Bitmap_uncompress c = None).
Proof.
  split; [intros b H Hn Hm; split; [by apply any_spec | intros n Hr; by apply resize_grow] |]. split; [split; vm_compute; reflexivity |].
  split; [exists (mk_Bitmap false 15 [0; 0] false); split; vm_compute; reflexivity |]. split; [exists (mk_Bitmap false 20 [1023; 65535] false); split; vm_compute; reflexivity |].
  split; [exists (mk_Bitmap true 28 [32796] false); split; vm_compute; reflexivity |]. split; [exists (mk_Bitmap true 16394 [49162; 49153] false); split; vm_compute; reflexivity |].
  exists (mk_Bitmap false 28 [65534; 65534] false), (mk_Bitmap true 28 [65534; 65534] false). split; [vm_compute; reflexivity |]. split; vm_compute; reflexivity.
Qed.

Lemma Bitmap_edges_witness : elements (full 1) = seqZ 0 14 /\ Bitmap_any (full 1) = Some false /\ exists r, Bitmap_any (mk_Bitmap false 15 [5; 1] false) = Some r /\ (r = true <-> elements (mk_Bitmap false 15 [5; 1] false) <> []).
Proof.
  destruct Bitmap_edges as (H1 & [H2 H3] & _). split; [exact H2 |]. split; [exact H3 |]. apply H1; [| reflexivity | vm_compute; congruence]. split; [done | done | done | repeat constructor; by vm_compute |].
  intros p Hp. cbn in Hp. unfold bits. destruct (decide (p < 28)) as [Hlt |].
  - assert (p / VALUE_SIZE = 1) as -> by (unfold VALUE_SIZE; Z.to_euclidean_division_equations; lia). cbn. assert (1 <= p mod VALUE_SIZE < 14) as Hm by (unfold VALUE_SIZE; Z.to_euclidean_division_equations; lia). apply (in_u_testbit 1 1); [by vm_compute | lia].
  - rewrite at_index_lookup by (apply Z.div_pos; [lia | done]). rewrite lookup_ge_None_2; [done |]. cbn. assert (2 <= p / VALUE_SIZE) by (apply Z.div_le_lower_bound; [done | unfold VALUE_SIZE; lia]). lia.
Defined.
